(* ===== verification/_CoqProject ===== *)
-Q . S2P
Prelude.v
Deque.v
DequeOps.v
Bits.v
Bytes.v
CompactU16.v
Txn.v
TxnParse.v
TxnFormat.v
TxnCorrect.v
TxnAccts.v
TxnGenerate.v
Shred.v
Bmtree.v
BmtreeIdx.v
BmtreeView.v
BmtreeProof.v
BmtreeRun.v
BmtreeCommit.v
BmtreePath.v
ShredRoot.v
Links.v
Pool.v
MapChain.v
MapChainOps.v
MapDynamic.v
Dlist.v
Hash.v
Tcache.v
Reasm.v
ReasmTree.v
ReasmInv.v
ReasmMark.v
ReasmPlace.v
ReasmInsert.v
ReasmRemove.v
ReasmEvict.v
ReasmPublish.v
ReasmRun.v
ReasmCorrect.v
ReasmExample.v
Votes.v
VotesSpec.v
VotesVoters.v
VotesRun.v
Hfork.v
HforkInv.v
HforkRun.v
Eqvoc.v
EqvocInv.v
EqvocChunks.v
EqvocSerde.v
EqvocVerify.v
EqvocVoters.v
EqvocProofs.v
EqvocShreds.v
EqvocRun.v
EqvocExample.v
TowerVotes.v
TowerBlocks.v
Ghost.v
GhostInv.v
GhostTree.v
GhostSubtree.v
GhostPublish.v
GhostReach.v
TowerSerdes.v
VoteAcc.v
TowerLockos.v
TowerStakes.v
Tower.v
TowerRules.v
TowerReconcile.v
SimpleVote.v
VoteTxn.v
TowerSwitch.v
TowerVoting.v
TowerExample.v
Replay.v
Ingress.v
