(* ===== verification/Prelude.v ===== *)
(** * Firedancer: the consensus core, verified

    Firedancer is a Solana validator written in C.  This development models
    the code that decides what the validator votes for, the code that counts
    the votes of others, the code that puts received blocks in order for
    replay, and the containers they are built on.  Paths below
    are relative to the repository's [src/] directory.

    ** The program's parts and how they interact

    Blocks arrive as FEC sets in any order; [discof/reasm/fd_reasm.c] chains
    them by their Merkle roots, holds back equivocating ones until they are
    confirmed and delivers them to the replay tile
    ([discof/replay/fd_replay_tile.c]), parents first.
    A block is replayed and reported to the tower tile, which inserts it into
    the fork tree ([choreo/ghost/fd_ghost.c], LMD-GHOST) and into the tower's
    block metadata ([choreo/tower/fd_tower.c]).  Votes found in blocks move
    stake in the tree; [fd_tower_vote_and_reset] then takes the heaviest
    block, checks the rules of TowerBFT (lockout, threshold stake, switch
    proof, propagation) and either votes, which pushes onto the tower and may
    root a slot, or only resets to another fork.  The vote is serialised into
    a vote instruction ([choreo/tower/fd_tower_serdes.c]) and put into a
    transaction ([flamenco/txn/fd_txn_generate.c]); the votes of others arrive
    as transactions too, which [ballet/txn/fd_txn_parse.c] parses and
    [fd_txn_parse_simple_vote] reads.  Next to this,
    [choreo/votes/fd_votes.c] counts votes per block id to find confirmed
    blocks, [choreo/hfork/fd_hfork.c] compares bank hashes with those of the
    cluster, and [choreo/eqvoc/fd_eqvoc.c] finds and exchanges proofs that a
    leader produced two blocks for one slot, which rest on the shred format
    ([ballet/shred/fd_shred.c]) and its Merkle trees
    ([ballet/bmtree/fd_bmtree.c]).  All of them keep their state in pools,
    hash chain maps, linked lists and deques ([util/tmpl/]).

    ** Conventions

    A [ulong] is a [Z] in [0, 2^64) and arithmetic that can leave the range is
    wrapped with [u64]; narrower integers are reduced the same way.  Code that
    can fail runs in the error monad [res]: [Ok] is a return, [Crit] a failed
    [FD_TEST] or [FD_LOG_CRIT], [Ub] a use of memory or of a data structure
    outside its contract, [Hang] a loop whose fuel ran out.  The model is of
    the default build (FD_*_USE_HANDHOLDING is on in fd_reasm and off elsewhere).  [double]
    arithmetic is IEEE 754 through the Corelib's [SpecFloat].  Loops whose
    termination depends on the data are [loop] with fuel one more than the
    number of elements the loop can visit (the length of the deque, the
    capacity of the pool, ...); every theorem about such code concludes [Ok],
    so it shows that the fuel is enough.

    Where a component addresses a pool element through a map, the model of the
    component uses the key of the map for the element's index and a count for
    the pool's free elements.  Pool and MapChain justify this: they model the
    templates with their indices, free lists and chains, and prove that they
    behave like a set of free indices and like a finite map.

    ** Files

    Containers and words:
    - Prelude: [res], loops, wrap-around, sums over finite maps.
    - Deque, DequeOps: [util/tmpl/fd_deque.c]; the ring buffer with its 64-bit
      cursors, the class [Deque] its clients are proved against, and the
      refinement of a list.
    - Bits: [util/bits/fd_bits.h] as far as it is used; Bytes: little-endian
      words and memory objects.
    - Links: list removal, acquisition and the marking sweep shared by the
      voter updates of fd_votes, fd_hfork and fd_eqvoc.
    - Pool: [util/tmpl/fd_pool.c], eager and lazy.
    - MapChain, MapChainOps: [util/tmpl/fd_map_chain.c].
    - MapDynamic: [util/tmpl/fd_map_dynamic.c], open addressing
      with linear probing and removal without tombstones.
    - Dlist: [util/tmpl/fd_dlist.c]; Hash: [util/fd_hash.c]; Tcache:
      [tango/tcache], whose map does the steps of MapDynamic.
    Transactions:
    - CompactU16: [ballet/txn/fd_compact_u16.h]; Txn: the descriptor of
      [ballet/txn/fd_txn.h]; TxnParse: [fd_txn_parse_core].
    - TxnFormat: the wire format as an encoder, the specification of the
      parser, and how its parts read; TxnCorrect: the parser accepts exactly
      its image.
    - TxnAccts: account categories and the iterator of [fd_txn.h].
    - TxnGenerate: [flamenco/txn/fd_txn_generate.c].
    - Ingress: the verify and the dedup tile ([disco/verify], [disco/dedup]),
      from the arrival of a message to its publication.
    Tower:
    - TowerVotes: the vote tower of [fd_tower.c] ([simulate_vote],
      [push_vote]) and the shape lockouts have.
    - TowerBlocks, TowerLockos, TowerStakes: block metadata, lockout intervals
      and per-slot voter stakes.
    - TowerSerdes, VoteAcc: vote instructions and vote accounts on the wire.
    - Tower: the checks, [fd_tower_vote_and_reset], [fd_tower_reconcile],
      [fd_tower_count_vote], [fd_tower_verify].
    - TowerRules, TowerReconcile, TowerSwitch, TowerVoting: their theorems;
      TowerExample: the concrete fork tree on which they are instantiated.
    - SimpleVote: [fd_txn_parse_simple_vote]; VoteTxn:
      [fd_tower_to_vote_txn] from the tower to the reader of the transaction.
    Fork choice:
    - Ghost: all of [fd_ghost.c] that changes or queries the tree.
    - GhostInv, GhostTree, GhostSubtree, GhostPublish: the invariant and the
      theorems per operation; GhostReach: all reachable trees.
    Vote counting:
    - Votes, VotesSpec, VotesVoters, VotesRun: [fd_votes.c] and the abstract
      counter it implements.
    - Hfork, HforkInv, HforkRun: [fd_hfork.c].
    Reassembly and replay:
    - Reasm: [discof/reasm/fd_reasm.c], every operation on its state; a FEC set
      is named by its Merkle root, the maps are sets and the linked lists
      lists of roots, [evict] gets the order of the map iterators.
    - ReasmTree: queue loops and the left-child, right-sibling links;
      ReasmInv: the invariant and the map of slots and indices; ReasmMark,
      ReasmPlace, ReasmInsert, ReasmRemove, ReasmEvict, ReasmPublish: the
      operations, and removing parts of the trees.
    - ReasmRun: the operations a caller may call ([op], [op_ok]) and what every
      step keeps; ReasmCorrect: the theorems about reachable states;
      ReasmExample: the concrete runs on which they are instantiated.
    - Replay: [process_fec_set] and [backfill_fec_sets] of the replay tile.
    Shreds and equivocation:
    - Shred: the header, sizes and parser of [ballet/shred/fd_shred.c];
      ShredRoot: [fd_shred_merkle_root].
    - Bmtree: [ballet/bmtree/fd_bmtree.c]; BmtreeIdx and BmtreeView: the
      in-order numbering of its nodes and what the arrays hold; BmtreeProof,
      BmtreeRun: leaves inserted with proofs;
      BmtreeCommit, BmtreePath: the reference tree, commitments and inclusion proofs.
    - Eqvoc: [choreo/eqvoc/fd_eqvoc.c]; EqvocInv: its invariant; EqvocChunks,
      EqvocSerde, EqvocVerify: reassembly, serialisation and verification of
      proofs; EqvocVoters, EqvocProofs, EqvocShreds: the operations; EqvocRun: the theorems about runs; EqvocExample: the concrete
      shreds on which they are instantiated.

    ** What the theorems show

    Voting: a vote never violates a lockout of the tower, always has the
    threshold stake behind it and never switches forks without a switch proof
    (TowerVoting); the checks compute exactly what the protocol says
    (TowerRules, TowerSwitch); the tower keeps its shape under every vote
    (TowerVotes); the vote transaction is accepted by the parser and decodes to
    the tower (VoteTxn, SimpleVote).  Transactions: the parser reads no byte
    outside of the payload (at most [FD_TXN_MTU] = 1232 bytes), accepts exactly
    the encodings of well-formed transactions and describes them faithfully in
    at most [FD_TXN_MAX_SZ] = 852 bytes (TxnCorrect); the account iterator,
    run with one more step than the 128 accounts there can be, visits exactly
    the accounts asked for (TxnAccts).  Ingress: whatever bytes arrive, a
    verify tile sends on exactly the well-formed transactions whose signatures
    verify and whose tags are not among the last [depth]; the dedup tile
    repeats no tag among [depth] consecutive ones, but it does repeat bundles
    (Ingress).  A tag cache is a window over the tags inserted, for every
    admitted size; its loops get one more step than the map has slots
    (Tcache).  Fork choice: in every reachable tree the stake of a block is
    the stake of the voters whose latest vote is in its subtree, the best block
    is the heaviest valid leaf path, and publishing keeps exactly the
    descendants of the new root.  Counting: fd_votes refines an abstract
    counter and names at most one block per slot and level; fd_hfork's verdict
    is the one computed from the votes held.  Reassembly: from its
    initialisation on no operation fails, the four maps are what the header
    says they are, every connected FEC set that does not equivocate is
    delivered after its parent and once, an equivocating one only when it is
    confirmed, and insertion, eviction and publishing keep exactly what they
    should (ReasmCorrect).  The pool has 2 to 2^31 - 1 elements, slots are
    below 2^63 and indices below 2^31, Merkle roots chain without cycles
    ([height]), and the caller releases evicted chains before the next
    operation, as the replay tile does.  Loops over the trees get one more
    step than the pool has elements.  Replay: what the tile inserts into its
    scheduler is a path without gaps from a block with a valid bank to the
    delivered FEC set (Replay).  Merkle trees: a commitment is the
    root of the reference tree, inclusion proofs lead back to it, and a tree
    built from leaves with proofs never has two roots (up to 2^62 leaves, the
    range in which the 64-bit node numbers do not wrap).  Equivocation: no
    sequence of shreds and chunks, whatever their bytes, makes the detector
    fail or leave its buffers, every chunk gets the documented answer, and a
    proof sent by one validator is judged by another as what it is.  SHA-256
    and Ed25519 are parameters of these theorems: any function with 32-byte
    results, any predicate.  Containers refine lists, sets and
    finite maps.  Findings are stated where the code and its documentation
    disagree.

    ** Not modelled

    Memory layout and the new/join/leave/delete boilerplate beyond the initial
    values, logging and printing, metrics, the other tiles and the message loops
    ([disco], [discof]), networking ([waltz]), storage ([groove], [vinyl]),
    the runtime ([flamenco]) and the cryptographic primitives of [ballet]: they
    are I/O, glue, or need a different kind of model.  Structures shared between processes
    without locks (the rest of [tango]) need a memory model. *)

From stdpp Require Export base tactics numbers option list gmap sorting.
From Stdlib Require Export ZArith Lia.

#[global] Open Scope Z_scope.

(** ** Machine integers

    A [ulong] is a [Z] in [0, 2^64); every operation that can leave the range
    is wrapped explicitly with [u64], as C does for unsigned arithmetic. *)

Definition ULONG_MAX : Z := 18446744073709551615.

Definition u64 (z : Z) : Z := z mod 18446744073709551616.

Definition is_u64 (z : Z) : Prop := 0 <= z <= ULONG_MAX.

(** ** Outcomes of C code

    [Ok a]   the code returned [a];
    [Crit]   [FD_LOG_CRIT] or a failed [FD_TEST] terminated the process;
    [Ub]     a NULL or dangling pointer was dereferenced, an array or pool was
             used outside its bounds, a shift count was too large, or a
             documented precondition of a data structure was violated;
    [Hang]   the fuel of a loop ran out (only for loops whose termination
             depends on the data; the theorems show it is not reached). *)

Inductive res (A : Type) : Type :=
| Ok (a : A)
| Crit
| Ub
| Hang.
Arguments Ok {A} a.
Arguments Crit {A}.
Arguments Ub {A}.
Arguments Hang {A}.

#[export] Instance res_ret : MRet res := fun A a => Ok a.
#[export] Instance res_bind : MBind res := fun A B f m =>
  match m with Ok a => f a | Crit => Crit | Ub => Ub | Hang => Hang end.
#[export] Instance res_fmap : FMap res := fun A B f m =>
  match m with Ok a => Ok (f a) | Crit => Crit | Ub => Ub | Hang => Hang end.

Definition FD_TEST (b : bool) : res unit := if b then Ok tt else Crit.

(** Dereference of a pointer that may be NULL ([None]). *)
Definition deref {A} (o : option A) : res A :=
  match o with Some a => Ok a | None => Ub end.

Lemma bind_Ok {A B} (m : res A) (f : A -> res B) b :
  m ≫= f = Ok b <-> exists a, m = Ok a /\ f a = Ok b.
Proof.
  split; [intros H; destruct m; simpl in H; [eauto|done..]|].
  intros (a & -> & H). exact H.
Qed.

Lemma FD_TEST_Ok b : FD_TEST b = Ok tt <-> b = true.
Proof. destruct b; simpl; naive_solver. Qed.

Lemma deref_Ok {A} (o : option A) a : deref o = Ok a <-> o = Some a.
Proof. destruct o; simpl; naive_solver. Qed.

(** ** Loops

    A C loop is a step function: [inl] continues with a new loop state,
    [inr] leaves the loop with a result. *)

Fixpoint loop {S R : Type} (step : S -> res (S + R)) (fuel : nat) (s : S) : res R :=
  match fuel with
  | O => Hang
  | Datatypes.S n =>
      match step s with
      | Ok (inl s') => loop step n s'
      | Ok (inr r) => Ok r
      | Crit => Crit
      | Ub => Ub
      | Hang => Hang
      end
  end.

Section loop_rules.
Context {S R : Type} (step : S -> res (S + R)).

(** Total correctness: an invariant, a measure, and enough fuel. *)
Lemma loop_total (I : S -> Prop) (mu : S -> nat) (P : R -> Prop) :
  (forall s, I s ->
     (exists s', step s = Ok (inl s') /\ I s' /\ (mu s' < mu s)%nat) \/
     (exists r, step s = Ok (inr r) /\ P r)) ->
  forall fuel s, I s -> (mu s < fuel)%nat ->
  exists r, loop step fuel s = Ok r /\ P r.
Proof.
  intros Hstep fuel. induction fuel as [|fuel IH]; intros s HI Hmu; [lia|].
  simpl. destruct (Hstep s HI) as [(s' & -> & HI' & Hlt)|(r & -> & HP)].
  - apply IH; [done|lia].
  - eauto.
Qed.

(** Partial correctness: an invariant that holds at the exit. *)
Lemma loop_inv (I : S -> Prop) (P : R -> Prop) :
  (forall s s', I s -> step s = Ok (inl s') -> I s') ->
  (forall s r, I s -> step s = Ok (inr r) -> P r) ->
  forall fuel s r, I s -> loop step fuel s = Ok r -> P r.
Proof.
  intros Hs Hr fuel. induction fuel as [|fuel IH]; intros s r HI Hl; [done|].
  simpl in Hl. destruct (step s) as [[s'|r']| | |] eqn:E; simplify_eq; eauto.
Qed.
End loop_rules.

Lemma loop_S {S R} (step : S -> res (S + R)) n s :
  loop step (Datatypes.S n) s =
    match step s with
    | Ok (inl s') => loop step n s'
    | Ok (inr r) => Ok r
    | Crit => Crit
    | Ub => Ub
    | Hang => Hang
    end.
Proof. done. Qed.

Arguments loop : simpl never.

(** ** Hints and tactics *)

Create HintDb fd discriminated.

(** Invert a successful monadic computation one bind at a time. *)
Ltac res_inv :=
  repeat match goal with
  | H : _ ≫= _ = Ok _ |- _ =>
      let a := fresh "a" in let H1 := fresh "H" in let H2 := fresh "H" in
      apply bind_Ok in H as (a & H1 & H2)
  | H : FD_TEST _ = Ok ?u |- _ => destruct u; apply FD_TEST_Ok in H
  | H : deref _ = Ok _ |- _ => apply deref_Ok in H
  | H : mret _ = Ok _ |- _ => unfold mret, res_ret in H
  | H : Ok _ = Ok _ |- _ => injection H as H
  | H : Crit = Ok _ |- _ => discriminate H
  | H : Ub = Ok _ |- _ => discriminate H
  | H : Hang = Ok _ |- _ => discriminate H
  end.

(** Case analysis on the boolean tests of a definition, as propositions. *)
Ltac ztest :=
  repeat match goal with
  | |- context [ if ?x =? ?y then _ else _ ] => destruct (Z.eqb_spec x y)
  | |- context [ if ?x <? ?y then _ else _ ] => destruct (Z.ltb_spec x y)
  | |- context [ if ?x <=? ?y then _ else _ ] => destruct (Z.leb_spec x y)
  | H : context [ if ?x =? ?y then _ else _ ] |- _ => destruct (Z.eqb_spec x y)
  | H : context [ if ?x <? ?y then _ else _ ] |- _ => destruct (Z.ltb_spec x y)
  | H : context [ if ?x <=? ?y then _ else _ ] |- _ => destruct (Z.leb_spec x y)
  end.

(** ** Lemmas on words *)

Lemma u64_small z : is_u64 z -> u64 z = z.
Proof. unfold u64, is_u64, ULONG_MAX. intros. apply Z.mod_small. lia. Qed.

Lemma u64_range z : is_u64 (u64 z).
Proof.
  unfold u64, is_u64, ULONG_MAX.
  pose proof (Z.mod_pos_bound z 18446744073709551616). lia.
Qed.

Lemma u64_sub_l a b : u64 (u64 a - b) = u64 (a - b).
Proof. unfold u64. apply Zminus_mod_idemp_l. Qed.

Lemma u64_add_l a b : u64 (u64 a + b) = u64 (a + b).
Proof. unfold u64. apply Zplus_mod_idemp_l. Qed.

(** Disjoint bit ranges are added by [|]. *)
Lemma lor_add a b n : 0 <= n -> 0 <= a < 2 ^ n -> Z.lor a (b * 2 ^ n) = a + b * 2 ^ n.
Proof.
  intros Hn Ha. assert (Hland : Z.land a (b * 2 ^ n) = 0).
  { apply Z.bits_inj'. intros k Hk. rewrite Z.land_spec, Z.bits_0.
    destruct (Z.lt_ge_cases k n) as [Hlt|Hge].
    - rewrite Z.mul_pow2_bits_low by done. by rewrite andb_false_r.
    - destruct (Z.eq_dec a 0) as [->|Hne]; [by rewrite Z.bits_0|].
      rewrite (Z.bits_above_log2 a k); [done|lia|]. apply Z.log2_lt_pow2; [lia|].
      eapply Z.lt_le_trans; [apply Ha|]. by apply Z.pow_le_mono_r. }
  rewrite <- Z.lxor_lor by done. by rewrite Z.add_nocarry_lxor.
Qed.

#[export] Hint Resolve u64_range : fd.

(** ** Lemmas on lists *)

Lemma Forall_rev_iff {A} (P : A -> Prop) l : Forall P (rev l) <-> Forall P l.
Proof.
  split; [|apply List.Forall_rev]. intros H. apply List.Forall_rev in H.
  by rewrite rev_involutive in H.
Qed.

Lemma elem_of_rev {A} (x : A) l : x ∈ rev l <-> x ∈ l.
Proof. by rewrite !list_elem_of_In, <- in_rev. Qed.

Lemma last_rev {A} (l : list A) : last (rev l) = head l.
Proof. destruct l; simpl; [done|apply last_snoc]. Qed.

Lemma head_rev {A} (l : list A) : head (rev l) = last l.
Proof. rewrite <- (rev_involutive l) at 2. by rewrite last_rev. Qed.

(** A 32-byte hash or public key; the code only copies and compares them. *)
Abbreviation fd_hash_t := Z (only parsing).
Abbreviation fd_pubkey_t := Z (only parsing).

(** ** Sums over finite maps *)

Section sum_map.
Context {K V : Type} `{Countable K}.

Definition sum_map (f : K -> V -> Z) (m : gmap K V) : Z :=
  map_fold (fun k v acc => f k v + acc) 0 m.

Lemma sum_map_empty f : sum_map f ∅ = 0.
Proof. apply map_fold_empty. Qed.

Lemma sum_map_insert f m k v :
  m !! k = None -> sum_map f (<[k:=v]> m) = f k v + sum_map f m.
Proof.
  intros Hk. unfold sum_map.
  rewrite (map_fold_insert_L (fun k v acc => f k v + acc)); [done| |done].
  intros. lia.
Qed.

Lemma sum_map_delete f m k v :
  m !! k = Some v -> sum_map f m = f k v + sum_map f (delete k m).
Proof.
  intros Hk. rewrite <- (insert_delete_id m k v) at 1 by done.
  apply sum_map_insert. apply lookup_delete_eq.
Qed.

Lemma sum_map_zero m : sum_map (fun _ _ => 0) m = 0.
Proof.
  induction m as [|k v m Hk IH] using map_ind; [by rewrite sum_map_empty|].
  by rewrite sum_map_insert, IH.
Qed.

Lemma sum_map_ext f g m :
  (forall k v, m !! k = Some v -> f k v = g k v) -> sum_map f m = sum_map g m.
Proof.
  induction m as [|k v m Hk IH] using map_ind; intros Hfg; [by rewrite !sum_map_empty|].
  rewrite !sum_map_insert by done. rewrite (Hfg k v) by apply lookup_insert_eq.
  rewrite IH; [done|]. intros k' v' Hk'. apply Hfg.
  rewrite lookup_insert_ne; [done|congruence].
Qed.

(** Entries where [f] is zero do not count. *)
Lemma sum_map_sub f m m' :
  m' ⊆ m -> (forall k v, m !! k = Some v -> m' !! k = None -> f k v = 0) ->
  sum_map f m = sum_map f m'.
Proof.
  revert m. induction m' as [|k v m' Hk IH] using map_ind; intros m Hsub Hf.
  - rewrite sum_map_empty, <- (sum_map_zero m). apply sum_map_ext. intros k v Hv.
    by apply Hf.
  - assert (Hm : m !! k = Some v) by (eapply lookup_weaken; [apply lookup_insert_eq|done]).
    rewrite sum_map_insert, (sum_map_delete _ m k v) by done. f_equal. apply IH.
    + apply map_subseteq_spec. intros j w Hj. rewrite lookup_delete_ne by congruence.
      eapply lookup_weaken; [|done]. rewrite lookup_insert_ne; [done|congruence].
    + intros j w [Hne Hj]%lookup_delete_Some Hn. apply (Hf j w Hj).
      by rewrite lookup_insert_ne.
Qed.

Lemma sum_map_le f g m :
  (forall k v, m !! k = Some v -> f k v <= g k v) -> sum_map f m <= sum_map g m.
Proof.
  induction m as [|k v m Hk IH] using map_ind; intros Hfg; [by rewrite !sum_map_empty|].
  rewrite !sum_map_insert by done. pose proof (Hfg k v ltac:(apply lookup_insert_eq)).
  assert (sum_map f m <= sum_map g m); [|lia]. apply IH. intros k' v' Hk'. apply Hfg.
  rewrite lookup_insert_ne; [done|congruence].
Qed.

Lemma sum_map_nonneg f m :
  (forall k v, m !! k = Some v -> 0 <= f k v) -> 0 <= sum_map f m.
Proof.
  intros Hf. etrans; [|apply (sum_map_le (fun _ _ => 0)); exact Hf].
  induction m as [|k v m Hk IH] using map_ind; [by rewrite sum_map_empty|].
  rewrite sum_map_insert by done. apply IH. intros k' v' Hk'. apply (Hf k').
  rewrite lookup_insert_ne; [done|congruence].
Qed.
End sum_map.
