(* ===== verification/Deque.v ===== *)
(** * Fixed-capacity deque ([src/util/tmpl/fd_deque.c])

    The template keeps two [ulong] cursors [start] and [end] that are never
    reduced modulo the capacity; an element lives in slot [i % DEQUE_MAX] of a
    ring.  The model keeps the cursors at 64 bits with their wrap-around and
    follows the default build (no [FD_TMPL_USE_HANDHOLDING] checks).

    [Deque] is the interface the tower uses, [DequeLaws] what an
    implementation promises: every operation acts on the list of elements, as
    long as the operation budget is not used up.  The ring buffer starts with
    a budget of 2^63 - 1 pushes or pops (the two cursors start at 2^63), the
    list implementation of the interface has no limit. *)

From S2P Require Import Prelude.

#[local] Open Scope Z_scope.

Module Ring.
Section ring.
Context {A : Type} (DEQUE_MAX : Z).

Record private := mk_private { start : Z; end_ : Z; ring : list A }.

Definition private_slot (i : Z) : Z := i mod DEQUE_MAX.

Definition load (d : private) (i : Z) : res A :=
  deref (ring d !! Z.to_nat (private_slot i)).
Definition store (d : private) (i : Z) (x : A) : list A :=
  <[Z.to_nat (private_slot i) := x]> (ring d).

(** [new]: the memory of the ring is not touched. *)
Definition new (mem : list A) : private :=
  mk_private (Z.shiftl 1 63) (Z.shiftl 1 63) mem.

Definition cnt (d : private) : Z := u64 (end_ d - start d).
Definition avail (d : private) : Z := u64 (DEQUE_MAX - u64 (end_ d - start d)).
Definition empty (d : private) : bool := u64 (end_ d - start d) =? 0.
Definition full (d : private) : bool := u64 (end_ d - start d) =? DEQUE_MAX.

Definition push_head (d : private) (ele : A) : private :=
  let start' := u64 (start d - 1) in
  mk_private start' (end_ d) (store d start' ele).

Definition push_tail (d : private) (ele : A) : private :=
  mk_private (start d) (u64 (end_ d + 1)) (store d (end_ d) ele).

Definition pop_head (d : private) : res (A * private) :=
  ele ← load d (start d);
  Ok (ele, mk_private (u64 (start d + 1)) (end_ d) (ring d)).

Definition pop_tail (d : private) : res (A * private) :=
  let end' := u64 (end_ d - 1) in
  ele ← load d end';
  Ok (ele, mk_private (start d) end' (ring d)).

Definition push_head_wrap (d : private) (ele : A) : private :=
  let start0 := start d in
  let end0 := end_ d in
  let end1 := u64 (end0 - (if u64 (end0 - start0) =? DEQUE_MAX then 1 else 0)) in
  let start1 := u64 (start0 - 1) in
  mk_private start1 end1 (store d start1 ele).

Definition push_tail_wrap (d : private) (ele : A) : private :=
  let start0 := start d in
  let end0 := end_ d in
  let start1 := u64 (start0 + (if u64 (end0 - start0) =? DEQUE_MAX then 1 else 0)) in
  mk_private start1 (u64 (end0 + 1)) (store d end0 ele).

(** The shifting loop of [pop_idx_tail]: [cur] is the slot that is
    overwritten next, [idx] the position already incremented. *)
Definition pop_idx_tail_step (start0 end0 : Z) (s : Z * Z * list A)
  : res (Z * Z * list A + list A) :=
  let '(idx, cur, r) := s in
  let idx' := u64 (idx + 1) in
  if end0 <=? u64 (start0 + idx') then Ok (inr r)
  else
    let next := private_slot (u64 (start0 + idx')) in
    x ← deref (r !! Z.to_nat next);
    Ok (inl (idx', next, <[Z.to_nat cur := x]> r)).

Definition pop_idx_tail (d : private) (idx : Z) : res (A * private) :=
  let cur := private_slot (u64 (start d + idx)) in
  ele ← deref (ring d !! Z.to_nat cur);
  r ← loop (pop_idx_tail_step (start d) (end_ d)) (S (Z.to_nat DEQUE_MAX))
           (idx, cur, ring d);
  Ok (ele, mk_private (start d) (u64 (end_ d - 1)) r).

Definition peek_head (d : private) : res (option A) :=
  if end_ d =? start d then Ok None
  else Some <$> load d (start d).

Definition peek_tail (d : private) : res (option A) :=
  if end_ d =? start d then Ok None
  else Some <$> load d (u64 (end_ d - 1)).

Definition peek_index (d : private) (idx : Z) : res A :=
  load d (u64 (start d + idx)).

(** Moving a cursor without touching the elements. *)
Definition insert_head (d : private) : private := mk_private (u64 (start d - 1)) (end_ d) (ring d).
Definition insert_tail (d : private) : private := mk_private (start d) (u64 (end_ d + 1)) (ring d).
Definition remove_head (d : private) : private := mk_private (u64 (start d + 1)) (end_ d) (ring d).
Definition remove_tail (d : private) : private := mk_private (start d) (u64 (end_ d - 1)) (ring d).

(** The versions that return the address of the element: its slot. *)
Definition push_head_nocopy (d : private) : Z * private :=
  (private_slot (u64 (start d - 1)), insert_head d).
Definition push_tail_nocopy (d : private) : Z * private := (private_slot (end_ d), insert_tail d).
Definition pop_head_nocopy (d : private) : Z * private := (private_slot (start d), remove_head d).
Definition pop_tail_nocopy (d : private) : Z * private :=
  (private_slot (u64 (end_ d - 1)), remove_tail d).

Definition remove_all (d : private) : private :=
  mk_private (Z.shiftl 1 63) (Z.shiftl 1 63) (ring d).

Definition iter_init (d : private) : Z := start d.
Definition iter_init_rev (d : private) : Z := u64 (end_ d - 1).
Definition iter_done (d : private) (iter : Z) : bool := iter =? end_ d.
Definition iter_done_rev (d : private) (iter : Z) : bool := iter =? u64 (start d - 1).
Definition iter_next (d : private) (iter : Z) : Z := u64 (iter + 1).
Definition iter_prev (d : private) (iter : Z) : Z := u64 (iter - 1).
Definition iter_ele (d : private) (iter : Z) : res A := load d iter.
(** A write through the pointer that [iter_ele] returns. *)
Definition iter_ele_store (d : private) (iter : Z) (x : A) : private :=
  mk_private (start d) (end_ d) (store d iter x).
End ring.
Arguments private : clear implicits.
End Ring.

(** ** The interface the clients of a deque use *)

Class Deque (D A : Type) := {
  dq_max : Z;
  dq_cnt : D -> Z;
  dq_empty : D -> bool;
  dq_full : D -> bool;
  dq_push_tail : D -> A -> D;
  dq_pop_head : D -> res (A * D);
  dq_pop_tail : D -> res (A * D);
  dq_peek_tail : D -> res (option A);
  dq_peek_index : D -> Z -> res A;
  dq_remove_all : D -> D;
  dq_iter_init_rev : D -> Z;
  dq_iter_done_rev : D -> Z -> bool;
  dq_iter_prev : D -> Z -> Z;
  dq_iter_ele : D -> Z -> res A;
  dq_iter_ele_store : D -> Z -> A -> D;
}.

(** [dq_repr n d l]: [d] holds the elements [l], head first, and can do at
    least [n] more operations.  [dq_iter_at d k] is the iterator value that
    stands at position [k]; position -1 is where a reverse traversal ends. *)
Class DequeLaws (D A : Type) `{Deque D A} := {
  dq_repr : Z -> D -> list A -> Prop;
  dq_iter_at : D -> Z -> Z;
  dq_max_pos : 0 < dq_max;
  dq_repr_weaken n m d l : dq_repr n d l -> m <= n -> dq_repr m d l;
  dq_repr_length n d l : dq_repr n d l -> Z.of_nat (length l) <= dq_max;
  dq_cnt_spec n d l : dq_repr n d l -> dq_cnt d = Z.of_nat (length l);
  dq_empty_spec n d l : dq_repr n d l -> dq_empty d = (Z.of_nat (length l) =? 0);
  dq_full_spec n d l :
    dq_repr n d l -> dq_full d = (Z.of_nat (length l) =? dq_max);
  dq_push_tail_spec n d l x :
    dq_repr n d l -> 0 < n -> Z.of_nat (length l) < dq_max ->
    dq_repr (n - 1) (dq_push_tail d x) (l ++ [x]);
  dq_pop_head_spec n d l x :
    dq_repr n d (x :: l) -> 0 < n ->
    exists d', dq_pop_head d = Ok (x, d') /\ dq_repr (n - 1) d' l;
  dq_pop_tail_spec n d l x :
    dq_repr n d (l ++ [x]) -> 0 < n ->
    exists d', dq_pop_tail d = Ok (x, d') /\ dq_repr (n - 1) d' l;
  dq_peek_tail_spec n d l :
    dq_repr n d l -> 0 < n -> dq_peek_tail d = Ok (last l);
  dq_peek_index_spec n d l k x :
    dq_repr n d l -> l !! k = Some x -> dq_peek_index d (Z.of_nat k) = Ok x;
  dq_remove_all_spec n d l :
    dq_repr n d l -> dq_repr (n `min` 9223372036854775807) (dq_remove_all d) [];
  dq_iter_init_rev_spec n d l :
    dq_repr n d l -> dq_iter_init_rev d = dq_iter_at d (Z.of_nat (length l) - 1);
  dq_iter_done_rev_spec n d l k :
    dq_repr n d l -> 0 < n -> -1 <= k < Z.of_nat (length l) ->
    dq_iter_done_rev d (dq_iter_at d k) = (k =? -1);
  dq_iter_prev_spec n d l k :
    dq_repr n d l -> 0 < n -> 0 <= k < Z.of_nat (length l) ->
    dq_iter_prev d (dq_iter_at d k) = dq_iter_at d (k - 1);
  dq_iter_ele_spec n d l k x :
    dq_repr n d l -> l !! k = Some x ->
    dq_iter_ele d (dq_iter_at d (Z.of_nat k)) = Ok x;
  dq_iter_ele_store_spec n d l k x :
    dq_repr n d l -> (k < length l)%nat ->
    dq_repr n (dq_iter_ele_store d (dq_iter_at d (Z.of_nat k)) x) (<[k:=x]> l) /\
    dq_iter_at (dq_iter_ele_store d (dq_iter_at d (Z.of_nat k)) x) = dq_iter_at d;
}.

(** ** The ring buffer implements the interface *)

Definition ring_deque (A : Type) (max : Z) : Deque (Ring.private A) A := {|
  dq_max := max;
  dq_cnt := Ring.cnt;
  dq_empty := Ring.empty;
  dq_full := Ring.full max;
  dq_push_tail := Ring.push_tail max;
  dq_pop_head := Ring.pop_head max;
  dq_pop_tail := Ring.pop_tail max;
  dq_peek_tail := Ring.peek_tail max;
  dq_peek_index := Ring.peek_index max;
  dq_remove_all := Ring.remove_all;
  dq_iter_init_rev := Ring.iter_init_rev;
  dq_iter_done_rev := Ring.iter_done_rev;
  dq_iter_prev := Ring.iter_prev;
  dq_iter_ele := Ring.iter_ele max;
  dq_iter_ele_store := Ring.iter_ele_store max;
|}.

Section ring_laws.
Context {A : Type} (max : Z) (Hmax : 0 < max).
Implicit Types (d : Ring.private A) (l : list A).
Import Ring.

(** The ring holds [l] from slot [start % max] on, and both cursors are at
    least [n] away from the ends of the 64-bit range. *)
Record repr (n : Z) (d : private A) (l : list A) : Prop := mk_repr {
  repr_ring : length (ring d) = Z.to_nat max;
  repr_cnt : end_ d = start d + Z.of_nat (length l);
  repr_max : Z.of_nat (length l) <= max;
  repr_lo : 0 <= start d - n;
  repr_hi : end_ d + n <= ULONG_MAX;
  repr_lo0 : 0 <= start d;
  repr_hi0 : end_ d <= ULONG_MAX;
  repr_ele : forall k x, l !! k = Some x ->
    ring d !! Z.to_nat (private_slot max (start d + Z.of_nat k)) = Some x;
}.

Lemma slot_range i : 0 <= private_slot max i < max.
Proof. unfold private_slot. apply Z.mod_pos_bound. done. Qed.

(** Positions less than [max] apart share a slot only if they are equal. *)
Lemma slot_inj i j :
  private_slot max i = private_slot max j -> i - max < j < i + max -> i = j.
Proof.
  unfold private_slot. intros Heq Hij.
  pose proof (Z.div_mod i max ltac:(lia)). pose proof (Z.div_mod j max ltac:(lia)).
  assert (max * (i / max) - max * (j / max) = i - j) by lia.
  assert (i / max = j / max) by nia. nia.
Qed.

Lemma store_lookup_ne d i j x :
  i <> j -> i - max < j < i + max ->
  store max d i x !! Z.to_nat (private_slot max j)
    = ring d !! Z.to_nat (private_slot max j).
Proof.
  intros Hne Hij. unfold store. apply list_lookup_insert_ne.
  intros Heq. apply Hne, slot_inj; [|done].
  pose proof (slot_range i). pose proof (slot_range j). lia.
Qed.

Lemma store_lookup_eq d i x :
  length (ring d) = Z.to_nat max ->
  store max d i x !! Z.to_nat (private_slot max i) = Some x.
Proof.
  intros Hl. unfold store. apply list_lookup_insert_eq.
  pose proof (slot_range i). lia.
Qed.

Lemma repr_cnt_u64 n d l : repr n d l -> u64 (end_ d - start d) = Z.of_nat (length l).
Proof.
  intros []. rewrite u64_small by (unfold is_u64; lia). lia.
Qed.

Lemma repr_load n d l k x :
  repr n d l -> l !! k = Some x -> load max d (start d + Z.of_nat k) = Ok x.
Proof.
  intros Hr Hk. unfold load. apply deref_Ok. by apply Hr.
Qed.

Lemma repr_new mem :
  length mem = Z.to_nat max -> repr 9223372036854775807 (new mem) [].
Proof. intros Hl. split; simpl; unfold ULONG_MAX; try lia; done. Qed.

Lemma repr_push_tail n d l x :
  repr n d l -> 0 < n -> Z.of_nat (length l) < max ->
  repr (n - 1) (push_tail max d x) (l ++ [x]).
Proof.
  intros [] Hn Hl. unfold push_tail.
  rewrite (u64_small (end_ d + 1)) by (unfold is_u64; lia).
  split; simpl; rewrite ?length_app; simpl; try lia.
  - unfold store. rewrite length_insert. done.
  - intros k y [Hk|[Hk Hy]]%lookup_app_Some.
    + rewrite store_lookup_ne; [by apply repr_ele0| |];
        apply lookup_lt_Some in Hk; lia.
    + destruct (k - length l)%nat eqn:E; simplify_eq/=.
      replace (start d + Z.of_nat k) with (end_ d) by lia.
      by apply store_lookup_eq.
Qed.

Lemma repr_push_head n d l x :
  repr n d l -> 0 < n -> Z.of_nat (length l) < max ->
  repr (n - 1) (push_head max d x) (x :: l).
Proof.
  intros [] Hn Hl. unfold push_head.
  rewrite (u64_small (start d - 1)) by (unfold is_u64; lia).
  split; simpl; try lia.
  - unfold store. rewrite length_insert. done.
  - intros [|k] y Hy; simplify_eq/=.
    + rewrite Z.add_0_r. by apply store_lookup_eq.
    + pose proof (lookup_lt_Some _ _ _ Hy).
      rewrite store_lookup_ne by lia.
      replace (start d - 1 + Z.of_nat (S k)) with (start d + Z.of_nat k) by lia.
      by apply repr_ele0.
Qed.

Lemma repr_pop_head n d l x :
  repr n d (x :: l) -> 0 < n ->
  exists d', pop_head max d = Ok (x, d') /\ repr (n - 1) d' l.
Proof.
  intros Hr Hn. pose proof (repr_load n d _ 0 x Hr eq_refl) as Hx.
  rewrite Z.add_0_r in Hx. unfold pop_head. rewrite Hx. destruct Hr; simpl in *.
  rewrite (u64_small (start d + 1)) by (unfold is_u64; lia).
  eexists; split; [done|]. split; simpl; try lia; try done.
  intros k y Hk. specialize (repr_ele0 (S k) y Hk).
  by replace (start d + 1 + Z.of_nat k) with (start d + Z.of_nat (S k)) by lia.
Qed.

Lemma repr_pop_tail n d l x :
  repr n d (l ++ [x]) -> 0 < n ->
  exists d', pop_tail max d = Ok (x, d') /\ repr (n - 1) d' l.
Proof.
  intros Hr Hn. pose proof (repr_load n d _ (length l) x Hr) as Hx.
  rewrite list_lookup_middle in Hx by done. specialize (Hx eq_refl).
  unfold pop_tail. destruct Hr; rewrite ?length_app in *; simpl in *.
  rewrite (u64_small (end_ d - 1)) by (unfold is_u64; lia).
  replace (end_ d - 1) with (start d + Z.of_nat (length l)) by lia. rewrite Hx.
  eexists; split; [done|]. split; simpl; try lia; try done.
  intros k y Hk. apply repr_ele0. rewrite lookup_app_l; [done|].
  by apply lookup_lt_Some in Hk.
Qed.

Lemma repr_peek_tail n d l :
  repr n d l -> 0 < n -> peek_tail max d = Ok (last l).
Proof.
  intros Hr Hn. unfold peek_tail. destruct (Z.eqb_spec (end_ d) (start d)) as [E|E].
  - destruct Hr. destruct l; [done|simpl in *; lia].
  - destruct l as [|x l _] using rev_ind; [destruct Hr; simpl in *; lia|].
    rewrite last_snoc. pose proof (repr_load n d _ (length l) x Hr) as Hx.
    rewrite list_lookup_middle in Hx by done. specialize (Hx eq_refl).
    destruct Hr; rewrite ?length_app in *; simpl in *.
    rewrite (u64_small (end_ d - 1)) by (unfold is_u64; lia).
    replace (end_ d - 1) with (start d + Z.of_nat (length l)) by lia. by rewrite Hx.
Qed.

Lemma repr_peek_head n d l :
  repr n d l -> peek_head max d = Ok (head l).
Proof.
  intros Hr. unfold peek_head. destruct (Z.eqb_spec (end_ d) (start d)) as [E|E].
  - destruct Hr. destruct l; [done|simpl in *; lia].
  - destruct l as [|x l]; [destruct Hr; simpl in *; lia|].
    pose proof (repr_load n d _ 0 x Hr eq_refl) as Hx. rewrite Z.add_0_r in Hx.
    by rewrite Hx.
Qed.

Lemma repr_index n d l k :
  repr n d l -> -1 <= k < Z.of_nat (length l) -> 0 < n ->
  u64 (start d + k) = start d + k.
Proof. intros [] Hk Hn. apply u64_small. unfold is_u64. lia. Qed.

Lemma repr_store n d l k x :
  repr n d l -> (k < length l)%nat ->
  repr n (iter_ele_store max d (start d + Z.of_nat k) x) (<[k:=x]> l).
Proof.
  intros [] Hk. unfold iter_ele_store.
  split; simpl; rewrite ?length_insert; try done.
  - unfold store. by rewrite length_insert.
  - intros j y [(-> & -> & _)|(Hne & Hj)]%list_lookup_insert_Some.
    + by apply store_lookup_eq.
    + pose proof (lookup_lt_Some _ _ _ Hj). rewrite store_lookup_ne by lia.
      by apply repr_ele0.
Qed.
End ring_laws.

(** The ring buffer keeps every promise of the interface. *)
Definition ring_deque_laws (A : Type) (max : Z) (Hmax : 0 < max) :
  @DequeLaws (Ring.private A) A (ring_deque A max).
Proof.
  refine (@Build_DequeLaws (Ring.private A) A (ring_deque A max) (repr max)
            (fun d k => u64 (Ring.start d + k)) _ _ _ _ _ _ _ _ _ _ _ _ _ _ _ _ _);
    simpl.
  - exact Hmax.
  - intros n m d l [] Hm. split; try done; lia.
  - intros n d l []. done.
  - intros n d l Hr. unfold Ring.cnt. by eapply repr_cnt_u64.
  - intros n d l Hr. unfold Ring.empty. by erewrite repr_cnt_u64 by done.
  - intros n d l Hr. unfold Ring.full. by erewrite repr_cnt_u64.
  - intros. by apply repr_push_tail.
  - intros. by apply repr_pop_head.
  - intros. by apply repr_pop_tail.
  - intros. by eapply repr_peek_tail.
  - intros n d l k x Hr Hk. unfold Ring.peek_index. pose proof (lookup_lt_Some _ _ _ Hk).
    rewrite u64_small by (destruct Hr; unfold is_u64; lia). by eapply repr_load.
  - intros n d l []. unfold Ring.remove_all. change (Z.shiftl 1 63) with 9223372036854775808.
    split; cbn -[Z.min]; unfold ULONG_MAX; done || lia.
  - intros n d l []. unfold Ring.iter_init_rev. f_equal. lia.
  - intros n d l k Hr Hn Hk. unfold Ring.iter_done_rev.
    change (Ring.start d - 1) with (Ring.start d + -1).
    rewrite (repr_index max Hmax n d l k), (repr_index max Hmax n d l (-1)) by (done || lia).
    destruct (Z.eqb_spec k (-1)), (Z.eqb_spec (Ring.start d + k) (Ring.start d + -1)); lia.
  - intros n d l k Hr Hn Hk. unfold Ring.iter_prev.
    rewrite (repr_index max Hmax n d l k) by (done || lia). f_equal. lia.
  - intros n d l k x Hr Hk. unfold Ring.iter_ele. pose proof (lookup_lt_Some _ _ _ Hk).
    rewrite u64_small by (destruct Hr; unfold is_u64; lia). by eapply repr_load.
  - intros n d l k x Hr Hk. split; [|done].
    rewrite u64_small by (destruct Hr; unfold is_u64; lia). by apply repr_store.
Defined.

(** ** Lists implement the interface *)

Definition list_deque (A : Type) (max : Z) : Deque (list A) A := {|
  dq_max := max;
  dq_cnt := fun l => Z.of_nat (length l);
  dq_empty := fun l => match l with [] => true | _ => false end;
  dq_full := fun l => Z.of_nat (length l) =? max;
  dq_push_tail := fun l x => l ++ [x];
  dq_pop_head := fun l => match l with [] => Ub | x :: l => Ok (x, l) end;
  dq_pop_tail := fun l =>
    match last l with None => Ub | Some x => Ok (x, take (length l - 1) l) end;
  dq_peek_tail := fun l => Ok (last l);
  dq_peek_index := fun l k => deref (l !! Z.to_nat k);
  dq_remove_all := fun _ => [];
  dq_iter_init_rev := fun l => Z.of_nat (length l) - 1;
  dq_iter_done_rev := fun _ it => it =? -1;
  dq_iter_prev := fun _ it => it - 1;
  dq_iter_ele := fun l it => deref (l !! Z.to_nat it);
  dq_iter_ele_store := fun l it x => <[Z.to_nat it := x]> l;
|}.

Definition list_deque_laws (A : Type) (max : Z) (Hmax : 0 < max) :
  @DequeLaws (list A) A (list_deque A max).
Proof.
  refine (@Build_DequeLaws (list A) A (list_deque A max)
            (fun _ d l => d = l /\ Z.of_nat (length l) <= max)
            (fun _ k => k) _ _ _ _ _ _ _ _ _ _ _ _ _ _ _ _ _); simpl; try done.
  - by intros n d l [? ?].
  - by intros n d l [-> ?].
  - by intros n d [] [-> ?].
  - by intros n d l [-> ?].
  - intros n d l x [-> ?] _ ?. split; [done|]. rewrite length_app. simpl. lia.
  - intros n d l x [-> ?] _. eexists. split; [done|]. simpl in *. split; [done|lia].
  - intros n d l x [-> Hl] _. rewrite last_snoc. eexists. split; [done|].
    rewrite length_app in *. simpl in *. split; [|lia].
    rewrite take_app_le by lia. apply take_ge. lia.
  - by intros n d l [-> ?].
  - intros n d l k x [-> ?] Hk. rewrite Nat2Z.id. by rewrite Hk.
  - intros n d l [-> ?]. simpl. split; [done|lia].
  - by intros n d l [-> ?].
  - intros n d l k x [-> ?] Hk. rewrite Nat2Z.id. by rewrite Hk.
  - intros n d l k x [-> ?] Hk. rewrite Nat2Z.id, length_insert. done.
Defined.
