(* ===== verification/DequeOps.v ===== *)
(** * Sequences of deque operations ([src/util/tmpl/fd_deque.c])

    A deque of the template behaves, operation by operation, like a list of at
    most [DEQUE_MAX] elements: this file runs arbitrary sequences of operations
    on the ring buffer and on a list and shows that they agree, including the
    wrapping pushes and the removal from the middle. *)

From S2P Require Import Prelude Deque.

#[local] Open Scope Z_scope.

Import Ring.

(** ** Operations *)

Inductive deque_op (A : Type) : Type :=
| PushHead (x : A)
| PushTail (x : A)
| PushHeadWrap (x : A)
| PushTailWrap (x : A)
| PopHead
| PopTail
| PopIdxTail (idx : nat)
| RemoveAll.
Arguments PushHead {A} x.
Arguments PushTail {A} x.
Arguments PushHeadWrap {A} x.
Arguments PushTailWrap {A} x.
Arguments PopHead {A}.
Arguments PopTail {A}.
Arguments PopIdxTail {A} idx.
Arguments RemoveAll {A}.

Section ops.
Context {A : Type} (max : Z) (Hmax : 0 < max).
Implicit Types (d : private A) (l : list A).

(** The operation on the ring: the element it returns, if any. *)
Definition ring_op d (o : deque_op A) : res (option A * private A) :=
  match o with
  | PushHead x => Ok (None, push_head max d x)
  | PushTail x => Ok (None, push_tail max d x)
  | PushHeadWrap x => Ok (None, push_head_wrap max d x)
  | PushTailWrap x => Ok (None, push_tail_wrap max d x)
  | PopHead => '(x, d') ← pop_head max d; Ok (Some x, d')
  | PopTail => '(x, d') ← pop_tail max d; Ok (Some x, d')
  | PopIdxTail idx => '(x, d') ← pop_idx_tail max d (Z.of_nat idx); Ok (Some x, d')
  | RemoveAll => Ok (None, remove_all d)
  end.

Definition is_full l : bool := Z.of_nat (length l) =? max.

(** The operation on a list; [None] when its precondition does not hold. *)
Definition list_op l (o : deque_op A) : option (option A * list A) :=
  match o with
  | PushHead x => if is_full l then None else Some (None, x :: l)
  | PushTail x => if is_full l then None else Some (None, l ++ [x])
  | PushHeadWrap x => Some (None, x :: if is_full l then take (length l - 1) l else l)
  | PushTailWrap x => Some (None, (if is_full l then drop 1 l else l) ++ [x])
  | PopHead => match l with [] => None | x :: l' => Some (Some x, l') end
  | PopTail => match last l with None => None | Some x => Some (Some x, take (length l - 1) l) end
  | PopIdxTail idx =>
      match l !! idx with None => None | Some x => Some (Some x, delete idx l) end
  | RemoveAll => Some (None, [])
  end.

Fixpoint ring_run d (os : list (deque_op A)) : res (list (option A) * private A) :=
  match os with
  | [] => Ok ([], d)
  | o :: os' =>
      '(r, d1) ← ring_op d o;
      '(rs, d2) ← ring_run d1 os';
      Ok (r :: rs, d2)
  end.

Fixpoint list_run l (os : list (deque_op A)) : option (list (option A) * list A) :=
  match os with
  | [] => Some ([], l)
  | o :: os' =>
      '(r, l1) ← list_op l o;
      '(rs, l2) ← list_run l1 os';
      Some (r :: rs, l2)
  end.

(** ** The wrapping pushes *)

Lemma wrap_cnt n d l : repr max n d l ->
  (u64 (end_ d - start d) =? max) = is_full l.
Proof using Hmax. intros Hr. by rewrite (repr_cnt_u64 max Hmax n d l Hr). Qed.

Lemma repr_push_head_wrap n d l x :
  repr max n d l -> 0 < n ->
  repr max (n - 1) (push_head_wrap max d x) (x :: if is_full l then take (length l - 1) l else l).
Proof using Hmax.
  intros Hr Hn. unfold push_head_wrap. rewrite (wrap_cnt n d l Hr). destruct (is_full l) eqn:Ef.
  - apply Z.eqb_eq in Ef. destruct Hr.
    rewrite (u64_small (start d - 1)), (u64_small (end_ d - 1)) by (unfold is_u64; lia).
    split; simpl; rewrite ?length_take; try lia.
    + unfold store. by rewrite length_insert.
    + intros [|k] y Hy; simpl in Hy.
      * injection Hy as <-. rewrite Z.add_0_r. by apply store_lookup_eq.
      * apply lookup_take_Some in Hy as [Hy Hk]. rewrite store_lookup_ne by lia.
        replace (start d - 1 + Z.of_nat (S k)) with (start d + Z.of_nat k) by lia. by apply repr_ele.
  - apply Z.eqb_neq in Ef. pose proof (repr_max _ _ _ _ Hr).
    rewrite Z.sub_0_r, (u64_small (end_ d)) by (destruct Hr; unfold is_u64; lia).
    apply (repr_push_head max Hmax n d l x Hr Hn). lia.
Qed.

Lemma repr_push_tail_wrap n d l x :
  repr max n d l -> 0 < n ->
  repr max (n - 1) (push_tail_wrap max d x) ((if is_full l then drop 1 l else l) ++ [x]).
Proof using Hmax.
  intros Hr Hn. unfold push_tail_wrap. rewrite (wrap_cnt n d l Hr). destruct (is_full l) eqn:Ef.
  - apply Z.eqb_eq in Ef. destruct Hr.
    rewrite (u64_small (start d + 1)), (u64_small (end_ d + 1)) by (unfold is_u64; lia).
    split; simpl; rewrite ?length_app, ?length_drop; simpl; try lia.
    + unfold store. by rewrite length_insert.
    + intros k y [Hk|[Hk Hy]]%lookup_app_Some.
      * rewrite lookup_drop in Hk. pose proof (lookup_lt_Some _ _ _ Hk).
        rewrite store_lookup_ne by lia.
        replace (start d + 1 + Z.of_nat k) with (start d + Z.of_nat (1 + k)) by lia. by apply repr_ele.
      * rewrite length_drop in Hk, Hy. destruct (k - (length l - 1))%nat eqn:E; simplify_eq/=.
        replace (start d + 1 + Z.of_nat k) with (end_ d) by lia. by apply store_lookup_eq.
  - apply Z.eqb_neq in Ef. pose proof (repr_max _ _ _ _ Hr).
    rewrite Z.add_0_r, (u64_small (start d)) by (destruct Hr; unfold is_u64; lia).
    apply (repr_push_tail max Hmax n d l x Hr Hn). lia.
Qed.

(** ** Removal from the middle *)

(** The ring while elements move down: the positions below [k] are final. *)
Record shifted (s : Z) (idx k : nat) l (r : list A) : Prop := mk_shifted {
  sh_len : length r = Z.to_nat max;
  sh_done : forall j y, delete idx l !! j = Some y -> (j < k)%nat ->
    r !! Z.to_nat (private_slot max (s + Z.of_nat j)) = Some y;
  sh_todo : forall j y, l !! j = Some y -> (k < j)%nat ->
    r !! Z.to_nat (private_slot max (s + Z.of_nat j)) = Some y;
}.

Lemma pop_idx_loop n d l idx k r fuel :
  repr max n d l -> 0 < n -> (idx <= k < length l)%nat -> shifted (start d) idx k l r ->
  (length l - k <= fuel)%nat ->
  exists r', loop (pop_idx_tail_step max (start d) (end_ d)) fuel
      (Z.of_nat k, private_slot max (start d + Z.of_nat k), r) = Ok r' /\
    shifted (start d) idx (length l - 1) l r'.
Proof using Hmax.
  intros Hr Hn. revert k r. induction fuel as [|fuel IH]; intros k r Hk Hs Hf; [lia|].
  rewrite loop_S. unfold pop_idx_tail_step at 1. pose proof Hr as [].
  rewrite (u64_small (Z.of_nat k + 1)) by (unfold is_u64; lia).
  rewrite (u64_small (start d + (Z.of_nat k + 1))) by (unfold is_u64; lia).
  destruct (Z.leb_spec (end_ d) (start d + (Z.of_nat k + 1))) as [Hle|Hlt].
  - exists r. split; [done|]. by replace (length l - 1)%nat with k by lia.
  - destruct (lookup_lt_is_Some_2 l (S k)) as [y Hy]; [lia|].
    replace (Z.of_nat k + 1) with (Z.of_nat (S k)) by lia.
    rewrite (sh_todo _ _ _ _ _ Hs (S k) y Hy) by lia. cbn [deref mbind res_bind].
    apply IH; [lia| |lia]. split.
    + rewrite length_insert. apply Hs.
    + intros j z Hj Hjk. pose proof (lookup_lt_Some _ _ _ Hj) as Hjl.
      rewrite length_delete in Hjl by (by apply lookup_lt_is_Some_2; lia).
      destruct (decide (j = k)) as [->|Hne].
      * rewrite list_lookup_insert_eq;
          [|rewrite (sh_len _ _ _ _ _ Hs); pose proof (slot_range max Hmax (start d + Z.of_nat k)); lia].
        rewrite list_lookup_delete_ge in Hj by lia. congruence.
      * rewrite list_lookup_insert_ne; [apply Hs; [done|lia]|].
        intros E. apply Hne. apply Nat2Z.inj, (Z.add_cancel_l _ _ (start d)).
        apply (slot_inj max Hmax); [|lia].
        pose proof (slot_range max Hmax (start d + Z.of_nat k)).
        pose proof (slot_range max Hmax (start d + Z.of_nat j)). lia.
    + intros j z Hj Hjk. pose proof (lookup_lt_Some _ _ _ Hj) as Hjl.
      rewrite list_lookup_insert_ne; [apply (sh_todo _ _ _ _ _ Hs); [done|lia]|].
      intros E. assert (j = k); [|lia]. apply Nat2Z.inj, (Z.add_cancel_l _ _ (start d)).
      apply (slot_inj max Hmax); [|lia].
      pose proof (slot_range max Hmax (start d + Z.of_nat k)).
      pose proof (slot_range max Hmax (start d + Z.of_nat j)). lia.
Qed.

Lemma repr_pop_idx_tail n d l idx x :
  repr max n d l -> 0 < n -> l !! idx = Some x ->
  exists d', pop_idx_tail max d (Z.of_nat idx) = Ok (x, d') /\ repr max (n - 1) d' (delete idx l).
Proof using Hmax.
  intros Hr Hn Hx. pose proof (lookup_lt_Some _ _ _ Hx) as Hlt. pose proof Hr as [].
  unfold pop_idx_tail. rewrite (u64_small (start d + Z.of_nat idx)) by (unfold is_u64; lia).
  rewrite (repr_ele _ x Hx). cbn [deref mbind res_bind].
  destruct (pop_idx_loop n d l idx idx (ring d) (S (Z.to_nat max)) Hr Hn) as (r & -> & Hs); [lia| |lia|].
  { split; [done| |].
    - intros j y Hj Hk. rewrite list_lookup_delete_lt in Hj by done. by apply repr_ele.
    - intros j y Hj Hk. by apply repr_ele. }
  cbn [mbind res_bind]. rewrite (u64_small (end_ d - 1)) by (unfold is_u64; lia).
  eexists. split; [done|].
  assert (Hlen : length (delete idx l) = (length l - 1)%nat) by (rewrite length_delete by eauto; lia).
  split; simpl; rewrite ?Hlen; try lia; [apply Hs|].
  intros k y Hk. apply Hs; [done|]. apply lookup_lt_Some in Hk. lia.
Qed.

(** ** One operation *)

Lemma ring_op_refines n d l o r l' :
  repr max n d l -> n <= 9223372036854775807 -> 0 < n -> list_op l o = Some (r, l') ->
  exists d', ring_op d o = Ok (r, d') /\ repr max (n - 1) d' l'.
Proof using Hmax.
  intros Hr Hn0 Hn Ho. pose proof (repr_max _ _ _ _ Hr) as Hl.
  destruct o as [x|x|x|x| | |idx|]; cbn [ring_op list_op] in *.
  - destruct (is_full l) eqn:Ef; [done|]. apply Z.eqb_neq in Ef. injection Ho as <- <-.
    eexists. split; [done|]. apply (repr_push_head max Hmax); [done..|lia].
  - destruct (is_full l) eqn:Ef; [done|]. apply Z.eqb_neq in Ef. injection Ho as <- <-.
    eexists. split; [done|]. apply (repr_push_tail max Hmax); [done..|lia].
  - injection Ho as <- <-. eexists. split; [done|]. by apply repr_push_head_wrap.
  - injection Ho as <- <-. eexists. split; [done|]. by apply repr_push_tail_wrap.
  - destruct l as [|x l0]; [done|]. injection Ho as <- <-.
    destruct (repr_pop_head max Hmax n d l0 x Hr Hn) as (d' & -> & Hd'). eauto.
  - destruct l as [|x l0 _] using rev_ind; [done|]. rewrite last_snoc in Ho. injection Ho as <- <-.
    destruct (repr_pop_tail max Hmax n d l0 x Hr Hn) as (d' & -> & Hd'). exists d'. split; [done|].
    rewrite length_app. simpl. by replace (length l0 + 1 - 1)%nat with (length l0) by lia; rewrite take_app_length.
  - destruct (l !! idx) as [x|] eqn:Ei; [|done]. injection Ho as <- <-.
    destruct (repr_pop_idx_tail n d l idx x Hr Hn Ei) as (d' & -> & Hd'). eauto.
  - injection Ho as <- <-. eexists. split; [done|]. destruct Hr. unfold remove_all.
    change (Z.shiftl 1 63) with 9223372036854775808. split; simpl; unfold ULONG_MAX; done || lia.
Qed.

Lemma ring_run_refines os n d l rs l' :
  repr max n d l -> n <= 9223372036854775807 -> Z.of_nat (length os) <= n ->
  list_run l os = Some (rs, l') ->
  exists d', ring_run d os = Ok (rs, d') /\ repr max (n - Z.of_nat (length os)) d' l'.
Proof using Hmax.
  revert n d l rs. induction os as [|o os IH]; intros n d l rs Hr Hn0 Hn E; cbn [ring_run list_run] in *.
  - injection E as <- <-. exists d. split; [done|]. simpl. by rewrite Z.sub_0_r.
  - destruct (list_op l o) as [[r l1]|] eqn:Eo; [|done]. cbn [mbind option_bind] in E.
    destruct (list_run l1 os) as [[rs' l2]|] eqn:Er; [|done]. cbn [mbind option_bind] in E.
    injection E as <- <-. simpl in Hn.
    destruct (ring_op_refines n d l o r l1 Hr Hn0) as (d1 & -> & Hd1); [lia|done|].
    destruct (IH (n - 1) d1 l1 rs' Hd1) as (d2 & E2 & Hd2); [lia|lia|done|].
    cbn [mbind res_bind]. rewrite E2. cbn [mbind res_bind]. exists d2. split; [done|].
    simpl. by replace (n - Z.of_nat (S (length os))) with (n - 1 - Z.of_nat (length os)) by lia.
Qed.
End ops.

(** ** Properties *)

(** C28. A deque of the template is a list: any sequence of fewer than 2^63
    operations on a new ring buffer whose preconditions hold on the list
    returns the same elements as on the list, and the deque then holds the
    elements of the list: its count, and every element by index. *)
Theorem deque_run_refines {A : Type} (max : Z) (mem : list A) (os : list (deque_op A))
    (rs : list (option A)) (l : list A) :
  0 < max -> length mem = Z.to_nat max -> Z.of_nat (length os) < 2 ^ 63 ->
  list_run max [] os = Some (rs, l) ->
  exists d, ring_run max (new mem) os = Ok (rs, d) /\ cnt d = Z.of_nat (length l) /\
    empty d = bool_decide (l = []) /\ full max d = is_full max l /\
    forall k x, l !! k = Some x -> peek_index max d (Z.of_nat k) = Ok x.
Proof.
  intros Hmax Hmem Hos E.
  destruct (ring_run_refines max Hmax os 9223372036854775807 (new mem) [] rs l)
    as (d & Ed & Hr); [by apply repr_new|lia|lia|done|].
  exists d. split; [done|]. pose proof (repr_cnt_u64 max Hmax _ d l Hr) as Hc.
  unfold cnt, empty, full, is_full. rewrite Hc. split; [done|]. split.
  - destruct l; [done|]. by rewrite bool_decide_eq_false_2.
  - split; [done|]. intros k x Hk. unfold peek_index. pose proof (lookup_lt_Some _ _ _ Hk).
    rewrite u64_small by (destruct Hr; unfold is_u64; lia). by eapply repr_load.
Qed.

Lemma deque_run_refines_witness :
  exists d, ring_run 2 (new [0; 0]) [PushTailWrap 1; PushTailWrap 2; PushTailWrap 3; PopIdxTail 0] =
      Ok ([None; None; None; Some 2], d) /\ cnt d = 1.
Proof.
  destruct (deque_run_refines 2 [0; 0] [PushTailWrap 1; PushTailWrap 2; PushTailWrap 3; PopIdxTail 0]
              [None; None; None; Some 2] [3]) as (d & E & Hc & _).
  - lia.
  - reflexivity.
  - vm_compute. reflexivity.
  - reflexivity.
  - exists d. split; [exact E|exact Hc].
Defined.
