(* ===== verification/Bits.v ===== *)
(** * Bit tricks and doubles ([src/util/bits/fd_bits.h])

    [fd_ulong_pow2_up] as the code computes it, by smearing the highest set
    bit to the right, and its arithmetic meaning; the conversion of integers
    to doubles. *)

From Corelib Require Import SpecFloat.
From S2P Require Import Prelude.

#[local] Open Scope Z_scope.

(** [(double)x] for an unsigned integer: round to nearest, ties to even. *)
Definition double_of (x : Z) : spec_float := binary_normalize 53 1024 x 0 false.

Definition fd_ulong_pow2_up (x : Z) : Z :=
  let x := u64 (x - 1) in
  let x := Z.lor x (Z.shiftr x 1) in
  let x := Z.lor x (Z.shiftr x 2) in
  let x := Z.lor x (Z.shiftr x 4) in
  let x := Z.lor x (Z.shiftr x 8) in
  let x := Z.lor x (Z.shiftr x 16) in
  let x := Z.lor x (Z.shiftr x 32) in
  u64 (x + 1).

Definition fd_ulong_is_pow2 (x : Z) : bool := negb (x =? 0) && (Z.land x (u64 (x - 1)) =? 0).

(** The lowest set bit and the highest set bit of a nonzero word. *)
Definition fd_ulong_find_lsb (x : Z) : Z := Z.log2 (Z.land x (- x)).
Definition fd_ulong_find_msb (x : Z) : Z := Z.log2 x.

Definition fd_ulong_mask_lsb (n : Z) : Z := u64 (Z.shiftl (Z.b2z (n <? 64)) (Z.land n 63) - 1).
Definition fd_ulong_clear_lsb (x n : Z) : Z := Z.land x (Z.lnot (fd_ulong_mask_lsb n)).
Definition fd_ulong_insert_lsb (x n y : Z) : Z := Z.lor (fd_ulong_clear_lsb x n) y.

(** [y] is [x] with every bit smeared over the [w - 1] places to its right. *)
Definition smeared (x y w : Z) : Prop :=
  forall i, 0 <= i -> Z.testbit y i = true <-> exists d, 0 <= d < w /\ Z.testbit x (i + d) = true.

Lemma smeared_1 x : smeared x x 1.
Proof.
  intros i Hi. split.
  - intros H. exists 0. rewrite Z.add_0_r. split; [lia|done].
  - intros (d & Hd & H). by replace (i + d) with i in H by lia.
Qed.

Lemma smeared_double x y w : 0 <= w -> smeared x y w -> smeared x (Z.lor y (Z.shiftr y w)) (2 * w).
Proof.
  intros Hw H i Hi. rewrite Z.lor_spec, Z.shiftr_spec, orb_true_iff, (H i), (H (i + w)) by lia. split.
  - intros [(d & Hd & Hb)|(d & Hd & Hb)].
    + exists d. split; [lia|done].
    + exists (w + d). split; [lia|]. by rewrite Z.add_assoc.
  - intros (d & Hd & Hb). destruct (Z.lt_ge_cases d w).
    + left. exists d. split; [lia|done].
    + right. exists (d - w). split; [lia|]. by replace (i + w + (d - w)) with (i + d) by lia.
Qed.

(** Smeared over 64 places, a nonzero word is all ones up to its highest bit. *)
Lemma smeared_ones x y :
  0 < x <= ULONG_MAX -> 0 <= y -> smeared x y 64 -> y = Z.ones (Z.log2 x + 1).
Proof.
  intros Hx Hy H. pose proof (Z.log2_nonneg x).
  assert (Z.log2 x < 64) by (apply Z.log2_lt_pow2; unfold ULONG_MAX in *; lia).
  apply Z.bits_inj'. intros i Hi. destruct (Z.lt_ge_cases i (Z.log2 x + 1)).
  - rewrite Z.ones_spec_low by lia. apply (H i Hi). exists (Z.log2 x - i). split; [lia|].
    replace (i + (Z.log2 x - i)) with (Z.log2 x) by lia. apply Z.bit_log2. lia.
  - rewrite Z.ones_spec_high by lia. apply not_true_is_false. intros (d & Hd & Hb)%(H i Hi).
    rewrite Z.bits_above_log2 in Hb; [done|lia|lia].
Qed.

Lemma pow2_up_smeared x :
  smeared (u64 (x - 1)) (u64 (x - 1)) 1 ->
  exists y, 0 <= y /\ smeared (u64 (x - 1)) y 64 /\ fd_ulong_pow2_up x = u64 (y + 1).
Proof.
  intros H1. pose proof (u64_range (x - 1)) as [Hp _].
  eexists. split; [|split; [|reflexivity]].
  - repeat first [apply Z.lor_nonneg; split | apply Z.shiftr_nonneg]; exact Hp.
  - change 64 with (2 * 32). apply smeared_double; [lia|]. change 32 with (2 * 16). apply smeared_double; [lia|].
    change 16 with (2 * 8). apply smeared_double; [lia|]. change 8 with (2 * 4). apply smeared_double; [lia|].
    change 4 with (2 * 2). apply smeared_double; [lia|]. change 2 with (2 * 1). by apply smeared_double.
Qed.

(** [fd_ulong_pow2_up x] is the smallest power of two that is at least [x],
    for every [x] that has one in 64 bits. *)
Lemma pow2_up_spec x : 1 <= x <= 2 ^ 63 -> fd_ulong_pow2_up x = 2 ^ Z.log2_up x.
Proof.
  intros Hx. destruct (Z.eq_dec x 1) as [->|Hne]; [done|].
  destruct (pow2_up_smeared x (smeared_1 _)) as (y & Hy & Hs & ->).
  assert (Hu : u64 (x - 1) = x - 1) by (apply u64_small; unfold is_u64, ULONG_MAX; lia). rewrite Hu in Hs.
  rewrite (smeared_ones (x - 1) y) by (done || unfold ULONG_MAX; lia).
  rewrite Z.ones_equiv, Z.add_pred_l, Z.add_1_r, Z.pred_succ, Z.log2_up_eqn, Z.add_1_r by lia.
  rewrite <- Z.sub_1_r. apply u64_small. pose proof (Z.log2_nonneg (x - 1)). unfold is_u64, ULONG_MAX.
  assert (Z.log2 (x - 1) < 63) by (apply Z.log2_lt_pow2; lia).
  assert (2 ^ Z.succ (Z.log2 (x - 1)) <= 2 ^ 63) by (apply Z.pow_le_mono_r; lia).
  pose proof (Z.pow_pos_nonneg 2 (Z.succ (Z.log2 (x - 1)))). lia.
Qed.

Lemma pow2_up_ge x : 1 <= x <= 2 ^ 63 -> x <= fd_ulong_pow2_up x <= 2 ^ 63.
Proof.
  intros Hx. rewrite pow2_up_spec by done. destruct (Z.eq_dec x 1) as [->|]; [done|].
  pose proof (Z.log2_up_spec x). split; [lia|]. apply Z.pow_le_mono_r; [lia|].
  apply Z.log2_up_le_pow2; lia.
Qed.

(** The capacities of the choreo components are products of powers of two. *)
Lemma pow2_up_mul x y :
  1 <= x -> 1 <= y -> x <= 2 ^ 63 -> y <= 2 ^ 63 -> fd_ulong_pow2_up x * fd_ulong_pow2_up y <= 2 ^ 63 ->
  fd_ulong_pow2_up (u64 (fd_ulong_pow2_up x * fd_ulong_pow2_up y)) = fd_ulong_pow2_up x * fd_ulong_pow2_up y.
Proof.
  intros Hx Hy Hx' Hy' H. pose proof (pow2_up_ge x ltac:(lia)). pose proof (pow2_up_ge y ltac:(lia)).
  rewrite u64_small by (unfold is_u64, ULONG_MAX; nia). rewrite pow2_up_spec at 1 by nia.
  rewrite (pow2_up_spec x), (pow2_up_spec y), <- Z.pow_add_r by (lia || apply Z.log2_up_nonneg).
  rewrite Z.log2_up_pow2; [done|]. pose proof (Z.log2_up_nonneg x). pose proof (Z.log2_up_nonneg y). lia.
Qed.
