(* ===== verification/Bytes.v ===== *)
(** * Bytes and memory

    Bytes are integers in [0, 256).  Little-endian words, and C objects as
    arrays of bytes: a pointer into an object is the rest of the object from
    there on, [None] is a byte with no determinate value, reading one is [Ub],
    copying one is not. *)

From S2P Require Import Prelude.

#[local] Open Scope Z_scope.

Definition is_byte (b : Z) : Prop := 0 <= b < 256.

#[export] Instance is_byte_dec b : Decision (is_byte b).
Proof. unfold is_byte. apply _. Defined.

(** ** Little-endian words *)

Fixpoint le_bytes (n : nat) (z : Z) : list Z :=
  match n with O => [] | S n' => z mod 256 :: le_bytes n' (z / 256) end.

Fixpoint le_val (bs : list Z) : Z :=
  match bs with [] => 0 | b :: bs' => b + 256 * le_val bs' end.

Lemma le_bytes_length n z : length (le_bytes n z) = n.
Proof. revert z. induction n as [|n IH]; intros z; simpl; [done|]. by rewrite IH. Qed.

Lemma le_bytes_byte n z : Forall is_byte (le_bytes n z).
Proof.
  revert z. induction n as [|n IH]; intros z; simpl; constructor; [|apply IH].
  unfold is_byte. pose proof (Z.mod_pos_bound z 256). lia.
Qed.

Lemma le_val_bytes n z : 0 <= z < 256 ^ Z.of_nat n -> le_val (le_bytes n z) = z.
Proof.
  revert z. induction n as [|n IH]; intros z Hz; [simpl in *; lia|].
  rewrite Nat2Z.inj_succ, Z.pow_succ_r in Hz by lia. simpl. rewrite IH.
  - pose proof (Z.div_mod z 256). lia.
  - split; [apply Z.div_pos; lia|]. apply Z.div_lt_upper_bound; lia.
Qed.

Lemma le_val_range bs : Forall is_byte bs -> 0 <= le_val bs < 256 ^ Z.of_nat (length bs).
Proof.
  induction 1 as [|b bs Hb _ IH]; [simpl; lia|]. unfold is_byte in Hb.
  simpl length. rewrite Nat2Z.inj_succ, Z.pow_succ_r by lia. simpl. lia.
Qed.

Lemma le_bytes_val bs : Forall is_byte bs -> le_bytes (length bs) (le_val bs) = bs.
Proof.
  induction 1 as [|b bs Hb _ IH]; [done|]. unfold is_byte in Hb. simpl.
  assert ((b + 256 * le_val bs) mod 256 = b) as -> by (symmetry; apply (Z.mod_unique_pos _ _ (le_val bs)); lia).
  assert ((b + 256 * le_val bs) / 256 = le_val bs) as -> by (symmetry; apply (Z.div_unique_pos _ _ _ b); lia).
  by rewrite IH.
Qed.

(** ** Continuation bits of variable-length integers *)

Lemma land_128 b : is_byte b -> (Z.land 128 b =? 0) = (b <? 128).
Proof.
  intros Hb. assert (Hall : Forall (fun b => (Z.land 128 b =? 0) = (b <? 128)) (seqZ 0 256))
    by (apply (bool_decide_unpack _); vm_compute; exact I).
  rewrite Forall_forall in Hall. apply Hall. apply elem_of_seqZ. unfold is_byte in Hb. lia.
Qed.

Lemma land_127 z : Z.land z 127 = z mod 128.
Proof. exact (Z.land_ones z 7 ltac:(lia)). Qed.

(** The continuation bit. *)
Lemma lor_128 z : Z.lor (Z.land z 127) 128 = z mod 128 + 128.
Proof.
  rewrite land_127. change 128 with (1 * 2 ^ 7) at 2 3. apply lor_add; [lia|].
  apply Z.mod_pos_bound. lia.
Qed.

(** ** Memory *)

Abbreviation mem := (list (option Z)) (only parsing).

(** An object with no determinate contents. *)
Definition uninit (sz : Z) : mem := replicate (Z.to_nat sz) None.

(** The bytes [off, off + n) of an object, all of them determinate. *)
Definition read (m : mem) (off n : Z) : res (list Z) :=
  if (off <? 0) || (n <? 0) || (Z.of_nat (length m) <? off + n) then Ub
  else deref (mapM id (take (Z.to_nat n) (drop (Z.to_nat off) m))).

(** An integer of [n] bytes. *)
Definition load (m : mem) (off n : Z) : res Z := bs ← read m off n; Ok (le_val bs).

(** [memcpy( dst + off, src, n )] *)
Definition memcpy (dst : mem) (off : Z) (src : mem) (n : Z) : res mem :=
  if (off <? 0) || (n <? 0) || (Z.of_nat (length dst) <? off + n) || (Z.of_nat (length src) <? n) then Ub
  else Ok (take (Z.to_nat off) dst ++ take (Z.to_nat n) src ++ drop (Z.to_nat (off + n)) dst).

(** The pointer [off] bytes further on. *)
Definition advance (m : mem) (off : Z) : res mem :=
  if (off <? 0) || (Z.of_nat (length m) <? off) then Ub else Ok (drop (Z.to_nat off) m).

(** The object that holds the bytes [bs]. *)
Definition bytes (bs : list Z) : mem := Some <$> bs.

(** ** Arrays *)

Definition aget {A} (a : list A) (i : Z) : res A := if i <? 0 then Ub else deref (a !! Z.to_nat i).

Definition aset {A} (a : list A) (i : Z) (x : A) : res (list A) :=
  if (i <? 0) || (Z.of_nat (length a) <=? i) then Ub else Ok (<[Z.to_nat i := x]> a).

Lemma bytes_length bs : length (bytes bs) = length bs.
Proof. apply length_fmap. Qed.

Lemma drop_bytes n bs : drop n (bytes bs) = bytes (drop n bs).
Proof. symmetry. apply fmap_drop. Qed.

Lemma take_bytes n bs : take n (bytes bs) = bytes (take n bs).
Proof. symmetry. apply fmap_take. Qed.

Lemma bytes_app a b : bytes (a ++ b) = bytes a ++ bytes b.
Proof. apply fmap_app. Qed.

Lemma mapM_bytes bs : mapM id (bytes bs) = Some bs.
Proof. induction bs as [|b bs IH]; [done|]. simpl. by rewrite IH. Qed.

(** Reading from an object whose bytes up to the end of the range are [bs]. *)
Lemma read_bytes bs rest off n :
  0 <= off -> 0 <= n -> off + n <= Z.of_nat (length bs) ->
  read (bytes bs ++ rest) off n = Ok (take (Z.to_nat n) (drop (Z.to_nat off) bs)).
Proof.
  intros Ho Hn Hl. unfold read. rewrite length_app, bytes_length.
  rewrite (proj2 (Z.ltb_ge off 0)), (proj2 (Z.ltb_ge n 0)) by lia. simpl.
  rewrite (proj2 (Z.ltb_ge _ _)) by lia. rewrite drop_app_le by (rewrite bytes_length; lia).
  rewrite take_app_le by (rewrite length_drop, bytes_length; lia).
  unfold bytes. rewrite <- fmap_drop, <- fmap_take. fold (bytes (take (Z.to_nat n) (drop (Z.to_nat off) bs))).
  by rewrite mapM_bytes.
Qed.

Lemma load_bytes bs rest off n :
  0 <= off -> 0 <= n -> off + n <= Z.of_nat (length bs) ->
  load (bytes bs ++ rest) off n = Ok (le_val (take (Z.to_nat n) (drop (Z.to_nat off) bs))).
Proof. intros. unfold load. by rewrite read_bytes. Qed.

Lemma memcpy_ok dst off src n :
  0 <= off -> 0 <= n -> off + n <= Z.of_nat (length dst) -> n <= Z.of_nat (length src) ->
  memcpy dst off src n =
    Ok (take (Z.to_nat off) dst ++ take (Z.to_nat n) src ++ drop (Z.to_nat (off + n)) dst).
Proof.
  intros. unfold memcpy. rewrite (proj2 (Z.ltb_ge off 0)), (proj2 (Z.ltb_ge n 0)) by lia. simpl.
  by rewrite !(proj2 (Z.ltb_ge _ _)) by lia.
Qed.

Lemma memcpy_length dst off src n m :
  memcpy dst off src n = Ok m -> length m = length dst.
Proof.
  unfold memcpy. intros H. destruct (_ || _ || _ || _) eqn:E; [done|]. injection H as <-.
  rewrite !orb_false_iff, !Z.ltb_ge in E. destruct E as [[[? ?] ?] ?].
  rewrite !length_app, !length_take, length_drop. lia.
Qed.

Lemma advance_ok m off : 0 <= off <= Z.of_nat (length m) -> advance m off = Ok (drop (Z.to_nat off) m).
Proof. intros. unfold advance. by rewrite !(proj2 (Z.ltb_ge _ _)) by lia. Qed.

Lemma aget_ok {A} (a : list A) i : 0 <= i < Z.of_nat (length a) -> exists x, aget a i = Ok x /\ a !! Z.to_nat i = Some x.
Proof.
  intros Hi. unfold aget. rewrite (proj2 (Z.ltb_ge i 0)) by lia.
  destruct (lookup_lt_is_Some_2 a (Z.to_nat i)) as [x Hx]; [lia|]. rewrite Hx. by exists x.
Qed.

Lemma aset_ok {A} (a : list A) i x : 0 <= i < Z.of_nat (length a) -> aset a i x = Ok (<[Z.to_nat i := x]> a).
Proof. intros Hi. unfold aset. by rewrite (proj2 (Z.ltb_ge i 0)), (proj2 (Z.leb_gt _ _)) by lia. Qed.

(** ** Regions of memory *)

(** The bytes [off, off + n) of an object. *)
Definition region (m : mem) (off n : Z) : mem := take (Z.to_nat n) (drop (Z.to_nat off) m).

Lemma region_memcpy dst off src n m : memcpy dst off src n = Ok m -> region m off n = take (Z.to_nat n) src.
Proof.
  unfold memcpy. intros H. destruct (_ || _ || _ || _) eqn:E; [done|]. injection H as <-.
  rewrite !orb_false_iff, !Z.ltb_ge in E. destruct E as [[[? ?] ?] ?]. unfold region.
  rewrite drop_app_length' by (rewrite length_take; lia). rewrite take_app_length' by (rewrite length_take; lia). done.
Qed.

Lemma region_memcpy_other dst off src n m off' n' : memcpy dst off src n = Ok m -> 0 <= off' -> 0 <= n' ->
  off' + n' <= off \/ off + n <= off' -> region m off' n' = region dst off' n'.
Proof.
  unfold memcpy. intros H Ho Hn Hd. destruct (_ || _ || _ || _) eqn:E; [done|]. injection H as <-.
  rewrite !orb_false_iff, !Z.ltb_ge in E. destruct E as [[[? ?] ?] ?]. unfold region. destruct Hd as [Hd|Hd].
  - rewrite drop_app_le by (rewrite length_take; lia). rewrite take_app_le by (rewrite length_drop, length_take; lia).
    rewrite <- (take_drop (Z.to_nat off) dst) at 2. rewrite drop_app_le by (rewrite length_take; lia).
    by rewrite take_app_le by (rewrite length_drop, length_take; lia).
  - rewrite app_assoc, drop_app_ge by (rewrite length_app, !length_take; lia). rewrite drop_drop. f_equal. f_equal.
    rewrite length_app, !length_take. lia.
Qed.

Lemma region_length m off n : 0 <= off -> 0 <= n -> off + n <= Z.of_nat (length m) -> Z.of_nat (length (region m off n)) = n.
Proof. intros. unfold region. rewrite length_take, length_drop. lia. Qed.

(** Adjacent regions. *)
Lemma region_app m off n n' : 0 <= off -> 0 <= n -> 0 <= n' -> region m off n ++ region m (off + n) n' = region m off (n + n').
Proof.
  intros. unfold region. replace (Z.to_nat (off + n)) with (Z.to_nat off + Z.to_nat n)%nat by lia.
  rewrite <- drop_drop. replace (Z.to_nat (n + n')) with (Z.to_nat n + Z.to_nat n')%nat by lia. by rewrite take_take_drop.
Qed.

Lemma region_0 m n : region m 0 n = take (Z.to_nat n) m.
Proof. unfold region. by rewrite drop_0. Qed.
