(* ===== verification/CompactU16.v ===== *)
(** * Compact 16-bit integers ([src/ballet/txn/fd_compact_u16.h])

    The variable-length integers of the transaction format: seven bits per
    byte, least significant first, in as few bytes as possible. *)

From S2P Require Import Prelude Bytes.

#[local] Open Scope Z_scope.

Definition u8 (z : Z) : Z := z mod 256.
Definition u16 (z : Z) : Z := z mod 65536.

(** A byte of an object. *)
Definition byte_at (buf : mem) (i : Z) : res Z := load buf i 1.

(** [buf[ i ] = b] *)
Definition store1 (buf : mem) (i b : Z) : res mem := memcpy buf i [Some b] 1.

(** ** Decoding *)

(** The size check is a debugging aid that the default build leaves out. *)
Definition fd_cu16_dec_fixed (buf : mem) (sz : Z) : res Z :=
  if sz =? 1 then byte_at buf 0
  else if sz =? 2 then
    b0 ← byte_at buf 0;
    b1 ← byte_at buf 1;
    Ok (u16 (Z.land b0 127 + Z.shiftl b1 7))
  else
    b0 ← byte_at buf 0;
    b1 ← byte_at buf 1;
    b2 ← byte_at buf 2;
    Ok (u16 (Z.land b0 127 + Z.shiftl (Z.land b1 127) 7 + Z.shiftl b2 14)).

(** [bytes_avail > i && !( mask & buf[ i ] )] *)
Definition ends_at (buf : mem) (bytes_avail i mask : Z) : res bool :=
  if i + 1 <=? bytes_avail then b ← byte_at buf i; Ok (Z.land mask b =? 0) else Ok false.

(** [n] unless the last byte is zero. *)
Definition minimal (buf : mem) (i n : Z) : res Z := b ← byte_at buf i; Ok (if b =? 0 then 0 else n).

Definition fd_cu16_dec_sz (buf : mem) (bytes_avail : Z) : res Z :=
  e0 ← ends_at buf bytes_avail 0 128;
  if (e0 : bool) then Ok 1 else
  e1 ← ends_at buf bytes_avail 1 128;
  if (e1 : bool) then minimal buf 1 2 else
  e2 ← ends_at buf bytes_avail 2 252;
  if (e2 : bool) then minimal buf 2 3 else Ok 0.

(** The size, and the value [*result_out] has afterwards. *)
Definition fd_cu16_dec (buf : mem) (bytes_avail result_out : Z) : res (Z * Z) :=
  sz ← fd_cu16_dec_sz buf bytes_avail;
  if sz =? 0 then Ok (0, result_out) else v ← fd_cu16_dec_fixed buf sz; Ok (sz, v).

(** ** Encoding *)

Definition fd_uchar_store_if (c : bool) (out : mem) (i b : Z) : res mem := if c then store1 out i b else Ok out.

Definition fd_cu16_enc (val : Z) (out : mem) : res (Z * mem) :=
  let byte0 := Z.land val 127 in
  let byte1 := Z.land (Z.shiftr val 7) 127 in
  let byte2 := Z.shiftr val 14 in
  let needs_byte1 := 127 <? val in
  let needs_byte2 := 16383 <? val in
  out ← fd_uchar_store_if true out 0 (u8 (Z.lor byte0 (Z.shiftl (Z.b2z needs_byte1) 7)));
  out ← fd_uchar_store_if needs_byte1 out 1 (u8 (Z.lor byte1 (Z.shiftl (Z.b2z needs_byte2) 7)));
  out ← fd_uchar_store_if needs_byte2 out 2 (u8 byte2);
  Ok (1 + Z.b2z needs_byte1 + Z.b2z needs_byte2, out).

(** ** The format *)

Definition is_u16 (v : Z) : Prop := 0 <= v < 65536.

Definition cu16 (v : Z) : list Z :=
  if v <? 128 then [v]
  else if v <? 16384 then [v mod 128 + 128; v / 128]
  else [v mod 128 + 128; v / 128 mod 128 + 128; v / 16384].

Lemma byte_at_ok bs rest i b : bs !! Z.to_nat i = Some b -> 0 <= i -> byte_at (bytes bs ++ rest) i = Ok b.
Proof.
  intros Hb Hi. pose proof (lookup_lt_Some _ _ _ Hb). unfold byte_at. rewrite (load_bytes bs rest i 1); [|lia|lia|lia].
  rewrite (drop_S _ _ _ Hb). change (Z.to_nat 1) with 1%nat. rewrite firstn_cons, take_0. cbn [le_val]. f_equal. lia.
Qed.

Lemma ends_at_ok bs rest avail i mask b : bs !! Z.to_nat i = Some b -> 0 <= i -> i + 1 <= avail ->
  ends_at (bytes bs ++ rest) avail i mask = Ok (Z.land mask b =? 0).
Proof. intros Hb Hi Ha. unfold ends_at. by rewrite (proj2 (Z.leb_le _ _)), (byte_at_ok _ _ _ b). Qed.

Lemma ends_at_short buf avail i mask : avail <= i -> ends_at buf avail i mask = Ok false.
Proof. intros Ha. unfold ends_at. by rewrite (proj2 (Z.leb_gt _ _)) by lia. Qed.

Lemma minimal_ok bs rest i n b : bs !! Z.to_nat i = Some b -> 0 <= i -> minimal (bytes bs ++ rest) i n = Ok (if b =? 0 then 0 else n).
Proof. intros Hb Hi. unfold minimal. by rewrite (byte_at_ok _ _ _ b). Qed.

(** The last byte of a value of three bytes. *)
Lemma land_252 b : is_byte b -> (Z.land 252 b =? 0) = (b <? 4).
Proof.
  intros Hb. assert (Hall : Forall (fun b => (Z.land 252 b =? 0) = (b <? 4)) (seqZ 0 256))
    by (apply (bool_decide_unpack _); vm_compute; exact I).
  rewrite Forall_forall in Hall. apply Hall. apply elem_of_seqZ. unfold is_byte in Hb. lia.
Qed.

Lemma cu16_cases v : is_u16 v ->
  (v < 128 /\ cu16 v = [v]) \/
  (exists lo hi, v = lo + 128 * hi /\ 0 <= lo < 128 /\ 1 <= hi < 128 /\ cu16 v = [lo + 128; hi]) \/
  (exists lo mid hi, v = lo + 128 * mid + 16384 * hi /\ 0 <= lo < 128 /\ 0 <= mid < 128 /\ 1 <= hi < 4 /\ cu16 v = [lo + 128; mid + 128; hi]).
Proof.
  unfold is_u16, cu16. intros Hv. destruct (Z.ltb_spec v 128); [by left|right].
  pose proof (Z.mod_pos_bound v 128 ltac:(lia)). pose proof (Z.div_mod v 128 ltac:(lia)).
  destruct (Z.ltb_spec v 16384); [left|right].
  - exists (v mod 128), (v / 128). split_and!; [lia|lia|lia|..|done]; nia.
  - pose proof (Z.mod_pos_bound (v / 128) 128 ltac:(lia)). pose proof (Z.div_mod (v / 128) 128 ltac:(lia)) as Hd.
    rewrite Z.div_div in Hd by lia. change (128 * 128) with 16384 in Hd.
    exists (v mod 128), (v / 128 mod 128), (v / 16384). split_and!; [lia|lia|lia|lia|lia|..|done]; nia.
Qed.

Lemma cu16_two lo hi : 0 <= lo < 128 -> 1 <= hi < 128 -> cu16 (lo + 128 * hi) = [lo + 128; hi].
Proof.
  intros. unfold cu16. rewrite (proj2 (Z.ltb_ge _ 128)), (proj2 (Z.ltb_lt _ 16384)) by lia.
  repeat f_equal; symmetry; [apply (Z.mod_unique_pos _ _ hi)|apply (Z.div_unique_pos _ _ _ lo)]; lia.
Qed.

Lemma cu16_three lo mid hi : 0 <= lo < 128 -> 0 <= mid < 128 -> 1 <= hi < 4 ->
  cu16 (lo + 128 * mid + 16384 * hi) = [lo + 128; mid + 128; hi].
Proof.
  intros. unfold cu16. rewrite !(proj2 (Z.ltb_ge _ _)) by lia.
  assert ((lo + 128 * mid + 16384 * hi) / 128 = mid + 128 * hi) as -> by (symmetry; apply (Z.div_unique_pos _ _ _ lo); lia).
  repeat f_equal; symmetry; [apply (Z.mod_unique_pos _ _ (mid + 128 * hi))|apply (Z.mod_unique_pos _ _ hi)|apply (Z.div_unique_pos _ _ _ (lo + 128 * mid))]; lia.
Qed.

Lemma low_bits b : 0 <= b < 128 -> Z.land (b + 128) 127 = b.
Proof. intros. rewrite land_127. symmetry. apply (Z.mod_unique_pos _ _ 1); lia. Qed.

(** ** Decoding what was encoded *)

Lemma cu16_dec_sz_ok v tail rest avail : is_u16 v -> Z.of_nat (length (cu16 v)) <= avail ->
  fd_cu16_dec_sz (bytes (cu16 v ++ tail) ++ rest) avail = Ok (Z.of_nat (length (cu16 v))).
Proof.
  intros Hv Ha. unfold fd_cu16_dec_sz.
  destruct (cu16_cases v Hv) as [[H E]|[(lo & hi & -> & Hlo & Hhi & E)|(lo & mid & hi & -> & Hlo & Hmid & Hhi & E)]];
    rewrite E in *; simpl length in *; unfold is_u16 in Hv.
  - rewrite (ends_at_ok _ _ _ 0 _ v)  by (done || lia). cbn [mbind res_bind]. by rewrite land_128, (proj2 (Z.ltb_lt _ _)) by (unfold is_byte; lia).
  - rewrite (ends_at_ok _ _ _ 0 _ (lo + 128)) by (done || lia). cbn [mbind res_bind].
    rewrite land_128, (proj2 (Z.ltb_ge _ _)) by (unfold is_byte; lia).
    rewrite (ends_at_ok _ _ _ 1 _ hi) by (done || lia). cbn [mbind res_bind]. rewrite land_128, (proj2 (Z.ltb_lt _ _)) by (unfold is_byte; lia).
    rewrite (minimal_ok _ _ _ _ hi) by (done || lia). by rewrite (proj2 (Z.eqb_neq _ _)) by lia.
  - rewrite (ends_at_ok _ _ _ 0 _ (lo + 128)) by (done || lia). cbn [mbind res_bind].
    rewrite land_128, (proj2 (Z.ltb_ge _ _)) by (unfold is_byte; lia).
    rewrite (ends_at_ok _ _ _ 1 _ (mid + 128)) by (done || lia). cbn [mbind res_bind]. rewrite land_128, (proj2 (Z.ltb_ge _ _)) by (unfold is_byte; lia).
    rewrite (ends_at_ok _ _ _ 2 _ hi) by (done || lia). cbn [mbind res_bind]. rewrite land_252, (proj2 (Z.ltb_lt _ _)) by (unfold is_byte; lia).
    rewrite (minimal_ok _ _ _ _ hi) by (done || lia). by rewrite (proj2 (Z.eqb_neq _ _)) by lia.
Qed.

Lemma cu16_dec_fixed_ok v tail rest : is_u16 v ->
  fd_cu16_dec_fixed (bytes (cu16 v ++ tail) ++ rest) (Z.of_nat (length (cu16 v))) = Ok v.
Proof.
  intros Hv. unfold fd_cu16_dec_fixed.
  destruct (cu16_cases v Hv) as [[H E]|[(lo & hi & -> & Hlo & Hhi & E)|(lo & mid & hi & -> & Hlo & Hmid & Hhi & E)]];
    rewrite E in *; [change (Z.of_nat _) with 1|change (Z.of_nat _) with 2|change (Z.of_nat _) with 3];
    cbn [Z.eqb Pos.eqb]; unfold is_u16 in Hv.
  - by rewrite (byte_at_ok _ _ _ v) by (done || lia).
  - rewrite (byte_at_ok _ _ 0 (lo + 128)), (byte_at_ok _ _ 1 hi) by (done || lia). cbn [mbind res_bind].
    rewrite low_bits, Z.shiftl_mul_pow2 by lia. unfold u16. rewrite Z.mod_small; [f_equal|]; lia.
  - rewrite (byte_at_ok _ _ 0 (lo + 128)), (byte_at_ok _ _ 1 (mid + 128)), (byte_at_ok _ _ 2 hi) by (done || lia). cbn [mbind res_bind].
    rewrite !low_bits, !Z.shiftl_mul_pow2 by lia. unfold u16. rewrite Z.mod_small; [f_equal|]; lia.
Qed.

(** Whatever the bytes, the size is zero unless they start with an encoded
    value. *)
Lemma cu16_dec_sz_inv bs rest : Forall is_byte bs ->
  exists sz, fd_cu16_dec_sz (bytes bs ++ rest) (Z.of_nat (length bs)) = Ok sz /\
    (sz = 0 \/ exists v tail, is_u16 v /\ bs = cu16 v ++ tail /\ sz = Z.of_nat (length (cu16 v))).
Proof.
  intros Hb. unfold fd_cu16_dec_sz, is_u16. destruct bs as [|b0 bs].
  { rewrite !ends_at_short by (simpl; lia). exists 0. auto. }
  apply Forall_cons in Hb as [H0 Hb]. rewrite (ends_at_ok _ _ _ 0 _ b0) by (done || simpl; lia). cbn [mbind res_bind]. rewrite land_128 by done.
  unfold is_byte in H0. destruct (Z.ltb_spec b0 128) as [L0|L0].
  { exists 1. split; [done|]. right. exists b0, bs. unfold cu16. rewrite (proj2 (Z.ltb_lt _ _)) by lia. split_and!; [lia|lia|done|done]. }
  destruct bs as [|b1 bs]; [rewrite !ends_at_short by (simpl; lia); exists 0; auto|].
  apply Forall_cons in Hb as [H1 Hb]. rewrite (ends_at_ok _ _ _ 1 _ b1) by (done || simpl; lia). cbn [mbind res_bind]. rewrite land_128 by done.
  unfold is_byte in H1. destruct (Z.ltb_spec b1 128) as [L1|L1].
  { rewrite (minimal_ok _ _ _ _ b1) by (done || lia). eexists. split; [done|]. destruct (Z.eqb_spec b1 0); [by left|right].
    exists ((b0 - 128) + 128 * b1), bs. rewrite cu16_two by lia. split_and!; [lia|lia| |done]. simpl. f_equal. lia. }
  destruct bs as [|b2 bs]; [rewrite !ends_at_short by (simpl; lia); exists 0; auto|].
  apply Forall_cons in Hb as [H2 Hb]. rewrite (ends_at_ok _ _ _ 2 _ b2) by (done || simpl; lia). cbn [mbind res_bind]. rewrite land_252 by done.
  unfold is_byte in H2. destruct (Z.ltb_spec b2 4) as [L2|L2]; [|exists 0; auto].
  rewrite (minimal_ok _ _ _ _ b2) by (done || lia). eexists. split; [done|]. destruct (Z.eqb_spec b2 0); [by left|right].
  exists ((b0 - 128) + 128 * (b1 - 128) + 16384 * b2), bs. rewrite cu16_three by lia. split_and!; [lia|lia| |done]. simpl. by repeat (f_equal; try lia).
Qed.

Lemma cu16_length v : is_u16 v -> (1 <= length (cu16 v) <= 3)%nat.
Proof.
  intros Hv. destruct (cu16_cases v Hv) as [[_ ->]|[(? & ? & _ & _ & _ & ->)|(? & ? & ? & _ & _ & _ & _ & ->)]]; simpl; lia.
Qed.

Lemma cu16_bytes v : is_u16 v -> Forall is_byte (cu16 v).
Proof.
  intros Hv. unfold is_u16 in Hv. destruct (cu16_cases v Hv) as [[? ->]|[(? & ? & _ & ? & ? & ->)|(? & ? & ? & _ & ? & ? & ? & ->)]];
    repeat constructor; lia.
Qed.

(** Two encodings at the front of the same bytes are the same. *)
Lemma cu16_prefix v v' t t' : is_u16 v -> is_u16 v' -> cu16 v ++ t = cu16 v' ++ t' -> v = v' /\ t = t'.
Proof.
  intros Hv Hv' E. pose proof (cu16_dec_sz_ok v t [] 3 Hv) as D. pose proof (cu16_dec_sz_ok v' t' [] 3 Hv') as D'.
  pose proof (cu16_length v Hv). pose proof (cu16_length v' Hv'). rewrite E in D. rewrite D in D' by lia. injection (D' ltac:(lia)) as El.
  pose proof (cu16_dec_fixed_ok v t [] Hv) as F. rewrite E, El, cu16_dec_fixed_ok in F by done. injection F as ->.
  split; [done|]. by apply app_inv_head in E.
Qed.

(** ** Encoding *)

Lemma store1_ok m i b : 0 <= i < Z.of_nat (length m) -> store1 m i b = Ok (<[Z.to_nat i := Some b]> m).
Proof.
  intros Hi. unfold store1. rewrite memcpy_ok by (simpl; lia). rewrite insert_take_drop by lia. simpl.
  by replace (Z.to_nat (i + 1)) with (S (Z.to_nat i)) by lia.
Qed.

Lemma cu16_enc_ok v out : is_u16 v -> (length (cu16 v) <= length out)%nat ->
  fd_cu16_enc v out = Ok (Z.of_nat (length (cu16 v)), bytes (cu16 v) ++ drop (length (cu16 v)) out).
Proof.
  intros Hv Hl. unfold is_u16 in Hv. unfold fd_cu16_enc, fd_uchar_store_if, cu16 in *. rewrite !Z.shiftr_div_pow2 by lia.
  change (2 ^ 7) with 128. change (2 ^ 14) with 16384.
  pose proof (Z.mod_pos_bound v 128 ltac:(lia)). pose proof (Z.mod_pos_bound (v / 128) 128 ltac:(lia)).
  assert (Hlow : forall z, 0 <= z -> z mod 128 + 128 < 256) by (intros z; pose proof (Z.mod_pos_bound z 128 ltac:(lia)); lia).
  destruct (Z.ltb_spec v 128) as [L0|L0]; [|destruct (Z.ltb_spec v 16384) as [L1|L1]];
    destruct out as [|x0 out]; simpl length in Hl; try lia.
  - rewrite !(proj2 (Z.ltb_ge _ v)) by lia. rewrite store1_ok by (simpl; lia). cbn [mbind res_bind Z.b2z].
    rewrite Z.shiftl_0_l, Z.lor_0_r, land_127, (Z.mod_small v) by lia. unfold u8. by rewrite Z.mod_small by lia.
  - rewrite (proj2 (Z.ltb_lt _ v)), (proj2 (Z.ltb_ge _ v)) by lia. destruct out as [|x1 out]; [simpl in Hl; lia|].
    rewrite store1_ok by (simpl; lia). cbn [mbind res_bind Z.b2z]. change (Z.shiftl 1 7) with 128.
    rewrite lor_128, store1_ok by (simpl; lia). cbn [mbind res_bind]. rewrite Z.shiftl_0_l, Z.lor_0_r, land_127. unfold u8.
    assert (v / 128 < 128) by (apply Z.div_lt_upper_bound; lia). assert (0 <= v / 128) by (apply Z.div_pos; lia).
    rewrite (Z.mod_small (v / 128) 128) by lia. by rewrite !Z.mod_small by lia.
  - rewrite !(proj2 (Z.ltb_lt _ v)) by lia. destruct out as [|x1 [|x2 out]]; [simpl in Hl; lia..|].
    rewrite store1_ok by (simpl; lia). cbn [mbind res_bind Z.b2z]. change (Z.shiftl 1 7) with 128.
    rewrite !lor_128, store1_ok by (simpl; lia). cbn [mbind res_bind]. rewrite store1_ok by (simpl; lia). cbn [mbind res_bind]. unfold u8.
    assert (v / 16384 < 4) by (apply Z.div_lt_upper_bound; lia). assert (0 <= v / 16384) by (apply Z.div_pos; lia).
    by rewrite !(Z.mod_small _ 256) by lia.
Qed.

(** ** Properties *)

(** The encoder writes at most three bytes, and a decoder of any bytes that
    follow reads the value back; of any bytes at all the decoder accepts
    exactly those that start with the encoding of a 16-bit value, and reads
    none behind them. *)
Theorem compact_u16_canonical (bs : list Z) (rest : mem) (result_out : Z) :
  Forall is_byte bs ->
  exists sz w, fd_cu16_dec (bytes bs ++ rest) (Z.of_nat (length bs)) result_out = Ok (sz, w) /\ 0 <= sz <= 3 /\
    (sz = 0 -> w = result_out) /\
    forall v out, is_u16 v -> (3 <= length out)%nat ->
      exists out', fd_cu16_enc v out = Ok (Z.of_nat (length (cu16 v)), out') /\
        (sz <> 0 /\ w = v <-> take (length (cu16 v)) (bytes bs) = take (length (cu16 v)) out').
Proof.
  intros Hb. unfold fd_cu16_dec. destruct (cu16_dec_sz_inv bs rest Hb) as (sz & E & Hsz). rewrite E. cbn [mbind res_bind].
  assert (Hno : sz = 0 -> forall v t, is_u16 v -> bs <> cu16 v ++ t).
  { intros -> v t Hv ->. pose proof (cu16_length v Hv). rewrite cu16_dec_sz_ok in E by (done || (rewrite length_app; lia)). injection E. lia. }
  assert (Henc : forall v out w, is_u16 v -> (3 <= length out)%nat ->
    (sz <> 0 /\ w = v <-> exists t, bs = cu16 v ++ t) ->
    exists out', fd_cu16_enc v out = Ok (Z.of_nat (length (cu16 v)), out') /\
      (sz <> 0 /\ w = v <-> take (length (cu16 v)) (bytes bs) = take (length (cu16 v)) out')).
  { intros v out w Hv Hl Hiff. pose proof (cu16_length v Hv). rewrite cu16_enc_ok by (done || lia). eexists. split; [done|].
    rewrite Hiff, take_app_length' by (symmetry; apply bytes_length). rewrite take_bytes. split.
    - intros [t ->]. by rewrite take_app_length.
    - intros Ht. exists (drop (length (cu16 v)) bs). apply (inj (fmap Some)) in Ht. rewrite <- Ht at 1. by rewrite take_drop. }
  destruct Hsz as [->|(v & t & Hv & -> & ->)].
  - exists 0, result_out. split_and!; [done|done|done|done|]. intros v out Hv Hl. apply Henc; [done|done|].
    split; [by intros []|]. intros [t Ht]. by apply Hno in Ht.
  - pose proof (cu16_length v Hv). rewrite (proj2 (Z.eqb_neq _ _)) by lia. rewrite cu16_dec_fixed_ok by done. cbn [mbind res_bind].
    do 2 eexists. split; [done|]. split; [lia|]. split; [lia|]. intros v' out Hv' Hl. apply Henc; [done|done|]. split.
    + intros [_ ->]. by exists t.
    + intros [t' Ht']. apply cu16_prefix in Ht' as [-> _]; [|done..]. split; [lia|done].
Qed.

Lemma compact_u16_canonical_witness :
  fd_cu16_dec (bytes [129; 1; 7] ++ []) 3 0 = Ok (2, 129) /\
  exists sz w, fd_cu16_dec (bytes [129; 1; 7] ++ []) 3 0 = Ok (sz, w) /\ 0 <= sz <= 3 /\ (sz = 0 -> w = 0) /\
    forall v out, is_u16 v -> (3 <= length out)%nat ->
      exists out', fd_cu16_enc v out = Ok (Z.of_nat (length (cu16 v)), out') /\
        (sz <> 0 /\ w = v <-> take (length (cu16 v)) (bytes [129; 1; 7]) = take (length (cu16 v)) out').
Proof. split; [done|]. apply (compact_u16_canonical [129; 1; 7] [] 0). repeat constructor; lia. Defined.
