(* ===== verification/Txn.v ===== *)
(** * Transactions ([src/ballet/txn/fd_txn.h])

    The descriptor of a parsed transaction: counts, and offsets into the
    payload.  The two flexible arrays behind the C structure are lists. *)

From S2P Require Import Prelude Bytes.

#[local] Open Scope Z_scope.

Definition FD_TXN_VLEGACY : Z := 255.
Definition FD_TXN_V0 : Z := 0.
Definition FD_TXN_SIGNATURE_SZ : Z := 64.
Definition FD_TXN_ACCT_ADDR_SZ : Z := 32.
Definition FD_TXN_BLOCKHASH_SZ : Z := 32.
Definition FD_TXN_SIG_MAX : Z := 127.
Definition FD_TXN_ACTUAL_SIG_MAX : Z := 12.
Definition FD_TXN_ACCT_ADDR_MAX : Z := 128.
Definition FD_TXN_ADDR_TABLE_LOOKUP_MAX : Z := 127.
Definition FD_TXN_INSTR_MAX : Z := 64.
Definition FD_TXN_MAX_SZ : Z := 852.
Definition FD_TXN_MTU : Z := 1232.
Definition FD_TXN_MIN_SERIALIZED_SZ : Z := 134.

Record fd_txn_instr_t := mk_instr {
  program_id : Z;
  acct_cnt : Z;
  data_sz : Z;
  acct_off : Z;
  data_off : Z;
}.

Record fd_txn_acct_addr_lut_t := mk_lut {
  addr_off : Z;
  writable_cnt : Z;
  readonly_cnt : Z;
  writable_off : Z;
  readonly_off : Z;
}.

Record fd_txn_t := mk_txn {
  transaction_version : Z;
  signature_cnt : Z;
  signature_off : Z;
  message_off : Z;
  readonly_signed_cnt : Z;
  readonly_unsigned_cnt : Z;
  acct_addr_cnt : Z;
  acct_addr_off : Z;
  recent_blockhash_off : Z;
  addr_table_lookup_cnt : Z;
  addr_table_adtl_writable_cnt : Z;
  addr_table_adtl_cnt : Z;
  instr_cnt : Z;
  instr : list fd_txn_instr_t;
  address_tables : list fd_txn_acct_addr_lut_t;
}.

(** [sizeof] the structures: only 1- and 2-byte fields, none padded. *)
Definition sizeof_fd_txn_t : Z := 20.
Definition sizeof_fd_txn_instr_t : Z := 10.
Definition sizeof_fd_txn_acct_addr_lut_t : Z := 8.

Definition fd_txn_footprint (instr_cnt addr_table_lookup_cnt : Z) : Z :=
  u64 (sizeof_fd_txn_t + instr_cnt * sizeof_fd_txn_instr_t + addr_table_lookup_cnt * sizeof_fd_txn_acct_addr_lut_t).

(** [fd_txn_get_address_tables], relative to the start of the structure. *)
Definition fd_txn_get_address_tables (instr_cnt : Z) : Z := sizeof_fd_txn_t + instr_cnt * sizeof_fd_txn_instr_t.

(** [failure_ring] has [FD_TXN_PARSE_COUNTERS_RING_SZ] entries. *)
Definition FD_TXN_PARSE_COUNTERS_RING_SZ : Z := 32.

Record fd_txn_parse_counters_t := mk_counters {
  success_cnt : Z;
  failure_cnt : Z;
  failure_ring : list Z;
}.
