(* ===== verification/TxnParse.v ===== *)
(** * The transaction parser ([src/ballet/txn/fd_txn_parse.c])

    The payload is an object of [payload_sz] bytes; reading outside of it is
    [Ub].  The output buffer is given by its size (or [None] for NULL); writing
    behind its end is [Ub].  A failed check leaves the parser with the line
    number of the check, which is what the counters record. *)

From S2P Require Import Prelude Bytes CompactU16 Txn.

#[local] Open Scope Z_scope.

(** ** Checks *)

Definition chk (A : Type) : Type := res (Z + A).

#[export] Instance chk_ret : MRet chk := fun A a => Ok (inr a).
#[export] Instance chk_bind : MBind chk := fun A B f m =>
  match m with
  | Ok (inr a) => f a
  | Ok (inl line) => Ok (inl line)
  | Crit => Crit
  | Ub => Ub
  | Hang => Hang
  end.

Definition lift {A} (m : res A) : chk A := inr <$> m.

(** [CHECK( cond )] at a line. *)
Definition CHECK (line : Z) (cond : bool) : chk unit := Ok (if cond then inr tt else inl line).

Section parse.
Context (payload : mem) (payload_sz : Z).

Definition CHECK_LEFT (line i n : Z) : chk unit := CHECK line (n <=? u64 (payload_sz - i)).

(** The size of the compact-u16 and its value. *)
Definition READ_CHECKED_COMPACT_U16 (line where_ : Z) : chk (Z * Z) :=
  buf ← lift (advance payload where_);
  out_sz ← lift (fd_cu16_dec_sz buf (u64 (payload_sz - where_)));
  _ ← CHECK line (negb (out_sz =? 0));
  v ← lift (fd_cu16_dec_fixed buf out_sz);
  mret (out_sz, v).

Definition payload_at (i : Z) : chk Z := lift (byte_at payload i).

(** ** The output buffer *)

Context (out_buf : option Z).

(** A write that ends at offset [last] of the buffer. *)
Definition out_write (last : Z) : chk unit :=
  match out_buf with
  | None => mret tt
  | Some sz => lift (if last <=? sz then Ok tt else Ub)
  end.

(** ** Instructions *)

Definition MIN_INSTR_SZ : Z := 3.

(** The largest account index of an instruction. *)
Fixpoint max_accts (n : nat) (k_i max_acct : Z) : chk Z :=
  match n with
  | O => mret max_acct
  | S n' => b ← payload_at k_i; max_accts n' (k_i + 1) (Z.max max_acct b)
  end.

(** One instruction: the descriptor, [max_acct] and [i] afterwards. *)
Definition parse_instr (acct_addr_cnt : Z) (j i max_acct : Z) : chk (fd_txn_instr_t * Z * Z) :=
  _ ← CHECK_LEFT 153 i MIN_INSTR_SZ;
  program_id ← payload_at i;
  let i := u64 (i + 1) in
  '(bytes_consumed, acct_cnt) ← READ_CHECKED_COMPACT_U16 154 i;
  let i := u64 (i + bytes_consumed) in
  _ ← CHECK_LEFT 155 i acct_cnt;
  let acct_off := i in
  max_acct ← max_accts (Z.to_nat acct_cnt) i max_acct;
  let i := u64 (i + acct_cnt) in
  '(bytes_consumed, data_sz) ← READ_CHECKED_COMPACT_U16 157 i;
  let i := u64 (i + bytes_consumed) in
  _ ← CHECK_LEFT 158 i data_sz;
  let data_off := i in
  let i := u64 (i + data_sz) in
  _ ← CHECK 166 ((0 <? program_id) && (program_id <? acct_addr_cnt));
  _ ← out_write (sizeof_fd_txn_t + (j + 1) * sizeof_fd_txn_instr_t);
  mret (mk_instr program_id acct_cnt data_sz (u16 acct_off) (u16 data_off), max_acct, i).

(** The loop, [n] instructions from the [j]-th on. *)
Fixpoint parse_instrs (acct_addr_cnt : Z) (n : nat) (j i max_acct : Z) : chk (list fd_txn_instr_t * Z * Z) :=
  match n with
  | O => mret ([], max_acct, i)
  | S n' =>
      '(x, max_acct, i) ← parse_instr acct_addr_cnt j i max_acct;
      '(xs, max_acct, i) ← parse_instrs acct_addr_cnt n' (j + 1) i max_acct;
      mret (x :: xs, max_acct, i)
  end.

(** ** Address lookup tables *)

Definition MIN_ADDR_LUT_SIZE : Z := 34.

(** One table: the descriptor, the two counts and [i] afterwards. *)
Definition parse_lut (acct_addr_cnt instr_cnt : Z) (j i : Z) : chk (fd_txn_acct_addr_lut_t * Z * Z * Z) :=
  _ ← CHECK_LEFT 194 i FD_TXN_ACCT_ADDR_SZ;
  let addr_off := i in
  let i := u64 (i + FD_TXN_ACCT_ADDR_SZ) in
  '(bytes_consumed, writable_cnt) ← READ_CHECKED_COMPACT_U16 198 i;
  let i := u64 (i + bytes_consumed) in
  _ ← CHECK_LEFT 199 i writable_cnt;
  let writable_off := i in
  let i := u64 (i + writable_cnt) in
  '(bytes_consumed, readonly_cnt) ← READ_CHECKED_COMPACT_U16 200 i;
  let i := u64 (i + bytes_consumed) in
  _ ← CHECK_LEFT 201 i readonly_cnt;
  let readonly_off := i in
  let i := u64 (i + readonly_cnt) in
  _ ← CHECK 203 (writable_cnt <=? u64 (FD_TXN_ACCT_ADDR_MAX - acct_addr_cnt));
  _ ← CHECK 204 (readonly_cnt <=? u64 (FD_TXN_ACCT_ADDR_MAX - acct_addr_cnt));
  _ ← CHECK 205 (1 <=? writable_cnt + readonly_cnt);
  _ ← out_write (fd_txn_get_address_tables instr_cnt + (j + 1) * sizeof_fd_txn_acct_addr_lut_t);
  mret (mk_lut (u16 addr_off) (u8 writable_cnt) (u8 readonly_cnt) (u16 writable_off) (u16 readonly_off),
        writable_cnt, readonly_cnt, i).

(** The loop, [n] tables from the [j]-th on, with the two totals. *)
Fixpoint parse_luts (acct_addr_cnt instr_cnt : Z) (n : nat) (j i adtl_writable_cnt adtl_cnt : Z)
    : chk (list fd_txn_acct_addr_lut_t * Z * Z * Z) :=
  match n with
  | O => mret ([], adtl_writable_cnt, adtl_cnt, i)
  | S n' =>
      '(x, writable_cnt, readonly_cnt, i) ← parse_lut acct_addr_cnt instr_cnt j i;
      '(xs, w, c, i) ← parse_luts acct_addr_cnt instr_cnt n' (j + 1) i
        (u64 (adtl_writable_cnt + writable_cnt)) (u64 (adtl_cnt + u64 (writable_cnt + readonly_cnt)));
      mret (x :: xs, w, c, i)
  end.

(** The tables of a versioned transaction, none in a legacy one: the tables,
    their number, the totals and [i]. *)
Definition parse_tables (transaction_version acct_addr_cnt instr_cnt i : Z)
    : chk (list fd_txn_acct_addr_lut_t * Z * Z * Z * Z) :=
  if transaction_version =? FD_TXN_V0 then
    '(bytes_consumed, addr_table_cnt) ← READ_CHECKED_COMPACT_U16 189 i;
    let i := u64 (i + bytes_consumed) in
    _ ← CHECK 190 (addr_table_cnt <=? FD_TXN_ADDR_TABLE_LOOKUP_MAX);
    _ ← CHECK_LEFT 191 i (MIN_ADDR_LUT_SIZE * addr_table_cnt);
    '(luts, w, c, i) ← parse_luts acct_addr_cnt instr_cnt (Z.to_nat addr_table_cnt) 0 i 0 0;
    mret (luts, addr_table_cnt, w, c, i)
  else mret ([], 0, 0, 0, i).

(** ** The message header *)

(** The version: a versioned transaction repeats the signature count behind
    the version byte, in a legacy one the count is that byte. *)
Definition parse_version (signature_cnt header_b0 i : Z) : chk (Z * Z) :=
  if negb (Z.land header_b0 128 =? 0) then
    let transaction_version := Z.land header_b0 127 in
    _ ← CHECK 98 (transaction_version =? FD_TXN_V0);
    _ ← CHECK_LEFT 100 i 1;
    b ← payload_at i;
    _ ← CHECK 100 (signature_cnt =? b);
    mret (transaction_version, u64 (i + 1))
  else
    _ ← CHECK 103 (signature_cnt =? header_b0);
    mret (FD_TXN_VLEGACY, i).

(** Everything before the account addresses: the number of signatures, the
    offset of the message, the version, the two counts of readonly accounts,
    and [i] afterwards. *)
Definition parse_header : chk (Z * Z * Z * Z * Z * Z) :=
  let i := 0 in
  _ ← CHECK 79 (payload_sz <=? FD_TXN_MTU);
  _ ← CHECK_LEFT 86 i 1;
  signature_cnt ← payload_at i;
  let i := u64 (i + 1) in
  _ ← CHECK 88 ((1 <=? signature_cnt) && (signature_cnt <=? FD_TXN_SIG_MAX));
  _ ← CHECK_LEFT 89 i (FD_TXN_SIGNATURE_SZ * signature_cnt);
  let i := u64 (i + FD_TXN_SIGNATURE_SZ * signature_cnt) in
  let message_off := i in
  _ ← CHECK_LEFT 92 i 1;
  header_b0 ← payload_at i;
  let i := u64 (i + 1) in
  '(transaction_version, i) ← parse_version signature_cnt header_b0 i;
  _ ← CHECK_LEFT 105 i 1;
  ro_signed_cnt ← payload_at i;
  let i := u64 (i + 1) in
  _ ← CHECK 107 (ro_signed_cnt <? signature_cnt);
  _ ← CHECK_LEFT 109 i 1;
  ro_unsigned_cnt ← payload_at i;
  let i := u64 (i + 1) in
  mret (signature_cnt, message_off, transaction_version, ro_signed_cnt, ro_unsigned_cnt, i).

(** The body of [fd_txn_parse_core] up to the counters: the descriptor, the
    return value and the number of bytes read.  [sz_given] is
    [payload_sz_opt != NULL]; the signatures start at offset 1. *)
Definition parse_body (sz_given : bool) : chk (fd_txn_t * Z * Z) :=
  let signature_off := 1 in
  '(signature_cnt, message_off, transaction_version, ro_signed_cnt, ro_unsigned_cnt, i) ← parse_header;
  '(bytes_consumed, acct_addr_cnt) ← READ_CHECKED_COMPACT_U16 112 i;
  let i := u64 (i + bytes_consumed) in
  _ ← CHECK 113 ((signature_cnt <=? acct_addr_cnt) && (acct_addr_cnt <=? FD_TXN_ACCT_ADDR_MAX));
  _ ← CHECK 114 (signature_cnt + ro_unsigned_cnt <=? acct_addr_cnt);
  _ ← CHECK_LEFT 116 i (FD_TXN_ACCT_ADDR_SZ * acct_addr_cnt);
  let acct_addr_off := i in
  let i := u64 (i + FD_TXN_ACCT_ADDR_SZ * acct_addr_cnt) in
  _ ← CHECK_LEFT 117 i FD_TXN_BLOCKHASH_SZ;
  let recent_blockhash_off := i in
  let i := u64 (i + FD_TXN_BLOCKHASH_SZ) in
  '(bytes_consumed, instr_cnt) ← READ_CHECKED_COMPACT_U16 120 i;
  let i := u64 (i + bytes_consumed) in
  _ ← CHECK 122 (instr_cnt <=? FD_TXN_INSTR_MAX);
  _ ← CHECK_LEFT 124 i (MIN_INSTR_SZ * instr_cnt);
  _ ← CHECK 127 (Z.b2z (negb (instr_cnt =? 0)) <? acct_addr_cnt);
  _ ← out_write sizeof_fd_txn_t;
  '(instrs, max_acct, i) ← parse_instrs acct_addr_cnt (Z.to_nat instr_cnt) 0 i 0;
  '(luts, addr_table_cnt, addr_table_adtl_writable_cnt, addr_table_adtl_cnt, i) ←
    parse_tables transaction_version acct_addr_cnt instr_cnt i;
  _ ← CHECK 220 (sz_given || (i =? payload_sz));
  _ ← CHECK 222 (u64 (acct_addr_cnt + addr_table_adtl_cnt) <=? FD_TXN_ACCT_ADDR_MAX);
  _ ← CHECK 225 (max_acct <? u64 (acct_addr_cnt + addr_table_adtl_cnt));
  mret (mk_txn transaction_version signature_cnt (u16 signature_off) (u16 message_off) ro_signed_cnt ro_unsigned_cnt
          acct_addr_cnt (u16 acct_addr_off) (u16 recent_blockhash_off) (u8 addr_table_cnt)
          (u8 addr_table_adtl_writable_cnt) (u8 addr_table_adtl_cnt) instr_cnt instrs luts,
        fd_txn_footprint instr_cnt addr_table_cnt, i).

End parse.

(** ** The parser *)

(** The failure counter and the ring of failed lines. *)
Definition count_failure (c : fd_txn_parse_counters_t) (line : Z) : res fd_txn_parse_counters_t :=
  ring ← aset (failure_ring c) (failure_cnt c mod FD_TXN_PARSE_COUNTERS_RING_SZ) line;
  Ok (mk_counters (success_cnt c) (u64 (failure_cnt c + 1)) ring).

Definition count_success (c : fd_txn_parse_counters_t) : fd_txn_parse_counters_t :=
  mk_counters (u64 (success_cnt c + 1)) (failure_cnt c) (failure_ring c).

(** What a call leaves behind: the return value, the descriptor in the output
    buffer (when there is one and the call succeeded; a failed call leaves
    undefined contents), the counters and [*payload_sz_opt]. *)
Record parse_out := mk_out {
  ret : Z;
  parsed : option fd_txn_t;
  counters : option fd_txn_parse_counters_t;
  sz_out : option Z;
}.

Definition fd_txn_parse_core (payload : mem) (payload_sz : Z) (out_buf : option Z)
    (counters_opt : option fd_txn_parse_counters_t) (payload_sz_opt : option Z) : res parse_out :=
  r ← parse_body payload payload_sz out_buf (bool_decide (is_Some payload_sz_opt));
  match r with
  | inl line =>
      match counters_opt with
      | None => Ok (mk_out 0 None None payload_sz_opt)
      | Some c => c' ← count_failure c line; Ok (mk_out 0 None (Some c') payload_sz_opt)
      end
  | inr (txn, footprint, i) =>
      Ok (mk_out footprint
            (match out_buf with None => None | Some _ => Some txn end)
            (count_success <$> counters_opt) ((fun _ => i) <$> payload_sz_opt))
  end.

Definition fd_txn_parse (payload : mem) (payload_sz : Z) (out_buf : option Z)
    (counters_opt : option fd_txn_parse_counters_t) : res parse_out :=
  fd_txn_parse_core payload payload_sz out_buf counters_opt None.
