(* ===== verification/TxnFormat.v ===== *)
(** * The transaction format

    What a transaction is, how it is laid out on the wire, and the descriptor
    that belongs to it: the specification of the parser. *)

From S2P Require Import Prelude Bytes CompactU16 Txn TxnParse.

#[local] Open Scope Z_scope.

Definition len {A} (l : list A) : Z := Z.of_nat (length l).

(** ** Transactions *)

Record instruction := mk_instruction { i_program : Z; i_accts : list Z; i_data : list Z }.
Record table_lookup := mk_lookup { l_addr : list Z; l_writable : list Z; l_readonly : list Z }.

Record transaction := mk_transaction {
  t_versioned : bool;
  t_signatures : list (list Z);
  t_ro_signed : Z;
  t_ro_unsigned : Z;
  t_addrs : list (list Z);
  t_blockhash : list Z;
  t_instrs : list instruction;
  t_lookups : list table_lookup;
}.

(** ** Encoding *)

Definition encode_instr (a : instruction) : list Z :=
  i_program a :: cu16 (len (i_accts a)) ++ i_accts a ++ cu16 (len (i_data a)) ++ i_data a.

Definition encode_lookup (l : table_lookup) : list Z :=
  l_addr l ++ cu16 (len (l_writable l)) ++ l_writable l ++ cu16 (len (l_readonly l)) ++ l_readonly l.

Definition encode_tables (versioned : bool) (ls : list table_lookup) : list Z :=
  if versioned then cu16 (len ls) ++ concat (encode_lookup <$> ls) else [].

Definition encode_header (t : transaction) : list Z :=
  (if t_versioned t then [128] else []) ++ [len (t_signatures t); t_ro_signed t; t_ro_unsigned t].

Definition encode_txn (t : transaction) : list Z :=
  len (t_signatures t) :: concat (t_signatures t) ++ encode_header t ++
  cu16 (len (t_addrs t)) ++ concat (t_addrs t) ++ t_blockhash t ++
  cu16 (len (t_instrs t)) ++ concat (encode_instr <$> t_instrs t) ++ encode_tables (t_versioned t) (t_lookups t).

(** ** Well-formed transactions *)

Definition byte_string (n : Z) (bs : list Z) : Prop := len bs = n /\ Forall is_byte bs.

Definition instr_ok (addr_cnt : Z) (a : instruction) : Prop :=
  0 < i_program a < addr_cnt /\ Forall is_byte (i_accts a) /\ Forall is_byte (i_data a).

Definition lookup_ok (addr_cnt : Z) (l : table_lookup) : Prop :=
  byte_string FD_TXN_ACCT_ADDR_SZ (l_addr l) /\ Forall is_byte (l_writable l) /\ Forall is_byte (l_readonly l) /\
  len (l_writable l) <= FD_TXN_ACCT_ADDR_MAX - addr_cnt /\ len (l_readonly l) <= FD_TXN_ACCT_ADDR_MAX - addr_cnt /\
  1 <= len (l_writable l) + len (l_readonly l).

(** The accounts the tables add. *)
Definition lookup_writable (ls : list table_lookup) : Z := foldr Z.add 0 ((fun l => len (l_writable l)) <$> ls).
Definition lookup_total (ls : list table_lookup) : Z := foldr Z.add 0 ((fun l => len (l_writable l) + len (l_readonly l)) <$> ls).

Record transaction_ok (t : transaction) : Prop := mk_transaction_ok {
  ok_sigs : 1 <= len (t_signatures t) <= FD_TXN_SIG_MAX;
  ok_sig : Forall (byte_string FD_TXN_SIGNATURE_SZ) (t_signatures t);
  ok_ro_signed : 0 <= t_ro_signed t < len (t_signatures t);
  ok_ro_unsigned : 0 <= t_ro_unsigned t <= len (t_addrs t) - len (t_signatures t);
  ok_addrs : len (t_addrs t) + lookup_total (t_lookups t) <= FD_TXN_ACCT_ADDR_MAX;
  ok_addr : Forall (byte_string FD_TXN_ACCT_ADDR_SZ) (t_addrs t);
  ok_blockhash : byte_string FD_TXN_BLOCKHASH_SZ (t_blockhash t);
  ok_instrs : len (t_instrs t) <= FD_TXN_INSTR_MAX;
  ok_program : t_instrs t = [] \/ 1 < len (t_addrs t);
  ok_instr : Forall (instr_ok (len (t_addrs t))) (t_instrs t);
  ok_accts : Forall (fun a => Forall (fun k => k < len (t_addrs t) + lookup_total (t_lookups t)) (i_accts a)) (t_instrs t);
  ok_legacy : t_versioned t = false -> t_lookups t = [];
  ok_lookups : len (t_lookups t) <= FD_TXN_ADDR_TABLE_LOOKUP_MAX;
  ok_lookup : Forall (lookup_ok (len (t_addrs t))) (t_lookups t);
}.

(** ** The descriptor *)

Definition describe_instr (i : Z) (a : instruction) : fd_txn_instr_t :=
  let acct_off := i + 1 + len (cu16 (len (i_accts a))) in
  mk_instr (i_program a) (len (i_accts a)) (len (i_data a)) acct_off
    (acct_off + len (i_accts a) + len (cu16 (len (i_data a)))).

Definition describe_lookup (i : Z) (l : table_lookup) : fd_txn_acct_addr_lut_t :=
  let writable_off := i + FD_TXN_ACCT_ADDR_SZ + len (cu16 (len (l_writable l))) in
  mk_lut i (len (l_writable l)) (len (l_readonly l)) writable_off
    (writable_off + len (l_writable l) + len (cu16 (len (l_readonly l)))).

(** Descriptors of parts that follow each other from offset [i] on. *)
Fixpoint layout {A D} (enc : A -> list Z) (desc : Z -> A -> D) (i : Z) (xs : list A) : list D :=
  match xs with [] => [] | x :: xs' => desc i x :: layout enc desc (i + len (enc x)) xs' end.

Definition describe (t : transaction) : fd_txn_t :=
  let message_off := 1 + FD_TXN_SIGNATURE_SZ * len (t_signatures t) in
  let acct_addr_off := message_off + len (encode_header t) + len (cu16 (len (t_addrs t))) in
  let recent_blockhash_off := acct_addr_off + FD_TXN_ACCT_ADDR_SZ * len (t_addrs t) in
  let instr_off := recent_blockhash_off + FD_TXN_BLOCKHASH_SZ + len (cu16 (len (t_instrs t))) in
  let lookup_off := instr_off + len (concat (encode_instr <$> t_instrs t)) + len (cu16 (len (t_lookups t))) in
  mk_txn (if t_versioned t then FD_TXN_V0 else FD_TXN_VLEGACY) (len (t_signatures t)) 1 message_off
    (t_ro_signed t) (t_ro_unsigned t) (len (t_addrs t)) acct_addr_off recent_blockhash_off
    (len (t_lookups t)) (lookup_writable (t_lookups t)) (lookup_total (t_lookups t)) (len (t_instrs t))
    (layout encode_instr describe_instr instr_off (t_instrs t))
    (layout encode_lookup describe_lookup lookup_off (t_lookups t)).

(** * What the parser does at one position of the payload

    Completeness (what is encoded at a position is accepted there, with its
    descriptor) and soundness (what is accepted is encoded there) of the parts
    of the parser. *)

(** ** Outcomes of parsers *)

(** The code returns, and [P] holds of what it accepts. *)
Definition sound {A} (m : chk A) (P : A -> Prop) : Prop :=
  exists r, m = Ok r /\ match r with inl _ => True | inr x => P x end.

Lemma sound_bind {A B} (m : chk A) (f : A -> chk B) Q P : sound m Q -> (forall x, Q x -> sound (f x) P) -> sound (m ≫= f) P.
Proof. intros ([line|x] & -> & Hx) Hf; [by exists (inl line)|]. by apply Hf. Qed.

Lemma sound_ret {A} (x : A) (P : A -> Prop) : P x -> sound (mret x) P.
Proof. intros H. by exists (inr x). Qed.

Lemma sound_CHECK line cond : sound (CHECK line cond) (fun _ => cond = true).
Proof. unfold sound, CHECK. destruct cond; [by exists (inr tt)|by exists (inl line)]. Qed.

Lemma sound_eq {A} (m : chk A) x (P : A -> Prop) : m = Ok (inr x) -> P x -> sound m P.
Proof. intros -> H. by exists (inr x). Qed.

Lemma sound_impl {A} (m : chk A) (P Q : A -> Prop) : sound m P -> (forall x, P x -> Q x) -> sound m Q.
Proof. intros ([line|x] & E & Hx) H; [by exists (inl line)|]. exists (inr x). split; [done|]. by apply H. Qed.

Lemma CHECK_ok line cond : cond = true -> CHECK line cond = Ok (inr tt).
Proof. by intros ->. Qed.

(** ** Positions of the payload *)

Lemma len_app {A} (x y : list A) : len (x ++ y) = len x + len y.
Proof. unfold len. rewrite length_app. lia. Qed.

Lemma len_cons {A} (x : A) l : len (x :: l) = 1 + len l.
Proof. unfold len. simpl. lia. Qed.

Lemma len_nonneg {A} (l : list A) : 0 <= len l.
Proof. unfold len. lia. Qed.

Lemma to_nat_len {A} (l : list A) : Z.to_nat (len l) = length l.
Proof. apply Nat2Z.id. Qed.

Lemma len_cu16 v : is_u16 v -> 1 <= len (cu16 v) <= 3.
Proof. intros H%cu16_length. unfold len. lia. Qed.

Lemma split_at {A} (t : list A) n : 0 <= n <= len t -> exists x t', t = x ++ t' /\ len x = n.
Proof.
  intros H. exists (take (Z.to_nat n) t), (drop (Z.to_nat n) t). rewrite take_drop. split; [done|].
  unfold len in *. rewrite length_take. lia.
Qed.

Section payload.
Context (bs : list Z) (bs_bytes : Forall is_byte bs) (bs_mtu : len bs <= FD_TXN_MTU).

Abbreviation payload := (bytes bs) (only parsing).
Abbreviation payload_sz := (len bs) (only parsing).

(** [t] are the bytes from offset [i] on. *)
Definition at_pos (i : Z) (t : list Z) : Prop := 0 <= i <= len bs /\ drop (Z.to_nat i) bs = t.

Lemma at_len i t : at_pos i t -> len t = len bs - i.
Proof. intros [Hi <-]. unfold len in *. rewrite length_drop. lia. Qed.

Lemma at_bytes i t : at_pos i t -> Forall is_byte t.
Proof. intros [_ <-]. by apply Forall_drop. Qed.

Lemma at_next i x t : at_pos i (x ++ t) -> at_pos (i + len x) t.
Proof.
  intros H. pose proof (at_len _ _ H) as Hl. destruct H as [Hi Hd]. rewrite len_app in Hl. pose proof (len_nonneg x). pose proof (len_nonneg t).
  split; [lia|]. replace (Z.to_nat (i + len x)) with (Z.to_nat i + length x)%nat by (unfold len in *; lia).
  by rewrite <- drop_drop, Hd, drop_app_length.
Qed.

Lemma at_small i t : at_pos i t -> u64 i = i /\ u16 i = i.
Proof using bs_mtu.
  intros [Hi _]. unfold FD_TXN_MTU in bs_mtu. split; [apply u64_small; unfold is_u64, ULONG_MAX; lia|]. unfold u16. apply Z.mod_small. lia.
Qed.

Lemma left_eq line i t n : at_pos i t -> CHECK_LEFT payload_sz line i n = CHECK line (n <=? len t).
Proof using bs_mtu.
  intros H. rewrite (at_len _ _ H). destruct H as [Hi _]. unfold FD_TXN_MTU in bs_mtu. unfold CHECK_LEFT.
  by rewrite u64_small by (unfold is_u64, ULONG_MAX; lia).
Qed.

Lemma left_ok line i x t n : at_pos i (x ++ t) -> n <= len x -> CHECK_LEFT payload_sz line i n = Ok (inr tt).
Proof using bs_mtu. intros H Hn. rewrite (left_eq _ _ _ _ H), len_app. pose proof (len_nonneg t). apply CHECK_ok. lia. Qed.

Lemma payload_at_ok i b t : at_pos i (b :: t) -> payload_at payload i = Ok (inr b).
Proof.
  intros [Hi Hd]. unfold payload_at, lift. rewrite <- (app_nil_r (bytes bs)), (byte_at_ok _ _ _ b); [done| |lia].
  rewrite <- (Nat.add_0_r (Z.to_nat i)), <- lookup_drop. by rewrite Hd.
Qed.

Lemma read_cu16_ok line i v t : at_pos i (cu16 v ++ t) -> is_u16 v ->
  READ_CHECKED_COMPACT_U16 payload payload_sz line i = Ok (inr (len (cu16 v), v)).
Proof using bs_mtu.
  intros H Hv. pose proof (at_len _ _ H) as Hl. destruct H as [Hi Hd]. unfold READ_CHECKED_COMPACT_U16.
  rewrite advance_ok by (rewrite bytes_length; unfold len in *; lia). cbn [lift fmap res_fmap mbind chk_bind].
  rewrite drop_bytes, Hd, <- (app_nil_r (bytes _)). rewrite len_app in Hl. pose proof (len_nonneg t). unfold FD_TXN_MTU in bs_mtu.
  rewrite u64_small by (unfold is_u64, ULONG_MAX; lia). rewrite cu16_dec_sz_ok by (done || (unfold len in *; lia)).
  cbn [lift fmap res_fmap mbind chk_bind]. fold (len (cu16 v)). pose proof (len_cu16 v Hv).
  rewrite (proj2 (Z.eqb_neq _ _)) by lia. cbn [negb CHECK]. unfold len at 1. rewrite cu16_dec_fixed_ok by done. done.
Qed.

Lemma sound_left line i t n : at_pos i t -> 0 <= n -> sound (CHECK_LEFT payload_sz line i n) (fun _ => exists x t', t = x ++ t' /\ len x = n).
Proof using bs_mtu.
  intros H Hn. rewrite (left_eq _ _ _ _ H). eapply sound_impl; [apply sound_CHECK|]. intros _ Hc%Z.leb_le. apply split_at. lia.
Qed.

Lemma sound_cu16 line i t : at_pos i t ->
  sound (READ_CHECKED_COMPACT_U16 payload payload_sz line i) (fun x => exists t', is_u16 x.2 /\ t = cu16 x.2 ++ t' /\ x.1 = len (cu16 x.2)).
Proof using bs_bytes bs_mtu.
  intros H. pose proof (at_len _ _ H) as Hl. pose proof (at_bytes _ _ H) as Hb. unfold FD_TXN_MTU in bs_mtu.
  destruct (cu16_dec_sz_inv t [] Hb) as (sz & E & [->|(v & t' & Hv & -> & Hsz)]).
  - unfold READ_CHECKED_COMPACT_U16. destruct H as [Hi Hd]. rewrite advance_ok by (rewrite bytes_length; unfold len in *; lia).
    cbn [lift fmap res_fmap mbind chk_bind]. rewrite drop_bytes, Hd, u64_small, <- Hl by (unfold is_u64, ULONG_MAX; lia).
    unfold len at 1. rewrite app_nil_r in E. rewrite E. by exists (inl line).
  - eapply sound_eq; [by apply (read_cu16_ok line i v t')|]. by exists t'.
Qed.

Lemma at_cons i b t : at_pos i (b :: t) -> at_pos (i + 1) t /\ u64 (i + 1) = i + 1.
Proof using bs_mtu. intros H. assert (H' : at_pos (i + 1) t) by (apply (at_next i [b] t H)). split; [done|]. by apply (at_small (i + 1) t). Qed.

Lemma at_app i x t : at_pos i (x ++ t) -> at_pos (i + len x) t /\ u64 (i + len x) = i + len x.
Proof using bs_mtu. intros H%at_next. split; [done|]. by apply (at_small _ t). Qed.

(** Parts of the payload have lengths that fit in 16 bits. *)
Lemma at_u16 i x t : at_pos i (x ++ t) -> is_u16 (len x).
Proof using bs_mtu.
  intros H. pose proof (at_len _ _ H) as Hl. destruct H as [Hi _]. rewrite len_app in Hl. pose proof (len_nonneg t).
  pose proof (len_nonneg x). unfold is_u16, FD_TXN_MTU in *. lia.
Qed.

(** ** The output buffer *)

Context (out_buf : option Z) (out_room : forall sz, out_buf = Some sz -> FD_TXN_MAX_SZ <= sz).

Lemma out_write_ok last : last <= FD_TXN_MAX_SZ -> out_write out_buf last = Ok (inr tt).
Proof using out_room.
  intros H. unfold out_write. destruct out_buf as [sz|]; [|done]. specialize (out_room sz eq_refl).
  by rewrite (proj2 (Z.leb_le _ _)) by lia.
Qed.

(** ** Instructions *)

Lemma max_accts_ok x i t m : at_pos i (x ++ t) -> max_accts payload (length x) i m = Ok (inr (foldl Z.max m x)).
Proof using bs_mtu.
  revert i m. induction x as [|b x IH]; intros i m H; [done|]. cbn [length max_accts foldl].
  rewrite (payload_at_ok _ _ _ H). cbn [mbind chk_bind]. apply IH. by apply at_cons in H as [H _].
Qed.

Lemma instr_complete addr_cnt j i m a t : at_pos i (encode_instr a ++ t) -> instr_ok addr_cnt a -> 0 <= j < FD_TXN_INSTR_MAX ->
  parse_instr payload payload_sz out_buf addr_cnt j i m
  = Ok (inr (describe_instr i a, foldl Z.max m (i_accts a), i + len (encode_instr a))).
Proof using bs_mtu out_room.
  intros H ((Hp1 & Hp2) & _ & _) Hj. unfold encode_instr in H. cbn [app] in H. rewrite <- !app_assoc in H.
  assert (Hua : is_u16 (len (i_accts a)) /\ is_u16 (len (i_data a))).
  { destruct (at_cons _ _ _ H) as [H1 _]. apply at_next in H1. pose proof (at_u16 _ _ _ H1). apply at_next in H1. apply at_next in H1.
    by split; [|apply (at_u16 _ _ _ H1)]. }
  destruct Hua as [Hua Hud]. pose proof (len_cu16 _ Hua). pose proof (len_cu16 _ Hud).
  unfold parse_instr. rewrite (left_eq _ _ _ _ H), CHECK_ok; [|rewrite len_cons, !len_app; pose proof (len_nonneg t);
    pose proof (len_nonneg (i_accts a)); pose proof (len_nonneg (i_data a)); unfold MIN_INSTR_SZ; lia].
  cbn [mbind chk_bind]. rewrite (payload_at_ok _ _ _ H). cbn [mbind chk_bind].
  destruct (at_cons _ _ _ H) as [P1 ->]. rewrite (read_cu16_ok _ _ _ _ P1 Hua). cbn [mbind chk_bind].
  destruct (at_app _ _ _ P1) as [P2 ->]. rewrite (left_ok _ _ _ _ _ P2) by lia. cbn [mbind chk_bind].
  rewrite to_nat_len, (max_accts_ok _ _ _ _ P2). cbn [mbind chk_bind].
  destruct (at_app _ _ _ P2) as [P3 ->]. rewrite (read_cu16_ok _ _ _ _ P3 Hud). cbn [mbind chk_bind].
  destruct (at_app _ _ _ P3) as [P4 ->]. rewrite (left_ok _ _ _ _ _ P4) by lia. cbn [mbind chk_bind].
  rewrite CHECK_ok by lia. cbn [mbind chk_bind]. rewrite out_write_ok by (unfold sizeof_fd_txn_t, sizeof_fd_txn_instr_t, FD_TXN_MAX_SZ, FD_TXN_INSTR_MAX in *; lia).
  cbn [mbind chk_bind]. destruct (at_app _ _ _ P4) as [_ ->]. rewrite (proj2 (at_small _ _ P2)), (proj2 (at_small _ _ P4)).
  unfold describe_instr, encode_instr. rewrite len_cons, !len_app. unfold mret, chk_ret. do 3 f_equal. lia.
Qed.

(** A byte behind a successful check. *)
Lemma at_split_cons i x t n : at_pos i (x ++ t) -> len x = n -> 1 <= n -> exists b t', x ++ t = b :: t' /\ is_byte b.
Proof using bs_bytes.
  intros H%at_bytes Hl Hn. destruct x as [|b x]; [unfold len in Hl; simpl in Hl; lia|]. exists b, (x ++ t). by apply Forall_cons in H as [? _].
Qed.

(** What is accepted is what completeness says. *)
Lemma sound_exact {A B} (m : chk A) (P : B -> Prop) (f : B -> A) :
  (forall b, P b -> m = Ok (inr (f b))) -> sound m (fun _ => exists b, P b) -> sound m (fun r => exists b, P b /\ r = f b).
Proof.
  intros Hc ([line|r] & E & Hr); [by exists (inl line)|]. destruct Hr as [b Hb]. rewrite (Hc b Hb). exists (inr (f b)). eauto.
Qed.

(** Symbolic execution of a parser at a known position [P]. *)
Ltac p_left P x t :=
  eapply sound_bind; [eapply (sound_left _ _ _ _ P); lia|]; intros _ (x & t & ? & ?); subst.
Ltac p_byte P b P' :=
  eapply sound_bind; [eapply sound_eq; [apply (payload_at_ok _ _ _ P)|apply eq_refl]|]; intros ? <-;
  destruct (at_cons _ _ _ P) as [P' ->].
Ltac p_cu16 P v t P' :=
  eapply sound_bind; [apply (sound_cu16 _ _ _ P)|]; intros [? v] (t & ? & ? & ?); cbn [fst snd] in *; subst;
  destruct (at_app _ _ _ P) as [P' ->].
Ltac p_check H := eapply sound_bind; [apply sound_CHECK|]; intros ? H; cbv beta in H.

Lemma instr_sound addr_cnt j i m t : at_pos i t -> 0 <= j < FD_TXN_INSTR_MAX ->
  sound (parse_instr payload payload_sz out_buf addr_cnt j i m)
    (fun r => exists b : instruction * list Z, (instr_ok addr_cnt b.1 /\ t = encode_instr b.1 ++ b.2) /\
      r = (describe_instr i b.1, foldl Z.max m (i_accts b.1), i + len (encode_instr b.1))).
Proof using bs_bytes bs_mtu out_room.
  intros P0 Hj. apply sound_exact with (P := fun b : instruction * list Z => instr_ok addr_cnt b.1 /\ t = encode_instr b.1 ++ b.2).
  { intros [a t'] [Ha ->]. by apply (instr_complete _ _ _ _ _ t'). }
  unfold parse_instr, MIN_INSTR_SZ. p_left P0 x t0.
  destruct (at_split_cons _ _ _ _ P0 ltac:(eassumption) ltac:(lia)) as (b & t1 & E & Hb). rewrite E in *.
  p_byte P0 b P1. p_cu16 P1 n t2 P2. unfold is_u16 in *. p_left P2 accts t3.
  eapply sound_bind; [eapply sound_eq; [rewrite to_nat_len; by apply (max_accts_ok _ _ _ _ P2)|apply eq_refl]|]. intros ? _.
  destruct (at_app _ _ _ P2) as [P3 ->]. p_cu16 P3 k t4 P4. unfold is_u16 in *. p_left P4 data t5. p_check Hp.
  rewrite out_write_ok by (unfold sizeof_fd_txn_t, sizeof_fd_txn_instr_t, FD_TXN_MAX_SZ, FD_TXN_INSTR_MAX in *; lia).
  apply sound_ret. exists (mk_instruction b accts data, t5). cbn [fst snd]. unfold encode_instr. cbn [i_accts i_data i_program app].
  rewrite <- !app_assoc. split; [|done]. split; [cbn [i_program]; lia|]. apply at_bytes in P2, P4. rewrite !Forall_app in *. naive_solver.
Qed.

Lemma instrs_complete addr_cnt xs : forall j i m t, at_pos i (concat (encode_instr <$> xs) ++ t) -> Forall (instr_ok addr_cnt) xs ->
  0 <= j -> j + len xs <= FD_TXN_INSTR_MAX ->
  parse_instrs payload payload_sz out_buf addr_cnt (length xs) j i m
  = Ok (inr (layout encode_instr describe_instr i xs, foldl Z.max m (xs ≫= i_accts), i + len (concat (encode_instr <$> xs)))).
Proof using bs_mtu out_room.
  induction xs as [|a xs IH]; intros j i m t P0 Ha Hj Hn; cbn [parse_instrs length layout fmap list_fmap concat].
  { cbn. unfold mret, chk_ret, len. simpl. by rewrite Z.add_0_r. }
  apply Forall_cons in Ha as [Ha Hxs]. rewrite len_cons in Hn. pose proof (len_nonneg xs). cbn [fmap list_fmap concat] in P0. rewrite <- app_assoc in P0.
  rewrite (instr_complete addr_cnt j i m a _ P0 Ha) by lia. cbn [mbind chk_bind].
  rewrite (IH (j + 1) _ _ t (at_next _ _ _ P0) Hxs) by lia. cbn [mbind chk_bind]. unfold mret, chk_ret.
  cbn [mbind list_bind]. rewrite foldl_app, len_app. do 3 f_equal. lia.
Qed.

Lemma instrs_sound addr_cnt n : forall j i m t, at_pos i t -> 0 <= j -> j + Z.of_nat n <= FD_TXN_INSTR_MAX ->
  sound (parse_instrs payload payload_sz out_buf addr_cnt n j i m)
    (fun r => exists b : list instruction * list Z,
      (length b.1 = n /\ Forall (instr_ok addr_cnt) b.1 /\ t = concat (encode_instr <$> b.1) ++ b.2) /\
      r = (layout encode_instr describe_instr i b.1, foldl Z.max m (b.1 ≫= i_accts), i + len (concat (encode_instr <$> b.1)))).
Proof using bs_bytes bs_mtu out_room.
  induction n as [|n IH]; intros j i m t P0 Hj Hn.
  { apply sound_ret. exists ([], t). cbn. split; [done|]. unfold len. simpl. by rewrite Z.add_0_r. }
  apply sound_exact with (P := fun b : list instruction * list Z =>
    length b.1 = S n /\ Forall (instr_ok addr_cnt) b.1 /\ t = concat (encode_instr <$> b.1) ++ b.2).
  { intros [xs t'] (Hl & Ha & ->). cbn [fst snd] in *. rewrite <- Hl. apply (instrs_complete _ _ _ _ _ t'); [done|done|lia|unfold len; lia]. }
  cbn [parse_instrs]. eapply sound_bind; [by apply (instr_sound addr_cnt j i m t P0); lia|].
  intros r ([a t'] & [Ha ->] & ->). cbn [fst snd] in *. eapply sound_bind; [apply (IH (j + 1) _ _ t' (at_next _ _ _ P0)); lia|].
  intros r ([xs t2] & (Hl & Hxs & ->) & ->). cbn [fst snd] in *. apply sound_ret. exists (a :: xs, t2). cbn [fst snd].
  split_and!; [simpl; lia|by constructor|]. simpl. by rewrite app_assoc.
Qed.

(** Every instruction takes at least three bytes. *)
Lemma instrs_length xs : 3 * len xs <= len (concat (encode_instr <$> xs)).
Proof.
  induction xs as [|a xs IH]; [done|]. cbn [fmap list_fmap concat]. rewrite len_cons, len_app. unfold encode_instr. rewrite len_cons, !len_app.
  assert (Hc : forall v, 1 <= len (cu16 v)) by (intros v; unfold cu16; repeat case_match; unfold len; simpl; lia).
  pose proof (Hc (len (i_accts a))). pose proof (Hc (len (i_data a))). pose proof (len_nonneg (i_accts a)). pose proof (len_nonneg (i_data a)).
  unfold encode_instr in IH. lia.
Qed.

(** ** Lookup tables *)

(** An accepted table takes at least 35 bytes, which bounds the writes. *)
Definition lut_room (instr_cnt j i : Z) : Prop := 0 <= instr_cnt <= FD_TXN_INSTR_MAX /\ 0 <= j /\
  (instr_cnt = 0 /\ 136 + 35 * j <= i \/ 168 + 3 * instr_cnt + 35 * j <= i).

Lemma lut_write_ok instr_cnt j i : lut_room instr_cnt (j + 1) i -> i <= FD_TXN_MTU -> 0 <= j ->
  out_write out_buf (fd_txn_get_address_tables instr_cnt + (j + 1) * sizeof_fd_txn_acct_addr_lut_t) = Ok (inr tt).
Proof using out_room.
  intros (Hn & _ & Hi) Hm Hj. apply out_write_ok. unfold fd_txn_get_address_tables, sizeof_fd_txn_t, sizeof_fd_txn_instr_t,
    sizeof_fd_txn_acct_addr_lut_t, FD_TXN_MAX_SZ, FD_TXN_INSTR_MAX, FD_TXN_MTU in *. lia.
Qed.

Lemma lookup_length addr_cnt l : lookup_ok addr_cnt l -> 35 <= len (encode_lookup l).
Proof.
  intros ([Ha _] & _ & _ & _ & _ & Hn). unfold encode_lookup. rewrite !len_app, Ha. unfold FD_TXN_ACCT_ADDR_SZ.
  assert (Hc : forall v, 1 <= len (cu16 v)) by (intros v; unfold cu16; repeat case_match; unfold len; simpl; lia).
  pose proof (Hc (len (l_writable l))). pose proof (Hc (len (l_readonly l))). lia.
Qed.

Lemma lookup_complete addr_cnt instr_cnt j i l t : at_pos i (encode_lookup l ++ t) -> lookup_ok addr_cnt l -> 0 <= addr_cnt <= FD_TXN_ACCT_ADDR_MAX ->
  lut_room instr_cnt j i ->
  parse_lut payload payload_sz out_buf addr_cnt instr_cnt j i
  = Ok (inr (describe_lookup i l, len (l_writable l), len (l_readonly l), i + len (encode_lookup l))).
Proof using bs_mtu out_room.
  intros P0 Hok Hc Hroom. pose proof (lookup_length _ _ Hok) as H35.
  assert (Hroom' : lut_room instr_cnt (j + 1) (i + len (encode_lookup l))) by (unfold lut_room in *; lia).
  assert (Hend : i + len (encode_lookup l) <= FD_TXN_MTU) by (apply at_next in P0 as [? _]; lia).
  destruct Hok as ([Ha _] & _ & _ & Hw & Hr & Hn). unfold encode_lookup in P0. rewrite <- !app_assoc in P0.
  pose proof (at_next _ _ _ P0) as P1. pose proof (at_next _ _ _ P1) as P2. pose proof (at_next _ _ _ P2) as P3. pose proof (at_next _ _ _ P3) as P4.
  pose proof (at_u16 _ _ _ P2) as U2. pose proof (at_u16 _ _ _ P4) as U4. pose proof (at_next _ _ _ P4) as P5. rewrite Ha in P1, P2, P3, P4, P5.
  unfold parse_lut. rewrite (left_ok _ _ _ _ _ P0) by lia. cbn [mbind chk_bind]. rewrite (proj1 (at_small _ _ P1)).
  rewrite (read_cu16_ok _ _ _ _ P1 U2). cbn [mbind chk_bind]. rewrite (proj1 (at_small _ _ P2)), (left_ok _ _ _ _ _ P2) by lia. cbn [mbind chk_bind].
  rewrite (proj1 (at_small _ _ P3)), (read_cu16_ok _ _ _ _ P3 U4). cbn [mbind chk_bind].
  rewrite (proj1 (at_small _ _ P4)), (left_ok _ _ _ _ _ P4) by lia. cbn [mbind chk_bind].
  unfold FD_TXN_ACCT_ADDR_MAX in *. rewrite !(u64_small (128 - addr_cnt)) by (unfold is_u64, ULONG_MAX; lia). rewrite !CHECK_ok by lia. cbn [mbind chk_bind].
  destruct Hroom as (_ & Hj & _). rewrite (lut_write_ok _ _ _ Hroom' Hend Hj). cbn [mbind chk_bind].
  rewrite (proj1 (at_small _ _ P5)), (proj2 (at_small _ _ P0)), (proj2 (at_small _ _ P2)), (proj2 (at_small _ _ P4)).
  pose proof (len_nonneg (l_writable l)). pose proof (len_nonneg (l_readonly l)). unfold u8. rewrite !Z.mod_small by lia.
  unfold describe_lookup, encode_lookup. rewrite !len_app, Ha. unfold mret, chk_ret. do 3 f_equal. lia.
Qed.

Lemma lookup_sound addr_cnt instr_cnt j i t : at_pos i t -> 0 <= addr_cnt <= FD_TXN_ACCT_ADDR_MAX -> lut_room instr_cnt j i ->
  sound (parse_lut payload payload_sz out_buf addr_cnt instr_cnt j i)
    (fun r => exists b : table_lookup * list Z, (lookup_ok addr_cnt b.1 /\ t = encode_lookup b.1 ++ b.2) /\
      r = (describe_lookup i b.1, len (l_writable b.1), len (l_readonly b.1), i + len (encode_lookup b.1))).
Proof using bs_bytes bs_mtu out_room.
  intros P0 Hc Hroom. apply sound_exact with (P := fun b : table_lookup * list Z => lookup_ok addr_cnt b.1 /\ t = encode_lookup b.1 ++ b.2).
  { intros [a t'] [Ha ->]. by apply (lookup_complete _ _ _ _ _ t'). }
  unfold parse_lut, FD_TXN_ACCT_ADDR_SZ. p_left P0 addr t0. destruct (at_app _ _ _ P0) as [P1 E1]. replace (len addr) with 32 in E1, P1. rewrite E1.
  p_cu16 P1 n t2 P2. unfold is_u16 in *. p_left P2 ws t3. destruct (at_app _ _ _ P2) as [P3 ->].
  p_cu16 P3 k t4 P4. unfold is_u16 in *. p_left P4 rs t5. destruct (at_app _ _ _ P4) as [P5 ->]. p_check Hw. p_check Hr. p_check Hn.
  unfold FD_TXN_ACCT_ADDR_MAX in *. rewrite u64_small in Hw, Hr by (unfold is_u64, ULONG_MAX; lia). apply Z.leb_le in Hw, Hr, Hn.
  assert (Hok : lookup_ok addr_cnt (mk_lookup addr ws rs)).
  { pose proof (at_bytes _ _ P0) as B. rewrite !Forall_app in B. unfold lookup_ok, byte_string. cbn [l_addr l_writable l_readonly].
    unfold FD_TXN_ACCT_ADDR_SZ, FD_TXN_ACCT_ADDR_MAX. naive_solver. }
  pose proof (lookup_length _ _ Hok) as H35.
  assert (E : encode_lookup (mk_lookup addr ws rs) = addr ++ cu16 (len ws) ++ ws ++ cu16 (len rs) ++ rs) by done.
  rewrite E, !len_app in H35. replace (len addr) with 32 in H35. destruct P5 as [Hi5 _].
  rewrite (lut_write_ok instr_cnt j (i + 32 + len (cu16 (len ws)) + len ws + len (cu16 (len rs)) + len rs)) by (unfold lut_room in *; lia).
  apply sound_ret. exists (mk_lookup addr ws rs, t5). cbn [fst snd]. split; [done|]. rewrite E, <- !app_assoc. done.
Qed.

Lemma lookup_writable_cons l xs : lookup_writable (l :: xs) = len (l_writable l) + lookup_writable xs.
Proof. done. Qed.

Lemma lookup_total_cons l xs : lookup_total (l :: xs) = len (l_writable l) + len (l_readonly l) + lookup_total xs.
Proof. done. Qed.

Lemma lookup_nonneg xs : 0 <= lookup_writable xs /\ 0 <= lookup_total xs.
Proof.
  induction xs as [|x xs IH]; [done|]. rewrite lookup_writable_cons, lookup_total_cons.
  pose proof (len_nonneg (l_writable x)). pose proof (len_nonneg (l_readonly x)). lia.
Qed.

Lemma lookups_complete addr_cnt instr_cnt xs : forall j i w c t, at_pos i (concat (encode_lookup <$> xs) ++ t) ->
  Forall (lookup_ok addr_cnt) xs -> 0 <= addr_cnt <= FD_TXN_ACCT_ADDR_MAX -> lut_room instr_cnt j i -> 0 <= w -> 0 <= c ->
  w + lookup_writable xs <= ULONG_MAX -> c + lookup_total xs <= ULONG_MAX ->
  parse_luts payload payload_sz out_buf addr_cnt instr_cnt (length xs) j i w c
  = Ok (inr (layout encode_lookup describe_lookup i xs, w + lookup_writable xs, c + lookup_total xs, i + len (concat (encode_lookup <$> xs)))).
Proof using bs_mtu out_room.
  induction xs as [|l xs IH]; intros j i w c t P0 Hl Hc Hroom Hw Ht Hw' Ht'; cbn [parse_luts length layout].
  { unfold lookup_writable, lookup_total, mret, chk_ret, len. simpl. by rewrite !Z.add_0_r. }
  apply Forall_cons in Hl as [Hl Hxs]. cbn [fmap list_fmap concat] in P0. rewrite <- app_assoc in P0.
  rewrite (lookup_complete addr_cnt instr_cnt j i l _ P0 Hl Hc Hroom). cbn [mbind chk_bind].
  pose proof (lookup_length _ _ Hl). pose proof (len_nonneg (l_writable l)). pose proof (len_nonneg (l_readonly l)).
  pose proof (lookup_nonneg xs). rewrite lookup_writable_cons in *. rewrite lookup_total_cons in *.
  rewrite (u64_small (len (l_writable l) + len (l_readonly l))), !u64_small by (unfold is_u64; lia).
  rewrite (IH (j + 1) _ _ _ t (at_next _ _ _ P0) Hxs Hc) by (unfold lut_room in *; lia). cbn [mbind chk_bind]. unfold mret, chk_ret.
  cbn [fmap list_fmap concat]. rewrite len_app. do 2 f_equal. f_equal; [f_equal; [f_equal|]|]; lia.
Qed.

Lemma lookup_counts addr_cnt xs : Forall (lookup_ok addr_cnt) xs ->
  0 <= lookup_writable xs <= lookup_total xs /\ len xs <= lookup_total xs /\ 35 * len xs <= len (concat (encode_lookup <$> xs)).
Proof.
  induction 1 as [|l xs Hl _ IH]; [done|]. pose proof (lookup_length _ _ Hl). pose proof (len_nonneg (l_writable l)). pose proof (len_nonneg (l_readonly l)).
  destruct Hl as (_ & _ & _ & _ & _ & Hn). cbn [fmap list_fmap concat]. rewrite len_cons, len_app.
  rewrite lookup_writable_cons, lookup_total_cons. lia.
Qed.

(** The number of accounts is far from overflowing. *)
Lemma lookup_total_le addr_cnt xs : Forall (lookup_ok addr_cnt) xs -> lookup_total xs <= 2 * (FD_TXN_ACCT_ADDR_MAX - addr_cnt) * len xs.
Proof.
  induction 1 as [|l xs Hl _ IH]; [unfold len, lookup_total; simpl; lia|]. destruct Hl as (_ & _ & _ & Hw & Hr & _). rewrite len_cons.
  rewrite lookup_total_cons. lia.
Qed.

Lemma lookups_small i xs t addr_cnt : at_pos i (concat (encode_lookup <$> xs) ++ t) -> Forall (lookup_ok addr_cnt) xs ->
  0 <= addr_cnt <= FD_TXN_ACCT_ADDR_MAX -> 0 <= lookup_writable xs <= lookup_total xs /\ lookup_total xs <= 2 ^ 32.
Proof using bs_mtu.
  intros P0 Hl Hc. pose proof (lookup_counts _ _ Hl) as (Hw & _ & H35). pose proof (lookup_total_le _ _ Hl). pose proof (at_len _ _ P0) as E.
  rewrite len_app in E. pose proof (len_nonneg t). destruct P0 as [Hi _]. unfold FD_TXN_MTU, FD_TXN_ACCT_ADDR_MAX in *. pose proof (len_nonneg xs).
  split; [lia|]. nia.
Qed.

Lemma lookups_sound addr_cnt instr_cnt n : forall j i w c t, at_pos i t -> 0 <= addr_cnt <= FD_TXN_ACCT_ADDR_MAX -> lut_room instr_cnt j i ->
  0 <= w <= 2 ^ 32 * j -> 0 <= c <= 2 ^ 32 * j ->
  sound (parse_luts payload payload_sz out_buf addr_cnt instr_cnt n j i w c)
    (fun r => exists b : list table_lookup * list Z,
      (length b.1 = n /\ Forall (lookup_ok addr_cnt) b.1 /\ t = concat (encode_lookup <$> b.1) ++ b.2) /\
      r = (layout encode_lookup describe_lookup i b.1, w + lookup_writable b.1, c + lookup_total b.1, i + len (concat (encode_lookup <$> b.1)))).
Proof using bs_bytes bs_mtu out_room.
  induction n as [|n IH]; intros j i w c t P0 Hc Hroom Hw Ht.
  { apply sound_ret. exists ([], t). cbn. split; [done|]. unfold len, lookup_writable, lookup_total. simpl. by rewrite !Z.add_0_r. }
  assert (Hj : 0 <= j <= 1232) by (destruct P0 as [? _]; unfold lut_room, FD_TXN_MTU in *; lia).
  apply sound_exact with (P := fun b : list table_lookup * list Z =>
    length b.1 = S n /\ Forall (lookup_ok addr_cnt) b.1 /\ t = concat (encode_lookup <$> b.1) ++ b.2).
  { intros [xs t'] (Hl & Ha & ->). cbn [fst snd] in *. rewrite <- Hl. pose proof (lookups_small _ _ _ _ P0 Ha Hc).
    apply (lookups_complete _ _ _ _ _ _ _ t'); try done; try lia; unfold ULONG_MAX; lia. }
  cbn [parse_luts]. eapply sound_bind; [by apply (lookup_sound addr_cnt instr_cnt j i t P0 Hc Hroom)|].
  intros r ([l t'] & [Hl ->] & ->). cbn [fst snd] in *. pose proof (lookup_length _ _ Hl) as H35. pose proof Hl as (_ & _ & _ & Hlw & Hlr & _).
  pose proof (len_nonneg (l_writable l)). pose proof (len_nonneg (l_readonly l)). unfold FD_TXN_ACCT_ADDR_MAX in *.
  rewrite (u64_small (len (l_writable l) + len (l_readonly l))), !u64_small by (unfold is_u64, ULONG_MAX; lia).
  eapply sound_bind; [apply (IH (j + 1) _ _ _ t' (at_next _ _ _ P0)); [lia|unfold lut_room in *; lia|lia|lia]|].
  intros r ([xs t2] & (Hn & Hxs & ->) & ->). cbn [fst snd] in *. apply sound_ret. exists (l :: xs, t2). cbn [fst snd].
  split_and!; [simpl; lia|by constructor|]. simpl. by rewrite app_assoc.
Qed.

(** The offset behind the instructions of a versioned transaction. *)
Definition tables_room (v : bool) (instr_cnt i : Z) : Prop :=
  0 <= instr_cnt <= FD_TXN_INSTR_MAX /\ (v = true -> instr_cnt = 0 /\ 135 <= i \/ 167 + 3 * instr_cnt <= i).

Definition tables_ok (v : bool) (addr_cnt : Z) (ls : list table_lookup) : Prop :=
  (v = false -> ls = []) /\ len ls <= FD_TXN_ADDR_TABLE_LOOKUP_MAX /\ Forall (lookup_ok addr_cnt) ls.

Lemma tables_complete v ls addr_cnt instr_cnt i rest : at_pos i (encode_tables v ls ++ rest) -> tables_ok v addr_cnt ls ->
  0 <= addr_cnt <= FD_TXN_ACCT_ADDR_MAX -> tables_room v instr_cnt i ->
  parse_tables payload payload_sz out_buf (if v then FD_TXN_V0 else FD_TXN_VLEGACY) addr_cnt instr_cnt i
  = Ok (inr (layout encode_lookup describe_lookup (i + len (cu16 (len ls))) ls, len ls, lookup_writable ls, lookup_total ls, i + len (encode_tables v ls))).
Proof using bs_mtu out_room.
  intros P0 (Hlegacy & Hn & Hok) Ha (Hic & Hpre). unfold parse_tables, encode_tables in *. destruct v; cbn [Z.eqb FD_TXN_V0 FD_TXN_VLEGACY].
  - rewrite <- app_assoc in P0. pose proof (len_nonneg ls). unfold FD_TXN_ADDR_TABLE_LOOKUP_MAX in *.
    assert (Hu : is_u16 (len ls)) by (unfold is_u16; lia). pose proof (len_cu16 _ Hu). specialize (Hpre eq_refl).
    rewrite (read_cu16_ok _ _ _ _ P0 Hu). cbn [mbind chk_bind]. destruct (at_app _ _ _ P0) as [P1 ->]. rewrite CHECK_ok by lia. cbn [mbind chk_bind].
    pose proof (lookup_counts _ _ Hok) as (_ & _ & H35). rewrite (left_ok _ _ _ _ _ P1) by (unfold MIN_ADDR_LUT_SIZE; lia). cbn [mbind chk_bind].
    rewrite to_nat_len. pose proof (lookups_small _ _ _ _ P1 Hok ltac:(lia)).
    rewrite (lookups_complete _ _ _ _ _ _ _ _ P1 Hok) by (unfold lut_room, ULONG_MAX; lia). cbn [mbind chk_bind]. rewrite !Z.add_0_l, len_app.
    unfold mret, chk_ret. do 3 f_equal. lia.
  - rewrite (Hlegacy eq_refl). unfold lookup_writable, lookup_total, len, mret, chk_ret. simpl. by rewrite Z.add_0_r.
Qed.

Lemma tables_sound v addr_cnt instr_cnt i t : at_pos i t -> 0 <= addr_cnt <= FD_TXN_ACCT_ADDR_MAX -> tables_room v instr_cnt i ->
  sound (parse_tables payload payload_sz out_buf (if v then FD_TXN_V0 else FD_TXN_VLEGACY) addr_cnt instr_cnt i)
    (fun r => exists b : list table_lookup * list Z, (tables_ok v addr_cnt b.1 /\ t = encode_tables v b.1 ++ b.2) /\
      r = (layout encode_lookup describe_lookup (i + len (cu16 (len b.1))) b.1, len b.1, lookup_writable b.1, lookup_total b.1, i + len (encode_tables v b.1))).
Proof using bs_bytes bs_mtu out_room.
  intros P0 Ha Hroom. apply sound_exact with (P := fun b : list table_lookup * list Z => tables_ok v addr_cnt b.1 /\ t = encode_tables v b.1 ++ b.2).
  { intros [ls t'] [Hok ->]. by apply (tables_complete _ _ _ _ _ t'). }
  unfold parse_tables. destruct v; cbn [Z.eqb FD_TXN_V0 FD_TXN_VLEGACY]; [|by apply sound_ret; exists ([], t)].
  p_cu16 P0 n t1 P1. p_check Hn. unfold is_u16, MIN_ADDR_LUT_SIZE in *. p_left P1 mm t2. pose proof (len_cu16 n ltac:(done)). destruct Hroom as [Hic Hpre]. specialize (Hpre eq_refl).
  eapply sound_bind; [apply (lookups_sound _ _ _ _ _ _ _ _ P1 Ha); [unfold lut_room; lia|lia|lia]|].
  intros r ([ls t3] & (Hl & Hls & Et) & ->). cbn [fst snd] in *. apply sound_ret. exists (ls, t3). cbn [fst snd]. assert (n = len ls) as -> by (unfold len; lia).
  split; [split_and!; [done|lia|done]|]. unfold encode_tables. by rewrite <- app_assoc, Et.
Qed.

(** A number of strings of equal length. *)
Lemma split_strings k n x : 0 < k -> 0 <= n -> len x = k * n -> Forall is_byte x -> exists ls, x = concat ls /\ len ls = n /\ Forall (byte_string k) ls.
Proof.
  intros Hk Hn. revert x. pattern n. apply natlike_ind; [| |done]; clear n Hn.
  - intros x Hx _. exists []. destruct x; [done|]. unfold len in Hx. simpl in Hx. lia.
  - intros n Hn IH x Hx Hb. destruct (split_at x k) as (y & z & -> & Hy); [lia|]. rewrite len_app in Hx. apply Forall_app in Hb as [Hby Hbz].
    destruct (IH z) as (ls & -> & Hl & Hls); [lia|done|]. exists (y :: ls). rewrite len_cons. split; [done|]. split; [lia|]. by constructor.
Qed.

Lemma len_concat k ls : Forall (byte_string k) ls -> len (concat ls) = k * len ls.
Proof. induction 1 as [|x ls [Hx _] _ IH]; [unfold len; simpl; lia|]. cbn [concat]. rewrite len_app, len_cons. lia. Qed.

Lemma version_byte b : is_byte b -> (Z.land b 128 =? 0) = (b <? 128).
Proof. intros H. rewrite Z.land_comm. by apply land_128. Qed.

(** ** The header *)

Definition encode_head (t : transaction) : list Z := len (t_signatures t) :: concat (t_signatures t) ++ encode_header t.

Definition head_ok (t : transaction) : Prop :=
  1 <= len (t_signatures t) <= FD_TXN_SIG_MAX /\ Forall (byte_string FD_TXN_SIGNATURE_SZ) (t_signatures t) /\
  0 <= t_ro_signed t < len (t_signatures t) /\ is_byte (t_ro_unsigned t).

Definition version (t : transaction) : Z := if t_versioned t then FD_TXN_V0 else FD_TXN_VLEGACY.

(** What [parse_header] finds. *)
Definition head_of (t : transaction) : Z * Z * Z * Z * Z * Z :=
  (len (t_signatures t), 1 + FD_TXN_SIGNATURE_SZ * len (t_signatures t), version t, t_ro_signed t, t_ro_unsigned t, len (encode_head t)).

Lemma header_complete t rest : at_pos 0 (encode_head t ++ rest) -> head_ok t -> parse_header payload payload_sz = Ok (inr (head_of t)).
Proof using bs_mtu.
  intros P0 (Hs & Hsig & Hr & Hu). pose proof (len_concat _ _ Hsig) as Hc. unfold FD_TXN_SIG_MAX in *.
  unfold head_of, version. unfold encode_head, encode_header in *. cbn [app] in P0. rewrite <- !app_assoc in P0.
  set (sigs := t_signatures t) in *. set (ros := t_ro_signed t) in *. set (rou := t_ro_unsigned t) in *. set (v := t_versioned t) in *.
  unfold parse_header, FD_TXN_SIG_MAX. rewrite (CHECK_ok 79) by lia. cbn [mbind chk_bind]. rewrite (left_ok _ _ [len sigs] _ _ P0) by done. cbn [mbind chk_bind].
  rewrite (payload_at_ok _ _ _ P0). cbn [mbind chk_bind]. change (u64 (0 + 1)) with 1. destruct (at_cons _ _ _ P0) as [P1 _]. rewrite (CHECK_ok 88) by lia.
  cbn [mbind chk_bind]. change (0 + 1) with 1 in P1. rewrite (left_ok _ _ _ _ _ P1) by lia. cbn [mbind chk_bind]. destruct (at_app _ _ _ P1) as [P2 E2].
  rewrite Hc in P2, E2. rewrite E2. set (m := 1 + FD_TXN_SIGNATURE_SZ * len sigs) in *.
  assert (Hlast : forall i, at_pos i ([ros; rou] ++ rest) ->
    (CHECK_LEFT payload_sz 105 i 1 ≫= fun _ => payload_at payload i ≫= fun ro_signed_cnt => CHECK 107 (ro_signed_cnt <? len sigs) ≫= fun _ =>
     CHECK_LEFT payload_sz 109 (u64 (i + 1)) 1 ≫= fun _ => payload_at payload (u64 (i + 1)) ≫= fun ro_unsigned_cnt =>
     mret (len sigs, m, (if v then FD_TXN_V0 else FD_TXN_VLEGACY), ro_signed_cnt, ro_unsigned_cnt, u64 (u64 (i + 1) + 1)))
    = Ok (inr (len sigs, m, (if v then FD_TXN_V0 else FD_TXN_VLEGACY), ros, rou, i + 2))).
  { intros i Q0. rewrite (left_ok _ _ [ros] _ _ Q0) by done. cbn [mbind chk_bind]. rewrite (payload_at_ok _ _ _ Q0). cbn [mbind chk_bind].
    rewrite CHECK_ok by lia. cbn [mbind chk_bind]. destruct (at_cons _ _ _ Q0) as [Q1 ->]. rewrite (left_ok _ _ [rou] _ _ Q1) by done. cbn [mbind chk_bind].
    rewrite (payload_at_ok _ _ _ Q1). cbn [mbind chk_bind]. destruct (at_cons _ _ _ Q1) as [_ ->]. unfold mret, chk_ret. do 3 f_equal. lia. }
  unfold parse_version. rewrite len_cons, !len_app, Hc. destruct v; cbn [app] in P2.
  - rewrite (left_ok _ _ [128] _ _ P2) by done. cbn [mbind chk_bind]. rewrite (payload_at_ok _ _ _ P2). cbn [mbind chk_bind]. destruct (at_cons _ _ _ P2) as [P3 ->].
    change (negb (Z.land 128 128 =? 0)) with true. change (Z.land 128 127) with FD_TXN_V0. rewrite (CHECK_ok 98) by done. cbn [mbind chk_bind].
    rewrite (left_ok _ _ [len sigs] _ _ P3) by done. cbn [mbind chk_bind]. rewrite (payload_at_ok _ _ _ P3). cbn [mbind chk_bind]. rewrite CHECK_ok by lia.
    cbn [mbind chk_bind mret chk_ret]. destruct (at_cons _ _ _ P3) as [P4 ->]. rewrite (Hlast _ P4). do 3 f_equal. subst m. rewrite !len_cons. change (@len Z []) with 0. lia.
  - rewrite (left_ok _ _ [len sigs] _ _ P2) by done. cbn [mbind chk_bind]. rewrite (payload_at_ok _ _ _ P2). cbn [mbind chk_bind]. destruct (at_cons _ _ _ P2) as [P3 ->].
    rewrite version_byte, (proj2 (Z.ltb_lt _ _)) by (unfold is_byte; lia). cbn [negb]. rewrite CHECK_ok by lia. cbn [mbind chk_bind mret chk_ret].
    rewrite (Hlast _ P3). do 3 f_equal. subst m. rewrite !len_cons. change (@len Z []) with 0. lia.
Qed.

(** A byte that is there. *)
Ltac p_next P b t P' :=
  let x := fresh "x" in let y := fresh "y" in let E := fresh "E" in
  p_left P x y; destruct (at_split_cons _ _ _ _ P ltac:(eassumption) ltac:(lia)) as (b & t & E & ?); rewrite E in *;
  p_byte P b P'.

Lemma version_sound n b i t : at_pos i t -> is_byte b -> 
  sound (parse_version payload payload_sz n b i)
    (fun r => (b = 128 /\ exists t', t = n :: t' /\ r = (FD_TXN_V0, i + 1)) \/ (b = n /\ r = (FD_TXN_VLEGACY, i))).
Proof using bs_bytes bs_mtu.
  intros P0 Hb. unfold parse_version. rewrite version_byte by done. unfold is_byte in Hb. destruct (Z.ltb_spec b 128); cbn [negb].
  - p_check Hn. apply sound_ret. right. split; [lia|done].
  - p_check Hv. rewrite land_127 in Hv. unfold FD_TXN_V0 in Hv. p_next P0 c u P1. p_check Hc. apply sound_ret. left.
    assert (b mod 128 = 0) by lia. assert (b = 128) as -> by (Z.to_euclidean_division_equations; lia). split; [done|].
    assert (c = n) as -> by lia. eauto.
Qed.

Lemma header_sound t : at_pos 0 t ->
  sound (parse_header payload payload_sz) (fun r => exists b : transaction * list Z, (head_ok b.1 /\ t = encode_head b.1 ++ b.2) /\ r = head_of b.1).
Proof using bs_bytes bs_mtu.
  intros P0. apply sound_exact with (P := fun b : transaction * list Z => head_ok b.1 /\ t = encode_head b.1 ++ b.2).
  { intros [a t'] [Ha ->]. by apply (header_complete _ t'). }
  unfold parse_header. p_check Hm. p_next P0 s t1 P1. change (0 + 1) with 1 in *. p_check Hs. unfold FD_TXN_SIG_MAX, FD_TXN_SIGNATURE_SZ in *.
  p_left P1 ss t2. destruct (at_app _ _ _ P1) as [P2 E2]. pose proof (at_bytes _ _ P1) as Hb. apply Forall_app in Hb as [Hb _].
  destruct (split_strings 64 s ss) as (sigs & -> & <- & Hsig); [lia|lia|done|done|]. rewrite len_concat with (k := 64) in P2, E2 by done. rewrite E2.
  p_next P2 v u P3. eapply sound_bind; [by apply (version_sound (len sigs) v _ _ P3)|]. intros [tv i] Hv.
  assert (Hrest : exists t3, at_pos i t3 /\ exists b : bool, v :: u = (if b then [128] else []) ++ len sigs :: t3).
  { destruct Hv as [(-> & t3 & -> & [= -> ->])|(-> & [= -> ->])].
    - exists t3. split; [by apply at_cons in P3 as [? _]|]. by exists true.
    - exists u. split; [done|]. by exists false. }
  destruct Hrest as (t3 & P4 & b & Eb).
  p_next P4 ros u2 P5. p_check Hr. p_next P5 rou u3 P6. apply sound_ret.
  exists (mk_transaction b sigs ros rou [] [] [] [], u3). unfold head_ok, encode_head, encode_header, FD_TXN_SIG_MAX, FD_TXN_SIGNATURE_SZ. cbn.
  unfold is_byte in *. split; [split_and!; (done || lia)|]. rewrite Eb, <- !app_assoc. done.
Qed.

(** ** The body *)

Lemma encode_split t : encode_txn t = encode_head t ++ cu16 (len (t_addrs t)) ++ concat (t_addrs t) ++ t_blockhash t ++
  cu16 (len (t_instrs t)) ++ concat (encode_instr <$> t_instrs t) ++ encode_tables (t_versioned t) (t_lookups t).
Proof. unfold encode_txn, encode_head. cbn [app]. by rewrite <- !app_assoc. Qed.

Lemma head_length t : head_ok t -> len (encode_head t) = 4 + FD_TXN_SIGNATURE_SZ * len (t_signatures t) + Z.b2z (t_versioned t).
Proof.
  intros (_ & Hs & _). unfold encode_head, encode_header. rewrite len_cons, !len_app, (len_concat _ _ Hs), !len_cons. change (@len Z []) with 0.
  destruct (t_versioned t); [change (len [128]) with 1|change (@len Z []) with 0]; simpl Z.b2z; lia.
Qed.

Lemma max_accts_lt n xs : 0 < n -> Forall (fun a => Forall (fun k => k < n) (i_accts a)) xs -> foldl Z.max 0 (xs ≫= i_accts) < n.
Proof.
  intros Hn Hxs. assert (Hall : Forall (fun k => k < n) (xs ≫= i_accts)).
  { induction Hxs as [|a xs Ha _ IH]; [constructor|]. cbn. by apply Forall_app. }
  revert Hall Hn. generalize 0 as m. induction (xs ≫= i_accts) as [|k ks IH]; intros m Hall Hm; [done|].
  apply Forall_cons in Hall as [Hk Hks]. cbn [foldl]. apply IH; [done|]. lia.
Qed.

Lemma max_accts_all n xs : foldl Z.max 0 (xs ≫= i_accts) < n -> Forall (fun a => Forall (fun k => k < n) (i_accts a)) xs.
Proof.
  intros H. assert (Hall : forall m ks, foldl Z.max m ks < n -> Forall (fun k => k < n) ks /\ m < n).
  { clear. intros m ks. revert m. induction ks as [|k ks IH]; intros m H; cbn [foldl] in H; [auto|]. apply IH in H as [Hks Hm]. split; [constructor; [lia|done]|lia]. }
  apply Hall in H as [H _]. clear Hall. induction xs as [|a xs IH]; [constructor|]. cbn in H. apply Forall_app in H as [Ha Hxs]. constructor; [done|by apply IH].
Qed.

Lemma ok_head t : transaction_ok t -> head_ok t.
Proof.
  intros H. pose proof (ok_ro_unsigned _ H) as Hu. pose proof (ok_addrs _ H) as Ha. pose proof (lookup_nonneg (t_lookups t)). pose proof (len_nonneg (t_signatures t)).
  unfold FD_TXN_ACCT_ADDR_MAX in Ha. split; [apply (ok_sigs _ H)|]. split; [apply (ok_sig _ H)|]. split; [apply (ok_ro_signed _ H)|]. unfold is_byte. lia.
Qed.

(** The footprint that belongs to a transaction. *)
Definition footprint (t : transaction) : Z := fd_txn_footprint (len (t_instrs t)) (len (t_lookups t)).

Lemma body_complete t rest sz_given : at_pos 0 (encode_txn t ++ rest) -> transaction_ok t -> (sz_given = false -> rest = []) ->
  parse_body payload payload_sz out_buf sz_given = Ok (inr (describe t, footprint t, len (encode_txn t))).
Proof using bs_mtu out_room.
  intros P0 Hok Hgiven. pose proof (ok_head _ Hok) as Hh. pose proof (head_length _ Hh) as Hhl. destruct Hok as [Hs _ Hrs Hru Ha Had [Hbh _] Hi Hp Hins Hacc Hleg Hl Hlo].
  pose proof (lookup_counts _ _ Hlo) as (Hw & _ & _). pose proof (len_nonneg (t_addrs t)). pose proof (len_nonneg (t_instrs t)).
  assert (Hui : is_u16 (len (t_instrs t))) by (unfold is_u16, FD_TXN_INSTR_MAX in *; lia). pose proof (len_cu16 _ Hui).
  assert (Hua : is_u16 (len (t_addrs t))) by (unfold is_u16, FD_TXN_ACCT_ADDR_MAX in *; lia). pose proof (len_cu16 _ Hua).
  pose proof P0 as Q0. rewrite encode_split, <- !app_assoc in P0. unfold parse_body. rewrite (header_complete t _ P0 Hh). cbn [mbind chk_bind head_of].
  pose proof (at_next _ _ _ P0) as P1. rewrite Z.add_0_l in P1. rewrite (read_cu16_ok _ _ _ _ P1 Hua). cbn [mbind chk_bind]. destruct (at_app _ _ _ P1) as [P2 ->].
  rewrite (CHECK_ok 113) by lia. cbn [mbind chk_bind]. rewrite (CHECK_ok 114) by lia. cbn [mbind chk_bind].
  pose proof (len_concat _ _ Had) as Hca. rewrite (left_ok _ _ _ _ _ P2) by lia. cbn [mbind chk_bind]. destruct (at_app _ _ _ P2) as [P3 E3]. rewrite Hca in P3, E3. rewrite E3.
  rewrite (left_ok _ _ _ _ _ P3) by lia. cbn [mbind chk_bind]. destruct (at_app _ _ _ P3) as [P4 E4]. rewrite Hbh in P4, E4. rewrite E4.
  rewrite (read_cu16_ok _ _ _ _ P4 Hui). cbn [mbind chk_bind]. destruct (at_app _ _ _ P4) as [P5 ->]. rewrite (CHECK_ok 122) by lia. cbn [mbind chk_bind].
  pose proof (instrs_length (t_instrs t)). rewrite (left_ok _ _ _ _ _ P5) by (unfold MIN_INSTR_SZ; lia). cbn [mbind chk_bind].
  rewrite (CHECK_ok 127); [|destruct Hp as [->|?]; [change (@len instruction []) with 0; simpl; lia|destruct (len (t_instrs t) =? 0); simpl; lia]].
  cbn [mbind chk_bind]. rewrite out_write_ok by done. cbn [mbind chk_bind]. rewrite to_nat_len, (instrs_complete _ _ _ _ _ _ P5 Hins) by lia. cbn [mbind chk_bind].
  pose proof (at_next _ _ _ P5) as P6. unfold FD_TXN_SIGNATURE_SZ, FD_TXN_ACCT_ADDR_SZ, FD_TXN_BLOCKHASH_SZ, FD_TXN_ACCT_ADDR_MAX in *. unfold version.
  assert (Hfew : len (t_instrs t) = 0 \/ 1 < len (t_addrs t)) by (destruct Hp as [->|?]; auto).
  rewrite (tables_complete _ _ _ _ _ _ P6 (conj Hleg (conj Hl Hlo))) by (unfold tables_room, FD_TXN_ACCT_ADDR_MAX, FD_TXN_INSTR_MAX in *; destruct (t_versioned t); simpl in Hhl; lia).
  cbn [mbind chk_bind].
  assert (Hlen : len (encode_txn t) = len (encode_head t) + len (cu16 (len (t_addrs t))) + 32 * len (t_addrs t) + 32 + len (cu16 (len (t_instrs t)))
    + len (concat (encode_instr <$> t_instrs t)) + len (encode_tables (t_versioned t) (t_lookups t))) by (rewrite encode_split, !len_app; lia).
  rewrite <- Hlen. rewrite (CHECK_ok 220); [|destruct sz_given; [done|]; rewrite (Hgiven eq_refl) in Q0; apply at_len in Q0; rewrite app_nil_r in Q0; cbn [orb]; lia].
  cbn [mbind chk_bind]. rewrite u64_small by (unfold is_u64, ULONG_MAX; lia). rewrite (CHECK_ok 222) by (unfold FD_TXN_ACCT_ADDR_MAX; lia). cbn [mbind chk_bind].
  rewrite (CHECK_ok 225) by (pose proof (max_accts_lt (len (t_addrs t) + lookup_total (t_lookups t)) (t_instrs t) ltac:(lia) Hacc); lia). cbn [mbind chk_bind].
  assert (Hmsg : u16 (1 + 64 * len (t_signatures t)) = 1 + 64 * len (t_signatures t)).
  { unfold u16. destruct P1 as [? _]. unfold FD_TXN_MTU in *. apply Z.mod_small. lia. }
  rewrite Hmsg, (proj2 (at_small _ _ P2)), (proj2 (at_small _ _ P3)). unfold u8, FD_TXN_ADDR_TABLE_LOOKUP_MAX in *. pose proof (len_nonneg (t_lookups t)).
  rewrite !(Z.mod_small _ 256) by lia. unfold describe, footprint, mret, chk_ret, FD_TXN_SIGNATURE_SZ, FD_TXN_ACCT_ADDR_SZ, FD_TXN_BLOCKHASH_SZ.
  assert (Hmh : len (encode_head t) = 1 + 64 * len (t_signatures t) + len (encode_header t)).
  { unfold encode_head. rewrite len_cons, len_app, (len_concat 64 (t_signatures t)) by apply Hh. lia. }
  rewrite Hmh. done.
Qed.

Lemma body_sound t sz_given : at_pos 0 t ->
  sound (parse_body payload payload_sz out_buf sz_given)
    (fun r => exists b : transaction * list Z, (transaction_ok b.1 /\ t = encode_txn b.1 ++ b.2 /\ (sz_given = false -> b.2 = [])) /\
      r = (describe b.1, footprint b.1, len (encode_txn b.1))).
Proof using bs_bytes bs_mtu out_room.
  intros P0. apply sound_exact with (P := fun b : transaction * list Z => transaction_ok b.1 /\ t = encode_txn b.1 ++ b.2 /\ (sz_given = false -> b.2 = [])).
  { intros [a t'] (Ha & -> & Hs). by apply (body_complete _ t'). }
  unfold parse_body. eapply sound_bind; [by apply (header_sound t P0)|]. intros r ([h t0] & [Hh ->] & ->). cbn [head_of fst snd] in *.
  pose proof (at_next _ _ _ P0) as P1. rewrite Z.add_0_l in P1. pose proof Hh as (Hs & Hsig & Hrs & Hru).
  p_cu16 P1 na t1 P2. p_check Hna. p_check Hus. unfold is_u16, FD_TXN_ACCT_ADDR_MAX, FD_TXN_ACCT_ADDR_SZ, FD_TXN_BLOCKHASH_SZ in *.
  p_left P2 aa t2. destruct (at_app _ _ _ P2) as [P3 E3]. pose proof (at_bytes _ _ P2) as Hb. apply Forall_app in Hb as [Hb _].
  destruct (split_strings 32 na aa) as (addrs & -> & <- & Hadr); [lia|lia|done|done|]. rewrite len_concat with (k := 32) in P3, E3 by done. rewrite E3.
  p_left P3 bh t3. destruct (at_app _ _ _ P3) as [P4 E4]. replace (len bh) with 32 in P4, E4. rewrite E4. pose proof (at_bytes _ _ P3) as Hbh. apply Forall_app in Hbh as [Hbh _].
  p_cu16 P4 ni t4 P5. unfold is_u16, FD_TXN_INSTR_MAX, MIN_INSTR_SZ in *. p_check Hni. p_left P5 mm t5. p_check Hprog. rewrite out_write_ok by done. cbn [mbind chk_bind].
  eapply sound_bind; [apply (instrs_sound _ _ _ _ _ _ P5); unfold FD_TXN_INSTR_MAX; lia|]. intros r ([xs t6] & (Hnx & Hxs & Et) & ->). cbn [fst snd] in *.
  rewrite Et in *. assert (ni = len xs) as -> by (unfold len; lia).
  pose proof (at_next _ _ _ P5) as P6.
  pose proof (head_length _ Hh) as Hhl. unfold FD_TXN_SIGNATURE_SZ in Hhl. pose proof (len_cu16 _ H0). pose proof (len_cu16 _ H). pose proof (instrs_length xs).
  unfold version. eapply sound_bind; [apply (tables_sound _ _ _ _ _ P6); [unfold FD_TXN_ACCT_ADDR_MAX; lia|]|].
  { unfold tables_room, FD_TXN_INSTR_MAX. destruct (t_versioned h); simpl in Hhl; destruct (Z.eqb_spec (len xs) 0); simpl in Hprog; lia. }
  intros r ([ls t7] & [(Hleg & Hnl & Hls) ->] & ->). cbn [fst snd] in *.
  pose proof (lookup_nonneg ls). assert (lookup_total ls <= 2 ^ 32).
  { pose proof (lookup_total_le _ _ Hls). pose proof (len_nonneg ls). unfold FD_TXN_ADDR_TABLE_LOOKUP_MAX, FD_TXN_ACCT_ADDR_MAX in *. nia. }
  p_check Hend. p_check Htot. p_check Hmax. rewrite u64_small in Htot, Hmax by (unfold is_u64, ULONG_MAX; lia). apply sound_ret.
  exists (mk_transaction (t_versioned h) (t_signatures h) (t_ro_signed h) (t_ro_unsigned h) addrs bh xs ls, t7). cbn [fst snd]. split; [|split].
  - constructor; cbn [t_versioned t_signatures t_ro_signed t_ro_unsigned t_addrs t_blockhash t_instrs t_lookups];
      unfold FD_TXN_ACCT_ADDR_MAX, FD_TXN_ACCT_ADDR_SZ, FD_TXN_BLOCKHASH_SZ, FD_TXN_INSTR_MAX, is_byte in *; try done; try lia.
    + destruct (Z.eqb_spec (len xs) 0); simpl in Hprog; [left|lia]. destruct xs; [done|]. unfold len in *. simpl in *. lia.
    + apply max_accts_all. lia.
  - rewrite encode_split. cbn [t_versioned t_addrs t_blockhash t_instrs t_lookups]. by rewrite <- !app_assoc.
  - intros ->. cbn [orb] in Hend. apply at_next, at_len in P6. apply Z.eqb_eq in Hend. destruct t7; [done|]. rewrite len_cons in P6. pose proof (len_nonneg t7). lia.
Qed.

End payload.
