(* ===== verification/TxnCorrect.v ===== *)
(** * The transaction parser is correct

    Which payloads are accepted, what the descriptor says about them, and how
    large everything can be. *)

From S2P Require Import Prelude Bytes CompactU16 Txn TxnParse TxnFormat.

#[local] Open Scope Z_scope.

(** ** Acceptance *)

(** [t] is what the payload holds: all of it, or its front when the caller asks
    for the number of bytes used. *)
Definition holds_txn (bs : list Z) (sz_given : bool) (t : transaction) : Prop :=
  transaction_ok t /\ len bs <= FD_TXN_MTU /\ exists rest, bs = encode_txn t ++ rest /\ (sz_given = false -> rest = []).

Definition counters_ok (c : fd_txn_parse_counters_t) : Prop := len (failure_ring c) = FD_TXN_PARSE_COUNTERS_RING_SZ /\ 0 <= failure_cnt c.

(** One failure more, with its line in the ring. *)
Definition counts_failure (c c' : fd_txn_parse_counters_t) : Prop :=
  success_cnt c' = success_cnt c /\ failure_cnt c' = u64 (failure_cnt c + 1) /\ len (failure_ring c') = FD_TXN_PARSE_COUNTERS_RING_SZ /\
  forall i, i <> Z.to_nat (failure_cnt c mod FD_TXN_PARSE_COUNTERS_RING_SZ) -> failure_ring c' !! i = failure_ring c !! i.

Record accepted (out_buf : option Z) (c : option fd_txn_parse_counters_t) (o : option Z) (t : transaction) (out : parse_out) : Prop := mk_accepted {
  ac_ret : ret out = fd_txn_footprint (len (t_instrs t)) (len (t_lookups t));
  ac_parsed : parsed out = (fun _ => describe t) <$> out_buf;
  ac_counters : counters out = count_success <$> c;
  ac_sz : sz_out out = (fun _ => len (encode_txn t)) <$> o;
}.

Record rejected (c : option fd_txn_parse_counters_t) (o : option Z) (out : parse_out) : Prop := mk_rejected {
  rj_ret : ret out = 0;
  rj_counters : match c, counters out with Some c, Some c' => counts_failure c c' | None, None => True | _, _ => False end;
  rj_sz : sz_out out = o;
}.

Lemma count_failure_ok c line : counters_ok c -> exists c', count_failure c line = Ok c' /\ counts_failure c c'.
Proof.
  intros [Hl Hc]. unfold count_failure. unfold FD_TXN_PARSE_COUNTERS_RING_SZ, len in *. pose proof (Z.mod_pos_bound (failure_cnt c) 32 ltac:(lia)).
  rewrite aset_ok by lia. eexists. split; [done|]. unfold counts_failure, len. simpl. rewrite length_insert. split_and!; [done|done|done|].
  intros i Hi. by rewrite list_lookup_insert_ne.
Qed.

(** The two ways [parse_body] ends. *)
Lemma parse_body_outcome bs out_buf sz_given : Forall is_byte bs -> (forall sz, out_buf = Some sz -> FD_TXN_MAX_SZ <= sz) ->
  (exists t, holds_txn bs sz_given t /\ parse_body (bytes bs) (len bs) out_buf sz_given = Ok (inr (describe t, footprint t, len (encode_txn t)))) \/
  (exists line, parse_body (bytes bs) (len bs) out_buf sz_given = Ok (inl line)) /\ (forall t, ~ holds_txn bs sz_given t).
Proof.
  intros Hb Hout. destruct (Z.le_gt_cases (len bs) FD_TXN_MTU) as [Hm|Hm].
  - assert (P0 : at_pos bs 0 bs) by (split; [pose proof (len_nonneg bs); lia|done]).
    destruct (body_sound bs Hb Hm out_buf Hout bs sz_given P0) as ([line|r] & E & Hr).
    + right. split; [by exists line|]. intros t (Hok & _ & rest & -> & Hrest).
      rewrite (body_complete (encode_txn t ++ rest) Hm out_buf Hout t rest sz_given P0 Hok Hrest) in E. done.
    + left. destruct Hr as ([t rest] & (Hok & Ebs & Hrest) & ->). exists t. split; [|done]. split; [done|]. split; [done|]. by exists rest.
  - right. split; [|intros t (_ & ? & _); lia]. exists 79. unfold parse_body, parse_header, CHECK. by rewrite (proj2 (Z.leb_gt _ _)) by lia.
Qed.

Lemma footprint_small t : transaction_ok t -> fd_txn_footprint (len (t_instrs t)) (len (t_lookups t)) = 20 + 10 * len (t_instrs t) + 8 * len (t_lookups t).
Proof.
  intros H. pose proof (ok_instrs _ H). pose proof (ok_lookups _ H). pose proof (len_nonneg (t_instrs t)). pose proof (len_nonneg (t_lookups t)).
  unfold fd_txn_footprint, sizeof_fd_txn_t, sizeof_fd_txn_instr_t, sizeof_fd_txn_acct_addr_lut_t, FD_TXN_INSTR_MAX, FD_TXN_ADDR_TABLE_LOOKUP_MAX in *.
  rewrite u64_small by (unfold is_u64, ULONG_MAX; lia). lia.
Qed.

(** ** What the descriptor says *)

(** The parts of the transaction are found in the payload at the offsets and
    with the sizes of the descriptor. *)
Definition describes_instr (bs : list Z) (a : instruction) (d : fd_txn_instr_t) : Prop :=
  program_id d = i_program a /\ read (bytes bs) (acct_off d) (acct_cnt d) = Ok (i_accts a) /\
  read (bytes bs) (data_off d) (data_sz d) = Ok (i_data a).

Definition describes_lookup (bs : list Z) (l : table_lookup) (d : fd_txn_acct_addr_lut_t) : Prop :=
  read (bytes bs) (addr_off d) FD_TXN_ACCT_ADDR_SZ = Ok (l_addr l) /\
  read (bytes bs) (writable_off d) (writable_cnt d) = Ok (l_writable l) /\
  read (bytes bs) (readonly_off d) (readonly_cnt d) = Ok (l_readonly l).

Record describes (bs : list Z) (t : transaction) (d : fd_txn_t) : Prop := mk_describes {
  d_version : transaction_version d = version t;
  d_sigs : signature_cnt d = len (t_signatures t) /\
    read (bytes bs) (signature_off d) (FD_TXN_SIGNATURE_SZ * signature_cnt d) = Ok (concat (t_signatures t));
  d_message : message_off d = signature_off d + FD_TXN_SIGNATURE_SZ * signature_cnt d;
  d_readonly : readonly_signed_cnt d = t_ro_signed t /\ readonly_unsigned_cnt d = t_ro_unsigned t;
  d_addrs : acct_addr_cnt d = len (t_addrs t) /\
    read (bytes bs) (acct_addr_off d) (FD_TXN_ACCT_ADDR_SZ * acct_addr_cnt d) = Ok (concat (t_addrs t));
  d_blockhash : read (bytes bs) (recent_blockhash_off d) FD_TXN_BLOCKHASH_SZ = Ok (t_blockhash t);
  d_adtl : addr_table_adtl_writable_cnt d = lookup_writable (t_lookups t) /\ addr_table_adtl_cnt d = lookup_total (t_lookups t);
  d_counts : instr_cnt d = len (t_instrs t) /\ addr_table_lookup_cnt d = len (t_lookups t);
  d_instrs : Forall2 (describes_instr bs) (t_instrs t) (instr d);
  d_lookups : Forall2 (describes_lookup bs) (t_lookups t) (address_tables d);
}.

Section describes.
Context (bs : list Z).

Lemma at_read i x t : at_pos bs i (x ++ t) -> read (bytes bs) i (len x) = Ok x.
Proof.
  intros H. pose proof (at_len _ _ _ H) as Hl. destruct H as [Hi Hd]. rewrite len_app in Hl. pose proof (len_nonneg t). pose proof (len_nonneg x).
  rewrite <- (app_nil_r (bytes bs)), read_bytes by (unfold len in *; lia). rewrite Hd, to_nat_len. by rewrite take_app_length.
Qed.

Lemma layout_describes {A D} (enc : A -> list Z) (desc : Z -> A -> D) (R : A -> D -> Prop) xs :
  (forall x, x ∈ xs -> forall i t, at_pos bs i (enc x ++ t) -> R x (desc i x)) ->
  forall i t, at_pos bs i (concat (enc <$> xs) ++ t) -> Forall2 R xs (layout enc desc i xs).
Proof.
  induction xs as [|x xs IH]; intros H i t P; cbn [layout]; [constructor|]. cbn [fmap list_fmap concat] in P. rewrite <- app_assoc in P. constructor.
  - apply (H x) with (t := concat (enc <$> xs) ++ t); [left|done].
  - apply (IH (fun y Hy => H y (list_elem_of_further _ _ _ Hy)) _ t). by apply at_next.
Qed.

Lemma describe_instr_ok a i t : at_pos bs i (encode_instr a ++ t) -> describes_instr bs a (describe_instr i a).
Proof.
  unfold encode_instr. cbn [app]. rewrite <- !app_assoc. intros P. pose proof (at_next _ _ [_] _ P) as P1. change (len [i_program a]) with 1 in P1.
  pose proof (at_next _ _ _ _ P1) as P2. pose proof (at_next _ _ _ _ P2) as P3. pose proof (at_next _ _ _ _ P3) as P4.
  unfold describes_instr, describe_instr. cbn. split; [done|]. split; [by apply (at_read _ _ _ P2)|by apply (at_read _ _ _ P4)].
Qed.

Lemma describe_lookup_ok addr_cnt l i t : lookup_ok addr_cnt l -> at_pos bs i (encode_lookup l ++ t) -> describes_lookup bs l (describe_lookup i l).
Proof.
  intros ([Ha _] & _). unfold encode_lookup. rewrite <- !app_assoc. intros P. pose proof (at_next _ _ _ _ P) as P1. rewrite Ha in P1.
  pose proof (at_next _ _ _ _ P1) as P2. pose proof (at_next _ _ _ _ P2) as P3. pose proof (at_next _ _ _ _ P3) as P4.
  unfold describes_lookup, describe_lookup. cbn [addr_off writable_off writable_cnt readonly_off readonly_cnt].
  rewrite <- Ha at 1. split; [by apply (at_read _ _ _ P)|]. split; [by apply (at_read _ _ _ P2)|by apply (at_read _ _ _ P4)].
Qed.

(** The tables behind their number. *)
Lemma tables_describes t i rest : transaction_ok t -> at_pos bs i (encode_tables (t_versioned t) (t_lookups t) ++ rest) ->
  Forall2 (describes_lookup bs) (t_lookups t) (layout encode_lookup describe_lookup (i + len (cu16 (len (t_lookups t)))) (t_lookups t)).
Proof.
  intros H P. unfold encode_tables in P. destruct (t_versioned t) eqn:Ev; [|rewrite (ok_legacy _ H Ev); constructor].
  rewrite <- app_assoc in P. apply (layout_describes _ _ _ _) with (t := rest); [|by apply at_next].
  intros l Hl j u. apply (describe_lookup_ok (len (t_addrs t))). pose proof (ok_lookup _ H) as Hls. rewrite Forall_forall in Hls. by apply Hls.
Qed.

Lemma describe_ok t rest : transaction_ok t -> bs = encode_txn t ++ rest -> describes bs t (describe t).
Proof.
  intros Hok E. pose proof (ok_head _ Hok) as Hh. assert (P0 : at_pos bs 0 (encode_txn t ++ rest)) by (rewrite <- E; split; [pose proof (len_nonneg bs); lia|done]).
  destruct (ok_blockhash _ Hok) as [Hbh _]. pose proof (len_concat _ _ (ok_addr _ Hok)) as Hca. pose proof (len_concat _ _ (ok_sig _ Hok)) as Hcs.
  pose proof P0 as S0. unfold encode_txn in S0. cbn [app] in S0. rewrite <- !app_assoc in S0. pose proof (at_next _ _ [_] _ S0) as S1.
  rewrite encode_split, <- !app_assoc in P0. pose proof (at_next _ _ _ _ P0) as P1. rewrite Z.add_0_l in P1. pose proof (at_next _ _ _ _ P1) as P2.
  pose proof (at_next _ _ _ _ P2) as P3. pose proof (at_next _ _ _ _ P3) as P4. pose proof (at_next _ _ _ _ P4) as P5. pose proof (at_next _ _ _ _ P5) as P6.
  rewrite Hca in P3, P4, P5, P6. rewrite Hbh in P4, P5, P6.
  assert (Hmh : len (encode_head t) = 1 + FD_TXN_SIGNATURE_SZ * len (t_signatures t) + len (encode_header t)).
  { unfold encode_head. rewrite len_cons, len_app, Hcs. lia. }
  rewrite Hmh in *. constructor; cbn [describe transaction_version signature_cnt signature_off message_off readonly_signed_cnt readonly_unsigned_cnt
    acct_addr_cnt acct_addr_off recent_blockhash_off addr_table_adtl_writable_cnt addr_table_adtl_cnt instr_cnt addr_table_lookup_cnt instr address_tables].
  - done.
  - split; [done|]. rewrite <- Hcs. by apply (at_read _ _ _ S1).
  - done.
  - done.
  - split; [done|]. rewrite <- Hca. by apply (at_read _ _ _ P2).
  - rewrite <- Hbh. by apply (at_read _ _ _ P3).
  - done.
  - done.
  - apply (layout_describes _ _ _ _) with (t := encode_tables (t_versioned t) (t_lookups t) ++ rest); [|done]. intros a _ i u. apply describe_instr_ok.
  - by apply (tables_describes t _ rest Hok).
Qed.

End describes.

(** ** The descriptor determines the transaction *)

Lemma concat_inj k ls ls' : 0 < k -> Forall (byte_string k) ls -> Forall (byte_string k) ls' -> concat ls = concat ls' -> ls = ls'.
Proof.
  intros Hk H. revert ls'. induction H as [|x ls [Hx _] _ IH]; intros ls' H' E.
  - destruct ls' as [|y ls']; [done|]. apply Forall_cons in H' as [[Hy _] _]. destruct y; [unfold len in Hy; simpl in Hy; lia|done].
  - destruct H' as [|y ls' [Hy _] H']; [destruct x; [unfold len in Hx; simpl in Hx; lia|done]|]. cbn [concat] in E.
    apply app_inj_1 in E as [-> E]; [|unfold len in *; lia]. f_equal. by apply IH.
Qed.

Lemma Forall2_functional {A D} (R : A -> D -> Prop) xs ys ds : (forall x y d, R x d -> R y d -> x = y) -> Forall2 R xs ds -> Forall2 R ys ds -> xs = ys.
Proof.
  intros Hf H. revert ys. induction H as [|x d xs ds Hx _ IH]; intros ys Hy; inversion Hy as [|y ? ys' ? Hyd Hys]; subst; [done|].
  f_equal; [by apply (Hf x y d)|by apply IH].
Qed.

Lemma describes_unique bs t t' d : transaction_ok t -> transaction_ok t' -> describes bs t d -> describes bs t' d -> t = t'.
Proof.
  intros H H' [Ev [Es Rs] _ [Er Eu] [Ea Ra] Rb _ _ Ri Rl] [Ev' [Es' Rs'] _ [Er' Eu'] [Ea' Ra'] Rb' _ _ Ri' Rl'].
  assert (t_versioned t = t_versioned t') by (rewrite Ev in Ev'; unfold version in Ev'; by destruct (t_versioned t), (t_versioned t')).
  assert (t_signatures t = t_signatures t') by (apply (concat_inj FD_TXN_SIGNATURE_SZ); [done|apply (ok_sig _ H)|apply (ok_sig _ H')|congruence]).
  assert (t_addrs t = t_addrs t') by (apply (concat_inj FD_TXN_ACCT_ADDR_SZ); [done|apply (ok_addr _ H)|apply (ok_addr _ H')|congruence]).
  assert (t_instrs t = t_instrs t').
  { apply (Forall2_functional (describes_instr bs) _ _ (instr d)); [|done..]. intros [p a x] [p' a' x'] y (E1 & E2 & E3) (E1' & E2' & E3'). simpl in *. congruence. }
  assert (t_lookups t = t_lookups t').
  { apply (Forall2_functional (describes_lookup bs) _ _ (address_tables d)); [|done..]. intros [p a x] [p' a' x'] y (E1 & E2 & E3) (E1' & E2' & E3'). simpl in *. congruence. }
  destruct t, t'; simpl in *. congruence.
Qed.

(** ** Sizes *)

Lemma encode_txn_length t : transaction_ok t ->
  134 + Z.b2z (t_versioned t) + 96 * (len (t_signatures t) - 1) + 32 * (len (t_addrs t) - len (t_signatures t)) + 3 * len (t_instrs t)
  + (if t_versioned t then 1 + 35 * len (t_lookups t) else 0) <= len (encode_txn t).
Proof.
  intros H. pose proof (ok_head _ H) as Hh. rewrite encode_split, !len_app, (head_length _ Hh), (len_concat _ _ (ok_addr _ H)).
  destruct (ok_blockhash _ H) as [-> _]. pose proof (instrs_length (t_instrs t)).
  assert (Hc : forall v, 1 <= len (cu16 v)) by (intros v; unfold cu16; repeat case_match; unfold len; simpl; lia).
  pose proof (Hc (len (t_addrs t))). pose proof (Hc (len (t_instrs t))). unfold FD_TXN_SIGNATURE_SZ, FD_TXN_ACCT_ADDR_SZ, FD_TXN_BLOCKHASH_SZ, encode_tables.
  destruct (t_versioned t); simpl Z.b2z.
  - rewrite len_app. pose proof (Hc (len (t_lookups t))). pose proof (lookup_counts _ _ (ok_lookup _ H)). lia.
  - change (@len Z []) with 0. lia.
Qed.

(** The documented ranges of the fields, and that every part the descriptor
    names lies in the payload. *)
Definition inside (sz off n : Z) : Prop := 0 <= off /\ 0 <= n /\ off + n <= sz.

Record txn_wf (payload_sz : Z) (d : fd_txn_t) : Prop := mk_txn_wf {
  tw_version : transaction_version d = FD_TXN_VLEGACY \/ transaction_version d = FD_TXN_V0;
  tw_signature : 1 <= signature_cnt d <= FD_TXN_ACTUAL_SIG_MAX /\ signature_off d = 1 /\
    inside payload_sz (signature_off d) (FD_TXN_SIGNATURE_SZ * signature_cnt d) /\ 0 <= message_off d <= payload_sz;
  tw_readonly : 0 <= readonly_signed_cnt d < signature_cnt d /\ 0 <= readonly_unsigned_cnt d <= acct_addr_cnt d - signature_cnt d;
  tw_addrs : acct_addr_cnt d <= 35 /\ inside payload_sz (acct_addr_off d) (FD_TXN_ACCT_ADDR_SZ * acct_addr_cnt d);
  tw_blockhash : inside payload_sz (recent_blockhash_off d) FD_TXN_BLOCKHASH_SZ;
  tw_tables : 0 <= addr_table_lookup_cnt d <= 31 /\ Z.of_nat (length (address_tables d)) = addr_table_lookup_cnt d /\
    (transaction_version d = FD_TXN_VLEGACY -> addr_table_lookup_cnt d = 0 /\ addr_table_adtl_cnt d = 0);
  tw_adtl : 0 <= addr_table_adtl_writable_cnt d <= addr_table_adtl_cnt d /\ addr_table_adtl_cnt d <= FD_TXN_ACCT_ADDR_MAX - acct_addr_cnt d;
  tw_instrs : 0 <= instr_cnt d <= FD_TXN_INSTR_MAX /\ Z.of_nat (length (instr d)) = instr_cnt d;
  tw_instr : Forall (fun x => 0 < program_id x < acct_addr_cnt d /\ inside payload_sz (acct_off x) (acct_cnt x) /\
    inside payload_sz (data_off x) (data_sz x)) (instr d);
  tw_table : Forall (fun x => 1 <= writable_cnt x + readonly_cnt x <= addr_table_adtl_cnt d /\ inside payload_sz (addr_off x) FD_TXN_ACCT_ADDR_SZ /\
    inside payload_sz (writable_off x) (writable_cnt x) /\ inside payload_sz (readonly_off x) (readonly_cnt x)) (address_tables d);
}.

Lemma read_inside bs off n x : read (bytes bs) off n = Ok x -> inside (len bs) off n.
Proof.
  unfold read. destruct (_ || _ || _) eqn:E; [done|]. intros _. rewrite !orb_false_iff, !Z.ltb_ge, bytes_length in E. unfold inside, len. lia.
Qed.

Lemma read_len bs off n x : read (bytes bs) off n = Ok x -> len x = n.
Proof.
  intros H. pose proof (read_inside _ _ _ _ H) as (Ho & Hn & Hl). rewrite <- (app_nil_r (bytes bs)), read_bytes in H by (unfold len in *; lia).
  injection H as <-. unfold len in *. rewrite length_take, length_drop. lia.
Qed.

Lemma lookup_in_total l ls : l ∈ ls -> len (l_writable l) + len (l_readonly l) <= lookup_total ls.
Proof.
  induction 1 as [l ls|l x ls _ IH]; rewrite lookup_total_cons; pose proof (lookup_nonneg ls); [lia|].
  pose proof (len_nonneg (l_writable x)). pose proof (len_nonneg (l_readonly x)). lia.
Qed.

Lemma describes_wf bs t rest d : transaction_ok t -> len bs <= FD_TXN_MTU -> bs = encode_txn t ++ rest -> describes bs t d -> signature_off d = 1 -> txn_wf (len bs) d.
Proof.
  intros H Hm E D Hoff. pose proof (encode_txn_length _ H) as Hl. assert (Hle : len (encode_txn t) <= len bs) by (rewrite E, len_app; pose proof (len_nonneg rest); lia).
  pose proof (ok_sigs _ H). pose proof (ok_ro_signed _ H). pose proof (ok_ro_unsigned _ H). pose proof (ok_addrs _ H). pose proof (ok_instrs _ H). pose proof (ok_lookups _ H).
  pose proof (lookup_counts _ _ (ok_lookup _ H)) as (Hw & Hls & _). pose proof (len_nonneg (t_instrs t)). pose proof (len_nonneg (t_lookups t)).
  destruct D as [Ev [Es Rs] Em [Er Eu] [Ea Ra] Rb [Ew Et] [Ei El] Ri Rl]. unfold FD_TXN_MTU in *.
  pose proof (read_inside _ _ _ _ Rs) as Is. pose proof (read_inside _ _ _ _ Ra) as Ia. pose proof (read_inside _ _ _ _ Rb) as Ib.
  assert (Hlegacy : t_versioned t = false -> len (t_lookups t) = 0 /\ lookup_total (t_lookups t) = 0) by (intros Hv; by rewrite (ok_legacy _ H Hv)).
  constructor; rewrite ?Es, ?Er, ?Eu, ?Ea, ?Ew, ?Et, ?Ei, ?El, ?Hoff in *.
  - rewrite Ev. unfold version. destruct (t_versioned t); auto.
  - rewrite Em. unfold FD_TXN_ACTUAL_SIG_MAX. destruct (t_versioned t); simpl Z.b2z in Hl; split_and!; (done || (unfold inside in *; lia)).
  - lia.
  - split; [|done]. destruct (t_versioned t); simpl Z.b2z in Hl; lia.
  - done.
  - rewrite <- (Forall2_length _ _ _ Rl), Ev. unfold version. destruct (t_versioned t); simpl Z.b2z in Hl; split_and!; (done || lia || auto).
  - lia.
  - by rewrite <- (Forall2_length _ _ _ Ri).
  - apply Forall_lookup. intros i x Hx. destruct (Forall2_lookup_r _ _ _ _ _ Ri Hx) as (a & Ha & (Ep & Ra1 & Ra2)).
    pose proof (Forall_lookup_1 _ _ _ _ (ok_instr _ H) Ha) as (Hp & _). rewrite Ep. split; [lia|]. split; [by apply (read_inside _ _ _ _ Ra1)|by apply (read_inside _ _ _ _ Ra2)].
  - apply Forall_lookup. intros i x Hx. destruct (Forall2_lookup_r _ _ _ _ _ Rl Hx) as (l & Ha & (R1 & R2 & R3)).
    pose proof (Forall_lookup_1 _ _ _ _ (ok_lookup _ H) Ha) as (_ & _ & _ & _ & _ & Hn). pose proof (lookup_in_total _ _ (list_elem_of_lookup_2 _ _ _ Ha)).
    rewrite (read_len _ _ _ _ R2), (read_len _ _ _ _ R3) in *. split; [lia|].
    split; [by apply (read_inside _ _ _ _ R1)|]. split; [by apply (read_inside _ _ _ _ R2)|by apply (read_inside _ _ _ _ R3)].
Qed.

(** ** Properties *)

(** C22. The parser returns on every payload without reading outside of it and
    without writing more than [FD_TXN_MAX_SZ] bytes, and accepts exactly the
    encodings of well-formed transactions: a payload that is one (or starts
    with one, when the number of bytes used is asked for) is described as the
    transaction it encodes, and every other payload is refused and counted as
    a failure. *)
Theorem txn_parse_correct (bs : list Z) (out_buf : option Z) (counters_opt : option fd_txn_parse_counters_t) (payload_sz_opt : option Z) :
  Forall is_byte bs -> (forall sz, out_buf = Some sz -> FD_TXN_MAX_SZ <= sz) -> (forall c, counters_opt = Some c -> counters_ok c) ->
  exists out, fd_txn_parse_core (bytes bs) (len bs) out_buf counters_opt payload_sz_opt = Ok out /\
    ((exists t, holds_txn bs (bool_decide (is_Some payload_sz_opt)) t /\ accepted out_buf counters_opt payload_sz_opt t out) \/
     rejected counters_opt payload_sz_opt out /\ forall t, ~ holds_txn bs (bool_decide (is_Some payload_sz_opt)) t).
Proof.
  intros Hb Hout Hc. unfold fd_txn_parse_core. destruct (parse_body_outcome bs out_buf (bool_decide (is_Some payload_sz_opt)) Hb Hout) as [(t & Ht & ->)|[[line ->] Hno]];
    cbn [mbind res_bind].
  - eexists. split; [done|]. left. exists t. split; [done|]. constructor; [done|by destruct out_buf|done|done].
  - destruct counters_opt as [c|].
    + destruct (count_failure_ok c line (Hc c eq_refl)) as (c' & -> & Hf). cbn [mbind res_bind]. eexists. split; [done|]. right. by split; [constructor|].
    + eexists. split; [done|]. right. by split; [constructor|].
Qed.

(** Of an accepted payload the descriptor names every part: reading the payload
    at its offsets gives the signatures, the account addresses, the blockhash,
    the accounts and data of every instruction and the tables of exactly one
    well-formed transaction. *)
Theorem txn_parse_describes (bs : list Z) (out_sz : Z) (payload_sz_opt : option Z) (out : parse_out) :
  Forall is_byte bs -> FD_TXN_MAX_SZ <= out_sz -> fd_txn_parse_core (bytes bs) (len bs) (Some out_sz) None payload_sz_opt = Ok out -> ret out <> 0 ->
  exists t d rest, parsed out = Some d /\ transaction_ok t /\ bs = encode_txn t ++ rest /\ (payload_sz_opt = None -> rest = []) /\ describes bs t d /\
    forall t', transaction_ok t' -> describes bs t' d -> t' = t.
Proof.
  intros Hb Hsz. unfold fd_txn_parse_core.
  destruct (parse_body_outcome bs (Some out_sz) (bool_decide (is_Some payload_sz_opt)) Hb) as [(t & (Hok & _ & rest & E & Hrest) & ->)|[[line ->] _]];
    [by intros ? [= <-]|cbn [mbind res_bind]..]; intros [= <-] Hr; [|done].
  pose proof (describe_ok bs t rest Hok E) as D. exists t, (describe t), rest. split_and!; try done.
  - intros ->. apply Hrest. by rewrite bool_decide_eq_false_2.
  - intros t' Hok' D'. symmetry. by apply (describes_unique bs _ _ (describe t)).
Qed.

(** Every field of an accepted transaction is in its documented range, every
    part it names lies in the payload, its footprint is at most
    [FD_TXN_MAX_SZ], and no payload shorter than [FD_TXN_MIN_SERIALIZED_SZ] is
    accepted. *)
Theorem txn_parse_bounds (bs : list Z) (out_sz : Z) (payload_sz_opt : option Z) (out : parse_out) :
  Forall is_byte bs -> FD_TXN_MAX_SZ <= out_sz -> fd_txn_parse_core (bytes bs) (len bs) (Some out_sz) None payload_sz_opt = Ok out -> ret out <> 0 ->
  exists d, parsed out = Some d /\ txn_wf (len bs) d /\ ret out = fd_txn_footprint (instr_cnt d) (addr_table_lookup_cnt d) /\
    0 < ret out <= FD_TXN_MAX_SZ /\ FD_TXN_MIN_SERIALIZED_SZ <= len bs <= FD_TXN_MTU.
Proof.
  intros Hb Hsz. unfold fd_txn_parse_core.
  destruct (parse_body_outcome bs (Some out_sz) (bool_decide (is_Some payload_sz_opt)) Hb) as [(t & (Hok & Hm & rest & E & _) & ->)|[[line ->] _]];
    [by intros ? [= <-]|cbn [mbind res_bind]..]; intros [= <-] Hr; [|done].
  pose proof (describe_ok bs t rest Hok E) as D. exists (describe t). pose proof (encode_txn_length _ Hok) as Hl.
  assert (Hle : len (encode_txn t) <= len bs) by (rewrite E, len_app; pose proof (len_nonneg rest); lia).
  pose proof (ok_sigs _ Hok). pose proof (ok_ro_unsigned _ Hok). pose proof (len_nonneg (t_instrs t)). pose proof (len_nonneg (t_lookups t)).
  pose proof (ok_instrs _ Hok). pose proof (footprint_small _ Hok) as Hf.
  assert (Hp : t_versioned t = true \/ len (t_lookups t) = 0) by (destruct (t_versioned t) eqn:Ev; [by left|right]; by rewrite (ok_legacy _ Hok Ev)).
  assert (Hq : len (t_instrs t) = 0 \/ 1 < len (t_addrs t)) by (destruct (ok_program _ Hok) as [->|?]; [by left|by right]).
  unfold FD_TXN_MTU, FD_TXN_INSTR_MAX, FD_TXN_MAX_SZ, FD_TXN_MIN_SERIALIZED_SZ, footprint in *. cbn [ret parsed describe instr_cnt addr_table_lookup_cnt].
  split_and!; try done; [by apply (describes_wf bs t rest)|..]; rewrite ?Hf; destruct (t_versioned t); simpl Z.b2z in Hl; lia.
Qed.

(** ** Examples *)

(** A versioned transaction with one instruction and one table. *)
Definition example_txn : transaction :=
  mk_transaction true [replicate 64 1] 0 1 [replicate 32 2; replicate 32 3; replicate 32 4] (replicate 32 5)
    [mk_instruction 2 [0; 1; 3; 4] [9; 9; 9]] [mk_lookup (replicate 32 6) [7] [8]].

(** The transaction with the largest descriptor: as many instructions without
    accounts and data as allowed, and as many tables as then fit. *)
Definition largest_txn : transaction :=
  mk_transaction true [replicate 64 1] 0 0 [replicate 32 2; replicate 32 3] (replicate 32 5)
    (replicate 64 (mk_instruction 1 [] [])) (replicate 24 (mk_lookup (replicate 32 6) [7] [])).

Definition example_counters : fd_txn_parse_counters_t := mk_counters 3 40 (replicate 32 0).

Lemma example_txn_bytes : Forall is_byte (encode_txn example_txn).
Proof. apply (bool_decide_unpack _). vm_compute. exact I. Qed.

Lemma largest_txn_bytes : Forall is_byte (encode_txn largest_txn).
Proof. apply (bool_decide_unpack _). vm_compute. exact I. Qed.

Lemma example_parsed : fd_txn_parse_core (bytes (encode_txn example_txn)) (len (encode_txn example_txn)) (Some 852) None None
  = Ok (mk_out 38 (Some (describe example_txn)) None None).
Proof. vm_compute. reflexivity. Qed.

Lemma largest_parsed : fd_txn_parse_core (bytes (encode_txn largest_txn)) (len (encode_txn largest_txn)) (Some 852) None None
  = Ok (mk_out 852 (Some (describe largest_txn)) None None).
Proof. vm_compute. reflexivity. Qed.

Lemma txn_parse_correct_witness :
  exists out, fd_txn_parse_core (bytes (encode_txn example_txn)) (len (encode_txn example_txn)) (Some 852) (Some example_counters) None = Ok out /\
    ((exists t, holds_txn (encode_txn example_txn) false t /\ accepted (Some 852) (Some example_counters) None t out) \/
     rejected (Some example_counters) None out /\ forall t, ~ holds_txn (encode_txn example_txn) false t).
Proof.
  apply (txn_parse_correct (encode_txn example_txn) (Some 852) (Some example_counters) None); [apply example_txn_bytes|by intros ? [= <-]|by intros ? [= <-]].
Defined.

Lemma txn_parse_describes_witness :
  exists t d rest, Some (describe example_txn) = Some d /\ transaction_ok t /\ encode_txn example_txn = encode_txn t ++ rest /\ (@None Z = None -> rest = []) /\
    describes (encode_txn example_txn) t d /\ forall t', transaction_ok t' -> describes (encode_txn example_txn) t' d -> t' = t.
Proof.
  apply (txn_parse_describes (encode_txn example_txn) 852 None (mk_out 38 (Some (describe example_txn)) None None));
    [apply example_txn_bytes|done|apply example_parsed|done].
Defined.

Lemma txn_parse_bounds_witness :
  exists d, Some (describe largest_txn) = Some d /\ txn_wf (len (encode_txn largest_txn)) d /\ 852 = fd_txn_footprint (instr_cnt d) (addr_table_lookup_cnt d) /\
    0 < 852 <= FD_TXN_MAX_SZ /\ FD_TXN_MIN_SERIALIZED_SZ <= len (encode_txn largest_txn) <= FD_TXN_MTU.
Proof.
  apply (txn_parse_bounds (encode_txn largest_txn) 852 None (mk_out 852 (Some (describe largest_txn)) None None));
    [apply largest_txn_bytes|done|apply largest_parsed|done].
Defined.

Lemma example_wf : txn_wf (len (encode_txn example_txn)) (describe example_txn).
Proof.
  assert (Hb : forall n b, is_byte b -> Forall is_byte (replicate n b)) by (intros n b Hb; by apply Forall_replicate).
  assert (Hs : forall n b, is_byte b -> byte_string (Z.of_nat n) (replicate n b)) by (intros n b H; split; [unfold len; by rewrite length_replicate|by apply Hb]).
  apply (describes_wf _ example_txn []); [|done|by rewrite app_nil_r|apply (describe_ok _ _ []); [|by rewrite app_nil_r]|done];
    (constructor; cbn; rewrite ?Forall_cons, ?Forall_nil; unfold instr_ok, lookup_ok, byte_string, lookup_total, is_byte, len; cbn;
     rewrite ?Forall_cons, ?Forall_nil; unfold FD_TXN_SIG_MAX, FD_TXN_ACCT_ADDR_MAX, FD_TXN_INSTR_MAX, FD_TXN_ADDR_TABLE_LOOKUP_MAX; try done; try lia).
Qed.

(** A well-formed transaction that fits is accepted. *)
Lemma parse_complete t out_sz : transaction_ok t -> len (encode_txn t) <= FD_TXN_MTU -> FD_TXN_MAX_SZ <= out_sz ->
  fd_txn_parse (bytes (encode_txn t)) (len (encode_txn t)) (Some out_sz) None = Ok (mk_out (footprint t) (Some (describe t)) None None).
Proof.
  intros Hok Hm Ho. unfold fd_txn_parse, fd_txn_parse_core.
  rewrite (body_complete (encode_txn t) Hm (Some out_sz) ltac:(by intros ? [= <-]) t []); [done| |done|done].
  rewrite app_nil_r. split; [pose proof (len_nonneg (encode_txn t)); lia|done].
Qed.
