(* ===== verification/TxnAccts.v ===== *)
(** * The accounts of a transaction ([src/ballet/txn/fd_txn.h])

    Counting and iterating over the accounts of a set of categories, and the
    permissions of an account. *)

From S2P Require Import Prelude Bytes CompactU16 Txn TxnParse TxnFormat TxnCorrect.

#[local] Open Scope Z_scope.

Definition FD_TXN_ACCT_CAT_WRITABLE_SIGNER : Z := 1.
Definition FD_TXN_ACCT_CAT_READONLY_SIGNER : Z := 2.
Definition FD_TXN_ACCT_CAT_WRITABLE_NONSIGNER_IMM : Z := 4.
Definition FD_TXN_ACCT_CAT_READONLY_NONSIGNER_IMM : Z := 8.
Definition FD_TXN_ACCT_CAT_WRITABLE_ALT : Z := 16.
Definition FD_TXN_ACCT_CAT_READONLY_ALT : Z := 32.
Definition FD_TXN_ACCT_CAT_WRITABLE : Z := 21.
Definition FD_TXN_ACCT_CAT_SIGNER : Z := 3.
Definition FD_TXN_ACCT_CAT_ALL : Z := 63.

(** [include_cat & f] *)
Definition includes (include_cat f : Z) : bool := negb (Z.land include_cat f =? 0).

Definition fd_txn_account_cnt (txn : fd_txn_t) (include_cat : Z) : Z :=
  let add (f n cnt : Z) := if includes include_cat f then u64 (cnt + n) else cnt in
  let cnt := 0 in
  let cnt := add FD_TXN_ACCT_CAT_WRITABLE_SIGNER (u64 (signature_cnt txn - readonly_signed_cnt txn)) cnt in
  let cnt := add FD_TXN_ACCT_CAT_READONLY_SIGNER (readonly_signed_cnt txn) cnt in
  let cnt := add FD_TXN_ACCT_CAT_READONLY_NONSIGNER_IMM (readonly_unsigned_cnt txn) cnt in
  let cnt := add FD_TXN_ACCT_CAT_WRITABLE_ALT (addr_table_adtl_writable_cnt txn) cnt in
  let cnt := add FD_TXN_ACCT_CAT_WRITABLE_NONSIGNER_IMM
               (u64 (u64 (acct_addr_cnt txn - signature_cnt txn) - readonly_unsigned_cnt txn)) cnt in
  add FD_TXN_ACCT_CAT_READONLY_ALT (u64 (addr_table_adtl_cnt txn - addr_table_adtl_writable_cnt txn)) cnt.

(** [INCLUDE_RANGE]: the array [control] and the index [i] of its last entry. *)
Definition INCLUDE_RANGE (include_cat f start cnt : Z) (st : list Z * Z) : res (list Z * Z) :=
  let '(control, i) := st in
  if includes include_cat f then
    '(control, i) ← (if includes include_cat (Z.shiftr f 1) then Ok (control, i)
                     else let i := u64 (i + 1) in control ← aset control i start; Ok (control, i));
    c ← aget control i;
    control ← aset control i (u64 (c + u64 (Z.shiftl cnt 8)));
    Ok (control, i)
  else Ok (control, i).

(** Removing the empty intervals. *)
Definition compress (control0 control1 control2 : Z) : Z :=
  let empty (c : Z) := Z.land c 65280 =? 0 in
  let control2 := if empty control2 then 0 else control2 in
  let control1_empty := empty control1 in
  let control1 := if control1_empty then control2 else control1 in
  let control2 := if control1_empty then 0 else control2 in
  let control0_empty := empty control0 in
  let control0 := if control0_empty then control1 else control0 in
  let control1 := if control0_empty then control2 else control1 in
  let control2 := if control0_empty then 0 else control2 in
  Z.lor (Z.lor control0 (u64 (Z.shiftl control1 16))) (u64 (Z.shiftl control2 32)).

Definition fd_txn_acct_iter_init (txn : fd_txn_t) (include_cat : Z) : res Z :=
  let s := signature_cnt txn in
  let q := readonly_signed_cnt txn in
  let r := readonly_unsigned_cnt txn in
  let a := acct_addr_cnt txn in
  let t := addr_table_adtl_cnt txn in
  let u := addr_table_adtl_writable_cnt txn in
  st ← INCLUDE_RANGE include_cat FD_TXN_ACCT_CAT_WRITABLE_SIGNER 0 (u64 (s - q)) ([0; 0; 0], ULONG_MAX);
  st ← INCLUDE_RANGE include_cat FD_TXN_ACCT_CAT_READONLY_SIGNER (u64 (s - q)) q st;
  st ← INCLUDE_RANGE include_cat FD_TXN_ACCT_CAT_WRITABLE_NONSIGNER_IMM s (u64 (u64 (a - r) - s)) st;
  st ← INCLUDE_RANGE include_cat FD_TXN_ACCT_CAT_READONLY_NONSIGNER_IMM (u64 (a - r)) r st;
  st ← INCLUDE_RANGE include_cat FD_TXN_ACCT_CAT_WRITABLE_ALT a u st;
  '(control, _) ← INCLUDE_RANGE include_cat FD_TXN_ACCT_CAT_READONLY_ALT (u64 (a + u)) (u64 (t - u)) st;
  control0 ← aget control 0;
  control1 ← aget control 1;
  control2 ← aget control 2;
  Ok (compress control0 control1 control2).

Definition fd_txn_acct_iter_next (cur : Z) : Z :=
  let cur := u64 (u64 (cur + 1) - 256) in
  if negb (Z.land cur 65280 =? 0) then cur else Z.shiftr cur 16.

Definition fd_txn_acct_iter_end : Z := 0.

Definition fd_txn_acct_iter_idx (cur : Z) : Z := Z.land cur 255.

Definition fd_txn_is_writable (txn : fd_txn_t) (idx : Z) : bool :=
  if (transaction_version txn =? FD_TXN_V0) && (acct_addr_cnt txn <=? idx) then
    idx <? acct_addr_cnt txn + addr_table_adtl_writable_cnt txn
  else if idx <? signature_cnt txn - readonly_signed_cnt txn then true
  else (signature_cnt txn <=? idx) && (idx <? acct_addr_cnt txn - readonly_unsigned_cnt txn).

Definition fd_txn_is_signer (txn : fd_txn_t) (idx : Z) : bool := idx <? signature_cnt txn.

(** The loop [for( i=init( txn, cat ); i!=end(); i=next( i ) )], collecting the
    indices; there are at most 128 accounts. *)
Definition iter_step (s : Z * list Z) : res ((Z * list Z) + list Z) :=
  let '(i, acc) := s in
  if i =? fd_txn_acct_iter_end then Ok (inr (rev acc))
  else Ok (inl (fd_txn_acct_iter_next i, fd_txn_acct_iter_idx i :: acc)).

Definition visited (txn : fd_txn_t) (include_cat : Z) : res (list Z) :=
  i ← fd_txn_acct_iter_init txn include_cat;
  loop iter_step 129 (i, []).

(** ** Categories *)

(** The category of the account at an index, from the table in the header. *)
Definition category (txn : fd_txn_t) (idx : Z) : Z :=
  if idx <? signature_cnt txn - readonly_signed_cnt txn then FD_TXN_ACCT_CAT_WRITABLE_SIGNER
  else if idx <? signature_cnt txn then FD_TXN_ACCT_CAT_READONLY_SIGNER
  else if idx <? acct_addr_cnt txn - readonly_unsigned_cnt txn then FD_TXN_ACCT_CAT_WRITABLE_NONSIGNER_IMM
  else if idx <? acct_addr_cnt txn then FD_TXN_ACCT_CAT_READONLY_NONSIGNER_IMM
  else if idx <? acct_addr_cnt txn + addr_table_adtl_writable_cnt txn then FD_TXN_ACCT_CAT_WRITABLE_ALT
  else FD_TXN_ACCT_CAT_READONLY_ALT.

Definition in_categories (txn : fd_txn_t) (include_cat idx : Z) : Prop := includes include_cat (category txn idx) = true.

#[export] Instance in_categories_dec txn include_cat idx : Decision (in_categories txn include_cat idx).
Proof. unfold in_categories. apply _. Defined.

(** The accounts of the categories, in order. *)
Definition accounts (txn : fd_txn_t) (include_cat : Z) : list Z :=
  filter (in_categories txn include_cat) (seqZ 0 (acct_addr_cnt txn + addr_table_adtl_cnt txn)).

(** ** Intervals *)

(** Intervals of indices as (start, count). *)
Abbreviation ranges := (list (Z * Z)) (only parsing).

Definition indices (rs : ranges) : list Z := rs ≫= fun p => seqZ p.1 p.2.

Definition word (p : Z * Z) : Z := p.1 + 256 * p.2.

(** The iterator over intervals: 16 bits for each. *)
Fixpoint pack (rs : ranges) : Z := match rs with [] => 0 | p :: rs' => word p + 65536 * pack rs' end.

Definition range_ok (p : Z * Z) : Prop := 0 <= p.1 /\ 0 <= p.2 /\ p.1 + p.2 <= 128.

Lemma word_range p : range_ok p -> 0 <= word p < 65536.
Proof. unfold range_ok, word. lia. Qed.

Lemma land_65280 x : Z.land x 65280 = x / 256 mod 256 * 256.
Proof.
  replace (x / 256 mod 256 * 256) with (Z.shiftl (Z.land (Z.shiftr x 8) (Z.ones 8)) 8)
    by (rewrite Z.land_ones, Z.shiftl_mul_pow2, Z.shiftr_div_pow2 by lia; done).
  change 65280 with (Z.shiftl (Z.ones 8) 8). apply Z.bits_inj'. intros n Hn. rewrite Z.land_spec, !Z.shiftl_spec by lia.
  destruct (Z.lt_ge_cases n 8); [by rewrite !(Z.testbit_neg_r _ (n - 8)), andb_false_r by lia|].
  rewrite Z.land_spec, Z.shiftr_spec by lia. by replace (n - 8 + 8) with n by lia.
Qed.

(** The count of the first interval. *)
Lemma count_empty p r : range_ok p -> (Z.land (word p + 65536 * r) 65280 =? 0) = (p.2 =? 0).
Proof.
  intros H. pose proof (word_range p H). rewrite land_65280. unfold range_ok, word in *.
  assert ((p.1 + 256 * p.2 + 65536 * r) / 256 = p.2 + 256 * r) as -> by (symmetry; apply (Z.div_unique_pos _ _ _ p.1); lia).
  assert ((p.2 + 256 * r) mod 256 = p.2) as -> by (symmetry; apply (Z.mod_unique_pos _ _ r); lia).
  destruct (Z.eqb_spec p.2 0), (Z.eqb_spec (p.2 * 256) 0); lia.
Qed.

(** ** Iterating *)

Definition ranges_ok (rs : ranges) : Prop := (length rs <= 3)%nat /\ Forall range_ok rs /\ Forall (fun p => 0 < p.2) rs.

Lemma pack_range rs : (length rs <= 3)%nat -> Forall range_ok rs -> 0 <= pack rs < 2 ^ 48.
Proof.
  intros Hl H. destruct rs as [|p [|q [|r [|]]]]; simpl in Hl; try lia; cbn [pack]; rewrite ?Forall_cons in H; destruct_and?;
    repeat match goal with K : range_ok _ |- _ => apply word_range in K end; lia.
Qed.

Lemma idx_first p r : range_ok p -> fd_txn_acct_iter_idx (word p + 65536 * r) = p.1.
Proof.
  intros H. unfold fd_txn_acct_iter_idx, word, range_ok in *. change 255 with (Z.ones 8). rewrite Z.land_ones by lia.
  symmetry. apply (Z.mod_unique_pos _ _ (p.2 + 256 * r)); [lia|]. change (2 ^ 8) with 256. lia.
Qed.

Lemma next_first s c rs : ranges_ok ((s, c) :: rs) ->
  fd_txn_acct_iter_next (pack ((s, c) :: rs)) = pack (if 1 <? c then (s + 1, c - 1) :: rs else rs).
Proof.
  intros (Hl & Hok & Hc). pose proof (pack_range _ Hl Hok) as Hr. apply Forall_cons in Hok as [Hp Hrs]. apply Forall_cons in Hc as [Hc _].
  simpl in Hc. simpl in Hl. pose proof (pack_range rs ltac:(lia) Hrs) as Hrr. cbn [pack] in *.
  unfold fd_txn_acct_iter_next, word, range_ok in *. cbn [fst snd] in *. rewrite (u64_small (_ + 1)), u64_small by (unfold is_u64, ULONG_MAX; lia).
  replace (s + 256 * c + 65536 * pack rs + 1 - 256) with (word (s + 1, c - 1) + 65536 * pack rs) by (unfold word; simpl; lia).
  rewrite count_empty by (unfold range_ok; simpl; lia). cbn [snd]. destruct (Z.ltb_spec 1 c); [by rewrite (proj2 (Z.eqb_neq _ _)) by lia|].
  rewrite (proj2 (Z.eqb_eq _ _)) by lia. cbn [negb]. rewrite Z.shiftr_div_pow2 by lia. change (2 ^ 16) with 65536. symmetry.
  apply (Z.div_unique_pos _ _ _ (word (s + 1, c - 1))); unfold word; simpl; lia.
Qed.

Lemma pack_zero rs : ranges_ok rs -> pack rs = 0 -> rs = [].
Proof.
  intros (Hl & Hok & Hc) E. destruct rs as [|p rs]; [done|]. apply Forall_cons in Hok as [Hp Hrs]. apply Forall_cons in Hc as [Hc _].
  simpl in Hl. pose proof (pack_range rs ltac:(lia) Hrs). cbn [pack] in E. unfold word, range_ok in *. lia.
Qed.

Lemma iterate_ok n : forall rs acc, ranges_ok rs -> length (indices rs) = n -> forall fuel, (n < fuel)%nat ->
  loop iter_step fuel (pack rs, acc) = Ok (rev acc ++ indices rs).
Proof.
  induction n as [|n IH]; intros rs acc H Hn fuel Hf; (destruct fuel as [|fuel]; [lia|]); rewrite loop_S; unfold iter_step at 1, fd_txn_acct_iter_end; cbv beta iota.
  - assert (rs = []) as ->. { destruct rs as [|[s c] rs]; [done|]. destruct H as (_ & _ & Hc). apply Forall_cons in Hc as [Hc _]. unfold indices in Hn. cbn in *. rewrite length_app, length_seqZ in Hn. lia. }
    cbn. by rewrite app_nil_r.
  - destruct (Z.eqb_spec (pack rs) 0) as [E|_]; [apply pack_zero in E; [|done]; by subst|].
    destruct rs as [|[s c] rs]; [done|]. rewrite next_first by done. destruct H as (Hl & Hok & Hc).
    pose proof Hok as Hok'. apply Forall_cons in Hok' as [Hp Hrs]. pose proof Hc as Hc'. apply Forall_cons in Hc' as [Hc1 Hcs]. cbn [fst snd] in *. cbn [pack]. rewrite idx_first by done. cbn [fst].
    assert (Es : indices ((s, c) :: rs) = s :: indices (if 1 <? c then (s + 1, c - 1) :: rs else rs)).
    { unfold indices. cbn [mbind list_bind fst snd]. rewrite seqZ_cons by lia. cbn [app]. f_equal. destruct (Z.ltb_spec 1 c); cbn [mbind list_bind fst snd].
      - by rewrite Z.sub_1_r.
      - by rewrite seqZ_nil by lia. }
    rewrite Es in *. simpl in Hn. rewrite IH; [|..|lia|lia].
    + simpl. by rewrite <- app_assoc.
    + simpl in Hl. unfold ranges_ok, range_ok in *. cbn [fst snd] in *. destruct (Z.ltb_spec 1 c); [|split_and!; [lia|done|done]].
      split_and!; [simpl; lia| |]; constructor; simpl; (done || lia).
Qed.

(** ** The intervals of the categories *)

(** The intervals that remain are the nonempty ones. *)
Ltac nonempty_ranges :=
  split; [cbn; lia|]; split;
  [split; [simpl; lia|]; rewrite ?Forall_cons, ?Forall_nil; unfold range_ok in *; lia
  |cbn; repeat match goal with H : snd ?x = 0, K : forall x, _ |- _ => rewrite (K x H) end; rewrite ?app_nil_r].

Lemma compress_ok p q r : range_ok p -> range_ok q -> range_ok r ->
  exists rs, compress (word p) (word q) (word r) = pack rs /\ ranges_ok rs /\ indices rs = indices [p; q; r].
Proof.
  intros Hp Hq Hr. pose proof (word_range p Hp). pose proof (word_range q Hq). pose proof (word_range r Hr).
  assert (Hempty : forall x, range_ok x -> (Z.land (word x) 65280 =? 0) = (x.2 =? 0)).
  { intros x Hx. rewrite <- (count_empty x 0 Hx). by rewrite Z.mul_0_r, Z.add_0_r. }
  assert (Hpack : forall a b c, 0 <= a < 65536 -> 0 <= b < 65536 -> 0 <= c < 65536 ->
    Z.lor (Z.lor a (u64 (Z.shiftl b 16))) (u64 (Z.shiftl c 32)) = a + 65536 * b + 65536 * 65536 * c).
  { intros a b c Ha Hb Hc. rewrite !Z.shiftl_mul_pow2 by lia. rewrite (u64_small (b * _)), (u64_small (c * _)) by (unfold is_u64, ULONG_MAX; lia).
    rewrite (lor_add a b 16) by lia. rewrite (lor_add _ c 32) by lia. lia. }
  unfold compress. rewrite !Hempty by done.
  assert (Hsq : forall x, x.2 = 0 -> seqZ x.1 x.2 = []) by (intros [a b] ->; done).
  destruct (Z.eqb_spec r.2 0) as [Er|Er], (Z.eqb_spec q.2 0) as [Eq|Eq], (Z.eqb_spec p.2 0) as [Ep|Ep]; rewrite Hpack by lia.
  - by exists []; nonempty_ranges.
  - by exists [p]; nonempty_ranges.
  - by exists [q]; nonempty_ranges.
  - by exists [p; q]; nonempty_ranges.
  - by exists [r]; nonempty_ranges.
  - by exists [p; r]; nonempty_ranges.
  - by exists [q; r]; nonempty_ranges.
  - by exists [p; q; r]; nonempty_ranges.
Qed.

(** After [k] categories, the last of them selected or not, which ended at [e]. *)
Record collected (k : Z) (prev : bool) (e : Z) (rs : ranges) (st : list Z * Z) : Prop := mk_collected {
  co_len : 2 * len rs <= k + Z.b2z prev;
  co_ok : Forall range_ok rs;
  co_control : st.1 = (word <$> rs) ++ replicate (3 - length rs) 0;
  co_i : st.2 = u64 (len rs - 1);
  co_prev : prev = true -> exists rs0 s0 c0, rs = rs0 ++ [(s0, c0)] /\ s0 + c0 = e;
}.

Lemma include_step k prev s rs st include_cat f c : collected k prev s rs st -> prev = includes include_cat (Z.shiftr f 1) -> 0 <= k <= 5 ->
  0 <= s -> 0 <= c -> s + c <= 128 ->
  exists rs' st', INCLUDE_RANGE include_cat f s c st = Ok st' /\ collected (k + 1) (includes include_cat f) (s + c) rs' st' /\
    indices rs' = indices rs ++ (if includes include_cat f then seqZ s c else []).
Proof.
  intros [Hl Hok Hc Hi Hprev] Hp Hk Hs Hcnt Hsc. destruct st as [control i]. cbn [fst snd] in *. unfold INCLUDE_RANGE. rewrite <- Hp. pose proof (len_nonneg rs).
  destruct (includes include_cat f).
  2:{ exists rs, (control, i). split; [done|]. split; [|by rewrite app_nil_r]. constructor; simpl; try done. destruct prev; simpl in *; lia. }
  assert (Hshift : u64 (Z.shiftl c 8) = 256 * c) by (rewrite Z.shiftl_mul_pow2, u64_small by (unfold is_u64, ULONG_MAX; lia); lia).
  rewrite Hshift. destruct prev; cbn [mbind res_bind].
  - destruct (Hprev eq_refl) as (rs0 & s0 & c0 & -> & He). apply Forall_app in Hok as [Hok0 Hlast]. apply Forall_cons in Hlast as [[H1 [H2 H3]] _]. cbn [fst snd] in *.
    rewrite len_app in *. change (len [(s0, c0)]) with 1 in *. pose proof (len_nonneg rs0). replace (len rs0 + 1 - 1) with (len rs0) in Hi by lia.
    simpl Z.b2z in Hl. rewrite u64_small in Hi by (unfold is_u64, ULONG_MAX; lia). subst i.
    rewrite fmap_app, <- app_assoc in Hc. rewrite length_app in Hc.
    assert (Hget : control !! Z.to_nat (len rs0) = Some (word (s0, c0))).
    { rewrite to_nat_len, Hc, lookup_app_r by (rewrite length_fmap; lia). by rewrite length_fmap, Nat.sub_diag. }
    unfold aget. rewrite (proj2 (Z.ltb_ge _ _)) by lia. rewrite Hget. cbn [deref mbind res_bind].
    rewrite aset_ok by (apply lookup_lt_Some in Hget; unfold len in *; lia). cbn [mbind res_bind].
    exists (rs0 ++ [(s0, c0 + c)]). eexists. split; [done|]. split.
    + constructor; cbn [fst snd].
      * rewrite len_app. change (len [(s0, c0 + c)]) with 1. simpl. lia.
      * apply Forall_app. split; [done|]. repeat constructor; simpl; lia.
      * rewrite to_nat_len, Hc, fmap_app, <- app_assoc, length_app. rewrite insert_app_r_alt by (rewrite length_fmap; lia).
        rewrite length_fmap, Nat.sub_diag. cbn. f_equal. f_equal. unfold word. simpl. rewrite u64_small by (unfold is_u64, ULONG_MAX; lia). lia.
      * rewrite len_app. change (len [(s0, c0 + c)]) with 1. replace (len rs0 + 1 - 1) with (len rs0) by lia. rewrite u64_small by (unfold is_u64, ULONG_MAX; lia). done.
      * intros _. exists rs0, s0, (c0 + c). split; [done|lia].
    + unfold indices. rewrite !bind_app. cbn. rewrite !app_nil_r, <- app_assoc. f_equal. rewrite seqZ_app by lia. by rewrite He.
  - simpl Z.b2z in Hl. assert (Ei : u64 (i + 1) = len rs).
    { subst i. unfold u64. rewrite Zplus_mod_idemp_l. rewrite Z.mod_small; lia. }
    rewrite Ei. assert (Hlc : len control = 3) by (rewrite Hc, len_app; unfold len in *; rewrite length_fmap, length_replicate; lia).
    rewrite aset_ok by (unfold len in *; lia). cbn [mbind res_bind]. unfold aget. rewrite (proj2 (Z.ltb_ge _ _)) by lia.
    rewrite list_lookup_insert_eq by (unfold len in *; lia). cbn [deref mbind res_bind]. rewrite aset_ok by (rewrite length_insert; unfold len in *; lia). cbn [mbind res_bind].
    exists (rs ++ [(s, c)]). eexists. split; [done|]. split.
    + constructor; cbn [fst snd].
      * rewrite len_app. change (len [(s, c)]) with 1. simpl. lia.
      * apply Forall_app. split; [done|]. repeat constructor; simpl; lia.
      * rewrite list_insert_insert_eq, to_nat_len, Hc, fmap_app, <- app_assoc. rewrite insert_app_r_alt by (rewrite length_fmap; lia).
        rewrite length_fmap, Nat.sub_diag, length_app. f_equal. replace (3 - length rs)%nat with (S (3 - (length rs + 1))) by (unfold len in *; lia). cbn.
        f_equal. unfold word. simpl. apply u64_small. unfold is_u64, ULONG_MAX. lia.
      * rewrite len_app. change (len [(s, c)]) with 1. replace (len rs + 1 - 1) with (len rs) by lia. rewrite u64_small by (unfold is_u64, ULONG_MAX; lia). done.
      * intros _. exists rs, s, c. split; [done|lia].
    + unfold indices. rewrite !bind_app. cbn. by rewrite !app_nil_r.
Qed.

(** The accounts of an interval of one category. *)
Lemma filter_category txn include_cat f s c : (forall idx, s <= idx < s + c -> category txn idx = f) ->
  filter (in_categories txn include_cat) (seqZ s c) = if includes include_cat f then seqZ s c else [].
Proof.
  intros H. assert (Hall : Forall (fun idx => category txn idx = f) (seqZ s c)) by (apply Forall_forall; intros idx Hi%elem_of_seqZ; by apply H).
  clear H. induction Hall as [|idx l Hi _ IH]; [by destruct (includes _ _)|]. destruct (includes include_cat f) eqn:E.
  - rewrite filter_cons_True by (unfold in_categories; by rewrite Hi). by rewrite IH.
  - rewrite filter_cons_False by (unfold in_categories; rewrite Hi; by rewrite E). done.
Qed.

Section accounts.
Context (txn : fd_txn_t) (payload_sz : Z) (txn_ok : txn_wf payload_sz txn).

Let s := signature_cnt txn.
Let q := readonly_signed_cnt txn.
Let r := readonly_unsigned_cnt txn.
Let a := acct_addr_cnt txn.
Let t := addr_table_adtl_cnt txn.
Let u := addr_table_adtl_writable_cnt txn.

Lemma counts_ok : 0 <= q /\ q < s /\ 0 <= r /\ r <= a - s /\ 0 <= u <= t /\ a + t <= 128.
Proof using txn_ok. destruct txn_ok as [_ (? & _) ? _ _ _ ? _ _ _]. unfold FD_TXN_ACCT_ADDR_MAX in *. unfold s, q, r, a, t, u. lia. Qed.

(** The six intervals. *)
Definition selected (include_cat : Z) : list Z :=
  (if includes include_cat 1 then seqZ 0 (s - q) else []) ++ (if includes include_cat 2 then seqZ (s - q) q else []) ++
  (if includes include_cat 4 then seqZ s (a - r - s) else []) ++ (if includes include_cat 8 then seqZ (a - r) r else []) ++
  (if includes include_cat 16 then seqZ a u else []) ++ (if includes include_cat 32 then seqZ (a + u) (t - u) else []).

Lemma accounts_selected include_cat : accounts txn include_cat = selected include_cat.
Proof using txn_ok.
  destruct counts_ok as (? & ? & ? & ? & ? & ?). unfold accounts, selected. fold a t.
  replace (a + t) with ((s - q) + (q + ((a - r - s) + (r + (u + (t - u)))))) by lia. rewrite !seqZ_app by lia. rewrite !filter_app.
  assert (Hcat : forall idx, category txn idx = if idx <? s - q then 1 else if idx <? s then 2 else if idx <? a - r then 4 else if idx <? a then 8 else if idx <? a + u then 16 else 32) by done.
  rewrite (filter_category _ _ 1), (filter_category _ _ 2), (filter_category _ _ 4), (filter_category _ _ 8), (filter_category _ _ 16), (filter_category _ _ 32);
    try (intros idx Hi; rewrite Hcat; repeat case_match; rewrite ?Z.ltb_lt, ?Z.ltb_ge in *; lia).
  by replace (0 + (s - q)) with (s - q) by lia; replace (s - q + q) with s by lia; replace (s + (a - r - s)) with (a - r) by lia; replace (a - r + r) with a by lia.
Qed.

Lemma init_ok include_cat : exists rs, fd_txn_acct_iter_init txn include_cat = Ok (pack rs) /\ ranges_ok rs /\ indices rs = selected include_cat.
Proof using txn_ok.
  destruct counts_ok as (? & ? & ? & ? & ? & ?). unfold fd_txn_acct_iter_init. fold s q r a t u.
  rewrite (u64_small (s - q)), (u64_small (a - r)), (u64_small (a - r - s)), (u64_small (a + u)), (u64_small (t - u)) by (unfold is_u64, ULONG_MAX; lia).
  assert (C0 : collected 0 false 0 [] ([0; 0; 0], ULONG_MAX)) by (constructor; done || (unfold len; simpl; lia)).
  destruct (include_step 0 false 0 _ _ include_cat 1 (s - q) C0) as (rs1 & st1 & E1 & C1 & I1); [unfold includes; by rewrite Z.land_0_r|lia..|].
  destruct (include_step _ _ _ _ _ include_cat 2 q C1) as (rs2 & st2 & E2 & C2 & I2); [done|lia..|].
  destruct (include_step _ _ _ _ _ include_cat 4 (a - r - s) C2) as (rs3 & st3 & E3 & C3 & I3); [done|lia..|].
  destruct (include_step _ _ _ _ _ include_cat 8 r C3) as (rs4 & st4 & E4 & C4 & I4); [done|lia..|].
  destruct (include_step _ _ _ _ _ include_cat 16 u C4) as (rs5 & st5 & E5 & C5 & I5); [done|lia..|].
  destruct (include_step _ _ _ _ _ include_cat 32 (t - u) C5) as (rs6 & st6 & E6 & C6 & I6); [done|lia..|].
  replace (0 + (s - q)) with (s - q) in * by lia. replace (s - q + q) with s in * by lia. replace (s + (a - r - s)) with (a - r) in * by lia.
  replace (a - r + r) with a in * by lia. unfold FD_TXN_ACCT_CAT_WRITABLE_SIGNER, FD_TXN_ACCT_CAT_READONLY_SIGNER, FD_TXN_ACCT_CAT_WRITABLE_NONSIGNER_IMM,
    FD_TXN_ACCT_CAT_READONLY_NONSIGNER_IMM, FD_TXN_ACCT_CAT_WRITABLE_ALT, FD_TXN_ACCT_CAT_READONLY_ALT.
  rewrite E1. cbn [mbind res_bind]. rewrite E2. cbn [mbind res_bind]. rewrite E3. cbn [mbind res_bind]. rewrite E4. cbn [mbind res_bind]. rewrite E5.
  cbn [mbind res_bind]. rewrite E6. cbn [mbind res_bind].
  destruct st6 as [control i]. destruct C6 as [Hl Hok Hc _ _]. cbn [fst snd] in *. assert (Hz : range_ok (0, 0)) by (unfold range_ok; simpl; lia).
  assert (Hsel : indices rs6 = selected include_cat) by (unfold selected; rewrite I6, I5, I4, I3, I2, I1; cbn; by rewrite <- !app_assoc).
  assert (Hl3 : len rs6 <= 3) by (destruct (includes include_cat 32); simpl in Hl; lia). rewrite <- Hsel.
  destruct rs6 as [|x [|y [|z [|]]]]; [..|unfold len in Hl3; simpl in Hl3; lia]; rewrite ?Forall_cons in Hok; subst control; cbn.
  - destruct (compress_ok (0, 0) (0, 0) (0, 0) Hz Hz Hz) as (rs & Ec & ? & E). exists rs. by rewrite E, <- Ec.
  - destruct (compress_ok x (0, 0) (0, 0) ltac:(apply Hok) Hz Hz) as (rs & Ec & ? & E). exists rs. by rewrite E, <- Ec.
  - destruct (compress_ok x y (0, 0) ltac:(apply Hok) ltac:(apply Hok) Hz) as (rs & Ec & ? & E). exists rs. by rewrite E, <- Ec.
  - destruct (compress_ok x y z ltac:(apply Hok) ltac:(apply Hok) ltac:(apply Hok)) as (rs & Ec & ? & E). exists rs. by rewrite E, <- Ec.
Qed.

Lemma selected_length include_cat : len (selected include_cat) = fd_txn_account_cnt txn include_cat /\ len (selected include_cat) <= 128.
Proof using txn_ok.
  destruct counts_ok as (? & ? & ? & ? & ? & ?). unfold selected, fd_txn_account_cnt. fold s q r a t u.
  unfold FD_TXN_ACCT_CAT_WRITABLE_SIGNER, FD_TXN_ACCT_CAT_READONLY_SIGNER, FD_TXN_ACCT_CAT_WRITABLE_NONSIGNER_IMM,
    FD_TXN_ACCT_CAT_READONLY_NONSIGNER_IMM, FD_TXN_ACCT_CAT_WRITABLE_ALT, FD_TXN_ACCT_CAT_READONLY_ALT.
  rewrite (u64_small (s - q)), (u64_small (a - s)), (u64_small (a - s - r)), (u64_small (t - u)) by (unfold is_u64, ULONG_MAX; lia).
  assert (Hseq : forall b x n, 0 <= n -> len (if b : bool then seqZ x n else []) = if b then n else 0).
  { intros [] x n Hn; [|done]. unfold len. rewrite length_seqZ. lia. }
  rewrite !len_app, !Hseq by lia.
  destruct (includes include_cat 1), (includes include_cat 2), (includes include_cat 4), (includes include_cat 8), (includes include_cat 16), (includes include_cat 32);
    repeat match goal with |- context [u64 ?x] => lazymatch x with context [u64 _] => fail | _ => rewrite (u64_small x) by (unfold is_u64, ULONG_MAX; lia) end end; lia.
Qed.

End accounts.

(** ** Properties *)

(** The permissions of a known category. *)
Ltac permissions :=
  rewrite ?Z.ltb_lt, ?Z.ltb_ge, ?Z.leb_le, ?Z.leb_gt in *; try lia;
  repeat match goal with |- context [includes ?a ?b] => let v := eval vm_compute in (includes a b) in change (includes a b) with v end;
  split; lia.

(** C26. For every set of categories, iterating over the accounts of a parsed
    transaction ends after visiting exactly the accounts of these categories, in
    order, as many as [fd_txn_account_cnt] says; and the permissions of an
    account are those of its category. *)
Theorem txn_accounts_correct (txn : fd_txn_t) (payload_sz include_cat : Z) :
  txn_wf payload_sz txn ->
  visited txn include_cat = Ok (accounts txn include_cat) /\ len (accounts txn include_cat) = fd_txn_account_cnt txn include_cat /\
  forall idx, 0 <= idx < acct_addr_cnt txn + addr_table_adtl_cnt txn ->
    fd_txn_is_writable txn idx = includes FD_TXN_ACCT_CAT_WRITABLE (category txn idx) /\
    fd_txn_is_signer txn idx = includes FD_TXN_ACCT_CAT_SIGNER (category txn idx).
Proof.
  intros W. rewrite (accounts_selected _ _ W). destruct (selected_length _ _ W include_cat) as [Hl H128]. split; [|split; [done|]].
  - unfold visited. destruct (init_ok _ _ W include_cat) as (rs & -> & Hrs & E). cbn [mbind res_bind].
    rewrite (iterate_ok _ rs [] Hrs eq_refl); [by rewrite E|]. rewrite E. unfold len in H128. lia.
  - intros idx Hi. destruct (counts_ok _ _ W) as (? & ? & ? & ? & ? & ?). destruct (tw_tables _ _ W) as (_ & _ & Hlegacy). pose proof (tw_version _ _ W) as Hv.
    unfold fd_txn_is_writable, fd_txn_is_signer, category. destruct Hv as [Hv|Hv]; rewrite Hv in *.
    + destruct (Hlegacy eq_refl) as [_ Et]. cbn [Z.eqb FD_TXN_V0 FD_TXN_VLEGACY andb]. repeat case_match; permissions.
    + cbn [Z.eqb FD_TXN_V0 andb]. repeat case_match; permissions.
Qed.

Lemma txn_accounts_correct_witness :
  visited (describe example_txn) 26 = Ok [2; 3] /\
  visited (describe example_txn) 26 = Ok (accounts (describe example_txn) 26) /\
  len (accounts (describe example_txn) 26) = fd_txn_account_cnt (describe example_txn) 26 /\
  forall idx, 0 <= idx < acct_addr_cnt (describe example_txn) + addr_table_adtl_cnt (describe example_txn) ->
    fd_txn_is_writable (describe example_txn) idx = includes FD_TXN_ACCT_CAT_WRITABLE (category (describe example_txn) idx) /\
    fd_txn_is_signer (describe example_txn) idx = includes FD_TXN_ACCT_CAT_SIGNER (category (describe example_txn) idx).
Proof.
  split; [vm_compute; reflexivity|]. apply (txn_accounts_correct (describe example_txn) (len (encode_txn example_txn)) 26).
  apply example_wf.
Defined.
