(* ===== verification/TxnGenerate.v ===== *)
(** * Generating transactions ([src/flamenco/txn/fd_txn_generate.c])

    A transaction is laid out in a payload buffer, with room for the
    signatures, and instructions are added behind it one by one.  [write_ptr]
    is an offset into the payload. *)

From S2P Require Import Prelude Bytes CompactU16 Txn TxnParse TxnFormat TxnCorrect.

#[local] Open Scope Z_scope.

Record fd_txn_accounts_t := mk_accounts {
  a_signature_cnt : Z;
  a_readonly_signed_cnt : Z;
  a_readonly_unsigned_cnt : Z;
  a_acct_cnt : Z;
  signers_w : mem;
  signers_r : mem;
  non_signers_w : mem;
  non_signers_r : mem;
}.

(** The fields [fd_txn_base_generate] assigns; the others keep their contents. *)
Definition base_meta (m : fd_txn_t) (a : fd_txn_accounts_t) (message_off_ acct_addr_off_ recent_blockhash_off_ : Z) : fd_txn_t :=
  mk_txn (transaction_version m) (signature_cnt m) 1 message_off_ (a_readonly_signed_cnt a) (a_readonly_unsigned_cnt a)
    (a_acct_cnt a) acct_addr_off_ recent_blockhash_off_ (addr_table_lookup_cnt m) (addr_table_adtl_writable_cnt m)
    (addr_table_adtl_cnt m) 0 (instr m) (address_tables m).

(** The return value, the descriptor and the payload. *)
Definition fd_txn_base_generate (txn_meta : fd_txn_t) (out_txn_payload : mem) (num_signatures : Z)
    (accounts : fd_txn_accounts_t) (opt_recent_blockhash : option mem) : res (Z * fd_txn_t * mem) :=
  _ ← FD_TEST (num_signatures <=? FD_TXN_SIG_MAX);
  p ← store1 out_txn_payload 0 (u8 num_signatures);
  let message_off_ := u16 (num_signatures * FD_TXN_SIGNATURE_SZ + 1) in
  _ ← FD_TEST (a_acct_cnt accounts <? FD_TXN_ACCT_ADDR_MAX);
  let acct_addr_off_ := u16 (message_off_ + 3 + 1) in
  let recent_blockhash_off_ := u16 (acct_addr_off_ + a_acct_cnt accounts * FD_TXN_ACCT_ADDR_SZ) in
  let meta := base_meta txn_meta accounts message_off_ acct_addr_off_ recent_blockhash_off_ in
  (* message header *)
  let w := message_off_ in
  p ← memcpy p w (bytes [a_signature_cnt accounts; a_readonly_signed_cnt accounts; a_readonly_unsigned_cnt accounts]) 3;
  let w := w + 3 in
  p ← store1 p w (u8 (a_acct_cnt accounts));
  let w := w + 1 in
  (* accounts *)
  let signers_write_sz := u64 (FD_TXN_ACCT_ADDR_SZ * u64 (a_signature_cnt accounts - a_readonly_signed_cnt accounts)) in
  p ← memcpy p w (signers_w accounts) signers_write_sz;
  let w := w + signers_write_sz in
  p ← memcpy p w (signers_r accounts) (FD_TXN_ACCT_ADDR_SZ * a_readonly_signed_cnt accounts);
  let w := w + FD_TXN_ACCT_ADDR_SZ * a_readonly_signed_cnt accounts in
  let non_signers_write_sz :=
    u64 (FD_TXN_ACCT_ADDR_SZ * u64 (a_acct_cnt accounts - a_readonly_unsigned_cnt accounts - a_signature_cnt accounts)) in
  p ← memcpy p w (non_signers_w accounts) non_signers_write_sz;
  let w := w + non_signers_write_sz in
  p ← memcpy p w (non_signers_r accounts) (FD_TXN_ACCT_ADDR_SZ * a_readonly_unsigned_cnt accounts);
  let w := w + FD_TXN_ACCT_ADDR_SZ * a_readonly_unsigned_cnt accounts in
  _ ← FD_TEST (u16 w =? recent_blockhash_off_);
  (* recent blockhash *)
  p ← memcpy p w (match opt_recent_blockhash with Some h => h | None => bytes (replicate 32 0) end) FD_TXN_BLOCKHASH_SZ;
  let w := w + FD_TXN_BLOCKHASH_SZ in
  Ok (w, meta, p).

(** [fd_cu16_enc( val, payload + w )] *)
Definition enc_at (p : mem) (w val : Z) : res (Z * mem) :=
  tail ← advance p w;
  '(sz, tail) ← fd_cu16_enc val tail;
  Ok (sz, take (Z.to_nat w) p ++ tail).

Definition fd_txn_instr_meta_generate (program_id_ acct_cnt_ data_sz_ acct_off_ data_off_ : Z) : fd_txn_instr_t :=
  mk_instr program_id_ acct_cnt_ data_sz_ acct_off_ data_off_.

(** The descriptor with the number of instructions and the last of them set. *)
Definition meta_add_instr (m : fd_txn_t) (cnt : Z) (x : fd_txn_instr_t) : fd_txn_t :=
  mk_txn (transaction_version m) (signature_cnt m) (signature_off m) (message_off m) (readonly_signed_cnt m)
    (readonly_unsigned_cnt m) (acct_addr_cnt m) (acct_addr_off m) (recent_blockhash_off m) (addr_table_lookup_cnt m)
    (addr_table_adtl_writable_cnt m) (addr_table_adtl_cnt m) cnt (take (Z.to_nat (cnt - 1)) (instr m) ++ [x])
    (address_tables m).

Definition fd_txn_add_instr (txn_meta : fd_txn_t) (out_txn_payload : mem) (program_id_ : Z) (accounts : mem) (accounts_sz : Z)
    (instr_buf : mem) (instr_buf_sz : Z) : res (Z * fd_txn_t * mem) :=
  _ ← FD_TEST (instr_cnt txn_meta <? FD_TXN_INSTR_MAX);
  _ ← FD_TEST (negb (recent_blockhash_off txn_meta =? 0));
  let instr_start := recent_blockhash_off txn_meta + FD_TXN_BLOCKHASH_SZ in
  let cnt := u16 (instr_cnt txn_meta + 1) in
  '(compact_instr_cnt_sz, p) ← enc_at out_txn_payload instr_start cnt;
  _ ← FD_TEST (compact_instr_cnt_sz =? 1);
  w ← (if 1 <? cnt then x ← aget (instr txn_meta) (cnt - 2); Ok (data_off x + data_sz x)
       else Ok (instr_start + compact_instr_cnt_sz));
  p ← store1 p w program_id_;
  let w := w + 1 in
  '(compact_accts_len_sz, p) ← enc_at p w (u16 accounts_sz);
  let w := w + compact_accts_len_sz in
  let acct_off_ := u16 w in
  p ← memcpy p w accounts accounts_sz;
  let w := w + accounts_sz in
  let data_sz_ := u16 instr_buf_sz in
  '(compact_data_len_sz, p) ← enc_at p w data_sz_;
  let w := w + compact_data_len_sz in
  let data_off_ := u16 w in
  p ← memcpy p w instr_buf data_sz_;
  let w := w + data_sz_ in
  let x := fd_txn_instr_meta_generate program_id_ (u16 accounts_sz) data_sz_ acct_off_ data_off_ in
  Ok (w, meta_add_instr txn_meta cnt x, p).

(** ** Writing bytes *)

(** [p'] is [p] with the bytes [xs] at offset [w]. *)
Definition wrote (p : mem) (w : Z) (xs : list Z) (p' : mem) : Prop :=
  length p' = length p /\ region p' w (len xs) = bytes xs /\
  forall off n, 0 <= off -> 0 <= n -> off + n <= w \/ w + len xs <= off -> region p' off n = region p off n.

Lemma wrote_memcpy p w src xs n : n = len xs -> 0 <= w -> w + n <= len p -> (exists rest, src = bytes xs ++ rest) ->
  exists p', memcpy p w src n = Ok p' /\ wrote p w xs p'.
Proof.
  intros -> Hw Hl (rest & ->). pose proof (len_nonneg xs).
  assert (E : memcpy p w (bytes xs ++ rest) (len xs) = Ok (take (Z.to_nat w) p ++ take (Z.to_nat (len xs)) (bytes xs ++ rest) ++ drop (Z.to_nat (w + len xs)) p)).
  { apply memcpy_ok; [done|done|done|]. rewrite length_app, bytes_length. unfold len. lia. }
  eexists. split; [done|]. split; [by apply memcpy_length in E|]. split.
  - rewrite (region_memcpy _ _ _ _ _ E), to_nat_len, take_app_length' by (symmetry; apply bytes_length). done.
  - intros off n Ho Hn Hd. by apply (region_memcpy_other _ _ _ _ _ _ _ E).
Qed.

Lemma wrote_app p w xs p1 ys p2 : 0 <= w -> wrote p w xs p1 -> wrote p1 (w + len xs) ys p2 -> wrote p w (xs ++ ys) p2.
Proof.
  intros Hw (L1 & R1 & O1) (L2 & R2 & O2). pose proof (len_nonneg xs). pose proof (len_nonneg ys). split; [congruence|]. rewrite len_app. split.
  - rewrite <- region_app, (O2 w (len xs)), R1, R2 by lia. by rewrite bytes_app.
  - intros off n Ho Hn Hd. rewrite (O2 off n), (O1 off n) by lia. done.
Qed.

Lemma wrote_store1 p w b : 0 <= w < len p -> exists p', store1 p w b = Ok p' /\ wrote p w [b] p'.
Proof. intros Hw. apply (wrote_memcpy p w [Some b] [b]); [done|lia|lia|by exists []]. Qed.

Lemma wrote_enc p w v : is_u16 v -> 0 <= w -> w + len (cu16 v) <= len p -> exists p', enc_at p w v = Ok (len (cu16 v), p') /\ wrote p w (cu16 v) p'.
Proof.
  intros Hv Hw Hl. destruct (wrote_memcpy p w (bytes (cu16 v)) (cu16 v) _ eq_refl Hw Hl) as (p' & E & W); [by exists []; rewrite app_nil_r|].
  exists p'. split; [|done]. pose proof (len_cu16 _ Hv). rewrite memcpy_ok in E by (rewrite ?bytes_length; unfold len in *; lia). injection E as <-.
  unfold enc_at. rewrite advance_ok by (unfold len in *; lia). cbn [mbind res_bind]. rewrite cu16_enc_ok by (done || (rewrite length_drop; unfold len in *; lia)).
  cbn [mbind res_bind]. f_equal. f_equal. f_equal. rewrite take_ge by (rewrite bytes_length; unfold len; lia). rewrite drop_drop. do 2 f_equal. unfold len. lia.
Qed.

(** ** The layout of a legacy transaction *)

Definition message_start (t : transaction) : Z := 1 + FD_TXN_SIGNATURE_SZ * len (t_signatures t).
Definition base_bytes (t : transaction) : list Z :=
  [len (t_signatures t); t_ro_signed t; t_ro_unsigned t] ++ [len (t_addrs t)] ++ concat (t_addrs t) ++ t_blockhash t.
Definition instr_start (t : transaction) : Z := message_start t + len (base_bytes t) + 1.

(** The signatures, the addresses and the blockhash fit the format. *)
Record template_ok (t : transaction) : Prop := mk_template_ok {
  te_sigs : 1 <= len (t_signatures t) <= FD_TXN_SIG_MAX;
  te_sig : Forall (byte_string FD_TXN_SIGNATURE_SZ) (t_signatures t);
  te_ro_signed : 0 <= t_ro_signed t < len (t_signatures t);
  te_ro_unsigned : 0 <= t_ro_unsigned t <= len (t_addrs t) - len (t_signatures t);
  te_addrs : len (t_addrs t) < FD_TXN_ACCT_ADDR_MAX;
  te_addr : Forall (byte_string FD_TXN_ACCT_ADDR_SZ) (t_addrs t);
  te_blockhash : byte_string FD_TXN_BLOCKHASH_SZ (t_blockhash t);
}.

(** The caller's lists of addresses are those of the transaction. *)
Definition addresses (p : mem) (l : list (list Z)) : Prop := exists rest, p = bytes (concat l) ++ rest.

Record accounts_of (t : transaction) (a : fd_txn_accounts_t) (sw sr nw nr : list (list Z)) : Prop := mk_accounts_of {
  ao_addrs : t_addrs t = sw ++ sr ++ nw ++ nr;
  ao_sig : a_signature_cnt a = len (t_signatures t) /\ len sw + len sr = len (t_signatures t);
  ao_ro_signed : a_readonly_signed_cnt a = t_ro_signed t /\ len sr = t_ro_signed t;
  ao_ro_unsigned : a_readonly_unsigned_cnt a = t_ro_unsigned t /\ len nr = t_ro_unsigned t;
  ao_cnt : a_acct_cnt a = len (t_addrs t);
  ao_lists : addresses (signers_w a) sw /\ addresses (signers_r a) sr /\ addresses (non_signers_w a) nw /\ addresses (non_signers_r a) nr;
}.

Lemma base_length t : template_ok t -> len (base_bytes t) = 36 + 32 * len (t_addrs t).
Proof.
  intros H. unfold base_bytes. rewrite !len_app, (len_concat _ _ (te_addr _ H)). destruct (te_blockhash _ H) as [-> _].
  change (len [len (t_signatures t); t_ro_signed t; t_ro_unsigned t]) with 3. change (len [len (t_addrs t)]) with 1.
  unfold FD_TXN_ACCT_ADDR_SZ, FD_TXN_BLOCKHASH_SZ. lia.
Qed.

(** The payload and the descriptor after a number of instructions. *)
Record generated (t : transaction) (xs : list instruction) (p : mem) (m : fd_txn_t) : Prop := mk_generated {
  ge_first : region p 0 1 = bytes [len (t_signatures t)];
  ge_base : region p (message_start t) (len (base_bytes t)) = bytes (base_bytes t);
  ge_count : xs <> [] -> region p (instr_start t - 1) 1 = bytes [len xs];
  ge_instrs : region p (instr_start t) (len (concat (encode_instr <$> xs))) = bytes (concat (encode_instr <$> xs));
  ge_room : len p <= FD_TXN_MTU;
  ge_off : message_off m = message_start t /\ acct_addr_off m = message_start t + 4;
  ge_blockhash : recent_blockhash_off m = message_start t + len (base_bytes t) - FD_TXN_BLOCKHASH_SZ;
  ge_cnt : instr_cnt m = len xs;
  ge_meta : take (length xs) (instr m) = layout encode_instr describe_instr (instr_start t) xs;
}.

(** One list of addresses. *)
Lemma copy_addresses p w src l n : addresses src l -> Forall (byte_string FD_TXN_ACCT_ADDR_SZ) l -> n = FD_TXN_ACCT_ADDR_SZ * len l -> 0 <= w -> w + n <= len p ->
  exists p', memcpy p w src n = Ok p' /\ wrote p w (concat l) p'.
Proof. intros Ha Hl Hn Hw Hr. by apply wrote_memcpy; [rewrite (len_concat _ _ Hl)|..]. Qed.

Lemma base_generate_ok t m p a h rest sw sr nw nr : template_ok t -> accounts_of t a sw sr nw nr -> h = bytes (t_blockhash t) ++ rest ->
  instr_start t <= len p <= FD_TXN_MTU ->
  exists m' p', fd_txn_base_generate m p (len (t_signatures t)) a (Some h) = Ok (instr_start t - 1, m', p') /\ generated t [] p' m' /\ length p' = length p.
Proof.
  intros H A -> Hl. pose proof (base_length _ H) as Hb. destruct A as [Ea [Es Es'] [Er Er'] [Eu Eu'] Ec (L1 & L2 & L3 & L4)].
  pose proof (te_sigs _ H). pose proof (te_ro_signed _ H). pose proof (te_ro_unsigned _ H). pose proof (te_addrs _ H). destruct (te_blockhash _ H) as [Hbh _].
  pose proof (te_addr _ H) as Hadr. rewrite Ea in Hadr. rewrite !Forall_app in Hadr. destruct Hadr as (F1 & F2 & F3 & F4).
  assert (Hn : len (t_addrs t) = len sw + len sr + len nw + len nr) by (rewrite Ea, !len_app; lia).
  pose proof (len_nonneg sw). pose proof (len_nonneg nw). unfold FD_TXN_SIG_MAX, FD_TXN_ACCT_ADDR_MAX, FD_TXN_MTU in *.
  unfold instr_start, message_start, FD_TXN_SIGNATURE_SZ in *. unfold fd_txn_base_generate. rewrite Es, Er, Eu, Ec.
  rewrite (proj2 (Z.leb_le _ _)) by (unfold FD_TXN_SIG_MAX; lia). cbn [FD_TEST mbind res_bind]. unfold u8. rewrite (Z.mod_small (len (t_signatures t))), (Z.mod_small (len (t_addrs t))) by lia.
  destruct (wrote_store1 p 0 (len (t_signatures t))) as (p0 & -> & W0); [lia|]. cbn [mbind res_bind]. rewrite (proj2 (Z.ltb_lt _ _)) by (unfold FD_TXN_ACCT_ADDR_MAX; lia). cbn [FD_TEST mbind res_bind].
  unfold FD_TXN_SIGNATURE_SZ, FD_TXN_ACCT_ADDR_SZ, FD_TXN_BLOCKHASH_SZ in *. assert (L0 : len p0 = len p) by (destruct W0 as [E _]; unfold len; lia).
  replace (len (t_signatures t) * 64 + 1) with (1 + 64 * len (t_signatures t)) by lia. set (mo := 1 + 64 * len (t_signatures t)) in *.
  assert (Eu16 : u16 mo = mo /\ u16 (mo + 3 + 1) = mo + 3 + 1 /\ u16 (mo + 3 + 1 + len (t_addrs t) * 32) = mo + 3 + 1 + len (t_addrs t) * 32).
  { unfold u16. rewrite !Z.mod_small by lia. done. }
  destruct Eu16 as (-> & -> & ->).
  assert (Hlen : forall x y w xs, wrote x w xs y -> len x = len p -> len y = len p) by (intros x y w xs [E _] <-; unfold len; by rewrite E).
  destruct (wrote_memcpy p0 mo (bytes [len (t_signatures t); t_ro_signed t; t_ro_unsigned t]) [len (t_signatures t); t_ro_signed t; t_ro_unsigned t] 3)
    as (p1 & -> & W1); [done|lia|lia|by exists []|]. cbn [mbind res_bind]. pose proof (Hlen _ _ _ _ W1 L0) as K1.
  destruct (wrote_store1 p1 (mo + 3) (len (t_addrs t))) as (p2 & -> & W2); [lia|]. cbn [mbind res_bind]. pose proof (Hlen _ _ _ _ W2 K1) as K2.
  rewrite (u64_small (len (t_signatures t) - t_ro_signed t)), (u64_small (len (t_addrs t) - t_ro_unsigned t - len (t_signatures t))), !u64_small by (unfold is_u64, ULONG_MAX; lia).
  replace (len (t_signatures t) - t_ro_signed t) with (len sw) by lia. replace (len (t_addrs t) - t_ro_unsigned t - len (t_signatures t)) with (len nw) by lia.
  rewrite <- Er', <- Eu'.
  destruct (copy_addresses p2 (mo + 3 + 1) _ _ (32 * len sw) L1 F1) as (p3 & -> & W3); [done|lia|lia|]. cbn [mbind res_bind]. pose proof (Hlen _ _ _ _ W3 K2) as K3.
  destruct (copy_addresses p3 (mo + 3 + 1 + 32 * len sw) _ _ (32 * len sr) L2 F2) as (p4 & -> & W4); [done|lia|lia|]. cbn [mbind res_bind]. pose proof (Hlen _ _ _ _ W4 K3) as K4.
  destruct (copy_addresses p4 (mo + 3 + 1 + 32 * len sw + 32 * len sr) _ _ (32 * len nw) L3 F3) as (p5 & -> & W5); [done|lia|lia|]. cbn [mbind res_bind]. pose proof (Hlen _ _ _ _ W5 K4) as K5.
  destruct (copy_addresses p5 (mo + 3 + 1 + 32 * len sw + 32 * len sr + 32 * len nw) _ _ (32 * len nr) L4 F4) as (p6 & -> & W6); [done|lia|lia|]. cbn [mbind res_bind]. pose proof (Hlen _ _ _ _ W6 K5) as K6.
  set (w := mo + 3 + 1 + 32 * len sw + 32 * len sr + 32 * len nw + 32 * len nr) in *. assert (Ew : w = mo + 3 + 1 + len (t_addrs t) * 32) by lia.
  unfold u16. rewrite Z.mod_small by lia. rewrite <- Ew, Z.eqb_refl. cbn [FD_TEST mbind res_bind].
  destruct (wrote_memcpy p6 w (bytes (t_blockhash t) ++ rest) (t_blockhash t) 32) as (p7 & -> & W7); [done|lia|lia|by exists rest|]. cbn [mbind res_bind].
  assert (Wb : wrote p0 mo (base_bytes t) p7).
  { unfold base_bytes. rewrite Ea, !concat_app, <- !app_assoc. rewrite <- Ea.
    apply (wrote_app _ _ _ p1); [lia|done|]. change (len [_; _; _]) with 3. apply (wrote_app _ _ _ p2); [lia|done|]. change (len [_]) with 1.
    apply (wrote_app _ _ _ p3); [lia|done|]. rewrite (len_concat _ _ F1). apply (wrote_app _ _ _ p4); [lia|done|]. rewrite (len_concat _ _ F2).
    apply (wrote_app _ _ _ p5); [lia|done|]. rewrite (len_concat _ _ F3). apply (wrote_app _ _ _ p6); [lia|done|]. by rewrite (len_concat _ _ F4). }
  do 2 eexists. split; [do 3 f_equal; lia|]. destruct Wb as (Wl & Wr & Wo), W0 as (Wl0 & Wr0 & _). split; [|by rewrite Wl].
  constructor; unfold instr_start, message_start, FD_TXN_SIGNATURE_SZ, FD_TXN_BLOCKHASH_SZ, FD_TXN_MTU; fold mo; try done.
  - rewrite Wo by lia. exact Wr0.
  - unfold len at 1. rewrite Wl. fold (len p0). lia.
  - simpl. lia.
  - simpl. lia.
Qed.

(** ** Adding instructions *)

Lemma layout_app {A D} (enc : A -> list Z) (desc : Z -> A -> D) i xs ys :
  layout enc desc i (xs ++ ys) = layout enc desc i xs ++ layout enc desc (i + len (concat (enc <$> xs))) ys.
Proof.
  revert i. induction xs as [|x xs IH]; intros i; cbn [layout app fmap list_fmap concat].
  - change (@len Z []) with 0. by rewrite Z.add_0_r.
  - rewrite IH, len_app, Z.add_assoc. done.
Qed.

Lemma layout_length {A D} (enc : A -> list Z) (desc : Z -> A -> D) i xs : length (layout enc desc i xs) = length xs.
Proof. revert i. induction xs as [|x xs IH]; intros i; simpl; [done|]. by rewrite IH. Qed.

Lemma encode_instr_len a : len (encode_instr a) = 1 + len (cu16 (len (i_accts a))) + len (i_accts a) + len (cu16 (len (i_data a))) + len (i_data a).
Proof. unfold encode_instr. rewrite len_cons, !len_app. lia. Qed.

(** The last instruction ends where the next one starts. *)
Lemma last_instr t xs p m : generated t xs p m -> xs <> [] ->
  exists x, aget (instr m) (len xs - 1) = Ok x /\ data_off x + data_sz x = instr_start t + len (concat (encode_instr <$> xs)).
Proof.
  intros G Hne. destruct (exists_last Hne) as (ys & a & ->). pose proof (ge_meta _ _ _ _ G) as E. rewrite layout_app in E. cbn [layout] in E.
  rewrite length_app in E. cbn [length] in E. rewrite len_app. change (len [a]) with 1. pose proof (len_nonneg ys).
  set (d := describe_instr _ a) in E. exists d. split.
  - unfold aget. rewrite (proj2 (Z.ltb_ge _ _)) by lia. replace (Z.to_nat (len ys + 1 - 1)) with (length ys) by (unfold len; lia).
    assert (Hl : take (length ys + 1) (instr m) !! length ys = Some d).
    { rewrite E, lookup_app_r by (rewrite layout_length; lia). by rewrite layout_length, Nat.sub_diag. }
    rewrite lookup_take_lt in Hl by lia. by rewrite Hl.
  - subst d. unfold describe_instr. cbn [data_off data_sz]. rewrite fmap_app, concat_app, len_app. cbn [fmap list_fmap concat]. rewrite app_nil_r.
    rewrite encode_instr_len. lia.
Qed.

Lemma add_instr_ok t xs p m a accts rest_a data rest_d : template_ok t -> generated t xs p m -> len xs < FD_TXN_INSTR_MAX ->
  instr_start t + len (concat (encode_instr <$> xs ++ [a])) <= len p -> accts = bytes (i_accts a) ++ rest_a -> data = bytes (i_data a) ++ rest_d ->
  exists m' p', fd_txn_add_instr m p (i_program a) accts (len (i_accts a)) data (len (i_data a))
      = Ok (instr_start t + len (concat (encode_instr <$> xs ++ [a])), m', p') /\
    generated t (xs ++ [a]) p' m' /\ length p' = length p.
Proof.
  intros H G Hn Hroom -> ->. pose proof G as [G1 G2 G3 G4 G5 [G6 G7] G8 G9 G10]. rewrite fmap_app, concat_app, len_app in *. cbn [fmap list_fmap concat] in *. rewrite app_nil_r in *.
  pose proof (base_length _ H) as Hb. pose proof (len_nonneg xs). pose proof (len_nonneg (concat (encode_instr <$> xs))). pose proof (len_nonneg (t_addrs t)). pose proof (te_sigs _ H).
  pose proof (encode_instr_len a) as Ha. pose proof (len_nonneg (i_accts a)). pose proof (len_nonneg (i_data a)).
  unfold FD_TXN_INSTR_MAX, FD_TXN_MTU in *.
  assert (Hcu : forall v, 0 <= len (cu16 v)) by (intros v; apply len_nonneg).
  pose proof (Hcu (len (i_accts a))). pose proof (Hcu (len (i_data a))).
  assert (Hstart : 0 < message_start t) by (unfold message_start, FD_TXN_SIGNATURE_SZ; lia).
  assert (Hu : is_u16 (len (i_accts a)) /\ is_u16 (len (i_data a))) by (unfold is_u16, instr_start in *; lia). destruct Hu as [Hua Hud].
  unfold fd_txn_add_instr. rewrite G9, (proj2 (Z.ltb_lt (len xs) _)) by (unfold FD_TXN_INSTR_MAX; lia). cbn [FD_TEST mbind res_bind].
  rewrite G8, (proj2 (Z.eqb_neq (message_start t + len (base_bytes t) - FD_TXN_BLOCKHASH_SZ) 0)) by (unfold FD_TXN_BLOCKHASH_SZ; lia). cbn [negb FD_TEST mbind res_bind].
  replace (message_start t + len (base_bytes t) - FD_TXN_BLOCKHASH_SZ + FD_TXN_BLOCKHASH_SZ) with (instr_start t - 1) by (unfold instr_start; lia).
  assert (Ec : u16 (len xs + 1) = len xs + 1) by (unfold u16; apply Z.mod_small; lia). rewrite Ec.
  assert (Ecu : cu16 (len xs + 1) = [len xs + 1]) by (unfold cu16; by rewrite (proj2 (Z.ltb_lt _ _)) by lia).
  destruct (wrote_enc p (instr_start t - 1) (len xs + 1)) as (p1 & -> & W1); [unfold is_u16; lia|unfold instr_start in *; lia|rewrite Ecu; change (len [_]) with 1; unfold instr_start in *; lia|].
  cbn [mbind res_bind]. rewrite Ecu in *. change (len [len xs + 1]) with 1. cbn [Z.eqb Pos.eqb FD_TEST mbind res_bind].
  set (w0 := instr_start t + len (concat (encode_instr <$> xs))).
  assert (Ew : (if 1 <? len xs + 1 then x ← aget (instr m) (len xs + 1 - 2); Ok (data_off x + data_sz x) else Ok (instr_start t - 1 + 1)) = Ok w0).
  { destruct (Z.ltb_spec 1 (len xs + 1)).
    - destruct (last_instr t xs p m G) as (x & Ex & Ed); [intros ->; unfold len in *; simpl in *; lia|]. replace (len xs + 1 - 2) with (len xs - 1) by lia. rewrite Ex. cbn. by rewrite Ed.
    - assert (xs = []) as -> by (destruct xs; [done|unfold len in *; simpl in *; lia]). unfold w0. cbn [fmap list_fmap concat]. change (@len Z []) with 0. f_equal. lia. }
  rewrite Ew. cbn [mbind res_bind].
  assert (Hlen : forall x y w ys, wrote x w ys y -> len x = len p -> len y = len p) by (intros x y w ys [E _] <-; unfold len; by rewrite E).
  pose proof (Hlen _ _ _ _ W1 eq_refl) as K1. unfold u16. rewrite (Z.mod_small (len (i_accts a))), (Z.mod_small (len (i_data a))) by (unfold is_u16 in *; lia).
  assert (Hw0 : 0 <= w0) by (unfold w0, instr_start; lia).
  destruct (wrote_store1 p1 w0 (i_program a)) as (p2 & -> & W2); [lia|]. cbn [mbind res_bind]. pose proof (Hlen _ _ _ _ W2 K1) as K2.
  destruct (wrote_enc p2 (w0 + 1) (len (i_accts a)) Hua) as (p3 & -> & W3); [lia|lia|]. cbn [mbind res_bind]. pose proof (Hlen _ _ _ _ W3 K2) as K3.
  destruct (wrote_memcpy p3 (w0 + 1 + len (cu16 (len (i_accts a)))) (bytes (i_accts a) ++ rest_a) (i_accts a) _ eq_refl) as (p4 & -> & W4); [lia|lia|by exists rest_a|].
  cbn [mbind res_bind]. pose proof (Hlen _ _ _ _ W4 K3) as K4.
  destruct (wrote_enc p4 (w0 + 1 + len (cu16 (len (i_accts a))) + len (i_accts a)) (len (i_data a)) Hud) as (p5 & -> & W5); [lia|lia|]. cbn [mbind res_bind]. pose proof (Hlen _ _ _ _ W5 K4) as K5.
  destruct (wrote_memcpy p5 (w0 + 1 + len (cu16 (len (i_accts a))) + len (i_accts a) + len (cu16 (len (i_data a)))) (bytes (i_data a) ++ rest_d) (i_data a) _ eq_refl)
    as (p6 & -> & W6); [lia|lia|by exists rest_d|]. cbn [mbind res_bind]. pose proof (Hlen _ _ _ _ W6 K5) as K6.
  rewrite !Z.mod_small by lia.
  assert (Wi : wrote p1 w0 (encode_instr a) p6).
  { unfold encode_instr. change (i_program a :: ?l) with ([i_program a] ++ l). apply (wrote_app _ _ _ p2); [lia|done|]. change (len [_]) with 1.
    apply (wrote_app _ _ _ p3); [lia|done|]. apply (wrote_app _ _ _ p4); [lia|done|]. apply (wrote_app _ _ _ p5); [lia|done|done]. }
  destruct W1 as (Wl1 & Wr1 & Wo1), Wi as (Wl & Wr & Wo). change (len [len xs + 1]) with 1 in *.
  do 2 eexists. split; [do 3 f_equal; unfold w0; lia|]. split; [|congruence].
  assert (Hi : instr_start t = message_start t + len (base_bytes t) + 1) by done.
  constructor; cbn [meta_add_instr message_off acct_addr_off recent_blockhash_off instr_cnt instr]; try done.
  - rewrite Wo, Wo1 by lia. done.
  - rewrite Wo, Wo1 by lia. done.
  - intros _. rewrite Wo, len_app by lia. change (len [a]) with 1. exact Wr1.
  - rewrite fmap_app, concat_app, len_app. cbn [fmap list_fmap concat]. rewrite app_nil_r, <- region_app, bytes_app by lia. fold w0. rewrite Wr, Wo, Wo1 by lia. by rewrite G4.
  - unfold FD_TXN_MTU. lia.
  - by rewrite len_app.
  - rewrite layout_app, <- G10. replace (Z.to_nat (len xs + 1 - 1)) with (length xs) by (unfold len; lia). cbn [layout]. rewrite take_ge; [done|].
    rewrite !length_app, length_take. simpl. lia.
Qed.

(** ** The finished transaction *)

(** The transaction of a template with instructions. *)
Definition with_instrs (t : transaction) (xs : list instruction) : transaction :=
  mk_transaction false (t_signatures t) (t_ro_signed t) (t_ro_unsigned t) (t_addrs t) (t_blockhash t) xs [].

(** Once the signatures are filled in, the payload is the transaction on the
    wire. *)
Lemma generated_encode t xs p m : template_ok t -> generated t xs p m -> xs <> [] -> len xs < 128 -> instr_start t + len (concat (encode_instr <$> xs)) <= len p ->
  region p 1 (FD_TXN_SIGNATURE_SZ * len (t_signatures t)) = bytes (concat (t_signatures t)) ->
  take (Z.to_nat (instr_start t + len (concat (encode_instr <$> xs)))) p = bytes (encode_txn (with_instrs t xs)).
Proof.
  intros H [G1 G2 G3 G4 _ _ _ _ _] Hne Hn Hl Hs. pose proof (te_sigs _ H). pose proof (te_addrs _ H). pose proof (len_nonneg (t_addrs t)). pose proof (len_nonneg xs).
  pose proof (len_nonneg (base_bytes t)). pose proof (len_nonneg (concat (encode_instr <$> xs))). unfold FD_TXN_ACCT_ADDR_MAX, FD_TXN_SIGNATURE_SZ in *.
  assert (Hms : message_start t = 1 + 64 * len (t_signatures t)) by done. assert (His : instr_start t = message_start t + len (base_bytes t) + 1) by done.
  rewrite <- region_0. replace (instr_start t + len (concat (encode_instr <$> xs)))
    with (1 + (64 * len (t_signatures t) + (len (base_bytes t) + (1 + len (concat (encode_instr <$> xs)))))) by lia.
  rewrite <- !region_app by lia. rewrite G1. replace (0 + 1) with 1 by done. rewrite Hs. replace (1 + 64 * len (t_signatures t)) with (message_start t) by lia. rewrite G2.
  replace (message_start t + len (base_bytes t)) with (instr_start t - 1) by lia. rewrite (G3 Hne). replace (instr_start t - 1 + 1) with (instr_start t) by lia. rewrite G4.
  rewrite <- !bytes_app. f_equal. unfold encode_txn, encode_header, encode_tables, base_bytes, with_instrs. cbn [t_versioned t_signatures t_ro_signed t_ro_unsigned t_addrs t_blockhash t_instrs t_lookups].
  assert (E : forall v, 0 <= v < 128 -> cu16 v = [v]) by (intros v Hv; unfold cu16; by rewrite (proj2 (Z.ltb_lt _ _)) by lia).
  rewrite !E by lia. cbn [app]. rewrite app_nil_r, <- !app_assoc. done.
Qed.

(** Writing the signatures. *)
Lemma generated_sign t xs p m p' : template_ok t -> generated t xs p m -> wrote p 1 (concat (t_signatures t)) p' -> generated t xs p' m.
Proof.
  intros H [G1 G2 G3 G4 G5 G6 G7 G8 G9] (Wl & _ & Wo). rewrite (len_concat _ _ (te_sig _ H)) in Wo. pose proof (te_sigs _ H). pose proof (len_nonneg (base_bytes t)).
  assert (Hms : message_start t = 1 + FD_TXN_SIGNATURE_SZ * len (t_signatures t)) by done. assert (His : instr_start t = message_start t + len (base_bytes t) + 1) by done.
  pose proof (len_nonneg (concat (encode_instr <$> xs))). unfold FD_TXN_SIGNATURE_SZ in *.
  constructor; try done; try (rewrite Wo by lia; done). unfold len in *. by rewrite Wl.
Qed.
