(* ===== verification/Shred.v ===== *)
(** * Shreds ([src/ballet/shred/fd_shred.h], [src/ballet/shred/fd_shred.c])

    A shred is the packet a block is cut into.  [fd_shred_t] is a packed
    struct, so a pointer to a shred is a pointer into memory and its fields are
    loads at the offsets of the struct.  [fd_shred_parse] decides whether bytes
    received from the network may be used as a shred. *)

From S2P Require Import Prelude Bits Bytes.

#[local] Open Scope Z_scope.

(** ** Layout *)

Definition FD_SHRED_MAX_SZ : Z := 1228.
Definition FD_SHRED_MIN_SZ : Z := 1203.
Definition FD_SHRED_DATA_HEADER_SZ : Z := 0x58.
Definition FD_SHRED_CODE_HEADER_SZ : Z := 0x59.

Definition FD_SHRED_TYPE_LEGACY_DATA : Z := 0xA0.
Definition FD_SHRED_TYPE_LEGACY_CODE : Z := 0x50.
Definition FD_SHRED_TYPE_MERKLE_DATA : Z := 0x80.
Definition FD_SHRED_TYPE_MERKLE_CODE : Z := 0x40.
Definition FD_SHRED_TYPE_MERKLE_DATA_CHAINED : Z := 0x90.
Definition FD_SHRED_TYPE_MERKLE_CODE_CHAINED : Z := 0x60.
Definition FD_SHRED_TYPE_MERKLE_DATA_CHAINED_RESIGNED : Z := 0xB0.
Definition FD_SHRED_TYPE_MERKLE_CODE_CHAINED_RESIGNED : Z := 0x70.
Definition FD_SHRED_TYPEMASK_DATA : Z := FD_SHRED_TYPE_MERKLE_DATA.
Definition FD_SHRED_TYPEMASK_CODE : Z := FD_SHRED_TYPE_MERKLE_CODE.

Definition FD_SHRED_MERKLE_ROOT_SZ : Z := 32.
Definition FD_SHRED_MERKLE_NODE_SZ : Z := 20.
Definition FD_SHRED_MERKLE_LAYER_CNT : Z := 7.
Definition FD_SHRED_SIGNATURE_SZ : Z := 64.
Definition FD_SHRED_DATA_FLAG_SLOT_COMPLETE : Z := 0x80.
Definition FD_SHRED_BLK_MAX : Z := 32768.

(** The fields of [fd_shred_t]. *)
Definition sh_variant (s : mem) : res Z := load s 0x40 1.
Definition sh_slot (s : mem) : res Z := load s 0x41 8.
Definition sh_idx (s : mem) : res Z := load s 0x49 4.
Definition sh_version (s : mem) : res Z := load s 0x4d 2.
Definition sh_fec_set_idx (s : mem) : res Z := load s 0x4f 4.
Definition sh_data_parent_off (s : mem) : res Z := load s 0x53 2.
Definition sh_data_flags (s : mem) : res Z := load s 0x55 1.
Definition sh_data_size (s : mem) : res Z := load s 0x56 2.
Definition sh_code_data_cnt (s : mem) : res Z := load s 0x53 2.
Definition sh_code_code_cnt (s : mem) : res Z := load s 0x55 2.
Definition sh_code_idx (s : mem) : res Z := load s 0x57 2.

(** ** Types and sizes *)

Definition fd_shred_type (variant : Z) : Z := Z.land variant 0xf0.

(** [type & mask] as a condition. *)
Definition has_mask (type mask : Z) : bool := negb (Z.land type mask =? 0).

Definition fd_shred_sz (s : mem) : res Z :=
  variant ← sh_variant s;
  let type := fd_shred_type variant in
  size ← sh_data_size s;
  Ok (if has_mask type FD_SHRED_TYPEMASK_CODE then FD_SHRED_MAX_SZ
      else if type =? FD_SHRED_TYPE_LEGACY_DATA then size else FD_SHRED_MIN_SZ).

Definition fd_shred_header_sz (variant : Z) : Z :=
  let type := fd_shred_type variant in
  if has_mask type FD_SHRED_TYPEMASK_DATA then FD_SHRED_DATA_HEADER_SZ
  else if has_mask type FD_SHRED_TYPEMASK_CODE then FD_SHRED_CODE_HEADER_SZ
  else 0.

Definition fd_shred_merkle_cnt (variant : Z) : Z :=
  let type := fd_shred_type variant in
  if (type =? FD_SHRED_TYPE_LEGACY_DATA) || (type =? FD_SHRED_TYPE_LEGACY_CODE) then 0
  else Z.land variant 0xf.

Definition fd_shred_merkle_sz (variant : Z) : Z := fd_shred_merkle_cnt variant * FD_SHRED_MERKLE_NODE_SZ.

Definition fd_shred_is_chained (type : Z) : bool :=
  (type =? FD_SHRED_TYPE_MERKLE_DATA_CHAINED) || (type =? FD_SHRED_TYPE_MERKLE_CODE_CHAINED) ||
  (type =? FD_SHRED_TYPE_MERKLE_DATA_CHAINED_RESIGNED) || (type =? FD_SHRED_TYPE_MERKLE_CODE_CHAINED_RESIGNED).

Definition fd_shred_is_resigned (type : Z) : bool :=
  (type =? FD_SHRED_TYPE_MERKLE_DATA_CHAINED_RESIGNED) || (type =? FD_SHRED_TYPE_MERKLE_CODE_CHAINED_RESIGNED).

Definition fd_shred_is_data (type : Z) : bool := Z.land type 0xC0 =? 0x80.

(** Offset of the inclusion proof. *)
Definition fd_shred_merkle_off (s : mem) : res Z :=
  variant ← sh_variant s;
  let type := fd_shred_type variant in
  sz ← fd_shred_sz s;
  Ok (u64 (sz - fd_shred_merkle_sz variant - (if fd_shred_is_resigned type then FD_SHRED_SIGNATURE_SZ else 0))).

(** ** Parsing ([fd_shred_parse]) *)

(** The variants a shred can have. *)
Definition known_variant (variant : Z) : bool :=
  let type := fd_shred_type variant in
  (type =? FD_SHRED_TYPE_MERKLE_DATA) || (type =? FD_SHRED_TYPE_MERKLE_CODE) ||
  (type =? FD_SHRED_TYPE_MERKLE_DATA_CHAINED) || (type =? FD_SHRED_TYPE_MERKLE_CODE_CHAINED) ||
  (type =? FD_SHRED_TYPE_MERKLE_DATA_CHAINED_RESIGNED) || (type =? FD_SHRED_TYPE_MERKLE_CODE_CHAINED_RESIGNED) ||
  (variant =? 0xa5) || (variant =? 0x5a).

(** The bytes behind the payload and its padding. *)
Definition trailer_sz (variant : Z) : Z :=
  let type := fd_shred_type variant in
  fd_shred_merkle_sz variant + (if fd_shred_is_resigned type then FD_SHRED_SIGNATURE_SZ else 0)
    + (if fd_shred_is_chained type then FD_SHRED_MERKLE_ROOT_SZ else 0).

(** The sizes of the payload and of the padding; [None] when they do not add
    up.  All summands are small, except that [sz] bounds them. *)
Definition parse_sizes (s : mem) (variant sz : Z) : res (option (Z * Z)) :=
  let type := fd_shred_type variant in
  let header_sz := fd_shred_header_sz variant in
  if has_mask type FD_SHRED_TYPEMASK_DATA then
    size ← sh_data_size s;
    if size <? header_sz then Ok None else
    let payload_sz := size - header_sz in
    let legacy := type =? FD_SHRED_TYPE_LEGACY_DATA in
    if negb legacy && (sz <? FD_SHRED_MIN_SZ) then Ok None else
    let effective_sz := if legacy then sz else FD_SHRED_MIN_SZ in
    if effective_sz <? header_sz + payload_sz + trailer_sz variant then Ok None
    else Ok (Some (payload_sz, effective_sz - header_sz - payload_sz - trailer_sz variant))
  else if has_mask type FD_SHRED_TYPEMASK_CODE then
    if FD_SHRED_MAX_SZ <? header_sz + 0 + trailer_sz variant then Ok None
    else Ok (Some (FD_SHRED_MAX_SZ - header_sz - 0 - trailer_sz variant, 0))
  else Ok None.

(** The fields of a data shred are legal. *)
Definition parse_data (s : mem) (max_shred_idx : Z) : res bool :=
  parent_off ← sh_data_parent_off s;
  slot ← sh_slot s;
  flags ← sh_data_flags s;
  if Z.land flags 0xC0 =? 0x80 then Ok false
  else if slot <? parent_off then Ok false
  else if (negb (slot =? 0) && (parent_off =? 0)) || ((1 <? slot) && (parent_off =? slot)) then Ok false
  else
    idx ← sh_idx s;
    fec_set_idx ← sh_fec_set_idx s;
    if idx <? fec_set_idx then Ok false
    else if max_shred_idx <=? idx then Ok false
    else Ok true.

(** The fields of a coding shred are legal. *)
Definition parse_code (s : mem) (max_shred_idx : Z) : res bool :=
  cidx ← sh_code_idx s;
  code_cnt ← sh_code_code_cnt s;
  if code_cnt <=? cidx then Ok false else
  idx ← sh_idx s;
  if idx <? cidx then Ok false else
  data_cnt ← sh_code_data_cnt s;
  if (data_cnt =? 0) || (code_cnt =? 0) then Ok false
  else if 256 <? code_cnt then Ok false
  else if 256 <? data_cnt + code_cnt then Ok false
  else if max_shred_idx <=? idx then Ok false
  else
    fec_set_idx ← sh_fec_set_idx s;
    if max_shred_idx <=? u64 (fec_set_idx + data_cnt - 1) then Ok false
    else if max_shred_idx <=? u64 ((idx - cidx) mod 2 ^ 32 + code_cnt - 1) then Ok false
    else Ok true.

(** [true] is the input pointer, [false] is NULL. *)
Definition fd_shred_parse (buf : mem) (sz max_shred_idx : Z) : res bool :=
  if sz <? Z.min FD_SHRED_DATA_HEADER_SZ FD_SHRED_CODE_HEADER_SZ then Ok false else
  variant ← sh_variant buf;
  let type := fd_shred_type variant in
  if negb (known_variant variant) then Ok false else
  let header_sz := fd_shred_header_sz variant in
  o ← parse_sizes buf variant sz;
  match o with
  | None => Ok false
  | Some (payload_sz, zero_padding_sz) =>
      if sz <? header_sz + payload_sz + zero_padding_sz + trailer_sz variant then Ok false
      else if has_mask type FD_SHRED_TYPEMASK_DATA then parse_data buf max_shred_idx
      else parse_code buf max_shred_idx
  end.
