(* ===== verification/Bmtree.v ===== *)
(** * Binary Merkle trees ([src/ballet/bmtree/fd_bmtree.c])

    A tree is built either from all of its leaves ([fd_bmtree_commit_append],
    [fd_bmtree_commit_fini], [fd_bmtree_get_proof]) or from leaves that come
    with an inclusion proof ([fd_bmtree_commitp_insert_with_proof],
    [fd_bmtree_commitp_fini]).  Nodes are stored in binary search tree order.
    The hash function SHA-256 is a parameter. *)

From S2P Require Import Prelude Bits Bytes.

#[local] Open Scope Z_scope.

Definition FD_BMTREE_LONG_PREFIX_SZ : Z := 26.
Definition FD_BMTREE_SHORT_PREFIX_SZ : Z := 1.

(** "SOLANA_MERKLE_SHREDS_", the common part of the prefixes. *)
Definition shreds_tag : list Z :=
  [83; 79; 76; 65; 78; 65; 95; 77; 69; 82; 75; 76; 69; 95; 83; 72; 82; 69; 68; 83; 95].
Definition fd_bmtree_leaf_prefix : list Z := 0 :: shreds_tag ++ [76; 69; 65; 70] ++ replicate 6 0.
Definition fd_bmtree_node_prefix : list Z := 1 :: shreds_tag ++ [78; 79; 68; 69] ++ replicate 6 0.

(** [fd_bmtree_node_t]: 32 bytes, the last of which may not be meaningful. *)
Abbreviation fd_bmtree_node_t := (list (option Z)) (only parsing).

(** [inclusion_proofs] holds the elements below [inclusion_proof_sz].  The
    element at that index is a dummy that shares its memory with
    [inclusion_proofs_valid]; a word written through it is [None]. *)
Record fd_bmtree_commit_t := mk_tree {
  leaf_cnt : Z;
  hash_sz : Z;
  prefix_sz : Z;
  inclusion_proof_sz : Z;
  node_buf : list fd_bmtree_node_t;
  inclusion_proofs_valid : list (option Z);
  inclusion_proofs : list fd_bmtree_node_t
}.

Definition with_leaf_cnt (t : fd_bmtree_commit_t) (n : Z) : fd_bmtree_commit_t :=
  mk_tree n (hash_sz t) (prefix_sz t) (inclusion_proof_sz t) (node_buf t) (inclusion_proofs_valid t) (inclusion_proofs t).
Definition with_buf (t : fd_bmtree_commit_t) (b : list fd_bmtree_node_t) : fd_bmtree_commit_t :=
  mk_tree (leaf_cnt t) (hash_sz t) (prefix_sz t) (inclusion_proof_sz t) b (inclusion_proofs_valid t) (inclusion_proofs t).
Definition with_valid (t : fd_bmtree_commit_t) (v : list (option Z)) : fd_bmtree_commit_t :=
  mk_tree (leaf_cnt t) (hash_sz t) (prefix_sz t) (inclusion_proof_sz t) (node_buf t) v (inclusion_proofs t).
Definition with_proofs (t : fd_bmtree_commit_t) (p : list fd_bmtree_node_t) : fd_bmtree_commit_t :=
  mk_tree (leaf_cnt t) (hash_sz t) (prefix_sz t) (inclusion_proof_sz t) (node_buf t) (inclusion_proofs_valid t) p.

Definition fd_bmtree_depth (leaf_cnt : Z) : Z :=
  if leaf_cnt <=? 1 then leaf_cnt else fd_ulong_find_msb (leaf_cnt - 1) + 2.

(** [fd_bmtree_commit_init]: the nodes of [mem] keep what the memory held. *)
Definition fd_bmtree_commit_init (buf proofs : list fd_bmtree_node_t)
    (hash_sz prefix_sz inclusion_proof_layer_cnt : Z) : fd_bmtree_commit_t :=
  let sz := u64 (Z.shiftl 1 inclusion_proof_layer_cnt) - 1 in
  mk_tree 0 hash_sz prefix_sz sz buf (replicate (Z.to_nat (1 + sz / 64)) (Some 0)) proofs.

Section bmtree.
Context (sha256 : list Z -> list Z).

(** [fd_bmtree_hash_leaf] *)
Definition fd_bmtree_hash_leaf (data : mem) (data_sz prefix_sz : Z) : res fd_bmtree_node_t :=
  d ← read data 0 data_sz;
  Ok (bytes (sha256 (take (Z.to_nat prefix_sz) fd_bmtree_leaf_prefix ++ d))).

(** [fd_bmtree_private_merge] *)
Definition fd_bmtree_private_merge (a b : fd_bmtree_node_t) (hash_sz prefix_sz : Z) : res fd_bmtree_node_t :=
  da ← read a 0 hash_sz;
  db ← read b 0 hash_sz;
  Ok (bytes (sha256 (take (Z.to_nat prefix_sz) fd_bmtree_node_prefix ++ da ++ db))).

Definition merge (t : fd_bmtree_commit_t) (a b : fd_bmtree_node_t) : res fd_bmtree_node_t :=
  fd_bmtree_private_merge a b (hash_sz t) (prefix_sz t).

(** ** Trees built from their leaves *)

(** [state->inclusion_proofs[ fd_ulong_min( i, state->inclusion_proof_sz ) ] = x].
    The dummy element covers the first four words of the bit set. *)
Definition save (t : fd_bmtree_commit_t) (i : Z) (x : fd_bmtree_node_t) : res fd_bmtree_commit_t :=
  let j := Z.min i (inclusion_proof_sz t) in
  if j =? inclusion_proof_sz t then
    Ok (with_valid t (replicate (Nat.min 4 (length (inclusion_proofs_valid t))) None ++ drop 4 (inclusion_proofs_valid t)))
  else p ← aset (inclusion_proofs t) j x; Ok (with_proofs t p).

(** The walk upwards from a new leaf; [cursor] is positive, so it ends. *)
Definition append_step (s : fd_bmtree_commit_t * fd_bmtree_node_t * Z * Z * Z)
    : res ((fd_bmtree_commit_t * fd_bmtree_node_t * Z * Z * Z) + (fd_bmtree_commit_t * fd_bmtree_node_t * Z * Z)) :=
  let '(t, tmp, layer, inc_idx, cursor) := s in
  if Z.land cursor 1 =? 0 then
    t1 ← save t inc_idx tmp;
    b ← aget (node_buf t1) layer;
    tmp1 ← merge t1 b tmp;
    Ok (inl (t1, tmp1, layer + 1, u64 (inc_idx - u64 (Z.shiftl 1 layer)), Z.shiftr cursor 1))
  else Ok (inr (t, tmp, layer, inc_idx)).

Definition append_leaf (t : fd_bmtree_commit_t) (leaf : fd_bmtree_node_t) : res fd_bmtree_commit_t :=
  let inc_idx := u64 (2 * leaf_cnt t) in
  let cursor := u64 (leaf_cnt t + 1) in
  '(t1, tmp, layer, inc_idx) ← loop append_step 64 (with_leaf_cnt t cursor, leaf, 0, inc_idx, cursor);
  b ← aset (node_buf t1) layer tmp;
  save (with_buf t1 b) inc_idx tmp.

Fixpoint fd_bmtree_commit_append (t : fd_bmtree_commit_t) (new_leaf : list fd_bmtree_node_t) : res fd_bmtree_commit_t :=
  match new_leaf with
  | [] => Ok t
  | l :: ls => t1 ← append_leaf t l; fd_bmtree_commit_append t1 ls
  end.

(** The index of the last node of a layer of [layer_cnt] nodes. *)
Definition last_idx (layer layer_cnt : Z) : Z :=
  u64 (u64 (u64 (Z.shiftl layer_cnt (layer + 1)) - u64 (Z.shiftl 1 layer)) - 1).

(** The ascent of [fd_bmtree_commit_fini] from the first odd layer. *)
Definition fini_step (s : fd_bmtree_commit_t * fd_bmtree_node_t * Z * Z)
    : res ((fd_bmtree_commit_t * fd_bmtree_node_t * Z * Z) + (fd_bmtree_commit_t * fd_bmtree_node_t)) :=
  let '(t, tmp, layer, layer_cnt) := s in
  if 1 <? layer_cnt then
    tmp2 ← (if Z.land layer_cnt 1 =? 0 then aget (node_buf t) layer else Ok tmp);
    tmp1 ← merge t tmp2 tmp;
    let layer1 := layer + 1 in
    let layer_cnt1 := Z.shiftr (u64 (layer_cnt + 1)) 1 in
    t1 ← save t (last_idx layer1 layer_cnt1) tmp1;
    Ok (inl (t1, tmp1, layer1, layer_cnt1))
  else Ok (inr (t, tmp)).

Definition fd_bmtree_commit_fini (t : fd_bmtree_commit_t) : res (fd_bmtree_commit_t * fd_bmtree_node_t) :=
  let root := u64 (fd_bmtree_depth (leaf_cnt t) - 1) in
  if negb (fd_ulong_is_pow2 (leaf_cnt t)) then
    let layer := fd_ulong_find_lsb (leaf_cnt t) in
    let layer_cnt := Z.shiftr (leaf_cnt t) layer in
    tmp ← aget (node_buf t) layer;
    '(t1, tmp) ← loop fini_step 64 (t, tmp, layer, layer_cnt);
    b ← aset (node_buf t1) root tmp;
    Ok (with_buf t1 b, tmp)
  else r ← aget (node_buf t) root; Ok (t, r).

(** [fd_bmtree_get_proof]: the return value and [dest]. *)
Definition get_proof_step (t : fd_bmtree_commit_t) (s : mem * Z * Z * Z) : res ((mem * Z * Z * Z) + (Z * mem)) :=
  let '(dest, layer, layer_cnt, inc_idx) := s in
  if 1 <? layer_cnt then
    let sibling_idx := Z.lxor inc_idx (u64 (Z.shiftl 1 (layer + 1))) in
    let max_idx_for_layer :=
      fd_ulong_insert_lsb (u64 (Z.shiftl (u64 (leaf_cnt t - 1)) 1)) (1 + layer) (u64 (u64 (Z.shiftl 1 layer) - 1)) in
    let sibling_idx := if max_idx_for_layer <? sibling_idx then inc_idx else sibling_idx in
    if inclusion_proof_sz t <=? sibling_idx then Ok (inr (-1, dest))
    else
      n ← aget (inclusion_proofs t) sibling_idx;
      dest1 ← memcpy dest (u64 (layer * hash_sz t)) n (hash_sz t);
      let layer1 := layer + 1 in
      Ok (inl (dest1, layer1, Z.shiftr (u64 (layer_cnt + 1)) 1,
               fd_ulong_insert_lsb inc_idx (layer1 + 1) (u64 (u64 (Z.shiftl 1 layer1) - 1))))
  else Ok (inr (layer, dest)).

Definition fd_bmtree_get_proof (t : fd_bmtree_commit_t) (dest : mem) (leaf_idx : Z) : res (Z * mem) :=
  if leaf_cnt t <=? leaf_idx then Ok (0, dest)
  else loop (get_proof_step t) 65 (dest, 0, leaf_cnt t, u64 (leaf_idx * 2)).

(** [fd_bmtree_from_proof]: [n] layers are left. *)
Fixpoint from_proof_layers (n : nat) (layer inc_idx : Z) (tmp : fd_bmtree_node_t) (proof : mem) (hash_sz prefix_sz : Z)
    : res fd_bmtree_node_t :=
  match n with
  | O => Ok tmp
  | S n' =>
      p ← advance proof (u64 (layer * hash_sz));
      sibling ← memcpy (uninit 32) 0 p hash_sz;
      tmp1 ← (if Z.land inc_idx (u64 (Z.shiftl 1 (layer + 1))) =? 0
              then fd_bmtree_private_merge tmp sibling hash_sz prefix_sz
              else fd_bmtree_private_merge sibling tmp hash_sz prefix_sz);
      from_proof_layers n' (layer + 1) (fd_ulong_insert_lsb inc_idx (layer + 2) (u64 (u64 (Z.shiftl 2 layer) - 1)))
        tmp1 proof hash_sz prefix_sz
  end.

Definition fd_bmtree_from_proof (leaf : fd_bmtree_node_t) (leaf_idx : Z) (proof : mem) (proof_depth hash_sz prefix_sz : Z)
    : res (option fd_bmtree_node_t) :=
  if proof_depth <? u64 (fd_bmtree_depth (u64 (leaf_idx + 1)) - 1) then Ok None
  else r ← from_proof_layers (Z.to_nat proof_depth) 0 (u64 (leaf_idx * 2)) leaf proof hash_sz prefix_sz; Ok (Some r).

(** ** Trees built from proofs *)

(** [HAS] *)
Definition HAS (t : fd_bmtree_commit_t) (i : Z) : res bool :=
  o ← aget (inclusion_proofs_valid t) (i / 64);
  w ← deref o;
  Ok (Z.testbit w (i mod 64)).

(** [inclusion_proofs_valid[i/64] |= ipfset_ele( i%64 )] *)
Definition set_valid (t : fd_bmtree_commit_t) (i : Z) : res fd_bmtree_commit_t :=
  o ← aget (inclusion_proofs_valid t) (i / 64);
  w ← deref o;
  v ← aset (inclusion_proofs_valid t) (i / 64) (Some (Z.lor w (Z.shiftl 1 (i mod 64))));
  Ok (with_valid t v).

(** [fd_memeq] of the first [hash_sz] bytes. *)
Definition node_eq (t : fd_bmtree_commit_t) (a b : mem) : res bool :=
  x ← read a 0 (hash_sz t); y ← read b 0 (hash_sz t); Ok (bool_decide (x = y)).

(** [HAS( i ) && !fd_memeq( a, state->inclusion_proofs[ i ].hash, hash_sz )],
    negated, where [known] is [HAS( i )]. *)
Definition check (t : fd_bmtree_commit_t) (known : bool) (i : Z) (a : mem) : res bool :=
  if known then n ← aget (inclusion_proofs t) i; node_eq t a n else Ok true.

(** The node of the proof at a layer. *)
Definition proof_node (t : fd_bmtree_commit_t) (proof : mem) (layer : Z) : res mem :=
  advance proof (u64 (hash_sz t * layer)).

Definition parent (inc_idx layer : Z) : Z :=
  fd_ulong_insert_lsb inc_idx (layer + 2) (u64 (u64 (Z.shiftl 2 layer) - 1)).

(** One layer of the first loop: [None] is the return of 0. *)
Definition climb_layer (t : fd_bmtree_commit_t) (proof : mem) (layer inc_idx : Z) : res (option fd_bmtree_commit_t) :=
  let sibling_idx := Z.lxor inc_idx (u64 (Z.shiftl 2 layer)) in
  p ← proof_node t proof layer;
  hs ← HAS t sibling_idx;
  ok1 ← check t hs sibling_idx p;
  if negb ok1 then Ok None else
  hi ← HAS t inc_idx;
  cur ← aget (node_buf t) layer;
  ok2 ← check t hi inc_idx cur;
  if negb ok2 then Ok None else
  up ← (if hs && hi then aget (inclusion_proofs t) (parent inc_idx layer)
        else
          sibling ← memcpy (uninit 32) 0 p (hash_sz t);
          if Z.land inc_idx (u64 (Z.shiftl 2 layer)) =? 0 then merge t cur sibling else merge t sibling cur);
  b ← aset (node_buf t) (layer + 1) up;
  Ok (Some (with_buf t b)).

Fixpoint climb (n : nat) (t : fd_bmtree_commit_t) (proof : mem) (layer inc_idx : Z)
    : res (fd_bmtree_commit_t * option Z) :=
  match n with
  | O => Ok (t, Some inc_idx)
  | S n' =>
      o ← climb_layer t proof layer inc_idx;
      match o with
      | None => Ok (t, None)
      | Some t1 => climb n' t1 proof (layer + 1) (parent inc_idx layer)
      end
  end.

(** The second loop: derive more nodes from siblings that are known. *)
Fixpoint derive (n : nat) (t : fd_bmtree_commit_t) (layer inc_idx : Z) : res (fd_bmtree_commit_t * Z * Z) :=
  match n with
  | O => Ok (t, layer, inc_idx)
  | S n' =>
      let bit := u64 (Z.shiftl 2 layer) in
      if inclusion_proof_sz t <=? Z.lor inc_idx bit then Ok (t, layer, inc_idx) else
      hi ← HAS t inc_idx;
      hs ← HAS t (Z.lxor inc_idx bit);
      if (hi : bool) || negb hs then Ok (t, layer, inc_idx) else
      sibling ← aget (inclusion_proofs t) (Z.lxor inc_idx bit);
      cur ← aget (node_buf t) layer;
      up ← (if Z.land inc_idx bit =? 0 then merge t cur sibling else merge t sibling cur);
      b ← aset (node_buf t) (layer + 1) up;
      derive n' (with_buf t b) (layer + 1) (parent inc_idx layer)
  end.

(** The third loop: cache the nodes of the main branch from layer [i] on. *)
Fixpoint cache_branch (n : nat) (t : fd_bmtree_commit_t) (i inc_idx : Z) : res fd_bmtree_commit_t :=
  match n with
  | O => Ok t
  | S n' =>
      x ← aget (node_buf t) i;
      p ← aset (inclusion_proofs t) inc_idx x;
      t1 ← set_valid (with_proofs t p) inc_idx;
      cache_branch n' t1 (i + 1) (parent inc_idx i)
  end.

(** The last loop: cache the inclusion proof. *)
Fixpoint cache_proof (n : nat) (t : fd_bmtree_commit_t) (proof : mem) (i inc_idx : Z) : res fd_bmtree_commit_t :=
  match n with
  | O => Ok t
  | S n' =>
      let sibling_idx := Z.lxor inc_idx (u64 (Z.shiftl 2 i)) in
      src ← proof_node t proof i;
      old ← aget (inclusion_proofs t) sibling_idx;
      x ← memcpy old 0 src (hash_sz t);
      p ← aset (inclusion_proofs t) sibling_idx x;
      t1 ← set_valid (with_proofs t p) sibling_idx;
      cache_proof n' t1 proof (i + 1) (parent inc_idx i)
  end.

(** The first half of the insertion: the branch above the leaf, up to the
    layer returned; [None] is the return of 0. *)
Definition ascend (t : fd_bmtree_commit_t) (inc_idx : Z) (proof : mem) (proof_depth : Z)
    : res (fd_bmtree_commit_t * option Z) :=
  '(t1, o) ← climb (Z.to_nat proof_depth) t proof 0 inc_idx;
  match o with
  | None => Ok (t1, None)
  | Some inc_idx1 =>
      '(t2, layer, inc_idx2) ← derive (Z.to_nat (63 - proof_depth)) t1 proof_depth inc_idx1;
      hi ← HAS t2 inc_idx2;
      top ← aget (node_buf t2) layer;
      ok ← check t2 hi inc_idx2 top;
      Ok (t2, if (ok : bool) then Some layer else None)
  end.

(** [fd_bmtree_commitp_insert_with_proof]: [Some root] is the return of 1 with
    [opt_root] set, [None] the return of 0. *)
Definition fd_bmtree_commitp_insert_with_proof (t : fd_bmtree_commit_t) (idx : Z) (new_leaf : fd_bmtree_node_t)
    (proof : mem) (proof_depth : Z) : res (fd_bmtree_commit_t * option fd_bmtree_node_t) :=
  let inc_idx := u64 (2 * idx) in
  if inclusion_proof_sz t <=? inc_idx then Ok (t, None)
  else if (63 <? proof_depth) || (inclusion_proof_sz t <=? u64 (u64 (Z.shiftl 1 proof_depth) - 1)) then Ok (t, None)
  else
    b ← aset (node_buf t) 0 new_leaf;
    '(t2, o) ← ascend (with_buf t b) inc_idx proof proof_depth;
    match o with
    | None => Ok (t2, None)
    | Some layer =>
        t3 ← cache_branch (Z.to_nat (layer + 1)) t2 0 inc_idx;
        t4 ← cache_proof (Z.to_nat proof_depth) t3 proof 0 inc_idx;
        root ← aget (node_buf t4) layer;
        Ok (t4, Some root)
    end.

End bmtree.
