(* ===== verification/BmtreeIdx.v ===== *)
(** * Merkle trees: node indices

    Node [k] of layer [l] (leaves are layer 0) has the index
    [k * 2^(l+1) + 2^l - 1]: binary search tree order.  The bit operations the
    code uses to move in the tree are arithmetic on [l] and [k]. *)

From S2P Require Import Prelude Bits Bytes Bmtree.

#[local] Open Scope Z_scope.

Definition nidx (l k : Z) : Z := k * 2 ^ (l + 1) + 2 ^ l - 1.

(** The other child of the same parent. *)
Definition sib (k : Z) : Z := if Z.even k then k + 1 else k - 1.

(** Even numbers end in 0, odd ones in 1. *)
Lemma even_case k : exists q, (Z.even k = true /\ k = 2 * q) \/ (Z.even k = false /\ k = 2 * q + 1).
Proof.
  exists (k / 2). pose proof (Z.div_mod k 2 ltac:(lia)) as H. rewrite Zmod_even in H. destruct (Z.even k); lia.
Qed.

Lemma pow2_u64 l : 0 <= l < 64 -> u64 (2 ^ l) = 2 ^ l.
Proof.
  intros Hl. apply u64_small. unfold is_u64, ULONG_MAX. split; [apply Z.pow_nonneg; lia|].
  assert (2 ^ l < 2 ^ 64) by (apply Z.pow_lt_mono_r; lia). lia.
Qed.

Lemma pow2_pos l : 0 <= l -> 0 < 2 ^ l.
Proof. intros. apply Z.pow_pos_nonneg; lia. Qed.

Lemma pow2_succ l : 0 <= l -> 2 ^ (l + 1) = 2 * 2 ^ l.
Proof. intros. rewrite Z.pow_add_r by lia. lia. Qed.

Lemma shiftl_pow2 a l : 0 <= l -> Z.shiftl a l = a * 2 ^ l.
Proof. intros. by rewrite Z.shiftl_mul_pow2. Qed.

Lemma shiftl_2 l : 0 <= l < 63 -> u64 (Z.shiftl 2 l) = 2 ^ (l + 1).
Proof. intros. rewrite shiftl_pow2 by lia. rewrite <- pow2_succ by lia. apply pow2_u64. lia. Qed.

Lemma shiftl_1 l : 0 <= l < 64 -> u64 (Z.shiftl 1 l) = 2 ^ l.
Proof. intros. rewrite shiftl_pow2, Z.mul_1_l by lia. apply pow2_u64. lia. Qed.

(** Inserting the low bits of a word. *)
Lemma mask_lsb_ones n : 0 <= n < 64 -> fd_ulong_mask_lsb n = Z.ones n.
Proof.
  intros Hn. unfold fd_ulong_mask_lsb. rewrite (proj2 (Z.ltb_lt n 64)) by lia. simpl Z.b2z.
  assert (Z.land n 63 = n) as -> by (change 63 with (Z.ones 6); rewrite Z.land_ones by lia; apply Z.mod_small; lia).
  rewrite shiftl_pow2, Z.mul_1_l, Z.ones_equiv by lia. pose proof (pow2_pos n ltac:(lia)).
  assert (2 ^ n < 2 ^ 64) by (apply Z.pow_lt_mono_r; lia). apply u64_small. unfold is_u64, ULONG_MAX. lia.
Qed.

Lemma insert_lsb_arith x n y : 0 <= n < 64 -> 0 <= y < 2 ^ n -> fd_ulong_insert_lsb x n y = x / 2 ^ n * 2 ^ n + y.
Proof.
  intros Hn Hy. unfold fd_ulong_insert_lsb, fd_ulong_clear_lsb. rewrite mask_lsb_ones by done.
  change (Z.land x (Z.lnot (Z.ones n))) with (Z.land x (Z.lnot (Z.ones n))). rewrite <- Z.ldiff_land, Z.ldiff_ones_r by lia.
  rewrite shiftl_pow2, Z.shiftr_div_pow2, Z.lor_comm, lor_add by lia. lia.
Qed.

(** ** One bit *)

Lemma land_pow2 x m : 0 <= m -> Z.land x (2 ^ m) = if Z.testbit x m then 2 ^ m else 0.
Proof.
  intros Hm. apply Z.bits_inj'. intros i Hi. rewrite Z.land_spec, Z.pow2_bits_eqb by done.
  destruct (Z.eqb_spec m i) as [->|Hne].
  - destruct (Z.testbit x i); simpl; [by rewrite Z.pow2_bits_true by done|by rewrite Z.bits_0].
  - rewrite andb_false_r. destruct (Z.testbit x m); [by rewrite Z.pow2_bits_false by lia|by rewrite Z.bits_0].
Qed.

Lemma lxor_pow2 x m : 0 <= m -> Z.lxor x (2 ^ m) = if Z.testbit x m then x - 2 ^ m else x + 2 ^ m.
Proof.
  intros Hm. destruct (Z.testbit x m) eqn:E.
  - apply Z.lxor_eq. rewrite Z.lxor_assoc.
    assert (Hs : Z.lxor (2 ^ m) (x - 2 ^ m) = x); [|by rewrite Hs, Z.lxor_nilpotent].
    rewrite Z.lxor_comm, <- Z.add_nocarry_lxor; [lia|].
    rewrite land_pow2 by done. rewrite Z.testbit_eqb in E |- * by done.
    replace (x - 2 ^ m) with (x + (-1) * 2 ^ m) by lia. rewrite Z.div_add by (pose proof (pow2_pos m Hm); lia).
    apply Z.eqb_eq in E. destruct (Z.eqb_spec ((x / 2 ^ m + -1) mod 2) 1); [|done]. exfalso.
    pose proof (Z.div_mod (x / 2 ^ m) 2). pose proof (Z.div_mod (x / 2 ^ m + -1) 2). lia.
  - symmetry. apply Z.add_nocarry_lxor. rewrite land_pow2 by done. by rewrite E.
Qed.

Lemma lor_pow2 x m : 0 <= m -> Z.lor x (2 ^ m) = if Z.testbit x m then x else x + 2 ^ m.
Proof.
  intros Hm. destruct (Z.testbit x m) eqn:E.
  - apply Z.bits_inj'. intros i Hi. rewrite Z.lor_spec, Z.pow2_bits_eqb by done.
    destruct (Z.eqb_spec m i) as [->|]; [by rewrite E|]. by rewrite orb_false_r.
  - assert (Hl : Z.land x (2 ^ m) = 0) by (rewrite land_pow2 by done; by rewrite E).
    rewrite <- Z.lxor_lor by done. by rewrite Z.add_nocarry_lxor.
Qed.

(** ** Moving in the tree *)

Section moves.
Context (l k : Z) (Hl : 0 <= l) (Hk : 0 <= k).

Lemma nidx_nonneg : 0 <= nidx l k.
Proof using Hl Hk. unfold nidx. pose proof (pow2_pos l Hl). pose proof (pow2_pos (l + 1)). nia. Qed.

Lemma nidx_div : nidx l k / 2 ^ (l + 1) = k.
Proof using Hl.
  unfold nidx. pose proof (pow2_pos l Hl). pose proof (pow2_succ l Hl).
  symmetry. apply (Z.div_unique_pos _ _ _ (2 ^ l - 1)); lia.
Qed.

Lemma nidx_bit : Z.testbit (nidx l k) (l + 1) = negb (Z.even k).
Proof using Hl. rewrite Z.testbit_odd, Z.shiftr_div_pow2, nidx_div by lia. by rewrite Z.negb_even. Qed.

Lemma nidx_side : (Z.land (nidx l k) (2 ^ (l + 1)) =? 0) = Z.even k.
Proof using Hl.
  rewrite land_pow2, nidx_bit by lia. pose proof (pow2_pos (l + 1)).
  destruct (Z.even k); simpl; [done|]. apply Z.eqb_neq. lia.
Qed.

Lemma nidx_sib : Z.lxor (nidx l k) (2 ^ (l + 1)) = nidx l (sib k).
Proof using Hl. rewrite lxor_pow2, nidx_bit by lia. unfold sib, nidx. destruct (Z.even k); simpl; lia. Qed.

Lemma nidx_lor : Z.lor (nidx l k) (2 ^ (l + 1)) = nidx l (Z.max k (sib k)).
Proof using Hl. rewrite lor_pow2, nidx_bit by lia. unfold sib, nidx. destruct (Z.even k); simpl; lia. Qed.

Lemma nidx_parent : l < 62 -> parent (nidx l k) l = nidx (l + 1) (k / 2).
Proof using Hl.
  intros Hl'. unfold parent. rewrite shiftl_2 by lia. pose proof (pow2_pos l Hl). pose proof (pow2_succ l Hl).
  pose proof (pow2_succ (l + 1) ltac:(lia)) as Hs. replace (l + 1 + 1) with (l + 2) in Hs by lia.
  assert (2 ^ (l + 2) <= 2 ^ 63) by (apply Z.pow_le_mono_r; lia).
  rewrite u64_small by (unfold is_u64, ULONG_MAX; lia). rewrite insert_lsb_arith by lia.
  unfold nidx. replace (l + 1 + 1) with (l + 2) by lia.
  assert ((k * 2 ^ (l + 1) + 2 ^ l - 1) / 2 ^ (l + 2) = k / 2) as ->; [|lia].
  pose proof (Z.div_mod k 2 ltac:(lia)) as Hdm. pose proof (Z.mod_pos_bound k 2 ltac:(lia)).
  symmetry. apply (Z.div_unique_pos _ _ _ (k mod 2 * 2 ^ (l + 1) + 2 ^ l - 1)); nia.
Qed.

(** Node [k] of layer [l] fits in a tree of [n] layers. *)
Lemma nidx_bound n : l < n -> k < 2 ^ (n - 1 - l) -> nidx l k < 2 ^ n - 1.
Proof using Hl.
  intros Hln Hkn. unfold nidx. pose proof (pow2_pos l Hl).
  assert (2 ^ n = 2 ^ (n - 1 - l) * 2 ^ (l + 1)) as -> by (rewrite <- Z.pow_add_r by lia; f_equal; lia).
  rewrite pow2_succ by done. nia.
Qed.

Lemma sib_bound n : k < 2 ^ n -> 0 < n -> 0 <= sib k < 2 ^ n.
Proof using Hk.
  intros Hkn Hn. assert (2 ^ n = 2 * 2 ^ (n - 1)) as E by (rewrite <- Z.pow_succ_r by lia; f_equal; lia).
  unfold sib. destruct (even_case k) as (q & [[-> ->]|[-> ->]]); lia.
Qed.

End moves.

Lemma sib_sib k : sib (sib k) = k.
Proof. unfold sib. destruct (Z.even k) eqn:E; rewrite ?Z.even_add, ?Z.even_sub, E; simpl; lia. Qed.

Lemma sib_div k : sib k / 2 = k / 2.
Proof.
  unfold sib. destruct (even_case k) as (q & [[-> E]|[-> E]]); Z.to_euclidean_division_equations; lia.
Qed.

(** Two children of one parent are equal or siblings. *)
Lemma same_parent k k' : k / 2 = k' / 2 -> k' = k \/ k' = sib k.
Proof.
  intros H. unfold sib. destruct (even_case k) as (q & [[-> E]|[-> E]]); Z.to_euclidean_division_equations; lia.
Qed.

(** Indices determine layer and position. *)
Lemma nidx_inj_lt l k l' k' : 0 <= l < l' -> nidx l k <> nidx l' k'.
Proof.
  intros Hl. unfold nidx. intros E.
  assert (H1 : 2 ^ l' = 2 ^ l * (2 * 2 ^ (l' - l - 1))).
  { rewrite <- Z.pow_succ_r, <- Z.pow_add_r by lia. f_equal. lia. }
  rewrite !pow2_succ, H1 in E by lia. pose proof (pow2_pos l ltac:(lia)). set (m := 2 ^ (l' - l - 1)) in *.
  assert (2 ^ l * (2 * k + 1) = 2 ^ l * (2 * m * (2 * k' + 1))) as E' by nia.
  apply Z.mul_reg_l in E'; [|lia]. lia.
Qed.

Lemma nidx_inj l k l' k' : 0 <= l -> 0 <= l' -> nidx l k = nidx l' k' -> l = l' /\ k = k'.
Proof.
  intros Hl Hl' E. destruct (Z.lt_trichotomy l l') as [H|[->|H]].
  - by apply nidx_inj_lt in E.
  - split; [done|]. unfold nidx in E. pose proof (pow2_pos (l' + 1) ltac:(lia)). nia.
  - symmetry in E. by apply nidx_inj_lt in E.
Qed.
