(* ===== verification/BmtreeView.v ===== *)
(** * Merkle trees: what a tree built from proofs knows

    The nodes a tree has learnt, as a partial function from indices to hashes;
    reading, merging and storing nodes in terms of it. *)

From S2P Require Import Prelude Bits Bytes Bmtree BmtreeIdx.

#[local] Open Scope Z_scope.

(** The first [h] bytes of a node, when they are determinate. *)
Definition hval (h : Z) (n : mem) : option (list Z) := mapM id (take (Z.to_nat h) n).

Definition has (t : fd_bmtree_commit_t) (i : Z) : bool :=
  match inclusion_proofs_valid t !! Z.to_nat (i / 64) with
  | Some (Some w) => Z.testbit w (i mod 64)
  | _ => false
  end.

(** The hash the tree knows for the node with index [i]. *)
Definition view (t : fd_bmtree_commit_t) (i : Z) : option (list Z) :=
  if has t i then n ← inclusion_proofs t !! Z.to_nat i; hval (hash_sz t) n else None.

(** The hash [v] does not contradict what is known. *)
Definition agreeb (o : option (list Z)) (v : list Z) : bool :=
  match o with Some w => bool_decide (v = w) | None => true end.

(** A tree of at most [L] layers. *)
Record tree_wf (L : Z) (t : fd_bmtree_commit_t) : Prop := {
  tw_layers : 1 <= L <= 63;
  tw_sz : inclusion_proof_sz t = 2 ^ L - 1;
  tw_hash : 0 <= hash_sz t <= 32;
  tw_buf : length (node_buf t) = 63%nat;
  tw_proofs : Z.of_nat (length (inclusion_proofs t)) = 2 ^ L - 1;
  tw_nodes : Forall (fun n => length n = 32%nat) (inclusion_proofs t);
  tw_words : Z.of_nat (length (inclusion_proofs_valid t)) = 1 + (2 ^ L - 1) / 64;
  tw_clean : Forall (fun o : option Z => is_Some o) (inclusion_proofs_valid t);
  tw_known i : 0 <= i < 2 ^ L - 1 -> has t i = true -> is_Some (view t i)
}.

(** Everything but the cached nodes. *)
Definition same (t t' : fd_bmtree_commit_t) : Prop :=
  leaf_cnt t' = leaf_cnt t /\ hash_sz t' = hash_sz t /\ prefix_sz t' = prefix_sz t /\ node_buf t' = node_buf t.

Lemma read_hval n h v : 0 <= h <= Z.of_nat (length n) -> hval h n = Some v -> read n 0 h = Ok v.
Proof.
  intros Hh Hv. unfold read. simpl Z.ltb. rewrite (proj2 (Z.ltb_ge h 0)), (proj2 (Z.ltb_ge (Z.of_nat (length n)) (0 + h))) by lia. simpl.
  rewrite drop_0. unfold hval in Hv. by rewrite Hv.
Qed.

Lemma hval_bytes bs h : hval h (bytes bs) = Some (take (Z.to_nat h) bs).
Proof. unfold hval, bytes. rewrite <- fmap_take. apply mapM_bytes. Qed.

(** Copying a hash over the front of a node. *)
Lemma memcpy_hval dst src h v :
  0 <= h <= Z.of_nat (length dst) -> h <= Z.of_nat (length src) -> hval h src = Some v ->
  exists n, memcpy dst 0 src h = Ok n /\ length n = length dst /\ hval h n = Some v.
Proof.
  intros Hd Hs Hv. rewrite memcpy_ok by lia. eexists. split; [done|]. split.
  - rewrite !length_app, !length_take, length_drop. lia.
  - unfold hval in *. change (Z.to_nat 0) with 0%nat. rewrite take_0. simpl app.
    rewrite take_app_le, take_take, Nat.min_id by (rewrite length_take; lia). done.
Qed.

Section wf.
Context (L : Z) (t : fd_bmtree_commit_t) (W : tree_wf L t).

Lemma HAS_ok i : 0 <= i < 2 ^ L -> HAS t i = Ok (has t i).
Proof using W.
  intros Hi. unfold HAS, has. destruct (aget_ok (inclusion_proofs_valid t) (i / 64)) as (o & -> & Ho).
  { rewrite (tw_words _ _ W). pose proof (Z.div_pos i 64). pose proof (Z.div_le_mono i (2 ^ L - 1) 64). lia. }
  rewrite Ho. cbn [mbind res_bind]. pose proof (tw_clean _ _ W) as Hc. rewrite Forall_forall in Hc.
  destruct (Hc o) as [w ->]; [by eapply list_elem_of_lookup_2|]. done.
Qed.

Lemma get_proofs_node i : 0 <= i < 2 ^ L - 1 ->
  exists n, aget (inclusion_proofs t) i = Ok n /\ length n = 32%nat /\ inclusion_proofs t !! Z.to_nat i = Some n.
Proof using W.
  intros Hi. destruct (aget_ok (inclusion_proofs t) i) as (n & E & Hn); [rewrite (tw_proofs _ _ W); lia|].
  exists n. split; [done|]. split; [|done]. pose proof (tw_nodes _ _ W) as Hf. rewrite Forall_forall in Hf.
  apply Hf. by eapply list_elem_of_lookup_2.
Qed.

Lemma view_node i v : 0 <= i < 2 ^ L - 1 -> view t i = Some v ->
  exists n, aget (inclusion_proofs t) i = Ok n /\ length n = 32%nat /\ hval (hash_sz t) n = Some v.
Proof using W.
  intros Hi Hv. destruct (get_proofs_node i Hi) as (n & E & Hl & Hn). exists n. split_and!; [done|done|].
  unfold view in Hv. destruct (has t i); [|done]. by rewrite Hn in Hv.
Qed.

Lemma view_has i : 0 <= i < 2 ^ L - 1 -> has t i = bool_decide (is_Some (view t i)).
Proof using W.
  intros Hi. destruct (has t i) eqn:E.
  - symmetry. apply bool_decide_eq_true. by apply (tw_known _ _ W).
  - unfold view. rewrite E. symmetry. by apply bool_decide_eq_false; intros [].
Qed.

(** Comparing a node with what is known of node [i]. *)
Lemma check_ok i a v : 0 <= i < 2 ^ L - 1 -> hash_sz t <= Z.of_nat (length a) -> hval (hash_sz t) a = Some v ->
  check t (has t i) i a = Ok (agreeb (view t i) v).
Proof using W.
  intros Hi Ha Hv. unfold check. rewrite view_has by done. pose proof (tw_hash _ _ W). destruct (view t i) as [w|] eqn:Ew; [|done].
  destruct (view_node i w Hi Ew) as (n & -> & Hn & Hw). simpl. unfold node_eq.
  by rewrite (read_hval a _ v), (read_hval n _ w) by (done || lia).
Qed.

Lemma tree_wf_buf b : length b = 63%nat -> tree_wf L (with_buf t b).
Proof using W. intros Hb. destruct W. constructor; done. Qed.

(** Storing a node and marking it valid. *)
Lemma store_ok i x v : 0 <= i < 2 ^ L - 1 -> length x = 32%nat -> hval (hash_sz t) x = Some v ->
  exists p t', aset (inclusion_proofs t) i x = Ok p /\ set_valid (with_proofs t p) i = Ok t' /\
    tree_wf L t' /\ same t t' /\ inclusion_proof_sz t' = inclusion_proof_sz t /\
    forall j, 0 <= j -> view t' j = if decide (j = i) then Some v else view t j.
Proof using W.
  intros Hi Hx Hv. rewrite aset_ok by (rewrite (tw_proofs _ _ W); lia). eexists. 
  unfold set_valid. simpl inclusion_proofs_valid.
  destruct (aget_ok (inclusion_proofs_valid t) (i / 64)) as (o & -> & Ho).
  { rewrite (tw_words _ _ W). pose proof (Z.div_pos i 64). pose proof (Z.div_le_mono i (2 ^ L - 1) 64). lia. }
  pose proof (tw_clean _ _ W) as Hc. rewrite Forall_forall in Hc.
  destruct (Hc o) as [w ->]; [by eapply list_elem_of_lookup_2|]. cbn [mbind res_bind deref].
  pose proof (lookup_lt_Some _ _ _ Ho) as Hlt.
  rewrite aset_ok by (pose proof (Z.div_pos i 64); lia). eexists. split; [done|]. split; [done|].
  set (t' := with_valid _ _).
  assert (Hhas : forall j, 0 <= j -> has t' j = has t j || (j =? i)).
  { intros j Hj. unfold has, t'. simpl. pose proof (Z.div_pos i 64). pose proof (Z.div_pos j 64).
    pose proof (Z.mod_pos_bound i 64). pose proof (Z.mod_pos_bound j 64).
    destruct (Z.eqb_spec j i) as [->|Hne].
    - rewrite list_lookup_insert_eq by lia. rewrite Z.lor_spec, Z.shiftl_spec, Z.sub_diag by lia. by rewrite !orb_true_r.
    - rewrite orb_false_r. destruct (decide (Z.to_nat (i / 64) = Z.to_nat (j / 64))) as [E|E].
      + rewrite <- E, list_lookup_insert_eq, Ho by lia. rewrite Z.lor_spec, Z.shiftl_spec by lia.
        assert (j mod 64 <> i mod 64).
        { intros Em. apply Hne. rewrite (Z.div_mod j 64), (Z.div_mod i 64) by lia. lia. }
        change 1 with (2 ^ 0). rewrite Z.pow2_bits_false by lia. by rewrite orb_false_r.
      + by rewrite list_lookup_insert_ne. }
  assert (Hview : forall j, 0 <= j -> view t' j = if decide (j = i) then Some v else view t j).
  { intros j Hj. unfold view. rewrite Hhas by done. unfold t'. simpl.
    destruct (decide (j = i)) as [->|Hne].
    - rewrite Z.eqb_refl, orb_true_r, list_lookup_insert_eq; [done|]. pose proof (tw_proofs _ _ W). lia.
    - rewrite (proj2 (Z.eqb_neq j i)) by done. rewrite orb_false_r, list_lookup_insert_ne by lia. done. }
  split_and!; [|done|done|done]. destruct W. constructor; simpl; try done.
  - by rewrite length_insert.
  - by apply Forall_insert.
  - by rewrite length_insert.
  - apply Forall_insert; [done|]. eauto.
  - intros j Hj Hj'. rewrite Hview by lia. destruct (decide _); [eauto|]. apply tw_known0; [done|].
    rewrite Hhas in Hj' by lia. destruct (Z.eqb_spec j i); [done|]. by rewrite orb_false_r in Hj'.
Qed.

End wf.

(** ** Hashing *)

Section hashing.
Context (sha256 : list Z -> list Z).
Hypothesis sha256_length : forall m, length (sha256 m) = 32%nat.

(** The digest of two hashes, and the hash of a node from those of its
    children. *)
Definition digest (t : fd_bmtree_commit_t) (a b : list Z) : list Z :=
  sha256 (take (Z.to_nat (prefix_sz t)) fd_bmtree_node_prefix ++ a ++ b).
Definition hnode (t : fd_bmtree_commit_t) (a b : list Z) : list Z := take (Z.to_nat (hash_sz t)) (digest t a b).

(** The parent of node [k] with hash [a], whose sibling has [b]. *)
Definition updigest (t : fd_bmtree_commit_t) (k : Z) (a b : list Z) : list Z :=
  if Z.even k then digest t a b else digest t b a.
Definition up (t : fd_bmtree_commit_t) (k : Z) (a b : list Z) : list Z :=
  if Z.even k then hnode t a b else hnode t b a.

(** A node whose children are both known is known, and is their hash. *)
Definition consistent (L : Z) (t : fd_bmtree_commit_t) : Prop :=
  forall l k a b, 0 <= l < L - 1 -> 0 <= k < 2 ^ (L - 1 - l) ->
    view t (nidx l k) = Some a -> view t (nidx l (sib k)) = Some b ->
    view t (nidx (l + 1) (k / 2)) = Some (up t k a b).

Lemma merge_ok t x y a b : 0 <= hash_sz t <= 32 -> length x = 32%nat -> length y = 32%nat ->
  hval (hash_sz t) x = Some a -> hval (hash_sz t) y = Some b -> merge sha256 t x y = Ok (bytes (digest t a b)).
Proof.
  intros Hh Hx Hy Ha Hb. unfold merge, fd_bmtree_private_merge.
  by rewrite (read_hval x _ a), (read_hval y _ b) by (done || lia).
Qed.

(** Merging a node with its sibling, on the side it is on. *)
Lemma merge_side t k x y a b : 0 <= hash_sz t <= 32 -> length x = 32%nat -> length y = 32%nat ->
  hval (hash_sz t) x = Some a -> hval (hash_sz t) y = Some b ->
  (if Z.even k then merge sha256 t x y else merge sha256 t y x) = Ok (bytes (updigest t k a b)).
Proof. intros. unfold updigest. destruct (Z.even k); by apply merge_ok. Qed.

Lemma updigest_length t k a b : length (bytes (updigest t k a b)) = 32%nat.
Proof using sha256_length. rewrite bytes_length. unfold updigest, digest. destruct (Z.even k); apply sha256_length. Qed.

Lemma updigest_hval t k a b : hval (hash_sz t) (bytes (updigest t k a b)) = Some (up t k a b).
Proof. rewrite hval_bytes. unfold updigest, up, hnode. by destruct (Z.even k). Qed.

End hashing.
