(* ===== verification/BmtreeProof.v ===== *)
(** * Merkle trees: inserting leaves with their proofs

    [fd_bmtree_commitp_insert_with_proof] never leaves its arrays, keeps the
    nodes it knows consistent, and accepts a leaf exactly when its proof does
    not contradict them. *)

From S2P Require Import Prelude Bits Bytes Bmtree BmtreeIdx BmtreeView.

#[local] Open Scope Z_scope.

(** The hash [v] does not contradict what is known of node [i]. *)
Definition agree (t : fd_bmtree_commit_t) (i : Z) (v : list Z) : Prop := forall w, view t i = Some w -> w = v.

Lemma agreeb_spec t i v : agreeb (view t i) v = true <-> agree t i v.
Proof.
  unfold agree, agreeb. destruct (view t i) as [w|]; [|naive_solver].
  rewrite bool_decide_eq_true. naive_solver.
Qed.

(** The nodes of the branch above leaf [idx]. *)
Definition pk (idx m : Z) : Z := idx / 2 ^ m.

Lemma pk_succ idx m : 0 <= m -> pk idx m / 2 = pk idx (m + 1).
Proof. intros. unfold pk. pose proof (pow2_pos m). rewrite Z.div_div, pow2_succ by lia. f_equal. lia. Qed.

Lemma pk_0 idx : pk idx 0 = idx.
Proof. unfold pk. apply Z.div_1_r. Qed.

(** The first [m + 1] nodes of the buffer hash to [p]. *)
Definition buf_ok (t : fd_bmtree_commit_t) (m : Z) (p : Z -> list Z) : Prop :=
  forall j, 0 <= j <= m ->
    exists n, node_buf t !! Z.to_nat j = Some n /\ length n = 32%nat /\ hval (hash_sz t) n = Some (p j).

(** The proof holds the hash [s] at layer [m]. *)
Definition proof_at (t : fd_bmtree_commit_t) (proof : mem) (m : Z) (s : list Z) : Prop :=
  hash_sz t * m + hash_sz t <= Z.of_nat (length proof) /\
  hval (hash_sz t) (drop (Z.to_nat (hash_sz t * m)) proof) = Some s.

Lemma buf_ok_extend t m p x (n : mem) :
  0 <= m < 62 -> length (node_buf t) = 63%nat -> buf_ok t m p -> length n = 32%nat -> hval (hash_sz t) n = Some x ->
  buf_ok (with_buf t (<[Z.to_nat (m + 1) := n]> (node_buf t))) (m + 1) (fun j => if j =? m + 1 then x else p j).
Proof.
  intros Hm Hl H Hn Hx j Hj. simpl. destruct (Z.eqb_spec j (m + 1)) as [->|Hne].
  - exists n. rewrite list_lookup_insert_eq by lia. done.
  - rewrite list_lookup_insert_ne by lia. apply H. lia.
Qed.

Lemma buf_ok_ext t m p q : (forall j, 0 <= j <= m -> p j = q j) -> buf_ok t m p -> buf_ok t m q.
Proof. intros E H j Hj. rewrite <- E by done. by apply H. Qed.

Lemma buf_get t m p : 0 <= m -> buf_ok t m p ->
  exists n, aget (node_buf t) m = Ok n /\ length n = 32%nat /\ hval (hash_sz t) n = Some (p m).
Proof.
  intros Hm H. destruct (H m ltac:(lia)) as (n & Hn & Hl & Hv). exists n. split_and!; [|done|done].
  unfold aget. rewrite (proj2 (Z.ltb_ge m 0)) by lia. by rewrite Hn.
Qed.

Section insert.
Context (sha256 : list Z -> list Z) (L idx : Z).
Hypothesis sha256_length : forall m, length (sha256 m) = 32%nat.
Hypothesis layers : 1 <= L <= 63.
Hypothesis leaf_fits : 0 <= idx < 2 ^ (L - 1).

Abbreviation pk := (pk idx).
Abbreviation up := (up sha256).

Lemma pk_bound m : 0 <= m <= L - 1 -> 0 <= pk m < 2 ^ (L - 1 - m).
Proof using leaf_fits.
  intros Hm. unfold BmtreeProof.pk. pose proof (pow2_pos m). split; [apply Z.div_pos; lia|].
  apply Z.div_lt_upper_bound; [lia|]. rewrite <- Z.pow_add_r by lia. replace (m + (L - 1 - m)) with (L - 1) by lia. lia.
Qed.

Lemma branch_bound m : 0 <= m <= L - 1 -> 0 <= nidx m (pk m) < 2 ^ L - 1.
Proof using leaf_fits.
  intros Hm. pose proof (pk_bound m Hm). split; [apply nidx_nonneg; lia|]. apply nidx_bound; lia.
Qed.

Lemma sibling_bound m : 0 <= m < L - 1 -> 0 <= nidx m (sib (pk m)) < 2 ^ L - 1.
Proof using leaf_fits.
  intros Hm. pose proof (pk_bound m ltac:(lia)). pose proof (sib_bound (pk m) ltac:(lia) (L - 1 - m) ltac:(lia) ltac:(lia)).
  split; [apply nidx_nonneg; lia|]. apply nidx_bound; lia.
Qed.

Lemma pk_top : pk (L - 1) = 0.
Proof using leaf_fits layers. pose proof (pk_bound (L - 1) ltac:(lia)) as H. rewrite Z.sub_diag in H. simpl in H. lia. Qed.

(** ** One layer of the proof *)

Lemma climb_layer_ok t proof m p s :
  tree_wf L t -> consistent sha256 L t -> 0 <= m < L - 1 -> buf_ok t m p -> proof_at t proof m s ->
  exists o, climb_layer sha256 t proof m (nidx m (pk m)) = Ok o /\
    match o with
    | None => ~ agree t (nidx m (pk m)) (p m) \/ ~ agree t (nidx m (sib (pk m))) s
    | Some t1 => agree t (nidx m (pk m)) (p m) /\ agree t (nidx m (sib (pk m))) s /\
        exists n, t1 = with_buf t (<[Z.to_nat (m + 1) := n]> (node_buf t)) /\ length n = 32%nat /\
          hval (hash_sz t) n = Some (up t (pk m) (p m) s) /\ (view t (nidx m (pk m)) = None -> n = bytes (updigest sha256 t (pk m) (p m) s))
    end.
Proof using sha256_length leaf_fits layers.
  intros W C Hm B [Hpl Hps]. pose proof (tw_hash _ _ W) as Hh. pose proof (tw_layers _ _ W).
  pose proof (branch_bound m ltac:(lia)) as Hb. pose proof (sibling_bound m Hm) as Hsb.
  unfold climb_layer, proof_node. rewrite shiftl_2 by lia. rewrite nidx_sib, nidx_side by lia.
  rewrite (u64_small (hash_sz t * m)) by (unfold is_u64, ULONG_MAX; nia).
  rewrite advance_ok by nia. cbn [mbind res_bind].
  set (pp := drop _ proof) in *. assert (Hppl : hash_sz t <= Z.of_nat (length pp)) by (unfold pp; rewrite length_drop; nia).
  destruct (buf_get t m p ltac:(lia) B) as (cur & Ecur & Hcl & Hcv).
  rewrite (HAS_ok L t W (nidx m (sib (pk m)))) by lia. cbn [mbind res_bind]. rewrite (check_ok L t W _ pp s) by (done || lia).
  cbn [mbind res_bind]. destruct (agreeb (view t (nidx m (sib (pk m)))) s) eqn:A1; simpl negb; cbv iota.
  2: { exists None. split; [done|]. right. rewrite <- agreeb_spec, A1. done. }
  rewrite (HAS_ok L t W) by lia. cbn [mbind res_bind]. rewrite Ecur. cbn [mbind res_bind].
  rewrite (check_ok L t W _ cur (p m)) by (done || lia). cbn [mbind res_bind].
  destruct (agreeb (view t (nidx m (pk m))) (p m)) eqn:A2; simpl negb; cbv iota.
  2: { exists None. split; [done|]. left. rewrite <- agreeb_spec, A2. done. }
  apply agreeb_spec in A1, A2.
  assert (Hup : exists n, (if has t (nidx m (sib (pk m))) && has t (nidx m (pk m)) then
      aget (inclusion_proofs t) (parent (nidx m (pk m)) m)
    else sibling ← memcpy (uninit 32) 0 pp (hash_sz t);
      if Z.even (pk m) then merge sha256 t cur sibling else merge sha256 t sibling cur) = Ok n /\
    length n = 32%nat /\ hval (hash_sz t) n = Some (up t (pk m) (p m) s) /\ (view t (nidx m (pk m)) = None -> n = bytes (updigest sha256 t (pk m) (p m) s))).
  { rewrite !(view_has L t W) by lia.
    destruct (bool_decide (is_Some (view t (nidx m (sib (pk m))))) && bool_decide (is_Some (view t (nidx m (pk m))))) eqn:Eb.
    - apply andb_true_iff in Eb as [[ws Hs]%bool_decide_eq_true [wi Hi]%bool_decide_eq_true].
      pose proof (A1 _ Hs). pose proof (A2 _ Hi). subst ws wi.
      rewrite nidx_parent by lia. destruct (view_node L t W (nidx (m + 1) (pk m / 2)) (up t (pk m) (p m) s)) as (nd & En & Hnl & Hnv).
      + rewrite pk_succ by lia. apply branch_bound. lia.
      + apply C; [done|apply pk_bound; lia|done|done].
      + exists nd. split_and!; [done|done|done|]. by rewrite Hi.
    - destruct (memcpy_hval (uninit 32) pp (hash_sz t) s) as (sn & -> & Hsl & Hsv);
        [unfold uninit; rewrite length_replicate; lia|lia|done|].
      cbn [mbind res_bind].
      rewrite (merge_side sha256 t (pk m) cur sn (p m) s Hh) by done. eexists. split; [done|].
      split_and!; [by apply updigest_length|apply updigest_hval|done]. }
  destruct Hup as (n & -> & Hnl & Hnv & Hnf). cbn [mbind res_bind].
  rewrite aset_ok by (rewrite (tw_buf _ _ W); lia). cbn [mbind res_bind].
  eexists. split; [done|]. split; [done|]. split; [done|]. by exists n.
Qed.

(** ** The whole proof *)

(** The hashes of the branch from a leaf with hash [x] and proof [s]. *)
Fixpoint branch (t : fd_bmtree_commit_t) (x : list Z) (s : Z -> list Z) (n : nat) : list Z :=
  match n with
  | O => x
  | S n' => up t (pk (Z.of_nat n')) (branch t x s n') (s (Z.of_nat n'))
  end.

(** Nothing known contradicts the branch or the proof at layer [j]. *)
Definition agree_layer (t : fd_bmtree_commit_t) (x : list Z) (s : Z -> list Z) (j : Z) : Prop :=
  agree t (nidx j (pk j)) (branch t x s (Z.to_nat j)) /\ agree t (nidx j (sib (pk j))) (s j).

(** The digest at layer [m] of the branch. *)
Definition top_digest (t : fd_bmtree_commit_t) (x : list Z) (s : Z -> list Z) (m : Z) : list Z :=
  updigest sha256 t (pk (m - 1)) (branch t x s (Z.to_nat (m - 1))) (s (m - 1)).

Lemma branch_buf t b x s n : branch (with_buf t b) x s n = branch t x s n.
Proof. induction n as [|n IH]; [done|]. simpl. by rewrite IH. Qed.

Lemma agree_layer_buf t b x s j : agree_layer (with_buf t b) x s j <-> agree_layer t x s j.
Proof. unfold agree_layer. by rewrite branch_buf. Qed.

Lemma top_digest_buf t b x s m : top_digest (with_buf t b) x s m = top_digest t x s m.
Proof. unfold top_digest. by rewrite branch_buf. Qed.

Lemma branch_succ t x s m : 0 <= m ->
  branch t x s (Z.to_nat (m + 1)) = up t (pk m) (branch t x s (Z.to_nat m)) (s m).
Proof. intros Hm. replace (Z.to_nat (m + 1)) with (S (Z.to_nat m)) by lia. simpl. by rewrite Z2Nat.id by lia. Qed.

Lemma climb_ok proof x s n : forall t m,
  tree_wf L t -> consistent sha256 L t -> 0 <= m -> m + Z.of_nat n <= L - 1 ->
  buf_ok t m (fun j => branch t x s (Z.to_nat j)) ->
  (forall j, m <= j < m + Z.of_nat n -> proof_at t proof j (s j)) ->
  exists b o, climb sha256 n t proof m (nidx m (pk m)) = Ok (with_buf t b, o) /\ length b = 63%nat /\
    match o with
    | None => exists j, m <= j < m + Z.of_nat n /\ ~ agree_layer t x s j
    | Some i => i = nidx (m + Z.of_nat n) (pk (m + Z.of_nat n)) /\
        ((0 < n)%nat -> (forall j, view t (nidx j (pk j)) = None) -> 
           b !! Z.to_nat (m + Z.of_nat n) = Some (bytes (top_digest t x s (m + Z.of_nat n)))) /\
        buf_ok (with_buf t b) (m + Z.of_nat n) (fun j => branch t x s (Z.to_nat j)) /\
        forall j, m <= j < m + Z.of_nat n -> agree_layer t x s j
    end.
Proof using sha256_length leaf_fits layers.
  induction n as [|n IH]; intros t m W C Hm Hn B Hp; cbn [climb].
  { exists (node_buf t), (Some (nidx m (pk m))). rewrite Z.add_0_r. split; [by destruct t|].
    split; [apply W|]. split_and!; [done|lia|by destruct t|lia]. }
  destruct (climb_layer_ok t proof m _ (s m) W C ltac:(lia) B ltac:(apply Hp; lia)) as ([t1|] & -> & H); cbn [mbind res_bind].
  2: { exists (node_buf t), None. split; [by destruct t|]. split; [apply W|]. exists m. split; [lia|].
       unfold agree_layer. tauto. }
  destruct H as (A1 & A2 & nd & -> & Hl & Hv & Hf). rewrite nidx_parent by lia. rewrite pk_succ by lia.
  set (b1 := <[Z.to_nat (m + 1) := nd]> (node_buf t)).
  assert (Hb1 : length b1 = 63%nat) by (unfold b1; rewrite length_insert; apply W).
  assert (B1 : buf_ok (with_buf t b1) (m + 1) (fun j => branch t x s (Z.to_nat j))).
  { eapply buf_ok_ext; [|apply (buf_ok_extend t m _ (branch t x s (Z.to_nat (m + 1))) nd ltac:(lia) ltac:(apply W) B Hl)].
    - intros j Hj. simpl. destruct (Z.eqb_spec j (m + 1)) as [->|]; done.
    - rewrite branch_succ by lia. exact Hv. }
  destruct n as [|n].
  { exists b1, (Some (nidx (m + 1) (pk (m + 1)))). split; [done|]. split; [done|]. split_and!; [done| |done|].
    - intros _ Hnone. unfold b1. pose proof (tw_buf _ _ W). rewrite list_lookup_insert_eq by lia.
      rewrite Hf by done. unfold top_digest. by replace (m + Z.of_nat 1 - 1) with m by lia.
    - intros j Hj. assert (j = m) as -> by lia. done. }
  destruct (IH (with_buf t b1) (m + 1)) as (b & o & E & Hb & H).
  - by apply tree_wf_buf.
  - exact C.
  - lia.
  - lia.
  - eapply buf_ok_ext; [|exact B1]. intros j _. symmetry. apply branch_buf.
  - intros j Hj. apply Hp. lia.
  - exists b, o. rewrite E. split; [done|]. split; [done|].
    replace (m + 1 + Z.of_nat (S n)) with (m + Z.of_nat (S (S n))) in H by lia. destruct o as [i|].
    + destruct H as (-> & F & B' & A). split_and!; [done|intros _; rewrite <- (top_digest_buf t b1); apply F; lia| |].
      * eapply buf_ok_ext; [|exact B']. intros j _. apply branch_buf.
      * intros j Hj. destruct (Z.eq_dec j m) as [->|]; [done|]. apply (agree_layer_buf t b1), A. lia.
    + destruct H as (j & Hj & A). exists j. rewrite agree_layer_buf in A. split; [lia|done].
Qed.

(** ** Deriving more nodes *)

Lemma derive_ok n : forall t m p,
  tree_wf L t -> 0 <= m <= L - 1 -> L - 1 - m < Z.of_nat n -> buf_ok t m p ->
  exists b layer p', derive sha256 n t m (nidx m (pk m)) = Ok (with_buf t b, layer, nidx layer (pk layer)) /\
    length b = 63%nat /\ (layer = m -> b = node_buf t) /\ m <= layer <= L - 1 /\ (forall j, j <= m -> p' j = p j) /\ buf_ok (with_buf t b) layer p' /\
    (forall j, m <= j < layer -> view t (nidx j (pk j)) = None /\
       exists q, view t (nidx j (sib (pk j))) = Some q /\ p' (j + 1) = up t (pk j) (p' j) q) /\
    (layer = L - 1 \/ is_Some (view t (nidx layer (pk layer))) \/ view t (nidx layer (sib (pk layer))) = None).
Proof using sha256_length leaf_fits layers.
  induction n as [|n IH]; intros t m p W Hm Hn B; [lia|]. cbn [derive].
  assert (Hstop : (m = L - 1 \/ is_Some (view t (nidx m (pk m))) \/ view t (nidx m (sib (pk m))) = None) ->
    exists b layer p', Ok (t, m, nidx m (pk m)) = Ok (with_buf t b, layer, nidx layer (pk layer)) /\
    length b = 63%nat /\ (layer = m -> b = node_buf t) /\ m <= layer <= L - 1 /\ (forall j, j <= m -> p' j = p j) /\ buf_ok (with_buf t b) layer p' /\
    (forall j, m <= j < layer -> view t (nidx j (pk j)) = None /\
       exists q, view t (nidx j (sib (pk j))) = Some q /\ p' (j + 1) = up t (pk j) (p' j) q) /\
    (layer = L - 1 \/ is_Some (view t (nidx layer (pk layer))) \/ view t (nidx layer (sib (pk layer))) = None)).
  { intros Hs. exists (node_buf t), m, p. split; [by destruct t|]. split_and!; [apply W|done|lia|lia|done|by destruct t|lia|done]. }
  rewrite shiftl_2 by lia. pose proof (pk_bound m Hm) as Hk. rewrite nidx_lor by lia.
  destruct (Z.eq_dec m (L - 1)) as [Em|Hne].
  { assert (Hge : inclusion_proof_sz t <= nidx m (Z.max (pk m) (sib (pk m)))).
    { rewrite Em, pk_top, (tw_sz _ _ W). change (Z.max 0 (sib 0)) with 1. unfold nidx.
      replace (L - 1 + 1) with L by lia. pose proof (pow2_pos (L - 1)). lia. }
    rewrite (proj2 (Z.leb_le _ _) Hge). apply Hstop. by left. }
  pose proof (branch_bound m Hm) as Hb. pose proof (sibling_bound m ltac:(lia)) as Hsb.
  rewrite (tw_sz _ _ W), (proj2 (Z.leb_gt _ _)) by (destruct (Z.max_spec (pk m) (sib (pk m))) as [[_ ->]|[_ ->]]; lia).
  rewrite nidx_sib, nidx_side by lia. rewrite !(HAS_ok L t W) by lia. cbn [mbind res_bind].
  rewrite !(view_has L t W) by lia. case_bool_decide as H1; simpl orb; cbv iota; [apply Hstop; tauto|].
  case_bool_decide as H2; simpl negb; cbv iota.
  2: { apply Hstop. right. right. by apply eq_None_not_Some. }
  destruct H2 as [q Hq]. destruct (view_node L t W _ q Hsb Hq) as (sn & -> & Hsl & Hsv). cbn [mbind res_bind].
  destruct (buf_get t m p ltac:(lia) B) as (cur & -> & Hcl & Hcv). cbn [mbind res_bind].
  rewrite (merge_side sha256 t (pk m) cur sn (p m) q (tw_hash _ _ W)) by done. set (u := bytes _).
  cbn [mbind res_bind]. rewrite aset_ok by (rewrite (tw_buf _ _ W); lia). cbn [mbind res_bind].
  rewrite nidx_parent, pk_succ by lia. set (b1 := <[Z.to_nat (m + 1) := u]> (node_buf t)).
  assert (Hb1 : length b1 = 63%nat) by (unfold b1; rewrite length_insert; apply W).
  destruct (IH (with_buf t b1) (m + 1) (fun j => if j =? m + 1 then up t (pk m) (p m) q else p j))
    as (b & layer & p' & E & Hbl & _ & Hlay & Hpre & B' & Hder & Hend).
  - by apply tree_wf_buf.
  - lia.
  - lia.
  - apply buf_ok_extend; [lia|apply W|done|by apply updigest_length|apply updigest_hval].
  - rewrite E. assert (Hpm : p' m = p m) by (rewrite Hpre by lia; destruct (Z.eqb_spec m (m + 1)); [lia|done]).
    exists b, layer, p'. split; [done|]. split_and!; [done|lia|lia|lia| |done| |done].
    + intros j Hj. rewrite Hpre by lia. destruct (Z.eqb_spec j (m + 1)); [lia|done].
    + intros j Hj. destruct (Z.eq_dec j m) as [->|]; [|apply Hder; lia]. split; [by apply eq_None_not_Some|].
      exists q. split; [done|]. rewrite Hpm, Hpre by lia. by rewrite Z.eqb_refl.
Qed.

(** ** Caching *)

Lemma buf_ok_same t t' m p : same t t' -> buf_ok t m p -> buf_ok t' m p.
Proof. intros (_ & E & _ & Eb) H j Hj. rewrite E, Eb. by apply H. Qed.

Lemma same_trans t1 t2 t3 : same t1 t2 -> same t2 t3 -> same t1 t3.
Proof. unfold same. intuition congruence. Qed.

Lemma cache_branch_ok p n : forall t i,
  tree_wf L t -> 0 <= i -> i + Z.of_nat n <= L -> buf_ok t (i + Z.of_nat n - 1) p ->
  exists t', cache_branch n t i (nidx i (pk i)) = Ok t' /\ tree_wf L t' /\ same t t' /\
    (forall j, i <= j < i + Z.of_nat n -> view t' (nidx j (pk j)) = Some (p j)) /\
    (forall x, 0 <= x -> (forall j, i <= j < i + Z.of_nat n -> x <> nidx j (pk j)) -> view t' x = view t x).
Proof using leaf_fits layers.
  induction n as [|n IH]; intros t i W Hi Hn B; cbn [cache_branch].
  { exists t. split_and!; [done|done|done|lia|done]. }
  destruct (buf_get t i p ltac:(lia)) as (nd & -> & Hl & Hv); [intros j Hj; apply B; lia|]. cbn [mbind res_bind].
  destruct (store_ok L t W _ nd (p i) (branch_bound i ltac:(lia)) Hl Hv) as (ps & t1 & -> & E1 & W1 & S1 & _ & V1).
  cbn [mbind res_bind]. rewrite E1. cbn [mbind res_bind].
  assert (Hnext : exists t', cache_branch n t1 (i + 1) (parent (nidx i (pk i)) i) = Ok t' /\ tree_wf L t' /\ same t1 t' /\
    (forall j, i + 1 <= j < i + 1 + Z.of_nat n -> view t' (nidx j (pk j)) = Some (p j)) /\
    (forall x, 0 <= x -> (forall j, i + 1 <= j < i + 1 + Z.of_nat n -> x <> nidx j (pk j)) -> view t' x = view t1 x)).
  { destruct n as [|n]; [exists t1; split_and!; [done|done|done|lia|done]|].
    rewrite nidx_parent, pk_succ by lia. apply IH; [done|lia|lia|]. eapply buf_ok_same; [done|]. intros j Hj. apply B. lia. }
  destruct Hnext as (t' & -> & W' & S' & H1 & H2). exists t'. split_and!; [done|done|by eapply same_trans| |].
  - intros j Hj. destruct (Z.eq_dec j i) as [->|]; [|apply H1; lia].
    pose proof (branch_bound i ltac:(lia)). rewrite H2, V1 by (lia || (intros j' Hj' E%nidx_inj; lia)).
    by rewrite decide_True.
  - intros x Hx Hno. rewrite H2, V1; [|done|done|intros j Hj; apply Hno; lia].
    rewrite decide_False; [done|]. apply Hno. lia.
Qed.

Lemma cache_proof_ok proof s n : forall t i,
  tree_wf L t -> 0 <= i -> i + Z.of_nat n <= L - 1 ->
  (forall j, i <= j < i + Z.of_nat n -> proof_at t proof j (s j)) ->
  exists t', cache_proof n t proof i (nidx i (pk i)) = Ok t' /\ tree_wf L t' /\ same t t' /\
    (forall j, i <= j < i + Z.of_nat n -> view t' (nidx j (sib (pk j))) = Some (s j)) /\
    (forall x, 0 <= x -> (forall j, i <= j < i + Z.of_nat n -> x <> nidx j (sib (pk j))) -> view t' x = view t x).
Proof using leaf_fits layers.
  induction n as [|n IH]; intros t i W Hi Hn Hp; cbn [cache_proof].
  { exists t. split_and!; [done|done|done|lia|done]. }
  destruct (Hp i ltac:(lia)) as [Hpl Hps]. pose proof (tw_hash _ _ W) as Hh. pose proof (tw_layers _ _ W).
  unfold proof_node. rewrite (u64_small (hash_sz t * i)) by (unfold is_u64, ULONG_MAX; nia).
  rewrite advance_ok by nia. cbn [mbind res_bind]. rewrite shiftl_2, nidx_sib by lia.
  pose proof (sibling_bound i ltac:(lia)) as Hsb.
  destruct (get_proofs_node L t W _ Hsb) as (old & -> & Hol & _). cbn [mbind res_bind].
  destruct (memcpy_hval old (drop (Z.to_nat (hash_sz t * i)) proof) (hash_sz t) (s i)) as (nd & -> & Hnl & Hnv);
    [lia|rewrite length_drop; nia|done|]. cbn [mbind res_bind].
  destruct (store_ok L t W _ nd (s i) Hsb ltac:(lia) Hnv) as (ps & t1 & -> & E1 & W1 & S1 & _ & V1).
  cbn [mbind res_bind]. rewrite E1. cbn [mbind res_bind]. rewrite nidx_parent, pk_succ by lia.
  destruct (IH t1 (i + 1)) as (t' & -> & W' & S' & H1 & H2); [done|lia|lia| |].
  { intros j Hj. destruct S1 as (_ & Eh & _). unfold proof_at. rewrite Eh. apply Hp. lia. }
  exists t'. split_and!; [done|done|by eapply same_trans| |].
  - intros j Hj. destruct (Z.eq_dec j i) as [->|]; [|apply H1; lia].
    rewrite H2, V1 by (lia || (intros j' Hj' E%nidx_inj; lia)). by rewrite decide_True.
  - intros x Hx Hno. rewrite H2, V1; [|done|done|intros j Hj; apply Hno; lia].
    rewrite decide_False; [done|]. apply Hno. lia.
Qed.

(** ** What the tree knows afterwards *)

Lemma sib_ne k : sib k <> k.
Proof. unfold sib. destruct (Z.even k); lia. Qed.

Lemma up_sib t k a b : up t (sib k) b a = up t k a b.
Proof.
  unfold BmtreeView.up, sib. destruct (even_case k) as (q & [[E ->]|[E ->]]); rewrite E.
  - by replace (Z.even (2 * q + 1)) with false by (by rewrite Z.even_add, E).
  - by replace (Z.even (2 * q + 1 - 1)) with true by (by rewrite Z.even_sub, E).
Qed.

Section after.
Context (t t' : fd_bmtree_commit_t) (p s : Z -> list Z) (d layer : Z).
Hypothesis C : consistent sha256 L t.
Hypothesis same_hash : hash_sz t' = hash_sz t /\ prefix_sz t' = prefix_sz t.
Hypothesis depth : 0 <= d <= layer /\ layer <= L - 1.
Hypothesis on_branch : forall j, 0 <= j <= layer -> view t' (nidx j (pk j)) = Some (p j).
Hypothesis on_proof : forall j, 0 <= j < d -> view t' (nidx j (sib (pk j))) = Some (s j).
Hypothesis elsewhere : forall x, 0 <= x -> (forall j, 0 <= j <= layer -> x <> nidx j (pk j)) ->
  (forall j, 0 <= j < d -> x <> nidx j (sib (pk j))) -> view t' x = view t x.
Hypothesis from_proof : forall j, 0 <= j < d -> p (j + 1) = up t (pk j) (p j) (s j).
Hypothesis derived : forall j, d <= j < layer ->
  exists q, view t (nidx j (sib (pk j))) = Some q /\ p (j + 1) = up t (pk j) (p j) q.
Hypothesis agree_branch : forall j, 0 <= j <= layer -> agree t (nidx j (pk j)) (p j).
Hypothesis agree_proof : forall j, 0 <= j < d -> agree t (nidx j (sib (pk j))) (s j).
Hypothesis stopped : layer = L - 1 \/ is_Some (view t (nidx layer (pk layer))) \/ view t (nidx layer (sib (pk layer))) = None.

Lemma untouched l k : 0 <= l -> 0 <= k -> (k = pk l -> layer < l) -> (k = sib (pk l) -> d <= l) ->
  view t' (nidx l k) = view t (nidx l k).
Proof using layers elsewhere depth.
  intros Hl Hk H1 H2. apply elsewhere; [by apply nidx_nonneg| |].
  - intros j Hj [<- ->]%nidx_inj; [lia|lia|lia].
  - intros j Hj [<- ->]%nidx_inj; [lia|lia|lia].
Qed.

Lemma untouched_sib l : 0 <= l -> 0 <= sib (pk l) -> d <= l -> view t' (nidx l (sib (pk l))) = view t (nidx l (sib (pk l))).
Proof using layers elsewhere depth. intros. apply untouched; [done|done| |done]. intros E. by apply sib_ne in E. Qed.

Lemma untouched_pk l : 0 <= l -> 0 <= pk l -> layer < l -> view t' (nidx l (pk l)) = view t (nidx l (pk l)).
Proof using layers elsewhere depth. intros. apply untouched; [done|done|done|]. intros E. symmetry in E. by apply sib_ne in E. Qed.

Lemma view_mono l k v : 0 <= l -> 0 <= k -> view t (nidx l k) = Some v -> view t' (nidx l k) = Some v.
Proof using layers elsewhere depth on_branch on_proof agree_branch agree_proof.
  intros Hl Hk Hv. destruct (decide (k = pk l /\ l <= layer)) as [[-> Hle]|H1].
  { rewrite on_branch by lia. f_equal. symmetry. by apply agree_branch. }
  destruct (decide (k = sib (pk l) /\ l < d)) as [[-> Hlt]|H2].
  { rewrite on_proof by lia. f_equal. symmetry. by apply agree_proof. }
  rewrite untouched; [done|done|done|lia|lia].
Qed.

(** On the branch, a node and its sibling determine the node above. *)
Lemma branch_pair l a b : 0 <= l < L - 1 ->
  view t' (nidx l (pk l)) = Some a -> view t' (nidx l (sib (pk l))) = Some b ->
  view t' (nidx (l + 1) (pk (l + 1))) = Some (up t (pk l) a b).
Proof using C depth on_branch on_proof elsewhere from_proof derived agree_branch agree_proof stopped leaf_fits layers.
  intros Hl Ha Hb. pose proof (pk_bound l ltac:(lia)) as Hk. pose proof (pk_bound (l + 1) ltac:(lia)).
  pose proof (sib_bound (pk l) ltac:(lia) (L - 1 - l) ltac:(lia) ltac:(lia)).
  destruct (Z.lt_ge_cases l d) as [Hd|Hd].
  { rewrite on_branch in Ha |- * by lia. rewrite on_proof in Hb by lia. simplify_eq. by rewrite from_proof by lia. }
  rewrite untouched_sib in Hb by lia.
  destruct (Z.lt_ge_cases l layer) as [Hlt|Hge].
  { rewrite on_branch in Ha |- * by lia. destruct (derived l ltac:(lia)) as (q & Hq & E). simplify_eq. by rewrite E. }
  rewrite untouched_pk by lia. rewrite <- pk_succ by lia. apply C; [done|lia| |done].
  destruct (Z.eq_dec l layer) as [->|Hne]; [|by rewrite untouched_pk in Ha by lia].
  rewrite on_branch in Ha by lia. simplify_eq. destruct stopped as [->|[[w Hw]|Hno]]; [lia| |by rewrite Hno in Hb].
  rewrite Hw. f_equal. apply (agree_branch layer); [lia|done].
Qed.

Lemma consistent_after : consistent sha256 L t'.
Proof using C same_hash depth on_branch on_proof elsewhere from_proof derived agree_branch agree_proof stopped leaf_fits layers.
  assert (Eup : forall k a b, up t' k a b = up t k a b)
    by (intros; unfold BmtreeView.up, hnode, digest; destruct same_hash as [-> ->]; done).
  intros l k a b Hl Hk Ha Hb. rewrite Eup. destruct (decide (k / 2 = pk l / 2)) as [E|Hne].
  - rewrite E, pk_succ by lia. destruct (same_parent (pk l) k) as [->| ->]; [done| |].
    + by apply branch_pair.
    + rewrite sib_sib in Hb. rewrite up_sib. by apply branch_pair.
  - pose proof (sib_bound k ltac:(lia) (L - 1 - l) ltac:(lia) ltac:(lia)). pose proof (Z.div_pos k 2).
    apply view_mono; [lia|lia|]. rewrite untouched in Ha, Hb.
    + apply C; [done|done|done|done].
    + lia.
    + lia.
    + intros E. exfalso. apply Hne. by rewrite <- E, sib_div.
    + intros E. exfalso. apply Hne. rewrite <- (sib_sib k), E, sib_div, sib_div. done.
    + lia.
    + lia.
    + intros ->. done.
    + intros ->. exfalso. apply Hne, sib_div.
Qed.

End after.

(** ** One insertion *)

(** What a tree of [L] layers learns from a leaf [x] with the full proof [s]:
    the branch and the nodes of the proof. *)
Definition learns (t : fd_bmtree_commit_t) (x : list Z) (s : Z -> list Z) (l k : Z) : option (list Z) :=
  if decide (k = pk l /\ l <= L - 1) then Some (branch t x s (Z.to_nat l))
  else if decide (k = sib (pk l) /\ l < L - 1) then Some (s l)
  else None.

Lemma learns_branch t x s l : l <= L - 1 -> learns t x s l (pk l) = Some (branch t x s (Z.to_nat l)).
Proof. intros. unfold learns. by rewrite decide_True. Qed.

Lemma learns_proof t x s l : l < L - 1 -> learns t x s l (sib (pk l)) = Some (s l).
Proof.
  intros. unfold learns. rewrite decide_False by (intros [E _]; by apply sib_ne in E). by rewrite decide_True.
Qed.

(** Nothing known contradicts what is to be learnt. *)
Definition compatible (t : fd_bmtree_commit_t) (x : list Z) (s : Z -> list Z) : Prop :=
  forall l k v, 0 <= l -> 0 <= k -> learns t x s l k = Some v -> agree t (nidx l k) v.

Lemma compatible_layers t x s :
  (forall j, 0 <= j < L - 1 -> agree_layer t x s j) ->
  agree t (nidx (L - 1) (pk (L - 1))) (branch t x s (Z.to_nat (L - 1))) -> compatible t x s.
Proof.
  intros Hj Htop l k v Hl Hk. unfold learns. destruct (decide (k = pk l /\ l <= L - 1)) as [[-> ?]|]; [intros [= <-]|].
  - destruct (Z.eq_dec l (L - 1)) as [->|]; [done|]. apply Hj. lia.
  - destruct (decide (k = sib (pk l) /\ l < L - 1)) as [[-> ?]|]; [intros [= <-]|done]. apply Hj. lia.
Qed.

Lemma compatible_layer t x s j : 0 <= j < L - 1 -> compatible t x s -> agree_layer t x s j.
Proof using leaf_fits layers.
  intros Hj H. pose proof (pk_bound j ltac:(lia)).
  pose proof (sib_bound (pk j) ltac:(lia) (L - 1 - j) ltac:(lia) ltac:(lia)). split.
  - apply H; [lia|lia|apply learns_branch; lia].
  - apply H; [lia|lia|apply learns_proof; lia].
Qed.

Lemma ascend_ok t x proof s :
  tree_wf L t -> consistent sha256 L t -> buf_ok t 0 (fun _ => x) ->
  (forall j, 0 <= j < L - 1 -> proof_at t proof j (s j)) ->
  exists b o, ascend sha256 t (nidx 0 (pk 0)) proof (L - 1) = Ok (with_buf t b, o) /\ length b = 63%nat /\
    match o with
    | None => ~ compatible t x s
    | Some layer => layer = L - 1 /\ compatible t x s /\
        (1 < L -> (forall j, view t (nidx j (pk j)) = None) -> 
           b !! Z.to_nat (L - 1) = Some (bytes (top_digest t x s (L - 1)))) /\
        buf_ok (with_buf t b) (L - 1) (fun j => branch t x s (Z.to_nat j))
    end.
Proof using sha256_length leaf_fits layers.
  intros W C B Hp. unfold ascend.
  destruct (climb_ok proof x s (Z.to_nat (L - 1)) t 0) as (b1 & o & -> & Hb1 & Ho); [done|done|lia|lia| |intros j Hj; apply Hp; lia|].
  { intros j Hj. assert (j = 0) as -> by lia. apply (B 0). lia. }
  cbn [mbind res_bind]. rewrite Z2Nat.id, Z.add_0_l in Ho by lia. destruct o as [i1|].
  2: { exists b1, None. split_and!; [done|done|]. intros H. destruct Ho as (j & Hj & Hna). by apply Hna, compatible_layer. }
  destruct Ho as (-> & F1 & B1 & A1).
  destruct (derive_ok (Z.to_nat (63 - (L - 1))) (with_buf t b1) (L - 1) _ ltac:(by apply tree_wf_buf) ltac:(lia) ltac:(lia) B1)
    as (b2 & layer & p & -> & Hb2 & Eb & Hlay & Hpre & B2 & _ & _).
  cbn [mbind res_bind]. assert (layer = L - 1) as -> by lia. change (with_buf (with_buf t b1) b2) with (with_buf t b2) in *.
  assert (W2 : tree_wf L (with_buf t b2)) by (by apply tree_wf_buf).
  assert (B2' : buf_ok (with_buf t b2) (L - 1) (fun j => branch t x s (Z.to_nat j))).
  { eapply buf_ok_ext; [|exact B2]. intros j Hj. apply Hpre. lia. }
  pose proof (branch_bound (L - 1) ltac:(lia)) as Hbd.
  rewrite (HAS_ok L _ W2) by lia. cbn [mbind res_bind].
  destruct (buf_get _ (L - 1) _ ltac:(lia) B2') as (top & -> & Htl & Htv). cbn [mbind res_bind].
  rewrite (check_ok L _ W2 _ top (branch t x s (Z.to_nat (L - 1))) Hbd ltac:(pose proof (tw_hash _ _ W); simpl; lia) Htv).
  cbn [mbind res_bind]. exists b2. eexists. split_and!; [done|done|].
  destruct (agreeb (view (with_buf t b2) (nidx (L - 1) (pk (L - 1)))) (branch t x s (Z.to_nat (L - 1)))) eqn:Atop.
  - apply agreeb_spec in Atop. split_and!; [done|by apply compatible_layers| |done].
    intros HL Hnone. rewrite Eb by done. simpl. apply F1; [lia|done].
  - intros H. pose proof (pk_bound (L - 1) ltac:(lia)).
    assert (A : agree t (nidx (L - 1) (pk (L - 1))) (branch t x s (Z.to_nat (L - 1)))) by (apply H; [lia|lia|apply learns_branch; lia]).
    apply agreeb_spec in A. change (view (with_buf t b2)) with (view t) in Atop. congruence.
Qed.

(** The tree [t'] knows what [t] knew, and has learnt a leaf and its proof. *)
Definition learnt (t : fd_bmtree_commit_t) (x : list Z) (s : Z -> list Z) (t' : fd_bmtree_commit_t) : Prop :=
  forall l k, 0 <= l -> 0 <= k ->
    view t' (nidx l k) = match learns t x s l k with Some v => Some v | None => view t (nidx l k) end.

Lemma cache_ok t x proof s :
  tree_wf L t -> consistent sha256 L t -> buf_ok t (L - 1) (fun j => branch t x s (Z.to_nat j)) ->
  (forall j, 0 <= j < L - 1 -> proof_at t proof j (s j)) -> compatible t x s ->
  exists t3 t4, cache_branch (Z.to_nat (L - 1 + 1)) t 0 (nidx 0 (pk 0)) = Ok t3 /\
    cache_proof (Z.to_nat (L - 1)) t3 proof 0 (nidx 0 (pk 0)) = Ok t4 /\
    tree_wf L t4 /\ consistent sha256 L t4 /\ same t t4 /\ learnt t x s t4.
Proof using sha256_length leaf_fits layers.
  intros W C B Hp Hc.
  destruct (cache_branch_ok (fun j => branch t x s (Z.to_nat j)) (Z.to_nat (L - 1 + 1)) t 0) as (t3 & E3 & W3 & S3 & V3 & N3);
    [done|lia|lia|by replace (0 + Z.of_nat (Z.to_nat (L - 1 + 1)) - 1) with (L - 1) by lia|].
  rewrite Z2Nat.id, Z.add_0_l in V3, N3 by lia.
  destruct (cache_proof_ok proof s (Z.to_nat (L - 1)) t3 0) as (t4 & E4 & W4 & S4 & V4 & N4); [done|lia|lia| |].
  { intros j Hj. destruct S3 as (_ & Eh3 & _). unfold proof_at. rewrite Eh3. apply Hp. lia. }
  rewrite Z2Nat.id, Z.add_0_l in V4, N4 by lia. pose proof (same_trans _ _ _ S3 S4) as S.
  assert (Hon : forall j, 0 <= j <= L - 1 -> view t4 (nidx j (pk j)) = Some (branch t x s (Z.to_nat j))).
  { intros j Hj. pose proof (branch_bound j ltac:(lia)). rewrite N4; [apply V3; lia|lia|].
    intros j' Hj' [<- E]%nidx_inj; [|lia|lia]. symmetry in E. by apply sib_ne in E. }
  assert (Hels : forall y, 0 <= y -> (forall j, 0 <= j <= L - 1 -> y <> nidx j (pk j)) ->
    (forall j, 0 <= j < L - 1 -> y <> nidx j (sib (pk j))) -> view t4 y = view t y).
  { intros y Hy H1 H2. rewrite N4, N3; [done|done| |done|done]. intros j Hj. apply H1. lia. }
  exists t3, t4. split_and!; try done.
  - eapply (consistent_after t t4 (fun j => branch t x s (Z.to_nat j)) s (L - 1) (L - 1)); try done.
    + by destruct S as (_ & ? & ? & _).
    + lia.
    + intros j Hj. apply branch_succ. lia.
    + lia.
    + intros j Hj. pose proof (pk_bound j ltac:(lia)). apply Hc; [lia|lia|apply learns_branch; lia].
    + intros j Hj. by destruct (compatible_layer t x s j Hj Hc).
    + by left.
  - intros l k Hl Hk. unfold learns. destruct (decide (k = pk l /\ l <= L - 1)) as [[-> ?]|H1]; [apply Hon; lia|].
    destruct (decide (k = sib (pk l) /\ l < L - 1)) as [[-> ?]|H2]; [apply V4; lia|]. apply Hels; [by apply nidx_nonneg| |].
    + intros j Hj [<- ->]%nidx_inj; [|lia|lia]. apply H1. split; [done|lia].
    + intros j Hj [<- ->]%nidx_inj; [|lia|lia]. apply H2. split; [done|lia].
Qed.

(** A full proof is accepted exactly when it is compatible with the tree. *)
Lemma insert_full_ok t leaf x proof s :
  tree_wf L t -> consistent sha256 L t -> length leaf = 32%nat -> hval (hash_sz t) leaf = Some x ->
  (forall j, 0 <= j < L - 1 -> proof_at t proof j (s j)) ->
  exists t' o, fd_bmtree_commitp_insert_with_proof sha256 t idx leaf proof (L - 1) = Ok (t', o) /\
    tree_wf L t' /\ consistent sha256 L t' /\ hash_sz t' = hash_sz t /\ prefix_sz t' = prefix_sz t /\
    match o with
    | None => ~ compatible t x s /\ forall i, view t' i = view t i
    | Some root => compatible t x s /\ learnt t x s t' /\ length root = 32%nat /\
        hval (hash_sz t) root = Some (branch t x s (Z.to_nat (L - 1))) /\
        (1 < L -> (forall j, view t (nidx j (pk j)) = None) -> root = bytes (top_digest t x s (L - 1)))
    end.
Proof using sha256_length leaf_fits layers.
  intros W C Hll Hx Hp. pose proof (tw_sz _ _ W) as Hsz.
  assert (Hd : 2 ^ L = 2 * 2 ^ (L - 1)) by (rewrite <- pow2_succ by lia; f_equal; lia).
  assert (H63 : 2 ^ (L - 1) <= 2 ^ 62) by (apply Z.pow_le_mono_r; lia). pose proof (pow2_pos (L - 1) ltac:(lia)) as Hdpos.
  unfold fd_bmtree_commitp_insert_with_proof. rewrite (u64_small (2 * idx)) by (unfold is_u64, ULONG_MAX; lia).
  rewrite Hsz, (proj2 (Z.leb_gt _ _)), (proj2 (Z.ltb_ge _ _)) by lia. simpl orb. rewrite shiftl_1 by lia.
  rewrite (u64_small (2 ^ (L - 1) - 1)), (proj2 (Z.leb_gt _ _)) by (unfold is_u64, ULONG_MAX; lia).
  rewrite aset_ok by (rewrite (tw_buf _ _ W); lia). cbn [mbind res_bind].
  assert (2 * idx = nidx 0 (pk 0)) as -> by (rewrite pk_0; unfold nidx; change (2 ^ (0 + 1)) with 2; change (2 ^ 0) with 1; lia).
  set (b0 := <[Z.to_nat 0 := leaf]> (node_buf t)).
  assert (W0 : tree_wf L (with_buf t b0)) by (apply tree_wf_buf; [done|]; unfold b0; rewrite length_insert; apply W).
  destruct (ascend_ok (with_buf t b0) x proof s W0) as (b & o & -> & Hb & Ho); [done| |done|].
  { intros j Hj. assert (j = 0) as -> by lia. exists leaf. simpl. unfold b0. pose proof (tw_buf _ _ W).
    rewrite list_lookup_insert_eq by lia. done. }
  change (with_buf (with_buf t b0) b) with (with_buf t b). cbn [mbind res_bind].
  assert (W2 : tree_wf L (with_buf t b)) by (by apply tree_wf_buf).
  assert (Hcomp : compatible (with_buf t b0) x s <-> compatible t x s).
  { unfold compatible, learns. split; intros H l k v; specialize (H l k v); rewrite branch_buf in *; exact H. }
  destruct o as [layer|].
  2: { exists (with_buf t b), None. split; [done|]. split_and!; try done. by rewrite <- Hcomp. }
  destruct Ho as (-> & Hc & F & B). apply Hcomp in Hc.
  destruct (cache_ok (with_buf t b) x proof s W2) as (t3 & t4 & E3 & E4 & W4 & C4 & S4 & V4); [done| |done| |].
  { eapply buf_ok_ext; [|exact B]. intros j Hj. by rewrite !branch_buf. }
  { intros l k v. unfold learns. rewrite branch_buf. apply Hc. }
  rewrite E3. cbn [mbind res_bind]. rewrite E4. cbn [mbind res_bind]. pose proof S4 as (_ & Eh & Ep & Eb). rewrite Eb.
  destruct (buf_get _ (L - 1) _ ltac:(lia) B) as (top & Etop & Htl & Htv). simpl in Etop |- *. rewrite Etop. cbn [mbind res_bind].
  exists t4, (Some top). split; [done|]. split_and!; try done.
  - intros l k Hl Hk. rewrite V4 by done. unfold learns. by rewrite branch_buf.
  - simpl in Htv. by rewrite branch_buf in Htv.
  - intros HL Hnone. unfold aget in Etop.
    rewrite (proj2 (Z.ltb_ge (L - 1) 0)), (F HL Hnone), top_digest_buf in Etop by lia. by injection Etop as <-.
Qed.

End insert.
