(* ===== verification/BmtreeRun.v ===== *)
(** * Merkle trees: sequences of insertions

    The abstract contract of [fd_bmtree_commitp_insert_with_proof]: a leaf with
    a full inclusion proof is a set of claims about nodes of the tree, and it
    is accepted exactly when it contradicts no claim of the leaves accepted
    before. *)

From S2P Require Import Prelude Bits Bytes Bmtree BmtreeIdx BmtreeView BmtreeProof.

#[local] Open Scope Z_scope.

(** A leaf to be inserted: its index, its 32 bytes, the bytes of its proof. *)
Record item := mk_item { it_idx : Z; it_leaf : list Z; it_proof : list Z }.

Section run.
Context (sha256 : list Z -> list Z) (L hash_sz prefix_sz : Z).
Hypothesis sha256_length : forall m, length (sha256 m) = 32%nat.
Hypothesis layers : 1 <= L <= 63.
Hypothesis hash_range : 0 <= hash_sz <= 32.

Definition init (buf proofs : list mem) : fd_bmtree_commit_t := fd_bmtree_commit_init buf proofs hash_sz prefix_sz L.

(** The memory a tree is built in. *)
Definition memory_ok (buf proofs : list mem) : Prop :=
  length buf = 63%nat /\ Z.of_nat (length proofs) = 2 ^ L - 1 /\ Forall (fun n : mem => length n = 32%nat) proofs.

Definition item_ok (it : item) : Prop :=
  0 <= it_idx it < 2 ^ 63 /\ length (it_leaf it) = 32%nat /\ hash_sz * (L - 1) <= Z.of_nat (length (it_proof it)).

Fixpoint insert_all (t : fd_bmtree_commit_t) (items : list item) : res (fd_bmtree_commit_t * list (option mem)) :=
  match items with
  | [] => Ok (t, [])
  | it :: items' =>
      '(t1, o) ← fd_bmtree_commitp_insert_with_proof sha256 t (it_idx it) (bytes (it_leaf it)) (bytes (it_proof it)) (L - 1);
      '(t2, os) ← insert_all t1 items';
      Ok (t2, o :: os)
  end.

(** ** The contract *)

Definition leaf_hash (it : item) : list Z := take (Z.to_nat hash_sz) (it_leaf it).
Definition sibling (it : item) (j : Z) : list Z := take (Z.to_nat hash_sz) (drop (Z.to_nat (hash_sz * j)) (it_proof it)).

(** What an item says of node [k] of layer [l]. *)
Definition claims (it : item) (l k : Z) : option (list Z) :=
  learns sha256 L (it_idx it) (init [] []) (leaf_hash it) (sibling it) l k.

(** The root an item leads to. *)
Definition proof_root (it : item) : list Z :=
  branch sha256 (it_idx it) (init [] []) (leaf_hash it) (sibling it) (Z.to_nat (L - 1)).

Definition fits (it : item) : Prop := it_idx it < 2 ^ (L - 1).

Definition conflict (it it' : item) : Prop :=
  exists l k v w, 0 <= l /\ 0 <= k /\ claims it l k = Some v /\ claims it' l k = Some w /\ v <> w.

(** Claims concern finitely many nodes, so conflicts can be searched for. *)
Definition clash (o o' : option (list Z)) : Prop :=
  match o, o' with Some v, Some w => v <> w | _, _ => False end.

#[local] Instance clash_dec o o' : Decision (clash o o').
Proof. destruct o, o'; simpl; apply _. Defined.

Definition conflict_found (it it' : item) : Prop :=
  Exists (fun l => Exists (fun k => 0 <= k /\ clash (claims it l k) (claims it' l k))
    [pk (it_idx it) l; sib (pk (it_idx it) l)]) (seqZ 0 L).

Lemma conflict_iff it it' : conflict it it' <-> conflict_found it it'.
Proof.
  unfold conflict_found. rewrite Exists_exists. setoid_rewrite Exists_exists. setoid_rewrite elem_of_seqZ. split.
  - intros (l & k & v & w & Hl & Hk & Hv & Hw & Hne). exists l. pose proof Hv as Hv'. unfold claims, learns in Hv'.
    split; [repeat case_decide; simplify_eq; lia|]. exists k. rewrite Hv, Hw. split; [|done].
    repeat case_decide; simplify_eq; set_solver.
  - intros (l & Hl & k & _ & Hk & Hc). destruct (claims it l k) as [v|] eqn:Ev; [|done].
    destruct (claims it' l k) as [w|] eqn:Ew; [|done]. exists l, k, v, w. split_and!; try done. lia.
Qed.

#[local] Instance conflict_dec it it' : Decision (conflict it it').
Proof.
  destruct (Exists_dec (fun l => Exists (fun k => 0 <= k /\ clash (claims it l k) (claims it' l k))
    [pk (it_idx it) l; sib (pk (it_idx it) l)]) (seqZ 0 L)) as [H|H]; [left|right]; by rewrite conflict_iff.
Defined.

(** The roots reported for a sequence of items, after [acc] was accepted. *)
Inductive accepts : list item -> list item -> list (option (list Z)) -> Prop :=
| accepts_nil acc : accepts acc [] []
| accepts_yes acc it items outs :
    fits it -> Forall (fun it' => ~ conflict it it') acc -> accepts (it :: acc) items outs ->
    accepts acc (it :: items) (Some (proof_root it) :: outs)
| accepts_no acc it items outs :
    (~ fits it \/ exists it', it' ∈ acc /\ conflict it it') -> accepts acc items outs ->
    accepts acc (it :: items) (None :: outs).

(** Two items without conflict lead to the same root. *)
Lemma no_conflict_root it it' : item_ok it -> item_ok it' -> fits it -> fits it' -> ~ conflict it it' -> proof_root it = proof_root it'.
Proof using layers.
  intros [H1 _] [H2 _] F1 F2 Hno. destruct (decide (proof_root it = proof_root it')) as [|Hne]; [done|]. exfalso. apply Hno.
  exists (L - 1), 0, (proof_root it), (proof_root it'). split_and!; [lia|lia| | |done]; unfold claims.
  - rewrite <- (pk_top L (it_idx it)) by (unfold fits in *; lia). apply learns_branch. lia.
  - rewrite <- (pk_top L (it_idx it')) by (unfold fits in *; lia). apply learns_branch. lia.
Qed.

(** ** Refinement *)

(** The tree knows exactly the claims of the items accepted. *)
Definition knows (acc : list item) (t : fd_bmtree_commit_t) : Prop :=
  forall l k v, 0 <= l -> 0 <= k -> view t (nidx l k) = Some v <-> exists it, it ∈ acc /\ claims it l k = Some v.

Definition params (t : fd_bmtree_commit_t) : Prop := Bmtree.hash_sz t = hash_sz /\ Bmtree.prefix_sz t = prefix_sz.

Lemma branch_params t idx x s n : params t -> branch sha256 idx t x s n = branch sha256 idx (init [] []) x s n.
Proof.
  intros [E1 E2]. induction n as [|n IH]; [done|]. simpl. rewrite IH. unfold up, hnode, digest, init. simpl. by rewrite E1, E2.
Qed.

Lemma top_digest_params t idx x s m : params t -> top_digest sha256 idx t x s m = top_digest sha256 idx (init [] []) x s m.
Proof. intros E. unfold top_digest. rewrite branch_params by done. destruct E as [_ E]. unfold updigest, digest. by rewrite E. Qed.

Lemma learns_params t it l k : params t ->
  learns sha256 L (it_idx it) t (leaf_hash it) (sibling it) l k = claims it l k.
Proof. intros E. unfold claims, learns. by rewrite branch_params. Qed.

Lemma proof_at_item t it j : params t -> item_ok it -> 0 <= j < L - 1 -> proof_at t (bytes (it_proof it)) j (sibling it j).
Proof using layers hash_range.
  intros [E _] (_ & _ & Hp) Hj. unfold proof_at, sibling. rewrite E, bytes_length. split; [nia|].
  unfold bytes. rewrite <- fmap_drop. apply hval_bytes.
Qed.

Lemma insert_too_far t it : tree_wf L t -> item_ok it -> ~ fits it ->
  fd_bmtree_commitp_insert_with_proof sha256 t (it_idx it) (bytes (it_leaf it)) (bytes (it_proof it)) (L - 1) = Ok (t, None).
Proof using layers.
  intros W [Hi _] Hf. unfold fits in Hf. unfold fd_bmtree_commitp_insert_with_proof. rewrite (tw_sz _ _ W).
  assert (2 ^ L = 2 * 2 ^ (L - 1)) by (rewrite <- pow2_succ by lia; f_equal; lia).
  rewrite u64_small by (unfold is_u64, ULONG_MAX; lia). by rewrite (proj2 (Z.leb_le _ _)) by lia.
Qed.

Lemma compatible_knows acc t it : params t -> knows acc t ->
  compatible sha256 L (it_idx it) t (leaf_hash it) (sibling it) <-> Forall (fun it' => ~ conflict it it') acc.
Proof.
  intros E K. rewrite Forall_forall. split.
  - intros Hc it' Hin (l & k & v & w & Hl & Hk & Hv & Hw & Hne). apply Hne. symmetry.
    apply (Hc l k v Hl Hk); [by rewrite learns_params|]. apply K; eauto.
  - intros Hc l k v Hl Hk Hv w (it' & Hin & Hw)%K; [|done|done]. rewrite learns_params in Hv by done.
    destruct (decide (w = v)) as [|Hne]; [done|]. exfalso. apply (Hc it' Hin). exists l, k, v, w. auto.
Qed.

Lemma insert_step acc t it :
  tree_wf L t -> consistent sha256 L t -> params t -> knows acc t -> item_ok it ->
  exists t' o, fd_bmtree_commitp_insert_with_proof sha256 t (it_idx it) (bytes (it_leaf it)) (bytes (it_proof it)) (L - 1) = Ok (t', o) /\
    tree_wf L t' /\ consistent sha256 L t' /\ params t' /\
    match o with
    | None => knows acc t' /\ (~ fits it \/ exists it', it' ∈ acc /\ conflict it it')
    | Some root => knows (it :: acc) t' /\ fits it /\ Forall (fun it' => ~ conflict it it') acc /\ hval hash_sz root = Some (proof_root it)
    end.
Proof using sha256_length layers hash_range.
  intros W C E K I. destruct (decide (it_idx it < 2 ^ (L - 1))) as [F|F].
  2: { exists t, None. split; [by apply insert_too_far|]. split_and!; try done. by left. }
  pose proof I as (Hi & Hll & _). pose proof E as [Eh _].
  destruct (insert_full_ok sha256 L (it_idx it) sha256_length layers ltac:(lia) t (bytes (it_leaf it)) (leaf_hash it)
    (bytes (it_proof it)) (sibling it)) as (t' & o & Er & W' & C' & Eh' & Ep' & Ho); [done|done|by rewrite bytes_length| | |].
  { rewrite Eh. apply hval_bytes. }
  { intros j Hj. by apply proof_at_item. }
  exists t', o. split; [done|]. split_and!; [done|done|unfold params; by rewrite Eh', Ep'|].
  destruct o as [root|].
  - destruct Ho as (Hc%(compatible_knows acc) & Hl & _ & Hroot & _); [|done|done]. split_and!; [|done|done|].
    + intros l k v Hl0 Hk0. rewrite (Hl l k Hl0 Hk0), learns_params by done.
      destruct (claims it l k) as [u|] eqn:Eu.
      * split; [intros [= <-]; exists it; split; [left|done]|].
        intros (it' & [->|Hin]%elem_of_cons & Hv); [congruence|]. f_equal. rewrite Forall_forall in Hc.
        destruct (decide (u = v)) as [|Hne]; [done|]. exfalso. apply (Hc it' Hin). exists l, k, u, v. auto.
      * rewrite (K l k v Hl0 Hk0). split; intros (it' & Hin & Hv); exists it'; split; try done; [by right|].
        apply elem_of_cons in Hin as [->|]; [congruence|done].
    + rewrite Eh in Hroot. rewrite Hroot. f_equal. by apply branch_params.
  - destruct Ho as [Hc Hv]. rewrite (compatible_knows acc) in Hc by done. split; [intros l k v Hl Hk; rewrite Hv; by apply K|]. right.
    apply not_Forall_Exists in Hc; [|intros x; apply _].
    apply Exists_exists in Hc as (it' & Hin & Hcc). exists it'. split; [done|]. by apply dec_stable.
Qed.

(** ** All reachable trees *)

Lemma insert_all_ok items : forall acc t,
  tree_wf L t -> consistent sha256 L t -> params t -> knows acc t -> Forall item_ok items ->
  exists t' outs, insert_all t items = Ok (t', outs) /\ accepts acc items ((fun o => o ≫= hval hash_sz) <$> outs).
Proof using sha256_length layers hash_range.
  induction items as [|it items IH]; intros acc t W C E K H; cbn [insert_all].
  { exists t, []. split; [done|constructor]. }
  apply Forall_cons in H as [I H].
  destruct (insert_step acc t it W C E K I) as (t1 & o & -> & W1 & C1 & E1 & Ho). cbn [mbind res_bind].
  destruct o as [root|].
  - destruct Ho as (K1 & F & Hc & Hr). destruct (IH (it :: acc) t1) as (t' & outs & -> & Ha); [done..|].
    cbn [mbind res_bind]. eexists _, _. split; [done|]. simpl. rewrite Hr. by constructor.
  - destruct Ho as (K1 & Hno). destruct (IH acc t1) as (t' & outs & -> & Ha); [done..|].
    cbn [mbind res_bind]. eexists _, _. split; [done|]. simpl. by constructor.
Qed.

Lemma accepts_one_root acc items outs R :
  accepts acc items outs -> Forall item_ok items -> Forall item_ok acc -> Forall fits acc ->
  (forall it, it ∈ acc -> proof_root it = R) -> exists R', (acc <> [] -> R' = R) /\ forall r, Some r ∈ outs -> r = R'.
Proof using layers.
  intros H. revert R. induction H as [acc|acc it items outs F Hc H IH|acc it items outs Hno H IH]; intros R Hi Ha Hf HR.
  - exists R. split; [done|]. intros r Hr. inversion Hr.
  - apply Forall_cons in Hi as [Hi His].
    assert (HR' : forall it', it' ∈ it :: acc -> proof_root it' = proof_root it).
    { intros it' [->|Hin]%elem_of_cons; [done|]. symmetry. rewrite Forall_forall in Ha, Hf, Hc. apply no_conflict_root; auto. }
    destruct (IH (proof_root it)) as (R' & E & Hr); [done|by constructor|by constructor|done|].
    exists R'. split.
    + intros Hne. rewrite E by done. destruct acc as [|it' acc]; [done|]. rewrite <- (HR it') by left. symmetry. apply HR'. right. left.
    + intros r [[= ->]|Hin]%elem_of_cons; [symmetry; by apply E|by apply Hr].
  - apply Forall_cons in Hi as [Hi His]. destruct (IH R) as (R' & E & Hr); [done..|]. exists R'. split; [done|].
    intros r [|Hin]%elem_of_cons; [done|by apply Hr].
Qed.

Lemma init_wf buf proofs : memory_ok buf proofs -> tree_wf L (init buf proofs) /\ forall i, view (init buf proofs) i = None.
Proof using layers hash_range.
  intros (Hb & Hp & Hn). assert (Hsz : u64 (Z.shiftl 1 L) - 1 = 2 ^ L - 1) by (rewrite shiftl_1; lia).
  assert (Hpos : 0 <= (2 ^ L - 1) / 64) by (apply Z.div_pos; [pose proof (pow2_pos L); lia|lia]).
  assert (Hhas : forall i, has (init buf proofs) i = false).
  { intros i. unfold has, init, fd_bmtree_commit_init. simpl. rewrite Hsz.
    destruct (replicate _ _ !! _) as [o|] eqn:E; [|done]. apply lookup_replicate_1 in E as [-> _]. apply Z.bits_0. }
  split; [|intros i; unfold view; by rewrite Hhas].
  constructor; simpl; try done.
  - rewrite length_replicate, Hsz. lia.
  - apply Forall_forall. intros o Ho%elem_of_replicate_inv. subst. eauto.
  - intros i _ Hi. by rewrite Hhas in Hi.
Qed.

Lemma init_consistent buf proofs : memory_ok buf proofs -> consistent sha256 L (init buf proofs).
Proof using layers hash_range. intros M l k a b _ _ Ha. by rewrite (proj2 (init_wf buf proofs M)) in Ha. Qed.

(** Inserting leaves with full inclusion proofs into a fresh Merkle tree never
    reads or writes outside the tree's arrays, accepts a leaf exactly when its
    index is in range and its branch and proof contradict no leaf accepted
    before, reports for every accepted leaf the root its own proof leads to,
    and so only ever reports one root. *)
Theorem bmtree_insert_refines buf proofs items :
  memory_ok buf proofs -> Forall item_ok items ->
  exists t outs, insert_all (init buf proofs) items = Ok (t, outs) /\
    accepts [] items ((fun o => o ≫= hval hash_sz) <$> outs) /\
    exists R, forall r root, Some root ∈ outs -> hval hash_sz root = Some r -> r = R.
Proof using sha256_length layers hash_range.
  intros M H. destruct (init_wf buf proofs M) as [W V].
  destruct (insert_all_ok items [] (init buf proofs)) as (t & outs & E & A); [done|by apply init_consistent|done| |done|].
  { intros l k v _ _. rewrite V. split; [done|]. intros (it & Hin & _). inversion Hin. }
  exists t, outs. split; [done|]. split; [done|].
  destruct (accepts_one_root [] items _ [] A) as (R & _ & HR); [done|constructor|constructor|intros it Hin; inversion Hin|].
  exists R. intros r root Hin Hr. apply HR. apply list_elem_of_fmap. exists (Some root). by rewrite <- Hr.
Qed.

End run.

(** ** An example *)

(** A hash function for examples: 32 copies of a byte that depends on all of
    the message. *)
Definition toy_hash (m : list Z) : list Z := replicate 32 (foldr (fun a b => (a + 3 * b) mod 256) 7 m).

Lemma toy_hash_length m : length (toy_hash m) = 32%nat.
Proof. apply length_replicate. Qed.

(** Both leaves of a tree of two layers, then a leaf that contradicts them. *)
Definition example_items : list item :=
  [mk_item 0 (replicate 32 5) (replicate 20 6); mk_item 1 (replicate 32 6) (replicate 20 5);
   mk_item 1 (replicate 32 9) (replicate 20 5); mk_item 2 (replicate 32 9) (replicate 20 5)].

Lemma example_accepted :
  (snd <$> insert_all toy_hash 2 (init 2 20 26 (replicate 63 (uninit 32)) (replicate 3 (uninit 32))) example_items)
  = Ok [Some (bytes (replicate 32 108)); Some (bytes (replicate 32 108)); None; None].
Proof. vm_compute. reflexivity. Qed.

Lemma bmtree_insert_refines_witness :
  exists t outs,
    insert_all toy_hash 2 (init 2 20 26 (replicate 63 (uninit 32)) (replicate 3 (uninit 32))) example_items = Ok (t, outs) /\
    accepts toy_hash 2 20 26 [] example_items ((fun o => o ≫= hval 20) <$> outs) /\
    exists R, forall r root, Some root ∈ outs -> hval 20 root = Some r -> r = R.
Proof.
  apply (bmtree_insert_refines toy_hash 2 20 26 toy_hash_length); [lia|lia| |].
  - split_and!; [reflexivity|reflexivity|]. repeat constructor.
  - unfold item_ok. repeat constructor; simpl; lia.
Defined.
