(* ===== verification/BmtreeCommit.v ===== *)
(** * Merkle trees: committing to a list of leaves

    [fd_bmtree_commit_append] and [fd_bmtree_commit_fini] compute the root of
    the reference definition, and leave every node of the tree, as far as there
    is room, at its place in [inclusion_proofs]. *)

From S2P Require Import Prelude Bits Bytes Bmtree BmtreeIdx BmtreeView BmtreeRun.

#[local] Open Scope Z_scope.

(** ** The reference definition

    A Merkle tree as a function on lists: the leaves are hashed in pairs, the
    last one with itself when their number is odd, until one hash is left.
    [nd xs l k] is node [k] of layer [l] of the tree over the leaves [xs]. *)

Section reference.
Context (sha256 : list Z -> list Z) (hash_sz prefix_sz : Z).

Definition join (a b : list Z) : list Z :=
  sha256 (take (Z.to_nat prefix_sz) fd_bmtree_node_prefix ++ take (Z.to_nat hash_sz) a ++ take (Z.to_nat hash_sz) b).

Fixpoint pair_up (xs : list (list Z)) : list (list Z) :=
  match xs with
  | [] => []
  | [x] => [join x x]
  | x :: y :: r => join x y :: pair_up r
  end.

Fixpoint reduce (fuel : nat) (xs : list (list Z)) : option (list Z) :=
  match xs, fuel with
  | [x], _ => Some x
  | _ :: _, S fuel' => reduce fuel' (pair_up xs)
  | _, _ => None
  end.

(** The root; every round leaves fewer hashes, so the fuel is enough. *)
Definition merkle_root (xs : list (list Z)) : option (list Z) := reduce (length xs) xs.

(** ** Layers *)

Fixpoint layer_of (l : nat) (xs : list (list Z)) : list (list Z) :=
  match l with O => xs | S l' => pair_up (layer_of l' xs) end.

Definition nd (xs : list (list Z)) (l k : Z) : option (list Z) := layer_of (Z.to_nat l) xs !! Z.to_nat k.

Lemma pair_up_lookup xs : forall k, pair_up xs !! k = a ← xs !! (2 * k)%nat; Some (join a (default a (xs !! (2 * k + 1)%nat))).
Proof.
  induction xs as [xs IH] using (induction_ltof1 _ (@length _)); unfold ltof in IH. intros k. destruct xs as [|x [|y r]].
  - done.
  - destruct k as [|k]; [done|]. simpl. by replace (k + S (k + 0))%nat with (S (k + (k + 0))) by lia.
  - destruct k as [|k]; [done|]. transitivity (pair_up r !! k); [done|]. rewrite IH by (simpl; lia).
    replace (2 * S k)%nat with (S (S (2 * k))) by lia. by replace (S (S (2 * k)) + 1)%nat with (S (S (2 * k + 1))) by lia.
Qed.

Lemma nd_succ xs l k : 0 <= l -> 0 <= k -> nd xs (l + 1) k = a ← nd xs l (2 * k); Some (join a (default a (nd xs l (2 * k + 1)))).
Proof.
  intros Hl Hk. unfold nd. replace (Z.to_nat (l + 1)) with (S (Z.to_nat l)) by lia. simpl layer_of. rewrite pair_up_lookup.
  replace (Z.to_nat (2 * k)) with (2 * Z.to_nat k)%nat by lia. replace (Z.to_nat (2 * k + 1)) with (2 * Z.to_nat k + 1)%nat by lia. done.
Qed.

Section tree.
Context (xs : list (list Z)).
Abbreviation n := (Z.of_nat (length xs)).

(** Node [k] of layer [l] exists when it covers a leaf. *)
Lemma nd_some l k : 0 <= l -> 0 <= k -> is_Some (nd xs l k) <-> k * 2 ^ l < n.
Proof.
  intros Hl. revert k. pattern l. apply natlike_ind; [| |done].
  - intros k Hk. unfold nd. rewrite lookup_lt_is_Some. simpl. lia.
  - intros m Hm IH k Hk. rewrite <- Z.add_1_r, nd_succ by done. rewrite Z.pow_add_r by lia.
    replace (k * (2 ^ m * 2 ^ 1)) with (2 * k * 2 ^ m) by lia. rewrite <- IH by lia. destruct (nd xs m (2 * k)); simpl; split; intros [? ?]; by eexists || done.
Qed.

Lemma nd_none l k : 0 <= l -> 0 <= k -> n <= k * 2 ^ l -> nd xs l k = None.
Proof. intros Hl Hk H. apply eq_None_not_Some. rewrite nd_some by done. lia. Qed.

Lemma nd_get l k : 0 <= l -> 0 <= k -> k * 2 ^ l < n -> exists v, nd xs l k = Some v.
Proof. intros Hl Hk H. by apply nd_some. Qed.

(** Two children. *)
Lemma nd_two l k a b : 0 <= l -> 0 <= k -> nd xs l (2 * k) = Some a -> nd xs l (2 * k + 1) = Some b -> nd xs (l + 1) k = Some (join a b).
Proof. intros Hl Hk Ha Hb. by rewrite nd_succ, Ha, Hb by done. Qed.

(** One child. *)
Lemma nd_one l k a : 0 <= l -> 0 <= k -> nd xs l (2 * k) = Some a -> n <= (2 * k + 1) * 2 ^ l -> nd xs (l + 1) k = Some (join a a).
Proof. intros Hl Hk Ha Hn. by rewrite nd_succ, Ha, (nd_none l (2 * k + 1)) by lia. Qed.

Hypothesis sha256_length : forall m, length (sha256 m) = 32%nat.

Lemma nd_length l k v : Forall (fun x => length x = 32%nat) xs -> 0 <= l -> 0 <= k -> nd xs l k = Some v -> length v = 32%nat.
Proof using sha256_length.
  intros Hx Hl Hk Hv. destruct (Z.eq_dec l 0) as [->|Hne].
  - rewrite Forall_forall in Hx. apply Hx. by eapply list_elem_of_lookup_2.
  - replace l with (l - 1 + 1) in Hv by lia. rewrite nd_succ in Hv by lia. destruct (nd xs (l - 1) (2 * k)); simplify_eq/=. apply sha256_length.
Qed.

End tree.

(** Complete nodes do not change when leaves are appended. *)
Lemma nd_app xs ys l k : 0 <= l -> 0 <= k -> (k + 1) * 2 ^ l <= Z.of_nat (length xs) -> nd (xs ++ ys) l k = nd xs l k.
Proof.
  intros Hl. revert k. pattern l. apply natlike_ind; [| |done].
  - intros k Hk Hn. unfold nd. simpl. apply lookup_app_l. lia.
  - intros m Hm IH k Hk Hn. rewrite <- Z.add_1_r in *. rewrite Z.pow_add_r in Hn by lia. pose proof (pow2_pos m Hm). rewrite !nd_succ by done.
    rewrite !IH by nia. done.
Qed.

(** ** The root is the only node of its layer *)

Lemma layer_of_pair l xs : layer_of l (pair_up xs) = pair_up (layer_of l xs).
Proof. induction l as [|l IH]; [done|]. simpl. by rewrite IH. Qed.

Lemma pair_up_length xs : Z.of_nat (length (pair_up xs)) = (Z.of_nat (length xs) + 1) / 2.
Proof.
  induction xs as [xs IH] using (induction_ltof1 _ (@length _)); unfold ltof in IH. destruct xs as [|x [|y r]]; [done|done|].
  cbn [pair_up length]. rewrite Nat2Z.inj_succ, IH by (simpl; lia). Z.to_euclidean_division_equations. lia.
Qed.

Lemma reduce_layers l : forall fuel xs, (l <= fuel)%nat ->
  (l = 0%nat /\ length xs = 1%nat) \/ 2 ^ (Z.of_nat l - 1) < Z.of_nat (length xs) <= 2 ^ Z.of_nat l -> reduce fuel xs = layer_of l xs !! 0%nat.
Proof.
  induction l as [|l IH]; intros fuel xs Hf Hx.
  - assert (length xs = 1%nat) as Hl by (destruct Hx as [[_ ?]|Hx]; [done|]; simpl in Hx; lia). destruct xs as [|x [|]]; try done. by destruct fuel.
  - destruct Hx as [[? _]|Hx]; [done|]. replace (Z.of_nat (S l) - 1) with (Z.of_nat l) in Hx by lia.
    assert (E2 : 2 ^ Z.of_nat (S l) = 2 * 2 ^ Z.of_nat l) by (rewrite Nat2Z.inj_succ, Z.pow_succ_r by lia; done).
    pose proof (pow2_pos (Z.of_nat l) ltac:(lia)). destruct fuel as [|fuel]; [lia|]. destruct xs as [|x [|y r]]; [simpl in Hx; lia|simpl in Hx; lia|].
    cbn [reduce]. rewrite (IH fuel (pair_up (x :: y :: r))); [by rewrite layer_of_pair|lia|]. rewrite pair_up_length.
    destruct l as [|l]; [left; split; [done|]|right].
    + simpl in Hx. pose proof (pair_up_length (x :: y :: r)) as Hp. assert (length r = 0%nat) by lia. destruct r; [done|done].
    + assert (E3 : 2 ^ Z.of_nat (S l) = 2 * 2 ^ Z.of_nat l) by (rewrite Nat2Z.inj_succ, Z.pow_succ_r by lia; done).
      replace (Z.of_nat (S l) - 1) with (Z.of_nat l) by lia. Z.to_euclidean_division_equations. lia.
Qed.

Lemma merkle_root_nd xs l : 0 <= l -> (l = 0 /\ length xs = 1%nat) \/ 2 ^ (l - 1) < Z.of_nat (length xs) <= 2 ^ l -> merkle_root xs = nd xs l 0.
Proof.
  intros Hl Hx. unfold merkle_root, nd. apply reduce_layers.
  - destruct Hx as [[-> _]|[Hx _]]; [lia|]. destruct (Z.eq_dec l 0) as [->|]; [lia|].
    assert (l - 1 < 2 ^ (l - 1)) by (apply Z.pow_gt_lin_r; lia). lia.
  - rewrite Z2Nat.id by done. destruct Hx as [[-> Hx]|Hx]; [by left|by right].
Qed.

End reference.

(** ** The commitment *)

(** ** Powers of two *)

Lemma odd_part x : 0 < x -> exists p q, 0 <= p /\ 0 <= q /\ x = (2 * q + 1) * 2 ^ p.
Proof.
  intros Hx. assert (H0 : 0 <= x) by lia. revert Hx. pattern x. revert x H0. apply Z_lt_induction. intros x IH Hx.
  destruct (even_case x) as (r & [[_ E]|[_ E]]); [|exists 0, r; simpl; lia]. destruct (IH r) as (p & q & Hp & Hq & Er); [lia|lia|].
  exists (p + 1), q. rewrite pow2_succ by done. lia.
Qed.

Lemma land_1 c : (Z.land c 1 =? 0) = Z.even c.
Proof. change 1 with (Z.ones 1). rewrite Z.land_ones by lia. change (2 ^ 1) with 2. rewrite Zmod_even. by destruct (Z.even c). Qed.

Section bits.
Context (p q : Z) (Hp : 0 <= p) (Hq : 0 <= q).

Lemma odd_bit i : 0 <= i -> Z.testbit ((2 * q + 1) * 2 ^ p) i = if i <? p then false else if i =? p then true else Z.testbit (2 * q * 2 ^ p) i.
Proof using Hp Hq.
  intros Hi. destruct (Z.ltb_spec i p); [by apply Z.mul_pow2_bits_low|]. rewrite Z.mul_pow2_bits by done. destruct (Z.eqb_spec i p) as [->|].
  - rewrite Z.sub_diag. apply Z.testbit_odd_0.
  - rewrite Z.mul_pow2_bits by done. replace (i - p) with (Z.succ (i - p - 1)) by lia. by rewrite Z.testbit_odd_succ, Z.testbit_even_succ by lia.
Qed.

Lemma pred_bit i : 0 <= i -> Z.testbit ((2 * q + 1) * 2 ^ p - 1) i = if i <? p then true else if i =? p then false else Z.testbit (2 * q * 2 ^ p) i.
Proof using Hp Hq.
  intros Hi. assert (E : (2 * q + 1) * 2 ^ p - 1 = Z.lor (2 * q * 2 ^ p) (Z.ones p)).
  { rewrite Z.lor_comm, lor_add by (rewrite ?Z.ones_equiv; pose proof (pow2_pos p Hp); lia). rewrite Z.ones_equiv. lia. }
  rewrite E, Z.lor_spec, Z.testbit_ones_nonneg by lia. destruct (Z.ltb_spec i p).
  - by rewrite orb_true_r.
  - rewrite orb_false_r. destruct (Z.eqb_spec i p) as [->|]; [|done]. rewrite Z.mul_pow2_bits, Z.sub_diag by done. apply Z.testbit_even_0.
Qed.

Lemma lsb_spec : fd_ulong_find_lsb ((2 * q + 1) * 2 ^ p) = p.
Proof using Hp Hq.
  unfold fd_ulong_find_lsb. set (x := (2 * q + 1) * 2 ^ p). assert (Z.land x (- x) = 2 ^ p) as ->; [|by apply Z.log2_pow2].
  replace (- x) with (Z.lnot (x - 1)) by (unfold Z.lnot; lia). apply Z.bits_inj'. intros i Hi. rewrite Z.land_spec, Z.lnot_spec, Z.pow2_bits_eqb by done.
  unfold x. rewrite odd_bit, pred_bit by done. rewrite (Z.eqb_sym p i). destruct (Z.ltb_spec i p), (Z.eqb_spec i p); try done; try lia. by destruct (Z.testbit _ i).
Qed.

Lemma is_pow2_spec : (2 * q + 1) * 2 ^ p <= ULONG_MAX -> fd_ulong_is_pow2 ((2 * q + 1) * 2 ^ p) = (q =? 0).
Proof using Hp Hq.
  intros Hx. unfold fd_ulong_is_pow2. set (x := (2 * q + 1) * 2 ^ p) in *. pose proof (pow2_pos p Hp). assert (0 < x) by (unfold x; nia).
  rewrite u64_small by (unfold is_u64; lia). rewrite (proj2 (Z.eqb_neq x 0)) by lia. simpl.
  assert (Z.land x (x - 1) = 2 * q * 2 ^ p) as ->.
  { apply Z.bits_inj'. intros i Hi. rewrite Z.land_spec. unfold x. rewrite odd_bit, pred_bit by done.
    destruct (Z.ltb_spec i p); [by rewrite Z.mul_pow2_bits_low|]. destruct (Z.eqb_spec i p) as [->|]; [|apply andb_diag].
    rewrite Z.mul_pow2_bits, Z.sub_diag by done. symmetry. apply Z.testbit_even_0. }
  destruct (Z.eqb_spec q 0) as [->|]; [done|]. apply Z.eqb_neq. nia.
Qed.
End bits.

(** ** Storing a node *)

Lemma save_ok t i x : 0 <= i -> 0 <= inclusion_proof_sz t -> Z.of_nat (length (inclusion_proofs t)) = inclusion_proof_sz t ->
  exists v ps, save t i x = Ok (with_valid (with_proofs t ps) v) /\ length ps = length (inclusion_proofs t) /\
    forall j, 0 <= j -> ps !! Z.to_nat j = if (j =? i) && (i <? inclusion_proof_sz t) then Some x else inclusion_proofs t !! Z.to_nat j.
Proof.
  intros Hi Hs Hl. unfold save. destruct (Z.ltb_spec i (inclusion_proof_sz t)) as [Hlt|Hge].
  - rewrite Z.min_l by lia. rewrite (proj2 (Z.eqb_neq i (inclusion_proof_sz t))) by lia. rewrite aset_ok by lia. cbn [mbind res_bind].
    exists (inclusion_proofs_valid t), (<[Z.to_nat i := x]> (inclusion_proofs t)). split; [by destruct t|]. split; [apply length_insert|].
    intros j Hj. rewrite andb_true_r. destruct (Z.eqb_spec j i) as [->|]; [by rewrite list_lookup_insert_eq by lia|by rewrite list_lookup_insert_ne by lia].
  - rewrite Z.min_r, Z.eqb_refl by lia. eexists _, (inclusion_proofs t). split; [by destruct t|]. split; [done|]. intros j Hj. by rewrite andb_false_r.
Qed.

Section commit.
Context (sha256 : list Z -> list Z) (L hash_sz prefix_sz : Z).
Hypothesis sha256_length : forall m, length (sha256 m) = 32%nat.
Hypothesis layers : 0 <= L <= 63.
Hypothesis hash_range : 0 <= hash_sz <= 32.

Abbreviation nd := (nd sha256 hash_sz prefix_sz).
Abbreviation join := (join sha256 hash_sz prefix_sz).

(** The node is in its place, if there is one. *)
Definition stored (t : fd_bmtree_commit_t) (xs : list (list Z)) (l k : Z) : Prop :=
  nidx l k < 2 ^ L - 1 -> exists v, nd xs l k = Some v /\ inclusion_proofs t !! Z.to_nat (nidx l k) = Some (bytes v).

Record params_ok (t : fd_bmtree_commit_t) : Prop := {
  pa_hash : Bmtree.hash_sz t = hash_sz;
  pa_prefix : Bmtree.prefix_sz t = prefix_sz;
  pa_sz : inclusion_proof_sz t = 2 ^ L - 1;
  pa_proofs : Z.of_nat (length (inclusion_proofs t)) = 2 ^ L - 1;
  pa_buf : length (node_buf t) = 63%nat
}.

(** The state after the leaves [xs]: the left node of the last pair of every
    layer is buffered, and the complete nodes are stored. *)
Record appended (t : fd_bmtree_commit_t) (xs : list (list Z)) : Prop := {
  ap_params : params_ok t;
  ap_cnt : leaf_cnt t = Z.of_nat (length xs);
  ap_left l : 0 <= l -> 2 ^ l <= leaf_cnt t ->
    exists v, nd xs l (2 * ((leaf_cnt t / 2 ^ l - 1) / 2)) = Some v /\ node_buf t !! Z.to_nat l = Some (bytes v);
  ap_stored l k : 0 <= l -> 0 <= k -> (k + 1) * 2 ^ l <= leaf_cnt t -> stored t xs l k
}.

Lemma sz_nonneg : 0 <= 2 ^ L - 1.
Proof using layers. pose proof (pow2_pos L). lia. Qed.

Lemma save_params t i x : params_ok t -> 0 <= i ->
  exists t', save t i x = Ok t' /\ params_ok t' /\ leaf_cnt t' = leaf_cnt t /\ node_buf t' = node_buf t /\
    (i < 2 ^ L - 1 -> inclusion_proofs t' !! Z.to_nat i = Some x) /\
    forall j, 0 <= j -> j <> i -> inclusion_proofs t' !! Z.to_nat j = inclusion_proofs t !! Z.to_nat j.
Proof using layers.
  intros [P1 P2 P3 P4 P5] Hi. pose proof sz_nonneg. destruct (save_ok t i x Hi) as (v & ps & -> & Hl & Hps); [lia|lia|].
  eexists. split; [done|]. split; [constructor; simpl; congruence || lia|]. split; [done|]. split; [done|]. simpl. split.
  - intros Hlt. rewrite Hps, Z.eqb_refl, P3 by done. by rewrite (proj2 (Z.ltb_lt _ _) Hlt).
  - intros j Hj Hne. rewrite Hps by done. by rewrite (proj2 (Z.eqb_neq j i) Hne).
Qed.

Lemma stored_save t t' xs l k i : 0 <= l -> 0 <= k -> nidx l k <> i ->
  (forall j, 0 <= j -> j <> i -> inclusion_proofs t' !! Z.to_nat j = inclusion_proofs t !! Z.to_nat j) -> stored t xs l k -> stored t' xs l k.
Proof. intros Hl Hk Hne Hj Hs Hlt. destruct (Hs Hlt) as (v & Hv & Hp). exists v. split; [done|]. rewrite Hj; [done|by apply nidx_nonneg|done]. Qed.

Lemma merge_nodes t a b : params_ok t -> length a = 32%nat -> length b = 32%nat -> merge sha256 t (bytes a) (bytes b) = Ok (bytes (join a b)).
Proof using hash_range.
  intros P Ha Hb. rewrite (merge_ok sha256 t (bytes a) (bytes b) (take (Z.to_nat hash_sz) a) (take (Z.to_nat hash_sz) b));
    rewrite ?(pa_hash _ P), ?bytes_length, ?hval_bytes; try done. unfold digest, join. by rewrite (pa_prefix _ P).
Qed.

Lemma init_appended buf proofs : memory_ok L buf proofs -> appended (init L hash_sz prefix_sz buf proofs) [].
Proof using layers.
  intros (Hb & Hp & _). pose proof (pow2_pos L ltac:(lia)). assert (2 ^ L < 2 ^ 64) by (apply Z.pow_lt_mono_r; lia). constructor.
  - constructor; try done. cbn [inclusion_proof_sz init fd_bmtree_commit_init]. unfold init, fd_bmtree_commit_init. cbn [inclusion_proof_sz]. by rewrite shiftl_1 by lia.
  - done.
  - intros l Hl Hle. simpl in Hle. pose proof (pow2_pos l Hl). lia.
  - intros l k Hl Hk Hle. simpl in Hle. pose proof (pow2_pos l Hl). nia.
Qed.

(** ** Appending a leaf *)

Section append.
Context (t : fd_bmtree_commit_t) (xs : list (list Z)) (x : list Z).
Hypothesis A : appended t xs.
Hypothesis xs_len : Forall (fun y => length y = 32%nat) xs.
Hypothesis x_len : length x = 32%nat.
Hypothesis room : Z.of_nat (length xs) + 1 < 2 ^ 63.

Abbreviation n := (Z.of_nat (length xs)).
Abbreviation xs' := (xs ++ [x]).

Lemma xs'_len : Forall (fun y => length y = 32%nat) xs' /\ Z.of_nat (length xs') = n + 1.
Proof using xs_len x_len. rewrite Forall_app, length_app. split; [|simpl; lia]. split; [done|]. by constructor. Qed.

(** The walk is at layer [m]; the new nodes below it are stored. *)
Record walk (s : fd_bmtree_commit_t * mem * Z * Z * Z) : Prop := {
  wk_layer : 0 <= s.1.1.2 /\ 0 < s.2 /\ s.2 * 2 ^ s.1.1.2 = n + 1;
  wk_params : params_ok s.1.1.1.1;
  wk_cnt : leaf_cnt s.1.1.1.1 = n + 1;
  wk_buf : node_buf s.1.1.1.1 = node_buf t;
  wk_idx : s.1.2 = nidx s.1.1.2 (s.2 - 1);
  wk_node : exists v, nd xs' s.1.1.2 (s.2 - 1) = Some v /\ s.1.1.1.2 = bytes v;
  wk_stored l k : 0 <= l -> 0 <= k -> (k + 1) * 2 ^ l <= n \/ l < s.1.1.2 /\ (k + 1) * 2 ^ l = n + 1 -> stored s.1.1.1.1 xs' l k
}.

Lemma layer_bound m c : 0 <= m -> 0 < c -> c * 2 ^ m = n + 1 -> m <= 62.
Proof using room x_len.
  intros Hm Hc E. destruct (Z.le_gt_cases m 62) as [|Hgt]; [done|]. assert (2 ^ 63 <= 2 ^ m) by (apply Z.pow_le_mono_r; lia). nia.
Qed.

Lemma walk_step s : walk s ->
  (exists s', append_step sha256 s = Ok (inl s') /\ walk s' /\ (Z.to_nat (Z.log2 s'.2) < Z.to_nat (Z.log2 s.2))%nat) \/
  (exists r, append_step sha256 s = Ok (inr r) /\
     exists c, walk (r.1.1.1, r.1.1.2, r.1.2, r.2, c) /\ Z.even c = false).
Proof using All.
  destruct s as [[[[t1 tmp] m] i] c]. intros [Wl Wp Wc Wb Wi (v & Wv & Wt) Ws]. simpl in *. destruct Wl as (Hm & Hc & Ec). subst tmp i.
  pose proof (layer_bound m c Hm Hc Ec) as Hm62. pose proof (pow2_pos m Hm). destruct xs'_len as [Hlen Hn1].
  unfold append_step. rewrite !land_1. destruct (even_case c) as (q & [[Ee Eq]|[Ee Eq]]); rewrite !Ee.
  - left. destruct (save_params t1 (nidx m (c - 1)) (bytes v) Wp) as (t2 & -> & P2 & C2 & B2 & S2 & O2); [apply nidx_nonneg; lia|].
    cbn [mbind res_bind]. destruct (ap_left _ _ A m Hm) as (u & Hu & Eu); [rewrite (ap_cnt _ _ A); nia|].
    assert (Hdiv : leaf_cnt t / 2 ^ m = c - 1) by (rewrite (ap_cnt _ _ A); symmetry; apply (Z.div_unique_pos _ _ _ (2 ^ m - 1)); lia).
    rewrite Hdiv in Hu. replace (2 * ((c - 1 - 1) / 2)) with (2 * (q - 1)) in Hu by (rewrite Eq; Z.to_euclidean_division_equations; lia).
    assert (Hu' : nd xs' m (2 * (q - 1)) = Some u) by (rewrite nd_app; [done|lia|lia|nia]).
    unfold aget. rewrite (proj2 (Z.ltb_ge m 0)) by lia. rewrite B2, Wb, Eu. cbn [deref mbind res_bind].
    rewrite merge_nodes; [|done|by eapply (nd_length sha256 hash_sz prefix_sz xs' sha256_length m (2 * (q - 1))); lia || done
      |by eapply (nd_length sha256 hash_sz prefix_sz xs' sha256_length m (c - 1)); lia || done]. cbn [mbind res_bind].
    assert (Esh : Z.shiftr c 1 = q) by (rewrite Z.shiftr_div_pow2 by lia; rewrite Eq; Z.to_euclidean_division_equations; lia).
    rewrite Esh. eexists. split; [reflexivity|]. split; [|simpl; rewrite Eq; apply Z2Nat.inj_lt; [apply Z.log2_nonneg..|]; rewrite Z.log2_double by lia; lia].
    constructor; simpl; try done; try congruence.
    + rewrite pow2_succ by done. split_and!; lia.
    + rewrite shiftl_1 by lia. unfold nidx. rewrite !pow2_succ by lia. rewrite u64_small; [lia|]. unfold is_u64, ULONG_MAX. nia.
    + exists (join u v). split; [|done]. apply nd_two; [lia|lia|by replace (2 * (q - 1)) with (2 * (q - 1)) by lia|]. by replace (2 * (q - 1) + 1) with (c - 1) by lia.
    + intros l k Hl Hk [Hle|[Hlt Hle]].
      * apply (stored_save t1 _ _ _ _ (nidx m (c - 1))); try done; [|by apply Ws; [done|done|left]].
        intros E. apply nidx_inj in E as [-> ->]; [|done|done]. nia.
      * destruct (Z.eq_dec l m) as [->|Hne].
        -- intros Hb. assert (k = c - 1) as -> by nia. exists v. split; [done|]. by apply S2.
        -- apply (stored_save t1 _ _ _ _ (nidx m (c - 1))); try done; [|apply Ws; [done|done|right; lia]].
           intros E. by apply nidx_inj in E as [-> _].
  - right. eexists. split; [reflexivity|]. exists c. split; [|done]. constructor; simpl; try done. eauto.
Qed.

(** Quotients after one more leaf. *)
Lemma div_succ_stays P : 0 < P -> (n + 1) mod P <> 0 -> (n + 1) / P = n / P.
Proof. intros HP Hm. pose proof (Z.div_mod (n + 1) P ltac:(lia)). pose proof (Z.mod_pos_bound (n + 1) P HP). apply (Z.div_unique_pos _ _ _ ((n + 1) mod P - 1)); lia. Qed.

Lemma append_leaf_ok : exists t', append_leaf sha256 t (bytes x) = Ok t' /\ appended t' xs'.
Proof using All.
  unfold append_leaf. pose proof (ap_cnt _ _ A) as Hcnt. destruct xs'_len as [Hlen Hn1]. rewrite Hcnt.
  rewrite (u64_small (2 * n)), (u64_small (n + 1)) by (unfold is_u64, ULONG_MAX; lia).
  edestruct (loop_total (append_step sha256) walk (fun s => Z.to_nat (Z.log2 s.2)) _ walk_step 64 (with_leaf_cnt t (n + 1), bytes x, 0, 2 * n, n + 1)) as (r & -> & c & W & Hodd).
  { destruct A as [P0 _ _ S0]. constructor; simpl; try done; try lia.
    - destruct P0. constructor; done.
    - unfold nidx. simpl. lia.
    - exists x. split; [|done]. unfold BmtreeCommit.nd. simpl. replace (Z.to_nat (n + 1 - 1)) with (length xs) by lia. by rewrite lookup_app_r, Nat.sub_diag by lia.
    - intros l k Hl Hk [Hle|[? _]]; [|lia]. intros Hb. destruct (S0 l k Hl Hk ltac:(lia) Hb) as (v & Hv & Hp). exists v. by rewrite nd_app. }
  { simpl. assert (Z.log2 (n + 1) < 63) by (apply Z.log2_lt_pow2; lia). pose proof (Z.log2_nonneg (n + 1)). lia. }
  destruct r as [[[t1 tmp] m] i]. destruct W as [(Hm & Hc & Ec) Wp Wc Wb Wi (v & Wv & Wt) Ws]. simpl in *. subst tmp i. cbn [mbind res_bind].
  pose proof (layer_bound m c Hm Hc Ec) as Hm62. rewrite aset_ok by (rewrite (pa_buf _ Wp); lia). cbn [mbind res_bind].
  destruct (save_params (with_buf t1 (<[Z.to_nat m := bytes v]> (node_buf t1))) (nidx m (c - 1)) (bytes v)) as (t' & E & P' & C' & B' & S' & O');
    [destruct Wp; constructor; simpl; try done; by rewrite length_insert|apply nidx_nonneg; lia|]. exists t'. split; [exact E|]. simpl in C', B', O'.
  constructor; [done|by rewrite C', Wc, Hn1| |].
  - rewrite C', Wc. intros l Hl Hle. rewrite B'. pose proof (pow2_pos l Hl). destruct (Z.lt_trichotomy l m) as [Hlt|[->|Hgt]].
    + assert (Em : 2 ^ m = 2 * (2 ^ (m - l - 1) * 2 ^ l)) by (rewrite <- Z.pow_add_r, <- pow2_succ by lia; f_equal; lia).
      pose proof (pow2_pos (m - l - 1) ltac:(lia)). set (h := c * 2 ^ (m - l - 1)). assert (Eh : n + 1 = 2 * h * 2 ^ l) by (unfold h; nia).
      assert (0 < h) by (unfold h; nia). destruct (ap_left _ _ A l Hl) as (u & Hu & Eu); [nia|]. rewrite Hcnt in Hu.
      assert (n / 2 ^ l = 2 * h - 1) as En by (symmetry; apply (Z.div_unique_pos _ _ _ (2 ^ l - 1)); lia).
      assert ((n + 1) / 2 ^ l = 2 * h) as -> by (rewrite Eh; apply Z.div_mul; lia). rewrite En in Hu.
      replace ((2 * h - 1 - 1) / 2) with (h - 1) in Hu by (Z.to_euclidean_division_equations; lia).
      replace ((2 * h - 1) / 2) with (h - 1) by (Z.to_euclidean_division_equations; lia). exists u.
      split; [rewrite nd_app; [done|lia|lia|nia]|]. rewrite list_lookup_insert_ne by lia. by rewrite Wb.
    + exists v. rewrite list_lookup_insert_eq by (rewrite (pa_buf _ Wp); lia). split; [|done].
      assert ((n + 1) / 2 ^ m = c) as -> by (rewrite <- Ec; apply Z.div_mul; lia).
      replace (2 * ((c - 1) / 2)) with (c - 1); [done|]. destruct (even_case c) as (q & [[? ?]|[_ ->]]); [congruence|]. Z.to_euclidean_division_equations. lia.
    + rewrite list_lookup_insert_ne by lia. rewrite Wb.
      assert (Hmod : (n + 1) mod 2 ^ l <> 0).
      { intros Hz%Z.mod_divide; [|lia]. destruct Hz as [z Hz]. assert (El : 2 ^ l = 2 * 2 ^ (l - m - 1) * 2 ^ m) by (rewrite <- pow2_succ, <- Z.pow_add_r by lia; f_equal; lia).
        pose proof (pow2_pos m Hm). assert (c = 2 * (z * 2 ^ (l - m - 1))) as Hev by nia. rewrite Hev, Z.even_mul in Hodd. done. }
      rewrite div_succ_stays by done. assert (2 ^ l <= n) by (destruct (Z.eq_dec (2 ^ l) (n + 1)) as [E'|]; [rewrite <- E', Z.mod_same in Hmod by lia; done|lia]).
      destruct (ap_left _ _ A l Hl) as (u & Hu & Eu); [lia|]. rewrite Hcnt in Hu. exists u. split; [|done]. rewrite nd_app; [done|lia| |].
      * assert (1 <= n / 2 ^ l) by (apply Z.div_le_lower_bound; lia). Z.to_euclidean_division_equations. lia.
      * pose proof (Z.mul_div_le n (2 ^ l) ltac:(lia)). assert (1 <= n / 2 ^ l) by (apply Z.div_le_lower_bound; lia).
        assert (2 * ((n / 2 ^ l - 1) / 2) + 1 <= n / 2 ^ l) by (generalize (n / 2 ^ l); intros; Z.to_euclidean_division_equations; lia). nia.
  - rewrite C', Wc. intros l k Hl Hk Hle. destruct (Z.eq_dec (nidx l k) (nidx m (c - 1))) as [E'|Hne].
    + intros Hb. apply nidx_inj in E' as [-> ->]; [|done|done]. exists v. split; [done|]. by apply S'.
    + apply (stored_save (with_buf t1 (<[Z.to_nat m := bytes v]> (node_buf t1))) _ _ _ _ (nidx m (c - 1))); try done.
      apply Ws; [done|done|]. destruct (Z.eq_dec ((k + 1) * 2 ^ l) (n + 1)) as [E'|]; [|left; lia]. right. split; [|done].
      destruct (Z.lt_trichotomy l m) as [|[->|Hgt]]; [done| |].
      * exfalso. apply Hne. pose proof (pow2_pos m Hm). f_equal. nia.
      * exfalso. assert (El : 2 ^ l = 2 * 2 ^ (l - m - 1) * 2 ^ m) by (rewrite <- pow2_succ, <- Z.pow_add_r by lia; f_equal; lia).
        pose proof (pow2_pos m Hm). assert (c = 2 * ((k + 1) * 2 ^ (l - m - 1))) as Hev by nia. rewrite Hev, Z.even_mul in Hodd. done.
Qed.

End append.

Lemma commit_append_ok ys : forall t xs, appended t xs ->
  Forall (fun y => length y = 32%nat) xs -> Forall (fun y => length y = 32%nat) ys -> Z.of_nat (length xs) + Z.of_nat (length ys) < 2 ^ 63 ->
  exists t', fd_bmtree_commit_append sha256 t (bytes <$> ys) = Ok t' /\ appended t' (xs ++ ys).
Proof using sha256_length layers hash_range.
  induction ys as [|y ys IH]; intros t xs A Hx Hy Hn; cbn [fmap list_fmap fd_bmtree_commit_append].
  { exists t. by rewrite app_nil_r. }
  apply Forall_cons in Hy as [Hy Hys]. simpl in Hn. destruct (append_leaf_ok t xs y A Hx Hy) as (t1 & -> & A1); [lia|]. cbn [mbind res_bind].
  destruct (IH t1 (xs ++ [y]) A1) as (t' & E & A'); [by rewrite Forall_app, Forall_singleton|done|rewrite length_app; simpl; lia|].
  exists t'. split; [exact E|]. by rewrite <- app_assoc in A'.
Qed.

(** ** Sealing *)

(** Every node of the tree is stored. *)
Definition all_stored (t : fd_bmtree_commit_t) (xs : list (list Z)) : Prop :=
  forall l k, 0 <= l -> 0 <= k -> 2 ^ (l - 1) < Z.of_nat (length xs) -> k * 2 ^ l < Z.of_nat (length xs) -> stored t xs l k.

Section seal.
Context (xs : list (list Z)).

Abbreviation n := (Z.of_nat (length xs)).

(** The number of nodes of a layer. *)
Definition cnt (l : Z) : Z := (n - 1) / 2 ^ l + 1.

Lemma cnt_succ l : 0 <= l -> cnt (l + 1) = (cnt l + 1) / 2.
Proof. intros Hl. unfold cnt. rewrite pow2_succ, (Z.mul_comm 2), <- Z.div_div by (pose proof (pow2_pos l Hl); lia). generalize ((n - 1) / 2 ^ l). intros. Z.to_euclidean_division_equations. lia. Qed.

Lemma cnt_pos l : 0 <= l -> 0 < n -> 1 <= cnt l.
Proof. intros Hl Hn. unfold cnt. pose proof (pow2_pos l Hl). assert (0 <= (n - 1) / 2 ^ l) by (apply Z.div_pos; lia). lia. Qed.

Lemma cnt_le l : 0 <= l -> (cnt l - 1) * 2 ^ l < n <= cnt l * 2 ^ l.
Proof. intros Hl. unfold cnt. pose proof (pow2_pos l Hl). pose proof (Z.div_mod (n - 1) (2 ^ l) ltac:(lia)). pose proof (Z.mod_pos_bound (n - 1) (2 ^ l) ltac:(lia)). lia. Qed.

Context (t : fd_bmtree_commit_t) (p q : Z).
Hypothesis A : appended t xs.
Hypothesis xs_len : Forall (fun y => length y = 32%nat) xs.
Hypothesis split : 0 <= p /\ 1 <= q /\ Z.of_nat (length xs) = (2 * q + 1) * 2 ^ p.
Hypothesis small : Z.of_nat (length xs) <= 2 ^ 62.

Lemma cnt_at_p : cnt p = 2 * q + 1.
Proof using split.
  destruct split as (Hp & Hq & En). unfold cnt. pose proof (pow2_pos p Hp).
  assert ((n - 1) / 2 ^ p = 2 * q) as ->; [|done]. symmetry. apply (Z.div_unique_pos _ _ _ (2 ^ p - 1)); lia.
Qed.

(** Above the first odd layer the last node is not complete. *)
Lemma div_above l : p < l -> n / 2 ^ l = cnt l - 1.
Proof using split small.
  intros Hl. destruct split as (Hp & Hq & En). unfold cnt. pose proof (pow2_pos l ltac:(lia)).
  assert (Hmod : n mod 2 ^ l <> 0).
  { intros Hz%Z.mod_divide; [|lia]. destruct Hz as [z Hz]. assert (El : 2 ^ l = 2 * 2 ^ (l - p - 1) * 2 ^ p) by (rewrite <- pow2_succ, <- Z.pow_add_r by lia; f_equal; lia).
    pose proof (pow2_pos p Hp). assert (2 * q + 1 = 2 * (z * 2 ^ (l - p - 1))) by nia. lia. }
  pose proof (Z.div_mod n (2 ^ l) ltac:(lia)). pose proof (Z.mod_pos_bound n (2 ^ l) ltac:(lia)).
  assert ((n - 1) / 2 ^ l = n / 2 ^ l) as ->; [|lia]. symmetry. apply (Z.div_unique_pos _ _ _ (n mod 2 ^ l - 1)); lia.
Qed.

Record climbing (s : fd_bmtree_commit_t * mem * Z * Z) : Prop := {
  cb_layer : p <= s.1.2 /\ s.2 = cnt s.1.2 /\ 2 ^ (s.1.2 - 1) < n;
  cb_params : params_ok s.1.1.1;
  cb_cnt : leaf_cnt s.1.1.1 = n;
  cb_buf : node_buf s.1.1.1 = node_buf t;
  cb_node : exists v, nd xs s.1.2 (s.2 - 1) = Some v /\ s.1.1.2 = bytes v;
  cb_stored l k : 0 <= l -> 0 <= k -> (k + 1) * 2 ^ l <= n \/ l <= s.1.2 /\ k = cnt l - 1 -> stored s.1.1.1 xs l k
}.

Lemma layer_lt l : 0 <= l -> 2 ^ (l - 1) < n -> l <= 62.
Proof using small split.
  intros Hl Hn. destruct (Z.le_gt_cases l 62) as [|Hgt]; [done|]. assert (2 ^ 62 <= 2 ^ (l - 1)) by (apply Z.pow_le_mono_r; lia). lia.
Qed.

Lemma last_idx_nidx l : 0 <= l -> 2 ^ (l - 1) < n -> last_idx l (cnt l) = nidx l (cnt l - 1).
Proof using small split.
  intros Hl Hn. pose proof (layer_lt l Hl Hn). pose proof (pow2_pos l Hl). pose proof (cnt_le l Hl). assert (2 ^ l <= 2 ^ 62) by (apply Z.pow_le_mono_r; lia).
  assert (0 < n) by (pose proof (Z.pow_nonneg 2 (l - 1) ltac:(lia)); lia). pose proof (cnt_pos l Hl ltac:(lia)).
  unfold last_idx, nidx. rewrite (shiftl_pow2 (cnt l)), shiftl_1, pow2_succ by lia. assert (cnt l * 2 ^ l < 2 ^ 63) by lia.
  assert (2 ^ l <= cnt l * 2 ^ l) by nia. assert (E : cnt l * (2 * 2 ^ l) = 2 * (cnt l * 2 ^ l)) by lia.
  replace ((cnt l - 1) * (2 * 2 ^ l) + 2 ^ l - 1) with (2 * (cnt l * 2 ^ l) - 2 ^ l - 1) by lia. rewrite E.
  generalize dependent (cnt l * 2 ^ l). intros M. generalize dependent (2 ^ l). intros P. intros. unfold is_u64, ULONG_MAX in *. change (2 ^ 63) with 9223372036854775808 in *.
  rewrite (u64_small (2 * M)), (u64_small (2 * M - P)), (u64_small (2 * M - P - 1)) by (unfold is_u64, ULONG_MAX; lia). done.
Qed.

(** The parent of the last node. *)
Lemma last_parent l v : p <= l -> 1 < cnt l -> nd xs l (cnt l - 1) = Some v ->
  exists u, (if Z.even (cnt l) then node_buf t !! Z.to_nat l = Some (bytes u) else u = v) /\ length u = 32%nat /\
    nd xs (l + 1) (cnt (l + 1) - 1) = Some (join u v).
Proof using All.
  intros Hl Hc Hv. assert (Hl0 : 0 <= l) by lia. rewrite cnt_succ by done. pose proof (cnt_le l Hl0) as Hle. pose proof (pow2_pos l Hl0).
  destruct (even_case (cnt l)) as (r & [[Ee Er]|[Ee Er]]); rewrite Ee.
  - assert (p < l) by (destruct (Z.eq_dec l p) as [->|]; [rewrite cnt_at_p in Er; lia|lia]).
    destruct (ap_left _ _ A l Hl0) as (u & Hu & Eu); [rewrite (ap_cnt _ _ A); nia|]. rewrite (ap_cnt _ _ A), div_above in Hu by done.
    replace (2 * ((cnt l - 1 - 1) / 2)) with (2 * (r - 1)) in Hu by (rewrite Er; Z.to_euclidean_division_equations; lia).
    exists u. split; [done|]. split; [by eapply (nd_length sha256 hash_sz prefix_sz xs sha256_length l (2 * (r - 1))); lia || done|].
    replace ((cnt l + 1) / 2 - 1) with (r - 1) by (rewrite Er; Z.to_euclidean_division_equations; lia). apply nd_two; [done|lia|done|].
    by replace (2 * (r - 1) + 1) with (cnt l - 1) by lia.
  - exists v. split; [done|]. split; [by eapply (nd_length sha256 hash_sz prefix_sz xs sha256_length l (cnt l - 1)); lia || done|].
    replace ((cnt l + 1) / 2 - 1) with r by (rewrite Er; Z.to_euclidean_division_equations; lia).
    apply nd_one; [done|lia|by replace (2 * r) with (cnt l - 1) by lia|]. replace (2 * r + 1) with (cnt l) by lia. lia.
Qed.

Lemma climb_step s : climbing s ->
  (exists s', fini_step sha256 s = Ok (inl s') /\ climbing s' /\ (Z.to_nat (62 - s'.1.2) < Z.to_nat (62 - s.1.2))%nat) \/
  (exists r, fini_step sha256 s = Ok (inr r) /\ exists l, climbing (r.1, r.2, l, 1)).
Proof using All.
  destruct s as [[[t1 tmp] l] c]. intros [(Hl & Ecn & Hlow) Wp Wc Wb (v & Wv & Wt) Ws]. simpl in *. subst tmp c. destruct split as (Hp & Hq & En).
  assert (Hl0 : 0 <= l) by lia. pose proof (layer_lt l Hl0 Hlow). pose proof (pow2_pos l Hl0). pose proof (cnt_pos l Hl0 ltac:(lia)). pose proof (cnt_le l Hl0) as Hle.
  unfold fini_step. rewrite !land_1. destruct (Z.ltb_spec 1 (cnt l)) as [Hc|Hc].
  - left. destruct (last_parent l v Hl Hc Wv) as (u & Hu & Ul & Hpar).
    assert (E2 : (if Z.even (cnt l) then aget (node_buf t1) l else Ok (bytes v)) = Ok (bytes u)).
    { destruct (Z.even (cnt l)); [|by rewrite Hu]. unfold aget. by rewrite (proj2 (Z.ltb_ge l 0)), Wb, Hu by lia. }
    rewrite E2. cbn [mbind res_bind]. rewrite merge_nodes; [|done|done|by eapply (nd_length sha256 hash_sz prefix_sz xs sha256_length l (cnt l - 1)); lia || done].
    cbn [mbind res_bind]. assert (Hlow' : 2 ^ (l + 1 - 1) < n) by (replace (l + 1 - 1) with l by lia; nia).
    assert (Ec : Z.shiftr (u64 (cnt l + 1)) 1 = cnt (l + 1)).
    { rewrite cnt_succ, Z.shiftr_div_pow2 by lia. change (2 ^ 1) with 2. rewrite u64_small; [done|]. unfold is_u64, ULONG_MAX. nia. }
    rewrite Ec, last_idx_nidx by (lia || done). pose proof (layer_lt (l + 1) ltac:(lia) Hlow') as Hl62. pose proof (cnt_pos (l + 1) ltac:(lia) ltac:(lia)).
    destruct (save_params t1 (nidx (l + 1) (cnt (l + 1) - 1)) (bytes (join u v)) Wp) as (t2 & -> & P2 & C2 & B2 & S2 & O2); [apply nidx_nonneg; lia|].
    cbn [mbind res_bind]. eexists. split; [reflexivity|]. split; [|simpl; lia]. constructor; simpl; try done; try congruence.
    + split_and!; [lia|done|done].
    + eauto.
    + intros l' k Hl' Hk Hcase. destruct (Z.eq_dec (nidx l' k) (nidx (l + 1) (cnt (l + 1) - 1))) as [E|Hne].
      * intros Hb. apply nidx_inj in E as [-> ->]; [|lia|lia]. exists (join u v). split; [done|]. by apply S2.
      * apply (stored_save t1 _ _ _ _ (nidx (l + 1) (cnt (l + 1) - 1))); try done. apply Ws; [done|done|].
        destruct Hcase as [?|[Hle' ->]]; [by left|]. right. split; [|done]. destruct (Z.eq_dec l' (l + 1)) as [->|]; [done|lia].
  - right. eexists. split; [reflexivity|]. exists l. assert (cnt l = 1) as E1 by lia. constructor; simpl; try done; rewrite E1 in *; eauto.
Qed.

End seal.

Lemma depth_root n : 1 <= n <= 2 ^ 62 -> u64 (fd_bmtree_depth n - 1) = Z.log2_up n /\ 0 <= Z.log2_up n <= 62.
Proof.
  intros Hn. assert (Hu : 0 <= Z.log2_up n <= 62).
  { split; [apply Z.log2_up_nonneg|]. change 62 with (Z.log2_up (2 ^ 62)). apply Z.log2_up_le_mono. lia. }
  split; [|done]. unfold fd_bmtree_depth, fd_ulong_find_msb. destruct (Z.leb_spec n 1) as [|Hgt]; [assert (n = 1) as -> by lia; done|].
  rewrite Z.log2_up_eqn, <- Z.sub_1_r in * by lia. rewrite u64_small by (unfold is_u64, ULONG_MAX; lia). lia.
Qed.

(** The root and the nodes of the tree. *)
Lemma commit_fini_ok t xs : appended t xs -> Forall (fun y => length y = 32%nat) xs -> 1 <= Z.of_nat (length xs) <= 2 ^ 62 ->
  exists t' v, fd_bmtree_commit_fini sha256 t = Ok (t', bytes v) /\ merkle_root sha256 hash_sz prefix_sz xs = Some v /\
    params_ok t' /\ leaf_cnt t' = Z.of_nat (length xs) /\ all_stored t' xs.
Proof using sha256_length layers hash_range.
  intros A Hx Hn. unfold fd_bmtree_commit_fini. rewrite (ap_cnt _ _ A). destruct (depth_root _ Hn) as [-> Hd]. set (n := Z.of_nat (length xs)) in *.
  destruct (odd_part n ltac:(lia)) as (p & q & Hp & Hq & En). pose proof (pow2_pos p Hp). assert (Hpow : fd_ulong_is_pow2 n = (q =? 0)).
  { rewrite En. apply is_pow2_spec; [done|done|]. unfold ULONG_MAX. lia. }
  rewrite Hpow. destruct (Z.eqb_spec q 0) as [->|Hq0]; simpl negb; cbv iota.
  - assert (En' : n = 2 ^ p) by lia. rewrite En', Z.log2_up_pow2 by done. assert (p <= 62) by (apply (Z.pow_le_mono_r_iff 2); lia).
    destruct (ap_left _ _ A p Hp) as (v & Hv & Ev); [rewrite (ap_cnt _ _ A); fold n; lia|]. rewrite (ap_cnt _ _ A) in Hv. fold n in Hv. rewrite En', Z.div_same in Hv by lia.
    unfold aget. rewrite (proj2 (Z.ltb_ge p 0)) by lia. rewrite Ev. cbn [deref mbind res_bind]. exists t, v. split; [done|]. split_and!.
    + rewrite (merkle_root_nd sha256 hash_sz prefix_sz xs p); [done|done|]. fold n. rewrite En'. destruct (Z.eq_dec p 0) as [->|]; [left; simpl in En'; lia|right].
      split; [apply Z.pow_lt_mono_r; lia|lia].
    + apply A.
    + rewrite (ap_cnt _ _ A). fold n. lia.
    + intros l k Hl Hk Hlow Hkn. fold n in Hlow, Hkn. apply (ap_stored _ _ A); [done|done|]. rewrite (ap_cnt _ _ A). fold n.
      assert (l <= p) by (rewrite En' in Hlow; apply Z.pow_lt_mono_r_iff in Hlow; lia).
      assert (2 ^ p = 2 ^ (p - l) * 2 ^ l) as E by (rewrite <- Z.pow_add_r by lia; f_equal; lia). pose proof (pow2_pos l Hl).
      assert (k < 2 ^ (p - l)) by (apply (Z.mul_lt_mono_pos_r (2 ^ l)); [lia|]; rewrite <- E; lia). rewrite En', E. apply Z.mul_le_mono_nonneg_r; lia.
  - assert (Hsplit : 0 <= p /\ 1 <= q /\ Z.of_nat (length xs) = (2 * q + 1) * 2 ^ p) by (fold n; lia).
    assert (Elsb : fd_ulong_find_lsb n = p) by (rewrite En; by apply lsb_spec). rewrite Elsb.
    pose proof (cnt_at_p xs p q Hsplit) as Hcp. assert (Esh : Z.shiftr n p = cnt xs p) by (rewrite Z.shiftr_div_pow2, Hcp, En by done; apply Z.div_mul; lia).
    rewrite Esh. destruct (ap_left _ _ A p Hp) as (v0 & Hv0 & Ev0); [rewrite (ap_cnt _ _ A); fold n; nia|].
    rewrite (ap_cnt _ _ A) in Hv0. fold n in Hv0. assert (n / 2 ^ p = 2 * q + 1) as Ediv by (rewrite En; apply Z.div_mul; lia). rewrite Ediv in Hv0.
    replace (2 * ((2 * q + 1 - 1) / 2)) with (2 * q) in Hv0 by (Z.to_euclidean_division_equations; lia).
    unfold aget at 1. rewrite (proj2 (Z.ltb_ge p 0)) by lia. rewrite Ev0. cbn [deref mbind res_bind].
    edestruct (loop_total (fini_step sha256) (climbing xs t p) (fun s => Z.to_nat (62 - s.1.2)) _
      (climb_step xs t p q A Hx Hsplit ltac:(fold n; lia)) 64 (t, bytes v0, p, cnt xs p)) as (r & -> & l & W).
    { constructor; simpl; try done.
      - split_and!; [lia|done|]. fold n. assert (2 ^ (p - 1) <= 2 ^ p) by (apply Z.pow_le_mono_r; lia). nia.
      - apply A.
      - apply A.
      - exists v0. split; [|done]. rewrite Hcp. by replace (2 * q + 1 - 1) with (2 * q) by lia.
      - intros l k Hl Hk [Hle|[Hle ->]]; apply (ap_stored _ _ A); try done; rewrite (ap_cnt _ _ A); [done|].
        assert (2 ^ p = 2 ^ (p - l) * 2 ^ l) as E by (rewrite <- Z.pow_add_r by lia; f_equal; lia). pose proof (pow2_pos l Hl). fold n.
        unfold cnt. fold n. assert ((n - 1) / 2 ^ l = (2 * q + 1) * 2 ^ (p - l) - 1) as ->; [|nia].
        symmetry. apply (Z.div_unique_pos _ _ _ (2 ^ l - 1)); [lia|]. rewrite En, E. lia. }
    { simpl. lia. }
    destruct r as [t1 tmp]. destruct W as [(Hl & E1 & Hlow) Wp Wc Wb (v & Wv & Wt) Ws]. simpl in *. subst tmp. cbn [mbind res_bind].
    rewrite aset_ok by (rewrite (pa_buf _ Wp); lia). cbn [mbind res_bind]. eexists _, v. split; [done|]. pose proof (cnt_le xs l ltac:(lia)) as Hle. fold n in Hle, Hlow. rewrite <- E1 in Hle.
    split_and!.
    + rewrite (merkle_root_nd sha256 hash_sz prefix_sz xs l); [done|lia|]. right. fold n. lia.
    + destruct Wp. constructor; simpl; try done. by rewrite length_insert.
    + done.
    + intros l' k Hl' Hk Hlow' Hkn. fold n in Hlow', Hkn. assert (Hst : stored t1 xs l' k); [|exact Hst]. apply Ws; [done|done|].
      destruct (Z.le_gt_cases ((k + 1) * 2 ^ l') n) as [|Hgt]; [by left|right]. pose proof (pow2_pos l' Hl'). pose proof (cnt_le xs l' Hl') as Hle'. fold n in Hle'. split; [|nia].
      assert (l' - 1 < l); [|lia]. apply (Z.pow_lt_mono_r_iff 2); lia.
Qed.

End commit.
