(* ===== verification/BmtreePath.v ===== *)
(** * Merkle trees: inclusion proofs

    [fd_bmtree_get_proof] extracts from a sealed tree the siblings on the way
    from a leaf to the root, and [fd_bmtree_from_proof] leads from the leaf back
    to the root. *)

From S2P Require Import Prelude Bits Bytes Bmtree BmtreeIdx BmtreeView BmtreeRun BmtreeCommit.

#[local] Open Scope Z_scope.

Section path.
Context (sha256 : list Z -> list Z) (L hash_sz prefix_sz : Z).
Hypothesis sha256_length : forall m, length (sha256 m) = 32%nat.
Hypothesis layers : 1 <= L <= 63.
Hypothesis hash_range : 0 <= hash_sz <= 32.
Context (t : fd_bmtree_commit_t) (xs : list (list Z)) (i : Z).
Hypothesis xs_len : Forall (fun y => length y = 32%nat) xs.
Hypothesis sizes : 0 <= i < Z.of_nat (length xs) /\ Z.of_nat (length xs) <= 2 ^ (L - 1).
Hypothesis P : params_ok L hash_sz prefix_sz t.
Hypothesis sealed : leaf_cnt t = Z.of_nat (length xs) /\ all_stored sha256 L hash_sz prefix_sz t xs.

Abbreviation nd := (nd sha256 hash_sz prefix_sz).
Abbreviation join := (join sha256 hash_sz prefix_sz).
Abbreviation n := (Z.of_nat (length xs)).
Abbreviation cnt := (cnt xs).
Definition D : Z := Z.log2_up n.

Lemma n_range : 1 <= n <= 2 ^ 62 /\ 0 <= D <= L - 1.
Proof using sizes layers.
  assert (2 ^ (L - 1) <= 2 ^ 62) by (apply Z.pow_le_mono_r; lia). split; [lia|]. unfold D. split; [apply Z.log2_up_nonneg|].
  apply Z.log2_up_le_pow2; lia.
Qed.

Lemma not_root l : 0 <= l -> l < D <-> 2 ^ l < n.
Proof using sizes layers. intros Hl. unfold D. symmetry. apply Z.log2_up_lt_pow2. lia. Qed.

Lemma below_root_cnt l : 0 <= l -> 1 < cnt l <-> l < D.
Proof using sizes layers.
  intros Hl. rewrite not_root by done. pose proof (cnt_le xs l Hl). pose proof (pow2_pos l Hl). split; intros H'; nia.
Qed.

(** The node on the path and the one the proof has for it. *)
Definition on_path (l : Z) : Z := i / 2 ^ l.
Definition mate (l : Z) : Z := if sib (on_path l) <? cnt l then sib (on_path l) else on_path l.

Lemma on_path_range l : 0 <= l -> 0 <= on_path l < cnt l.
Proof using sizes layers.
  intros Hl. pose proof (pow2_pos l Hl). unfold on_path, BmtreeCommit.cnt. split; [apply Z.div_pos; lia|].
  assert (i / 2 ^ l <= (n - 1) / 2 ^ l) by (apply Z.div_le_mono; lia). lia.
Qed.

Lemma on_path_succ l : 0 <= l -> on_path (l + 1) = on_path l / 2.
Proof. intros Hl. unfold on_path. rewrite pow2_succ, (Z.mul_comm 2), Z.div_div by (pose proof (pow2_pos l Hl); lia). done. Qed.

Lemma sib_nonneg k : 0 <= k -> 0 <= sib k.
Proof. intros Hk. unfold sib. destruct (even_case k) as (q & [[-> ?]|[-> ?]]); lia. Qed.

Lemma mate_range l : 0 <= l -> 0 <= mate l < cnt l.
Proof using sizes layers.
  intros Hl. unfold mate. pose proof (on_path_range l Hl). pose proof (sib_nonneg (on_path l) ltac:(lia)). destruct (Z.ltb_spec (sib (on_path l)) (cnt l)); lia.
Qed.

Lemma exists_node l k : 0 <= l -> 0 <= k < cnt l -> k * 2 ^ l < n.
Proof. intros Hl Hk. pose proof (cnt_le xs l Hl). pose proof (pow2_pos l Hl). nia. Qed.

Lemma mate_node l : 0 <= l < D -> exists w, nd xs l (mate l) = Some w /\ length w = 32%nat /\
  aget (inclusion_proofs t) (nidx l (mate l)) = Ok (bytes w) /\ nidx l (mate l) < 2 ^ L - 1.
Proof using All.
  intros Hl. pose proof n_range as [Hn HD]. pose proof (mate_range l ltac:(lia)) as Hm. pose proof (exists_node l (mate l) ltac:(lia) Hm) as Hex.
  assert (Hlow : 2 ^ l < n) by (apply not_root; lia). assert (2 ^ (l - 1) <= 2 ^ l) by (apply Z.pow_le_mono_r; lia).
  assert (Hb : nidx l (mate l) < 2 ^ L - 1).
  { apply nidx_bound; [lia|lia|]. assert (2 ^ (L - 1) = 2 ^ (L - 1 - l) * 2 ^ l) as E by (rewrite <- Z.pow_add_r by lia; f_equal; lia).
    apply (Z.mul_lt_mono_pos_r (2 ^ l)); [apply pow2_pos; lia|]. rewrite <- E. lia. }
  destruct (proj2 sealed l (mate l) ltac:(lia) ltac:(lia) ltac:(lia) Hex Hb) as (w & Hw & Ew). exists w. split; [done|].
  split; [eapply (nd_length sha256 hash_sz prefix_sz xs sha256_length l (mate l)); lia || done|]. split; [|done].
  unfold aget. rewrite (proj2 (Z.ltb_ge _ 0)) by (apply nidx_nonneg; lia). by rewrite Ew.
Qed.

(** From a node of the path to its parent. *)
Lemma path_up l v w : 0 <= l < D -> nd xs l (on_path l) = Some v -> nd xs l (mate l) = Some w ->
  nd xs (l + 1) (on_path (l + 1)) = Some (if Z.even (on_path l) then join v w else join w v).
Proof using sizes layers.
  intros Hl Hv Hw. rewrite on_path_succ by lia. pose proof (on_path_range l ltac:(lia)) as Hk. pose proof (cnt_le xs l ltac:(lia)) as Hle.
  unfold mate in Hw. destruct (even_case (on_path l)) as (q & [[Ee Eq]|[Ee Eq]]); rewrite Ee; unfold sib in Hw; rewrite Ee, Eq in *.
  - replace (2 * q / 2) with q by (Z.to_euclidean_division_equations; lia). destruct (Z.ltb_spec (2 * q + 1) (cnt l)).
    + apply nd_two; [lia|lia|done|done].
    + rewrite Hv in Hw. injection Hw as <-. apply nd_one; [lia|lia|done|]. replace (2 * q + 1) with (cnt l) by lia. lia.
  - replace ((2 * q + 1) / 2) with q by (Z.to_euclidean_division_equations; lia). replace (2 * q + 1 - 1) with (2 * q) in Hw by lia.
    rewrite (proj2 (Z.ltb_lt (2 * q) (cnt l))) in Hw by lia. apply nd_two; [lia|lia|done|done].
Qed.

(** ** Extracting a proof *)

Lemma max_idx l : 0 <= l < D -> fd_ulong_insert_lsb (u64 (Z.shiftl (u64 (n - 1)) 1)) (1 + l) (u64 (u64 (Z.shiftl 1 l) - 1)) = nidx l (cnt l - 1).
Proof using sizes layers.
  intros Hl. pose proof n_range as [Hn HD]. pose proof (pow2_pos l ltac:(lia)). rewrite (u64_small (n - 1)) by (unfold is_u64, ULONG_MAX; lia).
  rewrite shiftl_1, (shiftl_pow2 (n - 1)) by lia. change (2 ^ 1) with 2. rewrite (u64_small ((n - 1) * 2)) by (unfold is_u64, ULONG_MAX; lia).
  assert (2 ^ l < 2 ^ 62) by (apply Z.pow_lt_mono_r; lia). rewrite u64_small by (unfold is_u64, ULONG_MAX; lia). rewrite (Z.add_comm 1 l).
  rewrite insert_lsb_arith by (rewrite ?pow2_succ; lia). unfold nidx, BmtreeCommit.cnt. rewrite !pow2_succ by lia.
  rewrite (Z.mul_comm (n - 1) 2), Z.div_mul_cancel_l by lia. lia.
Qed.

Section extract.
Context (dest : mem).
Hypothesis dest_len : hash_sz * D <= Z.of_nat (length dest).

(** The first [l] hashes have been written. *)
Definition written (m : mem) (l : Z) : Prop :=
  length m = length dest /\ forall j, 0 <= j < l -> exists w, nd xs j (mate j) = Some w /\ region m (hash_sz * j) hash_sz = bytes (take (Z.to_nat hash_sz) w).

Definition extracting (s : mem * Z * Z * Z) : Prop :=
  0 <= s.1.1.2 <= D /\ s.1.2 = cnt s.1.1.2 /\ s.2 = nidx s.1.1.2 (on_path s.1.1.2) /\ written s.1.1.1 s.1.1.2.

Lemma extract_step s : extracting s ->
  (exists s', get_proof_step t s = Ok (inl s') /\ extracting s' /\ (Z.to_nat (D - s'.1.1.2) < Z.to_nat (D - s.1.1.2))%nat) \/
  (exists r, get_proof_step t s = Ok (inr r) /\ r.1 = D /\ written r.2 D).
Proof using All.
  destruct s as [[[m l] c] idx]. intros (Hl & Ec & Ei & Hlen & Hw). simpl in *. subst c idx. unfold get_proof_step. pose proof n_range as [Hn HD].
  destruct (Z.ltb_spec 1 (cnt l)) as [Hc|Hc].
  - left. assert (Hlt : l < D) by (apply below_root_cnt; lia). pose proof (on_path_range l ltac:(lia)) as Hk. rewrite (proj1 sealed), max_idx by lia.
    rewrite shiftl_1, nidx_sib by lia. set (k := on_path l) in *.
    assert (Em : (if nidx l (cnt l - 1) <? nidx l (sib k) then nidx l k else nidx l (sib k)) = nidx l (mate l)).
    { unfold mate. fold k. assert ((nidx l (cnt l - 1) <? nidx l (sib k)) = negb (sib k <? cnt l)) as ->.
      { unfold nidx. pose proof (pow2_pos (l + 1) ltac:(lia)). destruct (Z.ltb_spec (sib k) (cnt l)); simpl; [apply Z.ltb_ge|apply Z.ltb_lt]; nia. }
      by destruct (sib k <? cnt l). }
    rewrite Em. destruct (mate_node l ltac:(lia)) as (w & Ew & Lw & Eg & Hb). rewrite (pa_sz _ _ _ _ P), (proj2 (Z.leb_gt _ _) Hb), Eg. cbn [mbind res_bind].
    rewrite (pa_hash _ _ _ _ P). rewrite (u64_small (l * hash_sz)) by (unfold is_u64, ULONG_MAX; nia). rewrite (Z.mul_comm l).
    destruct (memcpy m (hash_sz * l) (bytes w) hash_sz) as [m'| | |] eqn:Emem; try (rewrite memcpy_ok in Emem by (rewrite ?bytes_length; nia); done).
    cbn [mbind res_bind]. eexists. split; [reflexivity|]. split; [|simpl; lia]. unfold extracting, written. simpl. split; [lia|]. split_and!.
    + rewrite cnt_succ, Z.shiftr_div_pow2 by lia. change (2 ^ 1) with 2. rewrite u64_small; [done|]. pose proof (cnt_le xs l ltac:(lia)). pose proof (pow2_pos l ltac:(lia)). unfold is_u64, ULONG_MAX. nia.
    + rewrite on_path_succ by lia. fold k. rewrite <- nidx_parent by lia. unfold parent. rewrite shiftl_2 by lia. by replace (l + 1 + 1) with (l + 2) by lia.
    + by rewrite (memcpy_length _ _ _ _ _ Emem).
    + intros j Hj. destruct (Z.eq_dec j l) as [->|].
      * exists w. split; [done|]. rewrite (region_memcpy _ _ _ _ _ Emem). apply take_bytes.
      * destruct (Hw j ltac:(lia)) as (w' & Ew' & Er). exists w'. split; [done|]. rewrite <- Er. eapply region_memcpy_other; [exact Emem|nia|lia|nia].
  - right. eexists. split; [reflexivity|]. simpl. assert (l = D) as ->; [|done].
    destruct (Z.lt_ge_cases l D) as [Hlt|]; [|lia]. apply below_root_cnt in Hlt; lia.
Qed.

Lemma get_proof_ok : exists m, fd_bmtree_get_proof t dest i = Ok (D, m) /\ written m D.
Proof using All.
  pose proof n_range as [Hn HD]. unfold fd_bmtree_get_proof. rewrite (proj1 sealed), (proj2 (Z.leb_gt _ _)) by lia.
  destruct (loop_total (get_proof_step t) extracting (fun s => Z.to_nat (D - s.1.1.2)) _ extract_step 65 (dest, 0, n, u64 (i * 2))) as ([d m] & -> & Ed & Hw).
  - unfold extracting. simpl. split; [lia|]. split_and!.
    + unfold BmtreeCommit.cnt. rewrite Z.pow_0_r, Z.div_1_r. lia.
    + rewrite u64_small by (unfold is_u64, ULONG_MAX; lia). unfold nidx, on_path. rewrite Z.pow_0_r, Z.div_1_r. simpl. lia.
    + split; [done|]. intros j Hj. lia.
  - simpl. lia.
  - simpl in *. subst d. by exists m.
Qed.

(** ** Using a proof *)

Lemma from_layers_ok m : written m D -> forall d l v, 0 <= l -> Z.of_nat d = D - l -> nd xs l (on_path l) = Some v -> length v = 32%nat ->
  exists r, from_proof_layers sha256 d l (nidx l (on_path l)) (bytes v) m hash_sz prefix_sz = Ok (bytes r) /\ nd xs D (on_path D) = Some r.
Proof using All.
  intros [Hml Hw]. pose proof n_range as [Hn HD]. induction d as [|d IH]; intros l v Hl Hd Hv Lv; cbn [from_proof_layers].
  { exists v. split; [done|]. by replace D with l by lia. }
  pose proof (on_path_range l ltac:(lia)) as Hk. destruct (Hw l ltac:(lia)) as (w & Ew & Er).
  rewrite (u64_small (l * hash_sz)) by (unfold is_u64, ULONG_MAX; nia). rewrite (Z.mul_comm l), advance_ok by nia. cbn [mbind res_bind].
  assert (Lw : length w = 32%nat) by (pose proof (mate_range l Hl); eapply (nd_length sha256 hash_sz prefix_sz xs sha256_length l (mate l)); lia || done).
  destruct (memcpy_hval (uninit 32) (drop (Z.to_nat (hash_sz * l)) m) hash_sz (take (Z.to_nat hash_sz) w)) as (sn & -> & Lsn & Hsn).
  { unfold uninit. rewrite length_replicate. lia. } { rewrite length_drop. nia. } { unfold region in Er. unfold hval. rewrite Er. apply mapM_bytes. }
  cbn [mbind res_bind]. rewrite shiftl_1, nidx_side by lia.
  assert (Emerge : (if Z.even (on_path l) then fd_bmtree_private_merge sha256 (bytes v) sn hash_sz prefix_sz
      else fd_bmtree_private_merge sha256 sn (bytes v) hash_sz prefix_sz) = Ok (bytes (if Z.even (on_path l) then join v w else join w v))).
  { unfold fd_bmtree_private_merge, BmtreeCommit.join. rewrite (read_hval sn hash_sz (take (Z.to_nat hash_sz) w)), (read_hval (bytes v) hash_sz (take (Z.to_nat hash_sz) v));
      [by destruct (Z.even (on_path l))|rewrite bytes_length; lia|apply hval_bytes|rewrite Lsn; unfold uninit; rewrite length_replicate; lia|done]. }
  rewrite Emerge. cbn [mbind res_bind]. fold (parent (nidx l (on_path l)) l). rewrite nidx_parent, <- on_path_succ by lia.
  apply IH; [lia|lia|apply path_up; [lia|done|done]|]. unfold BmtreeCommit.join. destruct (Z.even (on_path l)); apply sha256_length.
Qed.

Lemma from_proof_ok m x : written m D -> xs !! Z.to_nat i = Some x ->
  exists r, fd_bmtree_from_proof sha256 (bytes x) i m D hash_sz prefix_sz = Ok (Some (bytes r)) /\ merkle_root sha256 hash_sz prefix_sz xs = Some r.
Proof using All.
  intros Hm Hx. pose proof n_range as [Hn HD]. unfold fd_bmtree_from_proof. rewrite (u64_small (i + 1)) by (unfold is_u64, ULONG_MAX; lia).
  destruct (depth_root (i + 1) ltac:(lia)) as [-> Hd]. assert (Hup : Z.log2_up (i + 1) <= D) by (unfold D; apply Z.log2_up_le_mono; lia).
  rewrite (proj2 (Z.ltb_ge D (Z.log2_up (i + 1)))) by lia. rewrite u64_small by (unfold is_u64, ULONG_MAX; lia).
  assert (E0 : on_path 0 = i) by (unfold on_path; by rewrite Z.pow_0_r, Z.div_1_r).
  destruct (from_layers_ok m Hm (Z.to_nat D) 0 x) as (r & E & Hr); [lia|lia|by rewrite E0|rewrite Forall_forall in xs_len; apply xs_len; by eapply list_elem_of_lookup_2|].
  rewrite E0 in E. replace (nidx 0 i) with (i * 2) in E by (unfold nidx; simpl; lia). rewrite E. cbn [mbind res_bind]. exists r. split; [done|].
  assert (Hroot : on_path D = 0).
  { pose proof (on_path_range D ltac:(lia)). assert (~ 1 < cnt D) by (rewrite below_root_cnt by lia; lia). lia. }
  rewrite Hroot in Hr. rewrite (merkle_root_nd sha256 hash_sz prefix_sz xs D); [done|lia|]. unfold D. destruct (Z.eq_dec n 1) as [E1|Hne].
  - left. rewrite E1. split; [done|lia].
  - right. pose proof (Z.log2_up_spec n ltac:(lia)) as Hs. rewrite <- Z.sub_1_r in Hs. lia.
Qed.

End extract.
End path.

(** ** Properties *)

(** C34. Committing to a list of leaves, in any number of calls to
    [fd_bmtree_commit_append], and sealing the tree never fails and gives the
    root of the Merkle tree over the leaves: the hash left when the leaves are
    hashed in pairs, the last one with itself if their number is odd, over and
    over again. *)
Theorem bmtree_commit_root (sha256 : list Z -> list Z) (L hash_sz prefix_sz : Z) (buf proofs : list mem) (batch1 batch2 : list (list Z)) :
  (forall m, length (sha256 m) = 32%nat) -> 0 <= L <= 63 -> 0 <= hash_sz <= 32 -> memory_ok L buf proofs ->
  Forall (fun y => length y = 32%nat) (batch1 ++ batch2) -> 1 <= Z.of_nat (length (batch1 ++ batch2)) <= 2 ^ 62 ->
  exists t1 t2 t3 root, fd_bmtree_commit_append sha256 (fd_bmtree_commit_init buf proofs hash_sz prefix_sz L) (bytes <$> batch1) = Ok t1 /\
    fd_bmtree_commit_append sha256 t1 (bytes <$> batch2) = Ok t2 /\ fd_bmtree_commit_fini sha256 t2 = Ok (t3, bytes root) /\
    merkle_root sha256 hash_sz prefix_sz (batch1 ++ batch2) = Some root.
Proof.
  intros Hs HL Hh M Hx Hn. pose proof Hx as [Hx1 Hx2]%Forall_app. rewrite length_app in Hn.
  destruct (commit_append_ok sha256 L hash_sz prefix_sz Hs HL Hh batch1 _ [] (init_appended sha256 L hash_sz prefix_sz HL buf proofs M)) as (t1 & E1 & A1); [done|done|simpl; lia|].
  destruct (commit_append_ok sha256 L hash_sz prefix_sz Hs HL Hh batch2 t1 batch1 A1) as (t2 & E2 & A2); [done|done|lia|].
  destruct (commit_fini_ok sha256 L hash_sz prefix_sz Hs HL Hh t2 _ A2 Hx) as (t3 & root & E3 & Hr & _); [rewrite length_app; lia|].
  by exists t1, t2, t3, root.
Qed.

(** C35. The inclusion proof of every leaf of a sealed tree with room for its nodes
    has one hash per layer below the root, and [fd_bmtree_from_proof] leads
    from the leaf and this proof to the root of the tree. *)
Theorem bmtree_proof_roundtrip (sha256 : list Z -> list Z) (L hash_sz prefix_sz : Z) (buf proofs : list mem) (xs : list (list Z))
    (i : Z) (x : list Z) (dest : mem) :
  (forall m, length (sha256 m) = 32%nat) -> 1 <= L <= 63 -> 0 <= hash_sz <= 32 -> memory_ok L buf proofs ->
  Forall (fun y => length y = 32%nat) xs -> Z.of_nat (length xs) <= 2 ^ (L - 1) -> 0 <= i -> xs !! Z.to_nat i = Some x ->
  hash_sz * Z.log2_up (Z.of_nat (length xs)) <= Z.of_nat (length dest) ->
  exists t1 t2 root d m, fd_bmtree_commit_append sha256 (fd_bmtree_commit_init buf proofs hash_sz prefix_sz L) (bytes <$> xs) = Ok t1 /\
    fd_bmtree_commit_fini sha256 t1 = Ok (t2, bytes root) /\ fd_bmtree_get_proof t2 dest i = Ok (d, m) /\ d = Z.log2_up (Z.of_nat (length xs)) /\
    fd_bmtree_from_proof sha256 (bytes x) i m d hash_sz prefix_sz = Ok (Some (bytes root)).
Proof.
  intros Hs HL Hh M Hx Hn Hi Hxi Hd. assert (Hlt : 0 <= i < Z.of_nat (length xs)) by (apply lookup_lt_Some in Hxi; lia).
  assert (2 ^ (L - 1) <= 2 ^ 62) by (apply Z.pow_le_mono_r; lia). assert (HL' : 0 <= L <= 63) by lia.
  destruct (commit_append_ok sha256 L hash_sz prefix_sz Hs HL' Hh xs _ [] (init_appended sha256 L hash_sz prefix_sz HL' buf proofs M)) as (t1 & E1 & A1); [done|done|simpl; lia|].
  destruct (commit_fini_ok sha256 L hash_sz prefix_sz Hs HL' Hh t1 xs A1 Hx) as (t2 & root & E2 & Hr & P & Hcnt & Hst); [lia|].
  destruct (get_proof_ok sha256 L hash_sz prefix_sz Hs HL Hh t2 xs i Hx (conj Hlt Hn) P (conj Hcnt Hst) dest Hd) as (m & E3 & W).
  destruct (from_proof_ok sha256 L hash_sz prefix_sz Hs HL Hh t2 xs i Hx (conj Hlt Hn) P (conj Hcnt Hst) dest Hd m x W Hxi) as (r & E4 & Hr').
  rewrite Hr in Hr'. injection Hr' as <-. exists t1, t2, root, (D xs), m. done.
Qed.

(** Five leaves. *)
Definition example_leaves : list (list Z) := [replicate 32 1; replicate 32 2; replicate 32 3; replicate 32 4; replicate 32 5].

Lemma example_leaves_len : Forall (fun y => length y = 32%nat) example_leaves.
Proof. repeat constructor. Qed.

Lemma example_memory : memory_ok 4 (replicate 63 (uninit 32)) (replicate 15 (uninit 32)).
Proof. split_and!; [done|done|]. repeat constructor. Qed.

Lemma bmtree_commit_root_witness :
  exists t1 t2 t3 root, fd_bmtree_commit_append toy_hash (fd_bmtree_commit_init (replicate 63 (uninit 32)) (replicate 15 (uninit 32)) 20 26 4)
      (bytes <$> take 2 example_leaves) = Ok t1 /\
    fd_bmtree_commit_append toy_hash t1 (bytes <$> drop 2 example_leaves) = Ok t2 /\ fd_bmtree_commit_fini toy_hash t2 = Ok (t3, bytes root) /\
    merkle_root toy_hash 20 26 (take 2 example_leaves ++ drop 2 example_leaves) = Some root.
Proof.
  apply (bmtree_commit_root toy_hash 4 20 26 (replicate 63 (uninit 32)) (replicate 15 (uninit 32)) (take 2 example_leaves) (drop 2 example_leaves));
    [apply toy_hash_length|lia|lia|apply example_memory|apply example_leaves_len|simpl; lia].
Defined.

Lemma bmtree_proof_roundtrip_witness :
  exists t1 t2 root d m, fd_bmtree_commit_append toy_hash (fd_bmtree_commit_init (replicate 63 (uninit 32)) (replicate 15 (uninit 32)) 20 26 4)
      (bytes <$> example_leaves) = Ok t1 /\
    fd_bmtree_commit_fini toy_hash t1 = Ok (t2, bytes root) /\ fd_bmtree_get_proof t2 (uninit 60) 4 = Ok (d, m) /\ d = 3 /\
    fd_bmtree_from_proof toy_hash (bytes (replicate 32 5)) 4 m d 20 26 = Ok (Some (bytes root)).
Proof.
  apply (bmtree_proof_roundtrip toy_hash 4 20 26 (replicate 63 (uninit 32)) (replicate 15 (uninit 32)) example_leaves 4 (replicate 32 5) (uninit 60));
    [apply toy_hash_length|lia|lia|apply example_memory|apply example_leaves_len|simpl; lia|lia|reflexivity|vm_compute; congruence].
Defined.
