(* ===== verification/ShredRoot.v ===== *)
(** * Shreds: parsing is safe, Merkle roots

    [fd_shred_parse] on arbitrary bytes, and [fd_shred_merkle_root], which
    recomputes the root of the Merkle tree of a shred's FEC set from the shred
    and the inclusion proof it carries. *)

From S2P Require Import Prelude Bits Bytes Shred Bmtree BmtreeIdx BmtreeView BmtreeProof BmtreeRun.

#[local] Open Scope Z_scope.

(** ** Fields *)

(** The [n]-byte integer at an offset of a shred. *)
Definition fld (bs : list Z) (off n : Z) : Z := le_val (take (Z.to_nat n) (drop (Z.to_nat off) bs)).

Definition f_variant (bs : list Z) : Z := fld bs 0x40 1.
Definition f_type (bs : list Z) : Z := fd_shred_type (f_variant bs).

(** The bytes a shred occupies. *)
Definition shred_size (bs : list Z) : Z :=
  if has_mask (f_type bs) FD_SHRED_TYPEMASK_CODE then FD_SHRED_MAX_SZ
  else if f_type bs =? FD_SHRED_TYPE_LEGACY_DATA then fld bs 0x56 2 else FD_SHRED_MIN_SZ.

Section fields.
Context (bs : list Z) (rest : mem).

Lemma load_fld off n : 0 <= off -> 0 <= n -> off + n <= Z.of_nat (length bs) -> load (bytes bs ++ rest) off n = Ok (fld bs off n).
Proof. intros. by rewrite load_bytes. Qed.

Lemma fld_range off n : Forall is_byte bs -> 0 <= off -> 0 <= n -> off + n <= Z.of_nat (length bs) -> 0 <= fld bs off n < 256 ^ n.
Proof.
  intros Hb Ho Hn Hl. unfold fld. set (w := take _ _).
  assert (Hw : Z.of_nat (length w) = n) by (unfold w; rewrite length_take, length_drop; lia).
  rewrite <- Hw. apply le_val_range. unfold w. by apply Forall_take, Forall_drop.
Qed.

(** Loads up to the end of the shorter header. *)
Ltac fields := unfold sh_variant, sh_slot, sh_idx, sh_version, sh_fec_set_idx, sh_data_parent_off, sh_data_flags,
  sh_data_size, sh_code_data_cnt, sh_code_code_cnt, sh_code_idx.

Lemma fd_shred_sz_ok : 0x58 <= Z.of_nat (length bs) -> fd_shred_sz (bytes bs ++ rest) = Ok (shred_size bs).
Proof. intros Hl. unfold fd_shred_sz. fields. by rewrite !load_fld by lia. Qed.

Lemma parse_data_total max : 0x58 <= Z.of_nat (length bs) -> exists b, parse_data (bytes bs ++ rest) max = Ok b.
Proof.
  intros Hl. unfold parse_data. fields. rewrite !load_fld by lia. cbn [mbind res_bind].
  repeat match goal with |- context [if ?c then _ else _] => destruct c; [by eexists|] end. by eexists.
Qed.

Lemma parse_code_total max : 0x59 <= Z.of_nat (length bs) -> exists b, parse_code (bytes bs ++ rest) max = Ok b.
Proof.
  intros Hl. unfold parse_code. fields. rewrite !load_fld by lia. cbn [mbind res_bind].
  repeat match goal with |- context [if ?c then _ else _] => destruct c; [by eexists|] end. by eexists.
Qed.

(** What a successful choice of sizes implies. *)
Lemma parse_sizes_total sz : 0x58 <= Z.of_nat (length bs) ->
  exists o, parse_sizes (bytes bs ++ rest) (f_variant bs) sz = Ok o /\
    forall payload pad, o = Some (payload, pad) ->
      (has_mask (f_type bs) FD_SHRED_TYPEMASK_DATA = false ->
         fd_shred_header_sz (f_variant bs) + payload + pad + trailer_sz (f_variant bs) = FD_SHRED_MAX_SZ) /\
      (has_mask (f_type bs) FD_SHRED_TYPEMASK_DATA = true -> f_type bs <> FD_SHRED_TYPE_LEGACY_DATA -> FD_SHRED_MIN_SZ <= sz).
Proof.
  intros Hl. unfold parse_sizes. fold (f_type bs). fields. destruct (has_mask (f_type bs) FD_SHRED_TYPEMASK_DATA) eqn:Ed.
  - rewrite load_fld by lia. cbn [mbind res_bind]. destruct (_ <? _); [by eexists|].
    destruct (Z.eqb_spec (f_type bs) FD_SHRED_TYPE_LEGACY_DATA) as [El|El]; simpl andb.
    + destruct (_ <? _); eexists; (split; [done|]); intros; simplify_eq. done.
    + destruct (Z.ltb_spec sz FD_SHRED_MIN_SZ); [by eexists|]. destruct (_ <? _); eexists; (split; [done|]); intros; simplify_eq. done.
  - destruct (has_mask (f_type bs) FD_SHRED_TYPEMASK_CODE); [|by eexists].
    destruct (_ <? _); eexists; (split; [done|]); intros payload pad E; simplify_eq. split; [intros _; lia|done].
Qed.

(** Parsing reads nothing outside of the [sz] bytes it is given, and accepts
    only shreds that have all the bytes of their type. *)
Lemma shred_parse_total max :
  exists b, fd_shred_parse (bytes bs ++ rest) (Z.of_nat (length bs)) max = Ok b /\
    (b = true -> 0x58 <= Z.of_nat (length bs) /\ known_variant (f_variant bs) = true /\
       (has_mask (f_type bs) FD_SHRED_TYPEMASK_DATA = false -> FD_SHRED_MAX_SZ <= Z.of_nat (length bs)) /\
       (f_type bs <> FD_SHRED_TYPE_LEGACY_DATA -> FD_SHRED_MIN_SZ <= Z.of_nat (length bs))).
Proof.
  unfold fd_shred_parse. change (Z.min FD_SHRED_DATA_HEADER_SZ FD_SHRED_CODE_HEADER_SZ) with 0x58.
  destruct (Z.ltb_spec (Z.of_nat (length bs)) 0x58) as [|Hl]; [by eexists|]. unfold sh_variant at 1.
  rewrite load_fld by lia. cbn [mbind res_bind]. fold (f_variant bs). fold (f_type bs).
  destruct (known_variant (f_variant bs)) eqn:Ek; simpl negb; cbv iota; [|by eexists].
  destruct (parse_sizes_total (Z.of_nat (length bs)) Hl) as (o & -> & Ho). cbn [mbind res_bind].
  destruct o as [[payload pad]|]; [|by eexists]. destruct (Ho _ _ eq_refl) as [Hc Hd].
  destruct (Z.ltb_spec (Z.of_nat (length bs)) (fd_shred_header_sz (f_variant bs) + payload + pad + trailer_sz (f_variant bs)));
    [by eexists|]. destruct (has_mask (f_type bs) FD_SHRED_TYPEMASK_DATA) eqn:Ed.
  - destruct (parse_data_total max Hl) as [b ->]. exists b. split; [done|]. intros _. split_and!; [done|done|done|auto].
  - rewrite Hc in * by done. destruct (parse_code_total max) as [b ->]; [unfold FD_SHRED_MAX_SZ in *; lia|].
    exists b. split; [done|]. intros _. unfold FD_SHRED_MAX_SZ, FD_SHRED_MIN_SZ in *. split_and!; try done; intros; lia.
Qed.

(** The verdict depends on the shred only, not on what is behind it. *)
Lemma load_ext off n : 0 <= off -> 0 <= n -> off + n <= Z.of_nat (length bs) -> load (bytes bs ++ rest) off n = load (bytes bs) off n.
Proof. intros. rewrite load_fld by done. rewrite <- (app_nil_r (bytes bs)). by rewrite load_bytes. Qed.

Lemma shred_parse_ext max :
  fd_shred_parse (bytes bs ++ rest) (Z.of_nat (length bs)) max = fd_shred_parse (bytes bs) (Z.of_nat (length bs)) max.
Proof.
  unfold fd_shred_parse. change (Z.min FD_SHRED_DATA_HEADER_SZ FD_SHRED_CODE_HEADER_SZ) with 0x58.
  destruct (Z.ltb_spec (Z.of_nat (length bs)) 0x58) as [|Hl]; [done|].
  assert (Ev : sh_variant (bytes bs ++ rest) = sh_variant (bytes bs)) by (fields; apply load_ext; lia).
  assert (Ed : sh_data_size (bytes bs ++ rest) = sh_data_size (bytes bs)) by (fields; apply load_ext; lia).
  assert (Epd : parse_data (bytes bs ++ rest) max = parse_data (bytes bs) max)
    by (unfold parse_data; fields; by rewrite !load_ext by lia).
  rewrite Ev. unfold sh_variant. rewrite <- load_ext, load_fld by lia. cbn [mbind res_bind]. fold (f_variant bs) (f_type bs).
  destruct (known_variant (f_variant bs)); [|done]. simpl negb. cbv iota.
  assert (Es : parse_sizes (bytes bs ++ rest) (f_variant bs) (Z.of_nat (length bs)) = parse_sizes (bytes bs) (f_variant bs) (Z.of_nat (length bs)))
    by (unfold parse_sizes; by rewrite Ed).
  rewrite <- Es. destruct (parse_sizes_total (Z.of_nat (length bs)) Hl) as (o & -> & Ho). cbn [mbind res_bind].
  destruct o as [[payload pad]|]; [|done]. destruct (Ho _ _ eq_refl) as [Hc _].
  destruct (Z.ltb_spec (Z.of_nat (length bs)) (fd_shred_header_sz (f_variant bs) + payload + pad + trailer_sz (f_variant bs))); [done|].
  destruct (has_mask (f_type bs) FD_SHRED_TYPEMASK_DATA); [done|]. rewrite Hc in * by done. unfold FD_SHRED_MAX_SZ in *.
  unfold parse_code. fields. by rewrite !load_ext by lia.
Qed.

End fields.

(** A shred as it is on the wire: it parses and has exactly the size of its
    type. *)
Definition parsed (bs : list Z) : Prop :=
  Forall is_byte bs /\ shred_size bs = Z.of_nat (length bs) /\
  fd_shred_parse (bytes bs) (Z.of_nat (length bs)) FD_SHRED_BLK_MAX = Ok true.

(** ** Merkle roots ([fd_shred_merkle_root]) *)

(** [bmtree_mem] is the memory of the tree: the nodes keep what it held. *)
Definition bmtree_mem := (list mem * list mem)%type.

Section root.
Context (sha256 : list Z -> list Z).

Definition fd_shred_merkle_root (bm : bmtree_mem) (s : mem) : res (bmtree_mem * option mem) :=
  let tree := fd_bmtree_commit_init bm.1 bm.2 FD_SHRED_MERKLE_NODE_SZ FD_BMTREE_LONG_PREFIX_SZ FD_SHRED_MERKLE_LAYER_CNT in
  variant ← sh_variant s;
  let type := fd_shred_type variant in
  let is_data_shred := fd_shred_is_data type in
  idx ← sh_idx s;
  fec_set_idx ← sh_fec_set_idx s;
  code_idx ← sh_code_idx s;
  data_cnt ← sh_code_data_cnt s;
  let in_type_idx := if is_data_shred then (idx - fec_set_idx) mod 2 ^ 32 else code_idx in
  let shred_idx := if is_data_shred then in_type_idx else in_type_idx + data_cnt in
  let tree_depth := fd_shred_merkle_cnt variant in
  if negb (tree_depth =? FD_SHRED_MERKLE_LAYER_CNT - 1) then Ok ((node_buf tree, inclusion_proofs tree), None) else
  let chained := Z.b2z (fd_shred_is_chained type) in
  let resigned := Z.b2z (fd_shred_is_resigned type) in
  let reedsol_protected_sz := 1115 + FD_SHRED_DATA_HEADER_SZ - FD_SHRED_SIGNATURE_SZ - FD_SHRED_MERKLE_NODE_SZ * tree_depth
    - FD_SHRED_MERKLE_ROOT_SZ * chained - FD_SHRED_SIGNATURE_SZ * resigned in
  let data_merkle_protected_sz := reedsol_protected_sz + FD_SHRED_MERKLE_ROOT_SZ * chained in
  let parity_merkle_protected_sz := reedsol_protected_sz + FD_SHRED_MERKLE_ROOT_SZ * chained
    + FD_SHRED_CODE_HEADER_SZ - FD_SHRED_SIGNATURE_SZ in
  let merkle_protected_sz := if is_data_shred then data_merkle_protected_sz else parity_merkle_protected_sz in
  body ← advance s FD_SHRED_SIGNATURE_SZ;
  leaf ← fd_bmtree_hash_leaf sha256 body merkle_protected_sz FD_BMTREE_LONG_PREFIX_SZ;
  off ← fd_shred_merkle_off s;
  nodes ← advance s off;
  '(t, root) ← fd_bmtree_commitp_insert_with_proof sha256 tree shred_idx leaf nodes tree_depth;
  Ok ((node_buf t, inclusion_proofs t), root).

Hypothesis sha256_length : forall m, length (sha256 m) = 32%nat.

(** The position of a shred among the leaves of its tree. *)
Definition leaf_idx (bs : list Z) : Z :=
  if fd_shred_is_data (f_type bs) then (fld bs 0x49 4 - fld bs 0x4f 4) mod 2 ^ 32 else fld bs 0x57 2 + fld bs 0x53 2.

(** The bytes behind the signature that the Merkle tree commits to. *)
Definition committed (bs : list Z) : list Z :=
  take (Z.to_nat ((if fd_shred_is_data (f_type bs) then 1019 else 1044)
    - (if fd_shred_is_resigned (f_type bs) then FD_SHRED_SIGNATURE_SZ else 0))) (drop 64 bs).

Definition proof_off (bs : list Z) : Z :=
  shred_size bs - 120 - (if fd_shred_is_resigned (f_type bs) then FD_SHRED_SIGNATURE_SZ else 0).

(** The root a chained Merkle shred commits to. *)
Definition merkle_root_of (bs : list Z) : option (list Z) :=
  if (fd_shred_merkle_cnt (f_variant bs) =? 6) && (leaf_idx bs <? 64) then
    Some (top_digest sha256 (leaf_idx bs) (init 7 20 26 [] [])
      (take 20 (sha256 (take 26 fd_bmtree_leaf_prefix ++ committed bs)))
      (fun j => take 20 (drop (Z.to_nat (20 * j)) (drop (Z.to_nat (proof_off bs)) bs))) 6)
  else None.

Lemma chained_cases type : fd_shred_is_chained type = true -> type = 0x90 \/ type = 0x60 \/ type = 0xB0 \/ type = 0x70.
Proof. unfold fd_shred_is_chained. rewrite !orb_true_iff, !Z.eqb_eq. cbv. tauto. Qed.

(** Sizes of chained shreds. *)
Lemma chained_sizes bs : fd_shred_is_chained (f_type bs) = true ->
  shred_size bs = (if fd_shred_is_data (f_type bs) then FD_SHRED_MIN_SZ else FD_SHRED_MAX_SZ) /\
  f_type bs <> FD_SHRED_TYPE_LEGACY_DATA /\ f_type bs <> FD_SHRED_TYPE_LEGACY_CODE /\
  has_mask (f_type bs) FD_SHRED_TYPEMASK_DATA = fd_shred_is_data (f_type bs).
Proof. intros H%chained_cases. unfold shred_size. destruct H as [->|[->|[->| ->]]]; done. Qed.

Lemma leaf_idx_range bs : Forall is_byte bs -> 0x59 <= Z.of_nat (length bs) -> 0 <= leaf_idx bs < 2 ^ 32.
Proof.
  intros Hb Hl. unfold leaf_idx. destruct (fd_shred_is_data _); [apply Z.mod_pos_bound; lia|].
  pose proof (fld_range bs 0x57 2 Hb ltac:(lia) ltac:(lia) ltac:(lia)). pose proof (fld_range bs 0x53 2 Hb ltac:(lia) ltac:(lia) ltac:(lia)).
  change (256 ^ 2) with 65536 in *. lia.
Qed.

(** One insertion into a fresh tree of 7 layers. *)
Lemma fresh_insert bm idx leaf pf rest :
  memory_ok 7 bm.1 bm.2 -> 0 <= idx < 2 ^ 32 -> length leaf = 32%nat -> 120 <= Z.of_nat (length pf) ->
  exists t, fd_bmtree_commitp_insert_with_proof sha256 (fd_bmtree_commit_init bm.1 bm.2 20 26 7) idx (bytes leaf)
      (bytes pf ++ rest) 6 =
    Ok (t, if idx <? 64 then Some (bytes (top_digest sha256 idx (init 7 20 26 [] []) (take 20 leaf)
      (fun j => take 20 (drop (Z.to_nat (20 * j)) pf)) 6)) else None) /\ memory_ok 7 (node_buf t) (inclusion_proofs t).
Proof using sha256_length.
  intros M Hi Hl Hp. destruct (init_wf 7 20 26 ltac:(lia) ltac:(lia) bm.1 bm.2 M) as [W V].
  pose proof (init_consistent sha256 7 20 26 ltac:(lia) ltac:(lia) bm.1 bm.2 M) as C. fold (init 7 20 26 bm.1 bm.2).
  set (s := fun j => take 20 (drop (Z.to_nat (20 * j)) pf)). destruct (Z.ltb_spec idx 64) as [Hlt|Hge].
  - destruct (insert_full_ok sha256 7 idx sha256_length ltac:(lia) ltac:(lia) (init 7 20 26 bm.1 bm.2) (bytes leaf)
      (take 20 leaf) (bytes pf ++ rest) s W C) as (t & o & E & W' & C' & _ & _ & Ho).
    + by rewrite bytes_length.
    + apply hval_bytes.
    + intros j Hj. change (Bmtree.hash_sz (init 7 20 26 bm.1 bm.2)) with 20. unfold proof_at. simpl Bmtree.hash_sz.
      rewrite length_app, bytes_length. split; [lia|]. unfold hval, s. rewrite drop_app_le by (rewrite bytes_length; lia).
      rewrite drop_bytes, take_app_le by (rewrite bytes_length, length_drop; lia). rewrite take_bytes. apply mapM_bytes.
    + change (7 - 1) with 6 in *. destruct o as [root|].
      * destruct Ho as (_ & _ & _ & _ & Hr). rewrite Hr in E by (lia || done). exists t. split.
        -- rewrite E. by rewrite (top_digest_params sha256 7 20 26).
        -- destruct W'. done.
      * exfalso. destruct Ho as [Hc _]. apply Hc. intros l k v _ _ _ w Hw. by rewrite V in Hw.
  - exists (init 7 20 26 bm.1 bm.2). split; [|exact M]. unfold fd_bmtree_commitp_insert_with_proof.
    rewrite (tw_sz _ _ W), u64_small by (unfold is_u64, ULONG_MAX; lia). by rewrite (proj2 (Z.leb_le _ _)) by (change (2 ^ 7) with 128; lia).
Qed.

Lemma merkle_root_ok bm bs rest :
  memory_ok 7 bm.1 bm.2 -> Forall is_byte bs -> fd_shred_is_chained (f_type bs) = true ->
  shred_size bs <= Z.of_nat (length bs) ->
  exists bm', fd_shred_merkle_root bm (bytes bs ++ rest) = Ok (bm', bytes <$> merkle_root_of bs) /\ memory_ok 7 bm'.1 bm'.2.
Proof using sha256_length.
  intros M Hb Hc Hl. destruct (chained_sizes bs Hc) as (Hsz & Hnl & Hnc & _).
  assert (Hlen : 1203 <= Z.of_nat (length bs))
    by (rewrite Hsz in Hl; unfold FD_SHRED_MIN_SZ, FD_SHRED_MAX_SZ in Hl; destruct (fd_shred_is_data _); lia).
  pose proof (leaf_idx_range bs Hb ltac:(lia)) as Hi. unfold fd_shred_merkle_root.
  unfold sh_variant, sh_idx, sh_fec_set_idx, sh_code_idx, sh_code_data_cnt at 1. rewrite !load_fld by lia. cbn [mbind res_bind].
  fold (f_variant bs). fold (f_type bs). unfold merkle_root_of. change (FD_SHRED_MERKLE_LAYER_CNT - 1) with 6.
  assert (Hcnt : fd_shred_merkle_cnt (f_variant bs) = Z.land (f_variant bs) 0xf).
  { unfold fd_shred_merkle_cnt. fold (f_type bs). rewrite (proj2 (Z.eqb_neq _ _) Hnl), (proj2 (Z.eqb_neq _ _) Hnc). done. }
  destruct (Z.eqb_spec (fd_shred_merkle_cnt (f_variant bs)) 6) as [Ecnt|]; simpl negb; simpl andb; cbv iota.
  2: { eexists. split; [done|exact M]. }
  rewrite Ecnt, Hc. rewrite advance_ok by (rewrite length_app, bytes_length; unfold FD_SHRED_SIGNATURE_SZ; lia). cbn [mbind res_bind].
  set (i := if fd_shred_is_data (f_type bs) then _ else _ + fld bs _ _).
  assert (i = leaf_idx bs) as -> by (unfold i, leaf_idx; by destruct (fd_shred_is_data _)).
  unfold fd_bmtree_hash_leaf. unfold FD_SHRED_SIGNATURE_SZ at 1.
  rewrite drop_app_le by (rewrite bytes_length; lia). rewrite drop_bytes.
  set (n := if fd_shred_is_data (f_type bs) then _ else _).
  assert (Hn : n = (if fd_shred_is_data (f_type bs) then 1019 else 1044)
    - (if fd_shred_is_resigned (f_type bs) then FD_SHRED_SIGNATURE_SZ else 0))
    by (unfold n; destruct (fd_shred_is_data _), (fd_shred_is_resigned _); done).
  assert (Hnr : 0 <= n /\ n + 64 = proof_off bs).
  { rewrite Hn. unfold proof_off. rewrite Hsz. destruct (fd_shred_is_data _), (fd_shred_is_resigned _); cbv; split; congruence. }
  assert (Hoff : proof_off bs + 120 <= shred_size bs) by (unfold proof_off; destruct (fd_shred_is_resigned _); unfold FD_SHRED_SIGNATURE_SZ; lia).
  rewrite read_bytes by (try rewrite length_drop; lia). cbn [mbind res_bind].
  assert (take (Z.to_nat n) (drop (Z.to_nat 0) (drop (Z.to_nat 64) bs)) = committed bs) as -> by (rewrite Hn; done).
  unfold fd_shred_merkle_off, sh_variant. rewrite load_fld by lia. cbn [mbind res_bind]. rewrite fd_shred_sz_ok by lia.
  cbn [mbind res_bind]. fold (f_variant bs) (f_type bs). unfold fd_shred_merkle_sz. rewrite Ecnt.
  change (6 * FD_SHRED_MERKLE_NODE_SZ) with 120. fold (proof_off bs).
  rewrite (u64_small (proof_off bs)) by (unfold is_u64, ULONG_MAX; rewrite Hsz in *; unfold FD_SHRED_MIN_SZ, FD_SHRED_MAX_SZ in *; destruct (fd_shred_is_data _); lia).
  rewrite advance_ok by (rewrite length_app, bytes_length; lia). cbn [mbind res_bind].
  rewrite drop_app_le by (rewrite bytes_length; lia). rewrite drop_bytes.
  destruct (fresh_insert bm (leaf_idx bs) (sha256 (take 26 fd_bmtree_leaf_prefix ++ committed bs))
    (drop (Z.to_nat (proof_off bs)) bs) rest M Hi) as (t & E & M'); [apply sha256_length|rewrite length_drop; lia|].
  unfold FD_SHRED_MERKLE_NODE_SZ, FD_BMTREE_LONG_PREFIX_SZ, FD_SHRED_MERKLE_LAYER_CNT in *.
  change (Z.to_nat 26) with 26%nat. rewrite E. cbn [mbind res_bind]. exists (node_buf t, inclusion_proofs t). split; [|done]. by destruct (leaf_idx bs <? 64).
Qed.

End root.
