(* ===== verification/Links.v ===== *)
(** * Pools, linked lists and voter sweeps

    What the components of choreo share of the templates [fd_pool.c] and
    [fd_dlist.c]: taking an element from a pool, removing an element from a
    list, and the marking of voters with which [fd_votes_update_voters] and
    [fd_hfork_update_voters] sweep the voters that leave. *)

From S2P Require Import Prelude.

#[local] Open Scope Z_scope.

(** [POOL_(ele_acquire)]: the number of free elements left. *)
Definition acquire (free : Z) : res Z := if free <=? 0 then Ub else Ok (free - 1).

(** [DLIST_(ele_remove)] of an element that is on the list. *)
Fixpoint dlist_remove (x : Z) (l : list Z) : res (list Z) :=
  match l with
  | [] => Ub
  | y :: l' => if x =? y then Ok l' else l'' ← dlist_remove x l'; Ok (y :: l'')
  end.

(** ** Marking voters *)

Section marking.
Context {T : Type} (next : T -> Z) (set_next : T -> Z -> T).

(** Mark every voter for removal. *)
Fixpoint mark_all (l : list fd_pubkey_t) (m : gmap fd_pubkey_t T) : res (gmap fd_pubkey_t T) :=
  match l with
  | [] => Ok m
  | a :: l' => t ← deref (m !! a); mark_all l' (<[a := set_next t 1]> m)
  end.

(** A voter that stays. *)
Definition kept (m : gmap fd_pubkey_t T) (a : fd_pubkey_t) : Prop :=
  exists t, m !! a = Some t /\ next t = 0.

(** On the list, everything behind a kept voter is kept. *)
Definition kept_last (m : gmap fd_pubkey_t T) (l : list fd_pubkey_t) : Prop :=
  StronglySorted (fun x y => kept m x -> kept m y) l.

End marking.

(** ** Finite sets of integers *)

Definition range_set (lo n : Z) : gset Z := list_to_set (seqZ lo n).

Lemma elem_of_range_set lo n i : i ∈ range_set lo n <-> lo <= i < lo + n.
Proof. unfold range_set. rewrite elem_of_list_to_set, elem_of_seqZ. done. Qed.

Lemma size_range_set lo n : 0 <= n -> Z.of_nat (size (range_set lo n)) = n.
Proof. intros Hn. unfold range_set. rewrite size_list_to_set by apply NoDup_seqZ. rewrite length_seqZ. lia. Qed.

(** A map whose keys lie in an interval, but for one point of it, leaves room. *)
Lemma size_range_lt {A} (m : gmap Z A) lo n k :
  0 <= n -> (forall i, is_Some (m !! i) -> lo <= i < lo + n) -> lo <= k < lo + n -> m !! k = None ->
  Z.of_nat (size m) < n.
Proof.
  intros Hn Hm Hk Hnone. rewrite <- (size_range_set lo n Hn), <- size_dom.
  assert (Hs : (size (dom m) < size (range_set lo n))%nat); [|lia].
  apply subset_size. split.
  - intros i Hi%elem_of_dom. apply elem_of_range_set. auto.
  - intros Hs. assert (Hi : k ∈ dom m) by (apply Hs, elem_of_range_set; lia).
    apply elem_of_dom in Hi. rewrite Hnone in Hi. by destruct Hi.
Qed.

(** ** Doubly linked lists *)

Lemma dlist_remove_spec x l :
  NoDup l -> x ∈ l -> exists l', dlist_remove x l = Ok l' /\ l ≡ₚ x :: l'.
Proof.
  intros Hn Hx. induction Hx as [x l|x y l Hx IH]; simpl.
  - rewrite Z.eqb_refl. eauto.
  - apply NoDup_cons in Hn as [Hy Hn]. destruct (Z.eqb_spec x y) as [->|]; [eauto|].
    destruct (IH Hn) as (l' & -> & Hp). simpl. eexists. split; [done|]. rewrite Hp. apply perm_swap.
Qed.

Lemma perm_cons_other x (l l' : list Z) : NoDup l -> l ≡ₚ x :: l' ->
  NoDup l' /\ forall y, y ∈ l' <-> y ∈ l /\ y <> x.
Proof.
  intros Hn Hp. pose proof Hn as Hn'. rewrite Hp in Hn'. apply NoDup_cons in Hn' as [Hx Hn']. split; [done|].
  intros y. rewrite Hp, elem_of_cons. split; [|tauto].
  intros Hy. split; [by right|]. intros ->. done.
Qed.

Lemma NoDup_snoc {A} (l : list A) x : NoDup l -> x ∉ l -> NoDup (l ++ [x]).
Proof. intros Hn Hx. apply NoDup_app. split_and!; [done| |apply NoDup_singleton]. set_solver. Qed.

Lemma dlist_remove_sorted (R : Z -> Z -> Prop) x l : forall l',
  StronglySorted R l -> dlist_remove x l = Ok l' -> StronglySorted R l' /\ l' ⊆ l.
Proof.
  induction l as [|y l IH]; intros l' Hs E; simpl in E; [done|]. apply StronglySorted_inv in Hs as [Hs Hy].
  destruct (x =? y); [injection E as <-; split; [done|set_solver]|].
  apply bind_Ok in E as (l'' & E & [= <-]). destruct (IH l'' Hs E) as [Hs' Hsub]. split; [|set_solver].
  constructor; [done|]. apply List.Forall_forall. intros z Hz. eapply List.Forall_forall; [exact Hy|].
  apply list_elem_of_In. apply Hsub. by apply list_elem_of_In.
Qed.

Lemma sorted_weaken {A} (R R' : A -> A -> Prop) l :
  (forall x y, x ∈ l -> y ∈ l -> R x y -> R' x y) -> StronglySorted R l -> StronglySorted R' l.
Proof.
  intros H. induction l as [|x l IH]; intros Hs; [constructor|]. apply StronglySorted_inv in Hs as [Hs Hx].
  constructor; [apply IH; [|done]; intros; apply H; [by right|by right|done]|].
  rewrite Forall_forall in Hx |- *. intros y Hy. apply H; [left|by right|by apply Hx].
Qed.

Lemma sorted_snoc {A} (R : A -> A -> Prop) l x : StronglySorted R l -> Forall (fun y => R y x) l -> StronglySorted R (l ++ [x]).
Proof.
  induction 1 as [|y l Hs IH Hy]; intros Hf; simpl; [repeat constructor|].
  apply Forall_cons in Hf as [Hyx Hf]. constructor; [auto|]. apply Forall_app. split; [done|]. by constructor.
Qed.

Lemma size_list_to_set_le `{Countable A} (l : list A) : (size (list_to_set l : gset A) <= length l)%nat.
Proof.
  induction l as [|x l IH]; [done|]. rewrite list_to_set_cons. simpl.
  destruct (decide (x ∈ (list_to_set l : gset A))).
  - rewrite subseteq_union_1_L by set_solver. lia.
  - rewrite size_union, size_singleton by set_solver. lia.
Qed.

(** ** Capacity

    Owners hold lists of items; when each holds at most [q], all of them
    together hold at most [q] times as many as there are owners. *)

Lemma size_pos `{Countable K} {A} (m : gmap K A) k v : m !! k = Some v -> (0 < size m)%nat.
Proof. intros Hk. destruct (size m) eqn:E; [|lia]. apply map_size_empty_inv in E. subst m. by rewrite lookup_empty in Hk. Qed.

Lemma size_delete `{Countable K} {A} (m : gmap K A) k v :
  m !! k = Some v -> Z.of_nat (size (delete k m)) = Z.of_nat (size m) - 1.
Proof. intros Hk. pose proof (size_pos m k v Hk). rewrite map_size_delete_Some by eauto. lia. Qed.

Lemma length_bind_sum {A B} (f : A -> list B) (l : list A) :
  Z.of_nat (length (l ≫= f)) = foldr (fun p acc => Z.of_nat (length (f p)) + acc) 0 l.
Proof. induction l as [|x l IH]; [done|]. rewrite bind_cons, length_app. simpl. lia. Qed.

Lemma sum_map_foldr {K V} `{Countable K} (f : K -> V -> Z) (m : gmap K V) :
  sum_map f m = foldr (fun p acc => f p.1 p.2 + acc) 0 (map_to_list m).
Proof. unfold sum_map. rewrite map_fold_foldr. induction (map_to_list m) as [|[k v] l IH]; simpl; [done|]. by rewrite IH. Qed.

Lemma sum_map_const {K V} `{Countable K} (c : Z) (m : gmap K V) : sum_map (fun _ _ => c) m = c * Z.of_nat (size m).
Proof.
  induction m as [|k v m Hk IH] using map_ind; [rewrite sum_map_empty, map_size_empty; lia|].
  rewrite sum_map_insert, IH, map_size_insert_None by done. lia.
Qed.

Section owned.
Context `{Countable A, Countable J} {V K X : Type} (kids : V -> list K) (key : A -> K -> J).

Lemma owned_le_sum (owners : gmap A V) (items : gmap J X) :
  (forall i, is_Some (items !! i) -> exists a v k, owners !! a = Some v /\ k ∈ kids v /\ i = key a k) ->
  Z.of_nat (size items) <= sum_map (fun _ v => Z.of_nat (length (kids v))) owners.
Proof.
  intros Ho. rewrite <- (size_dom (D := gset J)).
  set (L := map_to_list owners ≫= fun p => key p.1 <$> kids p.2).
  assert (Hsub : dom items ⊆ (list_to_set L : gset J)).
  { intros i Hi%elem_of_dom. destruct (Ho i Hi) as (a & v & k & Hv & Hk & ->). apply elem_of_list_to_set, list_elem_of_bind.
    exists (a, v). split; [|by apply elem_of_map_to_list]. apply list_elem_of_fmap. by exists k. }
  apply subseteq_size in Hsub. pose proof (size_list_to_set_le L).
  assert (Z.of_nat (length L) = sum_map (fun _ v => Z.of_nat (length (kids v))) owners) as <-; [|lia].
  unfold L. rewrite length_bind_sum, sum_map_foldr. clear. induction (map_to_list owners) as [|p l IH]; simpl; [done|].
  rewrite length_fmap. lia.
Qed.

(** An owner below the quota leaves room for an item. *)
Lemma owned_room (owners : gmap A V) (items : gmap J X) q n a v :
  (forall i, is_Some (items !! i) -> exists a v k, owners !! a = Some v /\ k ∈ kids v /\ i = key a k) ->
  (forall a v, owners !! a = Some v -> Z.of_nat (length (kids v)) <= q) ->
  Z.of_nat (size owners) <= n -> owners !! a = Some v -> Z.of_nat (length (kids v)) < q -> Z.of_nat (size items) < q * n.
Proof.
  intros Ho Hq Hn Hv Hlt. pose proof (owned_le_sum owners items Ho) as Hle. rewrite (sum_map_delete _ _ a v) in Hle by done.
  assert (Hd : sum_map (fun _ v => Z.of_nat (length (kids v))) (delete a owners) <= sum_map (fun _ _ => q) (delete a owners)).
  { apply sum_map_le. intros a' v' [_ Hv']%lookup_delete_Some. by eapply Hq. }
  rewrite sum_map_const, (size_delete _ _ v) in Hd by done. nia.
Qed.
End owned.

(** ** Lemmas on marking *)

Section marking_laws.
Context {T : Type} (next : T -> Z) (set_next : T -> Z -> T) 
  (next_set : forall t n, next (set_next t n) = n)
  (set_set : forall t n n', set_next (set_next t n) n' = set_next t n').

Lemma mark_all_spec l : forall m,
  (forall a, a ∈ l -> is_Some (m !! a)) ->
  exists m', mark_all set_next l m = Ok m' /\
    forall a, m' !! a = if decide (a ∈ l) then (fun t => set_next t 1) <$> m !! a else m !! a.
Proof using set_set.
  induction l as [|x l IH]; intros m Hl; cbn [mark_all].
  { exists m. split; [done|]. intros a. destruct (decide (a ∈ [])) as [H|]; [inversion H|done]. }
  destruct (Hl x ltac:(left)) as [t Ht]. rewrite Ht. cbn [deref mbind res_bind].
  destruct (IH (<[x := set_next t 1]> m)) as (m' & -> & Hm').
  { intros a Ha. apply lookup_insert_is_Some'. right. apply Hl. by right. }
  exists m'. split; [done|]. intros a. rewrite Hm'. destruct (decide (a = x)) as [->|Hne].
  - rewrite lookup_insert_eq, (decide_True (P := x ∈ x :: l)) by left. rewrite Ht.
    destruct (decide (x ∈ l)); simpl; [by rewrite set_set|done].
  - rewrite lookup_insert_ne by done. destruct (decide (a ∈ l)).
    + by rewrite decide_True by (by right).
    + rewrite decide_False; [done|]. by intros [|]%elem_of_cons.
Qed.

(** Marking the voters of a component leaves none kept. *)
Lemma mark_all_dom l m :
  (forall a, a ∈ l <-> is_Some (m !! a)) ->
  exists m', mark_all set_next l m = Ok m' /\
    (forall a, m' !! a = (fun t => set_next t 1) <$> m !! a) /\ forall a, ~ kept next m' a.
Proof using next_set set_set.
  intros Hl. destruct (mark_all_spec l m) as (m' & E & Hm'); [intros a; apply Hl|].
  assert (Hm : forall a, m' !! a = (fun t => set_next t 1) <$> m !! a).
  { intros a. rewrite Hm'. destruct (decide (a ∈ l)) as [|Ha]; [done|].
    rewrite Hl, <- eq_None_not_Some in Ha. by rewrite Ha. }
  exists m'. split_and!; [done|done|]. intros a (t & Ht & En). rewrite Hm in Ht.
  destruct (m !! a) as [u|]; simplify_eq/=. by rewrite next_set in En.
Qed.

Lemma kept_none_last m l : (forall a, ~ kept next m a) -> kept_last next m l.
Proof.
  intros H. eapply (sorted_weaken (fun _ _ => True)); [intros x y _ _ _ Hk; by apply H in Hk|].
  clear. induction l; constructor; [done|]. by apply Forall_forall.
Qed.

Lemma kept_insert m a t x : m !! a = Some t -> kept next (<[a := set_next t 0]> m) x <-> x = a \/ kept next m x.
Proof using next_set.
  intros Ht. unfold kept. destruct (decide (x = a)) as [->|Hne].
  - rewrite lookup_insert_eq. split; [by left|]. intros _. eexists. split; [done|apply next_set].
  - rewrite lookup_insert_ne by done. naive_solver.
Qed.

(** Moving a kept voter to the tail keeps the order. *)
Lemma kept_last_move m a t l l' :
  m !! a = Some t -> NoDup l -> kept_last next m l -> dlist_remove a l = Ok l' -> l ≡ₚ a :: l' ->
  kept_last next (<[a := set_next t 0]> m) (l' ++ [a]).
Proof using next_set.
  intros Ht Hn L El Hp. destruct (dlist_remove_sorted _ a _ _ L El) as [Hs _]. apply sorted_snoc.
  - eapply sorted_weaken; [|exact Hs]. simpl. intros x y Hx Hy HR. rewrite !kept_insert by done.
    intros [->|Hk]; [|by auto]. destruct (perm_cons_other a _ _ Hn Hp) as [_ Hother].
    by apply Hother in Hx as [_ ?].
  - apply Forall_forall. intros y Hy _. apply kept_insert; [done|by left].
Qed.

(** Releasing the marked head keeps the order behind it. *)
Lemma kept_last_delete m a l : a ∉ l -> kept_last next m (a :: l) -> kept_last next (delete a m) l.
Proof.
  intros Ha [Ls _]%StronglySorted_inv. eapply sorted_weaken; [|exact Ls]. simpl.
  intros x y Hx Hy HR (u & [Hnx Hu]%lookup_delete_Some & E). destruct HR as (u' & Hu' & E'); [by exists u|].
  exists u'. split; [|done]. apply lookup_delete_Some. split; [|done]. by intros ->.
Qed.

End marking_laws.
