(* ===== verification/Pool.v ===== *)
(** * Element pools ([src/util/tmpl/fd_pool.c])

    The pool template: a stack of free elements threaded through the elements,
    and, with [POOL_LAZY], a bump allocator for the elements never used.
    64-bit indices, no sentinel.  Theorem [pool_run_refines] shows that both
    variants hand out indices like a stack of free indices. *)

From S2P Require Import Prelude Links.

#[local] Open Scope Z_scope.

Definition POOL_IDX_NULL : Z := ULONG_MAX.

(** [POOL_(private_t)], and the [POOL_NEXT] fields of the elements. *)
Record pool_t := mk_pool {
  max : Z;
  free : Z;
  free_top : Z;
  free_lazy : Z;
  next : gmap Z Z
}.

Section pool.
Context (POOL_LAZY : bool).

(** [join[idx].POOL_NEXT] *)
Definition get_next (p : pool_t) (idx : Z) : res Z := deref (next p !! idx).

(** The free stack of a new or reset pool: every element points to the one
    behind it. *)
Definition fresh_next (max0 : Z) : gmap Z Z :=
  list_to_map ((fun i => (i, if i + 1 <? max0 then i + 1 else POOL_IDX_NULL)) <$> seqZ 0 max0).

(** [POOL_(new)]; [mem] are the fields as they are in the memory passed in. *)
Definition new (mem : gmap Z Z) (max0 : Z) : pool_t :=
  if POOL_LAZY then
    mk_pool max0 max0 POOL_IDX_NULL (if max0 =? 0 then POOL_IDX_NULL else 0) mem
  else if max0 =? 0 then mk_pool max0 max0 POOL_IDX_NULL 0 mem
  else mk_pool max0 max0 0 0 (fresh_next max0).

(** [POOL_(reset)] *)
Definition reset (p : pool_t) : pool_t :=
  if POOL_LAZY then
    mk_pool (max p) (max p) POOL_IDX_NULL (if max p =? 0 then POOL_IDX_NULL else 0) (next p)
  else if max p =? 0 then mk_pool (max p) (max p) POOL_IDX_NULL (free_lazy p) (next p)
  else mk_pool (max p) (max p) 0 (free_lazy p) (fresh_next (max p)).

(** [POOL_(used)] *)
Definition used (p : pool_t) : Z := u64 (max p - free p).

(** [POOL_(idx_test)] *)
Definition idx_test (p : pool_t) (idx : Z) : bool := (idx <? max p) || (idx =? POOL_IDX_NULL).

(** [POOL_(idx_acquire)] *)
Definition idx_acquire (p : pool_t) : res (pool_t * Z) :=
  let idx := free_top p in
  if POOL_LAZY && (idx =? POOL_IDX_NULL) then
    let idx := free_lazy p in
    let nxt := u64 (idx + 1) in
    Ok (mk_pool (max p) (u64 (free p - 1)) (free_top p) (if nxt <? max p then nxt else POOL_IDX_NULL) (next p), idx)
  else
    t ← get_next p idx;
    Ok (mk_pool (max p) (u64 (free p - 1)) t (free_lazy p) (next p), idx).

(** [POOL_(idx_release)] *)
Definition idx_release (p : pool_t) (idx : Z) : res pool_t :=
  _ ← get_next p idx;
  Ok (mk_pool (max p) (u64 (free p + 1)) idx (free_lazy p) (<[idx := free_top p]> (next p))).

(** ** The free stack *)

(** The elements threaded from [t]. *)
Fixpoint threaded (nx : gmap Z Z) (l : list Z) (t : Z) : Prop :=
  match l with
  | [] => t = POOL_IDX_NULL
  | x :: l' => t = x /\ exists y, nx !! x = Some y /\ threaded nx l' y
  end.

(** The elements not yet handed out by the bump allocator. *)
Definition unused (p : pool_t) : list Z :=
  if POOL_LAZY && negb (free_lazy p =? POOL_IDX_NULL) then seqZ (free_lazy p) (max p - free_lazy p) else [].

Record pool_ok (p : pool_t) (F : list Z) : Prop := {
  po_max : 0 <= max p < POOL_IDX_NULL;
  po_lazy : POOL_LAZY = true -> free_lazy p = POOL_IDX_NULL \/ 0 <= free_lazy p < max p;
  po_free : free p = Z.of_nat (length F);
  po_nodup : NoDup F;
  po_range i : i ∈ F -> 0 <= i < max p;
  po_next i : 0 <= i < max p -> is_Some (next p !! i);
  po_stack : exists l, F = l ++ unused p /\ threaded (next p) l (free_top p)
}.

Lemma threaded_frame nx nx' l t :
  (forall x, x ∈ l -> nx' !! x = nx !! x) -> threaded nx l t -> threaded nx' l t.
Proof.
  revert t. induction l as [|x l IH]; intros t Hf; simpl; [done|]. intros (-> & y & Hy & Ht). split; [done|].
  exists y. rewrite Hf by left. split; [done|]. apply IH; [|done]. intros z Hz. apply Hf. by right.
Qed.

Lemma lookup_fresh max0 i : 0 <= i < max0 -> fresh_next max0 !! i = Some (if i + 1 <? max0 then i + 1 else POOL_IDX_NULL).
Proof.
  intros Hi. unfold fresh_next. apply elem_of_list_to_map.
  - rewrite <- list_fmap_compose. unfold compose. simpl. rewrite list_fmap_id. apply NoDup_seqZ.
  - apply list_elem_of_fmap. exists i. split; [done|]. apply elem_of_seqZ. lia.
Qed.

Lemma threaded_fresh max0 n i :
  0 <= i -> i + Z.of_nat n = max0 -> threaded (fresh_next max0) (seqZ i (Z.of_nat n)) (if decide (n = 0%nat) then POOL_IDX_NULL else i).
Proof.
  revert i. induction n as [|n IH]; intros i Hi Hm; [done|].
  rewrite seqZ_cons by lia. rewrite decide_False by done. split; [done|].
  eexists. split; [apply lookup_fresh; lia|]. replace (Z.pred (Z.of_nat (S n))) with (Z.of_nat n) by lia.
  replace (Z.succ i) with (i + 1) by lia. specialize (IH (i + 1) ltac:(lia) ltac:(lia)).
  destruct (Z.ltb_spec (i + 1) max0); destruct (decide (n = 0%nat)) as [->|]; [lia|done|done|lia].
Qed.

Lemma new_ok mem max0 : 0 <= max0 < POOL_IDX_NULL -> (forall i, 0 <= i < max0 -> is_Some (mem !! i)) ->
  pool_ok (new mem max0) (seqZ 0 max0).
Proof.
  intros Hm Hmem. unfold new. destruct POOL_LAZY eqn:El.
  - constructor; simpl; try done.
    + intros _. destruct (Z.eqb_spec max0 0); [by left|right; lia].
    + rewrite length_seqZ. lia.
    + apply NoDup_seqZ.
    + intros i Hi%elem_of_seqZ. lia.
    + exists []. split; [|done]. unfold unused. rewrite El. simpl. destruct (Z.eqb_spec max0 0) as [->|E]; simpl; [done|].
      by rewrite Z.sub_0_r.
  - destruct (Z.eqb_spec max0 0) as [->|E].
    + constructor; simpl; try done; try lia; try congruence; try apply NoDup_nil_2; try (intros i Hi; by inversion Hi).
      exists []. split; [unfold unused; by rewrite El|done].
    + constructor; simpl; try done; try congruence.
      * rewrite length_seqZ. lia.
      * apply NoDup_seqZ.
      * intros i Hi%elem_of_seqZ. lia.
      * intros i Hi. rewrite lookup_fresh by done. eauto.
      * exists (seqZ 0 max0). split; [unfold unused; rewrite El; by rewrite app_nil_r|].
        pose proof (threaded_fresh max0 (Z.to_nat max0) 0 ltac:(lia) ltac:(lia)) as Ht.
        rewrite decide_False in Ht by lia. by rewrite Z2Nat.id in Ht by lia.
Qed.

(** Acquiring takes the element on top. *)
Lemma acquire_ok p i F : pool_ok p (i :: F) ->
  exists p', idx_acquire p = Ok (p', i) /\ pool_ok p' F /\ max p' = max p.
Proof.
  intros [Hm Hlz Hf Hn Hr Hx (l & El & Ht)]. simpl in Hf. apply NoDup_cons in Hn as [Hi Hn].
  assert (Hi' : 0 <= i < max p) by (apply Hr; left).
  assert (Hfr : u64 (free p - 1) = Z.of_nat (length F)).
  { rewrite Hf. assert (Hlen : Z.of_nat (S (length F)) <= max p).
    { assert (Hsub : i :: F ⊆+ seqZ 0 (max p)).
      { apply NoDup_submseteq; [by apply NoDup_cons|]. intros x Hx'%Hr. apply elem_of_seqZ. lia. }
      apply submseteq_length in Hsub. rewrite length_seqZ in Hsub. simpl in Hsub. lia. }
    rewrite u64_small; [lia|]. unfold is_u64, POOL_IDX_NULL in *. lia. }
  unfold idx_acquire. destruct l as [|x l]; simpl in *.
  - subst. rewrite Ht. unfold unused in El. destruct POOL_LAZY eqn:Elz; simpl in El; [|done].
    rewrite Z.eqb_refl. simpl. destruct (Z.eqb_spec (free_lazy p) POOL_IDX_NULL) as [|Hne]; simpl in El; [done|].
    destruct (Hlz eq_refl) as [|Hl]; [done|]. rewrite seqZ_cons in El by lia. injection El as Ei EF. subst i.
    assert (Hu : u64 (free_lazy p + 1) = free_lazy p + 1) by (apply u64_small; unfold is_u64, POOL_IDX_NULL in *; lia).
    eexists. split; [done|]. split; [|done]. rewrite Hu, Hfr. constructor; simpl; try done.
    + intros _. destruct (Z.ltb_spec (free_lazy p + 1) (max p)); [right; lia|by left].
    + intros y Hy. apply Hr. by right.
    + exists []. split; [|done]. unfold unused. rewrite Elz. simpl. rewrite EF.
      destruct (Z.ltb_spec (free_lazy p + 1) (max p)).
      * destruct (Z.eqb_spec (free_lazy p + 1) POOL_IDX_NULL); [lia|]. simpl. f_equal; lia.
      * rewrite Z.eqb_refl. simpl. assert (Z.pred (max p - free_lazy p) = 0) as -> by lia. done.
  - injection El as -> El. destruct Ht as (Et & y & Hy & Ht). rewrite Et.
    destruct (Z.eqb_spec x POOL_IDX_NULL); [lia|]. rewrite andb_false_r. unfold get_next. rewrite Hy. cbn [deref mbind res_bind].
    eexists. split; [done|]. split; [|done]. rewrite Hfr. constructor; simpl; try done.
    + intros z Hz. apply Hr. by right.
    + exists l. split; [|done]. rewrite El. unfold unused. done.
Qed.

(** Releasing puts the element on top. *)
Lemma release_ok p i F : pool_ok p F -> 0 <= i < max p -> i ∉ F ->
  exists p', idx_release p i = Ok p' /\ pool_ok p' (i :: F) /\ max p' = max p.
Proof.
  intros [Hm Hlz Hf Hn Hr Hx (l & El & Ht)] Hi Hni. unfold idx_release, get_next. destruct (Hx i Hi) as [y Hy]. rewrite Hy.
  cbn [deref mbind res_bind]. eexists. split; [done|]. split; [|done]. constructor; simpl; try done.
  - assert (Hlen : Z.of_nat (S (length F)) <= max p).
    { assert (Hsub : i :: F ⊆+ seqZ 0 (max p)).
      { apply NoDup_submseteq; [by apply NoDup_cons|]. intros x [->|Hx'%Hr]%elem_of_cons; apply elem_of_seqZ; lia. }
      apply submseteq_length in Hsub. rewrite length_seqZ in Hsub. simpl in Hsub. lia. }
    rewrite Hf, u64_small; [lia|]. unfold is_u64, POOL_IDX_NULL in *. lia.
  - by apply NoDup_cons.
  - intros x [->|Hx']%elem_of_cons; [done|by apply Hr].
  - intros x Hx'. apply lookup_insert_is_Some'. right. by apply Hx.
  - exists (i :: l). split; [by rewrite El|]. split; [done|]. exists (free_top p). rewrite lookup_insert_eq. split; [done|].
    eapply threaded_frame; [|exact Ht]. intros x Hxl. rewrite lookup_insert_ne; [done|]. intros <-. apply Hni. rewrite El.
    apply elem_of_app. by left.
Qed.

(** ** Runs *)

Inductive pool_op := PAcquire | PRelease (i : Z) | PReset.

Definition pool_step (p : pool_t) (o : pool_op) : res (pool_t * Z) :=
  match o with
  | PAcquire => idx_acquire p
  | PRelease i => p' ← idx_release p i; Ok (p', 0)
  | PReset => Ok (reset p, 0)
  end.

Fixpoint pool_run (p : pool_t) (os : list pool_op) : res (pool_t * list Z) :=
  match os with
  | [] => Ok (p, [])
  | o :: os' => '(p', r) ← pool_step p o; '(p'', rs) ← pool_run p' os'; Ok (p'', r :: rs)
  end.

(** A stack of free indices. *)
Definition stack_step (max0 : Z) (F : list Z) (o : pool_op) : list Z * Z :=
  match o with
  | PAcquire => match F with [] => ([], 0) | i :: F' => (F', i) end
  | PRelease i => (i :: F, 0)
  | PReset => (seqZ 0 max0, 0)
  end.

Fixpoint stack_run (max0 : Z) (F : list Z) (os : list pool_op) : list Z * list Z :=
  match os with
  | [] => (F, [])
  | o :: os' =>
      let '(F', r) := stack_step max0 F o in let '(F'', rs) := stack_run max0 F' os' in (F'', r :: rs)
  end.

(** Acquire when something is free, release what is acquired. *)
Definition pool_op_ok (max0 : Z) (F : list Z) (o : pool_op) : Prop :=
  match o with PAcquire => F <> [] | PRelease i => 0 <= i < max0 /\ i ∉ F | PReset => True end.

Fixpoint pool_ops_ok (max0 : Z) (F : list Z) (os : list pool_op) : Prop :=
  match os with
  | [] => True
  | o :: os' => pool_op_ok max0 F o /\ pool_ops_ok max0 (fst (stack_step max0 F o)) os'
  end.

Lemma reset_ok p F : pool_ok p F -> pool_ok (reset p) (seqZ 0 (max p)).
Proof.
  intros [Hm Hlz Hf Hn Hr Hx _]. pose proof (new_ok (next p) (max p) Hm Hx) as Hnew. unfold new in Hnew. unfold reset.
  assert (Hun : POOL_LAZY = false -> forall q, unused q = []) by (intros El q; unfold unused; by rewrite El).
  destruct POOL_LAZY eqn:El; [exact Hnew|]. specialize (Hun eq_refl).
  destruct (max p =? 0); destruct Hnew as [N1 N2 N3 N4 N5 N6 (l & E & Ht)]; rewrite Hun in E;
    (constructor; simpl; try done; try congruence); exists l; by rewrite Hun.
Qed.

Lemma pool_step_ok p F o : pool_ok p F -> pool_op_ok (max p) F o ->
  exists p', pool_step p o = Ok (p', snd (stack_step (max p) F o)) /\ pool_ok p' (fst (stack_step (max p) F o)) /\ max p' = max p.
Proof.
  intros P Ho. destruct o as [|i|]; simpl in *.
  - destruct F as [|i F]; [done|]. by apply acquire_ok.
  - destruct (release_ok p i F P) as (p' & -> & P' & Em); [tauto|tauto|]. exists p'. done.
  - exists (reset p). split; [done|]. split; [by eapply reset_ok|]. unfold reset. by destruct POOL_LAZY, (max p =? 0).
Qed.

Lemma pool_run_ok os : forall p F, pool_ok p F -> pool_ops_ok (max p) F os ->
  exists p', pool_run p os = Ok (p', snd (stack_run (max p) F os)) /\ pool_ok p' (fst (stack_run (max p) F os)) /\ max p' = max p.
Proof.
  induction os as [|o os IH]; intros p F P Hos; cbn [pool_run stack_run]; [by exists p|].
  destruct Hos as [Ho Hos]. destruct (pool_step_ok p F o P Ho) as (p1 & -> & P1 & Em). rewrite <- Em in Hos, P1 |- *.
  destruct (IH p1 _ P1 Hos) as (p2 & E & P2 & Em2). cbn [mbind res_bind].
  destruct (stack_step (max p1) F o) as [F1 r1]. simpl in *. rewrite E. cbn [mbind res_bind].
  destruct (stack_run (max p1) F1 os) as [F2 rs]. simpl in *. exists p2. split_and!; [done|done|congruence].
Qed.

(** Any run of a pool, eager or lazy, behaves like a stack of free indices
    that starts with all of them in order: an acquired index is one of the
    free ones, below the capacity and not handed out twice, and the counts of
    free and used elements are exact. *)
Theorem pool_run_refines (mem : gmap Z Z) (max0 : Z) (os : list pool_op) :
  0 <= max0 < POOL_IDX_NULL -> (forall i, 0 <= i < max0 -> is_Some (mem !! i)) -> pool_ops_ok max0 (seqZ 0 max0) os ->
  exists p, pool_run (new mem max0) os = Ok (p, snd (stack_run max0 (seqZ 0 max0) os)) /\
    let F := fst (stack_run max0 (seqZ 0 max0) os) in
    NoDup F /\ (forall i, i ∈ F -> 0 <= i < max0) /\ free p = Z.of_nat (length F) /\ used p = max0 - Z.of_nat (length F).
Proof.
  intros Hm Hmem Hos. assert (Em0 : max (new mem max0) = max0) by (unfold new; by destruct POOL_LAZY, (max0 =? 0)).
  destruct (pool_run_ok os (new mem max0) (seqZ 0 max0)) as (p & E & P & Em); [by apply new_ok|by rewrite Em0|].
  rewrite Em0 in *. exists p. split; [exact E|]. destruct P as [Pm Pl Pf Pn Pr Px Ps]. rewrite Em in Pr.
  split_and!; [done|done|done|]. unfold used. rewrite Pf, Em. apply u64_small.
  assert (Hsub : fst (stack_run max0 (seqZ 0 max0) os) ⊆+ seqZ 0 max0)
    by (apply NoDup_submseteq; [done|]; intros x Hx%Pr; apply elem_of_seqZ; lia).
  apply submseteq_length in Hsub. rewrite length_seqZ in Hsub. unfold is_u64, POOL_IDX_NULL in *. lia.
Qed.
End pool.

Lemma pool_run_refines_witness :
  exists p, pool_run true (new true (<[0 := 0]> (<[1 := 0]> (<[2 := 0]> ∅))) 3) [PAcquire; PAcquire; PRelease 0; PAcquire; PAcquire] =
    Ok (p, [0; 1; 0; 0; 2]).
Proof.
  destruct (pool_run_refines true (<[0 := 0]> (<[1 := 0]> (<[2 := 0]> ∅))) 3 [PAcquire; PAcquire; PRelease 0; PAcquire; PAcquire])
    as (p & E & _).
  - vm_compute. split; [discriminate|reflexivity].
  - intros i Hi. assert (i = 0 \/ i = 1 \/ i = 2) as [->|[->| ->]] by lia; vm_compute; eauto.
  - cbn [pool_ops_ok pool_op_ok]. repeat split; try discriminate. apply (bool_decide_unpack _). vm_compute. exact I.
  - exists p. exact E.
Defined.
