(* ===== verification/MapChain.v ===== *)
(** * Hash chains ([src/util/tmpl/fd_map_chain.c])

    The map template behind the maps of choreo: an array of chain heads, and
    chains threaded through the elements of a pool with [next] and [prev]
    indices (the variant with [MAP_OPTIMIZE_RANDOM_ACCESS_REMOVAL], one value
    per key and 64-bit indices).  [key_hash] is the hash function the user of
    the template supplies, arbitrary here.  Queries move the element found to
    the front of its chain. *)

From S2P Require Import Prelude Bits.

#[local] Open Scope Z_scope.

(** [MAP_(private_idx_null)] *)
Definition idx_null : Z := ULONG_MAX.

(** The fields of an element the map uses. *)
Record ele_t (K : Type) := mk_ele { key : K; next : Z; prev : Z }.
Arguments mk_ele {K} key next prev.
Arguments key {K} _.
Arguments next {K} _.
Arguments prev {K} _.

(** [MAP_(private_t)]: [chain] is the array of chain heads. *)
Record map_t := mk_map { seed : Z; chain_cnt : Z; chain : gmap Z Z }.

(** The locations of chain links: a head, or the [next] field of an element. *)
Inductive link := Head (c : Z) | Next (i : Z).

Section map_chain.
Context {K : Type} `{EqDecision K} (key_hash : K -> Z -> Z).

Abbreviation pool_t := (gmap Z (ele_t K)).

(** [MAP_(private_chain_idx)] *)
Definition private_chain_idx (k : K) (seed0 chain_cnt0 : Z) : Z :=
  Z.land (key_hash k seed0) (u64 (chain_cnt0 - 1)).

Definition chain_of (m : map_t) (k : K) : Z := private_chain_idx k (seed m) (chain_cnt m).

(** Memory accesses; an index outside of the arrays is undefined behaviour. *)
Definition get_ele (p : pool_t) (i : Z) : res (ele_t K) := deref (p !! i).
Definition set_next (p : pool_t) (i v : Z) : res pool_t :=
  e ← get_ele p i; Ok (<[i := mk_ele (key e) v (prev e)]> p).
Definition set_prev (p : pool_t) (i v : Z) : res pool_t :=
  e ← get_ele p i; Ok (<[i := mk_ele (key e) (next e) v]> p).
Definition get_head (m : map_t) (c : Z) : res Z := deref (chain m !! c).
Definition set_head (m : map_t) (c v : Z) : res map_t :=
  _ ← get_head m c; Ok (mk_map (seed m) (chain_cnt m) (<[c := v]> (chain m))).

(** [*cur] *)
Definition load (m : map_t) (p : pool_t) (cur : link) : res Z :=
  match cur with Head c => get_head m c | Next i => e ← get_ele p i; Ok (next e) end.
(** [*cur = v] *)
Definition store (m : map_t) (p : pool_t) (cur : link) (v : Z) : res (map_t * pool_t) :=
  match cur with
  | Head c => m' ← set_head m c v; Ok (m', p)
  | Next i => p' ← set_next p i v; Ok (m, p')
  end.

(** [MAP_(new)] and [MAP_(reset)]: all chains empty. *)
Definition empty_chains (n : Z) : gmap Z Z := list_to_map ((fun c => (c, idx_null)) <$> seqZ 0 n).

Definition new (chain_cnt0 seed0 : Z) : map_t := mk_map seed0 chain_cnt0 (empty_chains chain_cnt0).

Definition reset (m : map_t) : map_t := mk_map (seed m) (chain_cnt m) (empty_chains (chain_cnt m)).

(** The search loop of queries and removals: at the end of a chain, or at the
    link to the element with the key. *)
Definition find_step (m : map_t) (p : pool_t) (k : K) (cur : link) : res (link + option (link * Z)) :=
  ele_idx ← load m p cur;
  if ele_idx =? idx_null then Ok (inr None)
  else
    e ← get_ele p ele_idx;
    if bool_decide (k = key e) then Ok (inr (Some (cur, ele_idx)))
    else Ok (inl (Next ele_idx)).

Definition find (m : map_t) (p : pool_t) (k : K) : res (option (link * Z)) :=
  loop (find_step m p k) (S (size p)) (Head (chain_of m k)).

(** [MAP_(idx_query_const)] *)
Definition idx_query_const (m : map_t) (p : pool_t) (k : K) (sentinel : Z) : res Z :=
  o ← find m p k;
  Ok (match o with None => sentinel | Some (_, i) => i end).

(** [MAP_(idx_query)] *)
Definition idx_query (m : map_t) (p : pool_t) (k : K) (sentinel : Z) : res (map_t * pool_t * Z) :=
  o ← find m p k;
  match o with
  | None => Ok (m, p, sentinel)
  | Some (Head _, i) => Ok (m, p, i)
  | Some (cur, i) =>
      let c := chain_of m k in
      e ← get_ele p i;
      p1 ← if next e =? idx_null then Ok p else set_prev p (next e) (prev e);
      p2 ← set_prev p1 i idx_null;
      h ← get_head m c;
      p3 ← set_prev p2 h i;
      e3 ← get_ele p3 i;
      '(m4, p4) ← store m p3 cur (next e3);
      h4 ← get_head m4 c;
      p5 ← set_next p4 i h4;
      m5 ← set_head m4 c i;
      Ok (m5, p5, i)
  end.

(** [MAP_(idx_insert)] *)
Definition idx_insert (m : map_t) (p : pool_t) (i : Z) : res (map_t * pool_t) :=
  e ← get_ele p i;
  let c := chain_of m (key e) in
  h ← get_head m c;
  p1 ← if h =? idx_null then Ok p else set_prev p h i;
  p2 ← set_prev p1 i idx_null;
  p3 ← set_next p2 i h;
  m' ← set_head m c i;
  Ok (m', p3).

(** [MAP_(idx_remove)] *)
Definition idx_remove (m : map_t) (p : pool_t) (k : K) (sentinel : Z) : res (map_t * pool_t * Z) :=
  o ← find m p k;
  match o with
  | None => Ok (m, p, sentinel)
  | Some (cur, i) =>
      e ← get_ele p i;
      '(m1, p1) ← store m p cur (next e);
      e1 ← get_ele p1 i;
      p2 ← if next e1 =? idx_null then Ok p1 else set_prev p1 (next e1) (prev e1);
      Ok (m1, p2, i)
  end.

(** [MAP_(idx_remove_fast)] *)
Definition idx_remove_fast (m : map_t) (p : pool_t) (i : Z) : res (map_t * pool_t) :=
  e ← get_ele p i;
  p1 ← if next e =? idx_null then Ok p else set_prev p (next e) (prev e);
  e1 ← get_ele p1 i;
  if negb (prev e1 =? idx_null)
  then p2 ← set_next p1 (prev e1) (next e1); Ok (m, p2)
  else m' ← set_head m (chain_of m (key e1)) (next e1); Ok (m', p1).

End map_chain.
