(* ===== verification/MapChainOps.v ===== *)
(** * Hash chains implement finite maps

    The chains of a map as lists of element indices, the abstract map from
    keys to indices they represent, and the effect of every operation on it. *)

From S2P Require Import Prelude Bits MapChain.

#[local] Open Scope Z_scope.

Section chains.
Context {K : Type} `{Countable K} (key_hash : K -> Z -> Z).

Abbreviation pool_t := (gmap Z (ele_t K)).

(** ** Segments of chains

    [seg p l h b t q]: following [next] from the link value [h], with [b] the
    element before, visits the elements [l]; [t] is the link value at the end
    and [q] the element before it. *)

Fixpoint seg (p : pool_t) (l : list Z) (h b t q : Z) : Prop :=
  match l with
  | [] => h = t /\ b = q
  | x :: l' => h = x /\ exists e, p !! x = Some e /\ prev e = b /\ seg p l' (next e) x t q
  end.

Lemma seg_app p l1 l2 h b t q :
  seg p (l1 ++ l2) h b t q <-> exists h' b', seg p l1 h b h' b' /\ seg p l2 h' b' t q.
Proof.
  revert h b. induction l1 as [|x l1 IH]; intros h b; simpl.
  - split; [intros Hs; by exists h, b|]. by intros (h' & b' & [-> ->] & Hs).
  - split.
    + intros (-> & e & He & Hb & (h' & b' & H1 & H2)%IH). exists h', b'. eauto 8.
    + intros (h' & b' & (-> & e & He & Hb & H1) & H2). split; [done|]. exists e. split_and!; [done|done|].
      apply IH. eauto.
Qed.

(** The two link fields as functions of the pool. *)
Definition next_of (p : pool_t) (i : Z) : option Z := next <$> p !! i.
Definition prev_of (p : pool_t) (i : Z) : option Z := prev <$> p !! i.

Lemma seg_frame p p' l h b t q :
  (forall x, x ∈ l -> next_of p' x = next_of p x /\ prev_of p' x = prev_of p x) ->
  seg p l h b t q -> seg p' l h b t q.
Proof.
  revert h b. induction l as [|x l IH]; intros h b Hf; simpl; [done|].
  intros (-> & e & He & Hb & Hs). split; [done|]. destruct (Hf x ltac:(left)) as [Hn Hp]. unfold next_of, prev_of in *.
  rewrite He in Hn, Hp. destruct (p' !! x) as [e'|]; simplify_eq/=. exists e'. split_and!; [done|done|].
  rewrite Hn. apply IH; [|done]. intros y Hy. apply Hf. by right.
Qed.

(** Updating the last [next], and the first [prev], of a segment. *)
Lemma seg_set_end p p' l h b t t' q :
  NoDup l -> l <> [] -> seg p l h b t q ->
  (forall x, x ∈ l -> x <> q -> next_of p' x = next_of p x) -> (forall x, x ∈ l -> prev_of p' x = prev_of p x) ->
  next_of p' q = Some t' -> seg p' l h b t' q.
Proof.
  intros Hn Hl. revert h b Hn. destruct (exists_last Hl) as (l0 & z & ->). clear Hl. intros h b Hn.
  rewrite !seg_app. intros (h' & b' & H1 & H2) Hnx Hpv Hq. exists h', b'. simpl in H2.
  destruct H2 as (-> & e & He & Hb & <- & <-). split.
  - eapply seg_frame; [|exact H1]. intros x Hx. split; [|apply Hpv, elem_of_app; by left].
    apply Hnx; [apply elem_of_app; by left|]. intros ->. apply NoDup_app in Hn as (_ & Hd & _). apply (Hd z Hx). left.
  - simpl. split; [done|]. specialize (Hpv z ltac:(apply elem_of_app; right; left)). unfold next_of, prev_of in *.
    rewrite He in Hpv. destruct (p' !! z) as [e'|]; simplify_eq/=. exists e'. done.
Qed.

Lemma seg_set_start p p' l h b b' t q :
  NoDup l -> l <> [] -> seg p l h b t q ->
  (forall x, x ∈ l -> next_of p' x = next_of p x) -> (forall x, x ∈ l -> x <> h -> prev_of p' x = prev_of p x) ->
  prev_of p' h = Some b' -> seg p' l h b' t q.
Proof.
  intros Hn Hl. destruct l as [|x l]; [done|]. apply NoDup_cons in Hn as [Hx Hn]. simpl.
  intros (-> & e & He & Hb & Hs) Hnx Hpv Hh. split; [done|]. specialize (Hnx x ltac:(left)) as Hnx'.
  unfold next_of, prev_of in *. rewrite He in Hnx'. destruct (p' !! x) as [e'|]; simplify_eq/=. exists e'. split_and!; [done|done|].
  rewrite Hnx'. eapply seg_frame; [|exact Hs]. intros y Hy. unfold next_of, prev_of. split; [apply Hnx; by right|].
  apply Hpv; [by right|]. intros ->. done.
Qed.

(** ** Memory operations as functions *)

Definition put_next (i v : Z) (p : pool_t) : pool_t := alter (fun e => mk_ele (key e) v (prev e)) i p.
Definition put_prev (i v : Z) (p : pool_t) : pool_t := alter (fun e => mk_ele (key e) (next e) v) i p.

Lemma set_next_ok (p : pool_t) i v : is_Some (p !! i) -> set_next p i v = Ok (put_next i v p).
Proof.
  intros [e He]. unfold set_next, get_ele. rewrite He. simpl. f_equal. unfold put_next.
  apply map_eq. intros j. destruct (decide (i = j)) as [<-|]; [|by rewrite lookup_insert_ne, lookup_alter_ne].
  by rewrite lookup_insert_eq, lookup_alter_eq, He.
Qed.

Lemma set_prev_ok (p : pool_t) i v : is_Some (p !! i) -> set_prev p i v = Ok (put_prev i v p).
Proof.
  intros [e He]. unfold set_prev, get_ele. rewrite He. simpl. f_equal. unfold put_prev.
  apply map_eq. intros j. destruct (decide (i = j)) as [<-|]; [|by rewrite lookup_insert_ne, lookup_alter_ne].
  by rewrite lookup_insert_eq, lookup_alter_eq, He.
Qed.

Lemma lookup_put_next i v p j :
  put_next i v p !! j = (fun e => if decide (i = j) then mk_ele (key e) v (prev e) else e) <$> p !! j.
Proof.
  unfold put_next. destruct (decide (i = j)) as [<-|]; [by rewrite lookup_alter_eq|].
  rewrite lookup_alter_ne by done. by destruct (p !! j).
Qed.

Lemma lookup_put_prev i v p j :
  put_prev i v p !! j = (fun e => if decide (i = j) then mk_ele (key e) (next e) v else e) <$> p !! j.
Proof.
  unfold put_prev. destruct (decide (i = j)) as [<-|]; [by rewrite lookup_alter_eq|].
  rewrite lookup_alter_ne by done. by destruct (p !! j).
Qed.

Lemma is_Some_put_next i v p j : is_Some (put_next i v p !! j) <-> is_Some (p !! j).
Proof. rewrite lookup_put_next. apply fmap_is_Some. Qed.

Lemma is_Some_put_prev i v p j : is_Some (put_prev i v p !! j) <-> is_Some (p !! j).
Proof. rewrite lookup_put_prev. apply fmap_is_Some. Qed.

(** Keys never change. *)
Definition key_of (p : pool_t) (i : Z) : option K := key <$> p !! i.

Lemma key_put_next i v p j : key_of (put_next i v p) j = key_of p j.
Proof. unfold key_of. rewrite lookup_put_next. destruct (p !! j); simpl; [|done]. by case_decide. Qed.
Lemma key_put_prev i v p j : key_of (put_prev i v p) j = key_of p j.
Proof. unfold key_of. rewrite lookup_put_prev. destruct (p !! j); simpl; [|done]. by case_decide. Qed.
Lemma next_put_prev i v p j : next_of (put_prev i v p) j = next_of p j.
Proof. unfold next_of. rewrite lookup_put_prev. destruct (p !! j); simpl; [|done]. by case_decide. Qed.
Lemma prev_put_next i v p j : prev_of (put_next i v p) j = prev_of p j.
Proof. unfold prev_of. rewrite lookup_put_next. destruct (p !! j); simpl; [|done]. by case_decide. Qed.
Lemma next_put_next i v p j :
  next_of (put_next i v p) j = if decide (i = j) then (fun _ => v) <$> p !! j else next_of p j.
Proof. unfold next_of. rewrite lookup_put_next. case_decide; by destruct (p !! j). Qed.
Lemma prev_put_prev i v p j :
  prev_of (put_prev i v p) j = if decide (i = j) then (fun _ => v) <$> p !! j else prev_of p j.
Proof. unfold prev_of. rewrite lookup_put_prev. case_decide; by destruct (p !! j). Qed.

(** Writes to different fields, or different elements, commute. *)
Lemma put_prev_next i v j w p : put_prev i v (put_next j w p) = put_next j w (put_prev i v p).
Proof.
  apply map_eq. intros x. rewrite lookup_put_prev, !lookup_put_next, lookup_put_prev, <- !option_fmap_compose.
  destruct (p !! x); simpl; [|done]. by repeat case_decide.
Qed.

Lemma put_prev_prev i v j w p : i <> j -> put_prev i v (put_prev j w p) = put_prev j w (put_prev i v p).
Proof.
  intros Hne. apply map_eq. intros x. rewrite !lookup_put_prev, <- !option_fmap_compose.
  destruct (p !! x); simpl; [|done]. repeat case_decide; congruence.
Qed.

(** ** The invariant *)

Definition put_head (c v : Z) (m : map_t) : map_t := mk_map (seed m) (chain_cnt m) (<[c := v]> (chain m)).

Abbreviation chain_of := (MapChain.chain_of key_hash).

(** [L] gives the elements of every chain, [M] the index of every key. *)
Record chains_ok (m : map_t) (p : pool_t) (L : Z -> list Z) (M : gmap K Z) : Prop := {
  co_cnt : 0 < chain_cnt m <= ULONG_MAX;
  co_chain c : 0 <= c < chain_cnt m -> exists h q, chain m !! c = Some h /\ seg p (L c) h idx_null idx_null q;
  co_nodup c : NoDup (L c);
  co_ele c i : i ∈ L c -> i <> idx_null /\ exists k, key_of p i = Some k /\ chain_of m k = c /\ M !! k = Some i;
  co_map k i : M !! k = Some i -> i ∈ L (chain_of m k) /\ key_of p i = Some k
}.

(** The represented map. *)
Definition represents (m : map_t) (p : pool_t) (M : gmap K Z) : Prop := exists L, chains_ok m p L M.

Lemma chain_of_range m k : 0 < chain_cnt m <= ULONG_MAX -> 0 <= chain_of m k < chain_cnt m.
Proof.
  intros Hc. unfold MapChain.chain_of, private_chain_idx. rewrite u64_small by (unfold is_u64; lia).
  set (x := key_hash k (seed m)).
  assert (0 <= Z.land x (chain_cnt m - 1)) by (apply Z.land_nonneg; lia).
  assert (Z.land x (chain_cnt m - 1) <= chain_cnt m - 1); [|lia].
  rewrite Z.land_comm. apply Z.ldiff_le; [lia|]. apply Z.bits_inj'. intros n Hn.
  rewrite Z.ldiff_spec, Z.land_spec, Z.bits_0. by destruct (Z.testbit (chain_cnt m - 1) n), (Z.testbit x n).
Qed.

(** The link to what follows [l1] on chain [c]. *)
Definition link_after (c : Z) (l1 : list Z) : link := match last l1 with None => Head c | Some z => Next z end.

Lemma seg_last p l h b t q : seg p l h b t q -> q = default b (last l).
Proof.
  revert h b. induction l as [|x l IH]; intros h b; cbn [seg]; [by intros [_ ->]|].
  intros (-> & e & _ & _ & Hs). apply IH in Hs as ->. rewrite last_cons. by destruct (last l).
Qed.

Lemma load_after m p c h l1 b t q :
  chain m !! c = Some h -> seg p l1 h b t q -> load m p (link_after c l1) = Ok t.
Proof.
  intros Hc. destruct l1 as [|x l0] using rev_ind; simpl.
  - intros [-> _]. unfold link_after. simpl. unfold get_head. by rewrite Hc.
  - rewrite seg_app. intros (h' & b' & _ & (-> & e & He & _ & <- & _)). unfold link_after. rewrite last_snoc. simpl.
    unfold get_ele. by rewrite He.
Qed.

Lemma chain_length m p L M c : chains_ok m p L M -> (length (L c) <= size p)%nat.
Proof.
  intros C. rewrite <- (size_dom (D := gset Z)), <- (size_list_to_set (C := gset Z)) by apply C.
  apply subseteq_size. intros i Hi%elem_of_list_to_set. destruct (co_ele _ _ _ _ C c i Hi) as (_ & k & Hk & _).
  apply elem_of_dom. unfold key_of in Hk. destruct (p !! i); [eauto|done].
Qed.

(** The two ends of an element on its chain. *)
Lemma chain_split m p L M c l1 i l2 : chains_ok m p L M -> 0 <= c < chain_cnt m -> L c = l1 ++ i :: l2 ->
  exists h q e, chain m !! c = Some h /\ p !! i = Some e /\ prev e = default idx_null (last l1) /\
    seg p l1 h idx_null i (prev e) /\ seg p l2 (next e) i idx_null q.
Proof.
  intros C Hc E. destruct (co_chain _ _ _ _ C c Hc) as (h & q & Hh & Hs). rewrite E in Hs.
  apply seg_app in Hs as (h' & b' & H1 & H2). simpl in H2. destruct H2 as (-> & e & He & <- & H2).
  exists h, q, e. split_and!; try done. by apply seg_last in H1.
Qed.

Lemma seg_head p l h b q : seg p l h b idx_null q -> (l = [] /\ h = idx_null) \/ exists l', l = h :: l'.
Proof. destruct l as [|x l]; simpl; [intros [-> _]; by left|]. intros (-> & _). right. eauto. Qed.

(** ** Searching *)

Lemma find_loop m p L M k l2 : forall l1 fuel,
  chains_ok m p L M -> L (chain_of m k) = l1 ++ l2 -> (forall x, x ∈ l1 -> key_of p x <> Some k) -> (length l2 < fuel)%nat ->
  exists o, loop (find_step m p k) fuel (link_after (chain_of m k) l1) = Ok o /\
    match o with
    | None => M !! k = None
    | Some (cur, i) => M !! k = Some i /\ exists l1 l2, L (chain_of m k) = l1 ++ i :: l2 /\ cur = link_after (chain_of m k) l1
    end.
Proof.
  set (c := chain_of m k). induction l2 as [|i l2 IH]; intros l1 [|fuel] C E Hno Hf; simpl in Hf; [lia| |lia|].
  - rewrite loop_S. unfold find_step at 1. destruct (co_chain _ _ _ _ C c) as (h & q & Hh & Hs); [apply chain_of_range, C|].
    rewrite E, app_nil_r in Hs. rewrite (load_after m p c h l1 _ _ _ Hh Hs). cbn [mbind res_bind].
    rewrite Z.eqb_refl. exists None. split; [done|]. apply eq_None_not_Some. intros [j Hj].
    apply (co_map _ _ _ _ C) in Hj as [Hj Hk]. fold c in Hj. rewrite E, app_nil_r in Hj. by apply Hno in Hj.
  - destruct (chain_split _ _ _ _ c l1 i l2 C) as (h & q & e & Hh & He & _ & Hs & _); [apply chain_of_range, C|done|].
    rewrite loop_S. unfold find_step at 1. rewrite (load_after m p c h l1 _ _ _ Hh Hs). cbn [mbind res_bind].
    destruct (co_ele _ _ _ _ C c i) as (Hi & k' & Hk' & _ & HM); [rewrite E; apply elem_of_app; right; left|].
    destruct (Z.eqb_spec i idx_null); [done|]. unfold get_ele. rewrite He. cbn [deref mbind res_bind].
    assert (k' = key e) as -> by (unfold key_of in Hk'; rewrite He in Hk'; by injection Hk').
    destruct (decide (k = key e)) as [->|Hne].
    + rewrite bool_decide_eq_true_2 by done. eexists. split; [done|]. simpl. split; [done|]. by exists l1, l2.
    + rewrite bool_decide_eq_false_2 by done.
      assert (Hl : link_after c (l1 ++ [i]) = Next i) by (unfold link_after; by rewrite last_snoc).
      rewrite <- Hl. apply IH; [done|by rewrite <- app_assoc| |lia].
      intros x [Hx|Hx]%elem_of_app; [by apply Hno|]. apply list_elem_of_singleton in Hx as ->. rewrite Hk'. congruence.
Qed.

Lemma find_ok m p L M k : chains_ok m p L M ->
  exists o, find key_hash m p k = Ok o /\
    match o with
    | None => M !! k = None
    | Some (cur, i) => M !! k = Some i /\ exists l1 l2, L (chain_of m k) = l1 ++ i :: l2 /\ cur = link_after (chain_of m k) l1
    end.
Proof.
  intros C. apply (find_loop m p L M k (L (chain_of m k)) []); [done|done| |].
  - intros x Hx. inversion Hx.
  - pose proof (chain_length m p L M (chain_of m k) C). lia.
Qed.

(** ** Unlinking and linking an element *)

Definition upd (L : Z -> list Z) (c : Z) (l : list Z) : Z -> list Z := fun x => if decide (x = c) then l else L x.

(** The neighbours of [i], which has the fields of [e], joined. *)
Definition unlink (c : Z) (e : ele_t K) (m : map_t) (p : pool_t) : map_t * pool_t :=
  let p1 := if next e =? idx_null then p else put_prev (next e) (prev e) p in
  if prev e =? idx_null then (put_head c (next e) m, p1) else (m, put_next (prev e) (next e) p1).

(** [i] in front of the chain. *)
Definition link_front (c i h : Z) (m : map_t) (p : pool_t) : map_t * pool_t :=
  let p1 := if h =? idx_null then p else put_prev h i p in
  (put_head c i m, put_next i h (put_prev i idx_null p1)).

(** Elements of different chains are different. *)
Lemma chain_disjoint m p L M c c' i : chains_ok m p L M -> i ∈ L c -> i ∈ L c' -> c = c'.
Proof.
  intros C H1 H2. destruct (co_ele _ _ _ _ C _ _ H1) as (_ & k & Hk & <- & _).
  destruct (co_ele _ _ _ _ C _ _ H2) as (_ & k' & Hk' & <- & _). congruence.
Qed.

(** A changed chain [c]: what has to be shown of it. *)
Lemma chains_ok_upd m p L M m' p' M' c l :
  chains_ok m p L M -> seed m' = seed m -> chain_cnt m' = chain_cnt m -> 0 <= c < chain_cnt m ->
  (forall x, x <> c -> chain m' !! x = chain m !! x) ->
  (exists h q, chain m' !! c = Some h /\ seg p' l h idx_null idx_null q) -> NoDup l ->
  (forall x, key_of p' x = key_of p x) ->
  (forall x, x ∉ L c -> x ∉ l -> next_of p' x = next_of p x /\ prev_of p' x = prev_of p x) ->
  (forall x, x ∈ l -> x ∈ L c \/ (forall d, x ∉ L d)) ->
  (forall x, x ∈ l -> x <> idx_null /\ exists k, key_of p x = Some k /\ chain_of m k = c /\ M' !! k = Some x) ->
  (forall k, chain_of m k <> c -> M' !! k = M !! k) ->
  (forall k i, chain_of m k = c -> M' !! k = Some i -> i ∈ l /\ key_of p i = Some k) ->
  chains_ok m' p' (upd L c l) M'.
Proof.
  intros C Es Ec Hc Hch Hseg Hn Hkey Hfr Hnew Hl HM HMc.
  assert (Eo : forall k, chain_of m' k = chain_of m k) by (intros k; unfold MapChain.chain_of; by rewrite Es, Ec).
  constructor.
  - rewrite Ec. apply C.
  - intros x Hx. rewrite Ec in Hx. unfold upd. case_decide as E; [by subst|]. rewrite Hch by done.
    destruct (co_chain _ _ _ _ C x Hx) as (h & q & Hh & Hs). exists h, q. split; [done|]. eapply seg_frame; [|exact Hs].
    intros y Hy. assert (y ∉ L c) by (intros Hy'; apply E; by eapply chain_disjoint). apply Hfr; [done|].
    intros Hyl. destruct (Hnew y Hyl) as [|Hno]; [done|]. by apply (Hno x).
  - intros x. unfold upd. case_decide; [done|apply C].
  - intros x i. unfold upd. case_decide as E.
    + intros Hi. destruct (Hl i Hi) as (Hi0 & k & Hk & Hkc & HMk). split; [done|]. exists k. rewrite Hkey, Eo, E. done.
    + intros Hi. destruct (co_ele _ _ _ _ C _ _ Hi) as (Hi0 & k & Hk & Hkc & HMk). split; [done|]. exists k.
      rewrite Hkey, Eo. split_and!; [done|done|]. rewrite HM; [done|]. congruence.
  - intros k i Hk. rewrite Hkey, Eo. unfold upd. case_decide as E; [by apply HMc|].
    apply (co_map _ _ _ _ C). by rewrite <- HM.
Qed.
End chains.

(** * Hash chains: the operations, and runs of them

    Unlinking and linking elements, the correctness of insertion, queries and
    removals, and the refinement theorem for arbitrary runs. *)

Section ops.
Context {K : Type} `{Countable K} (key_hash : K -> Z -> Z).

Abbreviation pool_t := (gmap Z (ele_t K)).
Abbreviation chains_ok := (chains_ok key_hash).
Abbreviation chain_of := (MapChain.chain_of key_hash).
Abbreviation represents := (represents key_hash).

(** ** Unlinking *)

Lemma unlink_seg m (p : pool_t) c l1 l2 h q i (e : ele_t K) :
  chain m !! c = Some h -> NoDup (l1 ++ i :: l2) -> (forall x, x ∈ l1 ++ i :: l2 -> x <> idx_null /\ is_Some (p !! x)) ->
  seg p l1 h idx_null i (prev e) -> seg p l2 (next e) i idx_null q ->
  let '(m', p') := unlink c e m p in exists h' q', chain m' !! c = Some h' /\ seg p' (l1 ++ l2) h' idx_null idx_null q'.
Proof.
  intros Hh Hn Hin H1 H2. apply NoDup_app in Hn as (Hn1 & Hd & Hn2). apply NoDup_cons in Hn2 as [Hi Hn2].
  unfold unlink. set (p1 := if next e =? idx_null then p else put_prev (next e) (prev e) p).
  assert (Hnx1 : forall x, next_of p1 x = next_of p x) by (intros x; unfold p1; destruct (_ =? _); [done|apply next_put_prev]).
  assert (Hpv1 : forall x, x ∉ l2 -> prev_of p1 x = prev_of p x).
  { intros x Hx. unfold p1. destruct (Z.eqb_spec (next e) idx_null) as [|E]; [done|]. rewrite prev_put_prev, decide_False; [done|].
    intros <-. destruct (seg_head _ _ _ _ _ H2) as [[_ ?]|[l' ->]]; [done|]. apply Hx. left. }
  assert (HA : exists q', seg p1 l2 (next e) (prev e) idx_null q').
  { unfold p1. destruct (seg_head _ _ _ _ _ H2) as [[-> E]|[l' E]].
    - rewrite E, Z.eqb_refl. exists (prev e). done.
    - destruct (Hin (next e)) as [Hne Hs]; [rewrite E; set_solver|]. destruct (Z.eqb_spec (next e) idx_null); [done|].
      exists q. eapply seg_set_start; [exact Hn2|by rewrite E|exact H2|intros; apply next_put_prev| |].
      + intros x _ Hx. rewrite prev_put_prev, decide_False; [done|congruence].
      + rewrite prev_put_prev, decide_True by done. destruct Hs as [? ->]. done. }
  destruct HA as [q' HA]. destruct (Z.eqb_spec (prev e) idx_null) as [E|E].
  - assert (l1 = []) as ->.
    { destruct l1 as [|z l0] using rev_ind; [done|]. apply seg_last in H1. rewrite last_snoc in H1. simpl in H1.
      destruct (Hin z) as [Hz _]; [set_solver|]. congruence. }
    exists (next e), q'. simpl. rewrite lookup_insert_eq. split; [done|]. rewrite E in HA. exact HA.
  - exists h, q'. split; [done|]. apply seg_app. exists (next e), (prev e).
    assert (Hl1 : l1 <> []) by (intros ->; destruct H1 as [_ ?]; congruence).
    assert (Hpe : prev e ∈ l1).
    { apply seg_last in H1. destruct (last l1) as [z|] eqn:El; [|by apply last_None in El].
      simpl in H1. rewrite H1. by apply last_Some_elem_of in El. }
    split.
    + eapply seg_set_end; [exact Hn1|exact Hl1|exact H1| | |].
      * intros x _ Hx. rewrite next_put_next, decide_False by congruence. apply Hnx1.
      * intros x Hx. rewrite prev_put_next. apply Hpv1. intros Hx2. apply (Hd x Hx). by right.
      * rewrite next_put_next, decide_True by done.
        destruct (Hin (prev e)) as [_ [y Hy]]; [set_solver|]. unfold p1. destruct (_ =? _); [by rewrite Hy|].
        rewrite lookup_put_prev, Hy. done.
    + eapply seg_frame; [|exact HA]. intros x Hx. rewrite next_put_next, prev_put_next. split; [|done].
      rewrite decide_False; [done|]. intros <-. apply (Hd _ Hpe). by right.
Qed.

Lemma unlink_frame c (e : ele_t K) m p (Q : Z -> Prop) :
  (next e <> idx_null -> Q (next e)) -> (prev e <> idx_null -> Q (prev e)) ->
  let '(m', p') := unlink c e m p in
  seed m' = seed m /\ chain_cnt m' = chain_cnt m /\ (forall x, x <> c -> chain m' !! x = chain m !! x) /\
  (forall x, key_of p' x = key_of p x) /\
  forall x, ~ Q x -> next_of p' x = next_of p x /\ prev_of p' x = prev_of p x.
Proof.
  intros Hn Hp. unfold unlink.
  set (p1 := if next e =? idx_null then p else put_prev (next e) (prev e) p).
  assert (Hk1 : forall x, key_of p1 x = key_of p x) by (intros x; unfold p1; destruct (_ =? _); [done|apply key_put_prev]).
  assert (Hf1 : forall x, ~ Q x -> next_of p1 x = next_of p x /\ prev_of p1 x = prev_of p x).
  { intros x Hx. unfold p1. destruct (Z.eqb_spec (next e) idx_null); [done|]. rewrite next_put_prev, prev_put_prev.
    split; [done|]. rewrite decide_False; [done|]. intros <-. auto. }
  destruct (Z.eqb_spec (prev e) idx_null); simpl; split_and!; try done.
  - intros x Hx. by rewrite lookup_insert_ne.
  - intros x. by rewrite key_put_next.
  - intros x Hx. rewrite next_put_next, prev_put_next. destruct (Hf1 x Hx). split; [|done].
    rewrite decide_False; [done|]. intros <-. auto.
Qed.

(** The neighbours of an element are on its chain. *)
Lemma neighbours (p : pool_t) l1 l2 h i (e : ele_t K) q :
  seg p l1 h idx_null i (prev e) -> seg p l2 (next e) i idx_null q ->
  (next e <> idx_null -> next e ∈ l1 ++ i :: l2) /\ (prev e <> idx_null -> prev e ∈ l1 ++ i :: l2).
Proof.
  intros H1 H2. split; intros Hne.
  - destruct (seg_head _ _ _ _ _ H2) as [[_ ?]|[l' ->]]; [done|]. set_solver.
  - apply seg_last in H1. destruct (last l1) as [z|] eqn:El; [|done]. simpl in H1. rewrite H1.
    apply last_Some_elem_of in El. set_solver.
Qed.

Lemma unlink_ok m p L M c l1 i l2 e :
  chains_ok m p L M -> c = chain_of m (key e) -> L c = l1 ++ i :: l2 -> p !! i = Some e ->
  let '(m', p') := unlink c e m p in
  chains_ok m' p' (upd L c (l1 ++ l2)) (delete (key e) M) /\ seed m' = seed m /\ chain_cnt m' = chain_cnt m /\
  (forall x, key_of p' x = key_of p x).
Proof.
  intros C Ec E He. assert (Hc : 0 <= c < chain_cnt m) by (rewrite Ec; apply chain_of_range, C).
  destruct (chain_split _ m p L M c l1 i l2 C Hc E) as (h & q & e0 & Hh & He0 & _ & H1 & H2).
  assert (e0 = e) as -> by congruence. pose proof (co_nodup _ _ _ _ _ C c) as Hn. rewrite E in Hn.
  assert (Hin : forall x, x ∈ l1 ++ i :: l2 -> x <> idx_null /\ is_Some (p !! x)).
  { intros x Hx. rewrite <- E in Hx. destruct (co_ele _ _ _ _ _ C c x Hx) as (Hx0 & k & Hk & _). split; [done|].
    unfold key_of in Hk. by destruct (p !! x); [eauto|]. }
  pose proof (unlink_seg m p c l1 l2 h q i e Hh Hn Hin H1 H2) as Hseg.
  destruct (neighbours p l1 l2 h i e q H1 H2) as [Hnb1 Hnb2].
  pose proof (unlink_frame c e m p (fun x => x ∈ l1 ++ i :: l2) Hnb1 Hnb2) as Hfr.
  destruct (unlink c e m p) as [m' p']. destruct Hfr as (F1 & F2 & F3 & F4 & F5). split; [|done].
  assert (HMi : M !! key e = Some i).
  { destruct (co_ele _ _ _ _ _ C c i) as (_ & k & Hk & _ & HM); [rewrite E; set_solver|].
    unfold key_of in Hk. rewrite He in Hk. by injection Hk as <-. }
  assert (Hother : forall x, x ∈ l1 ++ l2 -> x ∈ L c /\ x <> i).
  { intros x Hx. rewrite E. split; [set_solver|]. intros ->. apply NoDup_app in Hn as (_ & Hd & Hn2).
    apply NoDup_cons in Hn2 as [Hi _]. apply elem_of_app in Hx as [Hx|Hx]; [|done]. apply (Hd i Hx). left. }
  eapply chains_ok_upd; [exact C|done|done|done|done|exact Hseg| |done| | | | |].
  - apply NoDup_app in Hn as (Hn1 & Hd & Hn2). apply NoDup_cons in Hn2 as [Hi Hn2]. apply NoDup_app. split_and!; [done| |done].
    intros x Hx Hx'. apply (Hd x Hx). by right.
  - intros x Hx _. rewrite E in Hx. by apply F5.
  - intros x Hx. left. by apply Hother.
  - intros x Hx. destruct (Hother x Hx) as [HxL Hxi]. destruct (co_ele _ _ _ _ _ C c x HxL) as (Hx0 & k & Hk & Hkc & HM).
    split; [done|]. exists k. split_and!; [done|done|]. rewrite lookup_delete_ne; [done|]. intros <-. congruence.
  - intros k Hk. rewrite lookup_delete_ne; [done|]. congruence.
  - intros k x Hk [Hne HM]%lookup_delete_Some. apply (co_map _ _ _ _ _ C) in HM as [HxL Hxk]. split; [|done].
    rewrite Hk, E in HxL. assert (x <> i); [|set_solver]. intros ->. unfold key_of in Hxk. rewrite He in Hxk. by injection Hxk.
Qed.

(** ** Linking *)

Lemma link_ok m p L M i k :
  chains_ok m p L M -> key_of p i = Some k -> i <> idx_null -> M !! k = None -> (forall d, i ∉ L d) ->
  exists h, chain m !! chain_of m k = Some h /\ (h <> idx_null -> is_Some (p !! h)) /\
    let '(m', p') := link_front (chain_of m k) i h m p in
    chains_ok m' p' (upd L (chain_of m k) (i :: L (chain_of m k))) (<[k := i]> M) /\ (forall x, key_of p' x = key_of p x).
Proof.
  intros C Hk Hi HM Hno. set (c := chain_of m k). assert (Hc : 0 <= c < chain_cnt m) by apply chain_of_range, C.
  destruct (co_chain _ _ _ _ _ C c Hc) as (h & q & Hh & Hs). exists h. split; [done|].
  assert (HhL : h <> idx_null -> h ∈ L c).
  { intros Hne. destruct (seg_head _ _ _ _ _ Hs) as [[_ ?]|[l' ->]]; [done|left]. }
  assert (Hsome : forall x, x ∈ L c -> is_Some (p !! x)).
  { intros x Hx. destruct (co_ele _ _ _ _ _ C c x Hx) as (_ & k' & Hk' & _). unfold key_of in Hk'. by destruct (p !! x); [eauto|]. }
  split; [auto|]. unfold link_front. set (p1 := if h =? idx_null then p else put_prev h i p).
  assert (Hk1 : forall x, key_of (put_next i h (put_prev i idx_null p1)) x = key_of p x).
  { intros x. rewrite key_put_next, key_put_prev. unfold p1. destruct (_ =? _); [done|apply key_put_prev]. }
  split; [|exact Hk1]. pose proof (Hno c) as Hic.
  assert (Hnx : forall x, x <> i -> next_of (put_next i h (put_prev i idx_null p1)) x = next_of p x).
  { intros x Hx. rewrite next_put_next, decide_False, next_put_prev by done. unfold p1. destruct (_ =? _); [done|apply next_put_prev]. }
  assert (Hpv : forall x, x <> i -> prev_of (put_next i h (put_prev i idx_null p1)) x = prev_of p1 x).
  { intros x Hx. by rewrite prev_put_next, prev_put_prev, decide_False. }
  assert (Hseg : exists q', seg (put_next i h (put_prev i idx_null p1)) (L c) h i idx_null q').
  { unfold p1. destruct (seg_head _ _ _ _ _ Hs) as [[El E]|[l' El]].
    - exists i. rewrite El, E. done.
    - assert (Hhin : h ∈ L c) by (rewrite El; left). assert (Hne : h <> i) by (intros ->; done).
      destruct (Z.eqb_spec h idx_null) as [E|E]; [destruct (co_ele _ _ _ _ _ C c h Hhin); done|].
      exists q. eapply seg_set_start; [apply C|by rewrite El|exact Hs| | |].
      + intros x Hx. apply Hnx. intros ->. done.
      + intros x Hx Hxh. assert (x <> i) by (intros ->; done).
        rewrite prev_put_next, prev_put_prev, decide_False, prev_put_prev, decide_False by congruence. done.
      + rewrite prev_put_next, prev_put_prev, decide_False, prev_put_prev, decide_True by congruence.
        by destruct (Hsome h Hhin) as [? ->]. }
  destruct Hseg as [q' Hseg].
  eapply chains_ok_upd; [exact C|done|done|done| | | |done| | | | |].
  - intros x Hx. simpl. by rewrite lookup_insert_ne.
  - exists i, q'. simpl. rewrite lookup_insert_eq. split; [done|]. split; [done|].
    unfold key_of in Hk. destruct (p !! i) as [e|] eqn:He; [|done].
    assert (Hp1 : exists e1, p1 !! i = Some e1).
    { unfold p1. destruct (_ =? _); [eauto|]. rewrite lookup_put_prev, He. eauto. }
    destruct Hp1 as [e1 He1]. eexists. rewrite lookup_put_next, lookup_put_prev, He1. simpl. split; [done|].
    rewrite !decide_True by done. done.
  - apply NoDup_cons. split; [done|apply C].
  - intros x Hx Hxl. apply not_elem_of_cons in Hxl as [Hxi _]. rewrite Hnx, Hpv by done. split; [done|].
    unfold p1. destruct (Z.eqb_spec h idx_null) as [|E]; [done|]. rewrite prev_put_prev, decide_False; [done|].
    intros <-. auto.
  - intros x [->|Hx]%elem_of_cons; [by right|by left].
  - intros x [->|Hx]%elem_of_cons.
    + split; [done|]. exists k. rewrite lookup_insert_eq. done.
    + destruct (co_ele _ _ _ _ _ C c x Hx) as (Hx0 & k' & Hk' & Hkc & HM'). split; [done|]. exists k'. split_and!; [done|done|].
      rewrite lookup_insert_ne; [done|]. congruence.
  - intros k' Hk'. rewrite lookup_insert_ne; [done|]. intros <-. done.
  - intros k' x Hk' [[<- <-]|[Hne HM']]%lookup_insert_Some; [split; [left|done]|].
    apply (co_map _ _ _ _ _ C) in HM' as [HxL Hxk]. split; [|done]. right. by rewrite <- Hk'.
Qed.

(** ** The operations *)

Lemma set_head_ok m c v : is_Some (chain m !! c) -> set_head m c v = Ok (put_head c v m).
Proof. intros [h Hh]. unfold set_head, get_head. by rewrite Hh. Qed.

Lemma maybe_set_prev (p : pool_t) h v : (h <> idx_null -> is_Some (p !! h)) ->
  (if h =? idx_null then Ok p else set_prev p h v) = Ok (if h =? idx_null then p else put_prev h v p).
Proof. intros Hs. destruct (Z.eqb_spec h idx_null); [done|]. by apply set_prev_ok, Hs. Qed.

Lemma maybe_put_prev_is_Some (p : pool_t) h v j :
  is_Some ((if h =? idx_null then p else put_prev h v p) !! j) <-> is_Some (p !! j).
Proof. destruct (_ =? _); [done|apply is_Some_put_prev]. Qed.

Lemma key_of_lookup (p : pool_t) i k : key_of p i = Some k -> exists e, p !! i = Some e /\ key e = k.
Proof. unfold key_of. intros Hk. destruct (p !! i) as [e|]; simplify_eq/=. eauto. Qed.

(** The state of an element that is in the map. *)
Lemma member m p L M k i : chains_ok m p L M -> M !! k = Some i ->
  exists e l1 l2, p !! i = Some e /\ key e = k /\ L (chain_of m k) = l1 ++ i :: l2.
Proof.
  intros C HM. apply (co_map _ _ _ _ _ C) in HM as [Hi (e & He & Ek)%key_of_lookup].
  apply list_elem_of_split in Hi as (l1 & l2 & E). by exists e, l1, l2.
Qed.

(** What the neighbours of a member satisfy. *)
Lemma member_links m p L M l1 i l2 e : chains_ok m p L M -> L (chain_of m (key e)) = l1 ++ i :: l2 -> p !! i = Some e ->
  (next e <> idx_null -> is_Some (p !! next e)) /\ (prev e <> idx_null -> is_Some (p !! prev e)) /\
  (prev e = idx_null -> link_after (chain_of m (key e)) l1 = Head (chain_of m (key e))) /\
  (prev e <> idx_null -> link_after (chain_of m (key e)) l1 = Next (prev e)) /\
  is_Some (chain m !! chain_of m (key e)) /\ next e <> i /\ prev e <> i.
Proof.
  intros C E He. set (c := chain_of m (key e)) in *. assert (Hc : 0 <= c < chain_cnt m) by apply chain_of_range, C.
  destruct (chain_split _ m p L M c l1 i l2 C Hc E) as (h & q & e0 & Hh & He0 & Hl & H1 & H2).
  assert (e0 = e) as -> by congruence. destruct (neighbours p l1 l2 h i e q H1 H2) as [N1 N2].
  assert (Hsome : forall x, x ∈ l1 ++ i :: l2 -> is_Some (p !! x)).
  { intros x Hx. rewrite <- E in Hx. destruct (co_ele _ _ _ _ _ C c x Hx) as (_ & k & (e' & -> & _)%key_of_lookup & _). eauto. }
  pose proof (co_nodup _ _ _ _ _ C c) as Hn. rewrite E in Hn. apply NoDup_app in Hn as (Hn1 & Hd & Hn2).
  apply NoDup_cons in Hn2 as [Hi Hn2]. unfold link_after.
  assert (Hz : forall z, last l1 = Some z -> z <> idx_null /\ z <> i).
  { intros z Hz%last_Some_elem_of. destruct (co_ele _ _ _ _ _ C c z) as [Hz0 _]; [rewrite E; set_solver|]. split; [done|].
    intros ->. apply (Hd i Hz). left. }
  assert (Hi0 : i <> idx_null) by (destruct (co_ele _ _ _ _ _ C c i) as [? _]; [rewrite E; set_solver|done]).
  split_and!; [auto|auto| | |eauto| |].
  - intros E0. rewrite E0 in Hl. destruct (last l1) as [z|] eqn:El; [|done]. destruct (Hz z eq_refl). simpl in Hl. congruence.
  - intros E0. destruct (last l1) as [z|] eqn:El; simpl in Hl; congruence.
  - intros E0. destruct (seg_head _ _ _ _ _ H2) as [[_ ?]|[l' El]]; [congruence|]. apply Hi. rewrite El, <- E0. left.
  - intros E0. destruct (last l1) as [z|] eqn:El; simpl in Hl; [destruct (Hz z eq_refl)|]; congruence.
Qed.

(** Unlinking as the code does it when it knows the element. *)
Lemma remove_fast_unlink m p L M l1 i l2 e :
  chains_ok m p L M -> L (chain_of m (key e)) = l1 ++ i :: l2 -> p !! i = Some e ->
  idx_remove_fast key_hash m p i = Ok (unlink (chain_of m (key e)) e m p).
Proof.
  intros C E He. destruct (member_links m p L M l1 i l2 e C E He) as (Hn & Hp & _ & _ & Hc & Hni & Hpi).
  unfold idx_remove_fast, unlink, get_ele. rewrite He. cbn [deref mbind res_bind].
  rewrite maybe_set_prev by done. cbn [mbind res_bind].
  set (p1 := if next e =? idx_null then p else put_prev (next e) (prev e) p).
  assert (Hp1 : p1 !! i = Some e).
  { unfold p1. destruct (_ =? _); [done|]. rewrite lookup_put_prev, He. simpl. by rewrite decide_False. }
  rewrite Hp1. cbn [deref mbind res_bind]. destruct (Z.eqb_spec (prev e) idx_null) as [E0|E0]; cbn [negb].
  - rewrite set_head_ok by done. done.
  - rewrite set_next_ok; [done|]. unfold p1. rewrite maybe_put_prev_is_Some. auto.
Qed.

(** Unlinking as the code does it when it has found the link to the element. *)
Lemma store_unlink m p L M l1 i l2 e :
  chains_ok m p L M -> L (chain_of m (key e)) = l1 ++ i :: l2 -> p !! i = Some e ->
  exists m1 p1, store m p (link_after (chain_of m (key e)) l1) (next e) = Ok (m1, p1) /\ p1 !! i = Some e /\
    (next e <> idx_null -> is_Some (p1 !! next e)) /\
    unlink (chain_of m (key e)) e m p = (m1, if next e =? idx_null then p1 else put_prev (next e) (prev e) p1) /\
    chain m1 !! chain_of m (key e) = (if prev e =? idx_null then Some (next e) else chain m !! chain_of m (key e)).
Proof.
  intros C E He. destruct (member_links m p L M l1 i l2 e C E He) as (Hn & Hp & Hl0 & Hl1 & Hc & Hni & Hpi).
  unfold unlink. destruct (Z.eqb_spec (prev e) idx_null) as [E0|E0].
  - rewrite (Hl0 E0). simpl. rewrite set_head_ok by done. eexists _, _. split; [done|]. split_and!; [done|done|done|].
    simpl. by rewrite lookup_insert_eq.
  - rewrite (Hl1 E0). simpl. rewrite set_next_ok by auto. eexists _, _. split; [done|]. split_and!; [| | |done].
    + rewrite lookup_put_next, He. simpl. by rewrite decide_False.
    + intros Hne. apply is_Some_put_next. auto.
    + f_equal. destruct (_ =? _); [done|]. by rewrite put_prev_next.
Qed.

(** Linking as the code does it. *)
Lemma insert_link m p i e h : p !! i = Some e -> chain m !! chain_of m (key e) = Some h ->
  (h <> idx_null -> is_Some (p !! h)) ->
  idx_insert key_hash m p i = Ok (link_front (chain_of m (key e)) i h m p).
Proof.
  intros He Hc Hs. unfold idx_insert, link_front, get_ele, get_head. rewrite He. cbn [deref mbind res_bind].
  rewrite Hc. cbn [deref mbind res_bind]. rewrite maybe_set_prev by done. cbn [mbind res_bind].
  rewrite set_prev_ok by (rewrite maybe_put_prev_is_Some; eauto). cbn [mbind res_bind].
  rewrite set_next_ok by (rewrite is_Some_put_prev, maybe_put_prev_is_Some; eauto). cbn [mbind res_bind].
  by rewrite set_head_ok by eauto.
Qed.

Lemma map_insert_ok m p M i k :
  represents m p M -> key_of p i = Some k -> i <> idx_null -> M !! k = None -> (forall k', M !! k' <> Some i) ->
  exists m' p', idx_insert key_hash m p i = Ok (m', p') /\ represents m' p' (<[k := i]> M) /\
    forall x, key_of p' x = key_of p x.
Proof.
  intros [L C] Hk Hi HM Hno. destruct (key_of_lookup _ _ _ Hk) as (e & He & Ek).
  destruct (link_ok m p L M i k C Hk Hi HM) as (h & Hh & Hs & Hl).
  { intros d Hd. destruct (co_ele _ _ _ _ _ C d i Hd) as (_ & k' & _ & _ & HM'). by apply Hno in HM'. }
  subst k. rewrite (insert_link m p i e h He Hh Hs). destruct (link_front _ i h m p) as [m' p'].
  destruct Hl as [C' Hk']. exists m', p'. split; [done|]. split; [by eexists|done].
Qed.

Lemma remove_fast_ok m p M i k :
  represents m p M -> M !! k = Some i ->
  exists m' p', idx_remove_fast key_hash m p i = Ok (m', p') /\ represents m' p' (delete k M) /\
    forall x, key_of p' x = key_of p x.
Proof.
  intros [L C] HM. destruct (member m p L M k i C HM) as (e & l1 & l2 & He & <- & E).
  rewrite (remove_fast_unlink m p L M l1 i l2 e C E He).
  pose proof (unlink_ok m p L M _ l1 i l2 e C eq_refl E He) as Hu. destruct (unlink _ e m p) as [m' p'].
  destruct Hu as (C' & _ & _ & Hk'). exists m', p'. split; [done|]. split; [by eexists|done].
Qed.

Lemma query_const_ok m p M k s :
  represents m p M -> idx_query_const key_hash m p k s = Ok (default s (M !! k)).
Proof.
  intros [L C]. unfold idx_query_const. destruct (find_ok key_hash m p L M k C) as (o & -> & Ho). cbn [mbind res_bind].
  destruct o as [[cur i]|]; [destruct Ho as [-> _]|rewrite Ho]; done.
Qed.

Lemma map_remove_ok m p M k s :
  represents m p M ->
  exists m' p', idx_remove key_hash m p k s = Ok (m', p', default s (M !! k)) /\ represents m' p' (delete k M) /\
    forall x, key_of p' x = key_of p x.
Proof.
  intros [L C]. unfold idx_remove. destruct (find_ok key_hash m p L M k C) as (o & -> & Ho). cbn [mbind res_bind].
  destruct o as [[cur i]|].
  - destruct Ho as (HM & l1 & l2 & E & ->). pose proof (co_map _ _ _ _ _ C _ _ HM) as [_ (e & He & Ek)%key_of_lookup].
    subst k. unfold get_ele. rewrite He. cbn [deref mbind res_bind].
    destruct (store_unlink m p L M l1 i l2 e C E He) as (m1 & p1 & -> & Hi & Hs & Eu & _). cbn [mbind res_bind].
    rewrite Hi. cbn [deref mbind res_bind]. rewrite maybe_set_prev by done. cbn [mbind res_bind]. rewrite HM.
    pose proof (unlink_ok m p L M _ l1 i l2 e C eq_refl E He) as Hu. rewrite Eu in Hu.
    destruct Hu as (C' & _ & _ & Hk'). eexists _, _. split; [done|]. split; [by eexists|done].
  - rewrite Ho. eexists _, _. split; [done|]. split; [|done]. rewrite delete_id by done. by exists L.
Qed.

(** Moving an element to the front of its chain is unlinking and linking it. *)
Lemma query_move m p L M l1 i l2 e z s :
  chains_ok m p L M -> L (chain_of m (key e)) = l1 ++ i :: l2 -> p !! i = Some e -> last l1 = Some z ->
  find key_hash m p (key e) = Ok (Some (Next z, i)) ->
  exists h m1 p1, unlink (chain_of m (key e)) e m p = (m1, p1) /\ m1 = m /\ chain m !! chain_of m (key e) = Some h /\
    idx_query key_hash m p (key e) s =
      (let '(m', p') := link_front (chain_of m (key e)) i h m1 p1 in Ok (m', p', i)).
Proof.
  intros C E He Hz Hf. set (c := chain_of m (key e)) in *.
  destruct (member_links m p L M l1 i l2 e C E He) as (Hn & Hp & Hl0 & Hl1 & [h Hh] & Hni & Hpi). fold c in Hl0, Hl1, Hh.
  assert (Hc : 0 <= c < chain_cnt m) by apply chain_of_range, C.
  assert (E0 : prev e <> idx_null) by (intros E0; specialize (Hl0 E0); unfold link_after in Hl0; by rewrite Hz in Hl0).
  assert (Ez : prev e = z) by (specialize (Hl1 E0); unfold link_after in Hl1; rewrite Hz in Hl1; congruence).
  destruct (chain_split _ m p L M c l1 i l2 C Hc E) as (h0 & q & e0 & Hh0 & He0 & _ & H1 & _).
  assert (h0 = h) as -> by congruence. assert (Hhl : h ∈ l1).
  { destruct l1 as [|y l0]; [done|]. destruct H1 as [-> _]. left. }
  assert (HhL : h ∈ L c) by (rewrite E; set_solver). destruct (co_ele _ _ _ _ _ C c h HhL) as (Hh0' & kh & Hkh & _).
  assert (Hhi : h <> i).
  { intros ->. pose proof (co_nodup _ _ _ _ _ C c) as Hnd. rewrite E in Hnd. apply NoDup_app in Hnd as (_ & Hd & _). apply (Hd i Hhl). left. }
  assert (Hhs : is_Some (p !! h)) by (apply key_of_lookup in Hkh as (eh & -> & _); eauto).
  set (p1 := if next e =? idx_null then p else put_prev (next e) (prev e) p).
  assert (Hs1 : forall j, is_Some (p1 !! j) <-> is_Some (p !! j)) by apply maybe_put_prev_is_Some.
  exists h, m, (put_next z (next e) p1). split.
  { unfold unlink. fold p1. destruct (Z.eqb_spec (prev e) idx_null); [done|]. by rewrite <- Ez. }
  split; [done|]. split; [done|]. unfold idx_query. rewrite Hf. cbn [mbind res_bind]. fold c. unfold get_ele.
  rewrite He. cbn [deref mbind res_bind]. rewrite maybe_set_prev by done. fold p1. cbn [mbind res_bind].
  rewrite set_prev_ok by (apply Hs1; eauto). cbn [mbind res_bind]. unfold get_head. rewrite Hh. cbn [deref mbind res_bind].
  rewrite set_prev_ok by (rewrite is_Some_put_prev, Hs1; eauto). cbn [mbind res_bind].
  assert (Hnx : next_of (put_prev h i (put_prev i idx_null p1)) i = Some (next e)).
  { rewrite !next_put_prev. unfold p1. destruct (_ =? _); rewrite ?next_put_prev; unfold next_of; by rewrite He. }
  unfold next_of in Hnx. destruct (put_prev h i (put_prev i idx_null p1) !! i) as [e3|] eqn:He3; [|done].
  injection Hnx as Hnx. cbn [deref mbind res_bind]. rewrite Hnx. simpl.
  rewrite set_next_ok by (rewrite !is_Some_put_prev, Hs1, <- Ez; auto). cbn [mbind res_bind]. rewrite Hh. cbn [deref mbind res_bind].
  rewrite set_next_ok by (rewrite is_Some_put_next, !is_Some_put_prev, Hs1; eauto). cbn [mbind res_bind].
  rewrite set_head_ok by eauto. cbn [mbind res_bind]. unfold link_front. destruct (Z.eqb_spec h idx_null); [done|].
  assert (Ep : put_prev i idx_null (put_prev h i (put_next z (next e) p1)) = put_next z (next e) (put_prev h i (put_prev i idx_null p1)))
    by (rewrite put_prev_next, put_prev_next; f_equal; by apply put_prev_prev).
  by rewrite Ep.
Qed.

Lemma map_query_ok m p M k s :
  represents m p M ->
  exists m' p', idx_query key_hash m p k s = Ok (m', p', default s (M !! k)) /\ represents m' p' M /\
    forall x, key_of p' x = key_of p x.
Proof.
  intros [L C]. destruct (find_ok key_hash m p L M k C) as (o & Ef & Ho). destruct o as [[cur i]|].
  2:{ unfold idx_query. rewrite Ef, Ho. cbn [mbind res_bind]. eexists _, _. split; [done|]. split; [by exists L|done]. }
  destruct Ho as (HM & l1 & l2 & E & ->). unfold link_after in Ef. rewrite HM. destruct (last l1) as [z|] eqn:Ez.
  2:{ unfold idx_query. rewrite Ef. cbn [mbind res_bind]. eexists _, _. split; [done|]. split; [by exists L|done]. }
  pose proof (co_map _ _ _ _ _ C _ _ HM) as [_ (e & He & Ek)%key_of_lookup]. subst k.
  destruct (query_move m p L M l1 i l2 e z s C E He Ez Ef) as (h & m1 & p1 & Eu & Em & Hh & ->).
  pose proof (unlink_ok m p L M _ l1 i l2 e C eq_refl E He) as Hu. rewrite Eu in Hu. destruct Hu as (C1 & _ & _ & Hk1).
  destruct (link_ok m1 p1 _ _ i (key e) C1) as (h' & Hh' & _ & Hl).
  - rewrite Hk1. unfold key_of. by rewrite He.
  - destruct (co_ele _ _ _ _ _ C (chain_of m (key e)) i) as [? _]; [rewrite E; set_solver|done].
  - apply lookup_delete_eq.
  - intros d Hd. destruct (co_ele _ _ _ _ _ C1 d i Hd) as (_ & k' & Hk' & _ & [Hne HM']%lookup_delete_Some).
    rewrite Hk1 in Hk'. unfold key_of in Hk'. rewrite He in Hk'. by injection Hk'.
  - subst m1. assert (h' = h) as -> by congruence. destruct (link_front _ i h m p1) as [m2 p2]. destruct Hl as [C2 Hk2].
    exists m2, p2. split; [done|]. split; [|intros x; by rewrite Hk2]. rewrite insert_delete_id in C2 by done. by eexists.
Qed.

(** ** Runs *)

Inductive map_op := OInsert (i : Z) | OQuery (k : K) | OQueryConst (k : K) | ORemove (k : K) | ORemoveFast (i : Z).

Definition map_step (m : map_t) (p : pool_t) (o : map_op) : res (map_t * pool_t * Z) :=
  match o with
  | OInsert i => '(m', p') ← idx_insert key_hash m p i; Ok (m', p', 0)
  | OQuery k => idx_query key_hash m p k idx_null
  | OQueryConst k => r ← idx_query_const key_hash m p k idx_null; Ok (m, p, r)
  | ORemove k => idx_remove key_hash m p k idx_null
  | ORemoveFast i => '(m', p') ← idx_remove_fast key_hash m p i; Ok (m', p', 0)
  end.

Fixpoint map_run (m : map_t) (p : pool_t) (os : list map_op) : res (map_t * pool_t * list Z) :=
  match os with
  | [] => Ok (m, p, [])
  | o :: os' => '(m', p', r) ← map_step m p o; '(m'', p'', rs) ← map_run m' p' os'; Ok (m'', p'', r :: rs)
  end.

(** The finite map from keys to elements; [keys] are the keys of the elements. *)
Definition spec_step (keys : Z -> option K) (M : gmap K Z) (o : map_op) : gmap K Z * Z :=
  match o with
  | OInsert i => (match keys i with Some k => <[k := i]> M | None => M end, 0)
  | OQuery k | OQueryConst k => (M, default idx_null (M !! k))
  | ORemove k => (delete k M, default idx_null (M !! k))
  | ORemoveFast i => (match keys i with Some k => delete k M | None => M end, 0)
  end.

Fixpoint spec_run (keys : Z -> option K) (M : gmap K Z) (os : list map_op) : gmap K Z * list Z :=
  match os with
  | [] => (M, [])
  | o :: os' =>
      let '(M', r) := spec_step keys M o in let '(M'', rs) := spec_run keys M' os' in (M'', r :: rs)
  end.

(** The documented preconditions: an inserted element exists, is not in the map
    and has a key that is not; an element removed by index is in the map. *)
Definition map_op_ok (keys : Z -> option K) (M : gmap K Z) (o : map_op) : Prop :=
  match o with
  | OInsert i => i <> idx_null /\ exists k, keys i = Some k /\ M !! k = None
  | ORemoveFast i => exists k, keys i = Some k /\ M !! k = Some i
  | _ => True
  end.

Fixpoint map_ops_ok (keys : Z -> option K) (M : gmap K Z) (os : list map_op) : Prop :=
  match os with
  | [] => True
  | o :: os' => map_op_ok keys M o /\ map_ops_ok keys (fst (spec_step keys M o)) os'
  end.

Lemma map_step_ok m p M o :
  represents m p M -> map_op_ok (key_of p) M o ->
  exists m' p', map_step m p o = Ok (m', p', snd (spec_step (key_of p) M o)) /\
    represents m' p' (fst (spec_step (key_of p) M o)) /\ forall x, key_of p' x = key_of p x.
Proof.
  intros R Ho. destruct o as [i|k|k|k|i]; simpl in *.
  - destruct Ho as (Hi & k & Hk & HM). rewrite Hk. destruct (map_insert_ok m p M i k R Hk Hi HM) as (m' & p' & -> & R' & Hk').
    + intros k' HM'. destruct R as [L C]. pose proof (co_map _ _ _ _ _ C _ _ HM') as [_ Hk']. congruence.
    + exists m', p'. done.
  - by apply map_query_ok.
  - rewrite (query_const_ok m p M k idx_null R). exists m, p. done.
  - by apply map_remove_ok.
  - destruct Ho as (k & Hk & HM). rewrite Hk. destruct (remove_fast_ok m p M i k R HM) as (m' & p' & -> & R' & Hk').
    exists m', p'. done.
Qed.

Lemma spec_step_ext keys keys' M o : (forall i, keys i = keys' i) -> spec_step keys M o = spec_step keys' M o.
Proof. intros E. destruct o; simpl; by rewrite ?E. Qed.

Lemma map_op_ok_ext keys keys' M o : (forall i, keys i = keys' i) -> map_op_ok keys M o -> map_op_ok keys' M o.
Proof. intros E. destruct o; simpl; by rewrite ?E. Qed.

Lemma map_run_ok keys os : forall m p M,
  represents m p M -> (forall i, keys i = key_of p i) -> map_ops_ok keys M os ->
  exists m' p', map_run m p os = Ok (m', p', snd (spec_run keys M os)) /\
    represents m' p' (fst (spec_run keys M os)) /\ forall x, key_of p' x = key_of p x.
Proof.
  induction os as [|o os IH]; intros m p M R Hk Hos; cbn [map_run spec_run].
  { exists m, p. done. }
  destruct Hos as [Ho Hos]. destruct (map_step_ok m p M o R) as (m1 & p1 & -> & R1 & Hk1); [by eapply map_op_ok_ext|].
  rewrite (spec_step_ext keys (key_of p) M o Hk) in *. cbn [mbind res_bind].
  destruct (IH m1 p1 _ R1) as (m2 & p2 & E & R2 & Hk2); [intros i; by rewrite Hk1|exact Hos|].
  destruct (spec_step (key_of p) M o) as [M1 r1]. simpl in *. rewrite E. cbn [mbind res_bind].
  destruct (spec_run keys M1 os) as [M2 rs]. simpl in *. exists m2, p2. split_and!; [done|done|]. intros x. by rewrite Hk2.
Qed.

Lemma empty_represents cnt s p : 0 < cnt <= ULONG_MAX -> represents (new cnt s) p ∅.
Proof.
  intros Hc. exists (fun _ => []). constructor; simpl; [done| | | |].
  - intros c Hcc. exists idx_null, idx_null. split; [|done]. unfold empty_chains. apply elem_of_list_to_map.
    + rewrite <- list_fmap_compose. unfold compose. simpl. rewrite list_fmap_id. apply NoDup_seqZ.
    + apply list_elem_of_fmap. exists c. split; [done|]. apply elem_of_seqZ. lia.
  - intros c. apply NoDup_nil_2.
  - intros c i Hi. inversion Hi.
  - intros k i Hk. by rewrite lookup_empty in Hk.
Qed.

(** C40. For every hash function and seed, any run of the operations of a hash
    chain map that respects their preconditions returns the results of a
    finite map from keys to elements: what a query or a removal finds is the
    element inserted last under the key and not removed since, whatever the
    collisions and however the chains have been reordered by queries. *)
Theorem map_chain_run_refines (cnt s : Z) (p : pool_t) (os : list map_op) :
  0 < cnt <= ULONG_MAX -> map_ops_ok (key_of p) ∅ os ->
  exists m' p', map_run (new cnt s) p os = Ok (m', p', snd (spec_run (key_of p) ∅ os)) /\
    forall k, idx_query_const key_hash m' p' k idx_null = Ok (default idx_null (fst (spec_run (key_of p) ∅ os) !! k)).
Proof.
  intros Hc Hos. destruct (map_run_ok (key_of p) os (new cnt s) p ∅) as (m' & p' & E & R & _); [by apply empty_represents|done|done|].
  exists m', p'. split; [exact E|]. intros k. by apply query_const_ok.
Qed.
End ops.

(** Three elements on one chain: queries reorder it and removals still work. *)
Definition example_pool : gmap Z (ele_t Z) := <[0 := mk_ele 10 0 0]> (<[1 := mk_ele 20 0 0]> (<[2 := mk_ele 30 0 0]> ∅)).

Lemma map_chain_run_refines_witness :
  exists m' p', map_run (fun _ _ => 0) (new 4 7) example_pool
      [OInsert 0; OInsert 1; OInsert 2; OQuery 10; OQuery 20; ORemoveFast 0; OQuery 10; ORemove 30; OQueryConst 20] =
    Ok (m', p', [0; 0; 0; 0; 1; 0; idx_null; 2; 1]).
Proof.
  destruct (map_chain_run_refines (fun _ _ => 0) 4 7 example_pool
    [OInsert 0; OInsert 1; OInsert 2; OQuery 10; OQuery 20; ORemoveFast 0; OQuery 10; ORemove 30; OQueryConst 20]) as (m' & p' & E & _).
  - vm_compute. split; [reflexivity|discriminate].
  - cbn [map_ops_ok map_op_ok]. repeat split; try discriminate; try (eexists; split; vm_compute; reflexivity).
  - exists m', p'. exact E.
Defined.
