(* ===== verification/MapDynamic.v ===== *)
(** * Open addressing ([src/util/tmpl/fd_map_dynamic.c])

    The map template behind the slot and index map of the reassembly and many
    others: an array of [2^lg_slot_cnt] slots probed linearly from the slot the
    hash of a key names.  There are no tombstones: removing a key moves later
    keys back into the hole until every probe sequence is intact again.  The
    key type, its reserved keys and its hash are the user's.  The operations
    refine those of finite maps: distances along the circle of slots, the
    invariant of linear probing, how the removal restores it, and runs. *)

From S2P Require Import Prelude Bits.

#[local] Open Scope Z_scope.

(** [MAP_T]: [val] are the user's fields, [hash] is kept only with [MAP_MEMOIZE]. *)
Record slot_t (K V : Type) := mk_slot { key : K; hash : Z; val : V }.
Arguments mk_slot {K V} key hash val.
Arguments key {K V} _.
Arguments hash {K V} _.
Arguments val {K V} _.

(** [MAP_(private_t)] *)
Record map_t (K V : Type) := mk_map { key_cnt : Z; seed : Z; slot_mask : Z; lg_slot_cnt : Z; slot : gmap Z (slot_t K V) }.
Arguments mk_map {K V} key_cnt seed slot_mask lg_slot_cnt slot.
Arguments key_cnt {K V} _.
Arguments seed {K V} _.
Arguments slot_mask {K V} _.
Arguments lg_slot_cnt {K V} _.
Arguments slot {K V} _.

(** [MAP_QUERY_OPT] *)
Inductive query_opt := OptFill | OptSuccess | OptFailure.

Section map_dynamic.
Context {K V : Type} `{EqDecision K}.
(** [MAP_KEY_NULL], [MAP_KEY_INVAL], [MAP_KEY_HASH], the width of [MAP_HASH_T],
    [MAP_MEMOIZE] and [MAP_KEY_EQUAL_IS_SLOW] *)
Context (key_null : K) (key_inval : K -> bool) (key_hash : K -> Z -> Z) (hash_bits : Z) (memoize equal_is_slow : bool).

Abbreviation slots := (gmap Z (slot_t K V)).
Abbreviation map := (map_t K V).

Definition get (s : slots) (i : Z) : res (slot_t K V) := deref (s !! i).
Definition set_key (k : K) (m : slot_t K V) : slot_t K V := mk_slot k (hash m) (val m).

(** [(ulong)(hash & (MAP_HASH_T)slot_mask)] and [(++slot) & slot_mask] *)
Definition private_start (h mask : Z) : Z := Z.land h (mask mod 2 ^ hash_bits).
Definition private_next (i mask : Z) : Z := Z.land (u64 (i + 1)) mask.

(** [MAP_(new)]: only the keys of the slots are assigned. *)
Definition clear_keys (n : Z) (s : slots) : slots := foldr (fun i s => alter (set_key key_null) i s) s (seqZ 0 n).

Definition new (shmem : slots) (lg seed0 : Z) : map :=
  let cnt := Z.shiftl 1 lg in mk_map 0 seed0 (u64 (cnt - 1)) lg (clear_keys cnt shmem).

Definition clear (m : map) : map := mk_map 0 (seed m) (slot_mask m) (lg_slot_cnt m) (clear_keys (Z.shiftl 1 (lg_slot_cnt m)) (slot m)).

Definition key_max (m : map) : Z := slot_mask m.

(** Whether a slot holds the key, where comparing the hashes first may save a
    slow comparison of keys. *)
Definition same_key (h : Z) (k : K) (m : slot_t K V) : bool :=
  (if memoize && equal_is_slow then hash m =? h else true) && bool_decide (key m = k).

(** Every slot is probed at most once. *)
Definition probe_fuel (m : map) : nat := S (Z.to_nat (slot_mask m) + 1).

(** The slot for a new key, if there is none with the key. *)
Definition insert_step (m : map) (h : Z) (k : K) (i : Z) : res (Z + option Z) :=
  e ← get (slot m) i;
  if key_inval (key e) then Ok (inr (Some i))
  else if same_key h k e then Ok (inr None)
  else Ok (inl (private_next i (slot_mask m))).

Definition insert (m : map) (k : K) : res (option Z * map) :=
  if slot_mask m <=? key_cnt m then Ok (None, m) else
  let h := key_hash k (seed m) in
  o ← loop (insert_step m h k) (probe_fuel m) (private_start h (slot_mask m));
  match o with
  | None => Ok (None, m)
  | Some i =>
      e ← get (slot m) i;
      let e := mk_slot k (if memoize then h else hash e) (val e) in
      Ok (Some i, mk_map (u64 (key_cnt m + 1)) (seed m) (slot_mask m) (lg_slot_cnt m) (<[i := e]> (slot m)))
  end.

(** Whether a probe that starts at [start] and ends at [i] avoids [hole]. *)
Definition intact (hole start i : Z) : bool :=
  ((hole <? start) && (start <=? i)) || ((i <? hole) && ((hole <? start) || (start <=? i))).

(** The inner loop of the removal: the next slot whose key is cut off by the
    hole, or none when an empty slot is reached. *)
Definition scan_step (m : map) (s : slots) (hole i : Z) : res (Z + option Z) :=
  let i := private_next i (slot_mask m) in
  e ← get s i;
  if key_inval (key e) then Ok (inr None) else
  let h := if memoize then hash e else key_hash (key e) (seed m) in
  if negb (intact hole (private_start h (slot_mask m)) i) then Ok (inr (Some i)) else Ok (inl i).

(** The outer loop: makes a hole and moves a key into it that it cuts off. *)
Definition remove_step (m : map) (st : slots * Z) : res (slots * Z + slots) :=
  let '(s, i) := st in
  e ← get s i;
  let s := <[i := set_key key_null e]> s in
  o ← loop (scan_step m s i) (probe_fuel m) i;
  match o with
  | None => Ok (inr s)
  | Some j => ej ← get s j; Ok (inl (<[i := ej]> s, j))
  end.

Definition remove (m : map) (i : Z) : res map :=
  s ← loop (remove_step m) (probe_fuel m) (slot m, i);
  Ok (mk_map (u64 (key_cnt m - 1)) (seed m) (slot_mask m) (lg_slot_cnt m) s).

Definition query_step (opt : query_opt) (m : map) (h : Z) (k : K) (i : Z) : res (Z + option Z) :=
  e ← get (slot m) i;
  let found := same_key h k e in
  let empty := key_inval (key e) in
  let next := Ok (inl (private_next i (slot_mask m))) in
  match opt with
  | OptFill => if found || empty then Ok (inr (if empty then None else Some i)) else next
  | OptSuccess => if found then Ok (inr (Some i)) else if empty then Ok (inr None) else next
  | OptFailure => if empty then Ok (inr None) else if found then Ok (inr (Some i)) else next
  end.

Definition query (opt : query_opt) (m : map) (k : K) : res (option Z) :=
  let h := key_hash k (seed m) in
  loop (query_step opt m h k) (probe_fuel m) (private_start h (slot_mask m)).

(** The user assigns the fields of a slot. *)
Definition set_val (m : map) (i : Z) (v : V) : res map :=
  e ← get (slot m) i;
  Ok (mk_map (key_cnt m) (seed m) (slot_mask m) (lg_slot_cnt m) (<[i := mk_slot (key e) (hash e) v]> (slot m))).

End map_dynamic.

(** ** The circle *)

Section circle.
Context (N : Z).

(** The steps from slot [a] to slot [b]. *)
Definition dist (a b : Z) : Z := if a <=? b then b - a else b - a + N.
Definition succ (i : Z) : Z := if i + 1 =? N then 0 else i + 1.
Definition on (i : Z) : Prop := 0 <= i < N.

Lemma dist_range a b : on a -> on b -> 0 <= dist a b < N.
Proof using Type. unfold on, dist. destruct (Z.leb_spec a b); lia. Qed.

Lemma dist_refl a : dist a a = 0.
Proof using Type. unfold dist. rewrite Z.leb_refl. lia. Qed.

Lemma dist_inj a b c : on a -> on b -> on c -> dist a b = dist a c -> b = c.
Proof using Type. unfold on, dist. destruct (Z.leb_spec a b), (Z.leb_spec a c); lia. Qed.

Lemma succ_on i : on i -> on (succ i).
Proof using Type. unfold on, succ. destruct (Z.eqb_spec (i + 1) N); lia. Qed.

Lemma dist_succ a i : on a -> on i -> dist a i + 1 < N -> dist a (succ i) = dist a i + 1.
Proof using Type.
  unfold on, dist, succ. destruct (Z.eqb_spec (i + 1) N) as [E|E]; intros; [destruct (Z.leb_spec a i), (Z.leb_spec a 0)|destruct (Z.leb_spec a i), (Z.leb_spec a (i + 1))]; lia.
Qed.

Lemma dist_onto a d : on a -> 0 <= d < N -> exists i, on i /\ dist a i = d.
Proof using Type.
  unfold on, dist. intros Ha Hd. exists (if a + d <? N then a + d else a + d - N). destruct (Z.ltb_spec (a + d) N); [destruct (Z.leb_spec a (a + d))|destruct (Z.leb_spec a (a + d - N))]; lia.
Qed.

(** The comparison of the code tells whether [start] is behind [hole] and not
    behind [i]. *)
Lemma intact_dist hole start i : on hole -> on start -> on i -> hole <> i -> intact hole start i = true <-> 0 < dist hole start <= dist hole i.
Proof using Type.
  unfold on, dist, intact. intros. destruct (Z.ltb_spec hole start), (Z.leb_spec start i), (Z.ltb_spec i hole), (Z.leb_spec hole start), (Z.leb_spec hole i); cbn; split; intros; try done; lia.
Qed.

(** A probe from [start] to [i] passes the hole exactly when it is not intact. *)
Lemma passes_hole hole start i : on hole -> on start -> on i -> hole <> i -> dist start hole < dist start i <-> ~ (0 < dist hole start <= dist hole i).
Proof using Type. unfold on, dist. intros. destruct (Z.leb_spec start hole), (Z.leb_spec start i), (Z.leb_spec hole start), (Z.leb_spec hole i); lia. Qed.

(** Behind the hole the probe passes everything up to its end. *)
Lemma passes_behind hole start i p : on hole -> on start -> on i -> on p -> dist start hole < dist start i -> 0 < dist hole p < dist hole i -> dist start p < dist start i.
Proof using Type. unfold on, dist. intros. destruct (Z.leb_spec start hole), (Z.leb_spec start i), (Z.leb_spec hole p), (Z.leb_spec hole i), (Z.leb_spec start p); lia. Qed.

Lemma dist_pos a b : on a -> on b -> a <> b -> 0 < dist a b.
Proof using Type. intros Ha Hb Hne. pose proof (dist_range a b Ha Hb). destruct (decide (dist a b = 0)) as [E|]; [|lia]. rewrite <- (dist_refl a) in E. by apply dist_inj in E. Qed.

Lemma dist_add a b c : on a -> on b -> on c -> dist a b <= dist a c -> dist b c = dist a c - dist a b.
Proof using Type. unfold on, dist. intros. destruct (Z.leb_spec a b), (Z.leb_spec a c), (Z.leb_spec b c); lia. Qed.

(** The first slot from [a] on that satisfies [P]. *)
Lemma nearest (P : Z -> bool) a i : on a -> on i -> P i = true -> exists j, on j /\ P j = true /\ forall p, on p -> dist a p < dist a j -> P p = false.
Proof using Type.
  intros Ha Hi HP. assert (H : forall n : nat, Z.of_nat n <= N -> (forall p, on p -> dist a p < Z.of_nat n -> P p = false) \/ exists j, on j /\ P j = true /\ forall p, on p -> dist a p < dist a j -> P p = false).
  { induction n as [|n IH]; intros Hn; [left; intros p Hp Hlt; pose proof (dist_range a p Ha Hp); lia|]. destruct IH as [IH|IH]; [lia| |by right]. destruct (dist_onto a (Z.of_nat n) Ha ltac:(lia)) as (j & Hj & Ej).
    destruct (P j) eqn:EP; [right; exists j; split_and!; try done; intros p Hp Hlt; apply IH; [done|lia]|]. left. intros p Hp Hlt. destruct (decide (dist a p = Z.of_nat n)) as [E|E]; [|apply IH; [done|lia]].
    by rewrite (dist_inj a p j Ha Hp Hj) by congruence. }
  unfold on in Ha. destruct (H (Z.to_nat N)) as [Hall|Hj]; [lia| |done]. rewrite Hall in HP; [done|done|]. pose proof (dist_range a i Ha Hi). lia.
Qed.

End circle.

(** ** Tables *)

Lemma land_le_r a b : 0 <= a -> 0 <= b -> 0 <= Z.land a b <= b.
Proof. intros Ha Hb. rewrite <- (Z2N.id a), <- (Z2N.id b), <- N2Z.inj_land by done. split; [apply N2Z.is_nonneg|]. apply N2Z.inj_le, N.land_le_r. Qed.

Section tables.
Context {K V : Type} `{Countable K}.
Context (key_null : K) (key_inval : K -> bool) (key_hash : K -> Z -> Z) (hash_bits : Z) (memoize equal_is_slow : bool).
Context (Hnull : key_inval key_null = true) (Hbits : 0 <= hash_bits) (Hhash : forall k s, 0 <= key_hash k s < 2 ^ hash_bits).

Abbreviation slots := (gmap Z (slot_t K V)).

Definition full (s : slots) (i : Z) (e : slot_t K V) : Prop := s !! i = Some e /\ key_inval (key e) = false.
Definition occ (s : slots) (i : Z) : bool := match s !! i with Some e => negb (key_inval (key e)) | None => false end.

(** The slot the probe of a key starts at, in a table of [N] slots. *)
Definition start (N sd : Z) (k : K) : Z := private_start hash_bits (key_hash k sd) (N - 1).

(** [M] is stored in [s]: no slot between the start of a key and the key is
    empty, apart from the hole [h]. *)
Record table (N sd : Z) (s : slots) (h : option Z) (M : gmap K V) : Prop := mk_table {
  tb_dom : forall i, is_Some (s !! i) <-> on N i;
  tb_hash : forall i e, full s i e -> memoize = true -> hash e = key_hash (key e) sd;
  tb_inj : forall i j e e', full s i e -> full s j e' -> key e = key e' -> i = j;
  tb_probe : forall i e p, full s i e -> on N p -> dist N (start N sd (key e)) p < dist N (start N sd (key e)) i -> occ s p = true \/ Some p = h;
  tb_hole : forall x, h = Some x -> on N x /\ occ s x = false;
  tb_keys : forall k v, M !! k = Some v <-> exists i e, full s i e /\ key e = k /\ val e = v;
}.

Lemma occ_full s i : occ s i = true <-> exists e, full s i e.
Proof using Type.
  unfold occ, full. destruct (s !! i) as [e|]; [|split; [done|by intros (? & ? & _)]]. rewrite negb_true_iff. split; [by exists e|]. by intros (e' & [= ->] & ?).
Qed.

Lemma full_occ s i e : full s i e -> occ s i = true.
Proof using Type. intros Hf. apply occ_full. by exists e. Qed.

Lemma start_on N sd k : 0 < N -> on N (start N sd k).
Proof using Hbits Hhash.
  intros HN. unfold on, start, private_start. pose proof (Hhash k sd) as Hh. assert (Hm : 0 <= (N - 1) mod 2 ^ hash_bits <= N - 1) by (split; [apply Z.mod_pos_bound; lia|apply Z.mod_le; lia]).
  pose proof (land_le_r (key_hash k sd) ((N - 1) mod 2 ^ hash_bits)). lia.
Qed.

Section one.
Context (N sd : Z) (HN : 0 < N).

Abbreviation st k := (start N sd k).

Lemma table_on s h M i e : table N sd s h M -> full s i e -> on N i.
Proof using Type. intros T [E _]. apply (tb_dom _ _ _ _ _ T). by exists e. Qed.

Lemma table_key s h M k i e : table N sd s h M -> full s i e -> key e = k -> M !! k = Some (val e).
Proof using Type. intros T Hf <-. apply (tb_keys _ _ _ _ _ T). by exists i, e. Qed.

(** Different occupied slots hold different keys. *)
Lemma table_keys s h M l : table N sd s h M -> NoDup l -> (forall i, i ∈ l -> occ s i = true) -> (length l <= size M)%nat.
Proof using Type.
  intros T Hn Ho. assert (Hks : exists ks : list K, length ks = length l /\ NoDup ks /\ forall k, k ∈ ks -> exists i e, i ∈ l /\ full s i e /\ key e = k).
  { induction Hn as [|i l Hi Hn IH]; [exists []; split_and!; [done|constructor|by intros k ?%not_elem_of_nil]|]. destruct IH as (ks & Hl & Hnk & Hk); [intros j Hj; apply Ho; by right|]. destruct (proj1 (occ_full s i) (Ho i ltac:(by left))) as [e He].
    exists (key e :: ks). split_and!; [cbn; by rewrite Hl| |].
    - apply NoDup_cons. split; [|done]. intros Hin. destruct (Hk _ Hin) as (j & e' & Hj & He' & Ek). apply Hi. by rewrite (tb_inj _ _ _ _ _ T i j e e').
    - intros k [->|Hin]%elem_of_cons; [exists i, e; split_and!; try done; by left|]. destruct (Hk k Hin) as (j & e' & Hj & ?). exists j, e'. split; [by right|done]. }
  destruct Hks as (ks & <- & Hnk & Hk). rewrite <- (size_list_to_set (C := gset K) ks), <- (size_dom (D := gset K) M) by done. apply subseteq_size. intros k Hin%elem_of_list_to_set. destruct (Hk k Hin) as (i & e & _ & He & Ek).
  apply elem_of_dom. exists (val e). by apply (table_key s h M k i).
Qed.

(** A table with fewer keys than slots has an empty slot, and a probe ends at the
    first one. *)
Lemma empty_slot s h M a : table N sd s h M -> Z.of_nat (size M) < N -> on N a -> exists j, on N j /\ occ s j = false /\ forall p, on N p -> dist N a p < dist N a j -> occ s p = true.
Proof using HN.
  intros T Hs Ha. assert (He : exists i, on N i /\ occ s i = false).
  { destruct (decide (Forall (fun i => occ s i = true) (seqZ 0 N))) as [Hall|Hno].
    - exfalso. rewrite Forall_forall in Hall. pose proof (table_keys s h M (seqZ 0 N) T (NoDup_seqZ _ _) Hall) as Hle. rewrite length_seqZ in Hle. lia.
    - apply not_Forall_Exists in Hno; [|intros i; apply _]. apply Exists_exists in Hno as (i & Hi & Ho). apply elem_of_seqZ in Hi. exists i. split; [unfold on; lia|]. by apply not_true_is_false. }
  destruct He as (i & Hi & Ho). destruct (nearest N (fun j => negb (occ s j)) a i Ha Hi) as (j & Hj & Hoj & Hmin); [by rewrite Ho|]. exists j. split; [done|]. split; [by apply negb_true_iff|]. intros p Hp Hlt. apply negb_false_iff. by apply Hmin.
Qed.

(** The slot a probe for [k] ends at: the one with the key, or the first empty one
    when there is none. *)
Definition probe_end (s : slots) (k : K) (i : Z) : Prop :=
  on N i /\ ((exists e, full s i e /\ key e = k) \/
             (occ s i = false /\ (forall q e, full s q e -> key e <> k) /\ forall p, on N p -> dist N (st k) p < dist N (st k) i -> occ s p = true)).

Lemma probe_ok {R} (step : Z -> res (Z + R)) s M k : table N sd s None M -> Z.of_nat (size M) < N ->
  (forall i e, full s i e -> key e <> k -> step i = Ok (inl (succ N i))) ->
  exists i, probe_end s k i /\ forall r n, step i = Ok (inr r) -> N < Z.of_nat n -> loop step n (st k) = Ok r.
Proof using HN Hbits Hhash.
  intros T Hs Hstep. pose proof (start_on N sd k HN) as Ha. destruct (empty_slot s None M (st k) T Hs Ha) as (j & Hj & Hoj & _).
  set (stop := fun i => match s !! i with Some e => key_inval (key e) || bool_decide (key e = k) | None => true end).
  destruct (nearest N stop (st k) j Ha Hj) as (i & Hi & Hst & Hmin); [unfold stop; unfold occ in Hoj; destruct (s !! j); [by apply negb_false_iff in Hoj; rewrite Hoj|done]|].
  assert (Hbef : forall p, on N p -> dist N (st k) p < dist N (st k) i -> exists e, full s p e /\ key e <> k).
  { intros p Hp Hlt. specialize (Hmin p Hp Hlt). unfold stop in Hmin. unfold full. destruct (s !! p) as [e|]; [|done]. apply orb_false_iff in Hmin as [H1 H2]. exists e. split; [done|]. by apply bool_decide_eq_false in H2. }
  exists i. split.
  - split; [done|]. destruct (proj2 (tb_dom _ _ _ _ _ T i) Hi) as [e E]. unfold stop in Hst. rewrite E in Hst. destruct (key_inval (key e)) eqn:Hv.
    + right. assert (Ho : occ s i = false) by (unfold occ; by rewrite E, Hv). split; [done|]. split.
      * intros q eq Hq Ek. pose proof (table_on _ _ _ _ _ T Hq) as Hqo. destruct (Z.lt_trichotomy (dist N (st k) q) (dist N (st k) i)) as [Hlt|[Heq|Hgt]].
        -- destruct (Hbef q Hqo Hlt) as (e' & [E' _] & Hne). destruct Hq as [Eq' _]. congruence.
        -- apply dist_inj in Heq; try done. subst q. apply full_occ in Hq. congruence.
        -- destruct (tb_probe _ _ _ _ _ T q eq i Hq Hi) as [?|?]; [by rewrite Ek|congruence|done].
      * intros p Hp Hlt. destruct (Hbef p Hp Hlt) as (e' & He' & _). by apply (full_occ _ _ e').
    + left. exists e. cbn in Hst. apply bool_decide_eq_true in Hst. done.
  - intros r n Er. assert (Hwalk : forall m a, on N a -> dist N (st k) a <= dist N (st k) i -> dist N (st k) i - dist N (st k) a < Z.of_nat m -> loop step m a = Ok r).
    { induction m as [|m IH]; intros a Hao Hle Hm; [lia|]. destruct (decide (a = i)) as [Heq|Hne]; [subst a; by rewrite loop_S, Er|]. assert (Hlt : dist N (st k) a < dist N (st k) i) by (destruct (decide (dist N (st k) a = dist N (st k) i)) as [Heq|]; [by apply dist_inj in Heq|lia]).
      destruct (Hbef a Hao Hlt) as (e & He & Hk). rewrite loop_S, (Hstep a e He Hk). pose proof (dist_range N (st k) i Ha Hi). pose proof (dist_succ N (st k) a Ha Hao ltac:(lia)) as Hd. apply IH; [by apply succ_on|lia|lia]. }
    intros Hn. apply Hwalk; [done| |]; rewrite dist_refl; pose proof (dist_range N (st k) i Ha Hi); lia.
Qed.

(** ** Holes *)

Lemma occ_insert_ne s i j e : i <> j -> occ (<[i := e]> s) j = occ s j.
Proof using Type. intros Hne. unfold occ. by rewrite lookup_insert_ne. Qed.

Lemma full_insert_ne s i j e e' : i <> j -> full (<[i := e]> s) j e' <-> full s j e'.
Proof using Type. intros Hne. unfold full. by rewrite lookup_insert_ne. Qed.

(** Emptying a slot. *)
Abbreviation holed s i e := (<[i := set_key key_null e]> s).

Lemma occ_holed s i e : occ (holed s i e) i = false.
Proof using Hnull. unfold occ. rewrite lookup_insert_eq. cbn. by rewrite Hnull. Qed.

Lemma full_holed s i e j e' : full (holed s i e) j e' <-> j <> i /\ full s j e'.
Proof using Hnull.
  destruct (decide (j = i)) as [->|Hne]; [|rewrite full_insert_ne by done; tauto]. split; [|by intros [? _]]. intros Hf%full_occ. by rewrite occ_holed in Hf.
Qed.

Lemma make_hole s M i e : table N sd s None M -> full s i e -> table N sd (holed s i e) (Some i) (delete (key e) M).
Proof using Hnull.
  intros T Hf. pose proof (table_on _ _ _ _ _ T Hf) as Hi. destruct T as [T1 T2 T3 T4 T5 T6]. split.
  - intros j. rewrite <- T1. destruct (decide (i = j)) as [->|Hne]; [|by rewrite lookup_insert_ne]. rewrite lookup_insert_eq. destruct Hf as [-> _]. split; by eexists.
  - intros j e' [_ Hj]%full_holed. by apply (T2 j).
  - intros j j' e1 e2 [_ Hj]%full_holed [_ Hj']%full_holed. by apply T3.
  - intros j e' p [_ Hj]%full_holed Hp Hd. destruct (decide (p = i)) as [->|Hne]; [by right|]. left. rewrite occ_insert_ne by done. destruct (T4 j e' p Hj Hp Hd); done.
  - intros x [= <-]. split; [done|apply occ_holed].
  - intros k v. rewrite lookup_delete_Some, T6. split.
    + intros (Hk & j & e' & Hj & Ek & Ev). exists j, e'. split; [|done]. apply full_holed. split; [|done]. intros ->. destruct Hj as [Ej _], Hf as [Ei _]. congruence.
    + intros (j & e' & [Hne Hj]%full_holed & Ek & Ev). split; [|by exists j, e']. intros Ek2. apply Hne. by apply (T3 j i e' e Hj Hf); congruence.
Qed.

(** A key that the hole cuts off moves into it and leaves a hole behind. *)
Lemma move_hole s h M j ej : table N sd s (Some h) M -> full s j ej -> intact h (st (key ej)) j = false -> table N sd (holed (<[h := ej]> s) j ej) (Some j) M.
Proof using Hnull Hbits Hhash HN.
  intros T Hf Hint. destruct (tb_hole _ _ _ _ _ T h eq_refl) as [Hh Hho]. pose proof (table_on _ _ _ _ _ T Hf) as Hj. assert (Hne : h <> j) by (intros ->; apply full_occ in Hf; congruence). pose proof (start_on N sd (key ej) HN) as Hs.
  assert (Hpass : dist N (st (key ej)) h < dist N (st (key ej)) j) by (apply passes_hole; try done; rewrite <- intact_dist by done; by rewrite Hint).
  assert (Hfh : forall x e, full (holed (<[h := ej]> s) j ej) x e <-> (x = h /\ e = ej) \/ (x <> h /\ x <> j /\ full s x e)).
  { intros x e. rewrite full_holed. destruct (decide (x = h)) as [->|Hxh]; [|rewrite full_insert_ne by done; split; [intros [? ?]; by right|intros [[? _]|(? & ? & ?)]; done]].
    unfold full. rewrite lookup_insert_eq. split; [intros (_ & [= ->] & _); by left|]. intros [[_ ->]|[? _]]; [|done]. split; [done|]. by destruct Hf as [_ ?]. }
  assert (Hoc : forall x, occ s x = true \/ x = h -> x <> j -> occ (holed (<[h := ej]> s) j ej) x = true).
  { intros x Hx Hxj. rewrite occ_insert_ne by done. destruct (decide (x = h)) as [->|Hxh]; [unfold occ; rewrite lookup_insert_eq; destruct Hf as [_ ->]; done|]. rewrite occ_insert_ne by done. destruct Hx; done. }
  destruct T as [T1 T2 T3 T4 T5 T6]. split.
  - intros x. rewrite <- T1. destruct (decide (x = j)) as [->|Hxj]; [rewrite lookup_insert_eq; destruct Hf as [-> _]; split; by eexists|]. rewrite lookup_insert_ne by done. destruct (decide (x = h)) as [->|Hxh]; [|by rewrite lookup_insert_ne].
    rewrite lookup_insert_eq. split; [intros _; by apply T1|by eexists].
  - intros x e [[-> ->]|(_ & _ & Hx)]%Hfh; [by apply (T2 j)|by apply (T2 x)].
  - intros x y e e' [[-> ->]|(Hxh & Hxj & Hx)]%Hfh [[-> ->]|(Hyh & Hyj & Hy)]%Hfh Ek; [done|destruct Hyj; by apply (T3 y j e' ej)|destruct Hxj; by apply (T3 x j e ej)|by apply (T3 x y e e')].
  - intros x e p Hx Hp Hd. destruct (decide (p = j)) as [->|Hpj]; [by right|left]. apply Hoc; [|done]. apply Hfh in Hx as [[-> ->]|(_ & _ & Hx)].
    + destruct (T4 j ej p Hf Hp) as [?|[= ->]]; [lia|by left|by right].
    + destruct (T4 x e p Hx Hp Hd) as [?|[= ->]]; [by left|by right].
  - intros x [= <-]. split; [done|apply occ_holed].
  - intros k v. rewrite T6. split.
    + intros (x & e & Hx & Ek & Ev). destruct (decide (x = j)) as [->|Hxj]; [exists h, ej|exists x, e]; rewrite Hfh.
      * assert (e = ej) as -> by (destruct Hx as [Ex _], Hf as [Ej _]; congruence). split; [by left|done].
      * split; [|done]. right. split_and!; try done. intros ->. apply full_occ in Hx. congruence.
    + intros (x & e & [[-> ->]|(_ & _ & Hx)]%Hfh & Ek & Ev); [by exists j, ej|by exists x, e].
Qed.

(** The hole does no harm when everything up to the next empty slot avoids it. *)
Lemma close_hole s h M e0 : table N sd s (Some h) M -> on N e0 -> occ s e0 = false -> e0 <> h ->
  (forall p, on N p -> 0 < dist N h p < dist N h e0 -> exists e, full s p e /\ intact h (st (key e)) p = true) -> table N sd s None M.
Proof using Hbits Hhash HN.
  intros T He0 Ho0 Hne Hint. destruct (tb_hole _ _ _ _ _ T h eq_refl) as [Hh Hho]. pose proof T as [T1 T2 T3 T4 T5 T6]. split; try done. intros i e p Hf Hp Hd. left. destruct (T4 i e p Hf Hp Hd) as [?|[= ->]]; [done|exfalso].
  pose proof (table_on _ _ _ _ _ T Hf) as Hi. pose proof (start_on N sd (key e) HN) as Hs. assert (Hih : h <> i) by (intros ->; apply full_occ in Hf; congruence).
  pose proof (dist_pos N h i Hh Hi Hih) as Hpos.
  destruct (Z.lt_trichotomy (dist N h i) (dist N h e0)) as [Hlt|[Heq|Hgt]].
  - destruct (Hint i Hi ltac:(lia)) as (e' & [E' _] & Hin). destruct Hf as [E _]. assert (e' = e) as -> by congruence. apply (intact_dist N h _ i Hh Hs Hi Hih) in Hin. by apply (passes_hole N h _ i Hh Hs Hi Hih) in Hd.
  - apply dist_inj in Heq; try done. subst i. apply full_occ in Hf. congruence.
  - pose proof (dist_pos N h e0 Hh He0 ltac:(done)) as Hp0.
    pose proof (passes_behind N h (st (key e)) i e0 Hh Hs Hi He0 Hd ltac:(lia)) as Hd0. destruct (T4 i e e0 Hf He0 Hd0) as [?|[= ?]]; congruence.
Qed.

(** ** The loops of the removal *)

Context (lg : Z) (Hlg : 0 <= lg <= 63) (HNlg : N = 2 ^ lg).

Lemma next_succ i : on N i -> private_next i (N - 1) = succ N i.
Proof using Hlg HNlg HN.
  intros Hi. unfold private_next, succ, on in *. assert (HN63 : N <= 2 ^ 63) by (rewrite HNlg; apply Z.pow_le_mono_r; lia). rewrite u64_small by (unfold is_u64, ULONG_MAX; lia).
  replace (N - 1) with (Z.ones lg) by (rewrite Z.ones_equiv, HNlg; lia). rewrite Z.land_ones, <- HNlg by lia. destruct (Z.eqb_spec (i + 1) N) as [->|Hne]; [apply Z.mod_same; lia|apply Z.mod_small; lia].
Qed.

Context (m : map_t K V) (Hmask : slot_mask m = N - 1) (Hseed : seed m = sd).

Lemma fuel_enough : N < Z.of_nat (probe_fuel m).
Proof using All. unfold probe_fuel. rewrite Hmask. lia. Qed.

Lemma scan_ok s h M e0 : table N sd s (Some h) M -> on N e0 -> occ s e0 = false -> e0 <> h ->
  exists j, on N j /\ j <> h /\ dist N h j <= dist N h e0 /\ (forall p, on N p -> 0 < dist N h p < dist N h j -> exists e, full s p e /\ intact h (st (key e)) p = true) /\
    loop (scan_step key_inval key_hash hash_bits memoize m s h) (probe_fuel m) h = Ok (if occ s j then Some j else None) /\ forall e, full s j e -> intact h (st (key e)) j = false.
Proof using All.
  intros T He0 Ho0 Hne. destruct (tb_hole _ _ _ _ _ T h eq_refl) as [Hh Hho].
  set (stop := fun i => negb (i =? h) && match s !! i with Some e => key_inval (key e) || negb (intact h (st (key e)) i) | None => true end).
  assert (Hs0 : stop e0 = true) by (unfold stop; rewrite (proj2 (Z.eqb_neq e0 h)) by done; unfold occ in Ho0; destruct (s !! e0); [by apply negb_false_iff in Ho0; rewrite Ho0|done]).
  destruct (nearest N stop h e0 Hh He0 Hs0) as (j & Hj & Hst & Hmin). exists j. assert (Hjh : j <> h) by (intros ->; unfold stop in Hst; by rewrite Z.eqb_refl in Hst).
  assert (Hle : dist N h j <= dist N h e0) by (destruct (Z.le_gt_cases (dist N h j) (dist N h e0)) as [|Hgt]; [done|]; rewrite (Hmin e0 He0) in Hs0 by lia; done).
  assert (Hbef : forall p, on N p -> 0 < dist N h p < dist N h j -> exists e, full s p e /\ intact h (st (key e)) p = true).
  { intros p Hp Hd. specialize (Hmin p Hp ltac:(lia)). unfold stop in Hmin. rewrite (proj2 (Z.eqb_neq p h)) in Hmin by (intros ->; rewrite dist_refl in Hd; lia). unfold full. destruct (s !! p) as [e|]; [|done]. cbn in Hmin. apply orb_false_iff in Hmin as [H1 H2]. apply negb_false_iff in H2. by exists e. }
  assert (Hse : forall e i, full s i e -> private_start hash_bits (if memoize then hash e else key_hash (key e) (seed m)) (slot_mask m) = st (key e)).
  { intros e i Hf. rewrite Hmask, Hseed. unfold start. destruct memoize eqn:Em; [|done]. by rewrite (tb_hash _ _ _ _ _ T i e Hf Em). }
  destruct (proj2 (tb_dom _ _ _ _ _ T j) Hj) as [e E]. unfold stop in Hst. rewrite (proj2 (Z.eqb_neq j h)), E in Hst by done. cbn [negb andb] in Hst.
  split; [done|]. split; [done|]. split; [done|]. split; [done|]. split.
  - assert (Hend : forall i, on N i -> succ N i = j -> scan_step key_inval key_hash hash_bits memoize m s h i = Ok (inr (if occ s j then Some j else None))).
    { intros i Hi Ei. unfold scan_step, get, occ. rewrite Hmask, (next_succ i Hi), Ei, E. cbn [deref mbind res_bind]. destruct (key_inval (key e)) eqn:Hv; [done|]. cbn [orb] in Hst. rewrite <- Hmask, (Hse e j) by done. by rewrite Hst. }
    assert (Hwalk : forall n a, on N a -> dist N h a < dist N h j -> dist N h j - dist N h a <= Z.of_nat n -> loop (scan_step key_inval key_hash hash_bits memoize m s h) n a = Ok (if occ s j then Some j else None)).
    { induction n as [|n IH]; intros a Ha Hd Hn; [lia|]. rewrite loop_S. pose proof (dist_range N h j Hh Hj). pose proof (dist_succ N h a Hh Ha ltac:(lia)) as Hds. pose proof (succ_on N a Ha) as Hso.
      destruct (decide (succ N a = j)) as [Ej|Hnj]; [by rewrite (Hend a Ha Ej)|]. assert (Hlt : dist N h (succ N a) < dist N h j) by (destruct (decide (dist N h (succ N a) = dist N h j)) as [Heq|]; [by apply dist_inj in Heq|lia]).
      destruct (Hbef (succ N a) Hso) as (e' & Hf' & Hin); [pose proof (dist_range N h a Hh Ha); lia|]. unfold scan_step at 1, get. rewrite Hmask, (next_succ a Ha). destruct Hf' as [E' Hv']. rewrite E'. cbn [deref mbind res_bind]. rewrite Hv', <- Hmask, (Hse e' (succ N a)) by done. rewrite Hin. cbn [negb]. apply IH; [done|done|lia]. }
    apply Hwalk; [done|rewrite dist_refl; by apply dist_pos|]. rewrite dist_refl. pose proof (dist_range N h j Hh Hj). pose proof fuel_enough. lia.
  - intros e' [E' Hv']. assert (e' = e) as -> by congruence. rewrite Hv' in Hst. cbn in Hst. by apply negb_true_iff.
Qed.

(** Removing the key of a slot. *)
Lemma remove_loop_ok s M i e : table N sd s None M -> Z.of_nat (size M) < N -> full s i e ->
  exists s', loop (remove_step key_null key_inval key_hash hash_bits memoize m) (probe_fuel m) (s, i) = Ok s' /\ table N sd s' None (delete (key e) M).
Proof using All.
  intros T Hs Hf. pose proof (table_on _ _ _ _ _ T Hf) as Hi. destruct (empty_slot s None M i T Hs Hi) as (e0 & He0 & Ho0 & _).
  pose (I := fun st : slots * Z => on N st.2 /\ st.2 <> e0 /\ exists e1, st.1 !! st.2 = Some e1 /\ occ st.1 e0 = false /\ table N sd (holed st.1 st.2 e1) (Some st.2) (delete (key e) M)).
  apply (loop_total _ I (fun st => Z.to_nat (dist N st.2 e0))).
  - intros [s1 h] (Hh & Hhe & e1 & E1 & Ho1 & T1). cbn [fst snd] in *. unfold remove_step, get. rewrite E1. cbn [deref mbind res_bind]. set (s2 := holed s1 h e1) in *.
    assert (Ho2 : occ s2 e0 = false) by (unfold s2; by rewrite occ_insert_ne). destruct (scan_ok s2 h (delete (key e) M) e0 T1 He0 Ho2 ltac:(done)) as (j & Hj & Hjh & Hle & Hbef & -> & Hcut). cbn [mbind res_bind].
    destruct (occ s2 j) eqn:Hoj.
    + left. apply occ_full in Hoj as [ej Hej]. destruct Hej as [Ej Hvj] eqn:Hd. rewrite Ej. cbn [deref mbind res_bind]. eexists. split; [done|]. assert (Hjo : full s2 j ej) by done. assert (Hne : j <> e0) by (intros ->; apply full_occ in Hjo; congruence). split.
      * split; [done|]. split; [done|]. exists ej. cbn [fst snd]. split; [by rewrite lookup_insert_ne|]. split; [by rewrite occ_insert_ne by done|]. apply move_hole; [done|done|by apply Hcut].
      * cbn [snd]. pose proof (dist_add N h j e0 Hh Hj He0 Hle). pose proof (dist_pos N h j Hh Hj ltac:(done)). pose proof (dist_range N j e0 Hj He0). lia.
    + right. exists s2. split; [done|]. by apply (close_hole s2 h _ j).
  - split; [done|]. split; [intros Heq; cbn in Heq; subst; apply full_occ in Hf; congruence|]. exists e. cbn [fst snd]. split; [apply Hf|]. split; [done|]. by apply make_hole.
  - cbn [snd]. pose proof (dist_range N i e0 Hi He0). pose proof fuel_enough. lia.
Qed.

End one.

(** ** Operations *)

Abbreviation map := (map_t K V).

Record represents (m : map) (M : gmap K V) : Prop := mk_represents {
  re_lg : 0 <= lg_slot_cnt m <= 63;
  re_mask : slot_mask m = 2 ^ lg_slot_cnt m - 1;
  re_table : table (2 ^ lg_slot_cnt m) (seed m) (slot m) None M;
  re_cnt : key_cnt m = Z.of_nat (size M) /\ Z.of_nat (size M) <= slot_mask m;
}.

Lemma pow_pos lg : 0 <= lg -> 0 < 2 ^ lg.
Proof using Type. intros. apply Z.pow_pos_nonneg; lia. Qed.

Lemma same_key_ok N sd s h M i e k : table N sd s h M -> full s i e -> same_key memoize equal_is_slow (key_hash k sd) k e = bool_decide (key e = k).
Proof using Type.
  intros T Hf. unfold same_key. destruct (bool_decide (key e = k)) eqn:Ek; [|by rewrite andb_false_r]. rewrite andb_true_r. destruct memoize eqn:Em; [|done]. destruct equal_is_slow; [|done]. cbn. apply Z.eqb_eq. rewrite (tb_hash _ _ _ _ _ T i e Hf Em). apply bool_decide_eq_true in Ek. by rewrite Ek.
Qed.

Lemma query_ok opt m M k : represents m M -> key_inval k = false -> exists o, query key_inval key_hash hash_bits memoize equal_is_slow opt m k = Ok o /\
  match o with Some i => exists e, full (slot m) i e /\ key e = k /\ M !! k = Some (val e) | None => M !! k = None end.
Proof using All.
  intros [R1 R2 T [R3 R4]] Hk. pose proof (pow_pos _ (proj1 R1)) as HN. unfold query. match goal with |- context [loop ?f _ _] => set (step := f) end. rewrite R2.
  destruct (probe_ok (2 ^ lg_slot_cnt m) (seed m) HN step (slot m) M k T) as (i & [Hi Hend] & Hloop); [lia| |].
  { intros i e Hf Hne. unfold step, query_step, get. destruct Hf as [E Hv] eqn:Hd. rewrite E. cbn [deref mbind res_bind]. rewrite (same_key_ok _ _ _ _ _ i e k T), (bool_decide_eq_false_2 _ Hne), Hv by done. rewrite R2, (next_succ _ HN _ R1 eq_refl) by (by apply (table_on _ _ _ _ _ _ _ T (conj E Hv))). by destruct opt. }
  assert (Hfuel : 2 ^ lg_slot_cnt m < Z.of_nat (probe_fuel m)) by (unfold probe_fuel; rewrite R2; lia). destruct Hend as [(e & [E Hv] & Ek)|(Ho & Hno & _)].
  - exists (Some i). split; [|exists e; split_and!; try done; by apply (table_key _ _ _ _ _ _ i e T)]. apply Hloop; [|done]. unfold step, query_step, get. rewrite E. cbn [deref mbind res_bind]. rewrite (same_key_ok _ _ _ _ _ i e k T), (bool_decide_eq_true_2 _ Ek), Hv by done. by destruct opt.
  - exists None. split.
    + apply Hloop; [|done]. destruct (proj2 (tb_dom _ _ _ _ _ T i) Hi) as [e E]. unfold occ in Ho. rewrite E in Ho. apply negb_false_iff in Ho. unfold step, query_step, get. rewrite E. cbn [deref mbind res_bind]. rewrite Ho.
      assert (Hs : same_key memoize equal_is_slow (key_hash k (seed m)) k e = false) by (unfold same_key; rewrite (bool_decide_eq_false_2 (key e = k)) by congruence; apply andb_false_r). rewrite Hs. by destruct opt.
    + destruct (M !! k) as [v|] eqn:Em; [|done]. apply (tb_keys _ _ _ _ _ T) in Em as (q & e & Hq & Ek & _). by destruct (Hno q e).
Qed.

(** Storing a key in the first empty slot of its probe. *)
Lemma table_insert N sd s M k i e0 : 0 < N -> table N sd s None M -> probe_end N sd s k i -> (forall q e, full s q e -> key e <> k) -> s !! i = Some e0 -> key_inval k = false -> forall h v, (memoize = true -> h = key_hash k sd) ->
  table N sd (<[i := mk_slot k h v]> s) None (<[k := v]> M).
Proof using All.
  intros HN T [Hi Hend] Hno E0 Hk h v Hh. assert (Ho : occ s i = false /\ forall p, on N p -> dist N (start N sd k) p < dist N (start N sd k) i -> occ s p = true) by (destruct Hend as [(e & Hf & Ek)|(Ho & _ & Hp)]; [by destruct (Hno i e)|done]). destruct Ho as [Ho Hp].
  set (e := mk_slot k h v). assert (Hf : forall x e', full (<[i := e]> s) x e' <-> (x = i /\ e' = e) \/ (x <> i /\ full s x e')).
  { intros x e'. destruct (decide (x = i)) as [->|Hne]; [|rewrite full_insert_ne by done; split; [by right|intros [[? _]|[_ ?]]; done]]. unfold full. rewrite lookup_insert_eq. split; [intros [[= <-] _]; by left|]. intros [[_ ->]|[? _]]; done. }
  assert (Hoc : forall x, occ s x = true -> occ (<[i := e]> s) x = true) by (intros x Hx; destruct (decide (x = i)) as [->|Hne]; [congruence|by rewrite occ_insert_ne]).
  destruct T as [T1 T2 T3 T4 T5 T6]. split.
  - intros x. rewrite <- T1. destruct (decide (x = i)) as [->|Hne]; [rewrite lookup_insert_eq, E0; split; by eexists|by rewrite lookup_insert_ne].
  - intros x e' [[-> ->]|[_ Hx]]%Hf; [done|by apply (T2 x)].
  - intros x y e1 e2 [[-> ->]|[Hx Hfx]]%Hf [[-> ->]|[Hy Hfy]]%Hf Ek; [done|by destruct (Hno y e2)|by destruct (Hno x e1)|by apply (T3 x y e1 e2)].
  - intros x e' p [[-> ->]|[_ Hx]]%Hf Hpo Hd; left; apply Hoc; [by apply Hp|]. by destruct (T4 x e' p Hx Hpo Hd).
  - done.
  - intros k' v'. destruct (decide (k' = k)) as [->|Hne].
    + rewrite lookup_insert_eq. split; [intros [= <-]; exists i, e; split; [by apply Hf; left|done]|]. intros (x & e' & [[-> ->]|[_ Hx]]%Hf & Ek & Ev); [by rewrite <- Ev|by destruct (Hno x e')].
    + rewrite lookup_insert_ne, T6 by done. split; intros (x & e' & Hx & Ek & Ev).
      * exists x, e'. split; [|done]. apply Hf. right. split; [|done]. intros ->. apply full_occ in Hx. congruence.
      * apply Hf in Hx as [[-> ->]|[_ Hx]]; [by destruct Hne|by exists x, e'].
Qed.

Abbreviation m_insert := (insert key_inval key_hash hash_bits memoize equal_is_slow).
Abbreviation m_query := (query key_inval key_hash hash_bits memoize equal_is_slow).
Abbreviation m_remove := (remove key_null key_inval key_hash hash_bits memoize).

Lemma dyn_insert_refused m M k : represents m M -> key_inval k = false -> is_Some (M !! k) \/ Z.of_nat (size M) = key_max m -> m_insert m k = Ok (None, m).
Proof using All.
  intros [R1 R2 T [R3 R4]] Hk Hc. pose proof (pow_pos _ (proj1 R1)) as HN. unfold insert. destruct (Z.leb_spec (slot_mask m) (key_cnt m)) as [|Hlt]; [done|]. destruct Hc as [[v Em]|Hc]; [|unfold key_max in Hc; lia].
  match goal with |- context [loop ?f _ _] => set (step := f) end. rewrite R2. destruct (probe_ok (2 ^ lg_slot_cnt m) (seed m) HN step (slot m) M k T) as (i & [Hi Hend] & Hloop); [lia| |].
  { intros i e Hf Hne. unfold step, insert_step, get. destruct Hf as [E Hv] eqn:Hd. rewrite E. cbn [deref mbind res_bind]. rewrite (same_key_ok _ _ _ _ _ i e k T), (bool_decide_eq_false_2 _ Hne), Hv by done. by rewrite R2, (next_succ _ HN _ R1 eq_refl) by (by apply (table_on _ _ _ _ _ _ _ T (conj E Hv))). }
  apply (tb_keys _ _ _ _ _ T) in Em as (q & e & Hq & Ek & _). destruct Hend as [(e' & [E Hv] & Ek')|(_ & Hno & _)]; [|by destruct (Hno q e)].
  rewrite (Hloop None); [done| |unfold probe_fuel; rewrite R2; lia]. unfold step, insert_step, get. rewrite E. cbn [deref mbind res_bind]. by rewrite (same_key_ok _ _ _ _ _ i e' k T), (bool_decide_eq_true_2 _ Ek'), Hv by done.
Qed.

Lemma insert_new m M k : represents m M -> key_inval k = false -> M !! k = None -> Z.of_nat (size M) < key_max m ->
  exists i m' e, m_insert m k = Ok (Some i, m') /\ full (slot m') i e /\ key e = k /\ represents m' (<[k := val e]> M) /\ key_max m' = key_max m.
Proof using All.
  intros [R1 R2 T [R3 R4]] Hk Em Hlt. pose proof (pow_pos _ (proj1 R1)) as HN. unfold key_max in Hlt. unfold insert. rewrite (proj2 (Z.leb_gt _ _)) by lia.
  match goal with |- context [loop ?f _ _] => set (step := f) end. rewrite R2. destruct (probe_ok (2 ^ lg_slot_cnt m) (seed m) HN step (slot m) M k T) as (i & Hend & Hloop); [lia| |].
  { intros i e Hf Hne. unfold step, insert_step, get. destruct Hf as [E Hv] eqn:Hd. rewrite E. cbn [deref mbind res_bind]. rewrite (same_key_ok _ _ _ _ _ i e k T), (bool_decide_eq_false_2 _ Hne), Hv by done. by rewrite R2, (next_succ _ HN _ R1 eq_refl) by (by apply (table_on _ _ _ _ _ _ _ T (conj E Hv))). }
  assert (Hno : forall q e, full (slot m) q e -> key e <> k) by (intros q e Hq Ek; pose proof (table_key _ _ _ _ _ k q e T Hq Ek); congruence). pose proof Hend as [Hi Hend']. destruct (proj2 (tb_dom _ _ _ _ _ T i) Hi) as [e0 E0].
  assert (Ho : key_inval (key e0) = true) by (destruct Hend' as [(e' & Hf & Ek)|(Ho & _)]; [by destruct (Hno i e')|]; unfold occ in Ho; rewrite E0 in Ho; by apply negb_false_iff in Ho).
  rewrite (Hloop (Some i)); [|unfold step, insert_step, get; rewrite E0; cbn [deref mbind res_bind]; by rewrite Ho|unfold probe_fuel; rewrite R2; lia]. cbn [mbind res_bind]. unfold get. rewrite E0. cbn [deref mbind res_bind]. set (e := mk_slot k _ _). rewrite <- R2. exists i. eexists. exists e. split; [done|].
  split; [split; [cbn; by rewrite lookup_insert_eq|done]|]. split; [done|]. split; [|done]. assert (H63 : 2 ^ lg_slot_cnt m <= 2 ^ 63) by (apply Z.pow_le_mono_r; lia). split; cbn [lg_slot_cnt slot_mask seed slot key_cnt]; try done.
  - apply (table_insert (2 ^ lg_slot_cnt m) (seed m) (slot m) M k i e0 HN T Hend Hno E0 Hk). by intros ->.
  - rewrite map_size_insert_None, R3 by done. rewrite u64_small by (unfold is_u64, ULONG_MAX; lia). lia.
Qed.

Lemma set_val_ok m M i e v : represents m M -> full (slot m) i e -> exists m', set_val m i v = Ok m' /\ represents m' (<[key e := v]> M) /\ key_max m' = key_max m.
Proof using All.
  intros [R1 R2 T [R3 R4]] [E Hv]. pose proof (table_key _ _ _ _ _ _ i e T (conj E Hv) eq_refl) as Ek. unfold set_val, get. rewrite E. cbn [deref mbind res_bind]. eexists. split; [done|]. split; [|done].
  set (e' := mk_slot (key e) (hash e) v). assert (Hf : forall x e1, full (<[i := e']> (slot m)) x e1 <-> (x = i /\ e1 = e') \/ (x <> i /\ full (slot m) x e1)).
  { intros x e1. destruct (decide (x = i)) as [->|Hne]; [|rewrite full_insert_ne by done; split; [by right|intros [[? _]|[_ ?]]; done]]. unfold full. rewrite lookup_insert_eq. split; [intros [[= <-] _]; by left|]. intros [[_ ->]|[? _]]; done. }
  assert (Hoc : forall x, occ (<[i := e']> (slot m)) x = occ (slot m) x) by (intros x; destruct (decide (x = i)) as [->|Hne]; [unfold occ; by rewrite lookup_insert_eq, E|by rewrite occ_insert_ne]).
  split; cbn [lg_slot_cnt slot_mask seed slot key_cnt]; try done; [|by rewrite map_size_insert_Some by (by exists (val e))]. assert (Hio : full (slot m) i e) by done. destruct T as [T1 T2 T3 T4 T5 T6]. split.
  - intros x. rewrite <- T1. destruct (decide (x = i)) as [->|Hne]; [rewrite lookup_insert_eq, E; split; by eexists|by rewrite lookup_insert_ne].
  - intros x e1 [[-> ->]|[_ Hx]]%Hf; [by apply (T2 i e)|by apply (T2 x)].
  - intros x y e1 e2 [[-> ->]|[Hx Hfx]]%Hf [[-> ->]|[Hy Hfy]]%Hf Eq; [done|by apply (T3 i y e e2)|by apply (T3 x i e1 e)|by apply (T3 x y e1 e2)].
  - intros x e1 p Hx Hp. rewrite Hoc. apply Hf in Hx as [[-> ->]|[_ Hx]]; [by apply (T4 i e)|by apply T4].
  - done.
  - intros k v'. destruct (decide (k = key e)) as [->|Hne].
    + rewrite lookup_insert_eq. split; [intros [= <-]; exists i, e'; split; [by apply Hf; left|done]|]. intros (x & e1 & [[-> ->]|[Hx Hfx]]%Hf & Ek1 & Ev); [by rewrite <- Ev|destruct Hx; by apply (T3 x i e1 e)].
    + rewrite lookup_insert_ne, T6 by done. split; intros (x & e1 & Hx & Ek1 & Ev).
      * exists x, e1. split; [|done]. apply Hf. right. split; [|done]. intros ->. destruct Hx as [Ex _]. congruence.
      * apply Hf in Hx as [[-> ->]|[_ Hx]]; [by destruct Hne|by exists x, e1].
Qed.

Lemma remove_ok m M i e : represents m M -> full (slot m) i e -> exists m', m_remove m i = Ok m' /\ represents m' (delete (key e) M) /\ key_max m' = key_max m.
Proof using All.
  intros [R1 R2 T [R3 R4]] Hf. pose proof (pow_pos _ (proj1 R1)) as HN. pose proof (table_key _ _ _ _ _ _ i e T Hf eq_refl) as Ek. unfold remove.
  destruct (remove_loop_ok (2 ^ lg_slot_cnt m) (seed m) HN (lg_slot_cnt m) R1 eq_refl m R2 eq_refl (slot m) M i e T ltac:(lia) Hf) as (s' & -> & T'). cbn [mbind res_bind]. eexists. split; [done|]. split; [|done].
  assert (H63 : 2 ^ lg_slot_cnt m <= 2 ^ 63) by (apply Z.pow_le_mono_r; lia). split; cbn [lg_slot_cnt slot_mask seed slot key_cnt]; try done. rewrite map_size_delete_Some by (by exists (val e)).
  assert (0 < size M)%nat by (destruct (decide (size M = 0%nat)) as [E0|]; [apply map_size_empty_inv in E0; subst; done|lia]). rewrite R3, u64_small by (unfold is_u64, ULONG_MAX; lia). lia.
Qed.

(** Memory for [2^lg] slots with any contents. *)
Definition memory (lg : Z) (s : slots) : Prop := forall i, is_Some (s !! i) <-> on (2 ^ lg) i.

Lemma clear_keys_lookup n (s : slots) i : clear_keys key_null n s !! i = if decide (0 <= i < n) then set_key key_null <$> s !! i else s !! i.
Proof using Type.
  unfold clear_keys. assert (Hl : forall l, foldr (fun i s => alter (set_key key_null) i s) s l !! i = if decide (i ∈ l) then set_key key_null <$> s !! i else s !! i).
  { induction l as [|j l IH]; cbn [foldr]; [by rewrite decide_False by apply not_elem_of_nil|]. destruct (decide (i = j)) as [->|Hne].
    - rewrite lookup_alter_eq, IH, (decide_True (P := j ∈ j :: l)) by (by left). destruct (decide (j ∈ l)); [|done]. by destruct (s !! j).
    - rewrite lookup_alter_ne, IH by done. destruct (decide (i ∈ l)) as [Hi|Hi]; [by rewrite decide_True by (by right)|]. rewrite decide_False; [done|]. by intros [->|?]%elem_of_cons. }
  rewrite Hl. destruct (decide (0 <= i < n)) as [Hi|Hi]; [by rewrite decide_True by (apply elem_of_seqZ; lia)|]. rewrite decide_False; [done|]. rewrite elem_of_seqZ. lia.
Qed.

Lemma cleared m lg sd s : 0 <= lg <= 63 -> memory lg s -> m = mk_map 0 sd (2 ^ lg - 1) lg (clear_keys key_null (2 ^ lg) s) -> represents m ∅.
Proof using All.
  intros Hlg Hm ->. pose proof (pow_pos lg (proj1 Hlg)). assert (Hno : forall i e, ~ full (clear_keys key_null (2 ^ lg) s) i e).
  { intros i e [E Hv]. rewrite clear_keys_lookup in E. destruct (decide (0 <= i < 2 ^ lg)) as [Hi|Hi].
    - destruct (s !! i); [|done]. injection E as <-. cbn in Hv. congruence.
    - apply Hi, (Hm i). by exists e. }
  split; cbn [lg_slot_cnt slot_mask seed slot key_cnt]; try done; [|rewrite map_size_empty; lia]. split; try done; try (intros i e; by destruct (Hno i e)); try (by intros i j e e' Hf; destruct (Hno i e)); try (by intros i e p Hf; destruct (Hno i e)).
  - intros i. rewrite clear_keys_lookup, <- (Hm i). destruct (decide (0 <= i < 2 ^ lg)); [by rewrite fmap_is_Some|done].
  - intros k v. rewrite lookup_empty. split; [done|]. intros (i & e & Hf & _). by destruct (Hno i e).
Qed.

Lemma dyn_new_ok lg sd s : 0 <= lg <= 63 -> memory lg s -> represents (new key_null s lg sd) ∅ /\ key_max (new key_null s lg sd) = 2 ^ lg - 1.
Proof using All.
  intros Hlg Hm. pose proof (pow_pos lg (proj1 Hlg)). assert (H63 : 2 ^ lg <= 2 ^ 63) by (apply Z.pow_le_mono_r; lia).
  assert (E : new key_null s lg sd = mk_map 0 sd (2 ^ lg - 1) lg (clear_keys key_null (2 ^ lg) s)) by (unfold new; rewrite Z.shiftl_1_l, u64_small by (unfold is_u64, ULONG_MAX; lia); done). split; [by apply (cleared _ lg sd s Hlg Hm)|by rewrite E].
Qed.

Lemma clear_ok m M : represents m M -> represents (clear key_null m) ∅ /\ key_max (clear key_null m) = key_max m.
Proof using All.
  intros [R1 R2 T [R3 R4]]. split; [|done]. apply (cleared _ (lg_slot_cnt m) (seed m) (slot m) R1 (tb_dom _ _ _ _ _ T)). unfold clear. by rewrite Z.shiftl_1_l, R2.
Qed.

(** ** Runs *)

(** Insertion assigns the user's fields when it succeeds; removal first looks the
    key up. *)
Inductive map_op := MInsert (k : K) (v : V) | MQuery (opt : query_opt) (k : K) | MRemove (k : K) | MClear.

(** The result is the value a query finds, and whether an insertion succeeded. *)
Inductive map_result := RInserted (b : bool) | RFound (o : option V) | RDone.

Definition map_step (m : map) (o : map_op) : res (map * map_result) :=
  match o with
  | MInsert k v =>
      '(i, m) ← m_insert m k;
      match i with None => Ok (m, RInserted false) | Some i => m ← set_val m i v; Ok (m, RInserted true) end
  | MQuery opt k =>
      i ← m_query opt m k;
      match i with None => Ok (m, RFound None) | Some i => e ← get (slot m) i; Ok (m, RFound (Some (val e))) end
  | MRemove k =>
      i ← m_query OptFill m k;
      match i with None => Ok (m, RDone) | Some i => m ← m_remove m i; Ok (m, RDone) end
  | MClear => Ok (clear key_null m, RDone)
  end.

Fixpoint map_run (m : map) (os : list map_op) : res (map * list map_result) :=
  match os with
  | [] => Ok (m, [])
  | o :: os => '(m, r) ← map_step m o; '(m, rs) ← map_run m os; Ok (m, r :: rs)
  end.

(** The same on a finite map of at most [cap] keys. *)
Definition spec_step (cap : Z) (M : gmap K V) (o : map_op) : gmap K V * map_result :=
  match o with
  | MInsert k v => if bool_decide (M !! k = None /\ Z.of_nat (size M) < cap) then (<[k := v]> M, RInserted true) else (M, RInserted false)
  | MQuery _ k => (M, RFound (M !! k))
  | MRemove k => (delete k M, RDone)
  | MClear => (∅, RDone)
  end.

Fixpoint spec_run (cap : Z) (M : gmap K V) (os : list map_op) : gmap K V * list map_result :=
  match os with
  | [] => (M, [])
  | o :: os => let '(M, r) := spec_step cap M o in let '(M, rs) := spec_run cap M os in (M, r :: rs)
  end.

Definition op_key (o : map_op) : option K := match o with MInsert k _ | MQuery _ k | MRemove k => Some k | MClear => None end.

(** Only keys that may be stored are used. *)
Definition valid_keys (os : list map_op) : Prop := Forall (fun o => forall k, op_key o = Some k -> key_inval k = false) os.

Lemma dyn_map_step_ok m M o : represents m M -> (forall k, op_key o = Some k -> key_inval k = false) ->
  exists m', map_step m o = Ok (m', (spec_step (key_max m) M o).2) /\ represents m' (spec_step (key_max m) M o).1 /\ key_max m' = key_max m.
Proof using All.
  intros R Hk. pose proof R as [_ _ T [R3 R4]]. destruct o as [k v|opt k|k|]; cbn [map_step spec_step op_key fst snd] in *.
  - destruct (bool_decide_reflect (M !! k = None /\ Z.of_nat (size M) < key_max m)) as [[Em Hlt]|Hno]; cbn [fst snd].
    + destruct (insert_new m M k R (Hk k eq_refl) Em Hlt) as (i & m1 & e & -> & Hf & Ek & R1 & Hc1). cbn [mbind res_bind]. destruct (set_val_ok m1 _ i e v R1 Hf) as (m2 & -> & R2 & Hc2). cbn [mbind res_bind]. exists m2. split; [done|]. rewrite Ek, insert_insert_eq in R2. split; [done|congruence].
    + rewrite (dyn_insert_refused m M k R (Hk k eq_refl)); [by exists m|]. destruct (M !! k) as [w|] eqn:Em; [left; by exists w|right]. unfold key_max in *. destruct (decide (Z.of_nat (size M) < slot_mask m)); [by destruct Hno|lia].
  - destruct (query_ok opt m M k R (Hk k eq_refl)) as (o & -> & Ho). cbn [mbind res_bind]. destruct o as [i|]; [|exists m; by rewrite Ho]. destruct Ho as (e & [E _] & _ & Em). unfold get. rewrite E. cbn [deref mbind res_bind]. exists m. by rewrite Em.
  - destruct (query_ok OptFill m M k R (Hk k eq_refl)) as (o & -> & Ho). cbn [mbind res_bind]. destruct o as [i|]; [|exists m; by rewrite delete_id]. destruct Ho as (e & Hf & Ek & _). destruct (remove_ok m M i e R Hf) as (m1 & -> & R1 & Hc). cbn [mbind res_bind]. exists m1. by rewrite Ek in R1.
  - exists (clear key_null m). split; [done|]. by apply (clear_ok m M).
Qed.

Lemma dyn_map_run_ok os : forall m M, represents m M -> valid_keys os ->
  exists m', map_run m os = Ok (m', (spec_run (key_max m) M os).2) /\ represents m' (spec_run (key_max m) M os).1.
Proof using All.
  induction os as [|o os IH]; intros m M R Hv; cbn [map_run spec_run]; [by exists m|]. apply Forall_cons in Hv as [Ho Hv]. destruct (dyn_map_step_ok m M o R Ho) as (m1 & -> & R1 & Hc1). cbn [mbind res_bind].
  destruct (spec_step (key_max m) M o) as [M1 r1]. cbn [fst snd] in *. destruct (IH m1 M1 R1 Hv) as (m2 & -> & R2). rewrite Hc1 in R2 |- *. cbn [mbind res_bind]. destruct (spec_run (key_max m) M1 os) as [M2 rs]. by exists m2.
Qed.

(** C39. For every hash function, with memoised hashes or without and for every
    variant of the query, any run of insertions, queries, removals and clearings
    on an open addressing map of [2^lg] slots returns the results of a finite map
    of at most [2^lg - 1] keys, whatever the collisions and however the removals
    moved keys: no probe leaves the array or runs forever, and afterwards
    exactly the keys of the finite map are found. *)
Theorem map_dynamic_run_refines lg sd mem os opt : 0 <= lg <= 63 -> memory lg mem -> valid_keys os ->
  exists m', map_run (new key_null mem lg sd) os = Ok (m', (spec_run (2 ^ lg - 1) ∅ os).2) /\
    forall k, key_inval k = false -> exists o, m_query opt m' k = Ok o /\
      match o with Some i => exists e, slot m' !! i = Some e /\ key e = k /\ (spec_run (2 ^ lg - 1) ∅ os).1 !! k = Some (val e) | None => (spec_run (2 ^ lg - 1) ∅ os).1 !! k = None end.
Proof using All.
  intros Hlg Hm Hv. destruct (dyn_new_ok lg sd mem Hlg Hm) as [R Hc]. destruct (dyn_map_run_ok os _ _ R Hv) as (m' & E & R'). rewrite Hc in E, R'. exists m'. split; [done|]. intros k Hk.
  destruct (query_ok opt m' _ k R' Hk) as (o & Eo & Ho). exists o. split; [done|]. destruct o as [i|]; [|done]. destruct Ho as (e & [E1 _] & Ek & Em). by exists e.
Qed.

End tables.

(** Four slots where every probe starts at the last one: the keys wrap around, a
    fourth one is refused and a removal moves the others back. *)
Definition ex_memory : gmap Z (slot_t Z Z) := list_to_map ((fun i => (i, mk_slot 9 9 9)) <$> seqZ 0 4).
Definition ex_ops : list (@map_op Z Z) := [MInsert 5 50; MInsert 6 60; MInsert 7 70; MInsert 8 80; MRemove 5; MQuery OptFill 7; MQuery OptSuccess 5; MInsert 8 80; MQuery OptFailure 8].

Lemma ex_memory_ok : memory 2 ex_memory.
Proof.
  intros i. unfold ex_memory, on. rewrite <- (elem_of_dom (D := gset Z)), dom_list_to_map_L, <- list_fmap_compose, elem_of_list_to_set. unfold compose. cbn [fst]. rewrite list_fmap_id, elem_of_seqZ. change (2 ^ 2) with 4. lia.
Qed.

Lemma map_dynamic_run_refines_witness : exists m', map_run 0 (fun k => k =? 0) (fun _ _ => 3) 32 true true (new 0 ex_memory 2 1) ex_ops =
  Ok (m', [RInserted true; RInserted true; RInserted true; RInserted false; RDone; RFound (Some 70); RFound None; RInserted true; RFound (Some 80)]).
Proof.
  destruct (map_dynamic_run_refines 0 (fun k => k =? 0) (fun _ _ => 3) 32 true true eq_refl ltac:(lia) ltac:(lia) 2 1 ex_memory ex_ops OptFill) as (m' & E & _); [lia|exact ex_memory_ok| |].
  - unfold valid_keys, ex_ops. repeat constructor; intros k Hk; injection Hk as <-; reflexivity.
  - exists m'. rewrite E. vm_compute. reflexivity.
Defined.
