(* ===== verification/Dlist.v ===== *)
(** * Doubly linked lists ([src/util/tmpl/fd_dlist.c])

    A list threaded through the elements of a pool: every element has a [prev]
    and a [next] index, the list its first and last element.  The operations
    refine those of sequences without duplicates; an iteration that removes
    the elements it visits still visits all of them; [verify] accepts exactly
    the well-formed lists. *)

From S2P Require Import Prelude Bits.

#[local] Open Scope Z_scope.

(** The fields of an element the list uses. *)
Record node_t := mk_node { prev : Z; next : Z }.

(** [DLIST_(private_t)] *)
Record dlist_t := mk_dlist { magic : Z; head : Z; tail : Z }.

Definition DLIST_MAGIC : Z := 0xf17eda2c37d71570.

(** ** Operations *)

Section dlist.
(** The width of [DLIST_IDX_T] *)
Context (idx_bits : Z).

Abbreviation pool_t := (gmap Z node_t).

Definition private_cidx (i : Z) : Z := i mod 2 ^ idx_bits.
Definition private_idx_null : Z := private_cidx ULONG_MAX.
Definition private_idx_is_null (i : Z) : bool := i =? private_idx_null.

Definition get (p : pool_t) (i : Z) : res node_t := deref (p !! i).
Definition set_prev (i v : Z) (p : pool_t) : res pool_t := n ← get p i; Ok (<[i := mk_node (private_cidx v) (next n)]> p).
Definition set_next (i v : Z) (p : pool_t) : res pool_t := n ← get p i; Ok (<[i := mk_node (prev n) (private_cidx v)]> p).
Definition set_head (v : Z) (d : dlist_t) : dlist_t := mk_dlist (magic d) (private_cidx v) (tail d).
Definition set_tail (v : Z) (d : dlist_t) : dlist_t := mk_dlist (magic d) (head d) (private_cidx v).

(** [*fd_ptr_if( !private_idx_is_null( i ), &pool[ i ].prev, &dlist->tail ) = v] *)
Definition store_prev (i v : Z) (s : dlist_t * pool_t) : res (dlist_t * pool_t) :=
  if private_idx_is_null i then Ok (set_tail v s.1, s.2) else p ← set_prev i v s.2; Ok (s.1, p).
(** [*fd_ptr_if( !private_idx_is_null( i ), &pool[ i ].next, &dlist->head ) = v] *)
Definition store_next (i v : Z) (s : dlist_t * pool_t) : res (dlist_t * pool_t) :=
  if private_idx_is_null i then Ok (set_head v s.1, s.2) else p ← set_next i v s.2; Ok (s.1, p).

(** [pool[ i ].prev = a; pool[ i ].next = b] *)
Definition set_links (i a b : Z) (p : pool_t) : res pool_t := p ← set_prev i a p; set_next i b p.

Definition new : dlist_t := mk_dlist DLIST_MAGIC (private_cidx private_idx_null) (private_cidx private_idx_null).

Definition is_empty (d : dlist_t) : bool := private_idx_is_null (head d).

Definition idx_peek_head (d : dlist_t) : Z := head d.
Definition idx_peek_tail (d : dlist_t) : Z := tail d.

Definition idx_push_head (i : Z) (d : dlist_t) (p : pool_t) : res (dlist_t * pool_t) :=
  let head_idx := head d in
  p ← set_links i private_idx_null head_idx p;
  '(d, p) ← store_prev head_idx i (d, p);
  Ok (set_head i d, p).

Definition idx_push_tail (i : Z) (d : dlist_t) (p : pool_t) : res (dlist_t * pool_t) :=
  let tail_idx := tail d in
  p ← set_links i tail_idx private_idx_null p;
  '(d, p) ← store_next tail_idx i (d, p);
  Ok (set_tail i d, p).

Definition idx_pop_head (d : dlist_t) (p : pool_t) : res (Z * dlist_t * pool_t) :=
  let ele_idx := head d in
  n ← get p ele_idx;
  let next_idx := next n in
  '(d, p) ← store_prev next_idx private_idx_null (d, p);
  Ok (ele_idx, set_head next_idx d, p).

Definition idx_pop_tail (d : dlist_t) (p : pool_t) : res (Z * dlist_t * pool_t) :=
  let ele_idx := tail d in
  n ← get p ele_idx;
  let prev_idx := prev n in
  '(d, p) ← store_next prev_idx private_idx_null (d, p);
  Ok (ele_idx, set_tail prev_idx d, p).

Definition idx_insert_before (i next_idx : Z) (d : dlist_t) (p : pool_t) : res (dlist_t * pool_t) :=
  n ← get p next_idx;
  let prev_idx := prev n in
  p ← set_links i prev_idx next_idx p;
  p ← set_prev next_idx i p;
  store_next prev_idx i (d, p).

Definition idx_insert_after (i prev_idx : Z) (d : dlist_t) (p : pool_t) : res (dlist_t * pool_t) :=
  n ← get p prev_idx;
  let next_idx := next n in
  p ← set_links i prev_idx next_idx p;
  p ← set_next prev_idx i p;
  store_prev next_idx i (d, p).

Definition idx_remove (i : Z) (d : dlist_t) (p : pool_t) : res (dlist_t * pool_t) :=
  n ← get p i;
  '(d, p) ← store_prev (next n) (prev n) (d, p);
  store_next (prev n) (next n) (d, p).

Definition idx_replace (i old_idx : Z) (d : dlist_t) (p : pool_t) : res (dlist_t * pool_t) :=
  n ← get p old_idx;
  p ← set_links i (prev n) (next n) p;
  '(d, p) ← store_prev (next n) i (d, p);
  store_next (prev n) i (d, p).

Definition remove_all (d : dlist_t) : dlist_t := set_tail private_idx_null (set_head private_idx_null d).

(** ** Iteration *)

Definition iter_fwd_init (d : dlist_t) : Z := head d.
Definition iter_rev_init (d : dlist_t) : Z := tail d.
Definition iter_done (it : Z) : bool := private_idx_is_null it.
Definition iter_fwd_next (it : Z) (p : pool_t) : res Z := n ← get p it; Ok (next n).
Definition iter_rev_next (it : Z) (p : pool_t) : res Z := n ← get p it; Ok (prev n).

(** A loop over the list with a body that may change the list and the pool. *)
Fixpoint iterate {A} (nxt : Z -> pool_t -> res Z) (body : Z -> A * dlist_t * pool_t -> res (A * dlist_t * pool_t)) (fuel : nat) (it : Z) (s : A * dlist_t * pool_t) : res (A * dlist_t * pool_t) :=
  if iter_done it then Ok s else
  match fuel with
  | O => Hang
  | S n => s ← body it s; it ← nxt it s.2; iterate nxt body n it s
  end.

(** ** Verification of the links *)

(** The iteration of [verify]: [None] when a test fails, otherwise the last
    element. *)
Fixpoint verify_from (fuel : nat) (ele_cnt : Z) (p : pool_t) (rem prev_idx ele_idx : Z) : res (option Z) :=
  if private_idx_is_null ele_idx then Ok (Some prev_idx) else
  match fuel with
  | O => Hang
  | S n =>
      if rem =? 0 then Ok None
      else if negb (ele_idx <? ele_cnt) then Ok None
      else
        e ← get p ele_idx;
        if negb (prev e =? prev_idx) then Ok None else verify_from n ele_cnt p (rem - 1) ele_idx (next e)
  end.

(** Returns whether no test failed; the arguments may be null pointers. *)
Definition verify (join : option dlist_t) (ele_cnt : Z) (pool : option pool_t) : res bool :=
  match join with
  | None => Ok false
  | Some d =>
      if negb (ele_cnt <=? private_idx_null) then Ok false
      else if negb (match pool with Some _ => true | None => ele_cnt =? 0 end) then Ok false
      else if negb (magic d =? DLIST_MAGIC) then Ok false
      else
        o ← verify_from (S (Z.to_nat ele_cnt)) ele_cnt (default ∅ pool) ele_cnt private_idx_null (head d);
        match o with None => Ok false | Some prev_idx => Ok (tail d =? prev_idx) end
  end.

End dlist.

(** ** Lists in the pool *)

(** The first and the last element, or what is beyond the end. *)
Definition first (a : Z) (l : list Z) : Z := match l with [] => a | x :: _ => x end.
Definition final (b : Z) (l : list Z) : Z := default b (last l).

Lemma final_cons b x l : final b (x :: l) = final x l.
Proof. unfold final. rewrite last_cons. by destruct (last l). Qed.

Lemma final_snoc b l x : final b (l ++ [x]) = x.
Proof. unfold final. by rewrite last_snoc. Qed.

Lemma first_app a l1 l2 : first a (l1 ++ l2) = first (first a l2) l1.
Proof. by destruct l1. Qed.

Lemma final_app b l1 l2 : final b (l1 ++ l2) = final (final b l1) l2.
Proof. unfold final. rewrite last_app. by destruct (last l2). Qed.

(** The elements of [l] are linked; the links at the ends are [b] and [a]. *)
Fixpoint seg (p : gmap Z node_t) (b : Z) (l : list Z) (a : Z) : Prop :=
  match l with
  | [] => True
  | x :: l => p !! x = Some (mk_node b (first a l)) /\ seg p x l a
  end.

Lemma chain_app p b l1 l2 a : seg p b (l1 ++ l2) a <-> seg p b l1 (first a l2) /\ seg p (final b l1) l2 a.
Proof.
  revert b. induction l1 as [|x l1 IH]; intros b; cbn [seg app]; [unfold final; cbn; tauto|]. rewrite IH, final_cons, first_app. tauto.
Qed.

Lemma seg_ext p q b l a : (forall x, x ∈ l -> p !! x = q !! x) -> seg p b l a -> seg q b l a.
Proof.
  revert b. induction l as [|x l IH]; intros b Hpq; cbn [seg]; [done|]. intros [E Hs]. split; [rewrite <- Hpq by (by left); done|]. apply IH; [|done]. intros y Hy. apply Hpq. by right.
Qed.

Lemma seg_lookup p b l a x : seg p b l a -> x ∈ l -> is_Some (p !! x).
Proof. revert b. induction l as [|y l IH]; intros b Hs Hx; [by apply not_elem_of_nil in Hx|]. destruct Hs as [E Hs]. apply elem_of_cons in Hx as [->|Hx]; [by eexists|by apply (IH y)]. Qed.

Section lists.
Context (idx_bits : Z) (Hbits : 1 <= idx_bits <= 64).

Abbreviation pool_t := (gmap Z node_t).
Abbreviation null := (private_idx_null idx_bits).

Lemma null_eq : null = 2 ^ idx_bits - 1.
Proof using Hbits.
  unfold private_idx_null, private_cidx, ULONG_MAX. replace 18446744073709551615 with (2 ^ idx_bits - 1 + (2 ^ (64 - idx_bits) - 1) * 2 ^ idx_bits).
  - rewrite Z.mod_add by lia. apply Z.mod_small. pose proof (Z.pow_pos_nonneg 2 idx_bits). lia.
  - rewrite Z.mul_sub_distr_r, <- Z.pow_add_r by lia. replace (64 - idx_bits + idx_bits) with 64 by lia. lia.
Qed.

(** Indices of elements. *)
Definition valid (i : Z) : Prop := 0 <= i < null.

Lemma cidx_id i : valid i \/ i = null -> private_cidx idx_bits i = i.
Proof using Hbits. unfold valid. rewrite null_eq. intros. unfold private_cidx. apply Z.mod_small. pose proof (Z.pow_pos_nonneg 2 idx_bits). lia. Qed.

Lemma null_true : private_idx_is_null idx_bits null = true.
Proof using Hbits. unfold private_idx_is_null. apply Z.eqb_refl. Qed.

Lemma null_false i : valid i -> private_idx_is_null idx_bits i = false.
Proof using Hbits. unfold valid, private_idx_is_null. intros. apply Z.eqb_neq. lia. Qed.

(** The list is cut in two: [a] is the link out of [l1] and [b] the link into
    [l2], which are in the header when a side is empty. *)
Record gap (s : dlist_t * pool_t) (l1 : list Z) (a b : Z) (l2 : list Z) : Prop := mk_gap {
  ga_left : seg s.2 null l1 a;
  ga_right : seg s.2 b l2 null;
  ga_head : head (s.1) = first a l1;
  ga_tail : tail (s.1) = final b l2;
  ga_nodup : NoDup (l1 ++ l2);
  ga_valid : Forall valid (l1 ++ l2);
}.

(** The list [l] is in the pool. *)
Definition dlist (s : dlist_t * pool_t) (l : list Z) : Prop := gap s [] (first null l) null l.

Lemma dlist_gap s l1 l2 : dlist s (l1 ++ l2) <-> gap s l1 (first null l2) (final null l1) l2.
Proof using Hbits.
  unfold dlist. split; intros [G1 G2 G3 G4 G5 G6]; cbn [app first] in *.
  - apply chain_app in G2 as [H1 H2]. split; try done; [by rewrite G3, first_app|by rewrite G4, final_app].
  - split; cbn [app first]; try done; [by apply chain_app|by rewrite G3, first_app|by rewrite G4, final_app].
Qed.

Lemma dlist_head s l : dlist s l -> head (s.1) = first null l.
Proof using Hbits. intros [_ _ H _ _ _]. done. Qed.

Lemma dlist_tail s l : dlist s l -> tail (s.1) = final null l.
Proof using Hbits. intros [_ _ _ H _ _]. done. Qed.

Lemma final_valid l : Forall valid l -> valid (final null l) \/ (final null l = null /\ l = []).
Proof using Hbits. intros H. destruct (last l) as [x|] eqn:E; unfold final; rewrite E; [|right; split; [done|by apply last_None]]. left. rewrite Forall_forall in H. apply H. by apply last_Some_elem_of. Qed.

Lemma first_valid l : Forall valid l -> valid (first null l) \/ (first null l = null /\ l = []).
Proof using Hbits. intros H. destruct l as [|x l]; [by right|left]. by apply Forall_cons in H as [? _]. Qed.

Lemma gap_ends s l1 a b l2 : gap s l1 a b l2 -> (valid (final null l1) \/ final null l1 = null) /\ (valid (first null l2) \/ first null l2 = null).
Proof using Hbits.
  intros G. pose proof (ga_valid _ _ _ _ _ G) as Hv. apply Forall_app in Hv as [Hv1 Hv2]. split; [destruct (final_valid l1 Hv1) as [?|[? _]]; auto|destruct (first_valid l2 Hv2) as [?|[? _]]; auto].
Qed.

(** Writing the link out of the left part. *)
Lemma store_next_ok s l1 a b l2 v : gap s l1 a b l2 -> valid v \/ v = null -> exists s', store_next idx_bits (final null l1) v s = Ok s' /\ gap s' l1 v b l2 /\ magic (s'.1) = magic (s.1) /\ forall x, x ∉ l1 -> s'.2 !! x = s.2 !! x.
Proof using Hbits.
  intros [G1 G2 G3 G4 G5 G6] Hv. apply Forall_app in G6 as G6'. destruct G6' as [Hv1 Hv2]. unfold store_next. destruct l1 as [|y l1 _] using rev_ind.
  - cbn [final last default from_option]. rewrite null_true. eexists. split; [done|]. split; [|done]. split; cbn; try done. by apply cidx_id.
  - rewrite final_snoc in *. apply Forall_app in Hv1 as [_ Hy]. apply Forall_cons in Hy as [Hy _]. rewrite null_false by done. apply chain_app in G1 as [H1 [H2 _]]. cbn [first] in H1, H2. unfold set_next, get. rewrite H2. cbn [deref mbind res_bind]. eexists. split; [done|]. cbn [next prev fst snd].
    assert (Hn : y ∉ l1 /\ y ∉ l2) by (apply NoDup_app in G5 as (N1 & N2 & _); apply NoDup_app in N1 as (_ & N1 & _); split; [intros Hin; by apply (N1 y Hin); left|apply N2, elem_of_app; right; by left]). destruct Hn as [Hn1 Hn2]. split; [|split; [done|]].
    + split; cbn [fst snd]; try done.
      * apply chain_app. split; [apply (seg_ext s.2); [|done]; intros x Hx; rewrite lookup_insert_ne; [done|by intros ->]|]. split; [|done]. rewrite lookup_insert_eq, cidx_id by done. done.
      * apply (seg_ext s.2); [|done]. intros x Hx. rewrite lookup_insert_ne; [done|by intros ->].
      * rewrite G3, !first_app. done.
    + intros x Hx. rewrite lookup_insert_ne; [done|]. intros ->. apply Hx, elem_of_app. right. by left.
Qed.

(** Writing the link into the right part. *)
Lemma store_prev_ok s l1 a b l2 v : gap s l1 a b l2 -> valid v \/ v = null -> exists s', store_prev idx_bits (first null l2) v s = Ok s' /\ gap s' l1 a v l2 /\ magic (s'.1) = magic (s.1) /\ forall x, x ∉ l2 -> s'.2 !! x = s.2 !! x.
Proof using Hbits.
  intros [G1 G2 G3 G4 G5 G6] Hv. apply Forall_app in G6 as G6'. destruct G6' as [Hv1 Hv2]. unfold store_prev. destruct l2 as [|y l2]; cbn [first].
  - rewrite null_true. eexists. split; [done|]. split; [|done]. split; cbn; try done. unfold final. cbn. by apply cidx_id.
  - apply Forall_cons in Hv2 as [Hy _]. rewrite null_false by done. cbn [seg] in G2. destruct G2 as [E G2]. unfold set_prev, get. rewrite E. cbn [deref mbind res_bind]. eexists. split; [done|]. cbn [next prev fst snd].
    apply NoDup_app in G5 as G5'. destruct G5' as (N1 & N2 & N3). apply NoDup_cons in N3 as [Hyl _]. split; [|split; [done|]].
    + split; cbn [fst snd]; try done.
      * apply (seg_ext s.2); [|done]. intros x Hx. rewrite lookup_insert_ne; [done|]. intros ->. apply (N2 x Hx). by left.
      * cbn [seg]. rewrite lookup_insert_eq, cidx_id by done. split; [done|]. apply (seg_ext s.2); [|done]. intros x Hx. rewrite lookup_insert_ne; [done|by intros ->].
      * rewrite G4, !final_cons. done.
    + intros x Hx. rewrite lookup_insert_ne; [done|]. intros ->. apply Hx. by left.
Qed.

(** An element with its links closes the gap, and a list opens at an element. *)
Lemma gap_close s l1 x l2 : gap s l1 x x l2 -> valid x -> x ∉ l1 ++ l2 -> s.2 !! x = Some (mk_node (final null l1) (first null l2)) -> dlist s (l1 ++ x :: l2).
Proof using Hbits.
  intros [G1 G2 G3 G4 G5 G6] Hx Hn E. apply dlist_gap. split; cbn [first]; try done; [by rewrite final_cons| |].
  - apply NoDup_app in G5 as (N1 & N2 & N3). rewrite elem_of_app in Hn. apply NoDup_app. split; [done|]. split; [|apply NoDup_cons; tauto]. intros y Hy [->|Hy2]%elem_of_cons; [tauto|by apply (N2 y)].
  - apply Forall_app in G6 as [V1 V2]. apply Forall_app. split; [done|]. by apply Forall_cons.
Qed.

Lemma gap_open s l1 x l2 : dlist s (l1 ++ x :: l2) -> s.2 !! x = Some (mk_node (final null l1) (first null l2)) /\ gap s l1 x x l2 /\ valid x /\ x ∉ l1 ++ l2.
Proof using Hbits.
  intros H. apply (proj1 (dlist_gap _ _ _)) in H as [G1 G2 G3 G4 G5 G6]. cbn [first seg] in *. destruct G2 as [E G2]. split; [done|]. apply NoDup_app in G5 as (N1 & N2 & N3). apply NoDup_cons in N3 as [Hx2 N3]. apply Forall_app in G6 as [V1 V2]. apply Forall_cons in V2 as [Hx V2]. split; [|split; [done|]].
  - rewrite final_cons in G4. split; try done; [|by apply Forall_app]. apply NoDup_app. split; [done|]. split; [|done]. intros y Hy Hy2. apply (N2 y Hy). by right.
  - rewrite elem_of_app. intros [Hx1|?]; [|done]. apply (N2 x Hx1). by left.
Qed.

(** Writing the links of an element outside of the list. *)
Lemma set_links_ok d p i a b l1 l2 u w : gap (d, p) l1 u w l2 -> i ∉ l1 ++ l2 -> is_Some (p !! i) -> valid a \/ a = null -> valid b \/ b = null ->
  exists p', set_links idx_bits i a b p = Ok p' /\ p' !! i = Some (mk_node a b) /\ gap (d, p') l1 u w l2 /\ forall x, x <> i -> p' !! x = p !! x.
Proof using Hbits.
  intros [G1 G2 G3 G4 G5 G6] Hi [n En] Ha Hb. unfold set_links, set_prev, set_next, get. rewrite En. cbn [deref mbind res_bind]. rewrite lookup_insert_eq. cbn [deref mbind res_bind next prev]. rewrite !cidx_id by done. eexists. split; [done|]. split; [by rewrite lookup_insert_eq|].
  assert (Hne : forall x, x <> i -> <[i := mk_node a b]> (<[i := mk_node a (next n)]> p) !! x = p !! x) by (intros x Hx; by rewrite !lookup_insert_ne by done). split; [|done]. rewrite elem_of_app in Hi.
  split; cbn [fst snd] in *; try done; (apply (seg_ext p); [|done]); intros x Hx; rewrite Hne; try done; intros ->; tauto.
Qed.

(** ** Every operation *)

(** What an operation leaves of the pool: its domain, and the elements that are
    neither in the list nor given to it. *)
Definition keeps_pool (l : list Z) (p p' : pool_t) : Prop := dom p' = dom p /\ forall x, x ∉ l -> p' !! x = p !! x.

Lemma set_dom i v p p' : set_prev idx_bits i v p = Ok p' \/ set_next idx_bits i v p = Ok p' -> dom p' = dom p.
Proof using Hbits.
  unfold set_prev, set_next, get. destruct (p !! i) eqn:E; cbn; [|by intros [?|?]]. intros [[= <-]|[= <-]]; rewrite dom_insert_L; apply elem_of_dom_2 in E; set_solver.
Qed.

Lemma store_dom i v s s' : store_prev idx_bits i v s = Ok s' \/ store_next idx_bits i v s = Ok s' -> dom (s'.2) = dom (s.2).
Proof using Hbits.
  unfold store_prev, store_next. destruct (private_idx_is_null idx_bits i); cbn; [by intros [[= <-]|[= <-]]|]. intros [E|E].
  - destruct (set_prev idx_bits i v s.2) as [p'| | |] eqn:E1; try done. cbn in E. injection E as <-. apply (set_dom i v). by left.
  - destruct (set_next idx_bits i v s.2) as [p'| | |] eqn:E1; try done. cbn in E. injection E as <-. apply (set_dom i v). by right.
Qed.

Lemma set_links_dom i a b p p' : set_links idx_bits i a b p = Ok p' -> dom p' = dom p.
Proof using Hbits.
  unfold set_links. destruct (set_prev idx_bits i a p) as [p1| | |] eqn:E1; try done. cbn. intros E2. rewrite (set_dom i b p1 p') by (by right). apply (set_dom i a). by left.
Qed.

(** Linking an element between the two parts: the links of the element, then the
    one out of the left part and the one into the right part, in any order. *)
Lemma link_between d p i l1 l2 : dlist (d, p) (l1 ++ l2) -> valid i -> i ∉ l1 ++ l2 -> is_Some (p !! i) ->
  exists p1, set_links idx_bits i (final null l1) (first null l2) p = Ok p1 /\ gap (d, p1) l1 (first null l2) (final null l1) l2 /\ (forall x, x <> i -> p1 !! x = p !! x) /\
    (exists s2 s3, store_next idx_bits (final null l1) i (d, p1) = Ok s2 /\ store_prev idx_bits (first null l2) i s2 = Ok s3 /\ dlist s3 (l1 ++ i :: l2) /\ magic (s3.1) = magic d /\ keeps_pool (i :: l1 ++ l2) p (s3.2)) /\
    (exists s2 s3, store_prev idx_bits (first null l2) i (d, p1) = Ok s2 /\ store_next idx_bits (final null l1) i s2 = Ok s3 /\ dlist s3 (l1 ++ i :: l2) /\ magic (s3.1) = magic d /\ keeps_pool (i :: l1 ++ l2) p (s3.2)).
Proof using Hbits.
  intros D Hi Hn He. apply (proj1 (dlist_gap _ _ _)) in D as G. destruct (gap_ends _ _ _ _ _ G) as [Ha Hb].
  destruct (set_links_ok d p i _ _ l1 l2 _ _ G Hn He Ha Hb) as (p1 & E1 & Ei & G1 & Hk1). exists p1. pose proof (set_links_dom _ _ _ _ _ E1) as Hd1. rewrite elem_of_app in Hn. split; [done|]. split; [done|]. split; [done|]. split.
  - destruct (store_next_ok _ _ _ _ _ i G1 (or_introl Hi)) as (s2 & E2 & G2 & M2 & K2). destruct (store_prev_ok _ _ _ _ _ i G2 (or_introl Hi)) as (s3 & E3 & G3 & M3 & K3). exists s2, s3. split; [done|]. split; [done|]. split; [|split; [by rewrite M3, M2|split]].
    + apply gap_close; try done; [by rewrite elem_of_app|]. rewrite K3, K2 by tauto. done.
    + rewrite (store_dom _ _ s2 s3) by (by left). rewrite (store_dom _ _ (d, p1) s2) by (by right). done.
    + intros x Hx. rewrite elem_of_cons, elem_of_app in Hx. rewrite K3, K2 by tauto. apply Hk1. tauto.
  - destruct (store_prev_ok _ _ _ _ _ i G1 (or_introl Hi)) as (s2 & E2 & G2 & M2 & K2). destruct (store_next_ok _ _ _ _ _ i G2 (or_introl Hi)) as (s3 & E3 & G3 & M3 & K3). exists s2, s3. split; [done|]. split; [done|]. split; [|split; [by rewrite M3, M2|split]].
    + apply gap_close; try done; [by rewrite elem_of_app|]. rewrite K3, K2 by tauto. done.
    + rewrite (store_dom _ _ s2 s3) by (by right). rewrite (store_dom _ _ (d, p1) s2) by (by left). done.
    + intros x Hx. rewrite elem_of_cons, elem_of_app in Hx. rewrite K3, K2 by tauto. apply Hk1. tauto.
Qed.

(** Taking an element out: its neighbours are linked. *)
Lemma unlink_between d p i l1 l2 : dlist (d, p) (l1 ++ i :: l2) ->
  p !! i = Some (mk_node (final null l1) (first null l2)) /\
  (exists s2 s3, store_prev idx_bits (first null l2) (final null l1) (d, p) = Ok s2 /\ store_next idx_bits (final null l1) (first null l2) s2 = Ok s3 /\ dlist s3 (l1 ++ l2) /\ magic (s3.1) = magic d /\ keeps_pool (l1 ++ l2) p (s3.2)) /\
  (exists s2 s3, store_next idx_bits (final null l1) (first null l2) (d, p) = Ok s2 /\ store_prev idx_bits (first null l2) (final null l1) s2 = Ok s3 /\ dlist s3 (l1 ++ l2) /\ magic (s3.1) = magic d /\ keeps_pool (l1 ++ l2) p (s3.2)).
Proof using Hbits.
  intros D. destruct (gap_open _ _ _ _ D) as (E & G & Hi & Hn). split; [done|]. destruct (gap_ends _ _ _ _ _ G) as [Ha Hb]. split.
  - destruct (store_prev_ok _ _ _ _ _ _ G Ha) as (s2 & E2 & G2 & M2 & K2). destruct (store_next_ok _ _ _ _ _ _ G2 Hb) as (s3 & E3 & G3 & M3 & K3). exists s2, s3. split; [done|]. split; [done|]. split; [by apply dlist_gap|]. split; [by rewrite M3, M2|]. split.
    + rewrite (store_dom _ _ s2 s3) by (by right). by rewrite (store_dom _ _ (d, p) s2) by (by left).
    + intros x Hx. rewrite elem_of_app in Hx. by rewrite K3, K2 by tauto.
  - destruct (store_next_ok _ _ _ _ _ _ G Hb) as (s2 & E2 & G2 & M2 & K2). destruct (store_prev_ok _ _ _ _ _ _ G2 Ha) as (s3 & E3 & G3 & M3 & K3). exists s2, s3. split; [done|]. split; [done|]. split; [by apply dlist_gap|]. split; [by rewrite M3, M2|]. split.
    + rewrite (store_dom _ _ s2 s3) by (by left). by rewrite (store_dom _ _ (d, p) s2) by (by right).
    + intros x Hx. rewrite elem_of_app in Hx. by rewrite K3, K2 by tauto.
Qed.

(** ** Runs *)

Inductive op := PushHead (i : Z) | PushTail (i : Z) | PopHead | PopTail | InsertBefore (i y : Z) | InsertAfter (i y : Z) | Remove (i : Z) | Replace (i old : Z) | RemoveAll.

(** The state and the element a pop returns. *)
Definition dl_step (o : op) (s : dlist_t * pool_t) : res (dlist_t * pool_t * option Z) :=
  match o with
  | PushHead i => s ← idx_push_head idx_bits i s.1 s.2; Ok (s, None)
  | PushTail i => s ← idx_push_tail idx_bits i s.1 s.2; Ok (s, None)
  | PopHead => '(x, d, p) ← idx_pop_head idx_bits s.1 s.2; Ok (d, p, Some x)
  | PopTail => '(x, d, p) ← idx_pop_tail idx_bits s.1 s.2; Ok (d, p, Some x)
  | InsertBefore i y => s ← idx_insert_before idx_bits i y s.1 s.2; Ok (s, None)
  | InsertAfter i y => s ← idx_insert_after idx_bits i y s.1 s.2; Ok (s, None)
  | Remove i => s ← idx_remove idx_bits i s.1 s.2; Ok (s, None)
  | Replace i y => s ← idx_replace idx_bits i y s.1 s.2; Ok (s, None)
  | RemoveAll => Ok (remove_all idx_bits s.1, s.2, None)
  end.

(** The same on sequences; [put y r] puts [r] in the place of [y]. *)
Definition put (y : Z) (r l : list Z) : list Z := l ≫= fun z => if z =? y then r else [z].

Definition spec_step (o : op) (l : list Z) : list Z * option Z :=
  match o with
  | PushHead i => (i :: l, None)
  | PushTail i => (l ++ [i], None)
  | PopHead => (tl l, list.head l)
  | PopTail => (removelast l, last l)
  | InsertBefore i y => (put y [i; y] l, None)
  | InsertAfter i y => (put y [y; i] l, None)
  | Remove i => (put i [] l, None)
  | Replace i y => (put y [i] l, None)
  | RemoveAll => ([], None)
  end.

(** What the caller guarantees: new elements are in the pool and not in the list,
    the other ones are in the list. *)
Definition fresh (D : gset Z) (l : list Z) (i : Z) : Prop := valid i /\ i ∈ D /\ i ∉ l.

Definition op_ok (D : gset Z) (l : list Z) (o : op) : Prop :=
  match o with
  | PushHead i | PushTail i => fresh D l i
  | PopHead | PopTail => l <> []
  | InsertBefore i y | InsertAfter i y | Replace i y => fresh D l i /\ y ∈ l
  | Remove i => i ∈ l
  | RemoveAll => True
  end.

Lemma put_split y r l1 l2 : y ∉ l1 ++ l2 -> put y r (l1 ++ y :: l2) = l1 ++ r ++ l2.
Proof using Hbits.
  assert (Hid : forall l : list Z, y ∉ l -> put y r l = l).
  { induction l as [|z l IH]; intros Hy; [done|]. apply not_elem_of_cons in Hy as [Hz Hy]. unfold put in *. cbn [mbind list_bind]. rewrite (proj2 (Z.eqb_neq z y)) by done. cbn. f_equal. by apply IH. }
  intros Hy. rewrite elem_of_app in Hy. unfold put in *. rewrite bind_app, Hid by tauto. cbn [mbind list_bind]. rewrite Z.eqb_refl. f_equal. f_equal. apply Hid. tauto.
Qed.

Lemma dlist_split s l y : dlist s l -> y ∈ l -> exists l1 l2, l = l1 ++ y :: l2 /\ y ∉ l1 ++ l2.
Proof using Hbits. intros D (l1 & l2 & ->)%list_elem_of_split. exists l1, l2. split; [done|]. by destruct (gap_open _ _ _ _ D) as (_ & _ & _ & ?). Qed.

Lemma dlist_empty d p : dlist (remove_all idx_bits d, p) [].
Proof using Hbits. split; [done|done| | |constructor|constructor]; cbn [fst remove_all set_tail set_head head tail first final last default from_option]; by rewrite cidx_id by (by right). Qed.

Lemma dl_step_ok o s l : dlist s l -> op_ok (dom (s.2)) l o -> exists s', dl_step o s = Ok (s', (spec_step o l).2) /\ dlist s' (spec_step o l).1 /\ dom (s'.2) = dom (s.2).
Proof using Hbits.
  destruct s as [d p]. cbn [fst snd]. intros D Hop. destruct o as [i|i| | |i y|i y|i|i y|]; cbn [dl_step spec_step op_ok fst snd] in *.
  - destruct Hop as (Hi & Hd & Hn). apply elem_of_dom in Hd. destruct (link_between d p i [] l D Hi Hn Hd) as (p1 & E1 & _ & _ & _ & (s2 & s3 & E2 & E3 & D3 & _ & [Hd3 _])).
    unfold idx_push_head. rewrite (dlist_head _ _ D : head d = _). cbn [fst final last default from_option] in *. rewrite E1. cbn [mbind res_bind]. rewrite E2. destruct s2 as [d2 p2]. cbn [mbind res_bind]. unfold store_next in E3. rewrite null_true in E3. injection E3 as <-. by eexists.
  - destruct Hop as (Hi & Hd & Hn). apply elem_of_dom in Hd. rewrite <- (app_nil_r l) in D, Hn. destruct (link_between d p i l [] D Hi Hn Hd) as (p1 & E1 & _ & _ & (s2 & s3 & E2 & E3 & D3 & _ & [Hd3 _]) & _).
    unfold idx_push_tail. rewrite (dlist_tail _ _ D : tail d = _), app_nil_r. cbn [fst first] in *. rewrite E1. cbn [mbind res_bind]. rewrite E2. destruct s2 as [d2 p2]. cbn [mbind res_bind]. unfold store_prev in E3. rewrite null_true in E3. injection E3 as <-. by eexists.
  - destruct l as [|x l]; [done|]. destruct (unlink_between d p x [] l D) as (E & (s2 & s3 & E2 & E3 & D3 & _ & [Hd3 _]) & _).
    unfold idx_pop_head, get. rewrite (dlist_head _ _ D : head d = _). cbn [fst first]. rewrite E. cbn [deref mbind res_bind next]. cbn [final last default from_option] in E2, E3. rewrite E2. destruct s2 as [d2 p2]. cbn [mbind res_bind]. unfold store_next in E3. rewrite null_true in E3. injection E3 as <-. by eexists.
  - destruct l as [|x l _] using rev_ind; [done|]. destruct (unlink_between d p x l [] D) as (E & _ & (s2 & s3 & E2 & E3 & D3 & _ & [Hd3 _])). rewrite app_nil_r in D3.
    unfold idx_pop_tail, get. rewrite (dlist_tail _ _ D : tail d = _), final_snoc. rewrite E. cbn [deref mbind res_bind prev]. cbn [first] in E2, E3. rewrite E2. destruct s2 as [d2 p2]. cbn [mbind res_bind]. unfold store_prev in E3. rewrite null_true in E3. injection E3 as <-. rewrite last_snoc, removelast_last. by eexists.
  - destruct Hop as ((Hi & Hd & Hn) & Hy). apply elem_of_dom in Hd. destruct (dlist_split _ _ _ D Hy) as (l1 & l2 & -> & Hyn). rewrite put_split by done. destruct (gap_open _ _ _ _ D) as (Ey & _ & Hyv & _).
    destruct (link_between d p i l1 (y :: l2) D Hi Hn Hd) as (p1 & E1 & _ & _ & _ & (s2 & s3 & E2 & E3 & D3 & _ & [Hd3 _])). unfold idx_insert_before, get. cbn [snd] in Ey. rewrite Ey. cbn [deref mbind res_bind prev first] in *. rewrite E1. cbn [mbind res_bind].
    unfold store_prev in E2. rewrite null_false in E2 by done. cbn [fst snd] in E2. destruct (set_prev idx_bits y i p1) as [p2| | |]; try done. cbn [mbind res_bind] in E2 |- *. injection E2 as <-. rewrite E3. by eexists.
  - destruct Hop as ((Hi & Hd & Hn) & Hy). apply elem_of_dom in Hd. destruct (dlist_split _ _ _ D Hy) as (l1 & l2 & -> & Hyn). rewrite put_split by done. destruct (gap_open _ _ _ _ D) as (Ey & _ & Hyv & _).
    assert (Eapp : l1 ++ y :: l2 = (l1 ++ [y]) ++ l2) by (by rewrite <- app_assoc). rewrite Eapp in D, Hn. destruct (link_between d p i (l1 ++ [y]) l2 D Hi Hn Hd) as (p1 & E1 & _ & _ & (s2 & s3 & E2 & E3 & D3 & _ & [Hd3 _]) & _).
    unfold idx_insert_after, get. cbn [snd] in Ey. rewrite Ey. cbn [deref mbind res_bind next]. rewrite final_snoc in *. rewrite E1. cbn [mbind res_bind]. unfold store_next in E2. rewrite null_false in E2 by done. cbn [fst snd] in E2. destruct (set_next idx_bits y i p1) as [p2| | |]; try done.
    cbn [mbind res_bind] in E2 |- *. injection E2 as <-. rewrite E3. rewrite <- app_assoc in D3. by eexists.
  - destruct (dlist_split _ _ _ D Hop) as (l1 & l2 & -> & Hyn). rewrite put_split by done. destruct (unlink_between d p i l1 l2 D) as (E & (s2 & s3 & E2 & E3 & D3 & _ & [Hd3 _]) & _). unfold idx_remove, get. rewrite E. cbn [deref mbind res_bind prev next]. rewrite E2. destruct s2 as [d2 p2]. cbn [mbind res_bind]. rewrite E3. by eexists.
  - destruct Hop as ((Hi & Hd & Hn) & Hy). apply elem_of_dom in Hd. destruct (dlist_split _ _ _ D Hy) as (l1 & l2 & -> & Hyn). rewrite put_split by done. cbn [app]. destruct (gap_open _ _ _ _ D) as (Ey & G & _ & _). destruct (gap_ends _ _ _ _ _ G) as [Ha Hb].
    assert (Hn' : i ∉ l1 ++ l2) by (rewrite elem_of_app in Hn |- *; rewrite elem_of_cons in Hn; tauto). destruct (set_links_ok d p i _ _ l1 l2 _ _ G Hn' Hd Ha Hb) as (p1 & E1 & Ei & G1 & _). unfold idx_replace, get. cbn [snd] in Ey. rewrite Ey. cbn [deref mbind res_bind prev next]. rewrite E1. cbn [mbind res_bind].
    destruct (store_prev_ok _ _ _ _ _ i G1 (or_introl Hi)) as (s2 & E2 & G2 & _ & K2). destruct (store_next_ok _ _ _ _ _ i G2 (or_introl Hi)) as (s3 & E3 & G3 & _ & K3). rewrite E2. destruct s2 as [d2 p2]. cbn [mbind res_bind]. rewrite E3. cbn [mbind res_bind]. exists s3. split; [done|]. rewrite elem_of_app in Hn'. split.
    + apply gap_close; try done; [by rewrite elem_of_app|]. rewrite K3, K2 by tauto. done.
    + rewrite (store_dom _ _ _ _ (or_intror E3)), (store_dom _ _ _ _ (or_introl E2)). by apply set_links_dom in E1.
  - eexists. split; [done|]. split; [apply dlist_empty|done].
Qed.

Fixpoint dl_run (ops : list op) (s : dlist_t * pool_t) : res (dlist_t * pool_t * list (option Z)) :=
  match ops with
  | [] => Ok (s, [])
  | o :: ops => '(s, r) ← dl_step o s; '(s, rs) ← dl_run ops s; Ok (s, r :: rs)
  end.

Fixpoint spec_run (ops : list op) (l : list Z) : list Z * list (option Z) :=
  match ops with
  | [] => (l, [])
  | o :: ops => let '(l, r) := spec_step o l in let '(l, rs) := spec_run ops l in (l, r :: rs)
  end.

Fixpoint run_ok (D : gset Z) (l : list Z) (ops : list op) : Prop :=
  match ops with [] => True | o :: ops => op_ok D l o /\ run_ok D (spec_step o l).1 ops end.

Lemma dl_run_ok ops s l : dlist s l -> run_ok (dom (s.2)) l ops -> exists s', dl_run ops s = Ok (s', (spec_run ops l).2) /\ dlist s' (spec_run ops l).1 /\ dom (s'.2) = dom (s.2).
Proof using Hbits.
  revert s l. induction ops as [|o ops IH]; intros s l D; cbn [run_ok]; [intros _; by exists s|]. intros [Ho Hr]. destruct (dl_step_ok o s l D Ho) as (s1 & E1 & D1 & Hd1). rewrite <- Hd1 in Hr. destruct (IH s1 _ D1 Hr) as (s2 & E2 & D2 & Hd2). exists s2. cbn [dl_run spec_run]. rewrite E1. cbn [mbind res_bind]. rewrite E2. cbn [mbind res_bind].
  destruct (spec_step o l) as [l1 r]. cbn [fst snd] in *. destruct (spec_run ops l1) as [l2 rs]. cbn [fst snd] in *. split; [done|]. split; [done|congruence].
Qed.

(** ** Iterations that remove elements *)

(** The body records the element and removes it when [f] holds of it. *)
Definition sweep (f : Z -> bool) (x : Z) (s : list Z * dlist_t * pool_t) : res (list Z * dlist_t * pool_t) :=
  let '(acc, d, p) := s in
  if f x then '(d, p) ← idx_remove idx_bits x d p; Ok (acc ++ [x], d, p) else Ok (acc ++ [x], d, p).

Abbreviation sweep_fwd f n d s := (iterate idx_bits iter_fwd_next (sweep f) n (iter_fwd_init d) s).
Abbreviation sweep_rev f n d s := (iterate idx_bits iter_rev_next (sweep f) n (iter_rev_init d) s).

(** One turn: whatever the body does, the links of the element stay. *)
Lemma sweep_ok f d p acc l1 x l2 : dlist (d, p) (l1 ++ x :: l2) ->
  exists d' p', sweep f x (acc, d, p) = Ok (acc ++ [x], d', p') /\ dlist (d', p') (l1 ++ (if f x then [] else [x]) ++ l2) /\ p' !! x = Some (mk_node (final null l1) (first null l2)) /\ magic d' = magic d.
Proof using Hbits.
  intros D. unfold sweep. destruct (gap_open _ _ _ _ D) as (E & _ & _ & Hn). cbn [snd] in E. destruct (f x); [|by exists d, p].
  destruct (unlink_between d p x l1 l2 D) as (_ & (s2 & [d3 p3] & E2 & E3 & D3 & M3 & [_ K]) & _). unfold idx_remove, get. rewrite E. cbn [deref mbind res_bind prev next]. rewrite E2. destruct s2 as [d2 p2]. cbn [mbind res_bind]. rewrite E3. cbn [mbind res_bind]. exists d3, p3. split; [done|]. split; [done|]. split; [|done]. rewrite (K x Hn : p3 !! x = p !! x). done.
Qed.

Lemma sweep_fwd_ok f l : forall kept acc d p n, dlist (d, p) (kept ++ l) -> (length l <= n)%nat ->
  exists d' p', iterate idx_bits iter_fwd_next (sweep f) n (first null l) (acc, d, p) = Ok (acc ++ l, d', p') /\ dlist (d', p') (kept ++ filter (fun x => f x = false) l) /\ magic d' = magic d.
Proof using Hbits.
  induction l as [|x l IH]; intros kept acc d p n D Hn; cbn [first].
  - exists d, p. rewrite app_nil_r. destruct n; cbn [iterate]; unfold iter_done; rewrite null_true; done.
  - destruct n as [|n]; [cbn in Hn; lia|]. destruct (gap_open _ _ _ _ D) as (_ & _ & Hx & _). cbn [iterate]. unfold iter_done. rewrite null_false by done. destruct (sweep_ok f d p acc kept x l D) as (d1 & p1 & -> & D1 & E1 & M1). cbn [mbind res_bind snd].
    assert (Enx : iter_fwd_next x p1 = Ok (first null l)) by (unfold iter_fwd_next, get; by rewrite E1). rewrite Enx. cbn [mbind res_bind].
    rewrite app_assoc in D1. destruct (IH _ (acc ++ [x]) d1 p1 n D1 ltac:(cbn in Hn; lia)) as (d2 & p2 & E2 & D2 & M2). exists d2, p2. rewrite E2, <- app_assoc. split; [done|]. split; [|congruence]. rewrite filter_cons. rewrite <- app_assoc in D2. destruct (f x) eqn:Ef; [rewrite decide_False by congruence|rewrite decide_True by done]; done.
Qed.

Lemma sweep_rev_ok f l : forall kept acc d p n, dlist (d, p) (l ++ kept) -> (length l <= n)%nat ->
  exists d' p', iterate idx_bits iter_rev_next (sweep f) n (final null l) (acc, d, p) = Ok (acc ++ rev l, d', p') /\ dlist (d', p') (filter (fun x => f x = false) l ++ kept) /\ magic d' = magic d.
Proof using Hbits.
  induction l as [|x l IH] using rev_ind; intros kept acc d p n D Hn.
  - exists d, p. rewrite app_nil_r. unfold final. destruct n; cbn [iterate last default from_option]; unfold iter_done; rewrite null_true; done.
  - rewrite length_app in Hn. destruct n as [|n]; [cbn in Hn; lia|]. rewrite <- app_assoc in D. cbn [app] in D. destruct (gap_open _ _ _ _ D) as (_ & _ & Hx & _). cbn [iterate]. rewrite final_snoc. unfold iter_done. rewrite null_false by done. destruct (sweep_ok f d p acc l x kept D) as (d1 & p1 & -> & D1 & E1 & M1). cbn [mbind res_bind snd].
    assert (Epv : iter_rev_next x p1 = Ok (final null l)) by (unfold iter_rev_next, get; by rewrite E1). rewrite Epv. cbn [mbind res_bind].
    destruct (IH _ (acc ++ [x]) d1 p1 n D1 ltac:(cbn in Hn; lia)) as (d2 & p2 & E2 & D2 & M2). exists d2, p2. rewrite E2, rev_app_distr, <- app_assoc. split; [done|]. split; [|congruence]. rewrite filter_app, <- app_assoc, filter_cons, filter_nil. destruct (f x) eqn:Ef; [rewrite decide_False by congruence|rewrite decide_True by done]; done.
Qed.

(** An iteration that removes nothing leaves the list and the pool. *)
Lemma sweep_none it nxt : forall n acc d p r d' p', iterate idx_bits nxt (sweep (fun _ => false)) n it (acc, d, p) = Ok (r, d', p') -> d' = d /\ p' = p.
Proof using Hbits.
  intros n. revert it. induction n as [|n IH]; intros it acc d p r d' p'; cbn [iterate]; destruct (iter_done idx_bits it); try (by intros [= _ <- <-]). cbn [sweep mbind res_bind snd]. destruct (nxt it p) as [it'| | |]; cbn [mbind res_bind]; try done. apply IH.
Qed.

(** ** [verify] *)

(** A chain that starts at the null index and has its reverse links does not
    come back to an element. *)
Lemma seg_no_loop p a l1 : forall x l2 l3, Forall valid (l1 ++ x :: l2 ++ x :: l3) -> seg p null (l1 ++ x :: l2 ++ x :: l3) a -> False.
Proof using Hbits.
  induction l1 as [|y l1 IH] using rev_ind; intros x l2 l3 Hv Hs.
  - cbn [app seg] in Hs. destruct Hs as [E Hs]. apply chain_app in Hs as [_ [E' _]]. rewrite E in E'. injection E' as E' _. cbn [app] in Hv. apply Forall_cons in Hv as [Hx Hv]. apply Forall_app in Hv as [Hv _]. revert E'. unfold final. destruct (last l2) as [z|] eqn:Ez; cbn.
    + intros <-. rewrite Forall_forall in Hv. apply last_Some_elem_of, Hv in Ez. unfold valid in Ez. lia.
    + intros <-. unfold valid in Hx. lia.
  - assert (Eq : y = final x l2).
    { apply chain_app in Hs as [_ Hs]. rewrite final_snoc in Hs. cbn [seg] in Hs. destruct Hs as [E Hs]. apply chain_app in Hs as [_ [E' _]]. rewrite E in E'. by injection E'. }
    destruct l2 as [|z l2 _] using rev_ind.
    + cbn in Eq. subst y. apply (IH x [] (x :: l3)); rewrite <- app_assoc in Hv, Hs; done.
    + rewrite final_snoc in Eq. subst z. apply (IH y (x :: l2) (x :: l3)); rewrite <- !app_assoc in Hv, Hs; done.
Qed.

Lemma seg_NoDup p l a : Forall valid l -> seg p null l a -> NoDup l.
Proof using Hbits.
  intros Hv Hs. apply NoDup_alt. intros i j x Hi Hj. destruct (decide (i = j)) as [->|Hij]; [done|exfalso].
  assert (Hlt : forall i j, (i < j)%nat -> l !! i = Some x -> l !! j = Some x -> False).
  { clear i j Hi Hj Hij. intros i j Hij Hi Hj. rewrite <- (take_drop_middle l i x Hi) in Hj. rewrite lookup_app_r in Hj by (rewrite length_take; lia). rewrite length_take in Hj. apply lookup_lt_Some in Hi as Hlen. destruct (j - i `min` length l)%nat as [|k] eqn:Ek; [lia|]. cbn in Hj. apply list_elem_of_lookup_2 in Hj as Hin. apply list_elem_of_split in Hin as (l2 & l3 & E).
    apply (seg_no_loop p a (take i l) x l2 l3); rewrite <- E, (take_drop_middle l i x Hi); done. }
  destruct (decide (i < j)%nat); [apply (Hlt i j)|apply (Hlt j i)]; try done; lia.
Qed.

(** The pool has [ele_cnt] elements, with links of the width. *)
Definition pool_wf (ele_cnt : Z) (p : pool_t) : Prop := forall i, 0 <= i < ele_cnt -> exists n, p !! i = Some n /\ 0 <= prev n <= null /\ 0 <= next n <= null.

Lemma verify_from_total ele_cnt p : pool_wf ele_cnt p -> forall n rem prev_idx ele_idx, 0 <= ele_idx <= null -> (Z.to_nat rem < n)%nat -> 0 <= rem -> exists o, verify_from idx_bits n ele_cnt p rem prev_idx ele_idx = Ok o.
Proof using Hbits.
  intros Hp. induction n as [|n IH]; intros rem prev_idx ele_idx He Hn Hr; [lia|]. cbn [verify_from]. destruct (private_idx_is_null idx_bits ele_idx); [by eexists|]. destruct (rem =? 0) eqn:Er; [by eexists|]. destruct (ele_idx <? ele_cnt) eqn:Ee; cbn [negb]; [|by eexists].
  destruct (Hp ele_idx ltac:(lia)) as (e & Ee' & _ & Hnx). unfold get. rewrite Ee'. cbn [deref mbind res_bind]. destruct (prev e =? prev_idx); cbn [negb]; [|by eexists]. apply IH; lia.
Qed.

Lemma verify_from_sound ele_cnt p : pool_wf ele_cnt p -> ele_cnt <= null -> forall n rem prev_idx ele_idx b, 0 <= ele_idx <= null -> verify_from idx_bits n ele_cnt p rem prev_idx ele_idx = Ok (Some b) ->
  exists l, ele_idx = first null l /\ b = final prev_idx l /\ seg p prev_idx l null /\ Forall (fun x => 0 <= x < ele_cnt) l.
Proof using Hbits.
  intros Hp Hc. induction n as [|n IH]; intros rem prev_idx ele_idx b He; cbn [verify_from]; unfold private_idx_is_null; (destruct (ele_idx =? null) eqn:E0; [intros [= <-]; exists []; split; [cbn; lia|done]|]); [done|].
  destruct (rem =? 0); [done|]. destruct (ele_idx <? ele_cnt) eqn:Ee; cbn [negb]; [|done]. destruct (Hp ele_idx ltac:(lia)) as (e & Ee' & _ & Hnx). unfold get. rewrite Ee'. cbn [deref mbind res_bind]. destruct (prev e =? prev_idx) eqn:Ep; cbn [negb]; [|done].
  intros Hb. destruct (IH _ _ _ _ Hnx Hb) as (l & E1 & E2 & Hs & Hv). exists (ele_idx :: l). split; [done|]. rewrite final_cons. split; [done|]. split; [|constructor; [lia|done]]. cbn [seg]. split; [|done]. rewrite Ee', <- E1. apply Z.eqb_eq in Ep. rewrite <- Ep. by destruct e.
Qed.

Lemma verify_from_complete ele_cnt p l : forall n rem prev_idx, seg p prev_idx l null -> Forall (fun x => 0 <= x < ele_cnt) l -> ele_cnt <= null -> Z.of_nat (length l) <= rem -> (length l <= n)%nat -> verify_from idx_bits n ele_cnt p rem prev_idx (first null l) = Ok (Some (final prev_idx l)).
Proof using Hbits.
  induction l as [|x l IH]; intros n rem prev_idx Hs Hv Hc Hr Hn; cbn [first].
  - destruct n; cbn [verify_from]; rewrite null_true; done.
  - cbn [length] in *. apply Forall_cons in Hv as [Hx Hv]. destruct n as [|n]; [lia|]. cbn [verify_from]. rewrite null_false by (unfold valid; lia). rewrite (proj2 (Z.eqb_neq rem 0)) by lia. rewrite (proj2 (Z.ltb_lt x ele_cnt)) by lia. destruct Hs as [E Hs]. unfold get. rewrite E. cbn [negb deref mbind res_bind prev next]. rewrite Z.eqb_refl. cbn [negb]. rewrite final_cons. apply IH; try done; lia.
Qed.

Lemma bounded_length l n : 0 <= n -> NoDup l -> Forall (fun x => 0 <= x < n) l -> Z.of_nat (length l) <= n.
Proof using Hbits.
  intros Hn Hd Hv. assert (Hs : l ⊆+ seqZ 0 n) by (apply NoDup_submseteq; [done|]; intros x Hx; rewrite Forall_forall in Hv; apply Hv in Hx; apply elem_of_seqZ; lia). apply submseteq_length in Hs. rewrite length_seqZ in Hs. lia.
Qed.

(** What [verify] decides. *)
Definition well_formed (d : dlist_t) (ele_cnt : Z) (p : pool_t) : Prop := ele_cnt <= null /\ magic d = DLIST_MAGIC /\ exists l, dlist (d, p) l /\ Forall (fun x => 0 <= x < ele_cnt) l.

Lemma verify_decides d ele_cnt p : 0 <= ele_cnt -> 0 <= head d <= null -> pool_wf ele_cnt p -> exists b, verify idx_bits (Some d) ele_cnt (Some p) = Ok b /\ (b = true <-> well_formed d ele_cnt p).
Proof using Hbits.
  intros Hc Hh Hp. unfold verify, well_formed. destruct (ele_cnt <=? null) eqn:Ec; cbn [negb]; [|exists false; split; [done|]; split; [done|lia]]. destruct (magic d =? DLIST_MAGIC) eqn:Em; cbn [negb]; [|exists false; split; [done|]; split; [done|lia]].
  cbn [from_option id]. destruct (verify_from_total ele_cnt p Hp (S (Z.to_nat ele_cnt)) ele_cnt null (head d) Hh ltac:(lia) Hc) as [o Eo]. rewrite Eo. cbn [mbind res_bind].
  assert (Hco : forall l, dlist (d, p) l -> Forall (fun x => 0 <= x < ele_cnt) l -> o = Some (final null l)).
  { intros l D Hv. pose proof (dlist_head _ _ D : head d = _) as Eh. destruct D as [_ Hs _ _ Hnd _]. cbn [app snd] in Hs, Hnd. pose proof (bounded_length l ele_cnt Hc Hnd Hv). rewrite Eh, (verify_from_complete ele_cnt p l) in Eo by (done || lia). congruence. }
  destruct o as [b|]; eexists; (split; [done|]).
  - destruct (verify_from_sound ele_cnt p Hp ltac:(lia) _ _ _ _ _ Hh Eo) as (l & E1 & E2 & Hs & Hv). assert (Hvd : Forall valid l) by (eapply Forall_impl; [exact Hv|]; intros x Hx; unfold valid; cbn in Hx; lia). rewrite Z.eqb_eq. split.
    + intros Et. split; [lia|]. split; [lia|]. exists l. split; [|done]. split; cbn [app fst snd]; try done; [congruence|by apply (seg_NoDup p l null)].
    + intros (_ & _ & l' & D & Hv'). rewrite (dlist_tail _ _ D : tail d = _). specialize (Hco l' D Hv'). congruence.
  - split; [done|]. intros (_ & _ & l & D & Hv). specialize (Hco l D Hv). done.
Qed.

End lists.

(** ** Properties *)

Lemma dlist_new idx_bits p : 1 <= idx_bits <= 64 -> dlist idx_bits (new idx_bits, p) [].
Proof. intros Hb. apply (dlist_empty idx_bits Hb (mk_dlist DLIST_MAGIC 0 0) p). Qed.

(** C38. Every sequence of operations on a new list does on the pool what it does on
    a sequence: the pops return the same elements, no access is outside of
    the pool, the peeks show the ends, and an iteration over the list visits
    the sequence, forward or in reverse.  The caller only inserts elements
    of the pool that are not in the list, names elements of the list as
    neighbours, and does not pop from an empty list. *)
Theorem dlist_run_refines idx_bits ops (p : gmap Z node_t) :
  1 <= idx_bits <= 64 -> run_ok idx_bits (dom p) [] ops ->
  let '(l, rs) := spec_run ops [] in
  exists d' p', dl_run idx_bits ops (new idx_bits, p) = Ok (d', p', rs) /\
    (is_empty idx_bits d' = true <-> l = []) /\ (l <> [] -> list.head l = Some (idx_peek_head d') /\ last l = Some (idx_peek_tail d')) /\
    iterate idx_bits iter_fwd_next (sweep idx_bits (fun _ => false)) (length l) (iter_fwd_init d') ([], d', p') = Ok (l, d', p') /\
    iterate idx_bits iter_rev_next (sweep idx_bits (fun _ => false)) (length l) (iter_rev_init d') ([], d', p') = Ok (rev l, d', p').
Proof.
  intros Hb Hr. destruct (dl_run_ok idx_bits Hb ops (new idx_bits, p) [] (dlist_new idx_bits p Hb) Hr) as ([d' p'] & E & D & _). destruct (spec_run ops []) as [l rs]. cbn [fst snd] in *. exists d', p'. split; [done|].
  pose proof (dlist_head idx_bits Hb _ _ D : head d' = _) as Eh. pose proof (dlist_tail idx_bits Hb _ _ D : tail d' = _) as Et. pose proof (ga_valid _ _ _ _ _ _ D) as Hv. cbn [app] in Hv. split; [|split; [|split]].
  - unfold is_empty. rewrite Eh. destruct l as [|x l]; cbn [first]; [by rewrite null_true|]. apply Forall_cons in Hv as [Hx _]. by rewrite null_false by done.
  - unfold idx_peek_head, idx_peek_tail, final. rewrite Eh, Et. unfold final. destruct l as [|x l] using rev_ind; [done|]. intros _. rewrite last_snoc. split; [|done]. by destruct l.
  - destruct (sweep_fwd_ok idx_bits Hb (fun _ => false) l [] [] d' p' (length l) D ltac:(lia)) as (d2 & p2 & E2 & _). destruct (sweep_none idx_bits Hb _ _ _ _ _ _ _ _ _ E2) as [-> ->]. unfold iter_fwd_init. by rewrite Eh.
  - rewrite <- (app_nil_r l) in D. destruct (sweep_rev_ok idx_bits Hb (fun _ => false) l [] [] d' p' (length l) D ltac:(lia)) as (d2 & p2 & E2 & _). destruct (sweep_none idx_bits Hb _ _ _ _ _ _ _ _ _ E2) as [-> ->]. unfold iter_rev_init. by rewrite Et.
Qed.

(** An iteration over a list that removes the element it is at, whenever a
    predicate asks for it, still visits every element once, forward or in
    reverse, and leaves the others in their order: removing an element does
    not change its own links. *)
Theorem dlist_sweep_visits_all idx_bits f d (p : gmap Z node_t) l :
  1 <= idx_bits <= 64 -> dlist idx_bits (d, p) l ->
  (exists d' p', iterate idx_bits iter_fwd_next (sweep idx_bits f) (length l) (iter_fwd_init d) ([], d, p) = Ok (l, d', p') /\ dlist idx_bits (d', p') (filter (fun x => f x = false) l)) /\
  (exists d' p', iterate idx_bits iter_rev_next (sweep idx_bits f) (length l) (iter_rev_init d) ([], d, p) = Ok (rev l, d', p') /\ dlist idx_bits (d', p') (filter (fun x => f x = false) l)).
Proof.
  intros Hb D. unfold iter_fwd_init, iter_rev_init. rewrite (dlist_head idx_bits Hb _ _ D : head d = _), (dlist_tail idx_bits Hb _ _ D : tail d = _). split.
  - destruct (sweep_fwd_ok idx_bits Hb f l [] [] d p (length l) D ltac:(lia)) as (d' & p' & E & D' & _). by exists d', p'.
  - rewrite <- (app_nil_r l) in D. destruct (sweep_rev_ok idx_bits Hb f l [] [] d p (length l) D ltac:(lia)) as (d' & p' & E & D' & _). rewrite app_nil_r in D'. by exists d', p'.
Qed.

(** [verify] terminates on every header and pool, also with links in disorder,
    and accepts exactly those that hold a list: the number of elements and
    the magic number are right, and the links are those of a sequence of
    distinct elements. *)
Theorem dlist_verify_decides idx_bits d ele_cnt (p : gmap Z node_t) :
  1 <= idx_bits <= 64 -> 0 <= ele_cnt -> 0 <= head d <= private_idx_null idx_bits -> pool_wf idx_bits ele_cnt p ->
  exists b, verify idx_bits (Some d) ele_cnt (Some p) = Ok b /\ (b = true <-> well_formed idx_bits d ele_cnt p).
Proof. intros Hb. apply verify_decides; done. Qed.

(** Four elements, and operations at the ends and inside. *)
Definition ex_pool : gmap Z node_t := list_to_map (map (fun i => (i, mk_node 7 9)) [0; 1; 2; 3]).
Definition ex_ops : list op := [PushTail 2; PushHead 0; InsertAfter 3 0; InsertBefore 1 2; Remove 3; Replace 3 1; PopTail; PushTail 1].

Lemma dlist_run_refines_witness : run_ok 32 (dom ex_pool) [] ex_ops /\ spec_run ex_ops [] = ([0; 3; 1], [None; None; None; None; None; None; Some 2; None]) /\
  exists d p, dl_run 32 ex_ops (new 32, ex_pool) = Ok (d, p, [None; None; None; None; None; None; Some 2; None]) /\ iterate 32 iter_fwd_next (sweep 32 (fun _ => false)) 3 (iter_fwd_init d) ([], d, p) = Ok ([0; 3; 1], d, p).
Proof.
  assert (Hr : run_ok 32 (dom ex_pool) [] ex_ops).
  { assert (Hv : forall i, 0 <= i < 4 -> valid 32 i) by (intros i Hi; unfold valid; change (private_idx_null 32) with 4294967295; lia). assert (Hd : forall i, bool_decide (is_Some (ex_pool !! i)) = true -> i ∈ dom ex_pool) by (intros i Hi; apply elem_of_dom; by apply bool_decide_eq_true in Hi).
    assert (Hni : forall (x : Z) (l : list Z), bool_decide (x ∉ l) = true -> x ∉ l) by (intros x l Hx; by apply bool_decide_eq_true in Hx). assert (Hin : forall (x : Z) (l : list Z), bool_decide (x ∈ l) = true -> x ∈ l) by (intros x l Hx; by apply bool_decide_eq_true in Hx).
    cbn. unfold fresh. repeat split; try (apply Hv; lia); try (apply Hd; by vm_compute); try (apply Hni; by vm_compute); try (apply Hin; by vm_compute); done. }
  split; [done|]. split; [reflexivity|]. pose proof (dlist_run_refines 32 ex_ops ex_pool ltac:(lia) Hr) as H. change (spec_run ex_ops []) with ([0; 3; 1], [None; None; None; None; None; None; Some 2; None]) in H. cbv beta iota in H. destruct H as (d & p & E & _ & _ & Ef & _). exists d, p. split; [exact E|exact Ef].
Defined.

Definition ex_list : dlist_t := mk_dlist DLIST_MAGIC 2 1.
Definition ex_links : gmap Z node_t := list_to_map [(0, mk_node 2 1); (1, mk_node 0 255); (2, mk_node 255 0)].

Lemma ex_list_ok : dlist 8 (ex_list, ex_links) [2; 0; 1].
Proof. split; [exact I|repeat (split; [reflexivity|]); exact I|reflexivity|reflexivity|by apply (bool_decide_unpack _); vm_compute|]. repeat constructor; unfold valid; change (private_idx_null 8) with 255; lia. Qed.

Lemma dlist_sweep_visits_all_witness : exists d' p', iterate 8 iter_fwd_next (sweep 8 (fun x => x <=? 1)) 3 (iter_fwd_init ex_list) ([], ex_list, ex_links) = Ok ([2; 0; 1], d', p') /\ dlist 8 (d', p') [2].
Proof. exact (proj1 (dlist_sweep_visits_all 8 (fun x => x <=? 1) ex_list ex_links [2; 0; 1] ltac:(lia) ex_list_ok)). Defined.

(** The list is accepted, and rejected once an element's reverse link is wrong. *)
Lemma dlist_verify_decides_witness : (exists b, verify 8 (Some ex_list) 3 (Some ex_links) = Ok b /\ (b = true <-> well_formed 8 ex_list 3 ex_links)) /\ verify 8 (Some ex_list) 3 (Some ex_links) = Ok true /\ verify 8 (Some ex_list) 3 (Some (<[0 := mk_node 1 1]> ex_links)) = Ok false.
Proof.
  split; [|split; reflexivity]. apply dlist_verify_decides; [lia|lia|by change (private_idx_null 8) with 255|]. intros i Hi. change (private_idx_null 8) with 255. assert (Hc : i = 0 \/ i = 1 \/ i = 2) by lia. destruct Hc as [->|[->| ->]]; eexists; (split; [reflexivity|cbn; lia]).
Defined.
