(* ===== verification/Hash.v ===== *)
(** * Hashing ([src/util/fd_hash.c])

    The 64-bit hash (xxhash) from which the tag caches get the tags of
    transactions, and the variant that copies the bytes while it hashes them. *)

From S2P Require Import Prelude Bytes.

#[local] Open Scope Z_scope.

Definition C1 : Z := 11400714785074694791.
Definition C2 : Z := 14029467366897019727.
Definition C3 : Z := 1609587929392839161.
Definition C4 : Z := 9650029242287828579.
Definition C5 : Z := 2870177450012600261.

(** [ulong] arithmetic *)
Definition add (a b : Z) : Z := u64 (a + b).
Definition mul (a b : Z) : Z := u64 (a * b).
Definition ROTATE_LEFT (x r : Z) : Z := Z.lor (u64 (Z.shiftl x r)) (Z.shiftr x (64 - r)).

(** [w *= C2; w = ROTATE_LEFT( w, 31 ); w *= C1] *)
Definition mix (w : Z) : Z := mul (ROTATE_LEFT (mul w C2) 31) C1.

(** [w += v*C2; w = ROTATE_LEFT( w, 31 ); w *= C1] *)
Definition round (w v : Z) : Z := mul (ROTATE_LEFT (add w (mul v C2)) 31) C1.

(** [h ^= w; h = h*C1 + C4], for the mixed [w] *)
Definition merge (h w : Z) : Z := add (mul (Z.lxor h (mix w)) C1) C4.

Record lanes := mk_lanes { lw : Z; lx : Z; ly : Z; lz : Z }.

Definition init_lanes (seed : Z) : lanes := mk_lanes (add seed (add C1 C2)) (add seed C2) seed (u64 (seed - C1)).

Definition block (v0 v1 v2 v3 : Z) (s : lanes) : lanes := mk_lanes (round (lw s) v0) (round (lx s) v1) (round (ly s) v2) (round (lz s) v3).

Definition join_lanes (s : lanes) : Z :=
  let h := add (add (add (ROTATE_LEFT (lw s) 1) (ROTATE_LEFT (lx s) 7)) (ROTATE_LEFT (ly s) 12)) (ROTATE_LEFT (lz s) 18) in
  merge (merge (merge (merge h (lw s)) (lx s)) (ly s)) (lz s).

Definition hash_ulong (h w : Z) : Z := add (mul (ROTATE_LEFT (Z.lxor h (mix w)) 27) C1) C4.
Definition hash_uint (h w : Z) : Z := add (mul (ROTATE_LEFT (Z.lxor h (mul w C1)) 23) C2) C3.
Definition hash_uchar (h w : Z) : Z := mul (ROTATE_LEFT (Z.lxor h (mul w C5)) 11) C1.

Definition avalanche (h : Z) : Z :=
  let h := mul (Z.lxor h (Z.shiftr h 33)) C2 in
  let h := mul (Z.lxor h (Z.shiftr h 29)) C3 in
  Z.lxor h (Z.shiftr h 32).

(** The rounds of every loop are at most the number of bytes. *)
Definition hash_fuel (sz : Z) : nat := S (Z.to_nat sz).

Section hash.
Context (buf : mem) (sz : Z).

(** All complete blocks of 32, at least one; [p] is the offset of the pointer. *)
Definition block_step (st : lanes * Z) : res (lanes * Z + lanes * Z) :=
  let '(s, p) := st in
  v0 ← load buf p 8; v1 ← load buf (p + 8) 8; v2 ← load buf (p + 16) 8; v3 ← load buf (p + 24) 8;
  let st := (block v0 v1 v2 v3 s, p + 32) in
  if p + 32 <=? sz - 32 then Ok (inl st) else Ok (inr st).

Definition ulong_step (st : Z * Z) : res (Z * Z + Z * Z) :=
  let '(h, p) := st in
  if p + 8 <=? sz then w ← load buf p 8; Ok (inl (hash_ulong h w, p + 8)) else Ok (inr st).

Definition uint_part (st : Z * Z) : res (Z * Z) :=
  let '(h, p) := st in
  if p + 4 <=? sz then w ← load buf p 4; Ok (hash_uint h w, p + 4) else Ok st.

Definition uchar_step (st : Z * Z) : res (Z * Z + Z) :=
  let '(h, p) := st in
  if p <? sz then w ← load buf p 1; Ok (inl (hash_uchar h w, p + 1)) else Ok (inr h).

Definition fd_hash (seed : Z) : res Z :=
  '(h, p) ← (if sz <? 32 then Ok (add seed C5, 0)
             else '(s, p) ← loop block_step (hash_fuel sz) (init_lanes seed, 0); Ok (join_lanes s, p));
  st ← loop ulong_step (hash_fuel sz) (add h sz, p);
  st ← uint_part st;
  h ← loop uchar_step (hash_fuel sz) st;
  Ok (avalanche h).

(** ** Hashing and copying *)

(** [FD_STORE( T, q, v )] for a type of [n] bytes *)
Definition put (dst : mem) (q n v : Z) : res mem := memcpy dst q (bytes (le_bytes (Z.to_nat n) v)) n.

(** The two pointers advance together. *)
Definition block_copy_step (st : lanes * Z * mem) : res (lanes * Z * mem + lanes * Z * mem) :=
  let '(s, p, dst) := st in
  v0 ← load buf p 8; v1 ← load buf (p + 8) 8; v2 ← load buf (p + 16) 8; v3 ← load buf (p + 24) 8;
  dst ← put dst p 8 v0; dst ← put dst (p + 8) 8 v1; dst ← put dst (p + 16) 8 v2; dst ← put dst (p + 24) 8 v3;
  let st := (block v0 v1 v2 v3 s, p + 32, dst) in
  if p + 32 <=? sz - 32 then Ok (inl st) else Ok (inr st).

Definition ulong_copy_step (st : Z * Z * mem) : res (Z * Z * mem + Z * Z * mem) :=
  let '(h, p, dst) := st in
  if p + 8 <=? sz then w ← load buf p 8; dst ← put dst p 8 w; Ok (inl (hash_ulong h w, p + 8, dst)) else Ok (inr st).

Definition uint_copy_part (st : Z * Z * mem) : res (Z * Z * mem) :=
  let '(h, p, dst) := st in
  if p + 4 <=? sz then w ← load buf p 4; dst ← put dst p 4 w; Ok (hash_uint h w, p + 4, dst) else Ok st.

Definition uchar_copy_step (st : Z * Z * mem) : res (Z * Z * mem + Z * mem) :=
  let '(h, p, dst) := st in
  if p <? sz then w ← load buf p 1; dst ← put dst p 1 w; Ok (inl (hash_uchar h w, p + 1, dst)) else Ok (inr (h, dst)).

Definition fd_hash_memcpy (seed : Z) (dst : mem) : res (Z * mem) :=
  '(h, p, dst) ← (if sz <? 32 then Ok (add seed C5, 0, dst)
                  else '(s, p, dst) ← loop block_copy_step (hash_fuel sz) (init_lanes seed, 0, dst); Ok (join_lanes s, p, dst));
  st ← loop ulong_copy_step (hash_fuel sz) (add h sz, p, dst);
  st ← uint_copy_part st;
  '(h, dst) ← loop uchar_copy_step (hash_fuel sz) st;
  Ok (avalanche h, dst).

End hash.

(** The published test values of the hash. *)
Example hash_empty : fd_hash [] 0 0 = Ok 0xef46db3751d8e999.
Proof. vm_compute. reflexivity. Qed.

Example hash_abc : fd_hash (bytes [97; 98; 99]) 3 0 = Ok 0x44bc2cf5ad770999.
Proof. vm_compute. reflexivity. Qed.

(** ** Both compute the same *)

(** Two loops whose states stay related. *)
Lemma loop_rel {S1 S2 R1 R2} (I : S1 -> S2 -> Prop) (Q : R1 -> R2 -> Prop) (step1 : S1 -> res (S1 + R1)) (step2 : S2 -> res (S2 + R2)) :
  (forall s1 s2, I s1 s2 -> (exists a b, step1 s1 = Ok (inl a) /\ step2 s2 = Ok (inl b) /\ I a b) \/ (exists a b, step1 s1 = Ok (inr a) /\ step2 s2 = Ok (inr b) /\ Q a b)) ->
  forall n s1 s2 r, I s1 s2 -> loop step1 n s1 = Ok r -> exists r', loop step2 n s2 = Ok r' /\ Q r r'.
Proof.
  intros Hs. induction n as [|n IH]; intros s1 s2 r HI; [done|]. rewrite !loop_S. destruct (Hs s1 s2 HI) as [(a & b & -> & -> & HI')|(a & b & -> & -> & HQ)]; [by apply IH|]. intros [= <-]. by exists b.
Qed.

Lemma u64_wraps z : is_u64 (u64 z).
Proof. unfold is_u64, u64, ULONG_MAX. pose proof (Z.mod_pos_bound z 18446744073709551616). lia. Qed.

Lemma avalanche_range h : is_u64 (avalanche h).
Proof.
  unfold avalanche. set (a := mul _ C3). assert (Ha : is_u64 a) by apply u64_wraps. unfold is_u64, ULONG_MAX in *. assert (Hs : 0 <= Z.shiftr a 32 <= a) by (rewrite Z.shiftr_div_pow2 by lia; split; [apply Z.div_pos; lia|apply Z.div_le_upper_bound; lia]).
  assert (Hx : 0 <= Z.lxor a (Z.shiftr a 32)) by (apply Z.lxor_nonneg; lia). split; [done|]. destruct (decide (Z.lxor a (Z.shiftr a 32) = 0)) as [->|Hne]; [lia|]. apply Z.lt_succ_r. change (Z.succ 18446744073709551615) with (2 ^ 64). apply Z.log2_lt_pow2; [lia|]. apply Z.le_lt_trans with (Z.max (Z.log2 a) (Z.log2 (Z.shiftr a 32))); [apply Z.log2_lxor; lia|].
  assert (Hl : Z.log2 a < 64) by (destruct (decide (a = 0)) as [->|]; [done|]; apply Z.log2_lt_pow2; lia). pose proof (Z.log2_le_mono (Z.shiftr a 32) a). lia.
Qed.

Section same.
Context (bs : list Z) (Hbs : Forall is_byte bs).

Abbreviation sz := (Z.of_nat (length bs)).
Abbreviation src rest := (bytes bs ++ rest).

(** What is loaded at [p]. *)
Definition word (p n : Z) : Z := le_val (take (Z.to_nat n) (drop (Z.to_nat p) bs)).

Lemma load_word rest p n : 0 <= p -> 0 <= n -> p + n <= sz -> load (src rest) p n = Ok (word p n).
Proof using Type. intros. by apply load_bytes. Qed.

(** The first [p] bytes have been copied. *)
Definition copied (dst0 : mem) (p : Z) (dst : mem) : Prop := dst = bytes (take (Z.to_nat p) bs) ++ drop (Z.to_nat p) dst0.

Lemma store_word_ok dst0 dst p n : 0 <= p -> 0 <= n -> p + n <= sz -> sz <= Z.of_nat (length dst0) -> copied dst0 p dst -> exists dst', put dst p n (word p n) = Ok dst' /\ copied dst0 (p + n) dst'.
Proof using Hbs.
  intros Hp Hn Hle Hd ->. unfold put, word. assert (El : length (take (Z.to_nat n) (drop (Z.to_nat p) bs)) = Z.to_nat n) by (rewrite length_take, length_drop; lia).
  assert (Eb : le_bytes (Z.to_nat n) (le_val (take (Z.to_nat n) (drop (Z.to_nat p) bs))) = take (Z.to_nat n) (drop (Z.to_nat p) bs)) by (pose proof (le_bytes_val (take (Z.to_nat n) (drop (Z.to_nat p) bs)) ltac:(by apply Forall_take, Forall_drop)) as Eb; by rewrite El in Eb). rewrite Eb, memcpy_ok; [|lia|lia|rewrite length_app, bytes_length, length_take, length_drop; lia|rewrite bytes_length, El; lia]. eexists. split; [done|]. unfold copied.
  rewrite take_app_length' by (rewrite bytes_length, length_take; lia). rewrite (take_ge (bytes _)) by (rewrite bytes_length, El; lia). rewrite drop_app_ge by (rewrite bytes_length, length_take; lia). rewrite drop_drop, bytes_length, length_take, app_assoc, <- bytes_app. f_equal; [|f_equal; lia]. f_equal. replace (Z.to_nat (p + n)) with (Z.to_nat p + Z.to_nat n)%nat by lia. apply take_take_drop.
Qed.

Section run.
Context (r1 r2 : mem) (dst0 : mem) (Hdst : sz <= Z.of_nat (length dst0)).

Abbreviation with_copy := (fun (a : _ * Z) (b : _ * Z * mem) => b.1 = a /\ 0 <= a.2 <= sz /\ copied dst0 (a.2) (b.2)).

Lemma block_rel n s p dst r : with_copy (s, p) (s, p, dst) -> p + 32 <= sz -> loop (block_step (src r1) sz) n (s, p) = Ok r -> exists r', loop (block_copy_step (src r2) sz) n (s, p, dst) = Ok r' /\ with_copy r r'.
Proof using All.
  intros Hw Hp. apply (loop_rel (fun a b => with_copy a b /\ a.2 + 32 <= sz) with_copy); [|done]. clear n s p dst r Hw Hp. intros [s p] [[s' p'] dst] ((E & Hp & Hc) & Hle). cbn [fst snd] in *. injection E as -> ->. unfold block_step, block_copy_step. rewrite !load_word by lia. cbn [mbind res_bind].
  destruct (store_word_ok dst0 dst p 8 ltac:(lia) ltac:(lia) ltac:(lia) Hdst Hc) as (d1 & -> & C1'). cbn [mbind res_bind]. destruct (store_word_ok dst0 d1 (p + 8) 8 ltac:(lia) ltac:(lia) ltac:(lia) Hdst C1') as (d2 & -> & C2'). cbn [mbind res_bind]. replace (p + 8 + 8) with (p + 16) in C2' by lia. destruct (store_word_ok dst0 d2 (p + 16) 8 ltac:(lia) ltac:(lia) ltac:(lia) Hdst C2') as (d3 & -> & C3'). cbn [mbind res_bind]. replace (p + 16 + 8) with (p + 24) in C3' by lia. destruct (store_word_ok dst0 d3 (p + 24) 8 ltac:(lia) ltac:(lia) ltac:(lia) Hdst C3') as (d4 & -> & C4'). cbn [mbind res_bind]. replace (p + 24 + 8) with (p + 32) in C4' by lia.
  destruct (Z.leb_spec (p + 32) (sz - 32)); [left|right]; do 2 eexists; (split; [done|]); (split; [done|]); cbn [fst snd]; repeat split; try done; lia.
Qed.

Lemma ulong_rel n h p dst r : with_copy (h, p) (h, p, dst) -> loop (ulong_step (src r1) sz) n (h, p) = Ok r -> exists r', loop (ulong_copy_step (src r2) sz) n (h, p, dst) = Ok r' /\ with_copy r r'.
Proof using All.
  intros Hw. apply (loop_rel with_copy with_copy); [|done]. clear n h p dst r Hw. intros [h p] [[h' p'] dst] (E & Hp & Hc). cbn [fst snd] in *. injection E as -> ->. unfold ulong_step, ulong_copy_step. destruct (Z.leb_spec (p + 8) sz); [left|right; do 2 eexists; by split]. rewrite !load_word by lia. cbn [mbind res_bind].
  destruct (store_word_ok dst0 dst p 8 ltac:(lia) ltac:(lia) ltac:(lia) Hdst Hc) as (d1 & -> & C1'). cbn [mbind res_bind]. do 2 eexists. split; [done|]. split; [done|]. cbn [fst snd]. split; [done|]. split; [lia|done].
Qed.

Lemma uint_rel st st' r : with_copy st st' -> uint_part (src r1) sz st = Ok r -> exists r', uint_copy_part (src r2) sz st' = Ok r' /\ with_copy r r'.
Proof using All.
  destruct st as [h p], st' as [[h' p'] dst]. intros (E & Hp & Hc). cbn [fst snd] in *. injection E as -> ->. unfold uint_part, uint_copy_part. destruct (Z.leb_spec (p + 4) sz); [|intros [= <-]; eexists; by split]. rewrite !load_word by lia. cbn [mbind res_bind]. intros [= <-].
  destruct (store_word_ok dst0 dst p 4 ltac:(lia) ltac:(lia) ltac:(lia) Hdst Hc) as (d1 & -> & C1'). cbn [mbind res_bind]. eexists. split; [done|]. cbn [fst snd]. split; [done|]. split; [lia|done].
Qed.

Lemma uchar_rel n st st' r : with_copy st st' -> loop (uchar_step (src r1) sz) n st = Ok r -> exists dst, loop (uchar_copy_step (src r2) sz) n st' = Ok (r, dst) /\ copied dst0 sz dst.
Proof using All.
  intros Hw Hl. assert (Hx : exists r', loop (uchar_copy_step (src r2) sz) n st' = Ok r' /\ (r'.1 = r /\ copied dst0 sz (r'.2))); [|destruct Hx as ([h d] & E & E1 & Hc); cbn [fst snd] in *; subst; by exists d].
  revert Hl. apply (loop_rel with_copy (fun a b => b.1 = a /\ copied dst0 sz b.2)); [|done]. clear n st st' r Hw. intros [h p] [[h' p'] dst] (E & Hp & Hc). cbn [fst snd] in *. injection E as -> ->. unfold uchar_step, uchar_copy_step. destruct (Z.ltb_spec p sz); [left|right; do 2 eexists; split; [done|]; split; [done|]; cbn [fst snd]; split; [done|]; by replace sz with p by lia]. rewrite !load_word by lia. cbn [mbind res_bind].
  destruct (store_word_ok dst0 dst p 1 ltac:(lia) ltac:(lia) ltac:(lia) Hdst Hc) as (d1 & -> & C1'). cbn [mbind res_bind]. do 2 eexists. split; [done|]. split; [done|]. cbn [fst snd]. split; [done|]. split; [lia|done].
Qed.

Lemma hash_rel seed h : fd_hash (src r1) sz seed = Ok h -> fd_hash_memcpy (src r2) sz seed dst0 = Ok (h, bytes bs ++ drop (length bs) dst0).
Proof using All.
  unfold fd_hash, fd_hash_memcpy. intros Hh. assert (C0 : copied dst0 0 dst0) by done.
  assert (Hstart : forall h1 p1, (if sz <? 32 then Ok (add seed C5, 0) else '(s, p) ← loop (block_step (src r1) sz) (hash_fuel sz) (init_lanes seed, 0); Ok (join_lanes s, p)) = Ok (h1, p1) ->
    exists d1, (if sz <? 32 then Ok (add seed C5, 0, dst0) else '(s, p, dst) ← loop (block_copy_step (src r2) sz) (hash_fuel sz) (init_lanes seed, 0, dst0); Ok (join_lanes s, p, dst)) = Ok (h1, p1, d1) /\ 0 <= p1 <= sz /\ copied dst0 p1 d1).
  { intros h1 p1. destruct (Z.ltb_spec sz 32); [intros [= <- <-]; exists dst0; split; [done|]; split; [lia|done]|]. destruct (loop (block_step (src r1) sz) (hash_fuel sz) (init_lanes seed, 0)) as [[s p]| | |] eqn:El; try done. cbn [mbind res_bind]. intros [= <- <-].
    destruct (block_rel (hash_fuel sz) (init_lanes seed) 0 dst0 (s, p) ltac:(split; [done|]; split; [cbn; lia|done]) ltac:(lia) El) as ([[s' p'] d'] & -> & E & Hp & Hc). cbn [fst snd] in *. injection E as -> ->. cbn [mbind res_bind]. by exists d'. }
  destruct (if sz <? 32 then _ else _) as [[h1 p1]| | |] eqn:E1 in Hh; try done. destruct (Hstart h1 p1 E1) as (d1 & -> & Hp1 & Hc1). cbn [mbind res_bind] in *.
  destruct (loop (ulong_step (src r1) sz) (hash_fuel sz) (add h1 sz, p1)) as [st2| | |] eqn:E2; try done. destruct (ulong_rel (hash_fuel sz) (add h1 sz) p1 d1 st2 ltac:(by split) E2) as (st2' & -> & Hw2). cbn [mbind res_bind] in *.
  destruct (uint_part (src r1) sz st2) as [st3| | |] eqn:E3; try done. destruct (uint_rel _ _ _ Hw2 E3) as (st3' & -> & Hw3). cbn [mbind res_bind] in *.
  destruct (loop (uchar_step (src r1) sz) (hash_fuel sz) st3) as [h4| | |] eqn:E4; try done. destruct (uchar_rel _ _ _ _ Hw3 E4) as (d4 & -> & Hc4). cbn [mbind res_bind] in *. injection Hh as <-. unfold copied in Hc4. rewrite Nat2Z.id, firstn_all in Hc4. by rewrite Hc4.
Qed.

End run.

(** Hashing returns. *)
Lemma hash_total rest seed : exists h, fd_hash (src rest) sz seed = Ok h /\ is_u64 h.
Proof using Hbs.
  unfold fd_hash. assert (H1 : exists h p, (if sz <? 32 then Ok (add seed C5, 0) else '(s, p) ← loop (block_step (src rest) sz) (hash_fuel sz) (init_lanes seed, 0); Ok (join_lanes s, p)) = Ok (h, p) /\ 0 <= p <= sz).
  { destruct (Z.ltb_spec sz 32); [do 2 eexists; split; [done|lia]|]. destruct (loop_total (block_step (src rest) sz) (fun st => 0 <= st.2 /\ st.2 + 32 <= sz) (fun st => Z.to_nat (sz - st.2)) (fun st => 0 <= st.2 <= sz)) with (fuel := hash_fuel sz) (s := (init_lanes seed, 0)) as ([s p] & -> & Hp); [|cbn; lia|cbn; unfold hash_fuel; lia|cbn [mbind res_bind]; by exists (join_lanes s), p].
    intros [s p] [Hp Hle]. cbn [snd] in *. unfold block_step. rewrite !load_word by lia. cbn [mbind res_bind]. destruct (Z.leb_spec (p + 32) (sz - 32)); [left|right]; eexists; (split; [done|]); cbn [snd]; [split; lia|lia]. }
  destruct H1 as (h & p & -> & Hp). cbn [mbind res_bind].
  destruct (loop_total (ulong_step (src rest) sz) (fun st => 0 <= st.2 <= sz) (fun st => Z.to_nat (sz - st.2)) (fun st => 0 <= st.2 <= sz)) with (fuel := hash_fuel sz) (s := (add h sz, p)) as ([h2 p2] & -> & Hp2); [|done|cbn [snd]; unfold hash_fuel; lia|].
  { intros [h1 p1] Hp1. cbn [snd] in *. unfold ulong_step. destruct (Z.leb_spec (p1 + 8) sz); [left|right; eexists; by split]. rewrite load_word by lia. cbn [mbind res_bind]. eexists. split; [done|]. cbn [snd]. split; lia. }
  cbn [mbind res_bind snd] in *. assert (H3 : exists h3 p3, uint_part (src rest) sz (h2, p2) = Ok (h3, p3) /\ 0 <= p3 <= sz) by (unfold uint_part; destruct (Z.leb_spec (p2 + 4) sz); [rewrite load_word by lia; do 2 eexists; split; [done|lia]|by exists h2, p2]). destruct H3 as (h3 & p3 & -> & Hp3). cbn [mbind res_bind].
  destruct (loop_total (uchar_step (src rest) sz) (fun st => 0 <= st.2 <= sz) (fun st => Z.to_nat (sz - st.2)) (fun _ => True)) with (fuel := hash_fuel sz) (s := (h3, p3)) as (h4 & -> & _); [|done|cbn [snd]; unfold hash_fuel; lia|].
  { intros [h1 p1] Hp1. cbn [snd] in *. unfold uchar_step. destruct (Z.ltb_spec p1 sz); [left|right; by eexists]. rewrite load_word by lia. cbn [mbind res_bind]. eexists. split; [done|]. cbn [snd]. split; lia. }
  cbn [mbind res_bind]. eexists. split; [done|apply avalanche_range].
Qed.

End same.

(** For every seed and all bytes both functions return the same 64-bit hash, which
    depends on the [sz] bytes alone; the copying variant leaves exactly these
    bytes at the destination and nothing else changed. *)
Theorem hash_memcpy_correct (bs : list Z) (seed : Z) : Forall is_byte bs ->
  exists h, is_u64 h /\ forall rest, fd_hash (bytes bs ++ rest) (Z.of_nat (length bs)) seed = Ok h /\
    forall dst, Z.of_nat (length bs) <= Z.of_nat (length dst) -> fd_hash_memcpy (bytes bs ++ rest) (Z.of_nat (length bs)) seed dst = Ok (h, bytes bs ++ drop (length bs) dst).
Proof.
  intros Hb. destruct (hash_total bs Hb [] seed) as (h & E & Hu). exists h. split; [done|]. intros rest. assert (Hc : forall dst, Z.of_nat (length bs) <= Z.of_nat (length dst) -> fd_hash_memcpy (bytes bs ++ rest) (Z.of_nat (length bs)) seed dst = Ok (h, bytes bs ++ drop (length bs) dst)) by (intros dst Hd; by apply (hash_rel bs Hb [] rest dst Hd seed h)).
  split; [|done]. destruct (hash_total bs Hb rest seed) as (h' & E' & _). pose proof (hash_rel bs Hb rest rest (bytes bs) ltac:(rewrite bytes_length; lia) seed h' E') as Er. rewrite Hc in Er by (rewrite bytes_length; lia). injection Er as <-. done.
Qed.

Lemma hash_memcpy_correct_witness : exists h, is_u64 h /\ forall rest, fd_hash (bytes [97; 98; 99] ++ rest) 3 0 = Ok h /\ forall dst, 3 <= Z.of_nat (length dst) -> fd_hash_memcpy (bytes [97; 98; 99] ++ rest) 3 0 dst = Ok (h, bytes [97; 98; 99] ++ drop 3 dst).
Proof. apply (hash_memcpy_correct [97; 98; 99] 0). repeat constructor; done. Defined.
