(* ===== verification/Tcache.v ===== *)
(** * Tag caches ([src/tango/tcache])

    A cache of the most recent distinct 64-bit tags, with which the verify, the
    dedup and the gossip tiles drop repeated messages: a ring of the last
    [depth] tags that were inserted, and a key-only map of them with linear
    probing.  The macros take the unpacked fields of the cache; here the two
    arrays are finite maps from indices, so that an access outside of them is
    an error. *)

From S2P Require Import Prelude Bits MapDynamic.

#[local] Open Scope Z_scope.

Definition FD_TCACHE_ALIGN : Z := 128.
Definition FD_TCACHE_TAG_NULL : Z := 0.
Definition FD_TCACHE_SPARSE_DEFAULT : Z := 2.
Definition FD_TCACHE_MAGIC : Z := 0xf17eda2c377ca540.

Abbreviation words := (gmap Z Z).

(** [struct fd_tcache_private], with the ring and the map behind it. *)
Record fd_tcache_t := mk_tcache { magic : Z; depth : Z; map_cnt : Z; oldest : Z; ring : words; map : words }.

(** ** Construction *)

Definition fd_tcache_map_cnt_default (depth : Z) : Z :=
  if depth =? 0 then 0
  else if depth =? ULONG_MAX then 0
  else
    let lg_map_cnt := fd_ulong_find_msb (u64 (depth + 1)) + FD_TCACHE_SPARSE_DEFAULT in
    if 63 <? lg_map_cnt then 0 else Z.shiftl 1 lg_map_cnt.

(** [fd_ulong_align_up( x, a )] for a power of two [a] *)
Definition fd_ulong_align_up (x a : Z) : Z := Z.land (u64 (x + (a - 1))) (ULONG_MAX - (a - 1)).

Definition fd_tcache_footprint (depth map_cnt : Z) : Z :=
  let map_cnt := if map_cnt =? 0 then fd_tcache_map_cnt_default depth else map_cnt in
  if (depth =? 0) || (map_cnt <? u64 (depth + 2)) || negb (fd_ulong_is_pow2 map_cnt) then 0 else
  let cnt := u64 (4 + depth) in
  if cnt <? depth then 0 else
  let cnt := u64 (cnt + map_cnt) in
  if cnt <? map_cnt then 0 else
  if ULONG_MAX / 8 <? cnt then 0 else
  let cnt := u64 (cnt * 8) in
  let footprint := fd_ulong_align_up cnt FD_TCACHE_ALIGN in
  if footprint <? cnt then 0 else footprint.

(** The macro, for declarations at compile time: the number of map slots is taken
    as it is. *)
Definition FD_TCACHE_FOOTPRINT (depth map_cnt : Z) : Z := fd_ulong_align_up (u64 ((4 + depth + map_cnt) * 8)) FD_TCACHE_ALIGN.

(** An array access. *)
Definition store (a : words) (i v : Z) : res words := _ ← deref (a !! i); Ok (<[i := v]> a).

(** [for( idx=0UL; idx<cnt; idx++ ) a[ idx ] = FD_TCACHE_TAG_NULL] *)
Definition fill_null (cnt : Z) (a : words) : res words := foldl (fun r i => a ← r; store a i FD_TCACHE_TAG_NULL) (Ok a) (seqZ 0 cnt).

Definition fd_tcache_reset (ring : words) (depth : Z) (map : words) (map_cnt : Z) : res (Z * words * words) :=
  ring ← fill_null depth ring; map ← fill_null map_cnt map; Ok (0, ring, map).

(** [fd_memset( shmem, 0, footprint )], for the words of an array *)
Definition zeroed (cnt : Z) : words := list_to_map ((fun i => (i, 0)) <$> seqZ 0 cnt).

(** [shmem] is the address of the memory. *)
Definition fd_tcache_new (shmem depth map_cnt : Z) : res (option fd_tcache_t) :=
  let map_cnt := if map_cnt =? 0 then fd_tcache_map_cnt_default depth else map_cnt in
  if shmem =? 0 then Ok None
  else if negb (shmem mod FD_TCACHE_ALIGN =? 0) then Ok None
  else if fd_tcache_footprint depth map_cnt =? 0 then Ok None
  else
    '(oldest, ring, map) ← fd_tcache_reset (zeroed depth) depth (zeroed map_cnt) map_cnt;
    Ok (Some (mk_tcache FD_TCACHE_MAGIC depth map_cnt oldest ring map)).

(** [_tcache] is an address and the cache that is there. *)
Definition fd_tcache_join (_tcache : Z) (t : fd_tcache_t) : option fd_tcache_t :=
  if _tcache =? 0 then None
  else if negb (_tcache mod FD_TCACHE_ALIGN =? 0) then None
  else if negb (magic t =? FD_TCACHE_MAGIC) then None
  else Some t.

Definition fd_tcache_delete (_tcache : Z) (t : fd_tcache_t) : option fd_tcache_t :=
  if _tcache =? 0 then None
  else if negb (_tcache mod FD_TCACHE_ALIGN =? 0) then None
  else if negb (magic t =? FD_TCACHE_MAGIC) then None
  else Some (mk_tcache 0 (depth t) (map_cnt t) (oldest t) (ring t) (map t)).

(** ** Queries *)

Definition fd_tcache_tag_is_null (tag : Z) : bool := tag =? FD_TCACHE_TAG_NULL.

Definition fd_tcache_map_start (tag map_cnt : Z) : Z := Z.land tag (u64 (map_cnt - 1)).
Definition fd_tcache_map_next (idx map_cnt : Z) : Z := Z.land (u64 (idx + 1)) (u64 (map_cnt - 1)).

(** The loops visit every slot at most once. *)
Definition probe_fuel (map_cnt : Z) : nat := S (Z.to_nat (map_cnt - 1) + 1).

Definition query_step (map : words) (map_cnt tag idx : Z) : res (Z + bool * Z) :=
  map_tag ← deref (map !! idx);
  let found := tag =? map_tag in
  if found || fd_tcache_tag_is_null map_tag then Ok (inr (found, idx)) else Ok (inl (fd_tcache_map_next idx map_cnt)).

(** Whether the tag was found, and the slot. *)
Definition FD_TCACHE_QUERY (map : words) (map_cnt tag : Z) : res (bool * Z) :=
  loop (query_step map map_cnt tag) (probe_fuel map_cnt) (fd_tcache_map_start tag map_cnt).

(** ** Removal *)

(** The inner loop: the next slot with a tag that the hole cuts off. *)
Definition scan_step (map : words) (map_cnt hole slot : Z) : res (Z + option Z) :=
  let slot := fd_tcache_map_next slot map_cnt in
  tag ← deref (map !! slot);
  if fd_tcache_tag_is_null tag then Ok (inr None) else
  let start := fd_tcache_map_start tag map_cnt in
  if negb (((hole <? start) && (start <=? slot)) || ((slot <? hole) && ((hole <? start) || (start <=? slot)))) then Ok (inr (Some slot)) else Ok (inl slot).

(** The outer loop: empties a slot and fills it again with such a tag. *)
Definition remove_step (map_cnt : Z) (st : words * Z) : res (words * Z + words) :=
  let '(map, slot) := st in
  map ← store map slot FD_TCACHE_TAG_NULL;
  let hole := slot in
  o ← loop (scan_step map map_cnt hole) (probe_fuel map_cnt) slot;
  match o with
  | None => Ok (inr map)
  | Some slot => tag ← deref (map !! slot); map ← store map hole tag; Ok (inl (map, slot))
  end.

Definition fd_tcache_remove (map : words) (map_cnt tag : Z) : res words :=
  if fd_tcache_tag_is_null tag then Ok map else
  '(found, slot) ← FD_TCACHE_QUERY map map_cnt tag;
  if (found : bool) then loop (remove_step map_cnt) (probe_fuel map_cnt) (map, slot) else Ok map.

(** ** Insertion *)

(** Whether the tag is a duplicate, and the new values of [oldest], of the ring and
    of the map. *)
Definition FD_TCACHE_INSERT (oldest : Z) (ring : words) (depth : Z) (map : words) (map_cnt tag : Z) : res (bool * Z * words * words) :=
  '(dup, map_idx) ← FD_TCACHE_QUERY map map_cnt tag;
  if (dup : bool) then Ok (dup, oldest, ring, map) else
  map ← store map map_idx tag;
  tag_oldest ← deref (ring !! oldest);
  ring ← store ring oldest tag;
  let oldest := u64 (oldest + 1) in
  let oldest := if depth <=? oldest then 0 else oldest in
  map ← fd_tcache_remove map map_cnt tag_oldest;
  Ok (dup, oldest, ring, map).

(** The macros on the fields of a cache. *)
Definition insert (t : fd_tcache_t) (tag : Z) : res (bool * fd_tcache_t) :=
  '(dup, oldest, ring, map) ← FD_TCACHE_INSERT (oldest t) (ring t) (depth t) (map t) (map_cnt t) tag;
  Ok (dup, mk_tcache (magic t) (depth t) (map_cnt t) oldest ring map).

Definition query (t : fd_tcache_t) (tag : Z) : res bool := '(found, _) ← FD_TCACHE_QUERY (map t) (map_cnt t) tag; Ok found.

Definition remove (t : fd_tcache_t) (tag : Z) : res fd_tcache_t :=
  map ← fd_tcache_remove (map t) (map_cnt t) tag; Ok (mk_tcache (magic t) (depth t) (map_cnt t) (oldest t) (ring t) map).

Definition reset (t : fd_tcache_t) : res fd_tcache_t :=
  '(oldest, ring, map) ← fd_tcache_reset (ring t) (depth t) (map t) (map_cnt t); Ok (mk_tcache (magic t) (depth t) (map_cnt t) oldest ring map).

(** ** The map

    The map is an open addressing map without values whose hash is the tag. *)

Definition tag_hash (tag _ : Z) : Z := u64 tag.
Definition slot_of (tag : Z) : slot_t Z unit := mk_slot tag 0 tt.
Definition slots_of (m : words) : gmap Z (slot_t Z unit) := slot_of <$> m.

Abbreviation is_full := (full fd_tcache_tag_is_null).
Abbreviation is_occ := (occ fd_tcache_tag_is_null).

(** The tags in the map are [S]. *)
Definition tags (N : Z) (m : words) (S : gset Z) : Prop := table fd_tcache_tag_is_null tag_hash 64 false N 0 (slots_of m) None (gset_to_gmap tt S).

Lemma u64_land a b : is_u64 b -> Z.land (u64 a) b = Z.land a b.
Proof.
  intros Hb. unfold is_u64, ULONG_MAX in Hb. unfold u64. change 18446744073709551616 with (2 ^ 64). rewrite <- Z.land_ones by lia. rewrite <- Z.land_assoc. f_equal. rewrite Z.land_comm, Z.land_ones by lia. apply Z.mod_small. lia.
Qed.

Lemma tag_hash_range k s : 0 <= tag_hash k s < 2 ^ 64.
Proof. apply Z.mod_pos_bound. lia. Qed.

Lemma slots_lookup m i e : slots_of m !! i = Some e <-> exists t, m !! i = Some t /\ e = slot_of t.
Proof. unfold slots_of. rewrite lookup_fmap_Some. naive_solver. Qed.

Lemma slots_get m i : slots_of m !! i = slot_of <$> m !! i.
Proof. apply lookup_fmap. Qed.

Lemma slots_insert m i t : slots_of (<[i := t]> m) = <[i := slot_of t]> (slots_of m).
Proof. apply fmap_insert. Qed.

Lemma slots_full m i t : m !! i = Some t -> t <> 0 -> is_full (slots_of m) i (slot_of t).
Proof. intros E Ht. split; [apply slots_lookup; by exists t|]. cbn. unfold fd_tcache_tag_is_null, FD_TCACHE_TAG_NULL. by apply Z.eqb_neq. Qed.

Lemma full_tag m i e : is_full (slots_of m) i e -> m !! i = Some (key e) /\ key e <> 0.
Proof.
  intros [(t & E & ->)%slots_lookup Hv]. split; [done|]. cbn in *. unfold fd_tcache_tag_is_null, FD_TCACHE_TAG_NULL in Hv. by apply Z.eqb_neq in Hv.
Qed.

(** A loop that does the same in other terms. *)
Lemma loop_sim {S1 S2 R1 R2} (f : S1 -> S2) (g : R1 -> R2) (step1 : S1 -> res (S1 + R1)) (step2 : S2 -> res (S2 + R2)) :
  (forall s, step2 (f s) = match step1 s with Ok (inl s') => Ok (inl (f s')) | Ok (inr r) => Ok (inr (g r)) | Crit => Crit | Ub => Ub | Hang => Hang end) ->
  forall n s, loop step2 n (f s) = match loop step1 n s with Ok r => Ok (g r) | Crit => Crit | Ub => Ub | Hang => Hang end.
Proof.
  intros Hs. induction n as [|n IH]; intros s; [done|]. rewrite !loop_S, Hs. destruct (step1 s) as [[s'|r]| | |]; done.
Qed.

Section map.
Context (lg : Z) (Hlg : 0 <= lg <= 63).

Abbreviation N := (2 ^ lg).

Lemma N_pos : 0 < N.
Proof using Hlg. apply Z.pow_pos_nonneg; lia. Qed.

Lemma N_mask : u64 (N - 1) = N - 1.
Proof using Hlg. apply u64_small. pose proof N_pos. assert (N <= 2 ^ 63) by (apply Z.pow_le_mono_r; lia). unfold is_u64, ULONG_MAX. lia. Qed.

Lemma mask_u64 : is_u64 (N - 1).
Proof using Hlg. rewrite <- N_mask. unfold u64, is_u64, ULONG_MAX. pose proof (Z.mod_pos_bound (N - 1) 18446744073709551616). lia. Qed.

Lemma map_start_eq k : fd_tcache_map_start k N = start tag_hash 64 N 0 k.
Proof using Hlg.
  unfold fd_tcache_map_start, start, private_start, tag_hash. rewrite N_mask. pose proof mask_u64 as Hm. rewrite (Z.mod_small (N - 1)) by (unfold is_u64, ULONG_MAX in Hm; lia). by rewrite u64_land.
Qed.

Lemma map_next_eq i : fd_tcache_map_next i N = private_next i (N - 1).
Proof using Hlg. unfold fd_tcache_map_next, private_next. by rewrite N_mask. Qed.

Lemma map_next_succ i : on N i -> fd_tcache_map_next i N = succ N i.
Proof using Hlg. intros Hi. rewrite map_next_eq. by apply (next_succ N N_pos lg Hlg eq_refl). Qed.

Lemma fuel_ok : N < Z.of_nat (probe_fuel N).
Proof using Hlg. unfold probe_fuel. pose proof N_pos. lia. Qed.

Lemma tags_dom m S i : tags N m S -> is_Some (m !! i) <-> on N i.
Proof using Hlg. intros T. rewrite <- (tb_dom _ _ _ _ _ _ _ _ _ T i). unfold slots_of. by rewrite lookup_fmap, fmap_is_Some. Qed.

Lemma tags_elem m S k : tags N m S -> k ∈ S <-> exists i, m !! i = Some k /\ k <> 0.
Proof using Hlg.
  intros T. pose proof (tb_keys _ _ _ _ _ _ _ _ _ T k tt) as Hk. rewrite lookup_gset_to_gmap_Some in Hk. split.
  - intros Hin. destruct (proj1 Hk (conj Hin eq_refl)) as (i & e & Hf & <- & _). apply full_tag in Hf. by exists i.
  - intros (i & E & Hne). apply Hk. exists i, (slot_of k). split; [by apply slots_full|done].
Qed.

Lemma tags_size (S : gset Z) : size (gset_to_gmap tt S) = size S.
Proof using Type. by rewrite <- (size_dom (D := gset Z)), dom_gset_to_gmap. Qed.

(** A query ends: at the tag, or at an empty slot if it is not in the map.  The
    null tag is always found. *)
Lemma query_map_ok m S k : tags N m S -> Z.of_nat (size S) < N -> exists i,
  FD_TCACHE_QUERY m N k = Ok (bool_decide (k = 0 \/ k ∈ S), i) /\ probe_end fd_tcache_tag_is_null tag_hash 64 N 0 (slots_of m) k i.
Proof using Hlg.
  intros T Hs. unfold FD_TCACHE_QUERY. rewrite map_start_eq.
  destruct (probe_ok fd_tcache_tag_is_null tag_hash 64 false ltac:(lia) tag_hash_range N 0 N_pos (query_step m N k) (slots_of m) _ k T) as (i & Hend & Hloop).
  - by rewrite tags_size.
  - intros i e Hf Hne. pose proof (table_on _ _ _ _ _ _ _ _ _ _ _ T Hf) as Hi. apply full_tag in Hf as [E Hv]. unfold query_step. rewrite E. cbn [deref mbind res_bind]. unfold fd_tcache_tag_is_null, FD_TCACHE_TAG_NULL. rewrite (proj2 (Z.eqb_neq k (key e))), (proj2 (Z.eqb_neq (key e) 0)) by congruence. cbn [orb]. by rewrite map_next_succ.
  - exists i. split; [|done]. apply Hloop; [|apply fuel_ok]. destruct Hend as [Hi [(e & Hf & <-)|(Ho & Hno & _)]].
    + apply full_tag in Hf as [E Hv]. unfold query_step. rewrite E. cbn [deref mbind res_bind]. rewrite Z.eqb_refl. cbn [orb]. rewrite bool_decide_eq_true_2; [done|]. right. apply (tags_elem m); [done|]. by exists i.
    + destruct (proj2 (tags_dom m S i T) Hi) as [t E]. assert (t = 0) as ->.
      { destruct (decide (t = 0)) as [|Ht]; [done|]. pose proof (slots_full m i t E Ht) as Hf. apply full_occ in Hf. congruence. }
      unfold query_step. rewrite E. cbn [deref mbind res_bind]. unfold fd_tcache_tag_is_null, FD_TCACHE_TAG_NULL. rewrite Z.eqb_refl, orb_true_r. do 3 f_equal. destruct (Z.eqb_spec k 0) as [->|Hk]; [symmetry; apply bool_decide_eq_true_2; by left|]. symmetry. apply bool_decide_eq_false_2. intros [?|Hin]; [done|]. apply (tags_elem m S k T) in Hin as (q & Eq & _). by apply (Hno q (slot_of k)); [apply slots_full|].
Qed.

Lemma insert_map_ok m S k i : tags N m S -> probe_end fd_tcache_tag_is_null tag_hash 64 N 0 (slots_of m) k i -> k <> 0 -> k ∉ S -> exists m', store m i k = Ok m' /\ tags N m' ({[k]} ∪ S).
Proof using Hlg.
  intros T Hend Hk Hn. pose proof Hend as [Hi _]. destruct (proj2 (tags_dom m S i T) Hi) as [t E]. unfold store. rewrite E. cbn [deref mbind res_bind]. eexists. split; [done|]. unfold tags. rewrite slots_insert, gset_to_gmap_union_singleton.
  apply (table_insert FD_TCACHE_TAG_NULL fd_tcache_tag_is_null tag_hash 64 false false eq_refl ltac:(lia) tag_hash_range N 0 (slots_of m) _ k i (slot_of t) N_pos); try done.
  - intros q e Hf Ek. apply full_tag in Hf as [Eq Hv]. apply Hn, (tags_elem m S k T). exists q. by rewrite <- Ek.
  - apply slots_lookup. by exists t.
  - unfold fd_tcache_tag_is_null, FD_TCACHE_TAG_NULL. by apply Z.eqb_neq.
Qed.

(** Removal does the steps of the removal of the map template. *)
Definition dyn (m : words) : map_t Z unit := mk_map 0 0 (N - 1) lg (slots_of m).

Lemma scan_sim m h i : MapDynamic.scan_step fd_tcache_tag_is_null tag_hash 64 false (dyn m) (slots_of m) h i = scan_step m N h i.
Proof using Hlg.
  unfold MapDynamic.scan_step, scan_step, get. cbn [slot_mask dyn seed]. rewrite <- map_next_eq. rewrite slots_get. destruct (m !! fd_tcache_map_next i N) as [t|]; cbn [fmap option_fmap option_map deref mbind res_bind key slot_of]; [|done].
  destruct (fd_tcache_tag_is_null t); [done|]. rewrite map_start_eq. done.
Qed.

Lemma remove_sim m i : MapDynamic.remove_step FD_TCACHE_TAG_NULL fd_tcache_tag_is_null tag_hash 64 false (dyn m) (slots_of m, i) =
  match remove_step N (m, i) with Ok (inl (m', j)) => Ok (inl (slots_of m', j)) | Ok (inr m') => Ok (inr (slots_of m')) | Crit => Crit | Ub => Ub | Hang => Hang end.
Proof using Hlg.
  unfold MapDynamic.remove_step, remove_step, get, store. rewrite slots_get. destruct (m !! i) as [t|]; cbn [fmap option_fmap option_map deref mbind res_bind]; [|done].
  change (set_key FD_TCACHE_TAG_NULL (slot_of t)) with (slot_of FD_TCACHE_TAG_NULL). rewrite <- slots_insert. set (m1 := <[i := FD_TCACHE_TAG_NULL]> m).
  assert (El : loop (MapDynamic.scan_step fd_tcache_tag_is_null tag_hash 64 false (dyn m) (slots_of m1) i) (MapDynamic.probe_fuel (dyn m)) i = loop (scan_step m1 N i) (probe_fuel N) i).
  { change (MapDynamic.probe_fuel (dyn m)) with (probe_fuel N). generalize (probe_fuel N). generalize i at 2 4. intros j n. revert j. induction n as [|n IH]; intros j; [done|]. rewrite !loop_S. change (MapDynamic.scan_step fd_tcache_tag_is_null tag_hash 64 false (dyn m)) with (MapDynamic.scan_step fd_tcache_tag_is_null tag_hash 64 false (dyn m1)) at 1. rewrite scan_sim. destruct (scan_step m1 N i j) as [[j'|r]| | |]; done. }
  rewrite El. destruct (loop (scan_step m1 N i) (probe_fuel N) i) as [[j|]| | |]; cbn [mbind res_bind]; try done. rewrite slots_get. destruct (m1 !! j) as [t'|] eqn:Ej; cbn [fmap option_fmap option_map deref mbind res_bind]; [|done].
  unfold m1 at 3. rewrite lookup_insert_eq. cbn [deref mbind res_bind]. by rewrite slots_insert.
Qed.

Lemma remove_map_ok m S k : tags N m S -> Z.of_nat (size S) < N -> exists m', fd_tcache_remove m N k = Ok m' /\ tags N m' (S ∖ {[k]}).
Proof using Hlg.
  intros T Hs. unfold fd_tcache_remove. assert (Hno : k ∉ S -> S ∖ {[k]} = S) by set_solver.
  destruct (fd_tcache_tag_is_null k) eqn:Ek.
  - unfold fd_tcache_tag_is_null, FD_TCACHE_TAG_NULL in Ek. apply Z.eqb_eq in Ek as ->. exists m. split; [done|]. rewrite Hno; [done|]. by intros (i & _ & ?)%(tags_elem m S 0 T).
  - destruct (query_map_ok m S k T Hs) as (i & -> & [Hi Hend]). cbn [mbind res_bind]. unfold fd_tcache_tag_is_null, FD_TCACHE_TAG_NULL in Ek. apply Z.eqb_neq in Ek. destruct (bool_decide_reflect (k = 0 \/ k ∈ S)) as [[?|Hin]|Hn]; [done| |exists m; rewrite Hno by tauto; done].
    destruct Hend as [(e & Hf & <-)|(_ & Hne & _)]; [|apply (tags_elem m S k T) in Hin as (q & Eq & _); by destruct (Hne q (slot_of k)); [apply slots_full|]].
    destruct (remove_loop_ok FD_TCACHE_TAG_NULL fd_tcache_tag_is_null tag_hash 64 false false eq_refl ltac:(lia) tag_hash_range N 0 N_pos lg Hlg eq_refl (dyn m) eq_refl eq_refl (slots_of m) _ i e T ltac:(by rewrite tags_size) Hf) as (s' & El & T').
    change (MapDynamic.probe_fuel (dyn m)) with (probe_fuel N) in El.
    rewrite (loop_sim (fun st : words * Z => (slots_of st.1, st.2)) slots_of (remove_step N) _) with (s := (m, i)) in El.
    + destruct (loop (remove_step N) (probe_fuel N) (m, i)) as [m'| | |]; try done. injection El as <-. exists m'. split; [done|]. unfold tags. rewrite gset_to_gmap_difference_singleton. done.
    + intros [m1 j]. cbn [fst snd]. change (MapDynamic.remove_step FD_TCACHE_TAG_NULL fd_tcache_tag_is_null tag_hash 64 false (dyn m)) with (MapDynamic.remove_step FD_TCACHE_TAG_NULL fd_tcache_tag_is_null tag_hash 64 false (dyn m1)). rewrite remove_sim. by destruct (remove_step N (m1, j)) as [[[? ?]|?]| | |].
Qed.

(** *** Memory of any contents

    The loops end whatever the words of the map are, as long as one of them is
    null. *)

Definition sized (m : words) : Prop := forall i, is_Some (m !! i) <-> on N i.
Abbreviation null_at m q := (m !! q = Some 0).

Lemma sized_insert m i v : sized m -> on N i -> sized (<[i := v]> m).
Proof using Type. intros Hm Hi j. destruct (decide (i = j)) as [->|Hne]; [rewrite lookup_insert_eq; split; [done|by eexists]|]. rewrite lookup_insert_ne by done. apply Hm. Qed.

Lemma store_sized m i v : sized m -> on N i -> store m i v = Ok (<[i := v]> m).
Proof using Type. intros Hm Hi. unfold store. destruct (proj2 (Hm i) Hi) as [t ->]. done. Qed.

Lemma dist_next i z : on N i -> on N z -> i <> z -> on N (succ N i) /\ dist N (succ N i) z = dist N i z - 1.
Proof using Hlg.
  intros Hi Hz Hne. pose proof N_pos as Hp. pose proof (succ_on N i Hi) as Hs. split; [done|]. pose proof (dist_pos N i z Hi Hz Hne). assert (E : dist N i (succ N i) = 1) by (rewrite dist_succ, dist_refl; rewrite ?dist_refl; try done; unfold on in Hi, Hz; lia). rewrite <- E. apply dist_add; try done. lia.
Qed.

Lemma dist_fuel i z : on N i -> on N z -> (Z.to_nat (dist N i z) < probe_fuel N)%nat.
Proof using Hlg. intros Hi Hz. pose proof (dist_range N i z Hi Hz). pose proof fuel_ok. lia. Qed.

Lemma query_total m k z : sized m -> null_at m z -> exists found i, FD_TCACHE_QUERY m N k = Ok (found, i) /\ on N i /\ (if found then null_at m i \/ k <> 0 else null_at m i /\ k <> 0).
Proof using Hlg.
  intros Hm Hz. assert (Oz : on N z) by (apply Hm; by eexists). unfold FD_TCACHE_QUERY. rewrite map_start_eq.
  pose proof (start_on tag_hash 64 ltac:(lia) tag_hash_range N 0 k N_pos) as Hk.
  assert (Hr : exists r, loop (query_step m N k) (probe_fuel N) (start tag_hash 64 N 0 k) = Ok r /\ on N r.2 /\ (if r.1 : bool then null_at m r.2 \/ k <> 0 else null_at m r.2 /\ k <> 0)); [|destruct Hr as ((found & i) & -> & Hr); by exists found, i].
  apply (loop_total _ (fun i => on N i) (fun i => Z.to_nat (dist N i z))); [|done|by apply dist_fuel].
  intros i Hi. unfold query_step. destruct (proj2 (Hm i) Hi) as [t Et]. rewrite Et. cbn [deref mbind res_bind]. unfold fd_tcache_tag_is_null, FD_TCACHE_TAG_NULL. destruct (Z.eqb_spec t 0) as [->|Ht].
  - right. rewrite orb_true_r. eexists. split; [done|]. split; [done|]. cbn [fst snd]. destruct (Z.eqb_spec k 0); [by left|done].
  - destruct (Z.eqb_spec k t) as [->|Hkt]; cbn [orb]; [right; eexists; split; [done|]; split; [done|]; by right|]. left. assert (Hne : i <> z) by congruence. destruct (dist_next i z Hi Oz Hne) as [Hs Hd]. rewrite map_next_succ by done. eexists. split; [done|]. split; [done|]. pose proof (dist_pos N i z Hi Oz Hne). lia.
Qed.

Lemma scan_total m h z : sized m -> on N h -> null_at m z -> z <> h -> exists o, loop (scan_step m N h) (probe_fuel N) h = Ok o /\
  match o with Some j => on N j /\ dist N j z < dist N h z /\ exists t, m !! j = Some t /\ t <> 0 | None => True end.
Proof using Hlg.
  intros Hm Hh Hz Hne. assert (Oz : on N z) by (apply Hm; by eexists).
  apply (loop_total (scan_step m N h) (fun i => on N i /\ i <> z /\ dist N i z <= dist N h z) (fun i => Z.to_nat (dist N i z))); [|split_and!; [done|congruence|lia]|by apply dist_fuel].
  intros i (Hi & Hiz & Hd). unfold scan_step. rewrite map_next_succ by done. destruct (dist_next i z Hi Oz Hiz) as [Hs Ed]. destruct (proj2 (Hm _) Hs) as [t Et]. rewrite Et. cbn [deref mbind res_bind]. pose proof (dist_pos N i z Hi Oz Hiz). unfold fd_tcache_tag_is_null, FD_TCACHE_TAG_NULL. destruct (Z.eqb_spec t 0) as [->|Ht]; [right; by exists None|].
  destruct (negb _); [right; eexists; split; [done|]; split; [done|]; split; [lia|by exists t]|]. left. eexists. split; [done|]. split; [|lia]. split; [done|]. split; [congruence|lia].
Qed.

(** Removal empties one more slot, and fills none that was empty. *)
Lemma remove_total m k z : sized m -> null_at m z -> exists m', fd_tcache_remove m N k = Ok m' /\ sized m' /\ forall q, null_at m q -> null_at m' q.
Proof using Hlg.
  intros Hm Hz. assert (Oz : on N z) by (apply Hm; by eexists). unfold fd_tcache_remove. destruct (fd_tcache_tag_is_null k) eqn:Ek; [by exists m|]. destruct (query_total m k z Hm Hz) as (found & i & Eq & Hi & Hf). rewrite Eq. cbn [mbind res_bind]. destruct found; [|by exists m].
  assert (Hki : m !! i = Some k).
  { unfold FD_TCACHE_QUERY in Eq. revert Eq. generalize (probe_fuel N) as n, (fd_tcache_map_start k N) as j. induction n as [|n IH]; intros j; [done|]. rewrite loop_S. unfold query_step at 1. destruct (m !! j) as [t|] eqn:Ej; cbn [deref mbind res_bind]; [|done]. destruct (Z.eqb_spec k t) as [->|Hkt]; cbn [orb]; [by intros [= <-]|]. destruct (fd_tcache_tag_is_null t); [done|]. apply IH. }
  assert (Hkz : k <> 0) by (unfold fd_tcache_tag_is_null, FD_TCACHE_TAG_NULL in Ek; by apply Z.eqb_neq in Ek).
  apply (loop_total (remove_step N) (fun st => sized st.1 /\ on N st.2 /\ forall q, null_at m q -> null_at st.1 q /\ q <> st.2) (fun st => Z.to_nat (dist N st.2 z))).
  - intros [m1 h] (Hm1 & Hh & Hn). cbn [fst snd] in *. unfold remove_step. rewrite store_sized by done. cbn [mbind res_bind]. destruct (Hn z Hz) as [Hz1 Hzh]. assert (Hn1 : forall q, null_at m q -> null_at (<[h := FD_TCACHE_TAG_NULL]> m1) q) by (intros q Hq; destruct (Hn q Hq) as [? ?]; by rewrite lookup_insert_ne by done). pose proof (sized_insert m1 h FD_TCACHE_TAG_NULL Hm1 Hh) as Hm2.
    destruct (scan_total _ h z Hm2 Hh (Hn1 z Hz) Hzh) as (o & -> & Ho). cbn [mbind res_bind]. destruct o as [j|]; [|right; eexists; split; [done|]; by split]. destruct Ho as (Hj & Hd & t & Et & Ht). left. rewrite Et. cbn [deref mbind res_bind]. rewrite store_sized by done. cbn [mbind res_bind]. eexists. split; [done|]. cbn [fst snd]. split; [|pose proof (dist_range N j z Hj Oz); lia].
    split; [by apply sized_insert|]. split; [done|]. intros q Hq. split; [destruct (Hn q Hq) as [_ ?]; rewrite lookup_insert_ne by done; by apply Hn1|]. intros ->. pose proof (Hn1 j Hq). congruence.
  - cbn [fst snd]. split; [done|]. split; [done|]. intros q Hq. split; [done|congruence].
  - by apply dist_fuel.
Qed.
End map.

(** ** Construction *)

Lemma fill_null_ok cnt a : (forall i, is_Some (a !! i) <-> 0 <= i < cnt) -> exists a', fill_null cnt a = Ok a' /\ forall i, a' !! i = if decide (0 <= i < cnt) then Some 0 else None.
Proof.
  intros Ha. unfold fill_null. assert (Hg : forall l b, (forall i, i ∈ l -> is_Some (b !! i)) -> exists b', foldl (fun r i => a ← r; store a i FD_TCACHE_TAG_NULL) (Ok b) l = Ok b' /\ forall i, b' !! i = if decide (i ∈ l) then Some 0 else b !! i).
  { induction l as [|j l IH]; intros b Hb; cbn [foldl]; [exists b; split; [done|]; intros i; by rewrite decide_False by apply not_elem_of_nil|]. cbn [mbind res_bind]. unfold store at 2. destruct (Hb j ltac:(by left)) as [t Et]. rewrite Et. cbn [deref mbind res_bind].
    destruct (IH (<[j := FD_TCACHE_TAG_NULL]> b)) as (b' & E & Hl); [intros i Hi; destruct (decide (i = j)) as [->|Hne]; [rewrite lookup_insert_eq; by eexists|rewrite lookup_insert_ne by done; apply Hb; by right]|]. exists b'. split; [done|]. intros i. rewrite Hl. destruct (decide (i ∈ l)) as [Hi|Hi]; [by rewrite decide_True by (by right)|].
    destruct (decide (i = j)) as [->|Hne]; [rewrite lookup_insert_eq, decide_True by (by left); done|]. rewrite lookup_insert_ne by done. rewrite decide_False; [done|]. by intros [->|?]%elem_of_cons. }
  destruct (Hg (seqZ 0 cnt) a) as (a' & E & Hl); [intros i Hi%elem_of_seqZ; apply Ha; lia|]. exists a'. split; [done|]. intros i. rewrite Hl. destruct (decide (0 <= i < cnt)) as [Hi|Hi]; [by rewrite decide_True by (apply elem_of_seqZ; lia)|]. rewrite decide_False by (rewrite elem_of_seqZ; lia). destruct (a !! i) as [t|] eqn:Et; [|done]. destruct Hi. apply Ha. by exists t.
Qed.

Lemma zeroed_lookup cnt i : is_Some (zeroed cnt !! i) <-> 0 <= i < cnt.
Proof.
  unfold zeroed. rewrite <- (elem_of_dom (D := gset Z)), dom_list_to_map_L, <- list_fmap_compose, elem_of_list_to_set. unfold compose. cbn [fst]. rewrite list_fmap_id, elem_of_seqZ. lia.
Qed.

(** ** The cache *)

(** How many tags were inserted after the one at index [i] of the ring. *)
Definition age (t : fd_tcache_t) (i : Z) : nat := Z.to_nat ((oldest t - 1 - i) mod depth t).

(** [h] are the tags that were inserted, the newest first, and [S] those the cache
    knows. *)
Record cache (t : fd_tcache_t) (h : list Z) (S : gset Z) : Prop := mk_cache {
  ca_depth : 0 < depth t;
  ca_cnt : exists lg, 0 <= lg <= 63 /\ map_cnt t = 2 ^ lg;
  ca_room : depth t + 2 <= map_cnt t;
  ca_oldest : 0 <= oldest t < depth t;
  ca_ring : forall i, ring t !! i = if decide (0 <= i < depth t) then Some (default 0 (h !! age t i)) else None;
  ca_tags : tags (map_cnt t) (map t) S;
  ca_known : forall x, x ∈ S -> x ∈ take (Z.to_nat (depth t)) h;
  ca_nonnull : Forall (fun x => x <> 0) h;
}.

Lemma cache_size t h S : cache t h S -> Z.of_nat (size S) <= depth t.
Proof.
  intros [C1 _ _ _ _ _ C2 _]. assert (Hs : S ⊆ list_to_set (take (Z.to_nat (depth t)) h)) by (intros x Hx; apply elem_of_list_to_set; by apply C2). apply subseteq_size in Hs. assert (Hl : forall l : list Z, (size (list_to_set l : gset Z) <= length l)%nat).
  { induction l as [|x l IH]; [done|]. cbn [list_to_set length]. pose proof (size_union_alt (A := Z) (C := gset Z) {[x]} (list_to_set l)) as E. rewrite size_singleton in E. assert (size (list_to_set l ∖ {[x]} : gset Z) <= size (list_to_set l : gset Z))%nat by (apply subseteq_size; set_solver). lia. }
  specialize (Hl (take (Z.to_nat (depth t)) h)). rewrite length_take in Hl. lia.
Qed.

(** The tag that leaves when another one comes. *)
Definition evict (d : Z) (h : list Z) (S : gset Z) : gset Z := match h !! Z.to_nat (d - 1) with Some e => S ∖ {[e]} | None => S end.

Lemma query_cache_ok t h S tag : cache t h S -> query t tag = Ok (bool_decide (tag = 0 \/ tag ∈ S)).
Proof.
  intros C. pose proof (cache_size _ _ _ C). destruct C as [C1 (lg & Hlg & Elg) C3 C4 C5 C6 C7 C8]. unfold query. rewrite Elg in *. destruct (query_map_ok lg Hlg (map t) S tag C6 ltac:(lia)) as (i & -> & _). done.
Qed.

Lemma insert_dup_ok t h S tag : cache t h S -> tag = 0 \/ tag ∈ S -> insert t tag = Ok (true, t).
Proof.
  intros C Ht. pose proof (cache_size _ _ _ C). destruct C as [C1 (lg & Hlg & Elg) C3 C4 C5 C6 C7 C8]. unfold insert, FD_TCACHE_INSERT. rewrite Elg in C3, C6 |- * at 1. destruct (query_map_ok lg Hlg (map t) S tag C6 ltac:(lia)) as (i & E & _). rewrite Elg, E. cbn [mbind res_bind]. rewrite bool_decide_eq_true_2 by done. cbn. rewrite <- Elg. by destruct t.
Qed.

Lemma age_oldest t : 0 <= oldest t < depth t -> age t (oldest t) = Z.to_nat (depth t - 1).
Proof. intros Ho. unfold age. f_equal. replace (oldest t - 1 - oldest t) with (depth t - 1 + (-1) * depth t) by lia. rewrite Z.mod_add by lia. apply Z.mod_small. lia. Qed.

(** The next index is younger by one step. *)
Lemma age_step o d i : 0 <= o < d -> 0 <= i < d -> i <> o -> ((if d <=? o + 1 then 0 else o + 1) - 1 - i) mod d = (o - 1 - i) mod d + 1.
Proof.
  intros Ho Hi Hne. assert (E : ((if d <=? o + 1 then 0 else o + 1) - 1 - i) mod d = (o - i) mod d).
  { destruct (Z.leb_spec d (o + 1)); [|f_equal; lia]. assert (d = o + 1) by lia. subst d. replace (o - i) with (0 - 1 - i + 1 * (o + 1)) by lia. by rewrite Z.mod_add by lia. }
  rewrite E. destruct (Z.lt_ge_cases o i).
  - replace (o - i) with (o - i + d + (-1) * d) by lia. replace (o - 1 - i) with (o - 1 - i + d + (-1) * d) by lia. rewrite !Z.mod_add by lia. rewrite !Z.mod_small by lia. lia.
  - rewrite !Z.mod_small by lia. lia.
Qed.

Lemma insert_new_ok t h S tag : cache t h S -> tag <> 0 -> tag ∉ S -> depth t < 2 ^ 63 -> exists t', insert t tag = Ok (false, t') /\ cache t' (tag :: h) (evict (depth t) h ({[tag]} ∪ S)) /\ depth t' = depth t.
Proof.
  intros C Ht Hn Hd. pose proof (cache_size _ _ _ C) as Hs. destruct C as [C1 (lg & Hlg & Elg) C3 C4 C5 C6 C7 C8]. unfold insert, FD_TCACHE_INSERT. rewrite Elg in C3, C6.
  destruct (query_map_ok lg Hlg (map t) S tag C6 ltac:(lia)) as (i & E & Hend). rewrite Elg, E. cbn [mbind res_bind]. rewrite bool_decide_eq_false_2 by tauto. destruct (insert_map_ok lg Hlg (map t) S tag i C6 Hend Ht Hn) as (m1 & -> & T1). cbn [mbind res_bind].
  pose proof (C5 (oldest t)) as Eo. rewrite decide_True, age_oldest in Eo by lia. unfold store. rewrite Eo. cbn [deref mbind res_bind]. rewrite u64_small by (unfold is_u64, ULONG_MAX; lia).
  assert (Hs1 : Z.of_nat (size ({[tag]} ∪ S)) < 2 ^ lg) by (rewrite size_union, size_singleton by set_solver; lia).
  destruct (remove_map_ok lg Hlg m1 _ (default 0 (h !! Z.to_nat (depth t - 1))) T1 Hs1) as (m2 & -> & T2). cbn [mbind res_bind]. eexists. split; [done|]. split; [|done].
  assert (Ee : ({[tag]} ∪ S) ∖ {[default 0 (h !! Z.to_nat (depth t - 1))]} = evict (depth t) h ({[tag]} ∪ S)).
  { unfold evict. destruct (h !! Z.to_nat (depth t - 1)) as [e|]; cbn [default from_option id]; [done|]. assert (H0 : 0 ∉ S) by (by intros (? & _ & ?)%(tags_elem lg Hlg (map t) S 0 C6)). set_solver. }
  rewrite Ee in T2. split; cbn [depth map_cnt oldest ring map]; try done; [by exists lg|destruct (Z.leb_spec (depth t) (oldest t + 1)); lia| | |by constructor].
  - intros j. unfold age. cbn [oldest depth]. destruct (decide (j = oldest t)) as [->|Hne].
    + rewrite lookup_insert_eq, decide_True by lia. f_equal. replace ((if depth t <=? oldest t + 1 then 0 else oldest t + 1) - 1 - oldest t) with (0 + (if depth t <=? oldest t + 1 then -1 else 0) * depth t) by (destruct (Z.leb_spec (depth t) (oldest t + 1)); lia). by rewrite Z.mod_add by lia.
    + rewrite lookup_insert_ne by done. rewrite C5. destruct (decide (0 <= j < depth t)) as [Hj|]; [|done]. rewrite age_step by lia. pose proof (Z.mod_pos_bound (oldest t - 1 - j) (depth t) C1). unfold age. rewrite Z2Nat.inj_add, Nat.add_comm by lia. done.
  - intros x Hx. replace (Z.to_nat (depth t)) with (Datatypes.S (Z.to_nat (depth t - 1))) by lia. cbn [take]. apply elem_of_cons. destruct (decide (x = tag)) as [|Hxt]; [by left|right]. unfold evict in Hx.
    assert (HxS : x ∈ S) by (destruct (h !! Z.to_nat (depth t - 1)); set_solver). apply C7 in HxS. apply list_elem_of_lookup_1 in HxS as (k & Ek). apply lookup_take_Some in Ek as [Ek Hk]. destruct (decide (k = Z.to_nat (depth t - 1))) as [->|Hkne].
    + rewrite Ek in Hx. set_solver.
    + apply list_elem_of_lookup_2 with k. apply lookup_take_Some. split; [done|lia].
Qed.

Lemma remove_cache_ok t h S tag : cache t h S -> exists t', remove t tag = Ok t' /\ cache t' h (S ∖ {[tag]}) /\ depth t' = depth t.
Proof.
  intros C. pose proof (cache_size _ _ _ C). destruct C as [C1 (lg & Hlg & Elg) C3 C4 C5 C6 C7 C8]. unfold remove. rewrite Elg in C3, C6. destruct (remove_map_ok lg Hlg (map t) S tag C6 ltac:(lia)) as (m' & E & T). rewrite Elg, E. cbn [mbind res_bind]. eexists. split; [done|]. split; [|done]. split; try done; [by exists lg|]. cbn [depth]. intros x Hx. apply C7. set_solver.
Qed.

Lemma no_tags N m : (forall i, m !! i = if decide (0 <= i < N) then Some 0 else None) -> tags N m ∅.
Proof.
  intros Hm. unfold tags. rewrite gset_to_gmap_empty. assert (Hno : forall i e, ~ is_full (slots_of m) i e) by (intros i e [E Hne]%full_tag; rewrite Hm in E; destruct (decide (0 <= i < N)); congruence). split.
  - intros i. rewrite slots_get, fmap_is_Some, Hm. unfold on. destruct (decide (0 <= i < N)); (split; [try done; by intros [? ?]|try done; by eexists]).
  - by intros i e Hf; destruct (Hno i e).
  - by intros i j e e' Hf; destruct (Hno i e).
  - by intros i e p Hf; destruct (Hno i e).
  - done.
  - intros k v. rewrite lookup_empty. split; [done|]. intros (i & e & Hf & _). by destruct (Hno i e).
Qed.

(** What depth and number of slots are admitted. *)
Definition config (d mc : Z) : Prop := 0 < d /\ (exists lg, 0 <= lg <= 63 /\ mc = 2 ^ lg) /\ d + 2 <= mc.

Lemma tc_reset_ok ring0 map0 d mc : config d mc -> (forall i, is_Some (ring0 !! i) <-> 0 <= i < d) -> (forall i, is_Some (map0 !! i) <-> 0 <= i < mc) ->
  exists r m, fd_tcache_reset ring0 d map0 mc = Ok (0, r, m) /\ forall mg, cache (mk_tcache mg d mc 0 r m) [] ∅.
Proof.
  intros (H1 & H2 & H3) Hr Hm. unfold fd_tcache_reset. destruct (fill_null_ok d ring0 Hr) as (r & -> & Er). destruct (fill_null_ok mc map0 Hm) as (m & -> & Em). cbn [mbind res_bind]. exists r, m. split; [done|]. intros mg. split; cbn [depth map_cnt oldest ring map]; try done; by apply no_tags.
Qed.

Lemma cache_config t h S : cache t h S -> config (depth t) (map_cnt t).
Proof. by intros [? ? ? _ _ _ _ _]. Qed.

Lemma reset_cache_ok t h S : cache t h S -> exists t', reset t = Ok t' /\ cache t' [] ∅ /\ depth t' = depth t.
Proof.
  intros C. destruct (tc_reset_ok (ring t) (map t) (depth t) (map_cnt t) (cache_config _ _ _ C)) as (r & m & E & C').
  - intros i. rewrite (ca_ring _ _ _ C). destruct (decide (0 <= i < depth t)); (split; [try done; by intros [? ?]|try done; by eexists]).
  - intros i. destruct (ca_cnt _ _ _ C) as (lg & Hlg & Elg). pose proof (ca_tags _ _ _ C) as T. rewrite Elg in T |- *. by apply (tags_dom lg Hlg _ S).
  - unfold reset. rewrite E. cbn [mbind res_bind]. eexists. split; [done|]. split; [apply C'|done].
Qed.

Lemma is_pow2_log x : is_u64 x -> fd_ulong_is_pow2 x = true -> exists lg, 0 <= lg <= 63 /\ x = 2 ^ lg.
Proof.
  unfold is_u64, ULONG_MAX, fd_ulong_is_pow2. intros Hx [H0 Hl]%andb_true_iff. apply negb_true_iff, Z.eqb_neq in H0. apply Z.eqb_eq in Hl. rewrite u64_small in Hl by (unfold is_u64, ULONG_MAX; lia). assert (Hp : 0 < x) by lia. exists (Z.log2 x). pose proof (Z.log2_spec x Hp) as Hs. pose proof (Z.log2_nonneg x) as Hn. split; [split; [done|]; pose proof (Z.log2_le_mono x (2 ^ 64 - 1)) as Hm; change (Z.log2 (2 ^ 64 - 1)) with 63 in Hm; lia|].
  destruct (Z.le_gt_cases x (2 ^ Z.log2 x)) as [|Hgt]; [lia|exfalso]. assert (Eb : Z.testbit (Z.land x (x - 1)) (Z.log2 x) = true).
  { rewrite Z.land_spec, Z.bit_log2 by done. cbn. replace (Z.log2 x) with (Z.log2 (x - 1)) by (apply Z.log2_unique; lia). apply Z.bit_log2. lia. }
  rewrite Hl, Z.bits_0 in Eb. done.
Qed.

Lemma align_up_spec x : is_u64 x -> let f := fd_ulong_align_up x FD_TCACHE_ALIGN in f < x \/ (x <= f /\ f mod FD_TCACHE_ALIGN = 0 /\ is_u64 f).
Proof.
  unfold is_u64, ULONG_MAX, fd_ulong_align_up, FD_TCACHE_ALIGN. intros Hx. set (y := u64 (x + (128 - 1))). assert (Hy : 0 <= y < 2 ^ 64) by (unfold y, u64; apply Z.mod_pos_bound; lia).
  assert (E : Z.land y (ULONG_MAX - (128 - 1)) = y / 128 * 128).
  { replace (ULONG_MAX - (128 - 1)) with (Z.shiftl (Z.ones 57) 7) by reflexivity. apply Z.bits_inj'. intros n Hn. change 128 with (2 ^ 7). rewrite <- Z.shiftr_div_pow2, <- Z.shiftl_mul_pow2 by lia. rewrite Z.land_spec. destruct (Z.lt_ge_cases n 7); [rewrite !Z.shiftl_spec_low by lia; by rewrite andb_false_r|]. rewrite !Z.shiftl_spec, Z.shiftr_spec by lia. replace (n - 7 + 7) with n by lia.
    destruct (Z.lt_ge_cases n 64); [rewrite Z.ones_spec_low by lia; apply andb_true_r|]. rewrite Z.ones_spec_high, andb_false_r by lia. symmetry. destruct (decide (y = 0)) as [->|Hne]; [apply Z.bits_0|]. apply Z.bits_above_log2; [lia|]. apply Z.lt_le_trans with 64; [|lia]. apply Z.log2_lt_pow2; lia. }
  cbv zeta. rewrite E. destruct (Z.lt_ge_cases (y / 128 * 128) x); [by left|right]. split; [lia|]. split; [apply Z.mod_mul; lia|]. pose proof (Z.mul_div_le y 128). pose proof (Z.div_pos y 128). lia.
Qed.

(** The test for an overflow. *)
Lemma u64_add_no_wrap a b : is_u64 a -> is_u64 b -> b <= u64 (a + b) -> a + b <= ULONG_MAX.
Proof.
  unfold is_u64, u64, ULONG_MAX. intros Ha Hb Hle. destruct (Z.le_gt_cases (a + b) 18446744073709551615) as [|Hgt]; [done|exfalso]. replace (a + b) with (a + b - 18446744073709551616 + 1 * 18446744073709551616) in Hle by lia. rewrite Z.mod_add, Z.mod_small in Hle by lia. lia.
Qed.

(** A footprint is returned only for admitted parameters, and the header, the ring
    and the map fit in it. *)
Lemma footprint_ok d mc : is_u64 d -> is_u64 mc -> fd_tcache_footprint d mc <> 0 -> let mc' := if mc =? 0 then fd_tcache_map_cnt_default d else mc in
  config d mc' /\ 8 * (4 + d + mc') <= fd_tcache_footprint d mc <= ULONG_MAX /\ fd_tcache_footprint d mc mod FD_TCACHE_ALIGN = 0.
Proof.
  intros Hd Hmc. unfold fd_tcache_footprint. cbv zeta. set (m := if mc =? 0 then fd_tcache_map_cnt_default d else mc).
  assert (Hm : is_u64 m).
  { unfold m, fd_tcache_map_cnt_default. destruct (mc =? 0); [|done]. destruct (d =? 0); [by split|]. destruct (d =? ULONG_MAX); [by split|]. destruct (Z.ltb_spec 63 (fd_ulong_find_msb (u64 (d + 1)) + FD_TCACHE_SPARSE_DEFAULT)) as [|Hle]; [by split|]. rewrite Z.shiftl_1_l. unfold is_u64, ULONG_MAX. split; [apply Z.pow_nonneg; lia|]. apply Z.le_trans with (2 ^ 63); [apply Z.pow_le_mono_r; lia|lia]. }
  destruct (Z.eqb_spec d 0); [done|]. destruct (Z.ltb_spec m (u64 (d + 2))) as [|H2]; [done|]. destruct (fd_ulong_is_pow2 m) eqn:Ep; [|done]. cbn [orb negb]. destruct (is_pow2_log m Hm Ep) as (lg & Hlg & Em). assert (Hm63 : m <= 2 ^ 63) by (rewrite Em; apply Z.pow_le_mono_r; lia). destruct (Z.ltb_spec (u64 (4 + d)) d) as [|H4]; [done|].
  pose proof (u64_add_no_wrap 4 d ltac:(unfold is_u64, ULONG_MAX; lia) Hd ltac:(lia)) as Hd4.
  unfold is_u64, ULONG_MAX in Hd, Hm, Hd4. rewrite (u64_small (d + 2)) in H2 by (unfold is_u64, ULONG_MAX; lia). rewrite (u64_small (4 + d)) by (unfold is_u64, ULONG_MAX; lia). destruct (Z.ltb_spec (u64 (4 + d + m)) m); [done|]. pose proof (u64_add_no_wrap (4 + d) m ltac:(unfold is_u64, ULONG_MAX; lia) ltac:(unfold is_u64, ULONG_MAX; lia) ltac:(lia)) as Hc. unfold ULONG_MAX in Hc. rewrite (u64_small (4 + d + m)) by (unfold is_u64, ULONG_MAX; lia). destruct (Z.ltb_spec (ULONG_MAX / 8) (4 + d + m)) as [|H8]; [done|]. change (ULONG_MAX / 8) with 2305843009213693951 in H8.
  rewrite (u64_small ((4 + d + m) * 8)) by (unfold is_u64, ULONG_MAX; lia). pose proof (align_up_spec ((4 + d + m) * 8) ltac:(unfold is_u64, ULONG_MAX; lia)) as Ha. cbv zeta in Ha. destruct (Z.ltb_spec (fd_ulong_align_up ((4 + d + m) * 8) FD_TCACHE_ALIGN) ((4 + d + m) * 8)) as [|Hge]; [done|]. intros _. destruct Ha as [?|(_ & Ha & Hu)]; [lia|]. split; [|unfold is_u64 in Hu; split; [lia|done]]. split; [lia|]. split; [by exists lg|lia].
Qed.

Lemma footprint_default d mc : fd_tcache_footprint d (if mc =? 0 then fd_tcache_map_cnt_default d else mc) = fd_tcache_footprint d mc.
Proof. unfold fd_tcache_footprint. cbv zeta. destruct (Z.eqb_spec mc 0) as [->|Hne]; [by destruct (fd_tcache_map_cnt_default d =? 0) eqn:E; rewrite ?E|by rewrite (proj2 (Z.eqb_neq mc 0))]. Qed.

Lemma tcache_new_ok shmem d mc : is_u64 d -> is_u64 mc -> shmem <> 0 -> shmem mod FD_TCACHE_ALIGN = 0 -> fd_tcache_footprint d mc <> 0 ->
  exists t, fd_tcache_new shmem d mc = Ok (Some t) /\ cache t [] ∅ /\ depth t = d /\ map_cnt t = (if mc =? 0 then fd_tcache_map_cnt_default d else mc) /\ magic t = FD_TCACHE_MAGIC.
Proof.
  intros Hd Hmc Hs Ha Hf. destruct (footprint_ok d mc Hd Hmc Hf) as (Hc & _ & _). unfold fd_tcache_new. cbv zeta in *. rewrite (proj2 (Z.eqb_neq shmem 0)) by done. rewrite Ha. cbn [negb Z.eqb].
  rewrite footprint_default, (proj2 (Z.eqb_neq _ 0)) by done. destruct (tc_reset_ok (zeroed d) (zeroed (if mc =? 0 then fd_tcache_map_cnt_default d else mc)) _ _ Hc (zeroed_lookup _) (zeroed_lookup _)) as (r & m & -> & C). cbn [mbind res_bind]. eexists. split; [done|]. split; [apply C|done].
Qed.

(** ** Runs *)

Inductive tc_op := TInsert (tag : Z) | TQuery (tag : Z) | TRemove (tag : Z) | TReset.

(** The result of an insertion is whether the tag is a duplicate, that of a query
    whether it was found. *)
Definition tc_step (t : fd_tcache_t) (o : tc_op) : res (fd_tcache_t * bool) :=
  match o with
  | TInsert tag => '(dup, t) ← insert t tag; Ok (t, dup)
  | TQuery tag => found ← query t tag; Ok (t, found)
  | TRemove tag => t ← remove t tag; Ok (t, false)
  | TReset => t ← reset t; Ok (t, false)
  end.

Fixpoint tc_run (t : fd_tcache_t) (os : list tc_op) : res (fd_tcache_t * list bool) :=
  match os with
  | [] => Ok (t, [])
  | o :: os => '(t, r) ← tc_step t o; '(t, rs) ← tc_run t os; Ok (t, r :: rs)
  end.

(** The same on the history of insertions and a set: a tag is known from its
    insertion until it is removed or [d] more tags were inserted. *)
Definition known (S : gset Z) (tag : Z) : bool := bool_decide (tag = 0 \/ tag ∈ S).

Definition spec_step (d : Z) (s : list Z * gset Z) (o : tc_op) : list Z * gset Z * bool :=
  let '(h, K) := s in
  match o with
  | TInsert tag => if known K tag then (s, true) else (tag :: h, evict d h ({[tag]} ∪ K), false)
  | TQuery tag => (s, known K tag)
  | TRemove tag => (h, K ∖ {[tag]}, false)
  | TReset => ([], ∅, false)
  end.

Fixpoint spec_run (d : Z) (s : list Z * gset Z) (os : list tc_op) : list Z * gset Z * list bool :=
  match os with
  | [] => (s, [])
  | o :: os => let '(s, r) := spec_step d s o in let '(s, rs) := spec_run d s os in (s, r :: rs)
  end.

Lemma cache_depth t h S : cache t h S -> depth t < 2 ^ 63.
Proof. intros [C1 (lg & Hlg & Elg) C3 _ _ _ _ _]. assert (2 ^ lg <= 2 ^ 63) by (apply Z.pow_le_mono_r; lia). lia. Qed.

Lemma tc_step_ok t h S o : cache t h S -> exists t' h' S' r, tc_step t o = Ok (t', r) /\ spec_step (depth t) (h, S) o = (h', S', r) /\ cache t' h' S' /\ depth t' = depth t.
Proof.
  intros C. destruct o as [tag|tag|tag|]; cbn [tc_step spec_step].
  - unfold known. destruct (bool_decide_reflect (tag = 0 \/ tag ∈ S)) as [Hin|Hno].
    + rewrite (insert_dup_ok _ _ _ _ C Hin). by exists t, h, S, true.
    + destruct (insert_new_ok t h S tag C ltac:(tauto) ltac:(tauto) (cache_depth _ _ _ C)) as (t' & -> & C' & Hd). by exists t', (tag :: h), (evict (depth t) h ({[tag]} ∪ S)), false.
  - rewrite (query_cache_ok _ _ _ _ C). by exists t, h, S, (known S tag).
  - destruct (remove_cache_ok t h S tag C) as (t' & -> & C' & Hd). by exists t', h, (S ∖ {[tag]}), false.
  - destruct (reset_cache_ok t h S C) as (t' & -> & C' & Hd). by exists t', [], ∅, false.
Qed.

Lemma tc_run_ok os : forall t h S, cache t h S -> exists t' h' S' rs, tc_run t os = Ok (t', rs) /\ spec_run (depth t) (h, S) os = (h', S', rs) /\ cache t' h' S' /\ depth t' = depth t.
Proof.
  induction os as [|o os IH]; intros t h S C; [by exists t, h, S, []|]. cbn [tc_run spec_run]. destruct (tc_step_ok t h S o C) as (t1 & h1 & S1 & r & -> & -> & C1 & Hd1). cbn [mbind res_bind]. destruct (IH t1 h1 S1 C1) as (t2 & h2 & S2 & rs & -> & E2 & C2 & Hd2). rewrite Hd1 in E2. rewrite E2. cbn [mbind res_bind]. exists t2, h2, S2, (r :: rs). split; [done|]. split; [done|]. split; [done|congruence].
Qed.

(** ** Without removals *)

(** A tag is a duplicate when it is null or one of the last [d] that were not. *)
Definition window_step (d : Z) (h : list Z) (tag : Z) : list Z * bool :=
  if bool_decide (tag = 0 \/ tag ∈ take (Z.to_nat d) h) then (h, true) else (tag :: h, false).

(** The cache knows the last [depth] tags. *)
Definition recent (t : fd_tcache_t) (h : list Z) : Prop := cache t h (list_to_set (take (Z.to_nat (depth t)) h)) /\ NoDup (take (Z.to_nat (depth t)) h).

Lemma take_full (n : nat) (h : list Z) : take (S n) h = take n h ++ match h !! n with Some e => [e] | None => [] end.
Proof. destruct (h !! n) as [e|] eqn:E; [by apply take_S_r|]. rewrite app_nil_r. apply lookup_ge_None in E. by rewrite !take_ge by lia. Qed.

Lemma recent_insert t h tag : recent t h -> exists t', insert t tag = Ok ((window_step (depth t) h tag).2, t') /\ recent t' (window_step (depth t) h tag).1 /\ depth t' = depth t.
Proof.
  intros [C Hn]. unfold window_step. destruct (bool_decide_reflect (tag = 0 \/ tag ∈ take (Z.to_nat (depth t)) h)) as [Hin|Hno]; cbn [fst snd].
  - exists t. split; [|done]. apply (insert_dup_ok t h _ tag C). by rewrite elem_of_list_to_set.
  - destruct (insert_new_ok t h _ tag C ltac:(tauto) ltac:(rewrite elem_of_list_to_set; tauto) (cache_depth _ _ _ C)) as (t' & E & C' & Hd). exists t'. split; [done|]. split; [|done]. unfold recent. rewrite Hd. pose proof (ca_depth _ _ _ C). unfold evict in C'.
    set (n := Z.to_nat (depth t - 1)) in *. assert (En : Z.to_nat (depth t) = S n) by lia. rewrite En in *. cbn [take]. rewrite take_full in Hn, Hno, C'. apply NoDup_app in Hn as (N1 & N2 & _). rewrite elem_of_app in Hno.
    split; [|apply NoDup_cons; split; [tauto|done]]. assert (Es : list_to_set (tag :: take n h) = match h !! n with Some e => ({[tag]} ∪ list_to_set (take n h ++ match h !! n with Some e => [e] | None => [] end)) ∖ {[e]} | None => {[tag]} ∪ list_to_set (take n h ++ match h !! n with Some e => [e] | None => [] end) end :> gset Z).
    { destruct (h !! n) as [e|]; cbn [list_to_set]; rewrite list_to_set_app_L; cbn [list_to_set]; [|set_solver]. assert (e ∉ take n h) by (intros He; apply (N2 e He); by left). assert (tag <> e) by (intros ->; apply Hno; right; right; by left). set_solver. }
    rewrite Es. by destruct (h !! n).
Qed.

Lemma recent_query t h tag : recent t h -> query t tag = Ok (window_step (depth t) h tag).2.
Proof.
  intros [C _]. rewrite (query_cache_ok _ _ _ tag C). unfold window_step. destruct (bool_decide_reflect (tag = 0 \/ tag ∈ take (Z.to_nat (depth t)) h)) as [Hin|Hno]; cbn [snd]; [rewrite bool_decide_eq_true_2; [done|]|rewrite bool_decide_eq_false_2; [done|]]; by rewrite elem_of_list_to_set.
Qed.

Lemma recent_new t : cache t [] ∅ -> recent t [].
Proof. intros C. unfold recent. rewrite take_nil. split; [done|constructor]. Qed.

(** ** Caches whose map holds arbitrary words *)

Record shaped (t : fd_tcache_t) : Prop := mk_shaped {
  sh_depth : 0 < depth t < 2 ^ 63;
  sh_cnt : exists lg, 0 <= lg <= 63 /\ map_cnt t = 2 ^ lg;
  sh_oldest : 0 <= oldest t < depth t;
  sh_ring : forall i, is_Some (ring t !! i) <-> 0 <= i < depth t;
  sh_map : forall i, is_Some (map t !! i) <-> 0 <= i < map_cnt t;
}.

Lemma cache_shaped t h S : cache t h S -> shaped t.
Proof.
  intros C. pose proof C as [C1 C2 C3 C4 C5 C6 _ _]. pose proof (cache_depth _ _ _ C). split; try done.
  - intros i. rewrite C5. destruct (decide (0 <= i < depth t)); split; try done; by intros [].
  - destruct C2 as (lg & Hlg & E). intros i. rewrite E in *. apply (tags_dom lg Hlg _ _ _ C6).
Qed.

Lemma query_shaped t k z : shaped t -> map t !! z = Some 0 -> exists found, query t k = Ok found /\ (found = false -> k <> 0).
Proof.
  intros [_ (lg & Hlg & E) _ _ Hm] Hz. unfold query. rewrite E in *. destruct (query_total lg Hlg (map t) k z Hm Hz) as (found & i & -> & _ & Hf). cbn [mbind res_bind]. exists found. split; [done|]. destruct found; [done|]. intros _. apply Hf.
Qed.

(** With two empty slots an insertion ends too: it takes one of the empty slots at
    most. *)
Lemma insert_shaped t k z1 z2 : shaped t -> map t !! z1 = Some 0 -> map t !! z2 = Some 0 -> z1 <> z2 -> exists dup t', insert t k = Ok (dup, t') /\ query t k = Ok dup /\ shaped t' /\ map_cnt t' = map_cnt t /\
  if dup then t' = t else exists i, map t !! i = Some 0 /\ forall q, map t !! q = Some 0 -> q <> i -> map t' !! q = Some 0.
Proof.
  intros Hsh Hz1 Hz2 Hne. pose proof Hsh as [Hd (lg & Hlg & E) Ho Hr Hm]. unfold insert, query, FD_TCACHE_INSERT. rewrite E in *. destruct (query_total lg Hlg (map t) k z1 Hm Hz1) as (dup & i & -> & Hi & Hf). cbn [mbind res_bind]. destruct dup; [exists true, t; rewrite <- E; by destruct t|].
  destruct Hf as [Hzi Hk]. rewrite (store_sized lg (map t) i k Hm Hi). cbn [mbind res_bind]. destruct (proj2 (Hr (oldest t)) Ho) as [old Eo]. unfold store. rewrite Eo. cbn [deref mbind res_bind].
  assert (Hz : exists z, map t !! z = Some 0 /\ z <> i) by (destruct (decide (z1 = i)); [exists z2|exists z1]; split; congruence). destruct Hz as (z & Hz & Hzne). destruct (remove_total lg Hlg (<[i := k]> (map t)) old z (sized_insert lg _ _ _ Hm Hi) ltac:(by rewrite lookup_insert_ne)) as (m' & -> & Hm' & Hn). cbn [mbind res_bind]. eexists false, _. split; [done|]. split; [done|]. split; [|split; [done|]].
  - split; cbn [depth map_cnt oldest ring map]; try done; [by exists lg| |].
    + rewrite u64_small by (unfold is_u64, ULONG_MAX; lia). destruct (Z.leb_spec (depth t) (oldest t + 1)); lia.
    + intros j. destruct (decide (oldest t = j)) as [<-|Hj]; [rewrite lookup_insert_eq; split; [done|by eexists]|rewrite lookup_insert_ne by done; apply Hr].
  - exists i. split; [done|]. intros q Hq Hqi. apply Hn. by rewrite lookup_insert_ne.
Qed.

(** What was created can be joined until it is deleted. *)
Lemma tcache_lifetime shmem d mc t : fd_tcache_new shmem d mc = Ok (Some t) ->
  fd_tcache_join shmem t = Some t /\ exists t', fd_tcache_delete shmem t = Some t' /\ fd_tcache_join shmem t' = None /\ fd_tcache_delete shmem t' = None.
Proof.
  unfold fd_tcache_new, fd_tcache_join, fd_tcache_delete. destruct (shmem =? 0); [done|]. destruct (shmem mod FD_TCACHE_ALIGN =? 0); [|done]. cbn [negb]. destruct (fd_tcache_footprint _ _ =? 0); [done|]. destruct (fd_tcache_reset _ _ _ _) as [[[o r] m]| | |]; cbn [mbind res_bind]; try done. intros [= <-]. cbn [magic]. rewrite Z.eqb_refl. cbn [negb]. split; [done|]. eexists. by split.
Qed.

(** ** Properties *)

(** C37. A new cache of every admitted size answers every sequence of insertions,
    queries, removals and resets like a set that forgets a tag when [depth] more
    have been inserted; no access leaves the ring or the map, and no probe runs
    forever, whatever the tags.  The memory asked for holds the header, the ring
    and the map, and parameters that would overflow are refused. *)
Theorem tcache_run_refines (shmem d mc : Z) (os : list tc_op) :
  is_u64 d -> is_u64 mc -> shmem <> 0 -> shmem mod FD_TCACHE_ALIGN = 0 ->
  if fd_tcache_footprint d mc =? 0 then fd_tcache_new shmem d mc = Ok None
  else exists t t', fd_tcache_new shmem d mc = Ok (Some t) /\ 8 * (4 + d + map_cnt t) <= fd_tcache_footprint d mc <= ULONG_MAX /\ tc_run t os = Ok (t', (spec_run d ([], ∅) os).2).
Proof.
  intros Hd Hmc Hs Ha. destruct (Z.eqb_spec (fd_tcache_footprint d mc) 0) as [E0|Hne].
  - unfold fd_tcache_new. rewrite (proj2 (Z.eqb_neq shmem 0)), Ha by done. cbn [negb Z.eqb]. rewrite footprint_default, E0. done.
  - destruct (tcache_new_ok shmem d mc Hd Hmc Hs Ha Hne) as (t & E & C & Ed & Em & _). destruct (tc_run_ok os t [] ∅ C) as (t' & h' & S' & rs & Er & Es & _). exists t, t'. split; [done|]. rewrite Ed in Es. rewrite Es, Em. split; [by destruct (footprint_ok d mc Hd Hmc Hne) as (_ & ? & _)|done].
Qed.

(** Six words of history and every tag starting at the same slot: a tag is known
    until two more were inserted; a tag that was removed and inserted again is
    forgotten with its older place in the ring. *)
Lemma tcache_run_refines_witness : exists t t', fd_tcache_new 4096 2 0 = Ok (Some t) /\ 8 * (4 + 2 + map_cnt t) <= fd_tcache_footprint 2 0 <= ULONG_MAX /\
  tc_run t [TInsert 8; TInsert 16; TInsert 8; TInsert 24; TQuery 8; TRemove 24; TInsert 24; TQuery 16; TInsert 32; TQuery 24; TInsert 0; TReset; TQuery 32] = Ok (t', [false; false; true; false; false; false; false; false; false; false; true; false; false]).
Proof. exact (tcache_run_refines 4096 2 0 [TInsert 8; TInsert 16; TInsert 8; TInsert 24; TQuery 8; TRemove 24; TInsert 24; TQuery 16; TInsert 32; TQuery 24; TInsert 0; TReset; TQuery 32] ltac:(unfold is_u64, ULONG_MAX; lia) ltac:(unfold is_u64, ULONG_MAX; lia) ltac:(lia) eq_refl). Defined.
