(* ===== verification/Reasm.v ===== *)
(** * Reassembly of FEC sets ([src/discof/reasm/fd_reasm.c])

    FEC sets arrive in any order and are delivered for replay in the order of
    their chain of Merkle roots.  A FEC set is addressed by its Merkle root, the
    key of the maps it is in; [pool] holds the acquired elements.  The hash
    chain maps [ancestry], [frontier], [orphaned] and [subtrees] are the sets
    of their keys, the doubly linked lists [subtreel] and [out] are lists of
    keys. *)

From S2P Require Import Prelude Bits CompactU16.

#[local] Open Scope Z_scope.

(** ** State *)

(** What the caller gives for a FEC set. *)
Record fec_data := mk_data {
  cmr : Z;
  slot : Z;
  fec_set_idx : Z;
  parent_off : Z;
  data_cnt : Z;
  data_complete : bool;
  slot_complete : bool;
  is_leader : bool;
}.

(** [None] is the null index. *)
Record fd_reasm_fec_t := mk_fec {
  data : fec_data;
  parent : option Z;
  child : option Z;
  sibling : option Z;
  eqvoc : bool;
  confirmed : bool;
  popped : bool;
  in_out : bool;
  xid_next : option Z;
}.

Definition set_parent (o : option Z) (e : fd_reasm_fec_t) := mk_fec (data e) o (child e) (sibling e) (eqvoc e) (confirmed e) (popped e) (in_out e) (xid_next e).
Definition set_child (o : option Z) (e : fd_reasm_fec_t) := mk_fec (data e) (parent e) o (sibling e) (eqvoc e) (confirmed e) (popped e) (in_out e) (xid_next e).
Definition set_sibling (o : option Z) (e : fd_reasm_fec_t) := mk_fec (data e) (parent e) (child e) o (eqvoc e) (confirmed e) (popped e) (in_out e) (xid_next e).
Definition set_eqvoc (b : bool) (e : fd_reasm_fec_t) := mk_fec (data e) (parent e) (child e) (sibling e) b (confirmed e) (popped e) (in_out e) (xid_next e).
Definition set_confirmed (b : bool) (e : fd_reasm_fec_t) := mk_fec (data e) (parent e) (child e) (sibling e) (eqvoc e) b (popped e) (in_out e) (xid_next e).
Definition set_popped (b : bool) (e : fd_reasm_fec_t) := mk_fec (data e) (parent e) (child e) (sibling e) (eqvoc e) (confirmed e) b (in_out e) (xid_next e).
Definition set_in_out (b : bool) (e : fd_reasm_fec_t) := mk_fec (data e) (parent e) (child e) (sibling e) (eqvoc e) (confirmed e) (popped e) b (xid_next e).
Definition set_xid_next (o : option Z) (e : fd_reasm_fec_t) := mk_fec (data e) (parent e) (child e) (sibling e) (eqvoc e) (confirmed e) (popped e) (in_out e) o.

Notation fecs := (gmap Z fd_reasm_fec_t).

Record xid_t := mk_xid { xid_idx : option Z; xid_cnt : Z }.

(** [removed] lists the calls of [fd_store_remove], newest first. *)
Record fd_reasm_t := mk_reasm {
  fec_max : Z;
  slot0 : Z;
  root : option Z;
  pool : fecs;
  ancestry : gset Z;
  frontier : gset Z;
  orphaned : gset Z;
  subtrees : gset Z;
  subtreel : list Z;
  out : list Z;
  xid : gmap Z xid_t;
  removed : list Z;
}.

Definition with_pool (P : fecs) (r : fd_reasm_t) := mk_reasm (fec_max r) (slot0 r) (root r) P (ancestry r) (frontier r) (orphaned r) (subtrees r) (subtreel r) (out r) (xid r) (removed r).
Definition with_ancestry (s : gset Z) (r : fd_reasm_t) := mk_reasm (fec_max r) (slot0 r) (root r) (pool r) s (frontier r) (orphaned r) (subtrees r) (subtreel r) (out r) (xid r) (removed r).
Definition with_frontier (s : gset Z) (r : fd_reasm_t) := mk_reasm (fec_max r) (slot0 r) (root r) (pool r) (ancestry r) s (orphaned r) (subtrees r) (subtreel r) (out r) (xid r) (removed r).
Definition with_orphaned (s : gset Z) (r : fd_reasm_t) := mk_reasm (fec_max r) (slot0 r) (root r) (pool r) (ancestry r) (frontier r) s (subtrees r) (subtreel r) (out r) (xid r) (removed r).
Definition with_subtrees (s : gset Z) (l : list Z) (r : fd_reasm_t) := mk_reasm (fec_max r) (slot0 r) (root r) (pool r) (ancestry r) (frontier r) (orphaned r) s l (out r) (xid r) (removed r).
Definition with_out (l : list Z) (r : fd_reasm_t) := mk_reasm (fec_max r) (slot0 r) (root r) (pool r) (ancestry r) (frontier r) (orphaned r) (subtrees r) (subtreel r) l (xid r) (removed r).
Definition with_xid (x : gmap Z xid_t) (r : fd_reasm_t) := mk_reasm (fec_max r) (slot0 r) (root r) (pool r) (ancestry r) (frontier r) (orphaned r) (subtrees r) (subtreel r) (out r) x (removed r).
Definition with_root (s : Z) (o : option Z) (r : fd_reasm_t) := mk_reasm (fec_max r) s o (pool r) (ancestry r) (frontier r) (orphaned r) (subtrees r) (subtreel r) (out r) (xid r) (removed r).

(** ** Containers *)

(** Dereferencing an element. *)
Definition get (P : fecs) (k : Z) : res fd_reasm_fec_t := match P !! k with Some e => Ok e | None => Ub end.

Definition upd (f : fd_reasm_fec_t -> fd_reasm_fec_t) (k : Z) (P : fecs) : res fecs := e ← get P k; Ok (<[k := f e]> P).

Definition pool_free (r : fd_reasm_t) : Z := fec_max r - Z.of_nat (size (pool r)).

(** A key may be in a map only once. *)
Definition map_insert (k : Z) (s : gset Z) : res (gset Z) := if decide (k ∈ s) then Ub else Ok ({[k]} ∪ s).

(** An element may be in a list only once, and only its elements can be removed. *)
Definition push_tail (k : Z) (l : list Z) : res (list Z) := if decide (k ∈ l) then Ub else Ok (l ++ [k]).
Definition list_remove (k : Z) (l : list Z) : res (list Z) := if decide (k ∈ l) then Ok (filter (.≠ k) l) else Ub.

(** Visiting an element and its right siblings. *)
Fixpoint siblings (fuel : nat) (P : fecs) (o : option Z) : res (list Z) :=
  match o, fuel with
  | None, _ => Ok []
  | Some _, O => Hang
  | Some c, S n => e ← get P c; ks ← siblings n P (sibling e); Ok (c :: ks)
  end.

Definition children (P : fecs) (k : Z) : res (list Z) := e ← get P k; siblings (size P) P (child e).

(** The loops over the queue [bfs]: [step] handles an element and returns the
    elements it pushes. *)
Definition bfs_push (cap : Z) (q ks : list Z) : res (list Z) := if Z.of_nat (length (q ++ ks)) <=? cap then Ok (q ++ ks) else Ub.

Fixpoint bfs_loop {A} (step : A -> Z -> res (A * list Z)) (cap : Z) (fuel : nat) (a : A) (q : list Z) : res A :=
  match q, fuel with
  | [], _ => Ok a
  | _ :: _, O => Hang
  | k :: q, S n => '(a, ks) ← step a k; q ← bfs_push cap q ks; bfs_loop step cap n a q
  end.

(** Every element is visited at most once. *)
Definition bfs (step : fd_reasm_t -> Z -> res (fd_reasm_t * list Z)) (q : list Z) (r : fd_reasm_t) : res fd_reasm_t :=
  q ← bfs_push (fec_max r) [] q; bfs_loop step (fec_max r) (S (size (pool r))) r q.

(** [fd_store_remove( opt_store, key )] *)
Definition store_remove (opt_store : bool) (k : Z) (r : fd_reasm_t) : fd_reasm_t :=
  if opt_store then
    mk_reasm (fec_max r) (slot0 r) (root r) (pool r) (ancestry r) (frontier r) (orphaned r) (subtrees r) (subtreel r) (out r) (xid r) (k :: removed r)
  else r.

Definition update (f : fd_reasm_fec_t -> fd_reasm_fec_t) (k : Z) (r : fd_reasm_t) : res fd_reasm_t := P ← upd f k (pool r); Ok (with_pool P r).
Definition release (k : Z) (r : fd_reasm_t) : fd_reasm_t := with_pool (delete k (pool r)) r.

(** Taking an element off the delivery queue. *)
Definition out_remove (k : Z) (r : fd_reasm_t) : res fd_reasm_t :=
  e ← get (pool r) k;
  if in_out e then l ← list_remove k (out r); update (set_in_out false) k (with_out l r) else Ok r.

Definition out_push (k : Z) (r : fd_reasm_t) : res fd_reasm_t := l ← push_tail k (out r); update (set_in_out true) k (with_out l r).

(** ** Construction *)

Definition FD_FEC_SHRED_CNT : Z := 32.
Definition FD_FEC_BLK_MAX : Z := 32768 / FD_FEC_SHRED_CNT.

(** The capacity of the map [xid]. *)
Definition xid_max (fec_max : Z) : Z := fd_ulong_pow2_up (fec_max + Z.max (fec_max / FD_FEC_BLK_MAX) 1) - 1.

Definition fd_reasm_new (fec_max : Z) : fd_reasm_t := mk_reasm fec_max ULONG_MAX None ∅ ∅ ∅ ∅ ∅ [] [] ∅ [].

(** ** Queries *)

Definition fd_reasm_query (r : fd_reasm_t) (k : Z) : bool :=
  bool_decide (k ∈ ancestry r) || bool_decide (k ∈ frontier r) || bool_decide (k ∈ orphaned r) || bool_decide (k ∈ subtrees r).

(** Ready for delivery. *)
Definition deliverable (e : fd_reasm_fec_t) : bool := negb (popped e) && (negb (eqvoc e) || confirmed e).

Fixpoint peek_from (P : fecs) (l : list Z) : res (option Z) :=
  match l with
  | [] => Ok None
  | k :: l => e ← get P k; if deliverable e then Ok (Some k) else peek_from P l
  end.

Definition fd_reasm_peek (r : fd_reasm_t) : res (option Z) := peek_from (pool r) (out r).

(** The queue of elements that are left. *)
Fixpoint pop_from (r : fd_reasm_t) (l : list Z) : res (option Z * fd_reasm_t) :=
  match l with
  | [] => Ok (None, with_out [] r)
  | k :: l =>
      e ← get (pool r) k;
      r ← update (set_in_out false) k r;
      if deliverable e then r ← update (set_popped true) k r; Ok (Some k, with_out l r) else pop_from r l
  end.

Definition fd_reasm_pop (r : fd_reasm_t) : res (option Z * fd_reasm_t) := pop_from r (out r).

(** ** Confirmation and equivocation *)

Fixpoint confirm_from (fuel : nat) (o : option Z) (P : fecs) : res fecs :=
  match o, fuel with
  | None, _ => Ok P
  | Some _, O => Hang
  | Some k, S n => e ← get P k; if confirmed e then Ok P else confirm_from n (parent e) (<[k := set_confirmed true e]> P)
  end.

Definition fd_reasm_confirm (r : fd_reasm_t) (block_id : Z) : res fd_reasm_t :=
  if bool_decide (block_id ∈ ancestry r) || bool_decide (block_id ∈ frontier r) then
    e ← get (pool r) block_id;
    r ← (if negb (popped e) && negb (in_out e) && negb (confirmed e) then out_push block_id r else Ok r);
    P ← confirm_from (S (size (pool r))) (Some block_id) (pool r);
    Ok (with_pool P r)
  else Ok r.

Definition eqvoc_step (r : fd_reasm_t) (k : Z) : res (fd_reasm_t * list Z) :=
  e ← get (pool r) k;
  if eqvoc e then Ok (r, []) else
  r ← update (set_eqvoc true) k r;
  ks ← children (pool r) k;
  Ok (r, ks).

Definition mark_eqvoc (k : Z) (r : fd_reasm_t) : res fd_reasm_t := bfs eqvoc_step [k] r.

(** ** Chaining *)

Definition validate_intra (p c : fec_data) : bool :=
  (fec_set_idx c =? (fec_set_idx p + FD_FEC_SHRED_CNT) mod 2 ^ 32) && (parent_off c =? parent_off p) && negb (slot_complete p).

Definition validate_inter (p c : fec_data) : bool :=
  (u64 (slot c - parent_off c) =? slot p) && (fec_set_idx c =? 0) && slot_complete p.

Definition validate_chained_block_id (p c : fec_data) : bool :=
  if slot p =? slot c then validate_intra p c else validate_inter p c.

Fixpoint last_sibling (fuel : nat) (P : fecs) (k : Z) : res Z :=
  match fuel with
  | O => Hang
  | S n => e ← get P k; match sibling e with None => Ok k | Some s => last_sibling n P s end
  end.

Definition link (p c : Z) (P : fecs) : res fecs :=
  P ← upd (set_parent (Some p)) c P;
  e ← get P p;
  match child e with
  | None => upd (set_child (Some c)) p P
  | Some s => s ← last_sibling (size P) P s; upd (set_sibling (Some c)) s P
  end.

(** ** FEC sets with the same slot and index *)

Definition xid_key (slot_ idx : Z) : Z := Z.lor (u64 (Z.shiftl slot_ 32)) idx.
Definition key_of (d : fec_data) : Z := xid_key (slot d) (fec_set_idx d).

Definition xid_update (slot_ idx k : Z) (r : fd_reasm_t) : res fd_reasm_t :=
  let x := xid_key slot_ idx in
  match xid r !! x with
  | Some m =>
      r ← update (set_xid_next (xid_idx m)) k r;
      Ok (with_xid (<[x := mk_xid (Some k) ((xid_cnt m + 1) mod 2 ^ 32)]> (xid r)) r)
  | None =>
      if xid_max (fec_max r) <=? Z.of_nat (size (xid r)) then Crit
      else Ok (with_xid (<[x := mk_xid (Some k) 1]> (xid r)) r)
  end.

(** The element before [k] in the list. *)
Fixpoint xid_prev (fuel : nat) (P : fecs) (o : option Z) (k : Z) : res Z :=
  match o, fuel with
  | None, _ => Ub
  | Some _, O => Hang
  | Some i, S n => e ← get P i; if decide (xid_next e = Some k) then Ok i else xid_prev n P (xid_next e) k
  end.

Definition clear_xid_metadata (k : Z) (r : fd_reasm_t) : res fd_reasm_t :=
  e ← get (pool r) k;
  let x := key_of (data e) in
  match xid r !! x with
  | None => Ub
  | Some m =>
      let cnt := (xid_cnt m - 1) mod 2 ^ 32 in
      if cnt =? 0 then Ok (with_xid (delete x (xid r)) r)
      else if decide (xid_idx m = Some k) then Ok (with_xid (<[x := mk_xid (xid_next e) cnt]> (xid r)) r)
      else
        prev ← xid_prev (size (pool r)) (pool r) (xid_idx m) k;
        r ← update (set_xid_next (xid_next e)) prev r;
        Ok (with_xid (<[x := mk_xid (xid_idx m) cnt]> (xid r)) r)
  end.

(** ** Removing orphans *)

Definition subtrees_remove_step (opt_store : bool) (r : fd_reasm_t) (k : Z) : res (fd_reasm_t * list Z) :=
  ks ← children (pool r) k;
  r ← (if decide (k ∈ subtrees r) then l ← list_remove k (subtreel r); Ok (with_subtrees (subtrees r ∖ {[k]}) l r)
       else if decide (k ∈ orphaned r) then Ok (with_orphaned (orphaned r ∖ {[k]}) r)
       else Crit);
  r ← clear_xid_metadata k r;
  Ok (release k (store_remove opt_store k r), ks).

Definition subtrees_remove (opt_store : bool) (k : Z) (r : fd_reasm_t) : res fd_reasm_t := bfs (subtrees_remove_step opt_store) [k] r.

(** ** Eviction *)

(** The first element of the chain that is removed with the leaf [k] of the
    connected tree. *)
Fixpoint walk_up (fuel : nat) (P : fecs) (k : Z) : res Z :=
  match fuel with
  | O => Hang
  | S n =>
      e ← get P k;
      if fec_set_idx (data e) =? 0 then Ok k
      else match sibling e, parent e with
           | Some _, _ => Ok k
           | None, None => Ub
           | None, Some p => ep ← get P p; if decide (child ep = Some k) then walk_up n P p else Ok k
           end
  end.

(** Moving the descendants of [tail] to the orphans. *)
Definition orphan_step (tail : Z) (r : fd_reasm_t) (k : Z) : res (fd_reasm_t * list Z) :=
  ks ← children (pool r) k;
  if k =? tail then Ok (r, ks) else
  let r := if decide (k ∈ ancestry r) then with_ancestry (ancestry r ∖ {[k]}) r else with_frontier (frontier r ∖ {[k]}) r in
  r ← out_remove k r;
  e ← get (pool r) k;
  r ← (if decide (parent e = Some tail) then
         s ← map_insert k (subtrees r);
         l ← push_tail k (subtreel r);
         r ← update (set_parent None) k (with_subtrees s l r);
         update (set_sibling None) k r
       else s ← map_insert k (orphaned r); Ok (with_orphaned s r));
  Ok (r, ks).

Definition orphan_children (tail : Z) (r : fd_reasm_t) : res fd_reasm_t :=
  e ← get (pool r) tail;
  match child e with
  | None => Ok r
  | Some _ => r ← bfs (orphan_step tail) [tail] r; update (set_child None) tail r
  end.

(** The left sibling of [k] among the right siblings of [prev]. *)
Fixpoint left_sibling (fuel : nat) (P : fecs) (prev k : Z) : res Z :=
  match fuel with
  | O => Hang
  | S n => e ← get P prev; match sibling e with None => Ub | Some s => if s =? k then Ok prev else left_sibling n P s k end
  end.

(** Taking [k] out of the children of [p]. *)
Definition unlink (p k : Z) (P : fecs) : res fecs :=
  ep ← get P p;
  match child ep with
  | None => Ub
  | Some c =>
      ek ← get P k;
      if c =? k then upd (set_child (sibling ek)) p P
      else prev ← left_sibling (size P) P c k; upd (set_sibling (sibling ek)) prev P
  end.

(** Removing a chain from the connected tree. *)
Fixpoint remove_chain (fuel : nat) (opt_store : bool) (o : option Z) (r : fd_reasm_t) : res fd_reasm_t :=
  match o, fuel with
  | None, _ => Ok r
  | Some _, O => Hang
  | Some k, S n =>
      r ← (if decide (k ∈ ancestry r) then Ok (with_ancestry (ancestry r ∖ {[k]}) r)
           else if decide (k ∈ frontier r) then Ok (with_frontier (frontier r ∖ {[k]}) r)
           else Ub);
      r ← out_remove k r;
      e ← get (pool r) k;
      r ← clear_xid_metadata k r;
      remove_chain n opt_store (child e) (store_remove opt_store k r)
  end.

(** The parent of a removed chain may have become a leaf. *)
Definition back_to_frontier (p : Z) (r : fd_reasm_t) : res fd_reasm_t :=
  ep ← get (pool r) p;
  match child ep with
  | Some _ => Ok r
  | None =>
      if decide (p ∈ ancestry r) then
        s ← map_insert p (frontier r);
        Ok (with_frontier s (with_ancestry (ancestry r ∖ {[p]}) r))
      else Crit
  end.

(** Returns the first element of the removed chain. *)
Definition fd_reasm_remove (opt_store : bool) (tail : Z) (r : fd_reasm_t) : res (Z * fd_reasm_t) :=
  e ← get (pool r) tail;
  head ← (if decide (tail ∈ orphaned r ∪ subtrees r) then _ ← FD_TEST (bool_decide (child e = None)); Ok tail
          else walk_up (size (pool r)) (pool r) tail);
  r ← orphan_children tail r;
  eh ← get (pool r) head;
  match parent eh with
  | Some p =>
      P ← unlink p head (pool r);
      let r := with_pool P r in
      if decide (head ∈ orphaned r) then
        r ← clear_xid_metadata head (with_orphaned (orphaned r ∖ {[head]}) r);
        Ok (head, store_remove opt_store head r)
      else
        r ← remove_chain (S (size (pool r))) opt_store (Some head) r;
        r ← back_to_frontier p r;
        Ok (head, r)
  | None =>
      l ← list_remove head (subtreel r);
      r ← clear_xid_metadata head (with_subtrees (subtrees r ∖ {[head]}) l r);
      Ok (head, store_remove opt_store head r)
  end.

(** The newer of two candidates. *)
Definition newer (P : fecs) (best : option Z) (k : Z) : res (option Z) :=
  match best with
  | None => Ok (Some k)
  | Some b => eb ← get P b; ek ← get P k; Ok (Some (if slot (data eb) <? slot (data ek) then k else b))
  end.

(** The newest unconfirmed and the newest confirmed leaf among orphans. *)
Fixpoint scan_orphans (P : fecs) (parent_root : Z) (l : list Z) (best : option Z * option Z) : res (option Z * option Z) :=
  match l with
  | [] => Ok best
  | k :: l =>
      e ← get P k;
      if bool_decide (child e <> None) || (k =? parent_root) then scan_orphans P parent_root l best
      else if confirmed e then c ← newer P best.2 k; scan_orphans P parent_root l (best.1, c)
      else u ← newer P best.1 k; scan_orphans P parent_root l (u, best.2)
  end.

(** The newest unconfirmed leaf of an incomplete slot. *)
Fixpoint scan_frontier (P : fecs) (root_ : option Z) (parent_root : Z) (l : list Z) (best : option Z) : res (option Z) :=
  match l with
  | [] => Ok best
  | k :: l =>
      e ← get P k;
      if bool_decide (Some k = root_) || (k =? parent_root) || confirmed e || slot_complete (data e) || is_leader (data e)
      then scan_frontier P root_ parent_root l best
      else b ← newer P best k; scan_frontier P root_ parent_root l b
  end.

(** The order of delivery inside a fork. *)
Definition before (a b : fec_data) : bool := (slot a <? slot b) || ((slot a =? slot b) && (fec_set_idx a <? fec_set_idx b)).

Definition latest_step (P : fecs) (latest : option Z) (k : Z) : res (option Z * list Z) :=
  e ← get P k;
  l ← (if confirmed e then
         match latest with
         | None => Ok (Some k)
         | Some b => eb ← get P b; Ok (if before (data eb) (data e) then Some k else Some b)
         end
       else Ok latest);
  ks ← children P k;
  Ok (l, ks).

Definition latest_confirmed_fec (r : fd_reasm_t) (subtree_root : Z) : res (option Z) :=
  bfs_loop (latest_step (pool r)) (fec_max r) (S (size (pool r))) None [subtree_root].

Fixpoint gca (fuel : nat) (P : fecs) (a b : option Z) : res (option Z) :=
  match a, b, fuel with
  | Some _, Some _, O => Hang
  | Some i, Some j, S n =>
      if i =? j then Ok (Some i)
      else ei ← get P i; ej ← get P j;
           if before (data ej) (data ei) then gca n P (parent ei) b else gca n P a (parent ej)
  | _, _, _ => Ok None
  end.

(** The root of the tree [k] is in. *)
Fixpoint tree_root (fuel : nat) (P : fecs) (k : Z) : res Z :=
  match fuel with
  | O => Hang
  | S n => e ← get P k; match parent e with None => Ok k | Some p => tree_root n P p end
  end.

(** Whether a confirmed orphan may give way to a FEC set that chains to
    [parent_root]. *)
Definition evict_confirmed (parent_root : Z) (r : fd_reasm_t) : res bool :=
  if negb (fd_reasm_query r parent_root) then Ok true else
  subtree_root ← (if decide (parent_root ∈ subtrees r ∪ orphaned r) then tree_root (S (size (pool r))) (pool r) parent_root
                  else match root r with Some k => Ok k | None => Ub end);
  latest ← latest_confirmed_fec r subtree_root;
  match latest with
  | None => Ok true
  | Some l => a ← gca (S (2 * size (pool r))) (pool r) (Some l) (Some parent_root); Ok (bool_decide (a = Some l))
  end.

(** [orphaned_iter] and [frontier_iter] list the keys of the maps in the order
    of their iterators. *)
Definition evict (opt_store : bool) (parent_root : Z) (orphaned_iter frontier_iter : list Z) (r : fd_reasm_t) : res (option Z * fd_reasm_t) :=
  let remove k := '(h, r) ← fd_reasm_remove opt_store k r; Ok (Some h, r) in
  best ← scan_orphans (pool r) parent_root (subtreel r) (None, None);
  best ← scan_orphans (pool r) parent_root orphaned_iter best;
  match best.1 with
  | Some k => remove k
  | None =>
      leaf ← scan_frontier (pool r) (root r) parent_root frontier_iter None;
      match leaf, best.2 with
      | Some k, _ => remove k
      | None, Some k => ok ← evict_confirmed parent_root r; if (ok : bool) then remove k else Ok (None, r)
      | None, None => Ok (None, r)
      end
  end.

(** ** Insertion *)

Definition new_fec (d : fec_data) : fd_reasm_fec_t := mk_fec d None None None false false false false None.

(** [cmr0] and [xid_next0] are the contents of the fields of the acquired
    element that are not assigned. *)
Definition fd_reasm_init (cmr0 : Z) (xid_next0 : option Z) (initial_block_id slot_ : Z) (r : fd_reasm_t) : res fd_reasm_t :=
  _ ← FD_TEST (negb (pool_free r =? 0));
  _ ← FD_TEST (bool_decide (root r = None));
  let e := mk_fec (mk_data cmr0 slot_ 0 0 0 false true false) None None None false true true false xid_next0 in
  let r := with_pool (<[initial_block_id := e]> (pool r)) r in
  r ← xid_update slot_ 0 initial_block_id r;
  s ← map_insert initial_block_id (frontier r);
  Ok (with_root slot_ (Some initial_block_id) (with_frontier s r)).

(** Which tree the new element belongs to; returns its parent. *)
Definition place (k c : Z) (r : fd_reasm_t) : res (option Z * fd_reasm_t) :=
  if decide (c ∈ ancestry r) then
    s ← map_insert k (frontier r); r ← out_push k (with_frontier s r); Ok (Some c, r)
  else if decide (c ∈ frontier r) then
    a ← map_insert c (ancestry r);
    s ← map_insert k (frontier r ∖ {[c]});
    r ← out_push k (with_frontier s (with_ancestry a r)); Ok (Some c, r)
  else if decide (c ∈ orphaned r) then s ← map_insert k (orphaned r); Ok (Some c, with_orphaned s r)
  else if decide (c ∈ subtrees r) then s ← map_insert k (orphaned r); Ok (Some c, with_orphaned s r)
  else s ← map_insert k (subtrees r); l ← push_tail k (subtreel r); Ok (None, with_subtrees s l r).

(** The fields [subtreel.prev] and [subtreel.next] of the elements.  Taking an
    element out of the list relinks its neighbours and leaves its own links as
    they are, and so does giving it back to the pool, whose free list goes
    through another field. *)
Notation dlinks := (gmap Z (option Z * option Z)).

Definition get_links (N : dlinks) (c : Z) : res (option Z * option Z) := match N !! c with Some l => Ok l | None => Ub end.

Definition subtreel_ele_remove (c : Z) (N : dlinks) : res dlinks :=
  l ← get_links N c;
  N ← (match l.1 with None => Ok N | Some p => lp ← get_links N p; Ok (<[p := (lp.1, l.2)]> N) end);
  match l.2 with None => Ok N | Some n => ln ← get_links N n; Ok (<[n := (l.1, ln.2)]> N) end.

Fixpoint relink (cs : list Z) (N : dlinks) : res dlinks :=
  match cs with [] => Ok N | c :: cs => N ← subtreel_ele_remove c N; relink cs N end.

(** The links of a list whose first element comes after [prev]. *)
Fixpoint links_of (prev : option Z) (l : list Z) : dlinks :=
  match l with [] => ∅ | c :: l => <[c := (prev, head l)]> (links_of (Some c) l) end.

(** The loop that links the orphans that chain to the new element [k].  The
    iterator is the current element [c]; it goes on with the link of [c] after
    the body, when [c] may have left the list and been given back to the pool.
    [N] follows the list [subtreel] through the body. *)
Fixpoint adopt (fuel : nat) (opt_store : bool) (k : Z) (N : dlinks) (iter : option Z) (r : fd_reasm_t) : res fd_reasm_t :=
  match iter, fuel with
  | None, _ => Ok r
  | Some _, O => Hang
  | Some c, S n =>
      ek ← get (pool r) k;
      ec ← get (pool r) c;
      r' ← (if negb (k =? cmr (data ec)) then Ok r
            else if negb (validate_chained_block_id (data ek) (data ec)) then subtrees_remove opt_store c r
            else
              P ← link k c (pool r);
              tl ← list_remove c (subtreel r);
              o ← map_insert c (orphaned r);
              Ok (with_orphaned o (with_subtrees (subtrees r ∖ {[c]}) tl (with_pool P r))));
      N ← relink (filter (.∉ subtreel r') (subtreel r)) N;
      l ← get_links N c;
      adopt n opt_store k N l.2 r'
  end.

(** An orphan becomes a leaf of the connected tree. *)
Fixpoint connect (ks : list Z) (r : fd_reasm_t) : res fd_reasm_t :=
  match ks with
  | [] => Ok r
  | c :: ks =>
      _ ← FD_TEST (bool_decide (c ∈ orphaned r));
      s ← map_insert c (frontier r);
      r ← out_push c (with_frontier s (with_orphaned (orphaned r ∖ {[c]}) r));
      connect ks r
  end.

Definition advance_step (r : fd_reasm_t) (k : Z) : res (fd_reasm_t * list Z) :=
  ks ← children (pool r) k;
  r ← (match ks with
       | [] => Ok r
       | _ :: _ => a ← map_insert k (ancestry r); Ok (with_frontier (frontier r ∖ {[k]}) (with_ancestry a r))
       end);
  r ← connect ks r;
  Ok (r, ks).

(** Two FEC sets of one slot and index, or a child of an equivocating one. *)
Definition insert_eqvoc (k : Z) (d : fec_data) (p : option Z) (r : fd_reasm_t) : res fd_reasm_t :=
  r ← (match xid r !! key_of d with
       | None => Ok r
       | Some m =>
           r ← mark_eqvoc k r;
           match xid_idx m with None => Ub | Some j => mark_eqvoc j r end
       end);
  r ← xid_update (slot d) (fec_set_idx d) k r;
  match p with
  | None => Ok r
  | Some p => ep ← get (pool r) p; if eqvoc ep && negb (confirmed ep) then mark_eqvoc k r else Ok r
  end.

(** The returned element, the evicted one and the state. *)
Definition insert_fec (opt_store : bool) (k : Z) (d : fec_data) (r : fd_reasm_t) : res (option Z * fd_reasm_t) :=
  _ ← FD_TEST (negb (pool_free r =? 0));
  let r := with_pool (<[k := new_fec d]> (pool r)) r in
  valid ← (if fd_reasm_query r (cmr d) then ep ← get (pool r) (cmr d); Ok (validate_chained_block_id (data ep) d) else Ok true);
  if negb valid then Ok (None, release k r) else
  '(p, r) ← place k (cmr d) r;
  P ← (match p with None => Ok (pool r) | Some p => link p k (pool r) end);
  r ← adopt (S (length (subtreel r))) opt_store k (links_of None (subtreel r)) (head (subtreel r)) (with_pool P r);
  r ← (if decide (k ∈ frontier r) then bfs advance_step [k] r else Ok r);
  r ← insert_eqvoc k d p r;
  Ok (Some k, r).

Definition fd_reasm_insert (opt_store : bool) (k : Z) (d : fec_data) (orphaned_iter frontier_iter : list Z) (r : fd_reasm_t)
    : res (option Z * option Z * fd_reasm_t) :=
  _ ← FD_TEST (negb (fd_reasm_query r k));
  if pool_free r =? 1 then
    _ ← FD_TEST (bool_decide (root r <> None));
    '(evicted, r) ← evict opt_store (cmr d) orphaned_iter frontier_iter r;
    match evicted with
    (* of the last element only what the caller reads of it is assigned *)
    | None => Ok (None, Some k, with_pool (<[k := new_fec d]> (pool r)) r)
    | Some h => '(fec, r) ← insert_fec opt_store k d r; Ok (fec, Some h, r)
    end
  else '(fec, r) ← insert_fec opt_store k d r; Ok (fec, None, r).

(** [fd_reasm_pool_release] puts the element on the free list of the pool,
    through the field [next]; its other fields keep their contents, which are
    returned, until the element is acquired again. *)
Definition fd_reasm_pool_release (k : Z) (r : fd_reasm_t) : res (fd_reasm_fec_t * fd_reasm_t) := e ← get (pool r) k; Ok (e, release k r).

(** One round of the caller: it announces the first element of the evicted
    chain, releases it and goes on with its child, which it reads from the
    released element. *)
Definition try_evict_reasm (reasm_evicted : option Z) (r : fd_reasm_t) : res (option (Z * Z * Z) * option Z * fd_reasm_t) :=
  match reasm_evicted with
  | None => Ok (None, None, r)
  | Some k =>
      e ← get (pool r) k;
      let evicted := (k, slot (data e), fec_set_idx (data e)) in
      '(stale, r) ← fd_reasm_pool_release k r;
      Ok (Some evicted, child stale, r)
  end.

(** The rounds until the chain is given back; the caller takes no message
    before that. *)
Fixpoint release_evicted_chain (fuel : nat) (evicted : option Z) (r : fd_reasm_t) : res fd_reasm_t :=
  match evicted, fuel with
  | None, _ => Ok r
  | Some _, O => Hang
  | Some _, S n => '(_, evicted, r) ← try_evict_reasm evicted r; release_evicted_chain n evicted r
  end.

(** ** Publishing a root *)

Definition publish_step (opt_store : bool) (newr : Z) (r : fd_reasm_t) (k : Z) : res (fd_reasm_t * list Z) :=
  r ← (if decide (k ∈ ancestry r) then Ok (with_ancestry (ancestry r ∖ {[k]}) r)
       else if decide (k ∈ frontier r) then Ok (with_frontier (frontier r ∖ {[k]}) r)
       else if decide (k ∈ orphaned r) then Ok (with_orphaned (orphaned r ∖ {[k]}) r)
       else l ← list_remove k (subtreel r); Ok (with_subtrees (subtrees r ∖ {[k]}) l r));
  ks ← children (pool r) k;
  r ← clear_xid_metadata k r;
  r ← out_remove k (store_remove opt_store k r);
  Ok (release k r, filter (.≠ newr) ks).

(** The roots of orphans older than the new root. *)
Fixpoint older_subtrees (P : fecs) (slot_ : Z) (l : list Z) : res (list Z) :=
  match l with
  | [] => Ok []
  | k :: l => e ← get P k; ks ← older_subtrees P slot_ l; Ok (if slot (data e) <? slot_ then k :: ks else ks)
  end.

Definition fd_reasm_publish (opt_store : bool) (newr : Z) (r : fd_reasm_t) : res (option Z * fd_reasm_t) :=
  match root r with
  | None => Ok (None, r)
  | Some oldr =>
      if negb (fd_reasm_query r newr) then Ok (None, r) else
      en ← get (pool r) newr;
      old ← older_subtrees (pool r) (slot (data en)) (subtreel r);
      r ← bfs (publish_step opt_store newr) (oldr :: old) r;
      r ← update (set_parent None) newr r;
      r ← update (set_sibling None) newr r;
      Ok (Some newr, with_root (slot0 r) (Some newr) r)
  end.
