(* ===== verification/ReasmTree.v ===== *)
(** * Breadth-first searches of the reassembly

    A search over a forest visits every element that can be reached exactly
    once: the elements are listed as those it starts with followed by the
    successors of every listed element in turn. *)

From S2P Require Import Prelude Reasm.

#[local] Open Scope Z_scope.

Section search.
Context {A : Type} (step : A -> Z -> res (A * list Z)) (cap : Z) (X : gset Z) (next : Z -> list Z) (start : list Z).

(** What can be reached. *)
Inductive reach : Z -> Prop :=
  | reach_start k : k ∈ start -> reach k
  | reach_next p k : reach p -> k ∈ next p -> reach k.

Record forest : Prop := mk_forest {
  fo_in : forall k, reach k -> k ∈ X;
  fo_start : NoDup start;
  fo_next : forall p, reach p -> NoDup (next p);
  fo_unique : forall p q k, reach p -> reach q -> k ∈ next p -> k ∈ next q -> p = q;
  fo_root : forall p k, reach p -> k ∈ next p -> k ∉ start;
}.

Context (F : forest).

Lemma search_nodup vis : NoDup vis -> Forall reach vis -> NoDup (start ++ (vis ≫= next)).
Proof using F.
  intros Hn Hr. apply NoDup_app. split; [apply F|]. split.
  - intros k Hs Hk. apply list_elem_of_bind in Hk as (p & Hk & Hp). rewrite Forall_forall in Hr. by apply (fo_root F p k (Hr p Hp) Hk).
  - induction Hn as [|p vis Hp Hn IH]; [constructor|]. apply Forall_cons in Hr as [Hrp Hr]. cbn [mbind list_bind]. apply NoDup_app. split; [by apply F|]. split; [|by apply IH].
    intros k Hk Hv. apply list_elem_of_bind in Hv as (q & Hkq & Hq). rewrite Forall_forall in Hr. apply Hp. by rewrite (fo_unique F p q k Hrp (Hr q Hq) Hk Hkq).
Qed.

Lemma reach_list vis : Forall reach vis -> Forall reach (start ++ (vis ≫= next)).
Proof.
  intros Hr. apply Forall_app. split; apply Forall_forall; intros k Hk; [by apply reach_start|].
  apply list_elem_of_bind in Hk as (p & Hk & Hp). rewrite Forall_forall in Hr. by apply (reach_next p), Hk; apply Hr.
Qed.

Lemma nodup_in_size l : NoDup l -> Forall reach l -> (length l <= size X)%nat.
Proof using F.
  intros Hn Hr. rewrite <- (size_list_to_set (C := gset Z) l) by done. apply subseteq_size. intros k Hk. apply elem_of_list_to_set in Hk.
  rewrite Forall_forall in Hr. by apply (fo_in F), Hr.
Qed.

Context (I : list Z -> A -> Prop) (room : Z.of_nat (size X) <= cap).
Context (visit : forall vis a k q, I vis a -> NoDup vis -> Forall reach vis -> reach k -> k ∉ vis -> vis ++ k :: q = start ++ (vis ≫= next) ->
  exists a', step a k = Ok (a', next k) /\ I (vis ++ [k]) a').

Lemma search_loop n vis q a : vis ++ q = start ++ (vis ≫= next) -> NoDup vis -> Forall reach vis -> I vis a -> (size X <= n + length vis)%nat ->
  exists vis' a', bfs_loop step cap n a q = Ok a' /\ I vis' a' /\ NoDup vis' /\ Forall reach vis' /\ vis' = start ++ (vis' ≫= next).
Proof using F room visit.
  revert vis q a. induction n as [|n IH]; intros vis q a E Hn Hr HI Hf.
  all: pose proof (search_nodup vis Hn Hr) as Hnd; pose proof (reach_list vis Hr) as Hrl; rewrite <- E in Hnd, Hrl.
  all: pose proof (nodup_in_size _ Hnd Hrl) as Hsz; rewrite length_app in Hsz; destruct q as [|k q].
  1, 3: exists vis, a; rewrite app_nil_r in E; done.
  - simpl in Hsz. lia.
  - assert (Hk : k ∉ vis) by (intros Hv; apply NoDup_app in Hnd as (_ & Hd & _); apply (Hd k Hv); by left).
    rewrite Forall_app, Forall_cons in Hrl. destruct Hrl as (_ & Hrk & _). destruct (visit vis a k q HI Hn Hr Hrk Hk E) as (a' & Es & HI').
    cbn [bfs_loop]. rewrite Es. cbn [mbind res_bind].
    assert (E' : (vis ++ [k]) ++ (q ++ next k) = start ++ ((vis ++ [k]) ≫= next)).
    { rewrite bind_app, (app_assoc start), <- E. cbn [mbind list_bind]. by rewrite app_nil_r, <- !app_assoc. }
    assert (Hn' : NoDup (vis ++ [k])) by (apply NoDup_app; split; [done|]; split; [|apply NoDup_singleton]; by intros x Hx ->%list_elem_of_singleton).
    assert (Hr' : Forall reach (vis ++ [k])) by (apply Forall_app; by split; [|constructor]).
    pose proof (search_nodup _ Hn' Hr') as Hnd'. pose proof (reach_list _ Hr') as Hrl'. rewrite <- E' in Hnd', Hrl'. pose proof (nodup_in_size _ Hnd' Hrl') as Hsz'.
    rewrite !length_app in Hsz'. simpl in Hsz'. unfold bfs_push. rewrite (proj2 (Z.leb_le _ _)) by (rewrite length_app; lia). cbn [mbind res_bind].
    apply (IH (vis ++ [k])); try done. rewrite length_app. simpl. lia.
Qed.

(** The search ends, having visited exactly what can be reached. *)
Lemma search_ok n a : I [] a -> (size X <= n)%nat ->
  exists vis a', bfs_loop step cap n a start = Ok a' /\ I vis a' /\ NoDup vis /\ vis = start ++ (vis ≫= next) /\ forall k, k ∈ vis <-> reach k.
Proof using F room visit.
  intros HI Hn. destruct (search_loop n [] start a) as (vis & a' & E & HI' & Hnd & Hr & Ev); try done.
  - cbn. by rewrite app_nil_r.
  - constructor.
  - simpl. lia.
  - exists vis, a'. split_and!; try done. intros k. split.
    + rewrite Forall_forall in Hr. apply Hr.
    + intros Hk. induction Hk as [k Hk|p k Hp IH Hk]; rewrite Ev; apply elem_of_app; [by left|right]. apply list_elem_of_bind. by exists p.
Qed.

End search.

(** A search in a state of the reassembly. *)
Lemma bfs_ok (step : fd_reasm_t -> Z -> res (fd_reasm_t * list Z)) V next start (I : list Z -> fd_reasm_t -> Prop) r :
  forest V next start -> Z.of_nat (size V) <= fec_max r -> (size V <= size (pool r))%nat -> I [] r ->
  (forall vis r' k q, I vis r' -> NoDup vis -> Forall (reach next start) vis -> reach next start k -> k ∉ vis -> vis ++ k :: q = start ++ (vis ≫= next) ->
     exists r'', step r' k = Ok (r'', next k) /\ I (vis ++ [k]) r'') ->
  exists vis r', bfs step start r = Ok r' /\ I vis r' /\ NoDup vis /\ vis = start ++ (vis ≫= next) /\ forall k, k ∈ vis <-> reach next start k.
Proof.
  intros F Hc Hs HI Hv. unfold bfs, bfs_push. cbn [app].
  assert (Hl : (length start <= size V)%nat) by (apply (nodup_in_size V next start F); [apply F|]; apply Forall_forall; intros k Hk; by apply reach_start).
  rewrite (proj2 (Z.leb_le _ _)) by lia. cbn [mbind res_bind]. apply (search_ok step (fec_max r) V next start F I); try done. lia.
Qed.

(** * The forest of FEC sets

    Parents, left children and right siblings stored in the elements, read as a
    forest: every element has a list of children. *)

(** The order in which a chain grows. *)
Definition rank (d : fec_data) : Z := slot d * 2 ^ 32 + fec_set_idx d.
Definition rk (P : fecs) (k : Z) : Z := default 0 ((fun e => rank (data e)) <$> P !! k).

Definition par (P : fecs) (k : Z) : option Z := P !! k ≫= parent.

(** A left child and its right siblings. *)
Inductive sibs (P : fecs) : option Z -> list Z -> Prop :=
  | sibs_nil : sibs P None []
  | sibs_cons c e l : P !! c = Some e -> sibs P (sibling e) l -> sibs P (Some c) (c :: l).

Definition kids (P : fecs) (k : Z) : list Z := match children P k with Ok l => l | _ => [] end.

(** The elements of [V] form a forest. *)
Record links (P : fecs) (V : gset Z) : Prop := mk_links {
  lk_in : forall k, k ∈ V -> is_Some (P !! k);
  lk_par : forall c p, c ∈ V -> par P c = Some p -> p ∈ V /\ rk P p < rk P c;
  lk_kids : forall k e, k ∈ V -> P !! k = Some e -> exists l, sibs P (child e) l /\ NoDup l /\ forall c, c ∈ l <-> c ∈ V /\ par P c = Some k;
  lk_sib : forall k e, k ∈ V -> P !! k = Some e -> parent e = None -> sibling e = None;
}.

Lemma get_ok P k e : P !! k = Some e -> get P k = Ok e.
Proof. unfold get. by intros ->. Qed.

Lemma upd_ok f P k e : P !! k = Some e -> upd f k P = Ok (<[k := f e]> P).
Proof. intros H. unfold upd. by rewrite (get_ok _ _ _ H). Qed.

Lemma sibs_dom P o l : sibs P o l -> forall c, c ∈ l -> is_Some (P !! c).
Proof. induction 1 as [|c e l E H IH]; intros k Hk; [by apply not_elem_of_nil in Hk|]. apply elem_of_cons in Hk as [->|Hk]; [by eauto|by apply IH]. Qed.

Lemma fec_sibs_det P o l l' : sibs P o l -> sibs P o l' -> l = l'.
Proof. intros H. revert l'. induction H as [|c e l E H IH]; intros l' H'; inversion H' as [|? e' l'' E']; subst; [done|]. rewrite E in E'. injection E' as <-. f_equal. by apply IH. Qed.

Lemma siblings_ok P o l n : sibs P o l -> (length l <= n)%nat -> siblings n P o = Ok l.
Proof.
  intros H. revert n. induction H as [|c e l E H IH]; intros n Hn; [by destruct n|]. destruct n as [|n]; simpl in Hn; [lia|]. cbn [siblings]. rewrite (get_ok _ _ _ E). cbn [mbind res_bind].
  rewrite IH by lia. done.
Qed.

Lemma nodup_dom (P : fecs) l : NoDup l -> (forall c, c ∈ l -> is_Some (P !! c)) -> (length l <= size P)%nat.
Proof.
  intros Hn Hd. rewrite <- (size_list_to_set (C := gset Z) l), <- (size_dom (D := gset Z) P) by done. apply subseteq_size. intros k Hk.
  apply elem_of_list_to_set in Hk. by apply elem_of_dom, Hd.
Qed.

(** The parent of an element is known from the element alone. *)
Lemma par_lookup P k e : P !! k = Some e -> par P k = parent e.
Proof. unfold par. by intros ->. Qed.

Section forest.
Context (P : fecs) (V : gset Z) (L : links P V).

Lemma children_kids k : k ∈ V -> children P k = Ok (kids P k) /\ NoDup (kids P k) /\ (forall c, c ∈ kids P k <-> c ∈ V /\ par P c = Some k) /\
  exists e, P !! k = Some e /\ sibs P (child e) (kids P k).
Proof using L.
  intros Hk. destruct (lk_in _ _ L k Hk) as [e E]. destruct (lk_kids _ _ L k e Hk E) as (l & Hs & Hn & Hl).
  assert (Ec : children P k = Ok l) by (unfold children; rewrite (get_ok _ _ _ E); cbn [mbind res_bind]; apply siblings_ok; [done|]; by apply nodup_dom, (sibs_dom _ _ _ Hs)).
  unfold kids. rewrite Ec. split_and!; try done. by exists e.
Qed.

Lemma kids_iff k c : k ∈ V -> c ∈ kids P k <-> c ∈ V /\ par P c = Some k.
Proof using L. intros Hk. by apply (children_kids k Hk). Qed.

Lemma kids_nodup k : k ∈ V -> NoDup (kids P k).
Proof using L. intros Hk. by apply (children_kids k Hk). Qed.

Lemma kids_child k e : k ∈ V -> P !! k = Some e -> child e = None <-> kids P k = [].
Proof using L.
  intros Hk E. destruct (children_kids k Hk) as (_ & _ & _ & e' & E' & Hs). rewrite E in E'. injection E' as <-.
  split; intros H; [rewrite H in Hs|rewrite H in Hs]; by inversion Hs.
Qed.

Lemma sibs_kids k e l : k ∈ V -> P !! k = Some e -> sibs P (child e) l -> l = kids P k.
Proof using L.
  intros Hk E Hs. destruct (children_kids k Hk) as (_ & _ & _ & e' & E' & Hs'). rewrite E in E'. injection E' as <-. by apply (fec_sibs_det _ _ _ _ Hs Hs').
Qed.

(** Elements below [k]. *)
Definition below (k x : Z) : Prop := reach (kids P) [k] x.

Lemma fec_below_refl k : below k k.
Proof. apply reach_start. by left. Qed.

Lemma below_step k p c : below k p -> c ∈ kids P p -> below k c.
Proof. apply reach_next. Qed.

Lemma below_in k x : k ∈ V -> below k x -> x ∈ V.
Proof using L.
  intros Hk H. induction H as [x Hx|p c Hp IH Hc]; [by apply list_elem_of_singleton in Hx as ->|]. by apply kids_iff in Hc as [? _].
Qed.

Lemma below_rank k x : k ∈ V -> below k x -> x = k \/ rk P k < rk P x.
Proof using L.
  intros Hk H. induction H as [x Hx|p c Hp IH Hc]; [left; by apply list_elem_of_singleton in Hx|]. right.
  pose proof (below_in k p Hk Hp) as Hpv. apply kids_iff in Hc as [Hc Ec]; [|done]. apply (lk_par _ _ L) in Ec as [_ ?]; [|done]. destruct IH as [->|?]; lia.
Qed.

(** The children of elements below [k] are below [k]; an element below [k] has
    its parent there unless it is [k]. *)
Lemma below_par k x p : k ∈ V -> below k x -> x <> k -> par P x = Some p -> below k p.
Proof using L.
  intros Hk H Hx Ep. destruct H as [x H|q c Hq Hc]; [by apply list_elem_of_singleton in H|]. pose proof (below_in k q Hk Hq) as Hqv.
  apply kids_iff in Hc as [_ E]; [|done]. by replace p with q by congruence.
Qed.

Lemma fec_below_child k c p : p ∈ V -> c ∈ V -> par P c = Some p -> below k p -> below k c.
Proof using L. intros Hp Hc E H. apply (below_step k p); [done|]. by apply kids_iff. Qed.

(** Searches over the forest, cut at some elements. *)
Lemma kids_forest start next : NoDup start -> (forall k, k ∈ start -> k ∈ V) -> (forall p k, p ∈ V -> k ∈ next p -> k ∈ kids P p) -> (forall p, p ∈ V -> NoDup (next p)) ->
  (forall p k, reach next start p -> k ∈ next p -> k ∉ start) -> forest V next start.
Proof using L.
  intros Hs Hsv Hn Hnd Hd.
  assert (Hv : forall k, reach next start k -> k ∈ V).
  { intros k H. induction H as [k Hk|p k Hp IH Hk]; [by apply Hsv|]. apply Hn in Hk; [|done]. by apply kids_iff in Hk as [? _]. }
  constructor; try done.
  - intros p Hp. by apply Hnd, Hv.
  - intros p q k Hp Hq Hkp Hkq. apply Hn, kids_iff in Hkp as [_ E1]; [|by apply Hv..]. apply Hn, kids_iff in Hkq as [_ E2]; [|by apply Hv..]. congruence.
Qed.

(** A search below one element. *)
Lemma below_forest k next : k ∈ V -> (forall p c, p ∈ V -> c ∈ next p -> c ∈ kids P p) -> (forall p, p ∈ V -> NoDup (next p)) -> forest V next [k].
Proof using L.
  intros Hk Hn Hnd. apply kids_forest; try done; [apply NoDup_singleton|by intros x ->%list_elem_of_singleton|].
  assert (Hb : forall p, reach next [k] p -> below k p).
  { intros p H. induction H as [p Hp|q c Hq IH Hc]; [by apply reach_start|]. apply (below_step k q); [done|]. apply Hn; [by apply (below_in k)|done]. }
  intros p c Hp Hc ->%list_elem_of_singleton. pose proof (Hb p Hp) as Hbp. pose proof (below_in k p Hk Hbp). apply Hn, kids_iff in Hc as [_ E]; [|done..].
  apply (lk_par _ _ L) in E as [_ Hr]; [|done]. destruct (below_rank k p Hk Hbp) as [->|?]; lia.
Qed.

End forest.

(** ** States with the same forest *)

Definition shape (e : fd_reasm_fec_t) := (data e, parent e, child e, sibling e).
Definition agree (V : gset Z) (P Q : fecs) : Prop := forall k, k ∈ V -> shape <$> P !! k = shape <$> Q !! k.

Lemma agree_refl V P : agree V P P.
Proof. done. Qed.

Lemma agree_trans V P Q R : agree V P Q -> agree V Q R -> agree V P R.
Proof. intros H1 H2 k Hk. by rewrite H1, H2. Qed.

Lemma agree_sub V V' P Q : V' ⊆ V -> agree V P Q -> agree V' P Q.
Proof. intros Hs H k Hk. apply H. set_solver. Qed.

Lemma agree_lookup V P Q k e : agree V P Q -> k ∈ V -> P !! k = Some e -> exists e', Q !! k = Some e' /\ shape e' = shape e.
Proof.
  intros H Hk E. specialize (H k Hk). rewrite E in H. destruct (Q !! k) as [e'|]; [|done]. exists e'. split; [done|]. cbn in H. congruence.
Qed.

Lemma agree_par V P Q k : agree V P Q -> k ∈ V -> par P k = par Q k.
Proof. intros H Hk. specialize (H k Hk). unfold par. destruct (P !! k), (Q !! k); cbn in *; try done. unfold shape in H. congruence. Qed.

Lemma agree_rk V P Q k : agree V P Q -> k ∈ V -> rk P k = rk Q k.
Proof. intros H Hk. specialize (H k Hk). unfold rk. destruct (P !! k), (Q !! k); cbn in *; try done. unfold shape in H. congruence. Qed.

Lemma sibs_ext P Q o l : (forall c, c ∈ l -> sibling <$> P !! c = sibling <$> Q !! c) -> sibs P o l -> sibs Q o l.
Proof.
  intros H Hs. induction Hs as [|c e l E Hs IH]; [constructor|]. pose proof (H c ltac:(by left)) as Hc. rewrite E in Hc.
  destruct (Q !! c) as [e'|] eqn:E'; [|done]. cbn in Hc. injection Hc as Hc. apply (sibs_cons _ _ e'); [done|]. rewrite <- Hc. apply IH. intros x Hx. apply H. by right.
Qed.

Lemma agree_sibs V P Q o l : agree V P Q -> (forall c, c ∈ l -> c ∈ V) -> sibs P o l -> sibs Q o l.
Proof.
  intros H Hv. apply sibs_ext. intros c Hc. specialize (H c (Hv c Hc)). destruct (P !! c), (Q !! c); cbn in *; try done. unfold shape in H. congruence.
Qed.

Lemma links_agree V P Q : agree V P Q -> links P V -> links Q V.
Proof.
  intros H L. assert (Hs : agree V Q P) by (intros k Hk; by rewrite (H k Hk)). split.
  - intros k Hk. destruct (lk_in _ _ L k Hk) as [e E]. destruct (agree_lookup _ _ _ _ _ H Hk E) as (e' & -> & _). by eauto.
  - intros c p Hc Ep. rewrite <- (agree_par _ _ _ _ H Hc) in Ep. destruct (lk_par _ _ L c p Hc Ep) as [Hp Hr]. split; [done|]. by rewrite <- !(agree_rk _ _ _ _ H).
  - intros k e Hk E. destruct (agree_lookup _ _ _ _ _ Hs Hk E) as (e' & E' & Ee). destruct (lk_kids _ _ L k e' Hk E') as (l & Hl & Hn & Hi). exists l.
    assert (child e = child e') as -> by (unfold shape in Ee; congruence). split_and!; [|done|].
    + apply (agree_sibs V P); [done| |done]. intros c Hc. by apply Hi in Hc as [? _].
    + intros c. rewrite Hi. split; intros [Hc Ep]; (split; [done|]); [by rewrite <- (agree_par _ _ _ _ H)|by rewrite (agree_par _ _ _ _ H)].
  - intros k e Hk E Ep. destruct (agree_lookup _ _ _ _ _ Hs Hk E) as (e' & E' & Ee). unfold shape in Ee. injection Ee as _ E1 _ E2. rewrite <- E2. apply (lk_sib _ _ L k e' Hk E'). congruence.
Qed.

Lemma kids_agree V P Q k : agree V P Q -> links P V -> k ∈ V -> kids P k = kids Q k.
Proof.
  intros H L Hk. destruct (children_kids P V L k Hk) as (_ & _ & Hi & e & E & Hs). destruct (agree_lookup _ _ _ _ _ H Hk E) as (e' & E' & Ee).
  apply (sibs_kids Q V (links_agree V P Q H L) k e' _ Hk E'). unfold shape in Ee. injection Ee as _ _ -> _. apply (agree_sibs V P); [done| |done]. intros c Hc. by apply Hi in Hc as [? _].
Qed.

(** * Changing the forest

    Adding an element, linking it to its parent, taking it out of the children
    of its parent, and keeping a part of the forest. *)

Lemma links_intro P V (K : Z -> list Z) :
  (forall k, k ∈ V -> exists e, P !! k = Some e /\ sibs P (child e) (K k) /\ NoDup (K k) /\ (forall c, c ∈ K k <-> c ∈ V /\ par P c = Some k) /\
     (parent e = None -> sibling e = None) /\ forall p, parent e = Some p -> p ∈ V /\ rk P p < rk P k) ->
  links P V /\ forall k, k ∈ V -> kids P k = K k.
Proof.
  intros H. assert (L : links P V).
  { split.
    - intros k Hk. destruct (H k Hk) as (e & E & _). by eauto.
    - intros c p Hc Ep. destruct (H c Hc) as (e & E & _ & _ & _ & _ & Hp). apply Hp. by rewrite <- (par_lookup _ _ _ E).
    - intros k e Hk E. destruct (H k Hk) as (e' & E' & Hs & Hn & Hi & _). rewrite E in E'. injection E' as <-. by exists (K k).
    - intros k e Hk E. destruct (H k Hk) as (e' & E' & _ & _ & _ & Hs & _). rewrite E in E'. injection E' as <-. done. }
  split; [done|]. intros k Hk. destruct (H k Hk) as (e & E & Hs & _). symmetry. by apply (sibs_kids P V L k e).
Qed.

(** What the forest says about an element, in the form [links_intro] asks for. *)
Lemma links_elim P V k : links P V -> k ∈ V -> exists e, P !! k = Some e /\ sibs P (child e) (kids P k) /\ NoDup (kids P k) /\
  (forall c, c ∈ kids P k <-> c ∈ V /\ par P c = Some k) /\ (parent e = None -> sibling e = None) /\ forall p, parent e = Some p -> p ∈ V /\ rk P p < rk P k.
Proof.
  intros L Hk. destruct (children_kids P V L k Hk) as (_ & Hn & Hi & e & E & Hs). exists e. split_and!; try done; [by apply (lk_sib _ _ L k)|].
  intros p Ep. apply (lk_par _ _ L k p Hk). by rewrite (par_lookup _ _ _ E).
Qed.

(** The fields that are not links. *)
Definition rest (e : fd_reasm_fec_t) := (data e, eqvoc e, confirmed e, popped e, in_out e, xid_next e).
Definition same_rest (P Q : fecs) : Prop := forall k, rest <$> P !! k = rest <$> Q !! k.

Lemma same_rest_refl P : same_rest P P.
Proof. done. Qed.

Lemma fec_same_rest_trans P Q R : same_rest P Q -> same_rest Q R -> same_rest P R.
Proof. intros H1 H2 k. by rewrite H1. Qed.

Lemma same_rest_insert P k e e' : P !! k = Some e -> rest e' = rest e -> same_rest P (<[k := e']> P).
Proof. intros E H x. destruct (decide (x = k)) as [->|Hx]; [by rewrite lookup_insert_eq, E; cbn; rewrite H|by rewrite lookup_insert_ne]. Qed.

Lemma same_rest_lookup P Q k e : same_rest P Q -> P !! k = Some e -> exists e', Q !! k = Some e' /\ rest e' = rest e.
Proof. intros H E. specialize (H k). rewrite E in H. destruct (Q !! k) as [e'|]; [|done]. exists e'. split; [done|]. cbn in H. congruence. Qed.

Lemma same_rest_rk P Q k : same_rest P Q -> rk P k = rk Q k.
Proof. intros H. specialize (H k). unfold rk. destruct (P !! k), (Q !! k); cbn in *; try done. unfold rest in H. congruence. Qed.

Lemma same_rest_dom P Q : same_rest P Q -> dom P = dom Q.
Proof. intros H. apply set_eq. intros k. rewrite !elem_of_dom. specialize (H k). destruct (P !! k), (Q !! k); cbn in H; try done; split; intros; by eauto. Qed.

Lemma same_rest_size P Q : same_rest P Q -> size P = size Q.
Proof. intros H. by rewrite <- !(size_dom (D := gset Z)), (same_rest_dom _ _ H). Qed.

(** ** Adding an element *)

Lemma links_add P V k e : links P V -> k ∉ V -> P !! k = Some e -> parent e = None -> child e = None -> sibling e = None ->
  links P ({[k]} ∪ V) /\ kids P k = [] /\ forall x, x ∈ V -> kids P x = kids P x.
Proof.
  intros L Hk E Ep Ec Es. destruct (links_intro P ({[k]} ∪ V) (fun x => if decide (x = k) then [] else kids P x)) as [L' HK].
  - intros x Hx. destruct (decide (x = k)) as [->|Hn].
    + exists e. rewrite Ec. split_and!; try done; [constructor|constructor| |congruence]. intros c. split; [by intros ?%not_elem_of_nil|]. intros [Hc Hp]. exfalso.
      apply elem_of_union in Hc as [->%elem_of_singleton|Hc]; [rewrite (par_lookup _ _ _ E) in Hp; congruence|]. by apply (lk_par _ _ L) in Hp as [? _].
    + assert (Hv : x ∈ V) by set_solver. destruct (links_elim P V x L Hv) as (ex & Ex & H1 & H2 & H3 & H4 & H5). exists ex. split_and!; try done.
      * intros c. rewrite H3. split; intros [Hc Hp]; (split; [|done]); [set_solver|]. apply elem_of_union in Hc as [->%elem_of_singleton|Hc]; [|done].
        rewrite (par_lookup _ _ _ E) in Hp. congruence.
      * intros p Hp. destruct (H5 p Hp). split; [set_solver|done].
  - split; [done|]. split; [|done]. rewrite HK by set_solver. by rewrite decide_True.
Qed.

(** ** Sibling lists *)

Lemma sibs_app P o l1 x l2 : sibs P o (l1 ++ x :: l2) -> exists e, P !! x = Some e /\ sibs P (sibling e) l2.
Proof.
  revert o. induction l1 as [|y l1 IH]; intros o H; inversion H as [|? e ? E Hs]; subst; [by exists e|]. by apply IH in Hs.
Qed.

Lemma sibs_replace P o l1 x l2 e o' l2' : sibs P o (l1 ++ x :: l2) -> P !! x = Some e -> x ∉ l1 -> x ∉ l2' -> sibs P o' l2' ->
  sibs (<[x := set_sibling o' e]> P) o (l1 ++ x :: l2').
Proof.
  revert o. induction l1 as [|y l1 IH]; intros o H E H1 H2 Hs'; inversion H as [|? ey ? Ey Hs]; subst.
  - apply (sibs_cons _ _ (set_sibling o' e)); [by rewrite lookup_insert_eq|]. cbn. apply (sibs_ext P); [|done]. intros c Hc. rewrite lookup_insert_ne; [done|]. by intros ->.
  - apply not_elem_of_cons in H1 as [Hxy H1]. apply (sibs_cons _ _ ey); [by rewrite lookup_insert_ne|]. by apply IH.
Qed.

Lemma last_sibling_ok P l x s n : sibs P (Some s) (l ++ [x]) -> (length l < n)%nat -> last_sibling n P s = Ok x.
Proof.
  revert s n. induction l as [|y l IH]; intros s n H Hn; inversion H as [|? e ? E Hs]; subst; (destruct n as [|n]; [simpl in Hn; lia|]); cbn [last_sibling]; rewrite (get_ok _ _ _ E); cbn [mbind res_bind].
  - inversion Hs as [Hn'|]. done.
  - destruct (sibling e) as [s'|] eqn:Es; [|inversion Hs; by destruct l]. apply IH; [done|simpl in Hn; lia].
Qed.

Lemma left_sibling_ok P l x k l2 c n : sibs P (Some c) (l ++ x :: k :: l2) -> NoDup (l ++ x :: k :: l2) -> (length l < n)%nat -> left_sibling n P c k = Ok x.
Proof.
  revert c n. induction l as [|y l IH]; intros c n H Hnd Hn; inversion H as [|? e ? E Hs]; subst; (destruct n as [|n]; [simpl in Hn; lia|]); cbn [left_sibling]; rewrite (get_ok _ _ _ E); cbn [mbind res_bind].
  - inversion Hs as [|? ? ? E2 Hs2 Eo]; subst. by rewrite Z.eqb_refl.
  - destruct (sibling e) as [s|] eqn:Es; [|inversion Hs; by destruct l]. apply NoDup_cons in Hnd as [Hy Hnd].
    assert (Hsk : s <> k).
    { assert (Hh : head (l ++ x :: k :: l2) = Some s) by (by inversion Hs). destruct l as [|z l]; cbn in Hh; injection Hh as ->.
      - apply NoDup_cons in Hnd as [Hx _]. intros ->. apply Hx. by left.
      - apply NoDup_cons in Hnd as [Hz _]. intros ->. apply Hz. apply elem_of_app. right. right. by left. }
    rewrite (proj2 (Z.eqb_neq s k) Hsk). apply IH; [done|done|simpl in Hn; lia].
Qed.

(** ** Linking a child *)

Lemma fec_link_ok P V p c : links P V -> c ∈ V -> p ∈ V -> par P c = None -> rk P p < rk P c ->
  exists P', link p c P = Ok P' /\ links P' V /\ same_rest P P' /\ kids P' p = kids P p ++ [c] /\
    (forall x, x ∈ V -> x <> p -> kids P' x = kids P x) /\ (forall x, par P' x = if decide (x = c) then Some p else par P x) /\ (forall x, x ∉ V -> P' !! x = P !! x).
Proof.
  intros L Hc Hp Hpc Hr. assert (Hne : p <> c) by (intros ->; lia).
  destruct (links_elim P V c L Hc) as (ec & Ec & _ & _ & _ & Hsc & _). destruct (links_elim P V p L Hp) as (ep & Ep & Hsp & Hnp & Hip & _ & Hpp).
  rewrite (par_lookup _ _ _ Ec) in Hpc. specialize (Hsc Hpc). set (P1 := <[c := set_parent (Some p) ec]> P).
  assert (Hck : c ∉ kids P p) by (rewrite Hip, (par_lookup _ _ _ Ec); intros [_ ?]; congruence).
  assert (E1 : P1 !! p = Some ep) by (unfold P1; by rewrite lookup_insert_ne). assert (E1c : P1 !! c = Some (set_parent (Some p) ec)) by (unfold P1; by rewrite lookup_insert_eq).
  assert (Hs1 : sibs P1 (child ep) (kids P p)) by (apply (sibs_ext P); [|done]; intros x Hx; unfold P1; rewrite lookup_insert_ne; [done|by intros <-]).
  assert (R1 : same_rest P P1) by (by apply (same_rest_insert _ _ ec)).
  assert (Hres : exists P', link p c P = Ok P' /\ same_rest P1 P' /\ (exists ep', P' !! p = Some ep' /\ parent ep' = parent ep /\ sibling ep' = sibling ep /\ sibs P' (child ep') (kids P p ++ [c])) /\
    (forall x, parent <$> P' !! x = parent <$> P1 !! x) /\ (forall x, x <> p -> child <$> P' !! x = child <$> P1 !! x) /\ forall x, x ∉ kids P p -> sibling <$> P' !! x = sibling <$> P1 !! x).
  { unfold link. rewrite (upd_ok _ _ _ _ Ec). cbn [mbind res_bind]. fold P1. rewrite (get_ok _ _ _ E1). cbn [mbind res_bind].
    assert (Hcl : sibs P1 (Some c) [c]) by (apply (sibs_cons _ _ _ _ E1c); cbn; rewrite Hsc; constructor). destruct (child ep) as [s|] eqn:Echild.
    - destruct (exists_last (l := kids P p)) as (l & x & El); [by intros E0; rewrite E0 in Hs1; inversion Hs1|]. rewrite El in *.
      rewrite (last_sibling_ok P1 l x s) by (done || (pose proof (nodup_dom P1 (l ++ [x]) Hnp (sibs_dom _ _ _ Hs1)) as Hl; rewrite length_app in Hl; simpl in Hl; lia)).
      destruct (sibs_app P1 _ l x [] Hs1) as (ex & Ex & _). cbn [mbind res_bind]. rewrite (upd_ok _ _ _ _ Ex).
      assert (Hxp : x <> p).
      { intros ->. assert (Hin : p ∈ l ++ [p]) by (apply elem_of_app; right; by left). apply Hip in Hin as [_ Hin]. apply (lk_par _ _ L) in Hin as [_ ?]; [lia|done]. }
      eexists. split; [done|]. split; [by apply (same_rest_insert _ _ ex)|]. split.
      + exists ep. split_and!; [by rewrite lookup_insert_ne|done|done|]. rewrite <- app_assoc. cbn [app]. rewrite Echild.
        apply NoDup_app in Hnp as (_ & Hd & _). apply (sibs_replace P1 _ l x [] ex (Some c) [c]); try done.
        * intros Hx. apply (Hd x Hx). by left.
        * intros ->%list_elem_of_singleton. apply Hck. apply elem_of_app. right. by left.
      + split_and!; intros y; destruct (decide (y = x)) as [->|Hy]; rewrite ?lookup_insert_eq, ?lookup_insert_ne by done; try done; try (by rewrite Ex).
        intros Hyl. exfalso. apply Hyl, elem_of_app. right. by left.
    - rewrite (upd_ok _ _ _ _ E1). assert (kids P p = []) as Ek by (by inversion Hs1). rewrite Ek in *. eexists. split; [done|]. split; [by apply (same_rest_insert _ _ ep)|]. split.
      + exists (set_child (Some c) ep). split_and!; [by rewrite lookup_insert_eq|done|done|]. cbn [app set_child child].
        apply (sibs_ext P1); [|done]. intros x ->%list_elem_of_singleton. by rewrite lookup_insert_ne by done.
      + split_and!; intros y; destruct (decide (y = p)) as [->|Hy]; rewrite ?lookup_insert_eq, ?lookup_insert_ne by done; try done; by rewrite E1. }
  destruct Hres as (P' & El & R2 & (ep' & Ep' & Epp & Eps & Hs') & Hpar & Hchild & Hsib). pose proof (fec_same_rest_trans _ _ _ R1 R2) as R.
  assert (Hpar' : forall x, par P' x = if decide (x = c) then Some p else par P x).
  { intros x. unfold par. specialize (Hpar x). destruct (decide (x = c)) as [->|Hx].
    - rewrite E1c in Hpar. destruct (P' !! c); cbn in *; congruence.
    - assert (P1 !! x = P !! x) as E by (unfold P1; by rewrite lookup_insert_ne). rewrite E in Hpar. destruct (P' !! x), (P !! x); cbn in *; congruence. }
  assert (Hout : forall x, x ∉ V -> P' !! x = P !! x).
  { intros x Hx. assert (Ex1 : P1 !! x = P !! x) by (unfold P1; rewrite lookup_insert_ne; [done|by intros ->]). specialize (R2 x). specialize (Hpar x). specialize (Hchild x ltac:(by intros ->)).
    specialize (Hsib x ltac:(rewrite Hip; by intros [? _])). rewrite Ex1 in *. destruct (P' !! x) as [e1|], (P !! x) as [e2|]; cbn in *; try done. unfold rest in R2. destruct e1, e2; cbn in *. congruence. }
  exists P'. split; [done|].
  destruct (links_intro P' V (fun x => if decide (x = p) then kids P p ++ [c] else kids P x)) as [L' HK].
  2:{ split_and!; try done; [by rewrite HK, decide_True|]. intros x Hx Hxp. by rewrite HK, decide_False. }
  intros x Hx. destruct (links_elim P V x L Hx) as (ex & Ex & H1 & H2 & H3 & H4 & H5).
  destruct (same_rest_lookup _ _ _ _ R Ex) as (ex' & Ex' & _). exists ex'. split; [done|].
  assert (Hpx : parent ex' = if decide (x = c) then Some p else parent ex) by (rewrite <- (par_lookup _ _ _ Ex'), Hpar'; by rewrite (par_lookup _ _ _ Ex)).
  assert (Hrest : (parent ex' = None -> sibling ex' = None) /\ forall q, parent ex' = Some q -> q ∈ V /\ rk P' q < rk P' x).
  { rewrite Hpx. destruct (decide (x = c)) as [->|Hxc].
    - split; [done|]. intros q [= <-]. rewrite <- !(same_rest_rk _ _ _ R). done.
    - split; [|intros q Hq; rewrite <- !(same_rest_rk _ _ _ R); by apply H5]. intros Hn.
      assert (Hxk : x ∉ kids P p) by (rewrite Hip, (par_lookup _ _ _ Ex), Hn; by intros [_ ?]).
      specialize (Hsib x Hxk). unfold P1 in Hsib. rewrite lookup_insert_ne, Ex, Ex' in Hsib by done. injection Hsib as ->. by apply H4. }
  assert (Hin : forall y, (y ∈ V /\ par P' y = Some x) <-> (x = p /\ y = c) \/ y ∈ kids P x).
  { intros y. rewrite H3, Hpar'. destruct (decide (y = c)) as [->|Hy].
    - rewrite (par_lookup _ _ _ Ec), Hpc. split; [intros [_ [= ->]]; by left|]. by intros [[-> _]|[_ ?]].
    - split; [by right|]. by intros [[_ ->]|?]. }
  destruct (decide (x = p)) as [->|Hxp].
  - rewrite Ep' in Ex'. injection Ex' as <-. split_and!; try apply Hrest; [done| |].
    + apply NoDup_app. split_and!; [done| |apply NoDup_singleton]. by intros y Hy ->%list_elem_of_singleton.
    + intros y. rewrite Hin, elem_of_app, list_elem_of_singleton. naive_solver.
  - split_and!; try apply Hrest; [|done|].
    + specialize (Hchild x Hxp). assert (child <$> P1 !! x = Some (child ex)) as E2.
      { unfold P1. destruct (decide (x = c)) as [->|Hxc]; [rewrite lookup_insert_eq|by rewrite lookup_insert_ne, Ex]. cbn. congruence. }
      rewrite Ex', E2 in Hchild. injection Hchild as ->. apply (sibs_ext P); [|done]. intros y Hy. apply H3 in Hy as [Hyv Hyp]. rewrite Hsib.
      * unfold P1. rewrite lookup_insert_ne; [done|]. intros <-. rewrite (par_lookup _ _ _ Ec) in Hyp. congruence.
      * rewrite Hip. intros [_ ?]. congruence.
    + intros y. rewrite Hin. naive_solver.
Qed.

(** ** Keeping a part of the forest *)

Lemma links_sub P V W : links P V -> W ⊆ V -> (forall c p, c ∈ W -> par P c = Some p -> p ∈ W) -> (forall c p, p ∈ W -> c ∈ V -> par P c = Some p -> c ∈ W) -> links P W.
Proof.
  intros L Hs Hu Hd. apply (links_intro P W (kids P)). intros x Hx. destruct (links_elim P V x L) as (e & E & H1 & H2 & H3 & H4 & H5); [set_solver|].
  exists e. split_and!; try done.
  - intros c. rewrite H3. split; intros [Hc Hp]; (split; [|done]); [by apply (Hd c x)|set_solver].
  - intros p Hp. destruct (H5 p Hp). split; [|done]. apply (Hu x); [done|]. by rewrite (par_lookup _ _ _ E).
Qed.

(** A part with a new root. *)
Lemma links_cut P V W n e : links P V -> W ⊆ V -> n ∈ W -> P !! n = Some e -> (forall p, par P n = Some p -> p ∉ W) ->
  (forall c p, c ∈ W -> c <> n -> par P c = Some p -> p ∈ W) -> (forall c p, p ∈ W -> c ∈ V -> par P c = Some p -> c ∈ W) ->
  let P' := <[n := set_sibling None (set_parent None e)]> P in
  links P' W /\ (forall x, x ∈ W -> kids P' x = kids P x) /\ (forall x, par P' x = if decide (x = n) then None else par P x).
Proof.
  intros L Hs Hn En Hpn Hu Hd P'.
  assert (Hpar : forall x, par P' x = if decide (x = n) then None else par P x).
  { intros x. unfold par, P'. destruct (decide (x = n)) as [->|Hx]; [by rewrite lookup_insert_eq|by rewrite lookup_insert_ne]. }
  assert (Hrk : forall x, rk P' x = rk P x).
  { intros x. unfold rk, P'. destruct (decide (x = n)) as [->|Hx]; [by rewrite lookup_insert_eq, En|by rewrite lookup_insert_ne]. }
  destruct (links_intro P' W (kids P)) as [L' HK]; [|done]. intros x Hx. destruct (links_elim P V x L) as (ex & Ex & H1 & H2 & H3 & H4 & H5); [set_solver|].
  assert (Hnk : n ∉ kids P x) by (rewrite H3; intros [_ Hq]; by apply (Hpn x)).
  assert (Hsibs : sibs P' (child ex) (kids P x)) by (apply (sibs_ext P); [|done]; intros c Hc; unfold P'; rewrite lookup_insert_ne; [done|by intros ->]).
  assert (Hiff : forall c, c ∈ kids P x <-> c ∈ W /\ par P' c = Some x).
  { intros c. rewrite H3, Hpar. destruct (decide (c = n)) as [->|Hc]; [split; [intros Hc; by apply H3 in Hc|by intros [_ ?]]|].
    split; intros [Hcv Hp]; (split; [|done]); [by apply (Hd c x)|set_solver]. }
  destruct (decide (x = n)) as [->|Hxn].
  - rewrite En in Ex. injection Ex as <-. exists (set_sibling None (set_parent None e)). split_and!; try done. unfold P'. by rewrite lookup_insert_eq.
  - exists ex. split_and!; try done; [unfold P'; by rewrite lookup_insert_ne|]. intros p Hp. rewrite !Hrk. destruct (H5 p Hp). split; [|done]. apply (Hu x); [done..|].
    by rewrite (par_lookup _ _ _ Ex).
Qed.

(** Cutting the children of [t] off. *)
Lemma links_detach P V t P' : links P V -> t ∈ V ->
  (forall x e, P !! x = Some e -> exists e', P' !! x = Some e' /\ data e' = data e /\ child e' = (if decide (x = t) then None else child e) /\
     parent e' = (if decide (x ∈ kids P t) then None else parent e) /\ sibling e' = (if decide (x ∈ kids P t) then None else sibling e)) ->
  links P' V /\ kids P' t = [] /\ (forall x, x ∈ V -> x <> t -> kids P' x = kids P x) /\ (forall x, x ∈ V -> par P' x = if decide (x ∈ kids P t) then None else par P x).
Proof.
  intros L Ht H. assert (Htk : t ∉ kids P t).
  { rewrite (kids_iff P V L t t Ht). intros [_ Hp]. apply (lk_par _ _ L) in Hp as [_ ?]; [lia|done]. }
  assert (Hpar : forall x, x ∈ V -> par P' x = if decide (x ∈ kids P t) then None else par P x).
  { intros x Hx. destruct (lk_in _ _ L x Hx) as [e E]. destruct (H x e E) as (e' & E' & _ & _ & Hp & _). by rewrite (par_lookup _ _ _ E), (par_lookup _ _ _ E'). }
  assert (Hrk : forall x, x ∈ V -> rk P' x = rk P x).
  { intros x Hx. destruct (lk_in _ _ L x Hx) as [e E]. destruct (H x e E) as (e' & E' & Hd & _). unfold rk. rewrite E, E'. cbn. by rewrite Hd. }
  destruct (links_intro P' V (fun x => if decide (x = t) then [] else kids P x)) as [L' HK].
  2:{ split; [done|]. split; [by rewrite HK, decide_True|]. split; [|done]. intros x Hx Hxt. by rewrite HK, decide_False. }
  intros x Hx. destruct (links_elim P V x L Hx) as (e & E & H1 & H2 & H3 & H4 & H5). destruct (H x e E) as (e' & E' & Hd & Hc & Hp & Hsb). exists e'. split; [done|].
  assert (Hrest : (parent e' = None -> sibling e' = None) /\ forall q, parent e' = Some q -> q ∈ V /\ rk P' q < rk P' x).
  { rewrite Hp, Hsb. destruct (decide (x ∈ kids P t)); [done|]. split; [done|]. intros q Hq. destruct (H5 q Hq). rewrite !Hrk; done. }
  rewrite Hc. destruct (decide (x = t)) as [->|Hxt].
  - split_and!; try apply Hrest; [constructor|constructor|]. intros c. split; [by intros ?%not_elem_of_nil|]. intros [Hcv Hcp]. rewrite Hpar in Hcp by done. exfalso.
    destruct (decide (c ∈ kids P t)) as [|Hn]; [done|]. apply Hn. by apply H3.
  - split_and!; try apply Hrest; [|done|].
    + apply (sibs_ext P); [|done]. intros c Hck. apply H3 in Hck as [Hcv Hcp]. destruct (lk_in _ _ L c Hcv) as [ec Ec]. destruct (H c ec Ec) as (ec' & Ec' & _ & _ & _ & Hs).
      rewrite Ec, Ec'. cbn. rewrite Hs, decide_False; [done|]. rewrite (kids_iff P V L t c Ht). intros [_ ?]. congruence.
    + intros c. rewrite H3. split; intros [Hcv Hcp]; (split; [done|]); rewrite ?Hpar in * by done.
      * rewrite decide_False; [done|]. rewrite (kids_iff P V L t c Ht). intros [_ ?]. congruence.
      * destruct (decide (c ∈ kids P t)); [done|]. done.
Qed.

Lemma filter_ne (k : Z) (l : list Z) : k ∉ l -> filter (.≠ k) l = l.
Proof.
  induction l as [|x l IH]; intros H; [done|]. apply not_elem_of_cons in H as [Hx H]. rewrite filter_cons_True by (intros ->; done). by rewrite IH.
Qed.

(** Taking [k] out of the children of its parent, and everything below it out
    of the forest. *)
Lemma fec_unlink_ok P V D p k : links P V -> k ∈ D -> D ⊆ V -> p ∉ D -> par P k = Some p -> (forall x, x ∈ D -> x <> k -> exists q, q ∈ D /\ par P x = Some q) ->
  (forall c q, c ∈ V -> q ∈ D -> par P c = Some q -> c ∈ D) ->
  exists P', unlink p k P = Ok P' /\ same_rest P P' /\ links P' (V ∖ D) /\ (forall x, par P' x = par P x) /\
    kids P' p = filter (.≠ k) (kids P p) /\ (forall x, x ∈ V ∖ D -> x <> p -> kids P' x = kids P x) /\ agree D P P'.
Proof.
  intros L Hk HD HpD Hpk Hup Hdown. assert (Hkv : k ∈ V) by set_solver. destruct (lk_par _ _ L k p Hkv Hpk) as [Hp Hr].
  destruct (links_elim P V p L Hp) as (ep & Ep & Hsp & Hnp & Hip & Hrp & Hpp). destruct (lk_in _ _ L k Hkv) as [ek Ek].
  assert (Hkin : k ∈ kids P p) by (by apply Hip). apply list_elem_of_split in Hkin as (l1 & l2 & El).
  assert (Hk12 : k ∉ l1 /\ k ∉ l2).
  { rewrite El in Hnp. apply NoDup_app in Hnp as (_ & Hd & Hn2). apply NoDup_cons in Hn2 as [Hn2 _]. split; [|done]. intros Hx. apply (Hd k Hx). by left. }
  assert (Ef : filter (.≠ k) (kids P p) = l1 ++ l2).
  { rewrite El, filter_app, filter_cons_False by (intros Hkk; by apply Hkk). rewrite !filter_ne by apply Hk12. done. }
  assert (Hres : exists P', unlink p k P = Ok P' /\ same_rest P P' /\ (exists ep', P' !! p = Some ep' /\ parent ep' = parent ep /\ sibling ep' = sibling ep /\ sibs P' (child ep') (l1 ++ l2)) /\
    (forall x, parent <$> P' !! x = parent <$> P !! x) /\ (forall x, x <> p -> child <$> P' !! x = child <$> P !! x) /\ (forall x, x ∉ l1 -> sibling <$> P' !! x = sibling <$> P !! x)).
  { unfold unlink. rewrite (get_ok _ _ _ Ep). cbn [mbind res_bind]. destruct (child ep) as [c|] eqn:Ec; [|rewrite El in Hsp; inversion Hsp; by destruct l1].
    rewrite (get_ok _ _ _ Ek). cbn [mbind res_bind]. destruct (sibs_app P _ l1 k l2 ltac:(rewrite <- El; exact Hsp)) as (ek' & Ek' & Hs2). rewrite Ek in Ek'. injection Ek' as <-.
    assert (Hpl : p ∉ kids P p) by (rewrite Hip; intros [_ Hq]; apply (lk_par _ _ L) in Hq as [_ ?]; [lia|done]).
    destruct (decide (l1 = [])) as [->|Hl1].
    - assert (c = k) as -> by (rewrite El in Hsp; by inversion Hsp). rewrite Z.eqb_refl, (upd_ok _ _ _ _ Ep). eexists. split; [done|].
      split; [by apply (same_rest_insert _ _ ep)|]. split; [|split_and!; intros y; destruct (decide (y = p)) as [->|Hy]; rewrite ?lookup_insert_eq, ?lookup_insert_ne by done; try done; by rewrite Ep].
      exists (set_child (sibling ek) ep). split_and!; [by rewrite lookup_insert_eq|done|done|]. cbn. apply (sibs_ext P); [|done]. intros x Hx. rewrite lookup_insert_ne; [done|].
      intros <-. apply Hpl. rewrite El. apply elem_of_app. right. by right.
    - destruct (exists_last Hl1) as (l & x & ->). rewrite <- app_assoc in El. cbn [app] in El.
      assert (Hck : c <> k).
      { rewrite El in Hsp. assert (Hh : head (l ++ x :: k :: l2) = Some c) by (by inversion Hsp). intros ->. apply (proj1 Hk12). destruct l; cbn in *; injection Hh as ->; [|by left]. by left. }
      rewrite (proj2 (Z.eqb_neq c k) Hck). rewrite El in Hsp, Hnp.
      rewrite (left_sibling_ok P l x k l2 c) by (done || (pose proof (nodup_dom P _ Hnp (sibs_dom _ _ _ Hsp)) as Hl; rewrite length_app in Hl; simpl in Hl; lia)).
      destruct (sibs_app P _ l x (k :: l2) Hsp) as (ex & Ex & _). cbn [mbind res_bind]. rewrite (upd_ok _ _ _ _ Ex). eexists. split; [done|]. split; [by apply (same_rest_insert _ _ ex)|].
      assert (Hxp : x <> p) by (intros ->; apply Hpl; rewrite El; apply elem_of_app; right; by left).
      split; [|split_and!; intros y; destruct (decide (y = x)) as [->|Hy]; rewrite ?lookup_insert_eq, ?lookup_insert_ne by done; try done; try (by rewrite Ex)].
      2:{ intros Hyl. exfalso. apply Hyl, elem_of_app. right. by left. }
      exists ep. split_and!; [by rewrite lookup_insert_ne|done|done|]. rewrite Ec, <- app_assoc. cbn [app]. apply NoDup_app in Hnp as (_ & Hd & Hn2). apply NoDup_cons in Hn2 as [Hn2 _].
      apply (sibs_replace P _ l x (k :: l2)); try done; [|set_solver]. intros Hx. apply (Hd x Hx). by left. }
  destruct Hres as (P' & Eu & R & (ep' & Ep' & Epp & Eps & Hs') & Hpar & Hchild & Hsib).
  assert (Hpar' : forall x, par P' x = par P x) by (intros x; specialize (Hpar x); unfold par; destruct (P' !! x), (P !! x); cbn in *; congruence).
  assert (Hl1D : forall x, x ∈ D -> x ∉ l1).
  { intros x HxD Hx. assert (Hxk : x ∈ kids P p) by (rewrite El; apply elem_of_app; by left). apply Hip in Hxk as [_ Hxp]. destruct (decide (x = k)) as [->|Hn]; [by apply (proj1 Hk12)|].
    destruct (Hup x HxD Hn) as (q & Hq & Eq). congruence. }
  exists P'. split; [done|]. split; [done|].
  assert (Hag : agree D P P').
  { intros x Hx. specialize (R x). specialize (Hpar x). specialize (Hsib x (Hl1D x Hx)). assert (Hxp : x <> p) by (by intros ->). specialize (Hchild x Hxp).
    destruct (P !! x), (P' !! x); cbn in *; try done. unfold rest in R. unfold shape. congruence. }
  destruct (links_intro P' (V ∖ D) (fun x => if decide (x = p) then l1 ++ l2 else kids P x)) as [L' HK].
  2:{ split; [done|]. split; [done|]. split; [rewrite HK by set_solver; by rewrite decide_True, Ef|]. split; [|done]. intros x Hx Hxp. by rewrite HK, decide_False. }
  intros x Hx. assert (Hxv : x ∈ V) by set_solver. destruct (links_elim P V x L Hxv) as (ex & Ex & H1 & H2 & H3 & H4 & H5).
  destruct (same_rest_lookup _ _ _ _ R Ex) as (ex' & Ex' & _). exists ex'. split; [done|].
  assert (Epx : parent ex' = parent ex) by (rewrite <- (par_lookup _ _ _ Ex'), Hpar'; by apply par_lookup).
  assert (Hrest : (parent ex' = None -> sibling ex' = None) /\ forall q, parent ex' = Some q -> q ∈ V ∖ D /\ rk P' q < rk P' x).
  { rewrite Epx. split.
    - intros Hn. assert (Hxl : x ∉ l1). { intros Hxl. assert (Hxk : x ∈ kids P p) by (rewrite El; apply elem_of_app; by left). apply Hip in Hxk as [_ Hxk]. rewrite (par_lookup _ _ _ Ex) in Hxk. congruence. }
      specialize (Hsib x Hxl). rewrite Ex, Ex' in Hsib. injection Hsib as ->. by apply H4.
    - intros q Hq. rewrite <- !(same_rest_rk _ _ _ R). destruct (H5 q Hq) as [Hqv Hqr]. split; [|done]. apply elem_of_difference. split; [done|]. intros HqD.
      apply elem_of_difference in Hx as [_ Hx]. apply Hx, (Hdown x q); [done..|]. by rewrite (par_lookup _ _ _ Ex). }
  destruct (decide (x = p)) as [->|Hxp].
  - rewrite Ep' in Ex'. injection Ex' as <-. split_and!; try apply Hrest; [done| |].
    + rewrite <- Ef. by apply NoDup_filter.
    + intros y. rewrite <- Ef, list_elem_of_filter, Hip, Hpar'. split.
      * intros (Hyk & Hyv & Hyp). split; [|done]. apply elem_of_difference. split; [done|]. intros HyD. destruct (Hup y HyD Hyk) as (q & Hq & Eq). congruence.
      * intros [Hyv Hyp]. split; [by intros ->; set_solver|]. split; [set_solver|done].
  - split_and!; try apply Hrest; [|done|].
    + specialize (Hchild x Hxp). rewrite Ex, Ex' in Hchild. injection Hchild as ->. apply (sibs_ext P); [|done]. intros y Hy. symmetry. apply Hsib. intros Hyl.
      assert (Hyk : y ∈ kids P p) by (rewrite El; apply elem_of_app; by left). apply Hip in Hyk as [_ Hyp]. apply H3 in Hy as [_ Hy]. congruence.
    + intros y. rewrite H3, Hpar'. split; intros [Hyv Hyp]; (split; [|done]); [|set_solver]. apply elem_of_difference. split; [done|]. intros HyD.
      assert (Hxd : x ∉ D) by set_solver. destruct (decide (y = k)) as [->|Hyk]; [congruence|]. destruct (Hup y HyD Hyk) as (q & Hq & Eq). congruence.
Qed.
