(* ===== verification/ReasmInv.v ===== *)
(** * FEC sets of the same slot and index

    The map [xid] holds, for every slot and index, the list of the elements that
    claim it, the most recent first; the lists are threaded through
    [xid_next]. *)

From S2P Require Import Prelude Bits Reasm ReasmTree.

#[local] Open Scope Z_scope.

(** The list that starts at [o]; what follows its last element is not looked at. *)
Fixpoint xl (P : fecs) (o : option Z) (l : list Z) : Prop :=
  match l with [] => True | k :: l => o = Some k /\ exists e, P !! k = Some e /\ xl P (xid_next e) l end.

Definition xkey (P : fecs) (k : Z) : option Z := (fun e => key_of (data e)) <$> P !! k.

Record xid_entry (P : fecs) (V : gset Z) (x : Z) (m : xid_t) (l : list Z) : Prop := mk_xid_entry {
  xe_list : xl P (xid_idx m) l;
  xe_some : l <> [];
  xe_cnt : xid_cnt m = Z.of_nat (length l);
  xe_nodup : NoDup l;
  xe_iff : forall k, k ∈ l <-> k ∈ V /\ xkey P k = Some x;
}.

Definition xid_wf (P : fecs) (V : gset Z) (X : gmap Z xid_t) : Prop := forall x,
  match X !! x with None => forall k, k ∈ V -> xkey P k <> Some x | Some m => exists l, xid_entry P V x m l end.

(** Everything but the list pointer. *)
Definition strip (e : fd_reasm_fec_t) : fd_reasm_fec_t := set_xid_next None e.
Definition same_strip (P Q : fecs) : Prop := forall k, strip <$> P !! k = strip <$> Q !! k.

Lemma strip_fields e e' : strip e = strip e' -> data e = data e' /\ parent e = parent e' /\ child e = child e' /\ sibling e = sibling e' /\
  eqvoc e = eqvoc e' /\ confirmed e = confirmed e' /\ popped e = popped e' /\ in_out e = in_out e'.
Proof. unfold strip, set_xid_next. intros H. by injection H as -> -> -> -> -> -> -> ->. Qed.

Lemma same_strip_refl P : same_strip P P.
Proof. done. Qed.

Lemma same_strip_trans P Q R : same_strip P Q -> same_strip Q R -> same_strip P R.
Proof. intros H1 H2 k. by rewrite H1. Qed.

Lemma same_strip_lookup P Q k e : same_strip P Q -> P !! k = Some e -> exists e', Q !! k = Some e' /\ strip e' = strip e.
Proof. intros H E. specialize (H k). rewrite E in H. destruct (Q !! k) as [e'|]; [|done]. exists e'. split; [done|]. cbn in H. congruence. Qed.

Lemma same_strip_insert P k e o : P !! k = Some e -> same_strip P (<[k := set_xid_next o e]> P).
Proof. intros E x. destruct (decide (x = k)) as [->|Hx]; [by rewrite lookup_insert_eq, E|by rewrite lookup_insert_ne]. Qed.

Lemma same_strip_agree V P Q : same_strip P Q -> agree V P Q.
Proof.
  intros H k _. specialize (H k). destruct (P !! k), (Q !! k); cbn in *; try done. injection H as H1 H2 H3 H4 _ _ _ _. unfold shape. congruence.
Qed.

Lemma same_strip_dom P Q : same_strip P Q -> dom P = dom Q.
Proof. intros H. apply set_eq. intros k. rewrite !elem_of_dom. specialize (H k). destruct (P !! k), (Q !! k); cbn in H; try done; split; intros; by eauto. Qed.

Lemma same_strip_xkey P Q k : same_strip P Q -> xkey P k = xkey Q k.
Proof. intros H. specialize (H k). unfold xkey. destruct (P !! k), (Q !! k); cbn in *; try done. injection H as ->. done. Qed.

(** ** Lists *)

Lemma xl_ext P Q o l : (forall k, k ∈ l -> xid_next <$> P !! k = xid_next <$> Q !! k) -> xl P o l -> xl Q o l.
Proof.
  revert o. induction l as [|k l IH]; intros o H; [done|]. intros (-> & e & E & Hl). pose proof (H k ltac:(by left)) as Hk. rewrite E in Hk. destruct (Q !! k) as [e'|] eqn:E'; [|done].
  injection Hk as Hk. split; [done|]. exists e'. split; [done|]. rewrite <- Hk. apply IH; [|done]. intros x Hx. apply H. by right.
Qed.

Lemma xid_wf_ext P Q V X : (forall k, k ∈ V -> (data <$> P !! k = data <$> Q !! k) /\ xid_next <$> P !! k = xid_next <$> Q !! k) -> xid_wf P V X -> xid_wf Q V X.
Proof.
  intros H W x. specialize (W x). assert (Hx : forall k, k ∈ V -> xkey P k = xkey Q k).
  { intros k Hk. destruct (H k Hk) as [Hd _]. unfold xkey. destruct (P !! k), (Q !! k); cbn in *; congruence. }
  destruct (X !! x) as [m|].
  - destruct W as (l & [H1 H2 H3 H4 H5]). exists l. split; try done.
    + apply (xl_ext P); [|done]. intros k Hk. apply H. by apply H5 in Hk as [? _].
    + intros k. rewrite H5. split; intros [Hk E]; (split; [done|]); [by rewrite <- Hx|by rewrite Hx].
  - intros k Hk. rewrite <- Hx by done. by apply W.
Qed.

Lemma xl_app P o l1 k l2 : xl P o (l1 ++ k :: l2) -> exists e, P !! k = Some e /\ xl P (xid_next e) l2.
Proof. revert o. induction l1 as [|y l1 IH]; intros o; cbn [app xl]; [by intros [_ H]|]. intros (_ & e & _ & H). by apply IH in H. Qed.

Lemma xl_replace P o l1 j l2 l2' e o' : xl P o (l1 ++ j :: l2) -> P !! j = Some e -> j ∉ l1 -> j ∉ l2' -> xl P o' l2' -> xl (<[j := set_xid_next o' e]> P) o (l1 ++ j :: l2').
Proof.
  revert o. induction l1 as [|y l1 IH]; intros o H E H1 H2 H'; cbn [app xl] in *.
  - destruct H as (-> & _). split; [done|]. exists (set_xid_next o' e). split; [by rewrite lookup_insert_eq|]. cbn. apply (xl_ext P); [|done].
    intros k Hk. rewrite lookup_insert_ne; [done|by intros ->].
  - destruct H as (-> & ey & Ey & H). apply not_elem_of_cons in H1 as [Hy H1]. split; [done|]. exists ey. split; [by rewrite lookup_insert_ne|]. by apply IH.
Qed.

Lemma xid_prev_ok P l j k l2 o n : xl P o (l ++ j :: k :: l2) -> NoDup (l ++ j :: k :: l2) -> (length l < n)%nat -> xid_prev n P o k = Ok j.
Proof.
  revert o n. induction l as [|y l IH]; intros o n H Hnd Hn; (destruct n as [|n]; [simpl in Hn; lia|]); cbn [app xl] in H.
  - destruct H as (-> & e & E & Ek & _). cbn [xid_prev]. rewrite (get_ok _ _ _ E). cbn [mbind res_bind]. by rewrite decide_True.
  - destruct H as (-> & e & E & H). cbn [xid_prev]. rewrite (get_ok _ _ _ E). cbn [mbind res_bind]. apply NoDup_cons in Hnd as [Hy Hnd].
    assert (Hne : xid_next e <> Some k).
    { destruct l as [|z l]; cbn [app xl] in H; destruct H as (-> & _); intros [= ->].
      - apply NoDup_cons in Hnd as [Hx _]. apply Hx. by left.
      - apply NoDup_cons in Hnd as [Hx _]. apply Hx, elem_of_app. right. right. by left. }
    rewrite decide_False by done. apply IH; [done|done|simpl in Hn; lia].
Qed.

(** ** Removing an element *)

Lemma clear_xid_ok r V k : xid_wf (pool r) V (xid r) -> k ∈ V -> (forall x, x ∈ V -> is_Some (pool r !! x)) -> Z.of_nat (size (pool r)) < 2 ^ 32 ->
  exists P X, clear_xid_metadata k r = Ok (with_xid X (with_pool P r)) /\ same_strip (pool r) P /\ xid_wf P (V ∖ {[k]}) X.
Proof.
  intros W Hk Hin Hsz. destruct (Hin k Hk) as [e E]. unfold clear_xid_metadata. rewrite (get_ok _ _ _ E). cbn [mbind res_bind]. set (x := key_of (data e)).
  assert (Ex : xkey (pool r) k = Some x) by (unfold xkey; by rewrite E). pose proof (W x) as Wx. destruct (xid r !! x) as [m|] eqn:Em; [|by destruct (Wx k Hk)].
  destruct Wx as (l & [H1 H2 H3 H4 H5]). assert (Hkl : k ∈ l) by (by apply H5).
  assert (Hlen : (length l <= size (pool r))%nat) by (apply nodup_dom; [done|]; intros c Hc; apply Hin; by apply H5 in Hc as [? _]).
  assert (Hpos : (0 < length l)%nat) by (destruct l; [done|simpl; lia]). rewrite H3, Z.mod_small by lia.
  (* the other entries *)
  assert (Hother : forall P' (X' : gmap Z xid_t) y, same_strip (pool r) P' -> (forall z, z ∉ l -> P' !! z = pool r !! z) -> y <> x -> X' !! y = xid r !! y ->
    match X' !! y with None => forall z, z ∈ V ∖ {[k]} -> xkey P' z <> Some y | Some m' => exists l', xid_entry P' (V ∖ {[k]}) y m' l' end).
  { intros P' X' y Hst Hsame Hy ->. pose proof (W y) as Wy. destruct (xid r !! y) as [m'|].
    - destruct Wy as (l' & [G1 G2 G3 G4 G5]). exists l'. split; try done.
      + apply (xl_ext (pool r)); [|done]. intros z Hz. rewrite Hsame; [done|]. intros Hzl. apply H5 in Hzl as [_ A]. apply G5 in Hz as [_ B]. congruence.
      + intros z. rewrite G5, (same_strip_xkey _ _ z Hst). split; [|set_solver]. intros [Hz Ez]. split; [|done]. apply elem_of_difference. split; [done|]. intros ->%elem_of_singleton.
        rewrite <- (same_strip_xkey _ _ k Hst) in Ez. congruence.
    - intros z Hz. rewrite <- (same_strip_xkey _ _ z Hst). apply Wy. set_solver. }
  (* the entry itself, once [k] is out of its list *)
  assert (Hentry : forall P' m' l', same_strip (pool r) P' -> xl P' (xid_idx m') l' -> l' <> [] -> xid_cnt m' = Z.of_nat (length l) - 1 -> (exists l1 l2, l = l1 ++ k :: l2 /\ l' = l1 ++ l2) ->
    xid_entry P' (V ∖ {[k]}) x m' l').
  { intros P' m' l' Hst Hl' Hne Hc (l1 & l2 & -> & ->). apply NoDup_app in H4 as (N1 & N2 & N3). apply NoDup_cons in N3 as [N3 N4]. split; try done.
    - rewrite Hc, !length_app. simpl. lia.
    - apply NoDup_app. split_and!; try done. intros z Hz Hz'. apply (N2 z Hz). by right.
    - intros z. rewrite <- (same_strip_xkey _ _ z Hst). specialize (H5 z). rewrite elem_of_app, elem_of_cons in H5. rewrite elem_of_app, elem_of_difference, elem_of_singleton.
      split; [|naive_solver]. intros Hz. assert (z <> k) by (intros ->; destruct Hz as [Hz|Hz]; [apply (N2 k Hz); by left|done]). naive_solver. }
  destruct (Z.eqb_spec (Z.of_nat (length l) - 1) 0) as [Hc|Hc].
  - exists (pool r), (delete x (xid r)). split; [by destruct r|]. split; [done|]. intros y. destruct (decide (y = x)) as [->|Hy].
    + rewrite lookup_delete_eq. intros z Hz Ez. assert (Hzl : z ∈ l) by (apply H5; split; [set_solver|done]). assert (length l = 1)%nat by lia.
      destruct l as [|a [|]]; try done. apply list_elem_of_singleton in Hzl, Hkl. set_solver.
    + apply Hother; try done. by rewrite lookup_delete_ne.
  - pose proof Hkl as Hsp. apply list_elem_of_split in Hsp as (l1 & l2 & El). destruct (decide (l1 = [])) as [->|Hl1].
    + cbn [app] in El. subst l. destruct H1 as (Ei & e' & E' & Hl2). rewrite E in E'. injection E' as <-. rewrite decide_True by done.
      eexists (pool r), _. split; [by destruct r|]. split; [done|]. intros y. destruct (decide (y = x)) as [->|Hy].
      * rewrite lookup_insert_eq. exists l2. apply Hentry; try done; [by intros ->; simpl in Hc; lia|]. by exists [], l2.
      * apply Hother; try done. by rewrite lookup_insert_ne.
    + destruct (exists_last Hl1) as (l0 & j & ->). rewrite <- app_assoc in El. cbn [app] in El. subst l.
      assert (Hne : xid_idx m <> Some k).
      { destruct l0 as [|z l0]; cbn [app xl] in H1; destruct H1 as (-> & _); intros [= ->]; apply NoDup_cons in H4 as [H4 _]; apply H4; [by left|]. apply elem_of_app. right. right. by left. }
      rewrite decide_False by done. rewrite length_app in Hlen. rewrite (xid_prev_ok (pool r) l0 j k l2) by (done || (simpl in Hlen; lia)). cbn [mbind res_bind].
      destruct (xl_app _ _ _ _ _ H1) as (ej & Ej & Ek & ek & Ek' & Hl2). rewrite E in Ek'. injection Ek' as <-. unfold update. rewrite (upd_ok _ _ _ _ Ej). cbn [mbind res_bind].
      assert (Hst : same_strip (pool r) (<[j := set_xid_next (xid_next e) ej]> (pool r))) by (by apply same_strip_insert).
      eexists _, _. split; [destruct r; done|]. split; [done|]. intros y. apply NoDup_app in H4 as (N1 & N2 & N3).
      apply NoDup_cons in N3 as [N3 N4]. destruct (decide (y = x)) as [->|Hy].
      * rewrite lookup_insert_eq. exists (l0 ++ j :: l2). apply Hentry; try done; [|by destruct l0|].
        -- apply (xl_replace _ _ l0 j (k :: l2)); try done; [|set_solver]. intros Hj. apply (N2 j Hj). by left.
        -- exists (l0 ++ [j]), l2. by rewrite <- !app_assoc.
      * apply Hother; try done; [|by rewrite lookup_insert_ne]. intros z Hz. rewrite lookup_insert_ne; [done|]. intros <-. apply Hz, elem_of_app. right. by left.
Qed.

(** ** Adding an element *)

Lemma pick_keys P (V : gset Z) l : NoDup l -> (forall x, x ∈ l -> exists k, k ∈ V /\ xkey P k = Some x) ->
  exists ks, NoDup ks /\ length ks = length l /\ forall k, k ∈ ks -> k ∈ V /\ exists x, x ∈ l /\ xkey P k = Some x.
Proof.
  induction 1 as [|x l Hx Hn IH]; intros H; [exists []; split_and!; [constructor|done|set_solver]|]. destruct IH as (ks & Hk & El & Hks); [set_solver|].
  destruct (H x ltac:(by left)) as (k & Hkv & Ek). exists (k :: ks). split_and!; [|simpl; lia|].
  - apply NoDup_cons. split; [|done]. intros Hin. destruct (Hks k Hin) as (_ & y & Hy & Ey). rewrite Ek in Ey. by injection Ey as ->.
  - intros z [->|Hz]%elem_of_cons; [split; [done|]; exists x; split; [by left|done]|]. destruct (Hks z Hz) as (Hz1 & y & Hy & Ey). split; [done|]. exists y. split; [by right|done].
Qed.

Lemma xid_size P V X : xid_wf P V X -> (size X <= size V)%nat.
Proof.
  intros W. destruct (pick_keys P V (elements (dom X))) as (ks & Hn & El & Hks).
  - apply NoDup_elements.
  - intros x Hx. apply elem_of_elements, elem_of_dom in Hx as [m Em]. specialize (W x). rewrite Em in W. destruct W as (l & [_ Hne _ _ Hl]). destruct l as [|k l]; [done|].
    exists k. apply Hl. by left.
  - rewrite <- (size_dom (D := gset Z) X). unfold size at 1, set_size. cbn. rewrite <- El, <- (size_list_to_set (C := gset Z) ks Hn). apply subseteq_size. intros k Hk. apply elem_of_list_to_set in Hk.
    by apply Hks.
Qed.

Lemma xid_max_ge n : 1 <= n <= 2 ^ 40 -> n <= xid_max n.
Proof.
  intros Hn. unfold xid_max. pose proof (Z.le_max_r (n / FD_FEC_BLK_MAX) 1). assert (Hd : n / FD_FEC_BLK_MAX <= n) by (change FD_FEC_BLK_MAX with 1024; apply Z.div_le_upper_bound; lia).
  pose proof (pow2_up_ge (n + Z.max (n / FD_FEC_BLK_MAX) 1)). lia.
Qed.

Lemma xid_update_ok r V k e : xid_wf (pool r) V (xid r) -> k ∉ V -> pool r !! k = Some e -> (forall x, x ∈ V -> is_Some (pool r !! x)) ->
  Z.of_nat (size V) < xid_max (fec_max r) -> Z.of_nat (size V) < 2 ^ 31 ->
  exists P X, xid_update (slot (data e)) (fec_set_idx (data e)) k r = Ok (with_xid X (with_pool P r)) /\ same_strip (pool r) P /\ xid_wf P ({[k]} ∪ V) X.
Proof.
  intros W Hk E Hin Hcap Hsz. unfold xid_update. fold (key_of (data e)). set (x := key_of (data e)). pose proof (W x) as Wx. pose proof (xid_size _ _ _ W) as Hx.
  assert (Ekx : xkey (pool r) k = Some x) by (unfold xkey; by rewrite E).
  assert (Hother : forall P' (X' : gmap Z xid_t) y, same_strip (pool r) P' -> (forall z, z <> k -> P' !! z = pool r !! z) -> y <> x -> X' !! y = xid r !! y ->
    match X' !! y with None => forall z, z ∈ {[k]} ∪ V -> xkey P' z <> Some y | Some m' => exists l', xid_entry P' ({[k]} ∪ V) y m' l' end).
  { intros P' X' y Hst Hsame Hy ->. pose proof (W y) as Wy. destruct (xid r !! y) as [m'|].
    - destruct Wy as (l' & [G1 G2 G3 G4 G5]). exists l'. split; try done.
      + apply (xl_ext (pool r)); [|done]. intros z Hz. rewrite Hsame; [done|]. intros ->. apply G5 in Hz as [? _]. done.
      + intros z. rewrite G5, (same_strip_xkey _ _ z Hst), elem_of_union, elem_of_singleton. split; [naive_solver|]. intros [[->|Hz] Ez]; [|done].
        rewrite <- (same_strip_xkey _ _ k Hst) in Ez. congruence.
    - intros z [->%elem_of_singleton|Hz]%elem_of_union; rewrite <- (same_strip_xkey _ _ _ Hst); [congruence|by apply Wy]. }
  destruct (xid r !! x) as [m|] eqn:Em.
  - destruct Wx as (l & [H1 H2 H3 H4 H5]). unfold update. rewrite (upd_ok _ _ _ _ E). cbn [mbind res_bind].
    assert (Hst : same_strip (pool r) (<[k := set_xid_next (xid_idx m) e]> (pool r))) by (by apply same_strip_insert).
    eexists _, _. split; [destruct r; done|]. split; [done|]. assert (Hkl : k ∉ l) by (rewrite H5; by intros [? _]).
    assert (Hlen : (length l <= size V)%nat).
    { rewrite <- (size_list_to_set (C := gset Z) l) by done. apply subseteq_size. intros z Hz. apply elem_of_list_to_set in Hz. by apply H5 in Hz as [? _]. }
    intros y. destruct (decide (y = x)) as [->|Hy].
    + cbn [with_xid with_pool xid pool]. rewrite lookup_insert_eq. exists (k :: l). split; try done.
      * cbn. split; [done|]. eexists. split; [by rewrite lookup_insert_eq|]. cbn. apply (xl_ext (pool r)); [|done]. intros z Hz. rewrite lookup_insert_ne; [done|by intros ->].
      * cbn [xid_cnt length]. rewrite H3, Z.mod_small; lia.
      * by apply NoDup_cons.
      * intros z. rewrite <- (same_strip_xkey _ _ z Hst), elem_of_cons, H5, elem_of_union, elem_of_singleton. naive_solver.
    + apply Hother; try done; [intros z Hz; by rewrite lookup_insert_ne|]. cbn. by rewrite lookup_insert_ne.
  - rewrite (proj2 (Z.leb_gt _ _)) by lia. exists (pool r), (<[x := mk_xid (Some k) 1]> (xid r)). split; [by destruct r|]. split; [done|]. intros y. destruct (decide (y = x)) as [->|Hy].
    + rewrite lookup_insert_eq. exists [k]. split; try done.
      * cbn. split; [done|]. by exists e.
      * apply NoDup_singleton.
      * intros z. rewrite list_elem_of_singleton, elem_of_union, elem_of_singleton. split; [intros ->; by split; [left|]|]. intros [[->|Hz] Ez]; [done|]. by destruct (Wx z Hz).
    + apply Hother; try done. by rewrite lookup_insert_ne.
Qed.

(** * The invariant of the reassembly

    The four maps tell which elements are connected to the root and which are
    leaves or roots of orphaned trees; an element is linked to its parent
    exactly when the parent is known. *)

(** The elements in one of the maps. *)
Definition live (r : fd_reasm_t) : gset Z := ancestry r ∪ frontier r ∪ orphaned r ∪ subtrees r.

(** Connected to the root [rt] without going through [ex]. *)
Inductive connx (P : fecs) (rt : Z) (ex : option Z) : Z -> Prop :=
  | connx_root : connx P rt ex rt
  | connx_step c p : par P c = Some p -> Some p <> ex -> connx P rt ex p -> connx P rt ex c.

Definition connected (P : fecs) (rt : Z) : Z -> Prop := connx P rt None.

(** What the shreds of a FEC set guarantee. *)
Definition data_ok (d : fec_data) : Prop := 0 <= slot d < 2 ^ 63 /\ 0 <= fec_set_idx d < 2 ^ 31 /\ 0 <= parent_off d < 2 ^ 16.

Definition dat (P : fecs) (k : Z) : option fec_data := data <$> P !! k.

(** While an element is inserted the descendants of [ex] are not yet moved to
    the connected tree. *)
Record state_ok (r : fd_reasm_t) (rt : Z) (ex : option Z) : Prop := mk_state_ok {
  so_links : links (pool r) (live r);
  so_root : root r = Some rt /\ rt ∈ live r /\ par (pool r) rt = None;
  so_complete : forall d, dat (pool r) rt = Some d -> slot_complete d = true;
  so_data : forall k d, k ∈ live r -> dat (pool r) k = Some d -> data_ok d;
  so_par : forall k d p dp, k ∈ live r -> par (pool r) k = Some p -> dat (pool r) k = Some d -> dat (pool r) p = Some dp -> p = cmr d /\ validate_chained_block_id dp d = true;
  so_miss : forall k d, k ∈ live r -> k <> rt -> par (pool r) k = None -> dat (pool r) k = Some d -> cmr d ∉ live r \/ Some (cmr d) = ex;
  so_anc : forall k, k ∈ ancestry r <-> k ∈ live r /\ connx (pool r) rt ex k /\ Some k <> ex /\ kids (pool r) k <> [];
  so_fro : forall k, k ∈ frontier r <-> k ∈ live r /\ connx (pool r) rt ex k /\ (Some k = ex \/ kids (pool r) k = []);
  so_orp : forall k, k ∈ orphaned r <-> k ∈ live r /\ ~ connx (pool r) rt ex k /\ par (pool r) k <> None;
  so_sub : forall k, k ∈ subtrees r <-> k ∈ live r /\ ~ connx (pool r) rt ex k /\ par (pool r) k = None;
  so_subl : NoDup (subtreel r) /\ forall k, k ∈ subtreel r <-> k ∈ subtrees r;
  so_out : NoDup (out r) /\ forall k, k ∈ out r -> k ∈ live r /\ connx (pool r) rt ex k;
  so_in_out : forall k e, k ∈ live r -> pool r !! k = Some e -> in_out e = true <-> k ∈ out r;
}.

(** Equivocating elements are marked, and so is what builds on an equivocating
    element that is not confirmed. *)
Record eqvoc_ok (P : fecs) (V : gset Z) : Prop := mk_eqvoc_ok {
  eo_same : forall j k e, j ∈ V -> k ∈ V -> j <> k -> xkey P j = xkey P k -> P !! j = Some e -> eqvoc e = true;
  eo_below : forall k p e ep, k ∈ V -> par P k = Some p -> P !! k = Some e -> P !! p = Some ep -> eqvoc ep = true -> confirmed ep = false -> eqvoc e = true;
}.

Record capacity_ok (r : fd_reasm_t) : Prop := mk_capacity_ok {
  cap_max : 1 <= fec_max r <= 2 ^ 31 - 1;
  cap_pool : Z.of_nat (size (pool r)) <= fec_max r;
}.

Record reasm_wf (r : fd_reasm_t) (rt : Z) : Prop := mk_reasm_wf {
  rw_state : state_ok r rt None;
  rw_xid : xid_wf (pool r) (live r) (xid r);
  rw_eqvoc : eqvoc_ok (pool r) (live r);
  rw_cap : capacity_ok r;
  rw_pool : dom (pool r) = live r;
}.

(** ** Chains *)

Lemma validate_rank p c : data_ok p -> data_ok c -> validate_chained_block_id p c = true -> rank p < rank c.
Proof.
  intros (Hp1 & Hp2 & _) (Hc1 & Hc2 & Hc3) H. unfold validate_chained_block_id in H. unfold rank. destruct (Z.eqb_spec (slot p) (slot c)) as [E|E].
  - unfold validate_intra, FD_FEC_SHRED_CNT in H. apply andb_prop in H as [H _]. apply andb_prop in H as [H _]. apply Z.eqb_eq in H. rewrite Z.mod_small in H by lia. lia.
  - unfold validate_inter in H. apply andb_prop in H as [H _]. apply andb_prop in H as [H _]. apply Z.eqb_eq in H. destruct (Z.le_gt_cases (parent_off c) (slot c)).
    + rewrite u64_small in H by (unfold is_u64, ULONG_MAX; lia). lia.
    + exfalso. replace (slot c - parent_off c) with (slot c - parent_off c + 2 ^ 64 - 2 ^ 64) in H by lia. unfold u64 in H. rewrite <- (Z_mod_plus_full _ 1) in H.
      change (1 * 2 ^ 64) with (2 ^ 64) in H. rewrite Z.sub_add, Z.mod_small in H by lia. lia.
Qed.

Lemma dat_lookup P k e : P !! k = Some e -> dat P k = Some (data e).
Proof. unfold dat. by intros ->. Qed.

(** ** Connectivity *)

Section conn.
Context (P : fecs) (V : gset Z) (rt : Z) (ex : option Z) (L : links P V).

Lemma connx_par k p : par P rt = None -> connx P rt ex k -> par P k = Some p -> Some p <> ex /\ connx P rt ex p.
Proof. intros Hr H Ep. destruct H as [|c q Eq Hq Hc]; [congruence|]. replace p with q by congruence. done. Qed.

Lemma connx_ext Q k : (forall c, c ∈ V -> par P c = par Q c) -> k ∈ V -> connx P rt ex k -> connx Q rt ex k.
Proof using L.
  intros H Hk Hc. induction Hc as [|c p Ep Hp _ IH]; [constructor|]. apply (connx_step _ _ _ c p); [by rewrite <- H|done|]. apply IH. by apply (lk_par _ _ L) in Ep as [? _].
Qed.

(** Above [ex] nothing goes through it. *)
Lemma connx_conn k : connx P rt ex k -> connected P rt k.
Proof. induction 1 as [|c p Ep _ _ IH]; [constructor|]. by apply (connx_step _ _ _ c p). Qed.

Lemma conn_connx k x : ex = Some x -> x ∈ V -> k ∈ V -> connected P rt k -> rk P k <= rk P x -> connx P rt ex k.
Proof using L.
  intros -> Hx Hk H. induction H as [|c p Ep _ _ IH]; intros Hr; [constructor|]. apply (lk_par _ _ L) in Ep as Hp; [|done]. destruct Hp as [Hp Hlt].
  apply (connx_step _ _ _ c p); [done| |apply IH; [done|lia]]. intros [= ->]. lia.
Qed.

(** Through [x] or not. *)
Lemma conn_split k x : ex = Some x -> x ∈ V -> k ∈ V -> connected P rt k -> connx P rt ex k \/ (connx P rt ex x /\ below P x k /\ k <> x).
Proof using L.
  intros Ex Hx Hk H. induction H as [|c p Ep _ Hc IH]; [left; constructor|]. apply (lk_par _ _ L) in Ep as Hp; [|done]. destruct Hp as [Hp Hlt].
  destruct (decide (p = x)) as [->|Hne].
  - right. split; [apply (conn_connx x x); done|]. split; [|intros ->; lia]. by apply (fec_below_child P V L x c x); try done; apply fec_below_refl.
  - destruct (IH Hp) as [H1|(H1 & H2 & H3)]; [left; apply (connx_step _ _ _ c p); [done|congruence|done]|]. right. split; [done|].
    split; [by apply (fec_below_child P V L x c p)|]. intros ->. destruct (below_rank P V L x p Hx H2); [done|lia].
Qed.

Lemma below_conn k x : k ∈ V -> connected P rt k -> below P k x -> connected P rt x.
Proof using L.
  intros Hk Hc H. induction H as [x Hx|p c Hp IH Hx]; [by apply list_elem_of_singleton in Hx as ->|]. apply (kids_iff P V L) in Hx as [_ Ep]; [|by apply (below_in P V L k)].
  by apply (connx_step _ _ _ c p).
Qed.

End conn.

(** ** Changes that keep the forest *)

Lemma state_ok_queue r P l rt ex : agree (live r) (pool r) P -> NoDup l -> (forall k, k ∈ l -> k ∈ live r /\ connx (pool r) rt ex k) ->
  (forall k e, k ∈ live r -> P !! k = Some e -> in_out e = true <-> k ∈ l) -> state_ok r rt ex -> state_ok (with_out l (with_pool P r)) rt ex.
Proof.
  intros Ha Hnl Hcl Hi S. pose proof (so_links _ _ _ S) as L. assert (L' : links P (live r)) by (by apply (links_agree _ (pool r))).
  assert (Hpar : forall k, k ∈ live r -> par (pool r) k = par P k) by (intros k Hk; by apply (agree_par (live r))).
  assert (Hdat : forall k, k ∈ live r -> dat (pool r) k = dat P k) by (intros k Hk; specialize (Ha k Hk); unfold dat; destruct (pool r !! k), (P !! k); cbn in *; try done; unfold shape in Ha; congruence).
  assert (Hkid : forall k, k ∈ live r -> kids (pool r) k = kids P k) by (intros k Hk; by apply (kids_agree (live r))).
  assert (Hcon : forall k, k ∈ live r -> connx (pool r) rt ex k <-> connx P rt ex k).
  { intros k Hk. split; [by apply (connx_ext _ (live r) _ _ L)|]. apply (connx_ext _ (live r) _ _ L'); [|done]. intros c Hc. by rewrite Hpar. }
  change (live (with_out l (with_pool P r))) with (live r) in *.
  destruct S as [S1 S2 S3 S4 S5 S6 S7 S8 S9 S10 S11 S12 S13]. destruct S2 as (R1 & R2 & R3). split; cbn [with_out with_pool pool ancestry frontier orphaned subtrees subtreel out root]; try done.
  - split_and!; try done. by rewrite <- Hpar.
  - intros d. rewrite <- Hdat by done. apply S3.
  - intros k d Hk. rewrite <- Hdat by done. by apply S4.
  - intros k d p dp Hk Ep. rewrite <- Hpar in Ep by done. destruct (lk_par _ _ L k p Hk Ep) as [Hp _]. rewrite <- !Hdat by done. by apply S5.
  - intros k d Hk Hne Ep. rewrite <- Hdat, <- Hpar in * by done. by apply S6.
  - intros k. rewrite S7. change (live (with_out l (with_pool P r))) with (live r). split; intros (Hk & H1 & H2 & H3); (split_and!; [done|by apply Hcon|done|]); [by rewrite <- Hkid|by rewrite Hkid].
  - intros k. rewrite S8. change (live (with_out l (with_pool P r))) with (live r). split; intros (Hk & H1 & H2); (split_and!; [done|by apply Hcon|]); [by rewrite <- Hkid|by rewrite Hkid].
  - intros k. rewrite S9. change (live (with_out l (with_pool P r))) with (live r). split; intros (Hk & H1 & H2); (split_and!; [done|intros Hc; by apply H1, Hcon|]); [by rewrite <- Hpar|by rewrite Hpar].
  - intros k. rewrite S10. change (live (with_out l (with_pool P r))) with (live r). split; intros (Hk & H1 & H2); (split_and!; [done|intros Hc; by apply H1, Hcon|]); [by rewrite <- Hpar|by rewrite Hpar].
  - split; [done|]. intros k Hk. destruct (Hcl k Hk) as [Hk1 Hk2]. split; [done|]. by apply Hcon.
Qed.

Lemma state_ok_pool r P rt ex : agree (live r) (pool r) P -> (forall k, k ∈ live r -> in_out <$> pool r !! k = in_out <$> P !! k) -> state_ok r rt ex -> state_ok (with_pool P r) rt ex.
Proof.
  intros Ha Hi S. replace (with_pool P r) with (with_out (out r) (with_pool P r)) by (by destruct r). apply state_ok_queue; try done; [apply (so_out _ _ _ S)..|].
  intros k e Hk E. specialize (Hi k Hk). rewrite E in Hi. destruct (pool r !! k) as [e'|] eqn:E'; [|done]. injection Hi as <-. by apply (so_in_out _ _ _ S).
Qed.

Lemma eqvoc_ok_ext P Q V : agree V P Q -> (forall k, k ∈ V -> (eqvoc <$> P !! k = eqvoc <$> Q !! k) /\ confirmed <$> P !! k = confirmed <$> Q !! k) -> links P V -> eqvoc_ok P V -> eqvoc_ok Q V.
Proof.
  intros Ha He L [H1 H2].
  assert (Hx : forall k, k ∈ V -> xkey P k = xkey Q k) by (intros k Hk; specialize (Ha k Hk); unfold xkey; destruct (P !! k), (Q !! k); cbn in *; try done; unfold shape in Ha; congruence).
  assert (Hl : forall k e, k ∈ V -> Q !! k = Some e -> exists e', P !! k = Some e' /\ eqvoc e' = eqvoc e /\ confirmed e' = confirmed e).
  { intros k e Hk E. destruct (He k Hk) as [G1 G2]. rewrite E in G1, G2. destruct (P !! k) as [e'|]; [|done]. exists e'. split; [done|]. split; cbn in *; congruence. }
  split.
  - intros j k e Hj Hk Hne Ex E. destruct (Hl j e Hj E) as (e' & E' & <- & _). apply (H1 j k); try done. by rewrite !Hx.
  - intros k p e ep Hk Ep E E2 Hq Hc. rewrite <- (agree_par V P) in Ep by done. destruct (lk_par _ _ L k p Hk Ep) as [Hp _]. destruct (Hl k e Hk E) as (e' & E' & <- & _).
    destruct (Hl p ep Hp E2) as (ep' & Ep' & Hq' & Hc'). apply (H2 k p e' ep'); try done; congruence.
Qed.
