(* ===== verification/ReasmMark.v ===== *)
(** * Marking equivocations, confirming and delivering

    The operations that only change flags and the delivery queue. *)

From S2P Require Import Prelude Bits Reasm ReasmTree ReasmInv.

#[local] Open Scope Z_scope.

(** ** Equivocations *)

(** [P] with the elements of [M] marked. *)
Definition marked (M : list Z) (P Q : fecs) : Prop := forall x, Q !! x = (if decide (x ∈ M) then set_eqvoc true else id) <$> P !! x.

Lemma marked_agree M V P Q : marked M P Q -> agree V P Q.
Proof. intros H x _. rewrite H. destruct (decide (x ∈ M)), (P !! x); done. Qed.

Lemma marked_in_out M P Q x : marked M P Q -> in_out <$> P !! x = in_out <$> Q !! x.
Proof. intros H. rewrite H. destruct (decide (x ∈ M)), (P !! x); done. Qed.

Lemma marked_size M P Q : marked M P Q -> size P = size Q.
Proof.
  intros H. rewrite <- !(size_dom (D := gset Z)). f_equal. apply set_eq. intros x. rewrite !elem_of_dom, H. destruct (P !! x); cbn; [|done]. split; intros; by eauto.
Qed.

(** Marking reaches everything below [k] that was not marked already. *)
Lemma mark_eqvoc_ok r V k : links (pool r) V -> k ∈ V -> Z.of_nat (size (pool r)) <= fec_max r ->
  exists M P, mark_eqvoc k r = Ok (with_pool P r) /\ marked M (pool r) P /\ k ∈ M /\ (forall x, x ∈ M -> x ∈ V) /\
    forall p e c, p ∈ M -> pool r !! p = Some e -> eqvoc e = false -> c ∈ kids (pool r) p -> c ∈ M.
Proof.
  intros L Hk Hsz. set (next x := match pool r !! x with Some e => if eqvoc e then [] else kids (pool r) x | None => [] end).
  assert (Hn : forall p c, c ∈ next p -> c ∈ kids (pool r) p) by (intros p c; unfold next; destruct (pool r !! p) as [e|]; [destruct (eqvoc e)|]; set_solver).
  assert (F : forest V next [k]).
  { apply (below_forest (pool r) V L); [done|by intros p c _; apply Hn|]. intros p Hp. unfold next. destruct (pool r !! p) as [e|]; [|constructor]. destruct (eqvoc e); [constructor|].
    by apply (kids_nodup _ V L). }
  assert (HV : (size V <= size (pool r))%nat).
  { rewrite <- (size_dom (D := gset Z) (pool r)). apply subseteq_size. intros x Hx. by apply elem_of_dom, (lk_in _ _ L). }
  destruct (bfs_ok eqvoc_step V next [k] (fun vis r' => exists P, r' = with_pool P r /\ marked vis (pool r) P) r F) as (M & r' & E & (P & -> & Hm) & Hnd & Hv & Hr).
  - lia.
  - done.
  - exists (pool r). split; [by destruct r|]. intros x. destruct (pool r !! x); done.
  - intros vis r' x q (P & -> & Hm) Hnd Hrv Hrx Hx Hq. pose proof (fo_in _ _ _ F x Hrx) as HxV. destruct (lk_in _ _ L x HxV) as [e Ee].
    assert (Ep : P !! x = Some e) by (rewrite Hm, decide_False, Ee by done; done). unfold eqvoc_step. cbn [pool with_pool]. rewrite (get_ok _ _ _ Ep). cbn [mbind res_bind].
    assert (Hmk : forall Q, (forall y, Q !! y = if decide (y = x) then Some (set_eqvoc true e) else P !! y) -> marked (vis ++ [x]) (pool r) Q).
    { intros Q HQ y. rewrite HQ. destruct (decide (y = x)) as [->|Hy]; [rewrite decide_True, Ee by (apply elem_of_app; right; by left); done|]. rewrite Hm.
      destruct (decide (y ∈ vis)); [rewrite decide_True by (apply elem_of_app; by left); done|]. rewrite decide_False; [done|]. rewrite elem_of_app, list_elem_of_singleton. by intros [?|?]. }
    unfold next. rewrite Ee. destruct (eqvoc e) eqn:Eq.
    + eexists. split; [done|]. exists P. split; [done|]. apply Hmk. intros y. destruct (decide (y = x)) as [->|Hy]; [|done]. rewrite Ep. f_equal. destruct e. cbn in *. by subst.
    + unfold update. cbn [pool with_pool]. rewrite (upd_ok _ _ _ _ Ep). cbn [mbind res_bind pool with_pool]. set (Q := <[x := set_eqvoc true e]> P).
      assert (Hmq : marked (vis ++ [x]) (pool r) Q) by (apply Hmk; intros y; unfold Q; destruct (decide (y = x)) as [->|Hy]; [by rewrite lookup_insert_eq|by rewrite lookup_insert_ne]).
      pose proof (marked_agree _ V _ _ Hmq) as Hag. pose proof (links_agree _ _ _ Hag L) as LQ. destruct (children_kids Q V LQ x HxV) as (-> & _). cbn [mbind res_bind].
      rewrite <- (kids_agree V (pool r) Q) by done. eexists. split; [done|]. exists Q. by split.
  - exists M, P. split; [exact E|]. split; [done|]. split; [apply Hr, reach_start; by left|]. split; [intros x Hx; by apply (fo_in _ _ _ F), Hr|].
    intros p e c Hp Ee Eq Hc. apply Hr in Hp. apply Hr, (reach_next _ _ p); [done|]. unfold next. by rewrite Ee, Eq.
Qed.

Lemma mark_state r P M rt ex : marked M (pool r) P -> state_ok r rt ex -> state_ok (with_pool P r) rt ex.
Proof. intros H. apply state_ok_pool; [by apply (marked_agree M)|]. intros k _. by apply (marked_in_out M). Qed.

Lemma mark_xid M P Q V X : marked M P Q -> xid_wf P V X -> xid_wf Q V X.
Proof. intros H. apply xid_wf_ext. intros k _. rewrite H. destruct (decide (k ∈ M)), (P !! k); done. Qed.

(** What is below an equivocating element stays marked. *)
Definition below_marked (P : fecs) (V : gset Z) (except : Z -> Prop) : Prop := forall k p e ep, k ∈ V -> ~ except k -> par P k = Some p -> P !! k = Some e -> P !! p = Some ep ->
  eqvoc ep = true -> confirmed ep = false -> eqvoc e = true.

Lemma mark_below M P Q V exc : marked M P Q -> links P V -> (forall p e c, p ∈ M -> P !! p = Some e -> eqvoc e = false -> c ∈ kids P p -> c ∈ M) ->
  below_marked P V exc -> below_marked Q V (fun k => exc k /\ k ∉ M).
Proof.
  intros Hm L Hc HB k p e ep Hk Hex Ep E E2 Hq Hcf. rewrite (agree_par V Q P) in Ep by (done || (intros y Hy; symmetry; by apply (marked_agree M V))).
  rewrite Hm in E. destruct (P !! k) as [e0|] eqn:E0; [|done]. cbn in E. injection E as <-. destruct (decide (k ∈ M)) as [HkM|HkM]; [done|]. cbn.
  rewrite Hm in E2. destruct (P !! p) as [ep0|] eqn:Ep0; [|done]. cbn in E2. injection E2 as <-. destruct (lk_par _ _ L k p Hk Ep) as [Hp _].
  assert (Hexk : ~ exc k) by (intros ?; by apply Hex).
  destruct (decide (p ∈ M)) as [HpM|HpM]; [|by apply (HB k p e0 ep0)]. destruct (eqvoc ep0) eqn:Eq0; [by apply (HB k p e0 ep0)|]. exfalso. apply HkM, (Hc p ep0); try done.
  by apply (kids_iff P V L).
Qed.

(** ** Delivery *)

Lemma deliverable_eq e : deliverable e = true <-> popped e = false /\ (eqvoc e = false \/ confirmed e = true).
Proof. unfold deliverable. destruct (popped e), (eqvoc e), (confirmed e); naive_solver. Qed.

(** The elements of [l] are off the queue, [o] is delivered. *)
Definition taken (l : list Z) (o : option Z) (P Q : fecs) : Prop := forall x,
  Q !! x = (fun e => (if decide (Some x = o) then set_popped true else id) ((if decide (x ∈ l) then set_in_out false else id) e)) <$> P !! x.

(** The queue up to the element that is delivered. *)
Inductive pops (P : fecs) : list Z -> option Z -> list Z -> list Z -> Prop :=
  | pops_none l : Forall (fun k => exists e, P !! k = Some e /\ deliverable e = false) l -> pops P l None l []
  | pops_some l1 k e l2 : Forall (fun k => exists e, P !! k = Some e /\ deliverable e = false) l1 -> P !! k = Some e -> deliverable e = true -> pops P (l1 ++ k :: l2) (Some k) (l1 ++ [k]) l2.

Lemma pops_list P l o t l2 : pops P l o t l2 -> l = t ++ l2.
Proof. intros H. inversion H; subst; [by rewrite app_nil_r|]. by rewrite <- app_assoc. Qed.

Lemma pop_from_ok r P l : NoDup l -> (forall k, k ∈ l -> is_Some (P !! k)) ->
  exists o t l2 Q, pop_from (with_pool P r) l = Ok (o, with_out l2 (with_pool Q r)) /\ pops P l o t l2 /\ taken t o P Q.
Proof.
  intros Hn. revert P. induction Hn as [|k l Hk Hn IH]; intros P Hin.
  - exists None, [], [], P. split; [done|]. split; [constructor; constructor|]. intros x. destruct (P !! x); [|done]. cbn. destruct (decide (x ∈ [])) as [Hx|]; [by apply not_elem_of_nil in Hx|done].
  - destruct (Hin k ltac:(by left)) as [e E]. cbn [pop_from pool with_pool]. rewrite (get_ok _ _ _ E). cbn [mbind res_bind]. unfold update. cbn [pool with_pool]. rewrite (upd_ok _ _ _ _ E). cbn [mbind res_bind].
    set (P1 := <[k := set_in_out false e]> P). assert (E1 : P1 !! k = Some (set_in_out false e)) by (unfold P1; by rewrite lookup_insert_eq). destruct (deliverable e) eqn:Ed.
    + cbn [pool with_pool]. rewrite (upd_ok _ _ _ _ E1). cbn [mbind res_bind]. eexists (Some k), [k], l, _. split; [done|]. split; [by apply (pops_some P [] k e l)|].
      intros x. unfold P1. destruct (decide (x = k)) as [->|Hx]; [rewrite lookup_insert_eq, E; cbn|rewrite !lookup_insert_ne by done; destruct (P !! x); [cbn|done]];
        destruct (decide (Some _ = Some k)); try congruence; destruct (decide (_ ∈ [k])) as [Hi|Hi]; try done; rewrite list_elem_of_singleton in Hi; done.
    + change (with_pool P1 (with_pool P r)) with (with_pool P1 r). destruct (IH P1) as (o & t & l2 & Q & Er & Hp & Ht).
      { intros x Hx. unfold P1. rewrite lookup_insert_ne by (by intros ->). apply Hin. by right. }
      exists o, (k :: t), l2, Q. split; [done|].
      assert (Ht' : k ∉ t /\ o <> Some k).
      { split; [intros Hkt; apply Hk; rewrite (pops_list _ _ _ _ _ Hp); apply elem_of_app; by left|]. inversion Hp; subst; [done|]. intros [= ->]. apply Hk, elem_of_app. right. by left. }
      destruct Ht' as [Hkt Hko].
      assert (Hext : forall y, y <> k -> P1 !! y = P !! y) by (intros y Hy; unfold P1; by rewrite lookup_insert_ne).
      assert (Hnd : forall l', k ∉ l' -> Forall (fun k => exists e, P1 !! k = Some e /\ deliverable e = false) l' -> Forall (fun k => exists e, P !! k = Some e /\ deliverable e = false) (k :: l')).
      { intros l' Hl Hf. constructor; [by exists e|]. rewrite Forall_forall in *. intros y Hy. destruct (Hf y Hy) as (ey & Ey & Hy'). rewrite Hext in Ey by (by intros ->). by exists ey. }
      split.
      * inversion Hp as [l' Hf|l1 y ey l2' Hf Ey Hdy]; subst; [constructor; by apply Hnd|]. rewrite Hext in Ey by set_solver. apply (pops_some P (k :: l1) y ey); try done. apply Hnd; [set_solver|done].
      * intros x. rewrite (Ht x). destruct (decide (x = k)) as [->|Hx].
        -- rewrite E1, E. cbn. destruct (decide (Some k = o)); [congruence|]. destruct (decide (k ∈ t)); [done|]. destruct (decide (k ∈ k :: t)) as [|Hn']; [done|]. exfalso. apply Hn'. by left.
        -- rewrite Hext by done. destruct (P !! x); [cbn|done]. destruct (decide (x ∈ t)), (decide (x ∈ k :: t)) as [Hi|Hi]; try done; [exfalso; apply Hi; by right|]. by apply elem_of_cons in Hi as [?|?].
Qed.

Lemma taken_agree l o V P Q : taken l o P Q -> agree V P Q.
Proof. intros H x _. rewrite H. destruct (P !! x); cbn; [|done]. by destruct (decide (Some x = o)), (decide (x ∈ l)). Qed.

Lemma taken_flags l o P Q x : taken l o P Q -> (eqvoc <$> P !! x = eqvoc <$> Q !! x) /\ (confirmed <$> P !! x = confirmed <$> Q !! x) /\ (data <$> P !! x = data <$> Q !! x) /\ (xid_next <$> P !! x = xid_next <$> Q !! x).
Proof. intros H. rewrite H. destruct (P !! x); cbn; [|done]. by destruct (decide (Some x = o)), (decide (x ∈ l)). Qed.

Lemma taken_dom l o P Q : taken l o P Q -> dom Q = dom P.
Proof. intros H. apply set_eq. intros x. rewrite !elem_of_dom, H. destruct (P !! x); cbn; [|done]. split; intros; by eauto. Qed.

(** Changes that keep everything but the links alone keep the invariant. *)
Lemma wf_flags r rt P l : reasm_wf r rt -> state_ok (with_out l (with_pool P r)) rt None -> agree (live r) (pool r) P ->
  (forall x, (eqvoc <$> pool r !! x = eqvoc <$> P !! x) /\ (confirmed <$> pool r !! x = confirmed <$> P !! x) /\ (data <$> pool r !! x = data <$> P !! x) /\ (xid_next <$> pool r !! x = xid_next <$> P !! x)) ->
  reasm_wf (with_out l (with_pool P r)) rt.
Proof.
  intros [W1 W2 W3 W4 W5] S Ha Hf. pose proof (so_links _ _ _ W1) as L.
  assert (Hd : dom P = dom (pool r)).
  { apply set_eq. intros x. rewrite !elem_of_dom. destruct (Hf x) as (_ & _ & H & _). destruct (pool r !! x), (P !! x); cbn in H; try done; split; intros; by eauto. }
  split; [done| | | |]; cbn [with_out with_pool pool xid live ancestry frontier orphaned subtrees]; change (live (with_out l (with_pool P r))) with (live r).
  - apply (xid_wf_ext (pool r)); [|done]. intros k _. split; apply Hf.
  - apply (eqvoc_ok_ext (pool r)); try done. intros k _. split; apply Hf.
  - destruct W4. split; [done|]. cbn. rewrite <- (size_dom (D := gset Z) P), Hd, size_dom. done.
  - by rewrite Hd.
Qed.

Lemma pop_ok r rt : reasm_wf r rt -> exists o t l2 Q, fd_reasm_pop r = Ok (o, with_out l2 (with_pool Q r)) /\ pops (pool r) (out r) o t l2 /\ taken t o (pool r) Q /\
  reasm_wf (with_out l2 (with_pool Q r)) rt.
Proof.
  intros W. pose proof (rw_state _ _ W) as S. destruct (so_out _ _ _ S) as [Hn Ho]. destruct (pop_from_ok r (pool r) (out r) Hn) as (o & t & l2 & Q & E & Hp & Ht).
  { intros k Hk. apply (lk_in _ _ (so_links _ _ _ S)). by apply Ho. }
  exists o, t, l2, Q. split; [unfold fd_reasm_pop; rewrite <- E; by destruct r|]. split; [done|]. split; [done|]. pose proof (pops_list _ _ _ _ _ Hp) as El. rewrite El in Hn, Ho.
  apply NoDup_app in Hn as (N1 & N2 & N3). apply wf_flags; try done; [|by apply (taken_agree t o)|intros x; by apply (taken_flags t o)].
  apply state_ok_queue; try done; [by apply (taken_agree t o)|intros k Hk; apply Ho, elem_of_app; by right|]. intros k e Hk Ek. rewrite Ht in Ek. destruct (pool r !! k) as [e0|] eqn:E0; [|done].
  cbn in Ek. injection Ek as <-. pose proof (so_in_out _ _ _ S k e0 Hk E0) as Hio. rewrite El, elem_of_app in Hio.
  destruct (decide (Some k = o)), (decide (k ∈ t)) as [Hkt|Hkt]; cbn; (split; [|intros Hk2; try (exfalso; by apply (N2 k Hkt)); apply Hio; by right]); try done; intros Hin; by apply Hio in Hin as [?|?].
Qed.

(** ** Confirmation *)

Definition confirms (C : list Z) (P Q : fecs) : Prop := forall x, Q !! x = (if decide (x ∈ C) then set_confirmed true else id) <$> P !! x.

(** The elements from [k] up to the first one that was confirmed. *)
Record confirm_path (P : fecs) (V : gset Z) (k : Z) (C : list Z) : Prop := mk_confirm_path {
  cp_start : forall e, P !! k = Some e -> k ∈ C \/ confirmed e = true;
  cp_in : forall x, x ∈ C -> x ∈ V /\ below P x k;
  cp_new : forall x e, x ∈ C -> P !! x = Some e -> confirmed e = false;
  cp_up : forall x p ep, x ∈ C -> par P x = Some p -> P !! p = Some ep -> p ∈ C \/ confirmed ep = true;
}.

Lemma confirms_agree C V P Q : confirms C P Q -> agree V P Q.
Proof. intros H x _. rewrite H. destruct (decide (x ∈ C)), (P !! x); done. Qed.

Lemma fec_below_trans P a b c : below P a b -> below P b c -> below P a c.
Proof. intros H1 H2. induction H2 as [x Hx|p x Hp IH Hx]; [by apply list_elem_of_singleton in Hx as ->|]. by apply (below_step P a p). Qed.

Lemma below_agree V P Q x k : agree V P Q -> links P V -> x ∈ V -> below Q x k -> below P x k.
Proof.
  intros Ha L Hx H. pose proof (links_agree _ _ _ Ha L) as LQ. induction H as [y Hy|q y Hq IH Hy]; [by apply reach_start|]. apply (below_step P x q); [done|].
  rewrite (kids_agree V P Q); try done. by apply (below_in Q _ LQ x).
Qed.

Lemma confirm_from_ok P V n k vis : links P V -> k ∈ V -> NoDup vis -> (forall y, y ∈ vis -> y ∈ V /\ rk P k < rk P y) -> (size V <= n + length vis)%nat ->
  exists C Q, confirm_from n (Some k) P = Ok Q /\ confirms C P Q /\ confirm_path P V k C.
Proof.
  revert P k vis. induction n as [|n IH]; intros P k vis L Hk Hnd Hv Hn.
  - exfalso. assert (Hkv : k ∉ vis) by (intros Hkv; destruct (Hv k Hkv); lia).
    assert (Hl : (length (k :: vis) <= size V)%nat).
    { rewrite <- (size_list_to_set (C := gset Z) (k :: vis)) by (by apply NoDup_cons). apply subseteq_size. intros y Hy. apply elem_of_list_to_set, elem_of_cons in Hy as [->|Hy]; [done|by apply Hv]. }
    simpl in Hl. lia.
  - destruct (lk_in _ _ L k Hk) as [e E]. cbn [confirm_from]. rewrite (get_ok _ _ _ E). cbn [mbind res_bind]. destruct (confirmed e) eqn:Ec.
    + exists [], P. split; [done|]. split; [intros x; by destruct (P !! x)|]. split; try by intros x ? ?%not_elem_of_nil. { intros e' E'. right. congruence. } { by intros x ?%not_elem_of_nil. }
      intros x p ep Hx. by apply not_elem_of_nil in Hx.
    + set (P1 := <[k := set_confirmed true e]> P). assert (Hc1 : confirms [k] P P1).
      { intros x. unfold P1. destruct (decide (x ∈ [k])) as [->%list_elem_of_singleton|Hx]; [by rewrite lookup_insert_eq, E|]. rewrite lookup_insert_ne by (intros ->; apply Hx; by left). by destruct (P !! x). }
      pose proof (confirms_agree _ V _ _ Hc1) as Ha. pose proof (links_agree _ _ _ Ha L) as L1. destruct (parent e) as [p|] eqn:Ep.
      * assert (Epp : par P k = Some p) by (by rewrite (par_lookup _ _ _ E)). destruct (lk_par _ _ L k p Hk Epp) as [Hp Hr].
        assert (Hkv : k ∉ vis) by (intros Hkv; destruct (Hv k Hkv); lia).
        destruct (IH P1 p (k :: vis) L1 Hp) as (C & Q & Eq & Hc & [C1 C2 C3 C4]).
        { by apply NoDup_cons. } { intros y [->|Hy]%elem_of_cons; rewrite <- !(agree_rk V P P1) by (done || by apply Hv); [done|]. destruct (Hv y Hy). split; [done|lia]. } { simpl. lia. }
        assert (HkC : k ∉ C).
        { intros HkC. destruct (C2 k HkC) as [_ Hb]. destruct (below_rank P1 V L1 k p Hk Hb) as [->|Hlt]; [lia|]. rewrite <- !(agree_rk V P P1) in Hlt by done. lia. }
        assert (Hbel : forall x y, x ∈ V -> below P1 x y -> below P x y).
        { intros x y Hx Hb. induction Hb as [y Hy|q y Hq IHb Hy]; [by apply reach_start|]. apply (below_step P x q); [done|]. rewrite (kids_agree V P P1); try done. by apply (below_in P1 V L1 x). }
        exists (k :: C), Q. split; [done|]. split.
        -- intros x. rewrite Hc, Hc1. destruct (P !! x); [cbn|done]. destruct (decide (x ∈ [k])) as [->%list_elem_of_singleton|Hx].
           ++ rewrite (decide_False (P := k ∈ C)), decide_True by (done || by left). done.
           ++ destruct (decide (x ∈ C)); [rewrite decide_True by (by right); done|]. rewrite (decide_False (P := x ∈ k :: C)); [done|]. rewrite elem_of_cons. intros [->|?]; [apply Hx; by left|done].
        -- split.
           ++ intros e' _. left. by left.
           ++ intros x [->|Hx]%elem_of_cons; [split; [done|apply fec_below_refl]|]. destruct (C2 x Hx) as [Hxv Hb]. split; [done|]. apply (fec_below_trans P x p); [by apply Hbel|].
              by apply (fec_below_child P V L p k p); try done; apply fec_below_refl.
           ++ intros x ex [->|Hx]%elem_of_cons Ex; [congruence|]. assert (Hxk : x <> k) by (by intros ->). apply (C3 x ex Hx). unfold P1. by rewrite lookup_insert_ne.
           ++ intros x q eq' [->|Hx]%elem_of_cons Eq' Eqq.
              ** assert (q = p) as -> by congruence. destruct (C1 eq') as [?|?]; [unfold P1; rewrite lookup_insert_ne by (intros ->; lia); done|left; by right|by right].
              ** assert (Hxv : x ∈ V) by (by apply C2). rewrite (agree_par V P P1) in Eq' by done. destruct (decide (q = k)) as [->|Hqk]; [left; by left|].
                 destruct (C4 x q eq' Hx Eq') as [?|?]; [unfold P1; by rewrite lookup_insert_ne|left; by right|by right].
      * destruct n as [|n']; cbn [confirm_from]; exists [k], P1; (split; [done|]; split; [done|]; split;
          [intros e' _; left; by left|intros x ->%list_elem_of_singleton; split; [done|apply fec_below_refl]|intros x ex ->%list_elem_of_singleton Ex; congruence|
           intros x q eq' ->%list_elem_of_singleton Eq'; rewrite (par_lookup _ _ _ E) in Eq'; congruence]).
Qed.

(** Confirming what is not in the connected tree changes nothing; otherwise the
    path to the root is confirmed, and an element that was held back is queued
    again. *)
Lemma confirm_ok r rt k : reasm_wf r rt ->
  (k ∉ ancestry r ∪ frontier r /\ fd_reasm_confirm r k = Ok r) \/
  exists e C Q, k ∈ ancestry r ∪ frontier r /\ pool r !! k = Some e /\ confirm_path (pool r) (live r) k C /\
    let push := negb (popped e) && negb (in_out e) && negb (confirmed e) in
    let l := if push then out r ++ [k] else out r in
    fd_reasm_confirm r k = Ok (with_out l (with_pool Q r)) /\ reasm_wf (with_out l (with_pool Q r)) rt /\
    forall x, Q !! x = (fun e => (if decide (x ∈ C) then set_confirmed true else id) ((if push && bool_decide (x = k) then set_in_out true else id) e)) <$> pool r !! x.
Proof.
  intros W. pose proof (rw_state _ _ W) as St. pose proof (so_links _ _ _ St) as L. unfold fd_reasm_confirm.
  destruct (decide (k ∈ ancestry r ∪ frontier r)) as [Hin|Hin]; [right|left; split; [done|]; rewrite !bool_decide_eq_false_2 by set_solver; done].
  assert (bool_decide (k ∈ ancestry r) || bool_decide (k ∈ frontier r) = true) as ->.
  { apply orb_true_iff. apply elem_of_union in Hin as [?|?]; [left|right]; by rewrite bool_decide_eq_true. }
  assert (Hk : k ∈ live r /\ connx (pool r) rt None k) by (apply elem_of_union in Hin as [Hi|Hi]; [apply (so_anc _ _ _ St) in Hi|apply (so_fro _ _ _ St) in Hi]; naive_solver).
  destruct Hk as [Hk Hc]. destruct (lk_in _ _ L k Hk) as [e E]. rewrite (get_ok _ _ _ E). cbn [mbind res_bind]. set (push := negb (popped e) && negb (in_out e) && negb (confirmed e)).
  set (P1 := if push then <[k := set_in_out true e]> (pool r) else pool r). set (l := if push then out r ++ [k] else out r). destruct (so_out _ _ _ St) as [Hno Ho].
  assert (Hko : push = true -> k ∉ out r).
  { unfold push. intros Hp Hi. apply (so_in_out _ _ _ St k e Hk E) in Hi. rewrite Hi in Hp. by destruct (popped e). }
  assert (E1 : (if push then out_push k r else Ok r) = Ok (with_out l (with_pool P1 r))).
  { unfold l, P1. destruct push eqn:Ep; [|by destruct r]. unfold out_push, push_tail. rewrite decide_False by (by apply Hko). cbn [mbind res_bind]. unfold update. cbn [pool with_out]. rewrite (upd_ok _ _ _ _ E). done. }
  rewrite E1. cbn [mbind res_bind pool with_out with_pool].
  assert (Ha1 : agree (live r) (pool r) P1) by (intros x _; unfold P1; destruct push; [|done]; destruct (decide (x = k)) as [->|Hx]; [by rewrite lookup_insert_eq, E|by rewrite lookup_insert_ne]).
  assert (L1 : links P1 (live r)) by (by apply (links_agree _ (pool r))).
  assert (Hcf : forall x, confirmed <$> P1 !! x = confirmed <$> pool r !! x) by (intros x; unfold P1; destruct push; [|done]; destruct (decide (x = k)) as [->|Hx]; [by rewrite lookup_insert_eq, E|by rewrite lookup_insert_ne]).
  assert (Hlk : forall x ex, pool r !! x = Some ex -> exists ex1, P1 !! x = Some ex1 /\ confirmed ex1 = confirmed ex).
  { intros x ex Ex. specialize (Hcf x). rewrite Ex in Hcf. destruct (P1 !! x) as [ex1|]; [|done]. exists ex1. split; [done|]. cbn in Hcf. congruence. }
  assert (Hsz : (size (live r) <= size P1)%nat) by (rewrite <- (size_dom (D := gset Z) P1); apply subseteq_size; intros x Hx; by apply elem_of_dom, (lk_in _ _ L1)).
  destruct (confirm_from_ok P1 (live r) (S (size P1)) k [] L1 Hk) as (C & Q & Eq & HC & HP); [constructor|by intros y ?%not_elem_of_nil|simpl; lia|].
  rewrite Eq. cbn [mbind res_bind]. exists e, C, Q. split; [done|]. split; [done|].
  assert (HQ : forall x, Q !! x = (fun e => (if decide (x ∈ C) then set_confirmed true else id) ((if push && bool_decide (x = k) then set_in_out true else id) e)) <$> pool r !! x).
  { intros x. rewrite HC. unfold P1. destruct push; cbn [andb]; [|by destruct (pool r !! x)]. destruct (decide (x = k)) as [->|Hx]; [rewrite lookup_insert_eq, E; cbn; by destruct (bool_decide_reflect (k = k))|].
    rewrite lookup_insert_ne by done. destruct (pool r !! x); [cbn|done]. by destruct (bool_decide_reflect (x = k)). }
  split.
  { destruct HP as [C1 C2 C3 C4]. split.
    - intros e' E'. destruct (Hlk k e' E') as (e1 & Ee1 & <-). by apply C1.
    - intros x Hx. destruct (C2 x Hx) as [Hxv Hb]. split; [done|]. by apply (below_agree (live r) (pool r) P1).
    - intros x ex Hx Ex. destruct (Hlk x ex Ex) as (e1 & Ee1 & <-). by apply (C3 x).
    - intros x p ep Hx Ep' Epp. destruct (Hlk p ep Epp) as (e1 & Ee1 & <-). apply (C4 x p e1 Hx); [|done]. rewrite <- (agree_par (live r) (pool r)); try done. by apply C2. }
  split; [done|]. split; [|done].
  assert (Ha : agree (live r) (pool r) Q) by (apply (agree_trans _ _ P1); [done|by apply (confirms_agree C)]).
  assert (HdQ : dom Q = dom (pool r)).
  { apply set_eq. intros x. rewrite !elem_of_dom, HQ. destruct (pool r !! x); cbn; [|done]. split; intros; by eauto. }
  destruct W as [_ W2 W3 W4 W5]. split.
  - apply state_ok_queue; try done.
    + unfold l. fold push. destruct push; [|done]. apply NoDup_app. split_and!; [done| |apply NoDup_singleton]. intros x Hx ->%list_elem_of_singleton. by apply Hko.
    + intros x Hx. unfold l in Hx. fold push in Hx. destruct push; [|by apply Ho]. apply elem_of_app in Hx as [Hx|Hx]; [by apply Ho|]. apply list_elem_of_singleton in Hx as ->. done.
    + intros x ex Hx Ex. rewrite HQ in Ex. destruct (pool r !! x) as [e0|] eqn:E0; [|done]. cbn in Ex. injection Ex as <-. pose proof (so_in_out _ _ _ St x e0 Hx E0) as Hio.
      unfold l. fold push. destruct push; cbn [andb].
      * rewrite elem_of_app, list_elem_of_singleton. destruct (bool_decide_reflect (x = k)) as [->|Hxk]; destruct (decide (_ ∈ C)); cbn; naive_solver.
      * destruct (decide (x ∈ C)); cbn; naive_solver.
  - cbn. change (live (with_out l (with_pool Q r))) with (live r). apply (xid_wf_ext (pool r)); [|done]. intros x _. rewrite HQ. destruct (pool r !! x); [cbn|done]. destruct (decide (x ∈ C)), (push && _); done.
  - cbn. change (live (with_out l (with_pool Q r))) with (live r). destruct W3 as [G1 G2].
    assert (Hlq : forall x ex, Q !! x = Some ex -> exists e0, pool r !! x = Some e0 /\ eqvoc ex = eqvoc e0 /\ key_of (data ex) = key_of (data e0) /\ (confirmed ex = false -> confirmed e0 = false)).
    { intros x ex Ex. rewrite HQ in Ex. destruct (pool r !! x) as [e0|]; [|done]. cbn in Ex. injection Ex as <-. exists e0. destruct (decide (x ∈ C)), (push && _); done. }
    assert (Hxk : forall x, xkey Q x = xkey (pool r) x) by (intros x; unfold xkey; rewrite HQ; destruct (pool r !! x); [cbn|done]; destruct (decide (x ∈ C)), (push && _); done).
    split.
    + intros i j ei Hi Hj Hne Ex Ei. destruct (Hlq i ei Ei) as (e0 & E0 & -> & _). apply (G1 i j); try done. by rewrite <- !Hxk.
    + intros x p ex ep Hx Ep' Ex Epq Hq Hcfd. destruct (Hlq x ex Ex) as (e0 & E0 & -> & _). destruct (Hlq p ep Epq) as (ep0 & Ep0 & Hq0 & _ & Hc0).
      rewrite <- (agree_par (live r) (pool r)) in Ep' by done. apply (G2 x p e0 ep0); try done; [congruence|by apply Hc0].
  - destruct W4. split; [done|]. cbn. rewrite <- (size_dom (D := gset Z) Q), HdQ, size_dom. done.
  - cbn. change (live (with_out l (with_pool Q r))) with (live r). by rewrite HdQ.
Qed.

(** * Keeping a part of the forest

    Rejecting orphans, evicting and publishing a root all keep some of the
    elements with what is known about them. *)

(** The elements of [W] as they are in [P]. *)
Record keeps (P Q : fecs) (W : gset Z) : Prop := mk_keeps {
  kp_in : forall x, x ∈ W -> is_Some (P !! x);
  kp_rest : forall x, x ∈ W -> (data <$> P !! x = data <$> Q !! x) /\ (in_out <$> P !! x = in_out <$> Q !! x) /\ (eqvoc <$> P !! x = eqvoc <$> Q !! x) /\ (confirmed <$> P !! x = confirmed <$> Q !! x) /\ (popped <$> P !! x = popped <$> Q !! x);
}.

Lemma keeps_dat P Q W x : keeps P Q W -> x ∈ W -> dat P x = dat Q x.
Proof. intros K Hx. by destruct (kp_rest _ _ _ K x Hx). Qed.

Lemma keeps_lookup P Q W x e : keeps P Q W -> x ∈ W -> Q !! x = Some e ->
  exists e', P !! x = Some e' /\ data e' = data e /\ in_out e' = in_out e /\ eqvoc e' = eqvoc e /\ confirmed e' = confirmed e /\ popped e' = popped e.
Proof.
  intros K Hx E. destruct (kp_in _ _ _ K x Hx) as [e' E']. pose proof (kp_rest _ _ _ K x Hx) as H. rewrite E, E' in H. cbn in H. destruct H as (H1 & H2 & H3 & H4 & H5).
  exists e'. split_and!; congruence.
Qed.

Lemma same_rest_keeps P Q V W : links P V -> W ⊆ V -> same_rest P Q -> keeps P Q W.
Proof.
  intros L HW H. split; [intros x Hx; apply (lk_in _ _ L); set_solver|]. intros x _. specialize (H x). destruct (P !! x), (Q !! x); cbn in *; try done. unfold rest in H. split_and!; congruence.
Qed.

Lemma strip_keeps P Q V W : links P V -> W ⊆ V -> (forall x, x ∈ W -> strip <$> Q !! x = strip <$> P !! x) -> keeps P Q W.
Proof.
  intros L HW H. split; [intros x Hx; apply (lk_in _ _ L); set_solver|]. intros x Hx. specialize (H x Hx). destruct (P !! x), (Q !! x); cbn in *; try done.
  injection H as ? ? ? ? ? ? ? ?. split_and!; congruence.
Qed.

Lemma keeps_trans P Q R W : keeps P Q W -> keeps Q R W -> keeps P R W.
Proof.
  intros [H1 H2] [H3 H4]. split; [done|]. intros x Hx. destruct (H2 x Hx) as (-> & -> & -> & -> & ->). by apply H4.
Qed.

Section part.
Context (r r' : fd_reasm_t) (rt rt' : Z) (ex : option Z) (W : gset Z).
Context (St : state_ok r rt ex) (Hlive : live r' = W) (HW : W ⊆ live r) (L' : links (pool r') W) (K : keeps (pool r) (pool r') W).
Context (Hroot : root r' = Some rt') (Hrt : rt' ∈ W) (Hrp : par (pool r') rt' = None) (Hrc : forall d, dat (pool r) rt' = Some d -> slot_complete d = true) (Hold : rt ∈ W -> rt = rt').
Context (Hpar : forall x, x ∈ W -> x <> rt' -> par (pool r') x = par (pool r) x).
Context (Hcon : forall x, x ∈ W -> connx (pool r') rt' ex x <-> connx (pool r) rt ex x).

Lemma state_ok_part :
  (forall x, x ∈ ancestry r' <-> x ∈ W /\ x ∈ ancestry r ∪ frontier r /\ Some x <> ex /\ kids (pool r') x <> []) ->
  (forall x, x ∈ frontier r' <-> x ∈ W /\ x ∈ ancestry r ∪ frontier r /\ (Some x = ex \/ kids (pool r') x = [])) ->
  (forall x, x ∈ orphaned r' <-> x ∈ W /\ x ∈ orphaned r) -> (forall x, x ∈ subtrees r' <-> x ∈ W /\ x ∈ subtrees r) ->
  NoDup (subtreel r') -> (forall x, x ∈ subtreel r' <-> x ∈ subtrees r') -> NoDup (out r') -> (forall x, x ∈ out r' <-> x ∈ W /\ x ∈ out r) -> state_ok r' rt' ex.
Proof using All.
  intros Ha Hf Ho Hs Hl1 Hl2 Hq1 Hq2. destruct St as [S1 S2 S3 S4 S5 S6 S7 S8 S9 S10 S11 S12 S13].
  assert (Hc : forall x, x ∈ live r -> x ∈ ancestry r ∪ frontier r <-> connx (pool r) rt ex x).
  { intros x Hx. rewrite elem_of_union, S7, S8. split; [naive_solver|]. intros Hcx. destruct (decide (Some x = ex)); [naive_solver|]. destruct (kids (pool r) x) eqn:Ek; [right; naive_solver|left; split_and!; done]. }
  assert (Hne : forall x, x ∈ W -> ~ connx (pool r) rt ex x -> x <> rt') by (intros x Hx Hn ->; apply Hn, Hcon; [done|constructor]).
  split; rewrite ?Hlive; try done.
  - intros d. rewrite <- (keeps_dat _ _ _ _ K) by done. apply Hrc.
  - intros k d Hk. rewrite <- (keeps_dat _ _ _ _ K) by done. apply S4. by apply HW.
  - intros k d p dp Hk Ep. destruct (lk_par _ _ L' k p Hk Ep) as [Hp _]. rewrite <- !(keeps_dat _ _ _ _ K) by done. apply S5; [by apply HW|]. rewrite <- Hpar; [done|done|congruence].
  - intros k d Hk Hkr Ep Ed. rewrite <- (keeps_dat _ _ _ _ K) in Ed by done. rewrite Hpar in Ep by done. destruct (S6 k d) as [Hm|Hm]; try done; [by apply HW|intros ->; by apply Hkr, Hold|left|by right].
    intros Hc'. by apply Hm, HW.
  - intros k. rewrite Ha. split; [intros (H1 & H2 & H3 & H4)|intros (H1 & H2 & H3 & H4)]; (split_and!; try done); [by apply Hcon, Hc; try done; apply HW|apply Hc, Hcon; try done; by apply HW].
  - intros k. rewrite Hf. split; [intros (H1 & H2 & H3)|intros (H1 & H2 & H3)]; (split_and!; try done); [by apply Hcon, Hc; try done; apply HW|apply Hc, Hcon; try done; by apply HW].
  - intros k. rewrite Ho, S9. split; [intros (H1 & _ & H3 & H4)|intros (H1 & H3 & H4)].
    + split_and!; [done|by rewrite Hcon|]. rewrite Hpar; [done|done|by apply Hne].
    + rewrite Hcon in H3 by done. split_and!; [done|by apply HW|done|]. rewrite <- Hpar; [done|done|by apply Hne].
  - intros k. rewrite Hs, S10. split; [intros (H1 & _ & H3 & H4)|intros (H1 & H3 & H4)].
    + split_and!; [done|by rewrite Hcon|]. rewrite Hpar; [done|done|by apply Hne].
    + rewrite Hcon in H3 by done. split_and!; [done|by apply HW|done|]. rewrite <- Hpar; [done|done|by apply Hne].
  - split; [done|]. intros k Hk. apply Hq2 in Hk as [Hk Hk']. split; [done|]. apply Hcon; [done|]. by apply S12.
  - intros k e Hk E. destruct (keeps_lookup _ _ _ _ _ K Hk E) as (e' & E' & _ & <- & _). rewrite (S13 k e'), Hq2 by (done || by apply HW). naive_solver.
Qed.

Lemma eqvoc_ok_part : eqvoc_ok (pool r) (live r) -> eqvoc_ok (pool r') W.
Proof using Hpar Hrp HW K L'.
  intros [G1 G2]. assert (Hx : forall x, x ∈ W -> xkey (pool r') x = xkey (pool r) x).
  { intros x Hx. pose proof (keeps_dat _ _ _ _ K Hx) as Hd. unfold dat in Hd. unfold xkey. destruct (pool r !! x), (pool r' !! x); cbn in *; try done; congruence. }
  split.
  - intros j k e Hj Hk Hne Ex E. destruct (keeps_lookup _ _ _ _ _ K Hj E) as (e' & E' & _ & _ & <- & _). rewrite !Hx in Ex by done. apply (G1 j k); try done; by apply HW.
  - intros k p e ep Hk Ep E E2 Hq Hcf. destruct (lk_par _ _ L' k p Hk Ep) as [Hp _]. destruct (keeps_lookup _ _ _ _ _ K Hk E) as (e' & E' & _ & _ & <- & _).
    destruct (keeps_lookup _ _ _ _ _ K Hp E2) as (ep' & Ep' & _ & _ & Hq' & Hc' & _). rewrite Hpar in Ep by (done || congruence). apply (G2 k p e' ep'); try done; [by apply HW|congruence..].
Qed.

End part.

(** ** Removing elements *)

Lemma children_agree P V W Q x : links P V -> x ∈ V -> x ∈ W -> (forall c, c ∈ kids P x -> c ∈ W) -> agree W P Q -> children Q x = Ok (kids P x).
Proof.
  intros L Hx HxW Hk Ha. destruct (links_elim P V x L Hx) as (e & E & Hs & Hn & Hi & _). destruct (agree_lookup W P Q x e Ha HxW E) as (e' & E' & Hsh).
  assert (Hc : child e' = child e) by (unfold shape in Hsh; congruence). unfold children. rewrite (get_ok _ _ _ E'). cbn [mbind res_bind]. rewrite Hc.
  assert (Hs' : sibs Q (child e) (kids P x)) by (by apply (agree_sibs W P)). apply siblings_ok; [done|]. apply nodup_dom; [done|]. by apply (sibs_dom _ _ _ Hs').
Qed.

(** The elements of [D] are released; the lists of equal indices may change. *)
Definition gone (D : list Z) (P Q : fecs) : Prop := forall x, strip <$> Q !! x = if decide (x ∈ D) then None else strip <$> P !! x.

Lemma gone_agree D P Q W : gone D P Q -> (forall x, x ∈ W -> x ∉ D) -> agree W P Q.
Proof.
  intros H HW x Hx. specialize (H x). rewrite decide_False in H by (by apply HW). destruct (P !! x), (Q !! x); cbn in *; try done. injection H as H1 H2 H3 H4 _ _ _ _. unfold shape. congruence.
Qed.

Lemma gone_lookup D P Q x e : gone D P Q -> P !! x = Some e -> x ∉ D -> exists e', Q !! x = Some e' /\ strip e' = strip e.
Proof. intros H E Hx. specialize (H x). rewrite decide_False, E in H by done. destruct (Q !! x) as [e'|]; [|done]. exists e'. split; [done|]. cbn in H. congruence. Qed.

Lemma gone_none D P Q x : gone D P Q -> x ∈ D -> Q !! x = None.
Proof. intros H Hx. specialize (H x). rewrite decide_True in H by done. by destruct (Q !! x). Qed.

Lemma gone_dom D P Q : gone D P Q -> dom Q = dom P ∖ list_to_set D.
Proof.
  intros H. apply set_eq. intros x. rewrite elem_of_difference, elem_of_list_to_set, !elem_of_dom. specialize (H x). destruct (decide (x ∈ D)); destruct (P !! x), (Q !! x); cbn in H; try done;
  (split; [intros [? ?]; split; [by eauto|done]|intros [[? ?] ?]; try done; by eauto]).
Qed.

Lemma gone_refl P : gone [] P P.
Proof. intros x. destruct (decide (x ∈ [])) as [Hx|]; [by apply not_elem_of_nil in Hx|done]. Qed.

(** Releasing one more. *)
Lemma gone_release D P Q R x : gone D P Q -> (forall y, y <> x -> strip <$> R !! y = strip <$> Q !! y) -> gone (D ++ [x]) P (delete x R).
Proof.
  intros H HR y. destruct (decide (y = x)) as [->|Hy]; [rewrite lookup_delete_eq, decide_True by (apply elem_of_app; right; by left); done|].
  rewrite lookup_delete_ne, HR, H by done. destruct (decide (y ∈ D)) as [Hd|Hd]; [by rewrite decide_True by (apply elem_of_app; by left)|].
  rewrite decide_False; [done|]. rewrite elem_of_app, list_elem_of_singleton. by intros [?|?].
Qed.

Lemma gone_sub D P Q V : links P V -> gone D P Q -> (forall x, x ∈ D -> x ∈ V) -> (forall c p, c ∈ V -> par P c = Some p -> c ∈ D <-> p ∈ D) ->
  links Q (V ∖ list_to_set D) /\ (forall x, x ∈ V ∖ list_to_set D -> kids Q x = kids P x) /\ (forall x, x ∈ V ∖ list_to_set D -> par Q x = par P x) /\ keeps P Q (V ∖ list_to_set D).
Proof.
  intros L H HD Hcl. assert (Hag : agree (V ∖ list_to_set D) P Q) by (apply (gone_agree D); [done|]; intros x; rewrite elem_of_difference, elem_of_list_to_set; by intros [_ ?]).
  assert (Lw : links P (V ∖ list_to_set D)).
  { apply (links_sub P V); [done|set_solver| |]; intros c p; rewrite !elem_of_difference, !elem_of_list_to_set.
    - intros [Hc Hcd] Ep. split; [by apply (lk_par _ _ L) in Ep as [? _]|]. by rewrite <- (Hcl c p).
    - intros [Hp Hpd] Hc Ep. split; [done|]. by rewrite (Hcl c p). }
  split; [by apply (links_agree _ P)|]. split; [intros x Hx; symmetry; by apply (kids_agree (V ∖ list_to_set D))|]. split; [intros x Hx; symmetry; by apply (agree_par (V ∖ list_to_set D))|].
  apply (strip_keeps P Q V); [done|set_solver|]. intros x Hx. rewrite (H x), decide_False; [done|]. set_solver.
Qed.

Lemma list_remove_ok k l : k ∈ l -> list_remove k l = Ok (filter (.≠ k) l).
Proof. intros H. unfold list_remove. by rewrite decide_True. Qed.

Lemma filter_notin_snoc (vis : list Z) x (l : list Z) : filter (.∉ vis ++ [x]) l = filter (.≠ x) (filter (.∉ vis) l).
Proof.
  rewrite list_filter_filter. apply list_filter_iff. intros y. rewrite elem_of_app, list_elem_of_singleton. naive_solver.
Qed.

Lemma filter_nil (l : list Z) : filter (.∉ []) l = l.
Proof. induction l as [|x l IH]; [done|]. rewrite filter_cons_True by apply not_elem_of_nil. by rewrite IH. Qed.

(** * Rejecting orphans

    An orphan whose parent arrives and does not validate it is removed with
    everything below it. *)

(** The state after the orphans [D] are removed. *)
Definition without (D : list Z) (P : fecs) (X : gmap Z xid_t) (rm : list Z) (r : fd_reasm_t) : fd_reasm_t :=
  mk_reasm (fec_max r) (slot0 r) (root r) P (ancestry r) (frontier r) (orphaned r ∖ list_to_set D) (subtrees r ∖ list_to_set D) (filter (.∉ D) (subtreel r)) (out r) X rm.

Lemma without_snoc D k P P' X X' rm rm' r : (k ∈ subtrees r <-> k ∈ subtreel r) ->
  without (D ++ [k]) P' X' rm' r =
  let s := without D P X rm r in
  mk_reasm (fec_max r) (slot0 r) (root r) P' (ancestry r) (frontier r) (orphaned s ∖ {[k]}) (subtrees s ∖ {[k]})
    (if decide (k ∈ subtrees r) then filter (.≠ k) (subtreel s) else subtreel s) (out r) X' rm'.
Proof.
  intros Hk. unfold without. cbn [orphaned subtrees subtreel]. rewrite list_to_set_app_L. cbn [list_to_set]. rewrite union_empty_r_L, !difference_difference_l_L, filter_notin_snoc. f_equal.
  destruct (decide (k ∈ subtrees r)) as [|Hn]; [done|]. apply filter_ne. rewrite list_elem_of_filter. intros [_ ?]. by apply Hn, Hk.
Qed.

Section reject.
Context (r : fd_reasm_t) (rt : Z) (ex : option Z) (U : gset Z) (opt_store : bool) (c : Z).
Context (St : state_ok r rt ex) (HX : xid_wf (pool r) U (xid r)) (HU : forall x, below (pool r) c x -> x ∈ U) (HUl : U ⊆ live r) (Hc : c ∈ subtrees r) (Hex : forall x, below (pool r) c x -> Some x <> ex).
Context (Hcap : capacity_ok r).

Lemma orphans_below x : below (pool r) c x -> x ∈ live r /\ ~ connx (pool r) rt ex x /\ (x = c \/ x ∈ orphaned r).
Proof using St Hc.
  pose proof (so_links _ _ _ St) as L. apply (so_sub _ _ _ St) in Hc as (Hcl & Hcc & Hcp). destruct (so_root _ _ _ St) as (_ & _ & Hrp).
  intros H. induction H as [x ->%list_elem_of_singleton|p x Hp IH Hx]; [split_and!; auto|]. destruct IH as (IH1 & IH2 & _). apply (kids_iff _ _ L) in Hx as [Hx Ep]; [|done].
  assert (Hn : ~ connx (pool r) rt ex x) by (intros Hcx; by destruct (connx_par _ _ _ _ _ Hrp Hcx Ep)). split_and!; try done. right. apply (so_orp _ _ _ St). split_and!; try done. congruence.
Qed.

Definition rejected (vis : list Z) (r' : fd_reasm_t) : Prop :=
  exists P X rm, r' = without vis P X rm r /\ gone vis (pool r) P /\ xid_wf P (U ∖ list_to_set vis) X.

Lemma reject_step vis r' x : rejected vis r' -> below (pool r) c x -> x ∉ vis -> (forall y, y ∈ kids (pool r) x -> y ∉ vis) -> (forall y, y ∈ vis -> below (pool r) c y) ->
  exists r'', subtrees_remove_step opt_store r' x = Ok (r'', kids (pool r) x) /\ rejected (vis ++ [x]) r''.
Proof using All.
  intros (P & X & rm & -> & Hg & Hxw) Hb Hx Hky Hvb. pose proof (so_links _ _ _ St) as L. destruct (orphans_below x Hb) as (Hxl & _ & Hxo).
  assert (Hch : children P x = Ok (kids (pool r) x)).
  { apply (children_agree (pool r) (live r) (live r ∖ list_to_set vis)); try done; [by rewrite elem_of_difference, elem_of_list_to_set| |].
    - intros y Hy. rewrite elem_of_difference, elem_of_list_to_set. split; [|by apply Hky]. by apply (kids_iff _ _ L) in Hy as [? _].
    - apply (gone_agree vis); [done|]. intros y. rewrite elem_of_difference, elem_of_list_to_set. by intros [_ ?]. }
  destruct (so_subl _ _ _ St) as [_ Hsl].
  assert (Ex : is_Some (pool r !! x)) by (by apply (lk_in _ _ L)). destruct Ex as [e Ee]. destruct (gone_lookup _ _ _ _ _ Hg Ee Hx) as (e' & Ee' & _).
  set (r1 := mk_reasm (fec_max r) (slot0 r) (root r) P (ancestry r) (frontier r) ((orphaned r ∖ list_to_set vis) ∖ {[x]}) ((subtrees r ∖ list_to_set vis) ∖ {[x]})
    (if decide (x ∈ subtrees r) then filter (.≠ x) (filter (.∉ vis) (subtreel r)) else filter (.∉ vis) (subtreel r)) (out r) X rm).
  set (r0 := without vis P X rm r).
  assert (E1 : (if decide (x ∈ subtrees r0) then l ← list_remove x (subtreel r0); Ok (with_subtrees (subtrees r0 ∖ {[x]}) l r0)
      else if decide (x ∈ orphaned r0) then Ok (with_orphaned (orphaned r0 ∖ {[x]}) r0) else Crit) = Ok r1).
  { assert (Hd : x ∈ subtrees r -> x ∉ orphaned r) by (intros H1%(so_sub _ _ _ St) H2%(so_orp _ _ _ St); naive_solver). unfold r0, r1, without. cbn [subtrees orphaned subtreel]. destruct (decide (x ∈ subtrees r)) as [Hs|Hs].
    - rewrite decide_True by set_solver. rewrite list_remove_ok by (apply list_elem_of_filter; split; [done|by apply Hsl]). cbn [mbind res_bind]. unfold with_subtrees. cbn. do 2 f_equal. set_solver.
    - rewrite decide_False by set_solver. rewrite decide_True by (destruct Hxo as [->|Hxo]; set_solver). unfold with_orphaned. cbn. do 2 f_equal. set_solver. }
  unfold subtrees_remove_step. change (pool r0) with P. rewrite Hch. cbn [mbind res_bind] in E1 |- *. rewrite E1. clear E1. cbn [mbind res_bind].
  destruct (clear_xid_ok r1 (U ∖ list_to_set vis) x) as (P' & X' & E2 & Hst & Hxw'); try done.
  { rewrite elem_of_difference, elem_of_list_to_set. split; [by apply HU|done]. }
  { intros y Hy. destruct (lk_in _ _ L y) as [ey Ey]; [apply HUl; set_solver|]. cbn. destruct (gone_lookup _ _ _ _ _ Hg Ey) as (ey' & Ey' & _); [set_solver|]. by exists ey'. }
  { cbn. destruct Hcap. rewrite <- (size_dom (D := gset Z) P), (gone_dom _ _ _ Hg). pose proof (subseteq_size (dom (pool r) ∖ list_to_set vis) (dom (pool r)) ltac:(set_solver)). rewrite size_dom in *. lia. }
  rewrite E2. cbn [mbind res_bind]. set (rm' := if opt_store then x :: rm else rm).
  exists (without (vis ++ [x]) (delete x P') X' rm' r). split.
  - f_equal. f_equal. rewrite (without_snoc vis x P (delete x P') X X' rm rm' r) by (by rewrite Hsl). unfold release, store_remove, r1, without, rm'. by destruct opt_store.
  - exists (delete x P'), X', rm'. split; [done|]. split.
    + apply (gone_release vis _ P); [done|]. intros y _. by rewrite Hst.
    + rewrite list_to_set_app_L. cbn [list_to_set]. rewrite union_empty_r_L, <- difference_difference_l_L. apply (xid_wf_ext P'); [|done].
      intros y Hy. rewrite lookup_delete_ne by set_solver. done.
Qed.

(** The orphan and what is below it is removed, and nothing else. *)
Lemma subtrees_remove_ok : exists D P X rm, subtrees_remove opt_store c r = Ok (without D P X rm r) /\ NoDup D /\ (forall x, x ∈ D <-> below (pool r) c x) /\
  gone D (pool r) P /\ xid_wf P (U ∖ list_to_set D) X.
Proof using All.
  pose proof (so_links _ _ _ St) as L. apply (so_sub _ _ _ St) in Hc as Hc'. destruct Hc' as (Hcl & _).
  assert (F : forest (live r) (kids (pool r)) [c]) by (apply (below_forest _ _ L); [done|done|]; intros p Hp; by apply (kids_nodup _ _ L)).
  assert (Hsz : (size (live r) <= size (pool r))%nat).
  { rewrite <- (size_dom (D := gset Z) (pool r)). apply subseteq_size. intros x Hx. by apply elem_of_dom, (lk_in _ _ L). }
  destruct (bfs_ok (subtrees_remove_step opt_store) (live r) (kids (pool r)) [c] rejected r F) as (D & r' & E & (P & X & rm & -> & Hg & Hxw) & Hn & _ & HD).
  - destruct Hcap. lia.
  - done.
  - exists (pool r), (xid r), (removed r). split; [|split; [apply gone_refl|]].
    + unfold without. cbn [list_to_set]. rewrite !difference_empty_L. destruct r. cbn. f_equal. by rewrite filter_nil.
    + cbn [list_to_set]. by rewrite difference_empty_L.
  - intros vis r' x q HI Hnd Hrv Hrx Hx Hq. apply reject_step; try done.
    + intros y Hy Hyv. assert (Hy2 : y ∈ [c] ++ (vis ≫= kids (pool r))) by (rewrite <- Hq; apply elem_of_app; by left). apply elem_of_app in Hy2 as [Hy2|Hy2].
      * by apply (fo_root _ _ _ F x y).
      * apply list_elem_of_bind in Hy2 as (p & Hyp & Hpv). rewrite Forall_forall in Hrv. assert (p = x) as -> by (apply (fo_unique _ _ _ F p x y); try done; by apply Hrv). done.
    + intros y Hy. rewrite Forall_forall in Hrv. by apply Hrv.
  - exists D, P, X, rm. split_and!; done.
Qed.

Lemma subtrees_remove_state D P X rm : (forall x, x ∈ D <-> below (pool r) c x) -> gone D (pool r) P -> let r' := without D P X rm r in
  state_ok r' rt ex /\ live r' = live r ∖ list_to_set D /\ (forall x, x ∈ live r' -> kids P x = kids (pool r) x) /\ (forall x, x ∈ live r' -> par P x = par (pool r) x) /\ keeps (pool r) P (live r').
Proof using All.
  intros HD Hg r'. pose proof (so_links _ _ _ St) as L. apply (so_sub _ _ _ St) in Hc as Hc'. destruct Hc' as (Hcl & Hcn & Hcp). destruct (so_root _ _ _ St) as (R1 & R2 & R3).
  destruct (gone_sub D (pool r) P (live r)) as (L' & Hk & Hp & K); try done.
  { intros x Hx. by apply orphans_below, HD. }
  { intros x p Hx Ep. rewrite !HD. destruct (lk_par _ _ L x p Hx Ep) as [Hp _]. split; [|by apply (fec_below_child _ _ L)]. intros Hb. apply (below_par _ _ L c x p); try done. congruence. }
  assert (Hl : live r' = live r ∖ list_to_set D).
  { apply set_eq. intros x. unfold live, r'. cbn. rewrite elem_of_difference, elem_of_list_to_set, !elem_of_union, !elem_of_difference, elem_of_list_to_set.
    assert (x ∈ D -> x ∉ ancestry r /\ x ∉ frontier r); [|tauto]. intros Hd%HD%orphans_below. split; [intros H%(so_anc _ _ _ St)|intros H%(so_fro _ _ _ St)]; naive_solver. }
  assert (Hnd : forall x, x ∈ live r -> connx (pool r) rt ex x -> x ∉ D) by (intros x _ Hcx Hd%HD%orphans_below; naive_solver).
  rewrite Hl. split; [|split_and!; done].
  assert (Hrd : rt ∉ D) by (apply Hnd; [done|constructor]).
  assert (Hpar : forall x, x ∈ live r ∖ list_to_set D -> par (pool r') x = par (pool r) x) by done.
  apply (state_ok_part r r' rt rt ex (live r ∖ list_to_set D)); try done.
  - set_solver.
  - rewrite elem_of_difference, elem_of_list_to_set. done.
  - cbn. rewrite Hp by (rewrite elem_of_difference, elem_of_list_to_set; done). done.
  - apply (so_complete _ _ _ St).
  - intros x Hx _. by apply Hpar.
  - intros x Hx. split; intros Hcx.
    + apply (connx_ext P _ _ _ L' (pool r)) in Hcx; done.
    + assert (Hx1 : x ∈ live r) by set_solver. clear Hx. induction Hcx as [|y p Ep Hpe Hcx IH]; [constructor|]. destruct (lk_par _ _ L y p Hx1 Ep) as [Hpl _].
      apply (connx_step _ _ _ y p); [|done|by apply IH]. cbn. rewrite Hp; [done|]. rewrite elem_of_difference, elem_of_list_to_set. split; [done|]. apply Hnd; [done|]. by apply (connx_step _ _ _ y p).
  - intros x. cbn. rewrite (so_anc _ _ _ St), elem_of_union, (so_anc _ _ _ St), (so_fro _ _ _ St), elem_of_difference, elem_of_list_to_set. split.
    + intros (H1 & H2 & H3 & H4). assert (Hxd : x ∉ D) by (by apply Hnd). split_and!; try done; [by left; split_and!|]. rewrite Hk; [done|]. by rewrite elem_of_difference, elem_of_list_to_set.
    + intros ((H1 & H2) & H3 & H4 & H5). rewrite Hk in H5 by (by rewrite elem_of_difference, elem_of_list_to_set). destruct H3 as [?|(_ & H6 & _)]; done.
  - intros x. cbn. rewrite (so_fro _ _ _ St), elem_of_union, (so_anc _ _ _ St), (so_fro _ _ _ St), elem_of_difference, elem_of_list_to_set. split.
    + intros (H1 & H2 & H3). assert (Hxd : x ∉ D) by (by apply Hnd). split_and!; try done; [by right; split_and!|]. rewrite Hk; [done|]. by rewrite elem_of_difference, elem_of_list_to_set.
    + intros ((H1 & H2) & H3 & H4). rewrite Hk in H4 by (by rewrite elem_of_difference, elem_of_list_to_set). destruct H3 as [(_ & H6 & _)|?]; done.
  - intros x. cbn. rewrite !elem_of_difference, elem_of_list_to_set. split; [intros [H1 H2]; split_and!; try done; by apply (so_orp _ _ _ St) in H1 as [? _]|naive_solver].
  - intros x. cbn. rewrite !elem_of_difference, elem_of_list_to_set. split; [intros [H1 H2]; split_and!; try done; by apply (so_sub _ _ _ St) in H1 as [? _]|naive_solver].
  - cbn. apply NoDup_filter. by apply (so_subl _ _ _ St).
  - intros x. cbn. rewrite list_elem_of_filter, elem_of_difference, elem_of_list_to_set. destruct (so_subl _ _ _ St) as [_ Hsl]. rewrite Hsl. tauto.
  - cbn. by apply (so_out _ _ _ St).
  - intros x. cbn. split; [|by intros [_ ?]]. intros Hx. split; [|done]. destruct (so_out _ _ _ St) as [_ Ho]. destruct (Ho x Hx) as [H1 H2]. rewrite elem_of_difference, elem_of_list_to_set. split; [done|by apply Hnd].
Qed.

End reject.
