(* ===== verification/ReasmPlace.v ===== *)
(** * Placing a new element

    The first part of an insertion: the new element is put in the map its
    parent calls for and linked to it. *)

From S2P Require Import Prelude Bits Reasm ReasmTree ReasmInv ReasmMark.

#[local] Open Scope Z_scope.

Lemma fec_map_insert_ok k (s : gset Z) : k ∉ s -> map_insert k s = Ok ({[k]} ∪ s).
Proof. intros H. unfold map_insert. by rewrite decide_False. Qed.

Lemma push_tail_ok k l : k ∉ l -> push_tail k l = Ok (l ++ [k]).
Proof. intros H. unfold push_tail. by rewrite decide_False. Qed.

(** The four maps are disjoint. *)
Lemma maps_disjoint r rt ex : state_ok r rt ex -> ancestry r ## frontier r /\ ancestry r ∪ frontier r ## orphaned r ∪ subtrees r /\ orphaned r ## subtrees r.
Proof.
  intros St. split_and!; intros x; rewrite ?elem_of_union, ?(so_anc _ _ _ St), ?(so_fro _ _ _ St), ?(so_orp _ _ _ St), ?(so_sub _ _ _ St); naive_solver.
Qed.

Lemma connected_maps r rt ex x : state_ok r rt ex -> x ∈ ancestry r ∪ frontier r <-> x ∈ live r /\ connx (pool r) rt ex x.
Proof.
  intros St. rewrite elem_of_union, (so_anc _ _ _ St), (so_fro _ _ _ St). split; [naive_solver|]. intros [Hx Hc]. destruct (decide (Some x = ex)); [naive_solver|].
  destruct (kids (pool r) x) eqn:Ek; [right; naive_solver|left; split_and!; done].
Qed.

Lemma live_maps r x : x ∈ live r <-> x ∈ ancestry r ∪ frontier r \/ x ∈ orphaned r ∪ subtrees r.
Proof. unfold live. rewrite !elem_of_union. tauto. Qed.

(** The state once the element is in its map; [conn] tells whether its parent
    is connected, [known] whether it is there. *)
Definition placed (conn known : bool) (k c : Z) (P : fecs) (r : fd_reasm_t) : fd_reasm_t :=
  mk_reasm (fec_max r) (slot0 r) (root r) P
    (if decide (c ∈ frontier r) then {[c]} ∪ ancestry r else ancestry r)
    (if conn then {[k]} ∪ frontier r ∖ {[c]} else frontier r)
    (if known && negb conn then {[k]} ∪ orphaned r else orphaned r)
    (if known then subtrees r else {[k]} ∪ subtrees r)
    (if known then subtreel r else subtreel r ++ [k])
    (if conn then out r ++ [k] else out r) (xid r) (removed r).

Section place.
Context (r : fd_reasm_t) (rt k : Z) (d : fec_data).
Context (St : state_ok r rt None) (Hk : k ∉ live r).

Let conn := bool_decide (cmr d ∈ ancestry r ∪ frontier r).
Let known := bool_decide (cmr d ∈ live r).
Let P0 := <[k := set_in_out conn (new_fec d)]> (pool r).

Lemma query_live x : fd_reasm_query r x = bool_decide (x ∈ live r).
Proof using Type. clear conn known P0. unfold fd_reasm_query, live. symmetry. destruct (bool_decide_reflect (x ∈ ancestry r ∪ frontier r ∪ orphaned r ∪ subtrees r)) as [H|H]; rewrite !elem_of_union in H.
  - symmetry. rewrite !orb_true_iff, !bool_decide_eq_true. tauto.
  - symmetry. rewrite !orb_false_iff, !bool_decide_eq_false. tauto.
Qed.

Lemma place_ok : place k (cmr d) (with_pool (<[k := new_fec d]> (pool r)) r) = Ok (if known then Some (cmr d) else None, placed conn known k (cmr d) P0 r).
Proof using All.
  destruct (maps_disjoint _ _ _ St) as (D1 & D2 & D3). destruct (so_out _ _ _ St) as [_ Ho]. destruct (so_subl _ _ _ St) as [_ Hsl]. set (c := cmr d) in *.
  assert (Hkm : k ∉ ancestry r /\ k ∉ frontier r /\ k ∉ orphaned r /\ k ∉ subtrees r) by (unfold live in Hk; rewrite !elem_of_union in Hk; tauto). destruct Hkm as (K1 & K2 & K3 & K4).
  assert (Hko : k ∉ out r) by (intros Hx; by apply Ho in Hx as [? _]).
  assert (Hkl : k ∉ subtreel r) by (by rewrite Hsl).
  assert (Hcl : c ∈ live r <-> c ∈ ancestry r ∪ frontier r \/ c ∈ orphaned r ∪ subtrees r) by apply live_maps.
  assert (Hop : forall s, out s = out r -> pool s = <[k := new_fec d]> (pool r) -> out_push k s = Ok (with_out (out r ++ [k]) (with_pool (<[k := set_in_out true (new_fec d)]> (pool r)) s))).
  { intros s E1 E2. unfold out_push. rewrite E1, (push_tail_ok k (out r) Hko). cbn [mbind res_bind]. unfold update. cbn [pool with_out]. rewrite E2, (upd_ok _ _ k (new_fec d)) by (by rewrite lookup_insert_eq).
    cbn [mbind res_bind]. rewrite insert_insert_eq. done. }
  unfold place. cbn [ancestry frontier orphaned subtrees subtreel with_pool]. destruct (decide (c ∈ ancestry r)) as [Ha|Ha]; [|destruct (decide (c ∈ frontier r)) as [Hf|Hf]; [|destruct (decide (c ∈ orphaned r)) as [Hor|Hor]; [|destruct (decide (c ∈ subtrees r)) as [Hs|Hs]]]].
  - assert (Ec : conn = true) by (apply bool_decide_eq_true; set_solver). assert (Ek : known = true) by (apply bool_decide_eq_true; set_solver). assert (Hcf : c ∉ frontier r) by (intros ?; by apply (D1 c)).
    rewrite fec_map_insert_ok by done. cbn [mbind res_bind]. rewrite Hop by done. cbn [mbind res_bind]. unfold P0, placed. rewrite Ec, Ek. destruct (decide (c ∈ frontier r)); [done|].
    replace (frontier r ∖ {[c]}) with (frontier r) by set_solver. done.
  - assert (Ec : conn = true) by (apply bool_decide_eq_true; set_solver). assert (Ek : known = true) by (apply bool_decide_eq_true; set_solver).
    rewrite (fec_map_insert_ok c) by done. cbn [mbind res_bind]. rewrite fec_map_insert_ok by set_solver. cbn [mbind res_bind]. rewrite Hop by done. cbn [mbind res_bind]. unfold P0, placed. rewrite Ec, Ek.
    destruct (decide (c ∈ frontier r)); done.
  - assert (Ec : conn = false) by (apply bool_decide_eq_false; set_solver). assert (Ek : known = true) by (apply bool_decide_eq_true; set_solver).
    rewrite fec_map_insert_ok by done. cbn [mbind res_bind]. unfold P0, placed. rewrite Ec, Ek. destruct (decide (c ∈ frontier r)); done.
  - assert (Ec : conn = false) by (apply bool_decide_eq_false; set_solver). assert (Ek : known = true) by (apply bool_decide_eq_true; set_solver).
    rewrite fec_map_insert_ok by done. cbn [mbind res_bind]. unfold P0, placed. rewrite Ec, Ek. destruct (decide (c ∈ frontier r)); done.
  - assert (Ec : conn = false) by (apply bool_decide_eq_false; set_solver). assert (Ek : known = false) by (apply bool_decide_eq_false; set_solver).
    rewrite fec_map_insert_ok by done. cbn [mbind res_bind]. rewrite push_tail_ok by done. cbn [mbind res_bind]. unfold P0, placed. rewrite Ec, Ek. destruct (decide (c ∈ frontier r)); done.
Qed.

Context (Hd : data_ok d) (Hck : cmr d <> k) (Hval : forall dp, cmr d ∈ live r -> dat (pool r) (cmr d) = Some dp -> validate_chained_block_id dp d = true).

Lemma link_placed : exists P1, (if known then link (cmr d) k P0 else Ok P0) = Ok P1 /\ links P1 ({[k]} ∪ live r) /\ same_rest P0 P1 /\ kids P1 k = [] /\
  (forall x, x ∈ live r -> kids P1 x = if decide (x = cmr d) then kids (pool r) x ++ [k] else kids (pool r) x) /\
  (forall x, par P1 x = if decide (x = k) then (if known then Some (cmr d) else None) else par (pool r) x) /\ (forall x, x ∉ live r -> x <> k -> P1 !! x = pool r !! x).
Proof using All.
  pose proof (so_links _ _ _ St) as L. assert (Ha : agree (live r) (pool r) P0) by (intros x Hx; unfold P0; rewrite lookup_insert_ne; [done|by intros ->]).
  pose proof (links_agree _ _ _ Ha L) as L0. assert (E0 : P0 !! k = Some (set_in_out conn (new_fec d))) by (unfold P0; by rewrite lookup_insert_eq).
  destruct (links_add P0 (live r) k _ L0 Hk E0) as (L1 & Hk0 & _); try done.
  assert (Hkid : forall x, x ∈ live r -> kids P0 x = kids (pool r) x) by (intros x Hx; symmetry; by apply (kids_agree (live r))).
  assert (Hpar : forall x, par P0 x = if decide (x = k) then None else par (pool r) x).
  { intros x. destruct (decide (x = k)) as [->|Hx]; [by rewrite (par_lookup _ _ _ E0)|]. unfold par, P0. by rewrite lookup_insert_ne. }
  unfold known. destruct (bool_decide_reflect (cmr d ∈ live r)) as [Hc|Hc].
  - assert (Hcv : cmr d ∈ {[k]} ∪ live r) by set_solver. assert (Hkv : k ∈ {[k]} ∪ live r) by set_solver.
    destruct (lk_in _ _ L (cmr d) Hc) as [ec Ec]. assert (Edc : dat (pool r) (cmr d) = Some (data ec)) by (by apply dat_lookup).
    destruct (fec_link_ok P0 ({[k]} ∪ live r) (cmr d) k L1) as (P1 & E1 & LP & Hr & Hkc & Hko & Hp & Hout); try done.
    { rewrite Hpar. by destruct (decide (k = k)). }
    { unfold rk. rewrite E0. unfold P0. rewrite lookup_insert_ne, Ec by done. cbn. apply validate_rank; [by apply (so_data _ _ _ St (cmr d))|done|by apply Hval]. }
    exists P1. split_and!; try done.
    + by rewrite Hko by done.
    + intros x Hx. destruct (decide (x = cmr d)) as [->|Hxc]; [by rewrite Hkc, Hkid|]. rewrite Hko, Hkid; try done. set_solver.
    + intros x. rewrite Hp, Hpar. by destruct (decide (x = k)).
    + intros x Hx Hxk. rewrite Hout by set_solver. unfold P0. by rewrite lookup_insert_ne.
  - exists P0. split_and!; try done; [|intros x _ Hxk; unfold P0; by rewrite lookup_insert_ne]. intros x Hx. destruct (decide (x = cmr d)) as [->|]; [done|by apply Hkid].
Qed.

(** What is known after the new element is linked. *)
Lemma placed_state P1 : links P1 ({[k]} ∪ live r) -> same_rest P0 P1 -> kids P1 k = [] ->
  (forall x, x ∈ live r -> kids P1 x = if decide (x = cmr d) then kids (pool r) x ++ [k] else kids (pool r) x) ->
  (forall x, par P1 x = if decide (x = k) then (if known then Some (cmr d) else None) else par (pool r) x) ->
  let r1 := placed conn known k (cmr d) P1 r in state_ok r1 rt (Some k) /\ live r1 = {[k]} ∪ live r.
Proof using All.
  intros L1 Hrest Hk0 Hkid Hpar r1. destruct (maps_disjoint _ _ _ St) as (D1 & D2 & D3). pose proof (so_links _ _ _ St) as L. destruct (so_root _ _ _ St) as (R1 & R2 & R3).
  assert (Hcm : conn = true <-> cmr d ∈ live r /\ connected (pool r) rt (cmr d)) by (unfold conn; rewrite bool_decide_eq_true; by apply connected_maps).
  assert (Hkn : known = true <-> cmr d ∈ live r) by (unfold known; apply bool_decide_eq_true). assert (Hrk : rt <> k) by (by intros ->).
  assert (Hcf : cmr d ∈ frontier r -> conn = true) by (intros Hf; unfold conn; apply bool_decide_eq_true; set_solver).
  assert (Hl : live r1 = {[k]} ∪ live r).
  { apply set_eq. intros x. unfold live, r1, placed. cbn. rewrite !elem_of_union, elem_of_singleton. destruct (decide (cmr d ∈ frontier r)) as [Hf|Hf].
    - assert (conn = true) as -> by auto. assert (known = true) as -> by (apply Hkn; by apply Hcm, Hcf). cbn. rewrite !elem_of_union, !elem_of_difference, !elem_of_singleton.
      destruct (decide (x = cmr d)) as [->|]; [|tauto]. tauto.
    - destruct conn eqn:Ec, known eqn:Ek; cbn; rewrite ?elem_of_union, ?elem_of_difference, ?elem_of_singleton; try tauto.
      + destruct (decide (x = cmr d)) as [->|]; [tauto|tauto].
      + exfalso. assert (Hcl : cmr d ∈ live r) by (by apply Hcm). by apply Hkn in Hcl. }
  assert (Hcold : forall x, x ∈ live r -> connx P1 rt (Some k) x <-> connected (pool r) rt x).
  { intros x Hx. split.
    - intros Hc. revert Hx. induction Hc as [|y p Ep Hpk Hc IH]; intros Hy; [constructor|]. rewrite Hpar in Ep. destruct (decide (y = k)) as [->|_]; [done|].
      destruct (lk_par _ _ L y p Hy Ep) as [Hp _]. by apply (connx_step _ _ _ y p); [|done|apply IH].
    - intros Hc. revert Hx. induction Hc as [|y p Ep Hpk Hc IH]; intros Hy; [constructor|]. destruct (lk_par _ _ L y p Hy Ep) as [Hp _].
      apply (connx_step _ _ _ y p); [rewrite Hpar, decide_False; [done|by intros ->]|intros [= ->]; done|by apply IH]. }
  assert (Hcnew : connx P1 rt (Some k) k <-> conn = true).
  { rewrite Hcm. split.
    - intros Hc. inversion Hc as [|y p Ep Hpk Hc' Ey]; subst; [done|]. rewrite Hpar, decide_True in Ep by done. destruct known eqn:Ek; [|done]. injection Ep as <-.
      assert (Hcl : cmr d ∈ live r) by (by apply Hkn). split; [done|]. by apply Hcold.
    - intros [Hcl Hc]. apply (connx_step _ _ _ k (cmr d)); [rewrite Hpar, decide_True by done; by rewrite (proj2 Hkn Hcl)|congruence|by apply Hcold]. }
  assert (Hdat : forall x, dat P1 x = if decide (x = k) then Some d else dat (pool r) x).
  { intros x. unfold dat. specialize (Hrest x). unfold P0 in Hrest. destruct (decide (x = k)) as [->|Hx]; [rewrite lookup_insert_eq in Hrest|rewrite lookup_insert_ne in Hrest by done].
    - destruct (P1 !! k) as [e|]; cbn in *; [|done]. unfold rest in Hrest. cbn in Hrest. congruence.
    - destruct (P1 !! x), (pool r !! x); cbn in *; try done. unfold rest in Hrest. congruence. }
  split; [|done].
  assert (Hnk : forall x, x ∈ live r -> x <> k) by (by intros x Hx ->).
  assert (Hfro : forall x, x ∈ frontier r1 <-> (x = k /\ conn = true) \/ (x ∈ frontier r /\ x <> cmr d)).
  { intros x. unfold r1, placed. cbn. destruct conn eqn:Ec; [rewrite elem_of_union, elem_of_difference, !elem_of_singleton; tauto|]. split; [|intros [[_ ?]|[? _]]; done].
    intros Hx. right. split; [done|]. intros ->. by specialize (Hcf Hx). }
  assert (Hanc : forall x, x ∈ ancestry r1 <-> x ∈ ancestry r \/ (x = cmr d /\ x ∈ frontier r)).
  { intros x. unfold r1, placed. cbn. destruct (decide (cmr d ∈ frontier r)); [rewrite elem_of_union, elem_of_singleton|]; split; try tauto; naive_solver. }
  assert (Horp : forall x, x ∈ orphaned r1 <-> x ∈ orphaned r \/ (x = k /\ known = true /\ conn = false)).
  { intros x. unfold r1, placed. cbn. destruct known, conn; cbn; rewrite ?elem_of_union, ?elem_of_singleton; tauto || naive_solver. }
  assert (Hsub : forall x, x ∈ subtrees r1 <-> x ∈ subtrees r \/ (x = k /\ known = false)).
  { intros x. unfold r1, placed. cbn. destruct known; cbn; rewrite ?elem_of_union, ?elem_of_singleton; tauto || naive_solver. }
  assert (Hparx : forall x, x ∈ live r -> par P1 x = par (pool r) x) by (intros x Hx; rewrite Hpar, decide_False; [done|by apply Hnk]).
  assert (Hkidx : forall x, x ∈ live r -> (kids P1 x = [] <-> kids (pool r) x = [] /\ x <> cmr d)).
  { intros x Hx. rewrite Hkid by done. destruct (decide (x = cmr d)) as [->|]; [|tauto]. split; [intros H; by apply app_nil in H as [_ ?]|by intros [_ ?]]. }
  split; rewrite ?Hl; change (pool r1) with P1; change (root r1) with (root r).
  - done.
  - split_and!; [done|set_solver|by rewrite Hparx].
  - intros d'. rewrite Hdat, decide_False by done. apply (so_complete _ _ _ St).
  - intros x d' Hx. rewrite Hdat. destruct (decide (x = k)) as [->|Hxk]; [by intros [= <-]|]. apply (so_data _ _ _ St). set_solver.
  - intros x d' p dp Hx Ep. rewrite !Hdat. rewrite Hpar in Ep. destruct (decide (x = k)) as [->|Hxk].
    + destruct known eqn:Ek; [|done]. injection Ep as <-. intros [= <-]. rewrite decide_False by done. intros Edp. split; [done|]. apply Hval; [by apply Hkn|done].
    + assert (Hxl : x ∈ live r) by set_solver. destruct (lk_par _ _ L x p Hxl Ep) as [Hp _]. rewrite decide_False by (by apply Hnk). by apply (so_par _ _ _ St).
  - intros x d' Hx Hxr Ep Ed. rewrite Hdat in Ed. rewrite Hpar in Ep. destruct (decide (x = k)) as [->|Hxk].
    + injection Ed as <-. left. destruct known eqn:Ek; [done|]. assert (cmr d ∉ live r) by (intros Hcl; by apply Hkn in Hcl). set_solver.
    + destruct (so_miss _ _ _ St x d') as [Hm|]; try done; [set_solver|]. destruct (decide (cmr d' = k)) as [->|]; [by right|left; set_solver].
  - intros x. rewrite Hanc, elem_of_union, elem_of_singleton, (so_anc _ _ _ St), (so_fro _ _ _ St). split.
    + intros [(H1 & H2 & _ & H3)|(-> & H1 & H2 & _)]; (split_and!; [by right|by apply Hcold|intros [= Hxk]; by apply (Hnk _ H1)|]); rewrite Hkidx by done; naive_solver.
    + intros ([->|H1] & H2 & H3 & H4); [done|]. rewrite Hcold in H2 by done. rewrite Hkidx in H4 by done. destruct (decide (kids (pool r) x = [])) as [He|He]; [right|left; split_and!; done].
      assert (x = cmr d) by (destruct (decide (x = cmr d)); [done|]; by destruct H4). split_and!; auto.
  - intros x. rewrite Hfro, elem_of_union, elem_of_singleton, (so_fro _ _ _ St). split.
    + intros [[-> H1]|((H1 & H2 & H3) & H4)]; [split_and!; [by left|by apply Hcnew|by left]|]. split_and!; [by right|by apply Hcold|right]. apply Hkidx; [done|]. split; [by destruct H3|done].
    + intros ([->|H1] & H2 & H3); [left; split; [done|by apply Hcnew]|right]. rewrite Hcold in H2 by done. destruct H3 as [[= ->]|H3]; [done|]. apply Hkidx in H3 as [H3 H4]; [|done]. split_and!; auto.
  - intros x. rewrite Horp, elem_of_union, elem_of_singleton, (so_orp _ _ _ St). split.
    + intros [(H1 & H2 & H3)|(-> & H1 & H2)]; [split_and!; [by right|by rewrite Hcold|by rewrite Hparx]|]. split_and!; [by left|rewrite Hcnew; congruence|]. rewrite Hpar, decide_True by done. by rewrite H1.
    + intros ([->|H1] & H2 & H3); [right|left; rewrite Hcold in H2 by done; rewrite Hparx in H3 by done; done]. rewrite Hpar, decide_True in H3 by done. split_and!; [done|by destruct known|].
      rewrite Hcnew in H2. by destruct conn.
  - intros x. rewrite Hsub, elem_of_union, elem_of_singleton, (so_sub _ _ _ St). split.
    + intros [(H1 & H2 & H3)|(-> & H1)]; [split_and!; [by right|by rewrite Hcold|by rewrite Hparx]|]. split_and!; [by left| |rewrite Hpar, decide_True by done; by rewrite H1].
      rewrite Hcnew. intros Hc. assert (known = true) by (by apply Hkn, Hcm). congruence.
    + intros ([->|H1] & H2 & H3); [right|left; rewrite Hcold in H2 by done; rewrite Hparx in H3 by done; done]. rewrite Hpar, decide_True in H3 by done. split; [done|]. by destruct known.
  - destruct (so_subl _ _ _ St) as [Hn Hi]. assert (Hkl : k ∉ subtreel r) by (rewrite Hi; intros H%(so_sub _ _ _ St); naive_solver). split.
    + unfold r1, placed. cbn. destruct known; [done|]. apply NoDup_app. split_and!; [done| |apply NoDup_singleton]. intros x Hx ->%list_elem_of_singleton. done.
    + intros x. rewrite Hsub, <- Hi. unfold r1, placed. cbn. destruct known; [naive_solver|]. rewrite elem_of_app, list_elem_of_singleton. naive_solver.
  - destruct (so_out _ _ _ St) as [Hn Ho]. assert (Hko : k ∉ out r) by (intros H%Ho; naive_solver). split.
    + unfold r1, placed. cbn. destruct conn; [|done]. apply NoDup_app. split_and!; [done| |apply NoDup_singleton]. intros x Hx ->%list_elem_of_singleton. done.
    + intros x Hx. assert (Hx' : x ∈ out r \/ (x = k /\ conn = true)) by (revert Hx; unfold r1, placed; cbn; destruct conn; rewrite ?elem_of_app, ?list_elem_of_singleton; naive_solver).
      destruct Hx' as [Hx'|[-> Hc]]; [apply Ho in Hx' as [H1 H2]; split; [set_solver|by apply Hcold]|]. split; [set_solver|by apply Hcnew].
  - intros x e Hx E. assert (Hio : in_out <$> P1 !! x = if decide (x = k) then Some conn else in_out <$> pool r !! x).
    { pose proof (Hrest x) as Hrx. unfold P0 in Hrx. destruct (decide (x = k)) as [->|Hxk]; [rewrite lookup_insert_eq in Hrx|rewrite lookup_insert_ne in Hrx by done].
      - rewrite E in *. cbn in *. unfold rest in Hrx. cbn in Hrx. congruence.
      - rewrite E in *. destruct (pool r !! x); cbn in *; [|done]. unfold rest in Hrx. congruence. }
    rewrite E in Hio. cbn in Hio. assert (Hko : k ∉ out r) by (destruct (so_out _ _ _ St) as [_ Ho]; intros H%Ho; naive_solver).
    destruct (decide (x = k)) as [->|Hxk].
    + injection Hio as ->. unfold r1, placed. cbn. destruct conn; [|naive_solver]. rewrite elem_of_app, list_elem_of_singleton. naive_solver.
    + assert (Hxl : x ∈ live r) by set_solver. destruct (pool r !! x) as [e0|] eqn:E0; [|done]. injection Hio as Hio. rewrite Hio, (so_in_out _ _ _ St x e0) by done. unfold r1, placed. cbn.
      destruct conn; [|done]. rewrite elem_of_app, list_elem_of_singleton. naive_solver.
Qed.

End place.

(** * Adopting orphans

    The second part of an insertion: the roots of orphaned trees that chain to
    the new element are linked to it, or removed when they are not valid. *)

Lemma below_ext P Q c x : (forall y, below P c y -> kids Q y = kids P y) -> below P c x <-> below Q c x.
Proof.
  intros H. assert (Hpq : forall y, below P c y -> below Q c y).
  { intros y Hy. induction Hy as [y Hy|p y Hp IH Hy]; [by apply reach_start|]. apply (below_step Q c p); [done|]. by rewrite H. }
  split; [apply Hpq|]. intros Hy. induction Hy as [y Hy|p y Hp IH Hy]; [by apply reach_start|]. apply (below_step P c p); [done|]. by rewrite <- H.
Qed.

(** While [k] is inserted: [dead] are the evicted elements that are not yet
    released. *)
Record ins_ok (rt k : Z) (d : fec_data) (dead : gset Z) (r : fd_reasm_t) : Prop := mk_ins_ok {
  io_state : state_ok r rt (Some k);
  io_xid : xid_wf (pool r) (live r ∖ {[k]}) (xid r);
  io_same : forall j i e, j ∈ live r ∖ {[k]} -> i ∈ live r ∖ {[k]} -> j <> i -> xkey (pool r) j = xkey (pool r) i -> pool r !! j = Some e -> eqvoc e = true;
  io_below : below_marked (pool r) (live r) (.= k);
  io_in : k ∈ live r /\ k <> rt;
  io_new : exists e, pool r !! k = Some e /\ data e = d /\ eqvoc e = false /\ confirmed e = false /\ popped e = false;
  io_cap : capacity_ok r;
  io_pool : dom (pool r) = live r ∪ dead;
  io_dead : dead ## live r;
}.

(** Removed because [k] does not validate them. *)
Definition rejects (P : fecs) (k : Z) (d : fec_data) (c : Z) : Prop := exists dc, dat P c = Some dc /\ cmr dc = k /\ validate_chained_block_id d dc = false.

Record adopted (k : Z) (d : fec_data) (l : list Z) (r r' : fd_reasm_t) (D : gset Z) : Prop := mk_adopted {
  ad_live : live r' = live r ∖ D;
  ad_gone : forall x, x ∈ D <-> exists c, c ∈ l /\ rejects (pool r) k d c /\ below (pool r) c x;
  ad_keeps : keeps (pool r) (pool r') (live r');
  ad_maps : ancestry r' = ancestry r /\ frontier r' = frontier r /\ out r' = out r /\ fec_max r' = fec_max r;
  ad_done : forall c dc, c ∈ l -> c ∈ subtrees r' -> dat (pool r') c = Some dc -> cmr dc <> k;
  ad_sub : subtrees r' ⊆ subtrees r;
  ad_par : forall x, x ∈ live r' -> par (pool r) x <> None -> par (pool r') x = par (pool r) x;
  ad_dead : forall x, x ∉ live r -> strip <$> pool r' !! x = strip <$> pool r !! x;
}.

Lemma rejects_keeps P Q W k d c : keeps P Q W -> c ∈ W -> rejects P k d c <-> rejects Q k d c.
Proof. intros K Hc. unfold rejects. by rewrite (keeps_dat _ _ _ _ K Hc). Qed.

Lemma keeps_sub P Q W W' : keeps P Q W -> W' ⊆ W -> keeps P Q W'.
Proof. intros [H1 H2] H. split; intros x Hx; [by apply H1, H|by apply H2, H]. Qed.

(** ** The links of the list *)

Lemma list_filter_iff' (P Q : Z -> Prop) `{!forall x, Decision (P x), !forall x, Decision (Q x)} (l : list Z) : (forall x, x ∈ l -> P x <-> Q x) -> filter P l = filter Q l.
Proof.
  induction l as [|x l IH]; intros Hl; [done|]. rewrite !filter_cons. rewrite IH by (intros y Hy; apply Hl; by right). specialize (Hl x ltac:(by left)). destruct (decide (P x)), (decide (Q x)); tauto.
Qed.

Lemma filter_ne_middle (kept l : list Z) c : c ∉ kept -> c ∉ l -> filter (.≠ c) (kept ++ c :: l) = kept ++ l.
Proof.
  assert (Hall : forall m : list Z, c ∉ m -> filter (.≠ c) m = m).
  { induction m as [|x m IH]; intros Hm; [done|]. rewrite not_elem_of_cons in Hm. destruct Hm as [Hx Hm]. by rewrite filter_cons_True, IH. }
  intros H1 H2. rewrite filter_app, filter_cons_False by (by intros []). by rewrite !Hall.
Qed.

Lemma filter_notin_self (l : list Z) : filter (.∉ l) l = [].
Proof.
  assert (H : forall m, (forall x, x ∈ m -> x ∈ l) -> filter (.∉ l) m = []); [|by apply H].
  induction m as [|x m IH]; intros Hm; [done|]. rewrite filter_cons_False; [apply IH; intros y Hy; apply Hm; by right|]. intros Hx. apply Hx, Hm. by left.
Qed.

(** [N] holds the links of the list [l], and of elements that left it. *)
Definition linked_as (N : dlinks) (l : list Z) : Prop := forall l1 c l2, l = l1 ++ c :: l2 -> N !! c = Some (last l1, head l2).

Lemma links_of_ok l : forall prev l0, NoDup (l0 ++ l) -> prev = last l0 -> forall l1 c l2, l = l1 ++ c :: l2 -> links_of prev l !! c = Some (last (l0 ++ l1), head l2).
Proof.
  induction l as [|x l IH]; intros prev l0 Hn Hp l1 c l2 E; [by destruct l1|]. cbn [links_of]. destruct l1 as [|y l1]; simplify_eq/=; [by rewrite lookup_insert_eq, app_nil_r|].
  rewrite (cons_middle y), app_assoc in Hn. rewrite lookup_insert_ne.
  - rewrite (IH (Some y) (l0 ++ [y]) Hn) with (l1 := l1) (l2 := l2); [|by rewrite last_snoc|done]. by rewrite <- app_assoc.
  - intros ->. apply NoDup_app in Hn as (_ & Hn & _). apply (Hn c); [apply elem_of_app; right; by left|]. apply elem_of_app. right. by left.
Qed.

Lemma links_of_list l : NoDup l -> linked_as (links_of None l) l.
Proof. intros Hn l1 c l2 E. by rewrite (links_of_ok l None [] Hn eq_refl l1 c l2 E). Qed.

(** Taking an element out: its own links stay. *)
Lemma subtreel_remove_ok l1 c l2 N : linked_as N (l1 ++ c :: l2) -> NoDup (l1 ++ c :: l2) ->
  exists N', subtreel_ele_remove c N = Ok N' /\ linked_as N' (l1 ++ l2) /\ N' !! c = Some (last l1, head l2).
Proof.
  intros HN Hn.
  assert (Hp : forall p, last l1 = Some p -> exists m, l1 = m ++ [p] /\ N !! p = Some (last m, Some c)).
  { intros p Hp. destruct l1 as [|q m _] using rev_ind; [done|]. rewrite last_snoc in Hp. simplify_eq. exists m. split; [done|]. apply (HN m p (c :: l2)). by rewrite <- app_assoc. }
  assert (Hq : forall n, head l2 = Some n -> exists t, l2 = n :: t /\ N !! n = Some (Some c, head t)).
  { intros n Hq. destruct l2 as [|q t]; simplify_eq/=. exists t. split; [done|]. rewrite (HN (l1 ++ [c]) n t) by (by rewrite <- app_assoc). by rewrite last_snoc. }
  assert (Hd : forall x, x ∈ l1 -> x ∉ l2 /\ x <> c).
  { intros x Hx. apply NoDup_app in Hn as (_ & Hn & _). specialize (Hn x Hx). rewrite not_elem_of_cons in Hn. tauto. }
  assert (Hc2 : c ∉ l2) by (apply NoDup_app in Hn as (_ & _ & Hn); by apply NoDup_cons in Hn as [? _]).
  set (N' := fun x => if decide (head l2 = Some x) then Some (last l1, default None (snd <$> N !! x)) else if decide (last l1 = Some x) then Some (default None (fst <$> N !! x), head l2) else N !! x).
  assert (HR : exists R, subtreel_ele_remove c N = Ok R /\ forall x, R !! x = N' x).
  { unfold subtreel_ele_remove, get_links. rewrite (HN l1 c l2 eq_refl). cbn [mbind res_bind fst snd]. unfold N'. destruct (last l1) as [p|] eqn:El, (head l2) as [n|] eqn:Eh; cbn [mbind res_bind].
    - destruct (Hp p eq_refl) as (m & -> & Ep), (Hq n eq_refl) as (t & -> & En). destruct (Hd p) as [Hpn _]; [apply elem_of_app; right; by left|]. rewrite not_elem_of_cons in Hpn. rewrite Ep. cbn [mbind res_bind fst snd].
      rewrite lookup_insert_ne by tauto. rewrite En. cbn [mbind res_bind fst snd]. eexists. split; [done|]. intros x. rewrite !lookup_insert. repeat case_decide; simplify_eq; rewrite ?En, ?Ep; done.
    - destruct (Hp p eq_refl) as (m & -> & Ep). rewrite Ep. cbn [mbind res_bind fst snd]. eexists. split; [done|]. intros x. rewrite lookup_insert. repeat case_decide; simplify_eq; rewrite ?Ep; done.
    - destruct (Hq n eq_refl) as (t & -> & En). rewrite En. cbn [mbind res_bind fst snd]. eexists. split; [done|]. intros x. rewrite lookup_insert. repeat case_decide; simplify_eq; rewrite ?En; done.
    - eexists. split; [done|]. intros x. repeat case_decide; done. }
  destruct HR as (R & -> & HR). exists R. split; [done|]. split.
  - intros a x b E. rewrite HR. unfold N'. apply app_eq_app in E as (t & [[-> E]|[-> E]]).
    + destruct t as [|y t]; cbn in E; [subst l2|injection E as <- ->]; cbn [head].
      * rewrite decide_True by done. rewrite app_nil_r in *. rewrite (HN (a ++ [c]) x b) by (by rewrite <- app_assoc). done.
      * assert (Hx : x ∉ l2) by (apply Hd, elem_of_app; right; by left). rewrite decide_False by (intros Hh; destruct l2 as [|w l2]; [done|]; cbn in Hh; injection Hh as ->; apply Hx; by left). rewrite (HN a x (t ++ c :: l2)) by (by rewrite <- app_assoc).
        destruct t as [|z t]; [rewrite last_snoc, decide_True by done; done|]. destruct (decide _) as [Hl|]; [|done]. exfalso. rewrite last_app in Hl.
        change (last (x :: z :: t)) with (last (z :: t)) in Hl. destruct (last (z :: t)) as [w|] eqn:Ez; [|by apply last_None in Ez]. injection Hl as ->. apply last_Some_elem_of in Ez.
        apply NoDup_app in Hn as (Hn & _). apply NoDup_app in Hn as (_ & _ & Hn). by apply NoDup_cons in Hn as [Hn _].
    + destruct t as [|y t]; cbn in E; subst l2; cbn [head].
      * rewrite decide_True by done. rewrite app_nil_r. rewrite (HN (l1 ++ [c]) x b) by (by rewrite <- app_assoc). done.
      * assert (Hx : x ∉ l1) by (intros Hx; apply Hd in Hx as [Hx _]; apply Hx; right; apply elem_of_app; right; by left). rewrite decide_False; [rewrite decide_False|].
        -- rewrite (HN (l1 ++ c :: y :: t) x b) by (by rewrite <- app_assoc). f_equal. f_equal. rewrite cons_middle, app_assoc, !last_app. by destruct (last (y :: t)) eqn:El; [|apply last_None in El].
        -- intros Hl%last_Some_elem_of. done.
        -- intros [= ->]. apply NoDup_app in Hn as (_ & _ & Hn). apply NoDup_cons in Hn as [_ Hn]. apply NoDup_cons in Hn as [Hn _]. apply Hn, elem_of_app. right. by left.
  - rewrite HR. unfold N'. rewrite decide_False, decide_False; [by apply HN| |].
    + intros Hl%last_Some_elem_of. by apply Hd in Hl as [_ ?].
    + intros Hh. destruct l2; simplify_eq/=. apply Hc2. by left.
Qed.

Lemma relink_left kept c l N r r' : linked_as N (kept ++ c :: l) -> subtreel r = kept ++ c :: l -> NoDup (kept ++ c :: l) -> subtreel r' = filter (.≠ c) (subtreel r) ->
  exists N', relink (filter (.∉ subtreel r') (subtreel r)) N = Ok N' /\ linked_as N' (kept ++ l) /\ N' !! c = Some (last kept, head l).
Proof.
  intros HN Hs Hn Hs'. destruct (subtreel_remove_ok kept c l N HN Hn) as (N' & E & H1 & H2). exists N'. split; [|done].
  assert (Hf : filter (.∉ subtreel r') (subtreel r) = [c]).
  { rewrite Hs', Hs. apply NoDup_app in Hn as (_ & Hn2 & Hn3). apply NoDup_cons in Hn3 as [Hc _]. transitivity (filter (.= c) (kept ++ c :: l)).
    - apply list_filter_iff'. intros x Hx. rewrite list_elem_of_filter. destruct (decide (x = c)); tauto.
    - assert (Hno : forall m : list Z, c ∉ m -> filter (.= c) m = []).
      { induction m as [|x m IH]; intros Hm; [done|]. rewrite not_elem_of_cons in Hm. rewrite filter_cons_False by (intros ->; tauto). tauto. }
      rewrite filter_app, filter_cons_True by done. rewrite !Hno; [done|done|]. intros Hk. apply (Hn2 c Hk). by left. }
  rewrite Hf. cbn [relink]. by rewrite E.
Qed.

(** ** Linking one orphan *)

Section adopt.
Context (rt k : Z) (d : fec_data) (dead : gset Z) (opt_store : bool).

Definition linked (c : Z) (P : fecs) (r : fd_reasm_t) : fd_reasm_t :=
  mk_reasm (fec_max r) (slot0 r) (root r) P (ancestry r) (frontier r) ({[c]} ∪ orphaned r) (subtrees r ∖ {[c]}) (filter (.≠ c) (subtreel r)) (out r) (xid r) (removed r).

Lemma same_rest_strip_out P Q x : same_rest P Q -> (data <$> P !! x = data <$> Q !! x) /\ (in_out <$> P !! x = in_out <$> Q !! x) /\ (xid_next <$> P !! x = xid_next <$> Q !! x) /\ xkey P x = xkey Q x.
Proof using Type. intros H. specialize (H x). unfold xkey. destruct (P !! x), (Q !! x); cbn in *; try done. unfold rest in H. split_and!; congruence. Qed.

Lemma linked_state r c ec P : state_ok r rt (Some k) -> k ∈ live r -> k <> rt -> c ∈ subtrees r -> pool r !! c = Some ec -> k = cmr (data ec) -> dat (pool r) k = Some d ->
  validate_chained_block_id d (data ec) = true -> links P (live r) -> same_rest (pool r) P -> kids P k = kids (pool r) k ++ [c] -> (forall x, x ∈ live r -> x <> k -> kids P x = kids (pool r) x) ->
  (forall x, par P x = if decide (x = c) then Some k else par (pool r) x) -> state_ok (linked c P r) rt (Some k) /\ live (linked c P r) = live r.
Proof using Type.
  intros St Hk Hkr Hc Ec Hcm Hdk Hv L' Hr Hkk Hkids Hpar. pose proof (so_links _ _ _ St) as L. destruct (maps_disjoint _ _ _ St) as (D1 & D2 & D3). destruct (so_root _ _ _ St) as (R1 & R2 & R3).
  apply (so_sub _ _ _ St) in Hc as Hc'. destruct Hc' as (Hcl & Hcn & Hcp). assert (Hcr : c <> rt) by (intros ->; apply Hcn; constructor).
  assert (Hl : live (linked c P r) = live r).
  { apply set_eq. intros x. unfold live, linked. cbn. rewrite !elem_of_union, elem_of_difference, elem_of_singleton. destruct (decide (x = c)) as [->|]; tauto. }
  assert (Hdat : forall x, dat P x = dat (pool r) x) by (intros x; by destruct (same_rest_strip_out _ _ x Hr)).
  assert (Hcon : forall x, connx P rt (Some k) x <-> connx (pool r) rt (Some k) x).
  { intros x. split; intros H; induction H as [|y p Ep Hp H IH]; try constructor; rewrite Hpar in Ep || idtac.
    - destruct (decide (y = c)) as [->|]; [congruence|]. by apply (connx_step _ _ _ y p).
    - apply (connx_step _ _ _ y p); try done. rewrite Hpar. destruct (decide (y = c)) as [->|]; [congruence|done]. }
  assert (Hkid : forall x, x ∈ live r -> x <> k -> kids P x = [] <-> kids (pool r) x = []) by (intros x Hx Hxk; by rewrite Hkids).
  split; [|done]. split; rewrite ?Hl; cbn [linked pool root ancestry frontier orphaned subtrees subtreel out]; try done.
  - split_and!; try done. rewrite Hpar. by destruct (decide (rt = c)) as [->|].
  - intros d'. rewrite Hdat. apply (so_complete _ _ _ St).
  - intros x d' Hx. rewrite Hdat. by apply (so_data _ _ _ St).
  - intros x d' p dp Hx Ep. rewrite !Hdat. rewrite Hpar in Ep. destruct (decide (x = c)) as [->|]; [|by apply (so_par _ _ _ St)]. injection Ep as <-. rewrite (dat_lookup _ _ _ Ec), Hdk.
    intros [= <-] [= <-]. done.
  - intros x d' Hx Hxr Ep. rewrite Hdat. rewrite Hpar in Ep. destruct (decide (x = c)); [done|]. by apply (so_miss _ _ _ St).
  - intros x. rewrite (so_anc _ _ _ St), Hcon. split; intros (H1 & H2 & H3 & H4); (split_and!; try done); by rewrite (Hkid x) in * by congruence.
  - intros x. rewrite (so_fro _ _ _ St), Hcon. split; intros (H1 & H2 & H3); (split_and!; try done); (destruct (decide (x = k)) as [->|]; [by left|]); (destruct H3 as [?|H3]; [by left|right]); by apply (Hkid x).
  - intros x. rewrite elem_of_union, elem_of_singleton, (so_orp _ _ _ St), Hcon, Hpar. destruct (decide (x = c)) as [->|Hx]; [|tauto]. split; [by intros _|by left].
  - intros x. rewrite elem_of_difference, elem_of_singleton, (so_sub _ _ _ St), Hcon, Hpar. destruct (decide (x = c)) as [->|Hx]; [|tauto]. naive_solver.
  - destruct (so_subl _ _ _ St) as [Hn Hi]. split; [by apply NoDup_filter|]. intros x. rewrite list_elem_of_filter, Hi, elem_of_difference, elem_of_singleton. tauto.
  - destruct (so_out _ _ _ St) as [Hn Ho]. split; [done|]. intros x Hx. rewrite Hcon. by apply Ho.
  - intros x e Hx E. destruct (same_rest_strip_out _ _ x Hr) as (_ & Hio & _). rewrite E in Hio. destruct (pool r !! x) as [e'|] eqn:E'; [|done]. cbn in Hio. injection Hio as <-. by apply (so_in_out _ _ _ St).
Qed.

(** ** One step of the loop *)

Definition pending (r : fd_reasm_t) (l : list Z) : Prop := forall c, c ∈ l -> c ∈ subtrees r /\ forall dc, dat (pool r) c = Some dc -> cmr dc = k -> ~ below (pool r) c k.

(** Orphans that are not looked at yet keep what is below them. *)
Definition undisturbed (r r1 : fd_reasm_t) (l : list Z) : Prop := forall c, c ∈ l -> c ∈ subtrees r1 /\ dat (pool r1) c = dat (pool r) c /\
  forall dc, dat (pool r) c = Some dc -> cmr dc = k -> forall x, below (pool r) c x <-> below (pool r1) c x.

Lemma pending_undisturbed r r1 c l : pending r (c :: l) -> undisturbed r r1 l -> pending r1 l.
Proof using Type.
  intros Hp Hu x Hx. destruct (Hu x Hx) as (H1 & H2 & H3). split; [done|]. intros dc Ed Ek. rewrite H2 in Ed. rewrite <- (H3 dc Ed Ek). destruct (Hp x) as [_ H]; [by right|]. by apply (H dc).
Qed.

Lemma adopted_cons r r1 r2 c l D1 D2 : undisturbed r r1 l -> adopted k d [c] r r1 D1 -> adopted k d l r1 r2 D2 -> adopted k d (c :: l) r r2 (D1 ∪ D2).
Proof using Type.
  intros Hu [A1 A2 A3 (A4 & A5 & A6 & A7) A8 A9 A10 A11] [B1 B2 B3 (B4 & B5 & B6 & B7) B8 B9 B10 B11].
  assert (Hs : live r2 ⊆ live r1) by (rewrite B1; set_solver). split.
  - rewrite B1, A1. set_solver.
  - intros x. rewrite elem_of_union, A2, B2. split.
    + intros [(y & ->%list_elem_of_singleton & H1 & H2)|(y & Hy & (dc & H1 & H2 & H3) & H4)]; [exists c; split_and!; [by left|done|done]|]. exists y. destruct (Hu y Hy) as (_ & U2 & U3). rewrite U2 in H1.
      split; [by right|]. split; [by exists dc|]. by apply (U3 dc).
    + intros (y & [->|Hy]%elem_of_cons & (dc & H1 & H2 & H3) & H4); [left; exists c; split_and!; [by left|by exists dc|done]|right]. exists y. destruct (Hu y Hy) as (_ & U2 & U3).
      split; [done|]. split; [exists dc; by rewrite U2|]. by apply (U3 dc).
  - apply (keeps_trans _ (pool r1)); [|done]. by apply (keeps_sub _ _ (live r1)).
  - split_and!; congruence.
  - intros y dc [->|Hy]%elem_of_cons Hs2 Ed; [|by apply (B8 y)]. assert (Hy : c ∈ live r2) by (unfold live; set_solver). apply (A8 c); [by left|by apply B9|]. by rewrite (keeps_dat _ _ _ _ B3 Hy).
  - set_solver.
  - intros x Hx Hp. assert (Hx1 : x ∈ live r1) by (by apply Hs). rewrite B10; [by apply A10|done|]. by rewrite A10.
  - intros x Hx. rewrite B11, A11; [done|done|]. rewrite A1. set_solver.
Qed.

Lemma new_data r : ins_ok rt k d dead r -> dat (pool r) k = Some d.
Proof using Type. intros I. destruct (io_new _ _ _ _ _ I) as (e & E & <- & _). by apply dat_lookup. Qed.

Lemma live_refl_keeps r ex : state_ok r rt ex -> keeps (pool r) (pool r) (live r).
Proof using Type. intros St. split; [intros x Hx; by apply (lk_in _ _ (so_links _ _ _ St))|done]. Qed.

Lemma adopt_skip r c dc : ins_ok rt k d dead r -> dat (pool r) c = Some dc -> cmr dc <> k -> adopted k d [c] r r ∅.
Proof using Type.
  intros I Ed Hne. split; try done.
  - set_solver.
  - intros x. split; [set_solver|]. intros (y & ->%list_elem_of_singleton & (dc' & E & Ek & _) & _). congruence.
  - apply (live_refl_keeps r (Some k)), I.
  - intros y dc' ->%list_elem_of_singleton _ E. congruence.
Qed.

Context (Hd : data_ok d).

Lemma adopt_link r c ec l : ins_ok rt k d dead r -> pending r (c :: l) -> NoDup (c :: l) -> pool r !! c = Some ec -> k = cmr (data ec) -> validate_chained_block_id d (data ec) = true ->
  exists P, link k c (pool r) = Ok P /\ map_insert c (orphaned r) = Ok ({[c]} ∪ orphaned r) /\ list_remove c (subtreel r) = Ok (filter (.≠ c) (subtreel r)) /\
    ins_ok rt k d dead (linked c P r) /\ adopted k d [c] r (linked c P r) ∅ /\ undisturbed r (linked c P r) l.
Proof using Hd.
  intros I Hp Hnd Ec Hcm Hv. pose proof (io_state _ _ _ _ _ I) as St. pose proof (so_links _ _ _ St) as L. destruct (io_in _ _ _ _ _ I) as [Hk Hkr]. pose proof (new_data r I) as Hdk.
  destruct (Hp c ltac:(by left)) as [Hc Hcb]. apply (so_sub _ _ _ St) in Hc as Hc'. destruct Hc' as (Hcl & Hcn & Hcp). destruct (maps_disjoint _ _ _ St) as (_ & _ & D3).
  pose proof (dat_lookup _ _ _ Ec) as Edc. assert (Hck : c <> k) by (intros ->; apply (Hcb (data ec) Edc); [done|apply fec_below_refl]).
  destruct (io_new _ _ _ _ _ I) as (ek & Ek & Hdd & Hq & Hcf & Hpop).
  destruct (fec_link_ok (pool r) (live r) k c L Hcl Hk Hcp) as (P & E & L' & Hr & Hkk & Hkids & Hpar & Hout).
  { unfold rk. rewrite Ek, Ec. cbn. rewrite Hdd. apply validate_rank; [done|by apply (so_data _ _ _ St c)|done]. }
  exists P. split; [done|]. split; [apply fec_map_insert_ok; intros ?; by apply (D3 c)|]. split; [apply list_remove_ok; by apply (so_subl _ _ _ St)|].
  destruct (linked_state r c ec P) as [St' Hl]; try done. set (r1 := linked c P r) in *.
  assert (Hlk : forall x e, P !! x = Some e -> exists e', pool r !! x = Some e' /\ eqvoc e' = eqvoc e /\ confirmed e' = confirmed e).
  { intros x e Ex. specialize (Hr x). rewrite Ex in Hr. destruct (pool r !! x) as [e'|]; [|done]. exists e'. cbn in Hr. unfold rest in Hr. split_and!; congruence. }
  split; [|split].
  - split; rewrite ?Hl; change (pool r1) with P; try done.
    + apply (xid_wf_ext (pool r)); [|apply I]. intros x _. by destruct (same_rest_strip_out _ _ x Hr) as (? & _ & ? & _).
    + intros j i e Hj Hi Hne Hx Ej. destruct (Hlk j e Ej) as (e' & Ej' & <- & _). apply (io_same _ _ _ _ _ I j i e'); try done.
      destruct (same_rest_strip_out _ _ j Hr) as (_ & _ & _ & ->). by destruct (same_rest_strip_out _ _ i Hr) as (_ & _ & _ & ->).
    + intros x p e ep Hx Hxk Ep Ex Ep2 Hqp Hcp'. rewrite Hpar in Ep. destruct (Hlk x e Ex) as (e' & Ex' & <- & _). destruct (Hlk p ep Ep2) as (ep' & Ep' & Hq' & Hc').
      destruct (decide (x = c)) as [->|Hxc]; [injection Ep as <-; congruence|]. apply (io_below _ _ _ _ _ I x p e' ep'); try done; congruence.
    + destruct (same_rest_lookup _ _ _ _ Hr Ek) as (e' & E' & Hre). exists e'. unfold rest in Hre. split_and!; try done; congruence.
    + destruct (io_cap _ _ _ _ _ I). split; [done|]. cbn. by rewrite <- (same_rest_size _ _ Hr).
    + rewrite <- (same_rest_dom _ _ Hr). apply I.
    + apply I.
  - split; rewrite ?Hl; try done.
    + set_solver.
    + intros x. split; [set_solver|]. intros (y & ->%list_elem_of_singleton & (dc & E' & _ & Hv') & _). congruence.
    + by apply (same_rest_keeps _ _ (live r)).
    + intros y dc ->%list_elem_of_singleton Hy. cbn in Hy. set_solver.
    + cbn. set_solver.
    + intros x Hx Hpx. change (pool r1) with P. rewrite Hpar. destruct (decide (x = c)) as [->|]; [congruence|done].
    + intros x Hx. change (pool r1) with P. by rewrite Hout.
  - intros y Hy. assert (Hyc : y <> c) by (apply NoDup_cons in Hnd as [? _]; by intros ->). destruct (Hp y ltac:(by right)) as [Hys Hyb]. split; [cbn; set_solver|].
    destruct (same_rest_strip_out _ _ y Hr) as (Hdy & _). split; [symmetry; exact Hdy|]. intros dc Ed Ek' x. change (pool r1) with P. apply below_ext. intros z Hz.
    apply (so_sub _ _ _ St) in Hys as (Hyl & _). apply Hkids; [by apply (below_in _ _ L y)|]. intros ->. by apply (Hyb dc Ed Ek').
Qed.
Lemma adopt_reject r c ec l : ins_ok rt k d dead r -> pending r (c :: l) -> NoDup (c :: l) -> pool r !! c = Some ec -> k = cmr (data ec) -> validate_chained_block_id d (data ec) = false ->
  exists r1 D, subtrees_remove opt_store c r = Ok r1 /\ ins_ok rt k d dead r1 /\ adopted k d [c] r r1 D /\ undisturbed r r1 l /\ subtreel r1 = filter (.≠ c) (subtreel r).
Proof using All.
  intros I Hp Hnd Ec Hcm Hv. pose proof (io_state _ _ _ _ _ I) as St. pose proof (so_links _ _ _ St) as L. destruct (io_in _ _ _ _ _ I) as [Hk Hkr].
  destruct (Hp c ltac:(by left)) as [Hc Hcb]. specialize (Hcb _ (dat_lookup _ _ _ Ec) (eq_sym Hcm)). apply (so_sub _ _ _ St) in Hc as Hc'. destruct Hc' as (Hcl & Hcn & Hcp).
  assert (Hbk : forall x, below (pool r) c x -> x <> k) by (intros x Hb ->; done). assert (Hbl : forall x, below (pool r) c x -> x ∈ live r) by (intros x; by apply (below_in _ _ L)).
  assert (HU : forall x, below (pool r) c x -> x ∈ live r ∖ {[k]}) by (intros x Hb; apply elem_of_difference; split; [by apply Hbl|rewrite elem_of_singleton; by apply Hbk]).
  assert (HUl : live r ∖ {[k]} ⊆ live r) by (clear; set_solver). assert (Hex : forall x, below (pool r) c x -> Some x <> Some k) by (intros x Hb [= Hx]; by apply (Hbk x)).
  pose proof (io_cap _ _ _ _ _ I) as Hcap.
  destruct (subtrees_remove_ok r rt (Some k) (live r ∖ {[k]}) opt_store c St (io_xid _ _ _ _ _ I) HU HUl Hc Hex Hcap) as (D & P & X & rm & E & HDn & HD & Hg & Hxw).
  destruct (subtrees_remove_state r rt (Some k) (live r ∖ {[k]}) opt_store c St (io_xid _ _ _ _ _ I) HU HUl Hc Hex Hcap D P X rm HD Hg) as (St' & Hl & Hkids & Hpar & K).
  set (r1 := without D P X rm r) in *. assert (Hls : live r1 ⊆ live r) by (rewrite Hl; clear; set_solver).
  assert (Hkl : k ∈ live r1) by (rewrite Hl, elem_of_difference, elem_of_list_to_set, HD; done).
  assert (Hsubl : subtreel r1 = filter (.≠ c) (subtreel r)).
  { cbn. apply list_filter_iff'. intros x Hx. apply (so_subl _ _ _ St) in Hx. rewrite HD. apply (so_sub _ _ _ St) in Hx as (Hxl & _ & Hxp). split; [intros Hb ->; apply Hb, fec_below_refl|].
    intros Hxc Hb. destruct Hb as [z Hz|q z Hq Hz]; [by apply list_elem_of_singleton in Hz|]. apply (kids_iff _ _ L) in Hz as [_ Hz]; [congruence|by apply Hbl]. }
  exists r1, (list_to_set D). split; [done|]. split; [|split; [|split; [|exact Hsubl]]].
  - split; try done.
    + rewrite Hl. replace ((live r ∖ list_to_set D) ∖ {[k]}) with ((live r ∖ {[k]}) ∖ list_to_set D) by (clear; set_solver). done.
    + intros j i e Hj Hi Hne Hx Ej. assert (Hjl : j ∈ live r1) by (clear -Hj; set_solver). assert (Hil : i ∈ live r1) by (clear -Hi; set_solver). destruct (keeps_lookup _ _ _ _ _ K Hjl Ej) as (e' & Ej' & _ & _ & <- & _).
      assert (Hxk : forall y, y ∈ live r1 -> xkey P y = xkey (pool r) y).
      { intros y Hy. pose proof (keeps_dat _ _ _ _ K Hy) as Hd'. unfold dat in Hd'. unfold xkey. destruct (P !! y), (pool r !! y); cbn in *; try done. congruence. }
      change (pool r1) with P in Hx. rewrite !Hxk in Hx by done. apply (io_same _ _ _ _ _ I j i e'); try done; [clear -Hj Hls; set_solver|clear -Hi Hls; set_solver].
    + intros x p e ep Hx Hxk Ep Ex Ep2 Hq Hcf. change (pool r1) with P in *. destruct (lk_par _ _ (so_links _ _ _ St') x p Hx Ep) as [Hpl _]. rewrite Hpar in Ep by done.
      destruct (keeps_lookup _ _ _ _ _ K Hx Ex) as (e' & Ex' & _ & _ & <- & _). destruct (keeps_lookup _ _ _ _ _ K Hpl Ep2) as (ep' & Ep' & _ & _ & Hq' & Hc' & _).
      apply (io_below _ _ _ _ _ I x p e' ep'); try done; [by apply Hls|congruence..].
    + destruct (io_new _ _ _ _ _ I) as (e & Ek & Hdd & Hq & Hcf & Hpop). destruct (gone_lookup _ _ _ _ _ Hg Ek) as (e' & E' & Hst); [rewrite HD; done|].
      destruct (strip_fields _ _ Hst) as (? & _ & _ & _ & ? & ? & ? & _). exists e'. split_and!; try done; congruence.
    + destruct Hcap as [C1 C2]. split; [done|]. cbn. rewrite <- (size_dom (D := gset Z) P), (gone_dom _ _ _ Hg). pose proof (subseteq_size (dom (pool r) ∖ list_to_set D) (dom (pool r)) ltac:(clear; set_solver)).
      rewrite size_dom in *. lia.
    + change (pool r1) with P. rewrite (gone_dom _ _ _ Hg), (io_pool _ _ _ _ _ I), Hl. pose proof (io_dead _ _ _ _ _ I) as Hdd. apply set_eq. intros x.
      rewrite elem_of_union, !elem_of_difference, elem_of_union, elem_of_list_to_set. split; [tauto|]. intros [?|Hx]; [tauto|]. split; [by right|]. rewrite HD. intros Hb%Hbl. by apply (Hdd x).
    + pose proof (io_dead _ _ _ _ _ I) as Hdd. clear -Hdd Hls. set_solver.
  - split; try done.
    + intros x. rewrite elem_of_list_to_set, HD. split.
      * intros Hb. exists c. split; [by left|]. split; [|done]. exists (data ec). split; [by apply dat_lookup|done].
      * intros (y & ->%list_elem_of_singleton & _ & ?). done.
    + intros y dc ->%list_elem_of_singleton Hy. cbn in Hy. rewrite elem_of_difference, elem_of_list_to_set, HD in Hy. destruct Hy as [_ Hy]. destruct Hy. apply fec_below_refl.
    + cbn. clear. set_solver.
    + intros x Hx _. by apply Hpar.
    + intros x Hx. change (pool r1) with P. rewrite (Hg x), decide_False; [done|]. rewrite HD. intros Hb%Hbl. done.
  - intros y Hy. assert (Hyc : y <> c) by (apply NoDup_cons in Hnd as [? _]; by intros ->). destruct (Hp y ltac:(by right)) as [Hys Hyb]. apply (so_sub _ _ _ St) in Hys as Hys'. destruct Hys' as (Hyl & Hyn & Hyp).
    assert (Hroots : forall z, below (pool r) y z -> z ∉ D).
    { intros z Hz. induction Hz as [z ->%list_elem_of_singleton|p z Hz IH Hzk].
      - rewrite HD. intros Hb. destruct Hb as [z Hz|q z Hq Hz]; [by apply list_elem_of_singleton in Hz|]. apply (kids_iff _ _ L) in Hz as [_ Hz]; [congruence|by apply Hbl].
      - assert (Hpl : p ∈ live r) by (by apply (below_in _ _ L y)). apply (kids_iff _ _ L) in Hzk as [Hzl Ezp]; [|done]. rewrite HD in *. intros Hb. apply IH. apply (below_par _ _ L c z p); try done. congruence. }
    assert (Hyd : y ∉ D) by (apply Hroots, fec_below_refl).
    assert (Hyl1 : y ∈ live r1) by (rewrite Hl, elem_of_difference, elem_of_list_to_set; done).
    split; [cbn; rewrite elem_of_difference, elem_of_list_to_set; done|]. split; [symmetry; by apply (keeps_dat _ _ _ _ K)|].
    intros dc Ed Ek x. change (pool r1) with P. apply below_ext. intros z Hz. apply Hkids. rewrite Hl, elem_of_difference, elem_of_list_to_set. split; [by apply (below_in _ _ L y)|by apply Hroots].
Qed.

(** ** The loop *)

Lemma adopt_ok l : forall n kept N r, ins_ok rt k d dead r -> pending r l -> subtreel r = kept ++ l -> linked_as N (kept ++ l) -> (length l < n)%nat ->
  exists r' D, adopt n opt_store k N (head l) r = Ok r' /\ ins_ok rt k d dead r' /\ adopted k d l r r' D.
Proof using Hd.
  induction l as [|c l IH]; intros n kept N r I Hp Hsl HN Hlen; (destruct n as [|n]; [lia|]).
  - exists r, ∅. split; [done|]. split; [done|]. split; try done; [set_solver|intros x; split; [set_solver|]; by intros (c & ?%not_elem_of_nil & _)|apply (live_refl_keeps r (Some k)), I|by intros c dc ?%not_elem_of_nil].
  - destruct (Hp c ltac:(by left)) as [Hc _]. pose proof (io_state _ _ _ _ _ I) as St. pose proof (so_links _ _ _ St) as L. apply (so_sub _ _ _ St) in Hc as Hc'. destruct Hc' as (Hcl & _).
    pose proof (proj1 (so_subl _ _ _ St)) as Hnd. rewrite Hsl in Hnd. pose proof (proj1 (proj2 (proj1 (NoDup_app kept (c :: l)) Hnd))) as Hmid. pose proof (proj2 (proj2 (proj1 (NoDup_app kept (c :: l)) Hnd))) as Hn.
    assert (Hck : c ∉ kept) by (intros Hin; apply (Hmid c Hin); by left). pose proof (proj1 (proj1 (NoDup_cons c l) Hn)) as Hcl'.
    assert (Hfil : filter (.≠ c) (subtreel r) = kept ++ l) by (rewrite Hsl; by apply filter_ne_middle). cbn in Hlen.
    destruct (lk_in _ _ L c Hcl) as [ec Ec]. destruct (io_new _ _ _ _ _ I) as (ek & Ek & Hdd & _). cbn [adopt head]. rewrite (get_ok _ _ _ Ek), (get_ok _ _ _ Ec). cbn [mbind res_bind]. rewrite Hdd.
    destruct (Z.eqb_spec k (cmr (data ec))) as [Hkc|Hkc]; cbn [negb].
    + destruct (validate_chained_block_id d (data ec)) eqn:Ev; cbn [negb].
      * destruct (adopt_link r c ec l I Hp Hn Ec Hkc Ev) as (P & -> & -> & -> & I1 & A1 & U1). cbn [mbind res_bind].
        change (with_orphaned _ _) with (linked c P r). destruct (relink_left kept c l N r (linked c P r) HN Hsl Hnd) as (N' & -> & HN' & Ec'); [by cbn|]. cbn [mbind res_bind]. unfold get_links. rewrite Ec'. cbn [mbind res_bind snd].
        destruct (IH n kept N' _ I1 (pending_undisturbed _ _ _ _ Hp U1)) as (r' & D & E & I' & A'); [done|done|lia|]. exists r', (∅ ∪ D). split_and!; try done. by apply (adopted_cons r (linked c P r)).
      * destruct (adopt_reject r c ec l I Hp Hn Ec Hkc Ev) as (r1 & D1 & -> & I1 & A1 & U1 & Hs1). cbn [mbind res_bind]. destruct (relink_left kept c l N r r1 HN Hsl Hnd) as (N' & -> & HN' & Ec'); [done|]. cbn [mbind res_bind]. unfold get_links. rewrite Ec'. cbn [mbind res_bind snd].
        destruct (IH n kept N' _ I1 (pending_undisturbed _ _ _ _ Hp U1)) as (r' & D & E & I' & A'); [congruence|done|lia|]. exists r', (D1 ∪ D). split_and!; try done. by apply (adopted_cons r r1).
    + assert (U1 : undisturbed r r l) by (intros y Hy; split; [by apply Hp; right|done]). cbn [mbind res_bind]. rewrite filter_notin_self. cbn [relink mbind res_bind]. unfold get_links. rewrite (HN kept c l eq_refl). cbn [mbind res_bind snd].
      destruct (IH n (kept ++ [c]) N r I (pending_undisturbed _ _ _ _ Hp U1)) as (r' & D & E & I' & A'); [by rewrite <- app_assoc|by rewrite <- app_assoc|lia|]. exists r', (∅ ∪ D). split_and!; try done. apply (adopted_cons r r); try done.
      apply (adopt_skip r c (data ec)); [done|by apply dat_lookup|congruence].
Qed.

End adopt.
