(* ===== verification/ReasmInsert.v ===== *)
(** * Advancing the frontier

    The third part of an insertion: when the new element is connected, the
    orphans below it move to the connected tree and to the delivery queue. *)

From S2P Require Import Prelude Bits Reasm ReasmTree ReasmInv ReasmMark ReasmPlace.

#[local] Open Scope Z_scope.

Lemma connx_none P rt ex x : par P x = None -> connx P rt ex x -> x = rt.
Proof. intros Hp Hc. inversion Hc; subst; [done|congruence]. Qed.

Definition queued (l : list Z) (P Q : fecs) : Prop := forall x, Q !! x = (if decide (x ∈ l) then set_in_out true else id) <$> P !! x.

Lemma queued_nil P : queued [] P P.
Proof. intros x. destruct (decide (x ∈ [])) as [Hx|]; [by apply not_elem_of_nil in Hx|]. by destruct (P !! x). Qed.

Lemma queued_app l1 l2 P Q R : queued l1 P Q -> queued l2 Q R -> queued (l1 ++ l2) P R.
Proof.
  intros H1 H2 x. rewrite H2, H1. destruct (P !! x); [cbn|done]. destruct (decide (x ∈ l1)), (decide (x ∈ l2)), (decide (x ∈ l1 ++ l2)) as [Hx|Hx]; try done; rewrite elem_of_app in Hx; tauto.
Qed.

Lemma queued_agree l V P Q : queued l P Q -> agree V P Q.
Proof. intros H x _. rewrite H. destruct (P !! x); cbn; [|done]. by destruct (decide (x ∈ l)). Qed.

Lemma queued_flags l P Q x : queued l P Q -> (data <$> P !! x = data <$> Q !! x) /\ (eqvoc <$> P !! x = eqvoc <$> Q !! x) /\ (confirmed <$> P !! x = confirmed <$> Q !! x) /\
  (popped <$> P !! x = popped <$> Q !! x) /\ (xid_next <$> P !! x = xid_next <$> Q !! x).
Proof. intros H. rewrite H. destruct (P !! x); cbn; [|done]. by destruct (decide (x ∈ l)). Qed.

Lemma queued_dom l P Q : queued l P Q -> dom Q = dom P.
Proof. intros H. apply set_eq. intros x. rewrite !elem_of_dom, H. destruct (P !! x); cbn; [|done]. split; intros; by eauto. Qed.

(** The state after the orphans [ks] became leaves. *)
Definition joined (ks : list Z) (P : fecs) (r : fd_reasm_t) : fd_reasm_t :=
  mk_reasm (fec_max r) (slot0 r) (root r) P (ancestry r) (list_to_set ks ∪ frontier r) (orphaned r ∖ list_to_set ks) (subtrees r) (subtreel r) (out r ++ ks) (xid r) (removed r).

Lemma connect_ok ks : forall r, NoDup ks -> (forall c, c ∈ ks -> c ∈ orphaned r /\ c ∉ frontier r /\ c ∉ out r /\ is_Some (pool r !! c)) ->
  exists P, connect ks r = Ok (joined ks P r) /\ queued ks (pool r) P.
Proof.
  induction ks as [|c ks IH]; intros r Hn H.
  - exists (pool r). split; [|apply queued_nil]. cbn [connect]. unfold joined. cbn [list_to_set]. rewrite difference_empty_L, union_empty_l_L, app_nil_r. by destruct r.
  - apply NoDup_cons in Hn as [Hc Hn]. destruct (H c ltac:(by left)) as (Ho & Hf & Hq & e & E). cbn [connect]. rewrite bool_decide_eq_true_2 by done. cbn [FD_TEST mbind res_bind].
    rewrite fec_map_insert_ok by done. cbn [mbind res_bind]. set (r1 := with_frontier _ _). unfold out_push. change (out r1) with (out r). rewrite push_tail_ok by done. cbn [mbind res_bind].
    unfold update. cbn [pool with_out]. change (pool r1) with (pool r). rewrite (upd_ok _ _ _ _ E). cbn [mbind res_bind]. set (P1 := <[c := set_in_out true e]> (pool r)).
    set (r2 := with_pool P1 (with_out (out r ++ [c]) r1)).
    destruct (IH r2 Hn) as (P & EP & HP).
    { intros y Hy. assert (Hyc : y <> c) by (by intros ->). destruct (H y ltac:(by right)) as (Y1 & Y2 & Y3 & Y4). cbn. split_and!.
      - rewrite elem_of_difference, elem_of_singleton. done.
      - rewrite elem_of_union, elem_of_singleton. by intros [?|?].
      - rewrite elem_of_app, list_elem_of_singleton. by intros [?|?].
      - unfold P1. by rewrite lookup_insert_ne. }
    exists P. split.
    + rewrite EP. unfold joined, r2, r1. cbn. rewrite <- app_assoc. cbn [app]. do 2 f_equal; clear; set_solver.
    + apply (queued_app [c] ks (pool r) P1); [|done]. intros x. unfold P1. destruct (decide (x ∈ [c])) as [->%list_elem_of_singleton|Hx]; [by rewrite lookup_insert_eq, E|].
      rewrite lookup_insert_ne by (intros ->; apply Hx; by left). by destruct (pool r !! x).
Qed.

(** Every element but the first comes after its parent. *)
Definition parents_first (k : Z) (next : Z -> list Z) (l : list Z) : Prop := forall l1 x l2, l = l1 ++ x :: l2 -> x = k \/ exists p, p ∈ l1 /\ x ∈ next p.

Lemma parents_first_snoc k next l x : parents_first k next l -> x = k \/ x ∈ l ≫= next -> parents_first k next (l ++ [x]).
Proof.
  intros H Hx l1 y l2 E. destruct l2 as [|z l2] using rev_ind.
  - apply app_inj_tail in E as [-> ->]. destruct Hx as [?|Hx]; [by left|right]. apply list_elem_of_bind in Hx as (p & ? & ?). by exists p.
  - rewrite app_comm_cons, app_assoc in E. apply app_inj_tail in E as [-> _]. by apply (H l1 y l2).
Qed.

Section advance.
Context (r : fd_reasm_t) (rt k : Z) (St : state_ok r rt (Some k)) (Hk : k ∈ frontier r) (Hdone : forall x dx, x ∈ subtrees r -> dat (pool r) x = Some dx -> cmr dx <> k).
Context (Hcap : capacity_ok r).

Let K := kids (pool r).
Let L := so_links _ _ _ St.

Definition inner (vis : list Z) : gset Z := list_to_set (filter (fun x => kids (pool r) x <> []) vis).

Lemma inner_iff vis x : x ∈ inner vis <-> x ∈ vis /\ K x <> [].
Proof using All. unfold inner. rewrite elem_of_list_to_set, list_elem_of_filter. unfold K. tauto. Qed.

(** The state after the elements [vis] are visited. *)
Definition advanced (vis : list Z) (P : fecs) : fd_reasm_t :=
  mk_reasm (fec_max r) (slot0 r) (root r) P (ancestry r ∪ inner vis) ((frontier r ∪ list_to_set (vis ≫= K)) ∖ inner vis) (orphaned r ∖ list_to_set (vis ≫= K)) (subtrees r) (subtreel r)
    (out r ++ (vis ≫= K)) (xid r) (removed r).

Lemma k_conn : k ∈ live r /\ connx (pool r) rt (Some k) k.
Proof using All. apply (so_fro _ _ _ St) in Hk. naive_solver. Qed.

(** What is below [k] is an orphan until it is moved. *)
Lemma below_orphan x : below (pool r) k x -> x <> k -> x ∈ orphaned r /\ x ∉ ancestry r ∪ frontier r /\ x ∉ out r.
Proof using All.
  intros Hb Hx. destruct k_conn as [Hkl Hkc]. assert (Hxl : x ∈ live r) by (by apply (below_in _ _ L k)). destruct (so_root _ _ _ St) as (_ & _ & Hrp).
  assert (Hn : ~ connx (pool r) rt (Some k) x /\ par (pool r) x <> None).
  { revert Hx. induction Hb as [x Hx|p x Hp IH Hxk]; intros Hne; [by apply list_elem_of_singleton in Hx|]. apply (kids_iff _ _ L) in Hxk as [_ Ep]; [|by apply (below_in _ _ L k)]. split; [|congruence].
    intros Hc. destruct (connx_par _ _ _ _ _ Hrp Hc Ep) as [H1 H2]. destruct (decide (p = k)) as [->|Hpk]; [done|]. assert (Hpl : p ∈ live r) by (by apply (below_in _ _ L k)). destruct (IH Hpl Hpk) as [Hn _]. by apply Hn. }
  destruct Hn as [Hn Hp]. split; [apply (so_orp _ _ _ St); done|]. split.
  - intros Hm. apply (connected_maps _ _ _ _ St) in Hm as [_ ?]. done.
  - intros Hq. destruct (so_out _ _ _ St) as [_ Ho]. by apply Ho in Hq as [_ ?].
Qed.

Lemma advance_visit vis P x q : queued (vis ≫= K) (pool r) P -> NoDup vis -> Forall (below (pool r) k) vis -> below (pool r) k x -> x ∉ vis -> vis ++ x :: q = [k] ++ (vis ≫= K) ->
  forest (live r) K [k] -> exists P', advance_step (advanced vis P) x = Ok (advanced (vis ++ [x]) P', K x) /\ queued ((vis ++ [x]) ≫= K) (pool r) P'.
Proof using All.
  intros HQ Hnd Hv Hb Hx Hq F. assert (Hxl : x ∈ live r) by (by apply (below_in _ _ L k); [apply k_conn|]). pose proof (queued_agree _ (live r) _ _ HQ) as Ha.
  unfold advance_step. cbn [pool advanced]. rewrite (children_agree (pool r) (live r) (live r) P x L Hxl Hxl); [|intros c Hc; by apply (kids_iff _ _ L) in Hc as [? _]|done]. fold K. cbn [mbind res_bind].
  assert (Hxf : x ∈ frontier r \/ x ∈ vis ≫= K).
  { assert (Hin : x ∈ [k] ++ (vis ≫= K)) by (rewrite <- Hq; apply elem_of_app; right; by left). apply elem_of_app in Hin as [->%list_elem_of_singleton|?]; auto. }
  assert (Hkids : forall c, c ∈ K x -> below (pool r) k c /\ c <> k /\ c ∉ vis ≫= K /\ c <> x).
  { intros c Hc. assert (Hbc : below (pool r) k c) by (by apply (below_step _ _ x)). assert (Hck : c <> k) by (intros ->; apply (fo_root _ _ _ F x k Hb Hc); by left). split; [done|]. split; [done|]. split.
    - intros Hi. apply list_elem_of_bind in Hi as (p & Hcp & Hpv). rewrite Forall_forall in Hv. assert (p = x) as -> by (apply (fo_unique _ _ _ F p x c); try done; by apply Hv). done.
    - intros ->. apply (kids_iff _ _ L) in Hc as [_ Ep]; [|done]. apply (lk_par _ _ L) in Ep as [_ ?]; [lia|done]. }
  set (r1 := mk_reasm (fec_max r) (slot0 r) (root r) P (ancestry r ∪ inner (vis ++ [x])) ((frontier r ∪ list_to_set (vis ≫= K)) ∖ inner (vis ++ [x])) (orphaned r ∖ list_to_set (vis ≫= K)) (subtrees r) (subtreel r)
    (out r ++ (vis ≫= K)) (xid r) (removed r)).
  assert (Hxi : x ∉ inner vis) by (rewrite inner_iff; by intros [? _]).
  assert (Hin : inner (vis ++ [x]) = inner vis ∪ (if decide (K x = []) then ∅ else {[x]})).
  { apply set_eq. intros y. rewrite elem_of_union, !inner_iff, elem_of_app, list_elem_of_singleton. destruct (decide (K x = [])) as [E|E]; rewrite ?elem_of_singleton; [|naive_solver].
    split; [|set_solver]. intros [[?| ->] ?]; [by left|done]. }
  assert (E1 : match K x with [] => Ok (advanced vis P) | _ :: _ => a ← map_insert x (ancestry (advanced vis P)); Ok (with_frontier (frontier (advanced vis P) ∖ {[x]}) (with_ancestry a (advanced vis P))) end = Ok r1).
  { unfold r1. rewrite Hin. destruct (K x) as [|c0 l0] eqn:EK.
    - rewrite decide_True by done. by rewrite union_empty_r_L.
    - rewrite decide_False by done. cbn [advanced ancestry]. rewrite fec_map_insert_ok.
      + cbn [mbind res_bind]. unfold with_frontier, with_ancestry, advanced. cbn. do 2 f_equal; clear; set_solver.
      + rewrite elem_of_union. intros [Hxa|?]; [|done]. destruct (decide (x = k)) as [->|Hxk]; [by apply (so_anc _ _ _ St) in Hxa as (_ & _ & ? & _)|].
        destruct (below_orphan x Hb Hxk) as (_ & Hm & _). apply Hm, elem_of_union. by left. }
  cbn [mbind res_bind] in E1 |- *. rewrite E1. cbn [mbind res_bind]. clear E1.
  destruct (connect_ok (K x) r1) as (P' & E2 & HP').
  - by apply (kids_nodup _ _ L).
  - intros c Hc. destruct (Hkids c Hc) as (Hbc & Hck & Hcp & Hcx). destruct (below_orphan c Hbc Hck) as (C1 & C2 & C3). unfold r1. cbn. split_and!.
    + rewrite elem_of_difference, elem_of_list_to_set. done.
    + rewrite elem_of_difference, elem_of_union, elem_of_list_to_set. intros [[?|?] _]; [|done]. apply C2, elem_of_union. by right.
    + rewrite elem_of_app. by intros [?|?].
    + assert (Hcl : c ∈ live r) by (by apply (below_in _ _ L k); [apply k_conn|]). destruct (lk_in _ _ L c Hcl) as [e E]. rewrite HQ, E. by eexists.
  - rewrite E2. cbn [mbind res_bind]. exists P'. rewrite bind_app. cbn [mbind list_bind]. rewrite app_nil_r. split; [|by apply (queued_app _ _ _ P)].
    f_equal. f_equal. unfold joined, advanced, r1. cbn. rewrite bind_app, list_to_set_app_L. cbn [mbind list_bind]. rewrite app_nil_r, app_assoc. f_equal.
    + apply set_eq. intros y. rewrite elem_of_union, !elem_of_difference, !elem_of_union, !elem_of_list_to_set. split; [|tauto]. intros [Hy|?]; [|tauto]. destruct (Hkids y Hy) as (Hby & Hyk & Hyv & Hyx). split; [tauto|].
      rewrite inner_iff, elem_of_app, list_elem_of_singleton. intros [[Hyv'|?] _]; [|done]. assert (Hi : y ∈ [k] ++ (vis ≫= K)) by (rewrite <- Hq; apply elem_of_app; by left).
      apply elem_of_app in Hi as [?%list_elem_of_singleton|?]; done.
    + clear. set_solver.
Qed.

Lemma fec_advance_ok : exists vis P, bfs advance_step [k] r = Ok (advanced vis P) /\ queued (vis ≫= K) (pool r) P /\ NoDup vis /\ vis = [k] ++ (vis ≫= K) /\
  (forall x, x ∈ vis <-> below (pool r) k x) /\ parents_first k K vis.
Proof using All.
  assert (F : forest (live r) K [k]) by (apply (below_forest _ _ L); [apply k_conn|done|]; intros p Hp; by apply (kids_nodup _ _ L)).
  assert (Hsz : (size (live r) <= size (pool r))%nat).
  { rewrite <- (size_dom (D := gset Z) (pool r)). apply subseteq_size. intros x Hx. by apply elem_of_dom, (lk_in _ _ L). }
  destruct (bfs_ok advance_step (live r) K [k] (fun vis r' => parents_first k K vis /\ exists P, r' = advanced vis P /\ queued (vis ≫= K) (pool r) P) r F) as (vis & r' & E & (HO & P & -> & HQ) & Hn & Hv & HD).
  - destruct Hcap. lia.
  - done.
  - split; [by intros [|] ? ?|]. exists (pool r). split; [|apply queued_nil]. unfold advanced. change (inner []) with (∅ : gset Z). change ([] ≫= K) with (@nil Z). cbn [list_to_set].
    rewrite app_nil_r. replace (ancestry r ∪ ∅) with (ancestry r) by (clear; set_solver). replace ((frontier r ∪ ∅) ∖ ∅) with (frontier r) by (clear; set_solver).
    replace (orphaned r ∖ ∅) with (orphaned r) by (clear; set_solver). by destruct r.
  - intros vis r' x q (HO & P & -> & HQ) Hnd Hrv Hrx Hx Hq. destruct (advance_visit vis P x q) as (P' & E' & HQ'); try done. exists (advanced (vis ++ [x]) P'). split; [done|]. split; [|by exists P'].
    apply parents_first_snoc; [done|]. assert (Hi : x ∈ [k] ++ (vis ≫= K)) by (rewrite <- Hq; apply elem_of_app; right; by left). by apply elem_of_app in Hi as [?%list_elem_of_singleton|?]; [left|right].
  - exists vis, P. split_and!; done.
Qed.

Lemma advanced_state vis P : queued (vis ≫= K) (pool r) P -> NoDup vis -> vis = [k] ++ (vis ≫= K) -> (forall x, x ∈ vis <-> below (pool r) k x) ->
  let r' := advanced vis P in state_ok r' rt None /\ live r' = live r /\ (forall x, x ∈ ancestry r' ∪ frontier r' <-> x ∈ ancestry r ∪ frontier r \/ x ∈ vis ≫= K).
Proof using All.
  intros HQ Hnv Hvis HD r'. destruct k_conn as [Hkl Hkc]. destruct (so_root _ _ _ St) as (R1 & R2 & R3). pose proof (queued_agree _ (live r) _ _ HQ) as Ha.
  pose proof (links_agree _ _ _ Ha L) as L'. set (ps := vis ≫= K) in *.
  assert (Hps : forall x, x ∈ ps <-> below (pool r) k x /\ x <> k).
  { intros x. rewrite <- HD. rewrite Hvis in Hnv |- *. rewrite elem_of_app, list_elem_of_singleton. apply NoDup_app in Hnv as (_ & Hkp & _). split; [|tauto]. intros Hx. split; [by right|]. intros ->. apply (Hkp k); [by left|done]. }
  assert (Hbl : forall x, x ∈ vis -> x ∈ live r) by (intros x Hx; apply (below_in _ _ L k); [done|by apply HD]).
  assert (Hpar : forall x, x ∈ live r -> par P x = par (pool r) x) by (intros x Hx; symmetry; by apply (agree_par (live r))).
  assert (Hkid : forall x, x ∈ live r -> kids P x = K x) by (intros x Hx; symmetry; by apply (kids_agree (live r))).
  assert (Hdat : forall x, dat P x = dat (pool r) x) by (intros x; symmetry; by destruct (queued_flags _ _ _ x HQ)).
  assert (Hcon : forall x, x ∈ live r -> connx P rt None x <-> connx (pool r) rt (Some k) x \/ x ∈ ps).
  { intros x Hx. assert (Hc0 : connx P rt None x <-> connected (pool r) rt x).
    { split; [apply (connx_ext P (live r) rt None L')|apply (connx_ext (pool r) (live r) rt None L)]; try done. intros c Hc. by rewrite Hpar. }
    rewrite Hc0, Hps. split.
    - intros Hc. destruct (conn_split _ _ rt (Some k) L x k) as [?|(_ & ? & ?)]; auto.
    - intros [Hc|[Hb _]]; [by apply (connx_conn _ _ (Some k))|]. apply (below_conn _ _ _ L k); try done. by apply (connx_conn _ _ (Some k)). }
  assert (Hno : forall x, x ∈ ps -> ~ connx (pool r) rt (Some k) x /\ par (pool r) x <> None).
  { intros x Hx. apply Hps in Hx as [Hb Hx]. destruct (below_orphan x Hb Hx) as (Ho & _ & _). by apply (so_orp _ _ _ St) in Ho as (_ & ? & ?). }
  assert (Hpv : forall x, x ∈ vis <-> x = k \/ x ∈ ps) by (intros x; rewrite Hvis at 1; by rewrite elem_of_app, list_elem_of_singleton).
  assert (Hanc : forall x, x ∈ ancestry r' <-> x ∈ ancestry r \/ (x ∈ vis /\ K x <> [])) by (intros x; cbn; by rewrite elem_of_union, inner_iff).
  assert (Hfro : forall x, x ∈ frontier r' <-> (x ∈ frontier r \/ x ∈ ps) /\ ~ (x ∈ vis /\ K x <> [])) by (intros x; cbn; by rewrite elem_of_difference, elem_of_union, inner_iff, elem_of_list_to_set).
  assert (Horp : forall x, x ∈ orphaned r' <-> x ∈ orphaned r /\ x ∉ ps) by (intros x; cbn; by rewrite elem_of_difference, elem_of_list_to_set).
  assert (Hcm : forall x, x ∈ ancestry r' ∪ frontier r' <-> x ∈ ancestry r ∪ frontier r \/ x ∈ ps).
  { intros x. rewrite !elem_of_union, Hanc, Hfro. destruct (decide (K x = [])) as [E|E]; [tauto|]. rewrite (Hpv x). assert (x = k -> x ∈ frontier r) by (by intros ->). destruct (decide (x = k)), (decide (x ∈ ps)); tauto. }
  assert (Hl : live r' = live r).
  { apply set_eq. intros x. rewrite !live_maps, Hcm, !elem_of_union. change (subtrees r') with (subtrees r). rewrite Horp. destruct (decide (x ∈ ps)) as [Hx|Hx]; [|tauto].
    assert (x ∈ orphaned r) by (apply Hps in Hx as [? ?]; by apply below_orphan). tauto. }
  split; [|done]. assert (Hek : forall x, K x = [] -> [] = K x) by done. split; rewrite ?Hl; change (pool r') with P; try done.
  - split_and!; try done. by rewrite Hpar.
  - intros d'. rewrite Hdat. apply (so_complete _ _ _ St).
  - intros x d' Hx. rewrite Hdat. by apply (so_data _ _ _ St).
  - intros x d' p dp Hx Ep. rewrite !Hdat. rewrite Hpar in Ep by done. by apply (so_par _ _ _ St).
  - intros x d' Hx Hxr Ep Ed. rewrite Hpar in Ep by done. rewrite Hdat in Ed. left. destruct (so_miss _ _ _ St x d') as [?|[= Hck]]; try done. exfalso. apply (Hdone x d'); try done.
    apply (so_sub _ _ _ St). split_and!; try done. intros Hc. by apply (connx_none _ _ _ _ Ep) in Hc.
  - intros x. rewrite Hanc, (so_anc _ _ _ St). split.
    + intros [(H1 & H2 & H3 & H4)|[H1 H2]].
      * split_and!; [done|apply Hcon; auto|done|by rewrite Hkid].
      * assert (Hxl : x ∈ live r) by auto. split_and!; [done|apply Hcon; [done|]|done|by rewrite Hkid]. apply Hpv in H1 as [->|?]; auto.
    + intros (H1 & H2 & _ & H4). rewrite Hkid in H4 by done. apply Hcon in H2; [|done]. rewrite Hpv. destruct H2 as [H2|?]; [|tauto]. destruct (decide (x = k)) as [->|]; [tauto|]. left. split_and!; try done. congruence.
  - intros x. rewrite Hfro, (so_fro _ _ _ St). split.
    + intros [[(H1 & H2 & H3)|H1] H4].
      * split_and!; [done|apply Hcon; auto|]. right. rewrite Hkid by done. destruct H3 as [[= ->]|?]; [|done]. destruct (decide (K k = [])); [done|]. destruct H4. split; [|done]. apply Hpv. by left.
      * assert (Hxv : x ∈ vis) by (apply Hpv; by right). split_and!; [by apply Hbl|apply Hcon; auto|]. right. rewrite Hkid by auto. destruct (decide (K x = [])); tauto.
    + intros (H1 & H2 & [?|H3]); [done|]. rewrite Hkid in H3 by done. split; [|by intros [_ ?]]. apply Hcon in H2 as [H2|?]; [|tauto|done]. left. split_and!; try done. by right.
  - intros x. rewrite Horp, (so_orp _ _ _ St). split.
    + intros ((H1 & H2 & H3) & H4). split_and!; [done|rewrite Hcon by done; tauto|by rewrite Hpar].
    + intros (H1 & H2 & H3). rewrite Hcon in H2 by done. rewrite Hpar in H3 by done. tauto.
  - intros x. change (subtrees r') with (subtrees r). rewrite (so_sub _ _ _ St). split.
    + intros (H1 & H2 & H3). split_and!; [done| |by rewrite Hpar]. rewrite Hcon by done. intros [?|Hx]; [done|]. by destruct (Hno x Hx).
    + intros (H1 & H2 & H3). rewrite Hcon in H2 by done. rewrite Hpar in H3 by done. tauto.
  - apply (so_subl _ _ _ St).
  - destruct (so_out _ _ _ St) as [Hn Ho]. cbn. fold ps. assert (Hnp : NoDup ps) by (rewrite Hvis in Hnv; by apply NoDup_app in Hnv as (_ & _ & ?)). split.
    + apply NoDup_app. split_and!; try done. intros x Hx Hxp. apply Ho in Hx as [_ Hx]. by destruct (Hno x Hxp).
    + intros x [Hx|Hx]%elem_of_app; [apply Ho in Hx as [? ?]; split; [done|apply Hcon; auto]|]. assert (Hxl : x ∈ live r) by (apply Hbl, Hpv; by right). split; [done|apply Hcon; auto].
  - intros x e Hx E. rewrite HQ in E. destruct (pool r !! x) as [e0|] eqn:E0; [|done]. cbn in E. injection E as <-. pose proof (so_in_out _ _ _ St x e0 Hx E0) as Hio. cbn. fold ps. rewrite elem_of_app.
    destruct (decide (x ∈ ps)); cbn; [tauto|]. rewrite Hio. tauto.
Qed.

End advance.

(** A new element that is not connected leaves the connected tree alone. *)
Lemma unconnected_state r rt k : state_ok r rt (Some k) -> k ∈ live r -> k ∉ frontier r -> (forall x dx, x ∈ subtrees r -> dat (pool r) x = Some dx -> cmr dx <> k) -> state_ok r rt None.
Proof.
  intros St Hkl Hk Hdone. pose proof (so_links _ _ _ St) as L. assert (Hkc : ~ connx (pool r) rt (Some k) k) by (intros Hc; apply Hk, (so_fro _ _ _ St); split_and!; auto).
  assert (Hcon : forall x, x ∈ live r -> connx (pool r) rt None x <-> connx (pool r) rt (Some k) x).
  { intros x Hx. split; [|by apply connx_conn]. intros Hc. by destruct (conn_split _ _ rt (Some k) L x k eq_refl Hkl Hx Hc) as [?|(? & _)]. }
  destruct St as [S1 S2 S3 S4 S5 S6 S7 S8 S9 S10 S11 S12 S13]. split; try done.
  - intros x d Hx Hxr Ep Ed. left. destruct (S6 x d) as [?|[= Hck]]; try done. exfalso. apply (Hdone x d); try done. apply S10. split_and!; try done. intros Hc. by apply (connx_none _ _ _ _ Ep) in Hc.
  - intros x. rewrite S7. split; intros (H1 & H2 & H3 & H4); (split_and!; try done); try (by apply Hcon). intros [= ->]. by apply Hkc, Hcon.
  - intros x. rewrite S8. split; intros (H1 & H2 & H3); (split_and!; try done); try (by apply Hcon); destruct H3 as [H3|?]; auto; try done. injection H3 as ->. done.
  - intros x. rewrite S9. split; intros (H1 & H2 & H3); (split_and!; try done); by rewrite Hcon in *.
  - intros x. rewrite S10. split; intros (H1 & H2 & H3); (split_and!; try done); by rewrite Hcon in *.
  - destruct S12 as [H1 H2]. split; [done|]. intros x Hx. destruct (H2 x Hx). split; [done|by apply Hcon].
Qed.

(** * Inserting an element

    The last part of an insertion marks equivocations; then the parts are put
    together. *)

(** The same elements, some of them marked since. *)
Definition remarked (P Q : fecs) : Prop := forall x, match P !! x, Q !! x with
  | None, None => True
  | Some e, Some e' => strip (set_eqvoc true e) = strip (set_eqvoc true e') /\ (eqvoc e = true -> eqvoc e' = true)
  | _, _ => False end.

Lemma remarked_refl P : remarked P P.
Proof. intros x. by destruct (P !! x). Qed.

Lemma remarked_trans P Q R : remarked P Q -> remarked Q R -> remarked P R.
Proof. intros H1 H2 x. specialize (H1 x). specialize (H2 x). destruct (P !! x), (Q !! x), (R !! x); try done. destruct H1 as [-> ?], H2 as [-> ?]. auto. Qed.

Lemma marked_remarked M P Q : marked M P Q -> remarked P Q.
Proof. intros H x. rewrite H. destruct (P !! x); [cbn|done]. by destruct (decide (x ∈ M)). Qed.

Lemma strip_remarked P Q : same_strip P Q -> remarked P Q.
Proof.
  intros H x. specialize (H x). destruct (P !! x) as [e|], (Q !! x) as [e'|]; cbn in H; try done. injection H as H1 H2 H3 H4 H5 H6 H7 H8. unfold strip, set_eqvoc, set_xid_next. cbn. split; congruence.
Qed.

Lemma remarked_lookup P Q x e' : remarked P Q -> Q !! x = Some e' ->
  exists e, P !! x = Some e /\ shape e = shape e' /\ confirmed e = confirmed e' /\ popped e = popped e' /\ in_out e = in_out e' /\ (eqvoc e = true -> eqvoc e' = true).
Proof.
  intros H E. specialize (H x). rewrite E in H. destruct (P !! x) as [e|]; [|done]. exists e. destruct H as [H He]. unfold strip, set_eqvoc, set_xid_next in H. cbn in H. injection H as H1 H2 H3 H4 H5 H6 H7. unfold shape. split_and!; try done; congruence.
Qed.

Lemma remarked_old P Q x e : remarked P Q -> P !! x = Some e -> exists e', Q !! x = Some e' /\ (eqvoc e = true -> eqvoc e' = true).
Proof. intros H E. specialize (H x). rewrite E in H. destruct (Q !! x) as [e'|]; [|done]. exists e'. split; [done|]. by apply H. Qed.

Lemma remarked_agree P Q V : remarked P Q -> agree V P Q.
Proof.
  intros H x _. specialize (H x). destruct (P !! x) as [e|], (Q !! x) as [e'|]; try done. destruct H as [H _]. unfold strip, set_eqvoc, set_xid_next in H. cbn in H. injection H as H1 H2 H3 H4 H5 H6 H7. cbn. unfold shape. congruence.
Qed.

Lemma remarked_dom P Q : remarked P Q -> dom Q = dom P.
Proof. intros H. apply set_eq. intros x. rewrite !elem_of_dom. specialize (H x). destruct (P !! x), (Q !! x); try done; split; intros; by eauto. Qed.

Lemma remarked_state r P rt ex : remarked (pool r) P -> state_ok r rt ex -> state_ok (with_pool P r) rt ex.
Proof.
  intros H. apply state_ok_pool; [by apply remarked_agree|]. intros x _. specialize (H x). destruct (pool r !! x) as [e|], (P !! x) as [e'|]; try done. destruct H as [H _].
  unfold strip, set_eqvoc, set_xid_next in H. cbn in H. injection H as H1 H2 H3 H4 H5 H6 H7. cbn. congruence.
Qed.

Lemma remarked_xkey P Q x : remarked P Q -> xkey Q x = xkey P x.
Proof. intros H. pose proof (remarked_agree _ _ {[x]} H x ltac:(set_solver)) as Ha. unfold xkey. destruct (P !! x), (Q !! x); cbn in *; try done. unfold shape in Ha. congruence. Qed.

Lemma with_pool_pool P Q r : with_pool P (with_pool Q r) = with_pool P r.
Proof. done. Qed.

(** ** Marking equivocations *)

Section equivocation.
Context (r : fd_reasm_t) (rt k : Z) (d : fec_data).
Context (St : state_ok r rt None) (HX : xid_wf (pool r) (live r ∖ {[k]}) (xid r)).
Context (Hsame : forall j i e, j ∈ live r ∖ {[k]} -> i ∈ live r ∖ {[k]} -> j <> i -> xkey (pool r) j = xkey (pool r) i -> pool r !! j = Some e -> eqvoc e = true).
Context (Hbelow : below_marked (pool r) (live r) (.= k)) (Hk : k ∈ live r) (Hd : dat (pool r) k = Some d) (Hcap : capacity_ok r).

Let L := so_links _ _ _ St.

(** Every pair of elements with one slot and index is marked. *)
Definition pairs_marked (P : fecs) : Prop := forall j i e, j ∈ live r -> i ∈ live r -> j <> i -> xkey P j = xkey P i -> P !! j = Some e -> eqvoc e = true.

Lemma new_xkey : xkey (pool r) k = Some (key_of d).
Proof using Hd. clear - Hd. unfold dat in Hd. unfold xkey. destruct (pool r !! k); [|done]. cbn in *. congruence. Qed.

Lemma size_ok P : remarked (pool r) P -> Z.of_nat (size P) <= fec_max r.
Proof using Hcap. clear - Hcap. intros H. destruct Hcap. by rewrite <- (size_dom (D := gset Z) P), (remarked_dom _ _ H), size_dom. Qed.

Lemma mark_again P x : remarked (pool r) P -> x ∈ live r ->
  exists (M : list Z) Q, mark_eqvoc x (with_pool P r) = Ok (with_pool Q r) /\ remarked P Q /\ (forall e, Q !! x = Some e -> eqvoc e = true) /\
    (xid_wf P (live r ∖ {[k]}) (xid r) -> xid_wf Q (live r ∖ {[k]}) (xid r)) /\ x ∈ M /\ forall exc, below_marked P (live r) exc -> below_marked Q (live r) (fun y => exc y /\ y ∉ M).
Proof using St Hcap.
  intros HP Hx. assert (LP : links P (live r)) by (apply (links_agree _ (pool r)); [by apply remarked_agree|done]).
  destruct (mark_eqvoc_ok (with_pool P r) (live r) x LP Hx (size_ok P HP)) as (M & Q & E & Hm & HxM & _ & Hc). cbn [pool with_pool] in *. rewrite with_pool_pool in E.
  exists M, Q. split; [done|]. split; [by apply (marked_remarked M)|]. split; [|split; [by apply (mark_xid M)|split; [done|intros exc; by apply mark_below]]].
  intros e Ee. rewrite Hm in Ee. destruct (P !! x); [|done]. cbn in Ee. rewrite decide_True in Ee by done. by injection Ee as <-.
Qed.

Lemma mark_pair : exists P,
  match xid r !! key_of d with None => Ok r | Some m => r1 ← mark_eqvoc k r; match xid_idx m with None => Ub | Some j => mark_eqvoc j r1 end end = Ok (with_pool P r) /\
  remarked (pool r) P /\ xid_wf P (live r ∖ {[k]}) (xid r) /\ below_marked P (live r) (.= k) /\ pairs_marked P.
Proof using All.
  pose proof (HX (key_of d)) as Hx. destruct (xid r !! key_of d) as [m|].
  - destruct Hx as (l & [X1 X2 X3 X4 X5]). destruct l as [|j l]; [done|]. destruct X1 as (Ej & _). rewrite Ej.
    destruct (proj1 (X5 j) ltac:(by left)) as [Hj Hkj]. assert (Hjl : j ∈ live r) by set_solver.
    destruct (mark_again (pool r) k (remarked_refl _) Hk) as (M1 & P1 & E1 & R1 & Q1 & W1 & I1 & B1). replace (with_pool (pool r) r) with r in E1 by (by destruct r). rewrite E1. cbn [mbind res_bind].
    destruct (mark_again P1 j R1 Hjl) as (M2 & P2 & E2 & R2 & Q2 & W2 & I2 & B2). rewrite E2. exists P2. split; [done|]. split; [by apply (remarked_trans _ P1)|]. split; [auto|]. split.
    + specialize (B2 _ (B1 _ Hbelow)). intros x p e ep Hxl Hxk. apply B2; [done|]. intros [[? _] _]. done.
    + assert (R : remarked (pool r) P2) by (by apply (remarked_trans _ P1)). assert (Hin : forall x e, x ∈ live r -> P2 !! x = Some e -> xkey (pool r) x = Some (key_of d) -> eqvoc e = true).
      { intros x e Hxl Ee Hxk. destruct (decide (x = k)) as [->|Hxk'].
        - destruct (remarked_lookup _ _ _ _ R2 Ee) as (e1 & Ee1 & _ & _ & _ & _ & Hq). apply Hq. by apply Q1.
        - destruct (decide (x = j)) as [->|Hxj]; [by apply Q2|]. destruct (remarked_lookup _ _ _ _ R Ee) as (e0 & Ee0 & _ & _ & _ & _ & Hq). apply Hq. apply (Hsame x j e0); try done; [set_solver|congruence]. }
      intros x y e Hxl Hyl Hne Hxy Ee. rewrite !(remarked_xkey _ _ _ R) in Hxy. destruct (decide (x = k)) as [->|Hxk]; [by apply (Hin k); try done; apply new_xkey|].
      destruct (decide (y = k)) as [->|Hyk]; [apply (Hin x); try done; rewrite Hxy; apply new_xkey|]. destruct (remarked_lookup _ _ _ _ R Ee) as (e0 & Ee0 & _ & _ & _ & _ & Hq). apply Hq. apply (Hsame x y e0); set_solver.
  - exists (pool r). split; [by destruct r|]. split; [apply remarked_refl|]. split; [done|]. split; [done|]. intros x y e Hxl Hyl Hne Hxy Ee.
    destruct (decide (x = k)) as [->|Hxk]; [exfalso; apply (Hx y); [set_solver|rewrite <- Hxy; apply new_xkey]|]. destruct (decide (y = k)) as [->|Hyk]; [exfalso; apply (Hx x); [set_solver|rewrite Hxy; apply new_xkey]|].
    apply (Hsame x y e); set_solver.
Qed.

Lemma insert_eqvoc_ok : exists P X, insert_eqvoc k d (par (pool r) k) r = Ok (with_xid X (with_pool P r)) /\ remarked (pool r) P /\ xid_wf P (live r) X /\ eqvoc_ok P (live r).
Proof using All.
  destruct mark_pair as (P1 & E1 & R1 & W1 & B1 & G1). unfold insert_eqvoc. cbn [mbind res_bind] in E1 |- *. rewrite E1. cbn [mbind res_bind]. clear E1.
  destruct (lk_in _ _ L k Hk) as [e0 E0]. destruct (remarked_old _ _ _ _ R1 E0) as (e1 & Ee1 & _). destruct (remarked_lookup _ _ _ _ R1 Ee1) as (e0' & E0' & Hsh & _).
  assert (Hde : data e1 = d) by (rewrite E0 in E0'; injection E0' as <-; unfold dat in Hd; rewrite E0 in Hd; cbn in Hd; unfold shape in Hsh; congruence).
  assert (Hsz : Z.of_nat (size (live r ∖ {[k]})) < fec_max r).
  { destruct Hcap as [_ C2]. assert (Hlt : (size (live r ∖ {[k]}) < size (live r))%nat) by (apply subset_size; set_solver). assert (Hle : (size (live r) <= size (pool r))%nat).
    { rewrite <- (size_dom (D := gset Z) (pool r)). apply subseteq_size. intros x Hx. by apply elem_of_dom, (lk_in _ _ L). } lia. }
  destruct (xid_update_ok (with_pool P1 r) (live r ∖ {[k]}) k e1) as (P2 & X & E2 & S2 & W2); try done.
  - set_solver.
  - intros x Hx. destruct (lk_in _ _ L x) as [ex Ex]; [set_solver|]. destruct (remarked_old _ _ _ _ R1 Ex) as (ex' & Ex' & _). by exists ex'.
  - cbn. destruct Hcap as [[C1 C3] _]. pose proof (xid_max_ge (fec_max r)). lia.
  - destruct Hcap as [[C1 C3] _]. lia.
  - cbn [pool with_pool fec_max] in *. rewrite Hde in E2. rewrite E2. cbn [mbind res_bind]. replace ({[k]} ∪ live r ∖ {[k]}) with (live r) in W2.
    2:{ clear -Hk. apply set_eq. intros x. rewrite elem_of_union, elem_of_difference, elem_of_singleton. destruct (decide (x = k)) as [->|]; tauto. }
    assert (R2 : remarked (pool r) P2) by (apply (remarked_trans _ P1); [done|by apply strip_remarked]).
    assert (LP : links P2 (live r)) by (apply (links_agree _ (pool r)); [by apply remarked_agree|done]).
    assert (Hp2 : forall x, par P2 x = par (pool r) x) by (intros x; symmetry; apply (agree_par {[x]}); [by apply remarked_agree|set_solver]).
    assert (Hst : forall x e, P2 !! x = Some e -> exists e', P1 !! x = Some e' /\ eqvoc e' = eqvoc e /\ confirmed e' = confirmed e).
    { intros x e Ex. specialize (S2 x). rewrite Ex in S2. destruct (P1 !! x) as [e'|]; [|done]. exists e'. cbn in S2. injection S2 as ? ? ? ? ? ? ? ?. split_and!; congruence. }
    assert (B2 : below_marked P2 (live r) (.= k)).
    { intros x p e ep Hx Hxk Ep Ex Epp Hq Hc. destruct (Hst x e Ex) as (e' & Ex' & <- & _). destruct (Hst p ep Epp) as (ep' & Ep' & Hq' & Hc'). apply (B1 x p e' ep'); try done; try congruence.
      rewrite (agree_par {[x]} P1 P2); [done| |set_solver]. by apply same_strip_agree. }
    assert (G2 : pairs_marked P2).
    { intros x y e Hx Hy Hne Hxy Ex. destruct (Hst x e Ex) as (e' & Ex' & <- & _). apply (G1 x y); try done. by rewrite !(same_strip_xkey _ _ _ S2). }
    destruct (par (pool r) k) as [p|] eqn:Epk.
    + destruct (lk_par _ _ LP k p Hk ltac:(by rewrite Hp2)) as [Hpl _]. destruct (lk_in _ _ LP p Hpl) as [ep Epp]. cbn [pool with_xid with_pool]. rewrite (get_ok _ _ _ Epp). cbn [mbind res_bind].
      destruct (eqvoc ep && negb (confirmed ep)) eqn:Eq.
      * destruct (mark_eqvoc_ok (with_xid X (with_pool P2 r)) (live r) k LP Hk (size_ok P2 R2)) as (M & P3 & E3 & Hm & HkM & _ & Hc). cbn [pool with_pool with_xid] in *. exists P3, X. split; [exact E3|].
        assert (R3 : remarked P2 P3) by (by apply (marked_remarked M)). split; [by apply (remarked_trans _ P2)|]. split; [by apply (mark_xid M P2)|]. split.
        -- intros x y e Hx Hy Hne Hxy Ex. rewrite !(remarked_xkey _ _ _ R3) in Hxy. destruct (remarked_lookup _ _ _ _ R3 Ex) as (e' & Ex' & _ & _ & _ & _ & Hq). apply Hq. by apply (G2 x y).
        -- intros x q e eq' Hx Eq' Ex Exq Hq Hcf. apply (mark_below M P2 P3 (live r) (.= k) Hm LP Hc B2 x q e eq'); try done. intros [-> ?]. done.
      * exists P2, X. split; [done|]. split; [done|]. split; [done|]. split; [done|]. intros x q e eq' Hx Eq' Ex Exq Hq Hcf. destruct (decide (x = k)) as [->|Hxk]; [|by apply (B2 x q e eq')].
        rewrite Hp2, Epk in Eq'. injection Eq' as <-. rewrite Epp in Exq. injection Exq as <-. by rewrite Hq, Hcf in Eq.
    + exists P2, X. split; [done|]. split; [done|]. split; [done|]. split; [done|]. intros x q e eq' Hx Eq' Ex Exq Hq Hcf. destruct (decide (x = k)) as [->|Hxk]; [|by apply (B2 x q e eq')].
      rewrite Hp2, Epk in Eq'. done.
Qed.

End equivocation.

(** ** The whole insertion *)

(** [dead] are evicted elements that are not yet released. *)
Record wf_dead (r : fd_reasm_t) (rt : Z) (dead : gset Z) : Prop := mk_wf_dead {
  wd_state : state_ok r rt None;
  wd_xid : xid_wf (pool r) (live r) (xid r);
  wd_eqvoc : eqvoc_ok (pool r) (live r);
  wd_cap : capacity_ok r;
  wd_pool : dom (pool r) = live r ∪ dead;
  wd_dead : dead ## live r;
}.

Lemma wf_dead_empty r rt : reasm_wf r rt <-> wf_dead r rt ∅.
Proof. split; intros [? ? ? ? ?]; (split; try done); set_solver. Qed.

(** What an insertion changes. *)
Record inserted (k : Z) (d : fec_data) (r r' : fd_reasm_t) : Prop := mk_inserted {
  is_live : forall x, x ∈ live r' <-> (x = k \/ x ∈ live r) /\ ~ exists c, c ∈ subtrees r /\ rejects (pool r) k d c /\ below (pool r) c x;
  is_new : k ∈ live r' /\ exists e, pool r' !! k = Some e /\ data e = d /\ confirmed e = false /\ popped e = false;
  is_old : forall x e', x ∈ live r' -> x <> k -> pool r' !! x = Some e' -> exists e, pool r !! x = Some e /\ data e = data e' /\ confirmed e = confirmed e' /\ popped e = popped e' /\ (eqvoc e = true -> eqvoc e' = true);
  is_par : forall x p, x ∈ live r -> x ∈ live r' -> par (pool r) x = Some p -> par (pool r') x = Some p;
  is_out : exists new, out r' = out r ++ new /\ (forall x, x ∈ ancestry r' ∪ frontier r' <-> x ∈ ancestry r ∪ frontier r \/ x ∈ new) /\
    (forall x, x ∈ new -> x ∉ ancestry r ∪ frontier r) /\ (new = [] \/ (cmr d ∈ ancestry r ∪ frontier r /\ parents_first k (kids (pool r')) new));
  is_dead : forall x, x ∉ live r -> x <> k -> child <$> pool r' !! x = child <$> pool r !! x;
  is_root : root r' = root r /\ fec_max r' = fec_max r;
}.

Section insert.
Context (r : fd_reasm_t) (rt k : Z) (d : fec_data) (dead : gset Z) (opt_store : bool).
Context (W : wf_dead r rt dead) (Hk : k ∉ live r ∪ dead) (Hd : data_ok d) (Hck : cmr d <> k) (Hfree : Z.of_nat (size (pool r)) < fec_max r).
(** A chain of hashes is not a cycle. *)
Context (Hcycle : forall c dc, c ∈ subtrees r -> dat (pool r) c = Some dc -> cmr dc = k -> ~ below (pool r) c (cmr d)).

Let St := wd_state _ _ _ W.
Let L := so_links _ _ _ St.

Definition chains_ok : Prop := forall dp, cmr d ∈ live r -> dat (pool r) (cmr d) = Some dp -> validate_chained_block_id dp d = true.

Lemma k_new : k ∉ live r.
Proof using Hk. clear -Hk. set_solver. Qed.

Lemma pool_new : pool r !! k = None.
Proof using W Hk. apply not_elem_of_dom. by rewrite (wd_pool _ _ _ W). Qed.

(** After the element is placed and linked. *)
Lemma placed_ins P1 : chains_ok -> links P1 ({[k]} ∪ live r) -> let conn := bool_decide (cmr d ∈ ancestry r ∪ frontier r) in let known := bool_decide (cmr d ∈ live r) in
  same_rest (<[k := set_in_out conn (new_fec d)]> (pool r)) P1 -> kids P1 k = [] ->
  (forall x, x ∈ live r -> kids P1 x = if decide (x = cmr d) then kids (pool r) x ++ [k] else kids (pool r) x) ->
  (forall x, par P1 x = if decide (x = k) then (if known then Some (cmr d) else None) else par (pool r) x) ->
  let r1 := placed conn known k (cmr d) P1 r in ins_ok rt k d dead r1 /\ live r1 = {[k]} ∪ live r /\ pending k r1 (subtreel r1).
Proof using All.
  intros Hv L1 conn known Hr Hk0 Hkids Hpar r1. pose proof k_new as Hkl. destruct (placed_state r rt k d St Hkl Hd Hck Hv P1 L1 Hr Hk0 Hkids Hpar) as [St1 Hl]. fold conn known r1 in St1, Hl.
  assert (Hlk : forall x e, x <> k -> P1 !! x = Some e -> exists e', pool r !! x = Some e' /\ rest e' = rest e).
  { intros x e Hx E. specialize (Hr x). rewrite lookup_insert_ne, E in Hr by done. destruct (pool r !! x) as [e'|]; [|done]. exists e'. split; [done|]. cbn in Hr. congruence. }
  assert (Hlv : forall x, x ∈ live r1 ∖ {[k]} <-> x ∈ live r) by (intros x; rewrite Hl, elem_of_difference, elem_of_union, elem_of_singleton; destruct (decide (x = k)) as [->|]; tauto).
  assert (Hxk : forall x, x <> k -> xkey P1 x = xkey (pool r) x).
  { intros x Hx. specialize (Hr x). rewrite lookup_insert_ne in Hr by done. unfold xkey. destruct (P1 !! x), (pool r !! x); cbn in *; try done. unfold rest in Hr. congruence. }
  assert (Hdk : dat P1 k = Some d).
  { specialize (Hr k). rewrite lookup_insert_eq in Hr. unfold dat. destruct (P1 !! k); cbn in *; [|done]. unfold rest in Hr. cbn in Hr. congruence. }
  assert (Hdx : forall x, x <> k -> dat P1 x = dat (pool r) x).
  { intros x Hx. specialize (Hr x). rewrite lookup_insert_ne in Hr by done. unfold dat. destruct (P1 !! x), (pool r !! x); cbn in *; try done. unfold rest in Hr. congruence. }
  split; [|split; [done|]].
  - split; try done; change (pool r1) with P1; change (xid r1) with (xid r).
    + replace (live r1 ∖ {[k]}) with (live r) by (apply set_eq; intros x; by rewrite Hlv). apply (xid_wf_ext (pool r)); [|apply W]. intros x Hx. specialize (Hr x). rewrite lookup_insert_ne in Hr by (by intros ->).
      destruct (P1 !! x), (pool r !! x); cbn in *; try done. unfold rest in Hr. split; congruence.
    + intros j i e Hj Hi Hne Hx E. apply Hlv in Hj, Hi. assert (j <> k) by (by intros ->). assert (i <> k) by (by intros ->). destruct (Hlk j e) as (e' & E' & Hre); try done.
      rewrite !Hxk in Hx by done. replace (eqvoc e) with (eqvoc e') by (unfold rest in Hre; congruence). by apply (eo_same _ _ (wd_eqvoc _ _ _ W) j i).
    + intros x p e ep Hx Hxk' Ep E E2 Hq Hc. rewrite Hpar, decide_False in Ep by done. assert (Hxl : x ∈ live r) by (apply Hlv; set_solver). destruct (lk_par _ _ L x p Hxl Ep) as [Hp _].
      destruct (Hlk x e) as (e' & E' & Hre); try done. destruct (Hlk p ep) as (ep' & Ep' & Hrp); [by intros ->|done|]. replace (eqvoc e) with (eqvoc e') by (unfold rest in Hre; congruence).
      apply (eo_below _ _ (wd_eqvoc _ _ _ W) x p e' ep'); try done; unfold rest in Hrp; congruence.
    + split; [set_solver|]. intros ->. destruct (so_root _ _ _ St) as (_ & ? & _). done.
    + pose proof (Hr k) as Hrk. rewrite lookup_insert_eq in Hrk. destruct (P1 !! k) as [e|]; [|done]. exists e. cbn in Hrk. unfold rest in Hrk. cbn in Hrk. split_and!; congruence.
    + destruct (wd_cap _ _ _ W) as [C1 C2]. split; [done|]. cbn. rewrite <- (same_rest_size _ _ Hr), map_size_insert_None by apply pool_new. change (fec_max r1) with (fec_max r). lia.
    + rewrite <- (same_rest_dom _ _ Hr), dom_insert_L, (wd_pool _ _ _ W), Hl. by rewrite assoc_L by apply _.
    + rewrite Hl. pose proof (wd_dead _ _ _ W). set_solver.
  - intros c Hc. apply (so_subl _ _ _ St1) in Hc as Hcs. split; [done|]. change (pool r1) with P1. intros dc Ed Ek. assert (Hcl : c ∈ live r1) by (apply (so_sub _ _ _ St1) in Hcs as [? _]; done).
    destruct (decide (c = k)) as [->|Hck']; [congruence|]. rewrite Hdx in Ed by done. assert (Hcr : c ∈ live r) by (apply Hlv; set_solver).
    assert (Hcso : c ∈ subtrees r) by (revert Hcs; unfold r1, placed; cbn; destruct known; [done|]; rewrite elem_of_union, elem_of_singleton; by intros [?|?]).
    specialize (Hcycle c dc Hcso Ed Ek). intros Hb.
    assert (Hbc : forall x, below P1 c x -> x = k \/ below (pool r) c x).
    { intros x Hx. induction Hx as [x Hx|p x Hp IH Hx]; [right; by apply reach_start|]. destruct (decide (x = k)) as [->|Hxk']; [by left|right].
      assert (Hpl : p ∈ {[k]} ∪ live r) by (apply (below_in P1 _ L1 c); [set_solver|done]). apply (kids_iff P1 _ L1) in Hx as [Hxl Epx]; [|done]. rewrite Hpar, decide_False in Epx by done.
      assert (Hxr : x ∈ live r) by set_solver. destruct (lk_par _ _ L x p Hxr Epx) as [Hpr _]. destruct IH as [IH|IH]; [by rewrite IH in Hpr|]. by apply (fec_below_child _ _ L c x p). }
    inversion Hb as [y Hy Ey|p y Hp Hy Ey]; [apply list_elem_of_singleton in Hy; congruence|]. rewrite ?Ey in Hy. assert (Hpl : p ∈ {[k]} ∪ live r) by (apply (below_in P1 _ L1 c); [set_solver|done]).
    apply (kids_iff P1 _ L1) in Hy as [_ Epy]; [|done]. rewrite Hpar, decide_True in Epy by done. destruct known; [|done]. injection Epy as <-. by destruct (Hbc _ Hp).
Qed.

(** What is left to do once the element is adopted and the frontier advanced. *)
Lemma settle r2 r3 ps : ins_ok rt k d dead r2 -> state_ok r3 rt None -> live r3 = live r2 -> queued ps (pool r2) (pool r3) -> xid r3 = xid r2 -> fec_max r3 = fec_max r2 ->
  exists P X, insert_eqvoc k d (par (pool r3) k) r3 = Ok (with_xid X (with_pool P r3)) /\ remarked (pool r3) P /\ wf_dead (with_xid X (with_pool P r3)) rt dead.
Proof using Type.
  clear W Hk Hd Hck Hfree Hcycle St L. intros I St3 Hl HQ Hx Hm.
  assert (Hlk : forall x e, pool r3 !! x = Some e -> exists e', pool r2 !! x = Some e' /\ eqvoc e' = eqvoc e /\ confirmed e' = confirmed e).
  { intros x e E. destruct (queued_flags _ _ _ x HQ) as (_ & H1 & H2 & _). rewrite E in *. destruct (pool r2 !! x) as [e'|]; [|done]. exists e'. cbn in *. split_and!; congruence. }
  assert (Hxk : forall x, xkey (pool r3) x = xkey (pool r2) x).
  { intros x. destruct (queued_flags _ _ _ x HQ) as (H1 & _). unfold xkey. destruct (pool r3 !! x), (pool r2 !! x); cbn in *; try done. congruence. }
  assert (Hpar : forall x, par (pool r3) x = par (pool r2) x) by (intros x; symmetry; apply (agree_par {[x]}); [by apply (queued_agree ps)|set_solver]).
  assert (Hsz : size (pool r3) = size (pool r2)) by (by rewrite <- !(size_dom (D := gset Z)), (queued_dom _ _ _ HQ)).
  destruct (insert_eqvoc_ok r3 rt k d St3) as (P & X & E & R & X1 & G1).
  - rewrite Hl, Hx. apply (xid_wf_ext (pool r2)); [|apply I]. intros x _. by destruct (queued_flags _ _ _ x HQ) as (? & _ & _ & _ & ?).
  - rewrite Hl. intros j i e Hj Hi Hne Hji Ej. destruct (Hlk j e Ej) as (e' & Ej' & <- & _). rewrite !Hxk in Hji. by apply (io_same _ _ _ _ _ I j i).
  - rewrite Hl. intros x p e ep Hxl Hne Ep Ex Epp Hq Hc. destruct (Hlk x e Ex) as (e' & Ex' & <- & _). destruct (Hlk p ep Epp) as (ep' & Ep' & Hq' & Hc'). rewrite Hpar in Ep.
    apply (io_below _ _ _ _ _ I x p e' ep'); try done; congruence.
  - rewrite Hl. apply (io_in _ _ _ _ _ I).
  - unfold dat. destruct (queued_flags _ _ _ k HQ) as (H1 & _). rewrite <- H1. apply (new_data rt k d dead r2 I).
  - destruct (io_cap _ _ _ _ _ I). split; rewrite Hm, ?Hsz; done.
  - exists P, X. split; [done|]. split; [done|]. change (live (with_xid X (with_pool P r3))) with (live r3). split; change (live (with_xid X (with_pool P r3))) with (live r3); cbn [pool with_xid with_pool xid]; try done.
    + assert (St4 : state_ok (with_pool P r3) rt None) by (by apply remarked_state). destruct St4 as [? ? ? ? ? ? ? ? ? ? ? ? ?]. split; done.
    + destruct (io_cap _ _ _ _ _ I) as [C1 C2]. split; cbn; [by rewrite Hm|]. rewrite Hm, <- (size_dom (D := gset Z) P), (remarked_dom _ _ R), size_dom, Hsz. done.
    + rewrite (remarked_dom _ _ R), (queued_dom _ _ _ HQ), Hl. apply I.
    + rewrite Hl. apply I.
Qed.

(** Refused when the parent is known and does not validate it. *)
Lemma insert_refused dp : cmr d ∈ live r -> dat (pool r) (cmr d) = Some dp -> validate_chained_block_id dp d = false -> insert_fec opt_store k d r = Ok (None, r).
Proof using W Hk Hck Hfree.
  clear Hcycle Hd. intros Hc Ed Hv. unfold insert_fec, pool_free. rewrite (proj2 (Z.eqb_neq _ _)) by lia. cbn [negb FD_TEST mbind res_bind]. change (fd_reasm_query (with_pool _ r) (cmr d)) with (fd_reasm_query r (cmr d)).
  rewrite query_live, bool_decide_eq_true_2 by done. cbn [pool with_pool]. unfold dat in Ed. destruct (pool r !! cmr d) as [ep|] eqn:Ep; [|done]. cbn in Ed. injection Ed as <-.
  rewrite (get_ok _ _ ep) by (by rewrite lookup_insert_ne). cbn [mbind res_bind]. rewrite Hv. cbn [negb]. unfold release. cbn [pool with_pool]. rewrite delete_insert_id by apply pool_new. by destruct r.
Qed.

(** The removed orphans, as they were before the insertion. *)
Lemma rejected_before P1 x : let conn := bool_decide (cmr d ∈ ancestry r ∪ frontier r) in let known := bool_decide (cmr d ∈ live r) in
  same_rest (<[k := set_in_out conn (new_fec d)]> (pool r)) P1 -> (forall x, x ∈ live r -> kids P1 x = if decide (x = cmr d) then kids (pool r) x ++ [k] else kids (pool r) x) ->
  let r1 := placed conn known k (cmr d) P1 r in
  (exists c, c ∈ subtreel r1 /\ rejects P1 k d c /\ below P1 c x) <-> exists c, c ∈ subtrees r /\ rejects (pool r) k d c /\ below (pool r) c x.
Proof using All.
  intros conn known Hr Hkids r1. destruct (so_subl _ _ _ St) as [_ Hsl]. pose proof k_new as Hkl.
  assert (Hdx : forall y, y <> k -> dat P1 y = dat (pool r) y).
  { intros y Hy. specialize (Hr y). rewrite lookup_insert_ne in Hr by done. unfold dat. destruct (P1 !! y), (pool r !! y); cbn in *; try done. unfold rest in Hr. congruence. }
  assert (Hdk : dat P1 k = Some d).
  { specialize (Hr k). rewrite lookup_insert_eq in Hr. unfold dat. destruct (P1 !! k); cbn in *; [|done]. unfold rest in Hr. cbn in Hr. congruence. }
  assert (Hst : forall c, c ∈ subtreel r1 <-> c ∈ subtrees r \/ (c = k /\ known = false)).
  { intros c. unfold r1, placed. cbn. rewrite <- Hsl. destruct known; [naive_solver|]. rewrite elem_of_app, list_elem_of_singleton. naive_solver. }
  assert (Hb : forall c, c ∈ subtrees r -> rejects (pool r) k d c -> below (pool r) c x <-> below P1 c x).
  { intros c Hc (dc & Ed & Ek & _). apply below_ext. intros y Hy. apply (so_sub _ _ _ St) in Hc as Hc'. destruct Hc' as (Hcl & _). rewrite Hkids by (by apply (below_in _ _ L c)).
    destruct (decide (y = cmr d)) as [->|]; [|done]. by destruct (Hcycle c dc). }
  split; intros (c & Hc & Hrj & Hbc); exists c.
  - apply Hst in Hc as [Hc|[-> _]]; [|destruct Hrj as (dc & Ed & Ek & _); congruence]. assert (Hck' : c <> k) by (intros ->; apply (so_sub _ _ _ St) in Hc as [? _]; done).
    assert (Hrj' : rejects (pool r) k d c) by (unfold rejects in *; by rewrite Hdx in Hrj). split_and!; try done. by apply Hb.
  - assert (Hck' : c <> k) by (intros ->; apply (so_sub _ _ _ St) in Hc as [? _]; done). split; [apply Hst; by left|]. split; [unfold rejects in *; by rewrite Hdx|]. by apply Hb.
Qed.

Lemma parents_first_ext (next next' : Z -> list Z) l : (forall x, x ∈ l -> next x = next' x) -> parents_first k next l -> parents_first k next' l.
Proof using Type.
  clear W Hk Hd Hck Hfree Hcycle St L. intros H HO l1 x l2 E. destruct (HO l1 x l2 E) as [?|(p & Hp & Hx)]; [by left|right]. exists p. split; [done|]. rewrite <- H; [done|]. rewrite E. apply elem_of_app. by left.
Qed.

Let conn := bool_decide (cmr d ∈ ancestry r ∪ frontier r).
Let known := bool_decide (cmr d ∈ live r).

Lemma inserted_intro P1 r2 D r3 ps P X : let r1 := placed conn known k (cmr d) P1 r in
  same_rest (<[k := set_in_out conn (new_fec d)]> (pool r)) P1 -> (forall x, x ∈ live r -> kids P1 x = if decide (x = cmr d) then kids (pool r) x ++ [k] else kids (pool r) x) ->
  (forall x, par P1 x = if decide (x = k) then (if known then Some (cmr d) else None) else par (pool r) x) -> (forall x, x ∉ live r -> x <> k -> P1 !! x = pool r !! x) ->
  live r1 = {[k]} ∪ live r -> adopted k d (subtreel r1) r1 r2 D -> ins_ok rt k d dead r2 ->
  live r3 = live r2 -> queued ps (pool r2) (pool r3) -> out r3 = out r2 ++ ps -> (forall x, x ∈ ancestry r3 ∪ frontier r3 <-> x ∈ ancestry r2 ∪ frontier r2 \/ x ∈ ps) -> root r3 = root r2 -> fec_max r3 = fec_max r2 ->
  (forall x, x ∈ ps -> x ∉ ancestry r2 ∪ frontier r2) -> ((conn = false /\ ps = []) \/ (conn = true /\ parents_first k (kids (pool r2)) (k :: ps) /\ forall x, x ∈ k :: ps -> x ∈ live r2)) ->
  remarked (pool r3) P -> inserted k d r (with_xid X (with_pool P r3)).
Proof using All.
  intros r1 Hr Hkids Hpar Hout Hl1 A I Hl3 HQ Hq Hm Hrt Hmx Hps Hord R. set (r' := with_xid X (with_pool P r3)). destruct A as [A1 A2 A3 (A4 & A5 & A6 & A7) A8 A9 A10 A11].
  pose proof k_new as Hkl. assert (Hlv : live r' = live r2) by exact Hl3. assert (Ha3 : agree (live r2) (pool r2) (pool r3)) by (by apply (queued_agree ps)).
  assert (Ha : agree (live r2) (pool r2) P) by (apply (agree_trans _ _ (pool r3)); [done|by apply remarked_agree]).
  assert (L2 : links (pool r2) (live r2)) by (apply (so_links _ _ _ (io_state _ _ _ _ _ I))).
  assert (Hflag : forall x e', P !! x = Some e' -> exists e, pool r2 !! x = Some e /\ data e = data e' /\ confirmed e = confirmed e' /\ popped e = popped e' /\ (eqvoc e = true -> eqvoc e' = true)).
  { intros x e' E'. destruct (remarked_lookup _ _ _ _ R E') as (e & E & Hsh & Hc & Hp & _ & He). destruct (queued_flags _ _ _ x HQ) as (F1 & F2 & F3 & F4 & _). rewrite E in *.
    destruct (pool r2 !! x) as [e2|]; [|done]. exists e2. cbn in *. unfold shape in Hsh. split_and!; try congruence. intros Hq2. apply He. congruence. }
  split.
  - intros x. rewrite Hlv, A1, Hl1, elem_of_difference, elem_of_union, elem_of_singleton, A2. change (pool r1) with P1. pose proof (rejected_before P1 x Hr Hkids) as HR. fold conn known r1 in HR. by rewrite HR.
  - rewrite Hlv. split; [apply (io_in _ _ _ _ _ I)|]. cbn. destruct (io_new _ _ _ _ _ I) as (e & E & Hde & _ & Hcf & Hpo).
    assert (Hs : is_Some (P !! k)) by (apply elem_of_dom; rewrite (remarked_dom _ _ R), (queued_dom _ _ _ HQ); by apply elem_of_dom; exists e). destruct Hs as [e' E']. exists e'. destruct (Hflag k e' E') as (e2 & E2 & ? & ? & ? & _).
    split; [done|]. split_and!; congruence.
  - intros x e' Hx Hxk E'. rewrite Hlv in Hx. destruct (Hflag x e' E') as (e2 & E2 & F1 & F2 & F3 & F4). destruct (keeps_lookup _ _ _ _ _ A3 Hx E2) as (e1 & E1 & G1 & _ & G2 & G3 & G4).
    change (pool r1) with P1 in E1. specialize (Hr x). rewrite lookup_insert_ne, E1 in Hr by done. destruct (pool r !! x) as [e|]; [|done]. exists e. cbn in Hr. unfold rest in Hr.
    split; [done|]. split_and!; try congruence. intros He. apply F4. congruence.
  - intros x p Hx Hx' Ep. rewrite Hlv in Hx'. change (par P x = Some p). rewrite <- (agree_par (live r2) (pool r2)) by done. assert (Hp1 : par P1 x = Some p) by (rewrite Hpar, decide_False; [done|by intros ->]).
    rewrite A10; [done|done|]. change (pool r1) with P1. congruence.
  - exists (if conn then k :: ps else []). change (out r') with (out r3). change (ancestry r') with (ancestry r3). change (frontier r') with (frontier r3). rewrite Hq, A6. split.
    + unfold r1, placed. cbn. destruct Hord as [[-> ->]|(-> & _)]; [by rewrite !app_nil_r|]. by rewrite <- app_assoc.
    + split.
      * intros x. rewrite Hm, A4, A5.
        assert (Hm1 : x ∈ ancestry r1 ∪ frontier r1 <-> x ∈ ancestry r ∪ frontier r \/ (x = k /\ conn = true)).
        { unfold r1, placed. cbn. rewrite !elem_of_union. assert (Hcf : cmr d ∈ frontier r -> conn = true) by (intros Hf; apply bool_decide_eq_true; set_solver).
          destruct (maps_disjoint _ _ _ St) as (D1 & _). destruct (decide (cmr d ∈ frontier r)) as [Hf|Hf].
          - rewrite (Hcf Hf), !elem_of_union, elem_of_difference, !elem_of_singleton. destruct (decide (x = cmr d)) as [->|]; tauto.
          - destruct conn; [|naive_solver]. rewrite elem_of_union, elem_of_difference, !elem_of_singleton. destruct (decide (x = cmr d)) as [->|]; tauto. }
        rewrite Hm1. destruct Hord as [[-> ->]|(-> & _)]; [naive_solver|]. rewrite elem_of_cons. tauto.
      * split.
        { intros x Hxn Hxm. assert (Hk0 : k ∉ ancestry r ∪ frontier r) by (intros Hkm; apply Hkl, live_maps; by left). destruct Hord as [[Ec _]|(Ec & _ & _)]; rewrite Ec in Hxn; [by apply not_elem_of_nil in Hxn|].
          apply elem_of_cons in Hxn as [->|Hxn]; [done|]. apply (Hps x Hxn). rewrite A4, A5. unfold r1, placed. cbn. apply elem_of_union. apply elem_of_union in Hxm.
          rewrite Ec. destruct (decide (cmr d ∈ frontier r)); rewrite ?elem_of_union, ?elem_of_difference, ?elem_of_singleton; destruct (decide (x = cmr d)) as [->|]; tauto. }
        destruct Hord as [[-> _]|(Ec & HO & Hin)]; [by left|right]. rewrite Ec. split; [by apply bool_decide_eq_true in Ec|]. apply (parents_first_ext (kids (pool r2))); [|done]. intros x Hx. apply (kids_agree (live r2)); auto.
  - intros x Hx Hxk. change (pool r') with P. assert (Hx1 : x ∉ live r1) by (rewrite Hl1; set_solver). pose proof (A11 x Hx1) as H11. change (pool r1) with P1 in H11. rewrite (Hout x Hx Hxk) in H11.
    pose proof (queued_agree ps {[x]} _ _ HQ x ltac:(set_solver)) as Hs1. pose proof (remarked_agree _ _ {[x]} R x ltac:(set_solver)) as Hs2. rewrite Hs2 in Hs1.
    destruct (pool r !! x), (pool r2 !! x), (P !! x); cbn in *; try done. unfold shape in Hs1. injection H11 as ? ? ? ? ? ? ? ?. congruence.
  - cbn. rewrite Hrt, Hmx, A7. split; [|done]. pose proof (so_root _ _ _ (io_state _ _ _ _ _ I)) as [-> _]. symmetry. by apply (so_root _ _ _ St).
Qed.

Lemma insert_accepted : chains_ok -> exists r', insert_fec opt_store k d r = Ok (Some k, r') /\ wf_dead r' rt dead /\ inserted k d r r'.
Proof using All.
  intros Hv. pose proof k_new as Hkl. unfold insert_fec, pool_free. rewrite (proj2 (Z.eqb_neq _ _)) by lia. cbn [negb FD_TEST mbind res_bind].
  change (fd_reasm_query (with_pool _ r) (cmr d)) with (fd_reasm_query r (cmr d)). rewrite query_live.
  assert (E0 : (if bool_decide (cmr d ∈ live r) then ep ← get (pool (with_pool (<[k := new_fec d]> (pool r)) r)) (cmr d); Ok (validate_chained_block_id (data ep) d) else Ok true) = Ok true).
  { destruct (bool_decide_reflect (cmr d ∈ live r)) as [Hc|Hc]; [|done]. destruct (lk_in _ _ L _ Hc) as [ep Ep]. cbn [pool with_pool]. rewrite (get_ok _ _ ep) by (by rewrite lookup_insert_ne). cbn [mbind res_bind].
    f_equal. apply Hv; [done|by apply dat_lookup]. }
  cbn [mbind res_bind] in E0 |- *. rewrite E0. cbn [mbind res_bind negb]. clear E0.
  rewrite (place_ok r rt k d St Hkl). cbn [mbind res_bind]. fold conn known. destruct (link_placed r rt k d St Hkl Hd Hck Hv) as (P1 & E1 & L1 & Hr & Hk0 & Hkids & Hpar & Hout).
  fold conn known in E1, Hr, Hpar. destruct (placed_ins P1 Hv L1 Hr Hk0 Hkids Hpar) as (I1 & Hl1 & Hp1). fold conn known in I1, Hl1, Hp1.
  set (r1 := placed conn known k (cmr d) P1 r) in *. set (r0 := placed conn known k (cmr d) _ r). change (pool r0) with (<[k := set_in_out conn (new_fec d)]> (pool r)).
  assert (E2 : match (if known then Some (cmr d) else None) with None => Ok (<[k := set_in_out conn (new_fec d)]> (pool r)) | Some p => link p k (<[k := set_in_out conn (new_fec d)]> (pool r)) end = Ok P1).
  { rewrite <- E1. by destruct known. }
  rewrite E2. cbn [mbind res_bind]. change (with_pool P1 r0) with r1. change (subtreel r0) with (subtreel r1).
  pose proof (io_state _ _ _ _ _ I1) as St1. destruct (so_subl _ _ _ St1) as [Hns Hsl].
  destruct (adopt_ok rt k d dead opt_store Hd (subtreel r1) (S (length (subtreel r1))) [] (links_of None (subtreel r1)) r1 I1 Hp1 eq_refl (links_of_list _ Hns) (Nat.lt_succ_diag_r _)) as (r2 & D & E3 & I2 & A2). rewrite E3. cbn [mbind res_bind]. clear E2 E3.
  pose proof (io_state _ _ _ _ _ I2) as St2. destruct (io_in _ _ _ _ _ I2) as [Hk2 Hkr]. pose proof A2 as [A21 A22 A23 (A24 & A25 & A26 & A27) A28 A29 A210 A211].
  assert (Hdone : forall x dx, x ∈ subtrees r2 -> dat (pool r2) x = Some dx -> cmr dx <> k) by (intros x dx Hx; apply A28; [|done]; apply Hsl; by apply A29).
  assert (Hpk : par (pool r2) k = if known then Some (cmr d) else None).
  { assert (Hk1 : par P1 k = if known then Some (cmr d) else None) by (rewrite Hpar; by rewrite decide_True). destruct known eqn:Ek; [rewrite A210; [done|done|]; change (pool r1) with P1; congruence|].
    destruct (par (pool r2) k) as [q|] eqn:Eq; [|done]. exfalso. pose proof (so_links _ _ _ St2) as L2. destruct (lk_par _ _ L2 k q Hk2 Eq) as [Hq _]. destruct (lk_in _ _ L2 q Hq) as [eq' Eq'].
    destruct (so_par _ _ _ St2 k d q (data eq') Hk2 Eq (new_data _ _ _ _ _ I2) (dat_lookup _ _ _ Eq')) as [-> _]. rewrite A21, Hl1 in Hq. unfold known in Ek. rewrite bool_decide_eq_false in Ek. set_solver. }
  assert (Hfk : k ∈ frontier r2 <-> conn = true).
  { rewrite A25. unfold r1, placed. cbn. destruct conn; [set_solver|]. split; [|done]. intros Hf. exfalso. apply Hkl. unfold live. set_solver. }
  destruct (decide (k ∈ frontier r2)) as [Hf|Hf].
  - destruct (fec_advance_ok r2 rt k St2 Hf Hdone (io_cap _ _ _ _ _ I2)) as (vis & P3 & E3 & HQ & Hnv & Hvis & HD & HO). rewrite E3. cbn [mbind res_bind].
    destruct (advanced_state r2 rt k St2 Hf Hdone (io_cap _ _ _ _ _ I2) vis P3 HQ Hnv Hvis HD) as (St3 & Hl3 & Hm3). set (r3 := advanced r2 vis P3) in *. set (ps := vis ≫= kids (pool r2)) in *.
    destruct (settle r2 r3 ps I2 St3 Hl3 HQ eq_refl eq_refl) as (P & X & E4 & R & W').
    assert (Hpk3 : par (pool r3) k = if known then Some (cmr d) else None) by (rewrite <- Hpk; symmetry; apply (agree_par (live r2)); [by apply (queued_agree ps)|done]). rewrite Hpk3 in E4. rewrite E4. cbn [mbind res_bind].
    eexists. split; [done|]. split; [done|]. apply (inserted_intro P1 r2 D r3 ps); try done.
    { intros x Hx. assert (Hxv : x ∈ vis) by (rewrite Hvis; apply elem_of_app; by right). apply HD in Hxv. destruct (decide (x = k)) as [->|Hxk]; [|by apply (below_orphan r2 rt k St2 Hf Hdone (io_cap _ _ _ _ _ I2) x)].
      exfalso. rewrite Hvis in Hnv. apply NoDup_app in Hnv as (_ & Hnk & _). apply (Hnk k); [by left|done]. }
    right. cbn [app] in Hvis. rewrite <- Hvis. split; [by apply Hfk|]. split; [done|]. intros x Hx%HD. by apply (below_in _ _ (so_links _ _ _ St2) k).
  - assert (St3 : state_ok r2 rt None) by (by apply (unconnected_state r2 rt k)). cbn [mbind res_bind]. destruct (settle r2 r2 [] I2 St3 eq_refl (queued_nil _) eq_refl eq_refl) as (P & X & E4 & R & W').
    rewrite Hpk in E4. rewrite E4. cbn [mbind res_bind]. eexists. split; [done|]. split; [done|]. apply (inserted_intro P1 r2 D r2 []); try done; [apply queued_nil|by rewrite app_nil_r| |by intros x ?%not_elem_of_nil|].
    + intros x. split; [by left|]. by intros [?|?%not_elem_of_nil].
    + left. split; [|done]. destruct conn; [|done]. by destruct Hf; apply Hfk.
Qed.

End insert.
