(* ===== verification/ReasmRemove.v ===== *)
(** * Removing leaves

    Making room: a leaf is taken out of its tree, and in the connected tree the
    chain of only children above it goes with it. *)

From S2P Require Import Prelude Bits Reasm ReasmTree ReasmInv ReasmMark ReasmPlace ReasmInsert.

#[local] Open Scope Z_scope.

(** ** What is left *)

Section cut.
Context (r r' : fd_reasm_t) (rt : Z) (D : gset Z) (W : wf_dead r rt ∅).
Context (HD : D ⊆ live r) (Hrt : rt ∉ D) (Hdown : forall c p, c ∈ live r -> p ∈ D -> par (pool r) c = Some p -> c ∈ D).
Context (L' : links (pool r') (live r ∖ D)) (K : keeps (pool r) (pool r') (live r ∖ D)) (Hpar : forall x, x ∈ live r ∖ D -> par (pool r') x = par (pool r) x).
Context (Hroot : root r' = root r) (Hmax : fec_max r' = fec_max r) (Hdom : dom (pool r') = dom (pool r)).
Context (Ha : forall x, x ∈ ancestry r' <-> x ∈ live r ∖ D /\ x ∈ ancestry r ∪ frontier r /\ kids (pool r') x <> []).
Context (Hf : forall x, x ∈ frontier r' <-> x ∈ live r ∖ D /\ x ∈ ancestry r ∪ frontier r /\ kids (pool r') x = []).
Context (Ho : forall x, x ∈ orphaned r' <-> x ∈ live r ∖ D /\ x ∈ orphaned r) (Hs : forall x, x ∈ subtrees r' <-> x ∈ live r ∖ D /\ x ∈ subtrees r).
Context (Hl : NoDup (subtreel r') /\ forall x, x ∈ subtreel r' <-> x ∈ subtrees r') (Hq : NoDup (out r') /\ forall x, x ∈ out r' <-> x ∈ live r ∖ D /\ x ∈ out r).
Context (Hx : xid_wf (pool r') (live r ∖ D) (xid r')).

Lemma cut_live : live r' = live r ∖ D.
Proof using Ha Hf Ho Hs.
  clear - Ha Hf Ho Hs. apply set_eq. intros x. rewrite live_maps, !elem_of_union, Ha, Hf, Ho, Hs. split; [tauto|]. intros Hxl. apply elem_of_difference in Hxl as Hxl'. destruct Hxl' as [Hx' _].
  apply live_maps in Hx' as [Hx'|Hx']; [destruct (kids (pool r') x); [left; right; split_and!; done|left; left; split_and!; done]|]. apply elem_of_union in Hx' as [?|?]; tauto.
Qed.

Lemma cut_conn x : x ∈ live r ∖ D -> connected (pool r') rt x <-> connected (pool r) rt x.
Proof using HD Hrt Hdown L' Hpar W.
  pose proof (so_links _ _ _ (wd_state _ _ _ W)) as L. intros Hx'. split.
  - intros Hc. apply (connx_ext (pool r') _ _ _ L' (pool r)) in Hc; done.
  - intros Hc. revert Hx'. induction Hc as [|y p Ep Hp Hc IH]; intros Hy; [constructor|]. apply elem_of_difference in Hy as Hy'. destruct Hy' as [Hyl Hyd]. destruct (lk_par _ _ L y p Hyl Ep) as [Hpl _].
    apply (connx_step _ _ _ y p); [by rewrite Hpar|done|]. apply IH. apply elem_of_difference. split; [done|]. intros Hpd. by apply Hyd, (Hdown y p).
Qed.

Lemma cut_wf : wf_dead r' rt D.
Proof using All.
  pose proof cut_live as Hlive. pose proof cut_conn as Hconn. destruct W as [St W2 W3 [C1 C2] W5 W6]. destruct (so_root _ _ _ St) as (R1 & R2 & R3). assert (Hrw : rt ∈ live r ∖ D) by (by apply elem_of_difference).
  split; rewrite ?Hlive; try done.
  - destruct Hl as [Hl1 Hl2], Hq as [Hq1 Hq2]. apply (state_ok_part r r' rt rt None (live r ∖ D)); try done.
    + clear; set_solver.
    + congruence.
    + by rewrite Hpar.
    + apply (so_complete _ _ _ St).
    + intros x Hxw _. by apply Hpar.
    + intros x. rewrite Ha. naive_solver.
    + intros x. rewrite Hf. naive_solver.
  - apply (eqvoc_ok_part r r' rt (live r ∖ D)); try done; [clear; set_solver|by rewrite Hpar|]. intros x Hxw _. by apply Hpar.
  - split; [by rewrite Hmax|]. rewrite Hmax, <- (size_dom (D := gset Z) (pool r')), Hdom, size_dom. done.
  - rewrite Hdom, W5. clear - HD. apply set_eq. intros x. rewrite !elem_of_union, elem_of_difference. destruct (decide (x ∈ D)); [|set_solver]. split; [by right|]. intros _. left. by apply HD.
  - clear. set_solver.
Qed.

End cut.

(** What a removal leaves alone. *)
Record cut_out (D : list Z) (r r' : fd_reasm_t) : Prop := mk_cut_out {
  co_in : forall x, x ∈ D -> x ∈ live r;
  co_live : live r' = live r ∖ list_to_set D;
  co_keeps : keeps (pool r) (pool r') (live r');
  co_par : forall x, x ∈ live r' -> par (pool r') x = par (pool r) x;
  co_out : out r' = filter (.∉ D) (out r);
  co_maps : forall x, x ∈ ancestry r' ∪ frontier r' <-> x ∈ live r' /\ x ∈ ancestry r ∪ frontier r;
  co_sub : subtrees r' ⊆ subtrees r;
  co_same : root r' = root r /\ fec_max r' = fec_max r;
}.

(** The chain that can be followed from its first element. *)
Fixpoint run (P : fecs) (o : option Z) (l : list Z) : Prop :=
  match l with [] => o = None | k :: l => o = Some k /\ exists e, P !! k = Some e /\ run P (child e) l end.

(** ** A leaf of an orphaned tree *)

Section orphan.
Context (r : fd_reasm_t) (rt k : Z) (e : fd_reasm_fec_t) (opt_store : bool) (W : wf_dead r rt ∅) (Hk : k ∈ orphaned r ∪ subtrees r) (E : pool r !! k = Some e) (Hleaf : child e = None).

Let St := wd_state _ _ _ W.
Let L := so_links _ _ _ St.

Definition dropped (P : fecs) (X : gmap Z xid_t) : fd_reasm_t :=
  let r1 := mk_reasm (fec_max r) (slot0 r) (root r) P (ancestry r) (frontier r) (orphaned r ∖ {[k]}) (subtrees r ∖ {[k]}) (filter (.≠ k) (subtreel r)) (out r) X (removed r) in
  store_remove opt_store k r1.

Lemma k_orphan : k ∈ live r /\ ~ connected (pool r) rt k /\ kids (pool r) k = [] /\ k ∉ ancestry r ∪ frontier r /\ k ∉ out r /\ rt <> k.
Proof using All.
  destruct (maps_disjoint _ _ _ St) as (D1 & D2 & D3). assert (Hkl : k ∈ live r) by (apply live_maps; by right). assert (Hkc : k ∉ ancestry r ∪ frontier r) by (intros ?; by apply (D2 k)).
  assert (Hnc : ~ connected (pool r) rt k) by (intros Hc; apply Hkc, (connected_maps _ _ _ _ St); done). split_and!; try done.
  - by apply (kids_child _ _ L k e).
  - intros Hq. apply (so_out _ _ _ St) in Hq as [_ ?]. done.
  - intros <-. apply Hnc. constructor.
Qed.

Lemma drop_wf P X : keeps (pool r) P (live r ∖ {[k]}) -> links P (live r ∖ {[k]}) -> dom P = dom (pool r) -> (forall x, x ∈ live r ∖ {[k]} -> par P x = par (pool r) x) ->
  (forall x, x ∈ live r ∖ {[k]} -> connected (pool r) rt x -> kids P x = kids (pool r) x) -> xid_wf P (live r ∖ {[k]}) X ->
  wf_dead (dropped P X) rt {[k]} /\ cut_out [k] r (dropped P X).
Proof using All.
  intros K L' Hdom Hpar Hkids Hx. destruct k_orphan as (Hkl & Hnc & Hk0 & Hkm & Hkq & Hrk). set (r' := dropped P X). destruct (so_subl _ _ _ St) as [Hl1 Hl2].
  assert (Hp : pool r' = P /\ xid r' = X /\ out r' = out r /\ root r' = root r /\ fec_max r' = fec_max r /\ ancestry r' = ancestry r /\ frontier r' = frontier r /\ orphaned r' = orphaned r ∖ {[k]} /\ subtrees r' = subtrees r ∖ {[k]} /\ subtreel r' = filter (.≠ k) (subtreel r))
    by (unfold r', dropped, store_remove; by destruct opt_store).
  destruct Hp as (P1 & P2 & P3 & P4 & P5 & P6 & P7 & P8 & P9 & P10).
  assert (Hmk : forall x, x ∈ ancestry r ∪ frontier r -> x ∈ live r ∖ {[k]} /\ connected (pool r) rt x).
  { intros x Hx'. apply (connected_maps _ _ _ _ St) in Hx' as Hx''. destruct Hx''. split; [|done]. apply elem_of_difference. rewrite elem_of_singleton. split; [done|]. by intros ->. }
  assert (Hd : forall x s, x ∈ s ∖ {[k]} -> s ⊆ live r -> x ∈ live r ∖ {[k]}) by (clear; set_solver).
  assert (Ha : forall x, x ∈ ancestry r' <-> x ∈ live r ∖ {[k]} /\ x ∈ ancestry r ∪ frontier r /\ kids (pool r') x <> []).
  { intros x. rewrite P6, P1. split.
    - intros Hx'. assert (Hm : x ∈ ancestry r ∪ frontier r) by (apply elem_of_union; by left). destruct (Hmk x Hm). split_and!; try done. rewrite Hkids by done. by apply (so_anc _ _ _ St) in Hx' as (_ & _ & _ & ?).
    - intros (H1 & H2 & H3). destruct (Hmk x H2) as [_ Hc]. rewrite Hkids in H3 by done. apply elem_of_union in H2 as [?|H2]; [done|]. by apply (so_fro _ _ _ St) in H2 as (_ & _ & [?|?]). }
  assert (Hf : forall x, x ∈ frontier r' <-> x ∈ live r ∖ {[k]} /\ x ∈ ancestry r ∪ frontier r /\ kids (pool r') x = []).
  { intros x. rewrite P7, P1. split.
    - intros Hx'. assert (Hm : x ∈ ancestry r ∪ frontier r) by (apply elem_of_union; by right). destruct (Hmk x Hm). split_and!; try done. rewrite Hkids by done. by apply (so_fro _ _ _ St) in Hx' as (_ & _ & [?|?]).
    - intros (H1 & H2 & H3). destruct (Hmk x H2) as [_ Hc]. rewrite Hkids in H3 by done. apply elem_of_union in H2 as [H2|?]; [|done]. by apply (so_anc _ _ _ St) in H2 as (_ & _ & _ & ?). }
  assert (Ho : forall x, x ∈ orphaned r' <-> x ∈ live r ∖ {[k]} /\ x ∈ orphaned r) by (intros x; rewrite P8; unfold live; clear; set_solver).
  assert (Hs : forall x, x ∈ subtrees r' <-> x ∈ live r ∖ {[k]} /\ x ∈ subtrees r) by (intros x; rewrite P9; unfold live; clear; set_solver).
  assert (Hlive : live r' = live r ∖ {[k]}) by (apply (cut_live r r' {[k]} Ha Hf Ho Hs)). assert (Hls : list_to_set [k] = ({[k]} : gset Z)) by (cbn; by rewrite union_empty_r_L). rewrite P1 in Ha, Hf.
  split.
  - apply (cut_wf r); rewrite ?P1, ?P2; try done.
    + by apply singleton_subseteq_l.
    + rewrite elem_of_singleton. done.
    + intros c p Hc ->%elem_of_singleton Ep. exfalso. assert (Hin : c ∈ kids (pool r) k) by (by apply (kids_iff _ _ L)). rewrite Hk0 in Hin. by apply not_elem_of_nil in Hin.
    + rewrite P10, P9. split; [by apply NoDup_filter|]. intros x. rewrite list_elem_of_filter, Hl2, elem_of_difference, elem_of_singleton. tauto.
    + rewrite P3. destruct (so_out _ _ _ St) as [Hq1 Hq2]. split; [done|]. intros x. rewrite elem_of_difference, elem_of_singleton. split; [|tauto]. intros Hx'. split; [|done]. split; [by apply Hq2|]. by intros ->.
  - split; rewrite ?Hlive, ?P1; try done.
    + by intros x ->%list_elem_of_singleton.
    + by rewrite Hls.
    + rewrite P3. clear - Hkq. induction (out r) as [|y l IH]; [done|]. apply not_elem_of_cons in Hkq as [Hy Hl]. rewrite filter_cons_True by (rewrite list_elem_of_singleton; congruence). by rewrite <- IH.
    + intros x. rewrite P6, P7. split; [|tauto]. intros Hx'. split; [by apply Hmk|done].
    + rewrite P9. clear. set_solver.
Qed.

Lemma xid_rest P : same_rest (pool r) P -> xid_wf P (live r) (xid r).
Proof using W.
  intros Hr. apply (xid_wf_ext (pool r)); [|apply W]. intros x _. specialize (Hr x). destruct (P !! x), (pool r !! x); cbn in *; try done. unfold rest in Hr. split; congruence.
Qed.

Lemma remove_orphan : exists r', fd_reasm_remove opt_store k r = Ok (k, r') /\ wf_dead r' rt {[k]} /\ cut_out [k] r r' /\ run (pool r') (Some k) [k].
Proof using All.
  destruct k_orphan as (Hkl & Hnc & Hk0 & Hkm & Hkq & Hrk). unfold fd_reasm_remove. rewrite (get_ok _ _ _ E). cbn [mbind res_bind]. rewrite decide_True by done. rewrite bool_decide_eq_true_2 by done.
  cbn [FD_TEST mbind res_bind]. unfold orphan_children. rewrite (get_ok _ _ _ E). cbn [mbind res_bind]. rewrite Hleaf. cbn [mbind res_bind]. rewrite (get_ok _ _ _ E). cbn [mbind res_bind].
  assert (Hdown : forall c q, c ∈ live r -> q ∈ ({[k]} : gset Z) -> par (pool r) c = Some q -> c ∈ ({[k]} : gset Z)).
  { intros c q Hc ->%elem_of_singleton Ep. exfalso. assert (Hin : c ∈ kids (pool r) k) by (by apply (kids_iff _ _ L)). rewrite Hk0 in Hin. by apply not_elem_of_nil in Hin. }
  assert (Hin : forall x, x ∈ live r -> is_Some (pool r !! x)) by apply L. assert (Hsz : Z.of_nat (size (pool r)) < 2 ^ 32) by (destruct (wd_cap _ _ _ W); lia).
  destruct (parent e) as [p|] eqn:Ep.
  - assert (Epp : par (pool r) k = Some p) by (by rewrite (par_lookup _ _ _ E)). destruct (lk_par _ _ L k p Hkl Epp) as [Hpl Hrkp].
    destruct (fec_unlink_ok (pool r) (live r) {[k]} p k L) as (P & EP & Hr & LP & Hpar & Hkp & Hkx & Hag); try done.
    { clear; set_solver. } { by apply singleton_subseteq_l. } { rewrite elem_of_singleton. intros ->. lia. } { intros x ->%elem_of_singleton Hxk. done. }
    rewrite EP. cbn [mbind res_bind]. assert (Hko : k ∈ orphaned r) by (apply (so_orp _ _ _ St); split_and!; try done; congruence).
    destruct (decide (k ∈ orphaned (with_pool P r))) as [_|Hn]; [|done]. destruct (maps_disjoint _ _ _ St) as (_ & _ & D3).
    set (r1 := with_orphaned (orphaned (with_pool P r) ∖ {[k]}) (with_pool P r)).
    destruct (clear_xid_ok r1 (live r) k) as (Q & X & EQ & Hst & Hxw); try done.
    { by apply xid_rest. } { intros x Hx. cbn. destruct (Hin x Hx) as [ex Ex]. destruct (same_rest_lookup _ _ _ _ Hr Ex) as (ex' & ? & _). by exists ex'. } { cbn. by rewrite <- (same_rest_size _ _ Hr). }
    rewrite EQ. cbn [mbind res_bind]. set (r' := store_remove opt_store k _).
    assert (Er : r' = dropped Q X).
    { unfold r', dropped. f_equal. unfold with_xid, with_pool, r1, with_orphaned. cbn. f_equal; [clear - Hko D3; set_solver|]. symmetry. apply filter_ne. rewrite (proj2 (so_subl _ _ _ St)). intros ?. by apply (D3 k). }
    exists r'. split; [done|]. rewrite Er.
    assert (Ha : agree (live r ∖ {[k]}) P Q) by (by apply same_strip_agree). assert (LQ : links Q (live r ∖ {[k]})) by (by apply (links_agree _ P)).
    destruct (drop_wf Q X) as [Hw Hc]; try done.
    + apply (keeps_trans _ P); [apply (same_rest_keeps _ _ (live r)); [done|clear; set_solver|done]|]. apply (strip_keeps P Q (live r ∖ {[k]})); [done|done|]. intros x _. by rewrite Hst.
    + by rewrite <- (same_strip_dom _ _ Hst), (same_rest_dom _ _ Hr).
    + intros x Hx. rewrite <- Hpar. symmetry. by apply (agree_par (live r ∖ {[k]})).
    + intros x Hx Hcx. rewrite <- (kids_agree (live r ∖ {[k]}) P Q) by done. apply Hkx; [done|]. intros ->. apply Hnc. by apply (connx_step _ _ _ k p).
    + split; [done|]. split; [done|]. cbn. split; [done|].
      assert (Hck : exists e', Q !! k = Some e' /\ child e' = None).
      { assert (Hkd : k ∈ ({[k]} : gset Z)) by (clear; set_solver). destruct (agree_lookup _ _ _ _ _ Hag Hkd E) as (e1 & E1 & Hs1). destruct (same_strip_lookup _ _ _ _ Hst E1) as (e2 & E2 & Hs2).
        exists e2. split; [done|]. destruct (strip_fields _ _ Hs2) as (_ & _ & -> & _). unfold shape in Hs1. congruence. }
      destruct Hck as (e' & E' & Hc'). exists e'. split; [|done]. unfold dropped, store_remove. destruct opt_store; exact E'.
  - assert (Epp : par (pool r) k = None) by (by rewrite (par_lookup _ _ _ E)). assert (Hks : k ∈ subtrees r) by (apply (so_sub _ _ _ St); split_and!; done). destruct (maps_disjoint _ _ _ St) as (_ & _ & D3).
    rewrite list_remove_ok by (by apply (so_subl _ _ _ St)). cbn [mbind res_bind]. set (r1 := with_subtrees _ _ r). destruct (clear_xid_ok r1 (live r) k) as (Q & X & EQ & Hst & Hxw); try done.
    { apply W. } rewrite EQ. cbn [mbind res_bind]. set (r' := store_remove opt_store k _).
    assert (Er : r' = dropped Q X).
    { unfold r', dropped. f_equal. unfold with_xid, with_pool, r1, with_subtrees. cbn. f_equal. clear - Hks D3. set_solver. }
    exists r'. split; [done|]. rewrite Er. assert (Ha : agree (live r) (pool r) Q) by (by apply same_strip_agree).
    assert (L0 : links (pool r) (live r ∖ {[k]})).
    { apply (links_sub _ (live r)); [done|clear; set_solver| |]; intros c q; rewrite !elem_of_difference, !elem_of_singleton.
      - intros [Hc Hck] Eq. destruct (lk_par _ _ L c q Hc Eq) as [Hq _]. split; [done|]. intros ->. assert (Hkd : k ∈ ({[k]} : gset Z)) by (clear; set_solver). specialize (Hdown c k Hc Hkd Eq). by apply elem_of_singleton in Hdown.
      - intros [Hq Hqk] Hc Eq. split; [done|]. intros ->. congruence. }
    assert (LQ : links Q (live r ∖ {[k]})) by (apply (links_agree _ (pool r)); [by apply same_strip_agree|done]).
    destruct (drop_wf Q X) as [Hw Hc]; try done.
    + apply (strip_keeps (pool r) Q (live r)); [done|clear; set_solver|]. intros x _. by rewrite Hst.
    + by rewrite <- (same_strip_dom _ _ Hst).
    + intros x Hx. symmetry. apply (agree_par {[x]}); [by apply same_strip_agree|clear; set_solver].
    + intros x Hx _. symmetry. by apply (kids_agree (live r ∖ {[k]})); [apply same_strip_agree|..].
    + split; [done|]. split; [done|]. cbn. split; [done|]. destruct (same_strip_lookup _ _ _ _ Hst E) as (e2 & E2 & Hs2). exists e2. destruct (strip_fields _ _ Hs2) as (_ & _ & Hce & _).
      split; [unfold dropped, store_remove; destruct opt_store; exact E2|]. congruence.
Qed.

End orphan.

(** * Removing a chain of the connected tree *)

Lemma run_ext P Q l o : (forall x, x ∈ l -> child <$> P !! x = child <$> Q !! x) -> run P o l -> run Q o l.
Proof.
  revert o. induction l as [|k l IH]; intros o H; cbn; [done|]. intros (-> & e & E & Hr). split; [done|]. pose proof (H k ltac:(by left)) as Hk. rewrite E in Hk. destruct (Q !! k) as [e'|]; [|done].
  exists e'. split; [done|]. cbn in Hk. injection Hk as <-. apply IH; [|done]. intros x Hx. apply H. by right.
Qed.

(** The caller gets every element of the chain back. *)
Lemma release_chain_ok l : forall n o r, run (pool r) o l -> NoDup l -> (length l <= n)%nat ->
  exists P, release_evicted_chain n o r = Ok (with_pool P r) /\ forall x, P !! x = if decide (x ∈ l) then None else pool r !! x.
Proof.
  induction l as [|k l IH]; intros n o r Hr Hn Hl; cbn in Hr.
  - subst o. exists (pool r). split; [destruct n; by destruct r|]. intros x. destruct (decide (x ∈ [])) as [Hx|]; [by apply not_elem_of_nil in Hx|done].
  - destruct Hr as (-> & e & E & Hr). apply NoDup_cons in Hn as [Hk Hn]. destruct n as [|n]; [simpl in Hl; lia|]. cbn [release_evicted_chain try_evict_reasm]. unfold fd_reasm_pool_release. rewrite (get_ok _ _ _ E). cbn [mbind res_bind].
    destruct (IH n (child e) (release k r)) as (P & EP & HP); [|done|simpl in Hl; lia|].
    + apply (run_ext (pool r)); [|done]. intros x Hx. cbn. rewrite lookup_delete_ne by (by intros ->). done.
    + exists P. split; [done|]. intros x. rewrite HP. cbn. destruct (decide (x ∈ l)) as [Hx|Hx]; [rewrite decide_True by (by right); done|]. destruct (decide (x = k)) as [->|Hxk].
      * rewrite lookup_delete_eq. destruct (decide (k ∈ k :: l)) as [|Hn']; [done|]. destruct Hn'. by left.
      * rewrite lookup_delete_ne by done. rewrite decide_False; [done|]. rewrite elem_of_cons. by intros [?|?].
Qed.

(** ** The loop *)

(** The state after the elements [ch] are taken out. *)
Definition unchained (ch : list Z) (Q : fecs) (X : gmap Z xid_t) (rm : list Z) (r : fd_reasm_t) : fd_reasm_t :=
  mk_reasm (fec_max r) (slot0 r) (root r) Q (ancestry r ∖ list_to_set ch) (frontier r ∖ list_to_set ch) (orphaned r) (subtrees r) (subtreel r) (filter (.∉ ch) (out r)) X rm.

Definition off (ch : list Z) (P Q : fecs) : Prop := forall x, strip <$> Q !! x = (fun e => strip ((if decide (x ∈ ch) then set_in_out false else id) e)) <$> P !! x.

Lemma off_child ch P Q x : off ch P Q -> child <$> P !! x = child <$> Q !! x.
Proof. intros H. specialize (H x). destruct (P !! x), (Q !! x); cbn in *; try done. destruct (decide (x ∈ ch)); injection H as ? ? ? ? ? ? ? ?; congruence. Qed.

Lemma off_dom ch P Q : off ch P Q -> dom Q = dom P.
Proof. intros H. apply set_eq. intros x. rewrite !elem_of_dom. specialize (H x). destruct (P !! x), (Q !! x); cbn in H; try done; split; intros; by eauto. Qed.

Lemma off_cons k ch P P1 Q : off [k] P P1 -> off ch P1 Q -> off (k :: ch) P Q.
Proof.
  intros H1 H2 x. rewrite (H2 x). specialize (H1 x). destruct (P !! x) as [e|], (P1 !! x) as [e1|]; cbn in *; try done. f_equal. injection H1 as H1.
  destruct (decide (x ∈ [k])) as [Hk|Hk]; rewrite list_elem_of_singleton in Hk; destruct (decide (x ∈ ch)), (decide (x ∈ k :: ch)) as [Hx|Hx]; rewrite elem_of_cons in Hx; try tauto;
    unfold strip, set_xid_next, set_in_out in *; cbn in *; congruence.
Qed.

Lemma filter_out_cons k (ch l : list Z) : filter (.∉ k :: ch) l = filter (.∉ ch) (filter (.∉ [k]) l).
Proof. rewrite list_filter_filter. apply list_filter_iff. intros y. rewrite elem_of_cons, list_elem_of_singleton. tauto. Qed.

Lemma out_remove_ok k e r : pool r !! k = Some e -> (in_out e = true <-> k ∈ out r) -> exists P, out_remove k r = Ok (with_out (filter (.∉ [k]) (out r)) (with_pool P r)) /\ off [k] (pool r) P /\
  forall x, xid_next <$> pool r !! x = xid_next <$> P !! x.
Proof.
  intros E Hio. unfold out_remove. rewrite (get_ok _ _ _ E). cbn [mbind res_bind].
  assert (Hf : filter (.∉ [k]) (out r) = filter (.≠ k) (out r)) by (apply list_filter_iff; intros y; by rewrite list_elem_of_singleton). rewrite Hf. destruct (in_out e) eqn:Ei.
  - rewrite list_remove_ok by (by apply Hio). cbn [mbind res_bind]. unfold update. cbn [pool with_out]. rewrite (upd_ok _ _ _ _ E). cbn [mbind res_bind]. exists (<[k := set_in_out false e]> (pool r)). split; [done|].
    split; intros x; [|destruct (decide (x = k)) as [->|]; [by rewrite lookup_insert_eq, E|by rewrite lookup_insert_ne]].
    destruct (decide (x ∈ [k])) as [->%list_elem_of_singleton|Hx]; [by rewrite lookup_insert_eq, E|]. rewrite lookup_insert_ne by (intros ->; apply Hx; by left). by destruct (pool r !! x).
  - exists (pool r). split.
    + rewrite filter_ne by (intros Hk; by apply Hio in Hk). by destruct r.
    + split; [|done]. intros x. destruct (pool r !! x) as [e'|] eqn:E'; [|done]. cbn. destruct (decide (x ∈ [k])) as [->%list_elem_of_singleton|Hx]; [|done]. rewrite E in E'. injection E' as <-. f_equal. destruct e; cbn in *. by subst.
Qed.

Lemma remove_chain_ok opt_store ch : forall n o r U, run (pool r) o ch -> NoDup ch -> (length ch <= n)%nat -> (forall x e, x ∈ ch -> pool r !! x = Some e -> in_out e = true <-> x ∈ out r) ->
  (forall x, x ∈ ch -> x ∈ ancestry r ∪ frontier r /\ x ∈ U) -> ancestry r ## frontier r -> xid_wf (pool r) U (xid r) -> (forall x, x ∈ U -> is_Some (pool r !! x)) -> Z.of_nat (size (pool r)) < 2 ^ 32 ->
  exists Q X rm, remove_chain n opt_store o r = Ok (unchained ch Q X rm r) /\ off ch (pool r) Q /\ xid_wf Q (U ∖ list_to_set ch) X.
Proof.
  induction ch as [|k ch IH]; intros n o r U Hr Hn Hl Hio Hin Hdj Hx HU Hsz; cbn in Hr.
  - subst o. exists (pool r), (xid r), (removed r). split; [|split].
    + assert (Eu : unchained [] (pool r) (xid r) (removed r) r = r).
      { unfold unchained. cbn [list_to_set]. rewrite filter_nil, !difference_empty_L. by destruct r. }
      rewrite Eu. by destruct n.
    + intros x. destruct (pool r !! x); [cbn|done]. destruct (decide (x ∈ [])) as [Hx'|]; [by apply not_elem_of_nil in Hx'|done].
    + cbn [list_to_set]. by rewrite difference_empty_L.
  - destruct Hr as (-> & e & E & Hr). apply NoDup_cons in Hn as [Hk Hn]. destruct n as [|n]; [simpl in Hl; lia|]. cbn [remove_chain]. destruct (Hin k ltac:(by left)) as [Hkm HkU].
    set (r1 := mk_reasm (fec_max r) (slot0 r) (root r) (pool r) (ancestry r ∖ {[k]}) (frontier r ∖ {[k]}) (orphaned r) (subtrees r) (subtreel r) (out r) (xid r) (removed r)).
    assert (E1 : (if decide (k ∈ ancestry r) then Ok (with_ancestry (ancestry r ∖ {[k]}) r) else if decide (k ∈ frontier r) then Ok (with_frontier (frontier r ∖ {[k]}) r) else Ub) = Ok r1).
    { unfold r1. destruct (decide (k ∈ ancestry r)) as [Ha|Ha].
      - unfold with_ancestry. do 2 f_equal. clear - Ha Hdj. set_solver.
      - destruct (decide (k ∈ frontier r)) as [Hf|Hf]; [|exfalso; apply elem_of_union in Hkm as [?|?]; done]. unfold with_frontier. do 2 f_equal. clear - Ha. set_solver. }
    rewrite E1. cbn [mbind res_bind]. clear E1. destruct (out_remove_ok k e r1 E (Hio k e ltac:(by left) E)) as (P1 & E2 & HP1 & Hxn). rewrite E2. cbn [mbind res_bind pool with_out with_pool].
    pose proof (off_child _ _ _ k HP1) as Hce. change (pool r1) with (pool r) in Hce, HP1. rewrite E in Hce. destruct (P1 !! k) as [e1|] eqn:Ek1; [|done]. cbn in Hce. injection Hce as Hce.
    rewrite (get_ok _ _ _ Ek1). cbn [mbind res_bind]. set (r2 := with_out _ (with_pool P1 r1)).
    assert (Hs1 : size P1 = size (pool r)) by (by rewrite <- !(size_dom (D := gset Z)), (off_dom _ _ _ HP1)).
    destruct (clear_xid_ok r2 U k) as (P2 & X2 & E3 & Hst & Hxw); try done.
    { cbn. change (xid r2) with (xid r). assert (Hd : forall x, (data <$> pool r !! x = data <$> P1 !! x)) by (intros x; specialize (HP1 x); destruct (pool r !! x), (P1 !! x); cbn in *; try done; destruct (decide (x ∈ [k])); injection HP1 as ? ? ? ? ? ? ? ?; congruence).
      apply (xid_wf_ext (pool r)); [|done]. intros x _. split; [done|apply Hxn]. }
    { intros x Hx'. cbn. specialize (HP1 x). destruct (HU x Hx') as [ex Ex]. rewrite Ex in HP1. destruct (P1 !! x) as [e'|]; [by exists e'|done]. }
    { cbn. by rewrite Hs1. }
    rewrite E3. cbn [mbind res_bind]. set (r3 := store_remove opt_store k _).
    assert (Hp3 : pool r3 = P2 /\ xid r3 = X2 /\ ancestry r3 = ancestry r ∖ {[k]} /\ frontier r3 = frontier r ∖ {[k]} /\ out r3 = filter (.∉ [k]) (out r)) by (unfold r3, store_remove; by destruct opt_store).
    destruct Hp3 as (Hp & Hx3 & Ha3 & Hf3 & Ho3). assert (Hoff : off [k] (pool r) P2) by (intros x; rewrite <- (Hst x); apply HP1).
    rewrite <- Hce. destruct (IH n (child e) r3 (U ∖ {[k]})) as (Q & X & rm & E4 & HQ & HXQ); rewrite ?Hp, ?Hx3, ?Ha3, ?Hf3, ?Ho3; try done.
    + apply (run_ext (pool r)); [|done]. intros x _. by apply (off_child [k]).
    + simpl in Hl. lia.
    + intros x ex Hxc Ex. rewrite list_elem_of_filter, list_elem_of_singleton. specialize (Hoff x). rewrite Ex in Hoff. destruct (pool r !! x) as [e0|] eqn:E0; [|done]. cbn in Hoff.
      assert (Hxk : x <> k) by (by intros ->). destruct (decide (x ∈ [k])) as [?%list_elem_of_singleton|_]; [done|]. assert (Hs : strip ex = strip e0) by (cbn in Hoff; congruence). destruct (strip_fields _ _ Hs) as (_ & _ & _ & _ & _ & _ & _ & ->). cbn. rewrite (Hio x e0); [tauto|by right|done].
    + intros x Hxc. assert (Hxk : x <> k) by (by intros ->). destruct (Hin x ltac:(by right)) as [G1 G2]. clear - G1 G2 Hxk. set_solver.
    + clear - Hdj. set_solver.
    + intros x Hx'. destruct (HU x) as [ex Ex]; [clear - Hx'; set_solver|]. specialize (Hoff x). rewrite Ex in Hoff. destruct (P2 !! x) as [e'|]; [by exists e'|done].
    + rewrite <- (size_dom (D := gset Z) P2), (off_dom _ _ _ Hoff), size_dom. done.
    + exists Q, X, rm. split; [|split].
      * rewrite E4. f_equal. unfold unchained. rewrite Ha3, Hf3, Ho3, (filter_out_cons k ch). cbn [list_to_set]. rewrite !difference_difference_l_L. unfold r3, store_remove. by destruct opt_store.
      * rewrite Hp in HQ. by apply (off_cons k ch (pool r) P2).
      * cbn [list_to_set]. by rewrite <- difference_difference_l_L.
Qed.

(** ** Where the chain starts *)

Section walk.
Context (r : fd_reasm_t) (rt : Z) (W : wf_dead r rt ∅).

Let St := wd_state _ _ _ W.
Let L := so_links _ _ _ St.

(** [h] and the elements [l] below it, each the only child of the one before. *)
Record chain (h : Z) (l : list Z) : Prop := mk_chain {
  ch_in : forall x, x ∈ h :: l -> x ∈ live r /\ connected (pool r) rt x /\ x <> rt;
  ch_nodup : NoDup (h :: l);
  ch_rank : forall y, y ∈ l -> rk (pool r) h < rk (pool r) y;
  ch_par : forall y, y ∈ l -> exists q, q ∈ h :: l /\ par (pool r) y = Some q;
  ch_down : forall c q, c ∈ live r -> q ∈ h :: l -> par (pool r) c = Some q -> c ∈ l;
  ch_run : run (pool r) (Some h) (h :: l);
}.

(** A child of the root starts a slot. *)
Lemma root_child k e : k ∈ live r -> pool r !! k = Some e -> par (pool r) k = Some rt -> fec_set_idx (data e) = 0.
Proof using All.
  intros Hk E Ep. destruct (so_root _ _ _ St) as (_ & Hrl & _). destruct (lk_in _ _ L rt Hrl) as [er Er].
  destruct (so_par _ _ _ St k (data e) rt (data er) Hk Ep (dat_lookup _ _ _ E) (dat_lookup _ _ _ Er)) as [_ Hv]. pose proof (so_complete _ _ _ St _ (dat_lookup _ _ _ Er)) as Hc.
  unfold validate_chained_block_id, validate_intra, validate_inter in Hv. rewrite Hc in Hv. destruct (slot (data er) =? slot (data e)).
  - rewrite andb_false_r in Hv. done.
  - rewrite andb_true_r in Hv. apply andb_prop in Hv as [_ Hv]. by apply Z.eqb_eq.
Qed.

(** Each element of [l] goes on with the slot of the one before and is its only child. *)
Fixpoint slot_run (P : fecs) (h : Z) (l : list Z) : Prop :=
  match l with
  | [] => True
  | x :: l => kids P h = [x] /\ (exists e, P !! x = Some e /\ fec_set_idx (data e) <> 0) /\ slot_run P x l
  end.

(** The first element of a slot, or one that is not an only child. *)
Definition starts (P : fecs) (h : Z) : Prop := exists e, P !! h = Some e /\ (fec_set_idx (data e) = 0 \/ exists p, par P h = Some p /\ kids P p <> [h]).

Lemma walk_up_ok n : forall k l, chain k l -> slot_run (pool r) k l -> (size (live r) <= n + length l)%nat -> exists h l', walk_up n (pool r) k = Ok h /\ chain h l' /\ (exists p, par (pool r) h = Some p) /\
  (slot_run (pool r) h l' /\ starts (pool r) h /\ last (h :: l') = last (k :: l)) /\ forall x, x ∈ k :: l -> x ∈ h :: l'.
Proof using All.
  induction n as [|n IH]; intros k l C SR Hn; pose proof C as [C1 C2 C3 C4 C5 C6].
  - exfalso. assert (Hl : (length (k :: l) <= size (live r))%nat); [|simpl in Hl, Hn; lia].
    rewrite <- (size_list_to_set (C := gset Z) (k :: l)) by done. apply subseteq_size. intros x Hx%elem_of_list_to_set. by apply C1.
  - destruct (C1 k ltac:(by left)) as (Hk & Hc & Hkr). destruct (lk_in _ _ L k Hk) as [e E]. cbn [walk_up]. rewrite (get_ok _ _ _ E). cbn [mbind res_bind].
    assert (Hp : exists p, par (pool r) k = Some p /\ connected (pool r) rt p) by (inversion Hc as [|c p Ep _ Hcp]; subst; [done|]; by exists p). destruct Hp as (p & Ep & Hcp).
    assert (Hstop : starts (pool r) k -> exists h l', Ok k = Ok h /\ chain h l' /\ (exists p, par (pool r) h = Some p) /\ (slot_run (pool r) h l' /\ starts (pool r) h /\ last (h :: l') = last (k :: l)) /\ forall x, x ∈ k :: l -> x ∈ h :: l')
      by (intros Hst; exists k, l; split_and!; [done|done|by exists p|done..]).
    assert (Epk : par (pool r) k = Some p) by done. destruct (lk_par _ _ L k p Hk Epk) as [Hpl Hrk]. destruct (links_elim (pool r) (live r) p L Hpl) as (ep & Epp & Hsp & _).
    destruct (Z.eqb_spec (fec_set_idx (data e)) 0) as [Hi|Hi]; [apply Hstop; exists e; split; [done|by left]|]. destruct (sibling e) as [s|] eqn:Es.
    { apply Hstop. exists e. split; [done|right]. exists p. split; [done|]. intros Hk1. rewrite Hk1 in Hsp. inversion Hsp as [|? e0 ? E0 Hs0]; subst. rewrite E in E0. injection E0 as <-. rewrite Es in Hs0. inversion Hs0. }
    rewrite (par_lookup _ _ _ E) in Ep. rewrite Ep.
    rewrite (get_ok _ _ _ Epp). cbn [mbind res_bind]. destruct (decide (child ep = Some k)) as [Hch|Hch].
    2: { apply Hstop. exists e. split; [done|right]. exists p. split; [done|]. intros Hk1. rewrite Hk1 in Hsp. inversion Hsp; subst. by destruct Hch. }
    assert (Hkids : kids (pool r) p = [k]).
    { symmetry. apply (sibs_kids _ _ L p ep); [done|done|]. rewrite Hch. apply (sibs_cons _ _ e); [done|]. rewrite Es. constructor. }
    assert (Hpn : p ∉ k :: l).
    { intros [->|Hpl']%elem_of_cons; [lia|]. specialize (C3 p Hpl'). lia. }
    destruct (IH p (k :: l)) as (h & l' & Eh & Ch & Hph & (Hsr & Hst & Hla) & Hsub); [|cbn [slot_run]; split_and!; [done|by exists e|done]|simpl; lia|exists h, l'; split_and!; try done; intros x Hx; apply Hsub; by right]. split.
    + intros x [->|Hx]%elem_of_cons; [|by apply C1]. split_and!; try done. intros ->. apply Hi. by apply (root_child k e).
    + by apply NoDup_cons.
    + intros y [->|Hy]%elem_of_cons; [done|]. specialize (C3 y Hy). lia.
    + intros y [->|Hy]%elem_of_cons; [exists p; split; [by left|done]|]. destruct (C4 y Hy) as (q & Hq & Eq). exists q. split; [by right|done].
    + intros c q Hcl [->|Hq]%elem_of_cons Ecq; [|right; by apply (C5 c q)]. assert (Hck : c ∈ kids (pool r) p) by (by apply (kids_iff _ _ L)). rewrite Hkids in Hck. apply list_elem_of_singleton in Hck as ->. by left.
    + cbn. split; [done|]. exists ep. split; [done|]. by rewrite Hch.
Qed.

(** ** Taking the chain out *)

Lemma remove_connected opt_store tail e : tail ∈ frontier r -> tail <> rt -> pool r !! tail = Some e ->
  exists h l r', fd_reasm_remove opt_store tail r = Ok (h, r') /\ wf_dead r' rt (list_to_set (h :: l)) /\ cut_out (h :: l) r r' /\ run (pool r') (Some h) (h :: l) /\ NoDup (h :: l) /\ last (h :: l) = Some tail /\ slot_run (pool r) h l /\ starts (pool r) h.
Proof using All.
  intros Ht Htr E. destruct (maps_disjoint _ _ _ St) as (D1 & D2 & D3). apply (so_fro _ _ _ St) in Ht as Ht'. destruct Ht' as (Htl & Htc & [?|Htk]); [done|].
  assert (Hleaf : child e = None) by (by apply (kids_child _ _ L tail e)).
  destruct (walk_up_ok (size (pool r)) tail []) as (h & l & E1 & C & (p & Ep) & (Hsr & Hst & Hla) & Htin).
  { split; try done.
    - by intros x ->%list_elem_of_singleton.
    - apply NoDup_singleton.
    - by intros y ?%not_elem_of_nil.
    - by intros y ?%not_elem_of_nil.
    - intros c q Hc ->%list_elem_of_singleton Eq. rewrite <- Htk. by apply (kids_iff _ _ L).
    - cbn. split; [done|]. by exists e. }
  { done. }
  { simpl. rewrite Nat.add_0_r, <- (size_dom (D := gset Z) (pool r)). apply subseteq_size. intros x Hx. by apply elem_of_dom, (lk_in _ _ L). }
  pose proof C as [C1 C2 C3 C4 C5 C6]. set (D := list_to_set (h :: l) : gset Z). assert (HD : forall x, x ∈ D <-> x ∈ h :: l) by (intros x; unfold D; by rewrite elem_of_list_to_set).
  destruct (C1 h ltac:(by left)) as (Hh & Hhc & Hhr). destruct (lk_par _ _ L h p Hh Ep) as [Hpl Hrk]. destruct (so_root _ _ _ St) as (R1 & R2 & R3).
  assert (HpD : p ∉ D) by (rewrite HD; intros [->|Hpl']%elem_of_cons; [lia|]; specialize (C3 p Hpl'); lia).
  assert (HDl : D ⊆ live r) by (intros x Hx%HD; by apply C1).
  assert (Hdown : forall c q, c ∈ live r -> q ∈ D -> par (pool r) c = Some q -> c ∈ D) by (intros c q Hc Hq%HD Eq; apply HD; right; by apply (C5 c q)).
  destruct (fec_unlink_ok (pool r) (live r) D p h L) as (P & EP & Hr & LP & Hpar & Hkp & Hkx & Hag); try done.
  { apply HD. by left. } { intros x Hx%HD Hxh. apply elem_of_cons in Hx as [?|Hx]; [done|]. destruct (C4 x Hx) as (q & Hq & Eq). exists q. split; [by apply HD|done]. }
  unfold fd_reasm_remove. rewrite (get_ok _ _ _ E). cbn [mbind res_bind]. rewrite decide_False by (intros Hx; apply (D2 tail); [clear -Ht; set_solver|done]). rewrite E1. cbn [mbind res_bind].
  unfold orphan_children. rewrite (get_ok _ _ _ E). cbn [mbind res_bind]. rewrite Hleaf. cbn [mbind res_bind]. destruct (lk_in _ _ L h Hh) as [eh Eh]. rewrite (get_ok _ _ _ Eh). cbn [mbind res_bind].
  rewrite (par_lookup _ _ _ Eh) in Ep. rewrite Ep, EP. cbn [mbind res_bind]. destruct (decide (h ∈ orphaned (with_pool P r))) as [Ho|_].
  { exfalso. apply (so_orp _ _ _ St) in Ho as (_ & Hnc & _). done. }
  assert (Hmaps : forall x, x ∈ h :: l -> x ∈ ancestry r ∪ frontier r) by (intros x Hx; apply (connected_maps _ _ _ _ St); destruct (C1 x Hx) as (? & ? & _); done).
  assert (Hin : forall x, x ∈ live r -> is_Some (P !! x)).
  { intros x Hx. destruct (lk_in _ _ L x Hx) as [ex Ex]. destruct (same_rest_lookup _ _ _ _ Hr Ex) as (ex' & ? & _). by exists ex'. }
  assert (Hsize : size P = size (pool r)) by (symmetry; by apply same_rest_size).
  destruct (remove_chain_ok opt_store (h :: l) (S (size P)) (Some h) (with_pool P r) (live r)) as (Q & X & rm & E2 & HQ & HXQ); try done.
  { apply (run_ext (pool r)); [|done]. intros x Hx. apply HD in Hx. specialize (Hag x Hx). cbn. destruct (pool r !! x), (P !! x); cbn in *; try done. unfold shape in Hag. congruence. }
  { rewrite Hsize. assert (Hlen : (length (h :: l) <= size (pool r))%nat); [|lia]. apply nodup_dom; [done|]. intros x Hx. apply (lk_in _ _ L). by apply C1. }
  { intros x ex Hx Ex. cbn in Ex. specialize (Hr x). rewrite Ex in Hr. destruct (pool r !! x) as [e0|] eqn:E0; [|done]. cbn in Hr. unfold rest in Hr. replace (in_out ex) with (in_out e0) by congruence. apply (so_in_out _ _ _ St); [|done]. by apply C1. }
  { intros x Hx. split; [by apply Hmaps|by apply C1]. }
  { apply (xid_wf_ext (pool r)); [|apply W]. intros x _. specialize (Hr x). cbn. destruct (P !! x), (pool r !! x); cbn in *; try done. unfold rest in Hr. split; congruence. }
  { cbn. rewrite Hsize. destruct (wd_cap _ _ _ W). lia. }
  cbn [pool with_pool]. rewrite E2. cbn [mbind res_bind]. clear E1 E2. set (r2 := unchained (h :: l) Q X rm (with_pool P r)).
  assert (HagQ : agree (live r ∖ D) P Q).
  { intros x Hx. specialize (HQ x). cbn in HQ. rewrite decide_False in HQ by (intros ?%HD; clear - Hx H; set_solver). destruct (P !! x), (Q !! x); cbn in *; try done. injection HQ as ? ? ? ? ? ? ? ?. unfold shape. congruence. }
  assert (LQ : links Q (live r ∖ D)) by (by apply (links_agree _ P)). assert (HpW : p ∈ live r ∖ D) by (by apply elem_of_difference).
  assert (HkQ : forall x, x ∈ live r ∖ D -> kids Q x = if decide (x = p) then filter (.≠ h) (kids (pool r) p) else kids (pool r) x).
  { intros x Hx. rewrite <- (kids_agree (live r ∖ D) P Q) by done. destruct (decide (x = p)) as [->|Hxp]; [done|by apply Hkx]. }
  assert (HparQ : forall x, x ∈ live r ∖ D -> par Q x = par (pool r) x) by (intros x Hx; rewrite <- Hpar; symmetry; by apply (agree_par (live r ∖ D))).
  assert (KQ : keeps (pool r) Q (live r ∖ D)).
  { apply (keeps_trans _ P); [apply (same_rest_keeps _ _ (live r)); [done|clear; set_solver|done]|]. apply (strip_keeps P Q (live r ∖ D)); [done|done|]. intros x Hx. rewrite (HQ x). cbn.
    rewrite decide_False by (intros ?%HD; clear - Hx H; set_solver). by destruct (P !! x). }
  assert (Hpm : p ∈ ancestry r).
  { apply (so_anc _ _ _ St). split_and!; try done.
    - inversion Hhc as [|c q Eq _ Hq]; subst; [done|]. rewrite (par_lookup _ _ _ Eh) in Eq. congruence.
    - intros Hk0. assert (Hin' : h ∈ kids (pool r) p) by (apply (kids_iff _ _ L); [done|]; split; [done|by rewrite (par_lookup _ _ _ Eh)]). rewrite Hk0 in Hin'. by apply not_elem_of_nil in Hin'. }
  destruct (lk_in _ _ LQ p HpW) as [ep Epp]. pose proof (kids_child _ _ LQ p ep HpW Epp) as Hcp.
  assert (Ebf : exists r', back_to_frontier p r2 = Ok r' /\ pool r' = Q /\ xid r' = X /\ root r' = root r /\ fec_max r' = fec_max r /\ orphaned r' = orphaned r /\ subtrees r' = subtrees r /\ subtreel r' = subtreel r /\ out r' = filter (.∉ h :: l) (out r) /\
    (forall x, x ∈ ancestry r' <-> x ∈ ancestry r /\ x ∉ D /\ (x = p -> kids Q p <> [])) /\ (forall x, x ∈ frontier r' <-> (x ∈ frontier r /\ x ∉ D) \/ (x = p /\ kids Q p = []))).
  { unfold back_to_frontier. change (pool r2) with Q. rewrite (get_ok _ _ _ Epp). cbn [mbind res_bind]. assert (Hpf : p ∉ frontier r) by (intros ?; by apply (D1 p)). destruct (child ep) as [c|] eqn:Ec.
    - assert (Hkn : kids Q p <> []) by (intros ?; by apply Hcp in H). exists r2. split_and!; try done; intros x; cbn -[list_to_set]; fold D; rewrite elem_of_difference; [naive_solver|]. split; [tauto|]. intros [?|[_ ?]]; [done|]. done.
    - assert (Hkn : kids Q p = []) by (by apply Hcp). assert (Hpa : p ∈ ancestry r2) by (cbn -[list_to_set]; fold D; by rewrite elem_of_difference). rewrite decide_True by done.
      rewrite fec_map_insert_ok by (cbn -[list_to_set]; fold D; rewrite elem_of_difference; by intros [? _]). cbn [mbind res_bind]. eexists. split; [done|]. split_and!; try done; intros x; cbn -[list_to_set]; fold D.
      + rewrite !elem_of_difference, elem_of_singleton. naive_solver.
      + rewrite elem_of_union, elem_of_difference, elem_of_singleton. naive_solver. }
  destruct Ebf as (r' & Ebf & P1 & P2 & P3 & P4 & P5 & P6 & P7 & P8 & Pa & Pf). rewrite Ebf. cbn [mbind res_bind]. exists h, l, r'. split; [done|].
  assert (Ha : forall x, x ∈ ancestry r' <-> x ∈ live r ∖ D /\ x ∈ ancestry r ∪ frontier r /\ kids Q x <> []).
  { intros x. rewrite Pa, elem_of_difference, elem_of_union. split.
    - intros (H1 & H2 & H3). apply (so_anc _ _ _ St) in H1 as H1'. destruct H1' as (H4 & _ & _ & H5). split_and!; try done; [by left|]. rewrite HkQ by (by apply elem_of_difference). destruct (decide (x = p)) as [->|]; [|done].
      rewrite HkQ, decide_True in H3 by done. by apply H3.
    - intros ((H1 & H2) & H3 & H4). split_and!; [|done|by intros ->]. destruct H3 as [?|H3]; [done|]. apply (so_fro _ _ _ St) in H3 as (_ & _ & [?|H5]); [done|]. rewrite HkQ in H4 by (by apply elem_of_difference).
      destruct (decide (x = p)) as [->|]; [by rewrite H5 in H4|done]. }
  assert (Hf : forall x, x ∈ frontier r' <-> x ∈ live r ∖ D /\ x ∈ ancestry r ∪ frontier r /\ kids Q x = []).
  { intros x. rewrite Pf, elem_of_difference, elem_of_union. split.
    - intros [[H1 H2]|[-> H1]]; [|split_and!; auto]. apply (so_fro _ _ _ St) in H1 as H1'. destruct H1' as (H4 & _ & [?|H5]); [done|]. split_and!; try done; [by right|]. rewrite HkQ by (by apply elem_of_difference).
      destruct (decide (x = p)) as [->|]; [by rewrite H5|done].
    - intros ((H1 & H2) & H3 & H4). destruct (decide (x = p)) as [->|Hxp]; [by right|left]. split; [|done]. destruct H3 as [H3|?]; [|done]. apply (so_anc _ _ _ St) in H3 as (_ & _ & _ & H5).
      rewrite HkQ, decide_False in H4 by (done || by apply elem_of_difference). done. }
  assert (Ho : forall x, x ∈ orphaned r' <-> x ∈ live r ∖ D /\ x ∈ orphaned r).
  { intros x. rewrite P5, elem_of_difference. split; [|tauto]. intros Hx. apply (so_orp _ _ _ St) in Hx as Hx'. destruct Hx' as (H1 & H2 & _). split_and!; try done. intros Hd%HD. by destruct (C1 x Hd) as (_ & ? & _). }
  assert (Hs : forall x, x ∈ subtrees r' <-> x ∈ live r ∖ D /\ x ∈ subtrees r).
  { intros x. rewrite P6, elem_of_difference. split; [|tauto]. intros Hx. apply (so_sub _ _ _ St) in Hx as Hx'. destruct Hx' as (H1 & H2 & _). split_and!; try done. intros Hd%HD. by destruct (C1 x Hd) as (_ & ? & _). }
  assert (Hlive : live r' = live r ∖ D) by (apply (cut_live r r' D); rewrite ?P1; done).
  split; [|split; [|split; [|split; [done|split; [done|split; [done|done]]]]]].
  - apply (cut_wf r); rewrite ?P1, ?P2; try done.
    + intros Hd%HD. by destruct (C1 rt Hd) as (_ & _ & ?).
    + rewrite (off_dom _ _ _ HQ). cbn [pool with_pool]. by rewrite (same_rest_dom _ _ Hr).
    + rewrite P7, P6. apply (so_subl _ _ _ St).
    + rewrite P8. destruct (so_out _ _ _ St) as [Q1 Q2]. split; [by apply NoDup_filter|]. intros x. fold D. rewrite list_elem_of_filter, elem_of_difference, HD. split; [intros [? Hx]; split_and!; try done; by apply Q2|tauto].
  - split; rewrite ?Hlive, ?P1; try done.
    + intros x Hx. by apply C1.
    + intros x. rewrite !elem_of_union, Ha, Hf. split; [intros [(?&?&_)|(?&?&_)]; (split; [done|by apply elem_of_union])|]. intros [H1 H2]. rewrite <- elem_of_union in H2. destruct (decide (kids Q x = [])); [right|left]; done.
    + by rewrite P6.
  - rewrite P1. apply (run_ext (pool r)); [|done]. intros x Hx. rewrite <- (off_child _ _ _ x HQ). cbn. apply HD in Hx. specialize (Hag x Hx). destruct (pool r !! x), (P !! x); cbn in *; try done. unfold shape in Hag. congruence.
Qed.

End walk.
