(* ===== verification/ReasmEvict.v ===== *)
(** * Choosing what to evict *)

From S2P Require Import Prelude Bits Reasm ReasmTree ReasmInv ReasmMark ReasmPlace ReasmInsert ReasmRemove.

#[local] Open Scope Z_scope.

(** ** Candidates *)

(** A leaf of an orphaned tree, other than the parent of the new element. *)
Definition orphan_leaf (conf : bool) (pr k : Z) (e : fd_reasm_fec_t) : bool := bool_decide (child e = None) && negb (k =? pr) && eqb (confirmed e) conf.

(** An unconfirmed leaf of the connected tree whose slot is not complete. *)
Definition open_leaf (root_ : option Z) (pr k : Z) (e : fd_reasm_fec_t) : bool :=
  negb (bool_decide (Some k = root_)) && negb (k =? pr) && negb (confirmed e) && negb (slot_complete (data e)) && negb (is_leader (data e)).

Section pick.
Context (P : fecs) (ok : Z -> fd_reasm_fec_t -> bool).

(** One of the candidates in [l] with the highest slot, if there is one. *)
Definition pick (l : list Z) (o : option Z) : Prop :=
  match o with
  | None => forall k e, k ∈ l -> P !! k = Some e -> ok k e = false
  | Some k => k ∈ l /\ exists e, P !! k = Some e /\ ok k e = true /\ forall j ej, j ∈ l -> P !! j = Some ej -> ok j ej = true -> slot (data ej) <= slot (data e)
  end.

Lemma pick_nil : pick [] None.
Proof using Type. by intros k e ?%not_elem_of_nil. Qed.

Lemma pick_skip l k e o : pick l o -> P !! k = Some e -> ok k e = false -> pick (l ++ [k]) o.
Proof using Type.
  intros H E Hn. destruct o as [b|]; cbn in *.
  - destruct H as (Hb & eb & Eb & Hok & Hmax). split; [apply elem_of_app; by left|]. exists eb. split_and!; try done. intros j ej [Hj|Hj%list_elem_of_singleton]%elem_of_app Ej Hj'; [by apply (Hmax j)|]. congruence.
  - intros j ej [Hj|Hj%list_elem_of_singleton]%elem_of_app Ej; [by apply (H j)|]. congruence.
Qed.

Lemma pick_newer l k e o : pick l o -> P !! k = Some e -> ok k e = true -> exists o', newer P o k = Ok o' /\ pick (l ++ [k]) o'.
Proof using Type.
  intros H E Hok. destruct o as [b|]; cbn in *.
  - destruct H as (Hb & eb & Eb & Hokb & Hmax). rewrite (get_ok _ _ _ Eb), (get_ok _ _ _ E). cbn [mbind res_bind]. eexists. split; [done|]. destruct (Z.ltb_spec (slot (data eb)) (slot (data e))) as [Hlt|Hlt]; cbn.
    + split; [apply elem_of_app; right; by left|]. exists e. split_and!; try done. intros j ej [Hj|Hj%list_elem_of_singleton]%elem_of_app Ej Hj'; [specialize (Hmax j ej Hj Ej Hj'); lia|]. assert (ej = e) as -> by congruence. lia.
    + split; [apply elem_of_app; by left|]. exists eb. split_and!; try done. intros j ej [Hj|Hj%list_elem_of_singleton]%elem_of_app Ej Hj'; [by apply (Hmax j)|]. assert (ej = e) as -> by congruence. lia.
  - eexists. split; [done|]. cbn. split; [apply elem_of_app; right; by left|]. exists e. split_and!; try done. intros j ej [Hj|Hj%list_elem_of_singleton]%elem_of_app Ej Hj'; [by rewrite (H j ej Hj Ej) in Hj'|].
    assert (ej = e) as -> by congruence. lia.
Qed.

End pick.

Lemma scan_orphans_ok P pr l : forall l0 u c, (forall k, k ∈ l -> is_Some (P !! k)) -> pick P (orphan_leaf false pr) l0 u -> pick P (orphan_leaf true pr) l0 c ->
  exists u' c', scan_orphans P pr l (u, c) = Ok (u', c') /\ pick P (orphan_leaf false pr) (l0 ++ l) u' /\ pick P (orphan_leaf true pr) (l0 ++ l) c'.
Proof.
  induction l as [|k l IH]; intros l0 u c Hin Hu Hc; cbn [scan_orphans].
  - exists u, c. rewrite app_nil_r. done.
  - destruct (Hin k ltac:(by left)) as [e E]. rewrite (get_ok _ _ _ E). cbn [mbind res_bind fst snd]. assert (Hin' : forall y, y ∈ l -> is_Some (P !! y)) by (intros y Hy; apply Hin; by right).
    replace (l0 ++ k :: l) with ((l0 ++ [k]) ++ l) by (by rewrite <- app_assoc). destruct (bool_decide (child e <> None) || (k =? pr)) eqn:Es.
    + assert (Hno : forall b, orphan_leaf b pr k e = false).
      { intros b. unfold orphan_leaf. apply orb_true_iff in Es as [Es|Es]; [apply bool_decide_eq_true in Es; by rewrite bool_decide_eq_false_2|]. rewrite Es. by rewrite andb_false_r. }
      apply IH; [done|by apply (pick_skip _ _ _ _ e)..].
    + apply orb_false_iff in Es as [Es1 Es2]. apply bool_decide_eq_false in Es1. assert (Hch : child e = None) by (destruct (child e); [|done]; by destruct Es1).
      assert (Hok : forall b, orphan_leaf b pr k e = eqb (confirmed e) b) by (intros b; unfold orphan_leaf; rewrite bool_decide_eq_true_2, Es2 by done; done).
      destruct (confirmed e) eqn:Ec.
      * destruct (pick_newer P (orphan_leaf true pr) l0 k e c Hc E) as (c' & -> & Hc'); [by rewrite Hok|]. cbn [mbind res_bind]. apply IH; [done| |done]. apply (pick_skip _ _ _ _ e); [done|done|by rewrite Hok].
      * destruct (pick_newer P (orphan_leaf false pr) l0 k e u Hu E) as (u' & -> & Hu'); [by rewrite Hok|]. cbn [mbind res_bind]. apply IH; [done|done|]. apply (pick_skip _ _ _ _ e); [done|done|by rewrite Hok].
Qed.

Lemma scan_frontier_ok P root_ pr l : forall l0 b, (forall k, k ∈ l -> is_Some (P !! k)) -> pick P (open_leaf root_ pr) l0 b ->
  exists b', scan_frontier P root_ pr l b = Ok b' /\ pick P (open_leaf root_ pr) (l0 ++ l) b'.
Proof.
  induction l as [|k l IH]; intros l0 b Hin Hb; cbn [scan_frontier].
  - exists b. rewrite app_nil_r. done.
  - destruct (Hin k ltac:(by left)) as [e E]. rewrite (get_ok _ _ _ E). cbn [mbind res_bind]. assert (Hin' : forall y, y ∈ l -> is_Some (P !! y)) by (intros y Hy; apply Hin; by right).
    replace (l0 ++ k :: l) with ((l0 ++ [k]) ++ l) by (by rewrite <- app_assoc).
    assert (Hok : open_leaf root_ pr k e = negb (bool_decide (Some k = root_) || (k =? pr) || confirmed e || slot_complete (data e) || is_leader (data e))) by (unfold open_leaf; by rewrite !negb_orb).
    destruct (bool_decide (Some k = root_) || (k =? pr) || confirmed e || slot_complete (data e) || is_leader (data e)); cbn in Hok.
    + apply IH; [done|]. by apply (pick_skip _ _ _ _ e).
    + destruct (pick_newer P (open_leaf root_ pr) l0 k e b Hb E Hok) as (b' & -> & Hb'). cbn [mbind res_bind]. by apply IH.
Qed.

(** ** The searches for a confirmed element *)

Section confirmed_search.
Context (r : fd_reasm_t) (rt : Z) (W : wf_dead r rt ∅).

Let St := wd_state _ _ _ W.
Let L := so_links _ _ _ St.

Lemma live_le_pool : (size (live r) <= size (pool r))%nat.
Proof using All. rewrite <- (size_dom (D := gset Z) (pool r)). apply subseteq_size. intros x Hx. by apply elem_of_dom, (lk_in _ _ L). Qed.

(** Walking up a tree visits every element at most once. *)
Lemma up_room k l : NoDup (k :: l) -> (forall y, y ∈ k :: l -> y ∈ live r) -> (length l < size (live r))%nat.
Proof using Type.
  intros Hn Hl. assert (Hle : (length (k :: l) <= size (live r))%nat); [|simpl in Hle; lia].
  rewrite <- (size_list_to_set (C := gset Z) (k :: l)) by done. apply subseteq_size. intros x Hx%elem_of_list_to_set. by apply Hl.
Qed.

Lemma tree_root_ok n : forall k l, k ∈ live r -> NoDup l -> (forall y, y ∈ l -> y ∈ live r /\ rk (pool r) k < rk (pool r) y) -> (size (live r) <= n + length l)%nat ->
  exists t, tree_root n (pool r) k = Ok t /\ t ∈ live r /\ par (pool r) t = None /\ below (pool r) t k.
Proof using All.
  induction n as [|n IH]; intros k l Hk Hn Hl Hs.
  - exfalso. assert (Hkl : k ∉ l) by (intros H; destruct (Hl k H); lia). pose proof (up_room k l). assert ((length l < size (live r))%nat); [|simpl in Hs; lia]. apply H; [by apply NoDup_cons|]. intros y [->|Hy]%elem_of_cons; [done|by apply Hl].
  - destruct (lk_in _ _ L k Hk) as [e E]. cbn [tree_root]. rewrite (get_ok _ _ _ E). cbn [mbind res_bind]. destruct (parent e) as [p|] eqn:Ep.
    + assert (Epp : par (pool r) k = Some p) by (by rewrite (par_lookup _ _ _ E)). destruct (lk_par _ _ L k p Hk Epp) as [Hp Hrk].
      assert (Hkl : k ∉ l) by (intros H; destruct (Hl k H); lia). destruct (IH p (k :: l) Hp) as (t & Et & Ht & Htp & Htb).
      * by apply NoDup_cons.
      * intros y [->|Hy]%elem_of_cons; [done|]. destruct (Hl y Hy). split; [done|lia].
      * simpl. lia.
      * exists t. split_and!; try done. by apply (fec_below_child _ _ L t k p).
    + exists k. split_and!; try done; [by rewrite (par_lookup _ _ _ E)|apply fec_below_refl].
Qed.

Lemma latest_ok t : t ∈ live r -> exists o, latest_confirmed_fec r t = Ok o /\
  match o with None => forall x e, below (pool r) t x -> pool r !! x = Some e -> confirmed e = false | Some x => x ∈ live r /\ below (pool r) t x /\ exists e, pool r !! x = Some e /\ confirmed e = true end.
Proof using All.
  intros Ht. assert (F : forest (live r) (kids (pool r)) [t]) by (apply (below_forest _ _ L); [done|done|]; intros p Hp; by apply (kids_nodup _ _ L)). unfold latest_confirmed_fec.
  destruct (search_ok (latest_step (pool r)) (fec_max r) (live r) (kids (pool r)) [t] F (fun vis o => match o with None => forall x e, x ∈ vis -> pool r !! x = Some e -> confirmed e = false
    | Some x => x ∈ vis /\ exists e, pool r !! x = Some e /\ confirmed e = true end)) with (n := S (size (pool r))) (a := @None Z) as (vis & o & E & HI & _ & _ & Hv).
  - pose proof live_le_pool. destruct (wd_cap _ _ _ W). lia.
  - intros vis o x q HI _ _ Hx _ _. pose proof (fo_in _ _ _ F x Hx) as Hxl. destruct (lk_in _ _ L x Hxl) as [e E]. unfold latest_step. rewrite (get_ok _ _ _ E). cbn [mbind res_bind].
    assert (Hstep : exists o', (if confirmed e then match o with None => Ok (Some x) | Some b => eb ← get (pool r) b; Ok (if before (data eb) (data e) then Some x else Some b) end else Ok o) = Ok o' /\
      match o' with None => forall y ey, y ∈ vis ++ [x] -> pool r !! y = Some ey -> confirmed ey = false | Some y => y ∈ vis ++ [x] /\ exists ey, pool r !! y = Some ey /\ confirmed ey = true end).
    { assert (Hxv : x ∈ vis ++ [x]) by (apply elem_of_app; right; by left). destruct (confirmed e) eqn:Ec; destruct o as [b|].
      - destruct HI as (Hb & eb & Eb & Hcb). rewrite (get_ok _ _ _ Eb). cbn [mbind res_bind]. eexists. split; [done|]. destruct (before _ _); [split; [done|by exists e]|]. split; [apply elem_of_app; by left|by exists eb].
      - eexists. split; [done|]. split; [done|by exists e].
      - exists (Some b). split; [done|]. destruct HI as (Hb & Heb). split; [apply elem_of_app; by left|done].
      - exists None. split; [done|]. intros y ey [Hy|Hy%list_elem_of_singleton]%elem_of_app Ey; [by apply (HI y)|congruence]. }
    destruct Hstep as (o' & Eo & Ho'). cbn [mbind res_bind] in Eo. rewrite Eo. cbn [mbind res_bind]. destruct (children_kids _ _ L x Hxl) as (-> & _). cbn [mbind res_bind]. by exists o'.
  - by intros x e ?%not_elem_of_nil.
  - pose proof live_le_pool. lia.
  - exists o. split; [exact E|]. destruct o as [x|].
    + destruct HI as [Hx He]. apply Hv in Hx. split; [by apply (fo_in _ _ _ F)|done].
    + intros x e Hx. apply HI. by apply Hv.
Qed.

(** The walk to a common ancestor ends: every step leaves an element behind. *)
Lemma gca_ok n : forall a b la lb, (forall k, a = Some k -> k ∈ live r /\ forall y, y ∈ la -> rk (pool r) k < rk (pool r) y) -> (forall k, b = Some k -> k ∈ live r /\ forall y, y ∈ lb -> rk (pool r) k < rk (pool r) y) ->
  NoDup la -> NoDup lb -> (forall y, y ∈ la ++ lb -> y ∈ live r) -> (2 * size (live r) <= n + length la + length lb)%nat -> exists o, gca n (pool r) a b = Ok o.
Proof using All.
  induction n as [|n IH]; intros a b la lb Ha Hb Hna Hnb Hin Hs; destruct a as [i|], b as [j|]; cbn [gca]; try by eexists.
  - exfalso. destruct (Ha i eq_refl) as [Hi Hri], (Hb j eq_refl) as [Hj Hrj]. assert (Hila : i ∉ la) by (intros H; specialize (Hri i H); lia). assert (Hjlb : j ∉ lb) by (intros H; specialize (Hrj j H); lia).
    assert ((length la < size (live r))%nat) by (apply (up_room i la); [by apply NoDup_cons|]; intros y [->|Hy]%elem_of_cons; [done|apply Hin, elem_of_app; by left]).
    assert ((length lb < size (live r))%nat) by (apply (up_room j lb); [by apply NoDup_cons|]; intros y [->|Hy]%elem_of_cons; [done|apply Hin, elem_of_app; by right]). simpl in Hs. lia.
  - destruct (Z.eqb_spec i j) as [|Hij]; [by eexists|]. destruct (Ha i eq_refl) as [Hi Hri], (Hb j eq_refl) as [Hj Hrj]. destruct (lk_in _ _ L i Hi) as [ei Ei], (lk_in _ _ L j Hj) as [ej Ej].
    rewrite (get_ok _ _ _ Ei), (get_ok _ _ _ Ej). cbn [mbind res_bind].
    assert (Hup : forall k e l, k ∈ live r -> pool r !! k = Some e -> (forall y, y ∈ l -> rk (pool r) k < rk (pool r) y) -> forall p, parent e = Some p -> p ∈ live r /\ forall y, y ∈ k :: l -> rk (pool r) p < rk (pool r) y).
    { intros k e l Hk E Hl p Ep. assert (Epp : par (pool r) k = Some p) by (by rewrite (par_lookup _ _ _ E)). destruct (lk_par _ _ L k p Hk Epp) as [Hp Hrk]. split; [done|]. intros y [->|Hy]%elem_of_cons; [done|]. specialize (Hl y Hy). lia. }
    destruct (before (data ej) (data ei)).
    + apply (IH (parent ei) (Some j) (i :: la) lb); [exact (Hup i ei la Hi Ei Hri)|exact Hb| |exact Hnb| |simpl in *; lia].
      * apply NoDup_cons. split; [|done]. intros H. specialize (Hri i H). lia.
      * intros y. rewrite <- app_comm_cons. intros [->|Hy]%elem_of_cons; [done|by apply Hin].
    + apply (IH (Some i) (parent ej) la (j :: lb)); [exact Ha|exact (Hup j ej lb Hj Ej Hrj)|exact Hna| | |simpl in *; lia].
      * apply NoDup_cons. split; [|done]. intros H. specialize (Hrj j H). lia.
      * intros y [Hy|[->|Hy]%elem_of_cons]%elem_of_app; [apply Hin, elem_of_app; by left|done|apply Hin, elem_of_app; by right].
Qed.

Lemma evict_confirmed_ok pr : exists b, evict_confirmed pr r = Ok b.
Proof using All.
  unfold evict_confirmed. rewrite query_live. destruct (bool_decide_reflect (pr ∈ live r)) as [Hpr|]; cbn [negb]; [|by eexists]. destruct (so_root _ _ _ St) as (R1 & R2 & _). pose proof live_le_pool as Hsz.
  assert (Ht : exists t, (if decide (pr ∈ subtrees r ∪ orphaned r) then tree_root (S (size (pool r))) (pool r) pr else match root r with Some k => Ok k | None => Ub end) = Ok t /\ t ∈ live r).
  { destruct (decide (pr ∈ subtrees r ∪ orphaned r)).
    - destruct (tree_root_ok (S (size (pool r))) pr []) as (t & Et & Ht & _); try done; [constructor|by intros y ?%not_elem_of_nil|simpl; lia|]. by exists t.
    - rewrite R1. by exists rt. }
  destruct Ht as (t & Et & Ht). rewrite Et. cbn [mbind res_bind]. destruct (latest_ok t Ht) as (o & Eo & Ho). rewrite Eo. cbn [mbind res_bind]. destruct o as [x|]; [|by eexists]. destruct Ho as (Hx & _).
  assert (Hst : forall j k, j ∈ live r -> Some j = Some k -> k ∈ live r /\ forall y, y ∈ [] -> rk (pool r) k < rk (pool r) y) by (intros j k Hj [= <-]; split; [done|by intros y ?%not_elem_of_nil]).
  destruct (gca_ok (S (2 * size (pool r))) (Some x) (Some pr) [] [] (fun k => Hst x k Hx) (fun k => Hst pr k Hpr) ltac:(constructor) ltac:(constructor)) as (a & Ea).
  - by intros y ?%not_elem_of_nil.
  - simpl. lia.
  - rewrite Ea. by eexists.
Qed.

(** ** Eviction *)

(** What was evicted: a leaf of an orphaned tree, or a leaf of the connected
    tree with the chain above it. *)
Definition evicted_ok (h : Z) (l : list Z) (r' : fd_reasm_t) : Prop :=
  wf_dead r' rt (list_to_set (h :: l)) /\ cut_out (h :: l) r r' /\ run (pool r') (Some h) (h :: l) /\ NoDup (h :: l) /\ rt ∉ h :: l.

Lemma evicted_orphan k e opt_store : k ∈ orphaned r ∪ subtrees r -> pool r !! k = Some e -> child e = None -> exists r', fd_reasm_remove opt_store k r = Ok (k, r') /\ evicted_ok k [] r'.
Proof using All.
  intros Hk E Hc. destruct (remove_orphan r rt k e opt_store W Hk E Hc) as (r' & Er & Hw & Hcut & Hrun). exists r'. split; [done|]. destruct (k_orphan r rt k e opt_store W Hk E Hc) as (Hkl & _ & _ & _ & _ & Hrk).
  assert (Hs : list_to_set [k] = ({[k]} : gset Z)) by (cbn; by rewrite union_empty_r_L). unfold evicted_ok. rewrite Hs. split_and!; try done; [apply NoDup_singleton|by rewrite list_elem_of_singleton].
Qed.

Lemma evicted_leaf k opt_store : k ∈ frontier r -> k <> rt -> exists h l r', fd_reasm_remove opt_store k r = Ok (h, r') /\ evicted_ok h l r' /\ last (h :: l) = Some k /\ slot_run (pool r) h l /\ starts (pool r) h.
Proof using All.
  intros Hk Hkr. assert (Hkl : k ∈ live r) by (apply (so_fro _ _ _ St) in Hk; naive_solver). destruct (lk_in _ _ L k Hkl) as [e E]. destruct (remove_connected r rt W opt_store k e Hk Hkr E) as (h & l & r' & Er & Hw & Hcut & Hrun & Hn & Hkin).
  exists h, l, r'. split; [done|]. assert (Hd : forall x, x ∈ h :: l -> x ∉ live r') by (intros x Hx; rewrite (co_live _ _ _ Hcut), elem_of_difference, elem_of_list_to_set; tauto).
  split; [|done]. unfold evicted_ok. split_and!; try done. intros Hx. apply (Hd rt Hx). apply (so_root _ _ _ (wd_state _ _ _ Hw)).
Qed.

(** No candidate of a kind among the elements of a map. *)
Definition none_of (ok : Z -> fd_reasm_fec_t -> bool) (S : gset Z) : Prop := forall x e, x ∈ S -> pool r !! x = Some e -> ok x e = false.

(** A candidate with the highest slot among those of its kind. *)
Definition highest (ok : Z -> fd_reasm_fec_t -> bool) (S : gset Z) (t : Z) : Prop :=
  t ∈ S /\ exists e, pool r !! t = Some e /\ ok t e = true /\ forall j ej, j ∈ S -> pool r !! j = Some ej -> ok j ej = true -> slot (data ej) <= slot (data e).

Lemma pick_set ok l S o : (forall x, x ∈ l <-> x ∈ S) -> pick (pool r) ok l o -> match o with None => none_of ok S | Some t => highest ok S t end.
Proof using Type.
  intros Hl. destruct o as [t|]; cbn.
  - intros (Ht & e & E & Hok & Hm). split; [by apply Hl|]. exists e. split_and!; try done. intros j ej Hj. apply Hm. by apply Hl.
  - intros H x e Hx. apply H. by apply Hl.
Qed.

(** What is given up for a FEC set that chains to [pr]: an unconfirmed orphan
    leaf first, then an unconfirmed leaf of an incomplete slot with the part of
    the slot above it up to a fork, then a confirmed orphan leaf if the new
    element is not on a fork that the confirmed ones of its tree have left.
    Of each kind it is one with the highest slot. *)
Inductive victim (pr h : Z) (l : list Z) : Prop :=
  | victim_orphan : highest (orphan_leaf false pr) (orphaned r ∪ subtrees r) h -> l = [] -> victim pr h l
  | victim_leaf t : none_of (orphan_leaf false pr) (orphaned r ∪ subtrees r) -> highest (open_leaf (root r) pr) (frontier r) t ->
      last (h :: l) = Some t -> slot_run (pool r) h l -> starts (pool r) h -> victim pr h l
  | victim_confirmed : none_of (orphan_leaf false pr) (orphaned r ∪ subtrees r) -> none_of (open_leaf (root r) pr) (frontier r) ->
      highest (orphan_leaf true pr) (orphaned r ∪ subtrees r) h -> evict_confirmed pr r = Ok true -> l = [] -> victim pr h l.

(** Nothing is given up. *)
Definition no_victim (pr : Z) : Prop :=
  none_of (orphan_leaf false pr) (orphaned r ∪ subtrees r) /\ none_of (open_leaf (root r) pr) (frontier r) /\
  (none_of (orphan_leaf true pr) (orphaned r ∪ subtrees r) \/ evict_confirmed pr r = Ok false).

Lemma evict_ok opt_store pr oi fi : (forall x, x ∈ oi <-> x ∈ orphaned r) -> (forall x, x ∈ fi <-> x ∈ frontier r) ->
  exists o r', evict opt_store pr oi fi r = Ok (o, r') /\
    match o with None => r' = r /\ no_victim pr | Some h => exists l, evicted_ok h l r' /\ victim pr h l end.
Proof using All.
  intros Hoi Hfi. destruct (so_subl _ _ _ St) as [_ Hsl]. destruct (so_root _ _ _ St) as (R1 & _).
  assert (Hin : forall x, x ∈ orphaned r ∪ subtrees r -> is_Some (pool r !! x)) by (intros x Hx; apply (lk_in _ _ L), live_maps; by right). unfold evict.
  destruct (scan_orphans_ok (pool r) pr (subtreel r) [] None None) as (u0 & c0 & -> & Hu0 & Hc0); [intros x Hx; apply Hin, elem_of_union; right; by apply Hsl|apply pick_nil|apply pick_nil|]. cbn [mbind res_bind app] in *.
  destruct (scan_orphans_ok (pool r) pr oi (subtreel r) u0 c0) as (u & c & -> & Hu & Hc); [intros x Hx; apply Hin, elem_of_union; left; by apply Hoi|done|done|]. cbn [mbind res_bind fst snd].
  assert (Hall : forall x, x ∈ subtreel r ++ oi <-> x ∈ orphaned r ∪ subtrees r) by (intros x; rewrite elem_of_app, elem_of_union, Hsl, Hoi; tauto).
  assert (Hleafy : forall b k e, orphan_leaf b pr k e = true -> child e = None).
  { intros b k e H. unfold orphan_leaf in H. apply andb_prop in H as [H _]. apply andb_prop in H as [H _]. by apply bool_decide_eq_true in H. }
  pose proof (pick_set _ _ _ _ Hall Hu) as Hu'. pose proof (pick_set _ _ _ _ Hall Hc) as Hc'. destruct u as [k|].
  - pose proof Hu' as (Hk & e & E & Hok & _). destruct (evicted_orphan k e opt_store Hk E (Hleafy _ _ _ Hok)) as (r' & -> & He). cbn [mbind res_bind].
    exists (Some k), r'. split; [done|]. exists []. split; [done|]. by apply victim_orphan.
  - destruct (scan_frontier_ok (pool r) (root r) pr fi [] None) as (b & -> & Hb); [intros x Hx; apply (lk_in _ _ L), live_maps; left; apply elem_of_union; right; by apply Hfi|apply pick_nil|]. cbn [mbind res_bind app] in *.
    pose proof (pick_set _ _ _ _ Hfi Hb) as Hb'. destruct b as [k|].
    + pose proof Hb' as (Hk & e & E & Hok & _). assert (Hne : k <> rt).
      { unfold open_leaf in Hok. apply andb_prop in Hok as [H _]. apply andb_prop in H as [H _]. apply andb_prop in H as [H _]. apply andb_prop in H as [H _]. apply negb_true_iff, bool_decide_eq_false in H. intros ->. apply H. by rewrite R1. }
      destruct (evicted_leaf k opt_store Hk Hne) as (h & l & r' & -> & He & Hla & Hsr & Hst). cbn [mbind res_bind]. exists (Some h), r'. split; [done|]. exists l. split; [done|]. by apply (victim_leaf _ _ _ k).
    + destruct c as [k|].
      * destruct (evict_confirmed_ok pr) as (ok & Eok). rewrite Eok. cbn [mbind res_bind]. destruct ok; [|exists None, r; split; [done|]; split; [done|]; split_and!; [done|done|by right]]. pose proof Hc' as (Hk & e & E & Hok & _).
        destruct (evicted_orphan k e opt_store Hk E (Hleafy _ _ _ Hok)) as (r' & -> & He). cbn [mbind res_bind]. exists (Some k), r'. split; [done|]. exists []. split; [done|]. by apply victim_confirmed.
      * exists None, r. split; [done|]. split; [done|]. split_and!; [done|done|by left].
Qed.

End confirmed_search.
