(* ===== verification/ReasmPublish.v ===== *)
(** * Publishing a root

    Everything that does not descend from the new root is released, and so are
    the orphans that are older than it. *)

From S2P Require Import Prelude Bits Reasm ReasmTree ReasmInv ReasmMark ReasmPlace ReasmInsert ReasmRemove.

#[local] Open Scope Z_scope.

Definition pruned (D : list Z) (P : fecs) (X : gmap Z xid_t) (rm : list Z) (r : fd_reasm_t) : fd_reasm_t :=
  mk_reasm (fec_max r) (slot0 r) (root r) P (ancestry r ∖ list_to_set D) (frontier r ∖ list_to_set D) (orphaned r ∖ list_to_set D) (subtrees r ∖ list_to_set D)
    (filter (.∉ D) (subtreel r)) (filter (.∉ D) (out r)) X rm.

Lemma pruned_nil r : pruned [] (pool r) (xid r) (removed r) r = r.
Proof. unfold pruned. cbn [list_to_set]. rewrite !filter_nil, !difference_empty_L. by destruct r. Qed.

(** What publishing leaves alone. *)
Record published (newr : Z) (D : list Z) (r r' : fd_reasm_t) : Prop := mk_published {
  pb_live : forall x, x ∈ live r' <-> x ∈ live r /\ x ∉ D;
  pb_keeps : keeps (pool r) (pool r') (live r');
  pb_par : forall x, x ∈ live r' -> x <> newr -> par (pool r') x = par (pool r) x;
  pb_out : out r' = filter (.∉ D) (out r);
  pb_maps : forall x, x ∈ ancestry r' ∪ frontier r' <-> x ∈ live r' /\ x ∈ ancestry r ∪ frontier r;
  pb_sub : subtrees r' ⊆ subtrees r;
  pb_root : root r' = Some newr /\ fec_max r' = fec_max r;
}.

Lemma older_ok P s l : (forall k, k ∈ l -> is_Some (P !! k)) -> exists ks, older_subtrees P s l = Ok ks /\ ks `sublist_of` l /\ forall k e, P !! k = Some e -> k ∈ ks <-> k ∈ l /\ slot (data e) < s.
Proof.
  induction l as [|k l IH]; intros Hin; cbn [older_subtrees].
  - exists []. split_and!; try done. intros k e _. split; [by intros ?%not_elem_of_nil|]. by intros [?%not_elem_of_nil _].
  - destruct (Hin k ltac:(by left)) as [e E]. rewrite (get_ok _ _ _ E). cbn [mbind res_bind]. destruct IH as (ks & -> & Hs & Hk); [intros y Hy; apply Hin; by right|]. cbn [mbind res_bind]. eexists. split; [done|].
    destruct (Z.ltb_spec (slot (data e)) s) as [Hlt|Hlt].
    + split; [by apply sublist_skip|]. intros y ey Ey. rewrite !elem_of_cons, (Hk y ey Ey). split; [intros [->|?]; [split; [by left|congruence]|tauto]|tauto].
    + split; [by apply sublist_cons|]. intros y ey Ey. rewrite elem_of_cons, (Hk y ey Ey). split; [tauto|]. intros [[->|?] ?]; [|done]. assert (ey = e) as -> by congruence. lia.
Qed.

Section publish.
Context (r : fd_reasm_t) (rt newr : Z) (en : fd_reasm_fec_t) (opt_store : bool) (W : wf_dead r rt ∅).
Context (Hn : newr ∈ ancestry r ∪ frontier r) (Hnr : newr <> rt) (En : pool r !! newr = Some en) (Hcomp : slot_complete (data en) = true).

Let St := wd_state _ _ _ W.
Let L := so_links _ _ _ St.
Let next (x : Z) : list Z := filter (.≠ newr) (kids (pool r) x).

Context (old : list Z) (Hold : NoDup (rt :: old) /\ forall x, x ∈ old -> x ∈ subtrees r).

(** What is pruned. *)
Definition prune (x : Z) : Prop := reach next (rt :: old) x.

Lemma next_iff p x : p ∈ live r -> x ∈ next p <-> x ∈ live r /\ par (pool r) x = Some p /\ x <> newr.
Proof using All. intros Hp. unfold next. rewrite list_elem_of_filter, (kids_iff _ _ L) by done. tauto. Qed.

Lemma start_root x : x ∈ rt :: old -> x ∈ live r /\ par (pool r) x = None /\ x <> newr.
Proof using All.
  destruct (so_root _ _ _ St) as (_ & R2 & R3). intros [->|Hx]%elem_of_cons; [done|]. apply (proj2 Hold), (so_sub _ _ _ St) in Hx as (H1 & H2 & H3). split_and!; try done. intros ->. apply H2. by apply (connected_maps _ _ _ _ St).
Qed.

Lemma prune_forest : forest (live r) next (rt :: old).
Proof using All.
  apply (kids_forest _ _ L); [apply Hold|intros x Hx; by apply start_root|intros p x _ Hx; by apply list_elem_of_filter in Hx as [_ ?]|intros p Hp; by apply NoDup_filter, (kids_nodup _ _ L)|].
  intros p x Hp Hx Hs. destruct (start_root x Hs) as (_ & Hpar & _). apply list_elem_of_filter in Hx as [_ Hx].
  assert (Hpl : p ∈ live r).
  { clear Hx. induction Hp as [p Hp|q p Hq IH Hp]; [by apply start_root|]. by apply (next_iff q p) in Hp as [? _]. }
  apply (kids_iff _ _ L) in Hx as [_ ?]; [congruence|done].
Qed.

Lemma prune_in x : prune x -> x ∈ live r.
Proof using All. apply (fo_in _ _ _ prune_forest). Qed.

Lemma prune_new : ~ prune newr.
Proof using All.
  intros H. inversion H as [y Hy|p y Hp Hy]; subst; [by apply start_root in Hy as (_ & _ & ?)|]. unfold next in Hy. by apply list_elem_of_filter in Hy as [? _].
Qed.

(** Pruning follows the links, apart from the one to the new root. *)
Lemma prune_par x p : x ∈ live r -> x <> newr -> par (pool r) x = Some p -> prune x <-> prune p.
Proof using All.
  intros Hx Hne Ep. destruct (lk_par _ _ L x p Hx Ep) as [Hp _]. split.
  - intros H. inversion H as [y Hy|q y Hq Hy]; subst; [apply start_root in Hy as (_ & ? & _); congruence|]. apply next_iff in Hy as (_ & Eq & _); [|by apply prune_in]. by assert (p = q) as -> by congruence.
  - intros H. apply (reach_next _ _ p); [done|]. by apply next_iff.
Qed.

Lemma prune_or_below x : x ∈ live r -> connected (pool r) rt x -> prune x \/ below (pool r) newr x.
Proof using All.
  intros Hx Hc. revert Hx. induction Hc as [|y p Ep _ Hc IH]; intros Hy; [left; apply reach_start; by left|]. destruct (lk_par _ _ L y p Hy Ep) as [Hp _].
  destruct (decide (y = newr)) as [->|Hne]; [right; apply fec_below_refl|]. destruct (IH Hp) as [Hpr|Hb]; [left; by apply (prune_par y p)|right; by apply (fec_below_child _ _ L newr y p)].
Qed.

(** In the connected tree exactly what descends from the new root is kept. *)
Lemma prune_conn x : x ∈ live r -> connected (pool r) rt x -> prune x <-> ~ below (pool r) newr x.
Proof using All.
  assert (Hnl : newr ∈ live r) by (apply live_maps; by left). intros Hx Hc. split.
  - intros Hpr Hb. clear Hc. revert Hx Hpr. induction Hb as [y ->%list_elem_of_singleton|p y Hp IH Hy]; intros Hx Hpr; [by apply prune_new|]. assert (Hpl : p ∈ live r) by (by apply (below_in _ _ L newr)).
    apply (kids_iff _ _ L) in Hy as [_ Ep]; [|done]. destruct (decide (y = newr)) as [->|Hne]; [by apply prune_new|]. apply IH; [done|]. by apply (prune_par y p).
  - intros Hb. by destruct (prune_or_below x Hx Hc).
Qed.

(** ** The loop *)

Definition pruning (vis : list Z) (r' : fd_reasm_t) : Prop :=
  exists P X rm, r' = pruned vis P X rm r /\ gone vis (pool r) P /\ xid_wf P (live r ∖ list_to_set vis) X.

Lemma prune_maps vis x P X rm : x ∈ live r -> x ∉ vis ->
  (if decide (x ∈ ancestry (pruned vis P X rm r)) then Ok (with_ancestry (ancestry (pruned vis P X rm r) ∖ {[x]}) (pruned vis P X rm r))
   else if decide (x ∈ frontier (pruned vis P X rm r)) then Ok (with_frontier (frontier (pruned vis P X rm r) ∖ {[x]}) (pruned vis P X rm r))
   else if decide (x ∈ orphaned (pruned vis P X rm r)) then Ok (with_orphaned (orphaned (pruned vis P X rm r) ∖ {[x]}) (pruned vis P X rm r))
   else l ← list_remove x (subtreel (pruned vis P X rm r)); Ok (with_subtrees (subtrees (pruned vis P X rm r) ∖ {[x]}) l (pruned vis P X rm r))) = Ok (with_out (filter (.∉ vis) (out r)) (pruned (vis ++ [x]) P X rm r)).
Proof using All.
  intros Hx Hv. destruct (maps_disjoint _ _ _ St) as (D1 & D2 & D3). destruct (so_subl _ _ _ St) as [_ Hsl].
  assert (Hm : forall s : gset Z, s ∖ list_to_set (vis ++ [x]) = (s ∖ list_to_set vis) ∖ {[x]}) by (intros s; rewrite list_to_set_app_L; cbn [list_to_set]; rewrite union_empty_r_L; by rewrite difference_difference_l_L).
  assert (Hrem : forall s : gset Z, x ∉ s -> (s ∖ list_to_set vis) ∖ {[x]} = s ∖ list_to_set vis) by (clear; set_solver).
  assert (Hin : forall s : gset Z, x ∈ s ∖ list_to_set vis <-> x ∈ s) by (intros s; rewrite elem_of_difference, elem_of_list_to_set; tauto).
  assert (Hl : x ∉ subtrees r -> filter (.∉ vis ++ [x]) (subtreel r) = filter (.∉ vis) (subtreel r)).
  { intros Hs. rewrite filter_notin_snoc. apply filter_ne. rewrite list_elem_of_filter, Hsl. by intros [_ ?]. }
  assert (Hx4 : x ∈ ancestry r \/ x ∈ frontier r \/ x ∈ orphaned r \/ x ∈ subtrees r) by (apply live_maps in Hx; rewrite !elem_of_union in Hx; tauto).
  assert (Hd : (x ∈ ancestry r -> x ∉ frontier r) /\ (x ∈ ancestry r \/ x ∈ frontier r -> x ∉ orphaned r /\ x ∉ subtrees r) /\ (x ∈ orphaned r -> x ∉ subtrees r)) by (clear - D1 D2 D3; set_solver).
  destruct Hd as (Hd1 & Hd2 & Hd3). unfold pruned. cbn [ancestry frontier orphaned subtrees subtreel]. rewrite !Hm.
  destruct (decide (x ∈ ancestry r ∖ list_to_set vis)) as [Ha|Ha]; rewrite Hin in Ha; [| destruct (decide (x ∈ frontier r ∖ list_to_set vis)) as [Hf|Hf]; rewrite Hin in Hf; [| destruct (decide (x ∈ orphaned r ∖ list_to_set vis)) as [Ho|Ho]; rewrite Hin in Ho]].
  - destruct (Hd2 (or_introl Ha)) as [Ho Hs]. specialize (Hd1 Ha). rewrite (Hrem (frontier r)), (Hrem (orphaned r)), (Hrem (subtrees r)), Hl by done. done.
  - destruct (Hd2 (or_intror Hf)) as [Ho Hs]. rewrite (Hrem (ancestry r)), (Hrem (orphaned r)), (Hrem (subtrees r)), Hl by done. done.
  - specialize (Hd3 Ho). rewrite (Hrem (ancestry r)), (Hrem (frontier r)), (Hrem (subtrees r)), Hl by done. done.
  - assert (Hs : x ∈ subtrees r) by (destruct Hx4 as [?|[?|[?|?]]]; done). rewrite list_remove_ok by (apply list_elem_of_filter; split; [done|by apply Hsl]). cbn [mbind res_bind]. rewrite (Hrem (ancestry r)), (Hrem (frontier r)), (Hrem (orphaned r)), filter_notin_snoc by done. done.
Qed.

Lemma publish_visit vis r' x : pruning vis r' -> prune x -> x ∉ vis -> (forall y, y ∈ kids (pool r) x -> y ∉ vis) -> exists r'', publish_step opt_store newr r' x = Ok (r'', next x) /\ pruning (vis ++ [x]) r''.
Proof using All.
  intros (P & X & rm & -> & Hg & Hxw) Hpr Hv Hky. pose proof (prune_in x Hpr) as Hx. pose proof (prune_maps vis x P X rm Hx Hv) as E1. set (s1 := with_out _ _) in E1. assert (Hs1 : s1 = with_out (filter (.∉ vis) (out r)) (pruned (vis ++ [x]) P X rm r)) by done. clearbody s1. unfold publish_step. cbn [mbind res_bind] in E1 |- *. rewrite E1. cbn [mbind res_bind]. clear E1.
  assert (Hp1 : pool s1 = P /\ xid s1 = X /\ out s1 = filter (.∉ vis) (out r)) by (by rewrite Hs1). destruct Hp1 as (Hp1 & Hx1 & Ho1).
  assert (Hch : children P x = Ok (kids (pool r) x)).
  { apply (children_agree (pool r) (live r) (live r ∖ list_to_set vis)); try done; [by rewrite elem_of_difference, elem_of_list_to_set| |].
    - intros y Hy. rewrite elem_of_difference, elem_of_list_to_set. split; [|by apply Hky]. by apply (kids_iff _ _ L) in Hy as [? _].
    - apply (gone_agree vis); [done|]. intros y. rewrite elem_of_difference, elem_of_list_to_set. by intros [_ ?]. }
  rewrite Hp1, Hch. cbn [mbind res_bind]. assert (Hsz : Z.of_nat (size P) < 2 ^ 32).
  { destruct (wd_cap _ _ _ W). rewrite <- (size_dom (D := gset Z) P), (gone_dom _ _ _ Hg). pose proof (subseteq_size (dom (pool r) ∖ list_to_set vis) (dom (pool r)) ltac:(clear; set_solver)). rewrite size_dom in *. lia. }
  destruct (clear_xid_ok s1 (live r ∖ list_to_set vis) x) as (P2 & X2 & E2 & Hst & Hxw2); rewrite ?Hp1, ?Hx1; try done.
  { by rewrite elem_of_difference, elem_of_list_to_set. }
  { intros y Hy. apply elem_of_difference in Hy as [Hy Hyv]. rewrite elem_of_list_to_set in Hyv. destruct (lk_in _ _ L y Hy) as [ey Ey]. destruct (gone_lookup _ _ _ _ _ Hg Ey Hyv) as (ey' & ? & _). by exists ey'. }
  rewrite E2. cbn [mbind res_bind]. rewrite Hp1 in Hst. destruct (lk_in _ _ L x Hx) as [e E]. destruct (gone_lookup _ _ _ _ _ Hg E Hv) as (e1 & Ee1 & Hse1). destruct (same_strip_lookup _ _ _ _ Hst Ee1) as (e2 & Ee2 & Hse2).
  assert (Hio : in_out e2 = in_out e) by (destruct (strip_fields _ _ Hse1) as (_ & _ & _ & _ & _ & _ & _ & <-); by destruct (strip_fields _ _ Hse2) as (_ & _ & _ & _ & _ & _ & _ & <-)).
  set (s2 := store_remove opt_store x (with_xid X2 (with_pool P2 s1))).
  assert (Hp2 : pool s2 = P2 /\ out s2 = filter (.∉ vis) (out r)) by (unfold s2, store_remove; destruct opt_store; cbn; by rewrite Ho1). destruct Hp2 as (Hp2 & Ho2).
  destruct (out_remove_ok x e2 s2) as (P3 & E3 & Hoff & Hxn); [by rewrite Hp2|rewrite Hio, Ho2, list_elem_of_filter, (so_in_out _ _ _ St x e) by done; tauto|]. rewrite E3. cbn [mbind res_bind]. rewrite Hp2 in Hoff, Hxn.
  set (rm' := if opt_store then x :: rm else rm). exists (pruned (vis ++ [x]) (delete x P3) X2 rm' r). split.
  - f_equal. f_equal. rewrite Ho2. unfold release, s2, store_remove, rm'. rewrite Hs1.
    assert (Hf : filter (.∉ [x]) (filter (.∉ vis) (out r)) = filter (.∉ vis ++ [x]) (out r)) by (rewrite filter_notin_snoc; apply list_filter_iff; intros y; by rewrite list_elem_of_singleton).
    unfold with_out, pruned. destruct opt_store; cbn; by rewrite Hf.
  - exists (delete x P3), X2, rm'. split; [done|]. split.
    + apply (gone_release vis _ P); [done|]. intros y Hy. rewrite (Hoff y), decide_False by (by rewrite list_elem_of_singleton). specialize (Hst y). by destruct (P2 !! y), (P !! y).
    + rewrite list_to_set_app_L. cbn [list_to_set]. rewrite union_empty_r_L, <- difference_difference_l_L. apply (xid_wf_ext P2); [|done]. intros y Hy. rewrite lookup_delete_ne by (clear - Hy; set_solver). split; [|apply Hxn].
      specialize (Hoff y). destruct (P2 !! y), (P3 !! y); cbn in *; try done. destruct (decide (y ∈ [x])); injection Hoff as ? ? ? ? ? ? ? ?; congruence.
Qed.

Lemma prune_ok : exists D P X rm, bfs (publish_step opt_store newr) (rt :: old) r = Ok (pruned D P X rm r) /\ NoDup D /\ (forall x, x ∈ D <-> prune x) /\ gone D (pool r) P /\ xid_wf P (live r ∖ list_to_set D) X.
Proof using All.
  assert (Hsz : (size (live r) <= size (pool r))%nat).
  { rewrite <- (size_dom (D := gset Z) (pool r)). apply subseteq_size. intros x Hx. by apply elem_of_dom, (lk_in _ _ L). }
  pose proof prune_forest as F. destruct (bfs_ok (publish_step opt_store newr) (live r) next (rt :: old) pruning r F) as (D & r' & E & (P & X & rm & -> & Hg & Hxw) & HDn & _ & HD).
  - destruct (wd_cap _ _ _ W). lia.
  - done.
  - exists (pool r), (xid r), (removed r). split; [symmetry; apply pruned_nil|]. split; [apply gone_refl|]. cbn [list_to_set]. rewrite difference_empty_L. apply W.
  - intros vis r' x q HI Hnd Hrv Hrx Hx Hq. apply publish_visit; try done. intros y Hy Hyv. pose proof (prune_in x Hrx) as Hxl.
    rewrite Forall_forall in Hrv. apply (kids_iff _ _ L) in Hy as [Hyl Ey]; [|done]. assert (Hyn : y <> newr) by (intros ->; apply prune_new; by apply Hrv).
    assert (Hyx : y ∈ next x) by (by apply next_iff). assert (Hy2 : y ∈ (rt :: old) ++ (vis ≫= next)) by (rewrite <- Hq; apply elem_of_app; by left). apply elem_of_app in Hy2 as [Hy2|Hy2].
    + by apply (fo_root _ _ _ F x y).
    + apply list_elem_of_bind in Hy2 as (p & Hyp & Hpv). assert (p = x) as -> by (apply (fo_unique _ _ _ F p x y); try done; by apply Hrv). done.
  - exists D, P, X, rm. split_and!; done.
Qed.

(** An orphan goes with the root of its tree. *)
Lemma prune_orphan x : x ∈ live r -> ~ connected (pool r) rt x -> prune x <-> exists t, t ∈ old /\ below (pool r) t x.
Proof using All.
  intros Hx Hnc. split.
  - intros H. induction H as [y Hy|p y Hp IH Hy].
    + apply elem_of_cons in Hy as [->|Hy]; [destruct Hnc; constructor|]. exists y. split; [done|apply fec_below_refl].
    + apply next_iff in Hy as (_ & Ep & Hyn); [|by apply prune_in]. destruct (IH (prune_in p Hp)) as (t & Ht & Hb); [intros Hc; by apply Hnc, (connx_step _ _ _ y p)|]. exists t. split; [done|]. apply (fec_below_child _ _ L t y p); try done. by apply prune_in.
  - intros (t & Ht & Hb). assert (Htl : t ∈ live r) by (apply start_root; by right). clear Hx. induction Hb as [y ->%list_elem_of_singleton|p y Hp IH Hy]; [apply reach_start; by right|].
    assert (Hpl : p ∈ live r) by (by apply (below_in _ _ L t)). apply (kids_iff _ _ L) in Hy as [Hyl Ep]; [|done]. apply (prune_par y p); try done.
    + intros ->. apply Hnc. by apply (connected_maps _ _ _ _ St).
    + apply IH. intros Hc. by apply Hnc, (connx_step _ _ _ y p).
Qed.

(** ** The new state *)

Context (D : list Z) (P : fecs) (X : gmap Z xid_t) (rm : list Z) (HD : forall x, x ∈ D <-> prune x) (Hg : gone D (pool r) P) (Hxw : xid_wf P (live r ∖ list_to_set D) X).

Let V := live r ∖ list_to_set D.

Lemma kept_iff x : x ∈ V <-> x ∈ live r /\ ~ prune x.
Proof using All. unfold V. by rewrite elem_of_difference, elem_of_list_to_set, HD. Qed.

Lemma newr_kept : newr ∈ V.
Proof using All. apply kept_iff. split; [apply live_maps; by left|apply prune_new]. Qed.

Lemma published_links : exists Q, upd (set_parent None) newr P ≫= upd (set_sibling None) newr = Ok Q /\ links Q V /\ (forall x, x ∈ V -> kids Q x = kids (pool r) x) /\
  (forall x, x ∈ V -> par Q x = if decide (x = newr) then None else par (pool r) x) /\ keeps (pool r) Q V /\ xid_wf Q V X /\ dom Q = V.
Proof using All.
  pose proof newr_kept as Hnv. apply kept_iff in Hnv as Hnv'. destruct Hnv' as [Hnl Hnp]. destruct (gone_lookup _ _ _ _ _ Hg En) as (en' & En' & Hse); [by rewrite HD|]. destruct (strip_fields _ _ Hse) as (F1 & F2 & F3 & F4 & F5 & F6 & F7 & F8).
  set (Q := <[newr := set_sibling None (set_parent None en')]> P). exists Q. split.
  { rewrite (upd_ok _ _ _ _ En'). cbn [mbind res_bind]. rewrite (upd_ok _ _ newr (set_parent None en')) by (by rewrite lookup_insert_eq). unfold Q. by rewrite insert_insert_eq. }
  assert (Hnc : connected (pool r) rt newr) by (by apply (connected_maps _ _ _ _ St)).
  destruct (links_cut (pool r) (live r) V newr en L) as (L1 & K1 & P1); try done.
  { unfold V. clear. set_solver. }
  { intros p Ep Hpv. apply kept_iff in Hpv as [Hpl Hpp]. apply Hpp, (prune_conn p Hpl); [by inversion Hnc as [|c q Eq _ Hq]; subst; [done|]; replace p with q by congruence|].
    intros Hb. destruct (lk_par _ _ L newr p Hnl Ep) as [_ Hr]. destruct (below_rank _ _ L newr p Hnl Hb) as [->|?]; lia. }
  { intros c p [Hc Hcp]%kept_iff Hcn Ep. apply kept_iff. destruct (lk_par _ _ L c p Hc Ep) as [Hp _]. split; [done|]. by rewrite <- (prune_par c p). }
  { intros c p [Hp Hpp]%kept_iff Hc Ep. apply kept_iff. split; [done|]. destruct (decide (c = newr)) as [->|Hcn]; [done|]. by rewrite (prune_par c p). }
  set (P' := <[newr := set_sibling None (set_parent None en)]> (pool r)) in *.
  assert (Hst : forall x, x ∈ V -> strip <$> Q !! x = strip <$> P' !! x).
  { intros x Hx. unfold Q, P'. destruct (decide (x = newr)) as [->|Hxn].
    - rewrite !lookup_insert_eq. cbn. unfold strip, set_sibling, set_parent, set_xid_next. cbn. congruence.
    - rewrite !lookup_insert_ne by done. rewrite (Hg x), decide_False; [done|]. rewrite HD. by apply kept_iff in Hx as [_ ?]. }
  assert (Ha : agree V P' Q).
  { intros x Hx. specialize (Hst x Hx). destruct (P' !! x), (Q !! x); cbn in *; try done. injection Hst as ? ? ? ? ? ? ? ?. unfold shape. congruence. }
  assert (LQ : links Q V) by (by apply (links_agree _ P')). split; [done|]. split; [intros x Hx; rewrite <- (kids_agree V P' Q) by done; by apply K1|].
  split; [intros x Hx; rewrite <- (agree_par V P' Q) by done; apply P1|]. split; [|split].
  - apply (keeps_trans _ P'); [|by apply (strip_keeps P' Q V)]. split; [intros x [Hx _]%kept_iff; by apply (lk_in _ _ L)|]. intros x Hx. unfold P'. destruct (decide (x = newr)) as [->|Hxn]; [by rewrite lookup_insert_eq, En|by rewrite lookup_insert_ne].
  - apply (xid_wf_ext P); [|done]. intros x Hx. unfold Q. destruct (decide (x = newr)) as [->|Hxn]; [by rewrite lookup_insert_eq, En'|by rewrite lookup_insert_ne].
  - unfold Q. rewrite dom_insert_L, (gone_dom _ _ _ Hg), (wd_pool _ _ _ W), union_empty_r_L. fold V. clear - Hnv. set_solver.
Qed.

Lemma published_wf Q : links Q V -> (forall x, x ∈ V -> kids Q x = kids (pool r) x) -> (forall x, x ∈ V -> par Q x = if decide (x = newr) then None else par (pool r) x) -> keeps (pool r) Q V -> xid_wf Q V X -> dom Q = V ->
  let r' := with_root (slot0 r) (Some newr) (with_pool Q (pruned D P X rm r)) in wf_dead r' newr ∅ /\ published newr D r r'.
Proof using All.
  intros LQ Hkids Hpar K HX Hdom r'. pose proof newr_kept as Hnv. assert (Hnl : newr ∈ live r) by (apply live_maps; by left). assert (Hnc : connected (pool r) rt newr) by (by apply (connected_maps _ _ _ _ St)).
  assert (Hset : forall s : gset Z, s ⊆ live r -> forall x, x ∈ s ∖ list_to_set D <-> x ∈ V /\ x ∈ s) by (unfold V; clear; set_solver).
  assert (Hs4 : ancestry r ⊆ live r /\ frontier r ⊆ live r /\ orphaned r ⊆ live r /\ subtrees r ⊆ live r) by (unfold live; clear; set_solver). destruct Hs4 as (S1 & S2 & S3 & S4).
  assert (Hlive : live r' = V) by (unfold live, r', V; cbn -[list_to_set]; unfold live; clear; set_solver).
  assert (Hrp : prune rt) by (apply reach_start; by left).
  assert (Hcon : forall x, x ∈ V -> connected Q newr x <-> connected (pool r) rt x).
  { intros x Hx. split.
    - intros Hc. revert Hx. induction Hc as [|y p Ep _ Hc IH]; intros Hy; [done|]. destruct (lk_par _ _ LQ y p Hy Ep) as [Hp _]. rewrite Hpar in Ep by done. destruct (decide (y = newr)) as [->|Hyn]; [done|].
      apply (connx_step _ _ _ y p); [done|done|by apply IH].
    - intros Hc. apply kept_iff in Hx as [Hxl Hxp]. destruct (prune_or_below x Hxl Hc) as [?|Hb]; [done|]. clear Hc. revert Hxl Hxp. induction Hb as [y ->%list_elem_of_singleton|p y Hp IH Hy]; intros Hyl Hyp; [constructor|].
      assert (Hpl : p ∈ live r) by (by apply (below_in _ _ L newr)). apply (kids_iff _ _ L) in Hy as [_ Ep]; [|done].
      destruct (decide (y = newr)) as [->|Hyn]; [constructor|]. assert (Hpp : ~ prune p) by (by rewrite <- (prune_par y p)). apply (connx_step _ _ _ y p); [|done|by apply IH]. rewrite Hpar by (by apply kept_iff). by rewrite decide_False. }
  assert (Ha : forall x, x ∈ ancestry r' <-> x ∈ V /\ x ∈ ancestry r ∪ frontier r /\ kids Q x <> []).
  { intros x. cbn -[list_to_set]. rewrite (Hset _ S1), elem_of_union. split; [intros [H1 H2]|intros (H1 & H2 & H3)]; rewrite ?Hkids in * by done.
    - split_and!; [done|by left|by apply (so_anc _ _ _ St) in H2 as (_ & _ & _ & ?)].
    - split; [done|]. destruct H2 as [?|H2]; [done|]. by apply (so_fro _ _ _ St) in H2 as (_ & _ & [?|?]). }
  assert (Hf : forall x, x ∈ frontier r' <-> x ∈ V /\ x ∈ ancestry r ∪ frontier r /\ kids Q x = []).
  { intros x. cbn -[list_to_set]. rewrite (Hset _ S2), elem_of_union. split; [intros [H1 H2]|intros (H1 & H2 & H3)]; rewrite ?Hkids in * by done.
    - split_and!; [done|by right|by apply (so_fro _ _ _ St) in H2 as (_ & _ & [?|?])].
    - split; [done|]. destruct H2 as [H2|?]; [|done]. by apply (so_anc _ _ _ St) in H2 as (_ & _ & _ & ?). }
  assert (HVl : V ⊆ live r) by (unfold V; clear; set_solver). assert (Hrtv : rt ∉ V) by (intros [_ ?]%kept_iff; done).
  assert (Hrn : par Q newr = None) by (rewrite Hpar by done; by rewrite decide_True).
  assert (Hpx : forall x, x ∈ V -> x <> newr -> par Q x = par (pool r) x) by (intros x Hx Hxn; rewrite Hpar by done; by rewrite decide_False).
  destruct (so_subl _ _ _ St) as [Hl1 Hl2], (so_out _ _ _ St) as [Hq1 Hq2]. split.
  - split; rewrite ?Hlive; change (pool r') with Q; change (xid r') with X; try done.
    + apply (state_ok_part r r' rt newr None V); try done.
      * intros d Ed. rewrite (dat_lookup _ _ _ En) in Ed. by injection Ed as <-.
      * intros x. rewrite Ha. naive_solver.
      * intros x. rewrite Hf. naive_solver.
      * intros x. cbn -[list_to_set]. apply (Hset _ S3).
      * intros x. cbn -[list_to_set]. apply (Hset _ S4).
      * cbn. by apply NoDup_filter.
      * intros x. cbn -[list_to_set]. rewrite list_elem_of_filter, elem_of_difference, elem_of_list_to_set, Hl2. tauto.
      * cbn. by apply NoDup_filter.
      * intros x. cbn. rewrite list_elem_of_filter. unfold V. rewrite elem_of_difference, elem_of_list_to_set. split; [intros [? Hx]; split_and!; try done; by apply Hq2|tauto].
    + by apply (eqvoc_ok_part r r' newr V); [..|apply W].
    + destruct (wd_cap _ _ _ W) as [C1 C2]. split; [done|]. cbn. rewrite <- (size_dom (D := gset Z) Q), Hdom. pose proof (subseteq_size V (live r) HVl) as H1.
      assert (H2 : (size (live r) <= size (pool r))%nat) by (rewrite <- (size_dom (D := gset Z) (pool r)), (wd_pool _ _ _ W); apply subseteq_size; clear; set_solver). change (fec_max r') with (fec_max r). lia.
    + rewrite Hdom. clear. set_solver.
  - split; rewrite ?Hlive; change (pool r') with Q; try done.
    + intros x. by rewrite kept_iff, HD.
    + intros x. rewrite elem_of_union, Ha, Hf. split; [tauto|]. intros [H1 H2]. destruct (decide (kids Q x = [])); [right|left]; done.
    + cbn -[list_to_set]. clear. set_solver.
Qed.

End publish.

(** Publishing a complete element of the connected tree keeps what descends from
    it and the orphans that are not older. *)
Lemma publish_ok r rt newr en opt_store : wf_dead r rt ∅ -> newr ∈ ancestry r ∪ frontier r -> newr <> rt -> pool r !! newr = Some en -> slot_complete (data en) = true ->
  exists r' D, fd_reasm_publish opt_store newr r = Ok (Some newr, r') /\ wf_dead r' newr ∅ /\ published newr D r r' /\
    (forall x, x ∈ live r -> connected (pool r) rt x -> (x ∈ D <-> ~ below (pool r) newr x) /\ (x ∈ D \/ below (pool r) newr x)) /\
    (forall x, x ∈ live r -> ~ connected (pool r) rt x -> x ∈ D <-> exists t et, t ∈ subtrees r /\ below (pool r) t x /\ pool r !! t = Some et /\ slot (data et) < slot (data en)).
Proof.
  intros W Hn Hnr En Hcomp. pose proof (wd_state _ _ _ W) as St. pose proof (so_links _ _ _ St) as L. destruct (so_root _ _ _ St) as (R1 & R2 & R3). destruct (so_subl _ _ _ St) as [Hl1 Hl2].
  assert (Hin : forall x, x ∈ subtreel r -> is_Some (pool r !! x)) by (intros x Hx%Hl2; apply (lk_in _ _ L), live_maps; right; apply elem_of_union; by right).
  destruct (older_ok (pool r) (slot (data en)) (subtreel r) Hin) as (old & Eo & Hsub & Hold).
  assert (Hold' : NoDup (rt :: old) /\ forall x, x ∈ old -> x ∈ subtrees r).
  { assert (Hos : forall x, x ∈ old -> x ∈ subtrees r) by (intros x Hx; apply Hl2; by apply (elem_of_sublist old)). split; [|done]. apply NoDup_cons. split; [|by apply (sublist_NoDup old (subtreel r))].
    intros Hx%Hos. apply (so_sub _ _ _ St) in Hx as (_ & Hnc & _). apply Hnc. constructor. }
  unfold fd_reasm_publish. rewrite R1, query_live, bool_decide_eq_true_2 by (apply live_maps; by left). cbn [negb]. rewrite (get_ok _ _ _ En). cbn [mbind res_bind]. rewrite Eo. cbn [mbind res_bind].
  destruct (prune_ok r rt newr en opt_store W Hn Hnr En Hcomp old Hold') as (D & P & X & rm & E & HDn & HD & Hg & Hxw). rewrite E. cbn [mbind res_bind].
  destruct (published_links r rt newr en opt_store W Hn Hnr En Hcomp old Hold' D P X rm HD Hg Hxw) as (Q & EQ & LQ & Hkids & Hpar & K & HX & Hdom).
  destruct (published_wf r rt newr en opt_store W Hn Hnr En Hcomp old Hold' D P X rm HD Hg Hxw Q LQ Hkids Hpar K HX Hdom) as [Hw Hp].
  exists (with_root (slot0 r) (Some newr) (with_pool Q (pruned D P X rm r))), D. split.
  { unfold update. cbn [pool pruned]. destruct (upd (set_parent None) newr P) as [P1| | |] eqn:E1; cbn [mbind res_bind] in EQ |- *; try done. cbn [pool with_pool]. rewrite EQ. done. }
  split; [exact Hw|]. split; [exact Hp|]. split.
  - intros x Hx Hc. rewrite HD. split; [by apply (prune_conn r rt newr en opt_store W Hn Hnr En Hcomp old Hold')|by apply (prune_or_below r rt newr en opt_store W Hn Hnr En Hcomp old Hold')].
  - intros x Hx Hnc. rewrite HD, (prune_orphan r rt newr en opt_store W Hn Hnr En Hcomp old Hold' x Hx Hnc). split.
    + intros (t & Ht & Hb). assert (Hts : t ∈ subtreel r) by (by apply (elem_of_sublist old)). destruct (Hin t Hts) as [et Et]. exists t, et. apply (Hold t et Et) in Ht as [_ ?]. split_and!; try done. by apply Hl2.
    + intros (t & et & Ht & Hb & Et & Hlt). exists t. split; [|done]. apply (Hold t et Et). split; [by apply Hl2|done].
Qed.
