(* ===== verification/ReasmRun.v ===== *)
(** * The delivery queue

    What is connected, not delivered and not equivocating waits in the queue,
    behind its parent; the ancestors of a confirmed element are confirmed.
    Every operation keeps it so. *)

From S2P Require Import Prelude Bits Reasm ReasmTree ReasmInv ReasmMark ReasmPlace ReasmInsert ReasmRemove ReasmEvict ReasmPublish.

#[local] Open Scope Z_scope.

Definition ahead (p x : Z) (l : list Z) : Prop := exists l1 l2, l = l1 ++ x :: l2 /\ p ∈ l1.

Record queue_ok (r : fd_reasm_t) : Prop := mk_queue_ok {
  qo_in : forall x e, x ∈ ancestry r ∪ frontier r -> pool r !! x = Some e -> popped e = false -> eqvoc e = false -> x ∈ out r;
  qo_orphan : forall x e, x ∈ orphaned r ∪ subtrees r -> pool r !! x = Some e -> popped e = false;
  qo_order : forall x p e ep, x ∈ ancestry r ∪ frontier r -> par (pool r) x = Some p -> pool r !! x = Some e -> pool r !! p = Some ep -> eqvoc ep = false -> popped ep = false ->
    popped e = false /\ (x ∈ out r -> ahead p x (out r));
  qo_conf : forall x p e ep, x ∈ ancestry r ∪ frontier r -> par (pool r) x = Some p -> pool r !! x = Some e -> pool r !! p = Some ep -> confirmed e = true -> confirmed ep = true;
  qo_unconf : forall x e, x ∈ orphaned r ∪ subtrees r -> pool r !! x = Some e -> confirmed e = false;
}.

Lemma ahead_filter (D : list Z) p x l : ahead p x l -> p ∉ D -> x ∉ D -> ahead p x (filter (.∉ D) l).
Proof.
  intros (l1 & l2 & -> & Hp) HpD HxD. exists (filter (.∉ D) l1), (filter (.∉ D) l2). rewrite filter_app, filter_cons_True by done. split; [done|]. by apply list_elem_of_filter.
Qed.

Lemma ahead_app p x l l' : ahead p x l -> ahead p x (l ++ l').
Proof. intros (l1 & l2 & -> & Hp). exists l1, (l2 ++ l'). by rewrite <- app_assoc. Qed.

Lemma ahead_last p x l l1 l2 : p ∈ l ++ l1 -> ahead p x (l ++ l1 ++ x :: l2).
Proof. intros Hp. exists (l ++ l1), l2. by rewrite <- app_assoc. Qed.

(** Removing elements keeps the order of the others. *)
Lemma queue_part r r' (D : list Z) : queue_ok r -> keeps (pool r) (pool r') (live r') -> (forall x, x ∈ live r' -> x ∈ live r /\ x ∉ D) -> out r' = filter (.∉ D) (out r) -> links (pool r') (live r') ->
  ancestry r' ∪ frontier r' ## orphaned r' ∪ subtrees r' ->
  (forall x, x ∈ ancestry r' ∪ frontier r' <-> x ∈ live r' /\ x ∈ ancestry r ∪ frontier r) -> (forall x p, x ∈ live r' -> par (pool r') x = Some p -> par (pool r) x = Some p) -> queue_ok r'.
Proof.
  intros [Q1 Q2 Q3 Q4 Q5] K Hl Ho L' Hdj Hm Hp. split.
  - intros x e [Hx Hx']%Hm E Hpo Hq. destruct (keeps_lookup _ _ _ _ _ K Hx E) as (e' & E' & _ & _ & ? & _ & ?). rewrite Ho, list_elem_of_filter. split; [by apply Hl|]. apply (Q1 x e'); try done; congruence.
  - intros x e Hx E. assert (Hxl : x ∈ live r') by (apply live_maps; by right). destruct (keeps_lookup _ _ _ _ _ K Hxl E) as (e' & E' & _ & _ & _ & _ & <-). apply (Q2 x e'); [|done].
    destruct (Hl x Hxl) as [Hxr _]. apply live_maps in Hxr as [Hxr|?]; [|done]. exfalso. apply (Hdj x); [by apply Hm|done].
  - intros x p e ep [Hx Hx']%Hm Ep E E2 Hq Hpo. destruct (lk_par _ _ L' x p Hx Ep) as [Hpl _]. destruct (keeps_lookup _ _ _ _ _ K Hx E) as (e' & E' & _ & _ & _ & _ & <-).
    destruct (keeps_lookup _ _ _ _ _ K Hpl E2) as (ep' & Ep' & _ & _ & Hq' & _ & Hpo'). destruct (Q3 x p e' ep') as [H1 H2]; try done; [by apply Hp|congruence..|]. split; [done|].
    rewrite Ho, list_elem_of_filter. intros [HxD Hxo]. apply ahead_filter; [by apply H2|by apply Hl|done].
  - intros x p e ep [Hx Hx']%Hm Ep E E2 Hc. destruct (lk_par _ _ L' x p Hx Ep) as [Hpl _]. destruct (keeps_lookup _ _ _ _ _ K Hx E) as (e' & E' & _ & _ & _ & Hc' & _).
    destruct (keeps_lookup _ _ _ _ _ K Hpl E2) as (ep' & Ep' & _ & _ & _ & <- & _). apply (Q4 x p e' ep'); try done; [by apply Hp|congruence].
  - intros x e Hx E. assert (Hxl : x ∈ live r') by (apply live_maps; by right). destruct (keeps_lookup _ _ _ _ _ K Hxl E) as (e' & E' & _ & _ & _ & <- & _). apply (Q5 x e'); [|done].
    destruct (Hl x Hxl) as [Hxr _]. apply live_maps in Hxr as [Hxr|?]; [|done]. exfalso. apply (Hdj x); [by apply Hm|done].
Qed.

Lemma queue_cut r r' rt (D : list Z) dead : queue_ok r -> wf_dead r' rt dead -> cut_out D r r' -> queue_ok r'.
Proof.
  intros Q W [C0 C1 C2 C3 C4 C5 C6 C7]. pose proof (wd_state _ _ _ W) as St. destruct (maps_disjoint _ _ _ St) as (_ & D2 & _).
  apply (queue_part r r' D); try done; [|by apply (so_links _ _ _ St)|intros x p Hx Ep; by rewrite <- C3]. intros x. rewrite C1, elem_of_difference, elem_of_list_to_set. done.
Qed.

Lemma queue_publish r r' newr (D : list Z) : queue_ok r -> wf_dead r' newr ∅ -> published newr D r r' -> queue_ok r'.
Proof.
  intros Q W [C1 C2 C3 C4 C5 C6 C7]. pose proof (wd_state _ _ _ W) as St. destruct (maps_disjoint _ _ _ St) as (_ & D2 & _). destruct (so_root _ _ _ St) as (_ & _ & R3).
  apply (queue_part r r' D); try done; [intros x; by rewrite C1|by apply (so_links _ _ _ St)|]. intros x p Hx Ep. rewrite <- C3; [done|done|]. intros ->. congruence.
Qed.

(** A new element goes to the end of the queue, and what it connects behind it. *)
Lemma queue_insert r r' rt k d dead : queue_ok r -> wf_dead r rt dead -> wf_dead r' rt dead -> k ∉ live r -> inserted k d r r' -> queue_ok r'.
Proof.
  intros [Q1 Q2 Q3 Q4 Q5] W W' Hk [I1 (I2 & ek & Ek & Hdk & Hck & Hpk) I3 I4 (new & Ho & Hm & Hnd & Hnew) _ _]. pose proof (wd_state _ _ _ W) as St. pose proof (wd_state _ _ _ W') as St'.
  pose proof (so_links _ _ _ St) as L. pose proof (so_links _ _ _ St') as L'. destruct (so_root _ _ _ St) as (_ & R2 & R3). destruct (so_root _ _ _ St') as (_ & R2' & R3').
  assert (Hconn : forall x, x ∈ ancestry r ∪ frontier r -> x ∈ live r /\ x ∈ live r' /\ x <> k).
  { intros x Hx. split; [apply live_maps; by left|]. split; [apply live_maps; left; apply Hm; by left|]. intros ->. apply Hk, live_maps. by left. }
  assert (Horph : forall x, x ∈ live r' -> x ∉ ancestry r ∪ frontier r -> x <> k -> x ∈ orphaned r ∪ subtrees r).
  { intros x Hx Hxm Hxk. apply I1 in Hx as [[?|Hx] _]; [done|]. apply live_maps in Hx. tauto. }
  assert (Hup : forall x e', x ∈ live r' -> x ∉ ancestry r ∪ frontier r -> pool r' !! x = Some e' -> popped e' = false).
  { intros x e' Hx Hxm E. destruct (decide (x = k)) as [->|Hxk]; [congruence|]. destruct (I3 x e' Hx Hxk E) as (e & E0 & _ & _ & <- & _). apply (Q2 x e); [by apply Horph|done]. }
  assert (Huc : forall x e', x ∈ live r' -> x ∉ ancestry r ∪ frontier r -> pool r' !! x = Some e' -> confirmed e' = false).
  { intros x e' Hx Hxm E. destruct (decide (x = k)) as [->|Hxk]; [congruence|]. destruct (I3 x e' Hx Hxk E) as (e & E0 & _ & <- & _). apply (Q5 x e); [by apply Horph|done]. }
  assert (Hparm : forall x p, x ∈ ancestry r ∪ frontier r -> par (pool r') x = Some p -> par (pool r) x = Some p /\ p ∈ ancestry r ∪ frontier r).
  { intros x p Hx Ep. destruct (Hconn x Hx) as (Hxl & Hxl' & _). assert (Hpr : par (pool r) x = Some p).
    { destruct (par (pool r) x) as [q|] eqn:Eq; [by rewrite (I4 x q) in Ep|]. apply (connected_maps _ _ _ _ St) in Hx as [_ Hc]. apply (connx_none _ _ _ _ Eq) in Hc as ->. congruence. }
    split; [done|]. apply (connected_maps _ _ _ _ St) in Hx as [_ Hc]. destruct (connx_par _ _ _ _ _ R3 Hc Hpr) as [_ Hpc]. apply (connected_maps _ _ _ _ St). split; [|done]. by apply (lk_par _ _ L x p). }
  assert (Hnl : forall x, x ∈ new -> x ∈ live r') by (intros x Hx; apply live_maps; left; apply Hm; by right).
  assert (Hold : forall p ep, p ∈ ancestry r ∪ frontier r -> pool r' !! p = Some ep -> eqvoc ep = false -> popped ep = false -> exists ep0, pool r !! p = Some ep0 /\ eqvoc ep0 = false /\ popped ep0 = false).
  { intros p ep Hp E Hq Hpo. destruct (Hconn p Hp) as (_ & Hp' & Hpk'). destruct (I3 p ep Hp' Hpk' E) as (ep0 & E0 & _ & _ & Hpo0 & Hq0). exists ep0. split; [done|]. split; [|congruence]. destruct (eqvoc ep0); [|done]. by rewrite Hq0 in Hq. }
  split.
  - intros x e [Hx|Hx]%Hm E Hpo Hq; rewrite Ho, elem_of_app; [left|by right]. destruct (Hold x e Hx E Hq Hpo) as (e0 & E0 & Hq0 & Hpo0). by apply (Q1 x e0).
  - intros x e Hx E. destruct (maps_disjoint _ _ _ St') as (_ & D2 & _). apply (Hup x e); [apply live_maps; by right| |done]. intros Hxm. apply (D2 x); [apply Hm; by left|done].
  - intros x p e ep Hx Ep E E2 Hq Hpo. apply Hm in Hx as [Hx|Hx].
    + destruct (Hconn x Hx) as (Hxl & Hxl' & Hxk). destruct (Hparm x p Hx Ep) as [Hpr Hp].
      destruct (Hold p ep Hp E2 Hq Hpo) as (ep0 & Ep0 & Hq0 & Hpo0). destruct (I3 x e Hxl' Hxk E) as (e0 & E0 & _ & _ & <- & _). destruct (Q3 x p e0 ep0) as [H1 H2]; try done. split; [done|].
      rewrite Ho, elem_of_app. intros [Hxo|Hxn]; [by apply ahead_app, H2|]. by destruct (Hnd x Hxn).
    + split; [apply (Hup x e); auto|]. intros _. destruct Hnew as [->|[Hcm HO]]; [by apply not_elem_of_nil in Hx|]. apply list_elem_of_split in Hx as (l1 & l2 & El). rewrite Ho, El. apply ahead_last, elem_of_app.
      destruct (HO l1 x l2 El) as [->|(q & Hq1 & Hxq)].
      * left. destruct (lk_par _ _ L' k p I2 Ep) as [Hpl _]. destruct (so_par _ _ _ St' k d p (data ep) I2 Ep) as [-> _]; [rewrite (dat_lookup _ _ _ Ek); congruence|by apply dat_lookup|].
        destruct (Hold _ ep Hcm E2 Hq Hpo) as (ep0 & Ep0 & Hq0 & Hpo0). by apply (Q1 _ ep0).
      * right. assert (Hql : q ∈ live r') by (apply Hnl; rewrite El; apply elem_of_app; by left). apply (kids_iff _ _ L') in Hxq as [_ Eq]; [|done]. by replace p with q by congruence.
  - intros x p e ep Hx Ep E E2 Hc. apply Hm in Hx as [Hx|Hx]; [|by rewrite (Huc x e (Hnl x Hx) (Hnd x Hx) E) in Hc]. destruct (Hparm x p Hx Ep) as [Hpr Hp]. destruct (Hconn x Hx) as (_ & Hxl' & Hxk), (Hconn p Hp) as (_ & Hpl' & Hpk').
    destruct (I3 x e Hxl' Hxk E) as (e0 & E0 & _ & Hc0 & _). destruct (I3 p ep Hpl' Hpk' E2) as (ep0 & Ep0 & _ & <- & _). apply (Q4 x p e0 ep0); try done. congruence.
  - intros x e Hx E. destruct (maps_disjoint _ _ _ St') as (_ & D2 & _). apply (Huc x e); [apply live_maps; by right| |done]. intros Hxm. apply (D2 x); [apply Hm; by left|done].
Qed.

Lemma pops_taken P l o t l2 x : pops P l o t l2 -> Some x = o -> x ∈ t.
Proof. intros H E. destruct H as [|l1 k e l2' _ _ _]; [done|]. injection E as ->. apply elem_of_app. right. by left. Qed.

(** Peeking finds the element that is delivered. *)
Lemma pops_peek P l o t l2 : pops P l o t l2 -> peek_from P l = Ok o.
Proof.
  assert (Hs : forall l1 l3, Forall (fun k => exists e, P !! k = Some e /\ deliverable e = false) l1 -> peek_from P (l1 ++ l3) = peek_from P l3).
  { intros l1 l3 H. induction H as [|k l1 (e & E & Hd) _ IH]; [done|]. cbn [app peek_from]. rewrite (get_ok _ _ _ E). cbn [mbind res_bind]. by rewrite Hd. }
  intros H. destruct H as [l H|l1 k e l2 H E Hd]; [rewrite <- (app_nil_r l), Hs by done; done|]. rewrite Hs by done. cbn [peek_from]. rewrite (get_ok _ _ _ E). cbn [mbind res_bind]. by rewrite Hd.
Qed.

Lemma pops_deliverable P l x t l2 : pops P l (Some x) t l2 -> exists e, P !! x = Some e /\ deliverable e = true.
Proof. intros H. inversion H; subst. eauto. Qed.

(** Delivering takes the first element that may be delivered. *)
Lemma queue_pop r rt o (t : list Z) l2 Q : reasm_wf r rt -> queue_ok r -> pops (pool r) (out r) o t l2 -> taken t o (pool r) Q -> queue_ok (with_out l2 (with_pool Q r)).
Proof.
  intros W [Q1 Q2 Q3 Q4 Q5] Hp Ht. pose proof (rw_state _ _ W) as St. pose proof (so_links _ _ _ St) as L. destruct (so_out _ _ _ St) as [Hn Ho]. pose proof (pops_list _ _ _ _ _ Hp) as El.
  assert (Hlk : forall x e, Q !! x = Some e -> exists e0, pool r !! x = Some e0 /\ eqvoc e = eqvoc e0 /\ popped e = (if decide (Some x = o) then true else popped e0)).
  { intros x e E. rewrite Ht in E. destruct (pool r !! x) as [e0|]; [|done]. exists e0. cbn in E. injection E as <-. destruct (decide (Some x = o)), (decide (x ∈ t)); done. }
  assert (Hpar : forall x, x ∈ live r -> par Q x = par (pool r) x) by (intros x Hx; symmetry; apply (agree_par (live r)); [by apply (taken_agree t o)|done]).
  assert (Hstay : forall x e0, x ∈ t -> Some x <> o -> pool r !! x = Some e0 -> popped e0 = true \/ eqvoc e0 = true).
  { intros x e0 Hx Hxo E0. assert (Hnd : exists e1, pool r !! x = Some e1 /\ deliverable e1 = false).
    { inversion Hp as [l Hf|l1 k e l2' Hf Ek Hd]; subst; rewrite Forall_forall in Hf; [by apply Hf|]. apply elem_of_app in Hx as [Hx|Hx%list_elem_of_singleton]; [by apply Hf|]. by subst. }
    destruct Hnd as (e1 & E1 & Hd). assert (e1 = e0) as -> by congruence. unfold deliverable in Hd. destruct (popped e0), (eqvoc e0); auto. }
  change (ancestry (with_out l2 (with_pool Q r))) with (ancestry r). split; cbn [ancestry frontier orphaned subtrees out pool with_out with_pool].
  - intros x e Hx E Hpo Hq. destruct (Hlk x e E) as (e0 & E0 & Hq0 & Hpo0). destruct (decide (Some x = o)); [congruence|]. assert (Hxo : x ∈ out r) by (apply (Q1 x e0); try done; congruence).
    rewrite El in Hxo. apply elem_of_app in Hxo as [Hxt|?]; [|done]. destruct (Hstay x e0); try done; congruence.
  - intros x e Hx E. destruct (Hlk x e E) as (e0 & E0 & _ & ->). destruct (decide (Some x = o)) as [Hxo|]; [|by apply (Q2 x e0)]. exfalso.
    assert (Hxout : x ∈ out r) by (rewrite El; apply elem_of_app; left; by apply (pops_taken _ _ _ _ _ _ Hp)).
    apply Ho in Hxout as [Hxl Hxc]. destruct (maps_disjoint _ _ _ St) as (_ & D2 & _). apply (D2 x); [by apply (connected_maps _ _ _ _ St)|done].
  - intros x p e ep Hx Ep E E2 Hq Hpo. assert (Hxl : x ∈ live r) by (apply live_maps; by left). rewrite Hpar in Ep by done. destruct (Hlk x e E) as (e0 & E0 & _ & ->). destruct (Hlk p ep E2) as (ep0 & Ep0 & Hq0 & Hpo0).
    destruct (decide (Some p = o)) as [|Hpo']; [congruence|]. rewrite Hpo in Hpo0. rewrite Hq in Hq0. destruct (Q3 x p e0 ep0) as [H1 H2]; try done.
    assert (Hpt : p ∉ t) by (intros Hpt; destruct (Hstay p ep0 Hpt Hpo' Ep0); congruence).
    assert (Hpx : x ∈ out r -> x ∈ l2 /\ ahead p x l2).
    { intros Hxo. destruct (H2 Hxo) as (l1 & l3 & Eo & Hp1). rewrite El in Eo. apply app_eq_app in Eo as (l & [[Et El2]|[El1 El2]]).
      - exfalso. apply Hpt. rewrite Et. apply elem_of_app. by left.
      - split; [rewrite El2; apply elem_of_app; right; by left|]. exists l, l3. split; [done|]. rewrite El1 in Hp1. by apply elem_of_app in Hp1 as [?|?]. }
    split.
    + destruct (decide (Some x = o)) as [Hxo|]; [exfalso|done]. assert (Hxt : x ∈ t) by (by apply (pops_taken _ _ _ _ _ _ Hp)).
      assert (Hxout : x ∈ out r) by (rewrite El; apply elem_of_app; by left). destruct (Hpx Hxout) as [Hxl2 _]. rewrite El in Hn. apply NoDup_app in Hn as (_ & Hdj & _). by apply (Hdj x).
    + intros Hxl2. apply Hpx. rewrite El. apply elem_of_app. by right.
  - intros x p e ep Hx Ep E E2 Hc. assert (Hxl : x ∈ live r) by (apply live_maps; by left). rewrite Hpar in Ep by done. destruct (taken_flags t o _ _ x Ht) as (_ & Hcx & _). destruct (taken_flags t o _ _ p Ht) as (_ & Hcp & _).
    rewrite E in Hcx. rewrite E2 in Hcp. destruct (pool r !! x) as [e0|] eqn:E0, (pool r !! p) as [ep0|] eqn:Ep0; try done. cbn in *. injection Hcp as <-. apply (Q4 x p e0 ep0); try done. congruence.
  - intros x e Hx E. destruct (taken_flags t o _ _ x Ht) as (_ & Hcx & _). rewrite E in Hcx. destruct (pool r !! x) as [e0|] eqn:E0; [|done]. cbn in Hcx. injection Hcx as <-. by apply (Q5 x e0).
Qed.

(** What is above a connected element is connected. *)
Lemma above_conn P V rt a x : links P V -> par P rt = None -> a ∈ V -> below P a x -> connected P rt x -> connected P rt a.
Proof.
  intros L Hr Ha Hb. induction Hb as [x ->%list_elem_of_singleton|p x Hp IH Hx]; [done|]. intros Hc. apply IH. apply (kids_iff _ _ L) in Hx as [_ Ep]; [|by apply (below_in _ _ L a)].
  by destruct (connx_par _ _ _ _ _ Hr Hc Ep).
Qed.

Lemma queue_confirm r rt k e (C : list Z) Q : reasm_wf r rt -> queue_ok r -> k ∈ ancestry r ∪ frontier r -> pool r !! k = Some e -> confirm_path (pool r) (live r) k C ->
  let push := negb (popped e) && negb (in_out e) && negb (confirmed e) in let l := if push then out r ++ [k] else out r in
  (forall x, Q !! x = (fun e => (if decide (x ∈ C) then set_confirmed true else id) ((if push && bool_decide (x = k) then set_in_out true else id) e)) <$> pool r !! x) ->
  queue_ok (with_out l (with_pool Q r)).
Proof.
  intros W [Q1 Q2 Q3 Q4 Q5] Hk Ek HC push l HQ. pose proof (rw_state _ _ W) as St. pose proof (so_links _ _ _ St) as L.
  assert (Hlk : forall x e, Q !! x = Some e -> exists e0, pool r !! x = Some e0 /\ eqvoc e = eqvoc e0 /\ popped e = popped e0).
  { intros x e' E. rewrite HQ in E. destruct (pool r !! x) as [e0|]; [|done]. exists e0. cbn in E. injection E as <-. destruct (decide (x ∈ C)), (push && _); done. }
  assert (Hcf : forall x e', Q !! x = Some e' -> exists e0, pool r !! x = Some e0 /\ confirmed e' = if decide (x ∈ C) then true else confirmed e0).
  { intros x e' E. rewrite HQ in E. destruct (pool r !! x) as [e0|]; [|done]. exists e0. cbn in E. injection E as <-. destruct (decide (x ∈ C)), (push && _); done. }
  assert (Hpar : forall x, par Q x = par (pool r) x).
  { intros x. unfold par. rewrite HQ. destruct (pool r !! x) as [e0|]; [cbn|done]. destruct (decide (x ∈ C)), (push && _); done. }
  assert (Hl : forall x, x ∈ l <-> x ∈ out r \/ (push = true /\ x = k)) by (intros x; unfold l; destruct push; rewrite ?elem_of_app, ?list_elem_of_singleton; naive_solver).
  split; cbn [ancestry frontier orphaned subtrees out pool with_out with_pool].
  - intros x e' Hx E Hpo Hq. destruct (Hlk x e' E) as (e0 & E0 & Hq0 & Hpo0). apply Hl. left. apply (Q1 x e0); try done; congruence.
  - intros x e' Hx E. destruct (Hlk x e' E) as (e0 & E0 & _ & ->). by apply (Q2 x e0).
  - intros x p e' ep Hx Ep E E2 Hq Hpo. rewrite Hpar in Ep. destruct (Hlk x e' E) as (e0 & E0 & _ & ->). destruct (Hlk p ep E2) as (ep0 & Ep0 & Hq0 & Hpo0). destruct (Q3 x p e0 ep0) as [H1 H2]; try done; [congruence..|].
    split; [done|]. intros Hxl. unfold l in *. destruct push eqn:Epush; [|by apply H2]. apply elem_of_app in Hxl as [Hxo|Hxk%list_elem_of_singleton]; [by apply ahead_app, H2|]. subst x.
    exists (out r), []. split; [done|]. assert (Hpm : p ∈ ancestry r ∪ frontier r).
    { destruct (so_root _ _ _ St) as (_ & _ & R3). apply (connected_maps _ _ _ _ St) in Hx as [Hxl Hc]. destruct (connx_par _ _ _ _ _ R3 Hc Ep) as [_ Hpc]. apply (connected_maps _ _ _ _ St). split; [|done]. by apply (lk_par _ _ L k p). }
    apply (Q1 p ep0); try done; congruence.
  - intros x p e' ep Hx Ep E E2 Hc. rewrite Hpar in Ep. destruct (Hcf x e' E) as (e0 & E0 & He'). destruct (Hcf p ep E2) as (ep0 & Ep0 & ->). rewrite He' in Hc. destruct (decide (p ∈ C)) as [|HpC]; [done|].
    destruct (decide (x ∈ C)) as [HxC|HxC]; [|by apply (Q4 x p e0 ep0)]. by destruct (cp_up _ _ _ _ HC x p ep0 HxC Ep Ep0).
  - intros x e' Hx E. destruct (Hcf x e' E) as (e0 & E0 & ->). destruct (decide (x ∈ C)) as [HxC|HxC]; [|by apply (Q5 x e0)]. exfalso. destruct (cp_in _ _ _ _ HC x HxC) as [Hxl Hb]. destruct (maps_disjoint _ _ _ St) as (_ & D2 & _).
    apply (D2 x); [|done]. apply (connected_maps _ _ _ _ St). split; [done|]. apply (connected_maps _ _ _ _ St) in Hk as [Hkl Hkc]. destruct (so_root _ _ _ St) as (_ & _ & R3). by apply (above_conn _ _ _ x k L).
Qed.

(** * Runs of the reassembly

    From its initialisation on, whatever FEC sets arrive in whatever order, no
    operation fails and the invariants are kept. *)

(** ** Giving evicted elements back *)

Section release.
Context (r : fd_reasm_t) (rt : Z) (D : list Z) (P : fecs).
Context (W : wf_dead r rt (list_to_set D)) (HP : forall x, P !! x = if decide (x ∈ D) then None else pool r !! x).

Lemma release_same x : x ∈ live r -> P !! x = pool r !! x.
Proof using All. intros Hx. rewrite HP, decide_False; [done|]. intros HxD. apply (wd_dead _ _ _ W x); [by apply elem_of_list_to_set|done]. Qed.

Lemma release_agree : agree (live r) (pool r) P.
Proof using All. intros x Hx. by rewrite release_same. Qed.

Lemma release_dom : dom P = live r.
Proof using All.
  apply set_eq. intros x. rewrite elem_of_dom, HP. destruct (decide (x ∈ D)) as [Hx|Hx].
  - split; [by intros [? ?]|]. intros Hl. exfalso. apply (wd_dead _ _ _ W x); [by apply elem_of_list_to_set|done].
  - rewrite <- elem_of_dom, (wd_pool _ _ _ W), elem_of_union, elem_of_list_to_set. tauto.
Qed.

Lemma release_size : Z.of_nat (size P) <= Z.of_nat (size (pool r)).
Proof using All. rewrite <- (size_dom (D := gset Z) P), <- (size_dom (D := gset Z) (pool r)), release_dom, (wd_pool _ _ _ W). apply inj_le, subseteq_size. set_solver. Qed.

Lemma release_wf : wf_dead (with_pool P r) rt ∅.
Proof using All.
  pose proof release_same as Hs. pose proof release_agree as Ha. pose proof release_dom as Hd. pose proof release_size as Hsz. destruct W as [St W2 W3 [C1 C2] W5 W6].
  split; change (live (with_pool P r)) with (live r); cbn [pool with_pool xid].
  - apply state_ok_pool; [done| |done]. intros x Hx. by rewrite Hs.
  - apply (xid_wf_ext (pool r)); [|done]. intros x Hx. by rewrite Hs.
  - apply (eqvoc_ok_ext (pool r)); try done; [|by apply (so_links _ _ _ St)]. intros x Hx. by rewrite Hs.
  - split; [done|]. cbn. lia.
  - rewrite Hd. set_solver.
  - set_solver.
Qed.

Lemma release_queue : queue_ok r -> queue_ok (with_pool P r).
Proof using All.
  intros [Q1 Q2 Q3 Q4 Q5]. pose proof release_same as Hs. pose proof (so_links _ _ _ (wd_state _ _ _ W)) as L.
  assert (Hc : forall x, x ∈ ancestry r ∪ frontier r -> x ∈ live r) by (intros x Hx; apply live_maps; by left). assert (Ho : forall x, x ∈ orphaned r ∪ subtrees r -> x ∈ live r) by (intros x Hx; apply live_maps; by right).
  split; cbn [ancestry frontier orphaned subtrees out pool with_pool].
  - intros x e Hx. rewrite Hs by auto. by apply Q1.
  - intros x e Hx. rewrite Hs by auto. by apply Q2.
  - intros x p e ep Hx Ep. assert (Ep' : par (pool r) x = Some p) by (unfold par in *; by rewrite Hs in Ep by auto). destruct (lk_par _ _ L x p (Hc x Hx) Ep') as [Hp _]. rewrite !Hs by auto. by apply Q3.
  - intros x p e ep Hx Ep. assert (Ep' : par (pool r) x = Some p) by (unfold par in *; by rewrite Hs in Ep by auto). destruct (lk_par _ _ L x p (Hc x Hx) Ep') as [Hp _]. rewrite !Hs by auto. by apply Q4.
  - intros x e Hx. rewrite Hs by auto. by apply Q5.
Qed.

End release.

(** ** Operations *)

Inductive op :=
  | Insert (k : Z) (d : fec_data) (orphaned_iter frontier_iter : list Z)
  | Pop
  | Confirm (block_id : Z)
  | Publish (newr : Z).

(** The delivered element, if any, and the next state. *)
Definition step (opt_store : bool) (o : op) (r : fd_reasm_t) : res (option Z * fd_reasm_t) :=
  match o with
  | Insert k d oi fi => '(_, evicted, r) ← fd_reasm_insert opt_store k d oi fi r; r ← release_evicted_chain (S (size (pool r))) evicted r; Ok (None, r)
  | Pop => fd_reasm_pop r
  | Confirm b => r ← fd_reasm_confirm r b; Ok (None, r)
  | Publish n => '(_, r) ← fd_reasm_publish opt_store n r; Ok (None, r)
  end.

Section runs.
(** Merkle roots chain without cycles: a root is above the one it is chained to. *)
Context (height : Z -> Z) (opt_store : bool).

(** What the caller guarantees. *)
Definition op_ok (r : fd_reasm_t) (o : op) : Prop :=
  match o with
  | Insert k d oi fi => k ∉ live r /\ data_ok d /\ height (cmr d) < height k /\ (forall x, x ∈ oi <-> x ∈ orphaned r) /\ (forall x, x ∈ fi <-> x ∈ frontier r)
  | Publish n => n ∉ live r \/ (n ∈ ancestry r ∪ frontier r /\ root r <> Some n /\ forall e, pool r !! n = Some e -> slot_complete (data e) = true)
  | _ => True
  end.

Definition heights (r : fd_reasm_t) (rt : Z) : Prop := forall x d, x ∈ live r -> x <> rt -> dat (pool r) x = Some d -> height (cmr d) < height x.

Record reasm_inv (r : fd_reasm_t) (rt : Z) : Prop := mk_reasm_inv {
  iv_wf : wf_dead r rt ∅;
  iv_queue : queue_ok r;
  iv_height : heights r rt;
  iv_free : Z.of_nat (size (pool r)) < fec_max r;
}.

Lemma heights_below r rt dead c x : wf_dead r rt dead -> heights r rt -> c ∈ live r -> below (pool r) c x -> height c <= height x.
Proof using Type.
  intros W Hh Hc Hb. pose proof (wd_state _ _ _ W) as St. pose proof (so_links _ _ _ St) as L. destruct (so_root _ _ _ St) as (_ & _ & R3).
  induction Hb as [x ->%list_elem_of_singleton|p x Hp IH Hx]; [lia|]. assert (Hpl : p ∈ live r) by (by apply (below_in _ _ L c)). apply (kids_iff _ _ L) in Hx as [Hxl Ep]; [|done].
  destruct (lk_in _ _ L x Hxl) as [e E], (lk_in _ _ L p Hpl) as [ep Epp]. destruct (so_par _ _ _ St x (data e) p (data ep) Hxl Ep (dat_lookup _ _ _ E) (dat_lookup _ _ _ Epp)) as [-> _].
  assert (Hxr : x <> rt) by (intros ->; congruence). specialize (Hh x (data e) Hxl Hxr (dat_lookup _ _ _ E)). lia.
Qed.

Lemma no_cycle r rt dead k d c dc : wf_dead r rt dead -> heights r rt -> height (cmr d) < height k -> c ∈ subtrees r -> dat (pool r) c = Some dc -> cmr dc = k -> ~ below (pool r) c (cmr d).
Proof using Type.
  intros W Hh Hd Hc Ed Ek Hb. pose proof (wd_state _ _ _ W) as St. apply (so_sub _ _ _ St) in Hc as (Hcl & Hcn & _). assert (Hcr : c <> rt) by (intros ->; apply Hcn; constructor).
  specialize (Hh c dc Hcl Hcr Ed) as Hhc. pose proof (heights_below r rt dead c _ W Hh Hcl Hb). rewrite Ek in Hhc. lia.
Qed.

Lemma run_in P o l x : run P o l -> x ∈ l -> is_Some (P !! x).
Proof using Type.
  revert o. induction l as [|y l IH]; intros o Hr Hx; [by apply not_elem_of_nil in Hx|]. destruct Hr as (_ & e & E & Hr). apply elem_of_cons in Hx as [->|Hx]; [by exists e|by apply (IH (child e))].
Qed.

(** The caller gives the chain back, which makes room. *)
Lemma release_inv r rt D o : wf_dead r rt (list_to_set D) -> queue_ok r -> heights r rt -> run (pool r) o D -> NoDup D -> Z.of_nat (size (pool r)) <= fec_max r -> (D = [] -> Z.of_nat (size (pool r)) < fec_max r) ->
  exists r', release_evicted_chain (S (size (pool r))) o r = Ok r' /\ reasm_inv r' rt /\ live r' = live r /\ forall x, x ∈ live r -> pool r' !! x = pool r !! x.
Proof using Type.
  intros W Hq Hh Hrun Hn Hsz Hroom. assert (Hlen : (length D <= S (size (pool r)))%nat) by (apply Nat.le_le_succ_r, nodup_dom; [done|]; intros x; by apply (run_in _ o)).
  destruct (release_chain_ok D (S (size (pool r))) o r Hrun Hn Hlen) as (P & EP & HP). pose proof (release_same r rt D P W HP) as Hs. exists (with_pool P r). split; [done|]. split; [|done]. split.
  - by apply (release_wf r rt D).
  - by apply (release_queue r rt D).
  - intros x dx Hx Hxr. cbn. unfold dat. rewrite Hs by done. by apply Hh.
  - cbn. destruct D as [|h l]; [pose proof (release_size r rt [] P W HP); specialize (Hroom eq_refl); lia|].
    assert (Hlt : (size P < size (pool r))%nat); [|lia]. rewrite <- (size_dom (D := gset Z) P), <- (size_dom (D := gset Z) (pool r)), (release_dom r rt (h :: l) P W HP), (wd_pool _ _ _ W). apply subset_size.
    pose proof (wd_dead _ _ _ W h) as Hdd. cbn [list_to_set] in *. split; [clear; set_solver|]. intros Hsub. apply Hdd; [clear; set_solver|]. apply Hsub. clear. set_solver.
Qed.

Lemma inserted_heights r r' rt k d : heights r rt -> height (cmr d) < height k -> inserted k d r r' -> heights r' rt.
Proof using Type.
  intros Hh Hhk [J1 (J2 & ek & Jk & Jd & _) J3 _ _ _ _] x dx Hx Hxr. unfold dat. destruct (pool r' !! x) as [e'|] eqn:E'; [|done]. cbn. intros [= <-].
  destruct (decide (x = k)) as [->|Hxk]; [by assert (e' = ek) as -> by congruence; rewrite Jd|]. destruct (J3 x e' Hx Hxk E') as (e & E & <- & _). apply Hh; [by apply J1 in Hx as [[?|?] _]|done|by apply dat_lookup].
Qed.

(** Nothing but the new element [k] changes what was delivered. *)
Definition kept_popped (k : Z) (r r' : fd_reasm_t) : Prop := forall x e', x ∈ live r' -> x <> k -> pool r' !! x = Some e' -> exists e, x ∈ live r /\ pool r !! x = Some e /\ data e = data e' /\ popped e = popped e'.

Lemma kept_popped_trans k r1 r2 r3 : kept_popped k r1 r2 -> kept_popped k r2 r3 -> kept_popped k r1 r3.
Proof using Type. intros H1 H2 x e3 Hx Hk E3. destruct (H2 x e3 Hx Hk E3) as (e2 & Hx2 & E2 & D2 & P2). destruct (H1 x e2 Hx2 Hk E2) as (e1 & Hx1 & E1 & D1 & P1). exists e1. split_and!; try done; congruence. Qed.

Lemma keeps_popped k r r' : live r' ⊆ live r -> keeps (pool r) (pool r') (live r') -> kept_popped k r r'.
Proof using Type. intros Hs K x e' Hx _ E'. destruct (keeps_lookup _ _ _ _ _ K Hx E') as (e & E & Hd & _ & _ & _ & Hp). exists e. split_and!; try done. by apply Hs. Qed.

Lemma same_popped k r r' : live r' = live r -> (forall x, x ∈ live r -> pool r' !! x = pool r !! x) -> kept_popped k r r'.
Proof using Type. intros Hl Hs x e' Hx _ E'. rewrite Hl in Hx. rewrite Hs in E' by done. by exists e'. Qed.

Lemma inserted_popped k d r r' : inserted k d r r' -> kept_popped k r r'.
Proof using Type.
  intros I x e' Hx Hxk E'. destruct (is_old _ _ _ _ I x e' Hx Hxk E') as (e & E & Hd & _ & Hp & _). exists e. split_and!; try done. by apply (is_live _ _ _ _ I) in Hx as [[?|?] _].
Qed.

(** An insertion that finds room, after what was evicted is out of the maps. *)
Definition refused (r : fd_reasm_t) (d : fec_data) : Prop := exists dp, cmr d ∈ live r /\ dat (pool r) (cmr d) = Some dp /\ validate_chained_block_id dp d = false.

Lemma insert_release r rt D o k d : wf_dead r rt (list_to_set D) -> queue_ok r -> heights r rt -> run (pool r) o D -> NoDup D -> k ∉ live r -> k ∉ D -> data_ok d -> height (cmr d) < height k ->
  Z.of_nat (size (pool r)) < fec_max r -> (D = [] -> Z.of_nat (size (pool r)) + 1 < fec_max r) ->
  exists fec r1 r2, insert_fec opt_store k d r = Ok (fec, r1) /\ release_evicted_chain (S (size (pool r1))) o r1 = Ok r2 /\ reasm_inv r2 rt /\ kept_popped k r r2 /\
    ((fec = None /\ refused r d /\ r1 = r) \/ (fec = Some k /\ ~ refused r d /\ inserted k d r r1 /\ wf_dead r1 rt (list_to_set D))).
Proof using Type.
  intros W Hq Hh Hrun Hn Hk HkD Hd Hhk Hsz Hroom. assert (HkU : k ∉ live r ∪ list_to_set D) by (rewrite elem_of_union, elem_of_list_to_set; tauto). assert (Hck : cmr d <> k) by (intros E; rewrite E in Hhk; lia).
  pose proof (so_links _ _ _ (wd_state _ _ _ W)) as L.
  assert (Hcase : refused r d \/ (chains_ok r d /\ ~ refused r d)).
  { destruct (decide (cmr d ∈ live r)) as [Hc|Hc]; [|right; split; [by intros dp ?|by intros (dp & ? & _)]]. destruct (lk_in _ _ L _ Hc) as [ep Ep]. pose proof (dat_lookup _ _ _ Ep) as Ed.
    destruct (validate_chained_block_id (data ep) d) eqn:Ev; [right|left; by exists (data ep)]. split; [intros dp _ Edp; congruence|intros (dp & _ & Edp & ?); congruence]. }
  destruct Hcase as [Href|[Hv Href]].
  - pose proof Href as (dp & Hc & Edp & Ev). exists None, r. rewrite (insert_refused r rt k d (list_to_set D) opt_store W HkU Hck Hsz dp Hc Edp Ev).
    destruct (release_inv r rt D o W Hq Hh Hrun Hn) as (r2 & E2 & I2 & Hl2 & Hs2); [lia|intros HD; specialize (Hroom HD); lia|]. exists r2. split_and!; auto using same_popped.
  - destruct (insert_accepted r rt k d (list_to_set D) opt_store W HkU Hd Hck Hsz (fun c dc => no_cycle r rt _ k d c dc W Hh Hhk) Hv) as (r1 & E1 & W1 & I1). exists (Some k), r1.
    destruct (is_root _ _ _ _ I1) as [_ Hmx].
    assert (Hsz1 : Z.of_nat (size (pool r1)) <= Z.of_nat (size (pool r)) + 1).
    { rewrite <- (size_dom (D := gset Z) (pool r1)), <- (size_dom (D := gset Z) (pool r)), (wd_pool _ _ _ W1), (wd_pool _ _ _ W).
      assert (Hsub : live r1 ∪ list_to_set D ⊆ {[k]} ∪ (live r ∪ list_to_set D)).
      { intros x Hx. apply elem_of_union in Hx as [Hx|Hx]; [apply (is_live _ _ _ _ I1) in Hx as [[->|?] _]|]; rewrite !elem_of_union, elem_of_singleton; tauto. }
      apply subseteq_size in Hsub. rewrite (size_union {[k]} (live r ∪ list_to_set D)), size_singleton in Hsub by (clear - HkU; set_solver). lia. }
    destruct (release_inv r1 rt D o W1) as (r2 & E2 & I2 & Hl2 & Hs2).
    + by apply (queue_insert r r1 rt k d (list_to_set D)).
    + by apply (inserted_heights r r1 rt k d).
    + apply (run_ext (pool r)); [|done]. intros x Hx. symmetry. apply (is_dead _ _ _ _ I1); [|by intros ->]. intros Hxl. apply (wd_dead _ _ _ W x); [by apply elem_of_list_to_set|done].
    + done.
    + rewrite Hmx. lia.
    + intros HD. specialize (Hroom HD). rewrite Hmx. lia.
    + exists r2. split_and!; auto. apply (kept_popped_trans k r r1); [by apply (inserted_popped k d)|by apply same_popped].
Qed.

(** ** No operation fails *)

Lemma fec_insert_step r rt k d oi fi : reasm_inv r rt -> op_ok r (Insert k d oi fi) -> exists r', step opt_store (Insert k d oi fi) r = Ok (None, r') /\ reasm_inv r' rt /\ kept_popped k r r'.
Proof using Type.
  intros [W Hq Hh Hf] (Hk & Hd & Hhk & Hoi & Hfi). pose proof (wd_state _ _ _ W) as St. cbn [step]. unfold fd_reasm_insert. rewrite query_live, (bool_decide_eq_false_2 (k ∈ live r)) by done. cbn [negb FD_TEST mbind res_bind].
  unfold pool_free. destruct (Z.eqb_spec (fec_max r - Z.of_nat (size (pool r))) 1) as [Hfull|Hfull].
  - destruct (so_root _ _ _ St) as (R1 & _). rewrite bool_decide_eq_true_2 by (by rewrite R1). cbn [FD_TEST mbind res_bind]. destruct (evict_ok r rt W opt_store (cmr d) oi fi Hoi Hfi) as (o & r1 & -> & Ho). cbn [mbind res_bind].
    destruct o as [h|].
    + destruct Ho as (l & (W1 & Hcut & Hrun & Hn & Hrt) & _). destruct (co_same _ _ _ Hcut) as [_ Hmx].
      assert (Hdom : dom (pool r1) = dom (pool r)).
      { rewrite (wd_pool _ _ _ W1), (wd_pool _ _ _ W), (co_live _ _ _ Hcut). pose proof (co_in _ _ _ Hcut) as Hin. apply set_eq. intros x. rewrite !elem_of_union, elem_of_difference, elem_of_list_to_set. split; [intros [[? _]|?]; auto|].
        intros [?|?]; [|set_solver]. destruct (decide (x ∈ h :: l)); [by right|by left]. }
      assert (Hsz : size (pool r1) = size (pool r)) by (by rewrite <- !(size_dom (D := gset Z)), Hdom).
      destruct (insert_release r1 rt (h :: l) (Some h) k d) as (fec & r2 & r3 & -> & E3 & I3 & K3 & _); try done.
      * by apply (queue_cut r r1 rt (h :: l) (list_to_set (h :: l))).
      * intros x dx Hx Hxr. rewrite <- (keeps_dat _ _ _ _ (co_keeps _ _ _ Hcut)) by done. apply Hh; [|done]. rewrite (co_live _ _ _ Hcut) in Hx. by apply elem_of_difference in Hx as [? _].
      * rewrite (co_live _ _ _ Hcut), elem_of_difference. by intros [? _].
      * intros Hin. by apply Hk, (co_in _ _ _ Hcut).
      * rewrite Hsz, Hmx. lia.
      * cbn [mbind res_bind]. rewrite E3. cbn [mbind res_bind]. exists r3. split_and!; try done. apply (kept_popped_trans k r r1); [|done]. apply keeps_popped; [|apply Hcut].
        rewrite (co_live _ _ _ Hcut). clear. set_solver.
    + destruct Ho as (-> & _). cbn [mbind res_bind].
      assert (Hrun : run (pool (with_pool (<[k := new_fec d]> (pool r)) r)) (Some k) [k]) by (cbn; split; [done|]; exists (new_fec d); by rewrite lookup_insert_eq).
      destruct (release_chain_ok [k] (S (size (<[k := new_fec d]> (pool r)))) (Some k) _ Hrun (NoDup_singleton k)) as (P & EP & HP); [simpl; lia|]. cbn [pool with_pool] in *. rewrite EP. cbn [mbind res_bind]. eexists. split; [done|].
      assert (HkN : pool r !! k = None) by (apply not_elem_of_dom; rewrite (wd_pool _ _ _ W); set_solver).
      assert (EPr : P = pool r).
      { apply map_eq. intros x. rewrite HP. destruct (decide (x ∈ [k])) as [->%list_elem_of_singleton|Hx]; [done|]. rewrite lookup_insert_ne; [done|]. intros ->. apply Hx. by left. }
      rewrite EPr. change (with_pool (pool r) (with_pool (<[k := new_fec d]> (pool r)) r)) with (with_pool (pool r) r). replace (with_pool (pool r) r) with r by (by destruct r). split; [done|]. by apply same_popped.
  - destruct (insert_release r rt [] None k d) as (fec & r2 & r3 & -> & E3 & I3 & K3 & _); try done; [constructor|apply not_elem_of_nil|lia|]. cbn [mbind res_bind]. rewrite E3. cbn [mbind res_bind]. by exists r3.
Qed.

Lemma pop_step r rt : reasm_inv r rt -> exists o r', fd_reasm_pop r = Ok (o, r') /\ reasm_inv r' rt.
Proof using Type.
  intros [W Hq Hh Hf]. apply wf_dead_empty in W. destruct (pop_ok r rt W) as (o & t & l2 & Q & E & Hp & Ht & W'). exists o, (with_out l2 (with_pool Q r)). split; [done|]. split.
  - by apply wf_dead_empty.
  - by apply (queue_pop r rt o t).
  - intros x dx Hx Hxr. cbn. unfold dat. destruct (taken_flags t o _ _ x Ht) as (_ & _ & <- & _). by apply Hh.
  - cbn. rewrite <- (size_dom (D := gset Z) Q), (taken_dom _ _ _ _ Ht), size_dom. done.
Qed.

Lemma confirm_step r rt k : reasm_inv r rt -> exists r', fd_reasm_confirm r k = Ok r' /\ reasm_inv r' rt.
Proof using Type.
  intros I. pose proof I as [W Hq Hh Hf]. apply wf_dead_empty in W. destruct (confirm_ok r rt k W) as [[_ ->]|(e & C & Q & Hin & E & HP & Er & W' & HQ)]; [by exists r|]. rewrite Er. eexists. split; [done|].
  assert (Hd : forall x, dat Q x = dat (pool r) x) by (intros x; unfold dat; rewrite HQ; destruct (pool r !! x); [cbn|done]; destruct (decide (x ∈ C)), (negb (popped e) && negb (in_out e) && negb (confirmed e) && bool_decide (x = k)); done). split.
  - by apply wf_dead_empty.
  - exact (queue_confirm r rt k e C Q W Hq Hin E HP HQ).
  - intros x dx Hx Hxr. cbn. rewrite Hd. by apply Hh.
  - cbn. pose proof (rw_pool _ _ W') as Hdom. cbn [pool with_out with_pool] in Hdom. rewrite <- (size_dom (D := gset Z) Q), Hdom. change (live (with_out (if negb (popped e) && negb (in_out e) && negb (confirmed e) then out r ++ [k] else out r) (with_pool Q r))) with (live r).
    rewrite <- (rw_pool _ _ W), size_dom. done.
Qed.

Lemma publish_step_ok r rt n : reasm_inv r rt -> op_ok r (Publish n) -> exists o r' rt', fd_reasm_publish opt_store n r = Ok (o, r') /\ reasm_inv r' rt'.
Proof using Type.
  intros I Hop. pose proof I as [W Hq Hh Hf]. pose proof (wd_state _ _ _ W) as St. destruct (so_root _ _ _ St) as (R1 & R2 & _). destruct Hop as [Hn|(Hn & Hnr & Hc)].
  - exists None, r, rt. unfold fd_reasm_publish. rewrite R1, query_live, bool_decide_eq_false_2 by done. done.
  - assert (Hnl : n ∈ live r) by (apply live_maps; by left). destruct (lk_in _ _ (so_links _ _ _ St) n Hnl) as [en En]. assert (Hne : n <> rt) by (intros ->; by rewrite R1 in Hnr).
    destruct (publish_ok r rt n en opt_store W Hn Hne En (Hc en En)) as (r' & D & E & W' & Hp & HD & _). exists (Some n), r', n. split; [done|]. destruct (pb_root _ _ _ _ Hp) as [_ Hmx].
    assert (Hsub : live r' ⊆ live r) by (intros x Hx; by apply (pb_live _ _ _ _ Hp) in Hx as [? _]). split.
    + done.
    + by apply (queue_publish r r' n D).
    + intros x dx Hx Hxn. rewrite <- (keeps_dat _ _ _ _ (pb_keeps _ _ _ _ Hp)) by done. apply Hh; [by apply Hsub|]. intros ->. apply (pb_live _ _ _ _ Hp) in Hx as [Hxl HxD]. apply HxD, HD; [done|constructor|].
      intros Hb. apply (connected_maps _ _ _ _ St) in Hn as [_ Hnc]. destruct (below_rank _ _ (so_links _ _ _ St) n rt Hnl Hb) as [?|Hlt]; [done|].
      assert (Hrk : forall y, y ∈ live r -> connected (pool r) rt y -> rk (pool r) rt <= rk (pool r) y).
      { intros y Hy Hcy. revert Hy. induction Hcy as [|y p Ep _ Hcy IH]; intros Hy; [lia|]. destruct (lk_par _ _ (so_links _ _ _ St) y p Hy Ep) as [Hpl Hl]. specialize (IH Hpl). lia. }
      specialize (Hrk n Hnl Hnc). lia.
    + rewrite Hmx, <- (size_dom (D := gset Z) (pool r')), (wd_pool _ _ _ W'), union_empty_r_L. apply subseteq_size in Hsub. rewrite <- (size_dom (D := gset Z) (pool r)), (wd_pool _ _ _ W), union_empty_r_L in Hf. lia.
Qed.

Lemma fec_step_ok r rt o : reasm_inv r rt -> op_ok r o -> exists x r' rt', step opt_store o r = Ok (x, r') /\ reasm_inv r' rt'.
Proof using Type.
  intros I Hop. destruct o as [k d oi fi| |b|n].
  - destruct (fec_insert_step r rt k d oi fi I Hop) as (r' & E & I' & _). by exists None, r', rt.
  - destruct (pop_step r rt I) as (x & r' & E & I'). by exists x, r', rt.
  - cbn [step]. destruct (confirm_step r rt b I) as (r' & -> & I'). by exists None, r', rt.
  - cbn [step]. destruct (publish_step_ok r rt n I Hop) as (x & r' & rt' & -> & I'). by exists None, r', rt'.
Qed.
End runs.
