(* ===== verification/ReasmCorrect.v ===== *)
(** * What the reassembly guarantees

    The theorems hold in every state that can be reached from the
    initialisation by operations the caller may call. *)

From S2P Require Import Prelude Bits Reasm ReasmTree ReasmInv ReasmMark ReasmPlace ReasmInsert ReasmRemove ReasmEvict ReasmPublish ReasmRun.

#[local] Open Scope Z_scope.

(** ** Initialisation *)

Lemma init_inv height fm cmr0 xn0 k s : 2 <= fm <= 2 ^ 31 - 1 -> 0 <= s < 2 ^ 63 -> exists r, fd_reasm_init cmr0 xn0 k s (fd_reasm_new fm) = Ok r /\ reasm_inv height r k.
Proof.
  intros Hfm Hs. unfold fd_reasm_init, pool_free. cbn [fec_max fd_reasm_new pool root]. rewrite map_size_empty, (proj2 (Z.eqb_neq _ _)) by lia. rewrite bool_decide_eq_true_2 by done. cbn [negb FD_TEST mbind res_bind].
  set (d := mk_data cmr0 s 0 0 0 false true false). set (e := mk_fec d None None None false true true false xn0). set (r1 := with_pool _ _).
  assert (Ek : pool r1 !! k = Some e) by (cbn; by rewrite lookup_insert_eq).
  destruct (xid_update_ok r1 ∅ k e) as (P & X & E & Hst & Hxw); try done.
  { intros x. change (xid r1) with (∅ : gmap Z xid_t). rewrite lookup_empty. by intros y ?%not_elem_of_empty. } { rewrite size_empty. pose proof (xid_max_ge fm). change (fec_max r1) with fm. lia. }
  change (slot (data e)) with s in E. change (fec_set_idx (data e)) with 0 in E. rewrite E. cbn [mbind res_bind]. rewrite fec_map_insert_ok by (cbn; clear; set_solver). cbn [mbind res_bind]. set (r := with_root _ _ _). exists r. split; [done|].
  assert (Hl : live r = {[k]}) by (unfold live; cbn; clear; set_solver). assert (Hfr : frontier r = {[k]}) by (cbn; clear; set_solver). destruct (same_strip_lookup _ _ _ _ Hst Ek) as (e' & Ek' & Hse). destruct (strip_fields _ _ Hse) as (F1 & F2 & F3 & F4 & F5 & F6 & F7 & F8).
  assert (Hd : dom P = {[k]}) by (rewrite <- (same_strip_dom _ _ Hst); cbn; rewrite dom_insert_L, dom_empty_L; clear; set_solver).
  assert (Hpk : par P k = None) by (rewrite (par_lookup _ _ _ Ek'); by rewrite F2). assert (Hx1 : forall x, x ∈ ({[k]} : gset Z) -> x = k) by (intros x; by rewrite elem_of_singleton).
  destruct (links_intro P {[k]} (fun _ => [])) as [LP HK].
  { intros x ->%elem_of_singleton. exists e'. rewrite F2, F3, F4. cbn [e child parent sibling]. split_and!; try done; [apply sibs_nil|constructor|].
    intros c. split; [by intros ?%not_elem_of_nil|]. intros [->%elem_of_singleton Hc]. congruence. }
  assert (Hck : connected P k k) by constructor. assert (Hkk : kids P k = []) by (apply HK; clear; set_solver). assert (Hdk : dat P k = Some d) by (rewrite (dat_lookup _ _ _ Ek'); by rewrite F1).
  split.
  - split; rewrite ?Hl; change (pool r) with P; change (xid r) with X.
    + split; rewrite ?Hl, ?Hfr; change (pool r) with P; try done.
      * split_and!; [done|clear; set_solver|done].
      * intros d'. rewrite Hdk. by intros [= <-].
      * intros x d' ->%elem_of_singleton. rewrite Hdk. intros [= <-]. unfold data_ok, d. cbn. lia.
      * intros x d' p dp ->%elem_of_singleton Ep. congruence.
      * by intros x d' ->%elem_of_singleton.
      * intros x. split; [by intros ?%not_elem_of_empty|]. intros (->%elem_of_singleton & _ & _ & ?). done.
      * intros x. split; [intros ->%elem_of_singleton; split_and!; [clear; set_solver|done|by right]|]. by intros [? _].
      * intros x. split; [by intros ?%not_elem_of_empty|]. intros (->%elem_of_singleton & ? & _). done.
      * intros x. split; [by intros ?%not_elem_of_empty|]. intros (->%elem_of_singleton & ? & _). done.
      * split; [constructor|]. intros x. split; [by intros ?%not_elem_of_nil|by intros ?%not_elem_of_empty].
      * split; [constructor|]. by intros x ?%not_elem_of_nil.
      * intros x e0 ->%elem_of_singleton E0. assert (e0 = e') as -> by congruence. rewrite F8. split; [done|by intros ?%not_elem_of_nil].
    + by rewrite union_empty_r_L in Hxw.
    + split; [intros j i e0 ->%elem_of_singleton ->%elem_of_singleton; done|]. intros x p e0 ep ->%elem_of_singleton Ep. congruence.
    + split; [cbn; lia|]. cbn. rewrite <- (size_dom (D := gset Z) P), Hd, size_singleton. lia.
    + rewrite Hd. clear. set_solver.
    + clear. set_solver.
  - assert (Hm : forall x, x ∈ ancestry r ∪ frontier r -> x = k) by (intros x; rewrite Hfr; cbn; clear; set_solver). split; change (pool r) with P.
    + intros x e0 ->%Hm E0 Hp. assert (e0 = e') as -> by congruence. by rewrite F7 in Hp.
    + intros x e0 Hx. exfalso. cbn in Hx. clear - Hx. set_solver.
    + intros x p e0 ep ->%Hm Ep. congruence.
    + intros x p e0 ep ->%Hm Ep. congruence.
    + intros x e0 Hx. exfalso. cbn in Hx. clear - Hx. set_solver.
  - intros x d' Hx. rewrite Hl in Hx. apply elem_of_singleton in Hx as ->. done.
  - cbn. rewrite <- (size_dom (D := gset Z) P), Hd, size_singleton. lia.
Qed.

(** ** States that can be reached *)

Section reachable.
Context (height : Z -> Z) (opt_store : bool).

Inductive reachable : fd_reasm_t -> Prop :=
  | reachable_init fm cmr0 xn0 k s r : 2 <= fm <= 2 ^ 31 - 1 -> 0 <= s < 2 ^ 63 -> fd_reasm_init cmr0 xn0 k s (fd_reasm_new fm) = Ok r -> reachable r
  | reachable_step r o x r' : reachable r -> op_ok height r o -> step opt_store o r = Ok (x, r') -> reachable r'.

Lemma reachable_inv r : reachable r -> exists rt, reasm_inv height r rt.
Proof using Type.
  induction 1 as [fm cmr0 xn0 k s r Hfm Hs E|r o x r' _ [rt I] Hop E].
  - destruct (init_inv height fm cmr0 xn0 k s Hfm Hs) as (r' & E' & I). exists k. congruence.
  - destruct (fec_step_ok height opt_store r rt o I Hop) as (x1 & r1 & rt1 & E1 & I1). exists rt1. congruence.
Qed.


End reachable.

(** ** The trees *)

(** Chained to the root by Merkle roots, all of them received. *)
Inductive chained (r : fd_reasm_t) (rt : Z) : Z -> Prop :=
  | chained_root : chained r rt rt
  | chained_next k d : k ∈ live r -> k <> rt -> dat (pool r) k = Some d -> cmr d ∈ live r -> chained r rt (cmr d) -> chained r rt k.

Lemma chained_up r rt k d : chained r rt k -> k <> rt -> dat (pool r) k = Some d -> cmr d ∈ live r /\ chained r rt (cmr d).
Proof. intros H Hk Ed. inversion H as [|y d' Hy Hyr Ed' Hcl Hcc]; subst; [done|]. rewrite Ed in Ed'. by injection Ed' as <-. Qed.

Definition has_child (r : fd_reasm_t) (rt k : Z) : Prop := exists c d, c ∈ live r /\ c <> rt /\ dat (pool r) c = Some d /\ cmr d = k.

Section trees.
Context (r : fd_reasm_t) (rt : Z) (W : wf_dead r rt ∅).

Let St := wd_state _ _ _ W.
Let L := so_links _ _ _ St.

(** An element is linked to the one its Merkle root is chained to. *)
Lemma par_iff k d p : k ∈ live r -> dat (pool r) k = Some d -> par (pool r) k = Some p <-> k <> rt /\ p = cmr d /\ cmr d ∈ live r.
Proof using All.
  intros Hk Ed. destruct (so_root _ _ _ St) as (_ & R2 & R3). split.
  - intros Ep. destruct (lk_par _ _ L k p Hk Ep) as [Hp _]. destruct (lk_in _ _ L p Hp) as [ep Epp]. destruct (so_par _ _ _ St k d p (data ep) Hk Ep Ed (dat_lookup _ _ _ Epp)) as [-> _]. split_and!; try done. intros ->. congruence.
  - intros (Hkr & -> & Hc). destruct (par (pool r) k) as [q|] eqn:Eq.
    + destruct (lk_par _ _ L k q Hk Eq) as [Hq _]. destruct (lk_in _ _ L q Hq) as [eq' Eq']. by destruct (so_par _ _ _ St k d q (data eq') Hk Eq Ed (dat_lookup _ _ _ Eq')) as [-> _].
    + exfalso. by destruct (so_miss _ _ _ St k d Hk Hkr Eq Ed).
Qed.

Lemma chained_conn k : k ∈ live r -> chained r rt k <-> connected (pool r) rt k.
Proof using All.
  intros Hk. split.
  - intros Hc0. clear Hk. induction Hc0 as [|k d Hkl Hkr Ed Hc _ IH]; [constructor|]. apply (connx_step _ _ _ k (cmr d)); [by apply (par_iff k d)|done|done].
  - intros Hc. revert Hk. induction Hc as [|k p Ep _ _ IH]; intros Hk; [constructor|]. destruct (lk_in _ _ L k Hk) as [e E]. pose proof (dat_lookup _ _ _ E) as Ed. destruct (proj1 (par_iff k _ p Hk Ed) Ep) as (Hkr & Epc & Hp).
    rewrite Epc in IH. by apply (chained_next r rt k (data e)); [..|apply IH].
Qed.

Lemma kids_has k : k ∈ live r -> kids (pool r) k <> [] <-> has_child r rt k.
Proof using All.
  intros Hk. split.
  - intros Hn. destruct (kids (pool r) k) as [|c l] eqn:Ek; [done|]. assert (Hc : c ∈ kids (pool r) k) by (rewrite Ek; by left). apply (kids_iff _ _ L) in Hc as [Hcl Ep]; [|done].
    destruct (lk_in _ _ L c Hcl) as [e E]. pose proof (dat_lookup _ _ _ E) as Ed. destruct (proj1 (par_iff c _ k Hcl Ed) Ep) as (Hcr & Hkc & _). by exists c, (data e).
  - intros (c & d & Hcl & Hcr & Ed & <-) Hn. assert (Hc : c ∈ kids (pool r) (cmr d)) by (apply (kids_iff _ _ L); [done|]; split; [done|]; by apply (par_iff c d)). rewrite Hn in Hc. by apply not_elem_of_nil in Hc.
Qed.

End trees.

Section guarantees.
Context (height : Z -> Z) (opt_store : bool).

(** C14. The four maps are what the documentation says: with the root [rt], the
    connected nodes are the received FEC sets that chain to the root by Merkle
    roots and have a child, the connected leaves those without one, the
    orphaned roots the other ones whose chained Merkle root is not received and
    the orphaned nodes those whose chained Merkle root is. *)
Theorem reasm_maps r : reachable height opt_store r -> exists rt, root r = Some rt /\ rt ∈ live r /\ forall k d, k ∈ live r -> dat (pool r) k = Some d ->
  (k ∈ ancestry r <-> chained r rt k /\ has_child r rt k) /\ (k ∈ frontier r <-> chained r rt k /\ ~ has_child r rt k) /\
  (k ∈ subtrees r <-> ~ chained r rt k /\ cmr d ∉ live r) /\ (k ∈ orphaned r <-> ~ chained r rt k /\ cmr d ∈ live r).
Proof using Type.
  intros R. destruct (reachable_inv height opt_store r R) as [rt [W _ _ _]]. pose proof (wd_state _ _ _ W) as St. destruct (so_root _ _ _ St) as (R1 & R2 & R3). exists rt. split; [done|]. split; [done|]. intros k d H H0. split_and!.
  - rewrite (so_anc _ _ _ St), (chained_conn r rt W k H), <- (kids_has r rt W k H). naive_solver.
  - rewrite (so_fro _ _ _ St), (chained_conn r rt W k H), <- (kids_has r rt W k H). split; [intros (_ & Hc & [?|Hk]); [done|]; split; [done|]; intros Hk'; by apply Hk'|]. intros [Hc Hk]. split_and!; try done. right. by apply dec_stable.
  - rewrite (so_sub _ _ _ St), (chained_conn r rt W k H). assert (Hne : ~ connected (pool r) rt k -> k <> rt) by (intros Hn ->; apply Hn; constructor).
    pose proof (par_iff r rt W k d (cmr d) H H0) as Hp. split.
    + intros (_ & Hn & Ep). split; [done|]. intros Hc. rewrite (proj2 Hp) in Ep by (split_and!; auto). done.
    + intros [Hn Hc]. split_and!; try done. destruct (par (pool r) k) as [p|] eqn:Ep; [|done]. exfalso. apply Hc. by destruct (proj1 (par_iff r rt W k d p H H0) Ep) as (_ & _ & ?).
  - rewrite (so_orp _ _ _ St), (chained_conn r rt W k H). assert (Hne : ~ connected (pool r) rt k -> k <> rt) by (intros Hn ->; apply Hn; constructor).
    pose proof (par_iff r rt W k d (cmr d) H H0) as Hp. split.
    + intros (_ & Hn & Ep). split; [done|]. destruct (par (pool r) k) as [p|] eqn:Epk; [|done]. by destruct (proj1 (par_iff r rt W k d p H H0) Epk) as (_ & _ & ?).
    + intros [Hn Hc]. split_and!; try done. rewrite (proj2 Hp) by (split_and!; auto). done.
Qed.

(** ** Insertion *)

(** C18. With room left an insertion refuses exactly the FEC sets whose parent is
    received and does not validate them, and then changes nothing.  Every other
    one is stored with the data it came with; of the others only the orphans
    that chain to it and are not valid are dropped, each with all that descends
    from it. *)
Theorem insert_correct r k d oi fi : reachable height opt_store r -> op_ok height r (Insert k d oi fi) -> 2 <= pool_free r ->
  (refused r d -> fd_reasm_insert opt_store k d oi fi r = Ok (None, None, r)) /\
  (~ refused r d -> exists r', fd_reasm_insert opt_store k d oi fi r = Ok (Some k, None, r') /\ reachable height opt_store r' /\ k ∈ live r' /\ dat (pool r') k = Some d /\
     forall x, x ∈ live r' <-> (x = k \/ x ∈ live r) /\ ~ exists c, c ∈ subtrees r /\ rejects (pool r) k d c /\ below (pool r) c x).
Proof using Type.
  intros R Hop Hroom. destruct (reachable_inv height opt_store r R) as [rt [W Hq Hh Hf]]. pose proof Hop as (Hk & Hd & Hhk & _). unfold pool_free in Hroom.
  destruct (insert_release height opt_store r rt [] None k d W Hq Hh) as (fec & r1 & r2 & E1 & E2 & I2 & _ & Hc); try done; [constructor|apply not_elem_of_nil|lia|].
  assert (E : fd_reasm_insert opt_store k d oi fi r = Ok (fec, None, r1)).
  { unfold fd_reasm_insert. rewrite query_live, (bool_decide_eq_false_2 (k ∈ live r)) by done. cbn [negb FD_TEST mbind res_bind]. unfold pool_free. rewrite (proj2 (Z.eqb_neq _ _)) by lia. by rewrite E1. }
  rewrite E. split.
  - intros Href. destruct Hc as [(-> & _ & ->)|(_ & Hn & _)]; [done|]. by destruct Hn.
  - intros Hnr. destruct Hc as [(_ & Href & _)|(-> & _ & I & _)]; [done|]. exists r1. split; [done|]. split.
    + apply (reachable_step _ _ r (Insert k d oi fi) None); try done. cbn [step]. rewrite E. done.
    + destruct (is_new _ _ _ _ I) as (Hkl & e & Ee & <- & _). split; [done|]. split; [by apply dat_lookup|]. apply (is_live _ _ _ _ I).
Qed.


(** ** Delivery *)

(** C15. Delivery returns the FEC set that peeking shows, which is chained to the
    root and was not delivered before; if it equivocates it is confirmed, and if its parent does
    not equivocate the parent was delivered before it.  When there is nothing to
    deliver, every connected FEC set that does not equivocate was delivered. *)
Theorem pop_correct r : reachable height opt_store r -> exists o r', fd_reasm_pop r = Ok (o, r') /\ fd_reasm_peek r = Ok o /\ reachable height opt_store r' /\
  match o with
  | Some x => exists rt e e', root r = Some rt /\ chained r rt x /\ pool r !! x = Some e /\ popped e = false /\ (eqvoc e = true -> confirmed e = true) /\ pool r' !! x = Some e' /\ popped e' = true /\
      (x <> rt -> exists ep, pool r !! cmr (data e) = Some ep /\ (eqvoc ep = false -> popped ep = true))
  | None => forall x e, x ∈ ancestry r ∪ frontier r -> pool r !! x = Some e -> eqvoc e = false -> popped e = true
  end.
Proof using Type.
  intros R. destruct (reachable_inv height opt_store r R) as [rt I]. pose proof I as [W Hq Hh Hf]. pose proof (proj2 (wf_dead_empty r rt) W) as W'. destruct (pop_ok r rt W') as (o & t & l2 & Q & E & Hp & Ht & _).
  exists o, (with_out l2 (with_pool Q r)). split; [done|]. split; [by apply (pops_peek _ _ _ _ _ Hp)|]. split; [by apply (reachable_step _ _ r Pop o)|]. pose proof (wd_state _ _ _ W) as St. destruct (so_root _ _ _ St) as (R1 & R2 & R3). destruct (so_out _ _ _ St) as [_ Ho].
  pose proof (pops_list _ _ _ _ _ Hp) as El. pose proof (queue_pop r rt o t l2 Q W' Hq Hp Ht) as Hq'. inversion Hp as [l Hfa|l1 x e l2' Hfa Ee Hd].
  - intros x e Hx Ee Hqe. destruct (popped e) eqn:Ep; [done|]. exfalso. assert (Hxo : x ∈ out r) by (by apply (qo_in _ Hq x e)). rewrite Forall_forall in Hfa. destruct (Hfa x) as (e1 & E1 & Hd1); [congruence|].
    assert (e1 = e) as -> by congruence. unfold deliverable in Hd1. by rewrite Ep, Hqe in Hd1.
  - assert (Hxo : x ∈ out r) by (rewrite El; apply elem_of_app; left; apply (pops_taken _ _ _ _ _ _ Hp); congruence). destruct (Ho x Hxo) as [Hxl Hxc]. apply deliverable_eq in Hd as [Hpx Hcx].
    assert (Ee' : Q !! x = Some (set_popped true ((if decide (x ∈ t) then set_in_out false else id) e))) by (rewrite Ht, Ee; cbn; destruct (decide (Some x = o)); congruence).
    exists rt, e. eexists. split; [done|]. split; [by apply (chained_conn r rt W)|]. split; [done|]. split; [done|]. split; [intros Hqe; by destruct Hcx as [?|?]; [congruence|]|]. split; [exact Ee'|]. split; [done|].
    intros Hxr. pose proof (proj2 (chained_conn r rt W x Hxl) Hxc) as Hch. destruct (chained_up _ _ _ _ Hch Hxr (dat_lookup _ _ _ Ee)) as [Hcl _]. destruct (lk_in _ _ (so_links _ _ _ St) _ Hcl) as [ep Ep]. exists ep. split; [done|]. intros Hqp.
    assert (Epar : par (pool r) x = Some (cmr (data e))) by (apply (par_iff r rt W x (data e)); [done|by apply dat_lookup|done]). destruct (lk_par _ _ (so_links _ _ _ St) x _ Hxl Epar) as [_ Hrk]. assert (Hpne : cmr (data e) <> x) by (intros Heq; rewrite Heq in Hrk; lia).
    destruct (popped ep) eqn:Epo; [done|exfalso]. destruct (qo_order _ Hq' x (cmr (data e)) (set_popped true ((if decide (x ∈ t) then set_in_out false else id) e)) ((if decide (cmr (data e) ∈ t) then set_in_out false else id) ep)) as [Hbad _]; cbn [ancestry frontier pool with_out with_pool].
    + by apply (connected_maps _ _ _ _ St).
    + rewrite <- Epar. symmetry. apply (agree_par (live r)); [by apply (taken_agree t o)|done].
    + exact Ee'.
    + rewrite Ht, Ep. cbn. destruct (decide (Some (cmr (data e)) = o)); [congruence|done].
    + by destruct (decide (cmr (data e) ∈ t)).
    + by destruct (decide (cmr (data e) ∈ t)).
    + done.
Qed.

(** Delivering up to [n] times. *)
Fixpoint drain (n : nat) (r : fd_reasm_t) : res (list Z * fd_reasm_t) :=
  match n with
  | O => Ok ([], r)
  | S n => '(o, r) ← fd_reasm_pop r; '(ds, r) ← drain n r; Ok (match o with Some x => x :: ds | None => ds end, r)
  end.

Lemma drain_ok n : forall r rt x e, reasm_inv height r rt -> (length (out r) <= n)%nat -> x ∈ ancestry r ∪ frontier r -> pool r !! x = Some e -> eqvoc e = false -> popped e = false ->
  exists ds r', drain n r = Ok (ds, r') /\ x ∈ ds.
Proof using Type.
  induction n as [|n IH]; intros r rt x e I Hn Hx Ee Hq Hp; pose proof I as [W HQ Hh Hf]; assert (Hxo : x ∈ out r) by (by apply (qo_in _ HQ x e)).
  - destruct (out r); [by apply not_elem_of_nil in Hxo|simpl in Hn; lia].
  - pose proof (proj2 (wf_dead_empty r rt) W) as W'. destruct (pop_ok r rt W') as (o & t & l2 & Q & E & Hps & Ht & _). destruct (pop_step height r rt I) as (o' & r1 & E1 & I1).
    rewrite E in E1. injection E1 as <- <-. cbn [drain]. rewrite E. cbn [mbind res_bind]. pose proof (pops_list _ _ _ _ _ Hps) as El.
    assert (Hlen : (length l2 <= n)%nat).
    { assert (t <> []) by (inversion Hps; subst; [intros Hnil; rewrite Hnil in *|]; [by apply not_elem_of_nil in Hxo|by destruct l1]). rewrite El, length_app in Hn. destruct t; [done|simpl in Hn; lia]. }
    destruct (decide (o = Some x)) as [->|Hox].
    + assert (Hd : exists ds r', drain n (with_out l2 (with_pool Q r)) = Ok (ds, r')).
      { clear - I1. revert I1. generalize (with_out l2 (with_pool Q r)). induction n as [|n IH]; intros s I1; [by eexists _, _|]. cbn [drain]. destruct (pop_step height s rt I1) as (o & s' & -> & I2). cbn [mbind res_bind].
        destruct (IH s' I2) as (ds & s2 & ->). by eexists _, _. }
      destruct Hd as (ds & r' & ->). cbn [mbind res_bind]. exists (x :: ds), r'. split; [done|by left].
    + assert (Ex : Q !! x = Some ((if decide (x ∈ t) then set_in_out false else id) e)) by (rewrite Ht, Ee; cbn; destruct (decide (Some x = o)); [congruence|done]).
      destruct (IH (with_out l2 (with_pool Q r)) rt x _ I1 Hlen Hx Ex) as (ds & r' & -> & Hds); [by destruct (decide (x ∈ t))..|]. cbn [mbind res_bind]. exists (match o with Some y => y :: ds | None => ds end), r'. split; [done|].
      destruct o; [by right|done].
Qed.

(** C16. Every connected FEC set that does not equivocate and was not delivered
    yet is delivered by calling the delivery as often as there are elements in
    the queue. *)
Theorem delivery_liveness r x e : reachable height opt_store r -> x ∈ ancestry r ∪ frontier r -> pool r !! x = Some e -> eqvoc e = false -> popped e = false ->
  exists ds r', drain (length (out r)) r = Ok (ds, r') /\ x ∈ ds.
Proof using Type. intros R Hx Ee Hq Hp. destruct (reachable_inv height opt_store r R) as [rt I]. by apply (drain_ok (length (out r)) r rt x e I). Qed.

(** A FEC set that was delivered stays so as long as it is not dropped, so
    that no operation delivers it a second time. *)
Theorem delivered_once r o y r' x e e' : reachable height opt_store r -> op_ok height r o -> step opt_store o r = Ok (y, r') -> x ∈ live r -> x ∈ live r' -> pool r !! x = Some e -> pool r' !! x = Some e' ->
  popped e = true -> popped e' = true /\ y <> Some x.
Proof using Type.
  intros R Hop E Hx Hx' Ee Ee' Hp. destruct (reachable_inv height opt_store r R) as [rt I]. pose proof I as [W HQ Hh Hf].
  assert (Hkp : forall k, k <> x -> kept_popped k r r' -> popped e' = true).
  { intros k Hk HK. destruct (HK x e' Hx') as (e0 & _ & E0 & _ & <-); [congruence|done|]. congruence. }
  destruct o as [k d oi fi| |b|n].
  - destruct (fec_insert_step height opt_store r rt k d oi fi I Hop) as (r1 & E1 & _ & HK). rewrite E in E1. injection E1 as -> <-. split; [|done]. apply (Hkp k); [|done]. destruct Hop as (Hk & _). by intros ->.
  - cbn [step] in E. pose proof (proj2 (wf_dead_empty r rt) W) as W'. destruct (pop_ok r rt W') as (o & t & l2 & Q & E1 & Hps & Ht & _). rewrite E in E1. injection E1 as -> ->. cbn in Ee'. rewrite Ht, Ee in Ee'. cbn in Ee'. injection Ee' as <-. split.
    + by destruct (decide (Some x = o)), (decide (x ∈ t)).
    + intros ->. inversion Hps as [|l1 k e1 l2' Hfa Ek Hd]; subst. apply deliverable_eq in Hd as [Hpk _]. congruence.
  - cbn [step] in E. pose proof (proj2 (wf_dead_empty r rt) W) as W'. destruct (confirm_ok r rt b W') as [[_ Er]|(eb & C & Q & _ & _ & _ & Er & _ & HQC)]; rewrite Er in E; cbn [mbind res_bind] in E; injection E as <- <-; [split; [congruence|done]|]. split; [|done].
    cbn in Ee'. rewrite HQC, Ee in Ee'. cbn in Ee'. injection Ee' as <-. by destruct (decide (x ∈ C)), (negb (popped eb) && negb (in_out eb) && negb (confirmed eb) && bool_decide (x = b)).
  - cbn [step] in E. destruct (publish_step_ok height opt_store r rt n I Hop) as (o & r1 & rt' & Er & _). pose proof Er as Er'. rewrite Er in E. cbn [mbind res_bind] in E. injection E as <- <-. split; [|done].
    pose proof (wd_state _ _ _ W) as St. destruct (so_root _ _ _ St) as (R1 & R2 & _). destruct Hop as [Hn|(Hn & Hnr & Hcp)].
    + unfold fd_reasm_publish in Er. rewrite R1, query_live, bool_decide_eq_false_2 in Er by done. cbn [negb] in Er. injection Er as <- <-. congruence.
    + assert (Hnl : n ∈ live r) by (apply live_maps; by left). destruct (lk_in _ _ (so_links _ _ _ St) n Hnl) as [en En]. assert (Hne : n <> rt) by (intros ->; by rewrite R1 in Hnr).
      destruct (publish_ok r rt n en opt_store W Hn Hne En (Hcp en En)) as (r2 & D & E2 & _ & Hpb & _). rewrite E2 in Er'. injection Er' as <- <-.
      destruct (keeps_lookup _ _ _ _ _ (pb_keeps _ _ _ _ Hpb) Hx' Ee') as (e0 & E0 & _ & _ & _ & _ & <-). congruence.
Qed.

(** ** Equivocation *)

(** C17. Equivocating FEC sets, two received ones of one slot and index, are never
    delivered unless they are confirmed, and neither is anything that descends
    from an equivocating one that is not confirmed. *)
Theorem equivocation_safe r o r' x a b ea eb : reachable height opt_store r -> fd_reasm_pop r = Ok (o, r') -> o = Some x -> a ∈ live r -> below (pool r) a x -> b ∈ live r -> a <> b ->
  pool r !! a = Some ea -> pool r !! b = Some eb -> slot (data ea) = slot (data eb) -> fec_set_idx (data ea) = fec_set_idx (data eb) -> confirmed ea = true.
Proof using Type.
  intros R E -> Ha Hb Hbl Hab Ea Eb Hs Hi. destruct (reachable_inv height opt_store r R) as [rt I]. pose proof I as [W HQ Hh Hf]. pose proof (proj2 (wf_dead_empty r rt) W) as W'. pose proof (wd_state _ _ _ W) as St. pose proof (so_links _ _ _ St) as L.
  destruct (pop_ok r rt W') as (o & t & l2 & Q & E1 & Hps & _). rewrite E in E1. injection E1 as <- _. destruct (so_root _ _ _ St) as (_ & _ & R3).
  assert (Hxo : x ∈ out r) by (rewrite (pops_list _ _ _ _ _ Hps); apply elem_of_app; left; by apply (pops_taken _ _ _ _ _ _ Hps)). destruct (pops_deliverable _ _ _ _ _ Hps) as (ex & Ex & Hd).
  destruct (so_out _ _ _ St) as [_ Ho]. destruct (Ho x Hxo) as [Hxl Hxc]. destruct (confirmed ea) eqn:Hca; [done|exfalso].
  assert (Hqa : eqvoc ea = true) by (apply (eo_same _ _ (wd_eqvoc _ _ _ W) a b ea); try done; unfold xkey; rewrite Ea, Eb; cbn; unfold key_of; by rewrite Hs, Hi).
  assert (Hall : forall y ey, below (pool r) a y -> connected (pool r) rt y -> pool r !! y = Some ey -> eqvoc ey = true /\ confirmed ey = false).
  { clear x Hb E Ex Hd Hxo Hxl Hxc Hps. intros y ey Hy. revert ey. induction Hy as [y ->%list_elem_of_singleton|p y Hp IH Hy]; intros ey Hc Ey; [split; congruence|]. assert (Hpl : p ∈ live r) by (by apply (below_in _ _ L a)).
    apply (kids_iff _ _ L) in Hy as [Hyl Ep]; [|done]. destruct (connx_par _ _ _ _ _ R3 Hc Ep) as [_ Hpc]. destruct (lk_in _ _ L p Hpl) as [ep Epp]. destruct (IH ep Hpc Epp) as [Hqp Hcp]. split.
    - by apply (eo_below _ _ (wd_eqvoc _ _ _ W) y p ey ep).
    - destruct (confirmed ey) eqn:Hcy; [|done]. rewrite (qo_conf _ HQ y p ey ep) in Hcp; try done. by apply (connected_maps _ _ _ _ St). }
  destruct (Hall x ex Hb Hxc Ex) as [Hqx Hcx]. apply deliverable_eq in Hd as [_ [?|?]]; congruence.
Qed.

(** ** Publishing *)


End guarantees.
