(* ===== verification/ReasmExample.v ===== *)
(** * Reassembly: concrete runs

    Two blocks that equivocate, orphans and an eviction, with the Merkle roots
    numbered in the order of their chain. *)

From S2P Require Import Prelude Bits Reasm ReasmTree ReasmInv ReasmPlace ReasmInsert ReasmRemove ReasmEvict ReasmRun ReasmCorrect.

#[local] Open Scope Z_scope.

(** ** Commands *)

(** The iterators of the maps in the order of the elements of the sets. *)
Inductive cmd := CInsert (k : Z) (d : fec_data) | CPop | CConfirm (b : Z) | CPublish (n : Z).

Definition cmd_op (r : fd_reasm_t) (c : cmd) : op :=
  match c with
  | CInsert k d => Insert k d (elements (orphaned r)) (elements (frontier r))
  | CPop => Pop
  | CConfirm b => Confirm b
  | CPublish n => Publish n
  end.

Definition cmd_ok (r : fd_reasm_t) (c : cmd) : bool :=
  match c with
  | CInsert k d => bool_decide (k ∉ live r) && bool_decide (data_ok d) && (cmr d <? k)
  | CPublish n => bool_decide (n ∈ ancestry r ∪ frontier r) && bool_decide (root r <> Some n) && match pool r !! n with Some e => slot_complete (data e) | None => true end
  | _ => true
  end.

Lemma cmd_op_ok r c : cmd_ok r c = true -> op_ok id r (cmd_op r c).
Proof.
  destruct c as [k d| |b|n]; cbn; try done.
  - rewrite !andb_true_iff, Z.ltb_lt, !bool_decide_eq_true. intros [[Hk Hd] Hc]. split_and!; try done; try apply Hd; intros x; apply elem_of_elements.
  - rewrite !andb_true_iff, !bool_decide_eq_true. intros [[Hn Hr] H]. right. split_and!; try done. intros e E. by rewrite E in H.
Qed.

Fixpoint play (cs : list cmd) (r : fd_reasm_t) : fd_reasm_t :=
  match cs with
  | [] => r
  | c :: cs => if cmd_ok r c then match step false (cmd_op r c) r with Ok (_, r) => play cs r | _ => r end else r
  end.

Definition start (fm : Z) : fd_reasm_t := match fd_reasm_init 0 None 1 10 (fd_reasm_new fm) with Ok r => r | _ => fd_reasm_new fm end.

Lemma play_reachable fm cs : 2 <= fm <= 2 ^ 31 - 1 -> reachable id false (play cs (start fm)).
Proof.
  intros Hf. assert (R : reachable id false (start fm)).
  { destruct (init_inv id fm 0 None 1 10 Hf) as (r & E & _); [lia|]. unfold start. rewrite E. by apply (reachable_init _ _ fm 0 None 1 10). }
  revert R. generalize (start fm). induction cs as [|c cs IH]; intros r R; cbn [play]; [done|]. destruct (cmd_ok r c) eqn:Hc; [|done].
  destruct (step false (cmd_op r c) r) as [[x r']| | |] eqn:E; try done. apply IH. apply (reachable_step _ _ r (cmd_op r c) x); [done|by apply cmd_op_ok|done].
Qed.

(** ** The runs *)

Definition fec (c s i : Z) (last : bool) : fec_data := mk_data c s i 1 32 true last false.

(** Slot 11 has two versions, [2]-[3] and [2]-[4], slot 13 is an orphan; the first
    version is confirmed. *)
Definition fork : list cmd := [CInsert 2 (fec 1 11 0 false); CInsert 3 (fec 2 11 32 true); CInsert 4 (fec 2 11 32 true); CInsert 6 (fec 5 13 0 true); CConfirm 3].
Definition ex_fork : fd_reasm_t := play fork (start 16).
Definition ex_pop1 : fd_reasm_t := play (fork ++ [CPop]) (start 16).
Definition ex_pop2 : fd_reasm_t := play (fork ++ [CPop; CPop]) (start 16).
Definition ex_full : fd_reasm_t := play fork (start 6).
Definition ex_fec (r : fd_reasm_t) (k : Z) : fd_reasm_fec_t := default (new_fec (fec 0 0 0 false)) (pool r !! k).

Lemma ex_fork_reachable : reachable id false ex_fork.
Proof. unfold ex_fork. apply play_reachable. lia. Qed.
Lemma ex_pop1_reachable : reachable id false ex_pop1.
Proof. unfold ex_pop1. apply play_reachable. lia. Qed.
Lemma ex_pop2_reachable : reachable id false ex_pop2.
Proof. unfold ex_pop2. apply play_reachable. lia. Qed.
Lemma ex_full_reachable : reachable id false ex_full.
Proof. unfold ex_full. apply play_reachable. lia. Qed.

Lemma ex_fork_pops : fd_reasm_pop ex_fork = Ok (Some 2, ex_pop1) /\ fd_reasm_pop ex_pop1 = Ok (Some 3, ex_pop2) /\ exists r, fd_reasm_pop ex_pop2 = Ok (None, r).
Proof. split; [vm_compute; reflexivity|]. split; [vm_compute; reflexivity|]. eexists. vm_compute. reflexivity. Qed.

(** ** The theorems at these runs *)

Lemma ok_pair_inj {A B} (a a' : A) (b b' : B) : Ok (a, b) = Ok (a', b') -> a = a' /\ b = b'.
Proof. by intros [= -> ->]. Qed.

(** Deciding a goal by computation. *)
Ltac compute_decide := match goal with |- ?P => apply (bool_decide_eq_true_1 P); vm_compute; reflexivity end.


Lemma reasm_maps_witness : exists rt, root ex_fork = Some rt /\ rt ∈ live ex_fork.
Proof. destruct (reasm_maps id false ex_fork ex_fork_reachable) as (rt & H1 & H2 & _). exists rt. split; assumption. Defined.

(** The FEC set between the confirmed version and the orphan. *)
Lemma insert_correct_witness : exists r', fd_reasm_insert false 5 (fec 3 12 0 true) (elements (orphaned ex_fork)) (elements (frontier ex_fork)) ex_fork = Ok (Some 5, None, r') /\ dat (pool r') 5 = Some (fec 3 12 0 true).
Proof.
  destruct (insert_correct id false ex_fork 5 (fec 3 12 0 true) (elements (orphaned ex_fork)) (elements (frontier ex_fork))) as [_ H].
  - exact ex_fork_reachable.
  - apply (cmd_op_ok ex_fork (CInsert 5 (fec 3 12 0 true))). vm_compute. reflexivity.
  - vm_compute. congruence.
  - destruct H as (r' & E & _ & _ & Hd & _); [|exists r'; split; assumption]. intros (dp & _ & Ed & Hv). vm_compute in Ed. injection Ed as <-. vm_compute in Hv. congruence.
Defined.


(** The incomplete slot 11, three FEC sets long, in a full pool.  Room for
    another version of the third one is made by evicting the slot, with the
    parent of the new FEC set, which is then stored as an orphan. *)
Definition ex_slot : fd_reasm_t := play [CInsert 2 (fec 1 11 0 false); CInsert 3 (fec 2 11 32 false); CInsert 5 (fec 3 11 64 false)] (start 5).

Example evict_takes_parent :
  match evict false 3 (elements (orphaned ex_slot)) (elements (frontier ex_slot)) ex_slot with
  | Ok (o, r) => o = Some 2 /\ live r = {[1]}
  | _ => False
  end /\
  match fd_reasm_insert false 6 (fec 3 11 64 false) (elements (orphaned ex_slot)) (elements (frontier ex_slot)) ex_slot with
  | Ok (o, e, r) => o = Some 6 /\ e = Some 2 /\ frontier r = {[1]} /\ subtrees r = {[6]}
  | _ => False
  end.
Proof. vm_compute. by repeat split. Qed.

(** Publishing the current root releases the whole tree with the root itself,
    whose links are then written. *)
Example publish_root_again : root ex_fork = Some 1 /\ fd_reasm_publish false 1 ex_fork = Ub.
Proof. vm_compute. done. Qed.

Lemma pop_correct_witness : exists rt e e', root ex_pop1 = Some rt /\ chained ex_pop1 rt 3 /\ pool ex_pop1 !! 3 = Some e /\ eqvoc e = true /\ confirmed e = true /\ pool ex_pop2 !! 3 = Some e' /\ popped e' = true.
Proof.
  destruct (pop_correct id false ex_pop1 ex_pop1_reachable) as (o & r' & E & _ & _ & Ho). destruct ex_fork_pops as (_ & E' & _). destruct (ok_pair_inj _ _ _ _ (eq_trans (eq_sym E) E')) as [-> ->].
  destruct Ho as (rt & e & e' & H1 & H2 & H3 & _ & H4 & H5 & H6 & _). exists rt, e, e'. assert (Hq : eqvoc e = true) by (vm_compute in H3; injection H3 as <-; reflexivity). split_and!; auto.
Defined.

Lemma delivery_liveness_witness : exists ds r', drain (length (out ex_fork)) ex_fork = Ok (ds, r') /\ 2 ∈ ds.
Proof. apply (delivery_liveness id false ex_fork 2 (ex_fec ex_fork 2)); [exact ex_fork_reachable|compute_decide|vm_compute; reflexivity..]. Defined.

Lemma delivered_once_witness : popped (ex_fec ex_pop2 2) = true /\ Some 3 <> Some 2.
Proof. apply (delivered_once id false ex_pop1 Pop (Some 3) ex_pop2 2 (ex_fec ex_pop1 2)); [exact ex_pop1_reachable|exact I|exact (proj1 (proj2 ex_fork_pops))|compute_decide|compute_decide|vm_compute; reflexivity..]. Defined.

Lemma equivocation_safe_witness : confirmed (ex_fec ex_pop1 3) = true.
Proof.
  apply (equivocation_safe id false ex_pop1 (Some 3) ex_pop2 3 3 4 (ex_fec ex_pop1 3) (ex_fec ex_pop1 4)); [exact ex_pop1_reachable|exact (proj1 (proj2 ex_fork_pops))|reflexivity|compute_decide|apply fec_below_refl|compute_decide|lia|vm_compute; reflexivity..].
Defined.

