(* ===== verification/Votes.v ===== *)
(** * Vote transaction counting ([src/choreo/votes/fd_votes.c])

    [fd_votes] counts the stake of vote transactions per (slot, block id).
    Pool elements are addressed by the key of the map that holds them while
    they are acquired; a pool is the number of its free elements, and
    acquiring from an empty pool is undefined behaviour, as in the code.  The
    doubly linked lists are the lists of the keys of their elements and the
    bitsets are finite sets of bit positions.

    The definitions are followed by an abstract specification, a log of the
    votes counted so far; VotesSpec proves that the code implements it. *)

From S2P Require Import Prelude Bits Links.

#[local] Open Scope Z_scope.

(** ** State *)

(** [fd_votes_blk_t]: the key is the key of [blk_map]. *)
Record blk_t := mk_blk { stake : Z; flags : Z }.

(** [vtr_t]: [next] is the mark of [fd_votes_update_voters]. *)
Record vtr_t := mk_vtr { next : Z; bit : Z }.

(** [slot_t]: [blks] lists the block ids of [blk_dlist]. *)
Record slot_t := mk_slot { blks : list fd_hash_t; blk_cnt : Z; vtrs : gset Z }.

Record fd_votes_t := mk_votes {
  root : Z;
  slot_max : Z;
  vtr_max : Z;
  blk_max : Z;
  slot_free : Z;
  slot_map : gmap Z slot_t;
  slot_dlist : list Z;
  blk_free : Z;
  blk_map : gmap (Z * fd_hash_t) blk_t;
  vtr_free : Z;
  vtr_map : gmap fd_pubkey_t vtr_t;
  vtr_dlist : list fd_pubkey_t;
  vtr_set : gset Z
}.

Definition with_root (v : fd_votes_t) (x : Z) : fd_votes_t :=
  mk_votes x (slot_max v) (vtr_max v) (blk_max v) (slot_free v) (slot_map v) (slot_dlist v)
    (blk_free v) (blk_map v) (vtr_free v) (vtr_map v) (vtr_dlist v) (vtr_set v).
Definition with_slots (v : fd_votes_t) (n : Z) (m : gmap Z slot_t) (l : list Z) : fd_votes_t :=
  mk_votes (root v) (slot_max v) (vtr_max v) (blk_max v) n m l
    (blk_free v) (blk_map v) (vtr_free v) (vtr_map v) (vtr_dlist v) (vtr_set v).
Definition with_blks (v : fd_votes_t) (n : Z) (m : gmap (Z * fd_hash_t) blk_t) : fd_votes_t :=
  mk_votes (root v) (slot_max v) (vtr_max v) (blk_max v) (slot_free v) (slot_map v) (slot_dlist v)
    n m (vtr_free v) (vtr_map v) (vtr_dlist v) (vtr_set v).
Definition with_vtrs (v : fd_votes_t) (n : Z) (m : gmap fd_pubkey_t vtr_t) (l : list fd_pubkey_t) (s : gset Z)
    : fd_votes_t :=
  mk_votes (root v) (slot_max v) (vtr_max v) (blk_max v) (slot_free v) (slot_map v) (slot_dlist v)
    (blk_free v) (blk_map v) n m l s.

Definition set_next (t : vtr_t) (n : Z) : vtr_t := mk_vtr n (bit t).

(** ** Bitsets *)

(** [slot_vtrs_test]; the index must be below the capacity of the set. *)
Definition slot_vtrs_test (max : Z) (s : gset Z) (i : Z) : res bool :=
  if (0 <=? i) && (i <? max) then Ok (bool_decide (i ∈ s)) else Ub.

(** ** Construction ([fd_votes_new]) *)

Definition fd_votes_new (slot_max0 vtr_max0 : Z) : fd_votes_t :=
  let slot_max := fd_ulong_pow2_up slot_max0 in
  let vtr_max := fd_ulong_pow2_up vtr_max0 in
  let blk_max := fd_ulong_pow2_up (u64 (slot_max * vtr_max)) in
  mk_votes ULONG_MAX slot_max vtr_max blk_max slot_max ∅ [] blk_max ∅ vtr_max ∅ [] ∅.

(** ** Counting a vote ([fd_votes_count_vote]) *)

Definition FD_VOTES_SUCCESS : Z := 0.
Definition FD_VOTES_ERR_VOTE_TOO_NEW : Z := -1.
Definition FD_VOTES_ERR_UNKNOWN_VTR : Z := -2.
Definition FD_VOTES_ERR_ALREADY_VOTED : Z := -3.

(** The slot of the vote, acquired and inserted when it is not there. *)
Definition upsert_slot (v : fd_votes_t) (vote_slot : Z) : res (fd_votes_t * slot_t) :=
  match slot_map v !! vote_slot with
  | Some s => Ok (v, s)
  | None =>
      n ← acquire (slot_free v);
      let s := mk_slot [] 0 ∅ in
      Ok (with_slots v n (<[vote_slot := s]> (slot_map v)) (slot_dlist v ++ [vote_slot]), s)
  end.

(** The block of the vote, acquired, inserted and appended to the slot's list
    when it is not there. *)
Definition upsert_blk (v : fd_votes_t) (vote_slot : Z) (s : slot_t) (vote_block_id : fd_hash_t)
    : res (fd_votes_t * slot_t * blk_t) :=
  match blk_map v !! (vote_slot, vote_block_id) with
  | Some b => Ok (v, s, b)
  | None =>
      n ← acquire (blk_free v);
      let b := mk_blk 0 0 in
      Ok (with_blks v n (<[(vote_slot, vote_block_id) := b]> (blk_map v)),
          mk_slot (blks s ++ [vote_block_id]) (u64 (blk_cnt s + 1)) (vtrs s), b)
  end.

Definition fd_votes_count_vote (v : fd_votes_t) (vote_acc : fd_pubkey_t) (stake0 vote_slot : Z)
    (vote_block_id : fd_hash_t) : res (fd_votes_t * Z) :=
  if u64 (root v + slot_max v) <=? vote_slot then Ok (v, FD_VOTES_ERR_VOTE_TOO_NEW) else
  match vtr_map v !! vote_acc with
  | None => Ok (v, FD_VOTES_ERR_UNKNOWN_VTR)
  | Some vtr =>
      '(v1, s) ← upsert_slot v vote_slot;
      voted ← slot_vtrs_test (vtr_max v) (vtrs s) (bit vtr);
      if (voted : bool) then Ok (v1, FD_VOTES_ERR_ALREADY_VOTED) else
      let s1 := mk_slot (blks s) (blk_cnt s) ({[bit vtr]} ∪ vtrs s) in
      '(v2, s2, b) ← upsert_blk v1 vote_slot s1 vote_block_id;
      let v3 := with_slots v2 (slot_free v2) (<[vote_slot := s2]> (slot_map v2)) (slot_dlist v2) in
      Ok (with_blks v3 (blk_free v3)
            (<[(vote_slot, vote_block_id) := mk_blk (u64 (stake b + stake0)) (flags b)]> (blk_map v3)),
          FD_VOTES_SUCCESS)
  end.

(** ** Queries ([fd_votes_query])

    The block id is optional; the result is the key of the block found. *)

Fixpoint query_best (v : fd_votes_t) (slot : Z) (l : list fd_hash_t) (best : option (fd_hash_t * blk_t))
    : res (option (fd_hash_t * blk_t)) :=
  match l with
  | [] => Ok best
  | h :: l' =>
      b ← deref (blk_map v !! (slot, h));
      let level := match best with Some (_, b0) => Z.shiftr (flags b0) 4 | None => 0 end in
      query_best v slot l' (if level <? Z.shiftr (flags b) 4 then Some (h, b) else best)
  end.

Definition fd_votes_query (v : fd_votes_t) (slot : Z) (block_id : option fd_hash_t)
    : res (option (fd_hash_t * blk_t)) :=
  match block_id with
  | Some h => Ok (pair h <$> blk_map v !! (slot, h))
  | None =>
      match slot_map v !! slot with
      | None => Ok None
      | Some s => query_best v slot (blks s) None
      end
  end.

(** ** Publishing a root ([fd_votes_publish]) *)

(** Pop, remove and release every block of a slot. *)
Fixpoint release_blks (slot : Z) (l : list fd_hash_t) (v : fd_votes_t) : res fd_votes_t :=
  match l with
  | [] => Ok v
  | h :: l' =>
      _ ← deref (blk_map v !! (slot, h));
      release_blks slot l' (with_blks v (blk_free v + 1) (delete (slot, h) (blk_map v)))
  end.

Definition release_slot (slot : Z) (v : fd_votes_t) : res fd_votes_t :=
  match slot_map v !! slot with
  | None => Ok v
  | Some s =>
      v1 ← release_blks slot (blks s) v;
      l ← dlist_remove slot (slot_dlist v1);
      Ok (with_slots v1 (slot_free v1 + 1) (delete slot (slot_map v1)) l)
  end.

(** [n] slots starting at [slot]. *)
Fixpoint release_slots (n : nat) (slot : Z) (v : fd_votes_t) : res fd_votes_t :=
  match n with
  | O => Ok v
  | S n' => v1 ← release_slot slot v; release_slots n' (slot + 1) v1
  end.

Definition fd_votes_publish (v : fd_votes_t) (root0 : Z) : res fd_votes_t :=
  if root v =? ULONG_MAX then Ok (with_root v root0)
  else v1 ← release_slots (Z.to_nat (root0 - root v)) (root v) v; Ok (with_root v1 root0).

(** ** Changing the voters ([fd_votes_update_voters]) *)

(** First pass: unmark the voters that stay and move them to the tail. *)
Fixpoint keep_voters (accs : list fd_pubkey_t) (v : fd_votes_t) : res fd_votes_t :=
  match accs with
  | [] => Ok v
  | a :: accs' =>
      match vtr_map v !! a with
      | None => keep_voters accs' v
      | Some t =>
          l ← dlist_remove a (vtr_dlist v);
          keep_voters accs'
            (with_vtrs v (vtr_free v) (<[a := set_next t 0]> (vtr_map v)) (l ++ [a]) ({[bit t]} ∪ vtr_set v))
      end
  end.

(** Pop and release marked voters up to the first unmarked one. *)
Fixpoint release_voters (l : list fd_pubkey_t) (v : fd_votes_t) : res fd_votes_t :=
  match l with
  | [] => Ok (with_vtrs v (vtr_free v) (vtr_map v) [] (vtr_set v))
  | a :: l' =>
      t ← deref (vtr_map v !! a);
      if next t =? 0 then Ok (with_vtrs v (vtr_free v) (vtr_map v) (l' ++ [a]) (vtr_set v))
      else release_voters l' (with_vtrs v (vtr_free v + 1) (delete a (vtr_map v)) l' (vtr_set v))
  end.

(** Clear the bits of removed voters in every slot. *)
Fixpoint intersect_slots (l : list Z) (set : gset Z) (m : gmap Z slot_t) : res (gmap Z slot_t) :=
  match l with
  | [] => Ok m
  | slot :: l' =>
      s ← deref (m !! slot);
      intersect_slots l' set (<[slot := mk_slot (blks s) (blk_cnt s) (vtrs s ∩ set)]> m)
  end.

(** [while( slot_vtrs_test( votes->vtr_set, free_bit ) ) free_bit++;] *)
Definition free_bit_step (v : fd_votes_t) (free_bit : Z) : res (Z + Z) :=
  used ← slot_vtrs_test (vtr_max v) (vtr_set v) free_bit;
  if (used : bool) then Ok (inl (free_bit + 1)) else Ok (inr free_bit).

(** Second pass: insert the new voters at the free bit positions. *)
Fixpoint add_voters (accs : list fd_pubkey_t) (free_bit : Z) (v : fd_votes_t) : res fd_votes_t :=
  match accs with
  | [] => Ok v
  | a :: accs' =>
      match vtr_map v !! a with
      | Some _ => add_voters accs' free_bit v
      | None =>
          n ← acquire (vtr_free v);
          i ← loop (free_bit_step v) (S (Z.to_nat (vtr_max v))) free_bit;
          add_voters accs' (i + 1)
            (with_vtrs v n (<[a := mk_vtr 0 i]> (vtr_map v)) (vtr_dlist v ++ [a]) ({[i]} ∪ vtr_set v))
      end
  end.

Definition fd_votes_update_voters (v : fd_votes_t) (vote_accs : list fd_pubkey_t) : res fd_votes_t :=
  m ← mark_all set_next (vtr_dlist v) (vtr_map v);
  v1 ← keep_voters vote_accs (with_vtrs v (vtr_free v) m (vtr_dlist v) ∅);
  v2 ← release_voters (vtr_dlist v1) v1;
  sm ← intersect_slots (slot_dlist v2) (vtr_set v2) (slot_map v2);
  add_voters vote_accs 0 (with_slots v2 (slot_free v2) sm (slot_dlist v2)).

(** ** Specification: a log of counted votes

    An entry records who voted, for which block and with which stake.  The
    voter of an entry is forgotten when it leaves the voter set; its stake
    stays counted. *)

Record entry := mk_entry { e_acc : option fd_pubkey_t; e_slot : Z; e_id : fd_hash_t; e_stake : Z }.

Record votes_spec := mk_spec { s_root : Z; s_max : Z; s_voters : gset fd_pubkey_t; s_log : list entry }.

#[export] Instance entry_eq_dec : EqDecision entry.
Proof. solve_decision. Defined.

Definition e_key (e : entry) : Z * fd_hash_t := (e_slot e, e_id e).

(** The stake counted for a block. *)
Fixpoint stake_of (k : Z * fd_hash_t) (l : list entry) : Z :=
  match l with
  | [] => 0
  | e :: l' => (if decide (e_key e = k) then e_stake e else 0) + stake_of k l'
  end.

(** A voter's first vote for a slot counts, if the slot is not too far ahead. *)
Definition spec_count_vote (a : votes_spec) (acc : fd_pubkey_t) (stake0 slot : Z) (id : fd_hash_t)
    : votes_spec * Z :=
  if decide (s_root a + s_max a <= slot) then (a, FD_VOTES_ERR_VOTE_TOO_NEW)
  else if decide (acc ∉ s_voters a) then (a, FD_VOTES_ERR_UNKNOWN_VTR)
  else if decide (Exists (fun e => e_acc e = Some acc /\ e_slot e = slot) (s_log a))
  then (a, FD_VOTES_ERR_ALREADY_VOTED)
  else (mk_spec (s_root a) (s_max a) (s_voters a) (s_log a ++ [mk_entry (Some acc) slot id stake0]),
        FD_VOTES_SUCCESS).

(** Publishing a root forgets the votes for earlier slots. *)
Definition spec_publish (a : votes_spec) (root0 : Z) : votes_spec :=
  mk_spec root0 (s_max a) (s_voters a) (filter (fun e => root0 <= e_slot e) (s_log a)).

(** The new voter set; the votes of the voters that leave become anonymous. *)
Definition forget (voters : gset fd_pubkey_t) (e : entry) : entry :=
  mk_entry (match e_acc e with Some a => if decide (a ∈ voters) then Some a else None | None => None end)
    (e_slot e) (e_id e) (e_stake e).

Definition spec_update_voters (a : votes_spec) (accs : list fd_pubkey_t) : votes_spec :=
  mk_spec (s_root a) (s_max a) (list_to_set accs) (forget (list_to_set accs) <$> s_log a).

(** ** Runs *)

Inductive votes_op :=
| OpVote (acc : fd_pubkey_t) (stake0 slot : Z) (id : fd_hash_t)
| OpPublish (root0 : Z)
| OpVoters (accs : list fd_pubkey_t).

(** An operation returns a code; 0 where the code returns nothing. *)
Definition votes_step (v : fd_votes_t) (o : votes_op) : res (fd_votes_t * Z) :=
  match o with
  | OpVote acc st sl id => fd_votes_count_vote v acc st sl id
  | OpPublish r => v' ← fd_votes_publish v r; Ok (v', 0)
  | OpVoters accs => v' ← fd_votes_update_voters v accs; Ok (v', 0)
  end.

Fixpoint votes_run (v : fd_votes_t) (os : list votes_op) : res (fd_votes_t * list Z) :=
  match os with
  | [] => Ok (v, [])
  | o :: os' => '(v', r) ← votes_step v o; '(v'', rs) ← votes_run v' os'; Ok (v'', r :: rs)
  end.

Definition spec_step (a : votes_spec) (o : votes_op) : votes_spec * Z :=
  match o with
  | OpVote acc st sl id => spec_count_vote a acc st sl id
  | OpPublish r => (spec_publish a r, 0)
  | OpVoters accs => (spec_update_voters a accs, 0)
  end.

Fixpoint spec_run (a : votes_spec) (os : list votes_op) : votes_spec * list Z :=
  match os with
  | [] => (a, [])
  | o :: os' => let '(a', r) := spec_step a o in let '(a'', rs) := spec_run a' os' in (a'', r :: rs)
  end.
