(* ===== verification/VotesSpec.v ===== *)
(** * Vote counting implements the log of counted votes

    The relation between the state of [fd_votes] and the log of the
    specification, and its preservation by counting a vote, publishing a root
    and changing the voters. *)

From S2P Require Import Prelude Bits Links Votes.

#[local] Open Scope Z_scope.

(** ** The relation *)

(** [acc] has a vote for [slot] on its name. *)
Definition voted (acc : fd_pubkey_t) (slot : Z) (l : list entry) : Prop :=
  Exists (fun e => e_acc e = Some acc /\ e_slot e = slot) l.

(** The voters: listed once, accounted for, with their own bits. *)
Record voters_wf (max free : Z) (m : gmap fd_pubkey_t vtr_t) (l : list fd_pubkey_t) : Prop := {
  vo_nodup : NoDup l;
  vo_list a : a ∈ l <-> is_Some (m !! a);
  vo_free : 0 <= free /\ free + Z.of_nat (size m) = max;
  vo_bit a t : m !! a = Some t -> 0 <= bit t < max;
  vo_inj a a' t t' : m !! a = Some t -> m !! a' = Some t' -> bit t = bit t' -> a = a'
}.

(** The slots: listed once, accounted for, in the window above the root and
    clear of the value that stands for no slot. *)
Record slots_wf (r max free : Z) (m : gmap Z slot_t) (l : list Z) : Prop := {
  so_nodup : NoDup l;
  so_list s : s ∈ l <-> is_Some (m !! s);
  so_free : free + Z.of_nat (size m) = max;
  so_range s : is_Some (m !! s) -> r <= s < r + max /\ s < ULONG_MAX
}.

(** The block list of a slot names its blocks once. *)
Definition blks_wf (bm : gmap (Z * fd_hash_t) blk_t) (s : Z) (sl : slot_t) : Prop :=
  NoDup (blks sl) /\ (forall h, h ∈ blks sl <-> is_Some (bm !! (s, h))) /\ blk_cnt sl = Z.of_nat (length (blks sl)).

Definition vtrs_ok (vm : gmap fd_pubkey_t vtr_t) (log : list entry) (s : Z) (sl : slot_t) : Prop :=
  forall i, i ∈ vtrs sl <-> exists a t, vm !! a = Some t /\ bit t = i /\ voted a s log.

Record votes_rel (v : fd_votes_t) (a : votes_spec) : Prop := {
  rel_root : root v = s_root a;
  rel_max : slot_max v = s_max a /\ 0 < s_max a /\ 0 < vtr_max v;
  rel_voters : voters_wf (vtr_max v) (vtr_free v) (vtr_map v) (vtr_dlist v);
  rel_dom : dom (vtr_map v) = s_voters a;
  rel_slots : slots_wf (s_root a) (s_max a) (slot_free v) (slot_map v) (slot_dlist v);
  rel_blks s sl : slot_map v !! s = Some sl -> blks_wf (blk_map v) s sl;
  rel_vtrs s sl : slot_map v !! s = Some sl -> vtrs_ok (vtr_map v) (s_log a) s sl;
  rel_bfree : blk_free v + Z.of_nat (size (blk_map v)) = blk_max v;
  rel_keys k : is_Some (blk_map v !! k) <-> k ∈ e_key <$> s_log a;
  rel_stake k b : blk_map v !! k = Some b -> stake b = u64 (stake_of k (s_log a));
  rel_logged e : e ∈ s_log a -> is_Some (slot_map v !! e_slot e);
  rel_acc e acc : e ∈ s_log a -> e_acc e = Some acc -> acc ∈ s_voters a
}.

(** What the caller guarantees of an operation: votes are not older than the
    root, roots do not move back, slots stay clear of the end of the 64-bit
    range, and the pools are large enough. *)
Definition op_ok (bmax vmax : Z) (a : votes_spec) (o : votes_op) : Prop :=
  match o with
  | OpVote acc st sl id =>
      0 <= s_root a <= sl /\ s_root a + s_max a <= ULONG_MAX /\
      (snd (spec_count_vote a acc st sl id) = FD_VOTES_SUCCESS -> (sl, id) ∉ e_key <$> s_log a ->
       Z.of_nat (size (list_to_set (e_key <$> s_log a) : gset (Z * fd_hash_t))) < bmax)
  | OpPublish r => 0 <= r < ULONG_MAX /\ (s_root a <> ULONG_MAX -> s_root a <= r)
  | OpVoters accs => Z.of_nat (size (list_to_set accs : gset fd_pubkey_t)) <= vmax
  end.

(** ** Lemmas on the log *)

Lemma stake_of_snoc k l e :
  stake_of k (l ++ [e]) = stake_of k l + (if decide (e_key e = k) then e_stake e else 0).
Proof. induction l; simpl; lia. Qed.

Lemma stake_of_absent k l : k ∉ e_key <$> l -> stake_of k l = 0.
Proof.
  induction l as [|e l IH]; simpl; [done|]. intros [Hne H]%not_elem_of_cons.
  rewrite decide_False by congruence. rewrite IH; done.
Qed.

Lemma voted_snoc acc slot l e :
  voted acc slot (l ++ [e]) <-> voted acc slot l \/ (e_acc e = Some acc /\ e_slot e = slot).
Proof. unfold voted. rewrite Exists_app, Exists_cons, Exists_nil. tauto. Qed.

(** The blocks known are the blocks of the log. *)
Lemma rel_size_blks v a : votes_rel v a ->
  size (blk_map v) = size (list_to_set (e_key <$> s_log a) : gset (Z * fd_hash_t)).
Proof.
  intros R. rewrite <- (size_dom (D := gset (Z * fd_hash_t))). f_equal. apply set_eq. intros k.
  rewrite elem_of_dom, (rel_keys _ _ R), elem_of_list_to_set. done.
Qed.

(** ** Counting a vote *)

(** Finding or creating the slot changes nothing the log can see. *)
Lemma upsert_slot_rel v a slot :
  votes_rel v a -> s_root a <= slot < s_root a + s_max a -> slot < ULONG_MAX ->
  exists v1 s, upsert_slot v slot = Ok (v1, s) /\ votes_rel v1 a /\ slot_map v1 !! slot = Some s /\
    vtr_map v1 = vtr_map v /\ vtr_max v1 = vtr_max v /\ blk_max v1 = blk_max v.
Proof.
  intros R Hs Hu. unfold upsert_slot. destruct (slot_map v !! slot) as [s|] eqn:E; [by exists v, s|].
  pose proof (rel_slots _ _ R) as S. destruct (rel_max _ _ R) as (_ & Hm & _).
  assert (Hlt : Z.of_nat (size (slot_map v)) < s_max a)
    by (eapply (size_range_lt _ (s_root a) _ slot); [lia|intros i Hi; by apply (so_range _ _ _ _ _ S) in Hi as [? _]|done|done]).
  pose proof (so_free _ _ _ _ _ S). unfold acquire. destruct (Z.leb_spec (slot_free v) 0); [lia|]. simpl.
  eexists _, _. split; [done|]. simpl. rewrite lookup_insert_eq. split; [|done].
  assert (Hk : forall h, blk_map v !! (slot, h) = None).
  { intros h. apply eq_None_not_Some. rewrite (rel_keys _ _ R). intros (e & Ee & He)%list_elem_of_fmap.
    apply (rel_logged _ _ R) in He. injection Ee as E1 E2. rewrite <- E1, E in He. by destruct He. }
  assert (Hv : forall acc, ~ voted acc slot (s_log a)).
  { intros acc (e & He & _ & Ee)%list.Exists_exists. apply (rel_logged _ _ R) in He.
    rewrite Ee, E in He. by destruct He. }
  constructor; simpl; try apply R.
  - constructor.
    + apply NoDup_snoc; [apply S|]. rewrite (so_list _ _ _ _ _ S), E. by intros [].
    + intros x. rewrite elem_of_app, list_elem_of_singleton, (so_list _ _ _ _ _ S), lookup_insert_is_Some.
      destruct (decide (slot = x)); naive_solver.
    + rewrite map_size_insert_None by done. lia.
    + intros x [<-|[_ Hx]]%lookup_insert_is_Some; [done|by apply (so_range _ _ _ _ _ S)].
  - intros x sl [[<- <-]|[_ Hx]]%lookup_insert_Some; [|by apply R]. split_and!; simpl; [constructor| |done].
    intros h. rewrite Hk. split; [intros Hx; inversion Hx|by intros []].
  - intros x sl [[<- <-]|[_ Hx]]%lookup_insert_Some; [|by apply R]. intros i. simpl.
    split; [set_solver|]. intros (acc & t & _ & _ & H1). by apply Hv in H1.
  - intros e He. apply lookup_insert_is_Some'. right. by apply (rel_logged _ _ R).
Qed.

(** A voter's bit in a slot says whether it has voted there. *)
Lemma voted_bit v a slot s acc t :
  votes_rel v a -> slot_map v !! slot = Some s -> vtr_map v !! acc = Some t ->
  bit t ∈ vtrs s <-> voted acc slot (s_log a).
Proof.
  intros R Hs Ht. rewrite (rel_vtrs _ _ R _ _ Hs (bit t)). split; [|eauto].
  intros (acc' & t' & Ht' & Hb & Hv). by rewrite <- (vo_inj _ _ _ _ (rel_voters _ _ R) _ _ _ _ Ht' Ht Hb).
Qed.

Definition log_vote (a : votes_spec) (e : entry) : votes_spec :=
  mk_spec (s_root a) (s_max a) (s_voters a) (s_log a ++ [e]).

(** The set bits, the listed blocks and the counted stake after a vote. *)
Lemma vtrs_ok_vote vm log slot s acc t e :
  vm !! acc = Some t -> e_acc e = Some acc -> e_slot e = slot ->
  (forall a' t', vm !! a' = Some t' -> bit t' = bit t -> a' = acc) ->
  vtrs_ok vm log slot s ->
  vtrs_ok vm (log ++ [e]) slot (mk_slot (blks s) (blk_cnt s) ({[bit t]} ∪ vtrs s)).
Proof.
  intros Ht He Hes Hinj H i. simpl. rewrite elem_of_union, elem_of_singleton, (H i). setoid_rewrite voted_snoc. split.
  - intros [->|(a' & t' & ? & ? & ?)]; [|by eauto 8]. exists acc, t. auto.
  - intros (a' & t' & Ha & Hi & [Hv|[Hv _]]); [by eauto 8|]. left. congruence.
Qed.

Lemma vtrs_ok_other vm log slot s e :
  e_slot e <> slot -> vtrs_ok vm log slot s -> vtrs_ok vm (log ++ [e]) slot s.
Proof.
  intros Hne H i. rewrite (H i). setoid_rewrite voted_snoc. split; intros (a' & t' & ? & ? & Hv);
    exists a', t'; tauto.
Qed.

Lemma blks_wf_insert bm slot s id b :
  blks_wf bm slot s -> bm !! (slot, id) = None -> Z.of_nat (S (length (blks s))) <= ULONG_MAX ->
  blks_wf (<[(slot, id) := b]> bm) slot (mk_slot (blks s ++ [id]) (u64 (blk_cnt s + 1)) (vtrs s)).
Proof.
  intros (Hn & Hl & Hc) Hb Hu. split_and!; simpl.
  - apply NoDup_snoc; [done|]. rewrite Hl, Hb. by intros [].
  - intros h. rewrite elem_of_app, list_elem_of_singleton, Hl, lookup_insert_is_Some'. naive_solver congruence.
  - rewrite length_app, Hc. simpl. rewrite u64_small; unfold is_u64; lia.
Qed.

Lemma blks_wf_ext bm bm' slot s s' :
  (forall h, is_Some (bm !! (slot, h)) <-> is_Some (bm' !! (slot, h))) ->
  blks s = blks s' -> blk_cnt s = blk_cnt s' -> blks_wf bm slot s -> blks_wf bm' slot s'.
Proof.
  intros Hb E1 E2 (Hn & Hl & Hc). unfold blks_wf. rewrite <- E1, <- E2. split_and!; [done| |done].
  intros h. by rewrite Hl, Hb.
Qed.

(** The state after the vote [e] for the block of [b] in slot [s]. *)
Definition after_vote (v : fd_votes_t) (n : Z) (e : entry) (s : slot_t) (b : blk_t) : fd_votes_t :=
  with_blks (with_slots v (slot_free v) (<[e_slot e := s]> (slot_map v)) (slot_dlist v)) n
    (<[e_key e := mk_blk (u64 (stake b + e_stake e)) (flags b)]> (blk_map v)).

Lemma after_vote_rel v a n e acc s s' b t :
  votes_rel v a -> e_acc e = Some acc -> slot_map v !! e_slot e = Some s -> vtr_map v !! acc = Some t ->
  vtrs s' = {[bit t]} ∪ vtrs s ->
  n + Z.of_nat (size (<[e_key e := b]> (blk_map v))) = blk_max v ->
  stake b = u64 (stake_of (e_key e) (s_log a)) ->
  blks_wf (<[e_key e := b]> (blk_map v)) (e_slot e) s' ->
  votes_rel (after_vote v n e s' b) (log_vote a e).
Proof.
  intros R Hacc Hs Ht Hvt Hfree Hst Hwf.
  assert (Hdom : forall k c c', is_Some (<[e_key e := c]> (blk_map v) !! k) <-> is_Some (<[e_key e := c']> (blk_map v) !! k))
    by (intros; by rewrite !lookup_insert_is_Some').
  constructor; simpl; try apply R.
  - pose proof (rel_slots _ _ R) as [Hn Hl Hf Hr]. constructor; [done| |by rewrite map_size_insert_Some|].
    + intros x. rewrite Hl, lookup_insert_is_Some'. destruct (decide (e_slot e = x)) as [<-|]; naive_solver.
    + intros x [<-|?]%lookup_insert_is_Some'; eauto.
  - intros x sl [[<- <-]|[Hne Hx]]%lookup_insert_Some.
    + eapply blks_wf_ext; [|done|done|exact Hwf]. intros h. apply Hdom.
    + eapply blks_wf_ext; [|done|done|by apply (rel_blks _ _ R)]. intros h.
      rewrite lookup_insert_ne; [done|]. unfold e_key. congruence.
  - intros x sl [[<- <-]|[Hne Hx]]%lookup_insert_Some.
    + pose proof (vtrs_ok_vote (vtr_map v) (s_log a) (e_slot e) s acc t e Ht Hacc eq_refl) as H.
      intros i. rewrite Hvt. apply H; [|by apply R].
      intros a' t' Ha' Hb. by eapply (vo_inj _ _ _ _ (rel_voters _ _ R)).
    + apply vtrs_ok_other; [done|by apply R].
  - by rewrite <- Hfree, !map_size_insert.
  - intros k. rewrite lookup_insert_is_Some', fmap_app, elem_of_app, (rel_keys _ _ R). simpl.
    rewrite list_elem_of_singleton.
    naive_solver congruence.
  - intros k c. rewrite stake_of_snoc. intros [[<- <-]|[Hne Hk]]%lookup_insert_Some.
    + simpl. by rewrite decide_True, Hst, u64_add_l by done.
    + rewrite decide_False, Z.add_0_r by done. by apply R.
  - intros e' [He'|Ee%list_elem_of_singleton]%elem_of_app; apply lookup_insert_is_Some'; [right|left; by subst].
    by apply (rel_logged _ _ R).
  - intros e' acc' [He'|Ee%list_elem_of_singleton]%elem_of_app Ha; [by eapply (rel_acc _ _ R)|].
    subst e'. assert (acc' = acc) as -> by congruence. rewrite <- (rel_dom _ _ R). apply elem_of_dom. eauto.
Qed.

(** ** Counting a vote refines the specification *)

Lemma length_blks_le v a s sl :
  votes_rel v a -> slot_map v !! s = Some sl -> (length (blks sl) <= size (blk_map v))%nat.
Proof.
  intros R Hs. destruct (rel_blks _ _ R _ _ Hs) as (Hn & Hl & _).
  rewrite <- (size_dom (D := gset (Z * fd_hash_t))), <- (length_fmap (pair s)).
  rewrite <- (size_list_to_set (C := gset (Z * fd_hash_t))) by (apply NoDup_fmap_2; [intros ? ?; congruence|done]).
  apply subseteq_size. intros k (h & -> & Hh)%elem_of_list_to_set%list_elem_of_fmap. by apply elem_of_dom, Hl.
Qed.

Lemma record_vote_rel v a acc t st slot id s :
  votes_rel v a -> slot_map v !! slot = Some s -> vtr_map v !! acc = Some t ->
  blk_max v <= ULONG_MAX ->
  (blk_map v !! (slot, id) = None -> 0 < blk_free v) ->
  exists v', ('(v2, s2, b) ← upsert_blk v slot (mk_slot (blks s) (blk_cnt s) ({[bit t]} ∪ vtrs s)) id;
              let v3 := with_slots v2 (slot_free v2) (<[slot := s2]> (slot_map v2)) (slot_dlist v2) in
              Ok (with_blks v3 (blk_free v3)
                    (<[(slot, id) := mk_blk (u64 (stake b + st)) (flags b)]> (blk_map v3)),
                  FD_VOTES_SUCCESS)) = Ok (v', FD_VOTES_SUCCESS) /\
    votes_rel v' (log_vote a (mk_entry (Some acc) slot id st)) /\ blk_max v' = blk_max v /\ vtr_max v' = vtr_max v.
Proof.
  intros R Hs Ht Hmax Hroom. unfold upsert_blk. pose proof (rel_bfree _ _ R).
  destruct (blk_map v !! (slot, id)) as [b|] eqn:E; simpl.
  - eexists. split; [done|]. split; [|done].
    refine (after_vote_rel v a _ (mk_entry (Some acc) slot id st) acc s _ b t R eq_refl Hs Ht _ _ _ _); simpl.
    + done.
    + by rewrite map_size_insert_Some.
    + by apply R.
    + rewrite insert_id by done. eapply blks_wf_ext; [..|by apply R]; done.
  - unfold acquire. specialize (Hroom eq_refl). destruct (Z.leb_spec (blk_free v) 0); [lia|]. simpl.
    eexists. split; [done|]. split; [|done]. rewrite insert_insert_eq.
    refine (after_vote_rel v a _ (mk_entry (Some acc) slot id st) acc s _ (mk_blk 0 0) t R eq_refl Hs Ht _ _ _ _); simpl.
    + done.
    + unfold e_key. simpl. rewrite map_size_insert_None by done. lia.
    + rewrite stake_of_absent; [done|]. rewrite <- (rel_keys _ _ R). unfold e_key. simpl. rewrite E. by intros [].
    + apply (blks_wf_insert (blk_map v) slot (mk_slot (blks s) (blk_cnt s) ({[bit t]} ∪ vtrs s))); [|done|].
      * eapply blks_wf_ext; [..|by apply R]; done.
      * pose proof (length_blks_le _ _ _ _ R Hs). simpl. lia.
Qed.

Lemma count_vote_rel v a acc st slot id :
  votes_rel v a -> blk_max v <= ULONG_MAX -> op_ok (blk_max v) (vtr_max v) a (OpVote acc st slot id) ->
  exists v', fd_votes_count_vote v acc st slot id = Ok (v', snd (spec_count_vote a acc st slot id)) /\
    votes_rel v' (fst (spec_count_vote a acc st slot id)) /\ blk_max v' = blk_max v /\ vtr_max v' = vtr_max v.
Proof.
  intros R Hmax (Hr & Hw & Hroom). revert Hroom. unfold fd_votes_count_vote, spec_count_vote.
  destruct (rel_max _ _ R) as (Em & Hm & _). rewrite (rel_root _ _ R), Em, u64_small by (unfold is_u64; lia).
  destruct (Z.leb_spec (s_root a + s_max a) slot); [rewrite decide_True by lia; intros _; by exists v|].
  rewrite decide_False by lia. rewrite <- (rel_dom _ _ R).
  destruct (vtr_map v !! acc) as [t|] eqn:Ht.
  2:{ rewrite decide_True by (by apply not_elem_of_dom). intros _. by exists v. }
  rewrite decide_False by (intros Hn; apply Hn, elem_of_dom; eauto).
  destruct (upsert_slot_rel v a slot R ltac:(lia) ltac:(lia)) as (v1 & s & -> & R1 & Hs & Ev & Evm & Ebm).
  cbn [mbind res_bind]. rewrite <- Ev in Ht.
  pose proof (vo_bit _ _ _ _ (rel_voters _ _ R1) _ _ Ht) as Hbit. rewrite Evm in Hbit.
  unfold slot_vtrs_test. rewrite (proj2 (Z.leb_le _ _)), (proj2 (Z.ltb_lt _ _)) by lia.
  cbn [andb mbind res_bind].
  destruct (decide (Exists _ (s_log a))) as [Hv|Hv].
  { rewrite bool_decide_eq_true_2 by (by apply (voted_bit v1 a slot s acc t)). intros _. by exists v1. }
  rewrite bool_decide_eq_false_2 by (rewrite (voted_bit v1 a slot s acc t) by done; exact Hv). intros Hroom.
  destruct (record_vote_rel v1 a acc t st slot id s R1 Hs Ht) as (v' & E & R' & E1 & E2).
  - lia.
  - intros E. pose proof (rel_bfree _ _ R1). pose proof (rel_size_blks _ _ R1) as Hsz.
    rewrite Hsz in *. specialize (Hroom eq_refl ltac:(rewrite <- (rel_keys _ _ R1), E; by intros [])). lia.
  - exists v'. split; [exact E|]. split; [rewrite (rel_dom _ _ R); exact R'|]. split; congruence.
Qed.

(** ** Publishing a root *)

Definition newer (r : Z) (l : list entry) : list entry := filter (fun e => r <= e_slot e) l.

Lemma elem_of_newer r l e : e ∈ newer r l <-> r <= e_slot e /\ e ∈ l.
Proof. unfold newer. by rewrite list_elem_of_filter. Qed.

Lemma stake_of_newer r l k : r <= k.1 -> stake_of k (newer r l) = stake_of k l.
Proof.
  intros Hk. unfold newer. induction l as [|e l IH]; simpl; [done|]. rewrite filter_cons.
  destruct (decide (r <= e_slot e)); simpl; [lia|]. rewrite (decide_False (P := e_key e = k)); [lia|].
  intros <-. simpl in *. lia.
Qed.

Lemma voted_newer r l acc slot : r <= slot -> voted acc slot (newer r l) <-> voted acc slot l.
Proof.
  intros Hs. unfold voted. rewrite !list.Exists_exists. setoid_rewrite elem_of_newer.
  split; intros (e & He & Ha & Es); exists e; subst; tauto.
Qed.

Lemma newer_newer r r' l : r <= r' -> newer r' (newer r l) = newer r' l.
Proof.
  intros Hr. unfold newer. induction l as [|e l IH]; [done|]. rewrite !filter_cons.
  destruct (decide (r <= e_slot e)), (decide (r' <= e_slot e)); rewrite ?filter_cons; try lia.
  - rewrite decide_True by done. by f_equal.
  - by rewrite decide_False.
  - done.
Qed.

Lemma newer_all r l : (forall e, e ∈ l -> r <= e_slot e) -> newer r l = l.
Proof.
  intros H. unfold newer. induction l as [|e l IH]; [done|]. rewrite filter_cons, decide_True by (apply H; left).
  f_equal. apply IH. intros e' He'. apply H. by right.
Qed.

Lemma rel_log_range v a e : votes_rel v a -> e ∈ s_log a -> s_root a <= e_slot e.
Proof.
  intros R He%(rel_logged _ _ R). apply (so_range _ _ _ _ _ (rel_slots _ _ R)) in He. lia.
Qed.

Lemma release_blks_spec slot l : forall v,
  NoDup l -> (forall h, h ∈ l -> is_Some (blk_map v !! (slot, h))) ->
  exists m, release_blks slot l v = Ok (with_blks v (blk_free v + Z.of_nat (length l)) m) /\
    (forall k, is_Some (m !! k) <-> is_Some (blk_map v !! k) /\ ~ (k.1 = slot /\ k.2 ∈ l)) /\
    m ⊆ blk_map v /\ (size m + length l = size (blk_map v))%nat.
Proof.
  induction l as [|h l IH]; intros v Hn Hl; simpl.
  { exists (blk_map v). rewrite Z.add_0_r. split_and!; [by destruct v| |done|lia].
    intros k. split; [|tauto]. intros Hk. split; [done|]. intros [_ Hx]. inversion Hx. }
  apply NoDup_cons in Hn as [Hh Hn]. destruct (Hl h ltac:(left)) as [b Hb]. rewrite Hb. cbn [mbind res_bind deref].
  destruct (IH (with_blks v (blk_free v + 1) (delete (slot, h) (blk_map v)))) as (m & E & Hm & Hsub & Hsz); [done| |].
  { intros h' Hh'. simpl. rewrite lookup_delete_ne; [apply Hl; by right|]. intros [= ->]. done. }
  simpl in *. exists m. split_and!.
  - rewrite E. unfold with_blks. simpl. f_equal. f_equal. lia.
  - intros [s' h']. rewrite Hm, lookup_delete_is_Some, elem_of_cons. simpl. naive_solver congruence.
  - etrans; [exact Hsub|]. apply delete_subseteq.
  - rewrite map_size_delete_Some in Hsz by eauto.
    assert (size (blk_map v) <> 0)%nat by (intros E0%map_size_empty_inv; rewrite E0, lookup_empty in Hb; done). lia.
Qed.

Lemma release_slot_rel v a cur :
  s_root a = cur -> votes_rel (with_root v cur) a ->
  exists v', release_slot cur v = Ok v' /\ votes_rel (with_root v' (cur + 1)) (spec_publish a (cur + 1)) /\
    blk_max v' = blk_max v /\ vtr_max v' = vtr_max v.
Proof.
  intros Hr R. unfold release_slot. pose proof (rel_slots _ _ R) as [Sn Sl Sf Sr]. simpl in *.
  destruct (slot_map v !! cur) as [s|] eqn:E.
  - destruct (rel_blks _ _ R _ _ E) as (Hn & Hl & _).
    destruct (release_blks_spec cur (blks s) v Hn) as (m & -> & Hm & Hsub & Hsz); [intros h; apply Hl|].
    destruct (dlist_remove_spec cur (slot_dlist v) Sn) as (l & El & Hp); [apply Sl; eauto|].
    cbn [mbind res_bind]. simpl. rewrite El. simpl. eexists. split; [done|]. split; [|done].
    destruct (perm_cons_other _ _ _ Sn Hp) as [Hnl Hpl].
    assert (Hkey : forall k, is_Some (m !! k) <-> is_Some (blk_map v !! k) /\ k.1 <> cur).
    { intros [s' h']. rewrite Hm. simpl. split; intros [Hk Hx]; (split; [done|]); [|tauto].
      intros ->. apply Hx. split; [done|]. apply Hl, Hk. }
    constructor; simpl; try apply R; try done.
    + constructor; [done| | |].
      * intros x. rewrite Hpl, Sl, lookup_delete_is_Some. naive_solver.
      * rewrite map_size_delete_Some by eauto.
        assert (size (slot_map v) <> 0)%nat by (intros E0%map_size_empty_inv; rewrite E0, lookup_empty in E; done). lia.
      * intros x [Hne Hx]%lookup_delete_is_Some. apply Sr in Hx. lia.
    + intros x sl [Hne Hx]%lookup_delete_Some. eapply blks_wf_ext; [|done|done|by apply (rel_blks _ _ R)].
      intros h. rewrite Hkey. simpl. naive_solver.
    + intros x sl [Hne Hx]%lookup_delete_Some i. pose proof (Sr x ltac:(eauto)).
      rewrite (rel_vtrs _ _ R x sl Hx i). simpl. fold (newer (cur + 1) (s_log a)).
      setoid_rewrite voted_newer; [done|lia].
    + pose proof (rel_bfree _ _ R). simpl in *. lia.
    + intros k. rewrite Hkey, (rel_keys _ _ R k). fold (newer (cur + 1) (s_log a)).
      rewrite !list_elem_of_fmap. setoid_rewrite elem_of_newer. split.
      * intros ((e & -> & He) & Hne). exists e. pose proof (rel_log_range _ _ _ R He). simpl in *. split_and!; [done|lia|done].
      * intros (e & -> & Hs & He). split; [by eauto|]. simpl. lia.
    + intros k b Hk. fold (newer (cur + 1) (s_log a)). pose proof (proj1 (Hkey k) ltac:(eauto)) as [Hk' Hne].
      apply (rel_keys _ _ R) in Hk' as (e & -> & He)%list_elem_of_fmap. pose proof (rel_log_range _ _ _ R He).
      rewrite stake_of_newer by (simpl in *; lia). apply (rel_stake _ _ R). simpl. eapply lookup_weaken; [exact Hk|done].
    + intros e. fold (newer (cur + 1) (s_log a)). rewrite elem_of_newer. intros [Hs He].
      apply lookup_delete_is_Some. split; [lia|]. by apply (rel_logged _ _ R).
    + intros e acc. fold (newer (cur + 1) (s_log a)). rewrite elem_of_newer. intros [_ He]. by apply (rel_acc _ _ R).
  - exists v. split; [done|]. split; [|done].
    assert (Hall : newer (cur + 1) (s_log a) = s_log a).
    { apply newer_all. intros e He. pose proof (rel_log_range _ _ _ R He).
      apply (rel_logged _ _ R) in He. simpl in He. destruct (Z.eq_dec (e_slot e) cur) as [Ec|]; [|lia].
      rewrite Ec, E in He. by destruct He. }
    unfold spec_publish. fold (newer (cur + 1) (s_log a)). rewrite Hall.
    constructor; simpl; try apply R; try done. constructor; [done|done|done|].
    intros x Hx. pose proof (Sr x Hx). assert (x <> cur) by (intros ->; rewrite E in Hx; by destruct Hx). lia.
Qed.

Lemma spec_publish_trans a r r' : r <= r' -> spec_publish (spec_publish a r) r' = spec_publish a r'.
Proof. intros Hr. unfold spec_publish. simpl. f_equal. by apply newer_newer. Qed.

Lemma release_slots_rel n : forall v a cur,
  s_root a = cur -> votes_rel (with_root v cur) a ->
  exists v', release_slots n cur v = Ok v' /\
    votes_rel (with_root v' (cur + Z.of_nat n)) (spec_publish a (cur + Z.of_nat n)) /\
    blk_max v' = blk_max v /\ vtr_max v' = vtr_max v.
Proof.
  induction n as [|n IH]; intros v a cur Hr R; cbn [release_slots].
  - exists v. split; [done|]. rewrite Z.add_0_r. split; [|done].
    unfold spec_publish. fold (newer cur (s_log a)). rewrite newer_all, <- Hr.
    + rewrite <- Hr in R. by destruct a.
    + intros e He. rewrite <- Hr. by eapply rel_log_range.
  - destruct (release_slot_rel v a cur Hr R) as (v1 & -> & R1 & E1 & E2). cbn [mbind res_bind].
    destruct (IH v1 (spec_publish a (cur + 1)) (cur + 1) eq_refl R1) as (v2 & -> & R2 & E3 & E4). exists v2. split; [done|].
    rewrite spec_publish_trans in R2 by lia.
    replace (cur + Z.of_nat (S n)) with (cur + 1 + Z.of_nat n) by lia. split; [done|]. split; congruence.
Qed.

(** Before the first root nothing is counted. *)
Lemma rel_fresh v a : votes_rel v a -> s_root a = ULONG_MAX -> s_log a = [] /\ slot_map v = ∅.
Proof.
  intros R E. assert (Em : slot_map v = ∅).
  { apply map_empty. intros s. apply eq_None_not_Some. intros Hs%(so_range _ _ _ _ _ (rel_slots _ _ R)). lia. }
  split; [|done]. destruct (s_log a) as [|e l] eqn:El; [done|].
  destruct (rel_logged _ _ R e) as [x Hx]; [rewrite El; left|]. by rewrite Em in Hx.
Qed.

Lemma publish_rel v a r :
  votes_rel v a -> op_ok (blk_max v) (vtr_max v) a (OpPublish r) ->
  exists v', fd_votes_publish v r = Ok v' /\ votes_rel v' (spec_publish a r) /\
    blk_max v' = blk_max v /\ vtr_max v' = vtr_max v.
Proof.
  intros R [Hr0 Hr]. unfold fd_votes_publish. rewrite (rel_root _ _ R).
  destruct (Z.eqb_spec (s_root a) ULONG_MAX) as [E|Hne].
  - destruct (rel_fresh _ _ R E) as [El Em]. eexists. split; [done|]. split; [|done].
    unfold spec_publish. rewrite El. pose proof R as [? ? ? ? [Sn Sl Sf Sr] ? ? ? ? ? ? ?].
    rewrite El, Em in *. constructor; simpl; rewrite ?Em; try done.
    constructor; [done|done|done|]. intros x Hx. rewrite lookup_empty in Hx. by destruct Hx.
  - specialize (Hr Hne). destruct (release_slots_rel (Z.to_nat (r - s_root a)) v a (s_root a) eq_refl)
      as (v' & -> & R' & E1 & E2).
    + pose proof (rel_root _ _ R) as E. rewrite <- E. by destruct v.
    + simpl. eexists. split; [done|]. replace (s_root a + Z.of_nat (Z.to_nat (r - s_root a))) with r in R' by lia. done.
Qed.
