(* ===== verification/VotesVoters.v ===== *)
(** * Changing the voters of the vote counter

    The mark and sweep of [fd_votes_update_voters], pass by pass, and the
    theorem that any run of the component gives the answers of the log. *)

From S2P Require Import Prelude Bits Links Votes VotesSpec.

#[local] Open Scope Z_scope.

(** ** Keeping *)

Abbreviation kept := (Links.kept next).
Abbreviation kept_last := (Links.kept_last next).

(** The set holds the bits of the kept voters. *)
Definition kept_bits (m : gmap fd_pubkey_t vtr_t) (s : gset Z) : Prop :=
  forall i, i ∈ s <-> exists a t, m !! a = Some t /\ next t = 0 /\ bit t = i.

Definition same_bits (m m' : gmap fd_pubkey_t vtr_t) : Prop := forall a, bit <$> m !! a = bit <$> m' !! a.

Lemma same_bits_lookup m m' a t : same_bits m m' -> m' !! a = Some t -> exists t', m !! a = Some t' /\ bit t' = bit t.
Proof. intros H Ht. specialize (H a). rewrite Ht in H. destruct (m !! a) as [t'|]; simplify_eq/=. eauto. Qed.

Lemma same_bits_is_Some m m' a : same_bits m m' -> is_Some (m !! a) <-> is_Some (m' !! a).
Proof. intros H. rewrite <- (fmap_is_Some bit (m !! a)), (H a), fmap_is_Some. done. Qed.

Lemma same_bits_insert m a t n : m !! a = Some t -> same_bits m (<[a := set_next t n]> m).
Proof.
  intros Ht x. destruct (decide (x = a)) as [->|]; [by rewrite lookup_insert_eq, Ht|by rewrite lookup_insert_ne].
Qed.

Lemma voters_wf_same max free m m' l l' :
  same_bits m m' -> l ≡ₚ l' -> voters_wf max free m l -> voters_wf max free m' l'.
Proof.
  intros Hb Hp [Hn Hl Hf Hr Hi]. constructor.
  - by rewrite <- Hp.
  - intros a. rewrite <- Hp, Hl. by apply same_bits_is_Some.
  - assert (dom m = dom m') as Hd
      by (apply set_eq; intros a; rewrite !elem_of_dom; by apply same_bits_is_Some).
    rewrite <- (size_dom m'), <- Hd, size_dom. done.
  - intros a t (t' & Ht' & <-)%(same_bits_lookup m); [eauto|done].
  - intros a a' t t' Ht Ht' E. apply (same_bits_lookup m) in Ht as (u & Hu & Eu); [|done].
    apply (same_bits_lookup m) in Ht' as (u' & Hu' & Eu'); [|done]. eapply Hi; [exact Hu|exact Hu'|congruence].
Qed.

Lemma kept_bits_insert m a t s :
  m !! a = Some t -> kept_bits m s -> kept_bits (<[a := set_next t 0]> m) ({[bit t]} ∪ s).
Proof.
  intros Ht H i. rewrite elem_of_union, elem_of_singleton, (H i). split.
  - intros [->|(b & u & Hu & Hn & <-)].
    + exists a, (set_next t 0). rewrite lookup_insert_eq. done.
    + destruct (decide (b = a)) as [->|].
      * exists a, (set_next t 0). rewrite lookup_insert_eq. assert (u = t) as -> by congruence. done.
      * exists b, u. by rewrite lookup_insert_ne.
  - intros (b & u & [[<- <-]|[Hne Hu]]%lookup_insert_Some & Hn & <-); [by left|]. right. eauto.
Qed.

Lemma keep_voters_spec accs : forall v,
  voters_wf (vtr_max v) (vtr_free v) (vtr_map v) (vtr_dlist v) ->
  kept_last (vtr_map v) (vtr_dlist v) -> kept_bits (vtr_map v) (vtr_set v) ->
  exists m l s, keep_voters accs v = Ok (with_vtrs v (vtr_free v) m l s) /\
    voters_wf (vtr_max v) (vtr_free v) m l /\ kept_last m l /\ kept_bits m s /\ same_bits (vtr_map v) m /\
    forall a, kept m a <-> kept (vtr_map v) a \/ (a ∈ accs /\ is_Some (vtr_map v !! a)).
Proof.
  induction accs as [|a accs IH]; intros v W L B; simpl.
  { exists (vtr_map v), (vtr_dlist v), (vtr_set v). split; [by destruct v|]. split_and!; try done.
    intros a. split; [by left|]. intros [?|[Hx _]]; [done|inversion Hx]. }
  destruct (vtr_map v !! a) as [t|] eqn:Ht.
  - destruct (dlist_remove_spec a (vtr_dlist v)) as (l & El & Hp);
      [apply W|apply (vo_list _ _ _ _ W); eauto|]. rewrite El. cbn [mbind res_bind].
    pose proof (same_bits_insert _ _ _ 0 Ht) as Hb.
    edestruct (IH (with_vtrs v (vtr_free v) (<[a := set_next t 0]> (vtr_map v)) (l ++ [a]) ({[bit t]} ∪ vtr_set v)))
      as (m & l' & s & E & W' & L' & B' & S' & K'); simpl.
    + eapply voters_wf_same; [exact Hb| |exact W]. rewrite Hp. apply Permutation_cons_append.
    + eapply kept_last_move; [done|done|apply W|exact L|exact El|exact Hp].
    + by apply kept_bits_insert.
    + exists m, l', s. split_and!; try done.
      * intros x. by rewrite Hb, S'.
      * intros x. simpl in K'. rewrite K', (kept_insert next set_next), elem_of_cons, <- (same_bits_is_Some _ _ x Hb) by done.
        split; [|naive_solver]. intros [[->|?]|[? ?]]; [right|by left|naive_solver]. rewrite Ht. eauto.
  - destruct (IH v W L B) as (m & l' & s & E & W' & L' & B' & S' & K'). exists m, l', s. split_and!; try done.
    intros x. rewrite K', elem_of_cons. split; [naive_solver|]. intros [?|[[->|?] Hx]]; [by left| |by auto].
    rewrite Ht in Hx. by destruct Hx.
Qed.

(** ** Sweeping *)

Lemma voters_wf_delete max free m a l :
  voters_wf max free m (a :: l) -> voters_wf max (free + 1) (delete a m) l.
Proof.
  intros [Hn Hl Hf Hr Hi]. apply NoDup_cons in Hn as [Ha Hn].
  assert (Hm : is_Some (m !! a)) by (apply Hl; left). constructor.
  - done.
  - intros x. rewrite lookup_delete_is_Some, <- Hl, elem_of_cons. split; [|naive_solver].
    intros Hx. split; [by intros ->|by right].
  - rewrite map_size_delete_Some by done. destruct Hm as [t Ht].
    assert (size m <> 0)%nat by (intros E0%map_size_empty_inv; rewrite E0, lookup_empty in Ht; done). lia.
  - intros x t [_ Hx]%lookup_delete_Some. eauto.
  - intros x x' t t' [_ Hx]%lookup_delete_Some [_ Hx']%lookup_delete_Some. eauto.
Qed.

Lemma release_voters_spec l : forall v,
  voters_wf (vtr_max v) (vtr_free v) (vtr_map v) l -> kept_last (vtr_map v) l ->
  exists n m l', release_voters l v = Ok (with_vtrs v n m l' (vtr_set v)) /\
    voters_wf (vtr_max v) n m l' /\
    forall a t, m !! a = Some t <-> vtr_map v !! a = Some t /\ next t = 0.
Proof.
  induction l as [|a l IH]; intros v W L; simpl.
  { exists (vtr_free v), (vtr_map v), []. split_and!; [done..|]. intros a t. split; [|tauto]. intros Ht.
    pose proof (proj2 (vo_list _ _ _ _ W a) ltac:(eauto)) as Hx. inversion Hx. }
  destruct (proj1 (vo_list _ _ _ _ W a) ltac:(left)) as [t Ht]. rewrite Ht. simpl.
  pose proof (StronglySorted_inv L) as [Ls La]. destruct (Z.eqb_spec (next t) 0) as [E|Hne].
  - exists (vtr_free v), (vtr_map v), (l ++ [a]). split; [done|]. split.
    + eapply voters_wf_same; [| |exact W]; [done|]. apply Permutation_cons_append.
    + intros x u. split; [|tauto]. intros Hu. split; [done|].
      pose proof (proj2 (vo_list _ _ _ _ W x) ltac:(eauto)) as [->|Hx]%elem_of_cons; [congruence|].
      rewrite Forall_forall in La. destruct (La x Hx) as (u' & Hu' & E'); [exists t; done|]. congruence.
  - destruct (IH (with_vtrs v (vtr_free v + 1) (delete a (vtr_map v)) l (vtr_set v))) as (n & m & l' & E & W' & K).
    + simpl. by apply voters_wf_delete.
    + simpl. apply kept_last_delete; [|exact L]. by pose proof (vo_nodup _ _ _ _ W) as [? _]%NoDup_cons.
    + exists n, m, l'. split_and!; [done|done|]. intros x u. rewrite K. simpl. rewrite lookup_delete_Some.
      split; [tauto|]. intros [Hu E']. split; [|done]. split; [|done]. intros ->. congruence.
Qed.

Lemma intersect_slots_spec set l : forall m,
  NoDup l -> (forall s, s ∈ l -> is_Some (m !! s)) ->
  exists m', intersect_slots l set m = Ok m' /\
    forall s, m' !! s = if decide (s ∈ l) then (fun sl => mk_slot (blks sl) (blk_cnt sl) (vtrs sl ∩ set)) <$> m !! s
                        else m !! s.
Proof.
  induction l as [|x l IH]; intros m Hn Hl; cbn [intersect_slots].
  { exists m. split; [done|]. intros a. destruct (decide (a ∈ [])) as [H|]; [inversion H|done]. }
  apply NoDup_cons in Hn as [Hx Hn]. destruct (Hl x ltac:(left)) as [sl Hs]. rewrite Hs. cbn [deref mbind res_bind].
  edestruct (IH (<[x := mk_slot (blks sl) (blk_cnt sl) (vtrs sl ∩ set)]> m) Hn) as (m' & -> & Hm').
  { intros a Ha. apply lookup_insert_is_Some'. right. apply Hl. by right. }
  exists m'. split; [done|]. intros a. rewrite Hm'. destruct (decide (a = x)) as [->|Hne].
  - rewrite lookup_insert_eq, decide_False, (decide_True (P := x ∈ x :: l)) by (done || left). by rewrite Hs.
  - rewrite lookup_insert_ne by done. destruct (decide (a ∈ l)).
    + by rewrite decide_True by (by right).
    + rewrite decide_False; [done|]. by intros [|]%elem_of_cons.
Qed.

(** ** Adding *)

(** All bits in use belong to a voter, so there are at most as many. *)
Definition all_bits (m : gmap fd_pubkey_t vtr_t) (s : gset Z) : Prop :=
  forall i, i ∈ s <-> exists a t, m !! a = Some t /\ bit t = i.

Lemma all_bits_size m s : all_bits m s -> (size s <= size m)%nat.
Proof.
  intros H. transitivity (size (list_to_set ((bit ∘ snd) <$> map_to_list m) : gset Z)).
  - apply subseteq_size. intros i (a & t & Ht & <-)%H. apply elem_of_list_to_set, list_elem_of_fmap.
    exists (a, t). split; [done|]. by apply elem_of_map_to_list.
  - etrans; [apply size_list_to_set_le|]. rewrite length_fmap, length_map_to_list. done.
Qed.

Lemma free_bit_loop v fb :
  (forall i, i ∈ vtr_set v -> 0 <= i < vtr_max v) -> Z.of_nat (size (vtr_set v)) < vtr_max v ->
  0 <= fb -> (forall i, 0 <= i < fb -> i ∈ vtr_set v) ->
  exists i, loop (free_bit_step v) (S (Z.to_nat (vtr_max v))) fb = Ok i /\
    (0 <= i < vtr_max v /\ i ∉ vtr_set v /\ forall j, 0 <= j < i -> j ∈ vtr_set v).
Proof.
  intros Hr Hsz Hfb Hb.
  assert (Hlt : forall k, (forall i, 0 <= i < k -> i ∈ vtr_set v) -> k < vtr_max v).
  { intros k Hk. destruct (Z.lt_ge_cases k (vtr_max v)) as [|Hge]; [done|]. exfalso.
    assert (Hs : range_set 0 (vtr_max v) ⊆ vtr_set v)
      by (intros i Hi%elem_of_range_set; apply Hk; lia).
    apply subseteq_size in Hs. pose proof (size_range_set 0 (vtr_max v)). lia. }
  apply (loop_total _ (fun k => 0 <= k /\ forall i, 0 <= i < k -> i ∈ vtr_set v)
           (fun k => Z.to_nat (vtr_max v - k))); [|done|lia].
  intros k [Hk0 Hk]. pose proof (Hlt k Hk). unfold free_bit_step, slot_vtrs_test.
  rewrite (proj2 (Z.leb_le _ _)), (proj2 (Z.ltb_lt _ _)) by lia. cbn [andb mbind res_bind].
  destruct (decide (k ∈ vtr_set v)) as [Hin|Hout].
  - left. exists (k + 1). rewrite bool_decide_eq_true_2 by done. split_and!; [done|lia| |lia].
    intros i Hi. destruct (Z.eq_dec i k) as [->|]; [done|]. apply Hk. lia.
  - right. exists k. rewrite bool_decide_eq_false_2 by done. done.
Qed.

Lemma voters_wf_add max free m l a i :
  voters_wf max free m l -> 0 < free -> m !! a = None -> 0 <= i < max -> (forall b t, m !! b = Some t -> bit t <> i) ->
  voters_wf max (free - 1) (<[a := mk_vtr 0 i]> m) (l ++ [a]).
Proof.
  intros [Hn Hl Hf Hr Hi] Hpos Ha Hi' Hfresh. constructor.
  - apply NoDup_snoc; [done|]. rewrite Hl, Ha. by intros [].
  - intros x. rewrite elem_of_app, list_elem_of_singleton, Hl, lookup_insert_is_Some'. naive_solver.
  - rewrite map_size_insert_None by done. lia.
  - intros x t [[<- <-]|[_ Hx]]%lookup_insert_Some; simpl; eauto.
  - intros x x' t t' [[<- <-]|[_ Hx]]%lookup_insert_Some [[<- <-]|[_ Hx']]%lookup_insert_Some E; simpl in *;
      [done|by apply Hfresh in Hx'|by apply Hfresh in Hx|eauto].
Qed.

Lemma add_voters_spec accs : forall fb v,
  voters_wf (vtr_max v) (vtr_free v) (vtr_map v) (vtr_dlist v) -> all_bits (vtr_map v) (vtr_set v) ->
  0 <= fb -> (forall i, 0 <= i < fb -> i ∈ vtr_set v) ->
  Z.of_nat (size (dom (vtr_map v) ∪ list_to_set accs : gset fd_pubkey_t)) <= vtr_max v ->
  exists n m l s, add_voters accs fb v = Ok (with_vtrs v n m l s) /\ voters_wf (vtr_max v) n m l /\
    dom m = dom (vtr_map v) ∪ list_to_set accs /\
    forall a t, vtr_map v !! a = Some t -> m !! a = Some t.
Proof.
  induction accs as [|a accs IH]; intros fb v W B Hfb Hlow Hsz; cbn [add_voters].
  { exists (vtr_free v), (vtr_map v), (vtr_dlist v), (vtr_set v). split; [by destruct v|]. split_and!; [done| |done].
    simpl. set_solver. }
  destruct (vtr_map v !! a) as [t|] eqn:Ha.
  - assert (Hin : a ∈ dom (vtr_map v)) by (apply elem_of_dom; eauto).
    assert (Eq : dom (vtr_map v) ∪ list_to_set (a :: accs) = dom (vtr_map v) ∪ list_to_set accs) by set_solver.
    rewrite Eq in *. apply (IH fb v W B Hfb Hlow Hsz).
  - assert (Hnot : a ∉ dom (vtr_map v)) by (by apply not_elem_of_dom).
    assert (Hroom : Z.of_nat (size (vtr_map v)) < vtr_max v).
    { rewrite <- (size_dom (vtr_map v)).
      assert (Hs : (size (dom (vtr_map v)) < size (dom (vtr_map v) ∪ list_to_set (a :: accs) : gset fd_pubkey_t))%nat); [|lia].
      apply subset_size. set_solver. }
    pose proof (vo_free _ _ _ _ W). unfold acquire. destruct (Z.leb_spec (vtr_free v) 0); [lia|]. cbn [mbind res_bind].
    pose proof (all_bits_size _ _ B).
    destruct (free_bit_loop v fb) as (i & E & Hi & Hout & Hj); [|lia|done|done|].
    { intros i (b & t & Ht & <-)%B. by apply (vo_bit _ _ _ _ W b). }
    rewrite E. cbn [mbind res_bind].
    edestruct (IH (i + 1) (with_vtrs v (vtr_free v - 1) (<[a := mk_vtr 0 i]> (vtr_map v)) (vtr_dlist v ++ [a])
                            ({[i]} ∪ vtr_set v))) as (n & m & l & s & E' & W' & D' & K'); simpl.
    + apply voters_wf_add; [done|lia|done|lia|]. intros b t Ht <-. apply Hout, B. eauto.
    + intros j. rewrite elem_of_union, elem_of_singleton, (B j). split.
      * intros [->|(b & t & Ht & <-)]; [exists a, (mk_vtr 0 i); by rewrite lookup_insert_eq|].
        exists b, t. rewrite lookup_insert_ne; [done|]. congruence.
      * intros (b & t & [[<- <-]|[_ Ht]]%lookup_insert_Some & <-); [by left|right; eauto].
    + lia.
    + intros j Hj'. destruct (Z.eq_dec j i) as [->|]; [set_solver|]. apply elem_of_union_r, Hj. lia.
    + assert (Eq : dom (<[a:=mk_vtr 0 i]> (vtr_map v)) ∪ list_to_set accs = dom (vtr_map v) ∪ list_to_set (a :: accs))
        by (rewrite dom_insert_L; set_solver). by rewrite Eq.
    + exists n, m, l, s. split; [exact E'|]. split_and!; [done| |].
      * rewrite D'. simpl. rewrite dom_insert_L. set_solver.
      * intros b t Ht. apply K'. simpl. rewrite lookup_insert_ne; [done|]. congruence.
Qed.

(** ** The three passes together *)

Lemma voted_forget vs acc slot l :
  voted acc slot (forget vs <$> l) <-> acc ∈ vs /\ voted acc slot l.
Proof.
  unfold voted. rewrite !list.Exists_exists. setoid_rewrite list_elem_of_fmap. split.
  - intros (e' & (e & -> & He) & Ha & Hs). simpl in *. destruct (e_acc e) as [x|] eqn:E; [|done].
    destruct (decide (x ∈ vs)); simplify_eq. eauto.
  - intros (Hin & e & He & Ha & Hs). exists (forget vs e). split; [eauto|]. simpl. rewrite Ha, decide_True; done.
Qed.

Lemma stake_of_forget vs k l : stake_of k (forget vs <$> l) = stake_of k l.
Proof. induction l as [|e l IH]; [done|]. rewrite fmap_cons. cbn [stake_of]. by rewrite IH. Qed.

Lemma keys_forget vs (l : list entry) : e_key <$> (forget vs <$> l) = e_key <$> l.
Proof. rewrite <- list_fmap_compose. by apply list_fmap_ext. Qed.

(** The new voters, their bits, and the cleared slots, relative to the old
    state. *)
Lemma update_voters_spec v a accs :
  votes_rel v a -> Z.of_nat (size (list_to_set accs : gset fd_pubkey_t)) <= vtr_max v ->
  exists n m l s sm, fd_votes_update_voters v accs =
      Ok (with_vtrs (with_slots v (slot_free v) sm (slot_dlist v)) n m l s) /\
    voters_wf (vtr_max v) n m l /\ dom m = list_to_set accs /\
    (forall x t, vtr_map v !! x = Some t -> x ∈ accs -> exists t', m !! x = Some t' /\ bit t' = bit t) /\
    (forall x, is_Some (sm !! x) <-> is_Some (slot_map v !! x)) /\
    (forall x sl', sm !! x = Some sl' -> exists sl, slot_map v !! x = Some sl /\ blks sl' = blks sl /\ blk_cnt sl' = blk_cnt sl /\
       forall i, i ∈ vtrs sl' <-> i ∈ vtrs sl /\ exists y t, y ∈ accs /\ vtr_map v !! y = Some t /\ bit t = i).
Proof.
  intros R Hsz. pose proof (rel_voters _ _ R) as W. unfold fd_votes_update_voters.
  destruct (mark_all_dom next set_next (fun _ _ => eq_refl) (fun _ _ _ => eq_refl) (vtr_dlist v) (vtr_map v)) as (m1 & -> & Hm1' & Hnk);
    [apply (vo_list _ _ _ _ W)|].
  assert (Hb1 : same_bits (vtr_map v) m1) by (intros x; rewrite Hm1'; by destruct (vtr_map v !! x)).
  cbn [mbind res_bind].
  edestruct (keep_voters_spec accs (with_vtrs v (vtr_free v) m1 (vtr_dlist v) ∅))
    as (m2 & l2 & s2 & -> & W2 & L2 & B2 & S2 & K2); simpl.
  { eapply voters_wf_same; [exact Hb1|done|exact W]. }
  { by apply kept_none_last. }
  { intros i. split; [set_solver|]. intros (x & t & Ht & E & _). destruct (Hnk x). by exists t. }
  simpl in W2, S2, K2. cbn [mbind res_bind]. simpl.
  destruct (release_voters_spec l2 (with_vtrs v (vtr_free v) m2 l2 s2) W2 L2) as (n3 & m3 & l3 & E3 & W3 & K3).
  unfold with_vtrs in E3 |- *. simpl in E3 |- *. rewrite E3. cbn [mbind res_bind]. simpl.
  pose proof (rel_slots _ _ R) as [Sn Sl _ _].
  destruct (intersect_slots_spec s2 (slot_dlist v) (slot_map v) Sn) as (sm & -> & Hsm); [intros x; apply Sl|].
  cbn [mbind res_bind]. simpl in W3, K3.
  assert (Hkeep : forall x t, m3 !! x = Some t -> x ∈ accs /\ exists t0, vtr_map v !! x = Some t0 /\ bit t0 = bit t).
  { intros x t [Ht E]%K3. pose proof (proj1 (K2 x) ltac:(exists t; done)) as [H1|[H1 _]]; [by apply Hnk in H1|].
    split; [done|]. eapply same_bits_lookup; [|exact Ht]. intros y. by rewrite Hb1, S2. }
  assert (Hkeep' : forall x t, vtr_map v !! x = Some t -> x ∈ accs -> exists t', m3 !! x = Some t' /\ bit t' = bit t).
  { intros x t Ht Hx. assert (H1 : is_Some (m1 !! x)) by (rewrite Hm1', Ht; eauto).
    destruct (proj2 (K2 x) ltac:(by right)) as (t2 & Ht2 & E2). exists t2. split; [by apply K3|].
    specialize (Hb1 x). specialize (S2 x). rewrite Ht in Hb1. rewrite Ht2 in S2.
    destruct (m1 !! x); simplify_eq/=. congruence. }
  assert (Hdom3 : dom m3 ⊆ list_to_set accs).
  { intros x [t Ht]%elem_of_dom. apply elem_of_list_to_set. by apply Hkeep in Ht as [? _]. }
  edestruct (add_voters_spec accs 0 (mk_votes (root v) (slot_max v) (vtr_max v) (blk_max v) (slot_free v) sm
    (slot_dlist v) (blk_free v) (blk_map v) n3 m3 l3 s2)) as (n & m & l & s & E & W4 & D4 & K4); simpl; [done| |done|lia| |].
  { intros i. rewrite (B2 i). setoid_rewrite K3. naive_solver. }
  { by rewrite subseteq_union_1_L. }
  exists n, m, l, s, sm. split; [exact E|]. split_and!.
  - done.
  - simpl in D4. by rewrite D4, subseteq_union_1_L.
  - intros x t Ht Hx. destruct (Hkeep' x t Ht Hx) as (t' & Ht' & E'). exists t'. split; [by apply K4|done].
  - intros x. rewrite Hsm. destruct (decide (x ∈ slot_dlist v)); [|done]. apply fmap_is_Some.
  - intros x sl'. rewrite Hsm. destruct (decide (x ∈ slot_dlist v)) as [Hx|Hx].
    + intros (sl & Hs & ->)%fmap_Some. exists sl. simpl. split_and!; [done..|]. intros i.
      rewrite elem_of_intersection, (B2 i). split; intros [Hi Hy]; (split; [done|]).
      * destruct Hy as (y & t & Ht & En & <-). destruct (Hkeep y t) as [Hy (t0 & Ht0 & E0)]; [by apply K3|].
        exists y, t0. done.
      * destruct Hy as (y & t & Hy & Ht & <-). destruct (Hkeep' y t Ht Hy) as (t' & Ht' & E').
        apply K3 in Ht' as [Ht' En]. exists y, t'. done.
    + rewrite Sl in Hx. intros Hs. destruct Hx. eauto.
Qed.

Lemma update_voters_rel v a accs :
  votes_rel v a -> op_ok (blk_max v) (vtr_max v) a (OpVoters accs) ->
  exists v', fd_votes_update_voters v accs = Ok v' /\ votes_rel v' (spec_update_voters a accs) /\
    blk_max v' = blk_max v /\ vtr_max v' = vtr_max v.
Proof.
  intros R Hsz. destruct (update_voters_spec v a accs R Hsz) as (n & m & l & s & sm & -> & W & D & Hb & Hdom & Hsl).
  eexists. split; [done|]. split; [|done]. constructor; simpl; try apply R; try done.
  - pose proof (rel_slots _ _ R) as [Sn Sl Sf Sr]. constructor; [done| | |].
    + intros x. by rewrite Sl, Hdom.
    + rewrite <- Sf, <- (size_dom sm), <- (size_dom (slot_map v)). do 2 f_equal. f_equal.
      apply set_eq. intros x. by rewrite !elem_of_dom.
    + intros x Hx. apply Sr. by apply Hdom.
  - intros x sl' (sl & Hs & E1 & E2 & _)%Hsl. eapply blks_wf_ext; [..|by apply R]; done.
  - intros x sl' (sl & Hs & _ & _ & Hi)%Hsl i. rewrite Hi, (rel_vtrs _ _ R _ _ Hs i). setoid_rewrite voted_forget.
    setoid_rewrite elem_of_list_to_set. split.
    + intros ((y & t & Ht & <- & Hv) & (y' & t' & Hy & Ht' & E)).
      pose proof (vo_inj _ _ _ _ (rel_voters _ _ R) _ _ _ _ Ht' Ht E) as ->.
      destruct (Hb y t Ht Hy) as (t2 & Ht2 & E2). exists y, t2. done.
    + intros (y & t & Ht & <- & Hy & Hv). pose proof Hv as (e & He & Ha & _)%list.Exists_exists.
      apply (rel_acc _ _ R e y He) in Ha. rewrite <- (rel_dom _ _ R) in Ha. apply elem_of_dom in Ha as [t0 Ht0].
      destruct (Hb y t0 Ht0 Hy) as (t2 & Ht2 & E2). assert (t2 = t) as -> by congruence. rewrite E2.
      split; [by eauto|]. by exists y, t0.
  - intros k. by rewrite keys_forget, (rel_keys _ _ R).
  - intros k b Hk. rewrite stake_of_forget. by apply R.
  - intros e (e0 & -> & He)%list_elem_of_fmap. apply Hdom. by apply (rel_logged _ _ R e0).
  - intros e acc (e0 & -> & He)%list_elem_of_fmap. simpl. destruct (e_acc e0) as [x|]; [|done].
    destruct (decide (x ∈ _)); [|done]. intros [= ->]. done.
Qed.
