(* ===== verification/VotesRun.v ===== *)
(** * Runs of the vote counter

    Any run of [fd_votes] gives the answers and the stakes of the log of
    counted votes; with one voter set the pools never run out; the query for
    the best block of a slot. *)

From S2P Require Import Prelude Bits Links Votes VotesSpec VotesVoters.

#[local] Open Scope Z_scope.

(** The callers' guarantees along a run, see [op_ok]. *)
Fixpoint ops_ok (bmax vmax : Z) (a : votes_spec) (os : list votes_op) : Prop :=
  match os with
  | [] => True
  | o :: os' => op_ok bmax vmax a o /\ ops_ok bmax vmax (fst (spec_step a o)) os'
  end.

Definition spec_new (slot_max0 : Z) : votes_spec := mk_spec ULONG_MAX (fd_ulong_pow2_up slot_max0) ∅ [].

(** Capacities for which the number of blocks fits in 64 bits. *)
Definition capacities_ok (slot_max0 vtr_max0 : Z) : Prop :=
  1 <= slot_max0 <= 2 ^ 63 /\ 1 <= vtr_max0 <= 2 ^ 63 /\
  fd_ulong_pow2_up slot_max0 * fd_ulong_pow2_up vtr_max0 <= 2 ^ 63.

Lemma votes_new_rel sm vm : capacities_ok sm vm ->
  votes_rel (fd_votes_new sm vm) (spec_new sm) /\
  blk_max (fd_votes_new sm vm) = fd_ulong_pow2_up sm * fd_ulong_pow2_up vm.
Proof.
  intros (Hs & Hv & Hp). pose proof (pow2_up_ge sm Hs). pose proof (pow2_up_ge vm Hv). split.
  - constructor; simpl; rewrite ?map_size_empty; try done; try lia.
    + constructor; rewrite ?map_size_empty; try lia; try set_solver.
      * apply NoDup_nil_2.
      * intros a. rewrite lookup_empty. split; [intros Hx; inversion Hx|by intros []].
    + constructor; rewrite ?map_size_empty; try lia.
      * apply NoDup_nil_2.
      * intros a. rewrite lookup_empty. split; [intros Hx; inversion Hx|by intros []].
      * intros s. rewrite lookup_empty. by intros [].
    + intros k. rewrite lookup_empty. split; [by intros []|intros Hx; inversion Hx].
    + intros e Hx; inversion Hx.
    + intros e acc Hx; inversion Hx.
  - apply pow2_up_mul; lia.
Qed.

(** One operation. *)
Lemma votes_step_rel v a o :
  votes_rel v a -> blk_max v <= ULONG_MAX -> op_ok (blk_max v) (vtr_max v) a o ->
  exists v', votes_step v o = Ok (v', snd (spec_step a o)) /\ votes_rel v' (fst (spec_step a o)) /\
    blk_max v' = blk_max v /\ vtr_max v' = vtr_max v.
Proof.
  intros R Hm Ho. destruct o as [acc st sl id|r|accs]; simpl.
  - by apply count_vote_rel.
  - destruct (publish_rel v a r R Ho) as (v' & -> & R' & E). simpl. eauto.
  - destruct (update_voters_rel v a accs R Ho) as (v' & -> & R' & E). simpl. eauto.
Qed.

Lemma votes_run_rel os : forall v a,
  votes_rel v a -> blk_max v <= ULONG_MAX -> ops_ok (blk_max v) (vtr_max v) a os ->
  exists v', votes_run v os = Ok (v', snd (spec_run a os)) /\ votes_rel v' (fst (spec_run a os)) /\
    blk_max v' = blk_max v /\ vtr_max v' = vtr_max v.
Proof.
  induction os as [|o os IH]; intros v a R Hm Hos; cbn [votes_run spec_run]; [by exists v|].
  destruct Hos as [Ho Hos]. destruct (votes_step_rel v a o R Hm Ho) as (v1 & -> & R1 & E1 & E2).
  rewrite <- E1, <- E2 in Hos. destruct (IH v1 _ R1 ltac:(lia) Hos) as (v2 & E & R2 & E3 & E4).
  destruct (spec_step a o) as [a1 r1]. simpl in *. rewrite E. simpl. destruct (spec_run a1 os) as [a2 rs]. simpl in *.
  exists v2. split; [done|]. split; [done|]. split; congruence.
Qed.

(** What a query by block id sees. *)
Lemma query_rel v a slot id : votes_rel v a ->
  exists r, fd_votes_query v slot (Some id) = Ok r /\
    if decide ((slot, id) ∈ e_key <$> s_log a)
    then exists b, r = Some (id, b) /\ stake b = u64 (stake_of (slot, id) (s_log a)) else r = None.
Proof.
  intros R. simpl. eexists. split; [done|]. destruct (decide _) as [Hk|Hk].
  - apply (rel_keys _ _ R) in Hk as [b Hb]. rewrite Hb. exists b. split; [done|]. by apply R.
  - rewrite <- (rel_keys _ _ R), <- eq_None_not_Some in Hk. by rewrite Hk.
Qed.

(** ** One voter set *)

(** The guarantees without the one on the size of the block pool. *)
Definition call_ok (a : votes_spec) (o : votes_op) : Prop :=
  match o with
  | OpVote acc st sl id => 0 <= s_root a <= sl /\ s_root a + s_max a <= ULONG_MAX
  | OpPublish r => 0 <= r < ULONG_MAX /\ (s_root a <> ULONG_MAX -> s_root a <= r)
  | OpVoters _ => False
  end.

Fixpoint calls_ok (a : votes_spec) (os : list votes_op) : Prop :=
  match os with
  | [] => True
  | o :: os' => call_ok a o /\ calls_ok (fst (spec_step a o)) os'
  end.

Definition e_vote (e : entry) : option fd_pubkey_t * Z := (e_acc e, e_slot e).

(** Every entry of the log is the only vote of a current voter for a slot of
    the window. *)
Definition named (a : votes_spec) : Prop :=
  NoDup (e_vote <$> s_log a) /\
  forall e, e ∈ s_log a -> (exists acc, e_acc e = Some acc /\ acc ∈ s_voters a) /\ s_root a <= e_slot e < s_root a + s_max a.

Lemma length_le_product (l : list (option fd_pubkey_t * Z)) (vs : gset fd_pubkey_t) lo n :
  0 <= n -> NoDup l -> (forall p, p ∈ l -> (exists acc, p.1 = Some acc /\ acc ∈ vs) /\ lo <= p.2 < lo + n) ->
  Z.of_nat (length l) <= n * Z.of_nat (size vs).
Proof.
  intros Hn Hl Hp. assert (Hsub : l ⊆+ list_prod (Some <$> elements vs) (seqZ lo n)).
  { apply NoDup_submseteq; [done|]. intros [x s] Hx%Hp. simpl in Hx. destruct Hx as [(acc & -> & Hacc) Hs].
    apply list_elem_of_In, in_prod; apply list_elem_of_In; [|by apply elem_of_seqZ].
    apply list_elem_of_fmap. exists acc. split; [done|]. by apply elem_of_elements. }
  apply submseteq_length in Hsub. rewrite length_prod, length_fmap, length_seqZ in Hsub. unfold size, set_size. simpl. lia.
Qed.

(** Under [named] a vote that counts finds a free block. *)
Lemma named_room a acc st sl id vmax :
  named a -> 0 < s_max a -> s_root a <= sl -> Z.of_nat (size (s_voters a)) <= vmax ->
  snd (spec_count_vote a acc st sl id) = FD_VOTES_SUCCESS ->
  Z.of_nat (size (list_to_set (e_key <$> s_log a) : gset (Z * fd_hash_t))) < s_max a * vmax.
Proof.
  intros [Hn Hin] Hm Hr Hv. unfold spec_count_vote. repeat case_decide; try done. intros _.
  pose proof (size_list_to_set_le (e_key <$> s_log a)) as Hle. rewrite length_fmap in Hle.
  pose proof (length_le_product ((Some acc, sl) :: (e_vote <$> s_log a)) (s_voters a) (s_root a) (s_max a)) as Hlen.
  simpl in Hlen. rewrite length_fmap in Hlen.
  assert (Z.of_nat (S (length (s_log a))) <= s_max a * Z.of_nat (size (s_voters a))); [|nia].
  apply Hlen; [lia| |].
  - apply NoDup_cons. split; [|done]. intros (e & [= E1 E2] & He)%list_elem_of_fmap.
    match goal with H : ~ Exists _ _ |- _ => apply H end. apply list.Exists_exists. by exists e.
  - intros p [->|(e & -> & He)%list_elem_of_fmap]%elem_of_cons; [|by apply Hin].
    simpl. split; [|lia]. exists acc. split; [done|].
    destruct (decide (acc ∈ s_voters a)); [done|]. exfalso. tauto.
Qed.

Lemma named_step a o v :
  votes_rel v a -> named a -> call_ok a o -> named (fst (spec_step a o)).
Proof.
  intros R [Hn Hin] Ho. destruct o as [acc st sl id|r|]; [| |done]; simpl in *.
  - unfold spec_count_vote. repeat case_decide; try (by split). split; simpl.
    + rewrite fmap_app. apply NoDup_snoc; [done|]. intros (e & [= E1 E2] & He)%list_elem_of_fmap.
      match goal with H : ~ Exists _ _ |- _ => apply H end. apply list.Exists_exists. by exists e.
    + intros e [He|Ee%list_elem_of_singleton]%elem_of_app; [by apply Hin|]. subst e. simpl. split; [|lia].
      exists acc. split; [done|]. destruct (decide (acc ∈ s_voters a)); [done|]. exfalso. tauto.
  - destruct Ho as [_ Ho]. destruct (decide (s_root a = ULONG_MAX)) as [E|E].
    { destruct (rel_fresh _ _ R E) as [El _]. split; simpl; rewrite El; [by apply NoDup_nil_2|]. intros e Hx; inversion Hx. }
    specialize (Ho E). split; simpl.
    + eapply sublist_NoDup; [exact Hn|]. apply fmap_sublist, sublist_filter.
    + intros e [Hr He]%list_elem_of_filter. destruct (Hin e He) as [Ha Hs]. split; [done|lia].
Qed.

Lemma named_ops_ok os : forall v a,
  votes_rel v a -> blk_max v <= ULONG_MAX -> blk_max v = s_max a * vtr_max v -> named a ->
  calls_ok a os -> ops_ok (blk_max v) (vtr_max v) a os.
Proof.
  induction os as [|o os IH]; intros v a R Hm Hb Hn Hos; [done|]. destruct Hos as [Ho Hos].
  assert (Hok : op_ok (blk_max v) (vtr_max v) a o).
  { destruct o as [acc st sl id|r|]; simpl in *; [|done|done]. destruct Ho. split_and!; [lia|lia|lia|]. intros Hs _. rewrite Hb.
    pose proof (rel_voters _ _ R) as W. pose proof (vo_free _ _ _ _ W).
    destruct (rel_max _ _ R) as (_ & ? & _). eapply (named_room a acc st sl id); [done|done|lia| |exact Hs].
    rewrite <- (rel_dom _ _ R), size_dom. lia. }
  split; [done|]. destruct (votes_step_rel v a o R Hm Hok) as (v' & _ & R' & E1 & E2).
  rewrite <- E1, <- E2. apply IH; [done|lia| |by eapply named_step|done].
  rewrite E1, E2, Hb. f_equal. destruct o as [acc st sl id|r|]; simpl; [|done|done].
  unfold spec_count_vote. by repeat case_decide.
Qed.

(** ** The best block of a slot *)

Definition level (b : blk_t) : Z := Z.shiftr (flags b) 4.

Lemma query_best_spec v slot l : forall best,
  (forall h, h ∈ l -> is_Some (blk_map v !! (slot, h))) ->
  exists r, query_best v slot l best = Ok r /\
    ((r = best /\ forall h b, h ∈ l -> blk_map v !! (slot, h) = Some b -> level b <= from_option (level ∘ snd) 0 best) \/
     exists h b pre post, r = Some (h, b) /\ l = pre ++ h :: post /\ blk_map v !! (slot, h) = Some b /\
       from_option (level ∘ snd) 0 best < level b /\
       (forall h' b', h' ∈ l -> blk_map v !! (slot, h') = Some b' -> level b' <= level b) /\
       (forall h' b', h' ∈ pre -> blk_map v !! (slot, h') = Some b' -> level b' < level b)).
Proof.
  induction l as [|x l IH]; intros best Hl; cbn [query_best].
  { exists best. split; [done|]. left. split; [done|]. intros h b Hx; inversion Hx. }
  destruct (Hl x ltac:(left)) as [bx Hbx]. rewrite Hbx. cbn [deref mbind res_bind].
  assert (Elev : match best with Some (_, b0) => Z.shiftr (flags b0) 4 | None => 0 end = from_option (level ∘ snd) 0 best)
    by (by destruct best as [[]|]). rewrite Elev. clear Elev.
  destruct (IH (if from_option (level ∘ snd) 0 best <? Z.shiftr (flags bx) 4 then Some (x, bx) else best)) as (r & E & Hr);
    [intros h Hh; apply Hl; by right|]. exists r. split; [exact E|].
  change (Z.shiftr (flags bx) 4) with (level bx) in Hr.
  destruct (Z.ltb_spec (from_option (level ∘ snd) 0 best) (level bx)); simpl in Hr.
  - right. destruct Hr as [[-> Hr]|(h & b & pre & post & -> & -> & Hb & Hlt & Hmax & Hpre)].
    + exists x, bx, [], l. split_and!; try done. { intros h b [->|Hh]%elem_of_cons Hb; [|by eapply Hr]. assert (b = bx) as -> by congruence. lia. }
      intros h b Hx; inversion Hx.
    + exists h, b, (x :: pre), post. split_and!; try done; [lia| |].
      * intros h' b' [->|Hh]%elem_of_cons Hb'; [|by eapply Hmax]. assert (b' = bx) as -> by congruence. lia.
      * intros h' b' [->|Hh]%elem_of_cons Hb'; [|by eapply Hpre]. assert (b' = bx) as -> by congruence. lia.
  - destruct Hr as [[-> Hr]|(h & b & pre & post & -> & -> & Hb & Hlt & Hmax & Hpre)]; [left|right].
    + split; [done|]. intros h b [->|Hh]%elem_of_cons Hb; [|by eapply Hr]. assert (b = bx) as -> by congruence. lia.
    + exists h, b, (x :: pre), post. split_and!; try done.
      * intros h' b' [->|Hh]%elem_of_cons Hb'; [|by eapply Hmax]. assert (b' = bx) as -> by congruence. lia.
      * intros h' b' [->|Hh]%elem_of_cons Hb'; [|by eapply Hpre]. assert (b' = bx) as -> by congruence. lia.
Qed.

(** ** Properties *)

(** C29. Every run of the vote counter that respects its callers' guarantees
    returns, answers every operation as the log of counted votes does (a vote
    counts once per voter and slot, if it is not too far ahead and the voter is
    known), and afterwards a query finds exactly the blocks of the log, each
    with the sum of the stakes counted for it. *)
Theorem votes_run_refines (sm vm : Z) (os : list votes_op) :
  capacities_ok sm vm ->
  ops_ok (fd_ulong_pow2_up sm * fd_ulong_pow2_up vm) (fd_ulong_pow2_up vm) (spec_new sm) os ->
  exists v, votes_run (fd_votes_new sm vm) os = Ok (v, snd (spec_run (spec_new sm) os)) /\
    forall slot id, exists r, fd_votes_query v slot (Some id) = Ok r /\
      let log := s_log (fst (spec_run (spec_new sm) os)) in
      if decide ((slot, id) ∈ e_key <$> log)
      then exists b, r = Some (id, b) /\ stake b = u64 (stake_of (slot, id) log) else r = None.
Proof.
  intros Hc Hos. destruct (votes_new_rel sm vm Hc) as [R Eb]. rewrite <- Eb in Hos.
  destruct (votes_run_rel os _ _ R) as (v & E & R' & _); [rewrite Eb; destruct Hc; unfold ULONG_MAX; lia|exact Hos|].
  exists v. split; [exact E|]. intros slot id. by apply query_rel.
Qed.

(** With one voter set the pools cannot run out, whatever the votes: after
    the voters are registered, every sequence of votes not older than the root
    and of advancing roots is processed without a failure. *)
Theorem votes_one_epoch_total (sm vm : Z) (accs : list fd_pubkey_t) (os : list votes_op) :
  capacities_ok sm vm -> Z.of_nat (length accs) <= fd_ulong_pow2_up vm ->
  calls_ok (spec_update_voters (spec_new sm) accs) os ->
  exists v, votes_run (fd_votes_new sm vm) (OpVoters accs :: os) =
    Ok (v, snd (spec_run (spec_new sm) (OpVoters accs :: os))).
Proof.
  intros Hc Hacc Hos. destruct (votes_new_rel sm vm Hc) as [R Eb].
  assert (Ho : op_ok (blk_max (fd_votes_new sm vm)) (vtr_max (fd_votes_new sm vm)) (spec_new sm) (OpVoters accs))
    by (simpl; pose proof (size_list_to_set_le accs); lia).
  assert (Hb : blk_max (fd_votes_new sm vm) <= ULONG_MAX) by (rewrite Eb; destruct Hc; unfold ULONG_MAX; lia).
  destruct (update_voters_rel _ _ _ R Ho) as (v1 & E1 & R1 & Eb1 & Ev1).
  destruct (votes_run_rel (OpVoters accs :: os) _ _ R Hb) as (v & E & _); [|by exists v].
  split; [exact Ho|]. cbn [spec_step fst]. rewrite <- Eb1, <- Ev1.
  eapply named_ops_ok; [exact R1|lia| | |exact Hos].
  - rewrite Eb1, Ev1, Eb. done.
  - split; [apply NoDup_nil_2|]. intros e Hx; inversion Hx.
Qed.

(** A query without a block id returns, among the blocks of the slot, the
    first one with the highest forward confirmation level, and nothing when no
    block of the slot is forward confirmed. *)
Theorem votes_query_best (v : fd_votes_t) (a : votes_spec) (slot : Z) :
  votes_rel v a ->
  exists r, fd_votes_query v slot None = Ok r /\
    match r with
    | None => forall h b, blk_map v !! (slot, h) = Some b -> level b <= 0
    | Some (h, b) =>
        blk_map v !! (slot, h) = Some b /\ 0 < level b /\
        (forall h' b', blk_map v !! (slot, h') = Some b' -> level b' <= level b) /\
        exists sl pre post, slot_map v !! slot = Some sl /\ blks sl = pre ++ h :: post /\
          forall h' b', h' ∈ pre -> blk_map v !! (slot, h') = Some b' -> level b' < level b
    end.
Proof.
  intros R. simpl. destruct (slot_map v !! slot) as [sl|] eqn:Hs.
  - destruct (rel_blks _ _ R _ _ Hs) as (_ & Hl & _).
    destruct (query_best_spec v slot (blks sl) None) as (r & E & Hr); [intros h; apply Hl|].
    exists r. split; [exact E|]. destruct Hr as [[-> Hr]|(h & b & pre & post & -> & Hp & Hb & Hlt & Hmax & Hpre)].
    + intros h b Hb. apply (Hr h b); [apply Hl; eauto|done].
    + split_and!; [done|done| |by exists sl, pre, post]. intros h' b' Hb'. apply (Hmax h' b'); [apply Hl; eauto|done].
  - exists None. split; [done|]. intros h b Hb. exfalso.
    pose proof (proj1 (rel_keys _ _ R (slot, h)) ltac:(eauto)) as (e & Ek & He)%list_elem_of_fmap.
    apply (rel_logged _ _ R) in He. injection Ek as E1 E2. rewrite <- E1, Hs in He. by destruct He.
Qed.

(** ** Witnesses *)

(** Two voters, an equivocating vote, a vote too far ahead, an epoch change
    and an advancing root. *)
Definition example_ops : list votes_op :=
  [OpVoters [1; 2]; OpPublish 100; OpVote 1 10 101 7; OpVote 2 51 101 7; OpVote 1 10 101 8; OpVote 1 10 108 7;
   OpVote 9 10 101 7; OpVoters [2; 3]; OpVote 3 30 101 9; OpPublish 102].

Lemma votes_run_refines_witness :
  exists v, votes_run (fd_votes_new 8 4) example_ops = Ok (v, [0; 0; 0; 0; -3; -1; -2; 0; 0; 0]).
Proof.
  destruct (votes_run_refines 8 4 example_ops) as (v & E & _).
  - vm_compute. repeat split; discriminate.
  - repeat split; try (vm_compute; congruence); try (intros; vm_compute; reflexivity); try done.
  - exists v. exact E.
Defined.

Lemma votes_one_epoch_total_witness :
  exists v, votes_run (fd_votes_new 2 2) [OpVoters [1; 2]; OpPublish 100; OpVote 1 10 101 7; OpVote 2 51 101 8] =
    Ok (v, [0; 0; 0; 0]).
Proof.
  destruct (votes_one_epoch_total 2 2 [1; 2] [OpPublish 100; OpVote 1 10 101 7; OpVote 2 51 101 8]) as (v & E).
  - vm_compute. repeat split; discriminate.
  - vm_compute. congruence.
  - repeat split; try (vm_compute; congruence).
  - exists v. exact E.
Defined.

Lemma votes_query_best_witness :
  exists v r, votes_run (fd_votes_new 8 4) [OpVoters [1; 2]; OpPublish 100; OpVote 1 10 101 7] = Ok (v, [0; 0; 0]) /\
    fd_votes_query v 101 None = Ok r.
Proof.
  destruct (votes_new_rel 8 4) as [R _]; [vm_compute; repeat split; discriminate|].
  destruct (votes_run_rel [OpVoters [1; 2]; OpPublish 100; OpVote 1 10 101 7] _ _ R) as (v & E & R' & _).
  - vm_compute. discriminate.
  - repeat split; try (vm_compute; congruence); try (intros; vm_compute; reflexivity); try done.
  - destruct (votes_query_best v _ 101 R') as (r & Er & _). exists v, r. split; [exact E|exact Er].
Defined.
