(* ===== verification/Hfork.v ===== *)
(** * Hard fork detection ([src/choreo/hfork/fd_hfork.c])

    [fd_hfork] counts, per block id and bank hash, the stake of the latest
    votes of every voter and compares the bank hashes with ours.  As in Votes,
    pool elements are addressed by the key of the map that holds them, a pool
    is the number of its free elements, and linked lists are lists of keys. *)

From Corelib Require Import SpecFloat.
From S2P Require Import Prelude Bits Links.

#[local] Open Scope Z_scope.

(** ** State *)

(** The 32-byte strings of zeros and of ones. *)
Definition hash_null : fd_hash_t := 0.
Definition hash_invalid : fd_hash_t := 2 ^ 256 - 1.

(** [bhm_t], keyed by (block id, bank hash). *)
Record bhm_t := mk_bhm { bhm_slot : Z; bhm_stake : Z }.

(** [blk_t], keyed by block id; [bhms] lists the bank hashes of [bhm_dlist]. *)
Record blk_t := mk_blk { our_bank_hash : fd_hash_t; bhms : list fd_hash_t; bhm_cnt : Z }.

(** [vte_t], keyed by (vote account, block id). *)
Record vte_t := mk_vte { bank_hash : fd_hash_t; vte_slot : Z; vte_stake : Z }.

(** [vtr_t], keyed by vote account; [vtes] lists the block ids of [vte_dlist],
    oldest first. *)
Record vtr_t := mk_vtr { next : Z; vtes : list fd_hash_t; vte_cnt : Z }.

Record fd_hfork_t := mk_hfork {
  max : Z;
  per_vtr_max : Z;
  vtr_max : Z;
  bhm_free : Z;
  bhm_map : gmap (fd_hash_t * fd_hash_t) bhm_t;
  blk_free : Z;
  blk_map : gmap fd_hash_t blk_t;
  blk_dlist : list fd_hash_t;
  vte_free : Z;
  vte_map : gmap (fd_pubkey_t * fd_hash_t) vte_t;
  vtr_free : Z;
  vtr_map : gmap fd_pubkey_t vtr_t;
  vtr_dlist : list fd_pubkey_t
}.

Definition with_bhms (h : fd_hfork_t) (n : Z) (m : gmap (fd_hash_t * fd_hash_t) bhm_t) : fd_hfork_t :=
  mk_hfork (max h) (per_vtr_max h) (vtr_max h) n m (blk_free h) (blk_map h) (blk_dlist h)
    (vte_free h) (vte_map h) (vtr_free h) (vtr_map h) (vtr_dlist h).
Definition with_blks (h : fd_hfork_t) (n : Z) (m : gmap fd_hash_t blk_t) (l : list fd_hash_t) : fd_hfork_t :=
  mk_hfork (max h) (per_vtr_max h) (vtr_max h) (bhm_free h) (bhm_map h) n m l
    (vte_free h) (vte_map h) (vtr_free h) (vtr_map h) (vtr_dlist h).
Definition with_vtes (h : fd_hfork_t) (n : Z) (m : gmap (fd_pubkey_t * fd_hash_t) vte_t) : fd_hfork_t :=
  mk_hfork (max h) (per_vtr_max h) (vtr_max h) (bhm_free h) (bhm_map h) (blk_free h) (blk_map h) (blk_dlist h)
    n m (vtr_free h) (vtr_map h) (vtr_dlist h).
Definition with_vtrs (h : fd_hfork_t) (n : Z) (m : gmap fd_pubkey_t vtr_t) (l : list fd_pubkey_t) : fd_hfork_t :=
  mk_hfork (max h) (per_vtr_max h) (vtr_max h) (bhm_free h) (bhm_map h) (blk_free h) (blk_map h) (blk_dlist h)
    (vte_free h) (vte_map h) n m l.

Definition set_next (t : vtr_t) (n : Z) : vtr_t := mk_vtr n (vtes t) (vte_cnt t).

(** ** Construction ([fd_hfork_new]) *)

Definition fd_hfork_new (per_vtr_max0 vtr_max0 : Z) : fd_hfork_t :=
  let vtr_max := fd_ulong_pow2_up vtr_max0 in
  let max := fd_ulong_pow2_up (u64 (per_vtr_max0 * vtr_max)) in
  mk_hfork max per_vtr_max0 vtr_max max ∅ max ∅ [] max ∅ vtr_max ∅ [].

(** ** Helpers *)

(** [bhm_remove]: remove a bank hash, and its block when it was the last one. *)
Definition bhm_remove (h : fd_hfork_t) (block_id x : fd_hash_t) : res fd_hfork_t :=
  match blk_map h !! block_id with
  | None => Crit
  | Some b =>
      l ← dlist_remove x (bhms b);
      let h1 := with_bhms h (bhm_free h + 1) (delete (block_id, x) (bhm_map h)) in
      let cnt := u64 (bhm_cnt b - 1) in
      if cnt =? 0
      then Ok (with_blks h1 (blk_free h1 + 1) (delete block_id (blk_map h1)) (blk_dlist h1))
      else Ok (with_blks h1 (blk_free h1) (<[block_id := mk_blk (our_bank_hash b) l cnt]> (blk_map h1)) (blk_dlist h1))
  end.

(** [(double)stake * 100.0 / (double)total < 52.0] *)
Definition pct_below (stake total : Z) : bool :=
  SFltb (SFdiv 53 1024 (SFmul 53 1024 (double_of stake) (double_of 100)) (double_of total)) (double_of 52).

(** [compare] *)
Definition compare (b : blk_t) (x : fd_hash_t) (m : bhm_t) (total_stake : Z) : Z :=
  if our_bank_hash b =? hash_null then 0
  else if pct_below (bhm_stake m) total_stake then 0
  else if negb (our_bank_hash b =? x) then -1
  else 1.

(** [blk_insert]: [None] is NULL. *)
Definition blk_insert (h : fd_hfork_t) (block_id : fd_hash_t) : res (option fd_hfork_t) :=
  let insert (h : fd_hfork_t) :=
    n ← acquire (blk_free h);
    Ok (Some (with_blks h n (<[block_id := mk_blk hash_null [] 0]> (blk_map h)) (blk_dlist h))) in
  if blk_free h =? 0 then
    match blk_dlist h with
    | [] => Ok None
    | e :: l =>
        _ ← deref (blk_map h !! e);
        insert (with_blks h (blk_free h + 1) (delete e (blk_map h)) l)
    end
  else insert h.

(** Subtract a vote from the stake of its bank hash, and remove the bank hash
    when no stake is left. *)
Definition bhm_sub (h : fd_hfork_t) (block_id x : fd_hash_t) (m : bhm_t) (stake : Z) : res fd_hfork_t :=
  let s := u64 (bhm_stake m - stake) in
  let h1 := with_bhms h (bhm_free h) (<[(block_id, x) := mk_bhm (bhm_slot m) s]> (bhm_map h)) in
  if s =? 0 then bhm_remove h1 block_id x else Ok h1.

(** ** Counting a vote ([fd_hfork_count_vote]) *)

Definition FD_HFORK_SUCCESS_MATCHED : Z := 1.
Definition FD_HFORK_SUCCESS : Z := 0.
Definition FD_HFORK_ERR_MISMATCHED : Z := -1.
Definition FD_HFORK_ERR_UNKNOWN_VTR : Z := -2.
Definition FD_HFORK_ERR_ALREADY_VOTED : Z := -3.
Definition FD_HFORK_ERR_VOTE_TOO_OLD : Z := -4.

(** The voter's newest vote is not older than [slot]. *)
Definition too_old (h : fd_hfork_t) (acc : fd_pubkey_t) (t : vtr_t) (slot : Z) : res bool :=
  if vte_cnt t =? 0 then Ok false
  else
    b ← deref (last (vtes t));
    e ← deref (vte_map h !! (acc, b));
    Ok (slot <=? vte_slot e).

(** Evict the oldest vote of a voter that has reached its quota. *)
Definition evict (h : fd_hfork_t) (acc : fd_pubkey_t) (t : vtr_t) : res (fd_hfork_t * vtr_t) :=
  if vte_cnt t =? per_vtr_max h then
    match vtes t with
    | [] => Ub
    | b :: l =>
        e ← deref (vte_map h !! (acc, b));
        let h1 := with_vtes h (vte_free h + 1) (delete (acc, b) (vte_map h)) in
        let t1 := mk_vtr (next t) l (u64 (vte_cnt t - 1)) in
        m ← deref (bhm_map h1 !! (b, bank_hash e));
        h2 ← bhm_sub h1 b (bank_hash e) m (vte_stake e);
        Ok (with_vtrs h2 (vtr_free h2) (<[acc := t1]> (vtr_map h2)) (vtr_dlist h2), t1)
    end
  else Ok (h, t).

(** Find or create the block of the vote; a block without bank hashes leaves
    the list of evictable blocks.  A NULL block is dereferenced below. *)
Definition upsert_blk (h : fd_hfork_t) (block_id : fd_hash_t) : res fd_hfork_t :=
  match blk_map h !! block_id with
  | None => o ← blk_insert h block_id; deref o
  | Some b =>
      if bhm_cnt b =? 0 then
        l ← dlist_remove block_id (blk_dlist h);
        Ok (with_blks h (blk_free h) (blk_map h) l)
      else Ok h
  end.

(** Find or create the bank hash, add the stake, and move the bank hash to the
    tail of the block's list. *)
Definition upsert_bhm (h : fd_hfork_t) (block_id x : fd_hash_t) (slot stake : Z) : res (fd_hfork_t * blk_t * bhm_t) :=
  b ← deref (blk_map h !! block_id);
  '(h1, b1, m) ← (match bhm_map h !! (block_id, x) with
    | Some m => Ok (h, b, m)
    | None =>
        n ← acquire (bhm_free h);
        let m := mk_bhm slot 0 in
        Ok (with_bhms h n (<[(block_id, x) := m]> (bhm_map h)),
            mk_blk (our_bank_hash b) (bhms b ++ [x]) (u64 (bhm_cnt b + 1)), m)
    end);
  let m1 := mk_bhm (bhm_slot m) (u64 (bhm_stake m + stake)) in
  let h2 := with_bhms h1 (bhm_free h1) (<[(block_id, x) := m1]> (bhm_map h1)) in
  l ← dlist_remove x (bhms b1);
  let b2 := mk_blk (our_bank_hash b1) (l ++ [x]) (bhm_cnt b1) in
  Ok (with_blks h2 (blk_free h2) (<[block_id := b2]> (blk_map h2)) (blk_dlist h2), b2, m1).

(** Record the vote with its voter. *)
Definition push_vte (h : fd_hfork_t) (acc : fd_pubkey_t) (t : vtr_t) (block_id x : fd_hash_t) (slot stake : Z)
    : res fd_hfork_t :=
  n ← acquire (vte_free h);
  let h1 := with_vtes h n (<[(acc, block_id) := mk_vte x slot stake]> (vte_map h)) in
  Ok (with_vtrs h1 (vtr_free h1)
        (<[acc := mk_vtr (next t) (vtes t ++ [block_id]) (u64 (vte_cnt t + 1))]> (vtr_map h1)) (vtr_dlist h1)).

Definition fd_hfork_count_vote (h : fd_hfork_t) (vote_acc : fd_pubkey_t) (block_id x : fd_hash_t)
    (slot stake total_stake : Z) : res (fd_hfork_t * Z) :=
  match vtr_map h !! vote_acc with
  | None => Ok (h, FD_HFORK_ERR_UNKNOWN_VTR)
  | Some t =>
      match vte_map h !! (vote_acc, block_id) with
      | Some _ => Ok (h, FD_HFORK_ERR_ALREADY_VOTED)
      | None =>
          old ← too_old h vote_acc t slot;
          if (old : bool) then Ok (h, FD_HFORK_ERR_VOTE_TOO_OLD) else
          if stake =? 0 then Ok (h, FD_HFORK_SUCCESS) else
          '(h1, t1) ← evict h vote_acc t;
          h2 ← upsert_blk h1 block_id;
          '(h3, b, m) ← upsert_bhm h2 block_id x slot stake;
          h4 ← push_vte h3 vote_acc t1 block_id x slot stake;
          Ok (h4, compare b x m total_stake)
      end
  end.

(** ** Our own bank hash ([fd_hfork_record_our_bank_hash]) *)

(** The first bank hash whose comparison is conclusive. *)
Fixpoint compare_all (h : fd_hfork_t) (block_id : fd_hash_t) (b : blk_t) (l : list fd_hash_t) (total_stake : Z) : res Z :=
  match l with
  | [] => Ok 0
  | x :: l' =>
      m ← deref (bhm_map h !! (block_id, x));
      let c := compare b x m total_stake in
      if c =? 0 then compare_all h block_id b l' total_stake else Ok c
  end.

Definition fd_hfork_record_our_bank_hash (h : fd_hfork_t) (block_id : fd_hash_t) (x : option fd_hash_t) (total_stake : Z)
    : res (fd_hfork_t * Z) :=
  o ← (match blk_map h !! block_id with
       | Some _ => Ok (Some h)
       | None =>
           o ← blk_insert h block_id;
           Ok (match o with
               | Some h1 => Some (with_blks h1 (blk_free h1) (blk_map h1) (blk_dlist h1 ++ [block_id]))
               | None => None
               end)
       end);
  match o with
  | None => Ok (h, 0)
  | Some h1 =>
      b ← deref (blk_map h1 !! block_id);
      let b1 := mk_blk (match x with Some x => x | None => hash_invalid end) (bhms b) (bhm_cnt b) in
      let h2 := with_blks h1 (blk_free h1) (<[block_id := b1]> (blk_map h1)) (blk_dlist h1) in
      c ← compare_all h2 block_id b1 (bhms b1) total_stake;
      Ok (h2, c)
  end.

(** ** Changing the voters ([fd_hfork_update_voters]) *)

(** First pass: unmark the voters that stay and move them to the tail. *)
Fixpoint keep_voters (accs : list fd_pubkey_t) (h : fd_hfork_t) : res fd_hfork_t :=
  match accs with
  | [] => Ok h
  | a :: accs' =>
      match vtr_map h !! a with
      | None => keep_voters accs' h
      | Some t =>
          l ← dlist_remove a (vtr_dlist h);
          keep_voters accs' (with_vtrs h (vtr_free h) (<[a := set_next t 0]> (vtr_map h)) (l ++ [a]))
      end
  end.

(** Remove and release every vote of a voter. *)
Fixpoint release_vtes (acc : fd_pubkey_t) (l : list fd_hash_t) (h : fd_hfork_t) : res fd_hfork_t :=
  match l with
  | [] => Ok h
  | b :: l' =>
      e ← deref (vte_map h !! (acc, b));
      let h1 := with_vtes h (vte_free h) (delete (acc, b) (vte_map h)) in
      h2 ← match bhm_map h1 !! (b, bank_hash e) with
           | Some m => bhm_sub h1 b (bank_hash e) m (vte_stake e)
           | None => Ok h1
           end;
      release_vtes acc l' (with_vtes h2 (vte_free h2 + 1) (vte_map h2))
  end.

(** Pop and release marked voters up to the first unmarked one. *)
Fixpoint release_voters (l : list fd_pubkey_t) (h : fd_hfork_t) : res fd_hfork_t :=
  match l with
  | [] => Ok (with_vtrs h (vtr_free h) (vtr_map h) [])
  | a :: l' =>
      t ← deref (vtr_map h !! a);
      if next t =? 0 then Ok (with_vtrs h (vtr_free h) (vtr_map h) (l' ++ [a]))
      else
        h1 ← release_vtes a (vtes t) h;
        release_voters l' (with_vtrs h1 (vtr_free h1 + 1) (delete a (vtr_map h1)) l')
  end.

(** Second pass: insert the new voters. *)
Fixpoint add_voters (accs : list fd_pubkey_t) (h : fd_hfork_t) : res fd_hfork_t :=
  match accs with
  | [] => Ok h
  | a :: accs' =>
      match vtr_map h !! a with
      | Some _ => add_voters accs' h
      | None =>
          n ← acquire (vtr_free h);
          add_voters accs' (with_vtrs h n (<[a := mk_vtr 0 [] 0]> (vtr_map h)) (vtr_dlist h ++ [a]))
      end
  end.

Definition fd_hfork_update_voters (h : fd_hfork_t) (vote_accs : list fd_pubkey_t) : res fd_hfork_t :=
  m ← mark_all set_next (vtr_dlist h) (vtr_map h);
  h1 ← keep_voters vote_accs (with_vtrs h (vtr_free h) m (vtr_dlist h));
  h2 ← release_voters (vtr_dlist h1) h1;
  add_voters vote_accs h2.
