(* ===== verification/HforkInv.v ===== *)
(** * Hard fork detection: stakes, bank hashes and blocks

    The invariant that ties the stake of every bank hash to the votes held for
    it, and its preservation when a vote is added or removed. *)

From S2P Require Import Prelude Bits Links Hfork.

#[local] Open Scope Z_scope.

(** ** Sums and sizes *)

Abbreviation vtes_t := (gmap (fd_pubkey_t * fd_hash_t) vte_t).

(** The stake of the votes held for a block and a bank hash. *)
Definition held (m : vtes_t) (b x : fd_hash_t) : Z :=
  sum_map (fun k v => if decide (k.2 = b /\ bank_hash v = x) then vte_stake v else 0) m.

Definition all_positive (m : vtes_t) : Prop := forall k v, m !! k = Some v -> 0 < vte_stake v.

Lemma held_insert m k v b x :
  m !! k = None -> held (<[k := v]> m) b x = (if decide (k.2 = b /\ bank_hash v = x) then vte_stake v else 0) + held m b x.
Proof. intros Hk. unfold held. by rewrite sum_map_insert. Qed.

Lemma held_delete m k v b x :
  m !! k = Some v -> held m b x = (if decide (k.2 = b /\ bank_hash v = x) then vte_stake v else 0) + held (delete k m) b x.
Proof. intros Hk. unfold held. by rewrite (sum_map_delete _ m k v Hk). Qed.

Lemma held_nonneg m b x : all_positive m -> 0 <= held m b x.
Proof. intros H. apply sum_map_nonneg. intros k v Hk. apply H in Hk. case_decide; lia. Qed.

Lemma all_positive_delete m k : all_positive m -> all_positive (delete k m).
Proof. intros H k' v [_ Hk]%lookup_delete_Some. eauto. Qed.

(** A vote counts, and counted stake comes from a vote. *)
Lemma held_ge m k v : all_positive m -> m !! k = Some v -> vte_stake v <= held m k.2 (bank_hash v).
Proof.
  intros H Hk. rewrite (held_delete m k v) by done. rewrite decide_True by done.
  pose proof (held_nonneg (delete k m) k.2 (bank_hash v) (all_positive_delete m k H)). lia.
Qed.

Lemma held_pos m b x : 0 < held m b x -> exists a v, m !! (a, b) = Some v /\ bank_hash v = x.
Proof.
  induction m as [|[a b'] v m Hk IH] using map_ind; [unfold held; rewrite sum_map_empty; lia|].
  rewrite held_insert by done. simpl. destruct (decide (b' = b /\ bank_hash v = x)) as [[-> <-]|].
  - intros _. exists a, v. by rewrite lookup_insert_eq.
  - intros (a' & v' & Hv' & <-)%IH. exists a', v'. rewrite lookup_insert_ne; [done|]. congruence.
Qed.

(** A map whose keys are images of the entries of another is not larger. *)
Lemma size_image_le `{Countable K, Countable K'} {A B} (f : K' -> B -> K) (m : gmap K A) (m' : gmap K' B) :
  (forall k, is_Some (m !! k) -> exists k' v, m' !! k' = Some v /\ f k' v = k) -> (size m <= size m')%nat.
Proof.
  intros Hf. rewrite <- (size_dom (D := gset K)).
  transitivity (size (list_to_set ((fun p => f p.1 p.2) <$> map_to_list m') : gset K)).
  - apply subseteq_size. intros k Hk%elem_of_dom. destruct (Hf k Hk) as (k' & v & Hv & <-).
    apply elem_of_list_to_set, list_elem_of_fmap. exists (k', v). split; [done|]. by apply elem_of_map_to_list.
  - etrans; [apply size_list_to_set_le|]. rewrite length_fmap, length_map_to_list. done.
Qed.

(** ** The invariant

    [skip] is a block that is being inserted: it is on no list yet. *)

Definition blk_wf (bm : gmap (fd_hash_t * fd_hash_t) bhm_t) (b : fd_hash_t) (k : blk_t) : Prop :=
  NoDup (bhms k) /\ bhm_cnt k = Z.of_nat (length (bhms k)) /\ forall x, x ∈ bhms k <-> is_Some (bm !! (b, x)).

Record core_wf (skip : option fd_hash_t) (h : fd_hfork_t) : Prop := {
  cw_max : 0 <= max h <= ULONG_MAX;
  cw_pos : all_positive (vte_map h);
  cw_fit b x : held (vte_map h) b x <= ULONG_MAX;
  cw_stake b x : from_option bhm_stake 0 (bhm_map h !! (b, x)) = held (vte_map h) b x;
  cw_live b x m : bhm_map h !! (b, x) = Some m -> 0 < bhm_stake m;
  cw_bfree : 0 <= bhm_free h /\ bhm_free h + Z.of_nat (size (bhm_map h)) = max h;
  cw_blk b k : blk_map h !! b = Some k -> blk_wf (bhm_map h) b k;
  cw_owner b x : is_Some (bhm_map h !! (b, x)) -> is_Some (blk_map h !! b);
  cw_nodup : NoDup (blk_dlist h);
  cw_dlist b : b ∈ blk_dlist h <-> skip <> Some b /\ exists k, blk_map h !! b = Some k /\ bhms k = [];
  cw_kfree : 0 <= blk_free h /\ blk_free h + Z.of_nat (size (blk_map h)) = max h
}.

(** Every bank hash known has a vote, and every vote has its bank hash. *)
Lemma bhm_of_vte sk h a b e : core_wf sk h -> vte_map h !! (a, b) = Some e ->
  exists m, bhm_map h !! (b, bank_hash e) = Some m /\ bhm_stake m = held (vte_map h) b (bank_hash e).
Proof.
  intros C He. pose proof (cw_stake _ _ C b (bank_hash e)) as Hs.
  pose proof (held_ge _ _ _ (cw_pos _ _ C) He). pose proof (cw_pos _ _ C _ _ He). simpl in *.
  destruct (bhm_map h !! (b, bank_hash e)) as [m|]; simpl in Hs; [by exists m|lia].
Qed.

Lemma bhm_le_vte sk h : core_wf sk h -> (size (bhm_map h) <= size (vte_map h))%nat.
Proof.
  intros C. apply (size_image_le (fun k v => (k.2, bank_hash v))). intros [b x] [m Hm].
  pose proof (cw_stake _ _ C b x) as Hs. rewrite Hm in Hs. simpl in Hs.
  destruct (held_pos (vte_map h) b x) as (a & v & Hv & <-); [rewrite <- Hs; by eapply cw_live|]. by exists (a, b), v.
Qed.

(** A block that cannot be evicted has a bank hash. *)
Lemma blk_le_bhm h : core_wf None h -> blk_dlist h = [] -> (size (blk_map h) <= size (bhm_map h))%nat.
Proof.
  intros C Hl. apply (size_image_le (fun k _ => k.1)). intros b [k Hk].
  destruct (bhms k) as [|x l] eqn:E.
  - assert (Hb : b ∈ blk_dlist h) by (apply (cw_dlist _ _ C); eauto). rewrite Hl in Hb. inversion Hb.
  - destruct (cw_blk _ _ C _ _ Hk) as (_ & _ & Hx). destruct (proj1 (Hx x)) as [m Hm]; [rewrite E; left|].
    by exists (b, x), m.
Qed.

(** ** Removing a vote *)

Lemma cnt_pred k : bhms k <> [] -> bhm_cnt k = Z.of_nat (length (bhms k)) -> bhm_cnt k <= ULONG_MAX ->
  u64 (bhm_cnt k - 1) = Z.of_nat (length (bhms k)) - 1.
Proof.
  intros Hne Hc Hu. rewrite Hc in *. destruct (bhms k); [done|]. simpl in *. apply u64_small. unfold is_u64. lia.
Qed.

Lemma blk_cnt_le sk h b k : core_wf sk h -> blk_map h !! b = Some k -> Z.of_nat (length (bhms k)) <= Z.of_nat (size (bhm_map h)).
Proof.
  intros C Hk. destruct (cw_blk _ _ C _ _ Hk) as (Hn & _ & Hl).
  rewrite <- (size_dom (D := gset (fd_hash_t * fd_hash_t))), <- (length_fmap (pair b)).
  rewrite <- (size_list_to_set (C := gset (fd_hash_t * fd_hash_t))) by (apply NoDup_fmap_2; [intros ? ?; congruence|done]).
  apply inj_le, subseteq_size. intros p (x & -> & Hx)%elem_of_list_to_set%list_elem_of_fmap. by apply elem_of_dom, Hl.
Qed.

(** The parts of the state the bank hash bookkeeping leaves alone. *)
Definition same_rest (h h' : fd_hfork_t) : Prop :=
  max h' = max h /\ per_vtr_max h' = per_vtr_max h /\ vtr_max h' = vtr_max h /\ vte_free h' = vte_free h /\
  vte_map h' = vte_map h /\ vtr_free h' = vtr_free h /\ vtr_map h' = vtr_map h /\ vtr_dlist h' = vtr_dlist h.

(** Blocks keep our bank hash. *)
Definition same_hashes (h h' : fd_hfork_t) (b : fd_hash_t) : Prop :=
  our_bank_hash <$> blk_map h' !! b = our_bank_hash <$> blk_map h !! b.

(** The state without the bank hash [x] of the block [b], whose other bank
    hashes are [l]; a block without bank hashes is gone too. *)
Lemma core_drop h b x k l vt n bm bf :
  core_wf None h -> blk_map h !! b = Some k -> is_Some (bhm_map h !! (b, x)) -> bhms k ≡ₚ x :: l ->
  all_positive vt -> (forall b' x', (b', x') <> (b, x) -> held vt b' x' = held (vte_map h) b' x') -> held vt b x = 0 ->
  bm !! b = (if decide (l = []) then None else Some (mk_blk (our_bank_hash k) l (Z.of_nat (length l)))) ->
  (forall b', b' <> b -> bm !! b' = blk_map h !! b') -> 0 <= bf /\ bf + Z.of_nat (size bm) = max h ->
  core_wf None (with_blks (with_vtes (with_bhms h (bhm_free h + 1) (delete (b, x) (bhm_map h))) n vt) bf bm (blk_dlist h)).
Proof.
  intros C Hk Hm Hpl Hp Hoth Hz Hb Hbs Hf. destruct (cw_blk _ _ C _ _ Hk) as (Hn & Hc & Hl).
  destruct (perm_cons_other _ _ _ Hn Hpl) as [Hnl Hll]. pose proof (cw_bfree _ _ C).
  assert (Hpos : forall b' x', held vt b' x' <= ULONG_MAX).
  { intros b' x'. destruct (decide ((b', x') = (b, x))) as [[= -> ->]|Hne]; [rewrite Hz; unfold ULONG_MAX; lia|].
    rewrite Hoth by done. apply C. }
  constructor; simpl; try apply C; try done.
  - intros b' x'. destruct (decide ((b', x') = (b, x))) as [[= -> ->]|Hne]; [by rewrite lookup_delete_eq|].
    rewrite lookup_delete_ne, Hoth by congruence. apply C.
  - intros b' x' m' [_ Hm']%lookup_delete_Some. by eapply cw_live.
  - destruct Hm as [m Hm]. rewrite (size_delete _ _ m) by done. lia.
  - intros b' k' Hk'. destruct (decide (b' = b)) as [->|Hne].
    + rewrite Hb in Hk'. case_decide; [done|]. injection Hk' as <-. split_and!; simpl; [done|done|].
      intros x'. rewrite Hll, Hl, lookup_delete_is_Some. naive_solver congruence.
    + rewrite Hbs in Hk' by done. destruct (cw_blk _ _ C _ _ Hk') as (Hn' & Hc' & Hl'). split_and!; [done|done|].
      intros x'. rewrite Hl', lookup_delete_ne by congruence. done.
  - intros b' x' [Hne Hx]%lookup_delete_is_Some. destruct (decide (b' = b)) as [->|Hne'].
    + rewrite Hb. case_decide as E; [|eauto]. subst l. exfalso.
      apply Hl in Hx. rewrite Hpl in Hx. apply list_elem_of_singleton in Hx. congruence.
    + rewrite Hbs by done. by eapply cw_owner.
  - intros b'. rewrite (cw_dlist _ _ C). destruct (decide (b' = b)) as [->|Hne']; [|by rewrite Hbs].
    rewrite Hk, Hb. split; intros (_ & k' & Hk' & E).
    + injection Hk' as <-. rewrite E in Hpl. by apply Permutation_nil_cons in Hpl.
    + case_decide; [done|]. injection Hk' as <-. done.
Qed.

(** [bhm_remove] on a bank hash whose votes are gone. *)
Lemma bhm_remove_wf h h1 b x k m vt n s :
  core_wf None h -> blk_map h !! b = Some k -> bhm_map h !! (b, x) = Some m ->
  all_positive vt -> (forall b' x', (b', x') <> (b, x) -> held vt b' x' = held (vte_map h) b' x') -> held vt b x = 0 ->
  h1 = with_bhms (with_vtes h n vt) (bhm_free h) (<[(b, x) := s]> (bhm_map h)) ->
  exists h2, bhm_remove h1 b x = Ok h2 /\ core_wf None h2 /\ same_rest h1 h2 /\
    forall b', b' <> b -> same_hashes h h2 b'.
Proof.
  intros C Hk Hm Hp Hoth Hz ->. unfold bhm_remove. simpl. rewrite Hk.
  destruct (cw_blk _ _ C _ _ Hk) as (Hn & Hc & Hl).
  destruct (dlist_remove_spec x (bhms k) Hn) as (l & El & Hpl); [apply Hl; eauto|].
  rewrite El. cbn [mbind res_bind]. rewrite delete_insert_eq.
  pose proof (blk_cnt_le _ _ _ _ C Hk). pose proof (cw_bfree _ _ C). pose proof (cw_max _ _ C). pose proof (cw_kfree _ _ C).
  assert (Hlen : length (bhms k) = S (length l)) by (by rewrite Hpl).
  assert (Hcnt : u64 (bhm_cnt k - 1) = Z.of_nat (length l)).
  { rewrite cnt_pred; [lia|intros E; by rewrite E in El|done|lia]. }
  rewrite Hcnt. destruct (Z.eqb_spec (Z.of_nat (length l)) 0) as [E|E]; simpl; eexists; (split; [done|]); (split; [|split; [done|]]).
  - destruct l; [|done]. eapply core_drop; try done.
    + simpl. by rewrite lookup_delete_eq.
    + intros b' Hne. by rewrite lookup_delete_ne.
    + rewrite (size_delete _ _ k) by done. lia.
  - intros b' Hne. unfold same_hashes. simpl. by rewrite lookup_delete_ne.
  - eapply core_drop; try done.
    + rewrite lookup_insert_eq, decide_False; [done|]. by intros ->.
    + intros b' Hne. by rewrite lookup_insert_ne.
    + rewrite map_size_insert_Some by eauto. lia.
  - intros b' Hne. unfold same_hashes. simpl. by rewrite lookup_insert_ne.
Qed.

(** Removing a vote: its stake leaves its bank hash, which leaves with it when
    no stake is left. *)
Lemma bhm_sub_wf h a b e n :
  core_wf None h -> vte_map h !! (a, b) = Some e ->
  let h1 := with_vtes h n (delete (a, b) (vte_map h)) in
  exists m h2, bhm_map h1 !! (b, bank_hash e) = Some m /\ bhm_sub h1 b (bank_hash e) m (vte_stake e) = Ok h2 /\
    core_wf None h2 /\ same_rest h1 h2 /\ forall b', b' <> b -> same_hashes h h2 b'.
Proof.
  intros C He h1. destruct (bhm_of_vte _ _ _ _ _ C He) as (m & Hm & Hs).
  pose proof (held_delete _ _ _ b (bank_hash e) He) as Hd. rewrite decide_True in Hd by done.
  pose proof (all_positive_delete _ (a, b) (cw_pos _ _ C)) as Hp.
  pose proof (held_nonneg _ b (bank_hash e) Hp) as Hge. pose proof (cw_fit _ _ C b (bank_hash e)).
  pose proof (cw_pos _ _ C _ _ He).
  assert (Hoth : forall b' x', (b', x') <> (b, bank_hash e) -> held (delete (a, b) (vte_map h)) b' x' = held (vte_map h) b' x').
  { intros b' x' Hne. rewrite (held_delete (vte_map h) (a, b) e b' x') by done.
    rewrite decide_False; [lia|]. simpl. intros [<- <-]. done. }
  assert (Hu : u64 (bhm_stake m - vte_stake e) = held (delete (a, b) (vte_map h)) b (bank_hash e))
    by (rewrite Hs, Hd, Z.add_simpl_l; apply u64_small; unfold is_u64; pose proof (cw_pos _ _ C _ _ He); lia).
  exists m. unfold bhm_sub. rewrite Hu. destruct (cw_owner _ _ C b (bank_hash e)) as [k Hk]; [eauto|].
  destruct (Z.eqb_spec (held (delete (a, b) (vte_map h)) b (bank_hash e)) 0) as [E|E].
  - edestruct (bhm_remove_wf h) as (h2 & E2 & C2 & R2 & S2); [exact C|exact Hk|exact Hm|exact Hp|exact Hoth|exact E|reflexivity|].
    exists h2. split; [done|]. split; [exact E2|]. split; [done|]. split; [|done]. exact R2.
  - eexists. split; [done|]. split; [done|]. split; [|split; [done|done]].
    assert (Hdom : forall p, is_Some (<[(b, bank_hash e) := mk_bhm (bhm_slot m) (held (delete (a, b) (vte_map h)) b (bank_hash e))]>
        (bhm_map h) !! p) <-> is_Some (bhm_map h !! p)).
    { intros p. rewrite lookup_insert_is_Some'. split; [|by right]. intros [<-|]; [eauto|done]. }
    constructor; simpl; try apply C; try done.
    + intros b' x'. destruct (decide ((b', x') = (b, bank_hash e))) as [[= -> ->]|Hne]; [lia|]. rewrite Hoth by done. apply C.
    + intros b' x'. destruct (decide ((b', x') = (b, bank_hash e))) as [[= -> ->]|Hne]; [by rewrite lookup_insert_eq|].
      rewrite lookup_insert_ne, Hoth by congruence. apply C.
    + intros b' x' m' [[[= <- <-] <-]|[_ Hm']]%lookup_insert_Some; [simpl; lia|]. by eapply cw_live.
    + rewrite map_size_insert_Some by eauto. apply C.
    + intros b' k' (Hn' & Hc' & Hl')%(cw_blk _ _ C). split_and!; [done|done|]. intros x'. by rewrite Hdom.
    + intros b' x' Hx%Hdom. by eapply cw_owner.
Qed.

(** ** Inserting a block *)

Lemma core_insert_blk h b : core_wf None h -> blk_map h !! b = None -> 0 < blk_free h ->
  core_wf (Some b) (with_blks h (blk_free h - 1) (<[b := mk_blk hash_null [] 0]> (blk_map h)) (blk_dlist h)).
Proof.
  intros C Hb Hf. pose proof (cw_kfree _ _ C).
  assert (Hno : forall x, bhm_map h !! (b, x) = None).
  { intros x. apply eq_None_not_Some. intros Hx%(cw_owner _ _ C). rewrite Hb in Hx. by destruct Hx. }
  constructor; simpl; try apply C; try done.
  - intros b' k [[<- <-]|[_ Hk]]%lookup_insert_Some; [|by apply C]. split_and!; [apply NoDup_nil_2|done|].
    intros x. rewrite Hno. split; [intros Hx; inversion Hx|by intros []].
  - intros b' x Hx%(cw_owner _ _ C). apply lookup_insert_is_Some'. by right.
  - intros b'. rewrite (cw_dlist _ _ C). split.
    + intros (_ & k & Hk & E). assert (b' <> b) by congruence. split; [congruence|]. exists k. by rewrite lookup_insert_ne.
    + intros (Hne & k & [[<- _]|[_ Hk]]%lookup_insert_Some & E); [done|]. by split; [|exists k].
  - rewrite map_size_insert_None by done. lia.
Qed.

(** Evicting the oldest block without bank hashes. *)
Lemma core_evict_blk h e l : core_wf None h -> blk_dlist h = e :: l ->
  is_Some (blk_map h !! e) /\ core_wf None (with_blks h (blk_free h + 1) (delete e (blk_map h)) l).
Proof.
  intros C El. pose proof (cw_kfree _ _ C). pose proof (cw_nodup _ _ C) as Hn. rewrite El in Hn. apply NoDup_cons in Hn as [He Hn].
  destruct (proj1 (cw_dlist _ _ C e)) as (_ & k & Hk & Ek); [rewrite El; left|]. split; [eauto|].
  destruct (cw_blk _ _ C _ _ Hk) as (_ & _ & Hx). rewrite Ek in Hx.
  constructor; simpl; try apply C; try done.
  - intros b' k' [_ Hk']%lookup_delete_Some. by apply C.
  - intros b' x Hb'. apply lookup_delete_is_Some. split; [|by eapply cw_owner]. intros <-. apply Hx in Hb'. inversion Hb'.
  - intros b'. pose proof (cw_dlist _ _ C b') as Hd. rewrite El, elem_of_cons in Hd. split.
    + intros Hb'. destruct (proj1 Hd (or_intror Hb')) as (? & k' & Hk' & Ek'). split; [done|]. exists k'. split; [|done].
      apply lookup_delete_Some. split; [|done]. by intros ->.
    + intros (_ & k' & [Hne Hk']%lookup_delete_Some & Ek'). destruct (proj2 Hd) as [->|]; [by eauto|done|done].
  - rewrite (size_delete _ _ k) by done. lia.
Qed.

(** [blk_insert] fails only when every block has votes and the pool is empty. *)
Lemma blk_insert_wf h b : core_wf None h -> blk_map h !! b = None -> 0 < max h ->
  exists o, blk_insert h b = Ok o /\
    match o with
    | None => blk_dlist h = [] /\ Z.of_nat (size (blk_map h)) = max h
    | Some h' => core_wf (Some b) h' /\ blk_map h' !! b = Some (mk_blk hash_null [] 0) /\ same_rest h h' /\
        bhm_map h' = bhm_map h
    end.
Proof.
  intros C Hb Hm. pose proof (cw_kfree _ _ C). unfold blk_insert. destruct (Z.eqb_spec (blk_free h) 0) as [E|E].
  - destruct (blk_dlist h) as [|e l] eqn:El; [exists None; split; [done|]; split; [done|lia]|].
    destruct (core_evict_blk h e l C El) as [[k Hk] C1]. rewrite Hk. cbn [mbind res_bind deref acquire]. simpl.
    unfold acquire. destruct (Z.leb_spec (blk_free h + 1) 0); [lia|]. simpl. eexists. split; [done|].
    split; [|split; [simpl; by rewrite lookup_insert_eq|done]].
    eapply (core_insert_blk _ b C1); simpl; [|lia]. rewrite lookup_delete_ne; [done|congruence].
  - unfold acquire. destruct (Z.leb_spec (blk_free h) 0); [lia|]. simpl. eexists. split; [done|].
    split; [|split; [simpl; by rewrite lookup_insert_eq|done]]. apply core_insert_blk; [done|done|lia].
Qed.

(** ** Adding a vote *)

Definition our_hash (h : fd_hfork_t) (b : fd_hash_t) : fd_hash_t := from_option our_bank_hash hash_null (blk_map h !! b).

(** With fewer votes than the capacity there is always a block for the vote. *)
Lemma upsert_blk_wf h b : core_wf None h -> Z.of_nat (size (vte_map h)) < max h ->
  exists h' k, upsert_blk h b = Ok h' /\ core_wf (Some b) h' /\ blk_map h' !! b = Some k /\
    our_bank_hash k = our_hash h b /\ same_rest h h' /\ bhm_map h' = bhm_map h.
Proof.
  intros C Hlt. unfold upsert_blk, our_hash. destruct (blk_map h !! b) as [k|] eqn:Hk; simpl.
  - destruct (cw_blk _ _ C _ _ Hk) as (Hn & Hc & Hx). destruct (Z.eqb_spec (bhm_cnt k) 0) as [E|E].
    + assert (Ek : bhms k = []) by (apply nil_length_inv; lia).
      destruct (dlist_remove_spec b (blk_dlist h)) as (l & El & Hp); [apply C|apply (cw_dlist _ _ C); eauto|].
      rewrite El. simpl. eexists _, k. split; [done|]. split; [|done].
      destruct (perm_cons_other _ _ _ (cw_nodup _ _ C) Hp) as [Hnl Hl].
      constructor; simpl; try apply C; try done. intros b'. rewrite Hl, (cw_dlist _ _ C). naive_solver congruence.
    + exists h, k. split; [done|]. split; [|done]. constructor; try apply C.
      intros b'. rewrite (cw_dlist _ _ C). split; [|naive_solver].
      intros (_ & k' & Hk' & Ek). split; [|by exists k']. intros [= <-]. assert (k' = k) as -> by congruence.
      rewrite Ek in Hc. done.
  - destruct (blk_insert_wf h b C Hk) as (o & -> & Ho); [lia|]. simpl. destruct o as [h'|]; simpl.
    + destruct Ho as (C' & Hb & R & Em). by exists h', (mk_blk hash_null [] 0).
    + destruct Ho as [El Es]. pose proof (blk_le_bhm h C El). pose proof (bhm_le_vte _ _ C). lia.
Qed.

(** The bank hash found or created, before the stake is added: its block lists
    it, with [l] the other bank hashes. *)
Lemma find_bhm h b x k slot :
  core_wf (Some b) h -> blk_map h !! b = Some k -> Z.of_nat (size (vte_map h)) < max h ->
  exists n l m, 
    (match bhm_map h !! (b, x) with
     | Some m => Ok (h, k, m)
     | None =>
         n ← acquire (bhm_free h);
         Ok (with_bhms h n (<[(b, x) := mk_bhm slot 0]> (bhm_map h)),
             mk_blk (our_bank_hash k) (bhms k ++ [x]) (u64 (bhm_cnt k + 1)), mk_bhm slot 0)
     end) = Ok (with_bhms h n (<[(b, x) := m]> (bhm_map h)), mk_blk (our_bank_hash k) l (Z.of_nat (length l)), m) /\
    bhm_stake m = held (vte_map h) b x /\ NoDup l /\ (forall y, y ∈ l <-> y = x \/ is_Some (bhm_map h !! (b, y))) /\
    0 <= n /\ n + Z.of_nat (size (<[(b, x) := m]> (bhm_map h))) = max h.
Proof.
  intros C Hk Hlt. destruct (cw_blk _ _ C _ _ Hk) as (Hn & Hc & Hx). pose proof (cw_stake _ _ C b x) as Hs.
  pose proof (cw_bfree _ _ C). pose proof (bhm_le_vte _ _ C). pose proof (cw_max _ _ C).
  pose proof (blk_cnt_le _ _ _ _ C Hk).
  destruct (bhm_map h !! (b, x)) as [m|] eqn:Hm; simpl in Hs.
  - exists (bhm_free h), (bhms k), m. split_and!; try done; try lia.
    + rewrite insert_id by done. rewrite <- Hc. by destruct h, k.
    + intros y. rewrite Hx. split; [by right|]. intros [->|]; [eauto|done].
    + rewrite map_size_insert_Some by eauto. lia.
  - exists (bhm_free h - 1), (bhms k ++ [x]), (mk_bhm slot 0). unfold acquire.
    destruct (Z.leb_spec (bhm_free h) 0); [lia|]. split_and!; try done; try lia.
    + simpl. rewrite length_app, Hc, u64_small by (unfold is_u64; lia). simpl. do 4 f_equal. lia.
    + apply NoDup_snoc; [done|]. rewrite Hx, Hm. by intros [].
    + intros y. rewrite elem_of_app, list_elem_of_singleton, Hx. tauto.
    + rewrite map_size_insert_None by done. lia.
Qed.

Lemma upsert_bhm_wf h a b x k slot stake n :
  core_wf (Some b) h -> blk_map h !! b = Some k -> Z.of_nat (size (vte_map h)) < max h ->
  0 < stake -> held (vte_map h) b x + stake <= ULONG_MAX -> vte_map h !! (a, b) = None ->
  exists h3 k3 m3, upsert_bhm h b x slot stake = Ok (h3, k3, m3) /\
    core_wf None (with_vtes h3 n (<[(a, b) := mk_vte x slot stake]> (vte_map h))) /\ same_rest h h3 /\
    our_bank_hash k3 = our_bank_hash k /\ blk_map h3 !! b = Some k3 /\ bhm_stake m3 = held (vte_map h) b x + stake.
Proof.
  intros C Hk Hlt Hst Hfit Hnone. unfold upsert_bhm. rewrite Hk. cbn [deref mbind res_bind].
  destruct (find_bhm h b x k slot C Hk Hlt) as (nb & l & m & E & Hm & Hn & Hl & Hnb & Hsz).
  rewrite E. cbn [mbind res_bind]. simpl.
  destruct (dlist_remove_spec x l Hn) as (l' & El & Hp); [apply Hl; by left|]. rewrite El. simpl.
  rewrite insert_insert_eq. pose proof (held_nonneg _ b x (cw_pos _ _ C)).
  assert (Hu : u64 (bhm_stake m + stake) = held (vte_map h) b x + stake) by (rewrite Hm; apply u64_small; unfold is_u64; lia).
  rewrite Hu. eexists _, _, _. split; [done|]. split; [|split; [done|split; [done|split; [simpl; by rewrite lookup_insert_eq|done]]]].
  assert (Hpl : l' ++ [x] ≡ₚ l) by (rewrite Hp; symmetry; apply Permutation_cons_append).
  assert (Hheld : forall b' x', held (<[(a, b) := mk_vte x slot stake]> (vte_map h)) b' x' =
      if decide ((b', x') = (b, x)) then held (vte_map h) b x + stake else held (vte_map h) b' x').
  { intros b' x'. rewrite held_insert by done. simpl. destruct (decide ((b', x') = (b, x))) as [[= -> ->]|Hne].
    - rewrite decide_True by done. lia.
    - rewrite decide_False; [done|]. intros [<- <-]. done. }
  constructor; simpl; try apply C.
  - intros p v [[<- <-]|[_ Hv]]%lookup_insert_Some; [done|]. by eapply (cw_pos _ _ C).
  - intros b' x'. rewrite Hheld. case_decide; [lia|]. apply C.
  - intros b' x'. rewrite Hheld. case_decide as Ec; [injection Ec as -> ->; by rewrite lookup_insert_eq|].
    rewrite lookup_insert_ne by congruence. apply C.
  - intros b' x' m' [[[= <- <-] <-]|[_ Hm']]%lookup_insert_Some; [simpl; lia|]. by eapply cw_live.
  - split; [done|]. rewrite <- Hsz, !map_size_insert. done.
  - intros b' k' [[<- <-]|[Hne Hk']]%lookup_insert_Some.
    + split_and!; simpl; [by rewrite Hpl|by rewrite Hpl|]. intros y. rewrite Hpl, Hl, lookup_insert_is_Some'. naive_solver congruence.
    + destruct (cw_blk _ _ C _ _ Hk') as (Hn' & Hc' & Hx'). split_and!; [done|done|]. intros y.
      rewrite Hx', lookup_insert_ne by congruence. done.
  - intros b' y [[= <- <-]|Hy]%lookup_insert_is_Some'; apply lookup_insert_is_Some'; [by left|right; by eapply cw_owner].
  - intros b'. rewrite (cw_dlist _ _ C). split.
    + intros (Hne & k' & Hk' & Ek). split; [done|]. exists k'. rewrite lookup_insert_ne by congruence. done.
    + intros (_ & k' & [[<- <-]|[Hne Hk']]%lookup_insert_Some & Ek); [by destruct l'|]. split; [congruence|by exists k'].
  - rewrite map_size_insert_Some by eauto. apply C.
Qed.

(** * Hard fork detection: counting votes

    The voters and the votes they hold, the capacity argument, and the
    correctness of [fd_hfork_count_vote] and [fd_hfork_record_our_bank_hash]. *)

(** ** Voters *)

(** The votes a voter holds: listed once, within the quota, oldest first. *)
Definition vtr_wf (quota : Z) (vm : vtes_t) (a : fd_pubkey_t) (t : vtr_t) : Prop :=
  NoDup (vtes t) /\ vte_cnt t = Z.of_nat (length (vtes t)) /\ vte_cnt t <= quota /\
  (forall b, b ∈ vtes t <-> is_Some (vm !! (a, b))) /\
  StronglySorted (fun b b' => forall e e', vm !! (a, b) = Some e -> vm !! (a, b') = Some e' -> vte_slot e < vte_slot e') (vtes t).

Record voters_wf (h : fd_hfork_t) : Prop := {
  vo_nodup : NoDup (vtr_dlist h);
  vo_list a : a ∈ vtr_dlist h <-> is_Some (vtr_map h !! a);
  vo_free : 0 <= vtr_free h /\ vtr_free h + Z.of_nat (size (vtr_map h)) = vtr_max h;
  vo_vtes a t : vtr_map h !! a = Some t -> vtr_wf (per_vtr_max h) (vte_map h) a t;
  vo_owner a b : is_Some (vte_map h !! (a, b)) -> is_Some (vtr_map h !! a)
}.

Record hfork_wf (h : fd_hfork_t) : Prop := {
  hw_core : core_wf None h;
  hw_voters : voters_wf h;
  hw_vfree : vte_free h + Z.of_nat (size (vte_map h)) = max h;
  hw_cap : 0 < per_vtr_max h /\ per_vtr_max h * vtr_max h <= max h
}.

(** ** Capacity *)

(** A voter below its quota leaves room for its vote. *)
Lemma room_below_quota h a t : hfork_wf h -> vtr_map h !! a = Some t -> vte_cnt t < per_vtr_max h ->
  Z.of_nat (size (vte_map h)) < max h.
Proof.
  intros [C V _ [Hq Hcap]] Ht Hlt. pose proof (vo_free _ V) as [Hf0 Hf]. destruct (vo_vtes _ V _ _ Ht) as (_ & Ec & _).
  eapply Z.lt_le_trans; [|exact Hcap]. apply (owned_room vtes pair (vtr_map h) (vte_map h) _ _ a t); try done; [| |lia|lia].
  - intros [a' b] Hab. destruct (vo_owner _ V _ _ Hab) as [t' Ht']. destruct (vo_vtes _ V _ _ Ht') as (_ & _ & _ & Hl & _).
    exists a', t', b. split_and!; [done|by apply Hl|done].
  - intros a' t' Ht'. destruct (vo_vtes _ V _ _ Ht') as (_ & Ec' & Hc & _). lia.
Qed.

(** ** Frames *)

Lemma same_rest_trans h1 h2 h3 : same_rest h1 h2 -> same_rest h2 h3 -> same_rest h1 h3.
Proof. unfold same_rest. intuition congruence. Qed.

Lemma voters_wf_frame h h' : same_rest h h' -> voters_wf h -> voters_wf h'.
Proof.
  intros (E1 & E2 & E3 & E4 & E5 & E6 & E7 & E8) [Hn Hl Hf Hv Ho].
  constructor; rewrite ?E1, ?E2, ?E3, ?E5, ?E6, ?E7, ?E8; done.
Qed.

(** The votes of one voter do not depend on those of the others. *)
Lemma vtr_wf_ext q vm vm' a t : (forall b, vm !! (a, b) = vm' !! (a, b)) -> vtr_wf q vm a t -> vtr_wf q vm' a t.
Proof.
  intros E (Hn & Hc & Hq & Hl & Hs). split_and!; [done|done|done| |].
  - intros b. by rewrite <- E.
  - eapply sorted_weaken; [|exact Hs]. simpl. intros b b' _ _. by rewrite <- !E.
Qed.

(** ** Evicting the oldest vote *)

Lemma vtr_wf_tail q vm a t b l n :
  vtes t = b :: l -> vtr_wf q vm a t -> vtr_wf q (delete (a, b) vm) a (mk_vtr n l (vte_cnt t - 1)).
Proof.
  intros E (Hn & Hc & Hq & Hl & Hs). rewrite E in *. apply NoDup_cons in Hn as [Hb Hn]. apply StronglySorted_inv in Hs as [Hs _].
  split_and!; simpl in *; [done|lia|lia| |].
  - intros b'. rewrite lookup_delete_is_Some, <- Hl, elem_of_cons. split; [|naive_solver].
    intros Hb'. split; [|by right]. intros [= <-]. done.
  - eapply sorted_weaken; [|exact Hs]. simpl. intros x y Hx Hy HR e e' [_ He]%lookup_delete_Some [_ He']%lookup_delete_Some. eauto.
Qed.

(** The state after the votes of voter [a] have changed to those of [t]. *)
Lemma voters_wf_update h a t vm n :
  voters_wf h -> is_Some (vtr_map h !! a) -> vtr_wf (per_vtr_max h) vm a t ->
  (forall a' b, a' <> a -> vm !! (a', b) = vte_map h !! (a', b)) ->
  voters_wf (with_vtrs (with_vtes h n vm) (vtr_free h) (<[a := t]> (vtr_map h)) (vtr_dlist h)).
Proof.
  intros [Hn Hl Hf Hv Ho] Ha Ht Hoth. constructor; simpl; [done| | | |].
  - intros x. rewrite Hl, lookup_insert_is_Some'. split; [by right|]. by intros [<-|].
  - by rewrite map_size_insert_Some.
  - intros x t' [[<- <-]|[Hne Ht']]%lookup_insert_Some; [done|]. eapply vtr_wf_ext; [|by apply Hv].
    intros b. symmetry. by apply Hoth.
  - intros x b Hx. apply lookup_insert_is_Some'. destruct (decide (x = a)) as [->|Hne]; [by left|right].
    rewrite Hoth in Hx by done. by eapply Ho.
Qed.

(** The votes held after the eviction. *)
Definition evicted (h : fd_hfork_t) (a : fd_pubkey_t) (t : vtr_t) : vtes_t :=
  if decide (vte_cnt t = per_vtr_max h) then
    match vtes t with [] => vte_map h | b :: _ => delete (a, b) (vte_map h) end
  else vte_map h.

Lemma evict_wf h a t : hfork_wf h -> vtr_map h !! a = Some t ->
  exists h1 t1, evict h a t = Ok (h1, t1) /\ hfork_wf h1 /\ vtr_map h1 !! a = Some t1 /\ vte_cnt t1 < per_vtr_max h1 /\
    vte_map h1 = evicted h a t /\
    (forall a', a' <> a -> vtr_map h1 !! a' = vtr_map h !! a') /\
    (forall b, vte_map h !! (a, b) = None -> same_hashes h h1 b) /\
    (forall b, b ∈ vtes t1 -> b ∈ vtes t) /\ vtr_dlist h1 = vtr_dlist h /\ max h1 = max h /\ per_vtr_max h1 = per_vtr_max h /\ vtr_max h1 = vtr_max h.
Proof.
  intros W Ht. pose proof W as [C V Hvf [Hq Hcap]]. destruct (vo_vtes _ V _ _ Ht) as (Hn & Hc & Hle & Hl & Hs).
  unfold evict, evicted. destruct (Z.eqb_spec (vte_cnt t) (per_vtr_max h)) as [E|E].
  2:{ rewrite decide_False by done. exists h, t. split_and!; try done; lia. }
  rewrite decide_True by done. destruct (vtes t) as [|b l] eqn:El; [simpl in Hc; lia|].
  destruct (proj1 (Hl b)) as [e He]; [left|]. rewrite He. cbn [deref mbind res_bind].
  destruct (bhm_sub_wf h a b e (vte_free h + 1) C He) as (m & h2 & Hm & E2 & C2 & R2 & S2). cbv zeta in *.
  rewrite Hm. cbn [deref mbind res_bind]. rewrite E2. cbn [mbind res_bind].
  pose proof R2 as (Q1 & Q2 & Q3 & Q4 & Q5 & Q6 & Q7 & Q8). simpl in *.
  pose proof (cw_max _ _ C) as [_ Hmax]. pose proof (size_pos _ _ _ He).
  assert (Hu : u64 (vte_cnt t - 1) = vte_cnt t - 1).
  { apply u64_small. unfold is_u64. pose proof (vo_free _ V). pose proof (size_pos _ _ _ Ht). split; [lia|nia]. }
  eexists _, _. split; [done|]. simpl. rewrite Hu.
  assert (V2 : voters_wf (with_vtrs h2 (vtr_free h2) (<[a := mk_vtr (next t) l (vte_cnt t - 1)]> (vtr_map h2)) (vtr_dlist h2))).
  { eapply (voters_wf_frame (with_vtrs (with_vtes h (vte_free h + 1) (delete (a, b) (vte_map h))) (vtr_free h)
      (<[a := mk_vtr (next t) l (vte_cnt t - 1)]> (vtr_map h)) (vtr_dlist h))).
    - unfold same_rest. simpl. rewrite Q6, Q7, Q8. done.
    - apply voters_wf_update; [done|eauto|by apply (vtr_wf_tail _ _ _ t b l); [done|apply V]|].
      intros a' b' Hne. rewrite lookup_delete_ne; [done|congruence]. }
  split_and!; simpl; try done; try lia.
  - constructor; simpl; [|done| |rewrite Q1, Q2, Q3; done].
    + destruct C2. constructor; done.
    + rewrite Q4, Q5, Q1, (size_delete _ _ e) by done. lia.
  - by rewrite lookup_insert_eq.
  - intros a' Hne. by rewrite lookup_insert_ne, Q7.
  - intros b' Hb'. apply S2. intros ->. congruence.
  - intros b' Hb'. by right.
Qed.

(** ** Counting a vote *)

(** The newest vote of a voter is at the end of its list. *)
Lemma too_old_spec h a t slot : hfork_wf h -> vtr_map h !! a = Some t ->
  exists o, too_old h a t slot = Ok o /\
    if (o : bool) then exists b e, vte_map h !! (a, b) = Some e /\ slot <= vte_slot e
    else forall b e, vte_map h !! (a, b) = Some e -> vte_slot e < slot.
Proof.
  intros [C V _ _] Ht. destruct (vo_vtes _ V _ _ Ht) as (Hn & Hc & _ & Hl & Hs). unfold too_old.
  destruct (Z.eqb_spec (vte_cnt t) 0) as [E|E].
  - exists false. split; [done|]. intros b e He. destruct (vtes t); [|simpl in Hc; lia].
    pose proof (proj2 (Hl b) ltac:(eauto)) as Hb. inversion Hb.
  - destruct (last (vtes t)) as [b|] eqn:El; [|apply last_None in El; rewrite El in Hc; done].
    apply last_Some in El as [l El]. rewrite El in *. cbn [deref mbind res_bind].
    destruct (proj1 (Hl b)) as [e He]; [apply elem_of_app; right; left|]. rewrite He. cbn [deref mbind res_bind].
    eexists. split; [done|]. destruct (Z.leb_spec slot (vte_slot e)); [by exists b, e|].
    intros b' e' He'. pose proof (proj2 (Hl b') ltac:(eauto)) as [Hb'|Hb']%elem_of_app.
    + assert (vte_slot e' < vte_slot e); [|lia].
      pose proof (StronglySorted_app_1_elem_of _ _ _ b' b Hs Hb' ltac:(left)) as HR. by apply HR.
    + apply list_elem_of_singleton in Hb' as ->. assert (e' = e) as -> by congruence. done.
Qed.

Lemma vtr_wf_snoc q vm a t b x slot st n :
  vtr_wf q vm a t -> vm !! (a, b) = None -> vte_cnt t < q -> (forall b' e, vm !! (a, b') = Some e -> vte_slot e < slot) ->
  vtr_wf q (<[(a, b) := mk_vte x slot st]> vm) a (mk_vtr n (vtes t ++ [b]) (vte_cnt t + 1)).
Proof.
  intros (Hn & Hc & Hq & Hl & Hs) Hb Hlt Hold.
  assert (Hnb : b ∉ vtes t) by (rewrite Hl, Hb; by intros []). split_and!; simpl.
  - by apply NoDup_snoc.
  - rewrite length_app. simpl. lia.
  - lia.
  - intros b'. rewrite elem_of_app, list_elem_of_singleton, Hl, lookup_insert_is_Some'. naive_solver congruence.
  - apply sorted_snoc.
    + eapply sorted_weaken; [|exact Hs]. simpl. intros y y' Hy Hy'. rewrite !lookup_insert_ne by congruence. done.
    + apply Forall_forall. intros y Hy e e'. rewrite lookup_insert_eq, lookup_insert_ne by congruence.
      intros He [= <-]. by eapply Hold.
Qed.

Lemma core_wf_vtrs sk h n m l : core_wf sk h -> core_wf sk (with_vtrs h n m l).
Proof. intros []. constructor; done. Qed.

(** Eviction does not touch the votes for the block voted for. *)
Lemma evicted_sub h a t k e : evicted h a t !! k = Some e -> vte_map h !! k = Some e.
Proof.
  unfold evicted. case_decide; [|done]. destruct (vtes t); [done|]. by intros [_ ?]%lookup_delete_Some.
Qed.

Lemma evicted_held h a t b x : hfork_wf h -> vtr_map h !! a = Some t -> vte_map h !! (a, b) = None ->
  held (evicted h a t) b x = held (vte_map h) b x.
Proof.
  intros W Ht Hb. unfold evicted. case_decide; [|done]. destruct (vtes t) as [|b0 l] eqn:El; [done|].
  destruct (vo_vtes _ (hw_voters _ W) _ _ Ht) as (_ & _ & _ & Hl & _).
  destruct (proj1 (Hl b0)) as [e He]; [rewrite El; left|].
  rewrite (held_delete (vte_map h) (a, b0) e b x) by done. rewrite decide_False; [done|]. simpl. intros [-> _]. congruence.
Qed.

(** The outcome of comparing a bank hash and its stake with our bank hash. *)
Definition verdict (ours x : fd_hash_t) (stake total : Z) : Z :=
  if ours =? hash_null then 0
  else if pct_below stake total then 0
  else if negb (ours =? x) then FD_HFORK_ERR_MISMATCHED else FD_HFORK_SUCCESS_MATCHED.

Lemma push_vte_wf h3 a t b x slot st :
  core_wf None (with_vtes h3 (vte_free h3 - 1) (<[(a, b) := mk_vte x slot st]> (vte_map h3))) ->
  voters_wf h3 -> 0 < per_vtr_max h3 /\ per_vtr_max h3 * vtr_max h3 <= max h3 ->
  vte_free h3 + Z.of_nat (size (vte_map h3)) = max h3 -> Z.of_nat (size (vte_map h3)) < max h3 ->
  vtr_map h3 !! a = Some t -> vte_map h3 !! (a, b) = None -> vte_cnt t < per_vtr_max h3 ->
  (forall b' e, vte_map h3 !! (a, b') = Some e -> vte_slot e < slot) ->
  exists h4, push_vte h3 a t b x slot st = Ok h4 /\ hfork_wf h4 /\
    vte_map h4 = <[(a, b) := mk_vte x slot st]> (vte_map h3) /\ blk_map h4 = blk_map h3.
Proof.
  intros C V Hcap Hf Hlt Ht Hb Hq Hold. unfold push_vte, acquire. destruct (Z.leb_spec (vte_free h3) 0); [lia|].
  cbn [mbind res_bind]. pose proof (vo_vtes _ V _ _ Ht) as Hw. pose proof Hw as (_ & Hc & _).
  pose proof (cw_max _ _ C) as Hm. simpl in Hm. pose proof (vo_free _ V). pose proof (size_pos _ _ _ Ht).
  assert (Hu : u64 (vte_cnt t + 1) = vte_cnt t + 1) by (apply u64_small; unfold is_u64; split; [lia|nia]).
  eexists. split; [done|]. rewrite Hu. split; [|done]. constructor; simpl; [| | |done].
  - exact (core_wf_vtrs _ _ _ _ _ C).
  - apply (voters_wf_update h3 a _ (<[(a, b) := mk_vte x slot st]> (vte_map h3)) (vte_free h3 - 1)); [done|eauto|by apply vtr_wf_snoc|].
    intros a' b' Hne. rewrite lookup_insert_ne; [done|congruence].
  - rewrite map_size_insert_None by done. lia.
Qed.

(** A counted vote, from the eviction to the verdict. *)
Lemma count_new_vote h a t b x slot st total :
  hfork_wf h -> vtr_map h !! a = Some t -> vte_map h !! (a, b) = None ->
  (forall b' e, vte_map h !! (a, b') = Some e -> vte_slot e < slot) ->
  0 < st -> held (vte_map h) b x + st <= ULONG_MAX ->
  exists h', ('(h1, t1) ← evict h a t;
     h2 ← upsert_blk h1 b;
     '(h3, k, m) ← upsert_bhm h2 b x slot st;
     h4 ← push_vte h3 a t1 b x slot st;
     Ok (h4, compare k x m total)) = Ok (h', verdict (our_hash h b) x (held (vte_map h') b x) total) /\
    hfork_wf h' /\ vte_map h' = <[(a, b) := mk_vte x slot st]> (evicted h a t) /\ our_hash h' b = our_hash h b.
Proof.
  intros W Ht Hb Hold Hst Hfit.
  destruct (evict_wf h a t W Ht) as (h1 & t1 & -> & W1 & Ht1 & Hq1 & Ev & _ & Hh & _). cbn [mbind res_bind].
  pose proof (room_below_quota h1 a t1 W1 Ht1 Hq1) as Hroom. pose proof W1 as [C1 V1 Hf1 Hcap1].
  assert (Hb1 : vte_map h1 !! (a, b) = None)
    by (rewrite Ev; apply eq_None_not_Some; intros [e He]; apply evicted_sub in He; congruence).
  destruct (upsert_blk_wf h1 b C1 Hroom) as (h2 & k & -> & C2 & Hk & Ek & R2 & Em). cbn [mbind res_bind].
  pose proof R2 as (Q1 & Q2 & Q3 & Q4 & Q5 & Q6 & Q7 & Q8).
  assert (Hheld : held (vte_map h2) b x = held (vte_map h) b x) by (rewrite Q5, Ev; by apply evicted_held).
  destruct (upsert_bhm_wf h2 a b x k slot st (vte_free h2 - 1) C2 Hk) as (h3 & k3 & m3 & -> & C3 & R3 & Ek3 & Hk3 & Em3);
    [by rewrite Q5, Q1|done|by rewrite Hheld|by rewrite Q5|]. cbn [mbind res_bind].
  pose proof (same_rest_trans _ _ _ R2 R3) as R. pose proof R as (P1 & P2 & P3 & P4 & P5 & P6 & P7 & P8).
  destruct (push_vte_wf h3 a t1 b x slot st) as (h4 & -> & W4 & Ev4 & Eb4).
  - destruct R3 as (_ & _ & _ & S4 & S5 & _). by rewrite S4, S5.
  - by apply (voters_wf_frame _ _ R).
  - rewrite P1, P2, P3. done.
  - rewrite P1, P4, P5. done.
  - by rewrite P1, P5.
  - by rewrite P7.
  - by rewrite P5.
  - by rewrite P2.
  - intros b' e. rewrite P5, Ev. intros He%evicted_sub. by eapply Hold.
  - cbn [mbind res_bind]. exists h4. assert (Hours : our_bank_hash k3 = our_hash h b).
    { rewrite Ek3, Ek. specialize (Hh b Hb). unfold same_hashes in Hh. unfold our_hash.
      destruct (blk_map h1 !! b), (blk_map h !! b); simplify_eq/=; done. }
    assert (Hh4 : held (vte_map h4) b x = bhm_stake m3).
    { rewrite Ev4, held_insert by (by rewrite P5). simpl. rewrite decide_True by done. rewrite Em3, P5, Q5. lia. }
    split_and!; [|done|by rewrite Ev4, P5, Ev|unfold our_hash; by rewrite Eb4, Hk3].
    rewrite Hh4, <- Hours. done.
Qed.

(** ** Our own bank hash *)

Lemma compare_all_spec h b k total l : (forall x, x ∈ l -> is_Some (bhm_map h !! (b, x))) ->
  exists c, compare_all h b k l total = Ok c /\
    ((c = 0 /\ forall x m, x ∈ l -> bhm_map h !! (b, x) = Some m -> compare k x m total = 0) \/
     (c <> 0 /\ exists x m, x ∈ l /\ bhm_map h !! (b, x) = Some m /\ compare k x m total = c)).
Proof.
  induction l as [|x l IH]; intros Hl; cbn [compare_all].
  { exists 0. split; [done|]. left. split; [done|]. intros x m Hx; inversion Hx. }
  destruct (Hl x ltac:(left)) as [m Hm]. rewrite Hm. cbn [deref mbind res_bind].
  destruct (Z.eqb_spec (compare k x m total) 0) as [E|E].
  - destruct IH as (c & -> & Hc); [intros y Hy; apply Hl; by right|]. exists c. split; [done|].
    destruct Hc as [[-> Hc]|(Hne & y & m' & Hy & Hm' & Ec)]; [left|right].
    + split; [done|]. intros y m' [->|Hy]%elem_of_cons Hm'; [congruence|by eapply Hc].
    + split; [done|]. exists y, m'. split_and!; [by right|done|done].
  - eexists. split; [done|]. right. split; [done|]. exists x, m. split_and!; [left|done|done].
Qed.

(** The state with our bank hash of a block recorded. *)
Lemma core_set_hash sk h b k x : core_wf sk h -> blk_map h !! b = Some k ->
  core_wf sk (with_blks h (blk_free h) (<[b := mk_blk x (bhms k) (bhm_cnt k)]> (blk_map h)) (blk_dlist h)).
Proof.
  intros C Hk. assert (Hd : forall b' k', <[b := mk_blk x (bhms k) (bhm_cnt k)]> (blk_map h) !! b' = Some k' ->
      exists k0, blk_map h !! b' = Some k0 /\ bhms k' = bhms k0 /\ bhm_cnt k' = bhm_cnt k0).
  { intros b' k' [[<- <-]|[_ Hk']]%lookup_insert_Some; [by exists k|by exists k']. }
  constructor; simpl; try apply C.
  - intros b' k' (k0 & Hk0 & E1 & E2)%Hd. unfold blk_wf. rewrite E1, E2. by apply C.
  - intros b' y Hy%(cw_owner _ _ C). apply lookup_insert_is_Some'. by right.
  - intros b'. rewrite (cw_dlist _ _ C). split; intros (Hs & k' & Hk' & E); (split; [done|]).
    + destruct (decide (b' = b)) as [->|]; [|exists k'; by rewrite lookup_insert_ne].
      assert (k' = k) as -> by congruence. eexists. by rewrite lookup_insert_eq.
    + apply Hd in Hk' as (k0 & Hk0 & E1 & _). exists k0. split; [done|congruence].
  - rewrite map_size_insert_Some by eauto. apply C.
Qed.

(** A block inserted for our own bank hash waits on the list of evictable blocks. *)
Lemma core_enlist h b k : core_wf (Some b) h -> blk_map h !! b = Some k -> bhms k = [] ->
  core_wf None (with_blks h (blk_free h) (blk_map h) (blk_dlist h ++ [b])).
Proof.
  intros C Hk E. constructor; simpl; try apply C.
  - apply NoDup_snoc; [apply C|]. rewrite (cw_dlist _ _ C). by intros [? _].
  - intros b'. rewrite elem_of_app, list_elem_of_singleton, (cw_dlist _ _ C). split.
    + intros [(_ & ?)| ->]; [by split|]. split; [done|by exists k].
    + intros (_ & Hx). destruct (decide (b' = b)) as [->|]; [by right|left]. split; [congruence|done].
Qed.
