(* ===== verification/HforkRun.v ===== *)
(** * Hard fork detection: changing the voters, and the theorems *)

From S2P Require Import Prelude Bits Links Hfork HforkInv.

#[local] Open Scope Z_scope.

(** ** Keeping *)

Abbreviation kept := (Links.kept next).
Abbreviation kept_last := (Links.kept_last next).
Abbreviation vtrs_t := (gmap fd_pubkey_t vtr_t).

(** The same voters with the same votes; marks may differ. *)
Definition same_votes (m m' : vtrs_t) : Prop :=
  forall a, (fun t => (vtes t, vte_cnt t)) <$> m !! a = (fun t => (vtes t, vte_cnt t)) <$> m' !! a.

Lemma same_votes_lookup m m' a t : same_votes m m' -> m' !! a = Some t ->
  exists t', m !! a = Some t' /\ vtes t' = vtes t /\ vte_cnt t' = vte_cnt t.
Proof. intros H Ht. specialize (H a). rewrite Ht in H. destruct (m !! a) as [t'|]; simplify_eq/=. eauto. Qed.

Lemma same_votes_is_Some m m' a : same_votes m m' -> is_Some (m !! a) <-> is_Some (m' !! a).
Proof.
  intros H. specialize (H a). destruct (m !! a), (m' !! a); simplify_eq/=; split; intros []; eauto; done.
Qed.

Lemma same_votes_insert m a t n : m !! a = Some t -> same_votes m (<[a := set_next t n]> m).
Proof.
  intros Ht x. destruct (decide (x = a)) as [->|]; [by rewrite lookup_insert_eq, Ht|by rewrite lookup_insert_ne].
Qed.

Lemma voters_wf_marks h m l : same_votes (vtr_map h) m -> vtr_dlist h ≡ₚ l -> voters_wf h ->
  voters_wf (with_vtrs h (vtr_free h) m l).
Proof.
  intros Hs Hp [Hn Hl Hf Hv Ho]. constructor; simpl.
  - by rewrite <- Hp.
  - intros a. rewrite <- Hp, Hl. by apply same_votes_is_Some.
  - assert (dom (vtr_map h) = dom m) as Hd
      by (apply set_eq; intros a; rewrite !elem_of_dom; by apply same_votes_is_Some).
    rewrite <- (size_dom m), <- Hd, size_dom. done.
  - intros a t Ht. destruct (same_votes_lookup _ _ _ _ Hs Ht) as (t' & Ht' & E1 & E2). unfold vtr_wf.
    rewrite <- E1, <- E2. by apply Hv.
  - intros a b Hab%Ho. by apply (same_votes_is_Some _ _ _ Hs).
Qed.

Lemma hfork_wf_marks h m l : same_votes (vtr_map h) m -> vtr_dlist h ≡ₚ l -> hfork_wf h ->
  hfork_wf (with_vtrs h (vtr_free h) m l).
Proof. intros Hs Hp [C V Hf Hc]. constructor; simpl; [by apply core_wf_vtrs|by apply voters_wf_marks|done|done]. Qed.

Lemma hfork_keep_voters accs : forall h,
  hfork_wf h -> kept_last (vtr_map h) (vtr_dlist h) ->
  exists m l, keep_voters accs h = Ok (with_vtrs h (vtr_free h) m l) /\
    hfork_wf (with_vtrs h (vtr_free h) m l) /\ kept_last m l /\ same_votes (vtr_map h) m /\
    forall a, kept m a <-> kept (vtr_map h) a \/ (a ∈ accs /\ is_Some (vtr_map h !! a)).
Proof.
  induction accs as [|a accs IH]; intros h W L; cbn [keep_voters].
  { exists (vtr_map h), (vtr_dlist h). split; [by destruct h|]. split_and!; [|done|done|].
    - by apply hfork_wf_marks.
    - intros a. split; [by left|]. intros [?|[Hx _]]; [done|inversion Hx]. }
  destruct (vtr_map h !! a) as [t|] eqn:Ht.
  - pose proof (hw_voters _ W) as V.
    destruct (dlist_remove_spec a (vtr_dlist h)) as (l & El & Hp);
      [apply V|apply (vo_list _ V); eauto|]. rewrite El. cbn [mbind res_bind].
    pose proof (same_votes_insert _ _ _ 0 Ht) as Hb.
    edestruct (IH (with_vtrs h (vtr_free h) (<[a := set_next t 0]> (vtr_map h)) (l ++ [a])))
      as (m & l' & E & W' & L' & S' & K'); simpl.
    + apply hfork_wf_marks; [done| |done]. rewrite Hp. apply Permutation_cons_append.
    + eapply kept_last_move; [done|done|apply V|exact L|exact El|exact Hp].
    + exists m, l'. split; [exact E|]. split; [exact W'|]. split; [done|]. split.
      * intros x. by rewrite Hb, S'.
      * intros x. simpl in K'. rewrite K', (kept_insert next set_next), elem_of_cons, <- (same_votes_is_Some _ _ x Hb) by done.
        split; [|naive_solver]. intros [[->|?]|[? ?]]; [right|by left|naive_solver]. rewrite Ht. eauto.
  - destruct (IH h W L) as (m & l' & E & W' & L' & S' & K'). exists m, l'. split_and!; try done.
    intros x. rewrite K', elem_of_cons. split; [naive_solver|]. intros [?|[[->|?] Hx]]; [by left| |by auto].
    rewrite Ht in Hx. by destruct Hx.
Qed.

(** ** Sweeping *)

(** Releasing the listed votes of a voter removes exactly those. *)
Lemma release_vtes_spec a l : forall h,
  core_wf None h -> NoDup l -> (forall b, b ∈ l -> is_Some (vte_map h !! (a, b))) ->
  exists h', release_vtes a l h = Ok h' /\ core_wf None h' /\
    (forall k, vte_map h' !! k = if decide (k.1 = a /\ k.2 ∈ l) then None else vte_map h !! k) /\
    vte_free h' + Z.of_nat (size (vte_map h')) = vte_free h + Z.of_nat (size (vte_map h)) /\
    max h' = max h /\ per_vtr_max h' = per_vtr_max h /\ vtr_max h' = vtr_max h /\
    vtr_free h' = vtr_free h /\ vtr_map h' = vtr_map h /\ vtr_dlist h' = vtr_dlist h.
Proof.
  induction l as [|b l IH]; intros h C Hn Hl; cbn [release_vtes].
  { exists h. split_and!; try done. intros k. destruct (decide _) as [[_ Hx]|]; [inversion Hx|done]. }
  apply NoDup_cons in Hn as [Hb Hn]. destruct (Hl b ltac:(left)) as [e He]. rewrite He. cbn [deref mbind res_bind].
  destruct (bhm_sub_wf h a b e (vte_free h) C He) as (m & h2 & Hm & E2 & C2 & R2 & _). cbv zeta in Hm, E2.
  rewrite Hm, E2. cbn [mbind res_bind]. destruct R2 as (Q1 & Q2 & Q3 & Q4 & Q5 & Q6 & Q7 & Q8). simpl in *.
  destruct (IH (with_vtes h2 (vte_free h2 + 1) (vte_map h2))) as (h' & -> & C' & Hv & Hf & P1 & P2 & P3 & P6 & P7 & P8); simpl in *.
  - destruct C2; constructor; done.
  - done.
  - intros b' Hb'. rewrite Q5, lookup_delete_ne by congruence. apply Hl. by right.
  - exists h'. split_and!; try congruence.
    + intros [a' b']. rewrite Hv, Q5. simpl. destruct (decide (a' = a /\ b' ∈ l)) as [[-> Hb']|Hno].
      * rewrite decide_True; [done|]. split; [done|by right].
      * destruct (decide ((a', b') = (a, b))) as [[= -> ->]|Hne].
        -- rewrite lookup_delete_eq, decide_True; [done|]. split; [done|left].
        -- rewrite lookup_delete_ne by congruence. rewrite decide_False; [done|].
           intros [-> [->|?]%elem_of_cons]; [done|tauto].
    + rewrite Hf, Q4, Q5, (size_delete _ _ e) by done. lia.
Qed.

(** A marked voter leaves with its votes. *)
Lemma release_voter_wf h a t l : hfork_wf (with_vtrs h (vtr_free h) (vtr_map h) (a :: l)) -> vtr_map h !! a = Some t ->
  exists h1, release_vtes a (vtes t) h = Ok h1 /\
    hfork_wf (with_vtrs h1 (vtr_free h1 + 1) (delete a (vtr_map h1)) l) /\ vtr_map h1 = vtr_map h /\
    vtr_max h1 = vtr_max h /\ forall a' b, vte_map h1 !! (a', b) = if decide (a' = a) then None else vte_map h !! (a', b).
Proof.
  intros [C V Hf Hc] Ht. destruct V as [Vn Vl Vf Vv Vo]. simpl in *.
  assert (C' : core_wf None h) by (destruct C; constructor; done).
  destruct (Vv _ _ Ht) as (Hn & Hcnt & Hq & Hl & Hs). apply NoDup_cons in Vn as [Ha Vn].
  destruct (release_vtes_spec a (vtes t) h C' Hn) as (h1 & E & C1 & Hv & Hf1 & P1 & P2 & P3 & P6 & P7 & P8); [intros b; apply Hl|].
  assert (Hv' : forall a' b, vte_map h1 !! (a', b) = if decide (a' = a) then None else vte_map h !! (a', b)).
  { intros a' b. rewrite Hv. simpl. destruct (decide (a' = a)) as [->|Hne]; [|rewrite decide_False; [done|tauto]].
    destruct (decide _) as [|Hno]; [done|]. apply eq_None_not_Some. intros Hx%Hl. tauto. }
  exists h1. split_and!; try done. constructor; simpl.
  - by apply core_wf_vtrs.
  - rewrite P6, P7. constructor; simpl; rewrite ?P3, ?P2.
    + done.
    + intros x. rewrite lookup_delete_is_Some, <- Vl, elem_of_cons. split; [|naive_solver].
      intros Hx. split; [by intros ->|by right].
    + rewrite (size_delete _ _ t) by done. lia.
    + intros x t' [Hne Ht']%lookup_delete_Some. eapply vtr_wf_ext; [|by apply Vv].
      intros b. rewrite Hv', decide_False; [done|congruence].
    + intros x b Hx. rewrite Hv' in Hx. destruct (decide (x = a)); [by destruct Hx|]. apply lookup_delete_is_Some.
      split; [congruence|]. by eapply Vo.
  - rewrite P1. lia.
  - rewrite P1, P2, P3. done.
Qed.

Lemma hfork_release_voters l : forall h,
  hfork_wf (with_vtrs h (vtr_free h) (vtr_map h) l) -> kept_last (vtr_map h) l ->
  exists h', release_voters l h = Ok h' /\ hfork_wf h' /\ vtr_max h' = vtr_max h /\
    (forall a t, vtr_map h' !! a = Some t <-> vtr_map h !! a = Some t /\ next t = 0) /\
    (forall a b e, vte_map h' !! (a, b) = Some e <-> vte_map h !! (a, b) = Some e /\ kept (vtr_map h) a).
Proof.
  induction l as [|a l IH]; intros h W L; cbn [release_voters].
  { eexists. split; [done|]. pose proof (vo_list _ (hw_voters _ W)) as Vl. pose proof (vo_owner _ (hw_voters _ W)) as Vo. simpl in *.
    split_and!; [done|done| |].
    - intros a t. split; [|tauto]. intros Ht. pose proof (proj2 (Vl a) ltac:(eauto)) as Hx. inversion Hx.
    - intros a b e. split; [|tauto]. intros He. pose proof (proj2 (Vl a) (Vo a b ltac:(eauto))) as Hx. inversion Hx. }
  pose proof (hw_voters _ W) as V. destruct (proj1 (vo_list _ V a) ltac:(left)) as [t Ht]. simpl in Ht. rewrite Ht.
  cbn [deref mbind res_bind]. pose proof (vo_nodup _ V) as [Ha Hn]%NoDup_cons. simpl in *.
  destruct (Z.eqb_spec (next t) 0) as [E|Hne].
  - pose proof (StronglySorted_inv L) as [_ La]. rewrite Forall_forall in La.
    assert (Hall : forall x u, vtr_map h !! x = Some u -> next u = 0).
    { intros x u Hu. pose proof (proj2 (vo_list _ V x) ltac:(simpl; eauto)) as Hx. simpl in Hx.
      apply elem_of_cons in Hx as [->|Hx]; [congruence|].
      destruct (La x Hx) as (u' & Hu' & E'); [exists t; done|]. congruence. }
    eexists. split; [done|]. split_and!; [|done| |].
    + apply (hfork_wf_marks _ (vtr_map h) (l ++ [a])) in W; [done|done|]. simpl. apply Permutation_cons_append.
    + intros x u. simpl. split; [|tauto]. intros Hu. eauto.
    + intros x b e. simpl. split; [|tauto]. intros He. split; [done|].
      destruct (vo_owner _ V x b) as [u Hu]; [simpl; eauto|]. simpl in Hu. exists u. eauto.
  - destruct (release_voter_wf h a t l W Ht) as (h1 & -> & W1 & E1 & E2 & Hv). cbn [mbind res_bind].
    destruct (IH (with_vtrs h1 (vtr_free h1 + 1) (delete a (vtr_map h1)) l)) as (h' & -> & W' & E' & K' & V'); simpl in *.
    + done.
    + rewrite E1. by apply kept_last_delete.
    + exists h'. split; [done|]. split; [done|]. split; [congruence|]. split.
      * intros x u. rewrite K', E1, lookup_delete_Some. split; [tauto|]. intros [Hu Eu]. split; [|done]. split; [|done].
        intros ->. congruence.
      * intros x b e. rewrite V', Hv, E1. destruct (decide (x = a)) as [->|Hxa].
        -- split; [by intros []|]. intros (_ & u & Hu & Eu). congruence.
        -- unfold Links.kept. by rewrite lookup_delete_ne by congruence.
Qed.

(** ** Adding *)

Lemma hfork_add_voters accs : forall h,
  hfork_wf h -> Z.of_nat (size (dom (vtr_map h) ∪ list_to_set accs : gset fd_pubkey_t)) <= vtr_max h ->
  exists h', add_voters accs h = Ok h' /\ hfork_wf h' /\ vte_map h' = vte_map h /\
    dom (vtr_map h') = dom (vtr_map h) ∪ list_to_set accs.
Proof.
  induction accs as [|a accs IH]; intros h W Hsz; cbn [add_voters].
  { exists h. split_and!; try done. simpl. set_solver. }
  destruct (vtr_map h !! a) as [t|] eqn:Ha.
  - assert (Hin : a ∈ dom (vtr_map h)) by (apply elem_of_dom; eauto).
    assert (Eq : dom (vtr_map h) ∪ list_to_set (a :: accs) = dom (vtr_map h) ∪ list_to_set accs) by set_solver.
    rewrite Eq in *. by apply IH.
  - assert (Hnot : a ∉ dom (vtr_map h)) by (by apply not_elem_of_dom).
    pose proof W as [C V Hf Hc]. pose proof (vo_free _ V) as [Hf0 Hfv].
    assert (Hroom : Z.of_nat (size (vtr_map h)) < vtr_max h).
    { rewrite <- (size_dom (vtr_map h)).
      assert (Hs : (size (dom (vtr_map h)) < size (dom (vtr_map h) ∪ list_to_set (a :: accs) : gset fd_pubkey_t))%nat); [|lia].
      apply subset_size. set_solver. }
    unfold acquire. destruct (Z.leb_spec (vtr_free h) 0); [lia|]. cbn [mbind res_bind].
    assert (Hnv : forall b, vte_map h !! (a, b) = None).
    { intros b. apply eq_None_not_Some. intros Hx%(vo_owner _ V). rewrite Ha in Hx. by destruct Hx. }
    edestruct (IH (with_vtrs h (vtr_free h - 1) (<[a := mk_vtr 0 [] 0]> (vtr_map h)) (vtr_dlist h ++ [a])))
      as (h' & -> & W' & Ev & D'); simpl.
    + constructor; simpl; [by apply core_wf_vtrs| |done|done]. destruct V as [Vn Vl Vf Vv Vo]. constructor; simpl.
      * apply NoDup_snoc; [done|]. rewrite Vl, Ha. by intros [].
      * intros x. rewrite elem_of_app, list_elem_of_singleton, Vl, lookup_insert_is_Some'. naive_solver.
      * rewrite map_size_insert_None by done. lia.
      * intros x t [[<- <-]|[_ Ht]]%lookup_insert_Some; [|by apply Vv]. split_and!; simpl; [apply NoDup_nil_2|done|lia| |constructor].
        intros b. rewrite Hnv. split; [intros Hx; inversion Hx|by intros []].
      * intros x b Hx%Vo. apply lookup_insert_is_Some'. by right.
    + assert (Eq : dom (<[a:=mk_vtr 0 [] 0]> (vtr_map h)) ∪ list_to_set accs = dom (vtr_map h) ∪ list_to_set (a :: accs))
        by (rewrite dom_insert_L; set_solver). by rewrite Eq.
    + exists h'. split_and!; try done. rewrite D'. simpl. rewrite dom_insert_L. set_solver.
Qed.

(** ** Runs *)

Lemma hfork_new_wf per vm : 1 <= vm <= 2 ^ 63 -> 1 <= per -> per * fd_ulong_pow2_up vm <= 2 ^ 63 -> hfork_wf (fd_hfork_new per vm).
Proof.
  intros Hv Hp Hm. pose proof (pow2_up_ge vm Hv).
  assert (Hu : u64 (per * fd_ulong_pow2_up vm) = per * fd_ulong_pow2_up vm) by (apply u64_small; unfold is_u64, ULONG_MAX; nia).
  pose proof (pow2_up_ge (per * fd_ulong_pow2_up vm) ltac:(nia)) as Hmax.
  assert (Hno : forall P : Prop, forall (x : Z), x ∈ [] -> P) by (intros P x Hx; inversion Hx).
  assert (Hz : ULONG_MAX = 2 ^ 64 - 1) by done. assert (1 <= per * fd_ulong_pow2_up vm) by nia.
  unfold fd_hfork_new. rewrite Hu. constructor; simpl.
  - constructor; simpl; rewrite ?map_size_empty; try (split; lia); try done.
    + intros b x Hx. rewrite lookup_empty in Hx. by destruct Hx.
    + apply NoDup_nil_2.
    + intros b. split; [apply Hno|]. intros (_ & k & Hk & _). by rewrite lookup_empty in Hk.
  - constructor; simpl; rewrite ?map_size_empty; try (split; lia); try done.
    + apply NoDup_nil_2.
    + intros b. split; [apply Hno|]. intros Hx. rewrite lookup_empty in Hx. by destruct Hx.
    + intros a b Hx. rewrite lookup_empty in Hx. by destruct Hx.
  - rewrite map_size_empty. lia.
  - lia.
Qed.

(** ** Properties *)

(** What counting a vote may answer, and the votes held afterwards. *)
Definition vote_outcome (h : fd_hfork_t) (a : fd_pubkey_t) (b x : fd_hash_t) (slot stake total : Z)
    (h' : fd_hfork_t) (r : Z) : Prop :=
  match vtr_map h !! a with
  | None => r = FD_HFORK_ERR_UNKNOWN_VTR /\ h' = h
  | Some t =>
      (r = FD_HFORK_ERR_ALREADY_VOTED /\ h' = h /\ is_Some (vte_map h !! (a, b))) \/
      (r = FD_HFORK_ERR_VOTE_TOO_OLD /\ h' = h /\ exists b' e, vte_map h !! (a, b') = Some e /\ slot <= vte_slot e) \/
      ((forall b' e, vte_map h !! (a, b') = Some e -> b' <> b /\ vte_slot e < slot) /\
       ((stake = 0 /\ r = FD_HFORK_SUCCESS /\ h' = h) \/
        (0 < stake /\ vte_map h' = <[(a, b) := mk_vte x slot stake]> (evicted h a t) /\
         our_hash h' b = our_hash h b /\ r = verdict (our_hash h b) x (held (vte_map h') b x) total)))
  end.

(** What recording our bank hash [x] for [b] may answer: there is no room for
    the block, or the hash is remembered and compared. *)
Definition record_outcome (h : fd_hfork_t) (b x : fd_hash_t) (total : Z) (h' : fd_hfork_t) (r : Z) : Prop :=
  (h' = h /\ r = 0 /\ blk_map h !! b = None /\ blk_dlist h = [] /\ Z.of_nat (size (blk_map h)) = max h) \/
  (our_hash h' b = x /\
   ((r = 0 /\ forall y, 0 < held (vte_map h) b y -> verdict x y (held (vte_map h) b y) total = 0) \/
    (r <> 0 /\ exists y, 0 < held (vte_map h) b y /\ verdict x y (held (vte_map h) b y) total = r))).

(** The votes of [h'] are those of [h] whose voter is one of [accs]. *)
Definition votes_of (accs : list fd_pubkey_t) (h h' : fd_hfork_t) : Prop :=
  forall a b e, vte_map h' !! (a, b) = Some e <-> vte_map h !! (a, b) = Some e /\ a ∈ accs.


(** Recording our bank hash never fails, keeps every invariant and all votes.
    Unless there is no room for a new block, our bank hash (or the mark of a
    dead block) is remembered, and the result is a verdict against a bank hash
    that holds votes, and 0 only when no bank hash of the block is conclusive. *)
Theorem hfork_record_correct (h : fd_hfork_t) (b : fd_hash_t) (ours : option fd_hash_t) (total : Z) :
  hfork_wf h -> 0 < max h ->
  let x := match ours with Some x => x | None => hash_invalid end in
  exists h' r, fd_hfork_record_our_bank_hash h b ours total = Ok (h', r) /\ hfork_wf h' /\ vte_map h' = vte_map h /\
    record_outcome h b x total h' r.
Proof.
  intros W Hm x. pose proof W as [C V Hf Hc]. unfold fd_hfork_record_our_bank_hash, record_outcome. fold x.
  assert (Hfin : forall h1 k, core_wf None h1 -> blk_map h1 !! b = Some k -> same_rest h h1 ->
    exists h' r, (k ← deref (blk_map h1 !! b);
       let b1 := mk_blk x (bhms k) (bhm_cnt k) in
       let h2 := with_blks h1 (blk_free h1) (<[b := b1]> (blk_map h1)) (blk_dlist h1) in
       c ← compare_all h2 b b1 (bhms b1) total; Ok (h2, c)) = Ok (h', r) /\ hfork_wf h' /\ vte_map h' = vte_map h /\
      our_hash h' b = x /\
      ((r = 0 /\ forall y, 0 < held (vte_map h) b y -> verdict x y (held (vte_map h) b y) total = 0) \/
       (r <> 0 /\ exists y, 0 < held (vte_map h) b y /\ verdict x y (held (vte_map h) b y) total = r))).
  { intros h1 k C1 Hk R1. rewrite Hk. cbn [deref mbind res_bind]. pose proof R1 as (Q1 & Q2 & Q3 & Q4 & Q5 & Q6 & Q7 & Q8).
    destruct (cw_blk _ _ C1 _ _ Hk) as (_ & _ & Hx).
    edestruct (compare_all_spec (with_blks h1 (blk_free h1) (<[b := mk_blk x (bhms k) (bhm_cnt k)]> (blk_map h1)) (blk_dlist h1))
      b (mk_blk x (bhms k) (bhm_cnt k)) total (bhms k)) as (c & E & Hcmp); [intros y; apply Hx|].
    simpl. simpl in E. rewrite E. cbn [mbind res_bind]. eexists _, c. split; [done|].
    assert (Hs : forall y m, bhm_map h1 !! (b, y) = Some m -> bhm_stake m = held (vte_map h) b y /\ 0 < held (vte_map h) b y).
    { intros y m Hy. pose proof (cw_stake _ _ C1 b y) as Hh. rewrite Hy, Q5 in Hh. simpl in Hh. rewrite <- Hh.
      split; [done|]. by eapply cw_live. }
    split; [|split; [done|split; [unfold our_hash; simpl; by rewrite lookup_insert_eq|]]].
    - constructor; simpl; [by apply core_set_hash| |by rewrite Q1, Q4, Q5|by rewrite Q1, Q2, Q3].
      eapply voters_wf_frame; [|exact V]. done.
    - simpl in Hcmp. destruct Hcmp as [[-> H0]|(Hne & y & m & Hy & Hmy & Ec)]; [left|right]; (split; [done|]).
      + intros y Hpos. pose proof (cw_stake _ _ C1 b y) as Hh. rewrite Q5 in Hh.
        destruct (bhm_map h1 !! (b, y)) as [m|] eqn:Hmy; simpl in Hh; [|lia].
        destruct (Hs y m Hmy) as [Es _]. specialize (H0 y m ltac:(apply Hx; eauto) Hmy). rewrite <- Es. exact H0.
      + destruct (Hs y m Hmy) as [Es Hpos]. exists y. split; [done|]. rewrite <- Es. exact Ec. }
  destruct (blk_map h !! b) as [k|] eqn:Hk; cbn [mbind res_bind].
  - destruct (Hfin h k C Hk) as (h' & r & E & W' & Ev & Eo & Hr); [done|]. exists h', r. split; [exact E|]. by eauto.
  - destruct (blk_insert_wf h b C Hk Hm) as (o & -> & Ho). cbn [mbind res_bind]. destruct o as [h1|]; cbn [mbind res_bind].
    + destruct Ho as (C1 & Hb & R1 & _). pose proof (core_enlist h1 b _ C1 Hb eq_refl) as C1'.
      destruct (Hfin (with_blks h1 (blk_free h1) (blk_map h1) (blk_dlist h1 ++ [b])) _ C1' Hb) as (h' & r & E & W' & Ev & Eo & Hr); [done|].
      exists h', r. split; [exact E|]. by eauto.
    + destruct Ho as [El Es]. exists h, 0. split; [done|]. split; [done|]. split; [done|]. by left.
Qed.

(** Changing the voters never fails when they fit, keeps every invariant,
    leaves exactly the given voters, and forgets exactly the votes of the
    voters that leave (so every stake is again the stake of the votes held). *)
Theorem hfork_update_voters_correct (h : fd_hfork_t) (accs : list fd_pubkey_t) :
  hfork_wf h -> Z.of_nat (size (list_to_set accs : gset fd_pubkey_t)) <= vtr_max h ->
  exists h', fd_hfork_update_voters h accs = Ok h' /\ hfork_wf h' /\ dom (vtr_map h') = list_to_set accs /\
    votes_of accs h h'.
Proof.
  intros W Hsz. pose proof (hw_voters _ W) as V. unfold fd_hfork_update_voters.
  destruct (mark_all_dom next set_next (fun _ _ => eq_refl) (fun _ _ _ => eq_refl) (vtr_dlist h) (vtr_map h))
    as (m1 & -> & Hm1 & Hnk); [apply (vo_list _ V)|]. cbn [mbind res_bind].
  assert (Hs1 : same_votes (vtr_map h) m1) by (intros x; rewrite Hm1; by destruct (vtr_map h !! x)).
  edestruct (hfork_keep_voters accs (with_vtrs h (vtr_free h) m1 (vtr_dlist h))) as (m2 & l2 & -> & W2 & L2 & S2 & K2).
  { by apply hfork_wf_marks. }
  { by apply kept_none_last. }
  cbn [mbind res_bind]. simpl in S2, K2.
  edestruct (hfork_release_voters l2 (with_vtrs h (vtr_free h) m2 l2)) as (h3 & E3 & W3 & Em3 & K3 & V3); [done|done|].
  simpl in *. unfold with_vtrs in E3 |- *. simpl in *. rewrite E3. cbn [mbind res_bind].
  assert (Hkept : forall a, kept m2 a <-> a ∈ accs /\ is_Some (vtr_map h !! a)).
  { intros a. rewrite K2, <- (same_votes_is_Some _ _ a Hs1). split; [|by right]. intros [H|H]; [by apply Hnk in H|done]. }
  assert (Hdom : dom (vtr_map h3) ⊆ list_to_set accs).
  { intros a [t Ht]%elem_of_dom. apply K3 in Ht. apply elem_of_list_to_set. apply (Hkept a). by exists t. }
  destruct (hfork_add_voters accs h3 W3) as (h4 & -> & W4 & Ev & D4).
  { rewrite subseteq_union_1_L by done. by rewrite Em3. }
  exists h4. split_and!; [done|done|by rewrite D4, subseteq_union_1_L|]. intros a b e. rewrite Ev, V3, Hkept.
  split; [tauto|]. intros [He Ha]. split_and!; [done|done|]. by apply (vo_owner _ V a b).
Qed.

(** ** Witnesses *)

Lemma hfork_example_wf : hfork_wf (fd_hfork_new 4 2).
Proof. apply hfork_new_wf; vm_compute; repeat split; discriminate. Qed.

(** Two voters, then a vote with all the stake against our bank hash. *)
Definition hfork_example : res (fd_hfork_t * Z) :=
  h1 ← fd_hfork_update_voters (fd_hfork_new 4 2) [1; 2];
  '(h2, _) ← fd_hfork_record_our_bank_hash h1 7 (Some 100) 60;
  fd_hfork_count_vote h2 1 7 200 5 60 60.

Example hfork_example_mismatch : snd <$> hfork_example = Ok FD_HFORK_ERR_MISMATCHED.
Proof. vm_compute. reflexivity. Qed.

Lemma hfork_update_voters_correct_witness :
  exists h', fd_hfork_update_voters (fd_hfork_new 4 2) [1; 2] = Ok h' /\ hfork_wf h'.
Proof.
  destruct (hfork_update_voters_correct (fd_hfork_new 4 2) [1; 2] hfork_example_wf) as (h' & E & W & _).
  - vm_compute. discriminate.
  - exists h'. split; [exact E|exact W].
Defined.

Lemma hfork_record_correct_witness :
  exists h' r, fd_hfork_record_our_bank_hash (fd_hfork_new 4 2) 7 (Some 100) 60 = Ok (h', r) /\ hfork_wf h'.
Proof.
  destruct (hfork_record_correct (fd_hfork_new 4 2) 7 (Some 100) 60 hfork_example_wf) as (h' & r & E & W & _).
  - vm_compute. reflexivity.
  - exists h', r. split; [exact E|exact W].
Defined.

