(* ===== verification/Eqvoc.v ===== *)
(** * Equivocation detection ([src/choreo/eqvoc/fd_eqvoc.c])

    [fd_eqvoc] finds pairs of shreds that prove that a leader produced two
    blocks for a slot, sends such proofs in three chunks and reassembles and
    verifies the proofs of others.  As in Hfork, pool elements are addressed by
    the key of the map that holds them, a pool is the number of its free
    elements, and linked lists are lists of keys.  Inserting a key that a map
    already has is outside the contract of the map.  SHA-256 and Ed25519
    verification are parameters. *)

From S2P Require Import Prelude Bits Bytes Shred Bmtree ShredRoot Links.

#[local] Open Scope Z_scope.

Definition FD_EQVOC_SUCCESS : Z := 1.
Definition FD_EQVOC_IGNORED : Z := 0.
Definition FD_EQVOC_ERR_SERDE : Z := -1.
Definition FD_EQVOC_ERR_SLOT : Z := -2.
Definition FD_EQVOC_ERR_VERSION : Z := -3.
Definition FD_EQVOC_ERR_TYPE : Z := -4.
Definition FD_EQVOC_ERR_MERKLE : Z := -5.
Definition FD_EQVOC_ERR_SIG : Z := -6.
Definition FD_EQVOC_ERR_CHUNK_CNT : Z := -7.
Definition FD_EQVOC_ERR_CHUNK_IDX : Z := -8.
Definition FD_EQVOC_ERR_CHUNK_LEN : Z := -9.
Definition FD_EQVOC_ERR_CHUNK_FROM : Z := -10.
Definition FD_EQVOC_ERR_CHUNK_SLOT : Z := -11.

Definition FD_EQVOC_CHUNK_CNT : Z := 3.
Definition FD_EQVOC_CHUNK_SZ : Z := 1232 - 115 - 63.
Definition FD_EQVOC_CHUNK0_LEN : Z := FD_EQVOC_CHUNK_SZ.
Definition FD_EQVOC_CHUNK1_LEN : Z := FD_EQVOC_CHUNK_SZ.
Definition FD_EQVOC_CHUNK2_LEN_CC : Z := 2 * 8 + 2 * FD_SHRED_MAX_SZ - 2 * FD_EQVOC_CHUNK_SZ.
Definition FD_EQVOC_CHUNK2_LEN_DD : Z := 2 * 8 + 2 * FD_SHRED_MIN_SZ - 2 * FD_EQVOC_CHUNK_SZ.
Definition FD_EQVOC_CHUNK2_LEN_DC : Z := 2 * 8 + FD_SHRED_MIN_SZ + FD_SHRED_MAX_SZ - 2 * FD_EQVOC_CHUNK_SZ.
Definition FD_EQVOC_CHUNK2_LEN_CD : Z := FD_EQVOC_CHUNK2_LEN_DC.

Definition UINT_MAX : Z := 4294967295.

(** ** State *)

(** [fd_gossip_duplicate_shred_t]; [chunk] is an array of 1055 bytes. *)
Record fd_gossip_duplicate_shred_t := mk_chunk {
  ck_index : Z;
  ck_slot : Z;
  num_chunks : Z;
  chunk_index : Z;
  chunk_len : Z;
  chunk : mem
}.

(** [prf_t], keyed by (slot, voter). *)
Record prf_t := mk_prf { idxs : Z; buf_sz : Z; buf : mem }.
Definition PRF_BUF_SZ : Z := 2 * FD_SHRED_MAX_SZ + 2 * 8.

(** [vtr_t], keyed by voter; [prf_dlist] lists the slots of its proofs, oldest
    first. *)
Record vtr_t := mk_vtr { vtr_next : Z; prf_dlist_cnt : Z; prf_dlist : list Z }.

(** [dup_t] holds nothing but its key, the slot; a [fec_t] holds the bytes of a
    shred. *)
Record fd_eqvoc_t := mk_eqvoc {
  dup_max : Z;
  fec_max : Z;
  per_vtr_max : Z;
  vtr_max : Z;
  bmtree : bmtree_mem;
  dup_free : Z;
  dup_map : gset Z;
  dup_dlist : list Z;
  fec_free : Z;
  fec_map : gmap Z mem;
  fec_dlist : list Z;
  prf_free : Z;
  prf_map : gmap (Z * fd_pubkey_t) prf_t;
  vtr_free : Z;
  vtr_map : gmap fd_pubkey_t vtr_t;
  vtr_dlist : list fd_pubkey_t
}.

Definition with_bmtree (e : fd_eqvoc_t) (b : bmtree_mem) : fd_eqvoc_t :=
  mk_eqvoc (dup_max e) (fec_max e) (per_vtr_max e) (vtr_max e) b (dup_free e) (dup_map e) (dup_dlist e)
    (fec_free e) (fec_map e) (fec_dlist e) (prf_free e) (prf_map e) (vtr_free e) (vtr_map e) (vtr_dlist e).
Definition with_dups (e : fd_eqvoc_t) (n : Z) (m : gset Z) (l : list Z) : fd_eqvoc_t :=
  mk_eqvoc (dup_max e) (fec_max e) (per_vtr_max e) (vtr_max e) (bmtree e) n m l
    (fec_free e) (fec_map e) (fec_dlist e) (prf_free e) (prf_map e) (vtr_free e) (vtr_map e) (vtr_dlist e).
Definition with_fecs (e : fd_eqvoc_t) (n : Z) (m : gmap Z mem) (l : list Z) : fd_eqvoc_t :=
  mk_eqvoc (dup_max e) (fec_max e) (per_vtr_max e) (vtr_max e) (bmtree e) (dup_free e) (dup_map e) (dup_dlist e)
    n m l (prf_free e) (prf_map e) (vtr_free e) (vtr_map e) (vtr_dlist e).
Definition with_prfs (e : fd_eqvoc_t) (n : Z) (m : gmap (Z * fd_pubkey_t) prf_t) : fd_eqvoc_t :=
  mk_eqvoc (dup_max e) (fec_max e) (per_vtr_max e) (vtr_max e) (bmtree e) (dup_free e) (dup_map e) (dup_dlist e)
    (fec_free e) (fec_map e) (fec_dlist e) n m (vtr_free e) (vtr_map e) (vtr_dlist e).
Definition with_vtrs (e : fd_eqvoc_t) (n : Z) (m : gmap fd_pubkey_t vtr_t) (l : list fd_pubkey_t) : fd_eqvoc_t :=
  mk_eqvoc (dup_max e) (fec_max e) (per_vtr_max e) (vtr_max e) (bmtree e) (dup_free e) (dup_map e) (dup_dlist e)
    (fec_free e) (fec_map e) (fec_dlist e) (prf_free e) (prf_map e) n m l.

(** [MAP_(ele_insert)] of a key that is not in the map. *)
Definition map_insert `{Countable K} {A} (m : gmap K A) (k : K) (x : A) : res (gmap K A) :=
  match m !! k with Some _ => Ub | None => Ok (<[k := x]> m) end.

(** ** Construction ([fd_eqvoc_new]) *)

Definition fd_eqvoc_new (bm : bmtree_mem) (dup_max0 fec_max0 per_vtr_max0 vtr_max0 : Z) : fd_eqvoc_t :=
  let dup_max := fd_ulong_pow2_up dup_max0 in
  let fec_max := fd_ulong_pow2_up fec_max0 in
  let per_vtr_max := fd_ulong_pow2_up per_vtr_max0 in
  let vtr_max := fd_ulong_pow2_up vtr_max0 in
  let prf_max := u64 (per_vtr_max * vtr_max) in
  mk_eqvoc dup_max fec_max per_vtr_max vtr_max bm dup_max ∅ [] fec_max ∅ [] prf_max ∅ vtr_max ∅ [].

(** ** Queries: an element found moves to the tail of its list *)

Definition dup_query (e : fd_eqvoc_t) (slot : Z) : res (fd_eqvoc_t * bool) :=
  if decide (slot ∈ dup_map e) then
    l ← dlist_remove slot (dup_dlist e);
    Ok (with_dups e (dup_free e) (dup_map e) (l ++ [slot]), true)
  else Ok (e, false).

Definition fec_key (slot fec_set_idx : Z) : Z := Z.lor (u64 (Z.shiftl slot 32)) fec_set_idx.

Definition fec_query (e : fd_eqvoc_t) (slot fec_set_idx : Z) : res (fd_eqvoc_t * option mem) :=
  let key := fec_key slot fec_set_idx in
  match fec_map e !! key with
  | Some s =>
      l ← dlist_remove key (fec_dlist e);
      Ok (with_fecs e (fec_free e) (fec_map e) (l ++ [key]), Some s)
  | None => Ok (e, None)
  end.

Definition prf_query (e : fd_eqvoc_t) (from : fd_pubkey_t) (slot : Z) : res (fd_eqvoc_t * option prf_t) :=
  match prf_map e !! (slot, from) with
  | Some p =>
      v ← deref (vtr_map e !! from);
      l ← dlist_remove slot (prf_dlist v);
      Ok (with_vtrs e (vtr_free e) (<[from := mk_vtr (vtr_next v) (prf_dlist_cnt v) (l ++ [slot])]> (vtr_map e)) (vtr_dlist e),
          Some p)
  | None => Ok (e, None)
  end.

(** ** Insertions: the head of the list is evicted when the pool is full *)

Definition dup_insert (e : fd_eqvoc_t) (slot : Z) : res fd_eqvoc_t :=
  e1 ← (if dup_free e =? 0 then
          match dup_dlist e with
          | [] => Ub
          | s :: l => Ok (with_dups e (dup_free e + 1) (dup_map e ∖ {[s]}) l)
          end
        else Ok e);
  n ← acquire (dup_free e1);
  if decide (slot ∈ dup_map e1) then Ub
  else Ok (with_dups e1 n ({[slot]} ∪ dup_map e1) (dup_dlist e1 ++ [slot])).

Definition fec_insert (e : fd_eqvoc_t) (slot fec_set_idx : Z) : res fd_eqvoc_t :=
  let key := fec_key slot fec_set_idx in
  e1 ← (if fec_free e =? 0 then
          match fec_dlist e with
          | [] => Ub
          | k :: l => Ok (with_fecs e (fec_free e + 1) (delete k (fec_map e)) l)
          end
        else Ok e);
  n ← acquire (fec_free e1);
  m ← map_insert (fec_map e1) key (uninit FD_SHRED_MAX_SZ);
  Ok (with_fecs e1 n m (fec_dlist e1 ++ [key])).

Definition prf_insert (e : fd_eqvoc_t) (slot : Z) (from : fd_pubkey_t) : res (fd_eqvoc_t * prf_t) :=
  match vtr_map e !! from with
  | None => Crit
  | Some v =>
      '(e1, v1) ← (if prf_dlist_cnt v =? per_vtr_max e then
          match prf_dlist v with
          | [] => Ub
          | s :: l =>
              _ ← deref (prf_map e !! (s, from));
              Ok (with_prfs e (prf_free e + 1) (delete (s, from) (prf_map e)),
                  mk_vtr (vtr_next v) (u64 (prf_dlist_cnt v - 1)) l)
          end
        else Ok (e, v));
      n ← acquire (prf_free e1);
      let p := mk_prf 0 0 (uninit PRF_BUF_SZ) in
      m ← map_insert (prf_map e1) (slot, from) p;
      let v2 := mk_vtr (vtr_next v1) (u64 (prf_dlist_cnt v1 + 1)) (prf_dlist v1 ++ [slot]) in
      let e2 := with_prfs e1 n m in
      Ok (with_vtrs e2 (vtr_free e2) (<[from := v2]> (vtr_map e2)) (vtr_dlist e2), p)
  end.

(** ** Constructing a proof *)

Definition is_last_shred (s : mem) : res bool :=
  variant ← sh_variant s;
  if fd_shred_is_data (fd_shred_type variant)
  then flags ← sh_data_flags s; Ok (has_mask flags FD_SHRED_DATA_FLAG_SLOT_COMPLETE)
  else Ok false.

(** [FD_STORE( ulong, dst + off, x )] *)
Definition store8 (dst : mem) (off x : Z) : res mem := memcpy dst off (bytes (le_bytes 8 x)) 8.

Definition construct_proof (shred1 shred2 : mem) (chunks_out : list fd_gossip_duplicate_shred_t)
    : res (list fd_gossip_duplicate_shred_t) :=
  slot ← sh_slot shred1;
  shred1_sz ← fd_shred_sz shred1;
  shred2_sz ← fd_shred_sz shred2;
  o0 ← aget chunks_out 0;
  o1 ← aget chunks_out 1;
  o2 ← aget chunks_out 2;
  (* chunk 0 *)
  b0 ← store8 (chunk o0) 0 shred1_sz;
  b0 ← memcpy b0 8 shred1 (FD_EQVOC_CHUNK_SZ - 8);
  (* chunk 1 *)
  let shred1_off := FD_EQVOC_CHUNK_SZ - 8 in
  let shred1_rem := u64 (shred1_sz - shred1_off) in
  p1 ← advance shred1 shred1_off;
  b1 ← memcpy (chunk o1) 0 p1 shred1_rem;
  b1 ← store8 b1 shred1_rem shred2_sz;
  let chunk1_off := u64 (shred1_rem + 8) in
  let chunk1_rem := u64 (FD_EQVOC_CHUNK_SZ - chunk1_off) in
  b1 ← memcpy b1 chunk1_off shred2 chunk1_rem;
  (* chunk 2 *)
  let shred2_off := chunk1_rem in
  let shred2_rem := u64 (shred2_sz - shred2_off) in
  p2 ← advance shred2 shred2_off;
  b2 ← memcpy (chunk o2) 0 p2 shred2_rem;
  Ok [mk_chunk 0 slot FD_EQVOC_CHUNK_CNT 0 FD_EQVOC_CHUNK_SZ b0;
      mk_chunk 1 slot FD_EQVOC_CHUNK_CNT 1 FD_EQVOC_CHUNK_SZ b1;
      mk_chunk 2 slot FD_EQVOC_CHUNK_CNT 2 shred2_rem b2].

(** ** Leader schedules ([fd_epoch_leaders_get]) *)

Record fd_epoch_leaders_t := mk_leaders { slot0 : Z; slot_cnt : Z; pub : list fd_pubkey_t; sched : list Z }.
Definition FD_EPOCH_SLOTS_PER_ROTATION : Z := 4.

Definition fd_epoch_leaders_get (leaders : fd_epoch_leaders_t) (slot : Z) : res (option fd_pubkey_t) :=
  let slot_delta := u64 (slot - slot0 leaders) in
  if slot <? slot0 leaders then Ok None
  else if slot_cnt leaders <=? slot_delta then Ok None
  else
    i ← aget (sched leaders) (slot_delta / FD_EPOCH_SLOTS_PER_ROTATION);
    p ← aget (pub leaders) i;
    Ok (Some p).

Section eqvoc.
Context (sha256 : list Z -> list Z) (ed25519_verify : list Z -> list Z -> fd_pubkey_t -> bool).

(** ** Verifying a proof *)

(** The signatures of the two shreds over their Merkle roots. *)
Definition verify_sigs (leaders : fd_epoch_leaders_t) (shred1 shred2 mr1 mr2 : mem) : res bool :=
  slot ← sh_slot shred1;
  leader ← fd_epoch_leaders_get leaders slot;
  match leader with
  | None => Ok false
  | Some pk =>
      h1 ← read mr1 0 32;
      sig1 ← read shred1 0 64;
      if negb (ed25519_verify h1 sig1 pk) then Ok false
      else
        h2 ← read mr2 0 32;
        sig2 ← read shred2 0 64;
        Ok (ed25519_verify h2 sig2 pk)
  end.

(** Two data shreds, one of them the last of the slot and not the highest. *)
Definition last_conflict (shred1 shred2 : mem) : res bool :=
  v1 ← sh_variant shred1;
  v2 ← sh_variant shred2;
  if fd_shred_is_data (fd_shred_type v1) && fd_shred_is_data (fd_shred_type v2) then
    f1 ← sh_data_flags shred1;
    f2 ← sh_data_flags shred2;
    i1 ← sh_idx shred1;
    i2 ← sh_idx shred2;
    Ok ((has_mask f1 FD_SHRED_DATA_FLAG_SLOT_COMPLETE && (i1 <? i2)) ||
        (has_mask f2 FD_SHRED_DATA_FLAG_SLOT_COMPLETE && (i2 <? i1)))
  else Ok false.

(** Two shreds of one FEC set with different Merkle roots. *)
Definition root_conflict (shred1 shred2 mr1 mr2 : mem) : res bool :=
  x1 ← sh_fec_set_idx shred1;
  x2 ← sh_fec_set_idx shred2;
  if x1 =? x2 then
    h1 ← read mr1 0 32;
    h2 ← read mr2 0 32;
    Ok (negb (bool_decide (h1 = h2)))
  else Ok false.

Definition verify_proof (bm : bmtree_mem) (shred_version : Z) (leader_schedule : option fd_epoch_leaders_t)
    (shred1 shred2 : mem) : res (bmtree_mem * Z) :=
  s1 ← sh_slot shred1;
  s2 ← sh_slot shred2;
  if negb (s1 =? s2) then Ok (bm, FD_EQVOC_ERR_SLOT) else
  ver1 ← sh_version shred1;
  if negb (ver1 =? shred_version) then Ok (bm, FD_EQVOC_ERR_VERSION) else
  ver2 ← sh_version shred2;
  if negb (ver2 =? shred_version) then Ok (bm, FD_EQVOC_ERR_VERSION) else
  v1 ← sh_variant shred1;
  if negb (fd_shred_is_chained (fd_shred_type v1)) then Ok (bm, FD_EQVOC_ERR_TYPE) else
  v2 ← sh_variant shred2;
  if negb (fd_shred_is_chained (fd_shred_type v2)) then Ok (bm, FD_EQVOC_ERR_TYPE) else
  '(bm1, o1) ← fd_shred_merkle_root sha256 bm shred1;
  match o1 with
  | None => Ok (bm1, FD_EQVOC_ERR_MERKLE)
  | Some mr1 =>
      '(bm2, o2) ← fd_shred_merkle_root sha256 bm1 shred2;
      match o2 with
      | None => Ok (bm2, FD_EQVOC_ERR_MERKLE)
      | Some mr2 =>
          sig ← (match leader_schedule with
                 | Some leaders => verify_sigs leaders shred1 shred2 mr1 mr2
                 | None => Ok true
                 end);
          if negb sig then Ok (bm2, FD_EQVOC_ERR_SIG) else
          last ← last_conflict shred1 shred2;
          if (last : bool) then Ok (bm2, FD_EQVOC_SUCCESS) else
          root ← root_conflict shred1 shred2 mr1 mr2;
          if (root : bool) then Ok (bm2, FD_EQVOC_SUCCESS)
          else Ok (bm2, FD_EQVOC_IGNORED)
      end
  end.

(** ** A shred arrives ([fd_eqvoc_shred_insert]) *)

(** The shred was reported to equivocate with its FEC set. *)
Definition shred_hinted (e : fd_eqvoc_t) (shred : mem) (chunks_out : list fd_gossip_duplicate_shred_t)
    : res (fd_eqvoc_t * list fd_gossip_duplicate_shred_t * Z) :=
  slot ← sh_slot shred;
  fec_set_idx ← sh_fec_set_idx shred;
  '(e1, fec) ← fec_query e slot fec_set_idx;
  match fec with
  | None => Ok (e1, chunks_out, 0)
  | Some sample =>
      out ← construct_proof sample shred chunks_out;
      e2 ← dup_insert e1 slot;
      let key := fec_key slot fec_set_idx in
      l ← dlist_remove key (fec_dlist e2);
      Ok (with_fecs e2 (fec_free e2 + 1) (delete key (fec_map e2)) l, out, 1)
  end.

(** Conflicts with the shred that has the highest index of its slot so far. *)
Definition last_compare (shred sample : mem) : res bool :=
  idx ← sh_idx shred;
  sidx ← sh_idx sample;
  l1 ← is_last_shred shred;
  if l1 && (idx <? sidx) then Ok true
  else l2 ← is_last_shred sample; Ok (l2 && (sidx <? idx)).

(** Remember the first shred of a FEC set. *)
Definition remember_fec (e : fd_eqvoc_t) (shred : mem) (slot : Z) : res fd_eqvoc_t :=
  fec_set_idx ← sh_fec_set_idx shred;
  '(e1, fec) ← fec_query e slot fec_set_idx;
  match fec with
  | Some _ => Ok e1
  | None =>
      e2 ← fec_insert e1 slot fec_set_idx;
      let key := fec_key slot fec_set_idx in
      old ← deref (fec_map e2 !! key);
      sz ← fd_shred_sz shred;
      s ← memcpy old 0 shred sz;
      Ok (with_fecs e2 (fec_free e2) (<[key := s]> (fec_map e2)) (fec_dlist e2))
  end.

Definition fd_eqvoc_shred_insert (e : fd_eqvoc_t) (shred_hint : bool) (shred : mem)
    (chunks_out : list fd_gossip_duplicate_shred_t) : res (fd_eqvoc_t * list fd_gossip_duplicate_shred_t * Z) :=
  slot ← sh_slot shred;
  '(e1, dup) ← dup_query e slot;
  if (dup : bool) then Ok (e1, chunks_out, 0)
  else if shred_hint then shred_hinted e1 shred chunks_out
  else
    let key := fec_key slot UINT_MAX in
    sz ← fd_shred_sz shred;
    '(e2, last) ← fec_query e1 slot UINT_MAX;
    match last with
    | None =>
        e3 ← fec_insert e2 slot UINT_MAX;
        old ← deref (fec_map e3 !! key);
        s ← memcpy old 0 shred sz;
        e4 ← remember_fec (with_fecs e3 (fec_free e3) (<[key := s]> (fec_map e3)) (fec_dlist e3)) shred slot;
        Ok (e4, chunks_out, 0)
    | Some sample =>
        conflict ← last_compare shred sample;
        if (conflict : bool) then
          out ← construct_proof shred sample chunks_out;
          e3 ← dup_insert e2 slot;
          Ok (e3, out, 1)
        else
          idx ← sh_idx shred;
          sidx ← sh_idx sample;
          e3 ← (if sidx <? idx then
                  s ← memcpy sample 0 shred sz;
                  Ok (with_fecs e2 (fec_free e2) (<[key := s]> (fec_map e2)) (fec_dlist e2))
                else Ok e2);
          e4 ← remember_fec e3 shred slot;
          Ok (e4, chunks_out, 0)
    end.

(** ** A chunk arrives ([fd_eqvoc_chunk_insert]) *)

(** The checks of a chunk's header that do not depend on the state. *)
Definition chunk_header_err (c : fd_gossip_duplicate_shred_t) : option Z :=
  if negb (num_chunks c =? FD_EQVOC_CHUNK_CNT) then Some FD_EQVOC_ERR_CHUNK_CNT
  else if FD_EQVOC_CHUNK_CNT <=? chunk_index c then Some FD_EQVOC_ERR_CHUNK_IDX
  else if (chunk_index c =? 0) && negb (chunk_len c =? FD_EQVOC_CHUNK0_LEN) then Some FD_EQVOC_ERR_CHUNK_LEN
  else if (chunk_index c =? 1) && negb (chunk_len c =? FD_EQVOC_CHUNK1_LEN) then Some FD_EQVOC_ERR_CHUNK_LEN
  else if (chunk_index c =? 2) && negb (chunk_len c =? FD_EQVOC_CHUNK2_LEN_CC) && negb (chunk_len c =? FD_EQVOC_CHUNK2_LEN_DD)
    && negb (chunk_len c =? FD_EQVOC_CHUNK2_LEN_DC) && negb (chunk_len c =? FD_EQVOC_CHUNK2_LEN_CD) then Some FD_EQVOC_ERR_CHUNK_LEN
  else None.

(** A length-prefixed shred at an offset of the reassembled proof: the shred
    and the offset behind it; [None] when the bytes are not that. *)
Definition parse_sized (buf : mem) (buf_sz off : Z) : res (option (mem * Z)) :=
  if u64 (buf_sz - off) <? 8 then Ok None else
  sz ← load buf off 8;
  let off := u64 (off + 8) in
  if u64 (buf_sz - off) <? sz then Ok None else
  shred ← advance buf off;
  ok ← fd_shred_parse shred sz FD_SHRED_BLK_MAX;
  if negb ok then Ok None else
  shred_sz ← fd_shred_sz shred;
  if negb (shred_sz =? sz) then Ok None
  else Ok (Some (shred, u64 (off + sz))).

(** The two shreds of a reassembled proof. *)
Definition parse_proof (buf : mem) (buf_sz slot : Z) : res (option (mem * mem)) :=
  o1 ← parse_sized buf buf_sz 0;
  match o1 with
  | None => Ok None
  | Some (shred1, off1) =>
      o2 ← parse_sized buf buf_sz off1;
      match o2 with
      | None => Ok None
      | Some (shred2, off2) =>
          if negb (off2 =? buf_sz) then Ok None else
          s1 ← sh_slot shred1;
          s2 ← sh_slot shred2;
          if negb (s1 =? slot) || negb (s2 =? slot) then Ok None
          else Ok (Some (shred1, shred2))
      end
  end.

(** [cleanup:] release the proof and its place in the voter's list. *)
Definition prf_release (e : fd_eqvoc_t) (from : fd_pubkey_t) (slot : Z) : res fd_eqvoc_t :=
  v ← deref (vtr_map e !! from);
  l ← dlist_remove slot (prf_dlist v);
  _ ← deref (prf_map e !! (slot, from));
  let e1 := with_prfs e (prf_free e + 1) (delete (slot, from) (prf_map e)) in
  Ok (with_vtrs e1 (vtr_free e1) (<[from := mk_vtr (vtr_next v) (u64 (prf_dlist_cnt v - 1)) l]> (vtr_map e1)) (vtr_dlist e1)).

(** All chunks are there: verify the proof, release it. *)
Definition proof_complete (e : fd_eqvoc_t) (shred_version : Z) (leader_schedule : option fd_epoch_leaders_t)
    (from : fd_pubkey_t) (slot : Z) (p : prf_t) (chunks_out : list fd_gossip_duplicate_shred_t)
    : res (fd_eqvoc_t * list fd_gossip_duplicate_shred_t * Z) :=
  o ← parse_proof (buf p) (buf_sz p) slot;
  '(e1, out, err) ← (match o with
    | None => Ok (e, chunks_out, FD_EQVOC_ERR_SERDE)
    | Some (shred1, shred2) =>
        '(bm, err) ← verify_proof (bmtree e) shred_version leader_schedule shred1 shred2;
        let e1 := with_bmtree e bm in
        if err =? FD_EQVOC_SUCCESS then
          out ← construct_proof shred1 shred2 chunks_out;
          e2 ← dup_insert e1 slot;
          Ok (e2, out, err)
        else Ok (e1, chunks_out, err)
    end);
  e2 ← prf_release e1 from slot;
  Ok (e2, out, err).

Definition fd_eqvoc_chunk_insert (e : fd_eqvoc_t) (root shred_version : Z) (leader_schedule : option fd_epoch_leaders_t)
    (from : fd_pubkey_t) (c : fd_gossip_duplicate_shred_t) (chunks_out : list fd_gossip_duplicate_shred_t)
    : res (fd_eqvoc_t * list fd_gossip_duplicate_shred_t * Z) :=
  if ck_slot c <=? root then Ok (e, chunks_out, FD_EQVOC_ERR_CHUNK_SLOT) else
  match vtr_map e !! from with
  | None => Ok (e, chunks_out, FD_EQVOC_ERR_CHUNK_FROM)
  | Some _ =>
      match chunk_header_err c with
      | Some err => Ok (e, chunks_out, err)
      | None =>
          '(e1, dup) ← dup_query e (ck_slot c);
          if (dup : bool) then Ok (e1, chunks_out, FD_EQVOC_IGNORED) else
          '(e2, o) ← prf_query e1 from (ck_slot c);
          '(e3, p) ← (match o with Some p => Ok (e2, p) | None => prf_insert e2 (ck_slot c) from end);
          if Z.testbit (idxs p) (chunk_index c) then Ok (e3, chunks_out, FD_EQVOC_IGNORED) else
          b ← memcpy (buf p) (u64 (chunk_index c * FD_EQVOC_CHUNK_SZ)) (chunk c) (chunk_len c);
          let p1 := mk_prf (Z.lor (idxs p) (Z.shiftl 1 (chunk_index c))) (u64 (buf_sz p + chunk_len c)) b in
          let e4 := with_prfs e3 (prf_free e3) (<[(ck_slot c, from) := p1]> (prf_map e3)) in
          if negb (idxs p1 =? Z.shiftl 1 FD_EQVOC_CHUNK_CNT - 1) then Ok (e4, chunks_out, FD_EQVOC_IGNORED)
          else proof_complete e4 shred_version leader_schedule from (ck_slot c) p1 chunks_out
      end
  end.

(** [fd_eqvoc_proof_verified] *)
Definition fd_eqvoc_proof_verified (e : fd_eqvoc_t) (slot : Z) : res (fd_eqvoc_t * bool) := dup_query e slot.

(** ** Changing the voters ([fd_eqvoc_update_voters]) *)

Definition set_next (v : vtr_t) (n : Z) : vtr_t := mk_vtr n (prf_dlist_cnt v) (prf_dlist v).

(** First pass: unmark the voters that stay and move them to the tail. *)
Fixpoint keep_voters (ids : list fd_pubkey_t) (e : fd_eqvoc_t) : res fd_eqvoc_t :=
  match ids with
  | [] => Ok e
  | a :: ids' =>
      match vtr_map e !! a with
      | None => keep_voters ids' e
      | Some v =>
          l ← dlist_remove a (vtr_dlist e);
          keep_voters ids' (with_vtrs e (vtr_free e) (<[a := set_next v 0]> (vtr_map e)) (l ++ [a]))
      end
  end.

(** Pop and release the proofs of a voter. *)
Fixpoint release_prfs (from : fd_pubkey_t) (l : list Z) (e : fd_eqvoc_t) : res fd_eqvoc_t :=
  match l with
  | [] => Ok e
  | s :: l' =>
      _ ← deref (prf_map e !! (s, from));
      release_prfs from l' (with_prfs e (prf_free e + 1) (delete (s, from) (prf_map e)))
  end.

(** Pop and release marked voters up to the first unmarked one. *)
Fixpoint release_voters (l : list fd_pubkey_t) (e : fd_eqvoc_t) : res fd_eqvoc_t :=
  match l with
  | [] => Ok (with_vtrs e (vtr_free e) (vtr_map e) [])
  | a :: l' =>
      v ← deref (vtr_map e !! a);
      if vtr_next v =? 0 then Ok (with_vtrs e (vtr_free e) (vtr_map e) (l' ++ [a]))
      else
        e1 ← release_prfs a (prf_dlist v) e;
        release_voters l' (with_vtrs e1 (vtr_free e1 + 1) (delete a (vtr_map e1)) l')
  end.

(** Second pass: insert the new voters. *)
Fixpoint add_voters (ids : list fd_pubkey_t) (e : fd_eqvoc_t) : res fd_eqvoc_t :=
  match ids with
  | [] => Ok e
  | a :: ids' =>
      match vtr_map e !! a with
      | Some _ => add_voters ids' e
      | None =>
          n ← acquire (vtr_free e);
          m ← map_insert (vtr_map e) a (mk_vtr 0 0 []);
          add_voters ids' (with_vtrs e n m (vtr_dlist e ++ [a]))
      end
  end.

Definition fd_eqvoc_update_voters (e : fd_eqvoc_t) (id_keys : list fd_pubkey_t) : res fd_eqvoc_t :=
  m ← mark_all set_next (vtr_dlist e) (vtr_map e);
  e1 ← keep_voters id_keys (with_vtrs e (vtr_free e) m (vtr_dlist e));
  e2 ← release_voters (vtr_dlist e1) e1;
  add_voters id_keys e2.

End eqvoc.
