(* ===== verification/EqvocInv.v ===== *)
(** * Equivocation detection: the state invariant

    The recency lists of slots and FEC sets, the proofs that voters are sending
    us, and the operations on them. *)

From S2P Require Import Prelude Bits Bytes Shred Bmtree BmtreeRun ShredRoot Links Eqvoc.

#[local] Open Scope Z_scope.

(** ** Caches with eviction of the least recently used key *)

Record lru_wf (cap free : Z) (keys : gset Z) (l : list Z) : Prop := {
  lru_nodup : NoDup l;
  lru_keys x : x ∈ l <-> x ∈ keys;
  lru_free : 0 <= free /\ free + Z.of_nat (size keys) = cap;
  lru_cap : 0 < cap
}.

Lemma lru_touch cap free keys l x : lru_wf cap free keys l -> x ∈ keys ->
  exists l', dlist_remove x l = Ok l' /\ lru_wf cap free keys (l' ++ [x]).
Proof.
  intros [Hn Hk Hf Hc] Hx. destruct (dlist_remove_spec x l) as (l' & E & Hp); [done|by apply Hk|].
  exists l'. split; [done|]. assert (Hp' : l ≡ₚ l' ++ [x]) by (rewrite Hp; apply Permutation_cons_append).
  constructor; [by rewrite <- Hp'| |done|done]. intros y. by rewrite <- Hp', Hk.
Qed.

Lemma lru_delete cap free keys l x : lru_wf cap free keys l -> x ∈ keys ->
  exists l', dlist_remove x l = Ok l' /\ lru_wf cap (free + 1) (keys ∖ {[x]}) l'.
Proof.
  intros [Hn Hk Hf Hc] Hx. destruct (dlist_remove_spec x l) as (l' & E & Hp); [done|by apply Hk|].
  exists l'. split; [done|]. destruct (perm_cons_other x l l' Hn Hp) as [Hn' Ho]. constructor; [done| | |done].
  - intros y. rewrite Ho, Hk. set_solver.
  - rewrite size_difference, size_singleton by set_solver. assert (0 < size keys)%nat; [|lia].
    destruct (size keys) eqn:Es; [|lia]. apply size_empty_inv in Es. set_solver.
Qed.

Lemma lru_evict cap keys l : lru_wf cap 0 keys l -> exists x l', l = x :: l' /\ x ∈ keys /\ lru_wf cap 1 (keys ∖ {[x]}) l'.
Proof.
  intros W. pose proof W as [Hn Hk [_ Hf] Hc]. destruct l as [|x l].
  { exfalso. assert (keys ≡ ∅) as E by (intros y; rewrite <- Hk; set_solver). rewrite E, size_empty in Hf. lia. }
  exists x, l. split; [done|]. assert (Hx : x ∈ keys) by (apply Hk; left). split; [done|].
  destruct (lru_delete cap 0 keys (x :: l) x W Hx) as (l' & E & W'). simpl in E. rewrite Z.eqb_refl in E. by injection E as ->.
Qed.

Lemma lru_insert cap free keys l x : lru_wf cap free keys l -> 0 < free -> x ∉ keys ->
  lru_wf cap (free - 1) ({[x]} ∪ keys) (l ++ [x]).
Proof.
  intros [Hn Hk Hf Hc] Hpos Hx. constructor; [|  | |done].
  - apply NoDup_snoc; [done|]. by rewrite Hk.
  - intros y. rewrite elem_of_app, Hk. set_solver.
  - rewrite size_union, size_singleton by set_solver. lia.
Qed.

(** ** Shreds held by FEC set *)

(** A shred that has passed [fd_shred_parse]: all the bytes of its type. *)
Definition shred_ok (s : mem) : Prop :=
  exists bs rest, s = bytes bs ++ rest /\ Forall is_byte bs /\ FD_SHRED_MIN_SZ <= Z.of_nat (length bs) /\
    shred_size bs = Z.of_nat (length bs) /\ shred_size bs <= FD_SHRED_MAX_SZ.

Definition sample_ok (s : mem) : Prop := length s = Z.to_nat FD_SHRED_MAX_SZ /\ shred_ok s.

(** ** Proofs in progress *)

Definition chunk2_len (n : Z) : Prop :=
  n = FD_EQVOC_CHUNK2_LEN_CC \/ n = FD_EQVOC_CHUNK2_LEN_DD \/ n = FD_EQVOC_CHUNK2_LEN_DC \/ n = FD_EQVOC_CHUNK2_LEN_CD.

(** The length a chunk has, by its index. *)
Definition piece_len (i n : Z) : Prop := if i =? 2 then chunk2_len n else n = FD_EQVOC_CHUNK_SZ.

(** Chunk [i], when it has been received, is in its place. *)
Definition piece_ok (p : prf_t) (i : Z) (c : option (list Z)) : Prop :=
  Z.testbit (idxs p) i = bool_decide (is_Some c) /\
  forall bs, c = Some bs -> Forall is_byte bs /\ piece_len i (Z.of_nat (length bs)) /\
    region (buf p) (i * FD_EQVOC_CHUNK_SZ) (Z.of_nat (length bs)) = bytes bs.

Definition piece_sz (c : option (list Z)) : Z := from_option (fun bs => Z.of_nat (length bs)) 0 c.

(** The proof holds the chunks [cs 0], [cs 1] and [cs 2]. *)
Record prf_holds (p : prf_t) (cs : Z -> option (list Z)) : Prop := {
  ph_buf : Z.of_nat (length (buf p)) = PRF_BUF_SZ;
  ph_idxs : 0 <= idxs p < 8;
  ph_pieces i : 0 <= i < 3 -> piece_ok p i (cs i);
  ph_sz : buf_sz p = piece_sz (cs 0) + piece_sz (cs 1) + piece_sz (cs 2)
}.

Definition complete (cs : Z -> option (list Z)) : Prop := forall i, 0 <= i < 3 -> is_Some (cs i).

(** ** The invariant *)

(** The proofs of a voter, listed once and within the quota. *)
Definition vtr_wf (quota : Z) (pm : gmap (Z * fd_pubkey_t) prf_t) (a : fd_pubkey_t) (v : vtr_t) : Prop :=
  NoDup (prf_dlist v) /\ prf_dlist_cnt v = Z.of_nat (length (prf_dlist v)) /\ prf_dlist_cnt v <= quota /\
  forall s, s ∈ prf_dlist v <-> is_Some (pm !! (s, a)).

Record voters_wf (e : fd_eqvoc_t) : Prop := {
  vo_nodup : NoDup (vtr_dlist e);
  vo_list a : a ∈ vtr_dlist e <-> is_Some (vtr_map e !! a);
  vo_free : 0 <= vtr_free e /\ vtr_free e + Z.of_nat (size (vtr_map e)) = vtr_max e;
  vo_prfs a v : vtr_map e !! a = Some v -> vtr_wf (per_vtr_max e) (prf_map e) a v;
  vo_owner s a : is_Some (prf_map e !! (s, a)) -> is_Some (vtr_map e !! a);
  vo_pfree : prf_free e + Z.of_nat (size (prf_map e)) = per_vtr_max e * vtr_max e;
  vo_quota : 0 < per_vtr_max e <= ULONG_MAX
}.

(** No proof is complete: it is judged and released at once.  [busy] is the
    proof that is being judged. *)
Record eqvoc_wf_but (busy : option (Z * fd_pubkey_t)) (e : fd_eqvoc_t) : Prop := {
  ew_mem : memory_ok 7 (bmtree e).1 (bmtree e).2;
  ew_dups : lru_wf (dup_max e) (dup_free e) (dup_map e) (dup_dlist e);
  ew_fecs : lru_wf (fec_max e) (fec_free e) (dom (fec_map e)) (fec_dlist e);
  ew_samples k s : fec_map e !! k = Some s -> sample_ok s;
  ew_voters : voters_wf e;
  ew_proofs s a p : prf_map e !! (s, a) = Some p -> exists cs, prf_holds p cs /\ (busy <> Some (s, a) -> ~ complete cs)
}.

Abbreviation eqvoc_wf := (eqvoc_wf_but None).

(** ** Duplicate slots *)

Lemma dup_query_ok e slot : eqvoc_wf e ->
  exists l, dup_query e slot = Ok (with_dups e (dup_free e) (dup_map e) l, bool_decide (slot ∈ dup_map e)) /\
    eqvoc_wf (with_dups e (dup_free e) (dup_map e) l).
Proof.
  intros [W1 W2 W3 W4 W5 W6]. unfold dup_query. destruct (decide (slot ∈ dup_map e)) as [Hin|Hno].
  - destruct (lru_touch _ _ _ _ _ W2 Hin) as (l & -> & W2'). cbn [mbind res_bind]. exists (l ++ [slot]).
    rewrite bool_decide_eq_true_2 by done. split; [done|]. destruct W5. constructor; simpl; done.
  - exists (dup_dlist e). rewrite bool_decide_eq_false_2 by done. assert (with_dups e (dup_free e) (dup_map e) (dup_dlist e) = e) as -> by (by destruct e).
    split; [done|]. by constructor.
Qed.

(** The slots known after [slot] has been recorded: the least recently used one
    makes room when the cache is full. *)
Definition dup_record (e : fd_eqvoc_t) (slot : Z) : gset Z :=
  {[slot]} ∪ (if dup_free e =? 0 then dup_map e ∖ list_to_set (take 1 (dup_dlist e)) else dup_map e).

Lemma dup_insert_ok busy e slot : eqvoc_wf_but busy e -> slot ∉ dup_map e ->
  exists n l, dup_insert e slot = Ok (with_dups e n (dup_record e slot) l) /\
    eqvoc_wf_but busy (with_dups e n (dup_record e slot) l).
Proof.
  intros [W1 W2 W3 W4 W5 W6] Hno. unfold dup_insert, dup_record. destruct (Z.eqb_spec (dup_free e) 0) as [E|E].
  - rewrite E in W2. destruct (lru_evict _ _ _ W2) as (x & l & -> & Hx & W2'). cbn [mbind res_bind].
    simpl dup_free. rewrite E. change (acquire (0 + 1)) with (Ok 0). cbn [mbind res_bind]. simpl dup_map.
    rewrite decide_False by set_solver. exists 0, (l ++ [slot]). simpl. rewrite union_empty_r_L. split; [done|].
    destruct W5. constructor; simpl; try done.
    change 0 with (1 - 1). apply lru_insert; [done|lia|set_solver].
  - pose proof (lru_free _ _ _ _ W2) as [Hf _]. cbn [mbind res_bind]. unfold acquire. rewrite (proj2 (Z.leb_gt _ _)) by lia.
    cbn [mbind res_bind]. rewrite decide_False by done. eexists _, _. split; [done|].
    destruct W5. constructor; simpl; try done. apply lru_insert; [done|lia|done].
Qed.

(** ** FEC sets *)

Lemma fec_query_ok e slot x : eqvoc_wf e ->
  exists l, fec_query e slot x = Ok (with_fecs e (fec_free e) (fec_map e) l, fec_map e !! fec_key slot x) /\
    eqvoc_wf (with_fecs e (fec_free e) (fec_map e) l).
Proof.
  intros [W1 W2 W3 W4 W5 W6]. unfold fec_query. destruct (fec_map e !! fec_key slot x) as [s|] eqn:Es.
  - destruct (lru_touch _ _ _ _ (fec_key slot x) W3) as (l & -> & W3'); [apply elem_of_dom; eauto|]. cbn [mbind res_bind].
    exists (l ++ [fec_key slot x]). split; [done|]. destruct W5. constructor; simpl; done.
  - exists (fec_dlist e). assert (with_fecs e (fec_free e) (fec_map e) (fec_dlist e) = e) as -> by (by destruct e).
    split; [done|]. by constructor.
Qed.

(** A new FEC set: its shred is still to be written. *)
Lemma fec_insert_ok e slot x : eqvoc_wf e -> fec_map e !! fec_key slot x = None ->
  exists n m l, fec_insert e slot x = Ok (with_fecs e n (<[fec_key slot x := uninit FD_SHRED_MAX_SZ]> m) l) /\ m ⊆ fec_map e /\
    forall s, sample_ok s -> eqvoc_wf (with_fecs e n (<[fec_key slot x := s]> m) l).
Proof.
  intros [W1 W2 W3 W4 W5 W6] Hno. unfold fec_insert. set (key := fec_key slot x) in *.
  assert (Hev : exists n m l, (if fec_free e =? 0 then match fec_dlist e with [] => Ub
      | k :: l => Ok (with_fecs e (fec_free e + 1) (delete k (fec_map e)) l) end else Ok e) = Ok (with_fecs e n m l) /\
    0 < n /\ m ⊆ fec_map e /\ lru_wf (fec_max e) n (dom m) l).
  { destruct (Z.eqb_spec (fec_free e) 0) as [E|E].
    - rewrite E in W3. destruct (lru_evict _ _ _ W3) as (k & l & -> & Hk & W3'). rewrite E.
      eexists _, _, _. split; [done|]. split_and!; [lia|apply delete_subseteq|]. by rewrite dom_delete_L.
    - pose proof (lru_free _ _ _ _ W3) as [Hf _]. exists (fec_free e), (fec_map e), (fec_dlist e). split; [by destruct e|].
      split_and!; [lia|done|done]. }
  destruct Hev as (n & m & l & -> & Hn & Hm & W3'). cbn [mbind res_bind]. simpl. unfold acquire.
  rewrite (proj2 (Z.leb_gt _ _)) by lia. cbn [mbind res_bind]. unfold map_insert.
  assert (Hk : m !! key = None) by (destruct (m !! key) eqn:E; [|done]; eapply lookup_weaken in E; [|exact Hm]; congruence).
  rewrite Hk. cbn [mbind res_bind]. exists (n - 1), m, (l ++ [key]). split; [done|]. split; [done|]. intros s Hs.
  destruct W5. constructor; simpl; try done.
  - rewrite dom_insert_L. apply lru_insert; [done|done|]. by apply not_elem_of_dom.
  - intros k s' [[<- <-]|[_ Hs']]%lookup_insert_Some; [done|]. eapply W4, lookup_weaken; [exact Hs'|done].
Qed.

(** Overwriting the shred of a FEC set. *)
Lemma fec_store_ok e k s : eqvoc_wf e -> is_Some (fec_map e !! k) -> sample_ok s ->
  eqvoc_wf (with_fecs e (fec_free e) (<[k := s]> (fec_map e)) (fec_dlist e)).
Proof.
  intros [W1 W2 W3 W4 W5 W6] Hk Hs. destruct W5. constructor; simpl; try done.
  - assert (dom (<[k := s]> (fec_map e)) = dom (fec_map e)) as -> by (rewrite dom_insert_L; apply elem_of_dom in Hk; set_solver). done.
  - intros k' s' [[<- <-]|[_ Hs']]%lookup_insert_Some; [done|by eapply W4].
Qed.

(** A FEC set leaves. *)
Lemma fec_remove_ok e k : eqvoc_wf e -> is_Some (fec_map e !! k) ->
  exists l, dlist_remove k (fec_dlist e) = Ok l /\ eqvoc_wf (with_fecs e (fec_free e + 1) (delete k (fec_map e)) l).
Proof.
  intros [W1 W2 W3 W4 W5 W6] Hk. destruct (lru_delete _ _ _ _ k W3) as (l & E & W3'); [by apply elem_of_dom|].
  exists l. split; [done|]. destruct W5. constructor; simpl; try done.
  - by rewrite dom_delete_L.
  - intros k' s [_ Hs]%lookup_delete_Some. by eapply W4.
Qed.
