(* ===== verification/EqvocChunks.v ===== *)
(** * Equivocation detection: proofs as chunks

    A proof is the bytes of two length-prefixed shreds, cut into three chunks.
    [construct_proof] writes them, [fd_eqvoc_chunk_insert] puts them back in
    place in any order, [parse_proof] recovers the shreds. *)

From S2P Require Import Prelude Bits Bytes Shred Bmtree BmtreeRun ShredRoot Links Eqvoc EqvocInv.

#[local] Open Scope Z_scope.

(** ** Receiving a chunk *)

Definition set_piece (cs : Z -> option (list Z)) (i : Z) (bs : list Z) : Z -> option (list Z) :=
  fun j => if j =? i then Some bs else cs j.

Lemma piece_len_range i n : 0 <= i < 3 -> piece_len i n -> 0 <= n <= FD_EQVOC_CHUNK_SZ /\ i * FD_EQVOC_CHUNK_SZ + n <= PRF_BUF_SZ.
Proof.
  intros Hi. unfold piece_len, chunk2_len. assert (i = 0 \/ i = 1 \/ i = 2) as [->|[->| ->]] by lia; simpl Z.eqb; cbv iota.
  - intros ->. cbv. split; [split|]; congruence.
  - intros ->. cbv. split; [split|]; congruence.
  - intros [->|[->|[->| ->]]]; cbv; (split; [split|]; congruence).
Qed.

Lemma piece_sz_range i c p : 0 <= i < 3 -> piece_ok p i c -> 0 <= piece_sz c <= FD_EQVOC_CHUNK_SZ.
Proof.
  intros Hi [_ H]. destruct c as [bs|]; simpl; [|unfold FD_EQVOC_CHUNK_SZ; lia].
  destruct (H bs eq_refl) as (_ & Hl & _). by apply (piece_len_range i).
Qed.

(** Storing a chunk that has not been received yet. *)
Lemma store_piece p cs i src cb :
  prf_holds p cs -> 0 <= i < 3 -> cs i = None -> Forall is_byte cb -> region src 0 (Z.of_nat (length cb)) = bytes cb ->
  piece_len i (Z.of_nat (length cb)) ->
  exists b, memcpy (buf p) (u64 (i * FD_EQVOC_CHUNK_SZ)) src (Z.of_nat (length cb)) = Ok b /\
    prf_holds (mk_prf (Z.lor (idxs p) (Z.shiftl 1 i)) (u64 (buf_sz p + Z.of_nat (length cb))) b) (set_piece cs i cb).
Proof.
  intros [Hb Hx Hp Hs] Hi Hno Hcb Hsrc Hn. set (n := Z.of_nat (length cb)) in *. pose proof (piece_len_range i n Hi Hn) as [Hn0 Hfit].
  rewrite (u64_small (i * FD_EQVOC_CHUNK_SZ)) by (unfold is_u64, ULONG_MAX, FD_EQVOC_CHUNK_SZ in *; lia).
  assert (Hl : n <= Z.of_nat (length src)).
  { apply (f_equal length) in Hsrc. rewrite region_0, length_take, bytes_length in Hsrc. lia. }
  assert (Hmem : exists b, memcpy (buf p) (i * FD_EQVOC_CHUNK_SZ) src n = Ok b).
  { rewrite memcpy_ok; [by eexists| |lia|lia|lia]. unfold FD_EQVOC_CHUNK_SZ. lia. }
  destruct Hmem as [b Eb]. exists b. split; [done|].
  assert (Hlen : Z.of_nat (length cb) = n) by done.
  assert (Hsz : forall j, 0 <= j < 3 -> 0 <= piece_sz (cs j) <= FD_EQVOC_CHUNK_SZ) by (intros j Hj; by apply (piece_sz_range j _ p), Hp).
  assert (Hd1 : forall j, 0 <= j < 3 -> j <> i -> forall k, 0 <= k <= FD_EQVOC_CHUNK_SZ ->
    region b (j * FD_EQVOC_CHUNK_SZ) k = region (buf p) (j * FD_EQVOC_CHUNK_SZ) k).
  { intros j Hj Hne k Hk. eapply region_memcpy_other; [exact Eb| |lia|]; unfold FD_EQVOC_CHUNK_SZ in *; lia. }
  constructor; simpl.
  - by rewrite (memcpy_length _ _ _ _ _ Eb).
  - split; [apply Z.lor_nonneg; split; [lia|apply Z.shiftl_nonneg; lia]|].
    assert (Z.log2 (Z.lor (idxs p) (Z.shiftl 1 i)) < 3); [|apply Z.log2_lt_cancel; change (Z.log2 8) with 3; done].
    rewrite Z.log2_lor; [|lia|apply Z.shiftl_nonneg; lia]. rewrite Z.shiftl_1_l, Z.log2_pow2 by lia.
    apply Z.max_lub_lt; [|lia]. destruct (Z.eq_dec (idxs p) 0) as [->|]; [by cbv|]. apply Z.log2_lt_pow2; lia.
  - intros j Hj. unfold set_piece, piece_ok. simpl. rewrite Z.lor_spec, Z.shiftl_1_l, Z.pow2_bits_eqb by lia.
    destruct (Z.eqb_spec i j) as [<-|Hne].
    + rewrite Z.eqb_refl, orb_true_r. split; [done|]. intros bs [= <-]. split_and!; [done|done|].
      rewrite Hlen. erewrite region_memcpy by exact Eb. by rewrite region_0 in Hsrc.
    + rewrite (proj2 (Z.eqb_neq j i)) by congruence. rewrite orb_false_r. destruct (Hp j Hj) as [E H]. split; [done|].
      intros bs Ebs. destruct (H bs Ebs) as (H1 & H2 & H3). split_and!; [done|done|]. rewrite <- H3. apply Hd1; [done|congruence|].
      by apply (piece_len_range j).
  - rewrite Hs. rewrite u64_small.
    + assert (i = 0 \/ i = 1 \/ i = 2) as [->|[->| ->]] by lia; unfold set_piece; simpl; rewrite Hno, Hlen; simpl; lia.
    + pose proof (Hsz 0 ltac:(lia)). pose proof (Hsz 1 ltac:(lia)). pose proof (Hsz 2 ltac:(lia)).
      unfold is_u64, ULONG_MAX, FD_EQVOC_CHUNK_SZ in *. lia.
Qed.

(** A new proof holds nothing. *)
Lemma new_prf_holds : prf_holds (mk_prf 0 0 (uninit PRF_BUF_SZ)) (fun _ => None).
Proof.
  constructor; cbn [buf idxs buf_sz]; [unfold uninit; by rewrite length_replicate|lia| |done].
  intros i Hi. split; [by rewrite Z.bits_0|done].
Qed.

Lemma complete_iff p cs : prf_holds p cs -> (idxs p =? 7) = true <-> complete cs.
Proof.
  intros [_ Hx Hp _]. rewrite Z.eqb_eq. split.
  - intros E i Hi. destruct (Hp i Hi) as [H _]. rewrite E in H. apply (bool_decide_eq_true (is_Some (cs i))).
    rewrite <- H. assert (i = 0 \/ i = 1 \/ i = 2) as [->|[->| ->]] by lia; done.
  - intros Hc. apply Z.bits_inj'. intros i Hi. destruct (Z.lt_ge_cases i 3) as [Hlt|Hge].
    + destruct (Hp i ltac:(lia)) as [H _]. rewrite H, bool_decide_eq_true_2 by (apply Hc; lia).
      assert (i = 0 \/ i = 1 \/ i = 2) as [->|[->| ->]] by lia; done.
    + destruct (Z.eq_dec (idxs p) 0) as [E|].
      { exfalso. destruct (Hp 0 ltac:(lia)) as [H _]. rewrite E, bool_decide_eq_true_2 in H by (apply Hc; lia). done. }
      rewrite !Z.bits_above_log2; try done; try lia; change (Z.log2 7) with 2; try lia.
      assert (Z.log2 (idxs p) < 3) by (apply Z.log2_lt_pow2; lia). lia.
Qed.

(** The reassembled proof. *)
Lemma complete_buf p cs c0 c1 c2 : prf_holds p cs -> cs 0 = Some c0 -> cs 1 = Some c1 -> cs 2 = Some c2 ->
  exists rest, buf p = bytes (c0 ++ c1 ++ c2) ++ rest /\ buf_sz p = Z.of_nat (length (c0 ++ c1 ++ c2)) /\
    Forall is_byte (c0 ++ c1 ++ c2) /\ buf_sz p <= PRF_BUF_SZ.
Proof.
  intros [Hb Hx Hp Hs] E0 E1 E2.
  destruct (Hp 0 ltac:(lia)) as [_ H0]. destruct (H0 c0 E0) as (B0 & L0 & R0).
  destruct (Hp 1 ltac:(lia)) as [_ H1]. destruct (H1 c1 E1) as (B1 & L1 & R1).
  destruct (Hp 2 ltac:(lia)) as [_ H2]. destruct (H2 c2 E2) as (B2 & L2 & R2).
  pose proof (piece_len_range 2 _ ltac:(lia) L2) as [Hn2 Hfit]. unfold piece_len in L0, L1. simpl Z.eqb in L0, L1. cbv iota in L0, L1.
  rewrite E0, E1, E2 in Hs. simpl in Hs. rewrite !length_app.
  assert (HE : region (buf p) 0 (buf_sz p) = bytes (c0 ++ c1 ++ c2)).
  { rewrite !bytes_app, <- R0, <- R1, <- R2, Hs, L0, L1.
    replace (2 * FD_EQVOC_CHUNK_SZ) with (1 * FD_EQVOC_CHUNK_SZ + FD_EQVOC_CHUNK_SZ) by lia.
    rewrite region_app by (unfold FD_EQVOC_CHUNK_SZ in *; lia). change (1 * FD_EQVOC_CHUNK_SZ) with (0 * FD_EQVOC_CHUNK_SZ + FD_EQVOC_CHUNK_SZ).
    rewrite region_app by (unfold FD_EQVOC_CHUNK_SZ in *; lia). f_equal. lia. }
  exists (drop (Z.to_nat (buf_sz p)) (buf p)). rewrite region_0 in HE. split_and!.
  - by rewrite <- HE, take_drop.
  - lia.
  - by rewrite !Forall_app.
  - lia.
Qed.
