(* ===== verification/EqvocSerde.v ===== *)
(** * Equivocation detection: reading, writing and judging proofs

    [parse_proof] accepts exactly the serialisations of two shreds,
    [construct_proof] writes the serialisation as three chunks, and
    [verify_proof] computes the verdict of two shreds. *)

From S2P Require Import Prelude Bits Bytes Shred Bmtree BmtreeRun ShredRoot Links Eqvoc EqvocInv EqvocChunks.

#[local] Open Scope Z_scope.

(** The bytes of a proof: two length-prefixed shreds. *)
Definition sized (b : list Z) : list Z := le_bytes 8 (Z.of_nat (length b)) ++ b.
Definition serial (b1 b2 : list Z) : list Z := sized b1 ++ sized b2.

Definition f_slot (b : list Z) : Z := fld b 0x41 8.

Lemma sized_length b : Z.of_nat (length (sized b)) = 8 + Z.of_nat (length b).
Proof. unfold sized. rewrite length_app, le_bytes_length. lia. Qed.

Lemma parsed_length b : parsed b -> 0x58 <= Z.of_nat (length b).
Proof.
  intros (_ & _ & E). destruct (shred_parse_total b [] FD_SHRED_BLK_MAX) as (c & Ec & H). rewrite app_nil_r in Ec.
  rewrite E in Ec. injection Ec as <-. by apply H.
Qed.

(** The length prefix makes the pieces unambiguous. *)
Lemma sized_inj b b' t t' : Z.of_nat (length b) < 2 ^ 64 -> Z.of_nat (length b') < 2 ^ 64 -> sized b ++ t = sized b' ++ t' -> b = b' /\ t = t'.
Proof.
  intros Hb Hb' E. unfold sized in E. rewrite <- !app_assoc in E. pose proof (f_equal (take 8) E) as E8.
  rewrite !take_app_length' in E8 by (by rewrite le_bytes_length). apply (f_equal le_val) in E8.
  rewrite !le_val_bytes in E8 by (change (256 ^ Z.of_nat 8) with (2 ^ 64); lia). rewrite E8 in E. apply app_inv_head in E.
  apply app_inj_1 in E as [-> ->]; [done|lia].
Qed.

Lemma serial_inj b1 b2 b1' b2' : Z.of_nat (length (serial b1 b2)) < 2 ^ 64 -> serial b1 b2 = serial b1' b2' -> b1 = b1' /\ b2 = b2'.
Proof.
  intros Hl E. pose proof (f_equal length E) as El. unfold serial in Hl, El, E. rewrite (length_app (sized b1)), (length_app (sized b1')) in El. rewrite length_app in Hl.
  pose proof (sized_length b1). pose proof (sized_length b2). pose proof (sized_length b1'). pose proof (sized_length b2').
  apply sized_inj in E as [-> E]; [|lia|lia]. rewrite <- (app_nil_r (sized b2)), <- (app_nil_r (sized b2')) in E.
  by apply sized_inj in E as [-> _]; [|lia|lia].
Qed.

(** ** Reading *)

Section reading.
Context (bs : list Z) (rest : mem).
Hypothesis bs_bytes : Forall is_byte bs.
Hypothesis bs_small : Z.of_nat (length bs) <= PRF_BUF_SZ.

Lemma parse_sized_ok off : 0 <= off <= Z.of_nat (length bs) ->
  exists o, parse_sized (bytes bs ++ rest) (Z.of_nat (length bs)) off = Ok o /\
    match o with
    | None => forall b tail, parsed b -> drop (Z.to_nat off) bs <> sized b ++ tail
    | Some (s, off') => exists b tail, parsed b /\ drop (Z.to_nat off) bs = sized b ++ tail /\
        s = bytes b ++ (bytes tail ++ rest) /\ off' = off + 8 + Z.of_nat (length b)
    end.
Proof using bs_bytes bs_small.
  intros Ho. set (D := drop (Z.to_nat off) bs). assert (HD : Z.of_nat (length D) = Z.of_nat (length bs) - off) by (unfold D; rewrite length_drop; lia).
  assert (HDb : Forall is_byte D) by (by apply Forall_drop). unfold PRF_BUF_SZ, FD_SHRED_MAX_SZ in bs_small.
  unfold parse_sized. rewrite (u64_small (Z.of_nat (length bs) - off)) by (unfold is_u64, ULONG_MAX; lia).
  destruct (Z.ltb_spec (Z.of_nat (length bs) - off) 8) as [Hlt|Hge].
  { exists None. split; [done|]. intros b tail _ E. apply (f_equal length) in E. rewrite length_app in E. pose proof (sized_length b). lia. }
  rewrite load_bytes by lia. cbn [mbind res_bind]. fold D. change (Z.to_nat 8) with 8%nat.
  set (sz := le_val (take 8 D)). assert (Ht8 : length (take 8 D) = 8%nat) by (rewrite length_take; lia).
  assert (Hsz : 0 <= sz < 256 ^ 8).
  { pose proof (le_val_range (take 8 D) (Forall_take _ 8 D HDb)) as H. by rewrite Ht8 in H. }
  assert (Hle : le_bytes 8 sz = take 8 D) by (unfold sz; rewrite <- Ht8 at 1; apply le_bytes_val; by apply Forall_take).
  rewrite (u64_small (off + 8)) by (unfold is_u64, ULONG_MAX; lia). rewrite u64_small by (unfold is_u64, ULONG_MAX; lia).
  assert (Huniq : forall b tail, D = sized b ++ tail -> Z.of_nat (length b) = sz /\ b ++ tail = drop 8 D).
  { intros b tail E. unfold sized in E. rewrite E, <- !app_assoc. rewrite drop_app_length' by (by rewrite le_bytes_length). split; [|done].
    unfold sz. rewrite E, <- !app_assoc, take_app_length' by (by rewrite le_bytes_length). symmetry. apply le_val_bytes.
    apply (f_equal length) in E. rewrite !length_app, le_bytes_length in E. change (256 ^ Z.of_nat 8) with (2 ^ 64). lia. }
  destruct (Z.ltb_spec (Z.of_nat (length bs) - (off + 8)) sz) as [Hlt|Hle'].
  { exists None. split; [done|]. intros b tail _ E. destruct (Huniq b tail E) as [El Eb].
    apply (f_equal length) in Eb. rewrite length_app, length_drop in Eb. lia. }
  rewrite advance_ok by (rewrite length_app, bytes_length; lia). cbn [mbind res_bind].
  rewrite drop_app_le by (rewrite bytes_length; lia). rewrite drop_bytes.
  replace (Z.to_nat (off + 8)) with (Z.to_nat off + 8)%nat by lia. rewrite <- drop_drop. fold D.
  set (b := take (Z.to_nat sz) (drop 8 D)). set (tail := drop (Z.to_nat sz) (drop 8 D)).
  assert (Hb : Z.of_nat (length b) = sz) by (unfold b; rewrite length_take, length_drop; lia).
  assert (Hsplit : bytes (drop 8 D) ++ rest = bytes b ++ (bytes tail ++ rest)).
  { rewrite app_assoc, <- bytes_app. unfold b, tail. by rewrite take_drop. }
  destruct (shred_parse_total b [] FD_SHRED_BLK_MAX) as (c & Ec & Hc). rewrite app_nil_r in Ec.
  assert (Ep : fd_shred_parse (bytes b ++ (bytes tail ++ rest)) sz FD_SHRED_BLK_MAX = Ok c)
    by (rewrite <- Hb; by rewrite shred_parse_ext).
  rewrite Hsplit, Ep. cbn [mbind res_bind].
  assert (Hbb : forall b' tail', D = sized b' ++ tail' -> b' = b).
  { intros b' tail' E. destruct (Huniq b' tail' E) as [El Eb]. unfold b. rewrite <- Eb, <- El, Nat2Z.id. by rewrite take_app_length. }
  destruct c; simpl negb; cbv iota.
  2: { exists None. split; [done|]. intros b' tail' (_ & _ & Hp) E. rewrite (Hbb b' tail' E), Ec in Hp. done. }
  rewrite fd_shred_sz_ok by (by apply Hc). cbn [mbind res_bind].
  destruct (Z.eqb_spec (shred_size b) sz) as [Es|Es]; simpl negb; cbv iota.
  - exists (Some (bytes b ++ bytes tail ++ rest, u64 (off + 8 + sz))). split; [done|]. exists b, tail. split_and!.
    + split_and!; [unfold b; by apply Forall_take, Forall_drop|by rewrite Es, Hb|done].
    + unfold sized. rewrite Hb, Hle, <- app_assoc. unfold b, tail. by rewrite !take_drop.
    + done.
    + rewrite u64_small by (unfold is_u64, ULONG_MAX; lia). lia.
  - exists None. split; [done|]. intros b' tail' (_ & Hp & _) E. rewrite (Hbb b' tail' E), Hb in Hp. done.
Qed.

Lemma parse_proof_ok slot :
  exists o, parse_proof (bytes bs ++ rest) (Z.of_nat (length bs)) slot = Ok o /\
    match o with
    | None => forall b1 b2, parsed b1 -> parsed b2 -> f_slot b1 = slot -> f_slot b2 = slot -> bs <> serial b1 b2
    | Some (s1, s2) => exists b1 b2 r1 r2, bs = serial b1 b2 /\ parsed b1 /\ parsed b2 /\ f_slot b1 = slot /\ f_slot b2 = slot /\
        s1 = bytes b1 ++ r1 /\ s2 = bytes b2 ++ r2
    end.
Proof using bs_bytes bs_small.
  unfold parse_proof. destruct (parse_sized_ok 0 ltac:(lia)) as (o1 & -> & H1). cbn [mbind res_bind].
  destruct o1 as [[s1 off1]|]; [|exists None; split; [done|]; intros b1 b2 P1 _ _ _ E; by apply (H1 b1 (sized b2))].
  destruct H1 as (b1 & t1 & P1 & E1 & -> & ->). rewrite drop_0 in E1.
  pose proof (f_equal length E1) as El. rewrite length_app in El. pose proof (sized_length b1) as L1.
  assert (Ed : drop (Z.to_nat (0 + 8 + Z.of_nat (length b1))) bs = t1) by (rewrite E1; apply drop_app_length'; pose proof (sized_length b1); lia).
  assert (Hser : forall b1' b2', bs = serial b1' b2' -> b1' = b1 /\ t1 = sized b2').
  { intros b1' b2' E. pose proof (f_equal length E) as El'. unfold serial in El'. rewrite length_app in El'. pose proof (sized_length b1').
    pose proof bs_small. unfold PRF_BUF_SZ, FD_SHRED_MAX_SZ in *. rewrite E1 in E. by apply sized_inj in E as [-> ->]; [|lia|lia]. }
  destruct (parse_sized_ok (0 + 8 + Z.of_nat (length b1)) ltac:(lia)) as (o2 & -> & H2). cbn [mbind res_bind].
  destruct o2 as [[s2 off2]|].
  2: { exists None. split; [done|]. intros b1' b2' P1' P2' _ _ E. destruct (Hser b1' b2' E) as [-> Et].
       apply (H2 b2' [] P2'). by rewrite app_nil_r, Ed. }
  destruct H2 as (b2 & t2 & P2 & E2 & -> & ->). rewrite Ed in E2.
  pose proof (f_equal length E2) as El2. rewrite length_app in El2. pose proof (sized_length b2) as L2.
  assert (Hser2 : forall b1' b2', bs = serial b1' b2' -> t2 = [] /\ b1' = b1 /\ b2' = b2).
  { intros b1' b2' E. destruct (Hser b1' b2' E) as [-> Et]. pose proof (f_equal length Et) as El'. pose proof (sized_length b2').
    pose proof bs_small. unfold PRF_BUF_SZ, FD_SHRED_MAX_SZ in *. rewrite E2, <- (app_nil_r (sized b2')) in Et. by apply sized_inj in Et as [-> ->]; [|lia|lia]. }
  destruct (Z.eqb_spec (0 + 8 + Z.of_nat (length b1) + 8 + Z.of_nat (length b2)) (Z.of_nat (length bs))) as [Eo|Eo]; simpl negb; cbv iota.
  2: { exists None. split; [done|]. intros b1' b2' P1' P2' _ _ E. destruct (Hser2 b1' b2' E) as (-> & _). simpl in El2. lia. }
  assert (t2 = []) as -> by (apply nil_length_inv; lia). rewrite app_nil_r in E2.
  pose proof (parsed_length b1 P1). pose proof (parsed_length b2 P2).
  unfold sh_slot. rewrite !load_bytes by lia. cbn [mbind res_bind]. fold (fld b1 0x41 8) (fld b2 0x41 8). fold (f_slot b1) (f_slot b2).
  destruct (Z.eqb_spec (f_slot b1) slot) as [S1|S1], (Z.eqb_spec (f_slot b2) slot) as [S2|S2]; simpl negb; simpl orb; cbv iota.
  1: { eexists. split; [done|]. exists b1, b2, (bytes t1 ++ rest), ([] ++ rest). split_and!; try done. by rewrite E1, E2. }
  all: exists None; (split; [done|]); intros b1' b2' P1' P2' Z1 Z2 E; destruct (Hser2 b1' b2' E) as (_ & -> & ->); done.
Qed.

End reading.

(** ** Writing *)

(** The part of a proof that chunk [i] carries. *)
Definition cut (bs : list Z) (i : Z) : list Z :=
  take (Z.to_nat FD_EQVOC_CHUNK_SZ) (drop (Z.to_nat (FD_EQVOC_CHUNK_SZ * i)) bs).

Lemma cut_app a b c : Z.of_nat (length a) = FD_EQVOC_CHUNK_SZ -> Z.of_nat (length b) = FD_EQVOC_CHUNK_SZ ->
  Z.of_nat (length c) <= FD_EQVOC_CHUNK_SZ ->
  cut (a ++ b ++ c) 0 = a /\ cut (a ++ b ++ c) 1 = b /\ cut (a ++ b ++ c) 2 = c.
Proof.
  unfold cut, FD_EQVOC_CHUNK_SZ. intros Ha Hb Hc. split_and!.
  - rewrite drop_0. apply take_app_length'. lia.
  - rewrite drop_app_length' by lia. apply take_app_length'. lia.
  - rewrite app_assoc, drop_app_length' by (rewrite length_app; lia). apply take_ge. lia.
Qed.

(** The arrays a proof is written to. *)
Definition out_ok (out : list fd_gossip_duplicate_shred_t) : Prop :=
  length out = 3%nat /\ Forall (fun c => length (chunk c) = 1055%nat) out.

(** [c] is chunk [i] of the proof [bs] for a slot. *)
Record chunk_of (slot : Z) (bs : list Z) (i : Z) (c : fd_gossip_duplicate_shred_t) : Prop := {
  co_index : ck_index c = i /\ chunk_index c = i;
  co_slot : ck_slot c = slot;
  co_num : num_chunks c = FD_EQVOC_CHUNK_CNT;
  co_len : chunk_len c = Z.of_nat (length (cut bs i));
  co_bytes : region (chunk c) 0 (chunk_len c) = bytes (cut bs i)
}.

(** A shred of one of the two sizes proofs are made of. *)
Definition full_sized (b : list Z) : Prop :=
  Forall is_byte b /\ shred_size b = Z.of_nat (length b) /\ FD_SHRED_MIN_SZ <= Z.of_nat (length b) <= FD_SHRED_MAX_SZ.

Lemma store8_ok dst off x : 0 <= off -> off + 8 <= Z.of_nat (length dst) -> exists m, store8 dst off x = Ok m.
Proof. intros. unfold store8. rewrite memcpy_ok; [by eexists|lia..|]. rewrite bytes_length, le_bytes_length. lia. Qed.

Lemma store8_region dst off x m : store8 dst off x = Ok m -> region m off 8 = bytes (le_bytes 8 x).
Proof. intros E. rewrite (region_memcpy _ _ _ _ _ E). apply take_ge. by rewrite bytes_length, le_bytes_length. Qed.

(** The first chunk. *)
Lemma write_first o b rest : length o = 1055%nat -> full_sized b ->
  exists m, (b0 ← store8 o 0 (shred_size b); memcpy b0 8 (bytes b ++ rest) (FD_EQVOC_CHUNK_SZ - 8)) = Ok m /\ length m = 1055%nat /\
    region m 0 FD_EQVOC_CHUNK_SZ = bytes (le_bytes 8 (shred_size b) ++ take 1046 b).
Proof.
  unfold FD_EQVOC_CHUNK_SZ. intros Ho (_ & Hs & Hl). unfold FD_SHRED_MIN_SZ in Hl.
  destruct (store8_ok o 0 (shred_size b)) as [m0 E0]; [lia|lia|]. rewrite E0. cbn [mbind res_bind].
  pose proof (memcpy_length _ _ _ _ _ E0) as L0. destruct (memcpy m0 8 (bytes b ++ rest) (1232 - 115 - 63 - 8)) as [m| | |] eqn:E1;
    try (rewrite memcpy_ok in E1 by (rewrite ?length_app, ?bytes_length; lia); done).
  exists m. pose proof (memcpy_length _ _ _ _ _ E1). split; [done|]. split; [lia|].
  change (1232 - 115 - 63) with (8 + 1046). rewrite <- region_app by lia. rewrite bytes_app. f_equal.
  - rewrite (region_memcpy_other _ _ _ _ _ 0 8 E1) by lia. by apply (store8_region o).
  - rewrite Z.add_0_l. change 1046 with (1232 - 115 - 63 - 8). rewrite (region_memcpy _ _ _ _ _ E1), take_app_le, take_bytes by (rewrite bytes_length; lia). done.
Qed.

(** The second chunk: the rest of the first shred, the start of the second. *)
Lemma write_second o p1 sz2 b2 rest r k : length o = 1055%nat -> 0 <= r -> 0 <= k -> r + 8 + k <= 1055 ->
  Z.of_nat (length p1) = r -> forall q, k <= Z.of_nat (length b2) ->
  exists m, (b1 ← memcpy o 0 (bytes p1 ++ q) r; b1 ← store8 b1 r sz2; memcpy b1 (r + 8) (bytes b2 ++ rest) k) = Ok m /\
    length m = 1055%nat /\ region m 0 (r + 8 + k) = bytes (p1 ++ le_bytes 8 sz2 ++ take (Z.to_nat k) b2).
Proof.
  intros Ho Hr Hk Hfit Hp q Hb.
  destruct (memcpy o 0 (bytes p1 ++ q) r) as [m0| | |] eqn:E0; try (rewrite memcpy_ok in E0 by (rewrite ?length_app, ?bytes_length; lia); done).
  cbn [mbind res_bind]. pose proof (memcpy_length _ _ _ _ _ E0). destruct (store8_ok m0 r sz2) as [m1 E1]; [lia|lia|].
  rewrite E1. cbn [mbind res_bind]. pose proof (memcpy_length _ _ _ _ _ E1).
  destruct (memcpy m1 (r + 8) (bytes b2 ++ rest) k) as [m| | |] eqn:E2; try (rewrite memcpy_ok in E2 by (rewrite ?length_app, ?bytes_length; lia); done).
  exists m. pose proof (memcpy_length _ _ _ _ _ E2). split; [done|]. split; [lia|].
  rewrite <- region_app by lia. rewrite Z.add_0_l. rewrite (region_memcpy _ _ _ _ _ E2), take_app_le, take_bytes by (rewrite bytes_length; lia).
  rewrite app_assoc, (bytes_app (p1 ++ _)). f_equal. rewrite (region_memcpy_other _ _ _ _ _ 0 (r + 8) E2) by lia.
  rewrite <- region_app by lia. rewrite Z.add_0_l, (store8_region _ _ _ _ E1), (region_memcpy_other _ _ _ _ _ 0 r E1) by lia.
  rewrite (region_memcpy _ _ _ _ _ E0), take_app_length' by (rewrite bytes_length; lia). by rewrite bytes_app.
Qed.

Lemma construct_proof_ok b1 b2 r1 r2 out : full_sized b1 -> full_sized b2 -> out_ok out ->
  exists c0 c1 c2, construct_proof (bytes b1 ++ r1) (bytes b2 ++ r2) out = Ok [c0; c1; c2] /\ out_ok [c0; c1; c2] /\
    chunk_of (f_slot b1) (serial b1 b2) 0 c0 /\ chunk_of (f_slot b1) (serial b1 b2) 1 c1 /\ chunk_of (f_slot b1) (serial b1 b2) 2 c2.
Proof.
  intros F1 F2 [Hlen Hout]. pose proof F1 as (B1 & S1 & Hl1). pose proof F2 as (B2 & S2 & Hl2). unfold FD_SHRED_MIN_SZ, FD_SHRED_MAX_SZ in Hl1, Hl2.
  destruct out as [|o0 [|o1 [|o2 [|]]]]; try done. rewrite !Forall_cons in Hout. destruct Hout as (L0 & L1 & L2 & _).
  unfold construct_proof, sh_slot. rewrite load_fld by lia. rewrite !fd_shred_sz_ok by lia. cbn [mbind res_bind]. fold (f_slot b1).
  change (aget [o0; o1; o2] 0) with (Ok o0). change (aget [o0; o1; o2] 1) with (Ok o1). change (aget [o0; o1; o2] 2) with (Ok o2). cbn [mbind res_bind].
  destruct (write_first (chunk o0) b1 r1 L0 F1) as (m0 & E0 & M0 & R0).
  destruct (store8 (chunk o0) 0 (shred_size b1)) as [t0| | |]; try done. cbn [mbind res_bind] in E0 |- *. rewrite E0. cbn [mbind res_bind].
  unfold FD_EQVOC_CHUNK_SZ in *. change (1232 - 115 - 63 - 8) with 1046. change (1232 - 115 - 63) with 1054 in *.
  rewrite (advance_ok (bytes b1 ++ r1)) by (rewrite length_app, bytes_length; lia). cbn [mbind res_bind].
  rewrite drop_app_le, drop_bytes by (rewrite bytes_length; lia). 
  remember (Z.of_nat (length b1) - 1046) as r eqn:Er. remember (2092 - Z.of_nat (length b1)) as k eqn:Ek.
  rewrite S1, S2, <- Er. rewrite (u64_small r) by (unfold is_u64, ULONG_MAX; lia).
  rewrite (u64_small (r + 8)) by (unfold is_u64, ULONG_MAX; lia).
  rewrite (u64_small (1054 - (r + 8))) by (unfold is_u64, ULONG_MAX; lia). replace (1054 - (r + 8)) with k by lia.
  rewrite (u64_small (Z.of_nat (length b2) - k)) by (unfold is_u64, ULONG_MAX; lia).
  destruct (write_second (chunk o1) (drop (Z.to_nat 1046) b1) (Z.of_nat (length b2)) b2 r2 r k L1) with (q := r1) as (m1 & E1 & M1 & R1);
    [lia|lia|lia|rewrite length_drop; lia|lia|].
  destruct (memcpy (chunk o1) 0 _ r) as [t1| | |]; try done. cbn [mbind res_bind] in E1 |- *.
  destruct (store8 t1 r _) as [t2| | |]; try done. cbn [mbind res_bind] in E1 |- *. rewrite E1. cbn [mbind res_bind].
  rewrite advance_ok by (rewrite length_app, bytes_length; lia). cbn [mbind res_bind]. rewrite drop_app_le, drop_bytes by (rewrite bytes_length; lia).
  remember (Z.of_nat (length b2) - k) as l2 eqn:El2.
  destruct (memcpy (chunk o2) 0 (bytes (drop (Z.to_nat k) b2) ++ r2) l2) as [m2| | |] eqn:E2;
    try (rewrite memcpy_ok in E2 by (rewrite ?length_app, ?bytes_length, ?length_drop; lia); done).
  cbn [mbind res_bind]. do 3 eexists. split; [done|]. pose proof (memcpy_length _ _ _ _ _ E2) as M2.
  split; [split; [done|]; rewrite !Forall_cons; simpl; split_and!; try done; lia|].
  assert (Hser : serial b1 b2 = (le_bytes 8 (Z.of_nat (length b1)) ++ take 1046 b1) ++
    (drop (Z.to_nat 1046) b1 ++ le_bytes 8 (Z.of_nat (length b2)) ++ take (Z.to_nat k) b2) ++ drop (Z.to_nat k) b2).
  { unfold serial, sized. rewrite <- !app_assoc, take_drop. f_equal. change (Z.to_nat 1046) with 1046%nat. by rewrite (app_assoc (take 1046 b1)), take_drop. }
  destruct (cut_app (le_bytes 8 (Z.of_nat (length b1)) ++ take 1046 b1)
    (drop (Z.to_nat 1046) b1 ++ le_bytes 8 (Z.of_nat (length b2)) ++ take (Z.to_nat k) b2) (drop (Z.to_nat k) b2)) as (C0 & C1 & C2);
    [rewrite length_app, le_bytes_length, length_take; unfold FD_EQVOC_CHUNK_SZ; lia
    |rewrite !length_app, le_bytes_length, length_take, length_drop; unfold FD_EQVOC_CHUNK_SZ; lia
    |rewrite length_drop; unfold FD_EQVOC_CHUNK_SZ; lia|].
  rewrite Hser, S1 in *. split_and!; constructor; simpl ck_index; simpl chunk_index; simpl ck_slot; simpl num_chunks; simpl chunk_len; simpl chunk; try done.
  - rewrite C0, length_app, le_bytes_length, length_take. lia.
  - by rewrite C0.
  - rewrite C1, !length_app, le_bytes_length, length_take, length_drop. lia.
  - rewrite C1. replace 1054 with (r + 8 + k) by lia. done.
  - rewrite C2, length_drop. lia.
  - rewrite C2, (region_memcpy _ _ _ _ _ E2), take_app_length' by (rewrite bytes_length, length_drop; lia). done.
Qed.
