(* ===== verification/EqvocVerify.v ===== *)
(** * Equivocation detection: the verdict on a proof

    [verify_proof] on two parsed shreds computes the verdict [verdict], and the
    verdict is success exactly when the shreds prove an equivocation. *)

From S2P Require Import Prelude Bits Bytes Shred Bmtree BmtreeView BmtreeProof BmtreeRun ShredRoot Links Eqvoc EqvocInv EqvocChunks EqvocSerde.

#[local] Open Scope Z_scope.

Definition f_idx (b : list Z) : Z := fld b 0x49 4.
Definition f_version (b : list Z) : Z := fld b 0x4d 2.
Definition f_fec_set_idx (b : list Z) : Z := fld b 0x4f 4.
Definition f_flags (b : list Z) : Z := fld b 0x55 1.

Definition f_data (b : list Z) : bool := fd_shred_is_data (f_type b).
Definition f_last (b : list Z) : bool := has_mask (f_flags b) FD_SHRED_DATA_FLAG_SLOT_COMPLETE.

(** ** Leader schedules *)

(** Every rotation of the schedule names a public key. *)
Definition leaders_ok (leaders : fd_epoch_leaders_t) : Prop :=
  0 <= slot0 leaders /\ forall d, 0 <= d < slot_cnt leaders ->
  exists i, sched leaders !! Z.to_nat (d / FD_EPOCH_SLOTS_PER_ROTATION) = Some i /\ 0 <= i < Z.of_nat (length (pub leaders)).

Definition leader_of (leaders : fd_epoch_leaders_t) (slot : Z) : option fd_pubkey_t :=
  if (slot0 leaders <=? slot) && (slot - slot0 leaders <? slot_cnt leaders) then
    i ← sched leaders !! Z.to_nat ((slot - slot0 leaders) / FD_EPOCH_SLOTS_PER_ROTATION); pub leaders !! Z.to_nat i
  else None.

Lemma leaders_get_ok leaders slot : leaders_ok leaders -> is_u64 slot ->
  fd_epoch_leaders_get leaders slot = Ok (leader_of leaders slot).
Proof.
  intros [H0 Hl] Hs. unfold fd_epoch_leaders_get, leader_of.
  destruct (Z.ltb_spec slot (slot0 leaders)) as [Hlt|Hge]; [by rewrite (proj2 (Z.leb_gt _ _)) by lia|].
  rewrite (proj2 (Z.leb_le _ _) Hge). rewrite u64_small by (unfold is_u64 in *; lia). simpl andb.
  destruct (Z.leb_spec (slot_cnt leaders) (slot - slot0 leaders)) as [Hc|Hc]; [by rewrite (proj2 (Z.ltb_ge _ _)) by lia|].
  rewrite (proj2 (Z.ltb_lt _ _)) by lia. destruct (Hl (slot - slot0 leaders)) as (i & Ei & Hi); [lia|].
  unfold aget. rewrite (proj2 (Z.ltb_ge _ 0)) by (apply Z.div_pos; unfold FD_EPOCH_SLOTS_PER_ROTATION; lia). rewrite Ei. cbn [mbind res_bind deref option_bind].
  rewrite (proj2 (Z.ltb_ge i 0)) by lia. destruct (lookup_lt_is_Some_2 (pub leaders) (Z.to_nat i)) as [x ->]; [lia|]. done.
Qed.

Section verify.
Context (sha256 : list Z -> list Z) (ed25519_verify : list Z -> list Z -> fd_pubkey_t -> bool).
Context (shred_version : Z) (leader_schedule : option fd_epoch_leaders_t).

(** The leader of the slot, if the schedule is known, signed the root. *)
Definition signed (slot : Z) (b root : list Z) : bool :=
  match leader_schedule with
  | None => true
  | Some leaders =>
      match leader_of leaders slot with
      | Some pk => ed25519_verify root (take 64 b) pk
      | None => false
      end
  end.

(** One of two data shreds is the last of its slot and is not the highest. *)
Definition last_conflicts (b1 b2 : list Z) : bool :=
  f_data b1 && f_data b2 && ((f_last b1 && (f_idx b1 <? f_idx b2)) || (f_last b2 && (f_idx b2 <? f_idx b1))).

(** The shreds belong to one FEC set and commit to different Merkle roots. *)
Definition roots_conflict (b1 b2 root1 root2 : list Z) : bool :=
  (f_fec_set_idx b1 =? f_fec_set_idx b2) && bool_decide (root1 <> root2).

Definition verdict (b1 b2 : list Z) : Z :=
  if negb (f_slot b1 =? f_slot b2) then FD_EQVOC_ERR_SLOT
  else if negb (f_version b1 =? shred_version) || negb (f_version b2 =? shred_version) then FD_EQVOC_ERR_VERSION
  else if negb (fd_shred_is_chained (f_type b1)) || negb (fd_shred_is_chained (f_type b2)) then FD_EQVOC_ERR_TYPE
  else match merkle_root_of sha256 b1, merkle_root_of sha256 b2 with
  | Some root1, Some root2 =>
      if negb (signed (f_slot b1) b1 root1) || negb (signed (f_slot b1) b2 root2) then FD_EQVOC_ERR_SIG
      else if last_conflicts b1 b2 || roots_conflict b1 b2 root1 root2 then FD_EQVOC_SUCCESS
      else FD_EQVOC_IGNORED
  | _, _ => FD_EQVOC_ERR_MERKLE
  end.

(** What a valid proof shows: two shreds of this network and of one slot, both
    signed by its leader, that no single block can contain. *)
Record equivocation (b1 b2 : list Z) : Prop := {
  eq_slot : f_slot b1 = f_slot b2;
  eq_version : f_version b1 = shred_version /\ f_version b2 = shred_version;
  eq_chained : fd_shred_is_chained (f_type b1) = true /\ fd_shred_is_chained (f_type b2) = true;
  eq_conflict : exists root1 root2, merkle_root_of sha256 b1 = Some root1 /\ merkle_root_of sha256 b2 = Some root2 /\
    signed (f_slot b1) b1 root1 = true /\ signed (f_slot b2) b2 root2 = true /\
    (last_conflicts b1 b2 = true \/ f_fec_set_idx b1 = f_fec_set_idx b2 /\ root1 <> root2)
}.

Lemma verdict_success b1 b2 : verdict b1 b2 = FD_EQVOC_SUCCESS <-> equivocation b1 b2.
Proof.
  unfold verdict. split.
  - destruct (Z.eqb_spec (f_slot b1) (f_slot b2)) as [Es|]; [|done]. simpl negb. cbv iota.
    destruct (Z.eqb_spec (f_version b1) shred_version), (Z.eqb_spec (f_version b2) shred_version); try done. simpl negb; simpl orb; cbv iota.
    destruct (fd_shred_is_chained (f_type b1)) eqn:C1, (fd_shred_is_chained (f_type b2)) eqn:C2; try done. simpl negb; simpl orb; cbv iota.
    destruct (merkle_root_of sha256 b1) as [r1|] eqn:R1, (merkle_root_of sha256 b2) as [r2|] eqn:R2; try done.
    destruct (signed (f_slot b1) b1 r1) eqn:G1, (signed (f_slot b1) b2 r2) eqn:G2; try done. simpl negb; simpl orb; cbv iota.
    intros H. constructor; try done. exists r1, r2. rewrite <- Es. split_and!; try done.
    destruct (last_conflicts b1 b2) eqn:L; [by left|right]. simpl in H. unfold roots_conflict in H.
    destruct (Z.eqb_spec (f_fec_set_idx b1) (f_fec_set_idx b2)); [|done]. destruct (decide (r1 = r2)) as [->|]; [|done].
    by rewrite bool_decide_eq_false_2 in H by tauto.
  - intros [Es [V1 V2] [C1 C2] (r1 & r2 & R1 & R2 & G1 & G2 & H)]. rewrite <- Es in G2. rewrite C1, C2, R1, R2, G1, G2, <- Es, V1, V2, !Z.eqb_refl. simpl.
    destruct H as [-> |[Ef Hr]]; [done|]. unfold roots_conflict. rewrite Ef, Z.eqb_refl, bool_decide_eq_true_2 by done. by rewrite orb_true_r.
Qed.

Hypothesis sha256_length : forall m, length (sha256 m) = 32%nat.
Hypothesis schedule_ok : forall leaders, leader_schedule = Some leaders -> leaders_ok leaders.

Lemma slot_u64 b : Forall is_byte b -> 0x58 <= Z.of_nat (length b) -> is_u64 (f_slot b).
Proof. intros Hb Hl. pose proof (fld_range b 0x41 8 Hb ltac:(lia) ltac:(lia) ltac:(lia)). unfold is_u64, ULONG_MAX, f_slot. change (256 ^ 8) with (2 ^ 64) in *. lia. Qed.

Lemma root_length b root : merkle_root_of sha256 b = Some root -> length root = 32%nat.
Proof using sha256_length. unfold merkle_root_of. destruct (_ && _); [|done]. intros [= <-]. unfold top_digest. rewrite <- bytes_length. by apply updigest_length. Qed.

Lemma verify_sigs_ok leaders b1 b2 r1 r2 q1 q2 root1 root2 : leader_schedule = Some leaders ->
  Forall is_byte b1 -> 0x58 <= Z.of_nat (length b1) -> 0x58 <= Z.of_nat (length b2) -> length root1 = 32%nat -> length root2 = 32%nat ->
  verify_sigs ed25519_verify leaders (bytes b1 ++ r1) (bytes b2 ++ r2) (bytes root1 ++ q1) (bytes root2 ++ q2) =
    Ok (signed (f_slot b1) b1 root1 && signed (f_slot b1) b2 root2).
Proof using schedule_ok.
  intros El B1 L1 L2 H1 H2. unfold verify_sigs, sh_slot. rewrite load_fld by lia. cbn [mbind res_bind]. fold (f_slot b1).
  rewrite leaders_get_ok by (auto using slot_u64). cbn [mbind res_bind]. unfold signed. rewrite El.
  destruct (leader_of leaders (f_slot b1)) as [pk|]; [|done]. rewrite !read_bytes by lia. cbn [mbind res_bind].
  change (Z.to_nat 0) with 0%nat. rewrite !drop_0, !(take_ge root1), !(take_ge root2) by lia. change (Z.to_nat 64) with 64%nat.
  by destruct (ed25519_verify root1 (take 64 b1) pk).
Qed.

Lemma conflicts_ok b1 b2 r1 r2 : 0x58 <= Z.of_nat (length b1) -> 0x58 <= Z.of_nat (length b2) ->
  last_conflict (bytes b1 ++ r1) (bytes b2 ++ r2) = Ok (last_conflicts b1 b2).
Proof.
  intros L1 L2. unfold last_conflict, sh_variant, sh_data_flags, sh_idx. rewrite !load_fld by lia. cbn [mbind res_bind].
  unfold last_conflicts, f_data. fold (f_variant b1) (f_variant b2). fold (f_type b1) (f_type b2).
  destruct (fd_shred_is_data (f_type b1) && fd_shred_is_data (f_type b2)); done.
Qed.

Lemma root_conflict_ok b1 b2 r1 r2 root1 root2 q1 q2 : 0x58 <= Z.of_nat (length b1) -> 0x58 <= Z.of_nat (length b2) ->
  length root1 = 32%nat -> length root2 = 32%nat ->
  root_conflict (bytes b1 ++ r1) (bytes b2 ++ r2) (bytes root1 ++ q1) (bytes root2 ++ q2) = Ok (roots_conflict b1 b2 root1 root2).
Proof.
  intros L1 L2 H1 H2. unfold root_conflict, sh_fec_set_idx. rewrite !load_fld by lia. cbn [mbind res_bind]. unfold roots_conflict, f_fec_set_idx.
  destruct (_ =? _); [|done]. rewrite !read_bytes by lia. cbn [mbind res_bind].
  change (Z.to_nat 0) with 0%nat. rewrite !drop_0, !(take_ge root1), !(take_ge root2) by lia. by rewrite bool_decide_not.
Qed.

Lemma verify_proof_ok bm b1 b2 r1 r2 : memory_ok 7 bm.1 bm.2 -> parsed b1 -> parsed b2 ->
  exists bm', verify_proof sha256 ed25519_verify bm shred_version leader_schedule (bytes b1 ++ r1) (bytes b2 ++ r2) = Ok (bm', verdict b1 b2) /\
    memory_ok 7 bm'.1 bm'.2.
Proof using sha256_length schedule_ok.
  intros M P1 P2. pose proof (parsed_length b1 P1) as L1. pose proof (parsed_length b2 P2) as L2. destruct P1 as (B1 & S1 & _), P2 as (B2 & S2 & _).
  unfold verify_proof, verdict, sh_slot, sh_version, sh_variant. rewrite !load_fld by lia. cbn [mbind res_bind].
  fold (f_slot b1) (f_slot b2) (f_version b1) (f_version b2) (f_variant b1) (f_variant b2). fold (f_type b1) (f_type b2).
  destruct (f_slot b1 =? f_slot b2); simpl negb; cbv iota; [|by eexists].
  destruct (f_version b1 =? shred_version); simpl negb; simpl orb; cbv iota; [|by eexists].
  destruct (f_version b2 =? shred_version); simpl negb; simpl orb; cbv iota; [|by eexists].
  destruct (fd_shred_is_chained (f_type b1)) eqn:C1; simpl negb; simpl orb; cbv iota; [|by eexists].
  destruct (fd_shred_is_chained (f_type b2)) eqn:C2; simpl negb; simpl orb; cbv iota; [|by eexists].
  destruct (merkle_root_ok sha256 sha256_length bm b1 r1 M B1 C1) as (bm1 & -> & M1); [lia|]. cbn [mbind res_bind].
  destruct (merkle_root_of sha256 b1) as [root1|] eqn:R1; simpl fmap; cbv iota; [|by eexists].
  destruct (merkle_root_ok sha256 sha256_length bm1 b2 r2 M1 B2 C2) as (bm2 & -> & M2); [lia|]. cbn [mbind res_bind].
  destruct (merkle_root_of sha256 b2) as [root2|] eqn:R2; simpl fmap; cbv iota; [|by eexists].
  pose proof (root_length b1 root1 R1) as K1. pose proof (root_length b2 root2 R2) as K2. exists bm2. split; [|done].
  assert (Hsig : match leader_schedule with
      | Some leaders => verify_sigs ed25519_verify leaders (bytes b1 ++ r1) (bytes b2 ++ r2) (bytes root1) (bytes root2)
      | None => Ok true end = Ok (signed (f_slot b1) b1 root1 && signed (f_slot b1) b2 root2)).
  { pose proof (fun leaders E => verify_sigs_ok leaders b1 b2 r1 r2 [] [] root1 root2 E B1 L1 L2 K1 K2) as Hv.
    rewrite !app_nil_r in Hv. unfold signed in *. destruct leader_schedule as [leaders|]; [by apply Hv|done]. }
  rewrite Hsig. cbn [mbind res_bind]. rewrite <- negb_andb. destruct (_ && _); simpl negb; cbv iota; [|done].
  rewrite conflicts_ok by done. cbn [mbind res_bind]. destruct (last_conflicts b1 b2); [done|]. simpl orb.
  rewrite <- (app_nil_r (bytes root1)), <- (app_nil_r (bytes root2)), root_conflict_ok by done. cbn [mbind res_bind].
  by destruct (roots_conflict b1 b2 root1 root2).
Qed.

End verify.
