(* ===== verification/EqvocVoters.v ===== *)
(** * Equivocation detection: the proofs of voters

    Looking up, adding, storing and releasing the proof that a voter is
    sending, and changing the voters. *)

From S2P Require Import Prelude Bits Bytes Shred Bmtree BmtreeRun ShredRoot Links Eqvoc EqvocInv EqvocChunks.

#[local] Open Scope Z_scope.

Abbreviation prfs_t := (gmap (Z * fd_pubkey_t) prf_t).
Abbreviation vtrs_t := (gmap fd_pubkey_t vtr_t).

(** A state with other proofs and voters. *)
Definition put (e : fd_eqvoc_t) (pn : Z) (pm : prfs_t) (vn : Z) (vm : vtrs_t) (vl : list fd_pubkey_t) : fd_eqvoc_t :=
  with_vtrs (with_prfs e pn pm) vn vm vl.

Definition proofs_ok (busy : option (Z * fd_pubkey_t)) (pm : prfs_t) : Prop :=
  forall s a p, pm !! (s, a) = Some p -> exists cs, prf_holds p cs /\ (busy <> Some (s, a) -> ~ complete cs).

Lemma wf_put busy busy' e pn pm vn vm vl :
  eqvoc_wf_but busy e -> voters_wf (put e pn pm vn vm vl) -> proofs_ok busy' pm -> eqvoc_wf_but busy' (put e pn pm vn vm vl).
Proof. intros [W1 W2 W3 W4 W5 W6] V P. by constructor. Qed.

Lemma put_id e : put e (prf_free e) (prf_map e) (vtr_free e) (vtr_map e) (vtr_dlist e) = e.
Proof. by destruct e. Qed.

Lemma wf_bmtree busy e bm : eqvoc_wf_but busy e -> memory_ok 7 bm.1 bm.2 -> eqvoc_wf_but busy (with_bmtree e bm).
Proof. intros [W1 W2 W3 W4 W5 W6] M. destruct W5. constructor; simpl; done. Qed.

(** Changing the proofs of one voter. *)
Lemma voters_change e a v v' pn pm :
  voters_wf e -> vtr_map e !! a = Some v -> (forall s x, x <> a -> pm !! (s, x) = prf_map e !! (s, x)) ->
  vtr_wf (per_vtr_max e) pm a v' -> pn + Z.of_nat (size pm) = per_vtr_max e * vtr_max e ->
  voters_wf (put e pn pm (vtr_free e) (<[a := v']> (vtr_map e)) (vtr_dlist e)).
Proof.
  intros [Vn Vl Vf Vv Vo Vp Vq] Hv Hpm Hv' Hsz. constructor; simpl; try done.
  - intros x. rewrite Vl, lookup_insert_is_Some'. split; [by right|]. intros [->|?]; [eauto|done].
  - by rewrite map_size_insert_Some by eauto.
  - intros x u [[<- <-]|[Hne Hu]]%lookup_insert_Some; [done|]. destruct (Vv _ _ Hu) as (H1 & H2 & H3 & H4). split_and!; try done.
    intros s. by rewrite Hpm by congruence.
  - intros s x Hx. rewrite lookup_insert_is_Some'. destruct (decide (a = x)) as [|Hne]; [by left|right]. rewrite Hpm in Hx by congruence. by eapply Vo.
Qed.

(** Moving a proof to the tail of its voter's list. *)
Lemma prf_query_ok e from slot : eqvoc_wf e ->
  exists m, prf_query e from slot = Ok (put e (prf_free e) (prf_map e) (vtr_free e) m (vtr_dlist e), prf_map e !! (slot, from)) /\
    eqvoc_wf (put e (prf_free e) (prf_map e) (vtr_free e) m (vtr_dlist e)) /\ dom m = dom (vtr_map e).
Proof.
  intros W. pose proof (ew_voters _ _ W) as V. unfold prf_query. destruct (prf_map e !! (slot, from)) as [p|] eqn:Ep.
  - destruct (vo_owner _ V slot from) as [v Hv]; [eauto|]. rewrite Hv. cbn [deref mbind res_bind].
    destruct (vo_prfs _ V _ _ Hv) as (Hn & Hc & Hq & Hs). destruct (dlist_remove_spec slot (prf_dlist v)) as (l & -> & Hp); [done|apply Hs; eauto|].
    cbn [mbind res_bind]. eexists. split; [by destruct e|]. split; [|rewrite dom_insert_L; apply elem_of_dom_2 in Hv; set_solver].
    eapply wf_put; [done| |exact (ew_proofs _ _ W)]. assert (Hp' : prf_dlist v ≡ₚ l ++ [slot]) by (rewrite Hp; apply Permutation_cons_append).
    eapply voters_change; [done|done|done| |apply (vo_pfree _ V)]. split_and!; simpl.
    + by rewrite <- Hp'.
    + by rewrite <- Hp'.
    + done.
    + intros s. by rewrite <- Hp', Hs.
  - exists (vtr_map e). rewrite put_id. done.
Qed.

(** A voter below its quota leaves room for a proof. *)
Lemma prf_room e a v : voters_wf e -> vtr_map e !! a = Some v -> prf_dlist_cnt v < per_vtr_max e -> 0 < prf_free e.
Proof.
  intros [Vn Vl Vf Vv Vo Vp Vq] Hv Hlt. assert (Z.of_nat (size (prf_map e)) < per_vtr_max e * vtr_max e); [|lia].
  destruct (Vv _ _ Hv) as (_ & Ec & _). apply (owned_room prf_dlist (fun a s => (s, a)) (vtr_map e) (prf_map e) _ _ a v); try done; [| |lia|lia].
  - intros [s x] Hx. destruct (Vo _ _ Hx) as [u Hu]. exists x, u, s. split_and!; [done|by apply (Vv _ _ Hu)|done].
  - intros x u Hu. destruct (Vv _ _ Hu) as (_ & Ec' & Hc & _). lia.
Qed.

(** The oldest proof of a voter that has used up its quota leaves. *)
Lemma prf_evict_ok e from v : eqvoc_wf e -> vtr_map e !! from = Some v ->
  exists pn pm v1, (if prf_dlist_cnt v =? per_vtr_max e then
      match prf_dlist v with
      | [] => Ub
      | s :: l => _ ← deref (prf_map e !! (s, from));
          Ok (with_prfs e (prf_free e + 1) (delete (s, from) (prf_map e)), mk_vtr (vtr_next v) (u64 (prf_dlist_cnt v - 1)) l)
      end else Ok (e, v)) = Ok (with_prfs e pn pm, v1) /\
    pm ⊆ prf_map e /\ (forall s x, x <> from -> pm !! (s, x) = prf_map e !! (s, x)) /\
    vtr_wf (per_vtr_max e) pm from v1 /\ prf_dlist_cnt v1 < per_vtr_max e /\ 0 < pn /\ pn + Z.of_nat (size pm) = per_vtr_max e * vtr_max e.
Proof.
  intros W Hv. pose proof (ew_voters _ _ W) as V. destruct (vo_prfs _ V _ _ Hv) as (Hn & Hc & Hq & Hs). pose proof (vo_quota _ V) as Hquota.
  destruct (Z.eqb_spec (prf_dlist_cnt v) (per_vtr_max e)) as [E|E].
  - destruct (prf_dlist v) as [|s l] eqn:El; [simpl in Hc; lia|]. destruct (proj1 (Hs s)) as [p Hp]; [left|]. rewrite Hp. cbn [deref mbind res_bind].
    apply NoDup_cons in Hn as [Hsl Hn]. simpl in Hc. do 3 eexists. split; [done|]. rewrite (u64_small (prf_dlist_cnt v - 1)) by (unfold is_u64; lia).
    pose proof (vo_pfree _ V). pose proof (size_delete _ _ _ Hp) as Hsz. unfold vtr_wf. split_and!; simpl.
    + apply delete_subseteq.
    + intros s' x Hx. by rewrite lookup_delete_ne by congruence.
    + done.
    + lia.
    + lia.
    + intros s'. rewrite lookup_delete_is_Some, <- Hs, elem_of_cons. split; [intros Hs'; split; [congruence|by right]|].
      intros [Hne [->|?]]; [done|done].
    + lia.
    + assert (0 <= prf_free e); [|lia]. pose proof (size_pos _ _ _ Hp).
      assert (Hle : Z.of_nat (size (prf_map e)) <= per_vtr_max e * vtr_max e); [|lia].
      etrans; [apply (owned_le_sum prf_dlist (fun a s => (s, a)) (vtr_map e))|].
      * intros [s' x] Hx. destruct (vo_owner _ V _ _ Hx) as [u Hu]. exists x, u, s'. split_and!; [done|by apply (vo_prfs _ V _ _ Hu)|done].
      * etrans; [apply (sum_map_le _ (fun _ _ => per_vtr_max e)); intros x u Hu; destruct (vo_prfs _ V _ _ Hu) as (_ & ? & ? & _); lia|].
        rewrite sum_map_const. pose proof (vo_free _ V). nia.
    + lia.
  - exists (prf_free e), (prf_map e), v. split; [by destruct e|]. split_and!; try done; [lia| |apply (vo_pfree _ V)].
    apply (prf_room e from v V Hv). lia.
Qed.

Definition new_prf : prf_t := mk_prf 0 0 (uninit PRF_BUF_SZ).

Lemma prf_insert_ok e slot from : eqvoc_wf e -> is_Some (vtr_map e !! from) -> prf_map e !! (slot, from) = None ->
  exists pn pm vm, prf_insert e slot from = Ok (put e pn (<[(slot, from) := new_prf]> pm) (vtr_free e) vm (vtr_dlist e), new_prf) /\
    eqvoc_wf (put e pn (<[(slot, from) := new_prf]> pm) (vtr_free e) vm (vtr_dlist e)) /\ pm ⊆ prf_map e /\
    (forall s x, x <> from -> pm !! (s, x) = prf_map e !! (s, x)) /\ dom vm = dom (vtr_map e).
Proof.
  intros W [v Hv] Hno. pose proof (ew_voters _ _ W) as V. unfold prf_insert. rewrite Hv.
  destruct (prf_evict_ok e from v W Hv) as (pn & pm & v1 & -> & Hsub & Hpm & (Hn & Hc & Hq & Hs) & Hlt & Hpn & Hsz).
  cbn [mbind res_bind]. unfold acquire. simpl prf_free. rewrite (proj2 (Z.leb_gt pn 0)) by lia. cbn [mbind res_bind]. unfold map_insert. simpl prf_map.
  assert (Hno' : pm !! (slot, from) = None) by (destruct (pm !! (slot, from)) eqn:E; [|done]; eapply lookup_weaken in E; [|exact Hsub]; congruence).
  rewrite Hno'. cbn [mbind res_bind]. fold new_prf.
  exists (pn - 1), pm, (<[from := mk_vtr (vtr_next v1) (u64 (prf_dlist_cnt v1 + 1)) (prf_dlist v1 ++ [slot])]> (vtr_map e)). split; [reflexivity|].
  split; [|split_and!; [done|done|simpl; rewrite dom_insert_L; apply elem_of_dom_2 in Hv; set_solver]].
  pose proof (vo_quota _ V). eapply wf_put; [done| |].
  - eapply voters_change; [done|done| | |].
    + intros s x Hx. rewrite lookup_insert_ne by congruence. by apply Hpm.
    + split_and!; simpl.
      * apply NoDup_snoc; [done|]. rewrite Hs, Hno'. by intros [].
      * rewrite u64_small by (unfold is_u64; lia). rewrite length_app. simpl. lia.
      * rewrite u64_small by (unfold is_u64; lia). lia.
      * intros s. rewrite elem_of_app, list_elem_of_singleton, Hs, lookup_insert_is_Some'. split.
        -- intros [?| ->]; [by right|by left].
        -- intros [[= ->]|?]; [by right|by left].
    + rewrite map_size_insert_None by done. lia.
  - intros s x p [[_ <-]|[_ Hp]]%lookup_insert_Some.
    + exists (fun _ => None). split; [apply new_prf_holds|]. intros _ Hcp. destruct (Hcp 0 ltac:(lia)). done.
    + eapply (ew_proofs _ _ W), lookup_weaken; [exact Hp|done].
Qed.

(** Overwriting a proof. *)
Lemma prf_store_ok busy e slot from p cs : eqvoc_wf e -> is_Some (prf_map e !! (slot, from)) -> prf_holds p cs ->
  (busy = Some (slot, from) \/ (busy = None /\ ~ complete cs)) ->
  eqvoc_wf_but busy (with_prfs e (prf_free e) (<[(slot, from) := p]> (prf_map e))).
Proof.
  intros [W1 W2 W3 W4 W5 W6] Hsome Hp Hb. destruct W5 as [Vn Vl Vf Vv Vo Vp Vq]. constructor; try done.
  - constructor; simpl; try done.
    + intros a v Hv. destruct (Vv _ _ Hv) as (H1 & H2 & H3 & H4). split_and!; try done. intros s.
      rewrite H4, lookup_insert_is_Some'. split; [by right|]. by intros [[= <- <-]|].
    + intros s a [[= <- <-]|Hx]%lookup_insert_is_Some'; by eapply Vo.
    + rewrite map_size_insert_Some by done. done.
  - simpl. intros s a p' [[[= <- <-] <-]|[Hne Hp']]%lookup_insert_Some.
    + exists cs. split; [done|]. intros Hbusy. destruct Hb as [->|[-> ?]]; [done|done].
    + destruct (W6 _ _ _ Hp') as (cs' & Hh & Hnc). exists cs'. split; [done|]. intros _. by apply Hnc.
Qed.

Lemma prf_release_ok e slot from : eqvoc_wf_but (Some (slot, from)) e -> is_Some (prf_map e !! (slot, from)) ->
  exists m, prf_release e from slot = Ok (put e (prf_free e + 1) (delete (slot, from) (prf_map e)) (vtr_free e) m (vtr_dlist e)) /\
    eqvoc_wf (put e (prf_free e + 1) (delete (slot, from) (prf_map e)) (vtr_free e) m (vtr_dlist e)) /\ dom m = dom (vtr_map e).
Proof.
  intros W [p Hp]. pose proof (ew_voters _ _ W) as V. unfold prf_release. destruct (vo_owner _ V slot from) as [v Hv]; [eauto|]. rewrite Hv.
  destruct (vo_prfs _ V _ _ Hv) as (Hn & Hc & Hq & Hs). cbn [deref mbind res_bind].
  destruct (dlist_remove_spec slot (prf_dlist v)) as (l & -> & Hl); [done|apply Hs; eauto|]. cbn [mbind res_bind]. rewrite Hp. cbn [deref mbind res_bind].
  destruct (perm_cons_other _ _ _ Hn Hl) as [Hn' Ho]. pose proof (vo_quota _ V). apply Permutation_length in Hl. simpl in Hl.
  exists (<[from := mk_vtr (vtr_next v) (u64 (prf_dlist_cnt v - 1)) l]> (vtr_map e)). split; [reflexivity|].
  split; [|simpl; rewrite dom_insert_L; apply elem_of_dom_2 in Hv; set_solver]. eapply wf_put; [done| |].
  - eapply voters_change; [done|done| | |].
    + intros s x Hx. by rewrite lookup_delete_ne by congruence.
    + rewrite (u64_small (prf_dlist_cnt v - 1)) by (unfold is_u64; lia). split_and!; simpl; [done|lia|lia|].
      intros s. rewrite lookup_delete_is_Some, Ho, Hs. naive_solver.
    + rewrite (size_delete _ _ _ Hp). pose proof (vo_pfree _ V). lia.
  - intros s x p' [Hne Hp']%lookup_delete_Some. destruct (ew_proofs _ _ W _ _ _ Hp') as (cs & Hh & Hnc). exists cs. split; [done|].
    intros _. apply Hnc. congruence.
Qed.

(** * Equivocation detection: changing the voters *)

Abbreviation kept := (Links.kept vtr_next).
Abbreviation kept_last := (Links.kept_last vtr_next).

(** The same voters with the same proofs; marks may differ. *)
Definition same_prfs (m m' : vtrs_t) : Prop :=
  forall a, (fun v => (prf_dlist v, prf_dlist_cnt v)) <$> m !! a = (fun v => (prf_dlist v, prf_dlist_cnt v)) <$> m' !! a.

Lemma same_prfs_is_Some m m' a : same_prfs m m' -> is_Some (m !! a) <-> is_Some (m' !! a).
Proof. intros H. specialize (H a). destruct (m !! a), (m' !! a); simplify_eq/=; split; intros []; eauto; done. Qed.

Lemma same_prfs_insert m a v n : m !! a = Some v -> same_prfs m (<[a := set_next v n]> m).
Proof. intros Hv x. destruct (decide (x = a)) as [->|]; [by rewrite lookup_insert_eq, Hv|by rewrite lookup_insert_ne]. Qed.

Lemma wf_marks e m l : same_prfs (vtr_map e) m -> vtr_dlist e ≡ₚ l -> eqvoc_wf e -> eqvoc_wf (with_vtrs e (vtr_free e) m l).
Proof.
  intros Hs Hp [W1 W2 W3 W4 [Vn Vl Vf Vv Vo Vp Vq] W6]. constructor; try done. constructor; simpl; try done.
  - by rewrite <- Hp.
  - intros a. rewrite <- Hp, Vl. by apply same_prfs_is_Some.
  - assert (dom (vtr_map e) = dom m) as Hd by (apply set_eq; intros a; rewrite !elem_of_dom; by apply same_prfs_is_Some).
    rewrite <- (size_dom m), <- Hd, size_dom. done.
  - intros a v Hv. specialize (Hs a). rewrite Hv in Hs. destruct (vtr_map e !! a) as [u|] eqn:Hu; [|done]. injection Hs as E1 E2.
    unfold vtr_wf. rewrite <- E1, <- E2. by apply Vv.
  - intros s a Ha%Vo. by apply (same_prfs_is_Some _ _ _ Hs).
Qed.

Lemma eqvoc_keep_voters ids : forall e,
  eqvoc_wf e -> kept_last (vtr_map e) (vtr_dlist e) ->
  exists m l, keep_voters ids e = Ok (with_vtrs e (vtr_free e) m l) /\
    eqvoc_wf (with_vtrs e (vtr_free e) m l) /\ kept_last m l /\ same_prfs (vtr_map e) m /\
    forall a, kept m a <-> kept (vtr_map e) a \/ (a ∈ ids /\ is_Some (vtr_map e !! a)).
Proof.
  induction ids as [|a ids IH]; intros e W L; cbn [keep_voters].
  { exists (vtr_map e), (vtr_dlist e). split; [by destruct e|]. split_and!; [by apply wf_marks|done|done|].
    intros a. split; [by left|]. intros [?|[Hx _]]; [done|inversion Hx]. }
  destruct (vtr_map e !! a) as [v|] eqn:Hv.
  - pose proof (ew_voters _ _ W) as V. destruct (dlist_remove_spec a (vtr_dlist e)) as (l & El & Hp);
      [apply (vo_nodup _ V)|apply (vo_list _ V); eauto|]. rewrite El. cbn [mbind res_bind].
    pose proof (same_prfs_insert _ _ _ 0 Hv) as Hb.
    edestruct (IH (with_vtrs e (vtr_free e) (<[a := set_next v 0]> (vtr_map e)) (l ++ [a]))) as (m & l' & E & W' & L' & S' & K'); simpl.
    + apply wf_marks; [done| |done]. rewrite Hp. apply Permutation_cons_append.
    + eapply (kept_last_move vtr_next set_next); [done|done|apply (vo_nodup _ V)|exact L|exact El|exact Hp].
    + exists m, l'. split; [exact E|]. split; [exact W'|]. split; [done|]. split; [intros x; by rewrite Hb, S'|].
      intros x. simpl in K'. rewrite K', (kept_insert vtr_next set_next), elem_of_cons, <- (same_prfs_is_Some _ _ x Hb) by done.
      split; [|naive_solver]. intros [[->|?]|[? ?]]; [right|by left|naive_solver]. rewrite Hv. eauto.
  - destruct (IH e W L) as (m & l' & E & W' & L' & S' & K'). exists m, l'. split_and!; try done.
    intros x. rewrite K', elem_of_cons. split; [naive_solver|]. intros [?|[[->|?] Hx]]; [by left| |by auto].
    rewrite Hv in Hx. by destruct Hx.
Qed.

(** Releasing the listed proofs of a voter removes exactly those. *)
Lemma release_prfs_spec a l : forall e,
  NoDup l -> (forall s, s ∈ l -> is_Some (prf_map e !! (s, a))) ->
  exists pn pm, release_prfs a l e = Ok (with_prfs e pn pm) /\ pn + Z.of_nat (size pm) = prf_free e + Z.of_nat (size (prf_map e)) /\
    forall k, pm !! k = if decide (k.2 = a /\ k.1 ∈ l) then None else prf_map e !! k.
Proof.
  induction l as [|s l IH]; intros e Hn Hl; cbn [release_prfs].
  { exists (prf_free e), (prf_map e). split; [by destruct e|]. split; [done|]. intros k. destruct (decide _) as [[_ Hx]|]; [inversion Hx|done]. }
  apply NoDup_cons in Hn as [Hs Hn]. destruct (Hl s ltac:(left)) as [p Hp]. rewrite Hp. cbn [deref mbind res_bind].
  destruct (IH (with_prfs e (prf_free e + 1) (delete (s, a) (prf_map e)))) as (pn & pm & -> & Hsz & Hpm); [done| |].
  { intros s' Hs'. simpl. rewrite lookup_delete_ne by congruence. apply Hl. by right. }
  exists pn, pm. split; [done|]. simpl in Hsz, Hpm. split; [rewrite Hsz, (size_delete _ _ _ Hp); lia|].
  intros [s' a']. rewrite Hpm. simpl. destruct (decide ((s', a') = (s, a))) as [[= -> ->]|Hne].
  - rewrite lookup_delete_eq, (decide_True (P := a = a /\ s ∈ s :: l)) by (split; [done|left]). by destruct (decide _).
  - rewrite lookup_delete_ne by congruence. destruct (decide (a' = a /\ s' ∈ l)) as [[? ?]|Hno].
    + by rewrite decide_True by (split; [done|by right]).
    + rewrite decide_False; [done|]. intros [-> [->|?]%elem_of_cons]; [done|tauto].
Qed.

(** A marked voter leaves with its proofs. *)
Lemma eqvoc_release_voter e a v l : eqvoc_wf (with_vtrs e (vtr_free e) (vtr_map e) (a :: l)) -> vtr_map e !! a = Some v ->
  exists pn pm, release_prfs a (prf_dlist v) e = Ok (with_prfs e pn pm) /\
    eqvoc_wf (put e pn pm (vtr_free e + 1) (delete a (vtr_map e)) l) /\
    forall s x, pm !! (s, x) = if decide (x = a) then None else prf_map e !! (s, x).
Proof.
  intros [W1 W2 W3 W4 [Vn Vl Vf Vv Vo Vp Vq] W6] Hv. simpl in *. destruct (Vv _ _ Hv) as (Hn & Hc & Hq & Hs). apply NoDup_cons in Vn as [Ha Vn].
  destruct (release_prfs_spec a (prf_dlist v) e Hn) as (pn & pm & E & Hsz & Hpm); [intros s; apply Hs|].
  assert (Hpm' : forall s x, pm !! (s, x) = if decide (x = a) then None else prf_map e !! (s, x)).
  { intros s x. rewrite Hpm. simpl. destruct (decide (x = a)) as [->|Hne]; [|rewrite decide_False; [done|tauto]].
    destruct (decide _) as [|Hno]; [done|]. apply eq_None_not_Some. intros Hx%Hs. tauto. }
  exists pn, pm. split; [done|]. split; [|done]. constructor; try done.
  - constructor; simpl; try done.
    + intros x. rewrite lookup_delete_is_Some, <- Vl, elem_of_cons. split; [|naive_solver]. intros Hx. split; [by intros ->|by right].
    + rewrite (size_delete _ _ _ Hv). lia.
    + intros x u [Hne Hu]%lookup_delete_Some. destruct (Vv _ _ Hu) as (H1 & H2 & H3 & H4). split_and!; try done.
      intros s. rewrite Hpm', decide_False by congruence. apply H4.
    + intros s x Hx. rewrite Hpm' in Hx. destruct (decide (x = a)); [by destruct Hx|]. apply lookup_delete_is_Some. split; [congruence|by eapply Vo].
    + lia.
  - simpl. intros s x p Hp. rewrite Hpm' in Hp. destruct (decide (x = a)); [done|]. by eapply W6.
Qed.

Lemma eqvoc_release_voters l : forall e,
  eqvoc_wf (with_vtrs e (vtr_free e) (vtr_map e) l) -> kept_last (vtr_map e) l ->
  exists e', release_voters l e = Ok e' /\ eqvoc_wf e' /\ vtr_max e' = vtr_max e /\ dup_map e' = dup_map e /\ fec_map e' = fec_map e /\
    (forall a v, vtr_map e' !! a = Some v <-> vtr_map e !! a = Some v /\ vtr_next v = 0) /\
    (forall s a p, prf_map e' !! (s, a) = Some p <-> prf_map e !! (s, a) = Some p /\ kept (vtr_map e) a).
Proof.
  induction l as [|a l IH]; intros e W L; cbn [release_voters].
  { eexists. split; [done|]. pose proof (vo_list _ (ew_voters _ _ W)) as Vl. pose proof (vo_owner _ (ew_voters _ _ W)) as Vo. simpl in *.
    split_and!; try done.
    - intros a v. split; [|tauto]. intros Hv. pose proof (proj2 (Vl a) ltac:(eauto)) as Hx. inversion Hx.
    - intros s a p. split; [|tauto]. intros Hp. pose proof (proj2 (Vl a) (Vo s a ltac:(eauto))) as Hx. inversion Hx. }
  pose proof (ew_voters _ _ W) as V. destruct (proj1 (vo_list _ V a) ltac:(left)) as [v Hv]. simpl in Hv. rewrite Hv.
  cbn [deref mbind res_bind]. pose proof (vo_nodup _ V) as [Ha Hn]%NoDup_cons. simpl in *.
  destruct (Z.eqb_spec (vtr_next v) 0) as [E|Hne].
  - pose proof (StronglySorted_inv L) as [_ La]. rewrite Forall_forall in La.
    assert (Hall : forall x u, vtr_map e !! x = Some u -> vtr_next u = 0).
    { intros x u Hu. pose proof (proj2 (vo_list _ V x) ltac:(simpl; eauto)) as Hx. simpl in Hx.
      apply elem_of_cons in Hx as [->|Hx]; [congruence|]. destruct (La x Hx) as (u' & Hu' & E'); [exists v; done|]. congruence. }
    eexists. split; [done|]. split_and!; try done.
    + apply (wf_marks _ (vtr_map e) (l ++ [a])) in W; [done|done|]. simpl. apply Permutation_cons_append.
    + intros x u. simpl. split; [|tauto]. intros Hu. eauto.
    + intros s x p. simpl. split; [|tauto]. intros Hp. split; [done|]. destruct (vo_owner _ V s x) as [u Hu]; [simpl; eauto|]. simpl in Hu. exists u. eauto.
  - destruct (eqvoc_release_voter e a v l W Hv) as (pn & pm & -> & W1 & Hpm). cbn [mbind res_bind].
    destruct (IH (put e pn pm (vtr_free e + 1) (delete a (vtr_map e)) l)) as (e' & E' & W' & P1 & P2 & P3 & K' & V'); simpl in *; [done|by apply kept_last_delete|].
    exists e'. split; [exact E'|]. split_and!; try done.
    + intros x u. rewrite K', lookup_delete_Some. split; [tauto|]. intros [Hu Eu]. split; [|done]. split; [|done]. intros ->. congruence.
    + intros s x p. rewrite V', Hpm. destruct (decide (x = a)) as [->|Hxa].
      * split; [by intros []|]. intros (_ & u & Hu & Eu). congruence.
      * unfold Links.kept. by rewrite lookup_delete_ne by congruence.
Qed.

Lemma eqvoc_add_voters ids : forall e,
  eqvoc_wf e -> Z.of_nat (size (dom (vtr_map e) ∪ list_to_set ids : gset fd_pubkey_t)) <= vtr_max e ->
  exists e', add_voters ids e = Ok e' /\ eqvoc_wf e' /\ prf_map e' = prf_map e /\ dup_map e' = dup_map e /\ fec_map e' = fec_map e /\
    vtr_max e' = vtr_max e /\ dom (vtr_map e') = dom (vtr_map e) ∪ list_to_set ids.
Proof.
  induction ids as [|a ids IH]; intros e W Hsz; cbn [add_voters].
  { exists e. split_and!; try done. simpl. set_solver. }
  destruct (vtr_map e !! a) as [v|] eqn:Ha.
  - assert (Hin : a ∈ dom (vtr_map e)) by (apply elem_of_dom; eauto).
    assert (Eq : dom (vtr_map e) ∪ list_to_set (a :: ids) = dom (vtr_map e) ∪ list_to_set ids) by set_solver.
    rewrite Eq in *. by apply IH.
  - assert (Hnot : a ∉ dom (vtr_map e)) by (by apply not_elem_of_dom). pose proof (ew_voters _ _ W) as V.
    pose proof (vo_free _ V) as [Hf0 Hfv]. assert (Hroom : Z.of_nat (size (vtr_map e)) < vtr_max e).
    { rewrite <- (size_dom (vtr_map e)).
      assert (Hs : (size (dom (vtr_map e)) < size (dom (vtr_map e) ∪ list_to_set (a :: ids) : gset fd_pubkey_t))%nat); [|lia].
      apply subset_size. set_solver. }
    unfold acquire. rewrite (proj2 (Z.leb_gt (vtr_free e) 0)) by lia. cbn [mbind res_bind]. unfold map_insert. rewrite Ha. cbn [mbind res_bind].
    assert (Hnp : forall s, prf_map e !! (s, a) = None).
    { intros s. apply eq_None_not_Some. intros Hx%(vo_owner _ V). rewrite Ha in Hx. by destruct Hx. }
    edestruct (IH (with_vtrs e (vtr_free e - 1) (<[a := mk_vtr 0 0 []]> (vtr_map e)) (vtr_dlist e ++ [a])))
      as (e' & -> & W' & E1 & E2 & E3 & E4 & D'); simpl.
    + destruct W as [W1 W2 W3 W4 [Vn Vl Vf Vv Vo Vp Vq] W6]. constructor; try done. constructor; simpl; try done.
      * apply NoDup_snoc; [done|]. rewrite Vl, Ha. by intros [].
      * intros x. rewrite elem_of_app, list_elem_of_singleton, Vl, lookup_insert_is_Some'. naive_solver.
      * rewrite map_size_insert_None by done. lia.
      * intros x u [[<- <-]|[_ Hu]]%lookup_insert_Some; [|by apply Vv]. split_and!; simpl; [apply NoDup_nil_2|done|lia|].
        intros s. rewrite Hnp. split; [intros Hx; inversion Hx|by intros []].
      * intros s x Hx%Vo. apply lookup_insert_is_Some'. by right.
    + assert (Eq : dom (<[a:=mk_vtr 0 0 []]> (vtr_map e)) ∪ list_to_set ids = dom (vtr_map e) ∪ list_to_set (a :: ids))
        by (rewrite dom_insert_L; set_solver). by rewrite Eq.
    + exists e'. split_and!; try done. rewrite D'. simpl. rewrite dom_insert_L. set_solver.
Qed.

(** Afterwards the voters are the given ones; those that stay keep the proofs
    they are sending, the proofs of the others are gone. *)
Lemma update_voters_ok e ids : eqvoc_wf e -> Z.of_nat (length ids) <= vtr_max e ->
  exists e', fd_eqvoc_update_voters e ids = Ok e' /\ eqvoc_wf e' /\ dom (vtr_map e') = list_to_set ids /\
    dup_map e' = dup_map e /\ fec_map e' = fec_map e /\ vtr_max e' = vtr_max e /\
    forall s a p, prf_map e' !! (s, a) = Some p <-> prf_map e !! (s, a) = Some p /\ a ∈ ids.
Proof.
  intros W Hids. unfold fd_eqvoc_update_voters. pose proof (ew_voters _ _ W) as V.
  destruct (mark_all_dom vtr_next set_next) with (l := vtr_dlist e) (m := vtr_map e) as (m & -> & Hm & Hk); [done|done|apply (vo_list _ V)|].
  cbn [mbind res_bind]. assert (Hs : same_prfs (vtr_map e) m) by (intros a; rewrite Hm; by destruct (vtr_map e !! a)).
  edestruct (eqvoc_keep_voters ids (with_vtrs e (vtr_free e) m (vtr_dlist e))) as (m1 & l1 & -> & W1 & L1 & S1 & K1);
    [by apply wf_marks|by apply kept_none_last|]. cbn [mbind res_bind]. simpl in S1, K1.
  destruct (eqvoc_release_voters l1 (with_vtrs e (vtr_free e) m1 l1)) as (e2 & E2 & W2 & P1 & P2 & P3 & V2 & R2); [exact W1|exact L1|].
  change (release_voters (vtr_dlist _) _) with (release_voters l1 (with_vtrs e (vtr_free e) m1 l1)). rewrite E2. cbn [mbind res_bind]. simpl in *.
  assert (Hkept : forall a, kept m1 a <-> a ∈ ids /\ is_Some (vtr_map e !! a)).
  { intros a. rewrite K1, <- (same_prfs_is_Some _ _ a Hs). split; [|by right]. intros [Hx|?]; [by apply Hk in Hx|done]. }
  assert (Hdom : forall a, is_Some (vtr_map e2 !! a) <-> a ∈ ids /\ is_Some (vtr_map e !! a)).
  { intros a. rewrite <- Hkept. split; [intros [v Hv]; apply V2 in Hv as [? ?]; by exists v|]. intros (v & Hv & En). exists v. by apply V2. }
  assert (Hun : dom (vtr_map e2) ∪ list_to_set ids = (list_to_set ids : gset fd_pubkey_t)).
  { apply set_eq. intros a. rewrite elem_of_union, elem_of_dom, Hdom, elem_of_list_to_set. tauto. }
  destruct (eqvoc_add_voters ids e2 W2) as (e' & -> & W' & Q1 & Q2 & Q3 & Q4 & D'); [rewrite Hun, P1; pose proof (size_list_to_set_le ids); lia|].
  exists e'. split; [done|]. split; [done|]. split; [by rewrite D', Hun|]. split_and!; [congruence|congruence|congruence|].
  intros s a p. rewrite Q1, R2, Hkept. split; [naive_solver|]. intros [Hp Ha]. split_and!; try done. by eapply (vo_owner _ V).
Qed.
