(* ===== verification/EqvocProofs.v ===== *)
(** * Equivocation detection: receiving a proof in chunks

    [fd_eqvoc_chunk_insert] on arbitrary chunks: it never fails, it keeps the
    invariant, and the third of three chunks yields the verdict. *)

From S2P Require Import Prelude Bits Bytes Shred Bmtree BmtreeRun ShredRoot Links Eqvoc EqvocInv EqvocChunks EqvocSerde EqvocVerify EqvocVoters.

#[local] Open Scope Z_scope.

(** The pieces of the proof that a voter is sending for a slot. *)
Definition held (e : fd_eqvoc_t) (slot : Z) (from : fd_pubkey_t) (cs : Z -> option (list Z)) : Prop :=
  match prf_map e !! (slot, from) with
  | Some p => prf_holds p cs
  | None => forall i, 0 <= i < 3 -> cs i = None
  end.

(** The chunk carries these bytes. *)
Record carries (c : fd_gossip_duplicate_shred_t) (cb : list Z) : Prop := {
  ca_index : 0 <= chunk_index c;
  ca_bytes : Forall is_byte cb;
  ca_len : chunk_len c = Z.of_nat (length cb);
  ca_chunk : region (chunk c) 0 (Z.of_nat (length cb)) = bytes cb
}.

Section chunks.
Context (sha256 : list Z -> list Z) (ed25519_verify : list Z -> list Z -> fd_pubkey_t -> bool).
Context (shred_version : Z) (leader_schedule : option fd_epoch_leaders_t).
Hypothesis sha256_length : forall m, length (sha256 m) = 32%nat.
Hypothesis schedule_ok : forall leaders, leader_schedule = Some leaders -> leaders_ok leaders.

Abbreviation verdict := (verdict sha256 ed25519_verify shred_version leader_schedule).

(** The shreds a proof consists of. *)
Record proof_of (slot : Z) (bs b1 b2 : list Z) : Prop := {
  po_bytes : bs = serial b1 b2;
  po_parsed : parsed b1 /\ parsed b2;
  po_slot : f_slot b1 = slot /\ f_slot b2 = slot
}.

(** The answer to a complete proof. *)
Definition judged (slot : Z) (bs : list Z) (r : Z) : Prop :=
  (exists b1 b2, proof_of slot bs b1 b2 /\ r = verdict b1 b2) \/
  ((forall b1 b2, ~ proof_of slot bs b1 b2) /\ r = FD_EQVOC_ERR_SERDE).

(** The chunks written when a proof is valid. *)
Definition reported (slot : Z) (bs : list Z) (out : list fd_gossip_duplicate_shred_t) : Prop :=
  exists c0 c1 c2, out = [c0; c1; c2] /\ chunk_of slot bs 0 c0 /\ chunk_of slot bs 1 c1 /\ chunk_of slot bs 2 c2.

Lemma success_sizes b1 b2 : parsed b1 -> parsed b2 -> verdict b1 b2 = FD_EQVOC_SUCCESS -> full_sized b1 /\ full_sized b2.
Proof.
  intros (B1 & S1 & _) (B2 & S2 & _) [_ _ [C1 C2] _]%verdict_success.
  destruct (chained_sizes b1 C1) as [H1 _], (chained_sizes b2 C2) as [H2 _]. unfold full_sized, FD_SHRED_MIN_SZ, FD_SHRED_MAX_SZ in *.
  split; (split; [done|]); (split; [done|]); [destruct (fd_shred_is_data (f_type b1))|destruct (fd_shred_is_data (f_type b2))]; lia.
Qed.

(** What changes when a proof is complete. *)
Record completed (e : fd_eqvoc_t) (slot : Z) (from : fd_pubkey_t) (bs : list Z) (out : list fd_gossip_duplicate_shred_t)
    (e' : fd_eqvoc_t) (out' : list fd_gossip_duplicate_shred_t) (r : Z) : Prop := {
  cp_judged : judged slot bs r;
  cp_released : prf_map e' !! (slot, from) = None;
  cp_dups : dup_map e' = if r =? FD_EQVOC_SUCCESS then dup_record e slot else dup_map e;
  cp_out : if r =? FD_EQVOC_SUCCESS then reported slot bs out' else out' = out
}.

Lemma proof_complete_ok e slot from p cs c0 c1 c2 out :
  eqvoc_wf_but (Some (slot, from)) e -> prf_map e !! (slot, from) = Some p -> prf_holds p cs ->
  cs 0 = Some c0 -> cs 1 = Some c1 -> cs 2 = Some c2 -> slot ∉ dup_map e -> out_ok out ->
  exists e' out' r, proof_complete sha256 ed25519_verify e shred_version leader_schedule from slot p out = Ok (e', out', r) /\
    eqvoc_wf e' /\ out_ok out' /\ completed e slot from (c0 ++ c1 ++ c2) out e' out' r /\
    dom (vtr_map e') = dom (vtr_map e) /\ fec_map e' = fec_map e /\ vtr_max e' = vtr_max e.
Proof using sha256_length schedule_ok.
  intros W Hp Hh E0 E1 E2 Hno Hout. unfold proof_complete. set (bs := c0 ++ c1 ++ c2).
  destruct (complete_buf p cs c0 c1 c2 Hh E0 E1 E2) as (rest & Eb & Es & Hbytes & Hle). fold bs in Eb, Es, Hbytes. rewrite Eb, Es.
  assert (Hfin : forall e1 out1 r, eqvoc_wf_but (Some (slot, from)) e1 -> prf_map e1 = prf_map e -> vtr_map e1 = vtr_map e -> fec_map e1 = fec_map e -> vtr_max e1 = vtr_max e ->
    out_ok out1 -> judged slot bs r -> dup_map e1 = (if r =? FD_EQVOC_SUCCESS then dup_record e slot else dup_map e) ->
    (if r =? FD_EQVOC_SUCCESS then reported slot bs out1 else out1 = out) ->
    exists e' out' r', (e2 ← prf_release e1 from slot; Ok (e2, out1, r)) = Ok (e', out', r') /\
      eqvoc_wf e' /\ out_ok out' /\ completed e slot from bs out e' out' r' /\ dom (vtr_map e') = dom (vtr_map e) /\ fec_map e' = fec_map e /\
      vtr_max e' = vtr_max e).
  { intros e1 out1 r W1 Q1 Q2 Q3 Q4 Ho Hj Hd Hrep. destruct (prf_release_ok e1 slot from W1) as (m & -> & W' & Dm); [rewrite Q1; eauto|].
    cbn [mbind res_bind]. do 3 eexists. split; [done|]. split; [exact W'|]. split; [done|]. split_and!; simpl; [|congruence|done|done].
    constructor; [done| |done|done]. simpl. apply lookup_delete_eq. }
  destruct (parse_proof_ok bs rest Hbytes) with (slot := slot) as (o & -> & Ho); [lia|]. cbn [mbind res_bind].
  destruct o as [[s1 s2]|].
  - destruct Ho as (b1 & b2 & r1 & r2 & Ebs & P1 & P2 & S1 & S2 & -> & ->).
    destruct (verify_proof_ok sha256 ed25519_verify shred_version leader_schedule sha256_length schedule_ok (bmtree e) b1 b2 r1 r2)
      as (bm & -> & M); [apply W|done|done|]. cbn [mbind res_bind].
    assert (Hj : judged slot bs (verdict b1 b2)) by (left; exists b1, b2; done).
    destruct (Z.eqb_spec (verdict b1 b2) FD_EQVOC_SUCCESS) as [Ev|Ev].
    + destruct (success_sizes b1 b2 P1 P2 Ev) as [F1 F2].
      destruct (construct_proof_ok b1 b2 r1 r2 out F1 F2 Hout) as (d0 & d1 & d2 & -> & Ho & K0 & K1 & K2). cbn [mbind res_bind].
      destruct (dup_insert_ok _ (with_bmtree e bm) slot (wf_bmtree _ _ _ W M) Hno) as (n & l & -> & W1). cbn [mbind res_bind].
      apply Hfin; try done; rewrite Ev, Z.eqb_refl; [done|]. exists d0, d1, d2. rewrite Ebs, <- S1. done.
    + apply Hfin; try done; [by apply wf_bmtree| |]; by rewrite (proj2 (Z.eqb_neq _ _) Ev).
  - cbn [mbind res_bind]. apply Hfin; try done. right. split; [|done]. intros b1 b2 [Q1 [Q2 Q3] [Q4 Q5]]. by apply (Ho b1 b2).
Qed.

(** ** A chunk arrives *)

(** The chunk is refused before the state is looked at. *)
Definition refused (e : fd_eqvoc_t) (root : Z) (from : fd_pubkey_t) (c : fd_gossip_duplicate_shred_t) : option Z :=
  if ck_slot c <=? root then Some FD_EQVOC_ERR_CHUNK_SLOT
  else match vtr_map e !! from with
       | None => Some FD_EQVOC_ERR_CHUNK_FROM
       | Some _ => chunk_header_err c
       end.

Lemma header_ok c cb : carries c cb -> chunk_header_err c = None ->
  0 <= chunk_index c < 3 /\ piece_len (chunk_index c) (Z.of_nat (length cb)).
Proof.
  intros [Hi _ Hl _]. rewrite <- Hl. unfold chunk_header_err. destruct (negb (num_chunks c =? _)); [done|].
  destruct (Z.leb_spec FD_EQVOC_CHUNK_CNT (chunk_index c)) as [|Hlt]; [done|]. unfold FD_EQVOC_CHUNK_CNT in Hlt.
  assert (chunk_index c = 0 \/ chunk_index c = 1 \/ chunk_index c = 2) as [->|[->| ->]] by lia; simpl Z.eqb; simpl andb; cbv iota; unfold piece_len, chunk2_len; simpl Z.eqb; cbv iota.
  - destruct (Z.eqb_spec (chunk_len c) FD_EQVOC_CHUNK0_LEN); [|done]. intros _. split; [lia|done].
  - destruct (Z.eqb_spec (chunk_len c) FD_EQVOC_CHUNK1_LEN); [|done]. intros _. split; [lia|done].
  - intros H. split; [lia|].
    destruct (Z.eqb_spec (chunk_len c) FD_EQVOC_CHUNK2_LEN_CC); [by left|].
    destruct (Z.eqb_spec (chunk_len c) FD_EQVOC_CHUNK2_LEN_DD); [by right; left|].
    destruct (Z.eqb_spec (chunk_len c) FD_EQVOC_CHUNK2_LEN_DC); [by right; right; left|].
    destruct (Z.eqb_spec (chunk_len c) FD_EQVOC_CHUNK2_LEN_CD); [by right; right; right|]. done.
Qed.

(** What a chunk does. *)
Inductive chunk_outcome (e : fd_eqvoc_t) (root : Z) (from : fd_pubkey_t) (c : fd_gossip_duplicate_shred_t) (cb : list Z)
    (out : list fd_gossip_duplicate_shred_t) (e' : fd_eqvoc_t) : list fd_gossip_duplicate_shred_t -> Z -> Prop :=
| co_refused r : refused e root from c = Some r -> e' = e -> chunk_outcome e root from c cb out e' out r
| co_known : refused e root from c = None -> ck_slot c ∈ dup_map e -> prf_map e' = prf_map e -> dup_map e' = dup_map e ->
    chunk_outcome e root from c cb out e' out FD_EQVOC_IGNORED
| co_repeated cs : refused e root from c = None -> ck_slot c ∉ dup_map e -> held e (ck_slot c) from cs -> is_Some (cs (chunk_index c)) ->
    prf_map e' = prf_map e -> dup_map e' = dup_map e -> chunk_outcome e root from c cb out e' out FD_EQVOC_IGNORED
| co_stored cs : refused e root from c = None -> ck_slot c ∉ dup_map e -> held e (ck_slot c) from cs -> cs (chunk_index c) = None ->
    ~ complete (set_piece cs (chunk_index c) cb) -> held e' (ck_slot c) from (set_piece cs (chunk_index c) cb) -> dup_map e' = dup_map e ->
    chunk_outcome e root from c cb out e' out FD_EQVOC_IGNORED
| co_completed cs c0 c1 c2 out' r : refused e root from c = None -> ck_slot c ∉ dup_map e -> held e (ck_slot c) from cs -> cs (chunk_index c) = None ->
    set_piece cs (chunk_index c) cb 0 = Some c0 -> set_piece cs (chunk_index c) cb 1 = Some c1 -> set_piece cs (chunk_index c) cb 2 = Some c2 ->
    completed e (ck_slot c) from (c0 ++ c1 ++ c2) out e' out' r -> chunk_outcome e root from c cb out e' out' r.

(** The proof a chunk belongs to: the voter's, or a new one. *)
Lemma prf_find_ok e slot from : eqvoc_wf e -> is_Some (vtr_map e !! from) ->
  exists e3 p cs, ('(e2, o) ← prf_query e from slot; match o with Some p => Ok (e2, p) | None => prf_insert e2 slot from end) = Ok (e3, p) /\
    eqvoc_wf e3 /\ prf_map e3 !! (slot, from) = Some p /\ prf_holds p cs /\ held e slot from cs /\
    (is_Some (prf_map e !! (slot, from)) -> prf_map e3 = prf_map e) /\
    (prf_map e !! (slot, from) = None -> forall i, cs i = None) /\
    dom (vtr_map e3) = dom (vtr_map e) /\ dup_map e3 = dup_map e /\ fec_map e3 = fec_map e /\
    dup_free e3 = dup_free e /\ dup_dlist e3 = dup_dlist e /\ vtr_max e3 = vtr_max e.
Proof.
  intros W Hv. destruct (prf_query_ok e from slot W) as (m & -> & W2 & Dm). cbn [mbind res_bind]. unfold held.
  destruct (prf_map e !! (slot, from)) as [p|] eqn:Ep.
  - destruct (ew_proofs _ _ W2 slot from p) as (cs & Hh & _); [done|]. do 2 eexists. exists cs. split; [done|]. split_and!; try done.
  - edestruct (prf_insert_ok _ slot from W2) as (pn & pm & vm & -> & W3 & _ & _ & Dv); [simpl; apply elem_of_dom; rewrite Dm; by apply elem_of_dom|done|].
    do 2 eexists. exists (fun _ => None). split; [done|]. split_and!; try done; simpl.
    + apply lookup_insert_eq.
    + apply new_prf_holds.
    + simpl in Dv. congruence.
Qed.

Lemma dup_record_eq e e' slot : dup_free e' = dup_free e -> dup_map e' = dup_map e -> dup_dlist e' = dup_dlist e -> dup_record e' slot = dup_record e slot.
Proof. intros E1 E2 E3. unfold dup_record. by rewrite E1, E2, E3. Qed.

(** A slot that is not known stays where it is on the list. *)
Lemma dup_query_miss e slot : slot ∉ dup_map e -> dup_query e slot = Ok (e, false).
Proof. intros Hno. unfold dup_query. by rewrite decide_False by done. Qed.

Lemma chunk_insert_ok e root from c cb out : eqvoc_wf e -> carries c cb -> out_ok out ->
  exists e' out' r, fd_eqvoc_chunk_insert sha256 ed25519_verify e root shred_version leader_schedule from c out = Ok (e', out', r) /\
    eqvoc_wf e' /\ out_ok out' /\ chunk_outcome e root from c cb out e' out' r /\
    dom (vtr_map e') = dom (vtr_map e) /\ vtr_max e' = vtr_max e.
Proof using sha256_length schedule_ok.
  intros W Hc Hout. unfold fd_eqvoc_chunk_insert. destruct (refused e root from c) as [r|] eqn:Er.
  { exists e, out, r. assert (Ho : chunk_outcome e root from c cb out e out r) by (by apply co_refused).
    split; [|done]. unfold refused in Er. destruct (ck_slot c <=? root); [congruence|]. destruct (vtr_map e !! from); [|congruence]. by rewrite Er. }
  pose proof Er as Er'. unfold refused in Er'. destruct (ck_slot c <=? root); [done|]. destruct (vtr_map e !! from) as [v|] eqn:Hv; [|done].
  rewrite Er'. destruct (header_ok c cb Hc Er') as [Hi Hlen]. destruct (decide (ck_slot c ∈ dup_map e)) as [Hin|Hno].
  { destruct (dup_query_ok e (ck_slot c) W) as (l & -> & W1). cbn [mbind res_bind]. rewrite bool_decide_eq_true_2 by done.
    do 3 eexists. split; [done|]. split; [done|]. split; [done|]. split; [by apply co_known|done]. }
  rewrite dup_query_miss by done. cbn [mbind res_bind].
  destruct (prf_find_ok e (ck_slot c) from W) as (e3 & p & cs & E & W3 & Hp & Hh & Hheld & Hsame & Hnew & Dv & Dd & Df & Dn & Dl & Dx); [eauto|].
  destruct (prf_query e from (ck_slot c)) as [[e2 o]| | |]; try done. cbn [mbind res_bind] in E |- *. rewrite E. cbn [mbind res_bind].
  destruct (ph_pieces _ _ Hh (chunk_index c) Hi) as [Ht _]. destruct (cs (chunk_index c)) as [old|] eqn:Ecs.
  { rewrite bool_decide_eq_true_2 in Ht by done. rewrite Ht. do 3 eexists. split; [done|]. split_and!; try done.
    destruct (prf_map e !! (ck_slot c, from)) eqn:Em; [|by rewrite Hnew in Ecs]. apply (co_repeated _ _ _ _ _ _ _ cs); try done; rewrite ?Ecs; eauto. }
  rewrite bool_decide_eq_false_2 in Ht by (by intros []). rewrite Ht. destruct Hc as [Hc1 Hc2 Hc3 Hc4].
  destruct (store_piece p cs (chunk_index c) (chunk c) cb Hh Hi Ecs Hc2 Hc4 Hlen) as (b & Eb & Hh1). rewrite Hc3, Eb. cbn [mbind res_bind].
  set (p1 := mk_prf _ _ b) in *. change (Z.shiftl 1 FD_EQVOC_CHUNK_CNT - 1) with 7. pose proof (complete_iff p1 _ Hh1) as Hfull.
  assert (Hno3 : ck_slot c ∉ dup_map e3) by (by rewrite Dd).
  destruct (idxs p1 =? 7) eqn:E7; simpl negb; cbv iota.
  - pose proof (proj1 Hfull eq_refl) as Hcomp. destruct (Hcomp 0 ltac:(lia)) as [c0 E0], (Hcomp 1 ltac:(lia)) as [c1 E1], (Hcomp 2 ltac:(lia)) as [c2 E2].
    set (e4 := with_prfs e3 (prf_free e3) (<[(ck_slot c, from) := p1]> (prf_map e3))).
    destruct (proof_complete_ok e4 (ck_slot c) from p1 (set_piece cs (chunk_index c) cb) c0 c1 c2 out) as (e' & out' & r & -> & W' & Ho & [J1 J2 J3 J4] & D' & _ & D''); try done.
    { eapply prf_store_ok; [done|eauto|exact Hh1|by left]. } { apply lookup_insert_eq. }
    do 3 eexists. split; [done|]. split; [done|]. split; [done|]. split; [|simpl in D', D''; split; congruence]. eapply co_completed; try done.
    constructor; try done. rewrite J3. destruct (r =? FD_EQVOC_SUCCESS); [by apply dup_record_eq|done].
  - assert (Hnc : ~ complete (set_piece cs (chunk_index c) cb)) by (intros Hx; apply Hfull in Hx; done).
    do 3 eexists. split; [done|]. split; [eapply prf_store_ok; [done|eauto|exact Hh1|by right]|]. split; [done|]. split; [|done].
    eapply (co_stored _ _ _ _ _ _ _ cs); try done. unfold held. simpl. by rewrite lookup_insert_eq.
Qed.

End chunks.
