(* ===== verification/EqvocShreds.v ===== *)
(** * Equivocation detection: a shred arrives

    [fd_eqvoc_shred_insert] remembers the first shred of every FEC set and the
    highest shred of every slot, and reports a slot when a shred contradicts
    one of them. *)

From S2P Require Import Prelude Bits Bytes Shred Bmtree BmtreeRun ShredRoot Links Eqvoc EqvocInv EqvocChunks EqvocSerde EqvocVerify EqvocProofs.

#[local] Open Scope Z_scope.

(** A stored sample: a shred at the start of its buffer. *)
Lemma sample_full s : sample_ok s -> exists b rest, s = bytes b ++ rest /\ full_sized b.
Proof.
  intros [_ (b & rest & -> & Hb & Hmin & Hs & Hmax)]. exists b, rest. split; [done|]. unfold full_sized. split; [done|]. split; [done|lia].
Qed.

Lemma sample_store old b rest : length old = Z.to_nat FD_SHRED_MAX_SZ -> full_sized b ->
  exists s, memcpy old 0 (bytes b ++ rest) (shred_size b) = Ok s /\ sample_ok s /\ exists rest', s = bytes b ++ rest'.
Proof.
  intros Ho (Hb & Hs & Hl). rewrite Hs. unfold FD_SHRED_MIN_SZ, FD_SHRED_MAX_SZ in *.
  rewrite memcpy_ok by (rewrite ?length_app, ?bytes_length; lia). rewrite take_0, take_app_length' by (rewrite bytes_length; lia). simpl app.
  eexists. split; [done|]. split; [|by eexists]. split; [rewrite length_app, bytes_length, length_drop; unfold FD_SHRED_MAX_SZ; lia|].
  eexists b, _. split; [done|]. unfold FD_SHRED_MIN_SZ, FD_SHRED_MAX_SZ. split_and!; try done; lia.
Qed.

Definition is_last (b : list Z) : bool := f_data b && f_last b.

(** One of two shreds is the last of its slot, and the other has a higher
    index. *)
Definition disagree (b b' : list Z) : bool := (is_last b && (f_idx b <? f_idx b')) || (is_last b' && (f_idx b' <? f_idx b)).

Lemma is_last_ok b rest : 0x58 <= Z.of_nat (length b) -> is_last_shred (bytes b ++ rest) = Ok (is_last b).
Proof.
  intros Hl. unfold is_last_shred, sh_variant, sh_data_flags, is_last, f_data. rewrite !load_fld by lia. cbn [mbind res_bind].
  fold (f_variant b). fold (f_type b). by destruct (fd_shred_is_data (f_type b)).
Qed.

Lemma last_compare_ok b b' r r' : 0x58 <= Z.of_nat (length b) -> 0x58 <= Z.of_nat (length b') ->
  last_compare (bytes b ++ r) (bytes b' ++ r') = Ok (disagree b b').
Proof.
  intros Hl Hl'. unfold last_compare, disagree. rewrite !is_last_ok by done. unfold sh_idx. rewrite !load_fld by lia.
  cbn [mbind res_bind]. fold (f_idx b) (f_idx b'). by destruct (is_last b && (f_idx b <? f_idx b')).
Qed.

(** ** The parts of the state that shreds do not change *)

Record shred_frame (e e' : fd_eqvoc_t) : Prop := {
  sf_dups : dup_free e' = dup_free e /\ dup_map e' = dup_map e /\ dup_dlist e' = dup_dlist e;
  sf_prfs : prf_map e' = prf_map e;
  sf_vtrs : vtr_map e' = vtr_map e /\ vtr_max e' = vtr_max e
}.

Lemma fecs_frame e n m l : shred_frame e (with_fecs e n m l).
Proof. by constructor. Qed.

Lemma frame_trans e1 e2 e3 : shred_frame e1 e2 -> shred_frame e2 e3 -> shred_frame e1 e3.
Proof. intros [(? & ? & ?) ? [? ?]] [(? & ? & ?) ? [? ?]]. constructor; split_and?; congruence. Qed.

(** ** Remembering *)

(** The shred remembered under a key. *)
Definition remembers (e : fd_eqvoc_t) (key : Z) (b : list Z) : Prop := exists rest, fec_map e !! key = Some (bytes b ++ rest).

Section shred.
Context (b : list Z) (rest : mem).
Hypothesis b_full : full_sized b.

Lemma b_length : 0x58 <= Z.of_nat (length b).
Proof using b_full. destruct b_full as (_ & _ & H). unfold FD_SHRED_MIN_SZ in H. lia. Qed.

(** A new entry with the shred. *)
Lemma fec_new_ok e slot x : eqvoc_wf e -> fec_map e !! fec_key slot x = None ->
  exists e', (e2 ← fec_insert e slot x;
      old ← deref (fec_map e2 !! fec_key slot x);
      s ← memcpy old 0 (bytes b ++ rest) (shred_size b);
      Ok (with_fecs e2 (fec_free e2) (<[fec_key slot x := s]> (fec_map e2)) (fec_dlist e2))) = Ok e' /\
    eqvoc_wf e' /\ shred_frame e e' /\ remembers e' (fec_key slot x) b.
Proof using b_full.
  intros W Hno. destruct (fec_insert_ok e slot x W Hno) as (n & m & l & -> & _ & W'). cbn [mbind res_bind]. simpl fec_map.
  rewrite lookup_insert_eq. cbn [deref mbind res_bind].
  destruct (sample_store (uninit FD_SHRED_MAX_SZ) b rest) as (s & -> & Hs & rest' & Es); [by unfold uninit; rewrite length_replicate|done|].
  cbn [mbind res_bind]. simpl. rewrite insert_insert_eq. exists (with_fecs e n (<[fec_key slot x := s]> m) l). split; [reflexivity|]. split; [exact (W' s Hs)|]. split; [apply fecs_frame|].
  exists rest'. simpl. by rewrite lookup_insert_eq, Es.
Qed.

Lemma remember_fec_ok e slot : eqvoc_wf e -> exists e', remember_fec e (bytes b ++ rest) slot = Ok e' /\ eqvoc_wf e' /\ shred_frame e e'.
Proof using b_full.
  intros W. pose proof b_length as Hl. unfold remember_fec, sh_fec_set_idx. rewrite load_fld by lia. cbn [mbind res_bind]. fold (f_fec_set_idx b).
  destruct (fec_query_ok e slot (f_fec_set_idx b) W) as (l & -> & W1). cbn [mbind res_bind].
  destruct (fec_map e !! fec_key slot (f_fec_set_idx b)) as [s|] eqn:Es.
  - eexists. split; [done|]. split; [done|apply fecs_frame].
  - rewrite fd_shred_sz_ok by lia. edestruct (fec_new_ok _ slot (f_fec_set_idx b) W1 Es) as (e' & E & W' & F & _). exists e'. split; [|split; [done|]].
    + by destruct (fec_insert _ slot (f_fec_set_idx b)) as [e2| | |].
    + eapply frame_trans; [apply fecs_frame|exact F].
Qed.

(** ** The outcome *)

(** Why a slot is reported: [b1] and [b2] are the shred and one remembered
    before. *)
Definition reason (e : fd_eqvoc_t) (hint : bool) (b1 b2 : list Z) : Prop :=
  if hint then remembers e (fec_key (f_slot b) (f_fec_set_idx b)) b1 /\ b2 = b
  else b1 = b /\ remembers e (fec_key (f_slot b) UINT_MAX) b2 /\ disagree b b2 = true.

Inductive shred_outcome (e : fd_eqvoc_t) (hint : bool) (out : list fd_gossip_duplicate_shred_t) (e' : fd_eqvoc_t)
    : list fd_gossip_duplicate_shred_t -> Z -> Prop :=
| so_quiet : dup_map e' = dup_map e -> (f_slot b ∉ dup_map e -> forall b1 b2, full_sized b1 -> full_sized b2 -> ~ reason e hint b1 b2) ->
    shred_outcome e hint out e' out 0
| so_reported b1 b2 out' : f_slot b ∉ dup_map e -> reason e hint b1 b2 -> full_sized b1 -> full_sized b2 ->
    dup_map e' = dup_record e (f_slot b) -> reported (f_slot b1) (serial b1 b2) out' -> shred_outcome e hint out e' out' 1.

(** A buffer starts with one shred only. *)
Lemma prefix_inj b1 b2 (r1 r2 : mem) : full_sized b1 -> full_sized b2 -> bytes b1 ++ r1 = bytes b2 ++ r2 -> b1 = b2.
Proof.
  intros (B1 & S1 & L1) (B2 & S2 & L2) E. assert (Hs : shred_size b1 = shred_size b2).
  { assert (H : forall b r, 0x58 <= Z.of_nat (length b) -> fd_shred_sz (bytes b ++ r) = Ok (shred_size b)) by (intros; by apply fd_shred_sz_ok).
    pose proof (H b1 r1) as H1. pose proof (H b2 r2) as H2. rewrite E in H1. unfold FD_SHRED_MIN_SZ in *.
    rewrite H1 in H2 by lia. assert (Ok (shred_size b1) = Ok (shred_size b2)) as [= ->] by (apply H2; lia). done. }
  apply app_inj_1 in E as [E _]; [|rewrite !bytes_length; lia]. apply (f_equal (mapM id)) in E. rewrite !mapM_bytes in E. by injection E.
Qed.

Lemma remembers_unique e key b1 b2 : full_sized b1 -> full_sized b2 -> remembers e key b1 -> remembers e key b2 -> b1 = b2.
Proof. intros F1 F2 [r1 E1] [r2 E2]. eapply prefix_inj; [done|done|]. rewrite E1 in E2. by injection E2. Qed.

(** The slot is reported. *)
Lemma report_ok e b1 b2 r1 r2 out : eqvoc_wf e -> f_slot b ∉ dup_map e -> full_sized b1 -> full_sized b2 -> out_ok out ->
  exists out' n l, construct_proof (bytes b1 ++ r1) (bytes b2 ++ r2) out = Ok out' /\ out_ok out' /\ reported (f_slot b1) (serial b1 b2) out' /\
    dup_insert e (f_slot b) = Ok (with_dups e n (dup_record e (f_slot b)) l) /\ eqvoc_wf (with_dups e n (dup_record e (f_slot b)) l).
Proof.
  intros W Hno F1 F2 Hout. destruct (construct_proof_ok b1 b2 r1 r2 out F1 F2 Hout) as (d0 & d1 & d2 & E & Ho & K0 & K1 & K2).
  destruct (dup_insert_ok _ e (f_slot b) W Hno) as (n & l & E' & W'). exists [d0; d1; d2], n, l. split_and!; try done. by exists d0, d1, d2.
Qed.

Lemma shred_hinted_ok e out : eqvoc_wf e -> f_slot b ∉ dup_map e -> out_ok out ->
  exists e' out' r, shred_hinted e (bytes b ++ rest) out = Ok (e', out', r) /\ eqvoc_wf e' /\ out_ok out' /\ shred_outcome e true out e' out' r /\
    prf_map e' = prf_map e /\ vtr_map e' = vtr_map e /\ vtr_max e' = vtr_max e.
Proof using b_full.
  intros W Hno Hout. pose proof b_length as Hl. unfold shred_hinted, sh_slot, sh_fec_set_idx. rewrite !load_fld by lia. cbn [mbind res_bind].
  fold (f_slot b) (f_fec_set_idx b). set (key := fec_key (f_slot b) (f_fec_set_idx b)).
  destruct (fec_query_ok e (f_slot b) (f_fec_set_idx b) W) as (l & -> & W1). fold key. cbn [mbind res_bind]. destruct (fec_map e !! key) as [s|] eqn:Es.
  - destruct (sample_full s (ew_samples _ _ W _ _ Es)) as (b1 & r1 & -> & F1).
    destruct (report_ok (with_fecs e (fec_free e) (fec_map e) l) b1 b r1 rest out W1 Hno F1 b_full Hout) as (out' & n & l' & -> & Ho & Hrep & -> & W2).
    cbn [mbind res_bind]. edestruct (fec_remove_ok _ key W2) as (l'' & E & W3); [simpl; rewrite Es; by eexists|]. rewrite E. cbn [mbind res_bind].
    do 3 eexists. split; [done|]. split; [exact W3|]. split; [done|]. split_and!; try done.
    apply (so_reported _ _ _ _ b1 b); try done. split; [by exists r1|done].
  - do 3 eexists. split; [done|]. split; [done|]. split; [done|]. split_and!; try done. apply so_quiet; [done|].
    intros _ b1 b2 _ _ [[r1 E1] _]. fold key in E1. rewrite Es in E1. done.
Qed.

Lemma shred_insert_ok e hint out : eqvoc_wf e -> out_ok out ->
  exists e' out' r, fd_eqvoc_shred_insert e hint (bytes b ++ rest) out = Ok (e', out', r) /\ eqvoc_wf e' /\ out_ok out' /\
    shred_outcome e hint out e' out' r /\ prf_map e' = prf_map e /\ vtr_map e' = vtr_map e /\ vtr_max e' = vtr_max e.
Proof using b_full.
  intros W Hout. pose proof b_length as Hl. unfold fd_eqvoc_shred_insert, sh_slot. rewrite load_fld by lia. cbn [mbind res_bind]. fold (f_slot b).
  destruct (decide (f_slot b ∈ dup_map e)) as [Hin|Hno].
  { destruct (dup_query_ok e (f_slot b) W) as (l & -> & W1). cbn [mbind res_bind]. rewrite bool_decide_eq_true_2 by done.
    do 3 eexists. split; [done|]. split_and!; try done. by apply so_quiet. }
  rewrite dup_query_miss by done. cbn [mbind res_bind]. destruct hint; [by apply shred_hinted_ok|].
  rewrite fd_shred_sz_ok by lia. cbn [mbind res_bind]. set (key := fec_key (f_slot b) UINT_MAX).
  destruct (fec_query_ok e (f_slot b) UINT_MAX W) as (l & -> & W1). fold key. cbn [mbind res_bind].
  assert (Hquiet : forall e3, eqvoc_wf e3 -> shred_frame e e3 -> (forall b2, full_sized b2 -> remembers e key b2 -> disagree b b2 = false) ->
    exists e' out' r, (e4 ← remember_fec e3 (bytes b ++ rest) (f_slot b); Ok (e4, out, 0)) = Ok (e', out', r) /\ eqvoc_wf e' /\ out_ok out' /\
      shred_outcome e false out e' out' r /\ prf_map e' = prf_map e /\ vtr_map e' = vtr_map e /\ vtr_max e' = vtr_max e).
  { intros e3 W3 F3 Hd. destruct (remember_fec_ok e3 (f_slot b) W3) as (e4 & -> & W4 & F4). cbn [mbind res_bind].
    destruct (frame_trans _ _ _ F3 F4) as [(_ & G1 & _) G2 [G3 G4]]. do 3 eexists. split; [done|]. split_and!; try done. apply so_quiet; [done|].
    intros _ b1 b2 _ Hf [_ [Hr Hdis]]. by rewrite (Hd b2 Hf Hr) in Hdis. }
  destruct (fec_map e !! key) as [s|] eqn:Es.
  - destruct (sample_full s (ew_samples _ _ W _ _ Es)) as (b2 & r2 & -> & F2). assert (Hl2 : 0x58 <= Z.of_nat (length b2)) by (destruct F2 as (_ & _ & ?); unfold FD_SHRED_MIN_SZ in *; lia).
    rewrite last_compare_ok by done. cbn [mbind res_bind]. destruct (disagree b b2) eqn:Ed.
    + destruct (report_ok (with_fecs e (fec_free e) (fec_map e) l) b b2 rest r2 out W1 Hno b_full F2 Hout) as (out' & n & l' & -> & Ho & Hrep & -> & W2).
      cbn [mbind res_bind]. do 3 eexists. split; [done|]. split; [exact W2|]. split_and!; try done.
      apply (so_reported _ _ _ _ b b2); try done. split_and!; [done|by exists r2|done].
    + unfold sh_idx. rewrite !load_fld by lia. cbn [mbind res_bind]. fold (f_idx b) (f_idx b2).
      assert (Hd : forall b', full_sized b' -> remembers e key b' -> disagree b b' = false).
      { intros b' F' Hr. by rewrite (remembers_unique e key b' b2 F' F2 Hr ltac:(by exists r2)). }
      destruct (f_idx b2 <? f_idx b).
      * destruct (sample_store (bytes b2 ++ r2) b rest) as (s & -> & Hs & _); [apply (ew_samples _ _ W _ _ Es)|done|]. cbn [mbind res_bind].
        apply Hquiet; [|by constructor|done]. apply (fec_store_ok _ key s W1); [simpl; rewrite Es; by eexists|done].
      * cbn [mbind res_bind]. apply Hquiet; [done|apply fecs_frame|done].
  - edestruct (fec_new_ok _ (f_slot b) UINT_MAX W1 Es) as (e3 & E & W3 & F3 & _). fold key in E.
    destruct (fec_insert _ (f_slot b) UINT_MAX) as [e2| | |]; try done. cbn [mbind res_bind] in E |- *.
    destruct (deref (fec_map e2 !! key)) as [old| | |]; try done. cbn [mbind res_bind] in E |- *.
    destruct (memcpy old 0 _ _) as [s| | |]; try done. cbn [mbind res_bind] in E |- *. injection E as E. rewrite E.
    apply Hquiet; [done|eapply frame_trans; [apply fecs_frame|exact F3]|]. intros b2 _ [r2 E2]. by rewrite Es in E2.
Qed.

End shred.
