(* ===== verification/EqvocRun.v ===== *)
(** * Equivocation detection: the theorems *)

From S2P Require Import Prelude Bits Bytes Shred Bmtree BmtreeRun ShredRoot Links Eqvoc EqvocInv EqvocChunks EqvocSerde EqvocVerify EqvocVoters EqvocProofs EqvocShreds.

#[local] Open Scope Z_scope.

(** ** The pieces of a proof are determined by its state *)

Lemma bytes_inj a b : bytes a = bytes b -> a = b.
Proof. intros E%(f_equal (mapM id)). rewrite !mapM_bytes in E. by injection E. Qed.

Lemma piece_sz_unique p i c c' : 0 <= i < 3 -> i <> 2 -> piece_ok p i c -> piece_ok p i c' -> piece_sz c = piece_sz c'.
Proof.
  intros Hi Hne [T H] [T' H']. rewrite T in T'. destruct c as [bs|], c' as [bs'|]; try done. simpl.
  destruct (H bs eq_refl) as (_ & L & _), (H' bs' eq_refl) as (_ & L' & _). unfold piece_len in L, L'.
  rewrite (proj2 (Z.eqb_neq i 2)) in L, L' by done. lia.
Qed.

Lemma holds_unique p cs cs' i : prf_holds p cs -> prf_holds p cs' -> 0 <= i < 3 -> cs i = cs' i.
Proof.
  intros [_ _ H Hs] [_ _ H' Hs'] Hi.
  pose proof (piece_sz_unique p 0 _ _ ltac:(lia) ltac:(lia) (H 0 ltac:(lia)) (H' 0 ltac:(lia))) as E0.
  pose proof (piece_sz_unique p 1 _ _ ltac:(lia) ltac:(lia) (H 1 ltac:(lia)) (H' 1 ltac:(lia))) as E1.
  assert (E : piece_sz (cs i) = piece_sz (cs' i)) by (assert (i = 0 \/ i = 1 \/ i = 2) as [->|[->| ->]] by lia; lia).
  destruct (H i Hi) as [T P], (H' i Hi) as [T' P']. rewrite T in T'. destruct (cs i) as [bs|], (cs' i) as [bs'|]; try done.
  destruct (P bs eq_refl) as (_ & _ & R), (P' bs' eq_refl) as (_ & _ & R'). simpl in E. rewrite E in R. rewrite R in R'. by apply bytes_inj in R' as ->.
Qed.

Lemma held_unique e slot from cs cs' i : held e slot from cs -> held e slot from cs' -> 0 <= i < 3 -> cs i = cs' i.
Proof.
  unfold held. destruct (prf_map e !! (slot, from)); [apply holds_unique|]. intros H H' Hi. by rewrite H, H'.
Qed.

(** ** Receiving the chunks of a proof *)

Definition pieces_of (bs : list Z) (S : list Z) : Z -> option (list Z) := fun i => if decide (i ∈ S) then Some (cut bs i) else None.

Definition same_pieces (cs cs' : Z -> option (list Z)) : Prop := forall i, 0 <= i < 3 -> cs i = cs' i.

Lemma set_same cs bs S i cb : same_pieces cs (pieces_of bs S) -> cb = cut bs i -> same_pieces (set_piece cs i cb) (pieces_of bs (i :: S)).
Proof.
  intros H -> j Hj. unfold set_piece, pieces_of. destruct (Z.eqb_spec j i) as [->|Hne]; [by rewrite decide_True by left|].
  rewrite H by done. unfold pieces_of. destruct (decide (j ∈ S)); [by rewrite decide_True by (by right)|].
  rewrite decide_False; [done|]. by intros [|]%elem_of_cons.
Qed.

(** The codes of a sequence of chunks. *)
Definition receive (sha256 : list Z -> list Z) (ed25519_verify : list Z -> list Z -> fd_pubkey_t -> bool) (root shred_version : Z)
    (leader_schedule : option fd_epoch_leaders_t) (from : fd_pubkey_t) :=
  fix receive (chunks : list fd_gossip_duplicate_shred_t) (e : fd_eqvoc_t) (out : list fd_gossip_duplicate_shred_t)
    : res (fd_eqvoc_t * list fd_gossip_duplicate_shred_t * list Z) :=
  match chunks with
  | [] => Ok (e, out, [])
  | c :: chunks' =>
      '(e1, out1, r) ← fd_eqvoc_chunk_insert sha256 ed25519_verify e root shred_version leader_schedule from c out;
      '(e2, out2, rs) ← receive chunks' e1 out1;
      Ok (e2, out2, r :: rs)
  end.

Section receiving.
Context (sha256 : list Z -> list Z) (ed25519_verify : list Z -> list Z -> fd_pubkey_t -> bool).
Context (shred_version : Z) (leader_schedule : option fd_epoch_leaders_t).
Hypothesis sha256_length : forall m, length (sha256 m) = 32%nat.
Hypothesis schedule_ok : forall leaders, leader_schedule = Some leaders -> leaders_ok leaders.
Context (root : Z) (from : fd_pubkey_t) (slot : Z) (bs : list Z).
Hypothesis slot_new : root < slot.
Hypothesis bs_bytes : Forall is_byte bs.
Hypothesis bs_lens : forall i, 0 <= i < 3 -> piece_len i (Z.of_nat (length (cut bs i))).

Abbreviation completed := (completed sha256 ed25519_verify shred_version leader_schedule).
Abbreviation chunk_insert e c out := (fd_eqvoc_chunk_insert sha256 ed25519_verify e root shred_version leader_schedule from c out).

Lemma chunk_of_carries i c : 0 <= i < 3 -> chunk_of slot bs i c -> carries c (cut bs i).
Proof using bs_bytes.
  intros Hi [[_ H1] H2 H3 H4 H5]. rewrite H4 in H5. constructor; [lia| |done|done]. unfold cut. by apply Forall_take, Forall_drop.
Qed.

Lemma chunk_of_accepted e i c : 0 <= i < 3 -> chunk_of slot bs i c -> is_Some (vtr_map e !! from) -> refused e root from c = None.
Proof using slot_new bs_lens.
  intros Hi [[_ H1] H2 H3 H4 _] [v Hv]. unfold refused. rewrite H2, (proj2 (Z.leb_gt slot root)) by lia. rewrite Hv.
  pose proof (bs_lens i Hi) as Hl. rewrite <- H4 in Hl. unfold chunk_header_err. rewrite H3, H1, Z.eqb_refl. simpl negb. cbv iota.
  rewrite (proj2 (Z.leb_gt FD_EQVOC_CHUNK_CNT i)) by (unfold FD_EQVOC_CHUNK_CNT; lia). unfold piece_len, chunk2_len in Hl.
  assert (i = 0 \/ i = 1 \/ i = 2) as [->|[->| ->]] by lia; simpl in Hl; simpl Z.eqb; simpl andb; cbv iota.
  - by rewrite Hl.
  - by rewrite Hl.
  - destruct Hl as [->|[->|[->| ->]]]; done.
Qed.

(** The next chunk of the proof, after those of [S]. *)
Lemma receive_next e S i c cs out :
  eqvoc_wf e -> is_Some (vtr_map e !! from) -> slot ∉ dup_map e -> out_ok out -> 0 <= i < 3 -> chunk_of slot bs i c -> i ∉ S ->
  held e slot from cs -> same_pieces cs (pieces_of bs S) ->
  exists e' out' r, chunk_insert e c out = Ok (e', out', r) /\ eqvoc_wf e' /\ out_ok out' /\ is_Some (vtr_map e' !! from) /\
    ((r = FD_EQVOC_IGNORED /\ dup_map e' = dup_map e /\ out' = out /\
      exists cs', held e' slot from cs' /\ same_pieces cs' (pieces_of bs (i :: S)) /\ ~ complete cs') \/
     (complete (pieces_of bs (i :: S)) /\ completed e slot from (cut bs 0 ++ cut bs 1 ++ cut bs 2) out e' out' r)).
Proof using All.
  intros W Hv Hno Hout Hi Hc HiS Hh Hsame. pose proof (chunk_of_carries i c Hi Hc) as Hca. pose proof (chunk_of_accepted e i c Hi Hc Hv) as Hacc.
  destruct Hc as [[_ Hx] Hs _ _ _].
  destruct (chunk_insert_ok sha256 ed25519_verify shred_version leader_schedule sha256_length schedule_ok e root from c (cut bs i) out W Hca Hout)
    as (e' & out' & r & E & W' & Hout' & Ho & Dv & _). exists e', out', r. split; [done|]. split; [done|]. split; [done|].
  split; [apply elem_of_dom; rewrite Dv; by apply elem_of_dom|].
  assert (Hnone : forall cs', held e slot from cs' -> same_pieces cs' (pieces_of bs S)).
  { intros cs' Hh' j Hj. rewrite <- Hsame by done. by eapply held_unique. }
  rewrite <- Hs in Hno. destruct Ho as [r Hr _|? ? ? ?|cs' _ _ Hh' Hso _ _|cs' _ _ Hh' _ Hnc Hst Hd|cs' c0 c1 c2 out' r _ _ Hh' _ E0 E1 E2 Hcmp].
  - congruence.
  - done.
  - rewrite Hs in Hh'. specialize (Hnone cs' Hh'). rewrite Hx, Hnone in Hso by done. unfold pieces_of in Hso. rewrite decide_False in Hso by done. by destruct Hso.
  - left. split; [done|]. split; [done|]. split; [done|]. rewrite Hs, Hx in *. exists (set_piece cs' i (cut bs i)). split; [done|]. split; [by apply set_same, eq_refl; apply Hnone|done].
  - right. rewrite Hs, Hx in *. pose proof (set_same cs' bs S i _ (Hnone cs' Hh') eq_refl) as Hset.
    rewrite (Hset 0 ltac:(lia)) in E0. rewrite (Hset 1 ltac:(lia)) in E1. rewrite (Hset 2 ltac:(lia)) in E2.
    assert (Hcut : forall j c, pieces_of bs (i :: S) j = Some c -> c = cut bs j) by (intros j c' Hj; unfold pieces_of in Hj; destruct (decide _); congruence).
    rewrite <- (Hcut _ _ E0), <- (Hcut _ _ E1), <- (Hcut _ _ E2). split; [|done].
    intros j Hj. assert (j = 0 \/ j = 1 \/ j = 2) as [->|[->| ->]] by lia; eauto.
Qed.

Lemma pieces_complete S : complete (pieces_of bs S) <-> 0 ∈ S /\ 1 ∈ S /\ 2 ∈ S.
Proof.
  unfold complete, pieces_of. split.
  - intros H. assert (Hin : forall j, 0 <= j < 3 -> j ∈ S) by (intros j Hj; specialize (H j Hj); destruct (decide (j ∈ S)); [done|by destruct H]).
    split_and!; apply Hin; lia.
  - intros (H0 & H1 & H2) j Hj. rewrite decide_True; [eauto|]. assert (j = 0 \/ j = 1 \/ j = 2) as [->|[->| ->]] by lia; done.
Qed.

Lemma same_complete cs cs' : same_pieces cs cs' -> complete cs -> complete cs'.
Proof. intros H Hc i Hi. rewrite <- H by done. by apply Hc. Qed.

(** Three chunks in any order. *)
Lemma receive_three e i1 i2 i3 c1 c2 c3 out :
  eqvoc_wf e -> is_Some (vtr_map e !! from) -> slot ∉ dup_map e -> prf_map e !! (slot, from) = None -> out_ok out ->
  [i1; i2; i3] ≡ₚ [0; 1; 2] -> chunk_of slot bs i1 c1 -> chunk_of slot bs i2 c2 -> chunk_of slot bs i3 c3 ->
  exists e2 e' out' r, receive sha256 ed25519_verify root shred_version leader_schedule from [c1; c2; c3] e out
      = Ok (e', out', [FD_EQVOC_IGNORED; FD_EQVOC_IGNORED; r]) /\
    eqvoc_wf e' /\ out_ok out' /\ slot ∉ dup_map e2 /\ completed e2 slot from (cut bs 0 ++ cut bs 1 ++ cut bs 2) out e' out' r.
Proof using All.
  intros W Hv Hno Hnp Hout Hp K1 K2 K3. assert (Hin : forall i, i ∈ [i1; i2; i3] -> 0 <= i < 3).
  { intros i Hi. rewrite Hp in Hi. repeat (apply elem_of_cons in Hi as [->|Hi]; [lia|]). inversion Hi. }
  assert (Hnd : NoDup [i1; i2; i3]) by (rewrite Hp; apply (NoDup_seqZ 0 3)). rewrite !NoDup_cons in Hnd. destruct Hnd as (N1 & N2 & _).
  assert (Hnot : forall S x, [i1; i2; i3] ≡ₚ x :: S -> ~ complete (pieces_of bs S)).
  { intros S x HS (H0 & H1 & H2)%pieces_complete. rewrite Hp in HS. assert (Hnd : NoDup (x :: S)) by (rewrite <- HS; apply (NoDup_seqZ 0 3)).
    apply NoDup_cons in Hnd as [Hx _]. assert (Hx' : x ∈ [0; 1; 2]) by (rewrite HS; left). set_solver. }
  cbn [receive].
  edestruct (receive_next e [] i1 c1 (fun _ => None) out W Hv Hno Hout) as (e1 & o1 & r1 & -> & W1 & O1 & V1 & H1);
    [apply Hin; set_solver|done|set_solver|by unfold held; rewrite Hnp|intros j Hj; unfold pieces_of; rewrite decide_False; [done|set_solver]|].
  destruct H1 as [(-> & D1 & -> & cs1 & Hh1 & S1 & _)|[Hc _]].
  2: { exfalso. apply pieces_complete in Hc. assert (0 = i1 /\ 1 = i1) by set_solver. lia. }
  cbn [mbind res_bind]. rewrite <- D1 in Hno.
  edestruct (receive_next e1 [i1] i2 c2 cs1 out W1 V1 Hno Hout) as (e2 & o2 & r2 & -> & W2 & O2 & V2 & H2); [apply Hin; set_solver|done|set_solver|done|done|].
  destruct H2 as [(-> & D2 & -> & cs2 & Hh2 & S2 & _)|[Hc _]].
  2: { exfalso. apply (Hnot [i2; i1] i3); [|done]. rewrite (Permutation_app_comm [i1; i2] [i3] : [i1; i2; i3] ≡ₚ [i3; i1; i2]). apply perm_skip, perm_swap. }
  cbn [mbind res_bind]. rewrite <- D2 in Hno.
  edestruct (receive_next e2 [i2; i1] i3 c3 cs2 out W2 V2 Hno Hout) as (e3 & o3 & r3 & -> & W3 & O3 & V3 & H3); [apply Hin; set_solver|done|set_solver|done|done|].
  destruct H3 as [(_ & _ & _ & cs3 & _ & S3 & Hnc)|[_ Hc]].
  { exfalso. apply Hnc. eapply same_complete; [intros j Hj; symmetry; by apply S3|]. apply pieces_complete.
    assert (Hall : forall j, j ∈ [0; 1; 2] -> j ∈ [i3; i2; i1]) by (intros j Hj; rewrite <- Hp in Hj; set_solver).
    split_and!; apply Hall; set_solver. }
  cbn [mbind res_bind]. exists e2, e3, o3, r3. done.
Qed.

End receiving.

(** ** Proofs of two shreds that are not of the legacy types *)

Lemma parsed_sizes b : parsed b -> f_type b <> FD_SHRED_TYPE_LEGACY_DATA ->
  Z.of_nat (length b) = FD_SHRED_MAX_SZ \/ Z.of_nat (length b) = FD_SHRED_MIN_SZ.
Proof.
  intros (_ & Hs & _) Ht. rewrite <- Hs. unfold shred_size. destruct (has_mask _ _); [by left|].
  rewrite (proj2 (Z.eqb_neq _ _) Ht). by right.
Qed.

Lemma parsed_full b : parsed b -> f_type b <> FD_SHRED_TYPE_LEGACY_DATA -> full_sized b.
Proof.
  intros P Ht. pose proof (parsed_sizes b P Ht) as H. destruct P as (Hb & Hs & _). split_and!; try done;
    unfold FD_SHRED_MIN_SZ, FD_SHRED_MAX_SZ in *; lia.
Qed.

Lemma cut_length bs i : 0 <= i -> Z.of_nat (length (cut bs i)) = Z.min FD_EQVOC_CHUNK_SZ (Z.max 0 (Z.of_nat (length bs) - FD_EQVOC_CHUNK_SZ * i)).
Proof. intros Hi. unfold cut. rewrite length_take, length_drop. unfold FD_EQVOC_CHUNK_SZ. lia. Qed.

Lemma cut_all bs : Z.of_nat (length bs) <= 3 * FD_EQVOC_CHUNK_SZ -> cut bs 0 ++ cut bs 1 ++ cut bs 2 = bs.
Proof.
  unfold FD_EQVOC_CHUNK_SZ. intros Hl. unfold cut, FD_EQVOC_CHUNK_SZ. change (Z.to_nat ((1232 - 115 - 63) * 0)) with 0%nat.
  change (Z.to_nat ((1232 - 115 - 63) * 1)) with 1054%nat. change (Z.to_nat ((1232 - 115 - 63) * 2)) with (1054 + 1054)%nat.
  change (Z.to_nat (1232 - 115 - 63)) with 1054%nat. rewrite (take_ge (drop (1054 + 1054) bs)) by (rewrite length_drop; lia).
  rewrite <- drop_drop, take_drop, drop_0. apply take_drop.
Qed.

Lemma serial_length b1 b2 : Z.of_nat (length (serial b1 b2)) = 16 + Z.of_nat (length b1) + Z.of_nat (length b2).
Proof. unfold serial. rewrite length_app. pose proof (sized_length b1). pose proof (sized_length b2). lia. Qed.

Lemma serial_lens b1 b2 i : parsed b1 -> parsed b2 -> f_type b1 <> FD_SHRED_TYPE_LEGACY_DATA -> f_type b2 <> FD_SHRED_TYPE_LEGACY_DATA ->
  0 <= i < 3 -> piece_len i (Z.of_nat (length (cut (serial b1 b2) i))).
Proof.
  intros P1 P2 T1 T2 Hi. rewrite cut_length, serial_length by lia. pose proof (parsed_sizes b1 P1 T1) as H1. pose proof (parsed_sizes b2 P2 T2) as H2.
  unfold piece_len, chunk2_len, FD_EQVOC_CHUNK2_LEN_CC, FD_EQVOC_CHUNK2_LEN_DD, FD_EQVOC_CHUNK2_LEN_CD, FD_EQVOC_CHUNK2_LEN_DC, FD_EQVOC_CHUNK_SZ, FD_SHRED_MAX_SZ, FD_SHRED_MIN_SZ in *.
  assert (i = 0 \/ i = 1 \/ i = 2) as [->|[->| ->]] by lia; simpl Z.eqb; cbv iota; lia.
Qed.

Lemma serial_bytes b1 b2 : Forall is_byte b1 -> Forall is_byte b2 -> Forall is_byte (serial b1 b2).
Proof. intros H1 H2. unfold serial, sized. rewrite !Forall_app. split_and!; try done; apply le_bytes_byte. Qed.

(** ** Construction *)

Lemma eqvoc_new_wf bm dup_max0 fec_max0 per_vtr_max0 vtr_max0 :
  memory_ok 7 bm.1 bm.2 -> 1 <= dup_max0 <= 2 ^ 63 -> 1 <= fec_max0 <= 2 ^ 63 -> 1 <= per_vtr_max0 <= 2 ^ 63 -> 1 <= vtr_max0 <= 2 ^ 63 ->
  fd_ulong_pow2_up per_vtr_max0 * fd_ulong_pow2_up vtr_max0 <= ULONG_MAX ->
  eqvoc_wf (fd_eqvoc_new bm dup_max0 fec_max0 per_vtr_max0 vtr_max0).
Proof.
  intros M Hd Hf Hp Hv Hm. pose proof (pow2_up_ge _ Hd). pose proof (pow2_up_ge _ Hf). pose proof (pow2_up_ge _ Hp). pose proof (pow2_up_ge _ Hv).
  assert (Hlru : forall cap, 1 <= cap -> lru_wf cap cap ∅ []).
  { intros cap Hc. constructor; [apply NoDup_nil_2| |rewrite size_empty; lia|lia]. set_solver. }
  constructor; simpl; try done.
  - apply Hlru. lia.
  - rewrite dom_empty_L. apply Hlru. lia.
  - constructor; simpl; rewrite ?map_size_empty; try done.
    + apply NoDup_nil_2.
    + intros a. rewrite lookup_empty. split; [intros Hx; inversion Hx|by intros []].
    + lia.
    + intros s a. rewrite lookup_empty. by intros [].
    + rewrite u64_small by (unfold is_u64; nia). lia.
    + unfold ULONG_MAX in *. nia.
Qed.

(** ** Sequences of operations *)

Inductive event :=
| EvShred (hint : bool) (shred : mem)
| EvChunk (root : Z) (from : fd_pubkey_t) (c : fd_gossip_duplicate_shred_t)
| EvVoters (ids : list fd_pubkey_t)
| EvQuery (slot : Z).

Section events.
Context (sha256 : list Z -> list Z) (ed25519_verify : list Z -> list Z -> fd_pubkey_t -> bool).
Context (shred_version : Z) (leader_schedule : option fd_epoch_leaders_t).

Definition step (e : fd_eqvoc_t) (out : list fd_gossip_duplicate_shred_t) (ev : event) : res (fd_eqvoc_t * list fd_gossip_duplicate_shred_t * Z) :=
  match ev with
  | EvShred hint shred => fd_eqvoc_shred_insert e hint shred out
  | EvChunk root from c => fd_eqvoc_chunk_insert sha256 ed25519_verify e root shred_version leader_schedule from c out
  | EvVoters ids => e1 ← fd_eqvoc_update_voters e ids; Ok (e1, out, 0)
  | EvQuery slot => '(e1, b) ← fd_eqvoc_proof_verified e slot; Ok (e1, out, Z.b2z b)
  end.

Fixpoint run (evs : list event) (e : fd_eqvoc_t) (out : list fd_gossip_duplicate_shred_t)
    : res (fd_eqvoc_t * list fd_gossip_duplicate_shred_t * list Z) :=
  match evs with
  | [] => Ok (e, out, [])
  | ev :: evs' =>
      '(e1, out1, r) ← step e out ev;
      '(e2, out2, rs) ← run evs' e1 out1;
      Ok (e2, out2, r :: rs)
  end.

(** What callers guarantee: shreds have been parsed and are not of the legacy
    types, the bytes of a chunk are there, and the voters fit.  Nothing is
    asked of the contents of chunks. *)
Definition admissible (cap : Z) (ev : event) : Prop :=
  match ev with
  | EvShred _ shred => exists b rest, shred = bytes b ++ rest /\ parsed b /\ f_type b <> FD_SHRED_TYPE_LEGACY_DATA
  | EvChunk _ _ c => exists cb, carries c cb
  | EvVoters ids => Z.of_nat (length ids) <= cap
  | EvQuery _ => True
  end.

Hypothesis sha256_length : forall m, length (sha256 m) = 32%nat.
Hypothesis schedule_ok : forall leaders, leader_schedule = Some leaders -> leaders_ok leaders.

Lemma step_ok e out ev : eqvoc_wf e -> out_ok out -> admissible (vtr_max e) ev ->
  exists e' out' r, step e out ev = Ok (e', out', r) /\ eqvoc_wf e' /\ out_ok out' /\ vtr_max e' = vtr_max e.
Proof using sha256_length schedule_ok.
  intros W Ho Ha. destruct ev as [hint shred|root from c|ids|slot]; simpl in Ha |- *.
  - destruct Ha as (b & rest & -> & P & T).
    destruct (shred_insert_ok b rest (parsed_full b P T) e hint out W Ho) as (e' & out' & r & E & W' & O' & _ & _ & _ & Hm). by exists e', out', r.
  - destruct Ha as [cb Hc]. destruct (chunk_insert_ok sha256 ed25519_verify shred_version leader_schedule sha256_length schedule_ok e root from c cb out W Hc Ho)
      as (e' & out' & r & E & W' & O' & _ & _ & Hm). by exists e', out', r.
  - destruct (update_voters_ok e ids W Ha) as (e' & -> & W' & _ & _ & _ & Hm & _). by exists e', out, 0.
  - destruct (dup_query_ok e slot W) as (l & E & W'). unfold fd_eqvoc_proof_verified. rewrite E. do 3 eexists. done.
Qed.

Lemma run_ok evs : forall e out, eqvoc_wf e -> out_ok out -> Forall (admissible (vtr_max e)) evs ->
  exists e' out' rs, run evs e out = Ok (e', out', rs) /\ eqvoc_wf e' /\ length rs = length evs.
Proof using sha256_length schedule_ok.
  induction evs as [|ev evs IH]; intros e out W Ho Ha; cbn [run]; [by exists e, out, []|].
  apply Forall_cons in Ha as [Ha Has]. destruct (step_ok e out ev W Ho Ha) as (e1 & out1 & r & -> & W1 & O1 & Em). cbn [mbind res_bind].
  rewrite <- Em in Has. destruct (IH e1 out1 W1 O1 Has) as (e2 & out2 & rs & -> & W2 & Hl). cbn [mbind res_bind].
  exists e2, out2, (r :: rs). split; [done|]. split; [done|]. simpl. by rewrite Hl.
Qed.

End events.

(** ** Properties *)


(** C31. A chunk gets the answer the protocol documents: chunks of rooted slots, of
    unknown voters and with a bad header are refused and change nothing;
    chunks of slots known to be duplicates and chunks received before are
    ignored; another chunk is stored, and the last missing one is answered
    with the verdict on the two shreds the three chunks serialise, or with a
    serialisation error when they are not two shreds of the slot.  The proof is
    then released, and the slot is recorded and the proof reported exactly on
    success. *)
Theorem eqvoc_chunk_correct (sha256 : list Z -> list Z) (ed25519_verify : list Z -> list Z -> fd_pubkey_t -> bool) (shred_version : Z)
    (leader_schedule : option fd_epoch_leaders_t) (e : fd_eqvoc_t) (root : Z) (from : fd_pubkey_t) (c : fd_gossip_duplicate_shred_t)
    (cb : list Z) (out : list fd_gossip_duplicate_shred_t) :
  (forall m, length (sha256 m) = 32%nat) -> (forall leaders, leader_schedule = Some leaders -> leaders_ok leaders) ->
  eqvoc_wf e -> carries c cb -> out_ok out ->
  exists e' out' r, fd_eqvoc_chunk_insert sha256 ed25519_verify e root shred_version leader_schedule from c out = Ok (e', out', r) /\
    eqvoc_wf e' /\ chunk_outcome sha256 ed25519_verify shred_version leader_schedule e root from c cb out e' out' r.
Proof.
  intros Hs Hl W Hc Ho. destruct (chunk_insert_ok sha256 ed25519_verify shred_version leader_schedule Hs Hl e root from c cb out W Hc Ho)
    as (e' & out' & r & E & W' & _ & Hout & _). by exists e', out', r.
Qed.

(** C32. A proof sent by one validator is judged by another as what it is: for two
    shreds of a slot, the three chunks of [construct_proof] reach a validator
    that knows the sender in any order, the first two are ignored, and the
    third is answered with the verdict on these two shreds, which is success
    exactly when they prove an equivocation; the slot is then recorded. *)
Theorem eqvoc_proof_roundtrip (sha256 : list Z -> list Z) (ed25519_verify : list Z -> list Z -> fd_pubkey_t -> bool) (shred_version : Z)
    (leader_schedule : option fd_epoch_leaders_t) (e : fd_eqvoc_t) (root : Z) (from : fd_pubkey_t)
    (b1 b2 : list Z) (r1 r2 : mem) (out0 out : list fd_gossip_duplicate_shred_t) :
  (forall m, length (sha256 m) = 32%nat) -> (forall leaders, leader_schedule = Some leaders -> leaders_ok leaders) ->
  parsed b1 -> parsed b2 -> f_type b1 <> FD_SHRED_TYPE_LEGACY_DATA -> f_type b2 <> FD_SHRED_TYPE_LEGACY_DATA -> f_slot b1 = f_slot b2 ->
  out_ok out0 -> out_ok out ->
  eqvoc_wf e -> is_Some (vtr_map e !! from) -> root < f_slot b1 -> f_slot b1 ∉ dup_map e -> prf_map e !! (f_slot b1, from) = None ->
  exists chunks, construct_proof (bytes b1 ++ r1) (bytes b2 ++ r2) out0 = Ok chunks /\
    forall order, order ≡ₚ chunks ->
    exists e' out' v, receive sha256 ed25519_verify root shred_version leader_schedule from order e out
        = Ok (e', out', [FD_EQVOC_IGNORED; FD_EQVOC_IGNORED; v]) /\ eqvoc_wf e' /\ v = verdict sha256 ed25519_verify shred_version leader_schedule b1 b2 /\
      (v = FD_EQVOC_SUCCESS <-> equivocation sha256 ed25519_verify shred_version leader_schedule b1 b2) /\
      (v = FD_EQVOC_SUCCESS -> f_slot b1 ∈ dup_map e' /\ reported (f_slot b1) (serial b1 b2) out').
Proof.
  intros Hs Hl P1 P2 T1 T2 Es Ho0 Ho W Hv Hr Hno Hnp. pose proof (parsed_full b1 P1 T1) as F1. pose proof (parsed_full b2 P2 T2) as F2.
  destruct (construct_proof_ok b1 b2 r1 r2 out0 F1 F2 Ho0) as (c0 & c1 & c2 & E & _ & K0 & K1 & K2). exists [c0; c1; c2]. split; [done|].
  intros order Hp. set (bs := serial b1 b2) in *. assert (Hbs : Forall is_byte bs) by (apply serial_bytes; [apply P1|apply P2]).
  assert (Hlen : Z.of_nat (length bs) <= PRF_BUF_SZ).
  { unfold bs. rewrite serial_length. destruct F1 as (_ & _ & ?), F2 as (_ & _ & ?). unfold PRF_BUF_SZ, FD_SHRED_MAX_SZ in *. lia. }
  assert (Hidx : chunk_index <$> order ≡ₚ [0; 1; 2]).
  { rewrite Hp. simpl. by rewrite (proj2 (co_index _ _ _ _ K0)), (proj2 (co_index _ _ _ _ K1)), (proj2 (co_index _ _ _ _ K2)). }
  assert (Hall : Forall (fun c => chunk_of (f_slot b1) bs (chunk_index c) c) order).
  { rewrite Hp. rewrite !Forall_cons, (proj2 (co_index _ _ _ _ K0)), (proj2 (co_index _ _ _ _ K1)), (proj2 (co_index _ _ _ _ K2)). done. }
  pose proof (Permutation_length Hp) as Hl3. destruct order as [|x [|y [|z [|]]]]; try done. rewrite !Forall_cons in Hall. destruct Hall as (Kx & Ky & Kz & _).
  destruct (receive_three sha256 ed25519_verify shred_version leader_schedule Hs Hl root from (f_slot b1) bs Hr Hbs
    (fun i Hi => serial_lens b1 b2 i P1 P2 T1 T2 Hi) e _ _ _ x y z out W Hv Hno Hnp Ho Hidx Kx Ky Kz) as (e2 & e' & out' & v & Erec & W' & _ & Hno2 & [J1 J2 J3 J4]).
  exists e', out', v. rewrite cut_all in J1, J4 by (unfold PRF_BUF_SZ, FD_SHRED_MAX_SZ, FD_EQVOC_CHUNK_SZ in *; lia).
  assert (Ev : v = verdict sha256 ed25519_verify shred_version leader_schedule b1 b2).
  { destruct J1 as [(b1' & b2' & [Q1 _ _] & ->)|[Hnone _]]; [|exfalso; apply (Hnone b1 b2); done].
    apply serial_inj in Q1 as [-> ->]; [done|]. unfold bs in Hlen. unfold PRF_BUF_SZ, FD_SHRED_MAX_SZ in *. lia. }
  split; [done|]. split; [done|]. split; [done|]. split; [rewrite Ev; apply verdict_success|].
  intros Hok. rewrite Hok in J3, J4. rewrite Z.eqb_refl in J3, J4. rewrite J3. split; [unfold dup_record; set_solver|done].
Qed.

