(* ===== verification/EqvocExample.v ===== *)
(** * Equivocation detection: a concrete case

    Two signed data shreds of slot 5, the first marked as the last of its slot
    and the second with a higher index, with a toy hash in the place of
    SHA-256; the theorems of EqvocRun at this case, and a proof that
    is reported although no validator accepts it. *)

From S2P Require Import Prelude Bits Bytes Shred Bmtree BmtreeRun ShredRoot Links Eqvoc EqvocInv EqvocChunks EqvocSerde EqvocVerify EqvocVoters EqvocProofs EqvocShreds EqvocRun.

#[local] Open Scope Z_scope.

Definition ex_data (idx flags : Z) : list Z :=
  replicate 64 0 ++ [0x96] ++ le_bytes 8 5 ++ le_bytes 4 idx ++ le_bytes 2 9 ++ le_bytes 4 0 ++ le_bytes 2 1 ++ [flags] ++
  le_bytes 2 0x58 ++ replicate 1115 0.
Definition ex_last : list Z := ex_data 1 0xC0.
Definition ex_higher : list Z := ex_data 3 0.

(** A coding shred of another FEC set of the slot. *)
Definition ex_code : list Z :=
  replicate 64 0 ++ [0x66] ++ le_bytes 8 5 ++ le_bytes 4 40 ++ le_bytes 2 9 ++ le_bytes 4 32 ++ le_bytes 2 32 ++ le_bytes 2 32 ++
  le_bytes 2 8 ++ replicate 1139 0.

Definition ex_mem : bmtree_mem := (replicate 63 (uninit 32), replicate 127 (uninit 32)).
Definition ex_new : fd_eqvoc_t := fd_eqvoc_new ex_mem 4 4 2 2.
Definition ex_eqvoc : fd_eqvoc_t := with_vtrs ex_new 1 {[7 := mk_vtr 0 0 []]} [7].
Definition ex_out : list fd_gossip_duplicate_shred_t := replicate 3 (mk_chunk 0 0 0 0 0 (uninit 1055)).
Definition ex_sig (msg sig : list Z) (pk : fd_pubkey_t) : bool := bool_decide (length msg = 32%nat).
Definition ex_leaders : fd_epoch_leaders_t := mk_leaders 0 8 [3; 4] [0; 1].
Definition ex_chunk : fd_gossip_duplicate_shred_t := mk_chunk 1 5 3 1 1054 (bytes (replicate 1055 0)).

Lemma ex_mem_ok : memory_ok 7 ex_mem.1 ex_mem.2.
Proof. split_and!; [done|done|]. apply Forall_replicate. done. Qed.

Lemma ex_new_wf : eqvoc_wf ex_new.
Proof. apply eqvoc_new_wf; [apply ex_mem_ok|lia|lia|lia|lia|]. vm_compute. congruence. Qed.

Lemma ex_eqvoc_wf : eqvoc_wf ex_eqvoc.
Proof.
  destruct (update_voters_ok ex_new [7] ex_new_wf) as (e' & E & W & _); [vm_compute; congruence|].
  assert (E' : fd_eqvoc_update_voters ex_new [7] = Ok ex_eqvoc) by (vm_compute; reflexivity). rewrite E' in E. injection E as E. by rewrite E.
Qed.

Lemma ex_out_ok : out_ok ex_out.
Proof. split; [done|]. by apply Forall_replicate. Qed.

Lemma ex_leaders_ok leaders : Some ex_leaders = Some leaders -> leaders_ok leaders.
Proof.
  intros [= <-]. split; [simpl; lia|]. simpl. intros d Hd. assert (d / 4 = 0 \/ d / 4 = 1) as [E|E] by (Z.to_euclidean_division_equations; lia).
  - exists 0. unfold FD_EPOCH_SLOTS_PER_ROTATION. rewrite E. simpl. split; [done|lia].
  - exists 1. unfold FD_EPOCH_SLOTS_PER_ROTATION. rewrite E. simpl. split; [done|lia].
Qed.

Ltac parses := split; [apply (bool_decide_unpack _); vm_compute; exact I|split; vm_compute; reflexivity].

Lemma ex_last_parsed : parsed ex_last.
Proof. parses. Qed.
Lemma ex_higher_parsed : parsed ex_higher.
Proof. parses. Qed.
Lemma ex_code_parsed : parsed ex_code.
Proof. parses. Qed.

Lemma ex_chunk_carries : carries ex_chunk (replicate 1054 0).
Proof. constructor; [simpl; lia| |done|done]. apply Forall_replicate. cbv. split; congruence. Qed.

(** ** Witnesses *)

Definition ex_events : list event :=
  [EvVoters [7]; EvShred false (bytes ex_last ++ []); EvChunk 0 7 ex_chunk; EvShred true (bytes ex_higher ++ []); EvQuery 5].

Lemma ex_events_admissible : Forall (admissible 2) ex_events.
Proof.
  unfold ex_events. rewrite !Forall_cons. split_and!; simpl; try done.
  - exists ex_last, []. split; [done|]. split; [apply ex_last_parsed|]. by vm_compute.
  - exists (replicate 1054 0). apply ex_chunk_carries.
  - exists ex_higher, []. split; [done|]. split; [apply ex_higher_parsed|]. by vm_compute.
Qed.


Lemma eqvoc_chunk_correct_witness :
  exists e' out' r, fd_eqvoc_chunk_insert toy_hash ex_sig ex_eqvoc 0 9 (Some ex_leaders) 7 ex_chunk ex_out = Ok (e', out', r) /\
    eqvoc_wf e' /\ chunk_outcome toy_hash ex_sig 9 (Some ex_leaders) ex_eqvoc 0 7 ex_chunk (replicate 1054 0) ex_out e' out' r.
Proof.
  apply (eqvoc_chunk_correct toy_hash ex_sig 9 (Some ex_leaders) ex_eqvoc 0 7 ex_chunk (replicate 1054 0) ex_out);
    [apply toy_hash_length|apply ex_leaders_ok|apply ex_eqvoc_wf|apply ex_chunk_carries|apply ex_out_ok].
Defined.

Lemma eqvoc_proof_roundtrip_witness :
  verdict toy_hash ex_sig 9 (Some ex_leaders) ex_last ex_higher = FD_EQVOC_SUCCESS /\
  exists chunks, construct_proof (bytes ex_last ++ []) (bytes ex_higher ++ []) ex_out = Ok chunks /\
    forall order, order ≡ₚ chunks ->
    exists e' out' v, receive toy_hash ex_sig 0 9 (Some ex_leaders) 7 order ex_eqvoc ex_out
        = Ok (e', out', [FD_EQVOC_IGNORED; FD_EQVOC_IGNORED; v]) /\ eqvoc_wf e' /\
      v = verdict toy_hash ex_sig 9 (Some ex_leaders) ex_last ex_higher /\
      (v = FD_EQVOC_SUCCESS <-> equivocation toy_hash ex_sig 9 (Some ex_leaders) ex_last ex_higher) /\
      (v = FD_EQVOC_SUCCESS -> f_slot ex_last ∈ dup_map e' /\ reported (f_slot ex_last) (serial ex_last ex_higher) out').
Proof.
  split; [vm_compute; reflexivity|].
  apply (eqvoc_proof_roundtrip toy_hash ex_sig 9 (Some ex_leaders) ex_eqvoc 0 7 ex_last ex_higher [] [] ex_out ex_out);
    [apply toy_hash_length|apply ex_leaders_ok|apply ex_last_parsed|apply ex_higher_parsed|by vm_compute|by vm_compute|by vm_compute
    |apply ex_out_ok|apply ex_out_ok|apply ex_eqvoc_wf|by eexists|by vm_compute|apply not_elem_of_empty|apply lookup_empty].
Defined.


(** ** A report that does not convince *)

(** [fd_eqvoc_shred_insert] also compares the last data shred of a slot with
    coding shreds; the proof it then constructs is no equivocation for
    [verify_proof], whatever the hash, the signatures, the version and the
    leaders. *)
Theorem eqvoc_report_unverifiable :
  snd <$> run toy_hash ex_sig 9 None [EvShred false (bytes ex_last); EvShred false (bytes ex_code)] ex_eqvoc ex_out = Ok [0; 1] /\
  forall sha256 ed25519_verify shred_version leader_schedule,
    verdict sha256 ed25519_verify shred_version leader_schedule ex_code ex_last <> FD_EQVOC_SUCCESS.
Proof.
  split; [vm_compute; reflexivity|].
  intros sha ed ver leaders [_ _ _ (r1 & r2 & _ & _ & _ & _ & [H|[H _]])]%verdict_success; vm_compute in H; congruence.
Qed.
