(* ===== verification/TowerVotes.v ===== *)
(** * The vote tower of a validator ([src/choreo/tower/fd_tower.c])

    The deque of votes and the three routines that work on it alone:
    [expiration_slot], [simulate_vote] and [push_vote].  They are written
    against the [Deque] interface, so the same text runs on the ring buffer of
    [fd_deque.c] and on lists.

    The abstract tower is a stack of votes, top of the tower first.  [expire],
    [root_pop] and [confirm] are the three rules of TowerBFT on stacks,
    [push_spec] their composition, and [push_vote_refines] shows that
    [push_vote] computes it on every implementation of the interface. *)

From S2P Require Import Prelude Deque.

#[local] Open Scope Z_scope.

Record fd_tower_vote_t := mk_vote { slot : Z; conf : Z }.

#[export] Instance fd_tower_vote_eq_dec : EqDecision fd_tower_vote_t.
Proof. solve_decision. Defined.

Definition FD_TOWER_VOTE_MAX : Z := 31.

(** [1UL << conf] is undefined for a shift count of 64 or more. *)
Definition expiration_slot (vote : fd_tower_vote_t) : res Z :=
  if (0 <=? conf vote) && (conf vote <? 64) then
    let lockout := u64 (Z.shiftl 1 (conf vote)) in
    Ok (u64 (slot vote + lockout))
  else Ub.

Section votes.
Context {D : Type} `{!Deque D fd_tower_vote_t}.

(** The loop of [simulate_vote]; [cnt] is the number of votes left. *)
Fixpoint simulate_vote_from (votes : D) (slot : Z) (cnt : nat) : res Z :=
  match cnt with
  | O => Ok 0
  | S cnt' =>
      top_vote ← dq_peek_index votes (Z.of_nat cnt');
      e ← expiration_slot top_vote;
      if slot <=? e then Ok (Z.of_nat cnt) else simulate_vote_from votes slot cnt'
  end.

Definition simulate_vote (votes : D) (slot : Z) : res Z :=
  simulate_vote_from votes slot (Z.to_nat (dq_cnt votes)).

(** Pop everything that got expired. *)
Definition pop_expired_step (cnt : Z) (votes : D) : res (D + D) :=
  if cnt <? dq_cnt votes then
    '(_, votes') ← dq_pop_tail votes; Ok (inl votes')
  else Ok (inr votes).

(** The reverse traversal that increments the confirmations.  The loop
    state is the deque, the iterator and [prev_conf]. *)
Definition confirm_step (s : D * Z * Z) : res (D * Z * Z + D) :=
  let '(votes, iter, prev_conf) := s in
  if dq_iter_done_rev votes iter then Ok (inr votes)
  else
    vote ← dq_iter_ele votes iter;
    let prev_conf' := u64 (prev_conf + 1) in
    if conf vote =? prev_conf' then
      let votes' := dq_iter_ele_store votes iter
                      (mk_vote (slot vote) (u64 (conf vote + 1))) in
      Ok (inl (votes', dq_iter_prev votes' iter, prev_conf'))
    else Ok (inr votes).

Definition push_vote (votes : D) (slot_ : Z) : res (D * Z) :=
  tail ← dq_peek_tail votes;
  if match tail with Some vote => slot_ <=? slot vote | None => false end then Crit
  else
    cnt ← simulate_vote votes slot_;
    votes1 ← loop (pop_expired_step cnt) (S (Z.to_nat (dq_cnt votes))) votes;
    '(root, votes2) ←
       (if dq_full votes1 then
          '(vote, votes2) ← dq_pop_head votes1; Ok (slot vote, votes2)
        else Ok (ULONG_MAX, votes1));
    votes3 ← loop confirm_step (S (Z.to_nat (dq_cnt votes2)))
               (votes2, dq_iter_init_rev votes2, 0);
    Ok (dq_push_tail votes3 (mk_vote slot_ 1), root).
End votes.

(** ** The rules of TowerBFT on stacks (top of the tower first) *)

Definition expiration (v : fd_tower_vote_t) : Z := slot v + 2 ^ conf v.

Fixpoint expire (slot_ : Z) (s : list fd_tower_vote_t) : list fd_tower_vote_t :=
  match s with
  | [] => []
  | v :: s' => if slot_ <=? expiration v then s else expire slot_ s'
  end.

(** The bottom vote leaves a full tower as the new root. *)
Definition root_pop (s : list fd_tower_vote_t) : Z * list fd_tower_vote_t :=
  if Z.of_nat (length s) =? FD_TOWER_VOTE_MAX then
    match last s with
    | Some v => (slot v, take (length s - 1) s)
    | None => (ULONG_MAX, s)
    end
  else (ULONG_MAX, s).

(** Votes that are confirmed consecutively from the top double their lockout. *)
Fixpoint confirm (prev_conf : Z) (s : list fd_tower_vote_t) : list fd_tower_vote_t :=
  match s with
  | [] => []
  | v :: s' =>
      if conf v =? prev_conf + 1
      then mk_vote (slot v) (conf v + 1) :: confirm (prev_conf + 1) s'
      else s
  end.

Definition push_spec (slot_ : Z) (s : list fd_tower_vote_t) : Z * list fd_tower_vote_t :=
  let '(root, s2) := root_pop (expire slot_ s) in
  (root, mk_vote slot_ 1 :: confirm 0 s2).

(** ** Well-formed towers *)

(** A vote on top of another one is newer and has fewer confirmations. *)
Definition above (v w : fd_tower_vote_t) : Prop := slot w < slot v /\ conf v < conf w.

Definition vote_ok (v : fd_tower_vote_t) : Prop :=
  0 <= slot v < 2 ^ 63 /\ 1 <= conf v <= FD_TOWER_VOTE_MAX.

Record tower_wf (s : list fd_tower_vote_t) : Prop := mk_tower_wf {
  wf_sorted : StronglySorted above s;
  wf_votes : Forall vote_ok s;
}.

(** Votes whose expiration slot is computed without overflow. *)
Definition vote_safe (v : fd_tower_vote_t) : Prop :=
  0 <= slot v /\ 0 <= conf v < 64 /\ expiration v <= ULONG_MAX.

Lemma vote_ok_safe v : vote_ok v -> vote_safe v.
Proof.
  unfold vote_ok, vote_safe, expiration, FD_TOWER_VOTE_MAX, ULONG_MAX. intros [Hs Hc].
  pose proof (Z.pow_le_mono_r 2 (conf v) 31 ltac:(lia) ltac:(lia)). lia.
Qed.
#[export] Hint Resolve vote_ok_safe : fd.

Lemma expiration_slot_safe v : vote_safe v -> expiration_slot v = Ok (expiration v).
Proof.
  unfold vote_safe, expiration_slot, expiration. intros (Hs & Hc & He).
  rewrite (proj2 (Z.leb_le _ _)), (proj2 (Z.ltb_lt _ _)) by lia. simpl.
  rewrite Z.shiftl_1_l. pose proof (Z.pow_pos_nonneg 2 (conf v) ltac:(lia) ltac:(lia)).
  rewrite (u64_small (2 ^ _)) by (unfold is_u64; lia).
  rewrite u64_small by (unfold is_u64; lia). done.
Qed.

Lemma expire_suffix slot_ s : exists t, s = t ++ expire slot_ s.
Proof.
  induction s as [|v s [t IH]]; simpl; [by exists []|].
  destruct (_ <=? _); [by exists []|]. exists (v :: t). simpl. congruence.
Qed.

Lemma expire_length slot_ s : (length (expire slot_ s) <= length s)%nat.
Proof.
  destruct (expire_suffix slot_ s) as [t E]. apply (f_equal length) in E.
  rewrite length_app in E. lia.
Qed.

(** The deque keeps the bottom part of the list when the top expires. *)
Lemma expire_take slot_ l :
  take (length (expire slot_ (rev l))) l = rev (expire slot_ (rev l)).
Proof.
  destruct (expire_suffix slot_ (rev l)) as [t E].
  apply (f_equal (@rev _)) in E. rewrite rev_involutive, rev_app_distr in E.
  rewrite E at 2.
  rewrite take_app_le, take_ge by (rewrite length_rev; lia). done.
Qed.

Lemma confirm_length k s : length (confirm k s) = length s.
Proof.
  revert k. induction s as [|v s IH]; intros k; simpl; [done|].
  destruct (_ =? _); simpl; [by rewrite IH|done].
Qed.

Section refinement.
Context {D : Type} `{HD : !Deque D fd_tower_vote_t} `{HL : !DequeLaws D fd_tower_vote_t}.
Implicit Types (d : D) (l s : list fd_tower_vote_t).

Lemma simulate_vote_from_spec n d l slot_ k :
  dq_repr n d l -> Forall vote_safe l -> (k <= length l)%nat ->
  simulate_vote_from d slot_ k =
    Ok (Z.of_nat (length (expire slot_ (rev (take k l))))).
Proof.
  intros Hr Hl. induction k as [|k IH]; intros Hk; [done|].
  destruct (lookup_lt_is_Some_2 l k Hk) as [v Hv]. simpl.
  rewrite (dq_peek_index_spec _ _ _ _ _ Hr Hv). simpl.
  rewrite expiration_slot_safe by (by eapply Forall_lookup_1). simpl.
  rewrite (take_S_r _ _ _ Hv), rev_app_distr. simpl.
  destruct (slot_ <=? expiration v); [|apply IH; lia].
  simpl. rewrite length_rev, length_take. f_equal. lia.
Qed.

Lemma simulate_vote_spec n d l slot_ :
  dq_repr n d l -> Forall vote_safe l ->
  simulate_vote d slot_ = Ok (Z.of_nat (length (expire slot_ (rev l)))).
Proof.
  intros Hr Hl. unfold simulate_vote. rewrite (dq_cnt_spec _ _ _ Hr), Nat2Z.id.
  rewrite (simulate_vote_from_spec n d l) by done. by rewrite take_ge.
Qed.

Lemma pop_expired_loop n d l cnt fuel :
  dq_repr n d l -> (cnt <= length l)%nat -> Z.of_nat (length l) <= n ->
  (length l - cnt < fuel)%nat ->
  exists d', loop (pop_expired_step (Z.of_nat cnt)) fuel d = Ok d' /\
             dq_repr (n - Z.of_nat (length l - cnt)) d' (take cnt l).
Proof.
  revert n d l. induction fuel as [|fuel IH]; intros n d l Hr Hc Hn Hf; [lia|].
  rewrite loop_S. unfold pop_expired_step at 1. rewrite (dq_cnt_spec _ _ _ Hr).
  destruct (Z.ltb_spec (Z.of_nat cnt) (Z.of_nat (length l))) as [Hlt|Hge].
  - destruct l as [|v l _] using rev_ind; [simpl in *; lia|].
    rewrite length_app in *. simpl in *.
    destruct (dq_pop_tail_spec n d l v Hr ltac:(lia)) as (d1 & -> & Hr1). simpl.
    destruct (IH (n - 1) d1 l Hr1 ltac:(lia) ltac:(lia) ltac:(lia)) as (d' & E & Hr').
    exists d'. split; [exact E|]. rewrite take_app_le by lia.
    eapply dq_repr_weaken; [exact Hr'|lia].
  - exists d. split; [done|]. rewrite take_ge by lia.
    eapply dq_repr_weaken; [exact Hr|lia].
Qed.

Lemma confirm_loop n d p s k fuel :
  dq_repr n d (rev (p ++ s)) -> 0 < n ->
  0 <= k -> k + Z.of_nat (length s) < ULONG_MAX -> (length s < fuel)%nat ->
  exists d', loop confirm_step fuel
               (d, dq_iter_at d (Z.of_nat (length s) - 1), k) = Ok d' /\
             dq_repr n d' (rev (p ++ confirm k s)).
Proof.
  intros Hr Hn. revert d p k fuel Hr.
  induction s as [|v s IH]; intros d p k fuel Hr Hk Hks Hf; simpl in Hf, Hks;
    (destruct fuel as [|fuel]; [lia|]); rewrite loop_S; simpl.
  - rewrite (dq_iter_done_rev_spec n d _ _ Hr) by lia. simpl. eauto.
  - assert (Hlen : length (rev (p ++ v :: s)) = (length p + S (length s))%nat)
      by (rewrite length_rev, length_app; simpl; lia).
    replace (Z.of_nat (S (length s)) - 1) with (Z.of_nat (length s)) by lia.
    rewrite (dq_iter_done_rev_spec n d _ _ Hr) by (done || lia).
    replace (Z.of_nat (length s) =? -1) with false by (symmetry; apply Z.eqb_neq; lia).
    assert (Hrev : rev (p ++ v :: s) = rev s ++ v :: rev p)
      by (rewrite rev_app_distr; simpl; rewrite <- app_assoc; done).
    assert (Hv : rev (p ++ v :: s) !! length s = Some v).
    { rewrite Hrev. apply list_lookup_middle. by rewrite length_rev. }
    rewrite (dq_iter_ele_spec n d _ _ _ Hr Hv). simpl.
    rewrite (u64_small (k + 1)) by (unfold is_u64; lia).
    destruct (Z.eqb_spec (conf v) (k + 1)) as [E|E]; [|eauto].
    rewrite (u64_small (conf v + 1)) by (unfold is_u64; lia).
    set (v' := mk_vote (slot v) (conf v + 1)).
    destruct (dq_iter_ele_store_spec n d _ (length s) v' Hr) as [Hr' Hit]; [lia|].
    set (d1 := dq_iter_ele_store d _ v') in *.
    assert (Hins : <[length s:=v']> (rev (p ++ v :: s)) = rev ((p ++ [v']) ++ s)).
    { rewrite Hrev, insert_app_r_alt by (rewrite length_rev; lia).
      rewrite length_rev, Nat.sub_diag. simpl.
      rewrite <- app_assoc, rev_app_distr. simpl. by rewrite <- app_assoc. }
    rewrite Hins in Hr'. rewrite <- Hit.
    rewrite (dq_iter_prev_spec n d1 _ (Z.of_nat (length s)) Hr');
      [|lia|rewrite length_rev, !length_app; simpl; lia].
    destruct (IH d1 (p ++ [v']) (k + 1) fuel Hr' ltac:(lia) ltac:(lia) ltac:(lia))
      as (d' & El & Hrd).
    exists d'. split; [exact El|]. by rewrite <- app_assoc in Hrd.
Qed.

Lemma root_pop_refines n d s :
  dq_max = FD_TOWER_VOTE_MAX -> dq_repr n d (rev s) -> 0 < n ->
  exists d', (if dq_full d then '(vote, votes2) ← dq_pop_head d; Ok (slot vote, votes2)
              else Ok (ULONG_MAX, d)) = Ok (fst (root_pop s), d') /\
             dq_repr (n - 1) d' (rev (snd (root_pop s))).
Proof.
  intros Hm Hr Hn. rewrite (dq_full_spec _ _ _ Hr), Hm, length_rev. unfold root_pop.
  destruct (Z.eqb_spec (Z.of_nat (length s)) FD_TOWER_VOTE_MAX) as [E|E].
  - destruct s as [|v s _] using rev_ind; [done|]. rewrite last_snoc.
    rewrite rev_app_distr in Hr. simpl in *.
    destruct (dq_pop_head_spec n d _ _ Hr Hn) as (d' & -> & Hr'). exists d'.
    split; [done|]. simpl. rewrite length_app, take_app_le, take_ge; simpl; [done|lia..].
  - exists d. split; [done|]. simpl. eapply dq_repr_weaken; [done|lia].
Qed.

Lemma root_pop_length s :
  Z.of_nat (length s) <= FD_TOWER_VOTE_MAX ->
  Z.of_nat (length (snd (root_pop s))) < FD_TOWER_VOTE_MAX.
Proof.
  unfold root_pop, FD_TOWER_VOTE_MAX. intros Hs.
  destruct (Z.eqb_spec (Z.of_nat (length s)) 31) as [E|E]; simpl; [|lia].
  destruct s as [|v s _] using rev_ind; [done|]. rewrite last_snoc. simpl.
  rewrite length_take, length_app in *. simpl in *. lia.
Qed.

(** [push_vote] implements [push_spec] on every deque that keeps the
    promises of the interface. *)
Lemma push_vote_refines n d l slot_ :
  dq_max = FD_TOWER_VOTE_MAX -> dq_repr n d l -> 64 <= n -> Forall vote_safe l ->
  (forall v, last l = Some v -> slot v < slot_) ->
  exists d', push_vote d slot_ = Ok (d', fst (push_spec slot_ (rev l))) /\
             dq_repr (n - 64) d' (rev (snd (push_spec slot_ (rev l)))).
Proof.
  intros Hm Hr Hn Hl Hlast.
  pose proof (dq_repr_length _ _ _ Hr) as Hlen. rewrite Hm in Hlen.
  assert (H31 : FD_TOWER_VOTE_MAX = 31) by done.
  unfold push_vote. rewrite (dq_peek_tail_spec _ _ _ Hr) by lia. simpl.
  replace (match last l with Some vote => slot_ <=? slot vote | None => false end)
    with false.
  2:{ destruct (last l); [|done]. symmetry. apply Z.leb_gt. auto. }
  rewrite (simulate_vote_spec n d l) by done. simpl.
  pose proof (expire_length slot_ (rev l)) as Hel. rewrite length_rev in Hel.
  set (s1 := expire slot_ (rev l)) in *.
  destruct (pop_expired_loop n d l (length s1) (S (Z.to_nat (dq_cnt d))))
    as (d1 & -> & Hr1); [done|done|lia|rewrite (dq_cnt_spec _ _ _ Hr); lia|].
  simpl. unfold s1 in Hr1 at 2. rewrite expire_take in Hr1. fold s1 in Hr1.
  destruct (root_pop_refines _ d1 s1 Hm Hr1 ltac:(lia)) as (d2 & -> & Hr2). simpl.
  unfold push_spec. fold s1.
  pose proof (root_pop_length s1 ltac:(lia)) as Hl2.
  destruct (root_pop s1) as [root s2]. simpl in *.
  assert (Hf2 : (length s2 < S (Z.to_nat (dq_cnt d2)))%nat)
    by (rewrite (dq_cnt_spec _ _ _ Hr2), length_rev; lia).
  rewrite (dq_iter_init_rev_spec _ _ _ Hr2), length_rev.
  destruct (confirm_loop _ d2 [] s2 0 _ Hr2 ltac:(lia) ltac:(lia)
              ltac:(unfold ULONG_MAX; lia) Hf2) as (d3 & -> & Hr3).
  simpl in *. eexists. split; [done|].
  eapply dq_repr_weaken; [eapply dq_push_tail_spec; [exact Hr3|lia|]|lia].
  rewrite length_rev, confirm_length. lia.
Qed.
End refinement.

(** ** The invariant is preserved *)

Lemma above_trans u v w : above u v -> above v w -> above u w.
Proof. unfold above. lia. Qed.

Lemma expire_wf slot_ s : tower_wf s -> tower_wf (expire slot_ s).
Proof.
  intros [Hs Hv]. destruct (expire_suffix slot_ s) as [t E]. rewrite E in Hs, Hv.
  split; [by apply StronglySorted_app_1_r in Hs|by apply Forall_app in Hv as [_ ?]].
Qed.

(** Confirmations grow by at least one per position below the top. *)
Lemma sorted_conf_index k s i v :
  StronglySorted above s -> Forall (fun w => k <= conf w) s -> s !! i = Some v ->
  k + Z.of_nat i <= conf v.
Proof.
  revert k i. induction s as [|w s IH]; intros k i Hs Hk Hi; [done|].
  apply StronglySorted_cons in Hs as [Hw Hs]. apply Forall_cons in Hk as [Hkw Hk].
  destruct i as [|i]; simplify_eq/=; [lia|].
  assert (k + 1 + Z.of_nat i <= conf v); [|lia]. apply IH; [done| |done].
  eapply Forall_impl; [exact Hw|]. unfold above. simpl. lia.
Qed.

Lemma wf_conf_pos s : tower_wf s -> Forall (fun w => 1 <= conf w) s.
Proof. intros [_ Hv]. eapply Forall_impl; [exact Hv|]. unfold vote_ok. lia. Qed.

Lemma wf_length s : tower_wf s -> Z.of_nat (length s) <= FD_TOWER_VOTE_MAX.
Proof.
  intros Hwf. destruct s as [|v s _] using rev_ind; [done|].
  pose proof (sorted_conf_index 1 _ (length s) v (wf_sorted _ Hwf) (wf_conf_pos _ Hwf)) as Hc.
  rewrite list_lookup_middle in Hc by done. specialize (Hc eq_refl).
  destruct Hwf as [_ Hv]. apply Forall_app in Hv as [_ Hv]. apply Forall_cons in Hv as [Hv _].
  unfold vote_ok in Hv. rewrite length_app. simpl. lia.
Qed.

Lemma wf_safe s : tower_wf s -> Forall vote_safe s.
Proof. intros [_ Hv]. eapply Forall_impl; [exact Hv|]. apply vote_ok_safe. Qed.

Lemma Forall_slot (P : Z -> Prop) s :
  Forall (fun w => P (slot w)) s <-> Forall P (slot <$> s).
Proof. by rewrite Forall_fmap. Qed.

Lemma confirm_slots k s : slot <$> confirm k s = slot <$> s.
Proof.
  revert k. induction s as [|v s IH]; intros k; simpl; [done|].
  destruct (_ =? _); simpl; [by rewrite IH|done].
Qed.

Lemma confirm_wf k s :
  tower_wf s -> Forall (fun w => k + 1 <= conf w) s -> 0 <= k ->
  k + Z.of_nat (length s) < FD_TOWER_VOTE_MAX ->
  tower_wf (confirm k s) /\ Forall (fun w => k + 2 <= conf w) (confirm k s).
Proof.
  intros [Hs Hv]. revert k. induction s as [|v s IH]; intros k Hk Hk0 Hlen; simpl.
  { by repeat split. }
  apply StronglySorted_cons in Hs as [Hw Hs]. apply Forall_cons in Hv as [Hvv Hv].
  apply Forall_cons in Hk as [Hkv Hk]. simpl in Hlen.
  assert (Hk1 : Forall (fun w => k + 2 <= conf w) s).
  { eapply Forall_impl; [exact Hw|]. unfold above. simpl. lia. }
  destruct (Z.eqb_spec (conf v) (k + 1)) as [E|E].
  - destruct (IH Hs Hv (k + 1)) as [[Hs' Hv'] Hc'];
      [eapply Forall_impl; [exact Hk1|]; simpl; lia|lia|lia|].
    assert (Hsl : Forall (fun w => slot w < slot v) (confirm (k + 1) s)).
    { rewrite (Forall_slot (fun z => z < slot v)), confirm_slots, <- Forall_slot.
      eapply Forall_impl; [exact Hw|]. unfold above. simpl. lia. }
    split.
    + split.
      * apply StronglySorted_cons. split; [|done].
        apply Forall_forall. intros w Hin. unfold above. simpl.
        rewrite Forall_forall in Hsl, Hc'. specialize (Hsl w Hin).
        specialize (Hc' w Hin). simpl in *. lia.
      * apply Forall_cons. split; [|done]. unfold vote_ok in *. simpl. lia.
    + apply Forall_cons. split; [simpl; lia|].
      eapply Forall_impl; [exact Hc'|]. simpl. lia.
  - split.
    + split; [by apply StronglySorted_cons|by apply Forall_cons].
    + apply Forall_cons. split; [lia|done].
Qed.

Lemma root_pop_prefix s : exists t, s = snd (root_pop s) ++ t.
Proof.
  unfold root_pop. destruct (_ =? _); [|by exists []; rewrite app_nil_r].
  destruct (last s); simpl; [|by exists []; rewrite app_nil_r].
  exists (drop (length s - 1) s). by rewrite take_drop.
Qed.

Lemma root_pop_wf s : tower_wf s -> tower_wf (snd (root_pop s)).
Proof.
  intros [Hs Hv]. destruct (root_pop_prefix s) as [t E]. rewrite E in Hs, Hv.
  split; [by apply StronglySorted_app_1_l in Hs|by apply Forall_app in Hv as [? _]].
Qed.

(** The root is the bottom vote of a full tower, and its lockout is maximal. *)
Lemma root_pop_max_lockout s :
  tower_wf s ->
  (fst (root_pop s) = ULONG_MAX /\ snd (root_pop s) = s) \/
  (exists v, last s = Some v /\ fst (root_pop s) = slot v /\ conf v = FD_TOWER_VOTE_MAX).
Proof.
  intros Hwf. unfold root_pop.
  destruct (Z.eqb_spec (Z.of_nat (length s)) FD_TOWER_VOTE_MAX) as [E|E]; [|by left].
  destruct s as [|v s _] using rev_ind; [done|]. rewrite last_snoc. right. exists v.
  split; [done|]. split; [done|].
  pose proof (sorted_conf_index 1 _ (length s) v (wf_sorted _ Hwf) (wf_conf_pos _ Hwf)) as Hc.
  rewrite list_lookup_middle in Hc by done. specialize (Hc eq_refl).
  destruct Hwf as [_ Hv]. apply Forall_app in Hv as [_ Hv]. apply Forall_cons in Hv as [Hv _].
  unfold vote_ok in Hv. rewrite length_app in E. simpl in E. lia.
Qed.

Lemma push_spec_wf slot_ s :
  tower_wf s -> 0 <= slot_ < 2 ^ 63 -> Forall (fun w => slot w < slot_) s ->
  tower_wf (snd (push_spec slot_ s)).
Proof.
  intros Hwf Hslot Hnew. unfold push_spec.
  pose proof (expire_wf slot_ _ Hwf) as Hwf1. destruct (expire_suffix slot_ s) as [t Et].
  pose proof (root_pop_wf _ Hwf1) as Hwf2.
  pose proof (root_pop_length _ (wf_length _ Hwf1)) as Hl2.
  destruct (root_pop_prefix (expire slot_ s)) as [t2 Et2].
  destruct (root_pop (expire slot_ s)) as [root s2]. simpl in *.
  assert (Hnew2 : Forall (fun w => slot w < slot_) s2).
  { rewrite Et in Hnew. apply Forall_app in Hnew as [_ Hnew]. rewrite Et2 in Hnew.
    by apply Forall_app in Hnew as [? _]. }
  destruct (confirm_wf 0 s2 Hwf2 (wf_conf_pos _ Hwf2) ltac:(lia) ltac:(lia))
    as [[Hs3 Hv3] Hc3].
  assert (Hnew3 : Forall (fun w => slot w < slot_) (confirm 0 s2)).
  { by rewrite (Forall_slot (fun z => z < slot_)), confirm_slots, <- Forall_slot. }
  split.
  - apply StronglySorted_cons. split; [|done]. apply Forall_forall. intros w Hin.
    rewrite Forall_forall in Hc3, Hnew3. specialize (Hc3 w Hin). specialize (Hnew3 w Hin).
    unfold above. simpl in *. lia.
  - apply Forall_cons. split; [|done]. unfold vote_ok, FD_TOWER_VOTE_MAX. simpl. lia.
Qed.

(** ** The two implementations of the tower's deque *)

#[export] Instance tower_list_deque : Deque (list fd_tower_vote_t) fd_tower_vote_t :=
  list_deque fd_tower_vote_t FD_TOWER_VOTE_MAX.
#[export] Instance tower_list_laws : DequeLaws (list fd_tower_vote_t) fd_tower_vote_t :=
  list_deque_laws fd_tower_vote_t FD_TOWER_VOTE_MAX eq_refl.

#[export] Instance tower_ring_deque :
  Deque (Ring.private fd_tower_vote_t) fd_tower_vote_t :=
  ring_deque fd_tower_vote_t FD_TOWER_VOTE_MAX.
#[export] Instance tower_ring_laws :
  DequeLaws (Ring.private fd_tower_vote_t) fd_tower_vote_t :=
  ring_deque_laws fd_tower_vote_t FD_TOWER_VOTE_MAX eq_refl.

(** On lists: the vote goes through and the result is [push_spec]. *)
Lemma push_vote_list (votes : list fd_tower_vote_t) slot_ :
  Forall vote_safe votes -> Z.of_nat (length votes) <= FD_TOWER_VOTE_MAX ->
  (forall v, last votes = Some v -> slot v < slot_) ->
  push_vote votes slot_ =
    Ok (rev (snd (push_spec slot_ (rev votes))), fst (push_spec slot_ (rev votes))).
Proof.
  intros Hs Hl Hlast.
  destruct (push_vote_refines 64 votes votes slot_) as (d' & E & Hr); try done.
  destruct Hr as [Hr _]. by rewrite E, Hr.
Qed.

(** In a well-formed tower the top vote is the newest. *)
Lemma wf_newest (votes : list fd_tower_vote_t) slot_ :
  tower_wf (rev votes) -> (forall v, last votes = Some v -> slot v < slot_) ->
  Forall (fun w => slot w < slot_) (rev votes).
Proof.
  intros [Hs _] Hlast. destruct votes as [|v l _] using rev_ind; [by constructor|].
  rewrite rev_app_distr in *. simpl in *. rewrite last_snoc in Hlast.
  apply StronglySorted_cons in Hs as [Hw _]. specialize (Hlast v eq_refl).
  apply Forall_cons. split; [done|]. eapply Forall_impl; [exact Hw|].
  unfold above. simpl. lia.
Qed.

(** Towers a validator can build by voting. *)
Inductive tower_reach : list fd_tower_vote_t -> Prop :=
| reach_empty : tower_reach []
| reach_vote votes slot_ votes' root :
    tower_reach votes -> 0 <= slot_ < 2 ^ 63 ->
    push_vote votes slot_ = Ok (votes', root) -> tower_reach votes'.

Lemma push_vote_newer (votes votes' : list fd_tower_vote_t) slot_ root v :
  push_vote votes slot_ = Ok (votes', root) -> last votes = Some v -> slot v < slot_.
Proof.
  unfold push_vote. simpl. intros E Hv. rewrite Hv in E.
  destruct (Z.leb_spec slot_ (slot v)); [done|lia].
Qed.

Lemma reach_wf votes : tower_reach votes -> tower_wf (rev votes).
Proof.
  induction 1 as [|votes slot_ votes' root _ IH Hslot E]; [by repeat constructor|].
  pose proof (fun v => push_vote_newer _ _ _ _ v E) as Hnew.
  pose proof (wf_length _ IH) as Hl. rewrite length_rev in Hl.
  pose proof (wf_safe _ IH) as Hs. rewrite Forall_rev_iff in Hs.
  rewrite push_vote_list in E by done. simplify_eq. rewrite rev_involutive.
  apply push_spec_wf; [done|done|]. by apply wf_newest.
Qed.

(** ** What a vote does to each vote of the tower *)

(** The vote at depth [i] is confirmed once more when it has [i + 1] confirmations. *)
Definition confirm_at (i : nat) (v : fd_tower_vote_t) : fd_tower_vote_t :=
  mk_vote (slot v) (if conf v =? Z.of_nat i + 1 then conf v + 1 else conf v).

Lemma confirm_imap k s :
  StronglySorted above s -> Forall (fun w => Z.of_nat k + 1 <= conf w) s ->
  confirm (Z.of_nat k) s = imap (fun i => confirm_at (k + i)) s.
Proof.
  revert k. induction s as [|v s IH]; intros k Hs Hk; [done|].
  apply StronglySorted_cons in Hs as [Hw Hs]. apply Forall_cons in Hk as [Hkv Hk]. simpl.
  unfold confirm_at at 1. rewrite Nat.add_0_r.
  assert (Hk1 : Forall (fun w => Z.of_nat (S k) + 1 <= conf w) s).
  { eapply Forall_impl; [exact Hw|]. unfold above. simpl. lia. }
  assert (Ht : imap ((fun i => confirm_at (k + i)) ∘ S) s = imap (fun i => confirm_at (S k + i)) s).
  { apply imap_ext. intros i w _. simpl. by rewrite Nat.add_succ_r. }
  rewrite Ht. destruct (Z.eqb_spec (conf v) (Z.of_nat k + 1)) as [E|E].
  - f_equal. rewrite <- IH by done. f_equal. lia.
  - f_equal; [by destruct v|]. symmetry. transitivity (imap (fun _ => id) s).
    + apply imap_ext. intros i w Hi. unfold confirm_at.
      assert (Z.of_nat k + 2 + Z.of_nat i <= conf w - 1) as Hc.
      { enough (Z.of_nat k + 3 + Z.of_nat i <= conf w) by lia.
        eapply sorted_conf_index; [done| |done].
        eapply Forall_impl; [exact Hw|]. unfold above. simpl. lia. }
      rewrite (proj2 (Z.eqb_neq _ _)) by lia. by destruct w.
    + clear. induction s as [|w s IH]; simpl; [done|]. f_equal. exact IH.
Qed.

Lemma expire_split slot_ s :
  exists t, s = t ++ expire slot_ s /\ Forall (fun v => expiration v < slot_) t /\
            (forall v, head (expire slot_ s) = Some v -> slot_ <= expiration v).
Proof.
  induction s as [|v s (t & E & Ht & Hh)]; simpl; [by exists []|].
  destruct (Z.leb_spec slot_ (expiration v)).
  - exists []. repeat split; [done|]. intros w Hw. by simplify_eq/=.
  - exists (v :: t). simpl. split; [by rewrite <- E|]. by split; [constructor|].
Qed.

(** The composition of the three rules, vote by vote. *)
Lemma push_spec_shape slot_ s :
  tower_wf s ->
  exists base kept expired,
    s = expired ++ kept /\
    Forall (fun v => expiration v < slot_) expired /\
    (forall v, head kept = Some v -> slot_ <= expiration v) /\
    ((Z.of_nat (length kept) < FD_TOWER_VOTE_MAX /\ fst (push_spec slot_ s) = ULONG_MAX /\
      kept = base) \/
     (Z.of_nat (length kept) = FD_TOWER_VOTE_MAX /\
      exists v, kept = base ++ [v] /\ fst (push_spec slot_ s) = slot v /\
                conf v = FD_TOWER_VOTE_MAX)) /\
    snd (push_spec slot_ s) = mk_vote slot_ 1 :: imap confirm_at base.
Proof.
  intros Hwf. destruct (expire_split slot_ s) as (t & E & Ht & Hh).
  pose proof (expire_wf slot_ _ Hwf) as Hwf1. pose proof (wf_length _ Hwf1) as Hl.
  pose proof (root_pop_max_lockout _ Hwf1) as Hroot. pose proof (root_pop_wf _ Hwf1) as Hwf2.
  exists (snd (root_pop (expire slot_ s))), (expire slot_ s), t.
  split; [done|]. split; [done|]. split; [done|]. unfold push_spec.
  assert (Hcf : confirm 0 (snd (root_pop (expire slot_ s))) =
                imap confirm_at (snd (root_pop (expire slot_ s)))).
  { apply (confirm_imap 0); [apply Hwf2|]. apply wf_conf_pos, Hwf2. }
  split; [|destruct (root_pop _); simpl in *; by rewrite Hcf].
  unfold root_pop in *.
  destruct (Z.eqb_spec (Z.of_nat (length (expire slot_ s))) FD_TOWER_VOTE_MAX) as [E1|E1].
  - right. split; [done|]. destruct (expire slot_ s) as [|v l _] using rev_ind; [done|].
    rewrite last_snoc in *. exists v. simpl in *.
    destruct Hroot as [[_ Hx]|(v' & Hv' & _ & Hc)].
    + apply (f_equal length) in Hx. rewrite length_take, length_app in Hx. simpl in Hx. lia.
    + simplify_eq. split; [|done]. rewrite length_app. simpl.
      by rewrite take_app_le, take_ge by lia.
  - left. simpl. split; [lia|done].
Qed.

Lemma push_vote_newest (votes : list fd_tower_vote_t) slot_ :
  (push_vote votes slot_ = Crit /\ exists v, last votes = Some v /\ slot_ <= slot v) \/
  (forall v, last votes = Some v -> slot v < slot_).
Proof.
  unfold push_vote. simpl. destruct (last votes) as [v|] eqn:Hv; [|by right].
  destruct (Z.leb_spec slot_ (slot v)); [left; eauto|right].
  intros w Hw. by simplify_eq.
Qed.

(** ** Properties *)

(** C8. On a well-formed tower (slots strictly increasing, confirmations
    strictly decreasing from head to tail and between 1 and 31, hence at most
    31 votes) and for slots below 2^63, a vote fails exactly when the newest
    vote is not older than the slot, and then with the failed assertion of the
    code.  Otherwise it succeeds: the votes removed from the top are exactly
    the expired ones above the newest unexpired vote; if 31 votes are left the
    bottom one, which has the maximal lockout, is removed and is the root, and
    else nothing more is removed and there is no root; of the votes that are
    left the one at depth i from the top is confirmed once more exactly when
    it has i+1 confirmations, so that its lockout doubles; the new vote with
    one confirmation is on top; and the tower is well formed. *)
Theorem push_vote_tower_wf (votes : list fd_tower_vote_t) (slot_ : Z) :
  tower_wf (rev votes) -> 0 <= slot_ < 2 ^ 63 ->
  (push_vote votes slot_ = Crit /\
   exists v, last votes = Some v /\ slot_ <= slot v) \/
  ((forall v, last votes = Some v -> slot v < slot_) /\
   exists base kept expired votes' root,
     push_vote votes slot_ = Ok (votes', root) /\
     votes = kept ++ expired /\
     Forall (fun v => expiration v < slot_) expired /\
     (forall v, last kept = Some v -> slot_ <= expiration v) /\
     ((Z.of_nat (length kept) < FD_TOWER_VOTE_MAX /\ root = ULONG_MAX /\ kept = base) \/
      (Z.of_nat (length kept) = FD_TOWER_VOTE_MAX /\
       exists v, kept = v :: base /\ root = slot v /\ conf v = FD_TOWER_VOTE_MAX)) /\
     rev votes' = mk_vote slot_ 1 :: imap confirm_at (rev base) /\
     tower_wf (rev votes')).
Proof.
  intros Hwf Hslot.
  pose proof (wf_length _ Hwf) as Hl. rewrite length_rev in Hl.
  pose proof (wf_safe _ Hwf) as Hs. rewrite Forall_rev_iff in Hs.
  destruct (push_vote_newest votes slot_) as [Hold|Hnew]; [by left|right].
  split; [done|].
  destruct (push_spec_shape slot_ (rev votes) Hwf) as (base & kept & expired & E & He & Hk & Hb & Hc).
  exists (rev base), (rev kept), (rev expired). eexists _, _.
  split; [by apply push_vote_list|].
  split; [by rewrite <- rev_app_distr, <- E, rev_involutive|].
  rewrite Forall_rev_iff, last_rev, length_rev, !rev_involutive.
  split; [done|]. split; [done|]. split; [|split; [done|]].
  - destruct Hb as [(? & ? & <-)|(? & v & -> & ? & ?)]; [by left|right].
    split; [done|]. exists v. by rewrite rev_app_distr.
  - apply push_spec_wf; [done..|by apply wf_newest].
Qed.

Lemma push_vote_tower_wf_witness :
  push_vote [mk_vote 1 4; mk_vote 2 3; mk_vote 3 2; mk_vote 4 1] 9
    = Ok ([mk_vote 1 4; mk_vote 2 3; mk_vote 9 1], ULONG_MAX) /\
  exists base kept expired votes' root,
    push_vote [mk_vote 1 4; mk_vote 2 3; mk_vote 3 2; mk_vote 4 1] 9 = Ok (votes', root) /\
    [mk_vote 1 4; mk_vote 2 3; mk_vote 3 2; mk_vote 4 1] = kept ++ expired /\
    Forall (fun v => expiration v < 9) expired /\
    rev votes' = mk_vote 9 1 :: imap confirm_at (rev base).
Proof.
  split; [vm_compute; reflexivity|].
  destruct (push_vote_tower_wf [mk_vote 1 4; mk_vote 2 3; mk_vote 3 2; mk_vote 4 1] 9)
    as [[Hc _]|(_ & base & kept & expired & votes' & root & E & Hv & He & _ & _ & Hr & _)].
  - split; repeat (constructor; unfold vote_ok, above, FD_TOWER_VOTE_MAX; simpl; try lia).
  - lia.
  - vm_compute in Hc. discriminate Hc.
  - exists base, kept, expired, votes', root. auto.
Defined.

(** On the 31-slot ring buffer of the template the vote has the
    same effect as on the list of votes it holds: same root, and the ring then
    holds the same tower; one vote uses at most 64 of the 2^63 - 1 cursor
    operations the template can do. *)
Theorem push_vote_ring_refines (n : Z) (d : Ring.private fd_tower_vote_t)
    (votes : list fd_tower_vote_t) (slot_ : Z) :
  repr FD_TOWER_VOTE_MAX n d votes -> 64 <= n ->
  tower_wf (rev votes) -> (forall v, last votes = Some v -> slot v < slot_) ->
  exists d' votes' root,
    push_vote d slot_ = Ok (d', root) /\ push_vote votes slot_ = Ok (votes', root) /\
    repr FD_TOWER_VOTE_MAX (n - 64) d' votes'.
Proof.
  intros Hr Hn Hwf Hnew.
  pose proof (wf_length _ Hwf) as Hl. rewrite length_rev in Hl.
  pose proof (wf_safe _ Hwf) as Hs. rewrite Forall_rev_iff in Hs.
  destruct (push_vote_refines n d votes slot_) as (d' & E & Hr'); try done.
  eexists d', _, _. split; [exact E|]. split; [by apply push_vote_list|exact Hr'].
Qed.

Lemma push_vote_ring_refines_witness :
  exists d' votes' root,
    push_vote (Ring.new (replicate 31 (mk_vote 0 0))) 7 = Ok (d', root) /\
    push_vote [] 7 = Ok (votes', root) /\
    repr FD_TOWER_VOTE_MAX (9223372036854775807 - 64) d' votes'.
Proof.
  apply (push_vote_ring_refines 9223372036854775807).
  - apply repr_new; [reflexivity|vm_compute; reflexivity].
  - lia.
  - split; constructor.
  - intros v Hv. discriminate Hv.
Defined.


