(* ===== verification/TowerBlocks.v ===== *)
(** * Block metadata of the tower ([src/choreo/tower/fd_tower.c], block functions)

    The pool and map of [fd_tower_blk_t] as a finite map from slots to blocks
    ([blk_map] is keyed by slot and every acquired pool element is in the map).
    [blk_max] is the capacity of the pool.  The chains of parent slots are the
    forks: [up m s t] says that [t] is [s] or one of its ancestors with all the
    blocks on the way in the map. *)

From S2P Require Import Prelude.

#[local] Open Scope Z_scope.

Record fd_tower_blk_t := mk_blk {
  blk_slot : Z;
  parent_slot : Z;
  epoch : Z;
  bank_hash : fd_hash_t;
  block_hash : fd_hash_t;
  replayed : bool;
  replayed_block_id : fd_hash_t;
  voted : bool;
  voted_block_id : fd_hash_t;
  confirmed : bool;
  confirmed_block_id : fd_hash_t;
  leader : bool;
  propagated : bool;
  prev_leader_slot : Z;
}.

Abbreviation blk_map := (gmap Z fd_tower_blk_t) (only parsing).

(** [is_ancestor]: the loop state is the current block or NULL. *)
Definition is_ancestor_step (m : blk_map) (ancestor_slot : Z)
    (anc : option fd_tower_blk_t) : res (option fd_tower_blk_t + bool) :=
  match anc with
  | None => Ok (inr false)
  | Some anc =>
      if parent_slot anc =? ancestor_slot then Ok (inr true)
      else Ok (inl (if parent_slot anc =? ULONG_MAX then None else m !! parent_slot anc))
  end.

Definition is_ancestor (m : blk_map) (slot ancestor_slot : Z) : res bool :=
  loop (is_ancestor_step m ancestor_slot) (S (S (size m))) (m !! slot).

Definition fd_tower_blocks_is_slot_ancestor (m : blk_map)
    (descendant_slot ancestor_slot : Z) : res bool :=
  is_ancestor m descendant_slot ancestor_slot.

Definition fd_tower_blocks_is_slot_descendant (m : blk_map)
    (ancestor_slot descendant_slot : Z) : res bool :=
  is_ancestor m descendant_slot ancestor_slot.

Definition lowest_common_ancestor_step (m : blk_map)
    (s : option fd_tower_blk_t * option fd_tower_blk_t)
    : res (option fd_tower_blk_t * option fd_tower_blk_t + Z) :=
  match s with
  | (Some fork1, Some fork2) =>
      if blk_slot fork1 =? blk_slot fork2 then Ok (inr (blk_slot fork1))
      else if blk_slot fork2 <? blk_slot fork1
      then Ok (inl (m !! parent_slot fork1, Some fork2))
      else Ok (inl (Some fork1, m !! parent_slot fork2))
  | _ => Ok (inr ULONG_MAX)
  end.

Definition fd_tower_blocks_lowest_common_ancestor (m : blk_map) (slot1 slot2 : Z) : res Z :=
  match m !! slot1, m !! slot2 with
  | Some fork1, Some fork2 =>
      loop (lowest_common_ancestor_step m) (S (2 * S (size m))) (Some fork1, Some fork2)
  | _, _ => Crit
  end.

Definition fd_tower_blocks_canonical_block_id (m : blk_map) (slot : Z) : option fd_hash_t :=
  match m !! slot with
  | None => None
  | Some blk =>
      if confirmed blk then Some (confirmed_block_id blk)
      else if voted blk then Some (voted_block_id blk)
      else Some (replayed_block_id blk)
  end.

Definition fd_tower_blocks_query (m : blk_map) (slot : Z) : option fd_tower_blk_t :=
  m !! slot.

(** The map has no duplicate keys; inserting one is a precondition violation. *)
Definition fd_tower_blocks_insert (blk_max : Z) (m : blk_map) (slot parent_slot : Z)
    : res (blk_map * fd_tower_blk_t) :=
  _ ← FD_TEST (Z.of_nat (size m) <? blk_max);
  match m !! slot with
  | Some _ => Ub
  | None =>
      let blk := mk_blk slot parent_slot 0 0 0 false 0 false 0 false 0 false false ULONG_MAX in
      Ok (<[slot := blk]> m, blk)
  end.

Definition fd_tower_blocks_remove (m : blk_map) (slot : Z) : blk_map :=
  match m !! slot with
  | Some _ => delete slot m
  | None => m
  end.

(** ** Forks *)

Record blocks_wf (m : blk_map) : Prop := mk_blocks_wf {
  bwf_key : forall s b, m !! s = Some b -> blk_slot b = s;
  bwf_range : forall s b, m !! s = Some b -> 0 <= s < ULONG_MAX;
  bwf_parent : forall s b, m !! s = Some b -> parent_slot b < s \/ parent_slot b = ULONG_MAX;
}.

Inductive up (m : blk_map) : Z -> Z -> Prop :=
| up_refl s b : m !! s = Some b -> up m s s
| up_step s b t : m !! s = Some b -> up m (parent_slot b) t -> up m s t.

(** [t] is the parent slot of [s] or of one of its ancestors in the map. *)
Inductive ancestor (m : blk_map) : Z -> Z -> Prop :=
| anc_parent s b : m !! s = Some b -> ancestor m s (parent_slot b)
| anc_step s b t : m !! s = Some b -> ancestor m (parent_slot b) t -> ancestor m s t.

Section forks.
Context (m : blk_map) (Hwf : blocks_wf m).

Lemma no_max : m !! ULONG_MAX = None.
Proof.
  destruct (m !! ULONG_MAX) eqn:E; [|done]. apply (bwf_range _ Hwf) in E. lia.
Qed.

Lemma parent_lt s b : m !! s = Some b -> is_Some (m !! parent_slot b) -> parent_slot b < s.
Proof.
  intros Hs [b' Hp]. destruct (bwf_parent _ Hwf _ _ Hs) as [|Hm]; [done|].
  rewrite Hm, no_max in Hp. done.
Qed.

Lemma up_le s t : up m s t -> t <= s.
Proof.
  induction 1 as [s b Hs|s b t Hs Hu IH]; [lia|].
  assert (is_Some (m !! parent_slot b)) by (destruct Hu; eauto).
  pose proof (parent_lt _ _ Hs ltac:(done)). lia.
Qed.

Lemma up_dom s t : up m s t -> is_Some (m !! t).
Proof. induction 1; eauto. Qed.

Lemma up_trans s t u : up m s t -> up m t u -> up m s u.
Proof. induction 1; eauto using up_step. Qed.

Lemma up_inv s b t : m !! s = Some b -> up m s t -> t = s \/ up m (parent_slot b) t.
Proof. intros Hs Hu. destruct Hu as [s' b' Hs'|s' b' t Hs' Hu]; simplify_eq; auto. Qed.

Lemma ancestor_inv s b t :
  m !! s = Some b -> ancestor m s t -> t = parent_slot b \/ ancestor m (parent_slot b) t.
Proof. intros Hs Ha. destruct Ha; simplify_eq; auto. Qed.

(** The blocks of the map with a slot up to [z]: a bound on every walk up. *)
Definition rank (o : option fd_tower_blk_t) : nat :=
  match o with
  | None => 0
  | Some b => S (size (filter (fun s => s <= blk_slot b) (dom m : gset Z)))
  end.

Lemma rank_bound o : (rank o <= S (size m))%nat.
Proof.
  destruct o as [b|]; simpl; [|lia].
  rewrite <- size_dom. apply le_n_S, subseteq_size. set_solver.
Qed.

Lemma rank_parent s b :
  m !! s = Some b -> (rank (m !! parent_slot b) < rank (Some b))%nat.
Proof.
  intros Hs. destruct (m !! parent_slot b) as [p|] eqn:Hp; simpl; [|lia].
  apply -> Nat.succ_lt_mono. apply subset_size. split.
  - intros z. rewrite !elem_of_filter. intros [Hz ?]. split; [|done].
    rewrite (bwf_key _ Hwf _ _ Hp) in Hz. rewrite (bwf_key _ Hwf _ _ Hs).
    pose proof (parent_lt s b Hs ltac:(eauto)). lia.
  - intros Hsub. specialize (Hsub s). rewrite !elem_of_filter, elem_of_dom in Hsub.
    rewrite (bwf_key _ Hwf _ _ Hp), (bwf_key _ Hwf _ _ Hs) in Hsub.
    destruct Hsub as [Hle _]; [split; [lia|eauto]|].
    pose proof (parent_lt s b Hs ltac:(eauto)). lia.
Qed.

Lemma ancestor_max s b t :
  m !! s = Some b -> parent_slot b = ULONG_MAX -> ~ ancestor m (parent_slot b) t.
Proof.
  intros Hs Hp Ha. rewrite Hp in Ha. pose proof no_max as Hn.
  destruct Ha as [s' b' E|s' b' t' E _]; by rewrite Hn in E.
Qed.

(** A block pointer of the walk, or NULL. *)
Definition in_map (o : option fd_tower_blk_t) : Prop :=
  forall b, o = Some b -> m !! blk_slot b = Some b.
Definition anc_of (o : option fd_tower_blk_t) (t : Z) : Prop :=
  match o with None => False | Some b => ancestor m (blk_slot b) t end.
Definition up_of (o : option fd_tower_blk_t) (t : Z) : Prop :=
  match o with None => False | Some b => up m (blk_slot b) t end.

Lemma in_map_lookup s : in_map (m !! s).
Proof. intros b Hb. by rewrite (bwf_key _ Hwf _ _ Hb). Qed.

Lemma anc_of_lookup s t : anc_of (m !! s) t <-> ancestor m s t.
Proof.
  destruct (m !! s) as [b|] eqn:E; simpl; [by rewrite (bwf_key _ Hwf _ _ E)|].
  split; [done|]. destruct 1; congruence.
Qed.

Lemma up_of_lookup s t : up_of (m !! s) t <-> up m s t.
Proof.
  destruct (m !! s) as [b|] eqn:E; simpl; [by rewrite (bwf_key _ Hwf _ _ E)|].
  split; [done|]. destruct 1; congruence.
Qed.

Lemma is_ancestor_spec s t :
  exists r, is_ancestor m s t = Ok r /\ (r = true <-> ancestor m s t).
Proof.
  apply (loop_total _
    (fun o => in_map o /\ (anc_of o t <-> ancestor m s t)) rank
    (fun r => r = true <-> ancestor m s t)).
  - intros o [Hin Heq]. destruct o as [b|]; simpl in *.
    2:{ right. exists false. split; [done|]. split; [done|tauto]. }
    specialize (Hin b eq_refl).
    destruct (Z.eqb_spec (parent_slot b) t) as [E|E].
    { right. exists true. split; [done|]. split; [|done]. intros _. apply Heq.
      rewrite <- E. by apply anc_parent. }
    left. eexists. split; [done|].
    assert (Hiff : ancestor m (blk_slot b) t <-> ancestor m (parent_slot b) t).
    { split; [|by apply anc_step]. intros Ha.
      destruct (ancestor_inv _ b _ Hin Ha); [congruence|done]. }
    destruct (Z.eqb_spec (parent_slot b) ULONG_MAX) as [Em|Em].
    + split; [|simpl; lia]. split; [done|]. simpl. rewrite <- Heq, Hiff.
      split; [done|]. by apply (ancestor_max _ _ _ Hin).
    + split; [|by eapply rank_parent].
      split; [apply in_map_lookup|]. by rewrite anc_of_lookup, <- Hiff.
  - split; [apply in_map_lookup|apply anc_of_lookup].
  - pose proof (rank_bound (m !! s)). lia.
Qed.

Lemma lca_spec s1 s2 :
  is_Some (m !! s1) -> is_Some (m !! s2) ->
  exists r, fd_tower_blocks_lowest_common_ancestor m s1 s2 = Ok r /\
    ((r <> ULONG_MAX /\ up m s1 r /\ up m s2 r /\
      forall t, up m s1 t -> up m s2 t -> t <= r) \/
     (r = ULONG_MAX /\ forall t, ~ (up m s1 t /\ up m s2 t))).
Proof.
  intros [b1 H1] [b2 H2]. unfold fd_tower_blocks_lowest_common_ancestor.
  rewrite H1, H2.
  apply (loop_total _
    (fun o => in_map o.1 /\ in_map o.2 /\
       forall t, (up m s1 t /\ up m s2 t) <-> (up_of o.1 t /\ up_of o.2 t))
    (fun o => rank o.1 + rank o.2)%nat).
  - intros [o1 o2] (Hi1 & Hi2 & Heq). simpl in *.
    destruct o1 as [f1|]; [|right; eexists; split; [done|right; split; [done|]];
      intros t Ht; apply Heq in Ht; simpl in Ht; tauto].
    destruct o2 as [f2|]; [|right; eexists; split; [done|right; split; [done|]];
      intros t Ht; apply Heq in Ht; simpl in Ht; tauto].
    specialize (Hi1 f1 eq_refl) as Hf1. specialize (Hi2 f2 eq_refl) as Hf2. simpl in *.
    destruct (Z.eqb_spec (blk_slot f1) (blk_slot f2)) as [E|E].
    + right. eexists. split; [done|]. left.
      split; [apply (bwf_range _ Hwf) in Hf1; lia|].
      assert (up m s1 (blk_slot f1) /\ up m s2 (blk_slot f1)) as [? ?].
      { apply Heq. rewrite <- E. split; by eapply up_refl. }
      split; [done|]. split; [done|]. intros t Ht1 Ht2.
      destruct (proj1 (Heq t) (conj Ht1 Ht2)) as [Hu _]. by apply up_le.
    + destruct (Z.ltb_spec (blk_slot f2) (blk_slot f1)) as [L|L].
      * left. eexists. split; [done|]. cbn [fst snd].
        split; [|pose proof (rank_parent _ _ Hf1); simpl in *; lia].
        split; [apply in_map_lookup|]. split; [done|]. intros t.
        rewrite Heq, up_of_lookup. split; intros [Hu Hv]; (split; [|done]).
        -- destruct (up_inv _ f1 _ Hf1 Hu) as [->|]; [|done].
           apply up_le in Hv. lia.
        -- by eapply up_step.
      * left. eexists. split; [done|]. cbn [fst snd].
        split; [|pose proof (rank_parent _ _ Hf2); simpl in *; lia].
        split; [done|]. split; [apply in_map_lookup|]. intros t.
        rewrite Heq, up_of_lookup. split; intros [Hu Hv]; (split; [done|]).
        -- destruct (up_inv _ f2 _ Hf2 Hv) as [->|]; [|done].
           apply up_le in Hu. lia.
        -- by eapply up_step.
  - simpl. split; [intros b [= <-]; by rewrite (bwf_key _ Hwf _ _ H1)|].
    split; [intros b [= <-]; by rewrite (bwf_key _ Hwf _ _ H2)|].
    intros t. by rewrite (bwf_key _ Hwf _ _ H1), (bwf_key _ Hwf _ _ H2).
  - pose proof (rank_bound (Some b1)). pose proof (rank_bound (Some b2)).
    cbn [fst snd]. lia.
Qed.

Lemma ancestor_up s t : is_Some (m !! t) -> ancestor m s t <-> up m s t /\ t <> s.
Proof.
  intros Ht. split.
  - induction 1 as [s b Hs|s b t Hs Ha IH].
    + pose proof (parent_lt _ _ Hs Ht). destruct Ht as [bt Ht].
      split; [|lia]. eapply up_step; [done|]. by eapply up_refl.
    + destruct (IH Ht) as [Hu _]. split; [by eapply up_step|].
      assert (is_Some (m !! parent_slot b)) by (destruct Hu; eauto).
      pose proof (parent_lt _ _ Hs ltac:(done)). apply up_le in Hu. lia.
  - intros [Hu Hne]. induction Hu as [s b Hs|s b t Hs Hu IH]; [done|].
    destruct (decide (t = parent_slot b)) as [->|Hd]; [by apply anc_parent|].
    eapply anc_step; [done|]. by apply IH.
Qed.
End forks.

Lemma blocks_insert_wf blk_max m slot parent m' blk :
  blocks_wf m -> 0 <= slot < ULONG_MAX -> parent < slot \/ parent = ULONG_MAX ->
  fd_tower_blocks_insert blk_max m slot parent = Ok (m', blk) -> blocks_wf m'.
Proof.
  intros [Hk Hr Hp] Hs Hpar E. unfold fd_tower_blocks_insert in E. res_inv.
  destruct (m !! slot) eqn:Em; [done|]. simplify_eq.
  split; intros s b [[<- <-]|[Hne Hb]]%lookup_insert_Some; simpl; eauto.
Qed.

Lemma blocks_remove_wf m slot : blocks_wf m -> blocks_wf (fd_tower_blocks_remove m slot).
Proof.
  intros [Hk Hr Hp]. unfold fd_tower_blocks_remove. destruct (m !! slot) eqn:Em; [|done].
  split; intros s b [_ Hb]%lookup_delete_Some; eauto.
Qed.

(** ** Properties *)

(** On a map of blocks whose parents are older, the ancestor query
    always terminates, both entry points agree, and the answer is 1 exactly
    when the slot is reached by following parent slots through known blocks. *)
Theorem is_slot_ancestor_correct (m : blk_map) (descendant_slot ancestor_slot : Z) :
  blocks_wf m ->
  exists r,
    fd_tower_blocks_is_slot_ancestor m descendant_slot ancestor_slot = Ok r /\
    fd_tower_blocks_is_slot_descendant m ancestor_slot descendant_slot = Ok r /\
    (r = true <-> ancestor m descendant_slot ancestor_slot).
Proof.
  intros Hwf. destruct (is_ancestor_spec m Hwf descendant_slot ancestor_slot) as (r & E & Hr).
  exists r. by repeat split; try apply E; try apply Hr.
Qed.

(** A small fork tree: 1 - 2 - {3 - 4, 5}. *)
Definition fork_example : blk_map :=
  let b s p := mk_blk s p 0 0 0 true 0 false 0 false 0 false false ULONG_MAX in
  list_to_map [(1, b 1 ULONG_MAX); (2, b 2 1); (3, b 3 2); (4, b 4 3); (5, b 5 2)].

Lemma fork_example_wf : blocks_wf fork_example.
Proof.
  assert (H : map_Forall (fun s b => blk_slot b = s /\ 0 <= s < ULONG_MAX /\
                (parent_slot b < s \/ parent_slot b = ULONG_MAX)) fork_example).
  { unfold fork_example. simpl list_to_map. unfold ULONG_MAX.
    repeat (apply map_Forall_insert_2; [simpl; lia|]). apply map_Forall_empty. }
  split; intros s b Hb; by apply H in Hb as (? & ? & ?).
Qed.

Lemma is_slot_ancestor_correct_witness :
  is_ancestor fork_example 4 2 = Ok true /\
  exists r, fd_tower_blocks_is_slot_ancestor fork_example 4 2 = Ok r /\
            (r = true <-> ancestor fork_example 4 2).
Proof.
  split; [vm_compute; reflexivity|].
  destruct (is_slot_ancestor_correct fork_example 4 2 fork_example_wf) as (r & E & _ & Hr).
  exists r. split; [exact E|exact Hr].
Defined.

(** For two known slots the lowest common ancestor is computed: the
    result is the greatest slot that is an ancestor of (or equal to) both, and
    ULONG_MAX when the two forks have no known block in common. *)
Theorem lowest_common_ancestor_correct (m : blk_map) (slot1 slot2 : Z) :
  blocks_wf m -> is_Some (m !! slot1) -> is_Some (m !! slot2) ->
  exists r, fd_tower_blocks_lowest_common_ancestor m slot1 slot2 = Ok r /\
    ((r <> ULONG_MAX /\ up m slot1 r /\ up m slot2 r /\
      forall t, up m slot1 t -> up m slot2 t -> t <= r) \/
     (r = ULONG_MAX /\ forall t, ~ (up m slot1 t /\ up m slot2 t))).
Proof. intros Hwf. by apply lca_spec. Qed.

Lemma lowest_common_ancestor_correct_witness :
  fd_tower_blocks_lowest_common_ancestor fork_example 4 5 = Ok 2 /\
  exists r, fd_tower_blocks_lowest_common_ancestor fork_example 4 5 = Ok r.
Proof.
  split; [vm_compute; reflexivity|].
  destruct (lowest_common_ancestor_correct fork_example 4 5 fork_example_wf)
    as (r & E & _); [vm_compute; eauto|vm_compute; eauto|].
  exists r. exact E.
Defined.
