(* ===== verification/Ghost.v ===== *)
(** * LMD-GHOST fork choice ([src/choreo/ghost/fd_ghost.c])

    State.  Blocks live in a pool and are named by their pool index; [null]
    (ULONG_MAX) is the NULL pointer.  [blk_pool] holds the acquired elements,
    [blk_free] the stack of free indices ([fd_pool.c] acquires and releases at
    its top), [blk_map] the map from block ids to indices.  Voters are named by
    their vote account address: [vtr_map] holds the acquired [fd_ghost_vtr_t],
    [vtr_free] counts the free elements of [vtr_pool], and [vtr_dlist] the list
    of voters parked on a block.  Reading an element that is not acquired is
    [Ub].

    The traversals that reuse the [next] field of blocks taken out of the map
    as an intrusive queue keep that queue as the list of its indices; the
    removals from and insertions into the map are modelled. *)

From S2P Require Import Prelude.

#[local] Open Scope Z_scope.

Definition null : Z := ULONG_MAX.

Record fd_ghost_blk_t := mk_gblk {
  id : fd_hash_t;
  slot : Z;
  parent : Z;
  child : Z;
  sibling : Z;
  stake : Z;
  total_stake : Z;
  valid : bool;
  bank_seq : Z;
}.

Record fd_ghost_vtr_t := mk_vtr {
  prev_stake : Z;
  prev_slot : Z;
  prev_block_id : fd_hash_t;
}.

Abbreviation blks := (gmap Z fd_ghost_blk_t).

Record fd_ghost_t := mk_ghost {
  root : Z;
  width : Z;
  blk_pool : blks;
  blk_free : list Z;
  blk_map : gmap fd_hash_t Z;
  vtr_map : gmap fd_pubkey_t fd_ghost_vtr_t;
  vtr_free : Z;
  vtr_dlist : gmap Z (list fd_pubkey_t);
}.

(** Field updates. *)

Definition set_parent (b : fd_ghost_blk_t) (x : Z) : fd_ghost_blk_t :=
  mk_gblk (id b) (slot b) x (child b) (sibling b) (stake b) (total_stake b) (valid b) (bank_seq b).
Definition set_child (b : fd_ghost_blk_t) (x : Z) : fd_ghost_blk_t :=
  mk_gblk (id b) (slot b) (parent b) x (sibling b) (stake b) (total_stake b) (valid b) (bank_seq b).
Definition set_sibling (b : fd_ghost_blk_t) (x : Z) : fd_ghost_blk_t :=
  mk_gblk (id b) (slot b) (parent b) (child b) x (stake b) (total_stake b) (valid b) (bank_seq b).
Definition set_stake (b : fd_ghost_blk_t) (x : Z) : fd_ghost_blk_t :=
  mk_gblk (id b) (slot b) (parent b) (child b) (sibling b) x (total_stake b) (valid b) (bank_seq b).
Definition set_valid (b : fd_ghost_blk_t) (x : bool) : fd_ghost_blk_t :=
  mk_gblk (id b) (slot b) (parent b) (child b) (sibling b) (stake b) (total_stake b) x (bank_seq b).

Definition with_root (g : fd_ghost_t) (x : Z) : fd_ghost_t :=
  mk_ghost x (width g) (blk_pool g) (blk_free g) (blk_map g) (vtr_map g) (vtr_free g) (vtr_dlist g).
Definition with_width (g : fd_ghost_t) (x : Z) : fd_ghost_t :=
  mk_ghost (root g) x (blk_pool g) (blk_free g) (blk_map g) (vtr_map g) (vtr_free g) (vtr_dlist g).
Definition with_pool (g : fd_ghost_t) (x : blks) : fd_ghost_t :=
  mk_ghost (root g) (width g) x (blk_free g) (blk_map g) (vtr_map g) (vtr_free g) (vtr_dlist g).
Definition with_free (g : fd_ghost_t) (x : list Z) : fd_ghost_t :=
  mk_ghost (root g) (width g) (blk_pool g) x (blk_map g) (vtr_map g) (vtr_free g) (vtr_dlist g).
Definition with_map (g : fd_ghost_t) (x : gmap fd_hash_t Z) : fd_ghost_t :=
  mk_ghost (root g) (width g) (blk_pool g) (blk_free g) x (vtr_map g) (vtr_free g) (vtr_dlist g).
Definition with_vtrs (g : fd_ghost_t) (m : gmap fd_pubkey_t fd_ghost_vtr_t) (free : Z)
    (dl : gmap Z (list fd_pubkey_t)) : fd_ghost_t :=
  mk_ghost (root g) (width g) (blk_pool g) (blk_free g) (blk_map g) m free dl.

(** ** Construction ([fd_ghost_new])

    [pow2_up_blk] and [pow2_up_vtr] are the capacities already rounded up to a
    power of two; the voter pool is twice as large. *)
Definition fd_ghost_new (pow2_up_blk pow2_up_vtr : nat) : fd_ghost_t :=
  mk_ghost null 0 ∅ (Z.of_nat <$> seq 0 pow2_up_blk) ∅ ∅ (2 * Z.of_nat pow2_up_vtr) ∅.

(** ** Accessors *)

(** Pointer dereference of a block index. *)
Definition blk_at (p : blks) (i : Z) : res fd_ghost_blk_t := deref (p !! i).

Definition fd_ghost_root (g : fd_ghost_t) : Z := root g.

Definition fd_ghost_parent (g : fd_ghost_t) (i : Z) : res Z :=
  b ← blk_at (blk_pool g) i; Ok (parent b).

Definition fd_ghost_query (g : fd_ghost_t) (block_id : fd_hash_t) : option Z :=
  blk_map g !! block_id.

Definition fd_ghost_width (g : fd_ghost_t) : Z := width g.

Definition fd_ghost_blk_map_remove (g : fd_ghost_t) (i : Z) : res fd_ghost_t :=
  b ← blk_at (blk_pool g) i; Ok (with_map g (delete (id b) (blk_map g))).
Definition fd_ghost_blk_map_insert (g : fd_ghost_t) (i : Z) : res fd_ghost_t :=
  b ← blk_at (blk_pool g) i; Ok (with_map g (<[id b := i]> (blk_map g))).
Definition fd_ghost_blk_child (g : fd_ghost_t) (i : Z) : res Z :=
  b ← blk_at (blk_pool g) i; Ok (child b).
Definition fd_ghost_blk_sibling (g : fd_ghost_t) (i : Z) : res Z :=
  b ← blk_at (blk_pool g) i; Ok (sibling b).

(** Every traversal visits an acquired block at most once. *)
Definition fuel (g : fd_ghost_t) : nat := S (size (blk_pool g)).

(** ** Fork choice *)

(** The loop over the children: [child], [best] and [valid]. *)
Definition best_child_step (p : blks) (s : Z * Z * bool) : res (Z * Z * bool + Z * bool) :=
  let '(c, best, found) := s in
  if c =? null then Ok (inr (best, found))
  else
    cb ← blk_at p c;
    if valid cb then
      let best1 := if found then best else c in
      bb ← blk_at p best1;
      let better :=
        if stake cb =? stake bb then slot cb <? slot bb else stake bb <? stake cb in
      Ok (inl (sibling cb, if better then c else best1, true))
    else Ok (inl (sibling cb, best, found)).

Definition best_step (g : fd_ghost_t) (best : Z) : res (Z + Z) :=
  b ← blk_at (blk_pool g) best;
  if child b =? null then Ok (inr best)
  else
    '(best', found) ← loop (best_child_step (blk_pool g)) (fuel g) (child b, best, false);
    if (found : bool) then Ok (inl best') else Ok (inr best').

Definition fd_ghost_best (g : fd_ghost_t) (root : Z) : res Z :=
  loop (best_step g) (fuel g) root.

(** [fd_ghost_deepest]: the children of the queue head are taken out of the
    map and appended to the queue, [tail] being its last element. *)
Definition deepest_children_step (p : blks) (s : Z * gmap fd_hash_t Z * list Z)
    : res (Z * gmap fd_hash_t Z * list Z + gmap fd_hash_t Z * list Z) :=
  let '(c, m, queue) := s in
  if c =? null then Ok (inr (m, queue))
  else
    cb ← blk_at p c;
    _ ← FD_TEST (bool_decide (is_Some (m !! id cb)));
    Ok (inl (sibling cb, delete (id cb) m, queue ++ [c])).

Definition deepest_step (p : blks) (n : nat) (s : gmap fd_hash_t Z * list Z * Z)
    : res (gmap fd_hash_t Z * list Z * Z + gmap fd_hash_t Z * Z) :=
  let '(m, queue, prev) := s in
  match queue with
  | [] => Ok (inr (m, prev))
  | head :: queue' =>
      hb ← blk_at p head;
      '(m1, queue1) ← loop (deepest_children_step p) n (child hb, m, queue');
      Ok (inl (<[id hb := head]> m1, queue1, head))
  end.

Definition fd_ghost_deepest (g : fd_ghost_t) (root : Z) : res (Z * fd_ghost_t) :=
  rb ← blk_at (blk_pool g) root;
  head ← deref (blk_map g !! id rb);
  '(m, prev) ← loop (deepest_step (blk_pool g) (fuel g)) (fuel g)
                 (delete (id rb) (blk_map g), [head], null);
  Ok (prev, with_map g m).

(** [PREDICATE_ANCESTOR]: walk up from [descendant], NULL if none satisfies. *)
Definition predicate_ancestor_step (p : blks) (pred : fd_ghost_blk_t -> bool) (ancestor : Z)
    : res (Z + Z) :=
  if ancestor =? null then Ok (inr null)
  else
    b ← blk_at p ancestor;
    if pred b then Ok (inr ancestor) else Ok (inl (parent b)).

Definition predicate_ancestor (g : fd_ghost_t) (descendant : Z)
    (pred : fd_ghost_blk_t -> bool) : res Z :=
  loop (predicate_ancestor_step (blk_pool g) pred) (S (fuel g)) descendant.

Definition fd_ghost_ancestor (g : fd_ghost_t) (descendant : Z) (ancestor_id : fd_hash_t)
    : res Z :=
  predicate_ancestor g descendant (fun b => id b =? ancestor_id).

Definition fd_ghost_slot_ancestor (g : fd_ghost_t) (descendant slot_ : Z) : res Z :=
  predicate_ancestor g descendant (fun b => slot b =? slot_).

Definition fd_ghost_invalid_ancestor (g : fd_ghost_t) (descendant : Z) : res Z :=
  predicate_ancestor g descendant (fun b => negb (valid b)).

(** ** Insertion *)

(** [insert]: the static helper; acquires and initialises an element. *)
Definition insert_ (g : fd_ghost_t) (bank_seq slot : Z) (block_id : fd_hash_t)
    : res (fd_ghost_t * Z) :=
  _ ← FD_TEST (bool_decide (blk_map g !! block_id = None));
  match blk_free g with
  | [] => Crit
  | i :: free' =>
      let blk := mk_gblk block_id slot null null null 0 0 true bank_seq in
      Ok (with_map (with_free (with_pool g (<[i := blk]> (blk_pool g))) free')
            (<[block_id := i]> (blk_map g)), i)
  end.

Definition fd_ghost_init (g : fd_ghost_t) (bank_seq slot : Z) (block_id : fd_hash_t)
    : res (fd_ghost_t * Z) :=
  '(g1, i) ← insert_ g bank_seq slot block_id;
  Ok (with_width (with_root g1 i) 1, i).

(** The walk to the last sibling. *)
Definition last_sibling_step (p : blks) (s : Z) : res (Z + Z) :=
  b ← blk_at p s;
  if sibling b =? null then Ok (inr s) else Ok (inl (sibling b)).

Definition fd_ghost_insert (g : fd_ghost_t) (bank_seq slot : Z)
    (block_id parent_block_id : fd_hash_t) : res (fd_ghost_t * Z) :=
  '(g1, i) ← insert_ g bank_seq slot block_id;
  match blk_map g1 !! parent_block_id with
  | None => Crit
  | Some par =>
      blk ← blk_at (blk_pool g1) i;
      let p1 := <[i := set_parent blk par]> (blk_pool g1) in
      parb ← blk_at p1 par;
      if child parb =? null then
        Ok (with_pool g1 (<[par := set_child parb i]> p1), i)
      else
        last ← loop (last_sibling_step p1) (fuel g1) (child parb);
        lastb ← blk_at p1 last;
        Ok (with_width (with_pool g1 (<[last := set_sibling lastb i]> p1))
              (u64 (width g1 + 1)), i)
  end.

(** ** Votes *)

Definition FD_GHOST_SUCCESS : Z := 0.
Definition FD_GHOST_ERR_NOT_VOTED : Z := -1.
Definition FD_GHOST_ERR_VOTE_TOO_OLD : Z := -2.
Definition FD_GHOST_ERR_ALREADY_VOTED : Z := -3.

(** Subtract or add a voter's stake on the way up to the root; a borrow or a
    carry is [FD_LOG_CRIT]. *)
Definition sub_stake_step (s : Z) (st : blks * Z) : res (blks * Z + blks) :=
  let '(p, ancestor) := st in
  if ancestor =? null then Ok (inr p)
  else
    b ← blk_at p ancestor;
    if stake b <? s then Crit
    else Ok (inl (<[ancestor := set_stake b (stake b - s)]> p, parent b)).

Definition add_stake_step (s : Z) (st : blks * Z) : res (blks * Z + blks) :=
  let '(p, ancestor) := st in
  if ancestor =? null then Ok (inr p)
  else
    b ← blk_at p ancestor;
    if ULONG_MAX <? stake b + s then Crit
    else Ok (inl (<[ancestor := set_stake b (stake b + s)]> p, parent b)).

Definition dlist (g : fd_ghost_t) (i : Z) : list fd_pubkey_t :=
  default [] (vtr_dlist g !! i).

(** The end of [fd_ghost_count_vote], common to first and later votes: park
    the voter on the block, add the stake, record the vote. *)
Definition count_vote_add (g : fd_ghost_t) (blk : Z) (vote_acc : fd_pubkey_t)
    (stake_ slot_ : Z) : res (Z * fd_ghost_t) :=
  let dl := <[blk := dlist g blk ++ [vote_acc]]> (vtr_dlist g) in
  p ← loop (add_stake_step stake_) (S (fuel g)) (blk_pool g, blk);
  b ← blk_at p blk;
  Ok (FD_GHOST_SUCCESS,
      with_vtrs (with_pool g p)
        (<[vote_acc := mk_vtr stake_ slot_ (id b)]> (vtr_map g)) (vtr_free g) dl).

Definition fd_ghost_count_vote (g : fd_ghost_t) (blk : Z) (vote_acc : fd_pubkey_t)
    (stake_ slot_ : Z) : res (Z * fd_ghost_t) :=
  let vtr := vtr_map g !! vote_acc in
  if slot_ =? ULONG_MAX then Ok (FD_GHOST_ERR_NOT_VOTED, g)
  else
    rootb ← blk_at (blk_pool g) (root g);
    if slot_ <? slot rootb then Ok (FD_GHOST_ERR_VOTE_TOO_OLD, g)
    else
      match vtr with
      | None =>
          (* acquiring from an exhausted pool is not checked *)
          if vtr_free g <=? 0 then Ub
          else count_vote_add (with_vtrs g (vtr_map g) (vtr_free g - 1) (vtr_dlist g))
                 blk vote_acc stake_ slot_
      | Some v =>
          if negb (prev_slot v <? slot_) then Ok (FD_GHOST_ERR_ALREADY_VOTED, g)
          else
            match blk_map g !! prev_block_id v with
            | None => count_vote_add g blk vote_acc stake_ slot_
            | Some prev =>
                let dl := <[prev := filter (fun a => a <> vote_acc) (dlist g prev)]>
                            (vtr_dlist g) in
                p ← loop (sub_stake_step (prev_stake v)) (S (fuel g)) (blk_pool g, prev);
                count_vote_add (with_vtrs (with_pool g p) (vtr_map g) (vtr_free g) dl)
                  blk vote_acc stake_ slot_
            end
      end.

(** ** Publishing a new root *)

(** The children of the head of the prune queue: all but the new root are
    taken out of the map and queued; every sibling is one fork less. *)
Definition publish_children_step (p : blks) (newr : Z)
    (s : Z * gmap fd_hash_t Z * list Z * Z)
    : res (Z * gmap fd_hash_t Z * list Z * Z + gmap fd_hash_t Z * list Z * Z) :=
  let '(c, m, queue, w) := s in
  if c =? null then Ok (inr (m, queue, w))
  else
    cb ← blk_at p c;
    '(m', queue') ←
       (if c =? newr then Ok (m, queue)
        else i ← deref (m !! id cb); Ok (delete (id cb) m, queue ++ [i]));
    Ok (inl (sibling cb, m', queue', if sibling cb =? null then w else u64 (w - 1))).

(** Release every voter parked on a pruned block. *)
Definition release_vtrs (g : fd_ghost_t) (i : Z) : fd_ghost_t :=
  with_vtrs g (foldr delete (vtr_map g) (dlist g i))
    (vtr_free g + Z.of_nat (length (dlist g i))) (<[i := []]> (vtr_dlist g)).

Definition publish_step (newr : Z) (s : fd_ghost_t * list Z)
    : res (fd_ghost_t * list Z + fd_ghost_t) :=
  let '(g, queue) := s in
  match queue with
  | [] => Ok (inr g)
  | head :: queue' =>
      hb ← blk_at (blk_pool g) head;
      '(m, queue1, w) ← loop (publish_children_step (blk_pool g) newr) (fuel g)
                          (child hb, blk_map g, queue', width g);
      let g1 := release_vtrs (with_width (with_map g m) w) head in
      Ok (inl (with_free (with_pool g1 (delete head (blk_pool g1))) (head :: blk_free g1),
               queue1))
  end.

Definition fd_ghost_publish (g : fd_ghost_t) (newr : Z) : res fd_ghost_t :=
  let oldr := root g in
  if oldr =? newr then Ok g
  else
    oldb ← blk_at (blk_pool g) oldr;
    head ← deref (blk_map g !! id oldb);
    g1 ← loop (publish_step newr) (fuel g)
           (with_map g (delete (id oldb) (blk_map g)), [head]);
    newb ← blk_at (blk_pool g1) newr;
    Ok (with_root (with_pool g1 (<[newr := set_parent newb null]> (blk_pool g1))) newr).

(** ** Validity *)

(** [mark_invalid]: the iterative pre-order traversal.  [Visit] is the top of
    the [for(;;)] loop, [Back] the backtracking [while]. *)
Inductive mark_phase : Type := Visit | Back.

Definition mark_invalid_step (root_ : Z) (s : blks * mark_phase * Z)
    : res (blks * mark_phase * Z + blks) :=
  let '(p, phase, curr) := s in
  match phase with
  | Visit =>
      b ← blk_at p curr;
      let p' := <[curr := set_valid b false]> p in
      if child b =? null then Ok (inl (p', Back, curr))
      else Ok (inl (p', Visit, child b))
  | Back =>
      if curr =? root_ then Ok (inr p)
      else
        b ← blk_at p curr;
        if sibling b =? null then Ok (inl (p, Back, parent b))
        else if sibling b =? root_ then Ok (inr p)
        else Ok (inl (p, Visit, sibling b))
  end.

Definition mark_invalid (g : fd_ghost_t) (root_ : Z) : res fd_ghost_t :=
  p ← loop (mark_invalid_step root_) (2 * fuel g)%nat (blk_pool g, Visit, root_);
  Ok (with_pool g p).

Definition confirm_ancestor_step (s : blks * Z) : res (blks * Z + blks) :=
  let '(p, anc) := s in
  if anc =? null then Ok (inr p)
  else
    b ← blk_at p anc;
    if valid b then Ok (inr p)
    else Ok (inl (<[anc := set_valid b true]> p, parent b)).

Definition fd_ghost_confirm (g : fd_ghost_t) (confirmed_block_id : fd_hash_t)
    : res fd_ghost_t :=
  match blk_map g !! confirmed_block_id with
  | None => Ok g
  | Some blk =>
      p ← loop confirm_ancestor_step (S (fuel g)) (blk_pool g, blk);
      Ok (with_pool g p)
  end.

Definition fd_ghost_eqvoc (g : fd_ghost_t) (block_id : fd_hash_t) : res fd_ghost_t :=
  match blk_map g !! block_id with
  | None => Ok g
  | Some blk => mark_invalid g blk
  end.

(** ** Example *)

(** The tree 1 - 2 - {3 - 4, 5}, ids equal to slots plus 100, no votes. *)
Definition example_tree : res fd_ghost_t :=
  '(g, _) ← fd_ghost_init (fd_ghost_new 8 4) 0 1 101;
  '(g, _) ← fd_ghost_insert g 0 2 102 101;
  '(g, _) ← fd_ghost_insert g 0 3 103 102;
  '(g, _) ← fd_ghost_insert g 0 4 104 103;
  '(g, _) ← fd_ghost_insert g 0 5 105 102;
  Ok g.

Definition example_votes : res fd_ghost_t :=
  g ← example_tree;
  '(_, g) ← fd_ghost_count_vote g 3 1000 10 4;
  '(_, g) ← fd_ghost_count_vote g 4 1001 15 5;
  Ok g.

Example example_best : (g ← example_votes; fd_ghost_best g (root g)) = Ok 4.
Proof. vm_compute. reflexivity. Qed.
Example example_switch :
  (g ← example_votes; '(_, g) ← fd_ghost_count_vote g 3 1001 15 6; fd_ghost_best g (root g)) = Ok 3.
Proof. vm_compute. reflexivity. Qed.
Example example_eqvoc :
  (g ← example_votes; g ← fd_ghost_eqvoc g 105; fd_ghost_best g (root g)) = Ok 3.
Proof. vm_compute. reflexivity. Qed.
Example example_publish :
  (g ← example_votes; g ← fd_ghost_publish g 2;
   Ok (root g, width g, elements (dom (blk_pool g) : gset Z), map_to_list (blk_map g))) =
  Ok (2, 1, [3; 2], [(103, 2); (104, 3)]).
Proof. vm_compute. reflexivity. Qed.
