(* ===== verification/GhostInv.v ===== *)
(** * Invariants of the fork-choice tree ([src/choreo/ghost/fd_ghost.c])

    [tree_wf] says that the left-child / right-sibling pointers of the pool
    form one tree under the root, [map_wf] that the id map is exact, [votes_wf]
    that every known voter is parked on the block it voted for, and
    [stake_inv] the LMD rule: the stake of a block is the sum of the stakes of
    the voters whose latest vote is for the block or one of its descendants.

    The lemmas show which operations preserve what; the properties about
    voting are at the end. *)

From S2P Require Import Prelude Ghost.

#[local] Open Scope Z_scope.

(** ** Paths to the root and lists of children *)

Inductive path (p : blks) : Z -> list Z -> Prop :=
| path_null : path p null []
| path_cons i b l :
    i <> null -> p !! i = Some b -> path p (parent b) l -> path p i (i :: l).

Inductive sibs (p : blks) : Z -> list Z -> Prop :=
| sibs_null : sibs p null []
| sibs_cons c b l :
    c <> null -> p !! c = Some b -> sibs p (sibling b) l -> sibs p c (c :: l).

Record tree_wf (p : blks) (r : Z) : Prop := mk_tree_wf {
  tw_null : p !! null = None;
  tw_root : exists b, p !! r = Some b /\ parent b = null;
  tw_parent : forall i b, p !! i = Some b -> i <> r -> is_Some (p !! parent b);
  tw_path : forall i, is_Some (p !! i) -> exists l, path p i l;
  tw_children : forall i b, p !! i = Some b ->
    exists l, sibs p (child b) l /\
      forall j, j ∈ l <-> exists bj, p !! j = Some bj /\ parent bj = i;
}.

(** The pointers of a block; stakes and validity are not among them. *)
Definition shape (b : fd_ghost_blk_t) := (id b, slot b, parent b, child b, sibling b).

Definition same_shape (p q : blks) : Prop :=
  forall i, shape <$> p !! i = shape <$> q !! i.

#[export] Instance same_shape_equiv : Equivalence same_shape.
Proof.
  split.
  - by intros p i.
  - intros p q H i. symmetry. apply H.
  - intros p q r H1 H2 i. etrans; [apply H1|apply H2].
Qed.

Lemma same_shape_lookup p q i b :
  same_shape p q -> p !! i = Some b -> exists b', q !! i = Some b' /\ shape b' = shape b.
Proof.
  intros H Hb. specialize (H i). rewrite Hb in H. simpl in H.
  destruct (q !! i) as [b'|]; [|done]. exists b'. split; [done|]. simpl in H. congruence.
Qed.

Lemma same_shape_insert p i b b' :
  p !! i = Some b -> shape b' = shape b -> same_shape p (<[i := b']> p).
Proof.
  intros Hb Hs j. destruct (decide (i = j)) as [<-|Hne].
  - rewrite lookup_insert_eq, Hb. simpl. congruence.
  - by rewrite lookup_insert_ne.
Qed.

Lemma path_same_shape p q i l : same_shape p q -> path p i l -> path q i l.
Proof.
  intros Hpq. induction 1 as [|i b l Hi Hb _ IH]; [constructor|].
  destruct (same_shape_lookup _ _ _ _ Hpq Hb) as (b' & Hb' & Hs).
  eapply path_cons; [done|done|]. unfold shape in Hs. by replace (parent b') with (parent b) by congruence.
Qed.

Lemma sibs_same_shape p q i l : same_shape p q -> sibs p i l -> sibs q i l.
Proof.
  intros Hpq. induction 1 as [|i b l Hi Hb _ IH]; [constructor|].
  destruct (same_shape_lookup _ _ _ _ Hpq Hb) as (b' & Hb' & Hs).
  eapply sibs_cons; [done|done|]. unfold shape in Hs. by replace (sibling b') with (sibling b) by congruence.
Qed.

#[export] Instance path_proper : Proper (same_shape ==> eq ==> eq ==> iff) path.
Proof.
  intros p q Hpq i ? <- l ? <-. split; apply path_same_shape; [done|by symmetry].
Qed.

#[export] Instance sibs_proper : Proper (same_shape ==> eq ==> eq ==> iff) sibs.
Proof.
  intros p q Hpq i ? <- l ? <-. split; apply sibs_same_shape; [done|by symmetry].
Qed.

Lemma tree_wf_same_shape p q r : same_shape p q -> tree_wf p r -> tree_wf q r.
Proof.
  intros Hpq [Hn (b & Hb & Hpar) Hp Hpath Hch].
  assert (Hqp : same_shape q p) by by symmetry.
  split.
  - specialize (Hpq null). rewrite Hn in Hpq. by destruct (q !! null).
  - destruct (same_shape_lookup _ _ _ _ Hpq Hb) as (b' & Hb' & Hs). exists b'.
    split; [done|]. unfold shape in Hs. congruence.
  - intros i bi Hi Hne. destruct (same_shape_lookup _ _ _ _ Hqp Hi) as (b' & Hb' & Hs).
    destruct (Hp i b' Hb' Hne) as [bp Hbp].
    destruct (same_shape_lookup _ _ _ _ Hpq Hbp) as (bq & Hbq & _).
    unfold shape in Hs. exists bq. congruence.
  - intros i [bi Hi]. destruct (same_shape_lookup _ _ _ _ Hqp Hi) as (b' & Hb' & _).
    destruct (Hpath i) as [l Hl]; [eauto|]. exists l. by rewrite <- Hpq.
  - intros i bi Hi. destruct (same_shape_lookup _ _ _ _ Hqp Hi) as (b' & Hb' & Hs).
    destruct (Hch i b' Hb') as (l & Hl & Hin). exists l.
    unfold shape in Hs. replace (child bi) with (child b') by congruence.
    split; [by rewrite <- Hpq|]. intros j. rewrite Hin.
    split; intros (bj & Hj & Hpj).
    + destruct (same_shape_lookup _ _ _ _ Hpq Hj) as (bq & Hbq & Hsq).
      exists bq. split; [done|]. unfold shape in Hsq. congruence.
    + destruct (same_shape_lookup _ _ _ _ Hqp Hj) as (bq & Hbq & Hsq).
      exists bq. split; [done|]. unfold shape in Hsq. congruence.
Qed.

#[export] Instance tree_wf_proper : Proper (same_shape ==> eq ==> iff) tree_wf.
Proof.
  intros p q Hpq r ? <-. split; apply tree_wf_same_shape; [done|by symmetry].
Qed.

Lemma path_det p i l l' : path p i l -> path p i l' -> l = l'.
Proof.
  intros H. revert l'. induction H as [|i b l Hi Hb _ IH]; intros l' H'.
  - by inversion H'.
  - inversion H' as [|i' b' l'' _ Hb' Hp']; subst; [done|]. simplify_eq. f_equal. by apply IH.
Qed.

Lemma path_in p i l j : path p i l -> j ∈ l ->
  is_Some (p !! j) /\ exists l1 l2, l = l1 ++ l2 /\ path p j l2.
Proof.
  induction 1 as [|i b l Hi Hb Hl IH]; intros Hj; [by apply not_elem_of_nil in Hj|].
  apply elem_of_cons in Hj as [->|Hj].
  - split; [eauto|]. exists [], (i :: l). split; [done|]. by eapply path_cons.
  - destruct (IH Hj) as (Hs & l1 & l2 & -> & Hp). split; [done|]. by exists (i :: l1), l2.
Qed.

Lemma path_nodup p i l : path p i l -> NoDup l.
Proof.
  induction 1 as [|i b l Hi Hb Hl IH]; [constructor|]. apply NoDup_cons. split; [|done].
  intros Hin. destruct (path_in _ _ _ _ Hl Hin) as (_ & l1 & l2 & -> & Hp).
  assert (E : l2 = i :: (l1 ++ l2)) by (eapply path_det; [done|by eapply path_cons]).
  apply (f_equal length) in E. simpl in E. rewrite length_app in E. lia.
Qed.

(** A duplicate-free list of acquired blocks fits in the pool. *)
Lemma nodup_size (p : blks) l :
  NoDup l -> (forall j, j ∈ l -> is_Some (p !! j)) -> (length l <= size p)%nat.
Proof.
  intros Hnd Hin. rewrite <- (size_dom p), <- (size_list_to_set (C := gset Z)) by done.
  apply subseteq_size. intros j. rewrite elem_of_list_to_set, elem_of_dom. apply Hin.
Qed.

Lemma path_length p i l : path p i l -> (length l <= size p)%nat.
Proof.
  intros H. apply nodup_size; [by eapply path_nodup|].
  intros j Hj. by destruct (path_in _ _ _ _ H Hj).
Qed.

(** ** Ancestors and weights *)

Fixpoint walk (p : blks) (n : nat) (i : Z) : list Z :=
  match n with
  | O => []
  | S n' => match p !! i with None => [] | Some b => i :: walk p n' (parent b) end
  end.

(** The block and its ancestors, up to the root. *)
Definition anc (p : blks) (i : Z) : list Z := walk p (size p) i.

Lemma walk_path p n i l :
  p !! null = None -> path p i l -> (length l <= n)%nat -> walk p n i = l.
Proof.
  intros Hn H. revert n. induction H as [|i b l Hi Hb _ IH]; intros n Hl.
  - destruct n; simpl; [done|]. by rewrite Hn.
  - destruct n; simpl in *; [lia|]. rewrite Hb, IH by lia. done.
Qed.

Lemma anc_path p i l : p !! null = None -> path p i l -> anc p i = l.
Proof. intros Hn H. apply walk_path; [done..|by eapply path_length]. Qed.

Lemma walk_same_shape p q n i : same_shape p q -> walk p n i = walk q n i.
Proof.
  intros Hpq. revert i. induction n as [|n IH]; intros i; simpl; [done|].
  pose proof (Hpq i) as Hi. destruct (p !! i) as [b|], (q !! i) as [b'|]; try done.
  simpl in Hi. unfold shape in Hi. assert (parent b = parent b') as -> by congruence.
  by rewrite IH.
Qed.

Lemma size_same_shape p q : same_shape p q -> size p = size q.
Proof.
  intros Hpq. rewrite <- !size_dom. f_equal. apply set_eq. intros i.
  rewrite !elem_of_dom. pose proof (Hpq i) as Hi.
  destruct (p !! i), (q !! i); simpl in *; try done;
    (split; intros [? ?]; simplify_eq; eauto).
Qed.

Lemma anc_same_shape p q i : same_shape p q -> anc p i = anc q i.
Proof. intros H. unfold anc. rewrite (size_same_shape _ _ H). by apply walk_same_shape. Qed.

(** What a voter adds to the stake of block [i]. *)
Definition contrib (p : blks) (m : gmap fd_hash_t Z) (i : Z) (v : fd_ghost_vtr_t) : Z :=
  match m !! prev_block_id v with
  | Some j => if decide (i ∈ anc p j) then prev_stake v else 0
  | None => 0
  end.

Definition weight (g : fd_ghost_t) (i : Z) : Z :=
  sum_map (fun _ v => contrib (blk_pool g) (blk_map g) i v) (vtr_map g).

Definition total_weight (g : fd_ghost_t) : Z := sum_map (fun _ v => prev_stake v) (vtr_map g).

Definition stake_inv (g : fd_ghost_t) : Prop :=
  forall i b, blk_pool g !! i = Some b -> stake b = weight g i.

Definition map_wf (g : fd_ghost_t) : Prop :=
  forall h i, blk_map g !! h = Some i <-> exists b, blk_pool g !! i = Some b /\ id b = h.

Record votes_wf (g : fd_ghost_t) : Prop := mk_votes_wf {
  vw_parked : forall a v, vtr_map g !! a = Some v ->
    0 <= prev_stake v /\ exists i, blk_map g !! prev_block_id v = Some i /\ a ∈ dlist g i;
  vw_dlist : forall i a, a ∈ dlist g i ->
    exists v, vtr_map g !! a = Some v /\ blk_map g !! prev_block_id v = Some i;
  vw_nodup : forall i, NoDup (dlist g i);
}.

(** The number of leaves. *)
Definition leaves (p : blks) : Z := sum_map (fun _ b => if child b =? null then 1 else 0) p.

(** The free indices are not in use and the pool has fewer than [null]
    elements ([fd_pool.c] refuses more). *)
Record free_wf (g : fd_ghost_t) : Prop := mk_free_wf {
  fw_nodup : NoDup (blk_free g);
  fw_free : forall i, i ∈ blk_free g -> i <> null /\ blk_pool g !! i = None;
  fw_cap : Z.of_nat (size (blk_pool g) + length (blk_free g)) <= null;
}.

Record ghost_wf (g : fd_ghost_t) : Prop := mk_ghost_wf {
  gw_tree : tree_wf (blk_pool g) (root g);
  gw_free : free_wf g;
  gw_width : width g = leaves (blk_pool g);
  gw_map : map_wf g;
  gw_votes : votes_wf g;
  gw_stake : stake_inv g;
}.

Lemma leaves_same_shape p q : same_shape p q -> leaves p = leaves q.
Proof.
  unfold leaves. revert q. induction p as [|k b p Hk IH] using map_ind; intros q Hpq.
  - replace q with (∅ : blks); [done|]. symmetry. apply map_empty. intros i.
    specialize (Hpq i). rewrite lookup_empty in Hpq. by destruct (q !! i).
  - pose proof (Hpq k) as Hq. rewrite lookup_insert_eq in Hq.
    destruct (q !! k) as [b'|] eqn:Eq; [|done]. simpl in Hq.
    rewrite (sum_map_insert _ p k b), (sum_map_delete _ q k b') by done.
    rewrite (IH (delete k q)).
    + unfold shape in Hq. assert (child b = child b') as -> by congruence. done.
    + intros i. specialize (Hpq i). destruct (decide (i = k)) as [->|Hne].
      * by rewrite Hk, lookup_delete_eq.
      * rewrite lookup_insert_ne in Hpq by done. by rewrite lookup_delete_ne.
Qed.

Lemma leaves_le_size p : 0 <= leaves p <= Z.of_nat (size p).
Proof.
  unfold leaves. induction p as [|k b p Hk IH] using map_ind; [done|].
  rewrite sum_map_insert, map_size_insert_None by done. destruct (_ =? _); lia.
Qed.

Lemma free_wf_same_shape g p dl m vf :
  same_shape (blk_pool g) p -> free_wf g -> free_wf (with_vtrs (with_pool g p) m vf dl).
Proof.
  intros Hss [Hnd Hf Hc]. split; simpl; [done| |by rewrite <- (size_same_shape _ _ Hss)].
  intros i Hi. destruct (Hf i Hi) as [Hn Hnone]. split; [done|].
  specialize (Hss i). rewrite Hnone in Hss. by destruct (p !! i).
Qed.

(** ** Walking up and changing stakes *)

(** The pool after [f] was applied to the stake of the blocks of [l]. *)
Definition restaked (f : Z -> Z) (l : list Z) (p q : blks) : Prop :=
  forall i, q !! i =
    (fun b => if decide (i ∈ l) then set_stake b (f (stake b)) else b) <$> p !! i.

Lemma restaked_same_shape f l p q : restaked f l p q -> same_shape p q.
Proof.
  intros H i. rewrite (H i). destruct (p !! i) as [b|]; simpl; [|done].
  by destruct (decide (i ∈ l)).
Qed.

Lemma restaked_cons f i b l p q :
  p !! i = Some b -> i ∉ l ->
  restaked f l (<[i := set_stake b (f (stake b))]> p) q -> restaked f (i :: l) p q.
Proof.
  intros Hb Hni H j. rewrite (H j). destruct (decide (i = j)) as [<-|Hne].
  - rewrite lookup_insert_eq, Hb. simpl. rewrite decide_False by done.
    rewrite decide_True by set_solver. done.
  - rewrite lookup_insert_ne by done. destruct (p !! j) as [bj|]; simpl; [|done].
    destruct (decide (j ∈ l)), (decide (j ∈ i :: l)); set_solver.
Qed.

Section walks.
Context (f : Z -> Z) (ok : Z -> bool) (step : blks * Z -> res (blks * Z + blks)).
Context (Hstep : forall p i, step (p, i) =
  if i =? null then Ok (inr p)
  else b ← blk_at p i;
       if ok (stake b) then Ok (inl (<[i := set_stake b (f (stake b))]> p, parent b))
       else Crit).

(** Both stake loops: they reach the root and touch exactly the path. *)
Lemma restake_loop p i l n :
  path p i l -> (length l < n)%nat ->
  (forall j b, j ∈ l -> p !! j = Some b -> ok (stake b) = true) ->
  exists q, loop step n (p, i) = Ok q /\ restaked f l p q.
Proof.
  revert p i n. induction l as [|j l IH]; intros p i n Hp Hl Hok; (destruct n as [|n]; [simpl in *; lia|]);
    rewrite loop_S, Hstep.
  - inversion Hp; subst. rewrite Z.eqb_refl. eexists. split; [done|].
    intros k. by destruct (p !! k).
  - inversion Hp as [|? b ? Hi Hb Hpl]; subst.
    rewrite (proj2 (Z.eqb_neq _ _)) by done. unfold blk_at. rewrite Hb. simpl.
    rewrite (Hok j b) by (done || set_solver).
    pose proof (path_nodup _ _ _ Hp) as Hnd. apply NoDup_cons in Hnd as [Hni _].
    set (b' := set_stake b (f (stake b))).
    assert (Hss : same_shape p (<[j := b']> p)) by (by eapply same_shape_insert).
    destruct (IH (<[j := b']> p) (parent b) n) as (q & E & Hq).
    { by rewrite <- Hss. }
    { simpl in Hl. lia. }
    { intros k bk Hk Hbk. rewrite lookup_insert_ne in Hbk by (intros ->; done).
      eapply Hok; [|done]. set_solver. }
    exists q. split; [done|]. by eapply restaked_cons.
Qed.
End walks.

Lemma sub_stake_loop s p i l n :
  path p i l -> (length l < n)%nat ->
  (forall j b, j ∈ l -> p !! j = Some b -> s <= stake b) ->
  exists q, loop (sub_stake_step s) n (p, i) = Ok q /\ restaked (fun x => x - s) l p q.
Proof.
  intros Hp Hl Hok. apply (restake_loop _ (fun x => negb (x <? s))); [|done|done|].
  - intros p' i'. cbn -[Z.ltb ULONG_MAX]. unfold blk_at.
    destruct (i' =? null); [done|]. destruct (p' !! i'); cbn -[Z.ltb ULONG_MAX]; [|done].
    by destruct (_ <? _).
  - intros j b Hj Hb. specialize (Hok j b Hj Hb). by rewrite (proj2 (Z.ltb_ge _ _)).
Qed.

Lemma add_stake_loop s p i l n :
  path p i l -> (length l < n)%nat ->
  (forall j b, j ∈ l -> p !! j = Some b -> stake b + s <= ULONG_MAX) ->
  exists q, loop (add_stake_step s) n (p, i) = Ok q /\ restaked (fun x => x + s) l p q.
Proof.
  intros Hp Hl Hok. apply (restake_loop _ (fun x => negb (ULONG_MAX <? x + s))); [|done|done|].
  - intros p' i'. cbn -[Z.ltb ULONG_MAX]. unfold blk_at.
    destruct (i' =? null); [done|]. destruct (p' !! i'); cbn -[Z.ltb ULONG_MAX]; [|done].
    by destruct (_ <? _).
  - intros j b Hj Hb. specialize (Hok j b Hj Hb). by rewrite (proj2 (Z.ltb_ge _ _)).
Qed.

(** ** Counting a vote *)

Lemma contrib_same_shape p q m i v : same_shape p q -> contrib p m i v = contrib q m i v.
Proof.
  intros H. unfold contrib. destruct (m !! _); [|done]. by rewrite (anc_same_shape p q).
Qed.

Lemma contrib_bounds p m i v : 0 <= prev_stake v -> 0 <= contrib p m i v <= prev_stake v.
Proof.
  intros Hv. unfold contrib. destruct (m !! _); [|lia]. destruct (decide _); lia.
Qed.

(** The state between the removal of a voter's old vote and the new one:
    the stakes are those of all the other voters. *)
Record mid_wf (g : fd_ghost_t) (acc : fd_pubkey_t) : Prop := mk_mid_wf {
  mid_tree : tree_wf (blk_pool g) (root g);
  mid_free : free_wf g;
  mid_width : width g = leaves (blk_pool g);
  mid_map : map_wf g;
  mid_stake : forall i b, blk_pool g !! i = Some b ->
    stake b = sum_map (fun _ v => contrib (blk_pool g) (blk_map g) i v)
                (delete acc (vtr_map g));
  mid_parked : forall a v, a <> acc -> vtr_map g !! a = Some v ->
    0 <= prev_stake v /\ exists i, blk_map g !! prev_block_id v = Some i /\ a ∈ dlist g i;
  mid_dlist : forall i a, a ∈ dlist g i ->
    a <> acc /\ exists v, vtr_map g !! a = Some v /\ blk_map g !! prev_block_id v = Some i;
  mid_nodup : forall i, NoDup (dlist g i);
}.

Lemma mid_stake_le g acc i b :
  mid_wf g acc -> blk_pool g !! i = Some b ->
  0 <= stake b <= sum_map (fun _ v => prev_stake v) (delete acc (vtr_map g)).
Proof.
  intros Hm Hb. rewrite (mid_stake _ _ Hm i b Hb).
  assert (Hpos : forall a v, delete acc (vtr_map g) !! a = Some v -> 0 <= prev_stake v).
  { intros a v [Hne Hv]%lookup_delete_Some. by apply (mid_parked _ _ Hm a v). }
  split.
  - apply sum_map_nonneg. intros a v Hv. apply contrib_bounds. eauto.
  - apply sum_map_le. intros a v Hv. apply contrib_bounds. eauto.
Qed.

(** Updating the stakes along the path of a block keeps the other invariants. *)
Lemma map_wf_same_shape g p dl m vf :
  same_shape (blk_pool g) p -> map_wf g ->
  map_wf (with_vtrs (with_pool g p) m vf dl).
Proof.
  intros Hss Hm h i. simpl. rewrite (Hm h i). split; intros (b & Hb & Hid).
  - destruct (same_shape_lookup _ _ _ _ Hss Hb) as (b' & Hb' & Hs). exists b'.
    split; [done|]. unfold shape in Hs. congruence.
  - symmetry in Hss. destruct (same_shape_lookup _ _ _ _ Hss Hb) as (b' & Hb' & Hs).
    exists b'. split; [done|]. unfold shape in Hs. congruence.
Qed.

Lemma restaked_stake f l p q i b :
  restaked f l p q -> q !! i = Some b ->
  exists b0, p !! i = Some b0 /\ shape b0 = shape b /\
    stake b = if decide (i ∈ l) then f (stake b0) else stake b0.
Proof.
  intros H Hb. rewrite (H i) in Hb. destruct (p !! i) as [b0|]; simpl in Hb; [|done].
  simplify_eq. exists b0. destruct (decide (i ∈ l)); done.
Qed.

Lemma dlist_insert g m vf l i j :
  dlist (with_vtrs g m vf (<[i := l]> (vtr_dlist g))) j =
    if decide (i = j) then l else dlist g j.
Proof.
  unfold dlist. simpl. destruct (decide (i = j)) as [<-|Hne].
  - by rewrite lookup_insert_eq.
  - by rewrite lookup_insert_ne.
Qed.

Lemma count_vote_add_wf g blk acc s slot_ :
  mid_wf g acc -> is_Some (blk_pool g !! blk) -> 0 <= s ->
  sum_map (fun _ v => prev_stake v) (delete acc (vtr_map g)) + s <= ULONG_MAX ->
  exists b g', blk_pool g !! blk = Some b /\
    count_vote_add g blk acc s slot_ = Ok (FD_GHOST_SUCCESS, g') /\ ghost_wf g' /\
    vtr_map g' = <[acc := mk_vtr s slot_ (id b)]> (vtr_map g) /\ root g' = root g /\
    same_shape (blk_pool g) (blk_pool g') /\ blk_map g' = blk_map g.
Proof.
  intros Hm Hblk Hs Htot.
  destruct (tw_path _ _ (mid_tree _ _ Hm) blk Hblk) as [l Hl].
  destruct Hblk as [b Hb].
  pose proof (path_length _ _ _ Hl) as Hlen.
  destruct (add_stake_loop s (blk_pool g) blk l (S (fuel g)) Hl) as (q & E & Hq).
  { unfold fuel. lia. }
  { intros j bj _ Hbj. pose proof (mid_stake_le _ _ _ _ Hm Hbj). lia. }
  unfold count_vote_add. rewrite E. simpl.
  pose proof (restaked_same_shape _ _ _ _ Hq) as Hss.
  destruct (same_shape_lookup _ _ _ _ Hss Hb) as (bq & Hbq & Hsq).
  unfold blk_at. rewrite Hbq. simpl.
  assert (Hid : id bq = id b) by (unfold shape in Hsq; congruence). rewrite Hid.
  set (vnew := mk_vtr s slot_ (id b)).
  assert (Hmap : blk_map g !! id b = Some blk) by (apply (mid_map _ _ Hm); eauto).
  assert (Hanc : anc (blk_pool g) blk = l)
    by (apply anc_path; [apply (mid_tree _ _ Hm)|done]).
  eexists b, _. split; [done|]. split; [done|].
  split; [|by repeat split].
  split; simpl.
  - rewrite <- Hss. apply Hm.
  - apply free_wf_same_shape; [done|apply Hm].
  - rewrite <- (leaves_same_shape _ _ Hss). apply Hm.
  - apply map_wf_same_shape; [done|apply Hm].
  - assert (Hdl : forall j, dlist (with_vtrs (with_pool g q) (<[acc:=vnew]> (vtr_map g)) (vtr_free g)
               (<[blk:=dlist g blk ++ [acc]]> (vtr_dlist g))) j =
               if decide (blk = j) then dlist g blk ++ [acc] else dlist g j).
    { intros j. apply (dlist_insert (with_pool g q)). }
    assert (Hnin : forall j, acc ∉ dlist g j).
    { intros j Hj. by apply (mid_dlist _ _ Hm) in Hj as [? _]. }
    split.
    + intros a v. simpl. intros [[<- <-]|[Hne Hv]]%lookup_insert_Some.
      * split; [done|]. exists blk. split; [done|]. rewrite Hdl, decide_True by done. set_solver.
      * destruct (mid_parked _ _ Hm a v) as (? & i & Hi & Hin); [done..|].
        split; [done|]. exists i. split; [done|]. rewrite Hdl.
        destruct (decide (blk = i)) as [<-|]; set_solver.
    + intros i a Ha. rewrite Hdl in Ha. simpl.
      assert (Hcase : a ∈ dlist g i \/ (a = acc /\ i = blk))
        by (destruct (decide (blk = i)) as [<-|]; set_solver).
      destruct Hcase as [Ha'|[-> ->]].
      * destruct (mid_dlist _ _ Hm i a Ha') as (Hne & v & Hv & Hi). exists v.
        by rewrite lookup_insert_ne.
      * exists vnew. by rewrite lookup_insert_eq.
    + intros i. rewrite Hdl. destruct (decide (blk = i)) as [<-|]; [|apply Hm].
      apply NoDup_app. split; [apply Hm|]. split; [|apply NoDup_singleton]. set_solver.
  - intros i bi Hbi. simpl in Hbi.
    destruct (restaked_stake _ _ _ _ _ _ Hq Hbi) as (b0 & Hb0 & _ & ->).
    unfold weight. simpl.
    rewrite <- insert_delete_eq, sum_map_insert by apply lookup_delete_eq.
    rewrite (mid_stake _ _ Hm i b0 Hb0).
    rewrite (sum_map_ext (fun _ v => contrib q (blk_map g) i v)
               (fun _ v => contrib (blk_pool g) (blk_map g) i v))
      by (intros; symmetry; by apply contrib_same_shape).
    rewrite <- (contrib_same_shape (blk_pool g) q) by done.
    assert (contrib (blk_pool g) (blk_map g) i vnew = if decide (i ∈ l) then s else 0) as ->
      by (unfold contrib; simpl; by rewrite Hmap, Hanc).
    destruct (decide (i ∈ l)); lia.
Qed.

Lemma mid_first g acc vf :
  ghost_wf g -> vtr_map g !! acc = None ->
  mid_wf (with_vtrs g (vtr_map g) vf (vtr_dlist g)) acc.
Proof.
  intros Hg Hacc. split; simpl.
  - apply Hg.
  - destruct (gw_free _ Hg). by split.
  - apply Hg.
  - apply Hg.
  - intros i b Hb. rewrite delete_id by done. by apply (gw_stake _ Hg).
  - intros a v _ Hv. by apply (vw_parked _ (gw_votes _ Hg)).
  - intros i a Ha. destruct (vw_dlist _ (gw_votes _ Hg) i a Ha) as (v & Hv & Hi).
    split; [|eauto]. intros ->. congruence.
  - apply (gw_votes _ Hg).
Qed.

(** Taking back the previous vote never borrows. *)
Lemma mid_switch g acc v prev :
  ghost_wf g -> vtr_map g !! acc = Some v -> blk_map g !! prev_block_id v = Some prev ->
  exists p, loop (sub_stake_step (prev_stake v)) (S (fuel g)) (blk_pool g, prev) = Ok p /\
    same_shape (blk_pool g) p /\
    mid_wf (with_vtrs (with_pool g p) (vtr_map g) (vtr_free g)
              (<[prev := filter (fun a => a <> acc) (dlist g prev)]> (vtr_dlist g))) acc.
Proof.
  intros Hg Hacc Hprev. pose proof (gw_votes _ Hg) as Hv.
  destruct (vw_parked _ Hv acc v Hacc) as (Hpos & _).
  assert (Hin : is_Some (blk_pool g !! prev)).
  { apply (gw_map _ Hg) in Hprev as (b & Hb & _). eauto. }
  destruct (tw_path _ _ (gw_tree _ Hg) prev Hin) as [l Hl].
  pose proof (path_length _ _ _ Hl) as Hlen.
  assert (Hanc : anc (blk_pool g) prev = l) by (apply anc_path; [apply Hg|done]).
  assert (Hc : forall i, contrib (blk_pool g) (blk_map g) i v =
                 if decide (i ∈ l) then prev_stake v else 0)
    by (intros i; unfold contrib; by rewrite Hprev, Hanc).
  assert (Hst : forall i b, blk_pool g !! i = Some b ->
    stake b = contrib (blk_pool g) (blk_map g) i v +
      sum_map (fun _ v => contrib (blk_pool g) (blk_map g) i v) (delete acc (vtr_map g))).
  { intros i b Hb. rewrite (gw_stake _ Hg i b Hb). unfold weight.
    by rewrite (sum_map_delete _ _ acc v). }
  assert (Hrest : forall i, 0 <= sum_map (fun _ v => contrib (blk_pool g) (blk_map g) i v)
                                (delete acc (vtr_map g))).
  { intros i. apply sum_map_nonneg. intros a w [_ Hw]%lookup_delete_Some.
    apply contrib_bounds. by apply (vw_parked _ Hv a w). }
  destruct (sub_stake_loop (prev_stake v) (blk_pool g) prev l (S (fuel g)) Hl) as (p & E & Hp).
  { unfold fuel. lia. }
  { intros j b Hj Hb. rewrite (Hst j b Hb), Hc, decide_True by done.
    specialize (Hrest j). lia. }
  exists p. split; [done|]. pose proof (restaked_same_shape _ _ _ _ Hp) as Hss.
  split; [done|].
  assert (Hdl : forall j, dlist (with_vtrs (with_pool g p) (vtr_map g) (vtr_free g)
       (<[prev := filter (fun a => a <> acc) (dlist g prev)]> (vtr_dlist g))) j =
       if decide (prev = j) then filter (fun a => a <> acc) (dlist g prev) else dlist g j)
    by (intros j; apply (dlist_insert (with_pool g p))).
  assert (Hsub : forall j a, a ∈ dlist (with_vtrs (with_pool g p) (vtr_map g) (vtr_free g)
       (<[prev := filter (fun a => a <> acc) (dlist g prev)]> (vtr_dlist g))) j <->
       a ∈ dlist g j /\ a <> acc).
  { intros j a. rewrite Hdl. destruct (decide (prev = j)) as [<-|Hne].
    - rewrite list_elem_of_filter. tauto.
    - split; [|tauto]. intros Ha. split; [done|]. intros ->.
      destruct (vw_dlist _ Hv j acc Ha) as (w & Hw & Hj). congruence. }
  split; simpl.
  - rewrite <- Hss. apply Hg.
  - apply free_wf_same_shape; [done|apply Hg].
  - rewrite <- (leaves_same_shape _ _ Hss). apply Hg.
  - apply map_wf_same_shape; [done|apply Hg].
  - intros i b Hb. destruct (restaked_stake _ _ _ _ _ _ Hp Hb) as (b0 & Hb0 & _ & ->).
    rewrite (Hst i b0 Hb0), Hc.
    rewrite (sum_map_ext (fun _ v => contrib p (blk_map g) i v)
               (fun _ v => contrib (blk_pool g) (blk_map g) i v))
      by (intros; symmetry; by apply contrib_same_shape).
    destruct (decide (i ∈ l)); lia.
  - intros a w Hne Hw. destruct (vw_parked _ Hv a w Hw) as (? & i & Hi & Ha).
    split; [done|]. exists i. split; [done|]. apply Hsub. done.
  - intros i a [Ha Hne]%Hsub. split; [done|]. apply (vw_dlist _ Hv i a Ha).
  - intros i. rewrite Hdl. destruct (decide (prev = i)); [apply NoDup_filter|]; apply Hv.
Qed.

(** ** Properties *)

(** Counting a vote on a well-formed fork tree never crashes when
    the total stake fits in 64 bits (in particular the LMD subtraction never
    borrows) and keeps the tree well formed, with every block's stake equal to
    the stake of the voters whose latest vote is in its subtree; the vote is
    recorded exactly when it has a slot, is not older than the root and newer
    than the voter's last vote, and otherwise nothing changes. *)
Theorem count_vote_lmd (g : fd_ghost_t) (blk : Z) (acc : fd_pubkey_t) (s slot_ : Z) :
  ghost_wf g -> is_Some (blk_pool g !! blk) -> 0 <= s ->
  total_weight g + s <= ULONG_MAX ->
  is_Some (vtr_map g !! acc) \/ 0 < vtr_free g ->
  exists rc g' rb b,
    fd_ghost_count_vote g blk acc s slot_ = Ok (rc, g') /\ ghost_wf g' /\
    blk_pool g !! root g = Some rb /\ blk_pool g !! blk = Some b /\
    (rc <> FD_GHOST_SUCCESS -> g' = g) /\
    (rc = FD_GHOST_SUCCESS -> vtr_map g' = <[acc := mk_vtr s slot_ (id b)]> (vtr_map g)) /\
    (rc = FD_GHOST_SUCCESS <->
       slot_ <> ULONG_MAX /\ slot rb <= slot_ /\
       forall v, vtr_map g !! acc = Some v -> prev_slot v < slot_).
Proof.
  intros Hg Hblk Hs Htot Hfree.
  destruct (tw_root _ _ (gw_tree _ Hg)) as (rb & Hrb & _).
  pose proof Hblk as [b Hb]. unfold fd_ghost_count_vote.
  destruct (Z.eqb_spec slot_ ULONG_MAX) as [E1|E1].
  { exists FD_GHOST_ERR_NOT_VOTED, g, rb, b. split_and!; [done..|intros [=]|]. split; [intros [=]|tauto]. }
  unfold blk_at. rewrite Hrb. simpl.
  destruct (Z.ltb_spec slot_ (slot rb)) as [E2|E2].
  { exists FD_GHOST_ERR_VOTE_TOO_OLD, g, rb, b. split_and!; [done..|intros [=]|]. split; [intros [=]|lia]. }
  assert (Hdel : sum_map (fun _ v => prev_stake v) (delete acc (vtr_map g)) <= total_weight g).
  { unfold total_weight. destruct (vtr_map g !! acc) as [v|] eqn:Ev; [|by rewrite delete_id].
    rewrite (sum_map_delete _ (vtr_map g) acc v) by done.
    destruct (vw_parked _ (gw_votes _ Hg) acc v Ev). lia. }
  destruct (vtr_map g !! acc) as [v|] eqn:Ev.
  - destruct (Z.ltb_spec (prev_slot v) slot_) as [E3|E3]; simpl.
    2:{ exists FD_GHOST_ERR_ALREADY_VOTED, g, rb, b. split_and!; [done..|intros [=]|]. split; [intros [=]|].
        intros (_ & _ & Hp). specialize (Hp v eq_refl). lia. }
    destruct (vw_parked _ (gw_votes _ Hg) acc v Ev) as (_ & prev & Hprev & _).
    rewrite Hprev.
    destruct (mid_switch g acc v prev Hg Ev Hprev) as (p & -> & Hss & Hmid). simpl.
    destruct (same_shape_lookup _ _ _ _ Hss Hb) as (bp & Hbp & Hsh).
    destruct (count_vote_add_wf _ blk acc s slot_ Hmid) as (b' & g' & Hb' & E & Hwf & Hv & _);
      [simpl; eauto|done|simpl; lia|].
    simpl in Hb', Hv. exists FD_GHOST_SUCCESS, g', rb, b.
    assert (id b' = id b) as Hid by (unfold shape in Hsh; congruence). rewrite Hid in Hv.
    split_and!; try done. split; [|done]. intros _. split_and!; [done..|]. by intros w [= <-].
  - destruct Hfree as [[? Hf]|Hf]; [done|].
    rewrite (proj2 (Z.leb_gt _ _)) by done.
    destruct (count_vote_add_wf _ blk acc s slot_ (mid_first g acc (vtr_free g - 1) Hg Ev))
      as (b' & g' & Hb' & E & Hwf & Hv & _); [done|done|simpl; lia|].
    simpl in Hb', Hv. simplify_eq.
    exists FD_GHOST_SUCCESS, g', rb, b. split_and!; done.
Qed.
