(* ===== verification/GhostTree.v ===== *)
(** * Growing and reading the fork-choice tree ([src/choreo/ghost/fd_ghost.c])

    [fd_ghost_init] and [fd_ghost_insert] establish and preserve the
    invariants of GhostInv; [fd_ghost_best] follows the heaviest valid fork;
    the ancestor queries find the nearest ancestor; [fd_ghost_eqvoc] and
    [fd_ghost_confirm] change the validity of exactly a subtree or a path. *)

From S2P Require Import Prelude Ghost GhostInv.

#[local] Open Scope Z_scope.

(** ** Changing pointers *)

Lemma path_parents p q i l :
  (forall j b, p !! j = Some b -> exists b', q !! j = Some b' /\ parent b' = parent b) ->
  path p i l -> path q i l.
Proof.
  intros Hpq. induction 1 as [|i b l Hi Hb _ IH]; [constructor|].
  destruct (Hpq i b Hb) as (b' & Hb' & E). eapply path_cons; [done..|]. by rewrite E.
Qed.

Lemma sibs_siblings p q c l :
  (forall j b, j ∈ l -> p !! j = Some b -> exists b', q !! j = Some b' /\ sibling b' = sibling b) ->
  sibs p c l -> sibs q c l.
Proof.
  intros Hpq H. induction H as [|c b l Hc Hb _ IH]; [constructor|].
  destruct (Hpq c b) as (b' & Hb' & E); [set_solver|done|].
  eapply sibs_cons; [done..|]. rewrite E. apply IH. intros j bj Hj. apply Hpq. set_solver.
Qed.

Lemma sibs_det p c l l' : sibs p c l -> sibs p c l' -> l = l'.
Proof.
  intros H. revert l'. induction H as [|c b l Hc Hb _ IH]; intros l' H'.
  - by inversion H'.
  - inversion H' as [|? b' l'' _ Hb' Hp']; subst; [done|]. simplify_eq. f_equal. by apply IH.
Qed.

Lemma sibs_in p c l j : sibs p c l -> j ∈ l ->
  is_Some (p !! j) /\ exists l1 l2, l = l1 ++ l2 /\ sibs p j l2.
Proof.
  induction 1 as [|c b l Hc Hb Hl IH]; intros Hj; [by apply not_elem_of_nil in Hj|].
  apply elem_of_cons in Hj as [->|Hj].
  - split; [eauto|]. exists [], (c :: l). split; [done|]. by eapply sibs_cons.
  - destruct (IH Hj) as (Hs & l1 & l2 & -> & Hp). split; [done|]. by exists (c :: l1), l2.
Qed.

Lemma sibs_nodup p c l : sibs p c l -> NoDup l.
Proof.
  induction 1 as [|c b l Hc Hb Hl IH]; [constructor|]. apply NoDup_cons. split; [|done].
  intros Hin. destruct (sibs_in _ _ _ _ Hl Hin) as (_ & l1 & l2 & -> & Hp).
  assert (E : l2 = c :: (l1 ++ l2)) by (eapply sibs_det; [done|by eapply sibs_cons]).
  apply (f_equal length) in E. simpl in E. rewrite length_app in E. lia.
Qed.

Lemma sibs_length p c l : sibs p c l -> (length l <= size p)%nat.
Proof.
  intros H. apply nodup_size; [by eapply sibs_nodup|].
  intros j Hj. by destruct (sibs_in _ _ _ _ H Hj).
Qed.

Lemma last_sibling_loop p c l n :
  sibs p c l -> c <> null -> (length l < n)%nat ->
  exists t b, loop (last_sibling_step p) n c = Ok t /\ last l = Some t /\
              p !! t = Some b /\ sibling b = null.
Proof.
  intros H. revert n. induction H as [|c b l Hc Hb Hl IH]; intros n Hn Hlen; [done|].
  destruct n as [|n]; [simpl in Hlen; lia|]. rewrite loop_S. unfold last_sibling_step at 1.
  unfold blk_at. rewrite Hb. simpl. destruct (Z.eqb_spec (sibling b) null) as [E|E].
  - exists c, b. rewrite E in Hl. inversion Hl; subst; [done|].
    exfalso. congruence.
  - simpl in Hlen. destruct (IH n E ltac:(lia)) as (t & bt & El & Hlast & Hbt).
    exists t, bt. split; [done|]. split; [|done].
    destruct l; [done|]. by rewrite last_cons_cons.
Qed.

(** Appending a new last sibling. *)
Lemma sibs_snoc p q c l i bi t bt :
  sibs p c l -> last l = Some t -> p !! t = Some bt -> sibling bt = null ->
  (forall j b, j ∈ l -> j <> t -> p !! j = Some b ->
     exists b', q !! j = Some b' /\ sibling b' = sibling b) ->
  (exists b', q !! t = Some b' /\ sibling b' = i) ->
  i <> null -> q !! i = Some bi -> sibling bi = null ->
  sibs q c (l ++ [i]).
Proof.
  intros H Hlast Hbt Hnt Hq (bt' & Hbt' & Et) Hi Hbi Hni.
  induction H as [|c b l Hc Hb Hl IH]; [done|].
  assert (Hnil : sibs q i [i]) by (eapply sibs_cons; [done..|]; rewrite Hni; constructor).
  destruct l as [|d l].
  - simpl in Hlast. simplify_eq. eapply sibs_cons; [done..|]. done.
  - rewrite last_cons_cons in Hlast.
    assert (Hct : c <> t).
    { intros ->. pose proof (sibs_cons p t b _ Hc Hb Hl) as Hs. apply sibs_nodup in Hs.
      apply NoDup_cons in Hs as [Hs _]. apply Hs. by apply last_Some_elem_of. }
    destruct (Hq c b) as (b' & Hb' & E); [set_solver|done|done|].
    eapply sibs_cons; [done..|]. rewrite E. apply IH; [done|].
    intros j bj Hj. apply Hq. set_solver.
Qed.

(** ** A tree with one more leaf

    [q] is [p] with a new last child [i] of [par]. *)

Definition core (b : fd_ghost_blk_t) := (id b, slot b, parent b, stake b, valid b).

Record grown (p q : blks) (i par : Z) (nb : fd_ghost_blk_t) : Prop := mk_grown {
  gr_fresh : p !! i = None;
  gr_null : i <> null;
  gr_par : is_Some (p !! par);
  gr_new : q !! i = Some nb;
  gr_leaf : parent nb = par /\ child nb = null /\ sibling nb = null;
  gr_core : forall j, j <> i -> core <$> q !! j = core <$> p !! j;
  gr_child : forall j b b', p !! j = Some b -> q !! j = Some b' -> j <> par -> child b' = child b;
  gr_sibling : forall j b b', p !! j = Some b -> q !! j = Some b' -> parent b <> par ->
    sibling b' = sibling b;
  gr_append : forall b b' l, p !! par = Some b -> q !! par = Some b' ->
    sibs p (child b) l -> (forall j, j ∈ l -> exists bj, p !! j = Some bj /\ parent bj = par) ->
    sibs q (child b') (l ++ [i]);
}.

Lemma grown_old p q i par nb j b :
  grown p q i par nb -> p !! j = Some b -> exists b', q !! j = Some b' /\ core b' = core b.
Proof.
  intros G Hb. assert (Hji : j <> i) by (intros ->; pose proof (gr_fresh _ _ _ _ _ G); congruence).
  pose proof (gr_core _ _ _ _ _ G j Hji) as E. rewrite Hb in E.
  destruct (q !! j) as [b'|]; [|done]. simpl in E. exists b'. split; [done|congruence].
Qed.

Lemma grown_inv p q i par nb j b' :
  grown p q i par nb -> q !! j = Some b' ->
  (j = i /\ b' = nb) \/ (j <> i /\ exists b, p !! j = Some b /\ core b' = core b).
Proof.
  intros G Hb. destruct (decide (j = i)) as [->|Hji].
  - left. split; [done|]. pose proof (gr_new _ _ _ _ _ G). congruence.
  - right. split; [done|]. pose proof (gr_core _ _ _ _ _ G j Hji) as E. rewrite Hb in E.
    destruct (p !! j) as [b|]; [|done]. simpl in E. exists b. split; [done|congruence].
Qed.

Lemma core_parent b b' : core b' = core b -> parent b' = parent b.
Proof. unfold core. congruence. Qed.
Lemma core_id b b' : core b' = core b -> id b' = id b.
Proof. unfold core. congruence. Qed.
Lemma core_stake b b' : core b' = core b -> stake b' = stake b.
Proof. unfold core. congruence. Qed.

Lemma grown_path p q i par nb j l : grown p q i par nb -> path p j l -> path q j l.
Proof.
  intros G. apply path_parents. intros k b Hb.
  destruct (grown_old _ _ _ _ _ _ _ G Hb) as (b' & Hb' & E). eauto using core_parent.
Qed.

(** In a tree no parent pointer is dangling. *)
Lemma tree_parent_known p r j b :
  tree_wf p r -> p !! j = Some b -> parent b = null \/ is_Some (p !! parent b).
Proof.
  intros T Hb. destruct (decide (j = r)) as [->|Hne].
  - left. destruct (tw_root _ _ T) as (b' & Hb' & E). congruence.
  - right. by eapply T.
Qed.

Lemma grown_children p q r i par nb :
  tree_wf p r -> grown p q i par nb -> forall j b, q !! j = Some b ->
  exists l, sibs q (child b) l /\
    forall k, k ∈ l <-> exists bk, q !! k = Some bk /\ parent bk = j.
Proof.
  intros T G j b Hj. pose proof (gr_leaf _ _ _ _ _ G) as (Ep & Ec & Es).
  destruct (grown_inv _ _ _ _ _ _ _ G Hj) as [[-> ->]|(Hji & b0 & Hb0 & Ecore)].
  - exists []. rewrite Ec. split; [constructor|]. intros k.
    split; [intros []%not_elem_of_nil|]. intros (bk & Hk & Epk). exfalso.
    destruct (gr_par _ _ _ _ _ G) as [bp Hbp]. pose proof (gr_fresh _ _ _ _ _ G) as Hfr.
    destruct (grown_inv _ _ _ _ _ _ _ G Hk) as [[-> ->]|(Hki & b1 & Hb1 & Ecore)].
    + congruence.
    + apply core_parent in Ecore.
      destruct (tree_parent_known _ _ _ _ T Hb1) as [E|[? E]].
      * pose proof (gr_null _ _ _ _ _ G). congruence.
      * congruence.
  - destruct (tw_children _ _ T j b0 Hb0) as (l & Hl & Hin).
    destruct (decide (j = par)) as [->|Hne].
    + exists (l ++ [i]). split.
      { eapply (gr_append _ _ _ _ _ G); [done..|]. intros k. apply Hin. }
      intros k. rewrite elem_of_app, list_elem_of_singleton, Hin. split.
      * intros [(bk & Hk & E)| ->].
        -- destruct (grown_old _ _ _ _ _ _ _ G Hk) as (bk' & Hk' & Ec').
           exists bk'. split; [done|]. apply core_parent in Ec'. congruence.
        -- exists nb. split; [apply G|done].
      * intros (bk & Hk & E).
        destruct (grown_inv _ _ _ _ _ _ _ G Hk) as [[-> ->]|(Hki & b1 & Hb1 & Ec')]; [by right|].
        left. exists b1. split; [done|]. apply core_parent in Ec'. congruence.
    + exists l. rewrite (gr_child _ _ _ _ _ G j b0 b) by done. split.
      { eapply sibs_siblings; [|done]. intros k bk Hk Hbk.
        destruct (grown_old _ _ _ _ _ _ _ G Hbk) as (bk' & Hk' & _).
        exists bk'. split; [done|]. eapply (gr_sibling _ _ _ _ _ G); [done..|].
        apply Hin in Hk as (bk2 & Hk2 & Epk). congruence. }
      intros k. rewrite Hin. split; intros (bk & Hk & E).
      * destruct (grown_old _ _ _ _ _ _ _ G Hk) as (bk' & Hk' & Ec').
        exists bk'. split; [done|]. apply core_parent in Ec'. congruence.
      * destruct (grown_inv _ _ _ _ _ _ _ G Hk) as [[-> ->]|(Hki & b1 & Hb1 & Ec')]; [congruence|].
        exists b1. split; [done|]. apply core_parent in Ec'. congruence.
Qed.

Lemma grown_tree p q r i par nb : tree_wf p r -> grown p q i par nb -> tree_wf q r.
Proof.
  intros T G. pose proof (gr_leaf _ _ _ _ _ G) as (Ep & _).
  destruct (tw_root _ _ T) as (rb & Hrb & Er).
  split.
  - destruct (q !! null) as [b|] eqn:E; [|done]. exfalso.
    destruct (grown_inv _ _ _ _ _ _ _ G E) as [[E' _]|(_ & b0 & Hb0 & _)].
    + by destruct (gr_null _ _ _ _ _ G).
    + pose proof (tw_null _ _ T). congruence.
  - destruct (grown_old _ _ _ _ _ _ _ G Hrb) as (b' & Hb' & E). exists b'.
    split; [done|]. apply core_parent in E. congruence.
  - intros j b Hj Hne.
    assert (is_Some (p !! parent b)) as [pb Hpb].
    { destruct (grown_inv _ _ _ _ _ _ _ G Hj) as [[-> ->]|(_ & b0 & Hb0 & E)].
      - rewrite Ep. apply G.
      - apply core_parent in E. rewrite E. by eapply T. }
    destruct (grown_old _ _ _ _ _ _ _ G Hpb) as (b' & ? & _). eauto.
  - intros j [b Hj]. destruct (grown_inv _ _ _ _ _ _ _ G Hj) as [[-> ->]|(_ & b0 & Hb0 & _)].
    + destruct (tw_path _ _ T par) as [l Hl]; [apply G|]. exists (i :: l).
      eapply path_cons; [apply G|apply G|]. rewrite Ep. by eapply grown_path.
    + destruct (tw_path _ _ T j) as [l Hl]; [eauto|]. exists l. by eapply grown_path.
  - by eapply grown_children.
Qed.

(** A new block has no votes, and the votes of the others are untouched. *)
Lemma grown_ghost g q nb i par free' w :
  ghost_wf g -> blk_free g = i :: free' -> grown (blk_pool g) q i par nb ->
  blk_map g !! id nb = None -> stake nb = 0 -> w = leaves q ->
  ghost_wf (mk_ghost (root g) w q free' (<[id nb := i]> (blk_map g))
              (vtr_map g) (vtr_free g) (vtr_dlist g)).
Proof.
  intros Hg Efree G Hid Hst ->. pose proof (gw_tree _ Hg) as T.
  pose proof (grown_tree _ _ _ _ _ _ T G) as Tq. pose proof (gw_votes _ Hg) as V.
  destruct (gw_free _ Hg) as [Fnd Ffree Fcap]. rewrite Efree in Fnd, Ffree, Fcap.
  apply NoDup_cons in Fnd as [Fni Fnd].
  assert (Hdom : forall j, is_Some (q !! j) <-> j = i \/ is_Some (blk_pool g !! j)).
  { intros j. split.
    - intros [b Hb]. destruct (grown_inv _ _ _ _ _ _ _ G Hb) as [[-> _]|(_ & b0 & ? & _)]; eauto.
    - intros [->|[b Hb]]; [rewrite (gr_new _ _ _ _ _ G); eauto|].
      destruct (grown_old _ _ _ _ _ _ _ G Hb) as (b' & ? & _). eauto. }
  assert (Hold : forall h j, blk_map g !! h = Some j -> <[id nb := i]> (blk_map g) !! h = Some j).
  { intros h j Hh. rewrite lookup_insert_ne; [done|]. congruence. }
  split; simpl.
  - done.
  - split; simpl; [done| |].
    + intros j Hj. destruct (Ffree j) as [Hn Hnone]; [set_solver|]. split; [done|].
      destruct (q !! j) as [b|] eqn:E; [|done]. exfalso.
      destruct (proj1 (Hdom j)) as [->|[? ?]]; [eauto|done|congruence].
    + assert (size q = S (size (blk_pool g))) as ->; [|simpl in Fcap; lia].
      rewrite <- !size_dom.
      assert (dom q = {[i]} ∪ dom (blk_pool g)) as ->.
      { apply set_eq. intros j. rewrite elem_of_union, elem_of_singleton, !elem_of_dom. apply Hdom. }
      rewrite size_union, size_singleton; [done|].
      apply disjoint_singleton_l. rewrite elem_of_dom. intros [? E].
      pose proof (gr_fresh _ _ _ _ _ G). congruence.
  - done.
  - intros h j. simpl. split.
    + intros [[<- <-]|[Hne Hh]]%lookup_insert_Some.
      * exists nb. split; [apply G|done].
      * apply (gw_map _ Hg) in Hh as (b & Hb & E).
        destruct (grown_old _ _ _ _ _ _ _ G Hb) as (b' & Hb' & Ec).
        exists b'. split; [done|]. apply core_id in Ec. congruence.
    + intros (b & Hb & E). destruct (grown_inv _ _ _ _ _ _ _ G Hb) as [[-> ->]|(_ & b0 & Hb0 & Ec)].
      * rewrite E. apply lookup_insert_eq.
      * apply core_id in Ec. apply Hold. apply (gw_map _ Hg). exists b0. split; [done|congruence].
  - split; simpl.
    + intros a v Hv. destruct (vw_parked _ V a v Hv) as (? & j & Hj & Hin). eauto.
    + intros j a Ha. destruct (vw_dlist _ V j a Ha) as (v & Hv & Hj). eauto.
    + apply V.
  - intros j b Hb. unfold weight. simpl.
    assert (Hc : forall a v, vtr_map g !! a = Some v ->
      contrib q (<[id nb := i]> (blk_map g)) j v =
        if decide (j = i) then 0 else contrib (blk_pool g) (blk_map g) j v).
    { intros a v Hv. destruct (vw_parked _ V a v Hv) as (_ & k & Hk & _). unfold contrib.
      rewrite (Hold _ _ Hk), Hk. apply (gw_map _ Hg) in Hk as (bk & Hbk & _).
      destruct (tw_path _ _ T k) as [l Hl]; [eauto|].
      rewrite (anc_path _ _ _ (tw_null _ _ T) Hl).
      rewrite (anc_path _ _ _ (tw_null _ _ Tq) (grown_path _ _ _ _ _ _ _ G Hl)).
      destruct (decide (j = i)) as [->|]; [|done]. rewrite decide_False; [done|].
      intros Hin. destruct (path_in _ _ _ _ Hl Hin) as [[? E] _].
      pose proof (gr_fresh _ _ _ _ _ G). congruence. }
    destruct (grown_inv _ _ _ _ _ _ _ G Hb) as [[-> ->]|(Hji & b0 & Hb0 & Ec)].
    + rewrite (sum_map_ext _ (fun _ _ => 0)), Hst, sum_map_zero; [done|].
      intros a v Hv. by rewrite (Hc a v Hv), decide_True.
    + rewrite (sum_map_ext _ (fun _ v => contrib (blk_pool g) (blk_map g) j v)).
      * apply core_stake in Ec. rewrite Ec. by apply (gw_stake _ Hg).
      * intros a v Hv. by rewrite (Hc a v Hv), decide_False.
Qed.

(** The two ways [fd_ghost_insert] links the new block. *)
Section link.
Context (p : blks) (r i par : Z) (nb parb : fd_ghost_blk_t).
Context (T : tree_wf p r) (Hi : p !! i = None) (Hnull : i <> null).
Context (Hpar : p !! par = Some parb).
Context (Hleaf : parent nb = par /\ child nb = null /\ sibling nb = null).

#[local] Lemma par_ne : par <> i.
Proof using Hi Hpar. congruence. Qed.

Lemma link_first_child :
  child parb = null -> grown p (<[par := set_child parb i]> (<[i := nb]> p)) i par nb.
Proof using All.
  intros Hc. pose proof par_ne as Hne.
  assert (Hcase : forall j b b', p !! j = Some b ->
    <[par := set_child parb i]> (<[i := nb]> p) !! j = Some b' ->
    (j = par /\ b = parb /\ b' = set_child parb i) \/ (j <> par /\ b' = b)).
  { intros j b b' Hb Hb'. destruct (decide (j = par)) as [->|Hj].
    - left. rewrite lookup_insert_eq in Hb'. split_and!; [done|congruence..].
    - right. rewrite !lookup_insert_ne in Hb' by congruence. split; [done|congruence]. }
  split; [done..|eauto| |done| | | |].
  - rewrite lookup_insert_ne by done. apply lookup_insert_eq.
  - intros j Hj. destruct (decide (j = par)) as [->|Hjp].
    + rewrite lookup_insert_eq, Hpar. done.
    + by rewrite !lookup_insert_ne.
  - intros j b b' Hb Hb' Hj. destruct (Hcase _ _ _ Hb Hb') as [[? _]|[_ ->]]; done.
  - intros j b b' Hb Hb' Hj. destruct (Hcase _ _ _ Hb Hb') as [(-> & -> & ->)|[_ ->]]; done.
  - intros b b' l Hb Hb' Hl _. rewrite lookup_insert_eq in Hb'. simplify_eq/=.
    rewrite Hc in Hl. inversion Hl; [subst; simpl|done]. eapply sibs_cons; [done| |].
    + rewrite lookup_insert_ne by done. apply lookup_insert_eq.
    + destruct Hleaf as (_ & _ & ->). constructor.
Qed.

Lemma link_next_sibling t tb :
  child parb <> null -> p !! t = Some tb -> parent tb = par -> sibling tb = null ->
  (forall l, sibs p (child parb) l -> last l = Some t) ->
  grown p (<[t := set_sibling tb i]> (<[i := nb]> p)) i par nb.
Proof using All.
  intros Hc Ht Etp Ets Hlast. assert (Hne : t <> i) by congruence.
  assert (Hcase : forall j b b', p !! j = Some b ->
    <[t := set_sibling tb i]> (<[i := nb]> p) !! j = Some b' ->
    (j = t /\ b = tb /\ b' = set_sibling tb i) \/ (j <> t /\ b' = b)).
  { intros j b b' Hb Hb'. destruct (decide (j = t)) as [->|Hj].
    - left. rewrite lookup_insert_eq in Hb'. split_and!; [done|congruence..].
    - right. rewrite !lookup_insert_ne in Hb' by congruence. split; [done|congruence]. }
  split; [done..|eauto| |done| | | |].
  - rewrite lookup_insert_ne by done. apply lookup_insert_eq.
  - intros j Hj. destruct (decide (j = t)) as [->|Hjp].
    + rewrite lookup_insert_eq, Ht. done.
    + by rewrite !lookup_insert_ne.
  - intros j b b' Hb Hb' Hj. destruct (Hcase _ _ _ Hb Hb') as [(-> & -> & ->)|[_ ->]]; done.
  - intros j b b' Hb Hb' Hj. destruct (Hcase _ _ _ Hb Hb') as [(-> & -> & ->)|[_ ->]]; done.
  - intros b b' l Hb Hb' Hl Hin. assert (child b' = child b) as ->.
    { destruct (Hcase _ _ _ Hb Hb') as [(-> & -> & ->)|[_ ->]]; done. }
    simplify_eq. eapply sibs_snoc; [done|by apply Hlast|done|done| | |done| |apply Hleaf].
    + intros j bj Hj Hjt Hbj. exists bj. split; [|done].
      rewrite !lookup_insert_ne; [done|congruence..].
    + exists (set_sibling tb i). split; [apply lookup_insert_eq|done].
    + rewrite lookup_insert_ne by done. apply lookup_insert_eq.
Qed.
End link.

Definition leaf (b : fd_ghost_blk_t) : Z := if child b =? null then 1 else 0.

Lemma leaves_insert p i b : p !! i = None -> leaves (<[i := b]> p) = leaf b + leaves p.
Proof. intros Hi. unfold leaves. by rewrite sum_map_insert. Qed.

Lemma leaves_update p i b b' :
  p !! i = Some b -> leaves (<[i := b']> p) = leaves p - leaf b + leaf b'.
Proof.
  intros Hi. unfold leaves. rewrite (sum_map_delete _ p i b) by done.
  rewrite <- insert_delete_eq, sum_map_insert by apply lookup_delete_eq.
  unfold leaf. lia.
Qed.

(** [insert] always pops the first free index. *)
Lemma insert_ok g bs sl h i free' :
  blk_map g !! h = None -> blk_free g = i :: free' ->
  insert_ g bs sl h = Ok
    (mk_ghost (root g) (width g) (<[i := mk_gblk h sl null null null 0 0 true bs]> (blk_pool g))
       free' (<[h := i]> (blk_map g)) (vtr_map g) (vtr_free g) (vtr_dlist g), i).
Proof.
  intros Hh Hf. unfold insert_. rewrite bool_decide_eq_true_2 by done. simpl. by rewrite Hf.
Qed.

(** A successful insertion grows the tree by one leaf. *)
Lemma insert_grows g bs sl h ph i free' par :
  ghost_wf g -> blk_map g !! h = None -> blk_free g = i :: free' ->
  blk_map g !! ph = Some par ->
  exists q w,
    fd_ghost_insert g bs sl h ph =
      Ok (mk_ghost (root g) w q free' (<[h := i]> (blk_map g)) (vtr_map g) (vtr_free g)
            (vtr_dlist g), i) /\
    grown (blk_pool g) q i par (mk_gblk h sl par null null 0 0 true bs) /\ w = leaves q.
Proof.
  intros Hg Hh Hf Hph. pose proof (gw_tree _ Hg) as T. set (nb := mk_gblk h sl par null null 0 0 true bs).
  destruct (fw_free _ (gw_free _ Hg) i) as [Hnull Hi]; [rewrite Hf; set_solver|].
  pose proof (fw_cap _ (gw_free _ Hg)) as Hcap. rewrite Hf in Hcap. simpl in Hcap.
  pose proof (leaves_le_size (blk_pool g)) as Hle.
  destruct (proj1 (gw_map _ Hg _ _) Hph) as (parb & Hparb & _).
  assert (Hpi : par <> i) by congruence.
  unfold fd_ghost_insert. rewrite (insert_ok _ _ _ _ _ _ Hh Hf). simpl.
  rewrite lookup_insert_ne by congruence. rewrite Hph. unfold blk_at.
  rewrite lookup_insert_eq. simpl. rewrite insert_insert_eq.
  change (set_parent _ par) with nb.
  rewrite lookup_insert_ne by done. rewrite Hparb. simpl.
  assert (Hlv : leaves (<[i := nb]> (blk_pool g)) = 1 + leaves (blk_pool g))
    by (by rewrite leaves_insert).
  destruct (Z.eqb_spec (child parb) null) as [Ec|Ec].
  - exists (<[par := set_child parb i]> (<[i := nb]> (blk_pool g))), (width g).
    split; [done|]. split; [by eapply link_first_child|].
    rewrite (leaves_update _ par parb) by (by rewrite lookup_insert_ne).
    rewrite Hlv, (gw_width _ Hg). unfold leaf. simpl. rewrite Ec, Z.eqb_refl.
    rewrite (proj2 (Z.eqb_neq _ _)) by done. lia.
  - destruct (tw_children _ _ T par parb Hparb) as (l & Hl & Hin).
    assert (Hq : sibs (<[i := nb]> (blk_pool g)) (child parb) l).
    { eapply sibs_siblings; [|done]. intros j b Hj Hb. exists b. split; [|done].
      rewrite lookup_insert_ne; [done|congruence]. }
    destruct (last_sibling_loop _ _ _ (S (S (size (blk_pool g)))) Hq Ec)
      as (t & tb & E & Hlast & Ht & Ets).
    { pose proof (sibs_length _ _ _ Hl). lia. }
    pose proof (last_Some_elem_of _ _ Hlast) as Htl. apply Hin in Htl as (tb0 & Ht0 & Etp).
    pose proof Ht as Ht'. rewrite lookup_insert_ne in Ht' by congruence.
    assert (tb0 = tb) as -> by congruence.
    unfold fuel. cbn [blk_pool]. rewrite map_size_insert_None, E by done. simpl.
    rewrite Ht. simpl.
    exists (<[t := set_sibling tb i]> (<[i := nb]> (blk_pool g))), (u64 (width g + 1)).
    split; [done|]. split.
    + eapply link_next_sibling; [done..|]. intros l' Hl'. by rewrite (sibs_det _ _ _ _ Hl' Hl).
    + rewrite (leaves_update _ t tb), Hlv, (gw_width _ Hg) by done. unfold leaf, null in *. simpl.
      rewrite u64_small; [lia|]. unfold is_u64. lia.
Qed.

(** ** Properties of insertion *)

(** Starting from an empty pool, [fd_ghost_init] makes the one-block tree. *)
Lemma ghost_init_wf (cap vcap : nat) (bs sl : Z) (h : fd_hash_t) :
  (0 < cap)%nat -> Z.of_nat cap <= null ->
  exists g i, fd_ghost_init (fd_ghost_new cap vcap) bs sl h = Ok (g, i) /\ ghost_wf g /\
    fd_ghost_root g = i /\ fd_ghost_query g h = Some i /\ fd_ghost_width g = 1.
Proof.
  intros Hc Hcap. destruct cap as [|cap]; [lia|]. set (b := mk_gblk h sl null null null 0 0 true bs).
  eexists (mk_ghost 0 1 (<[0 := b]> ∅) (Z.of_nat <$> seq 1 cap) (<[h := 0]> ∅) ∅
            (2 * Z.of_nat vcap) ∅), 0.
  split.
  { unfold fd_ghost_init. erewrite insert_ok; [done|done|done]. }
  split; [|split_and!; [done| |done]; apply lookup_insert_eq].
  assert (H0 : forall j bj, (<[0 := b]> ∅ : blks) !! j = Some bj -> j = 0 /\ bj = b).
  { intros j bj [[<- <-]|[_ Hj]]%lookup_insert_Some; [done|]. by rewrite lookup_empty in Hj. }
  assert (Hb : (<[0 := b]> ∅ : blks) !! 0 = Some b) by apply lookup_insert_eq.
  split; simpl.
  - split.
    + done.
    + eauto.
    + intros j bj [-> ->]%H0 Hne. done.
    + intros j [bj [-> ->]%H0]. exists [0]. eapply path_cons; [done..|]. constructor.
    + intros j bj [-> ->]%H0. exists []. split; [constructor|]. intros j.
      split; [intros []%not_elem_of_nil|]. intros (bj & [-> ->]%H0 & E). done.
  - split; simpl.
    + apply NoDup_fmap_2; [apply _|apply NoDup_seq].
    + intros j (n & -> & Hn)%list_elem_of_fmap. apply elem_of_seq in Hn. unfold null in *.
      split; [lia|]. rewrite lookup_insert_ne by lia. done.
    + rewrite length_fmap, length_seq, map_size_insert_None, map_size_empty by done. lia.
  - by rewrite leaves_insert.
  - intros h' j. simpl. split.
    + intros [[<- <-]|[_ Hj]]%lookup_insert_Some; [eauto|]. by rewrite lookup_empty in Hj.
    + intros (bj & [-> ->]%H0 & <-). apply lookup_insert_eq.
  - split; simpl.
    + intros a v Hv. by rewrite lookup_empty in Hv.
    + intros j a Ha. unfold dlist in Ha. simpl in Ha. rewrite lookup_empty in Ha. set_solver.
    + intros j. unfold dlist. simpl. rewrite lookup_empty. constructor.
  - intros j bj [-> ->]%H0. unfold weight. simpl. by rewrite sum_map_empty.
Qed.

(** [fd_ghost_insert] keeps every invariant of the fork tree: the new block is
    a valid, voteless leaf under its parent, the fork count follows the number
    of leaves and no other block changes its identity, parent or stake; a
    duplicate block, an unknown parent or a full pool terminates the process. *)
Theorem ghost_insert_wf (g : fd_ghost_t) (bs sl : Z) (h ph : fd_hash_t) :
  ghost_wf g -> h <> ph ->
  match blk_map g !! h, blk_free g, blk_map g !! ph with
  | None, i :: _, Some par =>
      exists g' b, fd_ghost_insert g bs sl h ph = Ok (g', i) /\ ghost_wf g' /\
        blk_pool g' !! i = Some b /\ id b = h /\ slot b = sl /\ parent b = par /\
        valid b = true /\ stake b = 0 /\ child b = null /\
        (forall j, j <> i -> core <$> blk_pool g' !! j = core <$> blk_pool g !! j) /\
        root g' = root g /\ blk_map g' = <[h := i]> (blk_map g) /\ vtr_map g' = vtr_map g
  | _, _, _ => fd_ghost_insert g bs sl h ph = Crit
  end.
Proof.
  intros Hg Hne. destruct (blk_map g !! h) as [k|] eqn:Eh.
  { unfold fd_ghost_insert, insert_. by rewrite Eh. }
  destruct (blk_free g) as [|i free'] eqn:Ef.
  { unfold fd_ghost_insert, insert_. by rewrite Eh, Ef. }
  destruct (blk_map g !! ph) as [par|] eqn:Ep.
  - destruct (insert_grows g bs sl h ph i free' par Hg Eh Ef Ep) as (q & w & -> & G & Hw).
    eexists _, _. split; [done|]. split; [by eapply (grown_ghost g q (mk_gblk h sl par null null 0 0 true bs) i par)|].
    split; [apply G|]. split_and!; try done. apply G.
  - unfold fd_ghost_insert. rewrite (insert_ok _ _ _ _ _ _ Eh Ef). simpl.
    rewrite lookup_insert_ne by done. by rewrite Ep.
Qed.

(** ** The heaviest fork *)

(** [fd_ghost_best] prefers more stake and breaks ties by the smaller slot. *)
Definition beats (a b : fd_ghost_blk_t) : Prop :=
  stake b < stake a \/ (stake a = stake b /\ slot a < slot b).

(** [c] is a valid child of [i] that no valid child beats. *)
Definition best_child (p : blks) (i c : Z) : Prop :=
  exists cb, p !! c = Some cb /\ parent cb = i /\ valid cb = true /\
    forall d db, p !! d = Some db -> parent db = i -> valid db = true -> ~ beats db cb.

Definition no_valid_child (p : blks) (i : Z) : Prop :=
  forall d db, p !! d = Some db -> parent db = i -> valid db = false.

Inductive best_path (p : blks) : Z -> Z -> Prop :=
| best_stop i : no_valid_child p i -> best_path p i i
| best_down i c j : best_child p i c -> best_path p c j -> best_path p i j.

Lemma not_beats_trans a b c : ~ beats a b -> ~ beats b c -> ~ beats a c.
Proof. unfold beats. lia. Qed.

Definition better (cb bb : fd_ghost_blk_t) : bool :=
  if stake cb =? stake bb then slot cb <? slot bb else stake bb <? stake cb.

Lemma better_spec a b : better a b = true <-> beats a b.
Proof.
  unfold better, beats. destruct (Z.eqb_spec (stake a) (stake b)); rewrite Z.ltb_lt; lia.
Qed.

(** One child: the kept block is not beaten by the old one nor by the child. *)
Lemma best_child_keep p c b best found :
  c <> null -> p !! c = Some b -> valid b = true ->
  (found = true -> exists bb, p !! best = Some bb) ->
  exists kept kb,
    best_child_step p (c, best, found) = Ok (inl (sibling b, kept, true)) /\
    p !! kept = Some kb /\ ((kept = best /\ found = true) \/ kept = c) /\
    ~ beats b kb /\ (forall ob, found = true -> p !! best = Some ob -> ~ beats ob kb).
Proof.
  intros Hn Hc Ev Hf. unfold best_child_step. rewrite (proj2 (Z.eqb_neq _ _)) by done.
  unfold blk_at. rewrite Hc. simpl. rewrite Ev.
  assert (exists o ob, (if found then best else c) = o /\ p !! o = Some ob /\
            ((o = best /\ found = true) \/ (o = c /\ found = false))) as (o & ob & -> & Ho & Hor).
  { destruct found; [destruct (Hf eq_refl)|]; eauto 10. }
  rewrite Ho. simpl. change (if stake b =? stake ob then _ else _) with (better b ob).
  assert (Hold : forall ob', found = true -> p !! best = Some ob' -> ob' = ob).
  { intros ob' -> Hob'. destruct Hor as [[-> _]|[_ ?]]; [congruence|done]. }
  destruct (better b ob) eqn:Eb.
  - exists c, b. split_and!; [done|done|by right|unfold beats; lia|].
    intros ob' Hfo Hob'. rewrite (Hold _ Hfo Hob'). apply better_spec in Eb. unfold beats in *. lia.
  - exists o, ob. split_and!; [done|done|destruct Hor as [?|[? _]]; auto| |].
    + rewrite <- better_spec. congruence.
    + intros ob' Hfo Hob'. rewrite (Hold _ Hfo Hob'). unfold beats. lia.
Qed.

(** The loop over the children computes a best element of the suffix. *)
Lemma best_child_loop p l c best found n :
  sibs p c l -> (length l < n)%nat ->
  (found = true -> exists bb, p !! best = Some bb) ->
  exists best' found',
    loop (best_child_step p) n (c, best, found) = Ok (best', found') /\
    (found' = false -> found = false /\ best' = best /\
       forall d db, d ∈ l -> p !! d = Some db -> valid db = false) /\
    (found' = true -> exists bb, p !! best' = Some bb /\
       ((best' = best /\ found = true) \/ (best' ∈ l /\ valid bb = true)) /\
       (forall ob, found = true -> p !! best = Some ob -> ~ beats ob bb) /\
       forall d db, d ∈ l -> p !! d = Some db -> valid db = true -> ~ beats db bb).
Proof.
  intros H. revert best found n.
  induction H as [|c b l Hc Hb Hl IH]; intros best found n Hn Hf;
    (destruct n as [|n]; [simpl in *; lia|]); rewrite loop_S.
  - unfold best_child_step at 1. rewrite Z.eqb_refl. exists best, found. split; [done|]. split.
    + intros ->. split_and!; [done..|]. set_solver.
    + intros ->. destruct (Hf eq_refl) as [bb Hbb]. exists bb.
      split_and!; [done|by left| |set_solver]. intros ob _ Hob. unfold beats. simplify_eq. lia.
  - simpl in Hn. destruct (valid b) eqn:Ev.
    + destruct (best_child_keep p c b best found) as (kept & kb & -> & Hk & Hor & Hnb & Hno); [done..|].
      destruct (IH kept true n) as (best' & found' & -> & Hfalse & Htrue); [lia|eauto|].
      exists best', found'. split; [done|]. split; [intros E; destruct (Hfalse E); done|].
      intros E. destruct (Htrue E) as (bb & Hbb & Hor' & Hold & Hall). specialize (Hold kb eq_refl Hk).
      exists bb. split; [done|]. split; [|split].
      * destruct Hor' as [[-> _]|[? ?]]; [|right; set_solver].
        destruct Hor as [[-> ->]| ->]; [by left|]. right. simplify_eq. set_solver.
      * intros ob Hfo Hob. eapply not_beats_trans; [by eapply Hno|done].
      * intros d db [->|Hd]%elem_of_cons Hdb Hv; [|eauto]. simplify_eq.
        by eapply not_beats_trans.
    + unfold best_child_step at 1. rewrite (proj2 (Z.eqb_neq _ _)) by done.
      unfold blk_at. rewrite Hb. simpl. rewrite Ev.
      destruct (IH best found n) as (best' & found' & -> & Hfalse & Htrue); [lia|done|].
      exists best', found'. split; [done|]. split.
      * intros E. destruct (Hfalse E) as (? & ? & Hall). split_and!; [done..|].
        intros d db [->|Hd]%elem_of_cons Hdb; [congruence|eauto].
      * intros E. destruct (Htrue E) as (bb & Hbb & Hor' & Hold & Hall).
        exists bb. split_and!; [done| |done|].
        -- destruct Hor' as [?|[? ?]]; [by left|right; set_solver].
        -- intros d db [->|Hd]%elem_of_cons Hdb; [congruence|eauto].
Qed.

(** One descent step. *)
Lemma best_step_spec g i b :
  ghost_wf g -> blk_pool g !! i = Some b ->
  (no_valid_child (blk_pool g) i /\ best_step g i = Ok (inr i)) \/
  (exists c, best_child (blk_pool g) i c /\ best_step g i = Ok (inl c)).
Proof.
  intros Hg Hb. destruct (tw_children _ _ (gw_tree _ Hg) i b Hb) as (l & Hl & Hin).
  unfold best_step, blk_at. rewrite Hb. simpl.
  destruct (Z.eqb_spec (child b) null) as [E|E].
  { left. split; [|done]. rewrite E in Hl. inversion Hl; subst; [|done].
    intros d db Hd Hp. exfalso. eapply not_elem_of_nil. apply Hin. eauto. }
  destruct (best_child_loop (blk_pool g) l (child b) i false (fuel g) Hl)
    as (best' & found' & -> & Hfalse & Htrue); [pose proof (sibs_length _ _ _ Hl); unfold fuel; lia|done|].
  simpl. destruct found'.
  - right. exists best'. split; [|done].
    destruct (Htrue eq_refl) as (bb & Hbb & [[_ ?]|[Hbl Hv]] & _ & Hall); [done|].
    apply Hin in Hbl as (bb' & Hbb' & Hp).
    assert (bb' = bb) as -> by congruence. exists bb. split_and!; [done..|].
    intros d db Hd Hdp Hdv. eapply (Hall d db); [|done..]. apply Hin. eauto.
  - left. destruct (Hfalse eq_refl) as (_ & -> & Hall). split; [|done].
    intros d db Hd Hp. apply (Hall d db); [|done]. apply Hin. eauto.
Qed.

Lemma best_loop g n i l :
  ghost_wf g -> path (blk_pool g) i l -> is_Some (blk_pool g !! i) ->
  (S (size (blk_pool g)) <= n + length l)%nat ->
  exists j, loop (best_step g) n i = Ok j /\ best_path (blk_pool g) i j.
Proof.
  intros Hg. revert i l. induction n as [|n IH]; intros i l Hl [b Hb] Hn.
  { pose proof (path_length _ _ _ Hl). lia. }
  rewrite loop_S. destruct (best_step_spec g i b Hg Hb) as [[Hno ->]|(c & Hc & ->)].
  - exists i. split; [done|by constructor].
  - pose proof Hc as (cb & Hcb & Hp & _).
    assert (Hcl : path (blk_pool g) c (c :: l)).
    { eapply path_cons; [|done|by rewrite Hp]. intros ->.
      pose proof (tw_null _ _ (gw_tree _ Hg)). congruence. }
    destruct (IH c (c :: l) Hcl) as (j & -> & Hj); [eauto|simpl; lia|].
    exists j. split; [done|by eapply best_down].
Qed.

Lemma best_path_acquired p i j : best_path p i j -> is_Some (p !! i) -> is_Some (p !! j).
Proof. induction 1 as [|i c j (cb & Hcb & _) _ IH]; eauto. Qed.

(** C10. From any block of a well-formed fork tree [fd_ghost_best] terminates at the
    block reached by descending, at every fork, into a valid child that no
    valid sibling beats (more stake, or equal stake and a smaller slot), until
    no child is valid. *)
Theorem ghost_best_heaviest (g : fd_ghost_t) (i : Z) :
  ghost_wf g -> is_Some (blk_pool g !! i) ->
  exists j, fd_ghost_best g i = Ok j /\ best_path (blk_pool g) i j.
Proof.
  intros Hg Hi. destruct (tw_path _ _ (gw_tree _ Hg) i Hi) as [l Hl].
  eapply best_loop; [done..|]. unfold fuel. lia.
Qed.
