(* ===== verification/GhostSubtree.v ===== *)
(** * Subtrees of the fork-choice tree ([src/choreo/ghost/fd_ghost.c])

    The pre-order listing of the blocks below a block, read off the
    left-child / right-sibling pointers, and the operations that change a whole
    subtree or a path: [mark_invalid], [fd_ghost_eqvoc], [fd_ghost_confirm] and
    the ancestor queries. *)

From S2P Require Import Prelude Ghost GhostInv GhostTree.

#[local] Open Scope Z_scope.

(** [forest p par c D]: [D] lists, in pre-order, the subtrees of [c] and of its
    right siblings, all of them children of [par]. *)
Inductive forest (p : blks) : Z -> Z -> list Z -> Prop :=
| forest_nil par : forest p par null []
| forest_cons par c b D1 D2 :
    c <> null -> p !! c = Some b -> parent b = par ->
    forest p c (child b) D1 -> forest p par (sibling b) D2 ->
    forest p par c (c :: D1 ++ D2).

(** [j] is [i] or a block below it. *)
Definition below (p : blks) (i j : Z) : Prop := exists l, path p j l /\ i ∈ l.

Lemma below_child p i j b : j <> null -> p !! j = Some b -> below p i (parent b) -> below p i j.
Proof. intros Hn Hb (l & Hl & Hi). exists (j :: l). split; [by eapply path_cons|set_solver]. Qed.

Lemma below_inv p i j b :
  p !! null = None -> p !! j = Some b -> below p i j -> i = j \/ below p i (parent b).
Proof.
  intros Hn Hb (l & Hl & Hi). inversion Hl as [|? b' l' ? Hb' Hl']; subst; [set_solver|].
  simplify_eq. apply elem_of_cons in Hi as [->|Hi]; [by left|right]. by exists l'.
Qed.

Lemma below_refl p r i : tree_wf p r -> is_Some (p !! i) -> below p i i.
Proof.
  intros T Hi. destruct (tw_path _ _ T i Hi) as [l Hl]. exists l. split; [done|].
  inversion Hl; subst; [|set_solver]. destruct Hi. pose proof (tw_null _ _ T). congruence.
Qed.

Lemma below_trans p i j k : below p i j -> below p j k -> below p i k.
Proof.
  intros (l & Hl & Hi) (l' & Hl' & Hj). destruct (path_in _ _ _ _ Hl' Hj) as (_ & l1 & l2 & -> & Hl2).
  rewrite (path_det _ _ _ _ Hl2 Hl) in *. exists (l1 ++ l). split; [done|set_solver].
Qed.

Lemma below_acquired p i j : below p i j -> is_Some (p !! i) /\ is_Some (p !! j).
Proof.
  intros (l & Hl & Hi). split; [by destruct (path_in _ _ _ _ Hl Hi)|].
  inversion Hl; subst; [set_solver|eauto].
Qed.

(** Every block has a listing of the blocks below it. *)
Lemma forest_exists p r i b :
  tree_wf p r -> p !! i = Some b -> exists D, forest p i (child b) D.
Proof.
  intros T Hb. destruct (tw_path _ _ T i) as [l Hl]; [eauto|].
  assert (Hn : exists n, (size p <= n + length l)%nat) by (exists (size p); lia).
  destruct Hn as [n Hn]. revert i b l Hb Hl Hn. induction n as [|n IH]; intros i b l Hb Hl Hn.
  all: destruct (tw_children _ _ T i b Hb) as (cs & Hcs & Hin).
  all: assert (Hpar : forall j, j ∈ cs -> exists bj, p !! j = Some bj /\ parent bj = i)
    by (intros j; apply Hin); clear Hin.
  - inversion Hcs as [E|c bc cs' Hc Hbc Hcs' E]; subst; [eexists; constructor|]. exfalso.
    destruct (Hpar (child b)) as (bc' & Hbc' & Ep); [set_solver|].
    assert (bc' = bc) as -> by congruence.
    assert (Hcl : path p (child b) (child b :: l)) by (eapply path_cons; [done..|congruence]).
    pose proof (path_length _ _ _ Hcl). simpl in *. lia.
  - remember (child b) as c0 eqn:Ec0. clear Ec0.
    induction Hcs as [|c bc cs' Hc Hbc Hcs' IHs]; [eexists; constructor|].
    destruct IHs as [D2 HD2]; [intros j Hj; apply Hpar; set_solver|].
    destruct (Hpar c) as (bc' & Hbc' & Ep); [set_solver|].
    assert (bc' = bc) as -> by congruence.
    assert (Hcl : path p c (c :: l)) by (eapply path_cons; [done..|congruence]).
    destruct (IH c bc (c :: l) Hbc Hcl) as [D1 HD1]; [simpl; lia|].
    exists (c :: D1 ++ D2). by eapply forest_cons.
Qed.

Section listing.
Context (p : blks) (r : Z) (T : tree_wf p r).

(** The listing of the blocks below [par] only has blocks below [par]. *)
Lemma forest_below par c D j :
  forest p par c D -> is_Some (p !! par) -> j ∈ D -> below p par j /\ j <> par.
Proof using T.
  induction 1 as [|par c b D1 D2 Hc Hb Hp HD1 IH1 HD2 IH2]; intros Hpar Hj; [set_solver|].
  assert (Hcb : below p par c).
  { eapply below_child; [done..|]. rewrite Hp. by eapply below_refl. }
  assert (Hne : forall k, below p c k -> k <> par).
  { intros k Hk ->. destruct (tw_path _ _ T par Hpar) as [l Hl].
    destruct Hk as (l' & Hl' & Hin). rewrite (path_det _ _ _ _ Hl' Hl) in Hin.
    pose proof (path_nodup p c (c :: l)) as Hnd.
    destruct (NoDup_cons_1_1 c l); [|done]. apply Hnd. eapply path_cons; [done..|congruence]. }
  apply elem_of_cons in Hj as [->|[Hj|Hj]%elem_of_app].
  - split; [done|]. apply Hne. eapply below_refl; eauto.
  - destruct IH1 as [Hb1 _]; [eauto|done|]. split; [by eapply below_trans|by apply Hne].
  - by apply IH2.
Qed.

(** ... and has all of them. *)
Lemma forest_sibs par c D l j : forest p par c D -> sibs p c l -> j ∈ l -> j ∈ D.
Proof using T.
  intros H. revert l. induction H as [|par c b D1 D2 Hc Hb Hp HD1 IH1 HD2 IH2]; intros l Hl Hj.
  - inversion Hl; subst; [set_solver|done].
  - inversion Hl as [|? b' l' ? Hb' Hl']; subst; [done|]. simplify_eq.
    apply elem_of_cons in Hj as [->|Hj]; [set_solver|].
    specialize (IH2 _ Hl' Hj). set_solver.
Qed.

Lemma forest_closed par c D j k bk :
  forest p par c D -> j ∈ D -> p !! k = Some bk -> parent bk = j -> k ∈ D.
Proof using T.
  intros H. induction H as [|par c b D1 D2 Hc Hb Hp HD1 IH1 HD2 IH2]; intros Hj Hk Ep; [set_solver|].
  apply elem_of_cons in Hj as [->|[Hj|Hj]%elem_of_app].
  - destruct (tw_children _ _ T c b Hb) as (cs & Hcs & Hin).
    assert (k ∈ D1); [|set_solver]. eapply forest_sibs; [done..|]. apply Hin. eauto.
  - assert (k ∈ D1) by auto. set_solver.
  - assert (k ∈ D2) by auto. set_solver.
Qed.

Lemma forest_complete i b D j :
  p !! i = Some b -> forest p i (child b) D -> below p i j -> j = i \/ j ∈ D.
Proof using T.
  intros Hb HD (l & Hl & Hi). induction Hl as [|j bj l Hj Hbj Hl IH]; [set_solver|].
  apply elem_of_cons in Hi as [->|Hi]; [by left|right].
  destruct (IH Hi) as [E|HD'].
  - destruct (tw_children _ _ T i b Hb) as (cs & Hcs & Hin).
    eapply forest_sibs; [done..|]. apply Hin. eauto.
  - by eapply forest_closed.
Qed.

(** Two children of one block are not above a common block. *)
Lemma below_siblings c c' b b' j :
  p !! c = Some b -> p !! c' = Some b' -> parent b = parent b' ->
  below p c j -> below p c' j -> c = c'.
Proof using T.
  intros Hb Hb' E (l & Hl & Hc) (l' & Hl' & Hc').
  rewrite (path_det _ _ _ _ Hl' Hl) in Hc'. clear Hl' l'.
  destruct (path_in _ _ _ _ Hl Hc) as (_ & l1 & l2 & -> & H2).
  destruct (path_in _ _ _ _ Hl Hc') as (_ & l1' & l2' & El & H2').
  inversion H2 as [|? b2 m ? ? Hm]; subst; [pose proof (tw_null _ _ T); congruence|].
  inversion H2' as [|? b2' m' ? ? Hm']; subst; [pose proof (tw_null _ _ T); congruence|].
  simplify_eq. rewrite E in Hm. rewrite (path_det _ _ _ _ Hm' Hm) in El.
  apply app_inj_2 in El as [_ ?]; [congruence|done].
Qed.

Lemma forest_child_above par c D l j :
  forest p par c D -> sibs p c l -> j ∈ D ->
  exists d bd, d ∈ l /\ p !! d = Some bd /\ parent bd = par /\ below p d j.
Proof using T.
  intros H. revert l. induction H as [|par c b D1 D2 Hc Hb Hp HD1 IH1 HD2 IH2]; intros l Hl Hj;
    [set_solver|].
  inversion Hl as [|? b' l' ? Hb' Hl']; subst; [done|].
  assert (b' = b) as -> by congruence.
  apply elem_of_cons in Hj as [->|[Hj|Hj]%elem_of_app].
  - exists c, b. split_and!; [set_solver|done..|]. eapply below_refl; eauto.
  - exists c, b. split_and!; [set_solver|done..|]. eapply (forest_below c); eauto.
  - destruct (IH2 _ Hl' Hj) as (d & bd & Hd & ?). exists d, bd. split; [set_solver|done].
Qed.

Lemma forest_nodup par c D l : forest p par c D -> sibs p c l -> NoDup D.
Proof using T.
  intros H. revert l. induction H as [|par c b D1 D2 Hc Hb Hp HD1 IH1 HD2 IH2]; intros l Hl;
    [constructor|].
  inversion Hl as [|? b' l' ? Hb' Hl']; subst; [done|].
  assert (b' = b) as -> by congruence.
  pose proof (sibs_nodup _ _ _ Hl) as [Hnl _]%NoDup_cons.
  destruct (tw_children _ _ T c b Hb) as (cs & Hcs & _).
  assert (H1 : forall j, j ∈ c :: D1 -> j ∉ D2).
  { intros j Hj Hj2. destruct (forest_child_above _ _ _ _ _ HD2 Hl' Hj2) as (d & bd & Hd & Hbd & Epd & Hdj).
    assert (below p c j).
    { apply elem_of_cons in Hj as [->|Hj]; [eapply below_refl; eauto|].
      eapply (forest_below c); eauto. }
    assert (c = d) as -> by (by eapply below_siblings). done. }
  apply NoDup_cons. split.
  - intros [Hj|Hj]%elem_of_app.
    + by destruct (forest_below c _ _ c HD1 ltac:(eauto) Hj).
    + eapply H1; [|done]. set_solver.
  - apply NoDup_app. split_and!; [by eapply IH1| |by eapply IH2].
    intros j Hj. apply H1. set_solver.
Qed.
End listing.

(** ** Marking a subtree *)

(** The pool with the blocks of [D] marked invalid. *)
Definition invalidate (D : list Z) (p : blks) : blks :=
  map_imap (fun i b => Some (if decide (i ∈ D) then set_valid b false else b)) p.

Lemma lookup_invalidate D p i :
  invalidate D p !! i = (fun b => if decide (i ∈ D) then set_valid b false else b) <$> p !! i.
Proof. unfold invalidate. rewrite map_lookup_imap. by destruct (p !! i). Qed.

Lemma invalidate_same_shape D p : same_shape p (invalidate D p).
Proof.
  intros i. rewrite lookup_invalidate. destruct (p !! i); simpl; [|done].
  by destruct (decide (i ∈ D)).
Qed.

Lemma invalidate_app D1 D2 p : invalidate D2 (invalidate D1 p) = invalidate (D1 ++ D2) p.
Proof.
  apply map_eq. intros i. rewrite !lookup_invalidate. destruct (p !! i) as [b|]; simpl; [|done].
  destruct (decide (i ∈ D1)), (decide (i ∈ D2)), (decide (i ∈ D1 ++ D2)); set_solver.
Qed.

Lemma invalidate_one p i b : p !! i = Some b -> <[i := set_valid b false]> p = invalidate [i] p.
Proof.
  intros Hb. apply map_eq. intros j. rewrite lookup_invalidate. destruct (decide (j = i)) as [->|Hne].
  - rewrite lookup_insert_eq, Hb. simpl. by rewrite decide_True by set_solver.
  - rewrite lookup_insert_ne by done. destruct (p !! j); simpl; [|done].
    by rewrite decide_False by set_solver.
Qed.

Lemma invalidate_nil p : invalidate [] p = p.
Proof.
  apply map_eq. intros i. rewrite lookup_invalidate. by destruct (p !! i).
Qed.

(** The traversal of a forest: two steps per block. *)
Lemma mark_forest p rt par c D q n :
  forest p par c D -> c <> null -> same_shape p q -> rt ∉ D ->
  loop (mark_invalid_step rt) (2 * length D + n) (q, Visit, c) =
  loop (mark_invalid_step rt) n (invalidate D q, Back, par).
Proof.
  intros H. revert q n. induction H as [|par c b D1 D2 Hc Hb Hp HD1 IH1 HD2 IH2]; intros q n Hcn Hss Hrt; [done|].
  destruct (same_shape_lookup _ _ _ _ Hss Hb) as (bq & Hbq & Hsh).
  assert (child bq = child b /\ sibling bq = sibling b /\ parent bq = par) as (E1 & E2 & E3)
    by (unfold shape in Hsh; split_and!; congruence).
  assert (Hcrt : c <> rt) by set_solver.
  replace (2 * length (c :: D1 ++ D2) + n)%nat
    with (S (2 * length D1 + S (2 * length D2 + n))) by (simpl; rewrite length_app; lia).
  (* the visit of [c] and of the blocks below it *)
  assert (Hvisit : loop (mark_invalid_step rt) (S (2 * length D1 + S (2 * length D2 + n))) (q, Visit, c) =
    loop (mark_invalid_step rt) (S (2 * length D2 + n)) (invalidate (c :: D1) q, Back, c)).
  { rewrite loop_S. simpl. unfold blk_at at 1. rewrite Hbq. simpl. rewrite E1.
    rewrite (invalidate_one _ _ _ Hbq). destruct (Z.eqb_spec (child b) null) as [E|E].
    - rewrite E in HD1. inversion HD1; subst; done.
    - rewrite IH1; [|done| |set_solver].
      + by rewrite (invalidate_app [c]).
      + etrans; [done|]. apply invalidate_same_shape. }
  rewrite Hvisit, loop_S. simpl. rewrite (proj2 (Z.eqb_neq _ _)) by done.
  assert (exists b', invalidate (c :: D1) q !! c = Some b' /\ sibling b' = sibling b /\ parent b' = par)
    as (b' & Hb' & Es & Epar).
  { rewrite lookup_invalidate, Hbq. simpl. eexists. split; [done|]. by destruct (decide _). }
  unfold blk_at at 1. rewrite Hb'. simpl. rewrite Es, Epar.
  destruct (Z.eqb_spec (sibling b) null) as [E|E].
  - rewrite E in HD2. inversion HD2; subst; [|done]. simpl. by rewrite app_nil_r.
  - assert (Hsr : sibling b <> rt).
    { inversion HD2; subst; [congruence|]. set_solver. }
    rewrite (proj2 (Z.eqb_neq _ _) Hsr). rewrite IH2; [|done| |set_solver].
    + by rewrite (invalidate_app (c :: D1)).
    + etrans; [done|]. apply invalidate_same_shape.
Qed.

(** [mark_invalid] marks a listing of the subtree and nothing else. *)
Lemma mark_invalid_spec g i b D :
  ghost_wf g -> blk_pool g !! i = Some b -> forest (blk_pool g) i (child b) D ->
  mark_invalid g i = Ok (with_pool g (invalidate (i :: D) (blk_pool g))).
Proof.
  intros Hg Hb HD. pose proof (gw_tree _ Hg) as T.
  destruct (tw_children _ _ T i b Hb) as (cs & Hcs & _).
  assert (Hi : i ∉ D).
  { intros Hin. eapply (forest_below _ _ T) in Hin; [|done|eauto]. tauto. }
  assert (Hlen : (S (length D) <= size (blk_pool g))%nat).
  { apply (nodup_size (blk_pool g) (i :: D)).
    - apply NoDup_cons. split; [done|]. by eapply forest_nodup.
    - intros j [->|Hj]%elem_of_cons; [eauto|].
      eapply (forest_below _ _ T) in Hj as [Hj _]; [|done|eauto].
      apply below_acquired in Hj. tauto. }
  unfold mark_invalid. cut (loop (mark_invalid_step i) (2 * fuel g) (blk_pool g, Visit, i) =
    Ok (invalidate (i :: D) (blk_pool g))); [by intros ->|].
  assert (exists n, (2 * fuel g = S (2 * length D + S n))%nat) as [n ->].
  { exists (2 * fuel g - 2 * length D - 2)%nat. unfold fuel. lia. }
  rewrite loop_S. simpl. unfold blk_at at 1. rewrite Hb. simpl. rewrite (invalidate_one _ _ _ Hb).
  assert (Hback : forall p m, loop (mark_invalid_step i) (S m) (p, Back, i) = Ok p).
  { intros p m. rewrite loop_S. simpl. by rewrite Z.eqb_refl. }
  destruct (Z.eqb_spec (child b) null) as [E|E].
  - rewrite E in HD. inversion HD; subst; [|done]. apply Hback.
  - rewrite (mark_forest (blk_pool g) i i (child b) D); [|done..|apply invalidate_same_shape|done].
    by rewrite Hback, invalidate_app.
Qed.

(** Changing only validity keeps the invariants. *)
Lemma ghost_wf_revalid g p :
  ghost_wf g -> same_shape (blk_pool g) p ->
  (forall i b b', blk_pool g !! i = Some b -> p !! i = Some b' -> stake b' = stake b) ->
  ghost_wf (with_pool g p).
Proof.
  intros [Ht Hf Hw Hm Hv Hs] Hss Hst.
  change (with_pool g p) with (with_vtrs (with_pool g p) (vtr_map g) (vtr_free g) (vtr_dlist g)).
  split; simpl.
  - by rewrite <- Hss.
  - by apply free_wf_same_shape.
  - by rewrite <- (leaves_same_shape _ _ Hss).
  - by apply map_wf_same_shape.
  - by destruct Hv.
  - intros i b' Hb'. simpl in Hb'.
    pose proof Hss as Hss'. symmetry in Hss'.
    destruct (same_shape_lookup _ _ _ _ Hss' Hb') as (b & Hb & _).
    rewrite (Hst i b b' Hb Hb'), (Hs i b Hb). unfold weight. simpl.
    apply sum_map_ext. intros. by apply contrib_same_shape.
Qed.

(** Fork choice only moves down into valid blocks. *)
Lemma best_path_valid p i j : best_path p i j -> j = i \/ exists b, p !! j = Some b /\ valid b = true.
Proof.
  induction 1 as [i|i c j (cb & Hcb & _ & Hv & _) _ IH]; [by left|right].
  destruct IH as [->|?]; [by exists cb|done].
Qed.

(** When a block turns out to be equivocating, [fd_ghost_eqvoc] marks exactly
    the block and its descendants invalid, keeps the tree well formed, and
    from then on [fd_ghost_best], from any block outside that subtree,
    terminates outside it. *)
Theorem ghost_eqvoc_subtree (g : fd_ghost_t) (h : fd_hash_t) (i : Z) :
  ghost_wf g -> blk_map g !! h = Some i ->
  exists g', fd_ghost_eqvoc g h = Ok g' /\ ghost_wf g' /\
    (forall j b, blk_pool g !! j = Some b -> exists b', blk_pool g' !! j = Some b' /\
       (below (blk_pool g) i j -> b' = set_valid b false) /\
       (~ below (blk_pool g) i j -> b' = b)) /\
    (forall k, is_Some (blk_pool g !! k) -> ~ below (blk_pool g) i k ->
       exists j, fd_ghost_best g' k = Ok j /\ ~ below (blk_pool g) i j).
Proof.
  intros Hg Hh. pose proof (gw_tree _ Hg) as T.
  destruct (proj1 (gw_map _ Hg h i) Hh) as (b & Hb & _).
  destruct (forest_exists _ _ _ _ T Hb) as [D HD].
  unfold fd_ghost_eqvoc. rewrite Hh, (mark_invalid_spec _ _ _ _ Hg Hb HD).
  assert (HD' : forall j, j ∈ i :: D <-> below (blk_pool g) i j).
  { intros j. rewrite elem_of_cons. split.
    - intros [->|Hj]; [eapply below_refl; eauto|].
      by eapply (forest_below _ _ T) in Hj as [Hj _]; [|done|eauto].
    - by eapply forest_complete. }
  assert (Hwf : ghost_wf (with_pool g (invalidate (i :: D) (blk_pool g)))).
  { apply ghost_wf_revalid; [done|apply invalidate_same_shape|].
    intros j bj b' Hj. rewrite lookup_invalidate, Hj. intros [= <-]. by destruct (decide _). }
  eexists. split; [done|]. split; [done|]. split.
  - intros j bj Hj. eexists. split; [simpl; rewrite lookup_invalidate, Hj; done|].
    rewrite <- HD'. by destruct (decide (j ∈ i :: D)).
  - intros k [bk Hk] Hnk.
    assert (Hk' : is_Some (invalidate (i :: D) (blk_pool g) !! k))
      by (rewrite lookup_invalidate, Hk; eauto).
    destruct (tw_path _ _ (gw_tree _ Hwf) k Hk') as [l Hl].
    destruct (best_loop _ (fuel (with_pool g (invalidate (i :: D) (blk_pool g)))) k l Hwf Hl)
      as (j & E & Hj); [done|unfold fuel; lia|].
    exists j. split; [done|]. destruct (best_path_valid _ _ _ Hj) as [->|(bj & Hbj & Hv)]; [done|].
    rewrite <- HD'. intros Hin. simpl in Hbj. rewrite lookup_invalidate in Hbj.
    apply fmap_Some in Hbj as (b0 & _ & ->). by rewrite decide_True in Hv.
Qed.

(** ** Walking up *)

Section predicate.
Context (p : blks) (pred : fd_ghost_blk_t -> bool).

Lemma predicate_ancestor_loop i l n :
  path p i l -> (length l < n)%nat ->
  exists j pre suf, loop (predicate_ancestor_step p pred) n i = Ok j /\ l = pre ++ suf /\
    (forall k b, k ∈ pre -> p !! k = Some b -> pred b = false) /\
    match suf with
    | [] => j = null
    | k :: _ => j = k /\ exists b, p !! k = Some b /\ pred b = true
    end.
Proof.
  intros H. revert n. induction H as [|i b l Hi Hb Hl IH]; intros n Hn;
    (destruct n as [|n]; [simpl in *; lia|]); rewrite loop_S; unfold predicate_ancestor_step at 1.
  - rewrite Z.eqb_refl. exists null, [], []. split_and!; [done..|set_solver|done].
  - rewrite (proj2 (Z.eqb_neq _ _)) by done. unfold blk_at. rewrite Hb. simpl.
    destruct (pred b) eqn:Ep.
    + exists i, [], (i :: l). split_and!; [done..|set_solver|done|eauto].
    + simpl in Hn. destruct (IH n) as (j & pre & suf & -> & -> & Hpre & Hsuf); [lia|].
      exists j, (i :: pre), suf. split_and!; [done..| |done].
      intros k bk [->|Hk]%elem_of_cons Hbk; [congruence|eauto].
Qed.
End predicate.

(** The walk finds a block at or above [i] that satisfies the predicate, if
    there is one. *)
Lemma predicate_ancestor_spec g i pred :
  ghost_wf g -> is_Some (blk_pool g !! i) ->
  exists a, predicate_ancestor g i pred = Ok a /\
    (a <> null -> exists b, blk_pool g !! a = Some b /\ pred b = true /\ below (blk_pool g) a i) /\
    (a = null -> forall k b, below (blk_pool g) k i -> blk_pool g !! k = Some b -> pred b = false).
Proof.
  intros Hg Hi. pose proof (gw_tree _ Hg) as T. destruct (tw_path _ _ T i Hi) as [l Hl].
  destruct (predicate_ancestor_loop (blk_pool g) pred i l (S (fuel g)) Hl)
    as (a & pre & suf & E & -> & Hpre & Hsuf); [pose proof (path_length _ _ _ Hl); unfold fuel; lia|].
  exists a. split; [done|]. destruct suf as [|k suf].
  - subst a. split; [done|]. intros _ k b (l' & Hl' & Hin).
    rewrite (path_det _ _ _ _ Hl' Hl), app_nil_r in Hin. by apply Hpre.
  - destruct Hsuf as (-> & b & Hb & Hp). split.
    + intros _. exists b. split; [done|]. split; [done|]. eexists. split; [exact Hl|set_solver].
    + intros ->. pose proof (tw_null _ _ T). congruence.
Qed.

(** [fd_ghost_ancestor] decides ancestry: it returns the block with the given
    id when that block is the descendant itself or above it, and NULL
    otherwise. *)
Theorem ghost_ancestor_correct (g : fd_ghost_t) (i : Z) (h : fd_hash_t) :
  ghost_wf g -> is_Some (blk_pool g !! i) ->
  exists a, fd_ghost_ancestor g i h = Ok a /\
    (a <> null <-> exists k, blk_map g !! h = Some k /\ below (blk_pool g) k i) /\
    (a <> null -> fd_ghost_query g h = Some a).
Proof.
  intros Hg Hi. destruct (predicate_ancestor_spec g i (fun b => id b =? h) Hg Hi) as (a & E & Hs & Hn).
  exists a. split; [done|].
  assert (Hq : a <> null -> blk_map g !! h = Some a).
  { intros Ha. destruct (Hs Ha) as (b & Hb & Hid%Z.eqb_eq & _). apply (gw_map _ Hg). eauto. }
  split; [|done]. split.
  - intros Ha. exists a. split; [auto|]. destruct (Hs Ha) as (_ & _ & _ & ?). done.
  - intros (k & Hk & Hbel) Ha. apply (gw_map _ Hg) in Hk as (b & Hb & Hid).
    specialize (Hn Ha k b Hbel Hb). simpl in Hn. apply Z.eqb_neq in Hn. done.
Qed.
