(* ===== verification/GhostPublish.v ===== *)
(** * Publishing a new root ([fd_ghost_publish] of [src/choreo/ghost/fd_ghost.c])

    The breadth-first prune keeps exactly the subtree of the new root, together
    with the votes parked in it, and returns everything else to the pools. *)

From S2P Require Import Prelude Ghost GhostInv GhostTree GhostSubtree.

#[local] Open Scope Z_scope.

(** ** Lists and maps *)

Lemma filter_none (x : Z) (l : list Z) : x ∉ l -> filter (fun c => c <> x) l = l.
Proof.
  induction l as [|y l IH]; [done|]. intros Hx. rewrite filter_cons_True by set_solver.
  f_equal. apply IH. set_solver.
Qed.

Lemma filter_one (x : Z) (l : list Z) : NoDup l -> x ∈ l -> l ≡ₚ x :: filter (fun c => c <> x) l.
Proof.
  induction l as [|y l IH]; [set_solver|]. intros [Hy Hnd]%NoDup_cons [->|Hx]%elem_of_cons.
  - rewrite filter_cons_False by tauto. by rewrite filter_none.
  - rewrite filter_cons_True by (intros ->; done). rewrite (IH Hnd Hx) at 1. constructor.
Qed.

Lemma size_foldr_delete {V} (l : list Z) (m : gmap Z V) :
  NoDup l -> (forall a, a ∈ l -> is_Some (m !! a)) ->
  (size (foldr delete m l) + length l = size m)%nat.
Proof.
  induction l as [|a l IH]; simpl; [lia|]. intros [Ha Hnd]%NoDup_cons Hin.
  destruct (Hin a) as [v Hv]; [set_solver|].
  assert (Hl : foldr delete m l !! a = Some v) by (by apply lookup_foldr_delete_Some).
  rewrite <- IH by (done || (intros b Hb; apply Hin; set_solver)).
  rewrite <- (insert_delete_id (foldr delete m l) a v) at 2 by done.
  rewrite map_size_insert_None by apply lookup_delete_eq. lia.
Qed.

(** An element of a duplicate-free list splits it in one way. *)
Lemma NoDup_split_eq (x : Z) (l1 l2 m1 m2 : list Z) :
  NoDup (l1 ++ x :: l2) -> l1 ++ x :: l2 = m1 ++ x :: m2 -> l1 = m1 /\ l2 = m2.
Proof.
  revert m1. induction l1 as [|y l1 IH]; intros [|z m1]; simpl.
  - naive_solver.
  - intros [Hx _]%NoDup_cons [= -> ->]. set_solver.
  - intros [Hy _]%NoDup_cons [= -> <-]. set_solver.
  - intros [_ Hnd]%NoDup_cons [= -> E]. destruct (IH m1 Hnd E). by subst.
Qed.

(** ** One block's children *)

(** The children that are pruned. *)
Definition doomed (newr : Z) (l : list Z) : list Z := filter (fun c => c <> newr) l.

(** One fork less for every child but one. *)
Definition forks (l : list Z) : Z := Z.of_nat (pred (length l)).

(** Taking the blocks of [l] out of the id map. *)
Definition unmap (p : blks) (l : list Z) (m : gmap fd_hash_t Z) : gmap fd_hash_t Z :=
  foldr (fun c m => match p !! c with Some b => delete (id b) m | None => m end) m l.

Lemma lookup_unmap p l m h i :
  unmap p l m !! h = Some i <->
  m !! h = Some i /\ forall c b, c ∈ l -> p !! c = Some b -> id b <> h.
Proof.
  induction l as [|c l IH]; simpl.
  - split; [|tauto]. intros H. split; [done|]. set_solver.
  - destruct (p !! c) as [b|] eqn:Hc.
    + rewrite lookup_delete_Some, IH. split.
      * intros (Hne & Hm & Hl). split; [done|]. intros c' b' [->|Hc']%elem_of_cons Hb'; [congruence|eauto].
      * intros (Hm & Hl). split; [eapply (Hl c b); [set_solver|done]|]. split; [done|].
        intros c' b' Hc'. apply Hl. set_solver.
    + rewrite IH. split; intros (Hm & Hl); (split; [done|]).
      * intros c' b' [->|Hc']%elem_of_cons Hb'; [congruence|eauto].
      * intros c' b' Hc'. apply Hl. set_solver.
Qed.

Lemma unmap_delete p l m h : unmap p l (delete h m) = delete h (unmap p l m).
Proof.
  induction l as [|c l IH]; simpl; [done|]. destruct (p !! c); [|done].
  by rewrite IH, delete_delete.
Qed.

Lemma publish_children_loop p newr c l m queue w n :
  sibs p c l -> (length l < n)%nat ->
  (forall d b, d ∈ l -> d <> newr -> p !! d = Some b -> m !! id b = Some d) ->
  (forall d b d' b', p !! d = Some b -> p !! d' = Some b' -> id b = id b' -> d = d') ->
  loop (publish_children_step p newr) n (c, m, queue, u64 w) =
    Ok (unmap p (doomed newr l) m, queue ++ doomed newr l, u64 (w - forks l)).
Proof.
  intros H. revert m queue w n.
  induction H as [|c b l Hc Hb Hl IH]; intros m queue w n Hn Hm Hinj;
    (destruct n as [|n]; [simpl in *; lia|]); rewrite loop_S; unfold publish_children_step at 1.
  - rewrite Z.eqb_refl. unfold forks. simpl. by rewrite app_nil_r, Z.sub_0_r.
  - rewrite (proj2 (Z.eqb_neq _ _)) by done. unfold blk_at. rewrite Hb. simpl. simpl in Hn.
    pose proof (sibs_nodup _ _ _ (sibs_cons _ _ _ _ Hc Hb Hl)) as [Hcl _]%NoDup_cons.
    assert ((if sibling b =? null then u64 w else u64 (u64 w - 1)) =
            u64 (w - forks (c :: l) + forks l)) as ->.
    { unfold forks. simpl. inversion Hl as [E|? b' l' Hn' Hb' Hl' E]; subst.
      - rewrite Z.eqb_refl. f_equal. simpl. lia.
      - rewrite (proj2 (Z.eqb_neq _ _)) by done. rewrite u64_sub_l. f_equal. simpl. lia. }
    unfold doomed. rewrite filter_cons. destruct (Z.eqb_spec c newr) as [->|Hne].
    + rewrite decide_False by tauto. simpl. rewrite IH; [|lia| |done].
      * f_equal. f_equal. f_equal. lia.
      * intros d bd Hd. apply Hm. set_solver.
    + rewrite decide_True by done. simpl. rewrite (Hm c b), Hb by set_solver. simpl.
      rewrite IH; [|lia| |done].
      * rewrite unmap_delete, <- app_assoc. f_equal. f_equal. f_equal. lia.
      * intros d bd Hd Hdn Hbd. rewrite lookup_delete_ne; [apply Hm; set_solver|].
        intros E. assert (c = d) as -> by eauto. done.
Qed.

(** ** The prune loop *)

Section publish.
Context (g0 : fd_ghost_t) (newr : Z) (nb : fd_ghost_blk_t).
Context (Hg : ghost_wf g0) (Hnb : blk_pool g0 !! newr = Some nb).

#[local] Abbreviation p0 := (blk_pool g0).

(** The new root is a root of its own once its parent is gone. *)
Definition apart (p : blks) : Z := if decide (is_Some (p !! parent nb)) then 0 else 1.

Record pub_inv (g : fd_ghost_t) (queue : list Z) : Prop := mk_pub_inv {
  pi_sub : forall i b, blk_pool g !! i = Some b -> p0 !! i = Some b;
  pi_closed : forall k bk, p0 !! k = Some bk -> is_Some (blk_pool g !! parent bk) ->
    is_Some (blk_pool g !! k);
  pi_new : is_Some (blk_pool g !! newr);
  pi_orphan : forall i b, blk_pool g !! i = Some b ->
    is_Some (blk_pool g !! parent b) \/ i ∈ queue \/ i = newr;
  pi_queue : forall i, i ∈ queue -> exists b, blk_pool g !! i = Some b /\
    blk_pool g !! parent b = None /\ i <> newr /\ ~ below p0 newr i;
  pi_nodup : NoDup queue;
  pi_map : forall h i, blk_map g !! h = Some i <->
    exists b, blk_pool g !! i = Some b /\ id b = h /\ i ∉ queue;
  pi_vtr : forall a v, vtr_map g !! a = Some v <-> vtr_map g0 !! a = Some v /\
    exists i, blk_map g0 !! prev_block_id v = Some i /\ is_Some (blk_pool g !! i);
  pi_dlist : forall i, dlist g i = if decide (is_Some (blk_pool g !! i)) then dlist g0 i else [];
  pi_vfree : vtr_free g + Z.of_nat (size (vtr_map g)) =
             vtr_free g0 + Z.of_nat (size (vtr_map g0));
  pi_free : free_wf g;
  pi_cap : (size (blk_pool g) + length (blk_free g) = size p0 + length (blk_free g0))%nat;
  pi_width : width g = u64 (leaves (blk_pool g) - Z.of_nat (length queue) - apart (blk_pool g) + 1);
}.

Section step.
Context (g : fd_ghost_t) (head : Z) (queue : list Z) (hb : fd_ghost_blk_t) (l : list Z).
Context (I : pub_inv g (head :: queue)).
Context (Hhb : blk_pool g !! head = Some hb) (Hl : sibs p0 (child hb) l).
Context (Hin : forall j, j ∈ l <-> exists bj, p0 !! j = Some bj /\ parent bj = head).

#[local] Abbreviation p := (blk_pool g).
#[local] Abbreviation p' := (delete head (blk_pool g)).
#[local] Abbreviation queue' := (queue ++ doomed newr l).

Definition publish_next : fd_ghost_t :=
  mk_ghost (root g) (u64 (leaves p - Z.of_nat (length (head :: queue)) - apart p + 1 - forks l))
    p' (head :: blk_free g) (unmap p (doomed newr l) (blk_map g))
    (foldr delete (vtr_map g) (dlist g head))
    (vtr_free g + Z.of_nat (length (dlist g head))) (<[head := []]> (vtr_dlist g)).

Lemma ps_head : p !! parent hb = None /\ head <> newr /\ ~ below p0 newr head.
Proof using All.
  destruct (pi_queue _ _ I head) as (b & Hb & ?); [set_solver|]. by simplify_eq.
Qed.

(** The children of the head are live, and not queued. *)
Lemma ps_child j : j ∈ l ->
  exists bj, p !! j = Some bj /\ parent bj = head /\ j <> head /\ j ∉ head :: queue.
Proof using All.
  intros (bj & Hj & Ep)%Hin. destruct ps_head as (Hnone & _).
  destruct (pi_closed _ _ I j bj Hj) as [bj' Hj']; [rewrite Ep; eauto|].
  assert (bj' = bj) as -> by (apply (pi_sub _ _ I) in Hj'; congruence).
  exists bj. assert (Hjq : j ∉ head :: queue).
  { intros Hq. destruct (pi_queue _ _ I j Hq) as (b & Hb & Hn & _). congruence. }
  split_and!; [done..| |done]. set_solver.
Qed.

Lemma ps_sibs : sibs p (child hb) l.
Proof using All.
  eapply sibs_siblings; [|done]. intros j b Hj Hb.
  destruct (ps_child j Hj) as (bj & Hbj & _). exists bj. split; [done|].
  apply (pi_sub _ _ I) in Hbj. congruence.
Qed.

Lemma ps_inj d b d' b' : p !! d = Some b -> p !! d' = Some b' -> id b = id b' -> d = d'.
Proof using All.
  intros Hd%(pi_sub _ _ I) Hd'%(pi_sub _ _ I) E.
  assert (blk_map g0 !! id b = Some d) by (apply (gw_map _ Hg); eauto).
  assert (blk_map g0 !! id b = Some d') by (apply (gw_map _ Hg); eauto). congruence.
Qed.

Lemma ps_step : publish_step newr (g, head :: queue) = Ok (inl (publish_next, queue')).
Proof using All.
  unfold publish_step, blk_at. rewrite Hhb. simpl. rewrite (pi_width _ _ I).
  rewrite (publish_children_loop p newr (child hb) l); [done|apply ps_sibs| | |].
  - pose proof (sibs_length _ _ _ ps_sibs). unfold fuel. lia.
  - intros d b Hd _ Hb. apply (pi_map _ _ I). exists b. split_and!; [done..|].
    by destruct (ps_child d Hd) as (_ & _ & _ & _ & ?).
  - apply ps_inj.
Qed.

Lemma ps_doomed j : j ∈ doomed newr l <-> j ∈ l /\ j <> newr.
Proof using Type. unfold doomed. rewrite list_elem_of_filter. tauto. Qed.

(** The children of a live block that is not the head stay live. *)
Lemma ps_tree :
  (forall k bk, p0 !! k = Some bk -> is_Some (p' !! parent bk) -> is_Some (p' !! k)) /\
  (forall i b, p' !! i = Some b -> is_Some (p' !! parent b) \/ i ∈ queue' \/ i = newr) /\
  (forall i, i ∈ queue' -> exists b, p' !! i = Some b /\ p' !! parent b = None /\
     i <> newr /\ ~ below p0 newr i) /\
  NoDup queue'.
Proof using All.
  destruct ps_head as (Hnone & Hhn & Hnb').
  pose proof (pi_nodup _ _ I) as [Hnq Hq]%NoDup_cons. split_and!.
  - intros k bk Hk [pb [Hne Hpb]%lookup_delete_Some].
    destruct (pi_closed _ _ I k bk Hk) as [b Hb]; [eauto|].
    exists b. apply lookup_delete_Some. split; [|done]. intros <-.
    assert (b = bk) by (apply (pi_sub _ _ I) in Hb; congruence). congruence.
  - intros i b [Hne Hb]%lookup_delete_Some. destruct (decide (parent b = head)) as [E|E].
    + right. assert (i ∈ l) by (apply Hin; exists b; split; [by apply (pi_sub _ _ I)|done]).
      destruct (decide (i = newr)); [by right|]. left. rewrite elem_of_app, ps_doomed. tauto.
    + destruct (pi_orphan _ _ I i b Hb) as [[pb Hpb]|[Hi|Hi]].
      * left. exists pb. by apply lookup_delete_Some.
      * right. left. set_solver.
      * by right; right.
  - intros i [Hi|[Hi Hin']%ps_doomed]%elem_of_app.
    + destruct (pi_queue _ _ I i) as (b & Hb & Hn & ?); [set_solver|].
      exists b. split; [apply lookup_delete_Some; split; [set_solver|done]|].
      split; [|done]. rewrite lookup_delete_None. by right.
    + destruct (ps_child i Hi) as (b & Hb & Ep & Hne & _). exists b.
      split; [by apply lookup_delete_Some|]. split; [rewrite Ep; apply lookup_delete_eq|].
      split; [done|]. intros Hbel.
      eapply below_inv in Hbel as [E|Hbel]; [done| |apply (tw_null _ _ (gw_tree _ Hg))|by apply (pi_sub _ _ I)].
      by rewrite Ep in Hbel.
  - apply NoDup_app. split_and!; [done| |].
    + intros j Hj [Hj' _]%ps_doomed. destruct (ps_child j Hj') as (_ & _ & _ & _ & ?). set_solver.
    + apply NoDup_filter. by eapply sibs_nodup.
Qed.

Lemma ps_map h i :
  unmap p (doomed newr l) (blk_map g) !! h = Some i <->
  exists b, p' !! i = Some b /\ id b = h /\ i ∉ queue'.
Proof using All.
  rewrite lookup_unmap, (pi_map _ _ I h i). split.
  - intros ((b & Hb & Hid & Hq) & Hd). exists b. split; [apply lookup_delete_Some; split; set_solver|].
    split; [done|]. intros [Hi|Hi]%elem_of_app; [set_solver|]. by destruct (Hd i b Hi Hb).
  - intros (b & [Hne Hb]%lookup_delete_Some & Hid & Hq). split; [exists b; set_solver|].
    intros c bc Hc Hbc E. assert (c = i) as -> by (eapply ps_inj; [done..|congruence]). set_solver.
Qed.

(** The voters parked on the head are those whose last vote is for it. *)
Lemma ps_parked a :
  a ∈ dlist g head <-> exists v, vtr_map g !! a = Some v /\ blk_map g0 !! prev_block_id v = Some head.
Proof using All.
  rewrite (pi_dlist _ _ I), decide_True by eauto. split.
  - intros Ha. destruct (vw_dlist _ (gw_votes _ Hg) _ _ Ha) as (v & Hv & Hi).
    exists v. split; [|done]. apply (pi_vtr _ _ I). eauto.
  - intros (v & [Hv _]%(pi_vtr _ _ I) & Hi).
    destruct (vw_parked _ (gw_votes _ Hg) _ _ Hv) as (_ & j & Hj & Ha). congruence.
Qed.

Lemma ps_vtr a v :
  foldr delete (vtr_map g) (dlist g head) !! a = Some v <->
  vtr_map g0 !! a = Some v /\
    exists i, blk_map g0 !! prev_block_id v = Some i /\ is_Some (p' !! i).
Proof using All.
  rewrite lookup_foldr_delete_Some, (pi_vtr _ _ I), ps_parked. split.
  - intros (Hn & Hv & i & Hi & b & Hb). split; [done|]. exists i. split; [done|]. exists b.
    apply lookup_delete_Some. split; [|done]. intros ->. apply Hn. exists v.
    rewrite (pi_vtr _ _ I). eauto 10.
  - intros (Hv & i & Hi & b & [Hne Hb]%lookup_delete_Some). split; [|eauto 10].
    intros (v' & Hv' & Hi'). apply (pi_vtr _ _ I) in Hv' as [Hv' _]. congruence.
Qed.

Lemma ps_free : free_wf publish_next /\
  (size p' + length (head :: blk_free g) = size p0 + length (blk_free g0))%nat.
Proof using All.
  assert (Hsz : size p = S (size p')) by
    (rewrite <- (insert_delete_id p head hb) at 1 by done;
     apply map_size_insert_None, lookup_delete_eq).
  pose proof (pi_cap _ _ I). destruct (pi_free _ _ I) as [F1 F2 F3].
  split; [|simpl; lia]. split; simpl.
  - apply NoDup_cons. split; [|done]. intros Hf. destruct (F2 head Hf). congruence.
  - intros i [->|Hi]%elem_of_cons.
    + split; [|apply lookup_delete_eq]. intros ->. apply (pi_sub _ _ I) in Hhb.
      pose proof (tw_null _ _ (gw_tree _ Hg)). congruence.
    + destruct (F2 i Hi). split; [done|]. rewrite lookup_delete_None. by right.
  - lia.
Qed.

Lemma ps_width :
  leaves p - Z.of_nat (length (head :: queue)) - apart p + 1 - forks l =
  leaves p' - Z.of_nat (length queue') - apart p' + 1.
Proof using All.
  assert (leaves p = leaf hb + leaves p') as ->.
  { rewrite <- (leaves_insert _ head) by apply lookup_delete_eq. by rewrite insert_delete_id. }
  assert (Hdl : Z.of_nat (length (doomed newr l)) = Z.of_nat (length l) - (apart p' - apart p)).
  { pose proof (sibs_nodup _ _ _ Hl) as Hnd. unfold apart.
    assert (Hnl : newr ∈ l <-> parent nb = head).
    { rewrite Hin. split; [intros (b & Hb & E); congruence|eauto]. }
    destruct (decide (newr ∈ l)) as [Hn|Hn].
    - rewrite (decide_True _ _ (P := is_Some (p !! parent nb))) by (rewrite (proj1 Hnl Hn); eauto).
      rewrite (proj1 Hnl Hn), lookup_delete_eq, decide_False by (intros [? [=]]).
      rewrite (Permutation_length (filter_one newr l Hnd Hn)). simpl. unfold doomed. lia.
    - assert (doomed newr l = l) as ->.
      { by apply filter_none. }
      assert (parent nb <> head) by (rewrite <- Hnl; done).
      rewrite lookup_delete_ne by done. lia. }
  rewrite length_app, Nat2Z.inj_add, Hdl. simpl length.
  assert (leaf hb = if decide (l = []) then 1 else 0) as ->.
  { unfold leaf. inversion Hl as [E|c b l' Hc Hb Hl' E]; subst.
    - by rewrite Z.eqb_refl.
    - by rewrite (proj2 (Z.eqb_neq _ _)). }
  unfold forks. destruct l; simpl; lia.
Qed.

Lemma publish_next_inv : pub_inv publish_next queue'.
Proof using All.
  destruct ps_tree as (H1 & H2 & H3 & H4). destruct ps_free as [H5 H6].
  destruct ps_head as (_ & Hhn & _).
  split; try done; simpl.
  - intros i b [_ Hb]%lookup_delete_Some. by apply (pi_sub _ _ I).
  - destruct (pi_new _ _ I) as [b Hb]. exists b. by apply lookup_delete_Some.
  - apply ps_map.
  - apply ps_vtr.
  - intros i. unfold dlist at 1. simpl. destruct (decide (i = head)) as [->|Hne].
    + rewrite lookup_insert_eq. by rewrite decide_False by (rewrite lookup_delete_eq; intros [? [=]]).
    + rewrite lookup_insert_ne, lookup_delete_ne by done. apply (pi_dlist _ _ I i).
  - rewrite <- (pi_vfree _ _ I). rewrite <- (size_foldr_delete (dlist g head) (vtr_map g)); [lia| |].
    + rewrite (pi_dlist _ _ I). destruct (decide _); [apply (gw_votes _ Hg)|constructor].
    + intros a (v & Hv & _)%ps_parked. eauto.
  - exact (f_equal u64 ps_width).
Qed.
End step.

Lemma publish_loop n g queue :
  pub_inv g queue -> (size (blk_pool g) < n)%nat ->
  exists g', loop (publish_step newr) n (g, queue) = Ok g' /\ pub_inv g' [].
Proof using All.
  revert g queue. induction n as [|n IH]; intros g queue I Hn; [lia|]. rewrite loop_S.
  destruct queue as [|head queue]; [by exists g|].
  destruct (pi_queue _ _ I head) as (hb & Hhb & _); [set_solver|].
  destruct (tw_children _ _ (gw_tree _ Hg) head hb) as (l & Hl & Hin); [by apply (pi_sub _ _ I)|].
  rewrite (ps_step g head queue hb l I Hhb Hl Hin).
  apply IH; [by eapply publish_next_inv|]. simpl.
  assert (size (blk_pool g) = S (size (delete head (blk_pool g)))); [|lia].
  rewrite <- (insert_delete_id (blk_pool g) head hb) at 1 by done.
  apply map_size_insert_None, lookup_delete_eq.
Qed.

(** When the queue is empty the live blocks are those below the new root. *)
Lemma live_below g i : pub_inv g [] -> is_Some (blk_pool g !! i) <-> below p0 newr i.
Proof using All.
  intros I. split.
  - intros [b Hb]. pose proof (pi_sub _ _ I i b Hb) as Hb0.
    destruct (tw_path _ _ (gw_tree _ Hg) i) as [l Hl]; [eauto|].
    revert b Hb Hb0. induction Hl as [|i b0 l Hi Hb0 Hl IH]; intros b Hb Hb1.
    { pose proof (tw_null _ _ (gw_tree _ Hg)). congruence. }
    assert (b0 = b) as -> by congruence.
    destruct (pi_orphan _ _ I i b Hb) as [[pb Hpb]|[?| ->]]; [|set_solver|].
    + eapply below_child; [done..|]. eapply (IH pb); [done|]. by apply (pi_sub _ _ I).
    + eapply below_refl; [apply Hg|eauto].
  - intros (l & Hl & Hin). induction Hl as [|i b l Hi Hb Hl IH]; [set_solver|].
    apply elem_of_cons in Hin as [<-|Hin]; [apply (pi_new _ _ I)|].
    eapply (pi_closed _ _ I); eauto.
Qed.
End publish.

(** Every block is below the root. *)
Lemma below_root p r i : tree_wf p r -> is_Some (p !! i) -> below p r i.
Proof.
  intros T Hi. destruct (tw_path _ _ T i Hi) as [l Hl].
  induction Hl as [|i b l Hn Hb Hl IH].
  { destruct Hi. pose proof (tw_null _ _ T). congruence. }
  destruct (decide (i = r)) as [->|Hne]; [by eapply below_refl|].
  eapply below_child; [done..|]. apply IH. by eapply (tw_parent _ _ T).
Qed.

(** ** The new tree *)

Section rerooted.
Context (p0 p : blks) (r newr : Z) (nb : fd_ghost_blk_t) (T : tree_wf p0 r).
Context (Hnb : p0 !! newr = Some nb).
Context (Hp : forall i b, p !! i = Some b <-> p0 !! i = Some b /\ below p0 newr i).

#[local] Abbreviation q := (<[newr := set_parent nb null]> p).

Lemma rerooted_lookup i b' : q !! i = Some b' ->
  exists b, p0 !! i = Some b /\ below p0 newr i /\
    b' = (if decide (i = newr) then set_parent b null else b).
Proof using All.
  intros [[<- <-]|[Hne Hb]]%lookup_insert_Some.
  - exists nb. split_and!; [done|eapply below_refl; eauto|by rewrite decide_True].
  - apply Hp in Hb as [Hb Hbel]. exists b'. split_and!; [done..|by rewrite decide_False].
Qed.

Lemma rerooted_live i : below p0 newr i -> is_Some (q !! i).
Proof using All.
  intros Hbel. destruct (decide (i = newr)) as [->|Hne]; [rewrite lookup_insert_eq; eauto|].
  rewrite lookup_insert_ne by done. destruct (below_acquired _ _ _ Hbel) as [_ [b Hb]].
  exists b. by apply Hp.
Qed.

(** The path to the new root is the lower part of the old path. *)
Lemma rerooted_path i l : path p0 i l -> newr ∈ l ->
  exists l1 l2, l = l1 ++ newr :: l2 /\ path q i (l1 ++ [newr]).
Proof using All.
  induction 1 as [|i b l Hi Hb Hl IH]; intros Hin; [set_solver|].
  destruct (decide (i = newr)) as [->|Hne].
  - exists [], l. split; [done|]. eapply path_cons; [done|apply lookup_insert_eq|constructor].
  - destruct IH as (l1 & l2 & -> & Hq); [set_solver|]. exists (i :: l1), l2. split; [done|].
    eapply path_cons; [done| |done]. rewrite lookup_insert_ne by done. apply Hp. split; [done|].
    exists (i :: l1 ++ newr :: l2). split; [by eapply path_cons|done].
Qed.

Lemma rerooted_tree : tree_wf q newr.
Proof using All.
  split.
  - destruct (q !! null) as [b'|] eqn:E; [|done].
    apply rerooted_lookup in E as (b & Hb & _). pose proof (tw_null _ _ T). congruence.
  - exists (set_parent nb null). split; [apply lookup_insert_eq|done].
  - intros i b' (b & Hb & Hbel & ->)%rerooted_lookup Hne. rewrite decide_False by done.
    eapply below_inv in Hbel as [E|Hbel]; [done|by apply rerooted_live|apply T|done].
  - intros i [b' (b & Hb & (l & Hl & Hin) & _)%rerooted_lookup].
    destruct (rerooted_path i l Hl Hin) as (l1 & l2 & _ & Hq). eauto.
  - intros i b' (b & Hb & Hbel & ->)%rerooted_lookup.
    destruct (tw_children _ _ T i b Hb) as (l & Hl & Hin). exists l.
    assert (Hlive : forall j bj, p0 !! j = Some bj -> parent bj = i ->
      below p0 newr j /\ j <> newr).
    { intros j bj Hj E.
      assert (Hj0 : j <> null) by (intros ->; pose proof (tw_null _ _ T); congruence).
      split; [eapply below_child; [done..|by rewrite E]|]. intros ->.
      destruct Hbel as (m & Hm & Hnm). assert (Hm' : path p0 newr (newr :: m))
        by (eapply path_cons; [done..|by rewrite E]).
      apply path_nodup, NoDup_cons in Hm' as [? _]. done. }
    split.
    + assert (child (if decide (i = newr) then set_parent b null else b) = child b) as ->
        by (by destruct (decide _)).
      eapply sibs_siblings; [|done]. intros j bj Hj Hbj.
      apply Hin in Hj as (bj' & Hj' & E). destruct (Hlive j bj' Hj' E) as [Hbj0 Hjn].
      exists bj. split; [|done]. rewrite lookup_insert_ne by done. by apply Hp.
    + intros j. rewrite Hin. split.
      * intros (bj & Hj & E). destruct (Hlive j bj Hj E) as [Hbj0 Hjn].
        exists bj. split; [|done]. rewrite lookup_insert_ne by done. by apply Hp.
      * intros (bj' & (bj & Hj & Hbj & ->)%rerooted_lookup & E).
        destruct (decide (j = newr)); [|eauto]. simpl in E.
        pose proof (tw_null _ _ T). congruence.
Qed.

Lemma rerooted_anc i j :
  below p0 newr i -> below p0 newr j -> (i ∈ anc q j <-> i ∈ anc p0 j).
Proof using All.
  intros Hi (l & Hl & Hin). destruct (rerooted_path j l Hl Hin) as (l1 & l2 & -> & Hq).
  rewrite (anc_path _ _ _ (tw_null _ _ rerooted_tree) Hq), (anc_path _ _ _ (tw_null _ _ T) Hl).
  rewrite !elem_of_app, !elem_of_cons, elem_of_nil. split; [tauto|].
  intros [?|[?|Hi2]]; [tauto..|]. exfalso.
  destruct (path_in _ _ _ newr Hl ltac:(set_solver)) as (_ & a1 & a2 & E & Hn).
  inversion Hn as [|? b m ? Hb Hm]; subst; [pose proof (tw_null _ _ T); congruence|].
  pose proof (path_nodup _ _ _ Hl) as Hnd.
  assert (m = l2) as ->.
  { assert (Hs : l1 = a1 /\ l2 = m); [|by destruct Hs].
    apply (NoDup_split_eq newr); [done|by rewrite <- E]. }
  destruct Hi as (mi & Hmi & Hnmi).
  destruct (path_in _ _ _ _ Hm Hi2) as (_ & c1 & c2 & -> & Hc2).
  rewrite (path_det _ _ _ _ Hmi Hc2) in Hnmi.
  apply NoDup_app in Hnd as (_ & _ & [Hnd _]%NoDup_cons). set_solver.
Qed.
End rerooted.

(** The prune loop's final state, rerooted, satisfies all the invariants. *)
Lemma publish_final g0 newr nb g :
  ghost_wf g0 -> blk_pool g0 !! newr = Some nb -> pub_inv g0 newr nb g [] ->
  ghost_wf (with_root (with_pool g (<[newr := set_parent nb null]> (blk_pool g))) newr).
Proof.
  intros Hg Hnb I. pose proof (gw_tree _ Hg) as T. pose proof (gw_votes _ Hg) as V.
  pose proof (live_below _ _ _ Hg Hnb g) as Hlive.
  assert (Hp : forall i b, blk_pool g !! i = Some b <->
    blk_pool g0 !! i = Some b /\ below (blk_pool g0) newr i).
  { intros i b. rewrite <- (Hlive i I). split; [intros H; split; [by apply (pi_sub _ _ _ _ _ I)|eauto]|].
    intros [H [b' H']]. pose proof (pi_sub _ _ _ _ _ I i b' H'). congruence. }
  assert (Hgn : blk_pool g !! newr = Some nb) by (apply Hp; split; [done|eapply below_refl; eauto]).
  assert (Hnew : below (blk_pool g0) newr newr) by (eapply below_refl; eauto).
  pose proof (rerooted_tree _ _ _ _ _ T Hnb Hp) as Tq.
  set (q := <[newr := set_parent nb null]> (blk_pool g)) in *.
  assert (Hsize : size q = size (blk_pool g)) by (unfold q; rewrite map_size_insert; by rewrite Hgn).
  assert (Hmap : forall h i, blk_map g !! h = Some i <-> blk_map g0 !! h = Some i /\ below (blk_pool g0) newr i).
  { intros h i. rewrite (pi_map _ _ _ _ _ I), (gw_map _ Hg h i). setoid_rewrite Hp. set_solver. }
  split; simpl.
  - done.
  - destruct (pi_free _ _ _ _ _ I) as [F1 F2 F3]. split; simpl; [done| |by rewrite Hsize].
    intros i Hi. destruct (F2 i Hi). split; [done|]. unfold q.
    rewrite lookup_insert_ne; [done|congruence].
  - rewrite (pi_width _ _ _ _ _ I). unfold q. rewrite (leaves_update _ newr nb) by done.
    assert (apart nb (blk_pool g) = 1) as ->.
    { unfold apart. rewrite decide_False; [done|]. rewrite (Hlive _ I). intros (l & Hl & Hin).
      assert (Hn : path (blk_pool g0) newr (newr :: l)).
      { eapply path_cons; [|done..]. intros ->. pose proof (tw_null _ _ T). congruence. }
      apply path_nodup, NoDup_cons in Hn as [? _]. done. }
    pose proof (leaves_le_size (blk_pool g)). pose proof (fw_cap _ (pi_free _ _ _ _ _ I)).
    rewrite u64_small; [unfold leaf; simpl; lia|]. unfold is_u64, null in *. simpl. lia.
  - intros h i. simpl. rewrite Hmap, (gw_map _ Hg h i). split.
    + intros ((b & Hb & Hid) & Hbel). destruct (decide (i = newr)) as [->|Hne].
      * exists (set_parent nb null). split; [apply lookup_insert_eq|]. simpl. congruence.
      * exists b. split; [|done]. unfold q. rewrite lookup_insert_ne by done. by apply Hp.
    + intros (b' & Hb' & <-). apply (rerooted_lookup _ _ _ _ _ T Hnb Hp) in Hb' as (b & Hb & Hbel & ->).
      split; [|done]. exists b. split; [done|]. by destruct (decide _).
  - split; simpl.
    + intros a v Hv. apply (pi_vtr _ _ _ _ _ I) in Hv as [Hv (i & Hi & Hl)].
      destruct (vw_parked _ V a v Hv) as (? & j & Hj & Ha). assert (j = i) as -> by congruence.
      split; [done|]. exists i. split; [apply Hmap; by rewrite <- (Hlive i I)|].
      change (dlist _ i) with (dlist g i). by rewrite (pi_dlist _ _ _ _ _ I), decide_True.
    + intros i a Ha. change (dlist _ i) with (dlist g i) in Ha. rewrite (pi_dlist _ _ _ _ _ I) in Ha.
      destruct (decide _) as [Hl|]; [|set_solver].
      destruct (vw_dlist _ V i a Ha) as (v & Hv & Hi). exists v.
      split; [apply (pi_vtr _ _ _ _ _ I); eauto|]. apply Hmap. by rewrite <- (Hlive i I).
    + intros i. change (dlist _ i) with (dlist g i). rewrite (pi_dlist _ _ _ _ _ I).
      destruct (decide _); [apply V|constructor].
  - intros i b' Hb'. simpl in Hb'.
    apply (rerooted_lookup _ _ _ _ _ T Hnb Hp) in Hb' as (b & Hb & Hbel & ->).
    assert (stake (if decide (i = newr) then set_parent b null else b) = stake b) as ->
      by (by destruct (decide _)).
    rewrite (gw_stake _ Hg i b Hb). unfold weight. simpl.
    rewrite (sum_map_sub _ (vtr_map g0) (vtr_map g)).
    + apply sum_map_ext. intros a v Hv. apply (pi_vtr _ _ _ _ _ I) in Hv as [Hv (j & Hj & Hl)].
      apply Hlive in Hl; [|done]. unfold contrib. rewrite Hj, (proj2 (Hmap _ _) (conj Hj Hl)).
      pose proof (rerooted_anc _ _ _ _ _ T Hnb Hp i j Hbel Hl) as Hiff. fold q in Hiff.
      destruct (decide (i ∈ anc q j)), (decide (i ∈ anc (blk_pool g0) j)); tauto.
    + apply map_subseteq_spec. intros a v Hv. by apply (pi_vtr _ _ _ _ _ I) in Hv as [? _].
    + intros a v Hv Hn. unfold contrib. destruct (vw_parked _ V a v Hv) as (_ & j & Hj & _).
      rewrite Hj. rewrite decide_False; [done|]. intros Hin.
      apply (gw_map _ Hg) in Hj as Hj'. destruct Hj' as (bj & Hbj & _).
      destruct (tw_path _ _ T j) as [l Hl]; [eauto|]. rewrite (anc_path _ _ _ (tw_null _ _ T) Hl) in Hin.
      assert (Hv' : vtr_map g !! a = Some v); [|congruence].
      apply (pi_vtr _ _ _ _ _ I). split; [done|]. exists j. split; [done|]. apply Hlive; [done|].
      eapply below_trans; [done|]. by exists l.
Qed.

(** The state in which the prune loop starts. *)
Lemma publish_start g newr nb rb :
  ghost_wf g -> blk_pool g !! newr = Some nb -> newr <> root g -> blk_pool g !! root g = Some rb ->
  pub_inv g newr nb (with_map g (delete (id rb) (blk_map g))) [root g].
Proof.
  intros Hg Hnb Hne Hrb. pose proof (gw_tree _ Hg) as T.
  destruct (tw_root _ _ T) as (rb' & Hrb' & Er). assert (rb' = rb) as -> by congruence.
  assert (Hnull : blk_pool g !! null = None) by apply T.
  split; simpl; try done.
  - intros i b Hb. destruct (decide (i = root g)) as [->|Hir]; [right; left; set_solver|].
    left. by eapply T.
  - intros i ->%list_elem_of_singleton. exists rb. rewrite Er. split_and!; [done..|].
    intros (l & Hl & Hin). inversion Hl as [|? b l' ? Hb Hl']; subst; [set_solver|].
    assert (b = rb) as -> by congruence. rewrite Er in Hl'. inversion Hl'; subst; [set_solver|done].
  - apply NoDup_singleton.
  - intros h i. rewrite lookup_delete_Some, (gw_map _ Hg h i). setoid_rewrite list_elem_of_singleton. split.
    + intros (Hid & b & Hb & <-). exists b. split_and!; [done..|]. intros ->. congruence.
    + intros (b & Hb & <- & Hi). split; [|eauto]. intros E. apply Hi.
      assert (blk_map g !! id b = Some i) by (apply (gw_map _ Hg); eauto).
      assert (blk_map g !! id rb = Some (root g)) by (apply (gw_map _ Hg); eauto). congruence.
  - intros a v. split; [|tauto]. intros Hv. split; [done|].
    destruct (vw_parked _ (gw_votes _ Hg) a v Hv) as (_ & i & Hi & _). exists i. split; [done|].
    apply (gw_map _ Hg) in Hi as (b & Hb & _). eauto.
  - intros i. change (dlist (with_map g _) i) with (dlist g i). destruct (decide _) as [|Hn]; [done|].
    destruct (dlist g i) as [|a l] eqn:E; [done|]. exfalso. apply Hn.
    destruct (vw_dlist _ (gw_votes _ Hg) i a) as (v & _ & Hi); [rewrite E; set_solver|].
    apply (gw_map _ Hg) in Hi as (b & Hb & _). eauto.
  - by destruct (gw_free _ Hg).
  - unfold apart. rewrite decide_True.
    + rewrite (gw_width _ Hg). pose proof (leaves_le_size (blk_pool g)).
      pose proof (fw_cap _ (gw_free _ Hg)). rewrite u64_small; [lia|]. unfold is_u64, null in *. lia.
    + by eapply T.
Qed.

(** [g'] is [g] without everything that is not at or below [newr]. *)
Definition pruned_to (g : fd_ghost_t) (newr : Z) (g' : fd_ghost_t) : Prop :=
  root g' = newr /\
  (forall i, is_Some (blk_pool g' !! i) <-> below (blk_pool g) newr i) /\
  (forall i b b', blk_pool g !! i = Some b -> blk_pool g' !! i = Some b' ->
     b' = if decide (i = newr) then set_parent b null else b) /\
  (forall a v, vtr_map g' !! a = Some v <-> vtr_map g !! a = Some v /\
     exists i, blk_map g !! prev_block_id v = Some i /\ below (blk_pool g) newr i) /\
  (size (blk_pool g') + length (blk_free g') = size (blk_pool g) + length (blk_free g))%nat /\
  vtr_free g' + Z.of_nat (size (vtr_map g')) = vtr_free g + Z.of_nat (size (vtr_map g)).

(** C11. Publishing a new root on a well-formed fork tree terminates without a
    failure, keeps exactly the blocks at or below the new root with their
    stakes, forgets exactly the votes for the pruned blocks, returns the pruned
    blocks and voters to their pools, and leaves a well-formed tree rooted at
    the new root (so the fork count is again the number of leaves and every
    stake is again the stake of the remaining votes in the subtree). *)
Theorem ghost_publish_prunes (g : fd_ghost_t) (newr : Z) :
  ghost_wf g -> is_Some (blk_pool g !! newr) ->
  exists g', fd_ghost_publish g newr = Ok g' /\ ghost_wf g' /\ pruned_to g newr g'.
Proof.
  intros Hg [nb Hnb]. pose proof (gw_tree _ Hg) as T.
  destruct (tw_root _ _ T) as (rb & Hrb & Er). unfold fd_ghost_publish, blk_at.
  destruct (Z.eqb_spec (root g) newr) as [E|Hne].
  - exists g. subst newr. split_and!; try done. unfold pruned_to. split_and!; try done.
    + intros i. split; [by eapply below_root|]. intros Hb. by apply below_acquired in Hb as [_ ?].
    + intros i b b' Hb Hb'. assert (b' = b) as -> by congruence.
      destruct (decide (i = root g)) as [->|]; [|done].
      assert (b = rb) as -> by congruence. destruct rb; simpl in *; by subst.
    + intros a v. split; [|tauto]. intros Hv. split; [done|].
      destruct (vw_parked _ (gw_votes _ Hg) a v Hv) as (_ & i & Hi & _). exists i. split; [done|].
      eapply below_root; [done|]. apply (gw_map _ Hg) in Hi as (b & Hb & _). eauto.
  - rewrite Hrb. simpl. rewrite (proj2 (gw_map _ Hg (id rb) (root g))) by eauto. simpl.
    pose proof (publish_start g newr nb rb Hg Hnb (not_eq_sym Hne) Hrb) as I0.
    destruct (publish_loop g newr nb Hg Hnb (fuel g) _ _ I0) as (g1 & -> & I); [unfold fuel; simpl; lia|].
    pose proof (live_below _ _ _ Hg Hnb g1) as Hlive.
    assert (Hn1 : blk_pool g1 !! newr = Some nb).
    { destruct (pi_new _ _ _ _ _ I) as [b Hb]. pose proof (pi_sub _ _ _ _ _ I _ _ Hb). congruence. }
    simpl. rewrite Hn1. simpl. eexists. split; [done|]. split; [by eapply publish_final|].
    unfold pruned_to. simpl. split_and!; [done| | | | |].
    + intros i. rewrite <- (Hlive i I), lookup_insert_is_Some. split; [|by destruct (decide (newr = i)); auto].
      intros [<-|[_ ?]]; [eauto|done].
    + intros i b b' Hb [[<- <-]|[Hi Hb']]%lookup_insert_Some.
      * rewrite decide_True by done. congruence.
      * rewrite decide_False by done. apply (pi_sub _ _ _ _ _ I) in Hb'. congruence.
    + intros a v. rewrite (pi_vtr _ _ _ _ _ I). setoid_rewrite (fun i => Hlive i I). done.
    + rewrite map_size_insert, Hn1. apply (pi_cap _ _ _ _ _ I).
    + apply (pi_vfree _ _ _ _ _ I).
Qed.

(** * Breadth-first traversals of the fork tree

    [fd_ghost_deepest] ([src/choreo/ghost/fd_ghost.c]) and [switch_check]
    ([src/choreo/tower/fd_tower.c]) walk the tree with a queue threaded through
    the [next] fields of blocks that are taken out of the id map while they are
    queued.  The invariant of both walks: no block is visited twice, and the
    map misses exactly the queued blocks, so it is intact when the queue is
    empty. *)

Section bfs.
Context (g : fd_ghost_t) (Hg : ghost_wf g) (start : Z).

#[local] Abbreviation p := (blk_pool g).

(** [V] has been visited, [Q] is queued. *)
Record bfs_inv (V Q : list Z) : Prop := mk_bfs_inv {
  bi_nodup : NoDup (V ++ Q);
  bi_below : forall x, x ∈ V ++ Q -> below p start x;
  bi_parent : forall x, x ∈ V ++ Q -> x = start \/ exists b, p !! x = Some b /\ parent b ∈ V;
}.

(** The id map while [Q] is queued. *)
Definition unqueued (Q : list Z) (m : gmap fd_hash_t Z) : Prop :=
  forall h i, m !! h = Some i <-> blk_map g !! h = Some i /\ i ∉ Q.

Lemma bfs_start : is_Some (p !! start) -> bfs_inv [] [start].
Proof using Hg.
  intros Hs. split; simpl.
  - apply NoDup_singleton.
  - intros x ->%list_elem_of_singleton. eapply below_refl; [apply Hg|done].
  - intros x ->%list_elem_of_singleton. by left.
Qed.

Lemma bfs_size V Q : bfs_inv V Q -> (length V + length Q <= size p)%nat.
Proof using All.
  intros I. rewrite <- length_app. apply nodup_size; [apply I|].
  intros x Hx. apply (bi_below _ _ I) in Hx. by apply below_acquired in Hx as [_ ?].
Qed.

(** A child of the head has not been seen. *)
Lemma bfs_child_new V h Q c cb :
  bfs_inv V (h :: Q) -> p !! c = Some cb -> parent cb = h -> c ∉ V ++ h :: Q.
Proof using Hg.
  intros I Hc Ep Hin. destruct (bi_parent _ _ I c Hin) as [->|(b & Hb & HV)].
  - destruct (bi_below _ _ I h) as (l & Hl & Hs); [set_solver|].
    assert (Hn : path p start (start :: l)).
    { eapply path_cons; [|done|by rewrite Ep]. intros ->.
      pose proof (tw_null _ _ (gw_tree _ Hg)). congruence. }
    apply path_nodup, NoDup_cons in Hn as [? _]. done.
  - assert (b = cb) as -> by congruence. rewrite Ep in HV.
    pose proof (bi_nodup _ _ I) as Hnd. apply NoDup_app in Hnd as (_ & Hd & _).
    apply (Hd h HV). set_solver.
Qed.

(** Visiting the head and queueing some of its children. *)
Lemma bfs_visit V h Q l' :
  bfs_inv V (h :: Q) -> NoDup l' ->
  (forall c, c ∈ l' -> exists cb, p !! c = Some cb /\ parent cb = h) ->
  bfs_inv (V ++ [h]) (Q ++ l').
Proof using Hg.
  intros I Hnd Hl.
  assert (Hnew : forall c, c ∈ l' -> c ∉ V ++ h :: Q).
  { intros c Hc. destruct (Hl c Hc) as (cb & Hcb & Ep). by eapply bfs_child_new. }
  assert (Happ : (V ++ [h]) ++ Q ++ l' = (V ++ h :: Q) ++ l') by (rewrite <- !app_assoc; done).
  split; rewrite Happ.
  - apply NoDup_app. split; [apply I|]. split; [|done]. intros x Hx Hxl. by apply (Hnew x).
  - intros x [Hx|Hx]%elem_of_app; [by apply (bi_below _ _ I)|].
    destruct (Hl x Hx) as (cb & Hcb & Ep). eapply below_child; [|done|].
    + intros ->. pose proof (tw_null _ _ (gw_tree _ Hg)). congruence.
    + rewrite Ep. apply (bi_below _ _ I). set_solver.
  - intros x [Hx|Hx]%elem_of_app.
    + destruct (bi_parent _ _ I x Hx) as [->|(b & Hb & HV)]; [by left|right].
      exists b. split; [done|]. set_solver.
    + right. destruct (Hl x Hx) as (cb & Hcb & Ep). exists cb. split; [done|]. rewrite Ep. set_solver.
Qed.

Lemma unqueued_init i b :
  p !! i = Some b -> unqueued [i] (delete (id b) (blk_map g)).
Proof using Hg.
  intros Hb h j. rewrite lookup_delete_Some, list_elem_of_singleton. split.
  - intros [Hne Hh]. split; [done|]. intros ->.
    apply (gw_map _ Hg) in Hh as (b' & Hb' & E). congruence.
  - intros [Hh Hj]. split; [|done]. intros E. apply Hj.
    apply (gw_map _ Hg) in Hh as (b' & Hb' & E').
    assert (blk_map g !! id b = Some i) by (apply (gw_map _ Hg); eauto).
    assert (blk_map g !! id b = Some j) by (apply (gw_map _ Hg); exists b'; split; congruence). congruence.
Qed.

(** The map after the children of the head left and the head returned. *)
Lemma unqueued_visit V h hb Q l' m :
  bfs_inv V (h :: Q) -> p !! h = Some hb -> unqueued (h :: Q) m ->
  (forall c, c ∈ l' -> exists cb, p !! c = Some cb /\ parent cb = h) ->
  unqueued (Q ++ l') (<[id hb := h]> (unmap p l' m)).
Proof using Hg.
  intros I Hh Hm Hl hash i. rewrite lookup_insert_Some, lookup_unmap, (Hm hash i).
  assert (Hmh : blk_map g !! id hb = Some h) by (apply (gw_map _ Hg); eauto).
  assert (Hhq : h ∉ Q ++ l').
  { pose proof (bi_nodup _ _ I) as Hnd. apply NoDup_app in Hnd as (_ & _ & [Hnq _]%NoDup_cons).
    intros [?|Hc]%elem_of_app; [done|]. destruct (Hl h Hc) as (cb & Hcb & Ep).
    pose proof (bfs_child_new _ _ _ _ _ I Hcb Ep). set_solver. }
  split.
  - intros [[<- <-]|[Hne ((Hi & Hq) & Hd)]]; [done|]. split; [done|].
    intros [Hx|Hx]%elem_of_app; [set_solver|]. destruct (Hl i Hx) as (cb & Hcb & _).
    apply (Hd i cb Hx Hcb). apply (gw_map _ Hg) in Hi as (b & Hb & E). congruence.
  - intros [Hi Hq]. destruct (decide (id hb = hash)) as [<-|Hne].
    + left. split; [done|]. congruence.
    + right. split; [done|]. split; [split; [done|]|].
      * apply not_elem_of_cons. split; [|set_solver]. intros ->.
        apply (gw_map _ Hg) in Hi as (b & Hb & E). congruence.
      * intros c b Hc Hb E. apply (gw_map _ Hg) in Hi as (b' & Hb' & E').
        assert (blk_map g !! id b = Some c) by (apply (gw_map _ Hg); eauto).
        assert (blk_map g !! id b = Some i) by (apply (gw_map _ Hg); exists b'; split; congruence).
        set_solver.
Qed.

Lemma unqueued_nil m : unqueued [] m -> m = blk_map g.
Proof using All.
  intros H. apply map_eq. intros h. apply option_eq. intros i. rewrite (H h i). set_solver.
Qed.

(** Putting back one queued block. *)
Lemma unqueued_requeue h hb Q m :
  p !! h = Some hb -> h ∉ Q -> unqueued (h :: Q) m -> unqueued Q (<[id hb := h]> m).
Proof using Hg.
  intros Hh Hq Hm hash i. rewrite lookup_insert_Some, (Hm hash i).
  assert (Hmh : blk_map g !! id hb = Some h) by (apply (gw_map _ Hg); eauto). split.
  - intros [[<- <-]|[Hne (Hi & Hx)]]; [done|]. split; [done|set_solver].
  - intros [Hi Hx]. destruct (decide (id hb = hash)) as [<-|Hne]; [left; split; congruence|].
    right. split; [done|]. split; [done|]. apply not_elem_of_cons. split; [|done]. intros ->.
    apply (gw_map _ Hg) in Hi as (b & Hb & E). congruence.
Qed.
End bfs.

(** ** The deepest block *)

Definition depth (p : blks) (i : Z) : nat := length (anc p i).

Lemma depth_child p r c cb h :
  tree_wf p r -> p !! c = Some cb -> parent cb = h -> is_Some (p !! h) ->
  depth p c = S (depth p h).
Proof.
  intros T Hc Ep Hh. pose proof (tw_null _ _ T) as Hn.
  destruct (tw_path _ _ T h Hh) as [l Hl]. unfold depth.
  assert (Hcl : path p c (c :: l)) by (eapply path_cons; [congruence|done|congruence]).
  by rewrite (anc_path _ _ _ Hn Hl), (anc_path _ _ _ Hn Hcl).
Qed.

Lemma deepest_children_loop p c l m queue n :
  sibs p c l -> (length l < n)%nat ->
  (forall d b, d ∈ l -> p !! d = Some b -> m !! id b = Some d) ->
  (forall d b d' b', p !! d = Some b -> p !! d' = Some b' -> id b = id b' -> d = d') ->
  loop (deepest_children_step p) n (c, m, queue) = Ok (unmap p l m, queue ++ l).
Proof.
  intros H. revert m queue n.
  induction H as [|c b l Hc Hb Hl IH]; intros m queue n Hn Hm Hinj;
    (destruct n as [|n]; [simpl in *; lia|]); rewrite loop_S; unfold deepest_children_step at 1.
  - rewrite Z.eqb_refl. simpl. by rewrite app_nil_r.
  - rewrite (proj2 (Z.eqb_neq _ _)) by done. unfold blk_at. rewrite Hb. simpl. simpl in Hn.
    pose proof (sibs_nodup _ _ _ (sibs_cons _ _ _ _ Hc Hb Hl)) as [Hcl _]%NoDup_cons.
    rewrite (Hm c b) by set_solver. simpl. rewrite IH; [|lia| |done].
    + by rewrite Hb, unmap_delete, <- app_assoc.
    + intros d bd Hd Hbd. rewrite lookup_delete_ne; [apply Hm; set_solver|].
      intros E. assert (c = d) as -> by eauto. done.
Qed.

Section deepest.
Context (g : fd_ghost_t) (Hg : ghost_wf g) (start : Z).

#[local] Abbreviation p := (blk_pool g).

(** The visited and queued blocks are in breadth-first order, and [V] has
    all the children of its blocks in it or in the queue. *)
Record deepest_inv (V Q : list Z) : Prop := mk_deepest_inv {
  di_bfs : bfs_inv g start V Q;
  di_closed : forall c cb, p !! c = Some cb -> parent cb ∈ V -> c ∈ V ++ Q;
  di_sorted : StronglySorted (fun x y => (depth p x <= depth p y)%nat) (V ++ Q);
  di_level : forall h Q' x, Q = h :: Q' -> x ∈ Q -> (depth p x <= S (depth p h))%nat;
  di_start : start ∈ V ++ Q;
}.

Lemma deepest_next V h Q hb l :
  deepest_inv V (h :: Q) -> p !! h = Some hb ->
  sibs p (child hb) l -> (forall j, j ∈ l <-> exists bj, p !! j = Some bj /\ parent bj = h) ->
  deepest_inv (V ++ [h]) (Q ++ l).
Proof using Hg.
  intros I Hh Hl Hin. pose proof (di_sorted _ _ I) as Hs.
  assert (Hd : forall c, c ∈ l -> depth p c = S (depth p h)).
  { intros c (cb & Hc & Ep)%Hin. eapply depth_child; [apply Hg|done..|eauto]. }
  assert (Happ : (V ++ [h]) ++ Q ++ l = (V ++ h :: Q) ++ l) by (rewrite <- !app_assoc; done).
  assert (HV : forall x, x ∈ V -> (depth p x <= depth p h)%nat).
  { intros x Hx. apply (StronglySorted_app_1_elem_of _ _ _ x h Hs Hx). set_solver. }
  assert (HQ : forall x, x ∈ Q -> (depth p h <= depth p x <= S (depth p h))%nat).
  { intros x Hx. split; [|eapply (di_level _ _ I h Q); [done|set_solver]].
    apply StronglySorted_app_1_r, StronglySorted_inv in Hs as [_ Hq]. rewrite Forall_forall in Hq. by apply Hq. }
  split.
  - eapply bfs_visit; [done|apply I|by eapply sibs_nodup|]. intros c Hc. by apply Hin.
  - intros c cb Hc [Hp|Hp]%elem_of_app; rewrite Happ.
    + pose proof (di_closed _ _ I c cb Hc Hp). set_solver.
    + apply list_elem_of_singleton in Hp. apply elem_of_app. right. apply Hin. eauto.
  - rewrite Happ. apply StronglySorted_app_2; [|done|].
    + intros x y Hx Hy. rewrite (Hd y Hy). apply elem_of_app in Hx as [Hx|[->|Hx]%elem_of_cons].
      * specialize (HV x Hx). lia.
      * lia.
      * specialize (HQ x Hx). lia.
    + clear -Hd. induction l as [|c l IH]; constructor.
      * apply IH. intros. apply Hd. set_solver.
      * apply Forall_forall. intros d Hdl. rewrite (Hd c), (Hd d) by set_solver. lia.
  - intros h' Q' x E Hx. assert (Hh' : (depth p h <= depth p h')%nat).
    { assert (h' ∈ Q ++ l) as [H'|H']%elem_of_app by (rewrite E; set_solver).
      - by apply HQ.
      - rewrite (Hd _ H'). lia. }
    apply elem_of_app in Hx as [Hx|Hx].
    + specialize (HQ x Hx). lia.
    + rewrite (Hd x Hx). lia.
  - rewrite Happ. pose proof (di_start _ _ I). set_solver.
Qed.

Lemma deepest_step_ok V h Q m prev :
  deepest_inv V (h :: Q) -> unqueued g (h :: Q) m ->
  exists l m', deepest_step p (fuel g) (m, h :: Q, prev) = Ok (inl (m', Q ++ l, h)) /\
    deepest_inv (V ++ [h]) (Q ++ l) /\ unqueued g (Q ++ l) m'.
Proof using Hg.
  intros I Hm.
  assert (exists hb, p !! h = Some hb) as [hb Hh].
  { destruct (bi_below _ _ _ _ (di_bfs _ _ I) h) as (l & Hl & Hs); [set_solver|].
    inversion Hl; subst; [set_solver|eauto]. }
  destruct (tw_children _ _ (gw_tree _ Hg) h hb Hh) as (l & Hl & Hin).
  assert (Hch : forall c, c ∈ l -> exists cb, p !! c = Some cb /\ parent cb = h) by (intros c; apply Hin).
  exists l, (<[id hb := h]> (unmap p l m)). split_and!.
  - unfold deepest_step, blk_at. rewrite Hh. cbn [deref mbind res_bind].
    rewrite (deepest_children_loop p (child hb) l); [done|done| | |].
    + pose proof (sibs_length _ _ _ Hl). unfold fuel. lia.
    + intros d b Hd Hb. apply Hm. split; [apply (gw_map _ Hg); eauto|].
      destruct (Hch d Hd) as (cb & Hcb & Ep).
      pose proof (bfs_child_new g Hg start _ _ _ _ _ (di_bfs _ _ I) Hcb Ep). set_solver.
    + intros d b d' b' Hd Hd' E.
      assert (blk_map g !! id b = Some d) by (apply (gw_map _ Hg); eauto).
      assert (blk_map g !! id b = Some d') by (apply (gw_map _ Hg); eauto). congruence.
  - by eapply deepest_next.
  - eapply unqueued_visit; [done|apply I|done..].
Qed.

Lemma deepest_loop n V Q m :
  deepest_inv V Q -> unqueued g Q m -> (S (size p) <= n + length V)%nat ->
  exists V', loop (deepest_step p (fuel g)) n (m, Q, default null (last V)) =
      Ok (blk_map g, default null (last V')) /\ deepest_inv V' [].
Proof using Hg.
  revert V Q m. induction n as [|n IH]; intros V Q m I Hm Hn.
  { pose proof (bfs_size _ Hg _ _ _ (di_bfs _ _ I)). lia. }
  rewrite loop_S. destruct Q as [|h Q].
  - exists V. split; [|done]. simpl. by rewrite (unqueued_nil _ Hg start _ Hm).
  - destruct (deepest_step_ok V h Q m (default null (last V)) I Hm) as (l & m' & -> & I' & Hm').
    destruct (IH (V ++ [h]) (Q ++ l) m' I' Hm') as (V' & E & HV'); [rewrite length_app; simpl; lia|].
    rewrite last_snoc in E. eauto.
Qed.

Lemma deepest_last V d :
  deepest_inv V [] -> last V = Some d ->
  below p start d /\ forall j, below p start j -> (depth p j <= depth p d)%nat.
Proof using Hg.
  intros I Hd. apply last_Some in Hd as [W ->]. pose proof (di_bfs _ _ I) as B.
  split; [apply (bi_below _ _ _ _ B); set_solver|]. intros j Hj.
  assert (HjV : j ∈ W ++ [d]).
  { destruct Hj as (l & Hl & Hs). induction Hl as [|j b l Hn Hb Hl IH]; [set_solver|].
    pose proof (di_start _ _ I) as Hst. rewrite app_nil_r in Hst.
    apply elem_of_cons in Hs as [<-|Hs]; [done|].
    pose proof (di_closed _ _ I j b Hb (IH Hs)) as Hx. by rewrite app_nil_r in Hx. }
  pose proof (di_sorted _ _ I) as Hs. rewrite app_nil_r in Hs.
  apply elem_of_app in HjV as [Hjw| ->%list_elem_of_singleton]; [|done].
  apply (StronglySorted_app_1_elem_of _ _ _ j d Hs Hjw). set_solver.
Qed.
End deepest.

(** The walk visits the blocks below [i] in breadth-first order. *)
Lemma deepest_run g i :
  ghost_wf g -> is_Some (blk_pool g !! i) ->
  exists V d, fd_ghost_deepest g i = Ok (d, g) /\ last V = Some d /\ deepest_inv g i V [].
Proof.
  intros Hg [b Hb]. unfold fd_ghost_deepest, blk_at. rewrite Hb. cbn [deref mbind res_bind].
  rewrite (proj2 (gw_map _ Hg (id b) i)) by eauto. cbn [deref mbind res_bind].
  assert (I : deepest_inv g i [] [i]).
  { split; simpl.
    - apply bfs_start; eauto.
    - intros c cb _ Hc. set_solver.
    - repeat constructor.
    - intros h Q' x [= <- <-] Hx. apply list_elem_of_singleton in Hx as ->. lia.
    - set_solver. }
  destruct (deepest_loop g Hg i (fuel g) [] [i] _ I (unqueued_init g Hg i b Hb)) as (V & E & HV);
    [unfold fuel; simpl; lia|].
  simpl in E. rewrite E. cbn [mbind res_bind]. destruct (last V) as [d|] eqn:Ed.
  - exists V, d. split; [by destruct g|]. done.
  - apply last_None in Ed as ->. pose proof (di_start _ _ _ _ HV). set_solver.
Qed.

(** [fd_ghost_deepest] terminates on every block of a well-formed fork tree and
    returns a block of maximal depth among the block and its descendants; the
    ghost, whose id map it used as scratch space, is as before. *)
Theorem ghost_deepest_correct (g : fd_ghost_t) (i : Z) :
  ghost_wf g -> is_Some (blk_pool g !! i) ->
  exists d, fd_ghost_deepest g i = Ok (d, g) /\ below (blk_pool g) i d /\
    forall j, below (blk_pool g) i j -> (depth (blk_pool g) j <= depth (blk_pool g) d)%nat.
Proof.
  intros Hg Hi. destruct (deepest_run g i Hg Hi) as (V & d & E & Hd & I). exists d. split; [done|].
  by eapply deepest_last.
Qed.
