(* ===== verification/GhostReach.v ===== *)
(** * Reachable fork-choice states ([src/choreo/ghost/fd_ghost.c])

    Every state reached from [fd_ghost_init] by insertions, votes, validity
    changes and root advances satisfies the invariants of GhostInv; the example
    states on which the properties are instantiated are reachable. *)

From S2P Require Import Prelude Ghost GhostInv GhostTree GhostSubtree GhostPublish.

#[local] Open Scope Z_scope.

(** ** Each operation keeps the invariants *)

Lemma insert_keeps g bs sl h ph g' i :
  ghost_wf g -> h <> ph -> fd_ghost_insert g bs sl h ph = Ok (g', i) -> ghost_wf g'.
Proof.
  intros Hg Hne E. destruct (blk_map g !! h) as [k|] eqn:Eh.
  { unfold fd_ghost_insert, insert_ in E. by rewrite Eh in E. }
  destruct (blk_free g) as [|j free'] eqn:Ef.
  { unfold fd_ghost_insert, insert_ in E. by rewrite Eh, Ef in E. }
  destruct (blk_map g !! ph) as [par|] eqn:Ep.
  - destruct (insert_grows g bs sl h ph j free' par Hg Eh Ef Ep) as (q & w & E' & G & Hw).
    rewrite E' in E. injection E as <- <-.
    by eapply (grown_ghost g q (mk_gblk h sl par null null 0 0 true bs) j par).
  - unfold fd_ghost_insert in E. rewrite (insert_ok _ _ _ _ _ _ Eh Ef) in E. simpl in E.
    rewrite lookup_insert_ne in E by done. by rewrite Ep in E.
Qed.

Lemma total_weight_others g acc :
  ghost_wf g -> sum_map (fun _ v => prev_stake v) (delete acc (vtr_map g)) <= total_weight g.
Proof.
  intros Hg. unfold total_weight. destruct (vtr_map g !! acc) as [v|] eqn:Ev; [|by rewrite delete_id].
  rewrite (sum_map_delete _ (vtr_map g) acc v) by done.
  destruct (vw_parked _ (gw_votes _ Hg) acc v Ev). lia.
Qed.

Lemma count_vote_keeps g blk acc s slot_ rc g' :
  ghost_wf g -> is_Some (blk_pool g !! blk) -> 0 <= s -> total_weight g + s <= ULONG_MAX ->
  fd_ghost_count_vote g blk acc s slot_ = Ok (rc, g') -> ghost_wf g'.
Proof.
  intros Hg Hblk Hs Htot. pose proof (total_weight_others g acc Hg) as Hdel.
  unfold fd_ghost_count_vote. destruct (_ =? _); [by intros [= _ <-]|].
  destruct (tw_root _ _ (gw_tree _ Hg)) as (rb & Hrb & _). unfold blk_at. rewrite Hrb. simpl.
  destruct (_ <? _); [by intros [= _ <-]|].
  destruct (vtr_map g !! acc) as [v|] eqn:Ev.
  - destruct (_ <? _); simpl; [|by intros [= _ <-]].
    destruct (vw_parked _ (gw_votes _ Hg) acc v Ev) as (_ & prev & Hprev & _). rewrite Hprev.
    destruct (mid_switch g acc v prev Hg Ev Hprev) as (p & -> & Hss & Hmid). simpl.
    assert (Hbp : is_Some (p !! blk)).
    { destruct Hblk as [b Hb]. destruct (same_shape_lookup _ _ _ _ Hss Hb) as (b' & ? & _). eauto. }
    destruct (count_vote_add_wf _ blk acc s slot_ Hmid Hbp Hs) as (b' & g1 & _ & -> & Hwf & _);
      [simpl; lia|]. by intros [= _ <-].
  - destruct (_ <=? _); [done|].
    destruct (count_vote_add_wf _ blk acc s slot_ (mid_first g acc (vtr_free g - 1) Hg Ev))
      as (b' & g1 & _ & -> & Hwf & _); [done|done|simpl; lia|]. by intros [= _ <-].
Qed.

Lemma eqvoc_keeps g h g' : ghost_wf g -> fd_ghost_eqvoc g h = Ok g' -> ghost_wf g'.
Proof.
  intros Hg. unfold fd_ghost_eqvoc. destruct (blk_map g !! h) as [i|] eqn:Eh; [|by intros [= <-]].
  apply (gw_map _ Hg) in Eh as (b & Hb & _).
  destruct (forest_exists _ _ _ _ (gw_tree _ Hg) Hb) as [D HD].
  rewrite (mark_invalid_spec _ _ _ _ Hg Hb HD). intros [= <-].
  apply ghost_wf_revalid; [done|apply invalidate_same_shape|].
  intros j bj b' Hj. rewrite lookup_invalidate, Hj. intros [= <-]. by destruct (decide _).
Qed.

Lemma publish_keeps g newr g' :
  ghost_wf g -> is_Some (blk_pool g !! newr) -> fd_ghost_publish g newr = Ok g' -> ghost_wf g'.
Proof.
  intros Hg [nb Hnb]. destruct (tw_root _ _ (gw_tree _ Hg)) as (rb & Hrb & Er).
  unfold fd_ghost_publish, blk_at. destruct (Z.eqb_spec (root g) newr) as [E|Hne]; [by intros [= <-]|].
  rewrite Hrb. simpl. rewrite (proj2 (gw_map _ Hg (id rb) (root g))) by eauto. simpl.
  pose proof (publish_start g newr nb rb Hg Hnb (not_eq_sym Hne) Hrb) as I0.
  destruct (publish_loop g newr nb Hg Hnb (fuel g) _ _ I0) as (g1 & -> & I); [unfold fuel; simpl; lia|].
  assert (Hn1 : blk_pool g1 !! newr = Some nb).
  { destruct (pi_new _ _ _ _ _ I) as [b Hb]. pose proof (pi_sub _ _ _ _ _ I _ _ Hb). congruence. }
  simpl. rewrite Hn1. simpl. intros [= <-]. by eapply publish_final.
Qed.

(** ** Confirmation *)

(** The pool with the blocks of [D] marked valid. *)
Definition validate (D : list Z) (p : blks) : blks :=
  map_imap (fun i b => Some (if decide (i ∈ D) then set_valid b true else b)) p.

Lemma lookup_validate D p i :
  validate D p !! i = (fun b => if decide (i ∈ D) then set_valid b true else b) <$> p !! i.
Proof. unfold validate. rewrite map_lookup_imap. by destruct (p !! i). Qed.

Lemma validate_same_shape D p : same_shape p (validate D p).
Proof.
  intros i. rewrite lookup_validate. destruct (p !! i); simpl; [|done]. by destruct (decide (i ∈ D)).
Qed.

Lemma validate_cons p i b D :
  p !! i = Some b -> validate D (<[i := set_valid b true]> p) = validate (i :: D) p.
Proof.
  intros Hb. apply map_eq. intros j. rewrite !lookup_validate. destruct (decide (j = i)) as [->|Hne].
  - rewrite lookup_insert_eq, Hb. simpl. rewrite (decide_True (P := i ∈ i :: D)) by set_solver.
    by destruct (decide (i ∈ D)).
  - rewrite lookup_insert_ne by done. destruct (p !! j); simpl; [|done].
    destruct (decide (j ∈ D)), (decide (j ∈ i :: D)); set_solver.
Qed.

(** The longest invalid prefix of the path is marked valid. *)
Lemma ghost_confirm_loop p i l n :
  path p i l -> (length l < n)%nat ->
  exists pre suf, l = pre ++ suf /\ loop confirm_ancestor_step n (p, i) = Ok (validate pre p) /\
    (forall k b, k ∈ pre -> p !! k = Some b -> valid b = false) /\
    (forall k, head suf = Some k -> exists b, p !! k = Some b /\ valid b = true).
Proof.
  revert p i n. induction l as [|j l IH]; intros p i n Hp Hn; (destruct n as [|n]; [simpl in Hn; lia|]);
    rewrite loop_S; unfold confirm_ancestor_step at 1.
  - inversion Hp; subst. rewrite Z.eqb_refl. exists [], []. split; [done|].
    split; [|split; [set_solver|done]]. f_equal. apply map_eq. intros k. rewrite lookup_validate.
    by destruct (p !! k).
  - inversion Hp as [|? b ? Hi Hb Hl]; subst. rewrite (proj2 (Z.eqb_neq _ _)) by done.
    unfold blk_at. rewrite Hb. simpl. destruct (valid b) eqn:Ev.
    + exists [], (j :: l). split; [done|]. split; [|split; [set_solver|intros k [= <-]; eauto]].
      f_equal. apply map_eq. intros k. rewrite lookup_validate. by destruct (p !! k).
    + pose proof (path_nodup _ _ _ Hp) as [Hnj _]%NoDup_cons.
      assert (Hss : same_shape p (<[j := set_valid b true]> p)) by (by eapply same_shape_insert).
      destruct (IH (<[j := set_valid b true]> p) (parent b) n) as (pre & suf & -> & -> & Hpre & Hsuf).
      { by rewrite <- Hss. }
      { simpl in Hn. lia. }
      exists (j :: pre), suf. split; [done|]. split; [by rewrite validate_cons|]. split.
      * intros k bk [->|Hk]%elem_of_cons Hbk; [congruence|]. eapply (Hpre k); [done|].
        rewrite lookup_insert_ne; [done|]. intros ->. set_solver.
      * intros k Hk. destruct (Hsuf k Hk) as (bk & Hbk & Hv). exists bk. split; [|done].
        rewrite lookup_insert_ne in Hbk; [done|]. intros ->. apply Hnj.
        destruct suf; simplify_eq/=. set_solver.
Qed.

Lemma confirm_keeps g h g' : ghost_wf g -> fd_ghost_confirm g h = Ok g' -> ghost_wf g'.
Proof.
  intros Hg. unfold fd_ghost_confirm. destruct (blk_map g !! h) as [i|] eqn:Eh; [|by intros [= <-]].
  apply (gw_map _ Hg) in Eh as (b & Hb & _).
  destruct (tw_path _ _ (gw_tree _ Hg) i) as [l Hl]; [eauto|].
  destruct (ghost_confirm_loop _ _ _ (S (fuel g)) Hl) as (pre & suf & _ & -> & _);
    [pose proof (path_length _ _ _ Hl); unfold fuel; lia|].
  intros [= <-]. apply ghost_wf_revalid; [done|apply validate_same_shape|].
  intros j bj b' Hj. rewrite lookup_validate, Hj. intros [= <-]. by destruct (decide _).
Qed.

(** ** Properties *)

(** [g'] is [g] with the blocks of the path [l] made valid up to the first that
    was. *)
Definition revalidated (g : fd_ghost_t) (l : list Z) (g' : fd_ghost_t) : Prop :=
  exists pre suf, l = pre ++ suf /\
    (forall k b, k ∈ pre -> blk_pool g !! k = Some b -> valid b = false) /\
    (forall k, head suf = Some k -> exists b, blk_pool g !! k = Some b /\ valid b = true) /\
    (forall k b, blk_pool g !! k = Some b ->
       blk_pool g' !! k = Some (if decide (k ∈ pre) then set_valid b true else b)).

(** Confirming a block makes it and its ancestors valid again up to the first
    ancestor that already was, and changes nothing else. *)
Theorem ghost_confirm_path (g : fd_ghost_t) (h : fd_hash_t) (i : Z) (l : list Z) :
  ghost_wf g -> blk_map g !! h = Some i -> path (blk_pool g) i l ->
  exists g', fd_ghost_confirm g h = Ok g' /\ ghost_wf g' /\ revalidated g l g'.
Proof.
  intros Hg Hh Hl.
  destruct (ghost_confirm_loop _ _ _ (S (fuel g)) Hl) as (pre & suf & Hsplit & El & Hpre & Hsuf);
    [pose proof (path_length _ _ _ Hl); unfold fuel; lia|].
  assert (E : fd_ghost_confirm g h = Ok (with_pool g (validate pre (blk_pool g))))
    by (unfold fd_ghost_confirm; by rewrite Hh, El).
  eexists. split; [done|]. split; [by eapply confirm_keeps|]. exists pre, suf. split_and!; [done..|].
  intros k b Hb. simpl. by rewrite lookup_validate, Hb.
Qed.

(** A run of the fork-choice component.  The caller votes for blocks it knows,
    and all the stake together fits in 64 bits. *)
Inductive ghost_reach : fd_ghost_t -> Prop :=
| greach_init cap vcap bs sl h g i :
    (0 < cap)%nat -> Z.of_nat cap <= null ->
    fd_ghost_init (fd_ghost_new cap vcap) bs sl h = Ok (g, i) -> ghost_reach g
| greach_insert g bs sl h ph g' i :
    ghost_reach g -> h <> ph -> fd_ghost_insert g bs sl h ph = Ok (g', i) -> ghost_reach g'
| greach_vote g blk acc s slot_ rc g' :
    ghost_reach g -> is_Some (blk_pool g !! blk) -> 0 <= s -> total_weight g + s <= ULONG_MAX ->
    fd_ghost_count_vote g blk acc s slot_ = Ok (rc, g') -> ghost_reach g'
| greach_eqvoc g h g' : ghost_reach g -> fd_ghost_eqvoc g h = Ok g' -> ghost_reach g'
| greach_confirm g h g' : ghost_reach g -> fd_ghost_confirm g h = Ok g' -> ghost_reach g'
| greach_publish g newr g' :
    ghost_reach g -> is_Some (blk_pool g !! newr) -> fd_ghost_publish g newr = Ok g' ->
    ghost_reach g'.

Lemma ghost_reach_wf g : ghost_reach g -> ghost_wf g.
Proof.
  induction 1 as [cap vcap bs sl h g i Hc Hn E| | | | |].
  - destruct (ghost_init_wf cap vcap bs sl h Hc Hn) as (g' & i' & E' & Hg & _). congruence.
  - by eapply insert_keeps.
  - by eapply (count_vote_keeps g blk acc s slot_).
  - by eapply eqvoc_keeps.
  - by eapply confirm_keeps.
  - by eapply publish_keeps.
Qed.

Lemma anc_parent_in p r i b pb j :
  tree_wf p r -> p !! i = Some b -> p !! parent b = Some pb -> i ∈ anc p j -> parent b ∈ anc p j.
Proof.
  intros T Hb Hpb Hi. destruct (p !! j) as [bj|] eqn:Ej.
  - destruct (tw_path _ _ T j) as [l Hl]; [eauto|].
    rewrite (anc_path _ _ _ (tw_null _ _ T) Hl) in *.
    destruct (path_in _ _ _ _ Hl Hi) as (_ & l1 & l2 & -> & H2).
    inversion H2 as [|? b' l3 ? Hb' H3]; subst; [pose proof (tw_null _ _ T); congruence|].
    assert (b' = b) as -> by congruence.
    inversion H3 as [E|? b3 l4 ? Hb3 H4 E]; subst.
    + pose proof (tw_null _ _ T). congruence.
    + rewrite elem_of_app, !elem_of_cons. tauto.
  - unfold anc in Hi. destruct (size p); simpl in Hi; [set_solver|]. rewrite Ej in Hi. set_solver.
Qed.

(** C9. In every reachable state the stake of each block is the sum of the stakes
    of the voters whose latest vote is for it or one of its descendants, so a
    parent always has at least the stake of each child; the fork count is the
    number of leaves; the block map names exactly the blocks of the tree. *)
Theorem ghost_reach_invariant (g : fd_ghost_t) :
  ghost_reach g ->
  stake_inv g /\ map_wf g /\ tree_wf (blk_pool g) (root g) /\
  fd_ghost_width g = leaves (blk_pool g) /\
  (forall i b pb, blk_pool g !! i = Some b -> blk_pool g !! parent b = Some pb ->
     0 <= stake b <= stake pb).
Proof.
  intros Hg%ghost_reach_wf. pose proof (gw_tree _ Hg) as T.
  split_and!; [apply Hg|apply Hg|done|apply Hg|].
  intros i b pb Hb Hpb. rewrite (gw_stake _ Hg _ _ Hb), (gw_stake _ Hg _ _ Hpb). unfold weight.
  assert (Hpos : forall a v, vtr_map g !! a = Some v -> 0 <= prev_stake v)
    by (intros a v Hv; by apply (vw_parked _ (gw_votes _ Hg) a v)).
  split.
  - apply sum_map_nonneg. intros a v Hv. apply contrib_bounds. eauto.
  - apply sum_map_le. intros a v Hv. specialize (Hpos a v Hv). unfold contrib.
    destruct (vw_parked _ (gw_votes _ Hg) a v Hv) as (_ & j & -> & _).
    destruct (decide (i ∈ anc _ j)) as [Hi|]; [|destruct (decide _); lia].
    rewrite decide_True; [lia|]. by eapply anc_parent_in.
Qed.

(** ** Example states *)

Definition default_ghost : fd_ghost_t := fd_ghost_new 0 0.

Definition ok_or {A} (d : A) (m : res A) : A := match m with Ok a => a | _ => d end.

(** The states computed by [example_tree] and [example_votes]. *)
Definition ghost_tree : fd_ghost_t := Eval vm_compute in ok_or default_ghost example_tree.
Definition ghost_voted1 : fd_ghost_t := Eval vm_compute in
  ok_or default_ghost (g ← example_tree; '(_, g) ← fd_ghost_count_vote g 3 1000 10 4; Ok g).
Definition ghost_voted : fd_ghost_t := Eval vm_compute in ok_or default_ghost example_votes.

Lemma ghost_tree_reach : ghost_reach ghost_tree.
Proof.
  assert (E : example_tree = Ok ghost_tree) by (vm_compute; reflexivity).
  unfold example_tree in E.
  apply bind_Ok in E as ([g1 i1] & E1 & E). apply bind_Ok in E as ([g2 i2] & E2 & E).
  apply bind_Ok in E as ([g3 i3] & E3 & E). apply bind_Ok in E as ([g4 i4] & E4 & E).
  apply bind_Ok in E as ([g5 i5] & E5 & E). injection E as <-.
  eapply greach_insert; [| |exact E5]; [|done]. eapply greach_insert; [| |exact E4]; [|done].
  eapply greach_insert; [| |exact E3]; [|done]. eapply greach_insert; [| |exact E2]; [|done].
  eapply greach_init; [| |exact E1]; [lia|done].
Qed.

Lemma ghost_voted_reach : ghost_reach ghost_voted.
Proof.
  assert (H1 : ghost_reach ghost_voted1).
  { eapply (greach_vote ghost_tree 3 1000 10 4 FD_GHOST_SUCCESS); [apply ghost_tree_reach| | | |];
      vm_compute; eauto; done. }
  eapply (greach_vote ghost_voted1 4 1001 15 5 FD_GHOST_SUCCESS); [exact H1| | | |]; vm_compute; eauto; done.
Qed.

Lemma ghost_voted_wf : ghost_wf ghost_voted.
Proof. apply ghost_reach_wf, ghost_voted_reach. Qed.
Lemma ghost_tree_wf : ghost_wf ghost_tree.
Proof. apply ghost_reach_wf, ghost_tree_reach. Qed.

(** ** Instances of the properties *)

Lemma ghost_reach_invariant_witness : ghost_reach ghost_voted /\ stake_inv ghost_voted.
Proof.
  split; [exact ghost_voted_reach|]. apply (ghost_reach_invariant ghost_voted ghost_voted_reach).
Defined.

Lemma count_vote_lmd_witness :
  exists rc g', fd_ghost_count_vote ghost_voted 3 1001 15 6 = Ok (rc, g') /\ ghost_wf g'.
Proof.
  destruct (count_vote_lmd ghost_voted 3 1001 15 6 ghost_voted_wf) as (rc & g' & rb & b & E & Hg & _).
  - vm_compute. eauto.
  - lia.
  - vm_compute. discriminate.
  - left. vm_compute. eauto.
  - exists rc, g'. split; [exact E|exact Hg].
Defined.

Lemma ghost_insert_wf_witness :
  exists g' b, fd_ghost_insert ghost_voted 0 6 106 104 = Ok (g', 5) /\ ghost_wf g' /\
    blk_pool g' !! 5 = Some b /\ parent b = 3.
Proof.
  destruct (ghost_insert_wf ghost_voted 0 6 106 104 ghost_voted_wf ltac:(discriminate))
    as (g' & b & E & Hg & Hb & _ & _ & Hp & _).
  exists g', b. split; [exact E|]. split; [exact Hg|]. split; [exact Hb|exact Hp].
Defined.

Lemma ghost_best_heaviest_witness :
  exists j, fd_ghost_best ghost_voted 0 = Ok j /\ best_path (blk_pool ghost_voted) 0 j.
Proof. apply (ghost_best_heaviest ghost_voted 0 ghost_voted_wf). vm_compute. eauto. Defined.

Lemma ghost_eqvoc_subtree_witness :
  exists g', fd_ghost_eqvoc ghost_voted 103 = Ok g' /\ ghost_wf g'.
Proof.
  destruct (ghost_eqvoc_subtree ghost_voted 103 2 ghost_voted_wf eq_refl) as (g' & E & Hg & _).
  exists g'. split; [exact E|exact Hg].
Defined.

Lemma ghost_ancestor_correct_witness :
  exists a, fd_ghost_ancestor ghost_voted 3 102 = Ok a /\ (a <> null -> fd_ghost_query ghost_voted 102 = Some a).
Proof.
  destruct (ghost_ancestor_correct ghost_voted 3 102 ghost_voted_wf) as (a & E & _ & H).
  - vm_compute. eauto.
  - exists a. split; [exact E|exact H].
Defined.

Lemma ghost_publish_prunes_witness :
  exists g', fd_ghost_publish ghost_voted 2 = Ok g' /\ ghost_wf g' /\ root g' = 2.
Proof.
  destruct (ghost_publish_prunes ghost_voted 2 ghost_voted_wf) as (g' & E & Hg & [Hr _]).
  - vm_compute. eauto.
  - exists g'. split; [exact E|]. split; [exact Hg|exact Hr].
Defined.

Lemma ghost_confirm_path_witness :
  exists g', fd_ghost_confirm ghost_voted 104 = Ok g' /\ ghost_wf g'.
Proof.
  destruct (ghost_confirm_path ghost_voted 104 3 [3; 2; 1; 0] ghost_voted_wf eq_refl)
    as (g' & E & Hg & _).
  - repeat (eapply path_cons; [discriminate|vm_compute; reflexivity|simpl]). constructor.
  - exists g'. split; [exact E|exact Hg].
Defined.

Lemma ghost_deepest_correct_witness :
  exists d, fd_ghost_deepest ghost_voted 1 = Ok (d, ghost_voted) /\ below (blk_pool ghost_voted) 1 d.
Proof.
  destruct (ghost_deepest_correct ghost_voted 1 ghost_voted_wf) as (d & E & H & _).
  - vm_compute. eauto.
  - exists d. split; [exact E|exact H].
Defined.
