(* ===== verification/TowerSerdes.v ===== *)
(** * Vote instructions and vote accounts on the wire
      ([src/choreo/tower/fd_tower_serdes.c])

    Bytes are integers in [0, 256), buffers are lists of bytes.  Reading takes
    bytes from the front of the buffer ([None] is the error return -1); writing
    appends to the bytes already written, and a write at or beyond [buf_max] is
    [Ub].  Hashes are 32-byte strings here. *)

From S2P Require Import Prelude Bytes TowerVotes.

#[local] Open Scope Z_scope.

(** A [long] stored in 8 bytes. *)
Definition s64 (z : Z) : Z := if z <? 2 ^ 63 then z else z - 2 ^ 64.

(** ** Variable-length integers *)

Definition USHORT_MAX : Z := 65535.

Definition de_short_u16 (src : list Z) : option (Z * list Z) :=
  match src with
  | [] => None
  | s0 :: r1 =>
      if Z.land 128 s0 =? 0 then Some (s0, r1)
      else
        match r1 with
        | [] => None
        | s1 :: r2 =>
            if Z.land 128 s1 =? 0 then
              if s1 =? 0 then None
              else Some ((Z.land s0 127 + Z.shiftl s1 7) mod 65536, r2)
            else
              match r2 with
              | [] => None
              | s2 :: r3 =>
                  if negb (Z.land 128 s2 =? 0) then None
                  else if s2 =? 0 then None
                  else
                    let val := Z.land s0 127 + Z.shiftl (Z.land s1 127) 7 + Z.shiftl s2 14 in
                    if USHORT_MAX <? val then None else Some (val, r3)
              end
        end
  end.

(** The loop of [de_var_int]: every iteration consumes one byte. *)
Fixpoint de_var_int_from (dst bit : Z) (src : list Z) : option (Z * list Z) :=
  if bit <? 64 then
    match src with
    | [] => None
    | byte :: src' =>
        let dst' := Z.lor dst (u64 (Z.shiftl (Z.land byte 127) bit)) in
        if Z.land byte 128 =? 0 then
          if negb (Z.shiftr dst' bit =? byte) then None
          else if (byte =? 0) && (negb (bit =? 0) || negb (dst' =? 0)) then None
          else Some (dst', src')
        else de_var_int_from dst' (bit + 7) src'
    end
  else None.

Definition de_var_int (src : list Z) : option (Z * list Z) := de_var_int_from 0 0 src.

Definition ser_short_u16 (val : Z) : list Z :=
  if val <? 128 then [val]
  else if val <? 16384 then [Z.lor (Z.land val 127) 128; Z.shiftr val 7]
  else [Z.lor (Z.land val 127) 128; Z.lor (Z.land (Z.shiftr val 7) 127) 128; Z.shiftr val 14].

(** A 64-bit value takes at most 10 iterations. *)
Fixpoint ser_var_int_from (fuel : nat) (val : Z) : res (list Z) :=
  match fuel with
  | O => Hang
  | S fuel' =>
      if 128 <=? val then
        rest ← ser_var_int_from fuel' (Z.shiftr val 7);
        Ok (Z.lor (Z.land val 127) 128 :: rest)
      else Ok [val]
  end.

Definition ser_var_int (val : Z) : res (list Z) := ser_var_int_from 10 val.

(** ** CompactTowerSync *)

Record lockout_t := mk_lockout { offset : Z; confirmation_count : Z }.

(** [lockouts] holds the entries of the array below [lockouts_cnt]. *)
Record fd_compact_tower_sync_serde_t := mk_serde {
  sd_root : Z;
  lockouts_cnt : Z;
  lockouts : list lockout_t;
  sd_hash : list Z;
  timestamp_option : Z;
  timestamp : Z;
  sd_block_id : list Z;
}.

(** [DE]: the next [n] bytes, when there are that many. *)
Definition DE (n : nat) (buf : list Z) : option (list Z * list Z) :=
  if (length buf <? n)%nat then None else Some (take n buf, drop n buf).

Fixpoint de_lockouts (cnt : nat) (buf : list Z) : option (list lockout_t * list Z) :=
  match cnt with
  | O => Some ([], buf)
  | S cnt' =>
      '(off, buf) ← de_var_int buf;
      '(c, buf) ← DE 1 buf;
      '(ls, buf) ← de_lockouts cnt' buf;
      Some (mk_lockout off (le_val c) :: ls, buf)
  end.

(** The timestamp of [serde] is left as it was when the option is 0. *)
Definition fd_compact_tower_sync_de_rest (timestamp0 : Z) (buf : list Z)
    : option (fd_compact_tower_sync_serde_t * list Z) :=
  '(root, buf) ← DE 8 buf;
  '(cnt, buf) ← de_short_u16 buf;
  if FD_TOWER_VOTE_MAX <? cnt then None
  else
    '(ls, buf) ← de_lockouts (Z.to_nat cnt) buf;
    '(hash, buf) ← DE 32 buf;
    '(opt, buf) ← DE 1 buf;
    let opt := le_val opt in
    if negb (opt =? 1) && negb (opt =? 0) then None
    else
      '(ts, buf) ← (if negb (opt =? 0) then '(ts, buf) ← DE 8 buf; Some (s64 (le_val ts), buf)
                    else Some (timestamp0, buf));
      '(block_id, buf) ← DE 32 buf;
      Some (mk_serde (le_val root) cnt ls hash opt ts block_id, buf).

Definition fd_compact_tower_sync_de (timestamp0 : Z) (buf : list Z)
    : option fd_compact_tower_sync_serde_t :=
  fst <$> fd_compact_tower_sync_de_rest timestamp0 buf.

(** [SER]: [None] when the bytes do not fit. *)
Definition SER (buf_max : Z) (bytes out : list Z) : option (list Z) :=
  if buf_max <? Z.of_nat (length out + length bytes) then None else Some (out ++ bytes).

(** The unchecked writes of [ser_short_u16] and [ser_var_int]. *)
Definition put (buf_max : Z) (bytes out : list Z) : res (list Z) :=
  if buf_max <? Z.of_nat (length out + length bytes) then Ub else Ok (out ++ bytes).

Fixpoint ser_lockouts (buf_max : Z) (ls : list lockout_t) (out : list Z) : res (option (list Z)) :=
  match ls with
  | [] => Ok (Some out)
  | l :: ls' =>
      v ← ser_var_int (offset l);
      out ← put buf_max v out;
      match SER buf_max [confirmation_count l] out with
      | None => Ok None
      | Some out => ser_lockouts buf_max ls' out
      end
  end.

Definition ser_tail (buf_max : Z) (serde : fd_compact_tower_sync_serde_t) (out : list Z)
    : option (list Z) :=
  out ← SER buf_max (sd_hash serde) out;
  out ← SER buf_max [timestamp_option serde] out;
  out ← (if negb (timestamp_option serde =? 0)
         then SER buf_max (le_bytes 8 (u64 (timestamp serde))) out else Some out);
  SER buf_max (sd_block_id serde) out.

(** The bytes written on success; [buf_sz] is their number. *)
Definition fd_compact_tower_sync_ser (serde : fd_compact_tower_sync_serde_t) (buf_max : Z)
    : res (option (list Z)) :=
  match SER buf_max (le_bytes 8 (sd_root serde)) [] with
  | None => Ok None
  | Some out =>
      out ← put buf_max (ser_short_u16 (lockouts_cnt serde)) out;
      if FD_TOWER_VOTE_MAX <? lockouts_cnt serde then Ok None
      else
        r ← ser_lockouts buf_max (take (Z.to_nat (lockouts_cnt serde)) (lockouts serde)) out;
        match r with
        | None => Ok None
        | Some out => Ok (ser_tail buf_max serde out)
        end
  end.

(** ** ShortU16 *)

Lemma short_u16_roundtrip v rest :
  0 <= v <= USHORT_MAX -> de_short_u16 (ser_short_u16 v ++ rest) = Some (v, rest).
Proof.
  unfold USHORT_MAX, ser_short_u16. intros Hv.
  destruct (Z.ltb_spec v 128) as [H1|H1].
  { simpl. rewrite land_128 by (unfold is_byte; lia). by rewrite (proj2 (Z.ltb_lt _ _)). }
  rewrite !lor_128, !Z.shiftr_div_pow2 by lia. change (2 ^ 7) with 128. change (2 ^ 14) with 16384.
  pose proof (Z.mod_pos_bound v 128 ltac:(lia)) as Hm.
  assert (Hm2 : (v mod 128 + 128) mod 128 = v mod 128).
  { rewrite <- (Z.mul_1_l 128) at 2. rewrite Z.mod_add by lia. apply Z.mod_mod. lia. }
  pose proof (Z.div_mod v 128 ltac:(lia)) as Hdm.
  destruct (Z.ltb_spec v 16384) as [H2|H2]; simpl.
  - assert (1 <= v / 128 < 128) by (split; [apply Z.div_le_lower_bound|apply Z.div_lt_upper_bound]; lia).
    rewrite !land_128 by (unfold is_byte; lia).
    rewrite (proj2 (Z.ltb_ge _ _)), (proj2 (Z.ltb_lt _ _)), (proj2 (Z.eqb_neq _ _)) by lia.
    rewrite land_127, Hm2, Z.shiftl_mul_pow2 by lia. f_equal. f_equal.
    rewrite Z.mod_small; change (2 ^ 7) with 128; lia.
  - rewrite land_127.
    pose proof (Z.mod_pos_bound (v / 128) 128 ltac:(lia)) as Hk.
    pose proof (Z.div_mod (v / 128) 128 ltac:(lia)) as Hkm.
    assert (Hkm2 : ((v / 128) mod 128 + 128) mod 128 = (v / 128) mod 128).
    { rewrite <- (Z.mul_1_l 128) at 3. rewrite Z.mod_add by lia. apply Z.mod_mod. lia. }
    rewrite Z.div_div in Hkm by lia. change (128 * 128) with 16384 in Hkm.
    assert (1 <= v / 16384 < 128) by (split; [apply Z.div_le_lower_bound|apply Z.div_lt_upper_bound]; lia).
    rewrite !land_128 by (unfold is_byte; lia).
    rewrite !(proj2 (Z.ltb_ge _ 128)), (proj2 (Z.ltb_lt (v / 16384) _)), (proj2 (Z.eqb_neq _ _)) by lia.
    simpl. rewrite !land_127, Hm2, Hkm2, !Z.shiftl_mul_pow2 by lia.
    change (2 ^ 7) with 128. change (2 ^ 14) with 16384. unfold USHORT_MAX.
    assert (v mod 128 + (v / 128) mod 128 * 128 + v / 16384 * 16384 = v) as -> by lia.
    by rewrite (proj2 (Z.ltb_ge _ _)) by lia.
Qed.

(** Every accepted encoding is the one [ser_short_u16] writes. *)
Lemma short_u16_canonical src v rest :
  Forall is_byte src -> de_short_u16 src = Some (v, rest) ->
  0 <= v <= USHORT_MAX /\ src = ser_short_u16 v ++ rest.
Proof.
  unfold USHORT_MAX, de_short_u16. intros Hb.
  destruct src as [|s0 r1]; [done|]. apply Forall_cons in Hb as [Hb0 Hb].
  rewrite (land_128 s0) by done. unfold is_byte in *.
  destruct (Z.ltb_spec s0 128) as [H0|H0].
  { intros [= <- <-]. split; [lia|]. unfold ser_short_u16. by rewrite (proj2 (Z.ltb_lt _ _)). }
  destruct r1 as [|s1 r2]; [done|]. apply Forall_cons in Hb as [Hb1 Hb].
  rewrite (land_128 s1) by done. rewrite !land_127.
  assert (E0 : s0 mod 128 = s0 - 128).
  { symmetry. apply (Z.mod_unique_pos _ _ 1); lia. }
  destruct (Z.ltb_spec s1 128) as [H1|H1].
  { destruct (Z.eqb_spec s1 0) as [|Hne]; [done|]. intros [= <- <-].
    rewrite Z.shiftl_mul_pow2, E0 by lia. change (2 ^ 7) with 128.
    rewrite Z.mod_small by lia. split; [lia|]. unfold ser_short_u16.
    rewrite (proj2 (Z.ltb_ge _ _)), (proj2 (Z.ltb_lt _ _)) by lia.
    rewrite lor_128, Z.shiftr_div_pow2 by lia. change (2 ^ 7) with 128. simpl.
    assert ((s0 - 128 + s1 * 128) mod 128 = s0 - 128) as ->
      by (symmetry; apply (Z.mod_unique_pos _ _ s1); lia).
    assert ((s0 - 128 + s1 * 128) / 128 = s1) as ->
      by (symmetry; apply (Z.div_unique_pos _ _ _ (s0 - 128)); lia).
    f_equal. lia. }
  destruct r2 as [|s2 r3]; [done|]. apply Forall_cons in Hb as [Hb2 Hb].
  rewrite (land_128 s2) by done.
  destruct (Z.ltb_spec s2 128) as [H2|H2]; [simpl|done].
  destruct (Z.eqb_spec s2 0) as [|Hne]; [done|].
  assert (E1 : s1 mod 128 = s1 - 128).
  { symmetry. apply (Z.mod_unique_pos _ _ 1); lia. }
  rewrite !Z.shiftl_mul_pow2, E0, E1 by lia. change (2 ^ 7) with 128. change (2 ^ 14) with 16384.
  unfold USHORT_MAX. destruct (Z.ltb_spec 65535 (s0 - 128 + (s1 - 128) * 128 + s2 * 16384)); [done|].
  intros [= <- <-]. split; [lia|]. unfold ser_short_u16.
  rewrite !(proj2 (Z.ltb_ge _ _)) by lia.
  rewrite !lor_128, !Z.shiftr_div_pow2 by lia. change (2 ^ 7) with 128. change (2 ^ 14) with 16384. simpl.
  set (v := s0 - 128 + (s1 - 128) * 128 + s2 * 16384).
  assert (v mod 128 = s0 - 128) as -> by (symmetry; apply (Z.mod_unique_pos _ _ (s1 - 128 + s2 * 128)); lia).
  assert (v / 128 = s1 - 128 + s2 * 128) as Ed
    by (symmetry; apply (Z.div_unique_pos _ _ _ (s0 - 128)); lia).
  assert ((v / 128) mod 128 = s1 - 128) as ->
    by (rewrite Ed; symmetry; apply (Z.mod_unique_pos _ _ s2); lia).
  assert (v / 16384 = s2) as ->
    by (symmetry; apply (Z.div_unique_pos _ _ _ (s0 - 128 + (s1 - 128) * 128)); lia).
  by rewrite !Z.sub_add.
Qed.

(** ** VarInt *)

Lemma u64_shift a bit : 0 <= bit < 64 -> u64 (Z.shiftl a bit) = (a mod 2 ^ (64 - bit)) * 2 ^ bit.
Proof.
  intros Hb. unfold u64. rewrite Z.shiftl_mul_pow2 by lia.
  replace 18446744073709551616 with (2 ^ (64 - bit) * 2 ^ bit).
  - rewrite Z.mul_mod_distr_r; [done|..]; apply Z.pow_nonzero; lia.
  - rewrite <- Z.pow_add_r by lia. by replace (64 - bit + bit) with 64 by lia.
Qed.

(** One byte is added above the bits already read. *)
Lemma var_int_step dst byte bit :
  0 <= bit < 64 -> 0 <= dst < 2 ^ bit ->
  Z.lor dst (u64 (Z.shiftl (Z.land byte 127) bit)) =
    dst + (byte mod 128) mod 2 ^ (64 - bit) * 2 ^ bit.
Proof. intros Hb Hd. by rewrite land_127, u64_shift, lor_add by lia. Qed.

Lemma shiftr_add dst x bit : 0 <= bit -> 0 <= dst < 2 ^ bit -> Z.shiftr (dst + x * 2 ^ bit) bit = x.
Proof.
  intros Hb Hd. rewrite Z.shiftr_div_pow2 by lia. rewrite Z.div_add by lia.
  rewrite Z.div_small by lia. lia.
Qed.

Lemma var_int_roundtrip_from fuel val bytes dst bit rest :
  ser_var_int_from fuel val = Ok bytes -> 0 <= val -> 0 <= bit -> 0 <= dst < 2 ^ bit ->
  dst + val * 2 ^ bit <= ULONG_MAX -> bit = 0 \/ val <> 0 ->
  de_var_int_from dst bit (bytes ++ rest) = Some (dst + val * 2 ^ bit, rest).
Proof.
  revert val bytes dst bit. induction fuel as [|fuel IH]; intros val bytes dst bit E Hv Hb Hd Hmax Hor; [done|].
  simpl in E. assert (Hp : 0 < 2 ^ bit) by (apply Z.pow_pos_nonneg; lia).
  assert (Hb64 : bit < 64).
  { destruct Hor as [->|Hne]; [lia|]. apply (Z.pow_lt_mono_r_iff 2); [lia..|].
    unfold ULONG_MAX in Hmax. change (2 ^ 64) with 18446744073709551616. nia. }
  assert (Hsmall : forall x, 0 <= x <= val -> x mod 2 ^ (64 - bit) = x).
  { intros x Hx. apply Z.mod_small. split; [lia|]. apply (Z.mul_lt_mono_pos_r (2 ^ bit)); [done|].
    rewrite <- Z.pow_add_r by lia. replace (64 - bit + bit) with 64 by lia.
    unfold ULONG_MAX in Hmax. change (2 ^ 64) with 18446744073709551616. nia. }
  destruct (Z.leb_spec 128 val) as [Hge|Hlt].
  - apply bind_Ok in E as (bytes' & E & [= <-]). rewrite lor_128.
    pose proof (Z.mod_pos_bound val 128 ltac:(lia)) as Hm.
    pose proof (Z.div_mod val 128 ltac:(lia)) as Hdm.
    assert (Hdiv : 1 <= val / 128) by (apply Z.div_le_lower_bound; lia).
    simpl. rewrite (proj2 (Z.ltb_lt bit 64)) by done.
    rewrite (Z.land_comm _ 128), land_128 by (unfold is_byte; lia).
    rewrite (proj2 (Z.ltb_ge _ 128)) by lia. rewrite var_int_step by lia.
    assert ((val mod 128 + 128) mod 128 = val mod 128) as ->
      by (symmetry; apply (Z.mod_unique_pos _ _ 1); lia).
    rewrite Hsmall by lia.
    rewrite Z.shiftr_div_pow2 in E by lia. change (2 ^ 7) with 128 in E.
    assert (Hpow : 2 ^ (bit + 7) = 128 * 2 ^ bit) by (rewrite Z.pow_add_r by lia; change (2 ^ 7) with 128; lia).
    rewrite (IH (val / 128) bytes' _ (bit + 7)); [|done|lia|lia|rewrite Hpow; nia|rewrite Hpow; nia|lia].
    f_equal. f_equal. rewrite Hpow. nia.
  - injection E as <-. simpl. rewrite (proj2 (Z.ltb_lt bit 64)) by done.
    rewrite (Z.land_comm _ 128), land_128 by (unfold is_byte; lia).
    rewrite (proj2 (Z.ltb_lt val 128)) by done. rewrite var_int_step by lia.
    rewrite (Z.mod_small val 128), Hsmall by lia.
    rewrite shiftr_add, Z.eqb_refl by lia. simpl.
    destruct (Z.eqb_spec val 0) as [->|]; [|done]. simpl.
    destruct Hor as [->|?]; [|done]. simpl in Hd. assert (dst = 0) as -> by lia. done.
Qed.

Lemma ser_var_int_from_ok fuel val :
  0 <= val < 2 ^ (7 * Z.of_nat fuel) -> (0 < fuel)%nat ->
  exists bytes, ser_var_int_from fuel val = Ok bytes /\ (1 <= length bytes <= fuel)%nat /\
    Forall is_byte bytes.
Proof.
  revert val. induction fuel as [|fuel IH]; intros val Hv Hf; [lia|]. simpl.
  destruct (Z.leb_spec 128 val) as [Hge|Hlt].
  - destruct fuel as [|fuel]; [simpl in Hv; lia|].
    rewrite Z.shiftr_div_pow2 by lia. change (2 ^ 7) with 128.
    destruct (IH (val / 128)) as (bytes & -> & Hl & Hb).
    + split; [apply Z.div_pos; lia|]. apply Z.div_lt_upper_bound; [lia|].
      replace (7 * Z.of_nat (S (S fuel))) with (7 + 7 * Z.of_nat (S fuel)) in Hv by lia.
      rewrite Z.pow_add_r in Hv by lia. apply Hv.
    + lia.
    + eexists. split; [done|]. split; [simpl; lia|]. constructor; [|done].
      rewrite lor_128. pose proof (Z.mod_pos_bound val 128 ltac:(lia)). unfold is_byte. lia.
  - eexists. split; [done|]. split; [simpl; lia|]. constructor; [unfold is_byte; lia|constructor].
Qed.

Lemma ser_var_int_ok val : is_u64 val ->
  exists bytes, ser_var_int val = Ok bytes /\ (1 <= length bytes <= 10)%nat /\ Forall is_byte bytes.
Proof.
  intros Hv. apply ser_var_int_from_ok; [|lia]. unfold is_u64, ULONG_MAX in Hv.
  change (7 * Z.of_nat 10) with 70.
  split; [lia|]. eapply Z.le_lt_trans; [apply Hv|]. by vm_compute.
Qed.

(** Every accepted encoding is the one [ser_var_int] writes; [k] bytes have
    been read. *)
Lemma var_int_canonical_from src dst k v rest fuel :
  Forall is_byte src -> 0 <= dst < 2 ^ (7 * Z.of_nat k) -> (fuel + k = 10)%nat ->
  de_var_int_from dst (7 * Z.of_nat k) src = Some (v, rest) ->
  exists w bytes, v = dst + w * 2 ^ (7 * Z.of_nat k) /\ 0 <= w /\ is_u64 v /\
    src = bytes ++ rest /\ ser_var_int_from fuel w = Ok bytes /\ (k = O \/ w <> 0).
Proof.
  revert dst k fuel. induction src as [|byte src IH]; intros dst k fuel Hb Hd Hf E; simpl in E.
  { by destruct (_ <? 64). }
  destruct (Z.ltb_spec (7 * Z.of_nat k) 64) as [Hk|]; [|done].
  apply Forall_cons in Hb as [Hbyte Hb]. set (bit := 7 * Z.of_nat k) in *.
  destruct fuel as [|fuel]; [lia|].
  rewrite (Z.land_comm _ 128), land_128 in E by done. rewrite var_int_step in E by lia.
  set (x := (byte mod 128) mod 2 ^ (64 - bit)) in *.
  assert (Hx : 0 <= x < 2 ^ (64 - bit)) by (apply Z.mod_pos_bound, Z.pow_pos_nonneg; lia).
  assert (Hp : 0 < 2 ^ bit) by (apply Z.pow_pos_nonneg; lia).
  assert (H64 : 2 ^ (64 - bit) * 2 ^ bit = 18446744073709551616).
  { rewrite <- Z.pow_add_r by lia. by replace (64 - bit + bit) with 64 by lia. }
  unfold is_byte in Hbyte. destruct (Z.ltb_spec byte 128) as [Hlt|Hge].
  - rewrite shiftr_add in E by lia. destruct (Z.eqb_spec x byte) as [Ex|]; [|done]. simpl in E.
    destruct ((byte =? 0) && _) eqn:Ez; [done|]. injection E as <- <-.
    exists byte, [byte]. rewrite Ex. split; [done|]. split; [lia|]. split.
    { unfold is_u64, ULONG_MAX. rewrite Ex in Hx. nia. }
    split; [done|]. split; [simpl; by rewrite (proj2 (Z.leb_gt _ _))|].
    destruct k as [|k]; [by left|right]. intros Hz.
    apply andb_false_iff in Ez as [Ez|[Ez _]%orb_false_iff]; [by apply Z.eqb_neq in Ez|].
    apply negb_false_iff, Z.eqb_eq in Ez. unfold bit in Ez. lia.
  - assert (Hk8 : (k <= 8)%nat).
    { destruct (le_lt_dec k 8) as [|Hk9]; [done|]. assert (k = 9%nat) by lia. subst k.
      exfalso. destruct src; simpl in E; done. }
    assert (Ex : x = byte - 128).
    { unfold x. rewrite (Z.mod_small (byte mod 128)).
      - symmetry. apply (Z.mod_unique_pos _ _ 1); lia.
      - pose proof (Z.mod_pos_bound byte 128 ltac:(lia)).
        assert (2 ^ 7 <= 2 ^ (64 - bit)) by (apply Z.pow_le_mono_r; unfold bit; lia).
        change (2 ^ 7) with 128 in *. lia. }
    replace (bit + 7) with (7 * Z.of_nat (S k)) in E by (unfold bit; lia).
    assert (Hpow : 2 ^ (7 * Z.of_nat (S k)) = 128 * 2 ^ bit).
    { replace (7 * Z.of_nat (S k)) with (7 + bit) by (unfold bit; lia). by rewrite Z.pow_add_r by lia. }
    assert (Hd' : 0 <= dst + x * 2 ^ bit < 2 ^ (7 * Z.of_nat (S k))) by (rewrite Hpow; nia).
    destruct (IH (dst + x * 2 ^ bit) (S k) fuel Hb Hd' ltac:(lia) E)
      as (w & bytes & -> & Hw & Hu & -> & Es & Hor).
    destruct Hor as [?|Hw0]; [done|].
    exists (x + 128 * w), (byte :: bytes). split; [rewrite Hpow; lia|].
    split; [lia|]. split; [done|]. split; [done|]. split; [|right; lia].
    simpl. rewrite (proj2 (Z.leb_le _ _)) by lia. rewrite Z.shiftr_div_pow2 by lia. change (2 ^ 7) with 128.
    assert ((x + 128 * w) / 128 = w) as -> by (symmetry; apply (Z.div_unique_pos _ _ _ x); lia).
    rewrite Es. simpl. rewrite lor_128.
    assert ((x + 128 * w) mod 128 = x) as -> by (symmetry; apply (Z.mod_unique_pos _ _ w); lia).
    do 3 f_equal. lia.
Qed.

(** ** The fixed-width fields *)

Lemma DE_app n bs rest : length bs = n -> DE n (bs ++ rest) = Some (bs, rest).
Proof.
  intros <-. unfold DE. rewrite length_app. destruct (Nat.ltb_spec (length bs + length rest) (length bs)); [lia|].
  by rewrite take_app_length, drop_app_length.
Qed.

Lemma DE_inv n buf bs rest : DE n buf = Some (bs, rest) -> buf = bs ++ rest /\ length bs = n.
Proof.
  unfold DE. destruct (Nat.ltb_spec (length buf) n); [done|]. intros [= <- <-].
  rewrite take_drop, length_take. split; [done|lia].
Qed.

Lemma s64_u64 z : - 2 ^ 63 <= z < 2 ^ 63 -> s64 (u64 z) = z.
Proof.
  intros Hz. unfold s64, u64. change (2 ^ 64) with 18446744073709551616 in *.
  change (2 ^ 63) with 9223372036854775808 in *.
  destruct (Z.lt_ge_cases z 0) as [Hn|Hp].
  - assert (z mod 18446744073709551616 = z + 18446744073709551616) as ->
      by (symmetry; apply (Z.mod_unique_pos _ _ (-1)); lia).
    destruct (Z.ltb_spec (z + 18446744073709551616) 9223372036854775808); lia.
  - rewrite Z.mod_small by lia. destruct (Z.ltb_spec z 9223372036854775808); lia.
Qed.

Lemma u64_s64 z : is_u64 z -> u64 (s64 z) = z /\ - 2 ^ 63 <= s64 z < 2 ^ 63.
Proof.
  intros Hz. unfold is_u64, ULONG_MAX, s64, u64 in *. change (2 ^ 64) with 18446744073709551616 in *.
  change (2 ^ 63) with 9223372036854775808 in *.
  destruct (Z.ltb_spec z 9223372036854775808).
  - rewrite Z.mod_small; lia.
  - split; [|lia]. symmetry. apply (Z.mod_unique_pos _ _ (-1)); lia.
Qed.

(** ** The message *)

Definition lockout_ok (l : lockout_t) : Prop := is_u64 (offset l) /\ is_byte (confirmation_count l).

Record serde_wf (s : fd_compact_tower_sync_serde_t) : Prop := mk_serde_wf {
  sw_root : is_u64 (sd_root s);
  sw_cnt : lockouts_cnt s = Z.of_nat (length (lockouts s));
  sw_max : lockouts_cnt s <= FD_TOWER_VOTE_MAX;
  sw_lockouts : Forall lockout_ok (lockouts s);
  sw_hash : length (sd_hash s) = 32%nat /\ Forall is_byte (sd_hash s);
  sw_opt : timestamp_option s = 0 \/ timestamp_option s = 1;
  sw_ts : - 2 ^ 63 <= timestamp s < 2 ^ 63;
  sw_block_id : length (sd_block_id s) = 32%nat /\ Forall is_byte (sd_block_id s);
}.

(** The format, written out. *)
Definition var_bytes (v : Z) : list Z := match ser_var_int v with Ok b => b | _ => [] end.

Definition lockout_bytes (l : lockout_t) : list Z := var_bytes (offset l) ++ [confirmation_count l].

Definition timestamp_bytes (s : fd_compact_tower_sync_serde_t) : list Z :=
  if timestamp_option s =? 0 then [] else le_bytes 8 (u64 (timestamp s)).

Definition tail_bytes (s : fd_compact_tower_sync_serde_t) : list Z :=
  sd_hash s ++ [timestamp_option s] ++ timestamp_bytes s ++ sd_block_id s.

Definition encode (s : fd_compact_tower_sync_serde_t) : list Z :=
  le_bytes 8 (sd_root s) ++ ser_short_u16 (lockouts_cnt s) ++ concat (lockout_bytes <$> lockouts s) ++
  tail_bytes s.

Lemma var_bytes_ok v : is_u64 v -> ser_var_int v = Ok (var_bytes v) /\
  (1 <= length (var_bytes v) <= 10)%nat.
Proof.
  intros Hv. destruct (ser_var_int_ok v Hv) as (b & E & Hl & _). unfold var_bytes. by rewrite E.
Qed.

Lemma var_int_roundtrip v rest :
  is_u64 v -> de_var_int (var_bytes v ++ rest) = Some (v, rest).
Proof.
  intros Hv. destruct (var_bytes_ok v Hv) as [E _]. unfold de_var_int.
  unfold is_u64 in Hv. pose proof (var_int_roundtrip_from 10 v (var_bytes v) 0 0 rest E) as R.
  rewrite Z.pow_0_r, Z.mul_1_r, Z.add_0_l in R. apply R; [lia..|by left].
Qed.

Lemma lockouts_length ls : Forall lockout_ok ls ->
  (length (concat (lockout_bytes <$> ls)) <= 11 * length ls)%nat.
Proof.
  induction 1 as [|l ls [Ho _] _ IH]; [done|]. rewrite fmap_cons. cbn [concat].
  rewrite length_app. unfold lockout_bytes at 1. rewrite length_app. cbn [length].
  destruct (var_bytes_ok _ Ho). lia.
Qed.

Lemma short_u16_small v : 0 <= v < 128 -> length (ser_short_u16 v) = 1%nat.
Proof. intros Hv. unfold ser_short_u16. by rewrite (proj2 (Z.ltb_lt _ _)) by lia. Qed.

(** No message is longer than 423 bytes. *)
Lemma encode_length s : serde_wf s -> (length (encode s) <= 423)%nat.
Proof.
  intros H. unfold encode, tail_bytes. rewrite !length_app, le_bytes_length. pose proof (sw_cnt _ H) as Hc.
  pose proof (sw_max _ H) as Hm. unfold FD_TOWER_VOTE_MAX in Hm.
  rewrite short_u16_small by lia. pose proof (lockouts_length _ (sw_lockouts _ H)).
  destruct (sw_hash _ H) as [-> _]. destruct (sw_block_id _ H) as [-> _].
  assert (length (timestamp_bytes s) <= 8)%nat.
  { unfold timestamp_bytes. destruct (_ =? 0); simpl; lia. }
  simpl. lia.
Qed.

Lemma var_bytes_byte v : is_u64 v -> Forall is_byte (var_bytes v).
Proof. intros Hv. destruct (ser_var_int_ok v Hv) as (b & E & _ & Hb). unfold var_bytes. by rewrite E. Qed.

Lemma encode_byte s : serde_wf s -> Forall is_byte (encode s).
Proof.
  intros H. unfold encode, tail_bytes. pose proof (sw_cnt _ H) as Hc. pose proof (sw_max _ H) as Hm. unfold FD_TOWER_VOTE_MAX in Hm.
  rewrite !Forall_app. split_and!; try apply le_bytes_byte; try apply H.
  - unfold ser_short_u16. rewrite (proj2 (Z.ltb_lt _ _)) by lia. constructor; [unfold is_byte; lia|constructor].
  - apply Forall_concat, Forall_fmap. eapply Forall_impl; [apply (sw_lockouts _ H)|]. intros l [Ho Hb]. cbn. unfold lockout_bytes.
    apply Forall_app. split; [by apply var_bytes_byte|by constructor].
  - constructor; [|constructor]. unfold is_byte. destruct (sw_opt _ H) as [-> | ->]; lia.
  - unfold timestamp_bytes. destruct (_ =? 0); [constructor|apply le_bytes_byte].
Qed.

Lemma SER_ok buf_max bs out :
  Z.of_nat (length (out ++ bs)) <= buf_max -> SER buf_max bs out = Some (out ++ bs).
Proof. unfold SER. rewrite length_app. intros H. by rewrite (proj2 (Z.ltb_ge _ _)). Qed.

Lemma put_ok buf_max bs out :
  Z.of_nat (length (out ++ bs)) <= buf_max -> put buf_max bs out = Ok (out ++ bs).
Proof. unfold put. rewrite length_app. intros H. by rewrite (proj2 (Z.ltb_ge _ _)). Qed.

Lemma ser_lockouts_ok buf_max ls out :
  Forall lockout_ok ls -> Z.of_nat (length (out ++ concat (lockout_bytes <$> ls))) <= buf_max ->
  ser_lockouts buf_max ls out = Ok (Some (out ++ concat (lockout_bytes <$> ls))).
Proof.
  intros H. revert out. induction H as [|l ls [Ho _] _ IH]; intros out Hmax.
  { simpl. by rewrite app_nil_r. }
  rewrite fmap_cons in *. cbn [concat] in *. unfold lockout_bytes at 1 in Hmax.
  rewrite !length_app in Hmax. cbn [length] in Hmax. cbn [ser_lockouts].
  destruct (var_bytes_ok _ Ho) as [-> _].
  change (Ok ?x ≫= ?f) with (f x); cbv beta. rewrite put_ok by (rewrite length_app; lia).
  change (Ok ?x ≫= ?f) with (f x); cbv beta. rewrite SER_ok by (rewrite !length_app; simpl; lia).
  rewrite IH by (rewrite !length_app; cbn [length]; lia).
  unfold lockout_bytes at 2. by rewrite <- !app_assoc.
Qed.

Lemma ser_tail_ok s buf_max out :
  Z.of_nat (length (out ++ tail_bytes s)) <= buf_max ->
  ser_tail buf_max s out = Some (out ++ tail_bytes s).
Proof.
  unfold ser_tail, tail_bytes. rewrite !length_app. simpl. intros Hmax.
  rewrite SER_ok by (rewrite !length_app; lia). simpl.
  rewrite SER_ok by (rewrite !length_app; simpl; lia). simpl. unfold timestamp_bytes in *.
  destruct (_ =? 0); simpl in *.
  - rewrite SER_ok by (rewrite !length_app; simpl; lia). by rewrite <- !app_assoc.
  - rewrite SER_ok by (rewrite !length_app; simpl; lia). simpl.
    rewrite SER_ok by (rewrite !length_app; simpl; lia). by rewrite <- !app_assoc.
Qed.

Lemma ser_encode s buf_max :
  serde_wf s -> Z.of_nat (length (encode s)) <= buf_max ->
  fd_compact_tower_sync_ser s buf_max = Ok (Some (encode s)).
Proof.
  intros H Hmax. unfold fd_compact_tower_sync_ser, encode in *. rewrite !length_app in Hmax.
  rewrite SER_ok by (rewrite app_nil_l; lia). rewrite app_nil_l.
  rewrite put_ok by (rewrite length_app; lia).
  change (Ok ?x ≫= ?f) with (f x); cbv beta.
  rewrite (proj2 (Z.ltb_ge _ _)) by apply (sw_max _ H).
  rewrite take_ge by (rewrite (sw_cnt _ H); lia).
  rewrite ser_lockouts_ok; [|apply H|rewrite !length_app; lia].
  change (Ok ?x ≫= ?f) with (f x); cbv beta iota.
  rewrite ser_tail_ok by (rewrite !length_app; lia). by rewrite <- !app_assoc.
Qed.

Lemma de_lockouts_encode ls rest :
  Forall lockout_ok ls ->
  de_lockouts (length ls) (concat (lockout_bytes <$> ls) ++ rest) = Some (ls, rest).
Proof.
  induction 1 as [|l ls [Ho Hc] _ IH]; [done|]. rewrite fmap_cons. cbn [concat length de_lockouts].
  unfold lockout_bytes at 1. rewrite <- !app_assoc, var_int_roundtrip by done.
  cbn [mbind option_bind]. rewrite (DE_app 1 [confirmation_count l]) by done.
  cbn [mbind option_bind]. rewrite IH. cbn [mbind option_bind le_val].
  rewrite Z.mul_0_r, Z.add_0_r. by destruct l.
Qed.

(** The timestamp is only read when it is present. *)
Definition with_timestamp0 (ts : Z) (s : fd_compact_tower_sync_serde_t) : fd_compact_tower_sync_serde_t :=
  mk_serde (sd_root s) (lockouts_cnt s) (lockouts s) (sd_hash s) (timestamp_option s)
    (if timestamp_option s =? 0 then ts else timestamp s) (sd_block_id s).

Lemma de_encode ts s rest :
  serde_wf s ->
  fd_compact_tower_sync_de_rest ts (encode s ++ rest) = Some (with_timestamp0 ts s, rest).
Proof.
  intros H. unfold fd_compact_tower_sync_de_rest, encode, tail_bytes.
  rewrite <- !app_assoc. rewrite (DE_app 8) by apply le_bytes_length. cbn [mbind option_bind].
  pose proof (sw_cnt _ H) as Hc. pose proof (sw_max _ H) as Hm.
  rewrite short_u16_roundtrip by (unfold USHORT_MAX, FD_TOWER_VOTE_MAX in *; lia). cbn [mbind option_bind].
  rewrite (proj2 (Z.ltb_ge _ _)) by done. rewrite Hc, Nat2Z.id.
  rewrite de_lockouts_encode by apply H. cbn [mbind option_bind].
  rewrite (DE_app 32) by apply (sw_hash _ H). cbn [mbind option_bind].
  rewrite (DE_app 1 [timestamp_option s]) by done. cbn [mbind option_bind].
  change (le_val [timestamp_option s]) with (timestamp_option s + 256 * 0).
  rewrite Z.mul_0_r, Z.add_0_r. unfold with_timestamp0, timestamp_bytes. rewrite Hc.
  pose proof (sw_root _ H) as Hr. unfold is_u64, ULONG_MAX in Hr.
  assert (le_val (le_bytes 8 (sd_root s)) = sd_root s) as ->
    by (apply le_val_bytes; change (256 ^ Z.of_nat 8) with 18446744073709551616; lia).
  assert (Hts : s64 (le_val (le_bytes 8 (u64 (timestamp s)))) = timestamp s).
  { rewrite le_val_bytes; [apply s64_u64, H|].
    change (256 ^ Z.of_nat 8) with 18446744073709551616. apply Z.mod_pos_bound. lia. }
  destruct (sw_opt _ H) as [E|E]; rewrite E; cbn -[DE le_bytes le_val s64].
  - rewrite (DE_app 32) by apply (sw_block_id _ H). done.
  - rewrite (DE_app 8) by apply le_bytes_length. cbn [mbind option_bind]. rewrite Hts.
    rewrite (DE_app 32) by apply (sw_block_id _ H). done.
Qed.

(** ** Properties *)

(** Serialising a vote instruction into a buffer of at least 423 bytes always
    succeeds, writes at most 423 bytes, and deserialising what was written
    (whatever follows it) gives the instruction back; the timestamp of the
    output is untouched when the instruction carries none. *)
Theorem tower_sync_roundtrip (s : fd_compact_tower_sync_serde_t) (buf_max ts : Z) (rest : list Z) :
  serde_wf s -> 423 <= buf_max ->
  exists bytes, fd_compact_tower_sync_ser s buf_max = Ok (Some bytes) /\
    (length bytes <= 423)%nat /\
    fd_compact_tower_sync_de ts (bytes ++ rest) =
      Some (if timestamp_option s =? 0 then with_timestamp0 ts s else s).
Proof.
  intros H Hmax. pose proof (encode_length s H) as Hl. exists (encode s).
  split; [apply ser_encode; [done|lia]|]. split; [done|].
  unfold fd_compact_tower_sync_de. rewrite de_encode by done. simpl. f_equal.
  unfold with_timestamp0. destruct (_ =? 0); [done|]. by destruct s.
Qed.

Definition sync_example : fd_compact_tower_sync_serde_t :=
  mk_serde 100 2 [mk_lockout 5 2; mk_lockout 300 1] (replicate 32 7) 1 1700000000 (replicate 32 9).

Lemma sync_example_wf : serde_wf sync_example.
Proof.
  split; simpl; try (unfold is_u64, ULONG_MAX, FD_TOWER_VOTE_MAX; lia).
  - repeat constructor; unfold is_u64, ULONG_MAX, is_byte; simpl; lia.
  - split; [done|]. repeat constructor; unfold is_byte; lia.
  - split; [done|]. repeat constructor; unfold is_byte; lia.
Qed.

Lemma tower_sync_roundtrip_witness :
  exists bytes, fd_compact_tower_sync_ser sync_example 1228 = Ok (Some bytes) /\
    fd_compact_tower_sync_de 0 (bytes ++ [1; 2]) = Some sync_example.
Proof.
  destruct (tower_sync_roundtrip sync_example 1228 0 [1; 2] sync_example_wf ltac:(lia))
    as (bytes & E & _ & D).
  exists bytes. split; [exact E|exact D].
Defined.

Lemma de_lockouts_canonical cnt buf ls rest :
  Forall is_byte buf -> de_lockouts cnt buf = Some (ls, rest) ->
  buf = concat (lockout_bytes <$> ls) ++ rest /\ length ls = cnt /\ Forall lockout_ok ls.
Proof.
  revert buf ls. induction cnt as [|cnt IH]; intros buf ls Hb E; cbn [de_lockouts] in E.
  { by injection E as <- <-. }
  destruct (de_var_int buf) as [[off b1]|] eqn:E1; [|done]. cbn [mbind option_bind] in E.
  destruct (DE 1 b1) as [[c b2]|] eqn:E2; [|done]. cbn [mbind option_bind] in E.
  destruct (de_lockouts cnt b2) as [[ls' b3]|] eqn:E3; [|done]. cbn [mbind option_bind] in E.
  injection E as <- <-.
  destruct (var_int_canonical_from buf 0 0 off b1 10 Hb ltac:(simpl; lia) eq_refl E1)
    as (w & bytes & Ew & Hw & Hu & -> & Es & _).
  simpl in Ew. assert (w = off) as -> by lia. apply Forall_app in Hb as [_ Hb].
  apply DE_inv in E2 as [-> Hlen]. apply Forall_app in Hb as [Hbc Hb].
  destruct c as [|c [|]]; try done. apply Forall_cons in Hbc as [Hc _].
  destruct (IH _ _ Hb E3) as (-> & <- & Hls).
  cbn [le_val]. rewrite Z.mul_0_r, Z.add_0_r.
  split; [|split; [done|by constructor]].
  assert (Ev : var_bytes off = bytes)
    by (unfold var_bytes; change (ser_var_int off) with (ser_var_int_from 10 off); by rewrite Es).
  rewrite fmap_cons. cbn [concat]. unfold lockout_bytes at 2. cbn [offset confirmation_count].
  rewrite Ev. by rewrite <- !app_assoc.
Qed.

Lemma de_canonical ts buf s rest :
  Forall is_byte buf -> - 2 ^ 63 <= ts < 2 ^ 63 ->
  fd_compact_tower_sync_de_rest ts buf = Some (s, rest) -> serde_wf s /\ buf = encode s ++ rest.
Proof.
  intros Hb Hts E. unfold fd_compact_tower_sync_de_rest in E.
  destruct (DE 8 buf) as [[root b1]|] eqn:E1; [|done]. cbn [mbind option_bind] in E.
  apply DE_inv in E1 as [-> Hroot]. apply Forall_app in Hb as [Hbr Hb].
  destruct (de_short_u16 b1) as [[cnt b2]|] eqn:E2; [|done]. cbn [mbind option_bind] in E.
  apply short_u16_canonical in E2 as [Hcnt ->]; [|done]. apply Forall_app in Hb as [_ Hb].
  destruct (Z.ltb_spec FD_TOWER_VOTE_MAX cnt) as [|Hmax]; [done|].
  destruct (de_lockouts (Z.to_nat cnt) b2) as [[ls b3]|] eqn:E3; [|done]. cbn [mbind option_bind] in E.
  apply de_lockouts_canonical in E3 as (-> & Hls & Hok); [|done]. apply Forall_app in Hb as [_ Hb].
  destruct (DE 32 b3) as [[hash b4]|] eqn:E4; [|done]. cbn [mbind option_bind] in E.
  apply DE_inv in E4 as [-> Hhash]. apply Forall_app in Hb as [Hbh Hb].
  destruct (DE 1 b4) as [[opt b5]|] eqn:E5; [|done]. cbn [mbind option_bind] in E.
  apply DE_inv in E5 as [-> Hopt]. apply Forall_app in Hb as [Hbo Hb].
  destruct opt as [|opt [|]]; try done. cbn [le_val] in E. rewrite Z.mul_0_r, Z.add_0_r in E.
  destruct (negb (opt =? 1) && negb (opt =? 0)) eqn:Eo; [done|].
  assert (Hopt01 : opt = 0 \/ opt = 1).
  { apply andb_false_iff in Eo as [Eo|Eo]; apply negb_false_iff, Z.eqb_eq in Eo; auto. }
  assert (Hr : is_u64 (le_val root) /\ le_bytes 8 (le_val root) = root).
  { pose proof (le_val_range _ Hbr) as Hv. pose proof (le_bytes_val _ Hbr) as Hv'. rewrite Hroot in *.
    split; [|done]. unfold is_u64, ULONG_MAX. change (256 ^ Z.of_nat 8) with 18446744073709551616 in Hv. lia. }
  (* the optional timestamp *)
  assert (exists tv tb b6, (if negb (opt =? 0) then '(t, b) ← DE 8 b5; Some (s64 (le_val t), b)
            else Some (ts, b5)) = Some (tv, b6) /\ b5 = tb ++ b6 /\ - 2 ^ 63 <= tv < 2 ^ 63 /\
            Forall is_byte b6 /\
            tb = if opt =? 0 then [] else le_bytes 8 (u64 tv)) as (tv & tb & b6 & Et & -> & Htv & Hb6 & Etb).
  { destruct Hopt01 as [->| ->]; cbn [Z.eqb Pos.eqb negb].
    - by exists ts, [], b5.
    - destruct (DE 8 b5) as [[t b6]|] eqn:E6; [|done]. apply DE_inv in E6 as [-> Ht].
      apply Forall_app in Hb as [Hbt Hb6]. pose proof (le_val_range _ Hbt) as Hv. rewrite Ht in Hv.
      assert (Hu : is_u64 (le_val t))
        by (unfold is_u64, ULONG_MAX; change (256 ^ Z.of_nat 8) with 18446744073709551616 in Hv; lia).
      destruct (u64_s64 _ Hu) as [E6 Hs]. exists (s64 (le_val t)), t, b6.
      split; [done|]. split; [done|]. split; [exact Hs|]. split; [done|].
      rewrite E6. rewrite <- (le_bytes_val _ Hbt) at 1. by rewrite Ht. }
  rewrite Et in E. cbn [mbind option_bind] in E.
  destruct (DE 32 b6) as [[bid b7]|] eqn:E7; [|done]. cbn [mbind option_bind] in E.
  apply DE_inv in E7 as [-> Hbid]. apply Forall_app in Hb6 as [Hbb _]. injection E as <- <-.
  destruct Hr as [Hr Er]. split.
  - split; cbn; try done; lia.
  - unfold encode, tail_bytes, timestamp_bytes. cbn [sd_root lockouts_cnt lockouts sd_hash timestamp_option timestamp sd_block_id].
    rewrite Er, <- Etb. by rewrite <- !app_assoc.
Qed.

(** The wire format is canonical: whenever the deserialiser accepts a buffer,
    the buffer starts with exactly the bytes the serialiser writes for the
    accepted instruction, so no instruction has two encodings; and what is
    accepted has at most 31 lockouts and in-range fields. *)
Theorem tower_sync_canonical (ts : Z) (buf : list Z) (s : fd_compact_tower_sync_serde_t) (buf_max : Z) :
  Forall is_byte buf -> - 2 ^ 63 <= ts < 2 ^ 63 -> 423 <= buf_max ->
  fd_compact_tower_sync_de ts buf = Some s ->
  serde_wf s /\ exists bytes rest,
    fd_compact_tower_sync_ser s buf_max = Ok (Some bytes) /\ buf = bytes ++ rest.
Proof.
  intros Hb Hts Hmax E. unfold fd_compact_tower_sync_de in E. apply fmap_Some in E as ([s' rest] & E & ->).
  apply de_canonical in E as [H ->]; [|done..]. simpl. split; [done|].
  pose proof (encode_length _ H). exists (encode s'), rest. split; [apply ser_encode; [done|lia]|done].
Qed.

Lemma tower_sync_canonical_witness :
  serde_wf sync_example /\ exists bytes rest,
    fd_compact_tower_sync_ser sync_example 1228 = Ok (Some bytes) /\ encode sync_example = bytes ++ rest.
Proof.
  apply (tower_sync_canonical 0 (encode sync_example) sync_example 1228).
  - apply (bool_decide_unpack _). vm_compute. exact I.
  - lia.
  - lia.
  - vm_compute. reflexivity.
Defined.

(** The serialiser checks its buffer only for the fixed-width fields: with
    room for the 8 bytes of the root and no more, the lockout count is written
    one byte past the end of the buffer instead of the documented -1. *)
Theorem tower_sync_ser_overrun :
  fd_compact_tower_sync_ser sync_example 8 = Ub /\ fd_compact_tower_sync_ser sync_example 7 = Ok None.
Proof. split; vm_compute; reflexivity. Qed.
