(* ===== verification/VoteAcc.v ===== *)
(** * Reading towers out of vote accounts
      ([fd_vote_acc_desc] of [src/choreo/tower/fd_tower_serdes.c],
       [fd_tower_from_vote_acc] and [fd_tower_with_lat_from_vote_acc] of
       [src/choreo/tower/fd_tower.c])

    The account data is a list of bytes; pointers into it are offsets, and
    reading outside of it is [Ub].  A packed struct is read field by field at
    the offsets of the layout in [fd_tower_serdes.h]. *)

From S2P Require Import Prelude Deque Bytes TowerVotes TowerSerdes.

#[local] Open Scope Z_scope.

Definition FD_VOTE_ACC_V2 : Z := 1.
Definition FD_VOTE_ACC_V3 : Z := 2.
Definition FD_VOTE_ACC_V4 : Z := 3.

(** Offsets of the fields in [fd_vote_acc_t]. *)
Definition v23_votes_cnt_off : Z := 4 + 32 + 32 + 1.
Definition v4_has_bls_off : Z := 4 + 4 * 32 + 2 + 2 + 8.
Definition v4_bls_off : Z := v4_has_bls_off + 1.

(** [FD_LOAD] of an [n]-byte integer at an offset. *)
Definition FD_LOAD (n : nat) (data : list Z) (off : Z) : res Z :=
  if (off <? 0) || (Z.of_nat (length data) <? off + Z.of_nat n) then Ub
  else Ok (le_val (take n (drop (Z.to_nat off) data))).

Record fd_vote_acc_desc_t := mk_desc {
  kind : Z;
  votes_off : Z;
  vote_cnt : Z;
  vote_stride : Z;
  root_slot : Z;
}.

(** Where the vote count is and how far apart the votes are. *)
Definition vote_acc_layout (data : list Z) (k : Z) : res (option (Z * Z)) :=
  if k =? FD_VOTE_ACC_V2 then Ok (Some (v23_votes_cnt_off, 12))
  else if k =? FD_VOTE_ACC_V3 then Ok (Some (v23_votes_cnt_off, 13))
  else if k =? FD_VOTE_ACC_V4 then
    if Z.of_nat (length data) <=? v4_has_bls_off then Ok None
    else
      has ← FD_LOAD 1 data v4_has_bls_off;
      Ok (Some (v4_bls_off + (if has =? 0 then 0 else 48), 13))
  else Ok None.

Definition fd_vote_acc_desc (data : list Z) : res (option fd_vote_acc_desc_t) :=
  let data_sz := Z.of_nat (length data) in
  if data_sz <? 4 then Ok None
  else
    k ← FD_LOAD 4 data 0;
    layout ← vote_acc_layout data k;
    match layout with
    | None => Ok None
    | Some (vote_cnt_p, stride) =>
        if data_sz <? vote_cnt_p + 8 then Ok None
        else
          cnt ← FD_LOAD 8 data vote_cnt_p;
          let cnt := Z.min cnt FD_TOWER_VOTE_MAX in
          let vote_hi_p := vote_cnt_p + 8 + cnt * stride in
          if data_sz <? vote_hi_p then Ok None
          else if data_sz <? vote_hi_p + 1 then Ok None
          else
            root_opt ← FD_LOAD 1 data vote_hi_p;
            if root_opt =? 1 then
              if data_sz <? vote_hi_p + 9 then Ok None
              else
                root ← FD_LOAD 8 data (vote_hi_p + 1);
                Ok (Some (mk_desc k (vote_cnt_p + 8) cnt stride root))
            else if negb (root_opt =? 0) then Ok None
            else Ok (Some (mk_desc k (vote_cnt_p + 8) cnt stride ULONG_MAX))
    end.

Definition fd_vote_acc_desc_vote (desc : fd_vote_acc_desc_t) (idx : Z) : Z :=
  votes_off desc + idx * vote_stride desc.

(** A vote of the account: [latency] is 255 in a V2 account. *)
Record fd_vote_acc_vote_t := mk_acc_vote { latency : Z; acc_slot : Z; acc_conf : Z }.

Definition load_vote_v2 (data : list Z) (p : Z) : res fd_vote_acc_vote_t :=
  s ← FD_LOAD 8 data p; c ← FD_LOAD 4 data (p + 8); Ok (mk_acc_vote 255 s c).

Definition load_vote (data : list Z) (p : Z) : res fd_vote_acc_vote_t :=
  l ← FD_LOAD 1 data p; s ← FD_LOAD 8 data (p + 1); c ← FD_LOAD 4 data (p + 9);
  Ok (mk_acc_vote l s c).

(** The [switch] on the kind, for vote [i]. *)
Definition acc_vote (desc : fd_vote_acc_desc_t) (data : list Z) (i : Z) : res fd_vote_acc_vote_t :=
  if kind desc =? FD_VOTE_ACC_V2 then load_vote_v2 data (fd_vote_acc_desc_vote desc i)
  else load_vote data (fd_vote_acc_desc_vote desc i).

Section from_vote_acc.
Context {D : Type} `{!Deque D fd_tower_vote_t}.

Fixpoint push_votes (desc : fd_vote_acc_desc_t) (data : list Z) (i : Z) (n : nat) (votes : D)
    : res D :=
  match n with
  | O => Ok votes
  | S n' =>
      v ← acc_vote desc data i;
      push_votes desc data (i + 1) n'
        (dq_push_tail votes (mk_vote (acc_slot v) (acc_conf v)))
  end.

(** The new deque and [*root]. *)
Definition fd_tower_from_vote_acc (votes : D) (data : list Z) : res (D * Z) :=
  desc ← fd_vote_acc_desc data;
  match desc with
  | None => Ok (votes, ULONG_MAX)
  | Some desc =>
      votes' ← push_votes desc data 0 (Z.to_nat (vote_cnt desc)) votes;
      Ok (votes', root_slot desc)
  end.
End from_vote_acc.

Fixpoint copy_votes (desc : fd_vote_acc_desc_t) (data : list Z) (i : Z) (n : nat)
    : res (list fd_vote_acc_vote_t) :=
  match n with
  | O => Ok []
  | S n' => v ← acc_vote desc data i; vs ← copy_votes desc data (i + 1) n'; Ok (v :: vs)
  end.

(** The entries written to the array. *)
Definition fd_tower_with_lat_from_vote_acc (data : list Z) : res (list fd_vote_acc_vote_t) :=
  desc ← fd_vote_acc_desc data;
  match desc with
  | None => Ok []
  | Some desc => copy_votes desc data 0 (Z.to_nat (vote_cnt desc))
  end.

(** ** Bounds *)

Lemma FD_LOAD_ok n data off :
  0 <= off -> off + Z.of_nat n <= Z.of_nat (length data) ->
  exists v, FD_LOAD n data off = Ok v /\ (Forall is_byte data -> 0 <= v < 256 ^ Z.of_nat n).
Proof.
  intros Ho Hl. unfold FD_LOAD.
  rewrite (proj2 (Z.ltb_ge off 0)), (proj2 (Z.ltb_ge (Z.of_nat (length data)) _)) by lia. simpl.
  eexists. split; [done|]. intros Hb.
  assert (Hlen : length (take n (drop (Z.to_nat off) data)) = n) by (rewrite length_take, length_drop; lia).
  rewrite <- Hlen at 3. apply le_val_range. by apply Forall_take, Forall_drop.
Qed.

(** A descriptor never points outside the account. *)
Record desc_ok (data : list Z) (d : fd_vote_acc_desc_t) : Prop := mk_desc_ok {
  do_off : 0 <= votes_off d < 65536;
  do_cnt : 0 <= vote_cnt d <= FD_TOWER_VOTE_MAX;
  do_stride : vote_stride d = if kind d =? FD_VOTE_ACC_V2 then 12 else 13;
  do_end : votes_off d + vote_cnt d * vote_stride d < Z.of_nat (length data);
  do_root : is_u64 (root_slot d);
}.

Lemma layout_ok data k : Forall is_byte data ->
  exists r, vote_acc_layout data k = Ok r /\
    forall p s, r = Some (p, s) -> 0 <= p <= 200 /\ s = (if k =? FD_VOTE_ACC_V2 then 12 else 13).
Proof.
  intros Hb. unfold vote_acc_layout.
  destruct (Z.eqb_spec k FD_VOTE_ACC_V2) as [->|].
  { eexists. split; [done|]. intros p s [= <- <-]. unfold v23_votes_cnt_off. lia. }
  destruct (k =? FD_VOTE_ACC_V3).
  { eexists. split; [done|]. intros p s [= <- <-]. unfold v23_votes_cnt_off. lia. }
  destruct (k =? FD_VOTE_ACC_V4); [|eexists; done].
  destruct (Z.leb_spec (Z.of_nat (length data)) v4_has_bls_off); [eexists; done|].
  destruct (FD_LOAD_ok 1 data v4_has_bls_off) as (v & -> & _); [unfold v4_has_bls_off in *; lia..|].
  eexists. split; [done|]. intros p s [= <- <-]. unfold v4_bls_off, v4_has_bls_off.
  destruct (v =? 0); lia.
Qed.

Lemma desc_safe data : Forall is_byte data ->
  exists r, fd_vote_acc_desc data = Ok r /\ forall d, r = Some d -> desc_ok data d.
Proof.
  intros Hb. unfold fd_vote_acc_desc.
  destruct (Z.ltb_spec (Z.of_nat (length data)) 4); [by exists None|].
  destruct (FD_LOAD_ok 4 data 0) as (k & -> & _); [lia..|]. cbn [mbind res_bind].
  destruct (layout_ok data k Hb) as (layout & -> & Hlay). cbn [mbind res_bind].
  destruct layout as [[p s]|]; [|by exists None]. destruct (Hlay p s eq_refl) as [Hp Hs].
  destruct (Z.ltb_spec (Z.of_nat (length data)) (p + 8)); [by exists None|].
  destruct (FD_LOAD_ok 8 data p) as (cnt & -> & Hcnt); [lia..|]. cbn [mbind res_bind].
  specialize (Hcnt Hb). set (c := Z.min cnt FD_TOWER_VOTE_MAX).
  assert (Hc : 0 <= c <= FD_TOWER_VOTE_MAX) by (unfold c, FD_TOWER_VOTE_MAX; lia).
  assert (Hcs : 0 <= c * s) by (destruct (k =? _); nia).
  destruct (Z.ltb_spec (Z.of_nat (length data)) (p + 8 + c * s)); [by exists None|].
  destruct (Z.ltb_spec (Z.of_nat (length data)) (p + 8 + c * s + 1)); [by exists None|].
  destruct (FD_LOAD_ok 1 data (p + 8 + c * s)) as (o & -> & _); [lia..|]. cbn [mbind res_bind].
  destruct (o =? 1).
  - destruct (Z.ltb_spec (Z.of_nat (length data)) (p + 8 + c * s + 9)); [by exists None|].
    destruct (FD_LOAD_ok 8 data (p + 8 + c * s + 1)) as (rt & -> & Hrt); [lia..|]. cbn [mbind res_bind].
    eexists. split; [done|]. intros d [= <-]. specialize (Hrt Hb).
    change (256 ^ Z.of_nat 8) with 18446744073709551616 in Hrt.
    split; simpl; [lia|done|done|lia|]. unfold is_u64, ULONG_MAX. lia.
  - destruct (o =? 0); simpl; [|by exists None]. eexists. split; [done|]. intros d [= <-].
    split; simpl; [lia|done|done|lia|]. unfold is_u64, ULONG_MAX. lia.
Qed.

Definition acc_vote_ok (v : fd_vote_acc_vote_t) : Prop :=
  is_u64 (acc_slot v) /\ 0 <= acc_conf v < 2 ^ 32.

Lemma acc_vote_safe data d i :
  Forall is_byte data -> desc_ok data d -> 0 <= i < vote_cnt d ->
  exists v, acc_vote d data i = Ok v /\ acc_vote_ok v.
Proof.
  intros Hb [Ho Hc Hs He _] Hi. unfold acc_vote, load_vote, load_vote_v2, fd_vote_acc_desc_vote.
  change (2 ^ 32) with (256 ^ Z.of_nat 4). unfold acc_vote_ok, is_u64, ULONG_MAX.
  assert (H8 : forall v, 0 <= v < 256 ^ Z.of_nat 8 -> 0 <= v <= 18446744073709551615)
    by (intros v Hv; change (256 ^ Z.of_nat 8) with 18446744073709551616 in Hv; lia).
  assert (Hs0 : 0 <= vote_stride d) by (rewrite Hs; destruct (kind d =? _); lia).
  assert (Hp : votes_off d + i * vote_stride d + vote_stride d < Z.of_nat (length data)) by nia.
  destruct (kind d =? FD_VOTE_ACC_V2); rewrite Hs in Hp |- *.
  - destruct (FD_LOAD_ok 8 data (votes_off d + i * 12)) as (s & -> & Hsl); [lia..|]. cbn [mbind res_bind].
    destruct (FD_LOAD_ok 4 data (votes_off d + i * 12 + 8)) as (c & -> & Hcl); [lia..|].
    eexists. split; [done|]. simpl acc_slot. simpl acc_conf. auto.
  - destruct (FD_LOAD_ok 1 data (votes_off d + i * 13)) as (l & -> & _); [lia..|]. cbn [mbind res_bind].
    destruct (FD_LOAD_ok 8 data (votes_off d + i * 13 + 1)) as (s & -> & Hsl); [lia..|]. cbn [mbind res_bind].
    destruct (FD_LOAD_ok 4 data (votes_off d + i * 13 + 9)) as (c & -> & Hcl); [lia..|].
    eexists. split; [done|]. simpl acc_slot. simpl acc_conf. auto.
Qed.

Definition to_tower_vote (v : fd_vote_acc_vote_t) : fd_tower_vote_t := mk_vote (acc_slot v) (acc_conf v).

(** Both readers see the same votes. *)
Lemma read_votes data d n i votes :
  Forall is_byte data -> desc_ok data d -> 0 <= i -> i + Z.of_nat n <= vote_cnt d ->
  exists vs, copy_votes d data i n = Ok vs /\ length vs = n /\ Forall acc_vote_ok vs /\
    push_votes d data i n (votes : list fd_tower_vote_t) = Ok (votes ++ (to_tower_vote <$> vs)).
Proof.
  intros Hb Hd. revert i votes. induction n as [|n IH]; intros i votes Hi Hn; simpl.
  { exists []. rewrite app_nil_r. repeat split; constructor. }
  destruct (acc_vote_safe data d i Hb Hd) as (v & -> & Hv); [lia|]. simpl.
  destruct (IH (i + 1) (votes ++ [to_tower_vote v])) as (vs & E & Hl & Hvs & E'); [lia..|].
  rewrite E. simpl. exists (v :: vs). split; [done|]. split; [simpl; lia|]. split; [by constructor|].
  rewrite <- app_assoc in E'. exact E'.
Qed.

(** ** Properties *)

(** C27. Reading a tower out of a vote account never reads outside the account
    data, whatever its bytes: the result has at most 31 votes with 64-bit slots
    and 32-bit confirmation counts and a 64-bit root, and the two readers (with
    and without latencies) agree on the votes. *)
Theorem vote_acc_read_safe (data : list Z) :
  Forall is_byte data ->
  exists votes root acc_votes,
    fd_tower_from_vote_acc (D := list fd_tower_vote_t) [] data = Ok (votes, root) /\
    fd_tower_with_lat_from_vote_acc data = Ok acc_votes /\
    votes = to_tower_vote <$> acc_votes /\ is_u64 root /\
    Z.of_nat (length votes) <= FD_TOWER_VOTE_MAX /\ Forall acc_vote_ok acc_votes.
Proof.
  intros Hb. unfold fd_tower_from_vote_acc, fd_tower_with_lat_from_vote_acc.
  destruct (desc_safe data Hb) as (r & -> & Hr). cbn [mbind res_bind].
  destruct r as [d|].
  - specialize (Hr d eq_refl). pose proof (do_cnt _ _ Hr).
    destruct (read_votes data d (Z.to_nat (vote_cnt d)) 0 [] Hb Hr) as (vs & E & Hl & Hvs & E'); [lia..|].
    rewrite E'. cbn [mbind res_bind]. exists (to_tower_vote <$> vs), (root_slot d), vs.
    split; [done|]. split; [done|]. split; [done|]. split; [apply Hr|].
    split; [rewrite length_fmap; lia|done].
  - exists [], ULONG_MAX, []. repeat split; try done; constructor.
Qed.

(** A V3 account with two votes (slot 5, confirmation 2, latency 1 and slot 9,
    confirmation 1, latency 3) and root 4. *)
Definition vote_acc_example : list Z :=
  le_bytes 4 2 ++ replicate 65 0 ++ le_bytes 8 2 ++
  ([1] ++ le_bytes 8 5 ++ le_bytes 4 2) ++ ([3] ++ le_bytes 8 9 ++ le_bytes 4 1) ++
  [1] ++ le_bytes 8 4.

Example vote_acc_example_read :
  fd_tower_from_vote_acc (D := list fd_tower_vote_t) [] vote_acc_example =
    Ok ([mk_vote 5 2; mk_vote 9 1], 4).
Proof. vm_compute. reflexivity. Qed.

Lemma vote_acc_read_safe_witness :
  exists votes root, fd_tower_from_vote_acc (D := list fd_tower_vote_t) [] vote_acc_example = Ok (votes, root) /\
    Z.of_nat (length votes) <= FD_TOWER_VOTE_MAX.
Proof.
  destruct (vote_acc_read_safe vote_acc_example) as (votes & root & av & E & _ & _ & _ & H & _).
  - apply (bool_decide_unpack _). vm_compute. exact I.
  - exists votes, root. split; [exact E|exact H].
Defined.
