(* ===== verification/TowerLockos.v ===== *)
(** * Lockout intervals ([fd_tower_lockos_insert], [fd_tower_lockos_remove] of
      [src/choreo/tower/fd_tower.c])

    The interval map is a multimap: under each key the elements are kept most
    recently inserted first, which is the order in which [ele_query] and
    [ele_next] visit them and [ele_remove] takes them out.  [lck_free] counts
    the free elements of the interval pool.  The address of a sentinel is never
    written, so it is [None]. *)

From S2P Require Import Prelude TowerVotes.

#[local] Open Scope Z_scope.

Record lockout_interval_t := mk_interval { addr : option fd_pubkey_t; start : Z }.

Record lockos_t := mk_lockos {
  lck_map : gmap Z (list lockout_interval_t);
  lck_free : Z;
}.

Definition lockout_interval_key (fork_slot end_interval : Z) : Z :=
  Z.lor (u64 (Z.shiftl fork_slot 32)) end_interval.

(** The elements under a key, in query order. *)
Definition intervals (l : lockos_t) (key : Z) : list lockout_interval_t :=
  default [] (lck_map l !! key).

(** [FD_TEST( pool_free )], acquire, fill in, insert. *)
Definition lck_insert (key : Z) (iv : lockout_interval_t) (l : lockos_t) : res lockos_t :=
  _ ← FD_TEST (0 <? lck_free l);
  Ok (mk_lockos (<[key := iv :: intervals l key]> (lck_map l)) (lck_free l - 1)).

(** [ele_remove] followed by a release. *)
Definition lck_remove (key : Z) (l : lockos_t) : option (lockout_interval_t * lockos_t) :=
  match intervals l key with
  | [] => None
  | iv :: ivs => Some (iv, mk_lockos (<[key := ivs]> (lck_map l)) (lck_free l + 1))
  end.

(** One vote of the tower. *)
Definition lockos_insert_vote (slot_ : Z) (addr_ : fd_pubkey_t) (vote : fd_tower_vote_t)
    (l : lockos_t) : res lockos_t :=
  interval_end ← expiration_slot vote;
  let key := lockout_interval_key slot_ interval_end in
  l1 ← (match intervals l key with
        | [] => lck_insert (lockout_interval_key slot_ 0) (mk_interval None interval_end) l
        | _ => Ok l
        end);
  lck_insert key (mk_interval (Some addr_) (slot vote)) l1.

Fixpoint fd_tower_lockos_insert (l : lockos_t) (slot_ : Z) (addr_ : fd_pubkey_t)
    (votes : list fd_tower_vote_t) : res lockos_t :=
  match votes with
  | [] => Ok l
  | vote :: votes' =>
      l1 ← lockos_insert_vote slot_ addr_ vote l;
      fd_tower_lockos_insert l1 slot_ addr_ votes'
  end.

(** The inner loop of the removal: all the intervals under one key. *)
Definition remove_key_step (key : Z) (l : lockos_t) : res (lockos_t + lockos_t) :=
  match lck_remove key l with
  | None => Ok (inr l)
  | Some (_, l') => Ok (inl l')
  end.

(** The outer loop: the next sentinel of the slot. *)
Definition remove_sentinel_step (slot_ : Z) (l : lockos_t) : res (lockos_t + lockos_t) :=
  match lck_remove (lockout_interval_key slot_ 0) l with
  | None => Ok (inr l)
  | Some (sentinel, l1) =>
      let key := lockout_interval_key slot_ (start sentinel) in
      l2 ← loop (remove_key_step key) (S (length (intervals l1 key))) l1;
      Ok (inl l2)
  end.

Definition fd_tower_lockos_remove (l : lockos_t) (slot_ : Z) : res lockos_t :=
  loop (remove_sentinel_step slot_) (S (length (intervals l (lockout_interval_key slot_ 0)))) l.

(** ** Keys

    Slots and interval ends below 2^32 have keys of their own. *)

Definition half (z : Z) : Prop := 0 <= z < 2 ^ 32.

Lemma key_eq s e : half s -> half e -> lockout_interval_key s e = s * 2 ^ 32 + e.
Proof.
  unfold half, lockout_interval_key. intros Hs He. rewrite Z.shiftl_mul_pow2 by lia.
  change (2 ^ 32) with 4294967296 in *.
  rewrite u64_small by (unfold is_u64, ULONG_MAX; lia). rewrite Z.lor_comm.
  change 4294967296 with (2 ^ 32). rewrite lor_add; [lia|lia|].
  change (2 ^ 32) with 4294967296. lia.
Qed.

Lemma key_inj s e s' e' :
  half s -> half e -> half s' -> half e' ->
  lockout_interval_key s e = lockout_interval_key s' e' -> s = s' /\ e = e'.
Proof.
  intros Hs He Hs' He'. rewrite !key_eq by done. unfold half in *.
  change (2 ^ 32) with 4294967296 in *. lia.
Qed.

(** ** What the multimap holds *)

(** The interval ends recorded by the sentinels of a slot. *)
Definition ends (l : lockos_t) (s : Z) : list Z := start <$> intervals l (lockout_interval_key s 0).

(** Every key with elements is the sentinel key of a slot or the key of an end
    recorded for its slot, and the ends of a slot are recorded once. *)
Record lockos_wf (l : lockos_t) : Prop := mk_lockos_wf {
  lw_keys : forall k, intervals l k <> [] ->
    exists s, half s /\ (k = lockout_interval_key s 0 \/
                         exists e, e ∈ ends l s /\ k = lockout_interval_key s e);
  lw_ends : forall s e, half s -> e ∈ ends l s ->
    0 < e < 2 ^ 32 /\ intervals l (lockout_interval_key s e) <> [];
  lw_nodup : forall s, half s -> NoDup (ends l s);
}.

Definition lck_count (l : lockos_t) : Z := sum_map (fun _ ivs => Z.of_nat (length ivs)) (lck_map l).

Lemma intervals_insert l key ivs fr k :
  intervals (mk_lockos (<[key := ivs]> (lck_map l)) fr) k = if decide (key = k) then ivs else intervals l k.
Proof.
  unfold intervals. simpl. destruct (decide (key = k)) as [->|]; [by rewrite lookup_insert_eq|].
  by rewrite lookup_insert_ne.
Qed.

Lemma lck_count_update l key ivs fr :
  lck_count (mk_lockos (<[key := ivs]> (lck_map l)) fr) =
  lck_count l - Z.of_nat (length (intervals l key)) + Z.of_nat (length ivs).
Proof.
  unfold lck_count, intervals. simpl. rewrite <- insert_delete_eq, sum_map_insert by apply lookup_delete_eq.
  destruct (lck_map l !! key) as [old|] eqn:E; simpl.
  - rewrite (sum_map_delete _ (lck_map l) key old) by done. lia.
  - rewrite delete_id by done. lia.
Qed.

(** ** Removal *)

(** [l'] is [l] without the elements under [keys]; they went back to the pool. *)
Definition cleared (keys : list Z) (l l' : lockos_t) : Prop :=
  (forall k, intervals l' k = if decide (k ∈ keys) then [] else intervals l k) /\
  lck_free l' + lck_count l' = lck_free l + lck_count l.

Lemma cleared_trans ks ks' l l1 l2 :
  cleared ks l l1 -> cleared ks' l1 l2 -> cleared (ks ++ ks') l l2.
Proof.
  intros [H1 C1] [H2 C2]. split; [|lia]. intros k. rewrite H2, H1.
  destruct (decide (k ∈ ks)), (decide (k ∈ ks')), (decide (k ∈ ks ++ ks')); set_solver.
Qed.

Lemma lck_remove_cons key l iv ivs :
  intervals l key = iv :: ivs ->
  exists l1, lck_remove key l = Some (iv, l1) /\
    (forall k, intervals l1 k = if decide (key = k) then ivs else intervals l k) /\
    lck_free l1 + lck_count l1 = lck_free l + lck_count l.
Proof.
  intros E. unfold lck_remove. rewrite E. eexists. split; [done|]. split.
  - intros k. apply intervals_insert.
  - rewrite lck_count_update, E. simpl. lia.
Qed.

Lemma remove_key_loop key l n :
  (length (intervals l key) < n)%nat ->
  exists l', loop (remove_key_step key) n l = Ok l' /\ cleared [key] l l'.
Proof.
  revert l. induction n as [|n IH]; intros l Hn; [lia|]. rewrite loop_S. unfold remove_key_step at 1.
  destruct (intervals l key) as [|iv ivs] eqn:E.
  - unfold lck_remove. rewrite E. exists l. split; [done|]. split; [|done].
    intros k. destruct (decide (k ∈ [key])) as [->%list_elem_of_singleton|]; [by rewrite E|done].
  - destruct (lck_remove_cons _ _ _ _ E) as (l1 & -> & Hl1 & Hc).
    destruct (IH l1) as (l' & -> & Hcl & Hcc).
    { rewrite Hl1, decide_True by done. simpl in Hn. lia. }
    exists l'. split; [done|]. split; [|lia]. intros k. rewrite Hcl, Hl1.
    destruct (decide (k ∈ [key])), (decide (key = k)); set_solver.
Qed.

Lemma remove_sentinel_loop s l n :
  half s -> (forall e, e ∈ ends l s -> 0 < e < 2 ^ 32) -> (length (ends l s) < n)%nat ->
  exists l', loop (remove_sentinel_step s) n l = Ok l' /\
    cleared (lockout_interval_key s 0 :: (lockout_interval_key s <$> ends l s)) l l'.
Proof.
  intros Hs. revert l. induction n as [|n IH]; intros l He Hn; [lia|].
  rewrite loop_S. unfold remove_sentinel_step at 1. unfold ends in *.
  destruct (intervals l (lockout_interval_key s 0)) as [|iv ivs] eqn:E.
  - unfold lck_remove. rewrite E. exists l. split; [done|]. split; [|done].
    intros k. simpl. destruct (decide (k ∈ [_])) as [->%list_elem_of_singleton|]; [by rewrite E|done].
  - destruct (lck_remove_cons _ _ _ _ E) as (l1 & -> & Hl1 & Hc). cbn [mbind res_bind].
    destruct (remove_key_loop (lockout_interval_key s (start iv)) l1
                (S (length (intervals l1 (lockout_interval_key s (start iv)))))) as (l2 & -> & Hcl & Hcc); [lia|].
    cbn [mbind res_bind].
    assert (Hne : lockout_interval_key s 0 <> lockout_interval_key s (start iv)).
    { pose proof (He (start iv) ltac:(set_solver)). intros Hk.
      apply key_inj in Hk as [_ Hk]; unfold half in *; lia. }
    assert (E2 : intervals l2 (lockout_interval_key s 0) = ivs).
    { rewrite Hcl, decide_False by set_solver. by rewrite Hl1, decide_True. }
    destruct (IH l2) as (l' & -> & Hcl' & Hcc').
    { rewrite E2. intros e Hin. apply He. set_solver. }
    { rewrite E2, length_fmap. rewrite length_fmap in Hn. simpl in Hn. lia. }
    exists l'. split; [done|]. rewrite E2 in Hcl'. split; [|lia].
    intros k. rewrite Hcl', Hcl, Hl1. rewrite fmap_cons.
    repeat case_decide; set_solver.
Qed.

Lemma cleared_wf s l l' :
  lockos_wf l -> half s ->
  cleared (lockout_interval_key s 0 :: (lockout_interval_key s <$> ends l s)) l l' -> lockos_wf l'.
Proof.
  intros W Hs [Hcl _].
  assert (Hother : forall s' e, half s' -> half e -> s' <> s ->
    intervals l' (lockout_interval_key s' e) = intervals l (lockout_interval_key s' e)).
  { intros s' e Hs' He Hne. rewrite Hcl, decide_False; [done|].
    intros [Hk|(e' & Hk & He')%list_elem_of_fmap]%elem_of_cons.
    - apply key_inj in Hk; [tauto|done|done|done|by unfold half].
    - pose proof (lw_ends _ W s e' Hs He') as [? _].
      apply key_inj in Hk; [tauto|done|done|done|unfold half; lia]. }
  assert (Hends : forall s', half s' -> ends l' s' = if decide (s' = s) then [] else ends l s').
  { intros s' Hs'. unfold ends. destruct (decide (s' = s)) as [->|Hne].
    - rewrite Hcl, decide_True by set_solver. done.
    - rewrite Hother; [done|done|by unfold half|done]. }
  split.
  - intros k Hk. rewrite Hcl in Hk. destruct (decide _) as [|Hnk]; [done|].
    destruct (lw_keys _ W k Hk) as (s' & Hs' & Hor). exists s'. split; [done|].
    assert (Hne : s' <> s).
    { intros ->. apply Hnk. destruct Hor as [->|(e & He & ->)]; [set_solver|].
      apply elem_of_cons. right. apply list_elem_of_fmap. eauto. }
    rewrite Hends, decide_False by done. done.
  - intros s' e Hs' He. rewrite Hends in He by done. destruct (decide (s' = s)) as [|Hne]; [set_solver|].
    destruct (lw_ends _ W s' e Hs' He) as [Hr Hne']. split; [done|].
    rewrite Hother; [done|done|unfold half; lia|done].
  - intros s' Hs'. rewrite Hends by done. destruct (decide _); [constructor|by apply W].
Qed.

(** ** Insertion *)

Lemma lck_insert_ok key iv l :
  0 < lck_free l ->
  exists l', lck_insert key iv l = Ok l' /\ lck_free l' = lck_free l - 1 /\
    (forall k, intervals l' k = if decide (key = k) then iv :: intervals l key else intervals l k) /\
    lck_free l' + lck_count l' = lck_free l + lck_count l.
Proof.
  intros Hf. unfold lck_insert. rewrite (proj2 (Z.ltb_lt _ _)) by done. simpl.
  eexists. split; [done|]. split; [done|]. split; [intros k; apply intervals_insert|].
  rewrite lck_count_update. simpl. lia.
Qed.

Definition interval_of (a : fd_pubkey_t) (v : fd_tower_vote_t) : lockout_interval_t :=
  mk_interval (Some a) (slot v).

Definition vote_fits (v : fd_tower_vote_t) : Prop := vote_safe v /\ 0 < expiration v < 2 ^ 32.

(** One vote adds its interval, and the end of the interval to the ends of the
    slot when it is new. *)
Lemma insert_vote_ok s a v l :
  lockos_wf l -> half s -> vote_fits v -> 2 <= lck_free l ->
  exists l', lockos_insert_vote s a v l = Ok l' /\ lockos_wf l' /\ lck_free l - 2 <= lck_free l' /\
    lck_free l' + lck_count l' = lck_free l + lck_count l /\
    ends l' s = (if decide (expiration v ∈ ends l s) then ends l s else expiration v :: ends l s) /\
    (forall k, k <> lockout_interval_key s 0 -> intervals l' k =
       if decide (k = lockout_interval_key s (expiration v)) then interval_of a v :: intervals l k
       else intervals l k).
Proof.
  intros W Hs [Hv He] Hf. unfold lockos_insert_vote. rewrite expiration_slot_safe by done.
  cbn [mbind res_bind]. set (e := expiration v) in *. set (k0 := lockout_interval_key s 0).
  set (ke := lockout_interval_key s e).
  assert (Hh : half e) by (unfold half; lia). assert (H0 : half 0) by (unfold half; lia).
  assert (Hne : ke <> k0).
  { intros Hk. apply key_inj in Hk; [lia|done..]. }
  (* the sentinel is inserted exactly when the end is new *)
  assert (exists l1, (match intervals l ke with
            | [] => lck_insert k0 (mk_interval None e) l | _ => Ok l end) = Ok l1 /\
          lck_free l - 1 <= lck_free l1 /\ lck_free l1 + lck_count l1 = lck_free l + lck_count l /\
          intervals l1 k0 = (if decide (e ∈ ends l s) then intervals l k0
                             else mk_interval None e :: intervals l k0) /\
          forall k, k <> k0 -> intervals l1 k = intervals l k)
    as (l1 & -> & Hf1 & Hc1 & Hk0 & Hk1).
  { destruct (intervals l ke) as [|iv ivs] eqn:Ek.
    - destruct (lck_insert_ok k0 (mk_interval None e) l) as (l1 & -> & Hf1 & Hi & Hc); [lia|].
      exists l1. split; [done|]. split; [lia|]. split; [done|]. split.
      + rewrite decide_False; [by rewrite Hi, decide_True|]. intros Hin.
        destruct (lw_ends _ W s e Hs Hin). done.
      + intros k Hk. rewrite Hi, decide_False by congruence. done.
    - exists l. split; [done|]. split; [lia|]. split; [done|]. split; [|done].
      rewrite decide_True; [done|].
      destruct (lw_keys _ W ke) as (s' & Hs' & Hor); [by rewrite Ek|].
      destruct Hor as [Hk|(e' & He' & Hk)].
      + apply key_inj in Hk; [lia|done..].
      + destruct (lw_ends _ W s' e' Hs' He') as [Hr _].
        apply key_inj in Hk as [-> ->]; [done|done|done|done|unfold half; lia]. }
  cbn [mbind res_bind]. destruct (lck_insert_ok ke (interval_of a v) l1) as (l' & E & Hf' & Hi & Hc'); [lia|].
  exists l'. split; [done|].
  assert (Hends : ends l' s = if decide (e ∈ ends l s) then ends l s else e :: ends l s).
  { change (ends l' s) with (start <$> intervals l' k0). rewrite Hi, decide_False by done.
    rewrite Hk0. by destruct (decide (e ∈ ends l s)). }
  assert (Hints : forall k, k <> k0 -> intervals l' k =
    if decide (k = ke) then interval_of a v :: intervals l k else intervals l k).
  { intros k Hk. rewrite Hi. destruct (decide (ke = k)) as [<-|].
    - rewrite decide_True, Hk1 by done. done.
    - rewrite decide_False, Hk1 by congruence. done. }
  assert (Hother : forall s', half s' -> s' <> s -> ends l' s' = ends l s').
  { intros s' Hs' Hss. unfold ends. rewrite Hints.
    - rewrite decide_False; [done|]. intros Hk. apply key_inj in Hk; [lia|done..].
    - intros Hk. apply key_inj in Hk; [tauto|done..]. }
  split; [|split; [lia|split; [lia|split; [done|exact Hints]]]].
  split.
  - intros k Hk. destruct (decide (k = k0)) as [->|Hk0']; [by exists s; split; [|left]|].
    rewrite Hints in Hk by done. destruct (decide (k = ke)) as [->|Hke].
    + exists s. split; [done|]. right. exists e. split; [|done]. rewrite Hends. destruct (decide _); set_solver.
    + destruct (lw_keys _ W k Hk) as (s' & Hs' & Hor). exists s'. split; [done|].
      destruct Hor as [?|(e' & He' & ?)]; [by left|right]. exists e'. split; [|done].
      destruct (decide (s' = s)) as [->|Hss]; [|by rewrite Hother].
      rewrite Hends. destruct (decide _); set_solver.
  - intros s' e' Hs' He'.
    assert (Hcase : (s' = s /\ e' = e) \/ e' ∈ ends l s').
    { destruct (decide (s' = s)) as [->|Hss]; [|rewrite Hother in He' by done; by right].
      rewrite Hends in He'. destruct (decide _); set_solver. }
    destruct Hcase as [[-> ->]|He''].
    + split; [done|]. fold ke. rewrite Hints, decide_True by done. done.
    + destruct (lw_ends _ W s' e' Hs' He'') as [Hr Hn]. split; [done|].
      rewrite Hints.
      * destruct (decide (_ = ke)); [discriminate|exact Hn].
      * intros Hk. apply key_inj in Hk; [lia|done|unfold half; lia|done..].
  - intros s' Hs'. destruct (decide (s' = s)) as [->|Hss]; [|rewrite Hother by done; by apply W].
    rewrite Hends. destruct (decide _); [by apply W|]. apply NoDup_cons. split; [done|by apply W].
Qed.

(** The intervals of the votes that expire at [e], most recent vote first. *)
Definition expiring (a : fd_pubkey_t) (e : Z) (votes : list fd_tower_vote_t) : list lockout_interval_t :=
  rev (interval_of a <$> filter (fun v => expiration v = e) votes).

Lemma lockos_insert_ok s a votes l :
  lockos_wf l -> half s -> Forall vote_fits votes -> 2 * Z.of_nat (length votes) <= lck_free l ->
  exists l', fd_tower_lockos_insert l s a votes = Ok l' /\ lockos_wf l' /\
    lck_free l' + lck_count l' = lck_free l + lck_count l /\
    (forall e, e ∈ ends l' s <-> e ∈ ends l s \/ exists v, v ∈ votes /\ e = expiration v) /\
    (forall e, 0 < e < 2 ^ 32 -> intervals l' (lockout_interval_key s e) =
       expiring a e votes ++ intervals l (lockout_interval_key s e)) /\
    (forall s' e, half s' -> half e -> s' <> s ->
       intervals l' (lockout_interval_key s' e) = intervals l (lockout_interval_key s' e)).
Proof.
  intros W Hs Hv. revert l W. induction Hv as [|v votes Hv Hvs IH]; intros l W Hf.
  { exists l. split; [done|]. split; [done|]. split; [done|]. split; [|by split].
    intros e. split; [by left|]. intros [?|(v & Hv & _)]; [done|]. by apply not_elem_of_nil in Hv. }
  simpl in Hf. destruct (insert_vote_ok s a v l W Hs Hv) as (l1 & E1 & W1 & Hf1 & Hc1 & He1 & Hk1); [lia|].
  destruct (IH l1 W1) as (l' & E & W' & Hc & He & Hk & Ho); [lia|].
  exists l'. cbn [fd_tower_lockos_insert]. rewrite E1. cbn [mbind res_bind].
  destruct Hv as [_ Hve]. assert (H0 : half 0) by (unfold half; lia).
  assert (Hhe : half (expiration v)) by (unfold half; lia).
  split; [done|]. split; [done|]. split; [lia|]. split; [|split].
  - intros e. rewrite He, He1. destruct (decide _); set_solver.
  - intros e Hr. assert (Hh : half e) by (unfold half; lia).
    rewrite Hk, Hk1 by (done || (intros Hx; apply key_inj in Hx; [lia|done..])).
    unfold expiring. rewrite filter_cons. destruct (decide (expiration v = e)) as [->|Hne].
    + rewrite decide_True by done. simpl. by rewrite <- app_assoc.
    + rewrite decide_False; [done|]. intros Hx. apply key_inj in Hx; [|done..]. naive_solver.
  - intros s' e Hs' Hh Hne. rewrite Ho, Hk1 by
      (done || (intros Hx; apply key_inj in Hx; [tauto|done..])).
    rewrite decide_False; [done|]. intros Hx. apply key_inj in Hx; [tauto|done..].
Qed.

(** ** Properties *)

(** Recording a tower for a slot and later removing the slot restores the
    interval map and gives every element back: removal never touches another
    slot, leaves no element of its slot behind, and the number of free and
    used elements together never changes.  (Slots and expiration slots are
    below 2^32, where the packed keys do not collide.) *)
Theorem lockos_insert_remove (l : lockos_t) (s : Z) (a : fd_pubkey_t) (votes : list fd_tower_vote_t) :
  lockos_wf l -> half s -> Forall vote_fits votes -> 2 * Z.of_nat (length votes) <= lck_free l ->
  exists l1 l2, fd_tower_lockos_insert l s a votes = Ok l1 /\ fd_tower_lockos_remove l1 s = Ok l2 /\
    lockos_wf l1 /\ lockos_wf l2 /\
    (forall e, 0 < e < 2 ^ 32 -> intervals l1 (lockout_interval_key s e) =
       expiring a e votes ++ intervals l (lockout_interval_key s e)) /\
    (forall e, half e -> intervals l2 (lockout_interval_key s e) = []) /\
    (forall s' e, half s' -> half e -> s' <> s ->
       intervals l2 (lockout_interval_key s' e) = intervals l (lockout_interval_key s' e)) /\
    lck_free l2 + lck_count l2 = lck_free l + lck_count l.
Proof.
  intros W Hs Hv Hf.
  destruct (lockos_insert_ok s a votes l W Hs Hv Hf) as (l1 & E1 & W1 & Hc1 & _ & Hk1 & Ho1).
  destruct (remove_sentinel_loop s l1 (S (length (ends l1 s))) Hs) as (l2 & E2 & Hcl).
  { intros e He. by apply (lw_ends _ W1 s e). }
  { lia. }
  pose proof (cleared_wf s l1 l2 W1 Hs Hcl) as W2. destruct Hcl as [Hcl Hcc].
  exists l1, l2. split; [done|]. split.
  { unfold fd_tower_lockos_remove. unfold ends in E2 at 1. by rewrite length_fmap in E2. }
  split; [done|]. split; [done|]. split; [done|]. split; [|split; [|lia]].
  - intros e Hh. rewrite Hcl. destruct (decide _) as [|Hn]; [done|].
    destruct (intervals l1 (lockout_interval_key s e)) as [|iv ivs] eqn:E; [done|]. exfalso. apply Hn.
    destruct (lw_keys _ W1 (lockout_interval_key s e)) as (s' & Hs' & Hor); [by rewrite E|].
    destruct Hor as [Hx|(e' & He' & Hx)].
    + apply key_inj in Hx as [-> ->]; [set_solver|done..|by unfold half].
    + destruct (lw_ends _ W1 s' e' Hs' He') as [Hr _].
      apply key_inj in Hx as [-> ->]; [|done..|unfold half; lia].
      apply elem_of_cons. right. apply list_elem_of_fmap. eauto.
  - intros s' e Hs' Hh Hne. rewrite Hcl, decide_False; [by apply Ho1|].
    intros [Hx|(e' & Hx & He')%list_elem_of_fmap]%elem_of_cons.
    + apply key_inj in Hx; [tauto|done..|by unfold half].
    + destruct (lw_ends _ W1 s e' Hs He') as [Hr _]. apply key_inj in Hx; [tauto|done..|unfold half; lia].
Qed.

Lemma lockos_insert_remove_witness :
  exists l1 l2, fd_tower_lockos_insert (mk_lockos ∅ 100) 33 7 [mk_vote 1 4; mk_vote 2 3; mk_vote 32 1] = Ok l1 /\
    fd_tower_lockos_remove l1 33 = Ok l2 /\ lck_free l2 + lck_count l2 = 100.
Proof.
  destruct (lockos_insert_remove (mk_lockos ∅ 100) 33 7 [mk_vote 1 4; mk_vote 2 3; mk_vote 32 1])
    as (l1 & l2 & E1 & E2 & _ & _ & _ & _ & _ & H).
  - split.
    + intros k Hk. exfalso. apply Hk. reflexivity.
    + intros s e Hs He. exfalso. unfold ends in He. cbn in He. apply elem_of_nil in He. exact He.
    + intros s Hs. unfold ends. cbn. apply NoDup_nil_2.
  - unfold half. lia.
  - repeat constructor; unfold vote_safe, expiration, ULONG_MAX; cbn; lia.
  - cbn. lia.
  - exists l1, l2. split; [exact E1|]. split; [exact E2|exact H].
Defined.
