(* ===== verification/TowerStakes.v ===== *)
(** * Voter stakes per slot ([src/choreo/tower/fd_tower_stakes.c])

    Pool elements are named by their index; [stk_free] is the stack of free
    indices, [stk_vtr_map] the map from (vote account, slot) to an index and
    [stk_slot_map] the map from a slot to the head of its list of voters, which
    is threaded through [prev].  [stk_slot_max] is the number of keys
    [stk_slot_map] can hold. *)

From S2P Require Import Prelude.

#[local] Open Scope Z_scope.

Record fd_tower_stakes_vtr_t := mk_stk {
  stk_addr : fd_pubkey_t;
  stk_slot : Z;
  stk_prev : Z;
  stk_stake : Z;
}.

Record stakes_t := mk_stakes {
  stk_pool : gmap Z fd_tower_stakes_vtr_t;
  stk_free : list Z;
  stk_vtr_map : gmap (fd_pubkey_t * Z) Z;
  stk_slot_map : gmap Z Z;
  stk_slot_max : Z;
}.

(** Inserting a key that is present, or into a full slot map, is not checked. *)
Definition fd_tower_stakes_insert (st : stakes_t) (slot : Z) (vote_account : fd_pubkey_t)
    (stake prev_voter_idx : Z) : res (stakes_t * Z) :=
  match stk_free st with
  | [] => Crit
  | i :: free' =>
      match stk_vtr_map st !! (vote_account, slot) with
      | Some _ => Ub
      | None =>
          if slot =? ULONG_MAX then Ub
          else
            match stk_slot_map st !! slot with
            | None => if stk_slot_max st <=? Z.of_nat (size (stk_slot_map st)) then Ub else Ok tt
            | Some _ => Ok tt
            end ≫= fun _ =>
            Ok (mk_stakes
                  (<[i := mk_stk vote_account slot prev_voter_idx stake]> (stk_pool st)) free'
                  (<[(vote_account, slot) := i]> (stk_vtr_map st))
                  (<[slot := i]> (stk_slot_map st)) (stk_slot_max st), i)
      end
  end.

Definition stakes_remove_step (s : stakes_t * Z) : res (stakes_t * Z + stakes_t) :=
  let '(st, voter_idx) := s in
  if voter_idx =? ULONG_MAX then Ok (inr st)
  else
    v ← deref (stk_pool st !! voter_idx);
    match stk_vtr_map st !! (stk_addr v, stk_slot v) with
    | None => Crit
    | Some _ =>
        Ok (inl (mk_stakes (delete voter_idx (stk_pool st)) (voter_idx :: stk_free st)
                   (delete (stk_addr v, stk_slot v) (stk_vtr_map st))
                   (stk_slot_map st) (stk_slot_max st), stk_prev v))
    end.

Definition fd_tower_stakes_remove (st : stakes_t) (slot : Z) : res stakes_t :=
  match stk_slot_map st !! slot with
  | None => Ok st
  | Some head =>
      st' ← loop stakes_remove_step (S (S (size (stk_pool st)))) (st, head);
      Ok (mk_stakes (stk_pool st') (stk_free st') (stk_vtr_map st')
            (delete slot (stk_slot_map st')) (stk_slot_max st'))
  end.

(** The query of the switch check: a voter's stake at a slot, by index. *)
Definition stakes_query (st : stakes_t) (a : fd_pubkey_t) (slot : Z) : option Z :=
  stk_vtr_map st !! (a, slot).

(** ** The lists of voters *)

(** The elements of a slot's list, from [i] on. *)
Inductive voters (p : gmap Z fd_tower_stakes_vtr_t) (slot : Z) : Z -> list Z -> Prop :=
| voters_nil : voters p slot ULONG_MAX []
| voters_cons i v l :
    i <> ULONG_MAX -> p !! i = Some v -> stk_slot v = slot -> voters p slot (stk_prev v) l ->
    voters p slot i (i :: l).

Record stakes_wf (st : stakes_t) : Prop := mk_stakes_wf {
  kw_map : forall a s i, stk_vtr_map st !! (a, s) = Some i <->
    exists v, stk_pool st !! i = Some v /\ stk_addr v = a /\ stk_slot v = s;
  kw_list : forall s h, stk_slot_map st !! s = Some h -> exists l, voters (stk_pool st) s h l;
  kw_listed : forall i v, stk_pool st !! i = Some v ->
    exists h l, stk_slot_map st !! stk_slot v = Some h /\ voters (stk_pool st) (stk_slot v) h l /\ i ∈ l;
  kw_free : NoDup (stk_free st) /\
    forall i, i ∈ stk_free st -> i <> ULONG_MAX /\ stk_pool st !! i = None;
}.

Lemma voters_det p s i l l' : voters p s i l -> voters p s i l' -> l = l'.
Proof.
  intros H. revert l'. induction H as [|i v l Hi Hv Hs _ IH]; intros l' H'.
  - by inversion H'.
  - inversion H' as [|? v' l'' _ Hv' _ Hp]; subst; [done|].
    assert (v' = v) as -> by congruence. f_equal. by apply IH.
Qed.

Lemma voters_in p s i l j : voters p s i l -> j ∈ l ->
  (exists v, p !! j = Some v /\ stk_slot v = s) /\ j <> ULONG_MAX /\ exists l1 l2, l = l1 ++ l2 /\ voters p s j l2.
Proof.
  induction 1 as [|i v l Hi Hv Hs Hl IH]; intros Hj; [by apply not_elem_of_nil in Hj|].
  apply elem_of_cons in Hj as [->|Hj].
  - split; [eauto|]. split; [done|]. exists [], (i :: l). split; [done|]. by eapply voters_cons.
  - destruct (IH Hj) as (Hs' & Hj' & l1 & l2 & -> & Hp). split; [done|]. split; [done|].
    by exists (i :: l1), l2.
Qed.

Lemma voters_nodup p s i l : voters p s i l -> NoDup l.
Proof.
  induction 1 as [|i v l Hi Hv Hs Hl IH]; [constructor|]. apply NoDup_cons. split; [|done].
  intros Hin. destruct (voters_in _ _ _ _ _ Hl Hin) as (_ & _ & l1 & l2 & -> & Hp).
  assert (E : l2 = i :: (l1 ++ l2)) by (eapply voters_det; [done|by eapply voters_cons]).
  apply (f_equal length) in E. simpl in E. rewrite length_app in E. lia.
Qed.

Lemma voters_ext p q s i l :
  (forall j, j ∈ l -> q !! j = p !! j) -> voters p s i l -> voters q s i l.
Proof.
  intros Hpq H. induction H as [|i v l Hi Hv Hs Hl IH]; [constructor|].
  eapply voters_cons; [done|rewrite Hpq by set_solver; done|done|]. apply IH. set_solver.
Qed.

Lemma voters_length p s i l : voters p s i l -> (length l <= size p)%nat.
Proof.
  intros H. rewrite <- (size_dom p), <- (size_list_to_set (C := gset Z)) by (by eapply voters_nodup).
  apply subseteq_size. intros j. rewrite elem_of_list_to_set, elem_of_dom. intros Hj.
  destruct (voters_in _ _ _ _ _ H Hj) as ((v & Hv & _) & _). eauto.
Qed.

(** ** Removal *)

(** The loop takes exactly the listed voters out. *)
Lemma stakes_remove_loop s l : forall st h n,
  voters (stk_pool st) s h l -> (length l < n)%nat ->
  (forall i v, stk_pool st !! i = Some v -> stk_vtr_map st !! (stk_addr v, stk_slot v) = Some i) ->
  exists st', loop stakes_remove_step n (st, h) = Ok st' /\
    stk_slot_map st' = stk_slot_map st /\ stk_slot_max st' = stk_slot_max st /\
    (forall i, stk_pool st' !! i = if decide (i ∈ l) then None else stk_pool st !! i) /\
    (forall a s' i, stk_vtr_map st' !! (a, s') = Some i <-> stk_vtr_map st !! (a, s') = Some i /\
       ~ (exists j v, j ∈ l /\ stk_pool st !! j = Some v /\ stk_addr v = a /\ stk_slot v = s')) /\
    stk_free st' = rev l ++ stk_free st.
Proof.
  induction l as [|i l IH]; intros st h n Hv Hn Hmap; (destruct n as [|n]; [simpl in Hn; lia|]);
    rewrite loop_S; unfold stakes_remove_step at 1.
  - inversion Hv; subst. rewrite Z.eqb_refl. exists st.
    split; [done|]. split; [done|]. split; [done|]. split; [by intros i|]. split; [|done].
    intros a s' i. split; [|tauto]. intros Hi. split; [done|]. intros (j & v & Hj & _).
    by apply not_elem_of_nil in Hj.
  - pose proof (voters_nodup _ _ _ _ Hv) as [Hni _]%NoDup_cons.
    inversion Hv as [|? v ? Hi Hp Hs Hl]; subst. rewrite (proj2 (Z.eqb_neq _ _)) by done.
    rewrite Hp. cbn [deref mbind res_bind]. rewrite (Hmap i v Hp).
    set (st1 := mk_stakes _ _ _ _ _).
    destruct (IH st1 (stk_prev v) n) as (st' & -> & E1 & E2 & Hpool & Hm & Hf).
    + eapply voters_ext; [|done]. intros j Hj. subst st1. simpl. rewrite lookup_delete_ne; [done|]. intros ->. done.
    + simpl in Hn. lia.
    + subst st1. simpl. intros j w [Hne Hj]%lookup_delete_Some. rewrite lookup_delete_ne; [by apply Hmap|].
      intros E. pose proof (Hmap i v Hp). pose proof (Hmap j w Hj). congruence.
    + subst st1. simpl in *. exists st'. split; [done|]. split; [done|]. split; [done|]. split; [|split].
      * intros j. rewrite Hpool. destruct (decide (j = i)) as [->|Hne].
        -- rewrite lookup_delete_eq. by repeat case_decide; set_solver.
        -- rewrite lookup_delete_ne by done. repeat case_decide; set_solver.
      * intros a s' j. rewrite Hm, lookup_delete_Some. split.
        -- intros ((Hne & Hj) & Hno). split; [done|]. intros (k & w & [->|Hk]%elem_of_cons & Hw & <- & <-).
           ++ assert (w = v) as -> by congruence. done.
           ++ apply Hno. exists k, w. split; [done|]. split; [|done].
              apply lookup_delete_Some. split; [|done]. intros ->. done.
        -- intros (Hj & Hno). split; [split; [|done]|].
           ++ intros [= <- <-]. apply Hno. exists i, v. split; [set_solver|done].
           ++ intros (k & w & Hk & [_ Hw]%lookup_delete_Some & Ea & Es). apply Hno. exists k, w. set_solver.
      * rewrite Hf. by rewrite <- app_assoc.
Qed.

Lemma stakes_remove_ok st s :
  stakes_wf st ->
  exists st', fd_tower_stakes_remove st s = Ok st' /\ stakes_wf st' /\
    (forall a, stakes_query st' a s = None) /\
    (forall a s', s' <> s -> stakes_query st' a s' = stakes_query st a s') /\
    (forall i v, stk_pool st' !! i = Some v <-> stk_pool st !! i = Some v /\ stk_slot v <> s) /\
    stk_slot_map st' !! s = None /\ (forall s', s' <> s -> stk_slot_map st' !! s' = stk_slot_map st !! s').
Proof.
  intros W. unfold fd_tower_stakes_remove, stakes_query.
  assert (Hmap : forall i v, stk_pool st !! i = Some v ->
    stk_vtr_map st !! (stk_addr v, stk_slot v) = Some i) by (intros i v Hv; apply (kw_map _ W); eauto).
  destruct (stk_slot_map st !! s) as [h|] eqn:Eh.
  - destruct (kw_list _ W s h Eh) as [l Hl]. pose proof (voters_length _ _ _ _ Hl) as Hlen.
    destruct (stakes_remove_loop s l st h (S (S (size (stk_pool st)))) Hl ltac:(lia) Hmap)
      as (st' & -> & E1 & E2 & Hpool & Hm & Hf).
    cbn [mbind res_bind]. eexists. split; [done|]. simpl.
    (* an element is on the removed list exactly when its slot is [s] *)
    assert (Hl_iff : forall i v, stk_pool st !! i = Some v -> i ∈ l <-> stk_slot v = s).
    { intros i v Hv. split.
      - intros Hi. destruct (voters_in _ _ _ _ _ Hl Hi) as ((v' & Hv' & E) & _). congruence.
      - intros <-. destruct (kw_listed _ W i v Hv) as (h' & l' & Eh' & Hl' & Hi).
        assert (h' = h) as -> by congruence. by rewrite (voters_det _ _ _ _ _ Hl Hl'). }
    assert (Hp' : forall i v, stk_pool st' !! i = Some v <-> stk_pool st !! i = Some v /\ stk_slot v <> s).
    { intros i v. rewrite Hpool. destruct (decide (i ∈ l)) as [Hi|Hi].
      - split; [done|]. intros [Hv Hne]. apply (Hl_iff i v Hv) in Hi. done.
      - split; [|tauto]. intros Hv. split; [done|]. rewrite <- (Hl_iff i v Hv). done. }
    assert (Hkeep : forall s' h' l', s' <> s -> voters (stk_pool st) s' h' l' -> voters (stk_pool st') s' h' l').
    { intros s' h' l' Hne Hv. eapply voters_ext; [|done]. intros j Hj. rewrite Hpool.
      destruct (voters_in _ _ _ _ _ Hv Hj) as ((v & Hvj & Es) & _).
      rewrite decide_False; [done|]. rewrite (Hl_iff j v Hvj). congruence. }
    split; [|split; [|split; [|split; [done|]]]].
    + split; simpl.
      * intros a s' i. rewrite Hm, (kw_map _ W). split.
        -- intros ((v & Hv & <- & <-) & Hno). exists v. split; [|done]. apply Hp'. split; [done|].
           intros Es. apply Hno. exists i, v. split; [by apply (Hl_iff i v Hv)|done].
        -- intros (v & [Hv Hne]%Hp' & <- & <-). split; [eauto|].
           intros (j & w & Hj & Hw & _ & Es). apply (Hl_iff j w Hw) in Hj. congruence.
      * intros s' h' [Hne Hs']%lookup_delete_Some. rewrite E1 in Hs'.
        destruct (kw_list _ W s' h' Hs') as [l' Hl']. exists l'. apply Hkeep; [congruence|done].
      * intros i v [Hv Hne]%Hp'. destruct (kw_listed _ W i v Hv) as (h' & l' & Eh' & Hl' & Hi).
        exists h', l'. rewrite lookup_delete_ne, E1 by congruence. split; [done|].
        split; [by apply Hkeep|done].
      * destruct (kw_free _ W) as [F1 F2]. rewrite Hf. split.
        -- rewrite <- Permutation_rev. apply NoDup_app. split; [|split; [|done]].
           ++ by eapply voters_nodup.
           ++ intros i Hi Hfi. destruct (F2 i Hfi) as [_ Hn].
              destruct (voters_in _ _ _ _ _ Hl Hi) as ((v & Hv & _) & _). congruence.
        -- intros i. rewrite <- Permutation_rev. intros [Hi|Hi]%elem_of_app.
           ++ destruct (voters_in _ _ _ _ _ Hl Hi) as (_ & Hi' & _).
              split; [done|]. rewrite Hpool. by rewrite decide_True.
           ++ destruct (F2 i Hi) as [Hn Hnone]. split; [done|]. rewrite Hpool. by destruct (decide _).
    + intros a. destruct (stk_vtr_map st' !! (a, s)) as [i|] eqn:E; [|done]. exfalso.
      apply Hm in E as [Hi Hno]. apply (kw_map _ W) in Hi as (v & Hv & <- & Es).
      apply Hno. exists i, v. split; [by apply (Hl_iff i v Hv)|done].
    + intros a s' Hne. apply option_eq. intros i. rewrite Hm. split; [tauto|]. intros Hi. split; [done|].
      intros (j & v & Hj & Hv & _ & Es). apply (Hl_iff j v Hv) in Hj. congruence.
    + split; [apply lookup_delete_eq|]. intros s' Hne. by rewrite lookup_delete_ne, E1.
  - exists st. split; [done|]. split; [done|]. split; [|split; [done|split; [|done]]].
    + intros a. destruct (stk_vtr_map st !! (a, s)) as [i|] eqn:E; [|done]. exfalso.
      apply (kw_map _ W) in E as (v & Hv & _ & Es).
      destruct (kw_listed _ W i v Hv) as (h & l & Eh' & _). congruence.
    + intros i v. split; [|tauto]. intros Hv. split; [done|]. intros Es.
      destruct (kw_listed _ W i v Hv) as (h & l & Eh' & _). congruence.
Qed.

(** The index the caller passes as [prev_voter_idx]. *)
Definition slot_head (st : stakes_t) (s : Z) : Z := default ULONG_MAX (stk_slot_map st !! s).

Lemma stakes_insert_ok st s a stake i free' :
  stakes_wf st -> stk_free st = i :: free' -> stk_vtr_map st !! (a, s) = None -> s <> ULONG_MAX ->
  is_Some (stk_slot_map st !! s) \/ Z.of_nat (size (stk_slot_map st)) < stk_slot_max st ->
  exists st', fd_tower_stakes_insert st s a stake (slot_head st s) = Ok (st', i) /\ stakes_wf st' /\
    stk_free st' = free' /\ slot_head st' s = i /\ stk_slot_max st' = stk_slot_max st /\
    stk_pool st' = <[i := mk_stk a s (slot_head st s) stake]> (stk_pool st) /\
    stk_vtr_map st' = <[(a, s) := i]> (stk_vtr_map st) /\
    stk_slot_map st' = <[s := i]> (stk_slot_map st).
Proof.
  intros W Ef Em Hs Hcap. unfold fd_tower_stakes_insert. rewrite Ef, Em.
  rewrite (proj2 (Z.eqb_neq _ _)) by done.
  assert ((match stk_slot_map st !! s with
           | None => if stk_slot_max st <=? Z.of_nat (size (stk_slot_map st)) then Ub else Ok tt
           | Some _ => Ok tt end) = Ok tt) as ->.
  { destruct Hcap as [[h ->]|Hcap]; [done|]. destruct (stk_slot_map st !! s); [done|].
    by rewrite (proj2 (Z.leb_gt _ _)). }
  cbn [mbind res_bind]. eexists. split; [done|]. simpl.
  destruct (kw_free _ W) as [F1 F2]. rewrite Ef in F1, F2. apply NoDup_cons in F1 as [F0 F1].
  destruct (F2 i) as [Hi Hnone]; [set_solver|]. set (v := mk_stk a s (slot_head st s) stake).
  assert (Hold : forall j w, stk_pool st !! j = Some w -> <[i := v]> (stk_pool st) !! j = Some w).
  { intros j w Hj. rewrite lookup_insert_ne; [done|congruence]. }
  assert (Hkeep : forall s' h l, voters (stk_pool st) s' h l -> voters (<[i := v]> (stk_pool st)) s' h l).
  { intros s' h l Hl. eapply voters_ext; [|done]. intros j Hj.
    destruct (voters_in _ _ _ _ _ Hl Hj) as ((w & Hw & _) & _). rewrite Hw. by apply Hold. }
  assert (Hnew : exists l, voters (<[i := v]> (stk_pool st)) s i (i :: l) /\
    forall h l', stk_slot_map st !! s = Some h -> voters (stk_pool st) s h l' -> l = l').
  { unfold slot_head in v. destruct (stk_slot_map st !! s) as [h|] eqn:Eh.
    - destruct (kw_list _ W s h Eh) as [l Hl]. exists l. split.
      + eapply voters_cons; [done|apply lookup_insert_eq|done|]. by apply Hkeep.
      + intros h' l' [= <-] Hl'. by eapply voters_det.
    - exists []. split; [|done]. eapply voters_cons; [done|apply lookup_insert_eq|done|]. constructor. }
  destruct Hnew as (l & Hl & Hluniq).
  split; [|split_and!; try done; unfold slot_head; simpl; by rewrite lookup_insert_eq].
  split; simpl.
  - intros a' s' j. split.
    + intros [[[= <- <-] <-]|[Hne Hj]]%lookup_insert_Some; [exists v; split; [apply lookup_insert_eq|done]|].
      apply (kw_map _ W) in Hj as (w & Hw & ?). eauto.
    + intros (w & [[<- <-]|[Hne Hw]]%lookup_insert_Some & <- & <-); [apply lookup_insert_eq|].
      rewrite lookup_insert_ne; [apply (kw_map _ W); eauto|]. intros [= Ea Es].
      assert (stk_vtr_map st !! (stk_addr w, stk_slot w) = Some j) by (apply (kw_map _ W); eauto).
      simpl in *. congruence.
  - intros s' h [[<- <-]|[Hne Hh]]%lookup_insert_Some; [eauto|].
    destruct (kw_list _ W s' h Hh) as [l' Hl']. eauto.
  - intros j w [[<- <-]|[Hne Hw]]%lookup_insert_Some.
    + exists i, (i :: l). split; [apply lookup_insert_eq|]. split; [done|set_solver].
    + destruct (kw_listed _ W j w Hw) as (h & l' & Eh & Hl' & Hj).
      destruct (decide (stk_slot w = s)) as [Es|Hns].
      * exists i, (i :: l). rewrite Es in *. split; [apply lookup_insert_eq|]. split; [done|].
        rewrite (Hluniq h l' Eh Hl'). set_solver.
      * exists h, l'. rewrite lookup_insert_ne by done. split; [done|]. split; [by apply Hkeep|done].
  - split; [done|]. intros j Hj. destruct (F2 j) as [? ?]; [set_solver|]. split; [done|].
    rewrite lookup_insert_ne; [done|]. intros ->. done.
Qed.

(** ** Properties *)

(** Recording a voter's stake for a slot, with the previous head of the slot's
    list as the documentation asks, makes the stake available under (voter,
    slot) and nothing else; removing the slot afterwards takes out exactly the
    voters of that slot, for every other slot the stakes are those from before,
    and the slot's elements are free again. *)
Theorem stakes_insert_remove (st : stakes_t) (s : Z) (a : fd_pubkey_t) (stake i : Z) (free' : list Z) :
  stakes_wf st -> stk_free st = i :: free' -> stk_vtr_map st !! (a, s) = None -> s <> ULONG_MAX ->
  is_Some (stk_slot_map st !! s) \/ Z.of_nat (size (stk_slot_map st)) < stk_slot_max st ->
  exists st1 st2,
    fd_tower_stakes_insert st s a stake (slot_head st s) = Ok (st1, i) /\ stakes_wf st1 /\
    stk_vtr_map st1 = <[(a, s) := i]> (stk_vtr_map st) /\
    (stk_stake <$> stk_pool st1 !! i) = Some stake /\
    fd_tower_stakes_remove st1 s = Ok st2 /\ stakes_wf st2 /\
    (forall a', stakes_query st2 a' s = None) /\
    (forall a' s', s' <> s -> stakes_query st2 a' s' = stakes_query st a' s') /\
    (forall j v, stk_pool st2 !! j = Some v <-> stk_pool st !! j = Some v /\ stk_slot v <> s).
Proof.
  intros W Ef Em Hs Hcap.
  destruct (stakes_insert_ok st s a stake i free' W Ef Em Hs Hcap)
    as (st1 & E1 & W1 & _ & _ & _ & Hp & Hm & _).
  destruct (stakes_remove_ok st1 s W1) as (st2 & E2 & W2 & Hq & Hq' & Hp2 & _).
  exists st1, st2. split; [done|]. split; [done|]. split; [done|]. split; [by rewrite Hp, lookup_insert_eq|].
  split; [done|]. split; [done|]. split; [done|]. split.
  - intros a' s' Hne. rewrite Hq' by done. unfold stakes_query. rewrite Hm, lookup_insert_ne; [done|].
    intros [= _ E]. congruence.
  - intros j v. rewrite Hp2, Hp. split.
    + intros [[[<- <-]|[_ Hj]]%lookup_insert_Some Hne]; [done|done].
    + intros [Hj Hne]. split; [|done]. rewrite lookup_insert_ne; [done|]. intros <-.
      destruct (kw_free _ W) as [_ F2]. destruct (F2 i); [rewrite Ef; set_solver|congruence].
Qed.

Lemma stakes_insert_remove_witness :
  exists st1 st2, fd_tower_stakes_insert (mk_stakes ∅ [0; 1; 2] ∅ ∅ 4) 5 77 100 ULONG_MAX = Ok (st1, 0) /\
    fd_tower_stakes_remove st1 5 = Ok st2 /\ stakes_query st2 77 5 = None.
Proof.
  destruct (stakes_insert_remove (mk_stakes ∅ [0; 1; 2] ∅ ∅ 4) 5 77 100 0 [1; 2])
    as (st1 & st2 & E1 & _ & _ & _ & E2 & _ & Hq & _).
  - split; simpl.
    + intros a s i. split; [intros H; discriminate H|]. intros (v & H & _). discriminate H.
    + intros s h H. discriminate H.
    + intros i v H. discriminate H.
    + split; [apply (bool_decide_unpack _); vm_compute; exact I|].
      intros i Hi. split; [|reflexivity]. intros ->.
      apply (bool_decide_unpack (ULONG_MAX ∉ [0; 1; 2])); [vm_compute; exact I|exact Hi].
  - reflexivity.
  - reflexivity.
  - discriminate.
  - right. vm_compute. reflexivity.
  - exists st1, st2. split; [exact E1|]. split; [exact E2|apply Hq].
Defined.
