(* ===== verification/Tower.v ===== *)
(** * TowerBFT ([src/choreo/tower/fd_tower.c])

    The tower, its vote and switch rules, and the operations that compose them:
    [lockout_check], [switch_check], [threshold_check], [propagated_check],
    [fd_tower_vote_and_reset], [fd_tower_reconcile], [fd_tower_count_vote],
    [fd_tower_verify].

    The votes of a tower are the list held by its deque (TowerVotes shows that
    the ring buffer of [fd_deque.c] implements lists of at most 31 votes); the
    block, lockout-interval and stake maps are those of TowerBlocks,
    TowerLockos and TowerStakes.  Stake ratios are computed in IEEE double
    precision, as in the code. *)

From Corelib Require Import SpecFloat.
From S2P Require Import Prelude Deque Bits TowerVotes TowerBlocks Ghost TowerSerdes VoteAcc TowerLockos TowerStakes.

#[local] Open Scope Z_scope.

(** ** Doubles *)

(** The doubles nearest to 0.38 and to 2/3. *)
Definition SWITCH_RATIO : spec_float := S754_finite false 6845471433603154 (-54).
Definition THRESHOLD_RATIO : spec_float := S754_finite false 6004799503160661 (-53).

(** [(double)stake / (double)total > ratio]. *)
Definition ratio_gt (stake total : Z) (ratio : spec_float) : bool :=
  SFltb ratio (SFdiv 53 1024 (double_of stake) (double_of total)).

Definition THRESHOLD_DEPTH : Z := 8.

(** ** The tower *)

Record fd_tower_vtr_t := mk_tower_vtr {
  vtr_vote_acc : fd_pubkey_t;
  vtr_stake : Z;
  vtr_votes : list fd_tower_vote_t;
  vtr_root : Z;
}.

Record fd_tower_t := mk_tower {
  votes : list fd_tower_vote_t;
  t_root : Z;
  blk_max : Z;
  vtr_max : Z;
  blocks : gmap Z fd_tower_blk_t;
  vtrs : list fd_tower_vtr_t;
  lockos : lockos_t;
  stakes : stakes_t;
  stk_used_acc : gset Z;
}.

Definition with_votes (t : fd_tower_t) (v : list fd_tower_vote_t) : fd_tower_t :=
  mk_tower v (t_root t) (blk_max t) (vtr_max t) (blocks t) (vtrs t) (lockos t) (stakes t) (stk_used_acc t).
Definition with_t_root (t : fd_tower_t) (r : Z) : fd_tower_t :=
  mk_tower (votes t) r (blk_max t) (vtr_max t) (blocks t) (vtrs t) (lockos t) (stakes t) (stk_used_acc t).
Definition with_blocks (t : fd_tower_t) (m : gmap Z fd_tower_blk_t) : fd_tower_t :=
  mk_tower (votes t) (t_root t) (blk_max t) (vtr_max t) m (vtrs t) (lockos t) (stakes t) (stk_used_acc t).
Definition with_vtrs_t (t : fd_tower_t) (v : list fd_tower_vtr_t) : fd_tower_t :=
  mk_tower (votes t) (t_root t) (blk_max t) (vtr_max t) (blocks t) v (lockos t) (stakes t) (stk_used_acc t).
Definition with_lockos (t : fd_tower_t) (l : lockos_t) : fd_tower_t :=
  mk_tower (votes t) (t_root t) (blk_max t) (vtr_max t) (blocks t) (vtrs t) l (stakes t) (stk_used_acc t).
Definition with_stakes (t : fd_tower_t) (s : stakes_t) : fd_tower_t :=
  mk_tower (votes t) (t_root t) (blk_max t) (vtr_max t) (blocks t) (vtrs t) (lockos t) s (stk_used_acc t).
Definition with_used (t : fd_tower_t) (u : gset Z) : fd_tower_t :=
  mk_tower (votes t) (t_root t) (blk_max t) (vtr_max t) (blocks t) (vtrs t) (lockos t) (stakes t) u.

(** Field updates of a block. *)
Definition set_voted (b : fd_tower_blk_t) (v : bool) (h : fd_hash_t) : fd_tower_blk_t :=
  mk_blk (blk_slot b) (parent_slot b) (epoch b) (bank_hash b) (block_hash b) (replayed b)
    (replayed_block_id b) v h (confirmed b) (confirmed_block_id b) (leader b) (propagated b)
    (prev_leader_slot b).

(** ** The vote checks *)

Definition lockout_check (t : fd_tower_t) (slot_ : Z) : res bool :=
  match last (votes t) with
  | None => Ok ((t_root t =? ULONG_MAX) || (t_root t <? slot_))
  | Some top =>
      if slot_ <=? TowerVotes.slot top then Ok false
      else
        cnt ← simulate_vote (votes t) slot_;
        if cnt =? 0 then Ok true
        else
          vote ← dq_peek_index (votes t) (cnt - 1);
          fd_tower_blocks_is_slot_descendant (blocks t) (TowerVotes.slot vote) slot_
  end.

(** The voters counted by the threshold check, with their 64-bit total. *)
Fixpoint threshold_stake (threshold_slot slot_ : Z) (accts : list fd_tower_vtr_t) (acc : Z) : res Z :=
  match accts with
  | [] => Ok acc
  | acct :: accts' =>
      cnt ← simulate_vote (vtr_votes acct) slot_;
      if cnt =? 0 then threshold_stake threshold_slot slot_ accts' acc
      else
        vote ← dq_peek_index (vtr_votes acct) (cnt - 1);
        threshold_stake threshold_slot slot_ accts'
          (if threshold_slot <=? TowerVotes.slot vote then u64 (acc + vtr_stake acct) else acc)
  end.

Definition threshold_check (t : fd_tower_t) (total_stake slot_ : Z) : res bool :=
  cnt ← simulate_vote (votes t) slot_;
  if cnt <? THRESHOLD_DEPTH then Ok true
  else
    vote ← dq_peek_index (votes t) (cnt - THRESHOLD_DEPTH);
    stake ← threshold_stake (TowerVotes.slot vote) slot_ (vtrs t) 0;
    Ok (ratio_gt stake total_stake THRESHOLD_RATIO).

Definition propagated_check (t : fd_tower_t) (slot_ : Z) : res bool :=
  match fd_tower_blocks_query (blocks t) slot_ with
  | None => Crit
  | Some blk =>
      if leader blk then Ok true
      else if prev_leader_slot blk =? ULONG_MAX then Ok true
      else
        match fd_tower_blocks_query (blocks t) (prev_leader_slot blk) with
        | None => Ok true
        | Some prev_leader_blk => Ok (propagated prev_leader_blk)
        end
  end.

(** ** The switch check *)

Definition is_purged (m : gmap Z fd_tower_blk_t) (b : fd_ghost_blk_t) : res bool :=
  tower_blk ← deref (fd_tower_blocks_query m (Ghost.slot b));
  Ok (confirmed tower_blk && negb (confirmed_block_id tower_blk =? Ghost.id b)).

(** What the check accumulates: the counted voters and their stake.  [inr]
    is the early exit with enough stake. *)
Definition switch_acc : Type := gset Z * Z.

Section switch.
Context (t : fd_tower_t) (total_stake switch_slot vote_slot root_slot : Z).

(** The loop over the intervals under one key. *)
Fixpoint switch_intervals (ivs : list lockout_interval_t) (acc : switch_acc)
    : res (switch_acc + unit) :=
  match ivs with
  | [] => Ok (inl acc)
  | interval :: ivs' =>
      same_fork ← fd_tower_blocks_is_slot_descendant (blocks t) (TowerLockos.start interval) vote_slot;
      if negb same_fork && (root_slot <? TowerLockos.start interval) then
        vote_acc ← deref (addr interval);
        match stakes_query (stakes t) vote_acc switch_slot with
        | None => switch_intervals ivs' acc
        | Some voter_idx =>
            let '(used, switch_stake) := acc in
            if decide (voter_idx ∈ used) then switch_intervals ivs' acc
            else
              v ← deref (stk_pool (stakes t) !! voter_idx);
              let switch_stake' := u64 (switch_stake + stk_stake v) in
              if ratio_gt switch_stake' total_stake SWITCH_RATIO then Ok (inr tt)
              else switch_intervals ivs' ({[voter_idx]} ∪ used, switch_stake')
        end
      else switch_intervals ivs' acc
  end.

(** The loop over the sentinels of a candidate. *)
Fixpoint switch_sentinels (candidate_slot : Z) (sentinels : list lockout_interval_t)
    (acc : switch_acc) : res (switch_acc + unit) :=
  match sentinels with
  | [] => Ok (inl acc)
  | sentinel :: sentinels' =>
      let interval_end := TowerLockos.start sentinel in
      if interval_end <? vote_slot then switch_sentinels candidate_slot sentinels' acc
      else
        r ← switch_intervals (intervals (lockos t) (lockout_interval_key candidate_slot interval_end)) acc;
        match r with
        | inr _ => Ok (inr tt)
        | inl acc' => switch_sentinels candidate_slot sentinels' acc'
        end
  end.

(** A leaf of the fork tree as a candidate for the switch proof. *)
Definition switch_candidate (candidate_slot : Z) (acc : switch_acc) : res (switch_acc + unit) :=
  lca ← fd_tower_blocks_lowest_common_ancestor (blocks t) candidate_slot vote_slot;
  if candidate_slot =? vote_slot then Ok (inl acc)
  else if lca =? ULONG_MAX then Ok (inl acc)
  else
    desc ← fd_tower_blocks_is_slot_descendant (blocks t) lca switch_slot;
    if (desc : bool) then
      switch_sentinels candidate_slot
        (intervals (lockos t) (lockout_interval_key candidate_slot 0)) acc
    else Ok (inl acc).

(** The children that are not purged join the queue and leave the map. *)
Definition switch_children_step (p : blks) (s : Z * gmap fd_hash_t Z * list Z * bool)
    : res (Z * gmap fd_hash_t Z * list Z * bool + gmap fd_hash_t Z * list Z * bool) :=
  let '(c, m, queue, is_valid_leaf) := s in
  if c =? null then Ok (inr (m, queue, is_valid_leaf))
  else
    cb ← blk_at p c;
    purged ← is_purged (blocks t) cb;
    if (purged : bool) then Ok (inl (sibling cb, m, queue, is_valid_leaf))
    else Ok (inl (sibling cb, delete (Ghost.id cb) m, queue ++ [c], false)).

(** Re-insert what is left of the queue. *)
Fixpoint requeue (p : blks) (queue : list Z) (m : gmap fd_hash_t Z) : res (gmap fd_hash_t Z) :=
  match queue with
  | [] => Ok m
  | head :: queue' => b ← blk_at p head; requeue p queue' (<[Ghost.id b := head]> m)
  end.

(** One block of the breadth-first traversal. *)
Definition switch_step (p : blks) (fuel : nat) (s : gmap fd_hash_t Z * list Z * switch_acc)
    : res (gmap fd_hash_t Z * list Z * switch_acc + gmap fd_hash_t Z * bool) :=
  let '(m, queue, acc) := s in
  match queue with
  | [] => Ok (inr (m, false))
  | head :: queue' =>
      hb ← blk_at p head;
      '(m1, queue1, is_valid_leaf) ←
         loop (switch_children_step p) fuel (child hb, m, queue', true);
      let m2 := <[Ghost.id hb := head]> m1 in
      if negb is_valid_leaf then Ok (inl (m2, queue1, acc))
      else
        r ← switch_candidate (Ghost.slot hb) acc;
        match r with
        | inl acc' => Ok (inl (m2, queue1, acc'))
        | inr _ => m3 ← requeue p queue1 m2; Ok (inr (m3, true))
        end
  end.
End switch.

(** [fd_used_acc_scratch_null] empties the set of counted voters on return. *)
Definition switch_check (t : fd_tower_t) (g : fd_ghost_t) (total_stake switch_slot : Z)
    : res (bool * fd_tower_t * fd_ghost_t) :=
  tail ← deref (last (votes t));
  rootb ← blk_at (blk_pool g) (root g);
  head ← deref (blk_map g !! Ghost.id rootb);
  '(m, ok) ← loop (switch_step t total_stake switch_slot (TowerVotes.slot tail) (t_root t)
                     (blk_pool g) (fuel g)) (fuel g)
               (delete (Ghost.id rootb) (blk_map g), [head], (stk_used_acc t, 0));
  Ok (ok, with_used t ∅, with_map g m).

(** ** Voting and resetting *)

Definition FD_TOWER_FLAG_ANCESTOR_ROLLBACK : Z := 0.
Definition FD_TOWER_FLAG_SIBLING_CONFIRMED : Z := 1.
Definition FD_TOWER_FLAG_SAME_FORK : Z := 2.
Definition FD_TOWER_FLAG_SWITCH_PASS : Z := 3.
Definition FD_TOWER_FLAG_SWITCH_FAIL : Z := 4.
Definition FD_TOWER_FLAG_LOCKOUT_FAIL : Z := 5.
Definition FD_TOWER_FLAG_THRESHOLD_FAIL : Z := 6.
Definition FD_TOWER_FLAG_PROPAGATED_FAIL : Z := 7.

Definition fd_uchar_set_bit (flags b : Z) : Z := Z.lor flags (Z.shiftl 1 b).

(** The out-parameters; [vote_bank_hash] keeps its value when it is not
    written. *)
Record fd_tower_out_t := mk_out {
  flags : Z;
  reset_slot : Z;
  reset_block_id : fd_hash_t;
  vote_slot_out : Z;
  vote_block_id : fd_hash_t;
  vote_bank_hash : fd_hash_t;
  root_slot_out : Z;
  root_block_id : fd_hash_t;
}.

(** The block chosen by the five cases: flags, block to reset to, block to
    vote for (or [None]). *)
Record choice_t := mk_choice { ch_flags : Z; ch_reset : Z; ch_vote : option Z }.

(** Cases 1 to 4 of the rules: the tower has votes. *)
Definition choose (t : fd_tower_t) (g : fd_ghost_t) (best prev_vote_slot : Z)
    : res (choice_t * fd_tower_t * fd_ghost_t) :=
  best_blk ← blk_at (blk_pool g) best;
  prev_vote_fork ← deref (fd_tower_blocks_query (blocks t) prev_vote_slot);
  let prev_vote_blk := default null (fd_ghost_query g (voted_block_id prev_vote_fork)) in
  inv ← fd_ghost_invalid_ancestor g prev_vote_blk;
  let invalid_ancestor := negb (inv =? null) in
  anc ← (if negb (prev_vote_blk =? best)
         then fd_ghost_ancestor g prev_vote_blk (Ghost.id best_blk) else Ok null);
  let ancestor_rollback := negb (prev_vote_blk =? best) && negb (anc =? null) in
  let sibling_confirmed :=
    confirmed prev_vote_fork &&
    negb (voted_block_id prev_vote_fork =? confirmed_block_id prev_vote_fork) in
  if invalid_ancestor && ancestor_rollback then
    Ok (mk_choice (fd_uchar_set_bit 0 FD_TOWER_FLAG_ANCESTOR_ROLLBACK) best None, t, g)
  else if invalid_ancestor && sibling_confirmed then
    Ok (mk_choice (fd_uchar_set_bit 0 FD_TOWER_FLAG_SIBLING_CONFIRMED) best (Some best), t, g)
  else
    same_fork ← (if Ghost.slot best_blk =? prev_vote_slot then Ok true
                 else fd_tower_blocks_is_slot_ancestor (blocks t) (Ghost.slot best_blk) prev_vote_slot);
    if (same_fork : bool) then
      Ok (mk_choice (fd_uchar_set_bit 0 FD_TOWER_FLAG_SAME_FORK) best (Some best), t, g)
    else
      '(switch, t, g) ← switch_check t g (total_stake best_blk) (Ghost.slot best_blk);
      if (switch : bool) then
        Ok (mk_choice (fd_uchar_set_bit 0 FD_TOWER_FLAG_SWITCH_PASS) best (Some best), t, g)
      else if invalid_ancestor then
        '(deepest, g) ← fd_ghost_deepest g prev_vote_blk;
        Ok (mk_choice (fd_uchar_set_bit 0 FD_TOWER_FLAG_SWITCH_FAIL) deepest None, t, g)
      else
        best' ← fd_ghost_best g prev_vote_blk;
        Ok (mk_choice (fd_uchar_set_bit 0 FD_TOWER_FLAG_SWITCH_FAIL) best' None, t, g).

(** The three further checks on the block to vote for. *)
Definition can_vote (t : fd_tower_t) (g : fd_ghost_t) (c : choice_t) : res (Z * option Z) :=
  match ch_vote c with
  | None => Ok (ch_flags c, None)
  | Some v =>
      vote_blk ← blk_at (blk_pool g) v;
      lockout ← lockout_check t (Ghost.slot vote_blk);
      if negb lockout then Ok (fd_uchar_set_bit (ch_flags c) FD_TOWER_FLAG_LOCKOUT_FAIL, None)
      else
        threshold ← threshold_check t (total_stake vote_blk) (Ghost.slot vote_blk);
        if negb threshold then Ok (fd_uchar_set_bit (ch_flags c) FD_TOWER_FLAG_THRESHOLD_FAIL, None)
        else
          propagated_ ← propagated_check t (Ghost.slot vote_blk);
          if negb propagated_ then Ok (fd_uchar_set_bit (ch_flags c) FD_TOWER_FLAG_PROPAGATED_FAIL, None)
          else Ok (ch_flags c, Some v)
  end.

(** Push the vote and record it in the block's metadata. *)
Definition cast_vote (t : fd_tower_t) (vote_blk : fd_ghost_blk_t) : res (fd_tower_t * Z * fd_hash_t * fd_hash_t) :=
  '(votes', root_slot) ← push_vote (votes t) (Ghost.slot vote_blk);
  fork ← deref (fd_tower_blocks_query (blocks t) (Ghost.slot vote_blk));
  let m := <[Ghost.slot vote_blk := set_voted fork true (Ghost.id vote_blk)]> (blocks t) in
  root_id ← (if negb (root_slot =? ULONG_MAX) then
               root_fork ← deref (fd_tower_blocks_query m root_slot);
               Ok (if confirmed root_fork then confirmed_block_id root_fork else voted_block_id root_fork)
             else Ok 0);
  Ok (with_blocks (with_votes t votes') m, root_slot, bank_hash fork, root_id).

Definition fd_tower_vote_and_reset (t : fd_tower_t) (g : fd_ghost_t) (vote_bank_hash0 : fd_hash_t)
    : res (fd_tower_out_t * fd_tower_t * fd_ghost_t) :=
  best ← fd_ghost_best g (fd_ghost_root g);
  best_blk ← blk_at (blk_pool g) best;
  match last (votes t) with
  | None =>
      lockout ← lockout_check t (Ghost.slot best_blk);
      if negb lockout then
        Ok (mk_out 0 (Ghost.slot best_blk) (Ghost.id best_blk) ULONG_MAX 0 vote_bank_hash0 ULONG_MAX 0, t, g)
      else
        tower_blk ← deref (fd_tower_blocks_query (blocks t) (Ghost.slot best_blk));
        let m := <[Ghost.slot best_blk := set_voted tower_blk true (Ghost.id best_blk)]> (blocks t) in
        '(votes', root_slot) ← push_vote (votes t) (Ghost.slot best_blk);
        Ok (mk_out 0 (Ghost.slot best_blk) (Ghost.id best_blk) (Ghost.slot best_blk) (Ghost.id best_blk)
              (bank_hash tower_blk) root_slot 0,
            with_blocks (with_votes t votes') m, g)
  | Some prev =>
      '(c, t, g) ← choose t g best (TowerVotes.slot prev);
      '(fl, v) ← can_vote t g c;
      _ ← FD_TEST (negb (ch_reset c =? null));
      reset_blk ← blk_at (blk_pool g) (ch_reset c);
      match v with
      | None =>
          Ok (mk_out fl (Ghost.slot reset_blk) (Ghost.id reset_blk) ULONG_MAX 0 0 ULONG_MAX 0, t, g)
      | Some v =>
          vote_blk ← blk_at (blk_pool g) v;
          '(t', root_slot, hash, root_id) ← cast_vote t vote_blk;
          Ok (mk_out fl (Ghost.slot reset_blk) (Ghost.id reset_blk) (Ghost.slot vote_blk) (Ghost.id vote_blk)
                hash root_slot root_id, t', g)
      end
  end.

(** ** Other operations *)

(** [fd_tower_count_vote]: the voter's tower is read out of its vote account
    into the next element of the deque of voters. *)
Definition fd_tower_count_vote (t : fd_tower_t) (vote_acc : fd_pubkey_t) (stake_ : Z) (data : list Z)
    : res fd_tower_t :=
  if vtr_max t <=? Z.of_nat (length (vtrs t)) then Ub
  else
    '(vs, r) ← fd_tower_from_vote_acc (D := list fd_tower_vote_t) [] data;
    Ok (with_vtrs_t t (vtrs t ++ [mk_tower_vtr vote_acc stake_ vs r])).

(** [fd_tower_verify]: 0 or -1. *)
Fixpoint verify_from (prev : option fd_tower_vote_t) (vs : list fd_tower_vote_t) : Z :=
  match vs with
  | [] => 0
  | vote :: vs' =>
      if match prev with
         | Some prev => (TowerVotes.slot vote <? TowerVotes.slot prev) || (conf vote <? conf prev)
         | None => false
         end
      then -1 else verify_from (Some vote) vs'
  end.

Definition fd_tower_verify (t : fd_tower_t) : Z :=
  if FD_TOWER_VOTE_MAX <=? Z.of_nat (length (votes t)) then -1 else verify_from None (votes t).

(** ** Reconciliation with the on-chain tower *)

(** On-chain votes at or below the local root are dropped. *)
Fixpoint drop_rooted (local_root : Z) (vs : list fd_tower_vote_t) : list fd_tower_vote_t :=
  match vs with
  | [] => []
  | v :: vs' => if local_root <? TowerVotes.slot v then vs else drop_rooted local_root vs'
  end.

(** [voted] is cleared for the slots of the local tower. *)
Fixpoint clear_voted (m : gmap Z fd_tower_blk_t) (vs : list fd_tower_vote_t) : res (gmap Z fd_tower_blk_t) :=
  match vs with
  | [] => Ok m
  | v :: vs' =>
      match fd_tower_blocks_query m (TowerVotes.slot v) with
      | None => Crit
      | Some b => clear_voted (<[TowerVotes.slot v := set_voted b false (voted_block_id b)]> m) vs'
      end
  end.

(** The slots from the old root up to the new one are removed. *)
Fixpoint remove_slots (n : nat) (slot_ : Z) (t : fd_tower_t) : res fd_tower_t :=
  match n with
  | O => Ok t
  | S n' =>
      l ← fd_tower_lockos_remove (lockos t) slot_;
      s ← fd_tower_stakes_remove (stakes t) slot_;
      remove_slots n' (slot_ + 1)
        (with_stakes (with_lockos (with_blocks t (fd_tower_blocks_remove (blocks t) slot_)) l) s)
  end.

(** The on-chain votes replace the local ones; blocks we did not vote for take
    the block id we replayed. *)
Fixpoint adopt_votes (vs : list fd_tower_vote_t) (t : fd_tower_t) : res fd_tower_t :=
  match vs with
  | [] => Ok t
  | v :: vs' =>
      if FD_TOWER_VOTE_MAX <=? Z.of_nat (length (votes t)) then Ub
      else
        match fd_tower_blocks_query (blocks t) (TowerVotes.slot v) with
        | None => Crit
        | Some b =>
            let b' := if voted b then b else set_voted b true (replayed_block_id b) in
            adopt_votes vs' (with_blocks (with_votes t (votes t ++ [v]))
                               (<[TowerVotes.slot v := b']> (blocks t)))
        end
  end.

(** The tower, and what is left in the deque of on-chain votes. *)
Definition fd_tower_reconcile (t : fd_tower_t) (onchain_votes : list fd_tower_vote_t) (onchain_root : Z)
    : res (fd_tower_t * list fd_tower_vote_t) :=
  let local_vote := match last (votes t) with Some v => TowerVotes.slot v | None => ULONG_MAX end in
  let onchain_vote := match last onchain_votes with Some v => TowerVotes.slot v | None => ULONG_MAX end in
  if (onchain_vote =? ULONG_MAX) || (negb (local_vote =? ULONG_MAX) && (onchain_vote <=? local_vote))
  then Ok (t, onchain_votes)
  else
    _ ← FD_TEST (negb (t_root t =? ULONG_MAX));
    let '(onchain_root', onchain_votes') :=
      if (onchain_root =? ULONG_MAX) || (onchain_root <? t_root t)
      then (t_root t, drop_rooted (t_root t) onchain_votes)
      else (onchain_root, onchain_votes) in
    m ← clear_voted (blocks t) (votes t);
    t1 ← remove_slots (Z.to_nat (onchain_root' - t_root t)) (t_root t) (with_blocks t m);
    t2 ← adopt_votes onchain_votes' (with_votes (with_t_root t1 onchain_root') []);
    Ok (t2, onchain_votes').

(** ** The vote instruction built from the tower ([fd_tower_to_vote_txn])

    [timestamp_] is the wallclock in seconds. *)

Fixpoint tower_lockouts (prev : Z) (vs : list fd_tower_vote_t) : list lockout_t :=
  match vs with
  | [] => []
  | v :: vs' =>
      mk_lockout (u64 (TowerVotes.slot v - prev)) (conf v mod 256) :: tower_lockouts (TowerVotes.slot v) vs'
  end.

Definition tower_sync_of (t : fd_tower_t) (bank_hash_ block_id : list Z) (timestamp_ : Z)
    : res fd_compact_tower_sync_serde_t :=
  _ ← FD_TEST (Z.of_nat (length (votes t)) <=? FD_TOWER_VOTE_MAX);
  let root := if t_root t =? ULONG_MAX then 0 else t_root t in
  Ok (mk_serde root (Z.of_nat (length (votes t))) (tower_lockouts root (votes t)) bank_hash_ 1 timestamp_
        block_id).

(** ** Properties *)

(** [fd_tower_verify] rejects every well-formed tower that has at least two
    votes: it asks the confirmation counts not to decrease from the oldest to
    the newest vote, but in a tower they always do. *)
Theorem tower_verify_rejects (t : fd_tower_t) :
  tower_wf (rev (votes t)) -> (2 <= length (votes t))%nat -> fd_tower_verify t = -1.
Proof.
  intros [Hs _] Hl. unfold fd_tower_verify. destruct (_ <=? _); [done|].
  destruct (votes t) as [|v1 [|v2 vs]]; simpl in *; [lia|lia|].
  rewrite <- app_assoc in Hs. apply StronglySorted_app_1_r in Hs. simpl in Hs.
  apply StronglySorted_inv in Hs as [_ Ha]. apply Forall_cons in Ha as [[_ Hc] _].
  by rewrite (proj2 (Z.ltb_lt _ _) Hc), orb_true_r.
Qed.

Lemma tower_verify_rejects_witness :
  fd_tower_verify (mk_tower [mk_vote 1 2; mk_vote 2 1] 0 16 4 ∅ [] (mk_lockos ∅ 0) (mk_stakes ∅ [] ∅ ∅ 0) ∅) = -1.
Proof.
  apply tower_verify_rejects.
  - split; [repeat constructor; simpl; lia|]. apply (bool_decide_unpack _). vm_compute. exact I.
  - simpl. lia.
Defined.
