(* ===== verification/TowerRules.v ===== *)
(** * What the TowerBFT rules guarantee ([src/choreo/tower/fd_tower.c])

    Lockout safety: the votes in a tower are on one fork, every check that lets
    a vote pass keeps it that way, and a vote is refused only when it is not
    newer or a lockout that is still running is on another fork. *)

From S2P Require Import Prelude Deque TowerVotes TowerBlocks Ghost TowerSerdes VoteAcc TowerLockos TowerStakes Tower.

#[local] Open Scope Z_scope.

Abbreviation vslot := TowerVotes.slot.

(** ** Votes on one fork *)

(** [s] is a stack of votes, newest first: every vote is an ancestor of all the
    newer ones. *)
Definition one_fork (m : gmap Z fd_tower_blk_t) (s : list fd_tower_vote_t) : Prop :=
  StronglySorted (fun v w => ancestor m (vslot v) (vslot w)) s.

Lemma ancestor_trans m s t u : ancestor m s t -> ancestor m t u -> ancestor m s u.
Proof.
  induction 1 as [s b Hb|s b t Hb _ IH]; intros Hu; eapply anc_step; eauto.
Qed.

Lemma ancestor_parents m m' s t :
  (forall k, parent_slot <$> m' !! k = parent_slot <$> m !! k) -> ancestor m s t -> ancestor m' s t.
Proof.
  intros Hm. induction 1 as [s b Hb|s b t Hb _ IH].
  - specialize (Hm s). rewrite Hb in Hm. destruct (m' !! s) as [b'|] eqn:E; [|done].
    simpl in Hm. injection Hm as <-. by constructor.
  - specialize (Hm s). rewrite Hb in Hm. destruct (m' !! s) as [b'|] eqn:E; [|done].
    simpl in Hm. injection Hm as Hp. eapply anc_step; [done|]. by rewrite Hp.
Qed.

Lemma one_fork_parents m m' s :
  (forall k, parent_slot <$> m' !! k = parent_slot <$> m !! k) -> one_fork m s -> one_fork m' s.
Proof.
  intros Hm. unfold one_fork. induction 1 as [|v s Hs IH Hv]; constructor; [done|].
  eapply Forall_impl; [exact Hv|]. intros w. simpl. by apply ancestor_parents.
Qed.

(** Only the slots matter. *)
Lemma one_fork_slots m s s' : vslot <$> s = vslot <$> s' -> one_fork m s -> one_fork m s'.
Proof.
  unfold one_fork. intros E H. revert s' E. induction H as [|v s Hs IH Hv]; intros [|v' s'] E; try done.
  { constructor. }
  rewrite !fmap_cons in E. injection E as Ev Es. constructor; [by apply IH|].
  rewrite Forall_forall in *. intros w Hw. rewrite <- Ev.
  assert (Hin : vslot w ∈ vslot <$> s) by (rewrite Es; by apply list_elem_of_fmap_2).
  apply list_elem_of_fmap in Hin as (w' & -> & Hw'). by apply Hv.
Qed.

Lemma one_fork_app m t s : one_fork m (t ++ s) -> one_fork m s.
Proof. induction t as [|v t IH]; [done|]. simpl. intros H. apply StronglySorted_inv in H as [H _]. auto. Qed.

Lemma one_fork_prefix m s t : one_fork m (s ++ t) -> one_fork m s.
Proof.
  unfold one_fork. induction s as [|v s IH]; simpl; intros H; [constructor|].
  apply StronglySorted_inv in H as [H Hv]. constructor; [auto|]. by apply Forall_app in Hv as [? _].
Qed.

(** A vote that descends from the top of the stack descends from all of it. *)
Lemma one_fork_top m s slot_ :
  one_fork m s -> (forall v, head s = Some v -> ancestor m slot_ (vslot v)) ->
  Forall (fun v => ancestor m slot_ (vslot v)) s.
Proof.
  intros H Htop. destruct s as [|v s]; [constructor|]. specialize (Htop v eq_refl).
  apply StronglySorted_inv in H as [_ Hv]. constructor; [done|].
  eapply Forall_impl; [exact Hv|]. intros w. simpl. by apply ancestor_trans.
Qed.

Lemma one_fork_push m s slot_ :
  one_fork m s -> Forall (fun v => ancestor m slot_ (vslot v)) (expire slot_ s) ->
  one_fork m (snd (push_spec slot_ s)).
Proof.
  intros H Hanc. unfold push_spec. destruct (root_pop_prefix (expire slot_ s)) as [t Et].
  destruct (root_pop (expire slot_ s)) as [r s2] eqn:E. simpl in Et. simpl.
  assert (Hs2 : one_fork m s2).
  { destruct (expire_suffix slot_ s) as [u Eu]. rewrite Eu, Et in H.
    apply one_fork_app in H. by apply one_fork_prefix in H. }
  rewrite Et in Hanc. apply Forall_app in Hanc as [Hanc _].
  constructor.
  - eapply one_fork_slots; [|exact Hs2]. by rewrite confirm_slots.
  - rewrite Forall_forall in *. intros w Hw. simpl.
    assert (Hin : vslot w ∈ vslot <$> s2) by (rewrite <- (confirm_slots 0); by apply list_elem_of_fmap_2).
    apply list_elem_of_fmap in Hin as (w' & -> & Hw'). by apply Hanc.
Qed.

(** ** Simulated votes on lists *)

Lemma simulate_list (vs : list fd_tower_vote_t) slot_ :
  Forall vote_safe vs -> Z.of_nat (length vs) <= FD_TOWER_VOTE_MAX ->
  simulate_vote vs slot_ = Ok (Z.of_nat (length (expire slot_ (rev vs)))).
Proof. intros Hs Hl. by apply (simulate_vote_spec 0 vs vs). Qed.

(** The [k]-th vote from the top that is left after expiry. *)
Lemma peek_unexpired (vs : list fd_tower_vote_t) slot_ k v :
  expire slot_ (rev vs) !! k = Some v ->
  dq_peek_index vs (Z.of_nat (length (expire slot_ (rev vs))) - 1 - Z.of_nat k) = Ok v.
Proof.
  intros Hk. pose proof (lookup_lt_Some _ _ _ Hk) as Hlt. simpl.
  set (s := expire slot_ (rev vs)) in *.
  replace (Z.to_nat (Z.of_nat (length s) - 1 - Z.of_nat k)) with (length s - S k)%nat by lia.
  assert (Hl : take (length s) vs !! (length s - S k)%nat = Some v).
  { pose proof (expire_take slot_ vs) as E. fold s in E. rewrite E, rev_alt. fold (reverse s).
    rewrite reverse_lookup by lia. by replace (length s - S (length s - S k))%nat with k by lia. }
  apply lookup_take_Some in Hl as [-> _]. done.
Qed.

(** ** Lockouts *)

Record tower_ok (t : fd_tower_t) : Prop := mk_tower_ok {
  tk_wf : tower_wf (rev (votes t));
  tk_blocks : blocks_wf (blocks t);
  tk_fork : one_fork (blocks t) (rev (votes t));
}.

Lemma tower_ok_safe t : tower_ok t ->
  Forall vote_safe (votes t) /\ Z.of_nat (length (votes t)) <= FD_TOWER_VOTE_MAX.
Proof.
  intros [Hwf _ _]. pose proof (wf_length _ Hwf) as Hl. rewrite length_rev in Hl.
  pose proof (wf_safe _ Hwf) as Hs. by rewrite Forall_rev_iff in Hs.
Qed.

(** What the lockout check decides on a tower that has votes. *)
Lemma lockout_check_spec t slot_ top :
  tower_ok t -> last (votes t) = Some top ->
  exists b, lockout_check t slot_ = Ok b /\
    (b = true <-> vslot top < slot_ /\
       Forall (fun v => ancestor (blocks t) slot_ (vslot v)) (expire slot_ (rev (votes t)))).
Proof.
  intros Hok Htop. destruct (tower_ok_safe t Hok) as [Hs Hl]. unfold lockout_check. rewrite Htop.
  destruct (Z.leb_spec slot_ (vslot top)) as [Hle|Hlt].
  { exists false. split; [done|]. split; [done|]. lia. }
  rewrite simulate_list by done. cbn [mbind res_bind].
  pose proof (peek_unexpired (votes t) slot_ 0) as Hpeek.
  destruct (expire_suffix slot_ (rev (votes t))) as [u Eu].
  destruct (expire slot_ (rev (votes t))) as [|v s] eqn:Es.
  { simpl. exists true. split; [done|]. split; [|done]. intros _. split; [done|constructor]. }
  rewrite (proj2 (Z.eqb_neq _ 0)) by (simpl; lia).
  specialize (Hpeek v eq_refl). replace (Z.of_nat (length (v :: s)) - 1)
    with (Z.of_nat (length (v :: s)) - 1 - Z.of_nat 0) by lia.
  rewrite Hpeek. cbn [mbind res_bind]. unfold fd_tower_blocks_is_slot_descendant.
  destruct (is_ancestor_spec (blocks t) (tk_blocks _ Hok) slot_ (vslot v)) as (b & -> & Hb).
  exists b. split; [done|]. rewrite Hb. split; [|intros [_ H]; by apply Forall_cons in H as [? _]].
  intros Ha. split; [done|]. apply one_fork_top.
  - pose proof (tk_fork _ Hok) as Hf. rewrite Eu in Hf. by apply one_fork_app in Hf.
  - by intros w [= <-].
Qed.

(** Casting a vote that passed the lockout check. *)
Lemma lockout_vote_ok t slot_ :
  tower_ok t -> 0 <= slot_ < 2 ^ 63 -> lockout_check t slot_ = Ok true ->
  exists votes' r, push_vote (votes t) slot_ = Ok (votes', r) /\
    tower_wf (rev votes') /\ one_fork (blocks t) (rev votes') /\
    last votes' = Some (mk_vote slot_ 1) /\ (forall v, last (votes t) = Some v -> vslot v < slot_).
Proof.
  intros Hok Hr Hlc. destruct (tower_ok_safe t Hok) as [Hs Hl].
  assert (Hnew : (forall v, last (votes t) = Some v -> vslot v < slot_) /\
    Forall (fun v => ancestor (blocks t) slot_ (vslot v)) (expire slot_ (rev (votes t)))).
  { destruct (last (votes t)) as [top|] eqn:Etop.
    - destruct (lockout_check_spec t slot_ top Hok Etop) as (b & E & Hb).
      assert (b = true) as -> by congruence. destruct (proj1 Hb eq_refl) as [Hlt Hf].
      split; [|done]. by intros v [= <-].
    - split; [done|]. apply last_None in Etop. rewrite Etop. constructor. }
  destruct Hnew as [Hnew Hanc]. rewrite push_vote_list by done. eexists _, _. split; [done|].
  rewrite rev_involutive. split; [apply push_spec_wf; [apply Hok|done|by apply wf_newest; [apply Hok|]]|].
  split; [apply one_fork_push; [apply Hok|done]|]. split; [|done].
  rewrite last_rev. unfold push_spec. by destruct (root_pop _).
Qed.

(** ** The threshold *)

(** A voter supports the threshold slot when the newest of its votes that a
    vote for [slot_] would not expire is at least that slot. *)
Definition supports (threshold_slot slot_ : Z) (a : fd_tower_vtr_t) : bool :=
  match expire slot_ (rev (vtr_votes a)) with
  | [] => false
  | v :: _ => threshold_slot <=? vslot v
  end.

Definition sum_stakes (l : list fd_tower_vtr_t) (acc : Z) : Z :=
  fold_left (fun acc a => u64 (acc + vtr_stake a)) l acc.

Definition voter_ok (a : fd_tower_vtr_t) : Prop :=
  Forall vote_safe (vtr_votes a) /\ Z.of_nat (length (vtr_votes a)) <= FD_TOWER_VOTE_MAX.

Lemma threshold_stake_spec threshold_slot slot_ accts acc :
  Forall voter_ok accts ->
  threshold_stake threshold_slot slot_ accts acc =
    Ok (sum_stakes (filter (fun a => supports threshold_slot slot_ a = true) accts) acc).
Proof.
  intros H. revert acc. induction H as [|a accts [Hs Hl] _ IH]; intros acc; [done|]. simpl.
  rewrite simulate_list by done. cbn [mbind res_bind]. rewrite filter_cons.
  pose proof (peek_unexpired (vtr_votes a) slot_ 0) as Hpeek.
  assert (Hsup : supports threshold_slot slot_ a =
    match expire slot_ (rev (vtr_votes a)) with [] => false | v :: _ => threshold_slot <=? vslot v end) by done.
  destruct (expire slot_ (rev (vtr_votes a))) as [|v s].
  { simpl. rewrite decide_False by congruence. apply IH. }
  rewrite (proj2 (Z.eqb_neq _ 0)) by (simpl; lia). specialize (Hpeek v eq_refl).
  replace (Z.of_nat (length (v :: s)) - 1) with (Z.of_nat (length (v :: s)) - 1 - Z.of_nat 0) by lia.
  simpl in Hpeek |- *. rewrite Hpeek. cbn [mbind res_bind]. rewrite IH.
  destruct (threshold_slot <=? vslot v); [by rewrite decide_True|by rewrite decide_False by congruence].
Qed.

(** The threshold check computed by [expire] and [supports]. *)
Lemma threshold_check_run t total slot_ :
  Forall vote_safe (votes t) -> Z.of_nat (length (votes t)) <= FD_TOWER_VOTE_MAX ->
  Forall voter_ok (vtrs t) ->
  threshold_check t total slot_ =
    Ok match expire slot_ (rev (votes t)) !! 7%nat with
       | None => true
       | Some v => ratio_gt (sum_stakes (filter (fun a => supports (vslot v) slot_ a = true) (vtrs t)) 0)
                     total THRESHOLD_RATIO
       end.
Proof.
  intros Hs Hl Hv. unfold threshold_check. rewrite simulate_list by done. cbn [mbind res_bind].
  pose proof (peek_unexpired (votes t) slot_ 7) as Hpeek. unfold THRESHOLD_DEPTH.
  destruct (expire slot_ (rev (votes t)) !! 7%nat) as [v|] eqn:E7.
  - pose proof (lookup_lt_Some _ _ _ E7) as Hlt. rewrite (proj2 (Z.ltb_ge _ _)) by lia.
    replace (Z.of_nat (length (expire slot_ (rev (votes t)))) - 8)
      with (Z.of_nat (length (expire slot_ (rev (votes t)))) - 1 - Z.of_nat 7) by lia.
    rewrite (Hpeek v eq_refl). cbn [mbind res_bind]. by rewrite threshold_stake_spec.
  - apply lookup_ge_None in E7. rewrite (proj2 (Z.ltb_lt _ _)) by lia. done.
Qed.

(** ** Voting and resetting *)

(** The checks only touch the scratch set of the tower. *)
Definition same_tower (t t' : fd_tower_t) : Prop :=
  votes t' = votes t /\ blocks t' = blocks t /\ t_root t' = t_root t /\ vtrs t' = vtrs t.

Lemma switch_check_same t g total s b t' g' :
  switch_check t g total s = Ok (b, t', g') -> same_tower t t' /\ blk_pool g' = blk_pool g.
Proof.
  unfold switch_check. intros E. apply bind_Ok in E as (tail & _ & E).
  apply bind_Ok in E as (rootb & _ & E). apply bind_Ok in E as (hd & _ & E).
  apply bind_Ok in E as ([m ok] & _ & E). injection E as <- <- <-. by repeat split.
Qed.

Lemma choose_same t g best prev c t' g' :
  choose t g best prev = Ok (c, t', g') ->
  same_tower t t' /\ blk_pool g' = blk_pool g /\ (ch_vote c = None \/ ch_vote c = Some best).
Proof.
  unfold choose. intros E. apply bind_Ok in E as (bb & _ & E). apply bind_Ok in E as (fork & _ & E).
  apply bind_Ok in E as (inv & _ & E). apply bind_Ok in E as (anc & _ & E).
  destruct (_ && _); [injection E as <- <- <-; repeat split; auto|].
  destruct (_ && _); [injection E as <- <- <-; repeat split; auto|].
  apply bind_Ok in E as (sf & _ & E).
  destruct sf; [injection E as <- <- <-; repeat split; auto|].
  apply bind_Ok in E as ([[sw t1] g1] & E1 & E). apply switch_check_same in E1 as [Ht Hp].
  destruct sw; [injection E as <- <- <-; auto|].
  destruct (negb _).
  - apply bind_Ok in E as ([d g2] & E2 & E). injection E as <- <- <-. split; [done|].
    unfold fd_ghost_deepest in E2. apply bind_Ok in E2 as (rb & _ & E2).
    apply bind_Ok in E2 as (hd & _ & E2). apply bind_Ok in E2 as ([m pv] & _ & E2).
    injection E2 as <- <-. auto.
  - apply bind_Ok in E as (b' & _ & E). injection E as <- <- <-. auto.
Qed.

(** A block is voted for only when all the checks pass. *)
Lemma can_vote_some t g c fl v :
  can_vote t g c = Ok (fl, Some v) ->
  ch_vote c = Some v /\ exists b, blk_pool g !! v = Some b /\
    lockout_check t (Ghost.slot b) = Ok true /\
    threshold_check t (total_stake b) (Ghost.slot b) = Ok true /\
    propagated_check t (Ghost.slot b) = Ok true.
Proof.
  unfold can_vote. intros E. destruct (ch_vote c) as [v'|]; [|done].
  apply bind_Ok in E as (b & Hb & E). apply deref_Ok in Hb.
  apply bind_Ok in E as (lo & Hlo & E). destruct lo; [|done]. simpl in E.
  apply bind_Ok in E as (th & Hth & E). destruct th; [|done]. simpl in E.
  apply bind_Ok in E as (pr & Hpr & E). destruct pr; [|done]. simpl in E.
  injection E as _ <-. eauto 10.
Qed.

Lemma set_voted_parents (m : gmap Z fd_tower_blk_t) s b v h k :
  m !! s = Some b -> parent_slot <$> <[s := set_voted b v h]> m !! k = parent_slot <$> m !! k.
Proof.
  intros Hb. destruct (decide (k = s)) as [->|Hne].
  - by rewrite lookup_insert_eq, Hb.
  - by rewrite lookup_insert_ne.
Qed.

Lemma set_voted_blocks_wf m s b v h : m !! s = Some b -> blocks_wf m -> blocks_wf (<[s := set_voted b v h]> m).
Proof.
  intros Hb [H1 H2 H3]. split; intros k b' [[<- <-]|[_ Hk]]%lookup_insert_Some; simpl; eauto.
Qed.

(** The part of the result that is about the vote. *)
Definition vote_cast (t t' : fd_tower_t) (out : fd_tower_out_t) : Prop :=
  push_vote (votes t) (vote_slot_out out) = Ok (votes t', root_slot_out out) /\
  lockout_check t (vote_slot_out out) = Ok true /\
  exists b, blocks t' !! vote_slot_out out = Some b /\ voted b = true /\
    voted_block_id b = vote_block_id out.

Lemma vote_cast_ok t t' out :
  tower_ok t -> 0 <= vote_slot_out out < 2 ^ 63 -> vote_cast t t' out -> blocks_wf (blocks t') ->
  (forall k, parent_slot <$> blocks t' !! k = parent_slot <$> blocks t !! k) ->
  tower_ok t' /\ last (votes t') = Some (mk_vote (vote_slot_out out) 1) /\
  (forall v, last (votes t) = Some v -> vslot v < vote_slot_out out).
Proof.
  intros Hok Hr (Hp & Hl & _) Hwf Hpar.
  destruct (lockout_vote_ok t _ Hok Hr Hl) as (vs & r & E & Hw & Hf & Hlast & Hnew).
  assert (vs = votes t') as -> by congruence. split; [|done].
  split; [done|done|]. by eapply one_fork_parents.
Qed.

Lemma lockout_check_same t t' s : same_tower t t' -> lockout_check t' s = lockout_check t s.
Proof. intros (H1 & H2 & H3 & _). unfold lockout_check. by rewrite H1, H2, H3. Qed.

Lemma cast_vote_ok t b t' r h rid :
  blocks_wf (blocks t) -> cast_vote t b = Ok (t', r, h, rid) ->
  push_vote (votes t) (Ghost.slot b) = Ok (votes t', r) /\ blocks_wf (blocks t') /\
  t_root t' = t_root t /\
  (forall k, parent_slot <$> blocks t' !! k = parent_slot <$> blocks t !! k) /\
  exists tb, blocks t' !! Ghost.slot b = Some tb /\ voted tb = true /\ voted_block_id tb = Ghost.id b.
Proof.
  intros Hwf E. unfold cast_vote in E. apply bind_Ok in E as ([vs r'] & Hp & E).
  apply bind_Ok in E as (fork & Hf & E). apply deref_Ok in Hf. apply bind_Ok in E as (rid' & _ & E).
  injection E as <- <- <- <-. simpl. unfold fd_tower_blocks_query in Hf.
  split; [done|]. split; [by apply set_voted_blocks_wf|]. split; [done|].
  split; [intros k; by apply set_voted_parents|].
  eexists. split; [apply lookup_insert_eq|]. done.
Qed.

(** The result of [fd_tower_vote_and_reset], case by case. *)
Lemma vote_and_reset_cases t g h out t' g' :
  blocks_wf (blocks t) -> fd_tower_vote_and_reset t g h = Ok (out, t', g') ->
  blk_pool g' = blk_pool g /\ blocks_wf (blocks t') /\ t_root t' = t_root t /\
  (forall k, parent_slot <$> blocks t' !! k = parent_slot <$> blocks t !! k) /\
  exists best bb, fd_ghost_best g (fd_ghost_root g) = Ok best /\ blk_pool g !! best = Some bb /\
    ((vote_slot_out out = ULONG_MAX /\ root_slot_out out = ULONG_MAX /\ same_tower t t') \/
     (vote_cast t t' out /\ vote_slot_out out = Ghost.slot bb /\ vote_block_id out = Ghost.id bb /\
      (votes t <> [] -> threshold_check t (total_stake bb) (Ghost.slot bb) = Ok true /\
                        propagated_check t (Ghost.slot bb) = Ok true))).
Proof.
  intros Hwf E. unfold fd_tower_vote_and_reset in E. apply bind_Ok in E as (best & Hbest & E).
  apply bind_Ok in E as (bb & Hbb & E). apply deref_Ok in Hbb.
  destruct (last (votes t)) as [prev|] eqn:Elast.
  - apply bind_Ok in E as ([[c t1] g1] & Ec & E). apply bind_Ok in E as ([fl v] & Ev & E).
    apply bind_Ok in E as ([] & _ & E). apply bind_Ok in E as (rb & _ & E).
    apply choose_same in Ec as (Hs & Hp & Hch). pose proof Hs as (Hv & Hb & Hr & Hvt).
    assert (Hnil : votes t <> []) by (intros Hx; by rewrite Hx in Elast).
    destruct v as [v|].
    + apply can_vote_some in Ev as (Hcv & b & Hpb & Hlo & Hth & Hpr).
      assert (v = best) as -> by (destruct Hch; congruence). rewrite Hp in Hpb.
      assert (b = bb) as -> by congruence.
      rewrite Hp in E. unfold blk_at in E. rewrite Hbb in E. cbn [deref mbind res_bind] in E.
      apply bind_Ok in E as ([[[t2 r] hh] rid] & Ecast & E). injection E as <- <- <-.
      apply cast_vote_ok in Ecast as (Hpush & Hbwf & Hroot & Hpar & tb & Htb & Hvo & Hid); [|by rewrite Hb].
      rewrite Hv in Hpush. rewrite (lockout_check_same _ _ _ Hs) in Hlo.
      split; [done|]. split; [done|]. split; [congruence|]. split; [intros k; by rewrite Hpar, Hb|].
      exists best, bb. split; [done|]. split; [done|]. right. simpl.
      split; [split; [done|split; [done|eauto]]|]. split; [done|]. split; [done|]. intros _.
      unfold threshold_check, propagated_check in *. by rewrite Hv, Hvt, Hb in *.
    + injection E as <- <- <-. split; [done|]. split; [by rewrite Hb|]. split; [done|].
      split; [intros k; by rewrite Hb|]. exists best, bb. split; [done|]. split; [done|]. by left.
  - apply bind_Ok in E as (lo & Hlo & E). apply last_None in Elast. destruct lo; simpl in E.
    + apply bind_Ok in E as (tb & Htb & E). apply deref_Ok in Htb. unfold fd_tower_blocks_query in Htb.
      apply bind_Ok in E as ([vs r] & Hpush & E). injection E as <- <- <-. simpl.
      split; [done|]. split; [by apply set_voted_blocks_wf|]. split; [done|].
      split; [intros k; by apply set_voted_parents|].
      exists best, bb. split; [done|]. split; [done|]. right.
      split; [|by rewrite Elast]. split; [done|]. split; [done|].
      eexists. split; [apply lookup_insert_eq|]. done.
    + injection E as <- <- <-. split; [done|]. split; [done|]. split; [done|]. split; [done|].
      exists best, bb. split; [done|]. split; [done|]. left. by repeat split.
Qed.

(** ** Properties *)

(** C5. The lockout check answers on every well-formed tower.  With votes in the
    tower it lets a vote through exactly when the slot is newer than our last
    vote and every vote that voting for it would leave in the tower is an
    ancestor of it; such a vote can then be pushed, and afterwards all the
    votes in the tower are again on one fork, ending in the new vote. *)
Theorem lockout_check_safety (t : fd_tower_t) (slot_ : Z) :
  tower_ok t -> 0 <= slot_ < 2 ^ 63 ->
  exists b, lockout_check t slot_ = Ok b /\
    (forall top, last (votes t) = Some top ->
       (b = true <-> vslot top < slot_ /\
          Forall (fun v => ancestor (blocks t) slot_ (vslot v)) (expire slot_ (rev (votes t))))) /\
    (b = true -> exists votes' r, push_vote (votes t) slot_ = Ok (votes', r) /\
       tower_wf (rev votes') /\ one_fork (blocks t) (rev votes') /\ last votes' = Some (mk_vote slot_ 1)).
Proof.
  intros Hok Hr.
  assert (exists b, lockout_check t slot_ = Ok b) as [b E].
  { destruct (last (votes t)) as [top|] eqn:Etop.
    - destruct (lockout_check_spec t slot_ top Hok Etop) as (b & E & _). eauto.
    - unfold lockout_check. rewrite Etop. eauto. }
  exists b. split; [done|]. split.
  - intros top Etop. destruct (lockout_check_spec t slot_ top Hok Etop) as (b' & E' & Hb).
    assert (b' = b) as -> by congruence. done.
  - intros ->. destruct (lockout_vote_ok t slot_ Hok Hr E) as (vs & r & ? & ? & ? & ? & _). eauto 10.
Qed.

(** C6. The threshold check passes exactly when the vote would leave fewer than
    8 of the earlier votes in the tower, or when the stake of the voters whose
    newest unexpired vote is at least our eighth-newest unexpired one is, in
    double precision, strictly more than two thirds of the total.  Exactly two
    thirds do not pass, although the comments of the check (fd_tower.c:602 and
    fd_tower.h:205) say that at least two thirds are enough. *)
Theorem threshold_check_correct (t : fd_tower_t) (total slot_ : Z) :
  Forall vote_safe (votes t) -> Z.of_nat (length (votes t)) <= FD_TOWER_VOTE_MAX ->
  Forall voter_ok (vtrs t) ->
  threshold_check t total slot_ =
    Ok match expire slot_ (rev (votes t)) !! 7%nat with
       | None => true
       | Some v => ratio_gt (sum_stakes (filter (fun a => supports (vslot v) slot_ a = true) (vtrs t)) 0)
                     total THRESHOLD_RATIO
       end.
Proof. apply threshold_check_run. Qed.

(** Whenever [fd_tower_vote_and_reset] returns, the tower's votes
    are still on one fork and the tower is well formed.  It changed only if a
    vote is reported, and then the vote is for the fork-choice best block,
    newer than all earlier votes, it passed the lockout check and, unless the
    tower was empty, the threshold and propagation checks, and the block is
    recorded as voted for. *)
Lemma vote_and_reset_safe (t t' : fd_tower_t) (g g' : fd_ghost_t) (h : fd_hash_t) (out : fd_tower_out_t) :
  tower_ok t -> (forall i b, blk_pool g !! i = Some b -> 0 <= Ghost.slot b < 2 ^ 63) ->
  fd_tower_vote_and_reset t g h = Ok (out, t', g') ->
  tower_ok t' /\ blk_pool g' = blk_pool g /\ t_root t' = t_root t /\
  (vote_slot_out out = ULONG_MAX -> votes t' = votes t /\ root_slot_out out = ULONG_MAX) /\
  (vote_slot_out out <> ULONG_MAX ->
     last (votes t') = Some (mk_vote (vote_slot_out out) 1) /\
     (forall v, last (votes t) = Some v -> vslot v < vote_slot_out out) /\
     lockout_check t (vote_slot_out out) = Ok true /\
     exists best bb, fd_ghost_best g (fd_ghost_root g) = Ok best /\ blk_pool g !! best = Some bb /\
       vote_slot_out out = Ghost.slot bb /\ vote_block_id out = Ghost.id bb /\
       (votes t <> [] -> threshold_check t (total_stake bb) (Ghost.slot bb) = Ok true /\
                         propagated_check t (Ghost.slot bb) = Ok true)).
Proof.
  intros Hok Hslots E. pose proof (tk_blocks _ Hok) as Hbw.
  destruct (vote_and_reset_cases t g h out t' g' Hbw E)
    as (Hp & Hbwf & Hroot & Hpar & best & bb & Hbest & Hbb & [(Hm & Hrm & Hs)|(Hcast & Hsl & Hid & Hchk)]).
  - destruct Hs as (Hv & Hb & _ & _). split.
    { split; rewrite ?Hv, ?Hb; apply Hok. }
    split; [done|]. split; [done|]. split; [done|]. intros Hx. done.
  - pose proof (Hslots best bb Hbb) as Hr. rewrite <- Hsl in Hr.
    destruct (vote_cast_ok t t' out Hok Hr Hcast Hbwf Hpar) as (Hok' & Hlast & Hnew).
    split; [done|]. split; [done|]. split; [done|]. split; [unfold ULONG_MAX; lia|].
    intros _. split; [done|]. split; [done|]. split; [apply Hcast|]. exists best, bb. auto.
Qed.
