(* ===== verification/TowerReconcile.v ===== *)
(** * Reconciliation with the on-chain tower and the outgoing vote
      ([src/choreo/tower/fd_tower.c])

    [fd_tower_reconcile] replaces a stale local tower by the newer one read
    from our vote account; [fd_tower_to_vote_txn] turns the tower into a vote
    instruction. *)

From S2P Require Import Prelude Deque Bytes TowerVotes TowerBlocks Ghost TowerSerdes VoteAcc TowerLockos TowerStakes.
From S2P Require Import Tower TowerRules.

#[local] Open Scope Z_scope.

(** ** The parts of the reconciliation *)

Definition slots_of (vs : list fd_tower_vote_t) : list Z := vslot <$> vs.

(** A block after it was cleared and after it was adopted. *)
Definition unvote (b : fd_tower_blk_t) : fd_tower_blk_t := set_voted b false (voted_block_id b).
Definition adopt (b : fd_tower_blk_t) : fd_tower_blk_t :=
  if voted b then b else set_voted b true (replayed_block_id b).

(** The blocks of the slots in [l] are changed by [f]. *)
Definition changed (f : fd_tower_blk_t -> fd_tower_blk_t) (l : list Z) (m m' : gmap Z fd_tower_blk_t) : Prop :=
  forall k, m' !! k = (fun b => if decide (k ∈ l) then f b else b) <$> m !! k.

Lemma changed_nil f m : changed f [] m m.
Proof. intros k. by destruct (m !! k). Qed.

(** One slot after the other, for a change that can be repeated. *)
Lemma changed_cons f s l m m' b :
  (forall b, f (f b) = f b) -> m !! s = Some b ->
  changed f l (<[s := f b]> m) m' -> changed f (s :: l) m m'.
Proof.
  intros Hf Hb H k. rewrite (H k). destruct (decide (s = k)) as [<-|Hne].
  - rewrite lookup_insert_eq, Hb. simpl. rewrite (decide_True (P := s ∈ s :: l)) by set_solver.
    destruct (decide (s ∈ l)); [by rewrite Hf|done].
  - rewrite lookup_insert_ne by done. destruct (m !! k) as [bk|]; simpl; [|done].
    destruct (decide (k ∈ l)), (decide (k ∈ s :: l)); set_solver.
Qed.

Lemma clear_voted_ok m vs :
  (forall v, v ∈ vs -> is_Some (m !! vslot v)) ->
  exists m', clear_voted m vs = Ok m' /\ changed unvote (slots_of vs) m m'.
Proof.
  revert m. induction vs as [|v vs IH]; intros m Hvs; simpl.
  { exists m. split; [done|apply changed_nil]. }
  destruct (Hvs v) as [b Hb]; [set_solver|]. unfold fd_tower_blocks_query. rewrite Hb.
  destruct (IH (<[vslot v := unvote b]> m)) as (m' & E & Hm').
  { intros w Hw. destruct (decide (vslot v = vslot w)) as [->|]; [rewrite lookup_insert_eq; eauto|].
    rewrite lookup_insert_ne by done. apply Hvs. set_solver. }
  exists m'. split; [done|]. eapply changed_cons; [|done|exact Hm']. by intros [].
Qed.

Lemma adopt_votes_ok vs t :
  (forall v, v ∈ vs -> is_Some (blocks t !! vslot v)) ->
  Z.of_nat (length (votes t) + length vs) <= FD_TOWER_VOTE_MAX ->
  exists m', adopt_votes vs t = Ok (with_blocks (with_votes t (votes t ++ vs)) m') /\
    changed adopt (slots_of vs) (blocks t) m'.
Proof.
  revert t. induction vs as [|v vs IH]; intros t Hvs Hl; simpl.
  { exists (blocks t). rewrite app_nil_r. split; [by destruct t|apply changed_nil]. }
  simpl in Hl. rewrite (proj2 (Z.leb_gt _ _)) by lia.
  destruct (Hvs v) as [b Hb]; [set_solver|]. unfold fd_tower_blocks_query. rewrite Hb.
  change (if voted b then b else _) with (adopt b).
  edestruct (IH (with_blocks (with_votes t (votes t ++ [v])) (<[vslot v := adopt b]> (blocks t))))
    as (m' & E & Hm').
  { intros w Hw. simpl. destruct (decide (vslot v = vslot w)) as [->|]; [rewrite lookup_insert_eq; eauto|].
    rewrite lookup_insert_ne by done. apply Hvs. set_solver. }
  { simpl. rewrite length_app. simpl. lia. }
  exists m'. split.
  - rewrite E. simpl. by rewrite <- app_assoc.
  - eapply changed_cons; [|done|exact Hm']. intros b'. unfold adopt. destruct (voted b') eqn:Ev; simpl; [by rewrite Ev|done].
Qed.

Lemma lockos_remove_ok l s :
  lockos_wf l -> half s ->
  exists l', fd_tower_lockos_remove l s = Ok l' /\ lockos_wf l' /\ ends l' s = [] /\
    (forall s', half s' -> s' <> s -> ends l' s' = ends l s').
Proof.
  intros W Hs. destruct (remove_sentinel_loop s l (S (length (intervals l (lockout_interval_key s 0)))) Hs)
    as (l' & E & Hc).
  { intros e He. by destruct (lw_ends _ W s e Hs He). }
  { unfold ends. rewrite length_fmap. lia. }
  exists l'. split; [done|]. split; [by eapply cleared_wf|]. destruct Hc as [Hc _]. split.
  - unfold ends. rewrite Hc, decide_True by set_solver. done.
  - intros s' Hs' Hne. unfold ends. rewrite Hc, decide_False; [done|].
    assert (H0 : half 0) by (unfold half; lia).
    intros [E0|(e & E0 & He)%list_elem_of_fmap]%elem_of_cons.
    + by apply key_inj in E0 as [? _].
    + pose proof (lw_ends _ W s e Hs He) as [He' _].
      apply key_inj in E0 as [? _]; try done. unfold half in *. lia.
Qed.

Definition between (lo n k : Z) : Prop := lo <= k < lo + n.
#[export] Instance between_dec lo n k : Decision (between lo n k).
Proof. unfold between. apply _. Defined.

Lemma between_S {A} s n k (x y : A) :
  (if decide (between s (Z.of_nat (S n)) k) then x else y) =
  if decide (k = s) then x else if decide (between (s + 1) (Z.of_nat n) k) then x else y.
Proof. repeat destruct (decide _); try done; unfold between in *; lia. Qed.

(** Everything recorded for the slots [s] to [s + n - 1] is gone. *)
Record slots_removed (s n : Z) (t t' : fd_tower_t) : Prop := mk_slots_removed {
  sm_blocks : forall k, blocks t' !! k = if decide (between s n k) then None else blocks t !! k;
  sm_stakes : forall a k, stakes_query (stakes t') a k =
    if decide (between s n k) then None else stakes_query (stakes t) a k;
  sm_lockos : forall k, half k -> ends (lockos t') k =
    if decide (between s n k) then [] else ends (lockos t) k;
  sm_wf : lockos_wf (lockos t') /\ stakes_wf (stakes t');
  sm_same : votes t' = votes t /\ t_root t' = t_root t /\ vtrs t' = vtrs t;
}.

Lemma remove_slots_ok n s t :
  lockos_wf (lockos t) -> stakes_wf (stakes t) -> 0 <= s -> s + Z.of_nat n <= 2 ^ 32 ->
  exists t', remove_slots n s t = Ok t' /\ slots_removed s (Z.of_nat n) t t'.
Proof.
  revert s t. induction n as [|n IH]; intros s t Wl Ws Hs Hn; simpl.
  { exists t. split; [done|].
    split; try done; intros; rewrite decide_False by (unfold between; lia); done. }
  destruct (lockos_remove_ok (lockos t) s Wl) as (l & -> & Wl' & Hend & Hends); [unfold half; lia|].
  destruct (stakes_remove_ok (stakes t) s Ws) as (st & -> & Ws' & Hq & Hqs & _). cbn [mbind res_bind].
  edestruct (IH (s + 1) (with_stakes (with_lockos (with_blocks t (fd_tower_blocks_remove (blocks t) s)) l) st))
    as (t' & -> & [H1 H2 H3 H4 H5]); [done|done|lia|lia|].
  exists t'. split; [done|].
  split; [| | |done|done].
  - intros k. rewrite H1, between_S. simpl.
    assert (Hrm : fd_tower_blocks_remove (blocks t) s !! k = if decide (k = s) then None else blocks t !! k).
    { unfold fd_tower_blocks_remove. destruct (decide (k = s)) as [->|Hne].
      - destruct (blocks t !! s) eqn:E; [by rewrite lookup_delete_eq|done].
      - destruct (blocks t !! s); [by rewrite lookup_delete_ne|done]. }
    rewrite Hrm. by repeat destruct (decide _).
  - intros a k. rewrite H2, between_S. simpl. destruct (decide (k = s)) as [->|Hne].
    + rewrite Hq. by destruct (decide _).
    + by rewrite Hqs.
  - intros k Hk. rewrite H3, between_S by done. simpl. destruct (decide (k = s)) as [->|Hne].
    + rewrite Hend. by destruct (decide _).
    + by rewrite Hends.
Qed.

(** On a sorted tower the dropped votes are those at or below the root. *)
Lemma drop_rooted_filter r vs :
  StronglySorted (fun v w => vslot v < vslot w) vs -> drop_rooted r vs = filter (fun v => r < vslot v) vs.
Proof.
  induction 1 as [|v vs Hs IH Hv]; simpl; [done|]. rewrite filter_cons.
  destruct (Z.ltb_spec r (vslot v)) as [Hlt|Hge].
  - rewrite decide_True by done. f_equal. clear -Hv Hlt.
    induction Hv as [|w vs Hw _ IH]; [done|]. rewrite filter_cons, decide_True by lia. by f_equal.
  - rewrite decide_False by lia. done.
Qed.

(** ** Properties *)

(** The on-chain tower is newer than the local one. *)
Definition newer (local onchain : list fd_tower_vote_t) : Prop :=
  exists top, last onchain = Some top /\ vslot top <> ULONG_MAX /\
    forall v, last local = Some v -> vslot v < vslot top.

(** The root that is kept and the votes above it. *)
Definition keep_local (local_root onchain_root : Z) : bool :=
  (onchain_root =? ULONG_MAX) || (onchain_root <? local_root).
Definition new_root (local_root onchain_root : Z) : Z :=
  if keep_local local_root onchain_root then local_root else onchain_root.
Definition new_votes (local_root onchain_root : Z) (vs : list fd_tower_vote_t) : list fd_tower_vote_t :=
  if keep_local local_root onchain_root then filter (fun v => local_root < vslot v) vs else vs.

Lemma reconcile_noop t onchain r :
  (forall v, v ∈ votes t \/ v ∈ onchain -> vslot v <> ULONG_MAX) -> ~ newer (votes t) onchain ->
  fd_tower_reconcile t onchain r = Ok (t, onchain).
Proof.
  intros Hmax Hn. unfold fd_tower_reconcile.
  destruct (last onchain) as [top|] eqn:Et; [|done].
  assert (vslot top <> ULONG_MAX) as Hm by (apply (Hmax top); right; by apply last_Some_elem_of).
  rewrite (proj2 (Z.eqb_neq _ _) Hm). simpl. destruct (last (votes t)) as [v|] eqn:Ev.
  - assert (vslot v <> ULONG_MAX) as Hmv by (apply Hmax; left; by apply last_Some_elem_of).
    rewrite (proj2 (Z.eqb_neq _ _) Hmv). simpl.
    destruct (Z.leb_spec (vslot top) (vslot v)) as [|Hlt]; [done|]. destruct Hn.
    exists top. split; [done|]. split; [done|]. rewrite Ev. by intros w [= <-].
  - destruct Hn. exists top. split; [done|]. split; [done|]. by rewrite Ev.
Qed.

Lemma reconcile_run t onchain r :
  newer (votes t) onchain -> (forall v, v ∈ votes t -> vslot v <> ULONG_MAX) -> t_root t <> ULONG_MAX ->
  StronglySorted (fun v w => vslot v < vslot w) onchain ->
  fd_tower_reconcile t onchain r =
    m ← clear_voted (blocks t) (votes t);
    t1 ← remove_slots (Z.to_nat (new_root (t_root t) r - t_root t)) (t_root t) (with_blocks t m);
    t2 ← adopt_votes (new_votes (t_root t) r onchain) (with_votes (with_t_root t1 (new_root (t_root t) r)) []);
    Ok (t2, new_votes (t_root t) r onchain).
Proof.
  intros (top & Et & Hm & Hlt) Hmax Hr Hs. unfold fd_tower_reconcile. rewrite Et.
  rewrite (proj2 (Z.eqb_neq _ _) Hm), (proj2 (Z.eqb_neq _ _) Hr). cbn [orb negb].
  assert ((negb (match last (votes t) with Some v => vslot v | None => ULONG_MAX end =? ULONG_MAX) &&
           (vslot top <=? match last (votes t) with Some v => vslot v | None => ULONG_MAX end)) = false) as ->.
  { destruct (last (votes t)) as [v|]; [|done]. specialize (Hlt v eq_refl).
    rewrite (proj2 (Z.leb_gt _ _)) by done. apply andb_false_r. }
  cbn [FD_TEST mbind res_bind]. unfold new_root, new_votes, keep_local.
  destruct (_ || _); [|done]. by rewrite drop_rooted_filter.
Qed.

(** C12. Reconciling with the on-chain tower: nothing happens unless the on-chain
    tower is newer.  If it is, the tower becomes the on-chain one without the
    votes at or below our root, the root never moves back, everything recorded
    for the slots between the old and the new root is removed, and every slot
    of the new tower is marked voted; its block id is the one we had voted for
    only if the slot was not in the local tower, otherwise the replayed one. *)
Theorem reconcile_correct (t : fd_tower_t) (onchain : list fd_tower_vote_t) (r : Z) :
  (forall v, v ∈ votes t \/ v ∈ onchain -> vslot v <> ULONG_MAX) -> 0 <= t_root t < 2 ^ 32 ->
  r = ULONG_MAX \/ 0 <= r < 2 ^ 32 ->
  lockos_wf (lockos t) -> stakes_wf (stakes t) ->
  StronglySorted (fun v w => vslot v < vslot w) onchain ->
  Z.of_nat (length onchain) <= FD_TOWER_VOTE_MAX ->
  (forall v, v ∈ votes t -> is_Some (blocks t !! vslot v)) ->
  (forall v, v ∈ new_votes (t_root t) r onchain ->
     is_Some (blocks t !! vslot v) /\ new_root (t_root t) r < vslot v) ->
  (~ newer (votes t) onchain -> fd_tower_reconcile t onchain r = Ok (t, onchain)) /\
  (newer (votes t) onchain -> exists t',
     fd_tower_reconcile t onchain r = Ok (t', new_votes (t_root t) r onchain) /\
     votes t' = new_votes (t_root t) r onchain /\
     t_root t' = new_root (t_root t) r /\ t_root t <= t_root t' /\
     lockos_wf (lockos t') /\ stakes_wf (stakes t') /\
     (forall k, between (t_root t) (t_root t' - t_root t) k ->
        blocks t' !! k = None /\ ends (lockos t') k = [] /\ forall a, stakes_query (stakes t') a k = None) /\
     (forall v, v ∈ votes t' -> exists b b',
        blocks t !! vslot v = Some b /\ blocks t' !! vslot v = Some b' /\ voted b' = true /\
        voted_block_id b' =
          if voted b && negb (bool_decide (vslot v ∈ slots_of (votes t)))
          then voted_block_id b else replayed_block_id b)).
Proof.
  intros Hmax Hroot Hr Wl Ws Hs Hlen Hvs Hnew. split; [by apply reconcile_noop|]. intros Hn.
  assert (Hrr : t_root t <= new_root (t_root t) r < 2 ^ 32).
  { unfold new_root, keep_local. destruct (Z.eqb_spec r ULONG_MAX) as [->|]; simpl; [lia|].
    destruct (Z.ltb_spec r (t_root t)); lia. }
  rewrite reconcile_run; [|done|intros v Hv; apply (Hmax v); auto|unfold ULONG_MAX; lia|done].
  destruct (clear_voted_ok (blocks t) (votes t) Hvs) as (m & -> & Hm). cbn [mbind res_bind].
  destruct (remove_slots_ok (Z.to_nat (new_root (t_root t) r - t_root t)) (t_root t) (with_blocks t m))
    as (t1 & -> & [H1 H2 H3 [Wl1 Ws1] (E1 & E2 & E3)]); [done|done|lia|lia|]. cbn [mbind res_bind].
  rewrite Z2Nat.id in * by lia. simpl in H1, H2, H3.
  assert (Hfr : forall v, v ∈ new_votes (t_root t) r onchain ->
    blocks t1 !! vslot v = m !! vslot v).
  { intros v Hv. rewrite H1, decide_False; [done|]. destruct (Hnew v Hv) as [_ ?]. unfold between. lia. }
  destruct (adopt_votes_ok (new_votes (t_root t) r onchain) (with_votes (with_t_root t1 (new_root (t_root t) r)) []))
    as (m' & -> & Hm').
  { intros v Hv. simpl. rewrite Hfr, Hm by done. destruct (Hnew v Hv) as [[b ->] _]. simpl. eauto. }
  { simpl. unfold new_votes. destruct (keep_local _ _); [|done].
    pose proof (length_filter (fun v => t_root t < vslot v) onchain). lia. }
  cbn [mbind res_bind]. eexists. split; [done|]. simpl. split_and!; try done; [lia| |].
  - intros k Hk. split_and!.
    + rewrite (Hm' k). simpl. by rewrite H1, decide_True.
    + rewrite H3, decide_True; [done|done|]. unfold half, between in *. lia.
    + intros a. by rewrite H2, decide_True.
  - intros v Hv. destruct (Hnew v Hv) as [[b Hb] _]. exists b.
    specialize (Hm' (vslot v)). simpl in Hm'. rewrite (Hfr v Hv), (Hm (vslot v)), Hb in Hm'. simpl in Hm'.
    rewrite (decide_True (P := vslot v ∈ slots_of (new_votes _ _ _))) in Hm' by (by apply list_elem_of_fmap_2).
    eexists. split; [done|]. split; [exact Hm'|]. unfold adopt.
    destruct (decide (vslot v ∈ slots_of (votes t))) as [Hin|Hin].
    + simpl. by rewrite bool_decide_eq_true_2, andb_false_r by done.
    + rewrite bool_decide_eq_false_2, andb_true_r by done. by destruct (voted b) eqn:Ev.
Qed.

(** ** The outgoing vote *)

(** The votes a receiver reads off a vote instruction: slots are relative to
    the previous one, starting from the root. *)
Fixpoint sync_votes (prev : Z) (ls : list lockout_t) : list fd_tower_vote_t :=
  match ls with
  | [] => []
  | l :: ls' =>
      mk_vote (u64 (prev + offset l)) (confirmation_count l) :: sync_votes (u64 (prev + offset l)) ls'
  end.

Lemma sync_votes_lockouts prev vs :
  Forall vote_ok vs -> sync_votes prev (tower_lockouts prev vs) = vs.
Proof.
  intros H. revert prev. induction H as [|v vs Hv _ IH]; intros prev; simpl; [done|].
  assert (u64 (prev + u64 (vslot v - prev)) = vslot v) as ->.
  { rewrite Z.add_comm, u64_add_l, Z.sub_add. apply u64_small. unfold vote_ok, is_u64, ULONG_MAX in *. lia. }
  rewrite IH, Z.mod_small by (unfold vote_ok, FD_TOWER_VOTE_MAX in *; lia). by destruct v.
Qed.

Lemma tower_lockouts_ok prev vs : Forall lockout_ok (tower_lockouts prev vs) /\
  length (tower_lockouts prev vs) = length vs.
Proof.
  revert prev. induction vs as [|v vs IH]; intros prev; simpl; [done|].
  destruct (IH (vslot v)) as [H1 H2]. split; [|by rewrite H2]. constructor; [|done].
  split; simpl; [apply u64_range|]. unfold is_byte. apply Z.mod_pos_bound. lia.
Qed.

(** The tower as the message of a vote instruction. *)
Definition sync_root (t : fd_tower_t) : Z := if t_root t =? ULONG_MAX then 0 else t_root t.

Definition sync_message (t : fd_tower_t) (bank_hash_ block_id : list Z) (ts : Z) : fd_compact_tower_sync_serde_t :=
  mk_serde (sync_root t) (Z.of_nat (length (votes t))) (tower_lockouts (sync_root t) (votes t)) bank_hash_ 1 ts block_id.

Lemma tower_sync_ok t bank_hash_ block_id ts : tower_wf (rev (votes t)) -> is_u64 (t_root t) ->
  length bank_hash_ = 32%nat /\ Forall is_byte bank_hash_ -> length block_id = 32%nat /\ Forall is_byte block_id -> - 2 ^ 63 <= ts < 2 ^ 63 ->
  tower_sync_of t bank_hash_ block_id ts = Ok (sync_message t bank_hash_ block_id ts) /\ serde_wf (sync_message t bank_hash_ block_id ts).
Proof.
  intros Hwf Hr Hh Hb Hts. pose proof (wf_length _ Hwf) as Hl. rewrite length_rev in Hl.
  unfold tower_sync_of. rewrite (proj2 (Z.leb_le _ _)) by done. split; [done|].
  destruct (tower_lockouts_ok (sync_root t) (votes t)) as [Hlo Hlen]. split; simpl; try done; [| |by right].
  - unfold sync_root. destruct (_ =? _); [unfold is_u64, ULONG_MAX; lia|done].
  - by rewrite Hlen.
Qed.

(** The vote instruction of a well-formed tower: building it never fails, it
    fits in the 1228 bytes left after the instruction kind in a transaction of
    maximal size, and whoever deserialises the bytes reads off exactly the
    votes of the tower and its root (0 if there is none). *)
Theorem vote_instruction_correct (t : fd_tower_t) (bank_hash_ block_id : list Z) (ts : Z) :
  tower_wf (rev (votes t)) -> is_u64 (t_root t) ->
  length bank_hash_ = 32%nat /\ Forall is_byte bank_hash_ ->
  length block_id = 32%nat /\ Forall is_byte block_id -> - 2 ^ 63 <= ts < 2 ^ 63 ->
  exists s bytes, tower_sync_of t bank_hash_ block_id ts = Ok s /\
    fd_compact_tower_sync_ser s (1232 - 4) = Ok (Some bytes) /\
    fd_compact_tower_sync_de 0 bytes = Some s /\
    sd_root s = (if t_root t =? ULONG_MAX then 0 else t_root t) /\
    sync_votes (sd_root s) (lockouts s) = votes t.
Proof.
  intros Hwf Hr Hh Hb Hts. destruct (tower_sync_ok t bank_hash_ block_id ts) as [E Hs]; [done..|].
  destruct Hwf as [_ Hvo]. rewrite Forall_rev_iff in Hvo. set (s := sync_message t bank_hash_ block_id ts) in *.
  pose proof (encode_length s Hs) as He. exists s, (encode s). split; [done|].
  split; [apply ser_encode; [done|lia]|]. split.
  - unfold fd_compact_tower_sync_de. rewrite <- (app_nil_r (encode s)), de_encode by done. done.
  - split; [done|]. simpl. by apply sync_votes_lockouts.
Qed.
