(* ===== verification/SimpleVote.v ===== *)
(** * Vote transactions ([src/ballet/txn/fd_txn.h],
      [src/choreo/tower/fd_tower_serdes.c])

    Recognising a vote transaction and reading the validator, the vote account
    and the slot it votes for. *)

From S2P Require Import Prelude Bytes CompactU16 Txn TxnParse TxnFormat TxnCorrect TowerVotes TowerSerdes.

#[local] Open Scope Z_scope.

(** Vote111111111111111111111111111111111111111 *)
Definition vote_program_id : list Z :=
  [7; 97; 72; 29; 53; 116; 116; 187; 124; 77; 118; 36; 235; 211; 189; 179;
   216; 53; 94; 115; 209; 16; 67; 252; 13; 163; 83; 128; 0; 0; 0; 0].

Definition fd_txn_is_simple_vote_transaction (txn : fd_txn_t) (payload : mem) : res bool :=
  if negb (instr_cnt txn =? 1) then Ok false
  else if negb (transaction_version txn =? FD_TXN_VLEGACY) then Ok false
  else if 2 <? signature_cnt txn then Ok false
  else
    ins ← aget (instr txn) 0;
    prog_id ← read payload (acct_addr_off txn + program_id ins * FD_TXN_ACCT_ADDR_SZ) FD_TXN_ACCT_ADDR_SZ;
    Ok (bool_decide (prog_id = vote_program_id)).

Definition FD_VOTE_IX_KIND_TOWER_SYNC : Z := 14.
Definition FD_VOTE_IX_KIND_TOWER_SYNC_SWITCH : Z := 15.

(** Adding up the offsets of the lockouts: the slot, and whether it overflowed. *)
Fixpoint add_offsets (slot : Z) (ls : list lockout_t) : Z * bool :=
  match ls with
  | [] => (slot, false)
  | l :: ls' => if ULONG_MAX <? slot + offset l then (u64 (slot + offset l), true) else add_offsets (slot + offset l) ls'
  end.

(** What the pointers given by the caller hold afterwards; [None] is NULL. *)
Record simple_vote := mk_simple_vote {
  sv_ret : Z;
  sv_identity : option (list Z);
  sv_vote_acct : option (list Z);
  sv_vote_slot : option Z;
}.

(** The account at an index of the address table. *)
Definition acct_at (txn : fd_txn_t) (payload : mem) (idx : Z) : res (list Z) :=
  read payload (acct_addr_off txn + idx * FD_TXN_ACCT_ADDR_SZ) FD_TXN_ACCT_ADDR_SZ.

(** Storing through a pointer. *)
Definition store_opt {A} (p : option A) (m : res A) : res (option A) :=
  match p with None => Ok None | Some _ => Some <$> m end.

(** [timestamp0] is the contents of the uninitialised local. *)
Definition fd_txn_parse_simple_vote (timestamp0 : Z) (txn : fd_txn_t) (payload : mem)
    (opt_identity opt_vote_acct : option (list Z)) (opt_vote_slot : option Z) : res simple_vote :=
  let fail := mk_simple_vote 0 opt_identity opt_vote_acct opt_vote_slot in
  let required_accts := if signature_cnt txn =? 1 then 2 else 3 in
  simple ← fd_txn_is_simple_vote_transaction txn payload;
  if negb simple then Ok fail else
  ins ← aget (instr txn) 0;
  if data_sz ins <? 4 then Ok fail else
  if acct_addr_cnt txn <? required_accts then Ok fail else
  kind ← load payload (data_off ins) 4;
  if (kind =? FD_VOTE_IX_KIND_TOWER_SYNC) || (kind =? FD_VOTE_IX_KIND_TOWER_SYNC_SWITCH) then
    buf ← read payload (data_off ins + 4) (data_sz ins - 4);
    match fd_compact_tower_sync_de timestamp0 buf with
    | None => Ok fail
    | Some serde =>
        let root := if sd_root serde =? ULONG_MAX then 0 else sd_root serde in
        let '(slot, overflow) :=
          match opt_vote_slot with
          | None => (None, false)
          | Some _ => let '(s, o) := add_offsets root (take (Z.to_nat (lockouts_cnt serde)) (lockouts serde)) in (Some s, o)
          end in
        if overflow then Ok (mk_simple_vote 0 opt_identity opt_vote_acct slot)
        else
          vote_acct ← store_opt opt_vote_acct (acct_at txn payload (if signature_cnt txn =? 1 then 1 else 2));
          identity ← store_opt opt_identity (acct_at txn payload 0);
          Ok (mk_simple_vote 1 identity vote_acct slot)
    end
  else Ok fail.

(** ** The vote of a transaction *)

(** The serialised tower of a vote transaction. *)
Definition vote_data (t : transaction) : option (list Z) :=
  match t_instrs t with
  | [a] =>
      let kind := le_val (take 4 (i_data a)) in
      if negb (t_versioned t) && (len (t_signatures t) <=? 2) && bool_decide (t_addrs t !! Z.to_nat (i_program a) = Some vote_program_id) &&
         (4 <=? len (i_data a)) && ((if len (t_signatures t) =? 1 then 2 else 3) <=? len (t_addrs t)) &&
         ((kind =? FD_VOTE_IX_KIND_TOWER_SYNC) || (kind =? FD_VOTE_IX_KIND_TOWER_SYNC_SWITCH))
      then Some (drop 4 (i_data a)) else None
  | _ => None
  end.

Definition vote_slot (serde : fd_compact_tower_sync_serde_t) : Z * bool :=
  add_offsets (if sd_root serde =? ULONG_MAX then 0 else sd_root serde) (take (Z.to_nat (lockouts_cnt serde)) (lockouts serde)).

Definition account (t : transaction) (idx : Z) : list Z := default [] (t_addrs t !! Z.to_nat idx).

(** What the reader of votes should report. *)
Definition vote_result (timestamp0 : Z) (t : transaction) (opt_identity opt_vote_acct : option (list Z)) (opt_vote_slot : option Z) : simple_vote :=
  match vote_data t ≫= fd_compact_tower_sync_de timestamp0 with
  | None => mk_simple_vote 0 opt_identity opt_vote_acct opt_vote_slot
  | Some serde =>
      let slot := (fun _ => (vote_slot serde).1) <$> opt_vote_slot in
      if bool_decide (is_Some opt_vote_slot) && (vote_slot serde).2 then mk_simple_vote 0 opt_identity opt_vote_acct slot
      else mk_simple_vote 1 ((fun _ => account t 0) <$> opt_identity)
             ((fun _ => account t (if len (t_signatures t) =? 1 then 1 else 2)) <$> opt_vote_acct) slot
  end.

Lemma read_sub bs off n x k m : read (bytes bs) off n = Ok x -> 0 <= k -> 0 <= m -> k + m <= n ->
  read (bytes bs) (off + k) m = Ok (take (Z.to_nat m) (drop (Z.to_nat k) x)).
Proof.
  intros H Hk Hm Hn. pose proof (read_inside _ _ _ _ H) as (Ho & _ & Hl). unfold len in Hl. rewrite <- (app_nil_r (bytes bs)) in *.
  rewrite read_bytes in H by lia. injection H as <-. rewrite read_bytes by lia. f_equal.
  rewrite skipn_firstn_comm, drop_drop, take_take. f_equal; [lia|]. f_equal. lia.
Qed.

Lemma concat_lookup k ls i x : 0 <= k -> Forall (byte_string k) ls -> ls !! i = Some x -> take (Z.to_nat k) (drop (Z.to_nat k * i) (concat ls)) = x.
Proof.
  intros Hk H. revert i. induction H as [|y ls [Hy _] _ IH]; intros i Hi; [done|]. unfold len in Hy. destruct i as [|i]; cbn in Hi.
  - injection Hi as ->. rewrite Nat.mul_0_r. cbn [concat]. rewrite drop_0. apply take_app_length'. lia.
  - cbn [concat]. rewrite drop_app_ge by lia. replace (Z.to_nat k * S i - length y)%nat with (Z.to_nat k * i)%nat by lia. by apply IH.
Qed.

Lemma acct_at_ok bs t d idx : transaction_ok t -> describes bs t d -> 0 <= idx < len (t_addrs t) -> acct_at d (bytes bs) idx = Ok (account t idx).
Proof.
  intros Hok D Hi. destruct (d_addrs _ _ _ D) as [Hn Hr]. unfold acct_at, account, FD_TXN_ACCT_ADDR_SZ in *.
  rewrite (read_sub _ _ _ _ _ _ Hr) by lia. f_equal. destruct (lookup_lt_is_Some_2 (t_addrs t) (Z.to_nat idx)) as [x Hx]; [unfold len in Hi; lia|]. rewrite Hx.
  replace (Z.to_nat (idx * 32)) with (Z.to_nat 32 * Z.to_nat idx)%nat by lia. apply (concat_lookup 32); [lia|apply (ok_addr _ Hok)|done].
Qed.

Lemma aget_head {A} (x : A) l : aget (x :: l) 0 = Ok x.
Proof. done. Qed.

(** A transaction with one instruction. *)
Lemma one_instr bs t d : describes bs t d -> instr_cnt d = 1 -> exists a x, t_instrs t = [a] /\ instr d = [x] /\ describes_instr bs a x.
Proof.
  intros D E. destruct (d_counts _ _ _ D) as [Hn _]. rewrite E in Hn. pose proof (d_instrs _ _ _ D) as H.
  destruct (t_instrs t) as [|a [|]]; [done| |unfold len in Hn; simpl in Hn; lia].
  inversion H as [|? x ? ? Hax Hnil Ex]; subst. inversion Hnil; subst. by exists a, x.
Qed.

Lemma several_instrs bs t d : describes bs t d -> instr_cnt d <> 1 -> vote_data t = None.
Proof.
  intros D E. destruct (d_counts _ _ _ D) as [Hn _]. rewrite Hn in E. unfold vote_data. destruct (t_instrs t) as [|a [|]]; [done|by unfold len in E|done].
Qed.

Lemma is_simple_vote_ok bs t d a x : transaction_ok t -> describes bs t d -> t_instrs t = [a] -> instr d = [x] -> describes_instr bs a x ->
  fd_txn_is_simple_vote_transaction d (bytes bs) =
    Ok (negb (t_versioned t) && (len (t_signatures t) <=? 2) && bool_decide (t_addrs t !! Z.to_nat (i_program a) = Some vote_program_id)).
Proof.
  intros Hok D Ea Ex Hx. unfold fd_txn_is_simple_vote_transaction. destruct (d_counts _ _ _ D) as [-> _]. rewrite Ea, Ex. cbn [negb].
  change (negb (len [a] =? 1)) with false. rewrite (d_version _ _ _ D). unfold version.
  destruct (t_versioned t); [done|]. change (negb (FD_TXN_VLEGACY =? FD_TXN_VLEGACY)) with false. destruct (d_sigs _ _ _ D) as [-> _]. cbn [negb andb].
  destruct (Z.ltb_spec 2 (len (t_signatures t))); [by rewrite (proj2 (Z.leb_gt _ _)) by lia|]. rewrite (proj2 (Z.leb_le _ _)) by lia. cbn [andb].
  rewrite aget_head. cbn [mbind res_bind].
  destruct Hx as [Ep _]. pose proof (ok_instr _ Hok) as Hi. rewrite Ea in Hi. apply Forall_cons in Hi as [[Hp _] _].
  rewrite Ep. fold (acct_at d (bytes bs) (i_program a)). rewrite (acct_at_ok bs t d) by (done || lia).
  cbn [mbind res_bind]. f_equal. apply bool_decide_ext. unfold account. destruct (t_addrs t !! Z.to_nat (i_program a)) as [p|] eqn:E.
  - change (default [] (Some p)) with p. split; [by intros ->|by intros [= ->]].
  - exfalso. apply lookup_ge_None in E. unfold len in Hp. lia.
Qed.

Lemma simple_vote_ok (timestamp0 : Z) (bs : list Z) (t : transaction) (d : fd_txn_t) (opt_identity opt_vote_acct : option (list Z)) (opt_vote_slot : option Z) :
  transaction_ok t -> describes bs t d ->
  fd_txn_parse_simple_vote timestamp0 d (bytes bs) opt_identity opt_vote_acct opt_vote_slot = Ok (vote_result timestamp0 t opt_identity opt_vote_acct opt_vote_slot).
Proof.
  intros Hok D. unfold fd_txn_parse_simple_vote, vote_result. destruct (Z.eq_dec (instr_cnt d) 1) as [E1|E1].
  2:{ rewrite (several_instrs _ _ _ D E1). unfold fd_txn_is_simple_vote_transaction. by rewrite (proj2 (Z.eqb_neq (instr_cnt d) 1) E1). }
  destruct (one_instr _ _ _ D E1) as (a & x & Ea & Ex & Hx). rewrite (is_simple_vote_ok bs t d a x) by done. unfold vote_data. rewrite Ea. cbn [mbind res_bind].
  destruct (negb (t_versioned t) && _ && _); cbn [negb andb]; [|done]. rewrite Ex, aget_head. cbn [mbind res_bind].
  destruct Hx as (_ & _ & Hd). pose proof (read_len _ _ _ _ Hd) as El. rewrite <- El in *. destruct (d_sigs _ _ _ D) as [-> _]. destruct (d_addrs _ _ _ D) as [-> _].
  destruct (Z.ltb_spec (len (i_data a)) 4) as [L|L]; [by rewrite (proj2 (Z.leb_gt _ _)) by lia|]. rewrite (proj2 (Z.leb_le 4 _)) by lia. cbn [andb].
  set (req := if len (t_signatures t) =? 1 then 2 else 3). destruct (Z.ltb_spec (len (t_addrs t)) req) as [R|R]; [by rewrite (proj2 (Z.leb_gt _ _)) by lia|].
  rewrite (proj2 (Z.leb_le req _)) by lia. cbn [andb]. unfold load. rewrite <- (Z.add_0_r (data_off x)). rewrite (read_sub _ _ _ _ 0 4 Hd) by lia.
  change (Z.to_nat 0) with 0%nat. change (Z.to_nat 4) with 4%nat. rewrite drop_0. cbn [mbind res_bind]. destruct (_ || _); [|done].
  rewrite Z.add_0_r, (read_sub _ _ _ _ 4 _ Hd) by lia. change (Z.to_nat 4) with 4%nat. rewrite take_ge by (rewrite length_drop; unfold len; lia). cbn [mbind res_bind option_bind].
  destruct (fd_compact_tower_sync_de timestamp0 (drop 4 (i_data a))) as [serde|]; [|done]. fold (vote_slot serde). destruct (vote_slot serde) as [slot o]. cbn [fst snd].
  assert (Hread : forall (p : option (list Z)) idx, 0 <= idx < req -> store_opt p (acct_at d (bytes bs) idx) = Ok ((fun _ => account t idx) <$> p)).
  { intros p idx Hi. unfold store_opt. destruct p; [|done]. by rewrite (acct_at_ok bs t d idx) by (done || lia). }
  subst req. destruct opt_vote_slot as [v|]; cbn [bool_decide decide andb]; [destruct o; [done|]|];
    rewrite !Hread by (destruct (len (t_signatures t) =? 1); lia); done.
Qed.

(** ** Properties *)

(** Of every parsed transaction [fd_txn_parse_simple_vote] reports the vote it
    holds without reading outside of the payload: it answers 1 exactly for
    legacy transactions of at most two signers with a single instruction for
    the vote program whose data is a tower, and then the identity is the first
    account, the vote account the second or third, and the slot the root plus
    the offsets of the lockouts unless their sum overflows. *)
Theorem simple_vote_correct (timestamp0 : Z) (bs : list Z) (t : transaction) (d : fd_txn_t) (opt_identity opt_vote_acct : option (list Z)) (opt_vote_slot : option Z) :
  transaction_ok t -> describes bs t d ->
  fd_txn_parse_simple_vote timestamp0 d (bytes bs) opt_identity opt_vote_acct opt_vote_slot = Ok (vote_result timestamp0 t opt_identity opt_vote_acct opt_vote_slot).
Proof. apply simple_vote_ok. Qed.
