(* ===== verification/VoteTxn.v ===== *)
(** * The vote transaction ([src/choreo/tower/fd_tower.c])

    [fd_tower_to_vote_txn] puts the vote instruction of the tower into a
    transaction; what other validators read when they receive it. *)

From S2P Require Import Prelude Bytes CompactU16 Txn TxnParse TxnFormat TxnCorrect TxnGenerate.
From S2P Require Import TowerVotes TowerSerdes Tower TowerReconcile SimpleVote.

#[local] Open Scope Z_scope.

(** The buffer of the instruction: its kind, the tower, and the rest of the
    local array; and the number of bytes in use. *)
Definition vote_ix (serde : fd_compact_tower_sync_serde_t) : res (mem * Z) :=
  r ← fd_compact_tower_sync_ser serde (FD_TXN_MTU - 4);
  match r with
  | None => Crit
  | Some bs =>
      let buf := bytes (le_bytes 4 FD_VOTE_IX_KIND_TOWER_SYNC ++ bs) in
      Ok (buf ++ uninit (FD_TXN_MTU - len buf), len bs + 4)
  end.

(** The accounts of the transaction when the identity is the vote authority
    and when it is not. *)
Definition vote_accounts (same_addr : bool) (validator_identity vote_authority vote_acc : list Z) : fd_txn_accounts_t :=
  if same_addr then
    mk_accounts 1 0 1 3 (bytes validator_identity) [] (bytes vote_acc) (bytes vote_program_id)
  else
    mk_accounts 2 1 1 4 (bytes validator_identity) (bytes vote_authority) (bytes vote_acc) (bytes vote_program_id).

(** The payload size, the descriptor and the payload of [vote_txn], whose
    contents before are [txn_meta_out] and [txn_out]. *)
Definition fd_tower_to_vote_txn (t : fd_tower_t) (bank_hash block_id recent_blockhash validator_identity vote_authority vote_acc : list Z)
    (timestamp_ : Z) (txn_meta_out : fd_txn_t) (txn_out : mem) : res (Z * fd_txn_t * mem) :=
  tower_sync_serde ← tower_sync_of t bank_hash block_id timestamp_;
  let same_addr := bool_decide (validator_identity = vote_authority) in
  let votes_ := vote_accounts same_addr validator_identity vote_authority vote_acc in
  '(base_sz, meta, p) ← fd_txn_base_generate txn_meta_out txn_out (a_signature_cnt votes_) votes_ (Some (bytes recent_blockhash));
  _ ← FD_TEST (negb (base_sz =? 0));
  '(vote_ix_buf, vote_ix_sz) ← vote_ix tower_sync_serde;
  let ix_accs := if same_addr then [1; 0] else [2; 1] in
  let program_id_ := if same_addr then 2 else 3 in
  fd_txn_add_instr meta p program_id_ (bytes ix_accs) 2 vote_ix_buf vote_ix_sz.

(** ** Offsets and slots *)

Lemma sorted_ascending vs : StronglySorted above (rev vs) -> StronglySorted (fun v w => TowerVotes.slot v < TowerVotes.slot w) vs.
Proof.
  induction vs as [|v vs IH]; [constructor|]. cbn [rev]. intros H. apply StronglySorted_app in H as (Hv & H & _). constructor; [by apply IH|].
  apply Forall_forall. intros w Hw. destruct (Hv w v) as [Hlt _]; [by rewrite list_elem_of_In, <- in_rev, <- list_elem_of_In|by left|done].
Qed.

(** The offsets of a tower add up to the newest slot. *)
Lemma add_offsets_lockouts prev vs : 0 <= prev -> StronglySorted (fun v w => TowerVotes.slot v < TowerVotes.slot w) vs ->
  Forall (fun v => prev <= TowerVotes.slot v <= ULONG_MAX) vs -> add_offsets prev (tower_lockouts prev vs) = (default prev (TowerVotes.slot <$> last vs), false).
Proof.
  intros Hp H. revert prev Hp. induction H as [|v vs _ IH Hv]; intros prev Hp Hb; [done|]. apply Forall_cons in Hb as [Hb1 Hb2]. cbn [tower_lockouts add_offsets offset].
  rewrite u64_small by (unfold is_u64, ULONG_MAX in *; lia). replace (prev + (TowerVotes.slot v - prev)) with (TowerVotes.slot v) by lia.
  rewrite (proj2 (Z.ltb_ge _ _)) by lia. rewrite IH; [by rewrite last_cons; destruct (last vs)|lia|].
  apply Forall_forall. intros w Hw. rewrite Forall_forall in Hb2, Hv. specialize (Hb2 w Hw). specialize (Hv w Hw). lia.
Qed.

(** ** What is sent *)

Section vote.
Context (t : fd_tower_t) (bank_hash block_id recent_blockhash validator_identity vote_authority vote_acc : list Z) (ts : Z).

Let same := bool_decide (validator_identity = vote_authority).
Let serde := sync_message t bank_hash block_id ts.

Definition vote_instruction : instruction :=
  mk_instruction (if same then 2 else 3) (if same then [1; 0] else [2; 1]) (le_bytes 4 FD_VOTE_IX_KIND_TOWER_SYNC ++ encode serde).

(** The transaction, with its signatures. *)
Definition vote_template (sigs : list (list Z)) : transaction :=
  mk_transaction false sigs (if same then 0 else 1) 1
    (if same then [validator_identity; vote_acc; vote_program_id] else [validator_identity; vote_authority; vote_acc; vote_program_id])
    recent_blockhash [] [].

Definition vote_transaction (sigs : list (list Z)) : transaction := with_instrs (vote_template sigs) [vote_instruction].

Context (tower_ok : tower_wf (rev (votes t))) (root_ok : is_u64 (t_root t)) (ts_ok : - 2 ^ 63 <= ts < 2 ^ 63).
Context (bank_hash_ok : byte_string 32 bank_hash) (block_id_ok : byte_string 32 block_id) (blockhash_ok : byte_string 32 recent_blockhash).
Context (identity_ok : byte_string 32 validator_identity) (authority_ok : byte_string 32 vote_authority) (acc_ok : byte_string 32 vote_acc).

Lemma string_length n bs : byte_string (Z.of_nat n) bs -> length bs = n /\ Forall is_byte bs.
Proof. intros [H Hb]. unfold len in H. split; [lia|done]. Qed.

Lemma serde_ok : tower_sync_of t bank_hash block_id ts = Ok serde /\ serde_wf serde.
Proof using tower_ok root_ok ts_ok bank_hash_ok block_id_ok.
  apply tower_sync_ok; [done|done|by apply (string_length 32)|by apply (string_length 32)|done].
Qed.

Lemma program_ok : byte_string 32 vote_program_id.
Proof. split; [done|]. apply (bool_decide_unpack _). vm_compute. exact I. Qed.

Lemma template_wf sigs : len sigs = (if same then 1 else 2) -> Forall (byte_string 64) sigs -> template_ok (vote_template sigs).
Proof using blockhash_ok identity_ok authority_ok acc_ok.
  intros Hn Hs. pose proof program_ok. constructor; cbn [vote_template t_signatures t_ro_signed t_ro_unsigned t_addrs t_blockhash]; try done;
    rewrite ?Hn; unfold FD_TXN_SIG_MAX, FD_TXN_ACCT_ADDR_MAX; destruct same; try (unfold len; simpl; lia); by rewrite ?Forall_cons, ?Forall_nil.
Qed.

Lemma accounts_wf sigs : len sigs = (if same then 1 else 2) ->
  accounts_of (vote_template sigs) (vote_accounts same validator_identity vote_authority vote_acc)
    [validator_identity] (if same then [] else [vote_authority]) [vote_acc] [vote_program_id].
Proof.
  intros Hn. constructor; cbn [vote_template t_signatures t_ro_signed t_ro_unsigned t_addrs]; rewrite ?Hn; destruct same; try done;
    unfold addresses; cbn [vote_accounts signers_w signers_r non_signers_w non_signers_r concat]; rewrite ?app_nil_r; split_and!; (exists []; by rewrite ?app_nil_r).
Qed.

Lemma vote_ix_ok : exists rest, vote_ix serde = Ok (bytes (i_data vote_instruction) ++ rest, len (i_data vote_instruction)) /\ len (i_data vote_instruction) <= 427.
Proof using tower_ok root_ok ts_ok bank_hash_ok block_id_ok.
  destruct serde_ok as [_ Hs]. pose proof (encode_length _ Hs). unfold vote_ix. rewrite ser_encode by (done || (unfold FD_TXN_MTU; lia)). cbn [mbind res_bind].
  cbn [i_data vote_instruction]. rewrite len_app. change (len (le_bytes 4 FD_VOTE_IX_KIND_TOWER_SYNC)) with 4. eexists. split; [do 2 f_equal; lia|unfold len; lia].
Qed.

(** ** Building it *)

Let size (sigs : list (list Z)) : Z := instr_start (vote_template sigs) + len (concat (encode_instr <$> [vote_instruction])).
Let signers : Z := if same then 1 else 2.

Lemma vote_data_len : len (i_data vote_instruction) <= 427.
Proof using tower_ok root_ok ts_ok bank_hash_ok block_id_ok. by destruct vote_ix_ok as (rest & _ & H). Qed.

Lemma vote_size sigs : len sigs = signers -> Forall (byte_string 64) sigs -> instr_start (vote_template sigs) <= 294 /\ 1 <= size sigs <= FD_TXN_MTU.
Proof using tower_ok root_ok ts_ok bank_hash_ok block_id_ok blockhash_ok identity_ok authority_ok acc_ok.
  intros Hn Hs. pose proof (base_length _ (template_wf sigs Hn Hs)) as Hb. pose proof vote_data_len as Hd. unfold size. cbn [fmap list_fmap concat]. rewrite app_nil_r, encode_instr_len.
  assert (Hc : forall v, 0 <= len (cu16 v) <= 3) by (intros v; unfold cu16; repeat case_match; unfold len; simpl; lia).
  pose proof (Hc (len (i_accts vote_instruction))). pose proof (Hc (len (i_data vote_instruction))). pose proof (len_nonneg (i_data vote_instruction)).
  assert (Ha : len (i_accts vote_instruction) = 2) by (cbn [vote_instruction i_accts]; by destruct same). rewrite Ha in *.
  unfold instr_start, message_start, FD_TXN_SIGNATURE_SZ, FD_TXN_MTU in *. rewrite Hb.
  assert (Hs' : len (t_signatures (vote_template sigs)) = if same then 1 else 2) by done.
  assert (Hr : len (t_addrs (vote_template sigs)) = if same then 3 else 4) by (cbn [vote_template t_addrs]; by destruct same). rewrite Hs', Hr. destruct same; lia.
Qed.

(** The template without signatures is that of any signatures. *)
Lemma generated_sigs sigs sigs' xs p m : len sigs = len sigs' -> generated (vote_template sigs) xs p m -> generated (vote_template sigs') xs p m.
Proof.
  intros Hn G. assert (Eb : base_bytes (vote_template sigs') = base_bytes (vote_template sigs)) by (unfold base_bytes; cbn [vote_template t_signatures]; by rewrite Hn).
  assert (Em : message_start (vote_template sigs') = message_start (vote_template sigs)) by (unfold message_start; cbn [vote_template t_signatures]; by rewrite Hn).
  assert (Ei : instr_start (vote_template sigs') = instr_start (vote_template sigs)) by (unfold instr_start; by rewrite Eb, Em).
  destruct G. constructor; rewrite ?Eb, ?Em, ?Ei; try done. cbn [vote_template t_signatures] in *. by rewrite <- Hn.
Qed.

Lemma vote_txn_built meta p sigs : len p = FD_TXN_MTU -> len sigs = signers -> Forall (byte_string 64) sigs ->
  exists m' p', fd_tower_to_vote_txn t bank_hash block_id recent_blockhash validator_identity vote_authority vote_acc ts meta p = Ok (size sigs, m', p') /\
    generated (vote_template sigs) [vote_instruction] p' m' /\ len p' = FD_TXN_MTU.
Proof using tower_ok root_ok ts_ok bank_hash_ok block_id_ok blockhash_ok identity_ok authority_ok acc_ok.
  intros Hp Hn Hs. unfold fd_tower_to_vote_txn. destruct serde_ok as [-> _]. cbn [mbind res_bind]. fold same.
  pose proof (template_wf sigs Hn Hs) as Ht. pose proof (vote_size sigs Hn Hs) as [H1 H2]. assert (Hmtu : FD_TXN_MTU = 1232) by done.
  assert (En : a_signature_cnt (vote_accounts same validator_identity vote_authority vote_acc) = len (t_signatures (vote_template sigs))).
  { cbn [vote_template t_signatures]. rewrite Hn. unfold signers. by destruct same. }
  rewrite En. destruct (base_generate_ok (vote_template sigs) meta p _ (bytes recent_blockhash) [] _ _ _ _ Ht (accounts_wf sigs Hn)) as (m1 & p1 & -> & G1 & L1);
    [by rewrite app_nil_r|lia|]. cbn [mbind res_bind].
  assert (H3 : instr_start (vote_template sigs) - 1 <> 0).
  { unfold instr_start, message_start, FD_TXN_SIGNATURE_SZ. cbn [vote_template t_signatures]. rewrite Hn. unfold signers. pose proof (len_nonneg (base_bytes (vote_template sigs))). destruct same; lia. }
  rewrite (proj2 (Z.eqb_neq _ _)) by done. cbn [negb FD_TEST mbind res_bind]. destruct vote_ix_ok as (rest & -> & Hd). cbn [mbind res_bind].
  destruct (add_instr_ok (vote_template sigs) [] p1 m1 vote_instruction (bytes (i_accts vote_instruction)) [] (bytes (i_data vote_instruction) ++ rest) rest Ht G1)
    as (m2 & p2 & E2 & G2 & L2); [done|unfold len in *; rewrite L1; fold (len p); cbn [app]; unfold size, len in *; lia|by rewrite app_nil_r|done|].
  exists m2, p2. split; [|split; [done|unfold len in *; lia]]. etransitivity; [|exact E2]. cbn [vote_instruction i_accts i_program]. by destruct same.
Qed.

(** ** Receiving it *)

Lemma vote_transaction_ok sigs : len sigs = signers -> Forall (byte_string 64) sigs -> transaction_ok (vote_transaction sigs).
Proof using tower_ok root_ok ts_ok bank_hash_ok block_id_ok blockhash_ok identity_ok authority_ok acc_ok.
  intros Hn Hs. destruct (template_wf sigs Hn Hs) as [A B C D E F G]. destruct serde_ok as [_ Hw]. pose proof (encode_byte _ Hw) as Hb.
  constructor; cbn [vote_transaction with_instrs t_versioned t_signatures t_ro_signed t_ro_unsigned t_addrs t_blockhash t_instrs t_lookups]; try done.
  - change (lookup_total []) with 0. unfold FD_TXN_ACCT_ADDR_MAX in *. lia.
  - right. cbn [vote_template t_addrs]. destruct same; unfold len; simpl; lia.
  - constructor; [|constructor]. unfold instr_ok. cbn [vote_instruction vote_template t_addrs i_program i_accts i_data]. split_and!.
    + destruct same; lia.
    + destruct same; unfold len; simpl; lia.
    + destruct same; repeat constructor; unfold is_byte; lia.
    + apply Forall_app. by split; [apply le_bytes_byte|].
  - constructor; [|constructor]. cbn [vote_instruction vote_template t_addrs i_accts]. destruct same; repeat constructor; unfold len; simpl; lia.
Qed.

Lemma vote_txn_signed m p sigs : len p = FD_TXN_MTU -> len sigs = signers -> Forall (byte_string 64) sigs -> generated (vote_template sigs) [vote_instruction] p m ->
  exists p', memcpy p 1 (bytes (concat sigs)) (FD_TXN_SIGNATURE_SZ * len sigs) = Ok p' /\
    take (Z.to_nat (size sigs)) p' = bytes (encode_txn (vote_transaction sigs)) /\ len (encode_txn (vote_transaction sigs)) = size sigs.
Proof using tower_ok root_ok ts_ok bank_hash_ok block_id_ok blockhash_ok identity_ok authority_ok acc_ok.
  intros Hp Hn Hs G. pose proof (template_wf sigs Hn Hs) as Ht. pose proof (vote_size sigs Hn Hs) as [_ H2]. assert (Hmtu : FD_TXN_MTU = 1232) by done.
  destruct (wrote_memcpy p 1 (bytes (concat sigs)) (concat sigs) (FD_TXN_SIGNATURE_SZ * len sigs)) as (p' & E & W);
    [by rewrite (len_concat _ _ Hs)|lia|rewrite Hn; unfold signers, FD_TXN_SIGNATURE_SZ; destruct same; lia|by exists []; rewrite app_nil_r|].
  exists p'. split; [done|]. pose proof (generated_sign _ _ _ _ _ Ht G W) as G'. destruct W as (Wl & Wr & _). rewrite (len_concat _ _ Hs) in Wr.
  assert (Et : take (Z.to_nat (size sigs)) p' = bytes (encode_txn (vote_transaction sigs))).
  { apply (generated_encode _ _ _ _ Ht G'); [done|done|unfold len in *; rewrite Wl; unfold size, len in *; lia|exact Wr]. }
  split; [done|]. apply (f_equal length) in Et. rewrite length_take, bytes_length in Et. unfold len in *. lia.
Qed.

(** The newest vote. *)
Definition newest_slot : Z := default (sync_root t) (TowerVotes.slot <$> last (votes t)).

Lemma vote_data_ok sigs : len sigs = signers -> vote_data (vote_transaction sigs) = Some (encode serde).
Proof using.
  intros Hn. unfold vote_data. cbn [vote_transaction with_instrs t_instrs t_versioned t_signatures t_addrs vote_template vote_instruction i_program i_data].
  rewrite Hn. assert (H4 : 4 <= len (le_bytes 4 FD_VOTE_IX_KIND_TOWER_SYNC ++ encode serde)) by (rewrite len_app; pose proof (len_nonneg (encode serde)); unfold len at 1; simpl length; lia).
  apply Z.leb_le in H4. rewrite H4, bool_decide_eq_true_2 by (by destruct same). unfold signers. by destruct same.
Qed.

Lemma vote_de ts0 : fd_compact_tower_sync_de ts0 (encode serde) = Some serde.
Proof using tower_ok root_ok ts_ok bank_hash_ok block_id_ok.
  destruct serde_ok as [_ Hs]. unfold fd_compact_tower_sync_de. by rewrite <- (app_nil_r (encode serde)), de_encode.
Qed.

Context (rooted : Forall (fun v => sync_root t <= TowerVotes.slot v) (votes t)).

Lemma vote_slot_ok : vote_slot serde = (newest_slot, false).
Proof using tower_ok root_ok rooted.
  clear signers size.
  unfold vote_slot, serde, sync_message. cbn [sd_root lockouts_cnt lockouts].
  destruct (tower_lockouts_ok (sync_root t) (votes t)) as [_ Hl]. rewrite Nat2Z.id, take_ge by lia.
  assert (Hr : 0 <= sync_root t < ULONG_MAX) by (unfold sync_root, is_u64 in *; destruct (Z.eqb_spec (t_root t) ULONG_MAX); unfold ULONG_MAX in *; lia).
  rewrite (proj2 (Z.eqb_neq (sync_root t) ULONG_MAX)) by lia. unfold newest_slot. destruct tower_ok as [Hs Hv]. rewrite Forall_rev_iff in Hv.
  apply add_offsets_lockouts; [lia|by apply sorted_ascending|]. apply Forall_forall. intros v Hin.
  rewrite Forall_forall in Hv. specialize (Hv v Hin). pose proof (proj1 (Forall_forall _ _) rooted v Hin). unfold vote_ok, ULONG_MAX in *. lia.
Qed.

Lemma vote_result_ok ts0 sigs i0 a0 s0 : len sigs = signers ->
  vote_result ts0 (vote_transaction sigs) (Some i0) (Some a0) (Some s0) = mk_simple_vote 1 (Some validator_identity) (Some vote_acc) (Some newest_slot).
Proof using tower_ok root_ok ts_ok bank_hash_ok block_id_ok rooted.
  intros Hn. unfold vote_result. rewrite (vote_data_ok sigs Hn). cbn [mbind option_bind]. rewrite vote_de, vote_slot_ok. rewrite bool_decide_eq_true_2 by done. cbn [fst snd andb fmap option_fmap option_map].
  unfold account. cbn [vote_transaction with_instrs t_addrs t_signatures vote_template]. rewrite Hn. unfold signers. by destruct same.
Qed.

Lemma instr_start_sigs sigs sigs' : len sigs = len sigs' -> instr_start (vote_template sigs) = instr_start (vote_template sigs').
Proof. intros Hn. unfold instr_start, message_start, base_bytes. cbn [vote_template t_signatures]. by rewrite Hn. Qed.

(** The data of the instruction, in the payload. *)
Lemma vote_payload bs sigs d : describes bs (vote_transaction sigs) d -> instr_cnt d = 1 ->
  exists x, instr d = [x] /\ read (bytes bs) (data_off x + 4) (data_sz x - 4) = Ok (encode serde).
Proof using.
  intros D E1. destruct (one_instr _ _ _ D E1) as (a & x & Ea & Ex & Hx). cbn in Ea. injection Ea as <-. exists x. split; [done|]. destruct Hx as (_ & _ & Hd).
  pose proof (read_len _ _ _ _ Hd) as El. cbn [vote_instruction i_data] in *. rewrite len_app in El. change (len (le_bytes 4 FD_VOTE_IX_KIND_TOWER_SYNC)) with 4 in El.
  pose proof (len_nonneg (encode serde)). rewrite (read_sub _ _ _ _ 4 _ Hd) by lia. f_equal. rewrite drop_app_length' by done. apply take_ge. unfold len in *. lia.
Qed.

End vote.

(** ** Properties *)

(** C25. The vote transaction is understood by whoever receives it: for a well-formed
    tower whose root is not above its votes building it never fails and it fits
    in a packet, and with any signatures filled in the payload is accepted by
    the transaction parser, [fd_txn_parse_simple_vote] reads the identity, the
    vote account and the newest slot of the tower off it, and the instruction
    deserialises to exactly the votes of the tower. *)
Theorem vote_txn_roundtrip (t : fd_tower_t) (bank_hash block_id recent_blockhash validator_identity vote_authority vote_acc : list Z) (ts ts0 : Z)
    (meta : fd_txn_t) (p : mem) (i0 a0 : list Z) (s0 : Z) :
  tower_wf (rev (votes t)) -> is_u64 (t_root t) -> Forall (fun v => sync_root t <= TowerVotes.slot v) (votes t) -> - 2 ^ 63 <= ts < 2 ^ 63 ->
  Forall (byte_string 32) [bank_hash; block_id; recent_blockhash; validator_identity; vote_authority; vote_acc] -> len p = FD_TXN_MTU ->
  exists sz m p', fd_tower_to_vote_txn t bank_hash block_id recent_blockhash validator_identity vote_authority vote_acc ts meta p = Ok (sz, m, p') /\
    1 <= sz <= FD_TXN_MTU /\
    forall sigs, len sigs = (if bool_decide (validator_identity = vote_authority) then 1 else 2) -> Forall (byte_string 64) sigs ->
      exists payload d x b s ret_sz, memcpy p' 1 (bytes (concat sigs)) (64 * len sigs) = Ok payload /\
        fd_txn_parse (take (Z.to_nat sz) payload) sz (Some FD_TXN_MAX_SZ) None = Ok (TxnParse.mk_out ret_sz (Some d) None None) /\ 0 < ret_sz /\
        fd_txn_parse_simple_vote ts0 d (take (Z.to_nat sz) payload) (Some i0) (Some a0) (Some s0)
          = Ok (mk_simple_vote 1 (Some validator_identity) (Some vote_acc) (Some (newest_slot t))) /\
        instr d = [x] /\ read (take (Z.to_nat sz) payload) (data_off x + 4) (data_sz x - 4) = Ok b /\
        fd_compact_tower_sync_de ts0 b = Some s /\ sync_votes (sd_root s) (lockouts s) = votes t.
Proof.
  intros Hwf Hr Hroot Hts Hk Hp. rewrite !Forall_cons in Hk. destruct Hk as (K1 & K2 & K3 & K4 & K5 & K6 & _).
  set (n := if bool_decide (validator_identity = vote_authority) then 1 else 2).
  set (zero := replicate (Z.to_nat n) (replicate 64 0)).
  assert (Hz : len zero = n) by (unfold zero, len; rewrite length_replicate; unfold n; destruct (bool_decide _); done).
  assert (Hzs : Forall (byte_string 64) zero) by (apply Forall_replicate; split; [done|by apply Forall_replicate]).
  destruct (vote_txn_built t bank_hash block_id recent_blockhash validator_identity vote_authority vote_acc ts Hwf Hr Hts K1 K2 K3 K4 K5 K6 meta p zero Hp Hz Hzs)
    as (m & p' & E & G & Hp').
  pose proof (vote_size t bank_hash block_id recent_blockhash validator_identity vote_authority vote_acc ts Hwf Hr Hts K1 K2 K3 K4 K5 K6 zero Hz Hzs) as [_ Hsz].
  do 3 eexists. split; [exact E|]. split; [done|]. intros sigs Hn Hs. fold n in Hn. assert (Hzn : len zero = len sigs) by (by rewrite Hz, Hn).
  rewrite (instr_start_sigs _ _ _ _ _ _ Hzn) in *. apply (generated_sigs _ _ _ _ _ sigs) in G; [|done].
  destruct (vote_txn_signed t bank_hash block_id recent_blockhash validator_identity vote_authority vote_acc ts Hwf Hr Hts K1 K2 K3 K4 K5 K6 m p' sigs Hp' Hn Hs G)
    as (payload & E1 & E2 & E3). cbv zeta in E2, E3.
  pose proof (vote_transaction_ok t bank_hash block_id recent_blockhash validator_identity vote_authority vote_acc ts Hwf Hr Hts K1 K2 K3 K4 K5 K6 sigs Hn Hs) as Hok.
  set (tx := vote_transaction _ _ _ _ _ _ _ _ sigs) in *. pose proof (describe_ok (encode_txn tx) tx [] Hok ltac:(by rewrite app_nil_r)) as D.
  destruct (vote_payload t bank_hash block_id recent_blockhash validator_identity vote_authority vote_acc ts (encode_txn tx) sigs (describe tx) D eq_refl) as (x & Ex & Ed).
  exists payload. rewrite E2, <- E3. do 5 eexists. split; [exact E1|].
  split; [apply parse_complete; [done|rewrite E3; lia|done]|]. split; [unfold footprint; by rewrite (footprint_small _ Hok)|].
  split; [rewrite (simple_vote_ok _ _ tx) by done; f_equal; by apply vote_result_ok|].
  split; [exact Ex|]. split; [exact Ed|]. split; [by apply vote_de|]. cbn [sync_message sd_root lockouts]. apply sync_votes_lockouts.
  destruct Hwf as [_ Hv]. by rewrite Forall_rev_iff in Hv.
Qed.
