(* ===== verification/TowerSwitch.v ===== *)
(** * The switch check ([switch_check] of [src/choreo/tower/fd_tower.c])

    The check walks the fork tree breadth first, looks for leaves on forks that
    conflict with the last vote, and adds up the stake of the voters that are
    locked out on them.  [evidence] says declaratively which voters count; the
    theorem shows that the walk finds exactly them, stops early only with
    enough stake, and leaves the ghost as it was. *)

From Corelib Require Import SpecFloat.
From S2P Require Import Prelude Bits TowerVotes TowerBlocks Ghost GhostInv GhostTree GhostSubtree GhostPublish.
From S2P Require Import TowerLockos TowerStakes Tower TowerRules.

#[local] Open Scope Z_scope.

(** ** Purged blocks *)

(** Another block of the same slot was confirmed. *)
Definition purged (m : gmap Z fd_tower_blk_t) (b : fd_ghost_blk_t) : Prop :=
  exists tb, m !! Ghost.slot b = Some tb /\ confirmed tb = true /\ confirmed_block_id tb <> Ghost.id b.

Lemma is_purged_spec m b :
  is_Some (m !! Ghost.slot b) -> exists r, is_purged m b = Ok r /\ (r = true <-> purged m b).
Proof.
  intros [tb Htb]. unfold is_purged, fd_tower_blocks_query. rewrite Htb. simpl.
  eexists. split; [done|]. rewrite andb_true_iff, negb_true_iff, Z.eqb_neq. split.
  - intros [? ?]. by exists tb.
  - intros (tb' & Htb' & ? & ?). assert (tb' = tb) as -> by congruence. done.
Qed.

(** The lowest common ancestor of two slots. *)
Definition is_lca (m : gmap Z fd_tower_blk_t) (s1 s2 r : Z) : Prop :=
  up m s1 r /\ up m s2 r /\ forall u, up m s1 u -> up m s2 u -> u <= r.

(** ** The evidence *)

Section evidence.
Context (t : fd_tower_t) (g : fd_ghost_t) (total_stake switch_slot vote_slot root_slot : Z).

#[local] Abbreviation p := (blk_pool g).
#[local] Abbreviation m := (blocks t).

(** The blocks below the root that are not purged and not below a purged
    block. *)
Inductive kept : Z -> Prop :=
| kept_root : kept (root g)
| kept_child c cb : p !! c = Some cb -> kept (parent cb) -> ~ purged m cb -> kept c.

(** A kept block all of whose children are purged. *)
Definition valid_leaf (i : Z) : Prop :=
  kept i /\ forall c cb, p !! c = Some cb -> parent cb = i -> purged m cb.

(** A lockout of a voter that the switch slot knows, on a slot above the root
    that is not an ancestor of our last vote. *)
Definition interval_evidence (iv : lockout_interval_t) (v : Z) : Prop :=
  ~ ancestor m vote_slot (TowerLockos.start iv) /\ root_slot < TowerLockos.start iv /\
  exists a, addr iv = Some a /\ stakes_query (stakes t) a switch_slot = Some v.

(** A lockout recorded for the slot [s] that does not end before our last
    vote. *)
Definition lockout_evidence (sentinels : list lockout_interval_t) (s v : Z) : Prop :=
  exists sentinel iv, sentinel ∈ sentinels /\ vote_slot <= TowerLockos.start sentinel /\
    iv ∈ intervals (lockos t) (lockout_interval_key s (TowerLockos.start sentinel)) /\
    interval_evidence iv v.

(** The slot [s] is on another fork than the last vote, and the switch slot
    is not above the point where they part. *)
Definition slot_evidence (s v : Z) : Prop :=
  s <> vote_slot /\ (exists r, is_lca m s vote_slot r /\ ancestor m switch_slot r) /\
  lockout_evidence (intervals (lockos t) (lockout_interval_key s 0)) s v.

Definition evidence (v : Z) : Prop :=
  exists i b, valid_leaf i /\ p !! i = Some b /\ slot_evidence (Ghost.slot b) v.

(** ** The accumulated stake *)

Definition stake_at (v : Z) : Z :=
  match stk_pool (stakes t) !! v with Some e => stk_stake e | None => 0 end.

(** The 64-bit sum, the last counted voter first. *)
Definition stake_sum (l : list Z) : Z := foldr (fun v s => u64 (s + stake_at v)) 0 l.

(** Exactly the voters of [E] are counted and they are not enough. *)
Definition counted (E : Z -> Prop) (acc : switch_acc) : Prop :=
  exists l, NoDup l /\ (forall v, v ∈ l <-> E v) /\ acc = (list_to_set l, stake_sum l) /\
    ratio_gt (stake_sum l) total_stake SWITCH_RATIO = false.

(** Some of the voters of [E] are enough. *)
Definition enough (E : Z -> Prop) : Prop :=
  exists l, NoDup l /\ (forall v, v ∈ l -> E v) /\
    ratio_gt (stake_sum l) total_stake SWITCH_RATIO = true.

Definition outcome (E : Z -> Prop) (r : switch_acc + unit) : Prop :=
  match r with inl acc => counted E acc | inr _ => enough E end.

Lemma counted_ext E E' acc : (forall v, E v <-> E' v) -> counted E acc -> counted E' acc.
Proof using Type.
  intros HE (l & Hnd & Hl & Hacc & Hr). exists l. split_and!; [done| |done..].
  intros v. by rewrite Hl.
Qed.

Lemma enough_mono E E' : (forall v, E v -> E' v) -> enough E -> enough E'.
Proof using Type. intros HE (l & Hnd & Hl & Hr). exists l. split_and!; eauto. Qed.

Lemma outcome_ext E E' r : (forall v, E v <-> E' v) -> outcome E r -> outcome E' r.
Proof using Type.
  intros HE. destruct r; simpl; [by apply counted_ext|]. apply enough_mono. intros v. apply HE.
Qed.

Lemma counted_nil : counted (fun _ => False) (∅, 0).
Proof using Type.
  exists []. split_and!; [constructor|set_solver|done|]. unfold ratio_gt, SWITCH_RATIO. simpl.
  by destruct (double_of total_stake) as [[]|[]| |[]].
Qed.

(** ** The loops over lockouts *)

Context (Hm : blocks_wf m) (Hst : stakes_wf (stakes t)).

Lemma switch_intervals_ok ivs E acc :
  counted E acc -> (forall iv, iv ∈ ivs -> is_Some (addr iv)) ->
  exists r, switch_intervals t total_stake switch_slot vote_slot root_slot ivs acc = Ok r /\
    outcome (fun v => E v \/ exists iv, iv ∈ ivs /\ interval_evidence iv v) r.
Proof using Hm Hst.
  revert E acc. induction ivs as [|iv ivs IH]; intros E acc Hacc Haddr.
  { exists (inl acc). split; [done|]. eapply counted_ext; [|exact Hacc]. set_solver. }
  assert (Hrest : forall E' acc', counted E' acc' ->
    (forall v, (E' v <-> E v \/ interval_evidence iv v)) ->
    exists r, switch_intervals t total_stake switch_slot vote_slot root_slot ivs acc' = Ok r /\
      outcome (fun v => E v \/ exists iv', iv' ∈ iv :: ivs /\ interval_evidence iv' v) r).
  { intros E' acc' Hc HE. destruct (IH E' acc' Hc) as (r & Er & Ho); [set_solver|].
    exists r. split; [done|]. eapply outcome_ext; [|exact Ho]. intros v. simpl.
    rewrite HE. set_solver. }
  cbn [switch_intervals]. unfold fd_tower_blocks_is_slot_descendant.
  destruct (is_ancestor_spec m Hm vote_slot (TowerLockos.start iv)) as (sf & -> & Hsf).
  cbn [mbind res_bind].
  assert (Hskip : (forall v, ~ interval_evidence iv v) ->
    forall v, E v <-> E v \/ interval_evidence iv v) by (intros Hno v; specialize (Hno v); tauto).
  destruct (negb sf && (root_slot <? TowerLockos.start iv)) eqn:Eg.
  2:{ apply (Hrest E acc Hacc), Hskip. intros v (Hna & Hr & _). rewrite <- Hsf in Hna.
      apply andb_false_iff in Eg. rewrite negb_false_iff, Z.ltb_ge in Eg. destruct Eg; [tauto|lia]. }
  apply andb_true_iff in Eg as [Hn Hroot]. rewrite negb_true_iff in Hn. apply Z.ltb_lt in Hroot.
  destruct (Haddr iv) as [a Ha]; [set_solver|]. rewrite Ha. cbn [deref mbind res_bind].
  destruct (stakes_query (stakes t) a switch_slot) as [v|] eqn:Eq.
  2:{ apply (Hrest E acc Hacc), Hskip. intros v (_ & _ & a' & Ha' & Hq). congruence. }
  assert (Hev : forall v', interval_evidence iv v' <-> v' = v).
  { intros v'. split.
    - intros (_ & _ & a' & Ha' & Hq). congruence.
    - intros ->. split; [rewrite <- Hsf; congruence|]. split; [done|]. eauto. }
  destruct Hacc as (l & Hnd & Hl & -> & Hr).
  destruct (decide (v ∈ (list_to_set l : gset Z))) as [Hin|Hin]; rewrite elem_of_list_to_set in Hin.
  { apply (Hrest E); [by exists l|]. intros v'. rewrite Hev. split; [tauto|].
    intros [?| ->]; [done|]. by apply Hl. }
  destruct (proj1 (kw_map _ Hst a switch_slot v) Eq) as (e & He & _). rewrite He.
  cbn [deref mbind res_bind].
  assert (Es : u64 (stake_sum l + stk_stake e) = stake_sum (v :: l)).
  { simpl. unfold stake_at. by rewrite He. }
  rewrite Es. destruct (ratio_gt (stake_sum (v :: l)) _ _) eqn:Er.
  - exists (inr tt). split; [done|]. exists (v :: l). split_and!; [by apply NoDup_cons| |done].
    intros v' [->|Hv']%elem_of_cons; [right|left; by apply Hl].
    exists iv. split; [set_solver|]. by apply Hev.
  - apply (Hrest (fun v' => v' = v \/ E v')).
    + exists (v :: l). split_and!; [by apply NoDup_cons| |done|done].
      intros v'. by rewrite elem_of_cons, Hl.
    + intros v'. rewrite Hev. tauto.
Qed.

(** The voter of every interval under an end recorded for a block of the tree
    is known. *)
Definition addrs_ok : Prop :=
  forall i b e iv, p !! i = Some b -> e ∈ ends (lockos t) (Ghost.slot b) ->
    iv ∈ intervals (lockos t) (lockout_interval_key (Ghost.slot b) e) -> is_Some (addr iv).

Context (Haddr : addrs_ok).

Lemma switch_sentinels_ok i b sentinels E acc :
  p !! i = Some b -> let s := Ghost.slot b in
  counted E acc -> (forall x, x ∈ sentinels -> TowerLockos.start x ∈ ends (lockos t) s) ->
  exists r, switch_sentinels t total_stake switch_slot vote_slot root_slot s sentinels acc = Ok r /\
    outcome (fun v => E v \/ lockout_evidence sentinels s v) r.
Proof using Hm Hst Haddr.
  intros Hb s. revert E acc.
  induction sentinels as [|x sentinels IH]; intros E acc Hacc Hends; cbn [switch_sentinels].
  { exists (inl acc). split; [done|]. eapply counted_ext; [|exact Hacc].
    unfold lockout_evidence. set_solver. }
  assert (Hrest : forall E' acc', counted E' acc' ->
    (forall v, E' v <-> E v \/ lockout_evidence [x] s v) ->
    exists r, switch_sentinels t total_stake switch_slot vote_slot root_slot s sentinels acc' = Ok r /\
      outcome (fun v => E v \/ lockout_evidence (x :: sentinels) s v) r).
  { intros E' acc' Hc HE. destruct (IH E' acc' Hc) as (r & Er & Ho); [set_solver|].
    exists r. split; [done|]. eapply outcome_ext; [|exact Ho]. intros v. simpl.
    rewrite HE. unfold lockout_evidence. set_solver. }
  destruct (Z.ltb_spec (TowerLockos.start x) vote_slot) as [Hlt|Hge].
  { apply (Hrest E acc Hacc). intros v. split; [tauto|]. intros [?|(y & iv & Hy & Hle & _)]; [done|].
    apply list_elem_of_singleton in Hy as ->. lia. }
  destruct (switch_intervals_ok (intervals (lockos t) (lockout_interval_key s (TowerLockos.start x))) E acc)
    as (r & -> & Ho); [done| |].
  { intros iv. apply (Haddr i); [done|]. apply Hends. set_solver. }
  cbn [mbind res_bind].
  assert (HE : forall v, E v \/ (exists iv, iv ∈ intervals (lockos t) (lockout_interval_key s (TowerLockos.start x)) /\
      interval_evidence iv v) <-> E v \/ lockout_evidence [x] s v).
  { intros v. unfold lockout_evidence. split.
    - intros [?|(iv & Hiv & He)]; [by left|right]. exists x, iv. set_solver.
    - intros [?|(y & iv & Hy & _ & Hiv & He)]; [by left|right]. exists iv. set_solver. }
  destruct r as [acc'|[]].
  - eapply Hrest; [exact Ho|exact HE].
  - exists (inr tt). split; [done|]. eapply enough_mono; [|exact Ho]. intros v [?|(iv & Hiv & He)]; [by left|right].
    exists x, iv. set_solver.
Qed.

Lemma switch_candidate_ok i b E acc :
  p !! i = Some b -> let s := Ghost.slot b in
  counted E acc -> is_Some (m !! s) -> is_Some (m !! vote_slot) ->
  exists r, switch_candidate t total_stake switch_slot vote_slot root_slot s acc = Ok r /\
    outcome (fun v => E v \/ slot_evidence s v) r.
Proof using Hm Hst Haddr.
  intros Hb s Hacc Hs Hv. unfold switch_candidate.
  destruct (lca_spec m Hm s vote_slot Hs Hv) as (lca & -> & Hlca). cbn [mbind res_bind].
  assert (Hskip : (forall v, ~ slot_evidence s v) -> exists r, Ok (inl acc) = Ok r /\
    outcome (fun v => E v \/ slot_evidence s v) r).
  { intros Hno. exists (inl acc). split; [done|]. eapply counted_ext; [|exact Hacc].
    intros v. specialize (Hno v). tauto. }
  destruct (Z.eqb_spec s vote_slot) as [Hsv|Hne].
  { apply Hskip. intros v (? & _). done. }
  destruct (Z.eqb_spec lca ULONG_MAX) as [->|Hmax].
  { apply Hskip. intros v (_ & (r & (H1 & H2 & _) & _) & _).
    destruct Hlca as [(? & _)|(_ & Hno)]; [done|]. by apply (Hno r). }
  destruct Hlca as [(_ & H1 & H2 & Hle)|(? & _)]; [|done].
  unfold fd_tower_blocks_is_slot_descendant.
  destruct (is_ancestor_spec m Hm switch_slot lca) as (d & -> & Hd). cbn [mbind res_bind].
  assert (Huniq : forall r, is_lca m s vote_slot r -> r = lca).
  { intros r (Hr1 & Hr2 & Hr3). pose proof (Hle r Hr1 Hr2). pose proof (Hr3 lca H1 H2). lia. }
  destruct d.
  - destruct (switch_sentinels_ok i b (intervals (lockos t) (lockout_interval_key s 0)) E acc)
      as (r & Er & Ho); [done|done| |].
    { intros x Hx. unfold ends. by apply list_elem_of_fmap_2. }
    fold s in Er. rewrite Er. exists r. split; [done|]. eapply outcome_ext; [|exact Ho]. intros v. simpl. unfold slot_evidence.
    split; [|tauto]. intros [?|He]; [by left|right]. split; [done|]. split; [|done].
    exists lca. split; [done|]. by apply Hd.
  - apply Hskip. intros v (_ & (r & Hr & Ha) & _). rewrite (Huniq r Hr), <- Hd in Ha. done.
Qed.

(** ** The walk *)

(** Every block of the fork tree has metadata under its slot. *)
Definition slots_known : Prop := forall i b, p !! i = Some b -> is_Some (m !! Ghost.slot b).

Context (Hg : ghost_wf g) (Hslots : slots_known) (Hvote : is_Some (m !! vote_slot)).

(** The children that are not purged. *)
Definition kept_children (l l' : list Z) : Prop :=
  NoDup l' /\ forall c, c ∈ l' <-> c ∈ l /\ exists cb, p !! c = Some cb /\ ~ purged m cb.

Lemma switch_children_loop c l im queue leaf n :
  sibs p c l -> (length l < n)%nat ->
  exists l', kept_children l l' /\
    loop (switch_children_step t p) n (c, im, queue, leaf) =
      Ok (unmap p l' im, queue ++ l', leaf && bool_decide (l' = [])).
Proof using All.
  intros H. revert im queue leaf n.
  induction H as [|c b l Hc Hb Hl IH]; intros im queue leaf n Hn;
    (destruct n as [|n]; [simpl in *; lia|]); rewrite loop_S; unfold switch_children_step at 1.
  - rewrite Z.eqb_refl. exists []. simpl. rewrite app_nil_r, andb_true_r. split; [|done].
    split; [constructor|set_solver].
  - rewrite (proj2 (Z.eqb_neq _ _)) by done. unfold blk_at. rewrite Hb. cbn [deref mbind res_bind].
    pose proof (sibs_nodup _ _ _ (sibs_cons _ _ _ _ Hc Hb Hl)) as [Hcl _]%NoDup_cons.
    destruct (is_purged_spec m b) as (r & -> & Hr); [by eapply Hslots|]. cbn [mbind res_bind]. simpl in Hn.
    destruct r.
    + destruct (IH im queue leaf n) as (l' & [Hnd Hl'] & ->); [lia|]. exists l'. split; [|done].
      split; [done|]. intros d. rewrite Hl', elem_of_cons. split; [tauto|].
      intros [[->|Hd] (cb & Hcb & Hp)]; [|eauto]. assert (cb = b) as -> by congruence. tauto.
    + destruct (IH (delete (Ghost.id b) im) (queue ++ [c]) false n) as (l' & [Hnd Hl'] & ->); [lia|].
      exists (c :: l'). split.
      * split; [apply NoDup_cons; split; [rewrite Hl'; tauto|done]|].
        intros d. rewrite !elem_of_cons, Hl'. split.
        -- intros [->|[? ?]]; [|tauto]. split; [by left|]. exists b. split; [done|]. rewrite <- Hr. done.
        -- intros [[->|Hd] ?]; [by left|by right].
      * simpl. rewrite Hb, unmap_delete, <- app_assoc, andb_false_r. done.
Qed.

Record switch_inv (V Q : list Z) : Prop := mk_switch_inv {
  si_bfs : bfs_inv g (root g) V Q;
  si_kept : forall x, x ∈ V ++ Q -> kept x;
  si_closed : forall c cb, p !! c = Some cb -> parent cb ∈ V -> ~ purged m cb -> c ∈ V ++ Q;
  si_root : root g ∈ V ++ Q;
}.

(** The evidence from the visited blocks. *)
Definition seen (V : list Z) (v : Z) : Prop :=
  exists i b, i ∈ V /\ valid_leaf i /\ p !! i = Some b /\ slot_evidence (Ghost.slot b) v.

Lemma switch_next V h Q hb l l' :
  switch_inv V (h :: Q) -> p !! h = Some hb -> kept_children l l' ->
  (forall j, j ∈ l <-> exists bj, p !! j = Some bj /\ parent bj = h) ->
  switch_inv (V ++ [h]) (Q ++ l').
Proof using All.
  intros I Hh [Hnd Hl'] Hin.
  assert (Hch : forall c, c ∈ l' -> exists cb, p !! c = Some cb /\ parent cb = h /\ ~ purged m cb).
  { intros c [(cb & Hc & Ep)%Hin (cb' & Hc' & Hp)]%Hl'. assert (cb' = cb) as -> by congruence. eauto. }
  assert (Happ : (V ++ [h]) ++ Q ++ l' = (V ++ h :: Q) ++ l') by (rewrite <- !app_assoc; done).
  split.
  - eapply bfs_visit; [done|apply I|done|]. intros c Hc. destruct (Hch c Hc) as (cb & ? & ? & _). eauto.
  - rewrite Happ. intros x [Hx|Hx]%elem_of_app; [by apply (si_kept _ _ I)|].
    destruct (Hch x Hx) as (cb & Hc & Ep & Hp). eapply kept_child; [done| |done].
    rewrite Ep. apply (si_kept _ _ I). set_solver.
  - rewrite Happ. intros c cb Hc [Hp|Hp]%elem_of_app Hnp.
    + pose proof (si_closed _ _ I c cb Hc Hp Hnp). set_solver.
    + apply list_elem_of_singleton in Hp. apply elem_of_app. right. apply Hl'.
      split; [apply Hin|]; eauto.
  - rewrite Happ. pose proof (si_root _ _ I). set_solver.
Qed.

(** The head is a valid leaf exactly when no child was queued. *)
Lemma switch_leaf V h Q hb l l' :
  switch_inv V (h :: Q) -> p !! h = Some hb -> kept_children l l' ->
  (forall j, j ∈ l <-> exists bj, p !! j = Some bj /\ parent bj = h) ->
  (forall c cb, p !! c = Some cb -> purged m cb \/ ~ purged m cb) ->
  valid_leaf h <-> l' = [].
Proof using All.
  intros I Hh [Hnd Hl'] Hin Hdec. split.
  - intros [_ Hall]. destruct l' as [|c l']; [done|].
    destruct (proj1 (Hl' c)) as [Hc (cb & Hcb & Hp)]; [set_solver|].
    apply Hin in Hc as (cb' & Hcb' & Ep). assert (cb' = cb) as -> by congruence.
    destruct Hp. by eapply Hall.
  - intros ->. split; [apply (si_kept _ _ I); set_solver|]. intros c cb Hcb Ep.
    destruct (Hdec c cb Hcb) as [?|Hp]; [done|]. exfalso.
    apply (not_elem_of_nil c). apply Hl'. split; [apply Hin|]; eauto.
Qed.

Lemma purged_dec c cb : p !! c = Some cb -> purged m cb \/ ~ purged m cb.
Proof using All.
  intros Hc. destruct (is_purged_spec m cb (Hslots c cb Hc)) as ([] & _ & Hr); [left|right]; rewrite <- Hr; done.
Qed.

Lemma requeue_ok Q V im :
  bfs_inv g (root g) V Q -> unqueued g Q im -> requeue p Q im = Ok (blk_map g).
Proof using All.
  intros I Hu. pose proof (bi_nodup _ _ _ _ I) as Hnd. apply NoDup_app in Hnd as (_ & _ & Hnd).
  assert (Hacq : forall x, x ∈ Q -> is_Some (p !! x)).
  { intros x Hx. eapply below_acquired, (bi_below _ _ _ _ I). set_solver. }
  clear I. revert im Hu. induction Q as [|h Q IH]; intros im Hu; simpl.
  - by rewrite (unqueued_nil _ Hg (root g) _ Hu).
  - destruct (Hacq h) as [hb Hh]; [set_solver|]. unfold blk_at. rewrite Hh. cbn [deref mbind res_bind].
    apply NoDup_cons in Hnd as [Hnq Hnd]. apply IH; [done|set_solver|]. by apply unqueued_requeue.
Qed.

Lemma seen_snoc V h hb v :
  p !! h = Some hb ->
  seen (V ++ [h]) v <-> seen V v \/ (valid_leaf h /\ slot_evidence (Ghost.slot hb) v).
Proof using All.
  intros Hh. unfold seen. split.
  - intros (i & b & [Hi|Hi]%elem_of_app & Hleaf & Hb & He); [left; eauto 10|right].
    apply list_elem_of_singleton in Hi as ->. assert (b = hb) as -> by congruence. done.
  - intros [(i & b & Hi & ?)|[Hleaf He]]; [exists i, b|exists h, hb]; split; [set_solver|done|set_solver|done].
Qed.

Lemma switch_step_ok V h Q im acc :
  switch_inv V (h :: Q) -> unqueued g (h :: Q) im -> counted (seen V) acc ->
  (exists Q' im' acc',
     switch_step t total_stake switch_slot vote_slot root_slot p (fuel g) (im, h :: Q, acc) =
       Ok (inl (im', Q', acc')) /\
     switch_inv (V ++ [h]) Q' /\ unqueued g Q' im' /\ counted (seen (V ++ [h])) acc') \/
  (switch_step t total_stake switch_slot vote_slot root_slot p (fuel g) (im, h :: Q, acc) =
     Ok (inr (blk_map g, true)) /\ enough evidence).
Proof using All.
  intros I Hu Hacc.
  assert (is_Some (p !! h)) as [hb Hh].
  { eapply below_acquired, (bi_below _ _ _ _ (si_bfs _ _ I)). set_solver. }
  destruct (tw_children _ _ (gw_tree _ Hg) h hb Hh) as (l & Hl & Hin).
  destruct (switch_children_loop (child hb) l im Q true (fuel g) Hl) as (l' & Hk & E);
    [pose proof (sibs_length _ _ _ Hl); unfold fuel; lia|].
  pose proof (switch_next _ _ _ _ _ _ I Hh Hk Hin) as I'.
  pose proof (switch_leaf _ _ _ _ _ _ I Hh Hk Hin purged_dec) as Hleaf.
  assert (Hu' : unqueued g (Q ++ l') (<[Ghost.id hb := h]> (unmap p l' im))).
  { eapply unqueued_visit; [done|apply I|done..|]. intros c Hc. destruct Hk as [_ Hk].
    apply Hk in Hc as [Hc _]. by apply Hin. }
  unfold switch_step, blk_at. rewrite Hh. cbn [deref mbind res_bind]. rewrite E. cbn [mbind res_bind].
  destruct (bool_decide_reflect (l' = [])) as [Hnil|Hnil]; cbn [andb negb].
  - destruct (switch_candidate_ok h hb (seen V) acc Hh Hacc) as (r & -> & Ho);
      [by eapply Hslots|done|]. cbn [mbind res_bind]. destruct r as [acc'|[]].
    + left. eexists _, _, _. split; [done|]. split; [done|]. split; [done|].
      eapply counted_ext; [|exact Ho]. intros v. rewrite seen_snoc by done. tauto.
    + right. rewrite (requeue_ok _ _ _ (si_bfs _ _ I') Hu'). cbn [mbind res_bind]. split; [done|].
      eapply enough_mono; [|exact Ho]. intros v [(i & b & _ & ? & ? & ?)|He]; [exists i, b; auto|].
      exists h, hb. split; [by apply Hleaf|done].
  - left. eexists _, _, _. split; [done|]. split; [done|]. split; [done|].
    eapply counted_ext; [|exact Hacc]. intros v. rewrite seen_snoc by done. tauto.
Qed.

Lemma switch_seen_all V v : switch_inv V [] -> seen V v <-> evidence v.
Proof using All.
  intros I. split.
  - intros (i & b & _ & H). by exists i, b.
  - intros (i & b & [Hk Hall] & Hb & He). exists i, b. split; [|done].
    pose proof (si_root _ _ I) as Hr. pose proof (si_closed _ _ I) as Hc. rewrite app_nil_r in *.
    clear -Hk Hr Hc. induction Hk as [|c cb Hcb Hk IH Hp]; [done|]. by apply (Hc c cb).
Qed.

Lemma switch_loop n V Q im acc :
  switch_inv V Q -> unqueued g Q im -> counted (seen V) acc -> (S (size p) <= n + length V)%nat ->
  exists ok,
    loop (switch_step t total_stake switch_slot vote_slot root_slot p (fuel g)) n (im, Q, acc) =
      Ok (blk_map g, ok) /\
    (if ok then enough evidence else exists acc', counted evidence acc').
Proof using All.
  revert V Q im acc. induction n as [|n IH]; intros V Q im acc I Hu Hacc Hn.
  { pose proof (bfs_size _ Hg _ _ _ (si_bfs _ _ I)). lia. }
  rewrite loop_S. destruct Q as [|h Q].
  - exists false. simpl. rewrite (unqueued_nil _ Hg (root g) _ Hu). split; [done|]. exists acc.
    eapply counted_ext; [|exact Hacc]. intros v. by apply switch_seen_all.
  - destruct (switch_step_ok V h Q im acc I Hu Hacc)
      as [(Q' & im' & acc' & -> & I' & Hu' & Hacc')|[-> He]]; [|by exists true].
    eapply IH; [done..|]. rewrite length_app. simpl. lia.
Qed.
End evidence.

(** ** The property *)

(** What the check needs: a well-formed fork tree whose blocks, like the last
    vote, have metadata, well-formed block and stake maps, voters recorded for
    the lockouts, and an empty scratch set. *)
Record switch_ready (t : fd_tower_t) (g : fd_ghost_t) : Prop := mk_switch_ready {
  sr_ghost : ghost_wf g;
  sr_blocks : blocks_wf (blocks t);
  sr_stakes : stakes_wf (stakes t);
  sr_addrs : addrs_ok t g;
  sr_slots : slots_known t g;
  sr_used : stk_used_acc t = ∅;
}.

Lemma switch_check_spec t g total s v :
  switch_ready t g -> last (votes t) = Some v -> is_Some (blocks t !! vslot v) ->
  exists ok, switch_check t g total s = Ok (ok, t, g) /\
    if (ok : bool) then enough t total (evidence t g s (vslot v) (t_root t))
    else exists acc, counted t total (evidence t g s (vslot v) (t_root t)) acc.
Proof.
  intros [Hg Hm Hst Ha Hs Hu] Hv Hvs. unfold switch_check. rewrite Hv. cbn [deref mbind res_bind].
  destruct (tw_root _ _ (gw_tree _ Hg)) as (rb & Hrb & _). unfold blk_at. rewrite Hrb.
  cbn [deref mbind res_bind]. rewrite (proj2 (gw_map _ Hg (Ghost.id rb) (root g))) by eauto.
  cbn [deref mbind res_bind].
  assert (I : switch_inv t g [] [root g]).
  { split; simpl.
    - apply bfs_start; eauto.
    - intros x ->%list_elem_of_singleton. constructor.
    - intros c cb _ Hc. set_solver.
    - set_solver. }
  destruct (switch_loop t g total s (vslot v) (t_root t) Hm Hst Ha Hg Hs Hvs (fuel g) [] [root g]
              (delete (Ghost.id rb) (blk_map g)) (stk_used_acc t, 0))
    as (ok & E & Hok); [done|by apply unqueued_init| |unfold fuel; simpl; lia|].
  { rewrite Hu. eapply counted_ext; [|apply counted_nil]. intros x. split; [done|]. intros (? & ? & ? & _). set_solver. }
  exists ok. split; [|done]. etrans; [exact (f_equal (fun x => x ≫= _) E)|]. cbn [mbind res_bind].
  rewrite <- Hu. by destruct t, g.
Qed.

(** C4. The switch check always answers, and neither the fork tree nor the tower
    changes.  It answers 1 only when distinct voters with evidence against our
    last vote have, by their 64-bit sum and in double precision, strictly more
    than 38% of the total stake; it answers 0 only when the stake of all the
    voters with evidence is not.  A recorded lockout counts as evidence when it
    ends at our last vote or later ([evidence]).  Both comparisons are those of
    the code (fd_tower.c:564 and 539); its
    comments have them the other way round, at least 38% (fd_tower.c:450) and
    ends after our last vote (fd_tower.c:433), so they disagree exactly at
    equality. *)
Theorem switch_check_correct (t : fd_tower_t) (g : fd_ghost_t) (total s : Z) (v : fd_tower_vote_t) :
  switch_ready t g -> last (votes t) = Some v -> is_Some (blocks t !! vslot v) ->
  exists ok l, switch_check t g total s = Ok (ok, t, g) /\ NoDup l /\
    (forall x, x ∈ l -> evidence t g s (vslot v) (t_root t) x) /\
    ratio_gt (stake_sum t l) total SWITCH_RATIO = ok /\
    (ok = false -> forall x, evidence t g s (vslot v) (t_root t) x -> x ∈ l).
Proof.
  intros Hr Hv Hvs. destruct (switch_check_spec t g total s v Hr Hv Hvs) as ([] & E & H).
  - destruct H as (l & Hnd & Hl & Hrat). exists true, l. by split_and!.
  - destruct H as (acc & l & Hnd & Hl & _ & Hrat). exists false, l.
    split_and!; [done|done|intros x; apply Hl|done|]. intros _ x. apply Hl.
Qed.
