(* ===== verification/TowerVoting.v ===== *)
(** * Choosing and casting a vote ([fd_tower_vote_and_reset] of
    [src/choreo/tower/fd_tower.c])

    The five cases of the vote and reset rules, stated declaratively, and vote
    safety for the whole operation: from a ready state it always returns,
    keeps the votes on one fork, leaves the ghost alone and is ready again. *)

From S2P Require Import Prelude Deque TowerVotes TowerBlocks Ghost GhostInv GhostTree GhostSubtree GhostPublish.
From S2P Require Import TowerLockos TowerStakes Tower TowerRules TowerSwitch.

#[local] Open Scope Z_scope.

(** ** The cases *)

Section choice.
Context (t : fd_tower_t) (g : fd_ghost_t) (best : Z) (bb : fd_ghost_blk_t).
Context (prev : fd_tower_vote_t) (pf : fd_tower_blk_t) (pv : Z).

#[local] Abbreviation p := (blk_pool g).

(** The last vote's block or one of its ancestors is invalid. *)
Definition vote_invalid : Prop :=
  exists k kb, below p k pv /\ p !! k = Some kb /\ valid kb = false.

(** The best block is an ancestor of the last vote's block. *)
Definition rollback : Prop := best <> pv /\ below p best pv.

(** Another block of the last vote's slot was confirmed. *)
Definition sibling_confirmed : Prop :=
  confirmed pf = true /\ voted_block_id pf <> confirmed_block_id pf.

Definition same_fork : Prop :=
  Ghost.slot bb = vslot prev \/ ancestor (blocks t) (Ghost.slot bb) (vslot prev).

(** The evidence against the last vote at the best block's slot. *)
Definition switch_proof : Prop :=
  enough t (total_stake bb) (evidence t g (Ghost.slot bb) (vslot prev) (t_root t)).
Definition no_switch_proof : Prop :=
  exists acc, counted t (total_stake bb) (evidence t g (Ghost.slot bb) (vslot prev) (t_root t)) acc.

Inductive choice_case : choice_t -> Prop :=
| case_rollback :
    vote_invalid -> rollback ->
    choice_case (mk_choice (fd_uchar_set_bit 0 FD_TOWER_FLAG_ANCESTOR_ROLLBACK) best None)
| case_sibling :
    vote_invalid -> ~ rollback -> sibling_confirmed ->
    choice_case (mk_choice (fd_uchar_set_bit 0 FD_TOWER_FLAG_SIBLING_CONFIRMED) best (Some best))
| case_same_fork :
    ~ (vote_invalid /\ (rollback \/ sibling_confirmed)) -> same_fork ->
    choice_case (mk_choice (fd_uchar_set_bit 0 FD_TOWER_FLAG_SAME_FORK) best (Some best))
| case_switch :
    ~ (vote_invalid /\ (rollback \/ sibling_confirmed)) -> ~ same_fork -> switch_proof ->
    choice_case (mk_choice (fd_uchar_set_bit 0 FD_TOWER_FLAG_SWITCH_PASS) best (Some best))
| case_stuck_invalid d :
    vote_invalid -> ~ rollback -> ~ sibling_confirmed -> ~ same_fork -> no_switch_proof ->
    below p pv d -> (forall j, below p pv j -> (depth p j <= depth p d)%nat) ->
    choice_case (mk_choice (fd_uchar_set_bit 0 FD_TOWER_FLAG_SWITCH_FAIL) d None)
| case_stuck b :
    ~ vote_invalid -> ~ same_fork -> no_switch_proof -> best_path p pv b ->
    choice_case (mk_choice (fd_uchar_set_bit 0 FD_TOWER_FLAG_SWITCH_FAIL) b None).

Context (Hr : switch_ready t g) (Hbb : p !! best = Some bb).
Context (Hprev : last (votes t) = Some prev) (Hpf : blocks t !! vslot prev = Some pf).
Context (Hpv : blk_map g !! voted_block_id pf = Some pv).

Lemma pv_acquired : exists pb, p !! pv = Some pb /\ Ghost.id pb = voted_block_id pf.
Proof using All. destruct (proj1 (gw_map _ (sr_ghost _ _ Hr) _ _) Hpv) as (pb & ? & ?). eauto. Qed.

Lemma invalid_ancestor_spec :
  exists a, fd_ghost_invalid_ancestor g pv = Ok a /\ (negb (a =? null) = true <-> vote_invalid).
Proof using All.
  destruct pv_acquired as (pb & Hpb & _). unfold fd_ghost_invalid_ancestor.
  destruct (predicate_ancestor_spec g pv (fun b => negb (valid b)) (sr_ghost _ _ Hr))
    as (a & -> & Hs & Hn); [eauto|].
  exists a. split; [done|]. rewrite negb_true_iff, Z.eqb_neq. split.
  - intros Ha. destruct (Hs Ha) as (b & Hb & Hv & Hbel). exists a, b. by rewrite negb_true_iff in Hv.
  - intros (k & kb & Hbel & Hkb & Hv) ->. specialize (Hn eq_refl k kb Hbel Hkb). by rewrite Hv in Hn.
Qed.

Lemma rollback_spec :
  exists a, (if negb (pv =? best) then fd_ghost_ancestor g pv (Ghost.id bb) else Ok null) = Ok a /\
    (negb (pv =? best) && negb (a =? null) = true <-> rollback).
Proof using All.
  destruct pv_acquired as (pb & Hpb & _). pose proof (sr_ghost _ _ Hr) as Hg. unfold rollback.
  destruct (Z.eqb_spec pv best) as [->|Hne]; simpl.
  { exists null. split; [done|]. split; [done|]. intros [? _]. done. }
  unfold fd_ghost_ancestor.
  destruct (predicate_ancestor_spec g pv (fun b => Ghost.id b =? Ghost.id bb) Hg)
    as (a & -> & Hs & Hn); [eauto|].
  exists a. split; [done|]. rewrite negb_true_iff, Z.eqb_neq. split.
  - intros Ha. destruct (Hs Ha) as (b & Hb & Hid%Z.eqb_eq & Hbel). split; [done|].
    assert (blk_map g !! Ghost.id bb = Some best) by (apply (gw_map _ Hg); eauto).
    assert (blk_map g !! Ghost.id bb = Some a) by (apply (gw_map _ Hg); eauto).
    assert (a = best) as <- by congruence. done.
  - intros [_ Hbel] ->. specialize (Hn eq_refl best bb Hbel Hbb). simpl in Hn.
    by rewrite Z.eqb_refl in Hn.
Qed.

Lemma same_fork_spec :
  exists r, (if Ghost.slot bb =? vslot prev then Ok true
             else fd_tower_blocks_is_slot_ancestor (blocks t) (Ghost.slot bb) (vslot prev)) = Ok r /\
    (r = true <-> same_fork).
Proof using All.
  unfold same_fork, fd_tower_blocks_is_slot_ancestor.
  destruct (Z.eqb_spec (Ghost.slot bb) (vslot prev)) as [E|Hne]; [exists true; tauto|].
  destruct (is_ancestor_spec _ (sr_blocks _ _ Hr) (Ghost.slot bb) (vslot prev)) as (r & -> & Hx).
  exists r. split; [done|]. rewrite Hx. tauto.
Qed.

Lemma choose_spec :
  exists c, choose t g best (vslot prev) = Ok (c, t, g) /\ choice_case c.
Proof using All.
  pose proof (sr_ghost _ _ Hr) as Hg. destruct pv_acquired as (pb & Hpb & _).
  unfold choose, blk_at, fd_tower_blocks_query, fd_ghost_query. rewrite Hbb. cbn [deref mbind res_bind].
  rewrite Hpf. cbn [deref mbind res_bind]. rewrite Hpv. change (default null (Some pv)) with pv.
  destruct invalid_ancestor_spec as (a & E1 & Hinv). rewrite E1. cbn [mbind res_bind].
  destruct rollback_spec as (a2 & E2 & Hroll). rewrite E2. cbn [mbind res_bind].
  set (sib := confirmed pf && negb (voted_block_id pf =? confirmed_block_id pf)).
  assert (Hsib : sib = true <-> sibling_confirmed).
  { unfold sib, sibling_confirmed. by rewrite andb_true_iff, negb_true_iff, Z.eqb_neq. }
  destruct (negb (a =? null) && _) eqn:C1.
  { apply andb_true_iff in C1 as [H1 H2]. eexists. split; [done|].
    apply case_rollback; [by apply Hinv|by apply Hroll]. }
  destruct (negb (a =? null) && sib) eqn:C2.
  { apply andb_true_iff in C2 as [H1 H2]. rewrite H1 in C1. simpl in C1. eexists. split; [done|].
    apply case_sibling; [by apply Hinv| |by apply Hsib]. rewrite <- Hroll. congruence. }
  assert (Hno : ~ (vote_invalid /\ (rollback \/ sibling_confirmed))).
  { intros [Hi [Hro|Hsi]]; apply Hinv in Hi; rewrite Hi in C1, C2; simpl in C1, C2.
    - apply Hroll in Hro. congruence.
    - apply Hsib in Hsi. congruence. }
  destruct same_fork_spec as (sf & E3 & Hsf). rewrite E3. cbn [mbind res_bind]. destruct sf.
  { eexists. split; [done|]. apply case_same_fork; [done|by apply Hsf]. }
  assert (Hns : ~ same_fork) by (rewrite <- Hsf; done).
  destruct (switch_check_spec t g (total_stake bb) (Ghost.slot bb) prev Hr Hprev) as (ok & -> & Hok); [eauto|].
  cbn [mbind res_bind]. destruct ok.
  { eexists. split; [done|]. by apply case_switch. }
  destruct (negb (a =? null)) eqn:Ei.
  - pose proof (proj1 Hinv eq_refl) as Hi. destruct (deepest_run g pv Hg) as (V & d & -> & Hd & I); [eauto|].
    cbn [mbind res_bind]. destruct (deepest_last g Hg pv V d I Hd) as [Hbel Hmax].
    eexists. split; [done|]. apply case_stuck_invalid; (done || tauto).
  - destruct (tw_path _ _ (gw_tree _ Hg) pv) as [l Hl]; [eauto|].
    destruct (best_loop g (fuel g) pv l Hg Hl) as (b & E & Hb); [eauto|unfold fuel; lia|].
    unfold fd_ghost_best. rewrite E. cbn [mbind res_bind]. eexists. split; [done|].
    apply case_stuck; try done. rewrite <- Hinv. done.
Qed.

Lemma choice_reset c : choice_case c ->
  is_Some (p !! ch_reset c) /\ (ch_vote c = None \/ ch_vote c = Some best).
Proof using All.
  destruct pv_acquired as (pb & Hpb & _).
  destruct 1 as [| | | |d ? ? ? ? ? Hbel ?|b ? ? ? Hb]; simpl; split; auto; try (by rewrite Hbb; eauto).
  - by apply below_acquired in Hbel as [_ ?].
  - eapply best_path_acquired; eauto.
Qed.
End choice.

(** ** Vote safety *)

(** The state in which the tower votes: the switch check can run, the tower is
    well formed, the other voters' towers were read from vote accounts, the
    voted slots have metadata, and the last vote's block is in the fork tree. *)
Record voting_ready (t : fd_tower_t) (g : fd_ghost_t) : Prop := mk_voting_ready {
  vr_switch : switch_ready t g;
  vr_tower : tower_ok t;
  vr_voters : Forall voter_ok (vtrs t);
  vr_slots : forall i b, blk_pool g !! i = Some b -> 0 <= Ghost.slot b < 2 ^ 63;
  vr_votes : forall v, v ∈ votes t -> is_Some (blocks t !! vslot v);
  vr_last : forall v b, last (votes t) = Some v -> blocks t !! vslot v = Some b ->
    is_Some (blk_map g !! voted_block_id b);
}.

(** The votes after a push are the new one and earlier ones, and so is the new
    root. *)
Lemma push_spec_slots slot_ s v :
  v ∈ snd (push_spec slot_ s) -> vslot v = slot_ \/ exists w, w ∈ s /\ vslot w = vslot v.
Proof.
  unfold push_spec. destruct (expire_suffix slot_ s) as [t Et].
  destruct (root_pop_prefix (expire slot_ s)) as [t2 Et2].
  destruct (root_pop (expire slot_ s)) as [r s2]. simpl in *.
  intros [->|Hv]%elem_of_cons; [by left|right].
  assert (Hin : vslot v ∈ vslot <$> s2) by (rewrite <- (confirm_slots 0); by apply list_elem_of_fmap_2).
  apply list_elem_of_fmap in Hin as (w & -> & Hw). exists w. split; [|done].
  rewrite Et, Et2. set_solver.
Qed.

Lemma push_spec_root_in slot_ s :
  fst (push_spec slot_ s) = ULONG_MAX \/ exists w, w ∈ s /\ vslot w = fst (push_spec slot_ s).
Proof.
  unfold push_spec. destruct (expire_suffix slot_ s) as [t Et].
  assert (Hr : fst (root_pop (expire slot_ s)) = ULONG_MAX \/
    exists w, w ∈ expire slot_ s /\ vslot w = fst (root_pop (expire slot_ s))).
  { unfold root_pop. destruct (_ =? _); [|by left]. destruct (last (expire slot_ s)) as [w|] eqn:El; [|by left].
    right. exists w. split; [by apply last_Some_elem_of|done]. }
  destruct (root_pop (expire slot_ s)) as [r s2]. simpl in *. destruct Hr as [?|(w & Hw & <-)]; [by left|right].
  exists w. split; [|done]. rewrite Et. set_solver.
Qed.

Lemma blk_at_ok p i b : p !! i = Some b -> blk_at p i = Ok b.
Proof. intros H. unfold blk_at. by rewrite H. Qed.

Section voting.
Context (t : fd_tower_t) (g : fd_ghost_t) (Hv : voting_ready t g).

(** The tower after voting for the ghost block [b]. *)
Definition voted_tower (vs : list fd_tower_vote_t) (b : fd_ghost_blk_t) (tb : fd_tower_blk_t) : fd_tower_t :=
  with_blocks (with_votes t vs) (<[Ghost.slot b := set_voted tb true (Ghost.id b)]> (blocks t)).

Lemma vote_block i b : blk_pool g !! i = Some b -> exists tb, blocks t !! Ghost.slot b = Some tb.
Proof using Hv. intros Hb. by destruct (sr_slots _ _ (vr_switch _ _ Hv) i b Hb) as [tb ?]; eauto. Qed.

(** A vote that passed the lockout check goes through. *)
Lemma cast_vote_total i b :
  blk_pool g !! i = Some b -> lockout_check t (Ghost.slot b) = Ok true ->
  exists vs r hsh rid tb, cast_vote t b = Ok (voted_tower vs b tb, r, hsh, rid) /\
    blocks t !! Ghost.slot b = Some tb /\ push_vote (votes t) (Ghost.slot b) = Ok (vs, r).
Proof using Hv.
  intros Hb Hl. pose proof (vr_tower _ _ Hv) as Hok. destruct (tower_ok_safe t Hok) as [Hs Hlen].
  destruct (vote_block i b Hb) as [tb Htb].
  destruct (lockout_vote_ok t _ Hok (vr_slots _ _ Hv i b Hb) Hl) as (vs & r & E & _ & _ & _ & Hnew).
  pose proof (push_vote_list (votes t) (Ghost.slot b) Hs Hlen Hnew) as E'.
  assert (r = fst (push_spec (Ghost.slot b) (rev (votes t)))) as Hr by congruence.
  exists vs, r, (bank_hash tb). unfold cast_vote. rewrite E. cbn [mbind res_bind].
  unfold fd_tower_blocks_query. rewrite Htb. cbn [deref mbind res_bind].
  destruct (Z.eqb_spec r ULONG_MAX) as [->|Hne]; cbn [negb mbind res_bind].
  { eexists _, tb. split; [done|]. done. }
  destruct (push_spec_root_in (Ghost.slot b) (rev (votes t))) as [?|(w & Hw & Ew)]; [congruence|].
  destruct (vr_votes _ _ Hv w) as [wb Hwb]; [by rewrite elem_of_rev in Hw|].
  assert (exists rb, <[Ghost.slot b := set_voted tb true (Ghost.id b)]> (blocks t) !! r = Some rb) as [rb Hrb].
  { rewrite Hr, <- Ew. destruct (decide (Ghost.slot b = vslot w)) as [->|Hn];
      [rewrite lookup_insert_eq; eauto|]. rewrite lookup_insert_ne by done. eauto. }
  rewrite Hrb. cbn [deref mbind res_bind]. eexists _, tb. done.
Qed.

Lemma can_vote_total c :
  is_Some (blk_pool g !! ch_reset c) -> (forall v, ch_vote c = Some v -> is_Some (blk_pool g !! v)) ->
  exists fl v, can_vote t g c = Ok (fl, v).
Proof using Hv.
  intros _ Hc. unfold can_vote. destruct (ch_vote c) as [v|]; [|eauto].
  destruct (Hc v eq_refl) as [b Hb]. unfold blk_at. rewrite Hb. cbn [deref mbind res_bind].
  pose proof (vr_tower _ _ Hv) as Hok. destruct (tower_ok_safe t Hok) as [Hs Hlen].
  assert (exists l, lockout_check t (Ghost.slot b) = Ok l) as [l ->].
  { destruct (last (votes t)) as [top|] eqn:Et.
    - destruct (lockout_check_spec t (Ghost.slot b) top Hok Et) as (l & ? & _). eauto.
    - unfold lockout_check. rewrite Et. eauto. }
  cbn [mbind res_bind]. destruct l; cbn [negb]; [|eauto].
  assert (exists h, threshold_check t (total_stake b) (Ghost.slot b) = Ok h) as [h ->]
    by (rewrite threshold_check_run by (done || apply Hv); eauto).
  cbn [mbind res_bind]. destruct h; cbn [negb]; [|eauto].
  assert (exists q, propagated_check t (Ghost.slot b) = Ok q) as [q ->].
  { unfold propagated_check, fd_tower_blocks_query. destruct (vote_block v b Hb) as [tb ->].
    destruct (leader tb); [eauto|]. destruct (_ =? _); [eauto|].
    destruct (blocks t !! prev_leader_slot tb); eauto. }
  cbn [mbind res_bind]. destruct q; cbn [negb]; eauto.
Qed.

(** The whole operation returns. *)
Lemma vote_and_reset_run h :
  exists out t', fd_tower_vote_and_reset t g h = Ok (out, t', g) /\
    (t' = t \/ exists i b tb vs r, t' = voted_tower vs b tb /\ blk_pool g !! i = Some b /\
       blocks t !! Ghost.slot b = Some tb /\ push_vote (votes t) (Ghost.slot b) = Ok (vs, r) /\
       lockout_check t (Ghost.slot b) = Ok true).
Proof using Hv.
  pose proof (vr_switch _ _ Hv) as Hsr. pose proof (sr_ghost _ _ Hsr) as Hg.
  destruct (tw_root _ _ (gw_tree _ Hg)) as (rb & Hrb & _).
  destruct (tw_path _ _ (gw_tree _ Hg) (root g)) as [l Hl]; [eauto|].
  destruct (best_loop g (fuel g) (root g) l Hg Hl) as (best & E & Hbest); [eauto|unfold fuel; lia|].
  apply best_path_acquired in Hbest as [bb Hbb]; [|eauto].
  unfold fd_tower_vote_and_reset, fd_ghost_best, fd_ghost_root. rewrite E. cbn [mbind res_bind].
  rewrite (blk_at_ok _ _ _ Hbb). cbn [mbind res_bind].
  destruct (last (votes t)) as [prev|] eqn:Eprev.
  - destruct (vr_votes _ _ Hv prev) as [pf Hpf]; [by apply last_Some_elem_of|].
    destruct (vr_last _ _ Hv prev pf Eprev Hpf) as [pv Hpv].
    destruct (choose_spec t g best bb prev pf pv Hsr Hbb Eprev Hpf Hpv) as (c & -> & Hc).
    cbn [mbind res_bind].
    destruct (choice_reset t g best bb prev pf pv Hsr Hbb Eprev Hpf Hpv c Hc) as [[rsb Hrsb] Hcv].
    destruct (can_vote_total c) as (fl & v & Ecan); [eauto|intros v Ev; destruct Hcv; exists bb; congruence|].
    rewrite Ecan. cbn [mbind res_bind].
    assert (ch_reset c <> null) as Hnn by (intros Hx; rewrite Hx in Hrsb; pose proof (tw_null _ _ (gw_tree _ Hg)); congruence).
    rewrite (proj2 (Z.eqb_neq _ _) Hnn). cbn [negb FD_TEST mbind res_bind]. rewrite (blk_at_ok _ _ _ Hrsb).
    cbn [mbind res_bind]. destruct v as [v|]; [|by eexists _, t; auto].
    apply can_vote_some in Ecan as (Ev & b & Hb & Hlo & _). rewrite (blk_at_ok _ _ _ Hb). cbn [mbind res_bind].
    destruct (cast_vote_total v b Hb Hlo) as (vs & r & hsh & rid & tb & -> & Htb & Hp).
    cbn [mbind res_bind]. eexists _, _. split; [done|]. right. by exists v, b, tb, vs, r.
  - assert (exists lo, lockout_check t (Ghost.slot bb) = Ok lo) as [lo Elo]
      by (unfold lockout_check; rewrite Eprev; eauto).
    rewrite Elo. cbn [mbind res_bind]. destruct lo; cbn [negb]; [|by eexists _, t; auto].
    destruct (cast_vote_total best bb Hbb Elo) as (vs & r & hsh & rid & tb & _ & Htb & Hp).
    unfold fd_tower_blocks_query. rewrite Htb. cbn [deref mbind res_bind]. rewrite Hp. cbn [mbind res_bind].
    eexists _, _. split; [done|]. right. by exists best, bb, tb, vs, r.
Qed.

Lemma voted_lookup vs b tb k :
  blocks t !! Ghost.slot b = Some tb -> is_Some (blocks t !! k) ->
  is_Some (blocks (voted_tower vs b tb) !! k).
Proof using Type.
  intros Htb Hk. simpl. destruct (decide (Ghost.slot b = k)) as [<-|Hne];
    [rewrite lookup_insert_eq; eauto|by rewrite lookup_insert_ne].
Qed.

Lemma voted_tower_ready i b tb vs r :
  blk_pool g !! i = Some b -> blocks t !! Ghost.slot b = Some tb ->
  push_vote (votes t) (Ghost.slot b) = Ok (vs, r) -> lockout_check t (Ghost.slot b) = Ok true ->
  voting_ready (voted_tower vs b tb) g.
Proof using Hv.
  intros Hb Htb Hp Hl. destruct Hv as [[Hg Hbw Hst Ha Hs Hu] Hok Hvt Hsl Hvo Hla].
  destruct (tower_ok_safe t Hok) as [Hsafe Hlen].
  destruct (lockout_vote_ok t _ Hok (Hsl i b Hb) Hl) as (vs' & r' & E & Hwf & Hf & Hlast & Hnew).
  assert (vs' = vs) as -> by congruence. pose proof (push_vote_list _ _ Hsafe Hlen Hnew) as Epush.
  assert (Hvs : vs = rev (snd (push_spec (Ghost.slot b) (rev (votes t))))) by congruence.
  pose proof (set_voted_blocks_wf _ _ _ true (Ghost.id b) Htb Hbw) as Hbw'.
  split; try done.
  - split; try done. intros j bj Hj. apply voted_lookup; [done|]. by apply (Hs j).
  - split; [done|done|]. eapply one_fork_parents; [|exact Hf]. intros k. by apply set_voted_parents.
  - intros v Hin. apply voted_lookup; [done|]. simpl in Hin. rewrite Hvs in Hin.
    rewrite elem_of_rev in Hin. apply push_spec_slots in Hin as [->|(w & Hw & <-)]; [eauto|].
    rewrite elem_of_rev in Hw. by apply Hvo.
  - intros v vb Hlv Hvb. simpl in Hlv, Hvb. assert (v = mk_vote (Ghost.slot b) 1) as -> by congruence.
    simpl in Hvb. rewrite lookup_insert_eq in Hvb. injection Hvb as <-. simpl.
    exists i. apply (gw_map _ Hg). eauto.
Qed.
End voting.

(** A vote is for the block the cases chose. *)
Lemma voted_choice t t' g g' h out prev best c :
  fd_tower_vote_and_reset t g h = Ok (out, t', g') -> last (votes t) = Some prev ->
  fd_ghost_best g (fd_ghost_root g) = Ok best -> choose t g best (vslot prev) = Ok (c, t, g) ->
  vote_slot_out out <> ULONG_MAX -> is_Some (ch_vote c).
Proof.
  intros E Hprev Hbest Hc Hvote. unfold fd_tower_vote_and_reset in E. rewrite Hbest in E.
  cbn [mbind res_bind] in E. apply bind_Ok in E as (bb & _ & E). rewrite Hprev, Hc in E.
  cbn [mbind res_bind] in E. apply bind_Ok in E as ([fl v] & Ev & E).
  apply bind_Ok in E as ([] & _ & E). apply bind_Ok in E as (rb & _ & E).
  destruct v as [v|]; [|injection E as <- <- <-; done].
  apply can_vote_some in Ev as (-> & _). eauto.
Qed.

(** ** Properties *)

(** C3. The vote and reset rules: with votes in the tower the block to vote for and
    the block to reset to are chosen by exactly one of the documented cases.
    If the last vote's block is on an invalid fork, a best block above it is
    only reset to, and a confirmed sibling lets us vote on; otherwise the best
    block is voted for on the same fork, or on another fork with a switch
    proof; without one we stay below our last vote, on the heaviest valid fork
    or, when that is invalid, the deepest one.  The tower and the ghost do not
    change. *)
Theorem choose_correct (t : fd_tower_t) (g : fd_ghost_t) (best pv : Z) (bb : fd_ghost_blk_t)
    (prev : fd_tower_vote_t) (pf : fd_tower_blk_t) :
  switch_ready t g -> blk_pool g !! best = Some bb -> last (votes t) = Some prev ->
  blocks t !! vslot prev = Some pf -> blk_map g !! voted_block_id pf = Some pv ->
  exists c, choose t g best (vslot prev) = Ok (c, t, g) /\ choice_case t g best bb prev pf pv c.
Proof. intros. by apply choose_spec. Qed.


(** C2. A vote that leaves the fork of the last vote: when
    [fd_tower_vote_and_reset] votes for a block that does not descend from the
    last vote, either distinct voters with evidence against the last vote have
    more than 38% of the stake, or the last vote's block is on an invalid fork
    and another block of its slot was confirmed. *)
Theorem fork_switch_needs_proof (t t' : fd_tower_t) (g g' : fd_ghost_t) (h : fd_hash_t)
    (out : fd_tower_out_t) (prev : fd_tower_vote_t) (pf : fd_tower_blk_t) :
  voting_ready t g -> last (votes t) = Some prev -> blocks t !! vslot prev = Some pf ->
  fd_tower_vote_and_reset t g h = Ok (out, t', g') -> vote_slot_out out <> ULONG_MAX ->
  ~ ancestor (blocks t) (vote_slot_out out) (vslot prev) ->
  exists bb pv, blk_map g !! vote_block_id out = Some bb /\ blk_map g !! voted_block_id pf = Some pv /\
    ((exists b, blk_pool g !! bb = Some b /\ switch_proof t g b prev) \/
     (vote_invalid g pv /\ sibling_confirmed pf)).
Proof.
  intros Hv Hprev Hpf E Hvote Hna. pose proof (vr_switch _ _ Hv) as Hsr.
  destruct (vr_last _ _ Hv prev pf Hprev Hpf) as [pv Hpv].
  pose proof (tk_blocks _ (vr_tower _ _ Hv)) as Hbw.
  destruct (vote_and_reset_cases t g h out t' g' Hbw E)
    as (_ & _ & _ & _ & best & bb & Hbest & Hbb & [(Hm & _)|(Hcast & Hsl & Hid & _)]); [done|].
  exists best, pv. split; [rewrite Hid; apply (gw_map _ (sr_ghost _ _ Hsr)); eauto|]. split; [done|].
  destruct (choose_spec t g best bb prev pf pv Hsr Hbb Hprev Hpf Hpv) as (c & Ec & Hc).
  assert (Hnew : vslot prev < Ghost.slot bb).
  { destruct Hcast as (_ & Hl & _). rewrite Hsl in Hl.
    destruct (lockout_check_spec t (Ghost.slot bb) prev (vr_tower _ _ Hv) Hprev) as (b & Eb & Hb).
    assert (b = true) as -> by congruence. by apply Hb. }
  destruct (voted_choice t t' g g' h out prev best c E Hprev Hbest Ec Hvote) as [v Hcv].
  rewrite Hsl in Hna. destruct Hc as [| |_ [Hs|Hs]| | |]; simpl in Hcv; try done; [by right|lia|].
  left. eauto.
Qed.
