(* ===== verification/TowerExample.v ===== *)
(** * A concrete voting state

    The fork tree 1 - 2 - {3 - 4, 5 - 9}: we voted for 1, 2 and 3, most of the
    stake is on 9.  The instances of the tower properties are evaluated here;
    in this state the tower switches forks. *)

From S2P Require Import Prelude Txn TxnParse TxnFormat TxnCorrect TxnGenerate SimpleVote VoteTxn.
From S2P Require Import Deque Bytes TowerVotes TowerBlocks Ghost GhostInv GhostTree GhostSubtree GhostPublish GhostReach.
From S2P Require Import TowerSerdes TowerLockos TowerStakes Tower TowerRules TowerReconcile TowerSwitch TowerVoting.

#[local] Open Scope Z_scope.

(** ** The fork tree *)

Definition fork_tree : fd_ghost_t := Eval vm_compute in
  ok_or default_ghost ('(g, _) ← fd_ghost_insert ghost_tree 0 9 109 105; Ok g).

(** The stakes the replay reports are stored in the new block by the caller. *)
Definition fork_staked : fd_ghost_t := Eval vm_compute in
  match blk_pool fork_tree !! 5 with
  | Some b => with_pool fork_tree
      (<[5 := mk_gblk (Ghost.id b) (Ghost.slot b) (parent b) (child b) (sibling b) (stake b) 100 (valid b) (bank_seq b)]>
         (blk_pool fork_tree))
  | None => fork_tree
  end.

Definition fork_ghost : fd_ghost_t := Eval vm_compute in
  ok_or default_ghost ('(_, g) ← fd_ghost_count_vote fork_staked 5 7 60 9; Ok g).

Lemma fork_tree_wf : ghost_wf fork_tree.
Proof. eapply (insert_keeps ghost_tree 0 9 109 105); [apply ghost_tree_wf|done|vm_compute; reflexivity]. Qed.

Lemma fork_staked_wf : ghost_wf fork_staked.
Proof.
  destruct (blk_pool fork_tree !! 5) as [b|] eqn:Eb; [|discriminate].
  assert (E : fork_staked = with_pool fork_tree (<[5 := mk_gblk (Ghost.id b) (Ghost.slot b) (parent b) (child b)
    (sibling b) (stake b) 100 (valid b) (bank_seq b)]> (blk_pool fork_tree))).
  { revert Eb. vm_compute. by intros [= <-]. }
  rewrite E. apply ghost_wf_revalid; [apply fork_tree_wf|by eapply same_shape_insert|].
  intros i b1 b2 H1 [[<- <-]|[_ H2]]%lookup_insert_Some; simpl; congruence.
Qed.

Lemma fork_ghost_wf : ghost_wf fork_ghost.
Proof.
  eapply (count_vote_keeps fork_staked 5 7 60 9 FD_GHOST_SUCCESS); [apply fork_staked_wf| | | |];
    vm_compute; eauto; done.
Qed.

(** ** The tower *)

Definition fork_blocks : gmap Z fd_tower_blk_t :=
  let b s p v := mk_blk s p 0 0 0 true (100 + s) v (100 + s) false 0 false false ULONG_MAX in
  list_to_map [(1, b 1 ULONG_MAX true); (2, b 2 1 true); (3, b 3 2 true); (4, b 4 3 false);
               (5, b 5 2 false); (9, b 9 5 false)].

Definition fork_lockos : lockos_t := Eval vm_compute in
  ok_or (mk_lockos ∅ 0) (fd_tower_lockos_insert (mk_lockos ∅ 100) 9 7 [mk_vote 5 2; mk_vote 9 1]).

Definition fork_stakes : stakes_t := Eval vm_compute in
  ok_or (mk_stakes ∅ [] ∅ ∅ 0)
    ('(st, _) ← fd_tower_stakes_insert (mk_stakes ∅ [0; 1; 2] ∅ ∅ 4) 9 7 60 ULONG_MAX; Ok st).

Definition fork_tower : fd_tower_t :=
  mk_tower [mk_vote 1 3; mk_vote 2 2; mk_vote 3 1] 0 16 4 fork_blocks
    [mk_tower_vtr 7 60 [mk_vote 5 2; mk_vote 9 1] ULONG_MAX] fork_lockos fork_stakes ∅.

(** The switch proof passes and the vote moves to slot 9. *)
Example fork_tower_votes :
  ('(out, t', _) ← fd_tower_vote_and_reset fork_tower fork_ghost 0;
   Ok (flags out, vote_slot_out out, votes t')) =
  Ok (8, 9, [mk_vote 1 3; mk_vote 9 1]).
Proof. vm_compute. reflexivity. Qed.

Lemma fork_blocks_wf : blocks_wf fork_blocks.
Proof.
  assert (H : map_Forall (fun s b => blk_slot b = s /\ 0 <= s < ULONG_MAX /\
                (parent_slot b < s \/ parent_slot b = ULONG_MAX)) fork_blocks)
    by (apply (bool_decide_unpack _); vm_compute; exact I).
  split; intros s b Hb; destruct (H s b Hb) as (? & ? & ?); done.
Qed.

Lemma fork_stakes_wf : stakes_wf fork_stakes.
Proof.
  destruct (stakes_insert_ok (mk_stakes ∅ [0; 1; 2] ∅ ∅ 4) 9 7 60 0 [1; 2]) as (st & E & W & _).
  - split; simpl.
    + intros a s i. split; [done|]. by intros (v & H & _).
    + done.
    + done.
    + split; [by apply (bool_decide_unpack _); vm_compute|].
      intros i Hi. split; [|done]. intros ->. by vm_compute in Hi; set_solver.
  - done.
  - done.
  - done.
  - right. vm_compute. done.
  - vm_compute in E. by injection E as <-.
Qed.

Lemma fork_ready : switch_ready fork_tower fork_ghost.
Proof.
  split.
  - apply fork_ghost_wf.
  - apply fork_blocks_wf.
  - apply fork_stakes_wf.
  - intros i b e iv Hb He Hiv.
    assert (H : map_Forall (fun _ b => Forall (fun e => Forall (fun iv => is_Some (addr iv))
        (intervals fork_lockos (lockout_interval_key (Ghost.slot b) e))) (ends fork_lockos (Ghost.slot b)))
        (blk_pool fork_ghost)) by (apply (bool_decide_unpack _); vm_compute; exact I).
    specialize (H i b Hb). simpl in H. rewrite Forall_forall in H. specialize (H e He).
    rewrite Forall_forall in H. by apply H.
  - assert (H : map_Forall (fun _ b => is_Some (fork_blocks !! Ghost.slot b)) (blk_pool fork_ghost))
      by (apply (bool_decide_unpack _); vm_compute; exact I).
    exact H.
  - done.
Qed.

Lemma fork_tower_ok : tower_ok fork_tower.
Proof.
  split; [|apply fork_blocks_wf|].
  - split; [repeat constructor; simpl; lia|]. apply (bool_decide_unpack _). vm_compute. exact I.
  - assert (Ha : forall s t, is_ancestor fork_blocks s t = Ok true -> ancestor fork_blocks s t).
    { intros s t E. destruct (is_ancestor_spec _ fork_blocks_wf s t) as (r & E' & Hr). apply Hr. congruence. }
    repeat constructor; apply Ha; vm_compute; reflexivity.
Qed.

Lemma fork_voting_ready : voting_ready fork_tower fork_ghost.
Proof.
  split.
  - apply fork_ready.
  - apply fork_tower_ok.
  - apply (bool_decide_unpack _). vm_compute. exact I.
  - assert (H : map_Forall (fun _ b => 0 <= Ghost.slot b < 2 ^ 63) (blk_pool fork_ghost))
      by (apply (bool_decide_unpack _); vm_compute; exact I).
    exact H.
  - assert (H : Forall (fun v => is_Some (fork_blocks !! vslot v)) (votes fork_tower))
      by (apply (bool_decide_unpack _); vm_compute; exact I).
    by rewrite Forall_forall in H.
  - intros v b Hv Hb. simpl in Hv. injection Hv as <-. vm_compute in Hb. injection Hb as <-.
    vm_compute. eauto.
Qed.

(** ** Instances of the properties *)

Lemma lockout_check_safety_witness :
  exists b, lockout_check fork_tower 9 = Ok b /\
    (b = true -> exists votes' r, push_vote (votes fork_tower) 9 = Ok (votes', r) /\
       last votes' = Some (mk_vote 9 1)).
Proof.
  destruct (lockout_check_safety fork_tower 9 fork_tower_ok ltac:(lia)) as (b & E & _ & H).
  exists b. split; [exact E|]. intros Hb. destruct (H Hb) as (vs & r & Ep & _ & _ & Hl).
  exists vs, r. split; [exact Ep|exact Hl].
Defined.

(** Nine votes deep, and two thirds of the stake support the vote at depth
    8, which has slot 2: the third voter's newest vote is expired by slot 10. *)
Definition deep_tower : fd_tower_t :=
  mk_tower ((fun s => mk_vote s (10 - s)) <$> seqZ 1 9) 0 16 4 ∅
    [mk_tower_vtr 7 40 [mk_vote 1 2; mk_vote 9 1] ULONG_MAX; mk_tower_vtr 8 20 [mk_vote 2 5] ULONG_MAX;
     mk_tower_vtr 9 30 [mk_vote 1 9; mk_vote 5 1] ULONG_MAX] fork_lockos fork_stakes ∅.

(** Exactly two thirds are not enough, more are. *)
Lemma threshold_check_correct_witness :
  expire 10 (rev (votes deep_tower)) !! 7%nat = Some (mk_vote 2 8) /\
  sum_stakes (filter (fun a => supports 2 10 a = true) (vtrs deep_tower)) 0 = 60 /\
  threshold_check deep_tower 90 10 = Ok false /\ threshold_check deep_tower 89 10 = Ok true.
Proof.
  assert (Hv : Forall vote_safe (votes deep_tower)) by (apply (bool_decide_unpack _); vm_compute; exact I).
  assert (Hl : Z.of_nat (length (votes deep_tower)) <= FD_TOWER_VOTE_MAX) by (vm_compute; discriminate).
  assert (Ha : Forall voter_ok (vtrs deep_tower)) by (apply (bool_decide_unpack _); vm_compute; exact I).
  split; [vm_compute; reflexivity|]. split; [vm_compute; reflexivity|].
  split; rewrite (threshold_check_correct deep_tower _ 10 Hv Hl Ha); vm_compute; reflexivity.
Defined.

Lemma switch_check_correct_witness :
  exists ok l, switch_check fork_tower fork_ghost 100 9 = Ok (ok, fork_tower, fork_ghost) /\
    ratio_gt (stake_sum fork_tower l) 100 SWITCH_RATIO = ok.
Proof.
  destruct (switch_check_correct fork_tower fork_ghost 100 9 (mk_vote 3 1) fork_ready)
    as (ok & l & E & _ & _ & Hr & _).
  - reflexivity.
  - vm_compute. eauto.
  - exists ok, l. split; [exact E|exact Hr].
Defined.

Definition fork_prev : fd_tower_blk_t := mk_blk 3 2 0 0 0 true 103 true 103 false 0 false false ULONG_MAX.
Definition fork_best : fd_ghost_blk_t := mk_gblk 109 9 4 null null 60 100 true 0.

Lemma choose_correct_witness :
  exists c, choose fork_tower fork_ghost 5 3 = Ok (c, fork_tower, fork_ghost) /\
    choice_case fork_tower fork_ghost 5 fork_best (mk_vote 3 1) fork_prev 2 c.
Proof.
  apply (choose_correct fork_tower fork_ghost 5 2 fork_best (mk_vote 3 1) fork_prev fork_ready);
    vm_compute; reflexivity.
Defined.


Definition fork_result : fd_tower_out_t * fd_tower_t * fd_ghost_t := Eval vm_compute in
  ok_or (mk_out 0 0 0 0 0 0 0 0, fork_tower, fork_ghost) (fd_tower_vote_and_reset fork_tower fork_ghost 0).

Lemma fork_switch_needs_proof_witness :
  exists bb pv, blk_map fork_ghost !! 109 = Some bb /\ blk_map fork_ghost !! 103 = Some pv /\
    ((exists b, blk_pool fork_ghost !! bb = Some b /\ switch_proof fork_tower fork_ghost b (mk_vote 3 1)) \/
     (vote_invalid fork_ghost pv /\ sibling_confirmed fork_prev)).
Proof.
  apply (fork_switch_needs_proof fork_tower (snd (fst fork_result)) fork_ghost (snd fork_result) 0
           (fst (fst fork_result)) (mk_vote 3 1) fork_prev fork_voting_ready).
  - reflexivity.
  - vm_compute. reflexivity.
  - vm_compute. reflexivity.
  - vm_compute. discriminate.
  - intros Ha. destruct (is_ancestor_spec _ fork_blocks_wf 9 3) as (r & E & Hr).
    vm_compute in E. injection E as <-. discriminate (proj2 Hr Ha).
Defined.

Lemma fork_lockos_wf : lockos_wf fork_lockos.
Proof.
  destruct (lockos_insert_ok 9 7 [mk_vote 5 2; mk_vote 9 1] (mk_lockos ∅ 100)) as (l & E & W & _).
  - split.
    + intros k Hk. by destruct Hk.
    + intros s e Hs He. by apply elem_of_nil in He.
    + intros s Hs. apply NoDup_nil_2.
  - unfold half. lia.
  - repeat constructor; unfold vote_safe, expiration, ULONG_MAX; cbn; lia.
  - cbn. lia.
  - vm_compute in E. by injection E as <-.
Qed.

Definition onchain_tower : list fd_tower_vote_t := [mk_vote 5 2; mk_vote 9 1].

Lemma reconcile_correct_witness :
  newer (votes fork_tower) onchain_tower /\
  exists t', fd_tower_reconcile fork_tower onchain_tower 1 = Ok (t', onchain_tower) /\ votes t' = onchain_tower.
Proof.
  assert (Hn : newer (votes fork_tower) onchain_tower).
  { exists (mk_vote 9 1). split; [reflexivity|]. split; [discriminate|].
    intros v Hv. simpl in Hv. injection Hv as <-. reflexivity. }
  split; [exact Hn|].
  destruct (reconcile_correct fork_tower onchain_tower 1) as [_ H].
  - intros v Hv. assert (Ha : Forall (fun v => vslot v <> ULONG_MAX) (votes fork_tower ++ onchain_tower))
      by (apply (bool_decide_unpack _); vm_compute; exact I).
    rewrite Forall_forall in Ha. apply Ha. apply elem_of_app. exact Hv.
  - cbn. lia.
  - right. lia.
  - exact fork_lockos_wf.
  - exact fork_stakes_wf.
  - repeat constructor; cbn; lia.
  - vm_compute. discriminate.
  - apply (vr_votes _ _ fork_voting_ready).
  - assert (Ha : Forall (fun v => is_Some (fork_blocks !! vslot v) /\ 1 < vslot v) onchain_tower)
      by (apply (bool_decide_unpack _); vm_compute; exact I).
    rewrite Forall_forall in Ha. exact Ha.
  - destruct (H Hn) as (t' & E & Hv & _). exists t'. split; [exact E|exact Hv].
Defined.

Lemma vote_instruction_correct_witness :
  exists s bytes, tower_sync_of fork_tower (replicate 32 7) (replicate 32 9) 1700000000 = Ok s /\
    fd_compact_tower_sync_ser s (1232 - 4) = Ok (Some bytes) /\
    sync_votes (sd_root s) (lockouts s) = votes fork_tower.
Proof.
  destruct (vote_instruction_correct fork_tower (replicate 32 7) (replicate 32 9) 1700000000)
    as (s & bytes & E & Es & _ & _ & H).
  - apply (tk_wf _ fork_tower_ok).
  - cbn. unfold is_u64, ULONG_MAX. lia.
  - split; [reflexivity|]. apply (bool_decide_unpack _). vm_compute. exact I.
  - split; [reflexivity|]. apply (bool_decide_unpack _). vm_compute. exact I.
  - lia.
  - exists s, bytes. split; [exact E|]. split; [exact Es|exact H].
Defined.

(** ** The vote transaction *)

Definition example_identity : list Z := replicate 32 1.
Definition example_authority : list Z := replicate 32 2.
Definition example_vote_acc : list Z := replicate 32 3.
Definition example_meta : fd_txn_t := mk_txn 0 0 0 0 0 0 0 0 0 0 0 0 0 [] [].
Definition example_sigs : list (list Z) := [replicate 64 4; replicate 64 5].
Definition example_vote : transaction :=
  vote_transaction fork_tower (replicate 32 7) (replicate 32 9) (replicate 32 6) example_identity example_authority example_vote_acc 1700000000 example_sigs.

Lemma string_replicate n b : is_byte b -> byte_string (Z.of_nat n) (replicate n b).
Proof. intros H. split; [unfold len; by rewrite length_replicate|by apply Forall_replicate]. Qed.

Lemma example_sigs_ok : Forall (byte_string 64) example_sigs.
Proof. repeat (apply Forall_cons; split; [by apply (string_replicate 64)|]). constructor. Qed.

Lemma example_vote_ok : transaction_ok example_vote.
Proof.
  apply vote_transaction_ok; try (by apply (string_replicate 32)); [apply (tk_wf _ fork_tower_ok)|cbn; unfold is_u64, ULONG_MAX; lia|lia|done|apply example_sigs_ok].
Qed.

Lemma simple_vote_correct_witness :
  transaction_ok example_vote /\ describes (encode_txn example_vote) example_vote (describe example_vote) /\
  fd_txn_parse_simple_vote 0 (describe example_vote) (bytes (encode_txn example_vote)) (Some []) (Some []) (Some 0)
    = Ok (mk_simple_vote 1 (Some example_identity) (Some example_vote_acc) (Some 3)).
Proof.
  assert (D : describes (encode_txn example_vote) example_vote (describe example_vote)).
  { apply (describe_ok _ _ []); [apply example_vote_ok|by rewrite app_nil_r]. }
  split; [apply example_vote_ok|]. split; [exact D|].
  rewrite (simple_vote_correct 0 (encode_txn example_vote) example_vote (describe example_vote) (Some []) (Some []) (Some 0) example_vote_ok D).
  vm_compute. reflexivity.
Defined.

Lemma vote_txn_roundtrip_witness :
  exists sz m p', fd_tower_to_vote_txn fork_tower (replicate 32 7) (replicate 32 9) (replicate 32 6) example_identity example_authority example_vote_acc
      1700000000 example_meta (uninit FD_TXN_MTU) = Ok (sz, m, p') /\
    exists payload d, memcpy p' 1 (bytes (concat example_sigs)) 128 = Ok payload /\
      fd_txn_parse_simple_vote 0 d (take (Z.to_nat sz) payload) (Some []) (Some []) (Some 0)
        = Ok (mk_simple_vote 1 (Some example_identity) (Some example_vote_acc) (Some 3)).
Proof.
  destruct (vote_txn_roundtrip fork_tower (replicate 32 7) (replicate 32 9) (replicate 32 6) example_identity example_authority example_vote_acc
              1700000000 0 example_meta (uninit FD_TXN_MTU) [] [] 0) as (sz & m & p' & E & _ & H).
  - apply (tk_wf _ fork_tower_ok).
  - cbn. unfold is_u64, ULONG_MAX. lia.
  - apply (bool_decide_unpack _). vm_compute. exact I.
  - lia.
  - repeat (apply Forall_cons; split; [by apply (string_replicate 32)|]). constructor.
  - unfold len, uninit. by rewrite length_replicate.
  - exists sz, m, p'. split; [exact E|]. destruct (H example_sigs) as (payload & d & _ & _ & _ & _ & E1 & _ & _ & E2 & _); [done|apply example_sigs_ok|].
    exists payload, d. split; [exact E1|exact E2].
Defined.
