(* ===== verification/Replay.v ===== *)
(** * Handing FEC sets to the scheduler ([src/discof/replay/fd_replay_tile.c])

    The replay tile takes FEC sets from the reassembly and inserts them into the
    scheduler.  A FEC set whose parent was not replayed, because it was held
    back as equivocating or its bank is gone, is preceded by everything that is
    missing: the blocks back to the nearest one with a valid bank. *)

From S2P Require Import Prelude Bits Reasm ReasmTree ReasmInv ReasmMark ReasmPlace ReasmInsert ReasmEvict ReasmRun ReasmCorrect ReasmExample.

#[local] Open Scope Z_scope.

Definition FD_BANKS_MAX_BANKS : Z := 4096.

(** ** Model *)

Section replay.
(** The state of the tile apart from the reassembly, with the operations on its
    banks, its scheduler and its store: [bank_dead] and [bank_valid] of a FEC
    set tell whether it is marked dead and whether the bank it is tagged with
    exists and was not recycled; [insert_fec_set] answers whether it failed. *)
Context {ctx : Type}.
Context (bank_dead bank_valid : ctx -> Z -> bool) (can_ingest_cnt : ctx -> Z) (banks_is_full : ctx -> bool).
Context (insert_fec_set : ctx -> Z -> ctx * bool) (drop_dead : ctx -> Z -> ctx).

(** The slot completes above [curr] up to one with a valid bank; [cnt] of them
    were found before. *)
Fixpoint collect (fuel : nat) (P : fecs) (c : ctx) (curr cnt : Z) : res (list Z) :=
  match fuel with
  | O => Hang
  | S n =>
      e ← get P curr;
      match parent e with
      | None => Crit
      | Some p =>
          ep ← get P p;
          if negb (slot_complete (data ep)) then collect n P c p cnt
          else if bank_valid c p then Ok []
          else _ ← FD_TEST (cnt <? FD_BANKS_MAX_BANKS); path ← collect n P c p (cnt + 1); Ok (p :: path)
      end
  end.

(** [slot_fecs], an array of [FD_FEC_BLK_MAX] entries. *)
Fixpoint gather (fuel : nat) (P : fecs) (curr : Z) (slot_fecs : gmap Z Z) : res (gmap Z Z) :=
  match fuel with
  | O => Hang
  | S n =>
      e ← get P curr;
      let j := fec_set_idx (data e) / FD_FEC_SHRED_CNT in
      if FD_FEC_BLK_MAX <=? j then Ub else
      let slot_fecs := <[j := curr]> slot_fecs in
      if fec_set_idx (data e) =? 0 then Ok slot_fecs
      else match parent e with None => Crit | Some p => gather n P p slot_fecs end
  end.

(** The calls of [insert_fec_set] from entry [j] on, [n] of them; the list of the
    calls and whether the last one failed are returned next to the state. *)
Fixpoint insert_slot (slot_fecs : gmap Z Z) (n : nat) (j : Z) (c : ctx) : res (ctx * list Z * bool) :=
  match n with
  | O => Ok (c, [], false)
  | S n =>
      match slot_fecs !! j with
      | None => Ub
      | Some k =>
          let '(c, failed) := insert_fec_set c k in
          if (failed : bool) then Ok (c, [k], true)
          else '(c, ks, failed) ← insert_slot slot_fecs n (j + 1) c; Ok (c, k :: ks, failed)
      end
  end.

(** The blocks of the path, the oldest one first. *)
Fixpoint insert_blocks (P : fecs) (path : list Z) (c : ctx) : res (ctx * list Z) :=
  match path with
  | [] => Ok (c, [])
  | leaf :: path =>
      e ← get P leaf;
      let j := fec_set_idx (data e) / FD_FEC_SHRED_CNT in
      if can_ingest_cnt c <? j + 1 then Ok (c, []) else
      if banks_is_full c then Ok (c, []) else
      slot_fecs ← gather (S (size P)) P leaf ∅;
      '(c, ks, failed) ← insert_slot slot_fecs (Z.to_nat (j + 1)) 0 c;
      if (failed : bool) then Ok (c, ks) else '(c, ks') ← insert_blocks P path c; Ok (c, ks ++ ks')
  end.

Definition backfill_fec_sets (P : fecs) (reasm_fec : Z) (c : ctx) : res (ctx * list Z) :=
  path ← collect (S (size P)) P c reasm_fec 1;
  insert_blocks P (rev (reasm_fec :: path)) c.

(** Returns the state and the FEC sets that were inserted, in this order. *)
Definition process_fec_set (P : fecs) (reasm_fec : Z) (c : ctx) : res (ctx * list Z) :=
  e ← get P reasm_fec;
  match parent e with
  | None => Ub
  | Some p =>
      if bank_dead c p then Ok (drop_dead c reasm_fec, []) else
      ep ← get P p;
      let eqvoc_detected := negb (fec_set_idx (data e) =? 0) && (eqvoc e && negb (eqvoc ep)) in
      _ ← FD_TEST (implb eqvoc_detected (confirmed e && confirmed ep));
      if bank_valid c p && negb eqvoc_detected then Ok ((insert_fec_set c reasm_fec).1, [reasm_fec])
      else backfill_fec_sets P reasm_fec c
  end.

(** ** Blocks *)

(** [g] leads from [x] up to the first FEC set of its slot, which is chained to [a]. *)
Inductive block (P : fecs) : Z -> list Z -> Z -> Prop :=
  | block_first x e a : P !! x = Some e -> fec_set_idx (data e) = 0 -> parent e = Some a -> block P x [x] a
  | block_next x e p ep g a : P !! x = Some e -> parent e = Some p -> P !! p = Some ep -> fec_set_idx (data e) = fec_set_idx (data ep) + FD_FEC_SHRED_CNT -> 0 <= fec_set_idx (data ep) -> slot_complete (data ep) = false ->
      block P p g a -> block P x (x :: g) a.

(** The blocks from [x] up to the nearest slot complete with a valid bank, [a]. *)
Inductive blocks (P : fecs) (valid : Z -> bool) : Z -> list (list Z) -> Z -> Prop :=
  | blocks_last x g a ea : block P x g a -> P !! a = Some ea -> slot_complete (data ea) = true -> valid a = true -> blocks P valid x [g] a
  | blocks_next x g y ey gs a : block P x g y -> P !! y = Some ey -> slot_complete (data ey) = true -> valid y = false -> blocks P valid y gs a -> blocks P valid x (g :: gs) a.

(** Every FEC set of the list is chained to the one before it, the first one to [a]. *)
Fixpoint linked (P : fecs) (a : Z) (l : list Z) : Prop :=
  match l with [] => True | y :: l => par P y = Some a /\ linked P y l end.

End replay.

(** ** What the loops do *)

Section loops.
Context (P : fecs).

Lemma block_par x g a : block P x g a -> exists p, par P x = Some p.
Proof using Type. intros H. destruct H as [x e a E _ Ep|x e p ep g a E Ep]; eexists; by rewrite (par_lookup _ _ _ E). Qed.

Lemma block_linked x g a l : block P x g a -> linked P x l -> linked P a (rev g ++ l).
Proof using Type.
  intros H. revert l. induction H as [x e a E _ Ep|x e p ep g a E Ep _ _ _ _ _ IH]; intros l Hl.
  - cbn. split; [|done]. by rewrite (par_lookup _ _ _ E).
  - cbn [rev]. rewrite <- app_assoc. apply IH. cbn. split; [|done]. by rewrite (par_lookup _ _ _ E).
Qed.

(** The FEC sets of a block are 32 shreds apart, from the first one on. *)
Lemma block_idx x g a e : block P x g a -> P !! x = Some e -> fec_set_idx (data e) = FD_FEC_SHRED_CNT * (Z.of_nat (length g) - 1).
Proof using Type.
  intros H. revert e. induction H as [x e0 a E H0 Ep|x e0 p ep g a E Ep Epp Hi _ _ _ IH]; intros e Ee; assert (e0 = e) as -> by congruence.
  - cbn [length]. lia.
  - rewrite Hi, (IH ep Epp). cbn [length]. lia.
Qed.

Lemma block_in x g a k : block P x g a -> k ∈ g -> is_Some (P !! k).
Proof using Type. intros H. induction H as [x e a E _ _|x e p ep g a E _ _ _ _ _ _ IH]; [intros ->%list_elem_of_singleton; eauto|]. intros [->|Hk]%elem_of_cons; eauto. Qed.

(** Gathering a block fills the entries from 0 on with its FEC sets. *)
Lemma gather_ok x g a n m : block P x g a -> (length g <= n)%nat -> (length g <= 1024)%nat ->
  exists m', gather n P x m = Ok m' /\ (forall j, (j < length g)%nat -> m' !! Z.of_nat j = rev g !! j) /\ forall j, Z.of_nat (length g) <= j -> m' !! j = m !! j.
Proof using Type.
  intros H. revert n m. induction H as [x e a E H0 Ep|x e p ep g a E Ep Epp Hi Hp Hsc Hb IH]; intros n m Hn Hg; (destruct n as [|n]; [cbn in Hn; lia|]); cbn [gather]; rewrite (get_ok _ _ _ E); cbn [mbind res_bind].
  - rewrite H0. exists (<[0 := x]> m). split; [done|]. cbn [length]. split.
    + intros j Hj. assert (j = O) as -> by lia. by rewrite lookup_insert_eq.
    + intros j Hj. by rewrite lookup_insert_ne by lia.
  - pose proof (block_idx _ _ _ _ (block_next P x e p ep g a E Ep Epp Hi Hp Hsc Hb) E) as Hx. cbn [length] in Hx, Hn, Hg |- *.
    assert (Hj : fec_set_idx (data e) / FD_FEC_SHRED_CNT = Z.of_nat (length g)) by (rewrite Hx, Z.mul_comm, Z.div_mul by done; lia). rewrite Hj.
    assert (Hlt : (FD_FEC_BLK_MAX <=? Z.of_nat (length g)) = false) by (apply Z.leb_gt; change FD_FEC_BLK_MAX with 1024; lia). rewrite Hlt, (proj2 (Z.eqb_neq _ 0)) by (unfold FD_FEC_SHRED_CNT in *; lia). rewrite Ep.
    destruct (IH n (<[Z.of_nat (length g) := x]> m)) as (m' & -> & H1 & H2); [lia|lia|]. exists m'. split; [done|]. cbn [rev]. split.
    + intros j Hlj. destruct (decide (j = length g)) as [->|Hne].
      * rewrite H2, lookup_insert_eq by lia. rewrite lookup_app_r by (rewrite length_rev; lia). by rewrite length_rev, Nat.sub_diag.
      * rewrite lookup_app_l by (rewrite length_rev; lia). apply H1. lia.
    + intros j Hlj. rewrite H2 by lia. by rewrite lookup_insert_ne by lia.
Qed.

Context {ctx : Type}.
Context (bank_dead bank_valid : ctx -> Z -> bool) (can_ingest_cnt : ctx -> Z) (banks_is_full : ctx -> bool).
Context (insert_fec_set : ctx -> Z -> ctx * bool) (drop_dead : ctx -> Z -> ctx).

(** Insertion never fails. *)
Definition inserts : Prop := forall c k, (insert_fec_set c k).2 = false.

(** There is room for every block. *)
Definition roomy : Prop := forall c, banks_is_full c = false /\ FD_FEC_BLK_MAX <= can_ingest_cnt c.

Lemma insert_slot_ok m ks : forall j c, (forall i, (i < length ks)%nat -> m !! (j + Z.of_nat i) = ks !! i) ->
  exists c' ds rest failed, insert_slot insert_fec_set m (length ks) j c = Ok (c', ds, failed) /\ ks = ds ++ rest /\ (failed = false -> rest = []) /\ (inserts -> failed = false).
Proof using Type.
  induction ks as [|k ks IH]; intros j c Hm; cbn [length insert_slot]; [by exists c, [], [], false|]. pose proof (Hm O ltac:(cbn; lia)) as H0. rewrite Z.add_0_r in H0. rewrite H0. cbn [lookup list_lookup].
  destruct (insert_fec_set c k) as [c1 failed] eqn:E. destruct failed.
  - exists c1, [k], ks, true. split_and!; try done. intros Hi. specialize (Hi c k). by rewrite E in Hi.
  - destruct (IH (j + 1) c1) as (c2 & ds & rest & f & -> & -> & Hf & Hi).
    { intros i Hlt. specialize (Hm (S i) ltac:(cbn; lia)). change ((k :: ks) !! S i) with (ks !! i) in Hm. rewrite <- Hm. f_equal. lia. }
    cbn [mbind res_bind]. by exists c2, (k :: ds), rest, f.
Qed.

(** Each leaf of the path with its block. *)
Definition leaf_of (leaf : Z) (g : list Z) : Prop := exists a, block P leaf g a.

Lemma insert_blocks_ok path gs : Forall2 leaf_of path gs -> Forall (fun g => (length g <= 1024)%nat) gs -> Forall (fun g => (length g <= S (size P))%nat) gs -> forall c,
  exists c' ds rest, insert_blocks can_ingest_cnt banks_is_full insert_fec_set P path c = Ok (c', ds) /\ concat (@rev Z <$> gs) = ds ++ rest /\
    (inserts -> exists n, rest = concat (@rev Z <$> drop n gs)) /\ (inserts -> roomy -> rest = []).
Proof using Type.
  intros H Hl Hn. induction H as [|leaf g path gs [a Hb] _ IH]; intros c; cbn [insert_blocks]; [by exists c, [], []; split_and!; [..|by exists O|]|].
  apply Forall_cons in Hl as [Hg Hl]. apply Forall_cons in Hn as [Hgn Hn]. specialize (IH Hl Hn). assert (Hex : exists e, P !! leaf = Some e) by (by inversion Hb; eauto). destruct Hex as [e E].
  rewrite (get_ok _ _ _ E). cbn [mbind res_bind]. pose proof (block_idx _ _ _ _ Hb E) as Hidx. assert (Hne : g <> []) by (by inversion Hb).
  assert (Hj : fec_set_idx (data e) / FD_FEC_SHRED_CNT + 1 = Z.of_nat (length g)) by (rewrite Hidx, Z.mul_comm, Z.div_mul by done; lia). rewrite Hj.
  destruct (can_ingest_cnt c <? Z.of_nat (length g)) eqn:Ec; [|destruct (banks_is_full c) eqn:Ef].
  - exists c, [], (concat (@rev Z <$> g :: gs)). split_and!; try done; [by exists O|]. intros _ Hr. destruct (Hr c) as [_ Hc]. apply Z.ltb_lt in Ec. change FD_FEC_BLK_MAX with 1024 in Hc. lia.
  - exists c, [], (concat (@rev Z <$> g :: gs)). split_and!; try done; [by exists O|]. intros _ Hr. destruct (Hr c) as [Hc _]. congruence.
  - destruct (gather_ok leaf g a (S (size P)) ∅ Hb Hgn Hg) as (m & -> & Hm & _). cbn [mbind res_bind]. rewrite Nat2Z.id, <- length_rev.
    destruct (insert_slot_ok m (rev g) 0 c) as (c1 & ds & rest & failed & -> & Ers & Hf & Hi); [intros i Hlt; rewrite length_rev in Hlt; by apply Hm|]. cbn [mbind res_bind]. destruct failed.
    + exists c1, ds, (rest ++ concat (@rev Z <$> gs)). split; [done|]. split; [cbn; rewrite Ers; by rewrite <- app_assoc|]. split; [intros Hin; by specialize (Hi Hin)|intros Hin; by specialize (Hi Hin)].
    + rewrite (Hf eq_refl), app_nil_r in Ers. destruct (IH c1) as (c2 & ds2 & rest2 & -> & E2 & H1 & H2). cbn [mbind res_bind]. exists c2, (ds ++ ds2), rest2. split; [done|]. split; [cbn; rewrite Ers, E2; by rewrite app_assoc|].
      split; [intros Hin; destruct (H1 Hin) as [n ->]; by exists (S n)|done].
Qed.

(** Collecting stops at the parent of a block or goes on with it. *)
Lemma collect_block x g y ey c : block P x g y -> P !! y = Some ey -> slot_complete (data ey) = true -> forall n cnt,
  collect bank_valid (length g + n) P c x cnt = if bank_valid c y then Ok [] else _ ← FD_TEST (cnt <? FD_BANKS_MAX_BANKS); path ← collect bank_valid n P c y (cnt + 1); Ok (y :: path).
Proof using Type.
  intros H Ey Hy. induction H as [x e a E H0 Ep|x e p ep g a E Ep Epp Hi Hp Hsc Hb IH]; intros n cnt; cbn [length Nat.add collect]; rewrite (get_ok _ _ _ E); cbn [mbind res_bind]; rewrite Ep.
  - rewrite (get_ok _ _ _ Ey). cbn [mbind res_bind]. by rewrite Hy.
  - rewrite (get_ok _ _ _ Epp). cbn [mbind res_bind]. rewrite Hsc. cbn [negb]. by apply IH.
Qed.

Lemma collect_ok c x gs a : blocks P (bank_valid c) x gs a -> forall n cnt, (length (concat gs) <= n)%nat -> cnt + Z.of_nat (length gs) <= FD_BANKS_MAX_BANKS + 1 -> exists path, collect bank_valid n P c x cnt = Ok path /\ Forall2 leaf_of (x :: path) gs.
Proof using Type.
  intros H. induction H as [x g a ea Hb Ea Hs Hv|x g y ey gs a Hb Ey Hs Hv Hbs IH]; intros n cnt Hn Hc; cbn [concat] in Hn; rewrite length_app in Hn; replace n with (length g + (n - length g))%nat by lia.
  - rewrite (collect_block _ _ _ _ c Hb Ea Hs), Hv. exists []. split; [done|]. constructor; [by exists a|constructor].
  - rewrite (collect_block _ _ _ _ c Hb Ey Hs), Hv. assert (Hne : gs <> []) by (by inversion Hbs). cbn [length] in Hc. assert (0 < length gs)%nat by (destruct gs; [done|cbn; lia]).
    rewrite (proj2 (Z.ltb_lt cnt FD_BANKS_MAX_BANKS)) by lia. cbn [FD_TEST mbind res_bind]. destruct (IH (n - length g)%nat (cnt + 1)) as (path & -> & Hp); [lia|lia|]. cbn [mbind res_bind]. exists (y :: path). split; [done|]. constructor; [by exists y|done].
Qed.

Lemma blocks_linked valid x gs a l : blocks P valid x gs a -> linked P x l -> linked P a (concat (@rev Z <$> rev gs) ++ l).
Proof using Type.
  intros H. revert l. induction H as [x g a ea Hb Ea Hs Hv|x g y ey gs a Hb Ey Hs Hv Hbs IH]; intros l Hl; cbn [rev app fmap list_fmap].
  - cbn. rewrite app_nil_r. by apply (block_linked x).
  - rewrite fmap_app, concat_app. cbn. rewrite app_nil_r, <- app_assoc. apply IH. by apply (block_linked x).
Qed.

End loops.

(** ** Blocks of the connected tree *)

Definition complete_in (P : fecs) (k : Z) : bool := match P !! k with Some e => slot_complete (data e) | None => false end.

(** The received FEC sets that complete their slot. *)
Definition completes (r : fd_reasm_t) : gset Z := filter (fun k => complete_in (pool r) k = true) (live r).

Section tree.
Context (r : fd_reasm_t) (rt : Z) (St : state_ok r rt None) (valid : Z -> bool) (Hv : valid rt = true).

Let L := so_links _ _ _ St.
#[local] Abbreviation P := (pool r).

(** A FEC set that is not the first one of its slot continues an incomplete slot;
    the first one follows a complete slot. *)
Lemma parent_cases x e p ep : x ∈ live r -> P !! x = Some e -> parent e = Some p -> P !! p = Some ep ->
  (fec_set_idx (data e) = fec_set_idx (data ep) + FD_FEC_SHRED_CNT /\ 0 <= fec_set_idx (data ep) /\ slot_complete (data ep) = false) \/
  (fec_set_idx (data e) = 0 /\ slot_complete (data ep) = true).
Proof using All.
  intros Hx E Ep Epp. assert (Hpar : par P x = Some p) by (by rewrite (par_lookup _ _ _ E)). destruct (lk_par _ _ L x p Hx Hpar) as [Hp _].
  destruct (so_par _ _ _ St x (data e) p (data ep) Hx Hpar (dat_lookup _ _ _ E) (dat_lookup _ _ _ Epp)) as [_ Hval]. destruct (so_data _ _ _ St p (data ep) Hp (dat_lookup _ _ _ Epp)) as (_ & Hi & _).
  unfold validate_chained_block_id in Hval. destruct (slot (data ep) =? slot (data e)).
  - left. unfold validate_intra in Hval. apply andb_true_iff in Hval as [Hval Hs]. apply andb_true_iff in Hval as [Hi' _]. apply Z.eqb_eq in Hi'. apply negb_true_iff in Hs. rewrite Z.mod_small in Hi' by (unfold FD_FEC_SHRED_CNT; lia). split_and!; [done|lia|done].
  - right. unfold validate_inter in Hval. apply andb_true_iff in Hval as [Hval Hs]. apply andb_true_iff in Hval as [_ Hi']. by apply Z.eqb_eq in Hi'.
Qed.

Lemma blocks_ok x : x ∈ live r -> connected P rt x -> x <> rt -> exists gs a, blocks P valid x gs a /\ valid a = true /\ (forall k, k ∈ concat gs -> k ∈ live r /\ rk P k <= rk P x) /\ NoDup (concat gs) /\
  exists hs, length hs = length gs /\ NoDup hs /\ forall y, y ∈ hs -> y ∈ live r /\ complete_in P y = true /\ rk P y < rk P x.
Proof using All.
  intros Hx Hc. revert Hx. induction Hc as [|x p Ep _ Hc IH]; intros Hx Hxr; [done|]. destruct (lk_par _ _ L x p Hx Ep) as [Hp Hrk]. destruct (lk_in _ _ L x Hx) as [e E], (lk_in _ _ L p Hp) as [ep Epp].
  assert (Epe : parent e = Some p) by (by rewrite <- (par_lookup _ _ _ E)). destruct (parent_cases x e p ep Hx E Epe Epp) as [(Hi & Hpi & Hs)|[Hi Hs]].
  - destruct IH as (gs & a & Hb & Hva & Hin & Hnd & hs & Hhl & Hhn & Hhs); [done|intros ->; pose proof (so_complete _ _ _ St (data ep) (dat_lookup _ _ _ Epp)); congruence|]. assert (Hhs' : forall y, y ∈ hs -> y ∈ live r /\ complete_in P y = true /\ rk P y < rk P x) by (intros y Hy; destruct (Hhs y Hy) as (? & ? & ?); split_and!; try done; lia).
    destruct Hb as [p g a ea Hb Ea Hsa Hv1|p g y ey gs a Hb Ey Hsy Hvy Hbs]; eexists ((x :: g) :: _), a; cbn [concat app] in Hin, Hnd |- *.
    + split; [eapply blocks_last; try done; by eapply block_next|]. split; [done|]. split; [|split; [|by exists hs]].
      * intros k [->|Hk]%elem_of_cons; [done|]. destruct (Hin k Hk). split; [done|lia].
      * apply NoDup_cons. split; [|done]. intros Hk. destruct (Hin x Hk). lia.
    + split; [eapply blocks_next; try done; by eapply block_next|]. split; [done|]. split; [|split; [|by exists hs]].
      * intros k [->|Hk]%elem_of_cons; [done|]. destruct (Hin k Hk). split; [done|lia].
      * apply NoDup_cons. split; [|done]. intros Hk. destruct (Hin x Hk). lia.
  - assert (Hb : block P x [x] p) by (by eapply block_first). assert (Hcp : complete_in P p = true) by (unfold complete_in; by rewrite Epp). destruct (valid p) eqn:Hvp.
    + exists [[x]], p. split; [by eapply blocks_last|]. split; [done|]. cbn [concat app]. split; [intros k ->%list_elem_of_singleton; done|]. split; [apply NoDup_singleton|]. exists [p]. split_and!; [done|apply NoDup_singleton|]. by intros y ->%list_elem_of_singleton.
    + destruct IH as (gs & a & Hbs & Hva & Hin & Hnd & hs & Hhl & Hhn & Hhs); [done|intros ->; congruence|]. exists ([x] :: gs), a. split; [by eapply blocks_next|]. split; [done|]. cbn [concat app]. split; [|split].
      * intros k [->|Hk]%elem_of_cons; [done|]. destruct (Hin k Hk). split; [done|lia].
      * apply NoDup_cons. split; [|done]. intros Hk. destruct (Hin x Hk). lia.
      * exists (p :: hs). cbn [length]. rewrite Hhl. split_and!; [done| |].
        -- apply NoDup_cons. split; [|done]. intros Hk. destruct (Hhs p Hk) as (_ & _ & ?). lia.
        -- intros y [->|Hy]%elem_of_cons; [done|]. destruct (Hhs y Hy) as (? & ? & ?). split_and!; try done; lia.
Qed.

End tree.

(** ** Shape of what is inserted *)

Lemma block_first_idx P x g a : block P x g a -> exists y g' e, rev g = y :: g' /\ P !! y = Some e /\ fec_set_idx (data e) = 0.
Proof.
  intros H. induction H as [x e a E H0 Ep|x e p ep g a E Ep Epp Hi Hp Hsc Hb (y & g' & ey & Er & Ey & H0)]; [by exists x, [], e|]. cbn [rev]. rewrite Er. by exists y, (g' ++ [x]), ey.
Qed.

Lemma block_inner P x g a k : block P x g a -> k ∈ g -> k = x \/ complete_in P k = false.
Proof.
  intros H. induction H as [x e a E H0 Ep|x e p ep g a E Ep Epp Hi Hp Hsc Hb IH]; [intros ->%list_elem_of_singleton; by left|]. intros [->|Hk]%elem_of_cons; [by left|]. right. destruct (IH Hk) as [->|]; [|done]. unfold complete_in. by rewrite Epp.
Qed.

Lemma blocks_inner P valid x gs a k : blocks P valid x gs a -> k ∈ concat gs -> k = x \/ complete_in P k = false \/ valid k = false.
Proof.
  intros H. induction H as [x g a ea Hb Ea Hs Hv|x g y ey gs a Hb Ey Hs Hv Hbs IH]; cbn [concat]; rewrite elem_of_app; intros [Hk|Hk].
  - destruct (block_inner _ _ _ _ _ Hb Hk); tauto.
  - by apply not_elem_of_nil in Hk.
  - destruct (block_inner _ _ _ _ _ Hb Hk); tauto.
  - destruct (IH Hk) as [->|]; tauto.
Qed.

Lemma blocks_last_elem P valid x gs a : blocks P valid x gs a -> last (concat (@rev Z <$> rev gs)) = Some x.
Proof.
  intros H. assert (Hg : exists g gs', gs = (x :: g) :: gs') by (destruct H as [x g a ea Hb|x g y ey gs a Hb]; inversion Hb; subst; eauto). destruct Hg as (g & gs' & ->).
  cbn [rev]. rewrite fmap_app, concat_app. cbn [fmap list_fmap concat rev]. rewrite app_nil_r, app_assoc. apply last_snoc.
Qed.

Lemma blocks_leaf P valid x gs a : blocks P valid x gs a -> Forall (fun g => exists y b, block P y g b) gs.
Proof. intros H. induction H as [x g a ea Hb|x g y ey gs a Hb _ _ _ _ IH]; constructor; eauto. Qed.

Lemma elem_of_concat (gs : list (list Z)) k : k ∈ concat gs <-> exists g, g ∈ gs /\ k ∈ g.
Proof. rewrite list_elem_of_In, in_concat. split; intros (g & H1 & H2); exists g; by rewrite !list_elem_of_In in *. Qed.

Lemma concat_rev (gs : list (list Z)) : concat (@rev Z <$> rev gs) = rev (concat gs).
Proof. induction gs as [|g gs IH]; [done|]. cbn [rev concat]. rewrite fmap_app, concat_app, IH, rev_app_distr. cbn. by rewrite app_nil_r. Qed.

Lemma forall2_rev {A B} (R : A -> B -> Prop) l k : Forall2 R l k -> Forall2 R (rev l) (rev k).
Proof. induction 1 as [|x y l k H _ IH]; cbn [rev]; [constructor|]. apply Forall2_app; [done|]. by constructor. Qed.

(** ** Processing what the reassembly delivers *)

Section process.
Context {ctx : Type}.
Context (bank_dead bank_valid : ctx -> Z -> bool) (can_ingest_cnt : ctx -> Z) (banks_is_full : ctx -> bool).
Context (insert_fec_set : ctx -> Z -> ctx * bool) (drop_dead : ctx -> Z -> ctx).

(** [ds] was inserted and [rest] was not: together they lead from a FEC set with
    a valid bank down to [x], every one chained to the one before it, and the
    blocks they complete on the way had no valid bank. *)
Record caught_up (P : fecs) (c : ctx) (x : Z) (ds rest : list Z) : Prop := mk_caught_up {
  cu_linked : exists a, bank_valid c a = true /\ linked P a (ds ++ rest);
  cu_last : last (ds ++ rest) = Some x;
  cu_invalid : forall k, k ∈ ds ++ rest -> k <> x -> complete_in P k = true -> bank_valid c k = false;
  cu_blocks : inserts insert_fec_set -> rest = [] \/ exists k e l, rest = k :: l /\ P !! k = Some e /\ fec_set_idx (data e) = 0;
  cu_all : inserts insert_fec_set -> roomy can_ingest_cnt banks_is_full -> rest = [];
}.

Section backfill.
Context (r : fd_reasm_t) (rt : Z) (c : ctx) (St : state_ok r rt None) (Hrt : bank_valid c rt = true).
Context (Hidx : forall k e, k ∈ live r -> pool r !! k = Some e -> fec_set_idx (data e) < FD_FEC_SHRED_CNT * FD_FEC_BLK_MAX) (Hmax : Z.of_nat (size (completes r)) <= FD_BANKS_MAX_BANKS).

Lemma backfill_ok x : x ∈ live r -> connected (pool r) rt x -> x <> rt -> exists c' ds rest, backfill_fec_sets bank_valid can_ingest_cnt banks_is_full insert_fec_set (pool r) x c = Ok (c', ds) /\ caught_up (pool r) c x ds rest.
Proof using All.
  intros Hx Hc Hne. pose proof (so_links _ _ _ St) as L. destruct (blocks_ok r rt St (bank_valid c) Hrt x Hx Hc Hne) as (gs & a & Hb & Hva & Hin & Hnd & hs & Hhl & Hhn & Hhs).
  assert (Hlen : (length (concat gs) <= size (pool r))%nat) by (apply nodup_dom; [done|]; intros k Hk; by apply (lk_in _ _ L), Hin).
  assert (Hgs : Z.of_nat (length gs) <= FD_BANKS_MAX_BANKS).
  { assert ((length hs <= size (completes r))%nat); [|lia]. rewrite <- (size_list_to_set (C := gset Z) hs) by done. apply subseteq_size. intros y Hy%elem_of_list_to_set. destruct (Hhs y Hy) as (? & ? & _). by apply elem_of_filter. }
  assert (Hsub : forall g, g ∈ gs -> (length g <= length (concat gs))%nat) by (clear; intros g Hg; induction Hg as [|g h gs Hg IH]; cbn; rewrite length_app; lia).
  assert (Hbl : forall g, g ∈ gs -> (length g <= 1024)%nat).
  { intros g Hg. pose proof (blocks_leaf _ _ _ _ _ Hb) as Hf. rewrite Forall_forall in Hf. destruct (Hf g Hg) as (y & b & Hy). assert (Hyg : y ∈ g) by (inversion Hy; by left).
    destruct (Hin y) as [Hyl _]; [apply elem_of_concat; by exists g|]. destruct (lk_in _ _ L y Hyl) as [e E]. pose proof (block_idx _ _ _ _ _ Hy E) as Hi. specialize (Hidx y e Hyl E). change FD_FEC_BLK_MAX with 1024 in Hidx. unfold FD_FEC_SHRED_CNT in *. lia. }
  unfold backfill_fec_sets. destruct (collect_ok (pool r) bank_valid c x gs a Hb (S (size (pool r))) 1) as (path & -> & Hp); [lia|lia|]. cbn [mbind res_bind].
  destruct (insert_blocks_ok (pool r) can_ingest_cnt banks_is_full insert_fec_set (rev (x :: path)) (rev gs) (forall2_rev _ _ _ Hp)) with (c := c) as (c' & ds & rest & E & Ers & H1 & H2).
  - apply Forall_forall. intros g Hg. apply Hbl. by rewrite elem_of_rev in Hg.
  - apply Forall_forall. intros g Hg. specialize (Hsub g (proj1 (elem_of_rev _ _) Hg)). lia.
  - exists c', ds, rest. split; [done|]. rewrite concat_rev in Ers. assert (Hk : forall k, k ∈ ds ++ rest -> k ∈ concat gs) by (intros k; by rewrite <- Ers, elem_of_rev).
    split.
    + exists a. split; [done|]. rewrite <- Ers, <- concat_rev, <- (app_nil_r (concat _)). by apply (blocks_linked _ (bank_valid c) x gs a []).
    + rewrite <- Ers, <- concat_rev. by apply (blocks_last_elem _ _ _ _ _ Hb).
    + intros k Hkr Hkx Hkc. destruct (blocks_inner _ _ _ _ _ k Hb (Hk k Hkr)) as [?|[?|?]]; congruence.
    + intros Hi. destruct (H1 Hi) as [n Hr]. destruct (drop n (rev gs)) as [|g l] eqn:Ed; [by left; rewrite Hr|right]. pose proof (blocks_leaf _ _ _ _ _ Hb) as Hf. rewrite Forall_forall in Hf.
      assert (Hg : g ∈ gs) by (apply elem_of_rev; rewrite <- (take_drop n (rev gs)), Ed; apply elem_of_app; right; by left). destruct (Hf g Hg) as (y & b & Hy).
      destruct (block_first_idx _ _ _ _ Hy) as (k & g' & e & Eg & Ek & Hk0). cbn in Hr. rewrite Eg in Hr. by exists k, e, (g' ++ concat (@rev Z <$> l)).
    + done.
Qed.

End backfill.


End process.

(** ** A concrete case *)

(** The confirmed version of slot 11 is delivered when only the root has a bank:
    the first FEC set of the slot is inserted before it. *)
Definition ex_insert (c : list Z) (k : Z) : list Z * bool := (c ++ [k], false).

