(* ===== verification/Ingress.v ===== *)
(** * Transaction ingress: the verify and the dedup tile
      ([src/disco/verify], [src/disco/dedup])

    Transactions reach the validator through the verify tiles, which parse them,
    drop recent duplicates and check their signatures, and then the dedup tile,
    which drops what another verify tile let pass or what was executed already.
    Transactions of a bundle are exempt from the tag caches.  Messages are
    values here: the shared memory they are copied through and the timestamps
    are not modelled.  The verification of Ed25519 signatures is a parameter. *)

From S2P Require Import Prelude Bits Bytes CompactU16 Txn TxnParse TxnFormat TxnCorrect Tcache Hash.

#[local] Open Scope Z_scope.

Definition FD_TPU_MTU : Z := 1232.
Definition FD_TXN_VERIFY_SUCCESS : Z := 0.
Definition FD_TXN_VERIFY_FAILED : Z := -1.
Definition FD_TXN_VERIFY_DEDUP : Z := -2.
Definition FD_ED25519_SUCCESS : Z := 0.
Definition FD_ED25519_ERR_SIG : Z := -1.
Definition FD_GOSSIP_UPDATE_TAG_VOTE : Z := 2.
Definition REPLAY_SIG_TXN_EXECUTED : Z := 6.

(** [fd_txn_m_t]: the payload, the bundle and the descriptor behind the payload. *)
Record fd_txn_m_t := mk_txn_m { payload : list Z; block_engine_bundle_id : Z; txn_t_sz : Z; txn_t : option fd_txn_t }.

Definition payload_sz (m : fd_txn_m_t) : Z := Z.of_nat (length (payload m)).
Definition set_txn_t (m : fd_txn_m_t) (o : parse_out) : fd_txn_m_t := mk_txn_m (payload m) (block_engine_bundle_id m) (u16 (ret o)) (parsed o).

(** [metrics.result[ i ]++] *)
Definition bump (result : list Z) (i : Z) : res (list Z) := n ← aget result i; aset result i (u64 (n + 1)).

(** [fd_hash( seed, payload + signature_off, 64UL )] *)
Definition dedup_tag (seed : Z) (payload : list Z) (signature_off : Z) : res Z := p ← advance (bytes payload) signature_off; fd_hash p 64 seed.

Section tiles.
(** The signature check of a batch of at most 16 signatures: the message, the
    signatures and the public keys. *)
Context (ed25519_batch : list Z -> list Z -> list Z -> Z).

(** ** The verify tile *)

Inductive verify_in_kind := IN_KIND_QUIC | IN_KIND_BUNDLE | IN_KIND_GOSSIP | IN_KIND_TXSEND.

Record fd_verify_ctx_t := mk_verify {
  bundle_failed : bool;
  bundle_id : Z;
  round_robin_idx : Z;
  round_robin_cnt : Z;
  tcache : fd_tcache_t;
  hashmap_seed : Z;
  verify_tile_result : list Z;
  gossiped_votes_cnt : Z;
}.

(** Whether the fragment is filtered out. *)
Definition verify_before_frag (ctx : fd_verify_ctx_t) (kind : verify_in_kind) (seq sig : Z) : bool :=
  let is_bundle_packet := match kind with IN_KIND_BUNDLE => sig =? 0 | _ => false end in
  if is_bundle_packet || match kind with IN_KIND_QUIC => true | _ => false end then negb (seq mod round_robin_cnt ctx =? round_robin_idx ctx)
  else match kind with
  | IN_KIND_BUNDLE => negb (round_robin_idx ctx =? 0)
  | IN_KIND_GOSSIP => negb (seq mod round_robin_cnt ctx =? round_robin_idx ctx) || negb (sig =? FD_GOSSIP_UPDATE_TAG_VOTE)
  | _ => false
  end.

(** There are [FD_TXN_ACTUAL_SIG_MAX] hash states in [ctx->sha]. *)
Definition fd_ed25519_verify_batch_single_msg (msg signatures pubkeys : list Z) (batch_sz : Z) : res Z :=
  if (batch_sz =? 0) || (16 <? batch_sz) then Ok FD_ED25519_ERR_SIG
  else if FD_TXN_ACTUAL_SIG_MAX <? batch_sz then Ub
  else Ok (ed25519_batch msg signatures pubkeys).

(** The return value, [*opt_sig] and the tag cache. *)
Definition fd_txn_verify (t : fd_tcache_t) (seed : Z) (udp_payload : list Z) (payload_sz : Z) (txn : fd_txn_t) (dedup : bool) : res (Z * Z * fd_tcache_t) :=
  let msg_sz := u64 (payload_sz - message_off txn) in
  ha_dedup_tag ← dedup_tag seed udp_payload (signature_off txn);
  ha_dup ← (if dedup then query t ha_dedup_tag else Ok false);
  if (ha_dup : bool) then Ok (FD_TXN_VERIFY_DEDUP, 0, t) else
  msg ← read (bytes udp_payload) (message_off txn) msg_sz;
  signatures ← read (bytes udp_payload) (signature_off txn) (64 * signature_cnt txn);
  pubkeys ← read (bytes udp_payload) (acct_addr_off txn) (32 * signature_cnt txn);
  r ← fd_ed25519_verify_batch_single_msg msg signatures pubkeys (signature_cnt txn);
  if negb (r =? FD_ED25519_SUCCESS) then Ok (FD_TXN_VERIFY_FAILED, 0, t) else
  '(ha_dup, t) ← (if dedup then insert t ha_dedup_tag else Ok (false, t));
  if (ha_dup : bool) then Ok (FD_TXN_VERIFY_DEDUP, 0, t) else
  Ok (FD_TXN_VERIFY_SUCCESS, ha_dedup_tag, t).

Definition verify_set_bundle (ctx : fd_verify_ctx_t) (failed : bool) (id : Z) : fd_verify_ctx_t :=
  mk_verify failed id (round_robin_idx ctx) (round_robin_cnt ctx) (tcache ctx) (hashmap_seed ctx) (verify_tile_result ctx) (gossiped_votes_cnt ctx).
Definition verify_set_tcache (ctx : fd_verify_ctx_t) (t : fd_tcache_t) : fd_verify_ctx_t :=
  mk_verify (bundle_failed ctx) (bundle_id ctx) (round_robin_idx ctx) (round_robin_cnt ctx) t (hashmap_seed ctx) (verify_tile_result ctx) (gossiped_votes_cnt ctx).
Definition verify_count (ctx : fd_verify_ctx_t) (i : Z) : res fd_verify_ctx_t :=
  r ← bump (verify_tile_result ctx) i;
  Ok (mk_verify (bundle_failed ctx) (bundle_id ctx) (round_robin_idx ctx) (round_robin_cnt ctx) (tcache ctx) (hashmap_seed ctx) r (gossiped_votes_cnt ctx)).
Definition verify_count_gossip (ctx : fd_verify_ctx_t) (kind : verify_in_kind) : fd_verify_ctx_t :=
  match kind with
  | IN_KIND_GOSSIP | IN_KIND_TXSEND =>
      mk_verify (bundle_failed ctx) (bundle_id ctx) (round_robin_idx ctx) (round_robin_cnt ctx) (tcache ctx) (hashmap_seed ctx) (verify_tile_result ctx) (u64 (gossiped_votes_cnt ctx + 1))
  | _ => ctx
  end.
(** [if( is_bundle ) ctx->bundle_failed = 1] *)
Definition verify_fail_bundle (ctx : fd_verify_ctx_t) (is_bundle : bool) : fd_verify_ctx_t := if is_bundle then verify_set_bundle ctx true (bundle_id ctx) else ctx.

(** The context, and the message that is published. *)
Definition verify_after_frag (ctx : fd_verify_ctx_t) (kind : verify_in_kind) (txnm : fd_txn_m_t) : res (fd_verify_ctx_t * option fd_txn_m_t) :=
  let ctx := verify_count_gossip ctx kind in
  if FD_TPU_MTU <? payload_sz txnm then Crit else
  o ← fd_txn_parse (bytes (payload txnm)) (payload_sz txnm) (Some FD_TXN_MAX_SZ) None;
  let txnm := set_txn_t txnm o in
  let is_bundle := negb (block_engine_bundle_id txnm =? 0) in
  let ctx := if is_bundle && negb (block_engine_bundle_id txnm =? bundle_id ctx) then verify_set_bundle ctx false (block_engine_bundle_id txnm) else ctx in
  if is_bundle && bundle_failed ctx then ctx ← verify_count ctx 1; Ok (ctx, None)
  else if txn_t_sz txnm =? 0 then ctx ← verify_count (verify_fail_bundle ctx is_bundle) 2; Ok (ctx, None)
  else
    txnt ← deref (txn_t txnm);
    '(r, _txn_sig, t) ← fd_txn_verify (tcache ctx) (hashmap_seed ctx) (payload txnm) (payload_sz txnm) txnt (negb is_bundle);
    let ctx := verify_set_tcache ctx t in
    if negb (r =? FD_TXN_VERIFY_SUCCESS) then
      ctx ← verify_count (verify_fail_bundle ctx is_bundle) (if r =? FD_TXN_VERIFY_DEDUP then 3 else 4);
      Ok (ctx, None)
    else ctx ← verify_count ctx 0; Ok (ctx, Some txnm).

(** ** The dedup tile *)

Inductive dedup_in_kind := DEDUP_IN_GOSSIP | DEDUP_IN_VERIFY | DEDUP_IN_EXECUTED_TXN | DEDUP_IN_REPLAY.

Record fd_dedup_ctx_t := mk_dedup {
  d_tcache : fd_tcache_t;
  d_bundle_failed : bool;
  d_bundle_id : Z;
  d_bundle_idx : Z;
  d_bundle_signatures : list (list Z);
  d_hashmap_seed : Z;
  d_tile_result : list Z;
}.

Definition dedup_set_bundle (ctx : fd_dedup_ctx_t) (failed : bool) (id idx : Z) (sigs : list (list Z)) : fd_dedup_ctx_t :=
  mk_dedup (d_tcache ctx) failed id idx sigs (d_hashmap_seed ctx) (d_tile_result ctx).
Definition dedup_set_tcache (ctx : fd_dedup_ctx_t) (t : fd_tcache_t) : fd_dedup_ctx_t :=
  mk_dedup t (d_bundle_failed ctx) (d_bundle_id ctx) (d_bundle_idx ctx) (d_bundle_signatures ctx) (d_hashmap_seed ctx) (d_tile_result ctx).
Definition dedup_count (ctx : fd_dedup_ctx_t) (i : Z) : res fd_dedup_ctx_t :=
  r ← bump (d_tile_result ctx) i;
  Ok (mk_dedup (d_tcache ctx) (d_bundle_failed ctx) (d_bundle_id ctx) (d_bundle_idx ctx) (d_bundle_signatures ctx) (d_hashmap_seed ctx) r).

(** Signatures of transactions that were executed, in the message the replay tile
    sends and in the one of the other validator client. *)
Record fd_replay_txn_executed_t := mk_executed { is_committable : bool; ex_payload : list Z; ex_txn : fd_txn_t }.

Definition dedup_insert (ctx : fd_dedup_ctx_t) (payload : list Z) (signature_off : Z) : res (bool * fd_dedup_ctx_t) :=
  ha_dedup_tag ← dedup_tag (d_hashmap_seed ctx) payload signature_off;
  '(dup, t) ← insert (d_tcache ctx) ha_dedup_tag;
  Ok (dup, dedup_set_tcache ctx t).

Definition dedup_during_replay (ctx : fd_dedup_ctx_t) (sig : Z) (e : fd_replay_txn_executed_t) : res fd_dedup_ctx_t :=
  if sig =? REPLAY_SIG_TXN_EXECUTED then
    if negb (is_committable e) then Ok ctx else
    '(_, ctx) ← dedup_insert ctx (ex_payload e) (signature_off (ex_txn e)); Ok ctx
  else Ok ctx.

Definition dedup_during_executed (ctx : fd_dedup_ctx_t) (src : list Z) : res fd_dedup_ctx_t :=
  if negb (Z.of_nat (length src) =? FD_TXN_SIGNATURE_SZ) then Crit else
  '(_, ctx) ← dedup_insert ctx src 0; Ok ctx.

(** The loop over the signatures of the bundle so far. *)
Fixpoint bundle_dup (sigs : list (list Z)) (sig : list Z) (i : Z) (n : nat) : res bool :=
  match n with
  | O => Ok false
  | S n => s ← aget sigs i; if bool_decide (s = sig) then Ok true else bundle_dup sigs sig (i + 1) n
  end.

(** The context, and the message that is published with the signature field of the
    fragment. *)
Definition dedup_after_frag (ctx : fd_dedup_ctx_t) (kind : dedup_in_kind) (txnm : fd_txn_m_t) : res (fd_dedup_ctx_t * option (fd_txn_m_t * Z)) :=
  match kind with
  | DEDUP_IN_EXECUTED_TXN | DEDUP_IN_REPLAY => Ok (ctx, None)
  | _ =>
      if FD_TPU_MTU <? payload_sz txnm then Crit else
      let id := block_engine_bundle_id txnm in
      let ctx := if negb (id =? 0) && negb (id =? d_bundle_id ctx) then dedup_set_bundle ctx false id 0 (d_bundle_signatures ctx) else ctx in
      if negb (id =? 0) && d_bundle_failed ctx then ctx ← dedup_count ctx 1; Ok (ctx, None) else
      txnm ← match kind with
             | DEDUP_IN_GOSSIP =>
                 o ← fd_txn_parse (bytes (payload txnm)) (payload_sz txnm) (Some FD_TXN_MAX_SZ) None;
                 let txnm := set_txn_t txnm o in
                 if txn_t_sz txnm =? 0 then Crit else Ok txnm
             | _ => Ok txnm
             end;
      txn ← deref (txn_t txnm);
      '(is_dup, ctx) ←
        (if id =? 0 then dedup_insert ctx (payload txnm) (signature_off txn)
         else if 4 <? d_bundle_idx ctx then Crit
         else
           sig ← read (bytes (payload txnm)) (signature_off txn) 64;
           is_dup ← bundle_dup (d_bundle_signatures ctx) sig 0 (Z.to_nat (d_bundle_idx ctx));
           sigs ← (if d_bundle_idx ctx =? 4 then Ok (d_bundle_signatures ctx) else aset (d_bundle_signatures ctx) (d_bundle_idx ctx) sig);
           Ok (is_dup, dedup_set_bundle ctx (d_bundle_failed ctx) (d_bundle_id ctx) (d_bundle_idx ctx + 1) sigs));
      if (is_dup : bool) then
        let ctx := if negb (id =? 0) then dedup_set_bundle ctx true (d_bundle_id ctx) (d_bundle_idx ctx) (d_bundle_signatures ctx) else ctx in
        ctx ← dedup_count ctx 2; Ok (ctx, None)
      else
        let out_sig := Z.b2z (negb (id =? 0)) in
        ctx ← dedup_count ctx 0; Ok (ctx, Some (txnm, out_sig))
  end.

(** ** Parsing *)

(** What the message is once its payload was parsed as [t]. *)
Definition parsed_as (m : fd_txn_m_t) (t : transaction) : fd_txn_m_t := mk_txn_m (payload m) (block_engine_bundle_id m) (footprint t) (Some (describe t)).

(** The payload is a well-formed transaction. *)
Definition is_txn (m : fd_txn_m_t) (t : transaction) : Prop := holds_txn (payload m) false t.

(** The first signature, and its tag. *)
Definition first_sig (m : fd_txn_m_t) : list Z := take 64 (drop 1 (payload m)).
Definition sig_tag (seed : Z) (sig : list Z) : Z := match fd_hash (bytes sig) 64 seed with Ok h => h | _ => 0 end.
Definition tag_of (seed : Z) (m : fd_txn_m_t) : Z := sig_tag seed (first_sig m).

(** The signatures are those of the first accounts for the rest of the payload. *)
Definition signed (m : fd_txn_m_t) (t : transaction) : Prop :=
  let n := length (t_signatures t) in
  ed25519_batch (drop (1 + 64 * n) (payload m)) (concat (t_signatures t)) (concat (take n (t_addrs t))) = FD_ED25519_SUCCESS.

Definition frag_ok (m : fd_txn_m_t) : Prop := Forall is_byte (payload m) /\ payload_sz m <= FD_TPU_MTU.

Lemma parse_frag m : frag_ok m ->
  (exists t o, is_txn m t /\ fd_txn_parse (bytes (payload m)) (payload_sz m) (Some FD_TXN_MAX_SZ) None = Ok o /\ set_txn_t m o = parsed_as m t /\ footprint t <> 0) \/
  (exists o, fd_txn_parse (bytes (payload m)) (payload_sz m) (Some FD_TXN_MAX_SZ) None = Ok o /\ txn_t_sz (set_txn_t m o) = 0) /\ forall t, ~ is_txn m t.
Proof using Type.
  intros [Hb Hs]. unfold fd_txn_parse, fd_txn_parse_core. change (payload_sz m) with (len (payload m)). rewrite bool_decide_eq_false_2 by (by intros [? ?]).
  destruct (parse_body_outcome (payload m) (Some FD_TXN_MAX_SZ) false Hb) as [(t & Ht & ->)|[[line ->] Hno]]; [by intros ? [= <-]| |]; cbn [mbind res_bind].
  - left. eexists t, _. split; [done|]. split; [done|]. pose proof Ht as (Hok & Hm & rest & E & _). pose proof (encode_txn_length _ Hok) as Hl. assert (Hle : len (encode_txn t) <= len (payload m)) by (rewrite E, len_app; pose proof (len_nonneg rest); lia).
    pose proof (ok_sigs _ Hok). pose proof (ok_ro_unsigned _ Hok). pose proof (len_nonneg (t_instrs t)). pose proof (len_nonneg (t_lookups t)). pose proof (ok_instrs _ Hok). pose proof (footprint_small _ Hok) as Hf. unfold FD_TXN_MTU, FD_TXN_INSTR_MAX, footprint in *.
    assert (Hr : 0 < fd_txn_footprint (len (t_instrs t)) (len (t_lookups t)) < 65536).
    { rewrite Hf. assert (len (t_lookups t) <= 40) by (destruct (t_versioned t) eqn:Ev; [simpl Z.b2z in Hl; lia|by rewrite (ok_legacy _ Hok Ev)]). lia. }
    split; [|lia]. unfold set_txn_t, parsed_as, u16. cbn [ret parsed]. rewrite Z.mod_small by lia. done.
  - right. split; [|done]. eexists. by split.
Qed.

Lemma is_txn_wf m t : is_txn m t -> txn_wf (len (payload m)) (describe t) /\ describes (payload m) t (describe t) /\ transaction_ok t /\ signature_off (describe t) = 1 /\ 65 <= len (payload m).
Proof using Type.
  intros (Hok & Hm & rest & E & _). pose proof (describe_ok (payload m) t rest Hok E) as D. split; [by apply (describes_wf _ t rest)|]. split; [done|]. split; [done|]. split; [done|]. destruct D as [_ [Es Rs] _ _ _ _ _ _ _ _]. apply read_inside in Rs as (_ & _ & Hl). rewrite Es in Hl. change (signature_off (describe t)) with 1 in Hl. pose proof (ok_sigs _ Hok). unfold FD_TXN_SIGNATURE_SZ in Hl. lia.
Qed.

Lemma dedup_tag_sig seed bs off : Forall is_byte bs -> 0 <= off -> off + 64 <= len bs -> dedup_tag seed bs off = Ok (sig_tag seed (take 64 (drop (Z.to_nat off) bs))).
Proof using Type.
  intros Hb Ho Hl. unfold dedup_tag, len in *. rewrite advance_ok by (rewrite bytes_length; lia). cbn [mbind res_bind]. rewrite drop_bytes. set (b := drop (Z.to_nat off) bs) in *. assert (Hlb : (64 <= length b)%nat) by (unfold b; rewrite length_drop; lia). assert (Hbb : Forall is_byte (take 64 b)) by (by apply Forall_take, Forall_drop).
  rewrite <- (take_drop 64 b) at 1. rewrite bytes_app. destruct (hash_memcpy_correct (take 64 b) seed Hbb) as (h & _ & Hh). rewrite length_take, Nat.min_l in Hh by done. change (Z.of_nat 64) with 64 in Hh. unfold sig_tag. destruct (Hh (bytes (drop 64 b))) as [-> _]. destruct (Hh []) as [E _]. rewrite app_nil_r in E. by rewrite E.
Qed.

Lemma dedup_tag_ok seed m : Forall is_byte (payload m) -> 65 <= len (payload m) -> dedup_tag seed (payload m) 1 = Ok (tag_of seed m).
Proof using Type. intros Hb Hl. by rewrite dedup_tag_sig by (done || lia). Qed.

Lemma concat_take n (l : list (list Z)) k : Forall (byte_string k) l -> 0 <= k -> (n <= length l)%nat -> take (Z.to_nat (k * Z.of_nat n)) (concat l) = concat (take n l).
Proof using Type.
  intros Hl Hk. revert n. induction Hl as [|x l [Hx _] Hl IH]; intros [|n] Hn; try (by rewrite Z.mul_0_r); [cbn in Hn; lia|]. cbn [concat take length] in *. unfold len in Hx. replace (Z.to_nat (k * Z.of_nat (S n))) with (length x + Z.to_nat (k * Z.of_nat n))%nat by nia. rewrite take_app_add. f_equal. apply IH. lia.
Qed.

(** What the signature check is given. *)
Lemma verify_inputs m t : is_txn m t ->
  read (bytes (payload m)) (message_off (describe t)) (u64 (payload_sz m - message_off (describe t))) = Ok (drop (1 + 64 * length (t_signatures t)) (payload m)) /\
  read (bytes (payload m)) 1 (64 * signature_cnt (describe t)) = Ok (concat (t_signatures t)) /\
  read (bytes (payload m)) (acct_addr_off (describe t)) (32 * signature_cnt (describe t)) = Ok (concat (take (length (t_signatures t)) (t_addrs t))) /\
  1 <= signature_cnt (describe t) <= FD_TXN_ACTUAL_SIG_MAX.
Proof using Type.
  intros Ht. destruct (is_txn_wf m t Ht) as (W & D & Hok & Eo & Hl). pose proof (tw_signature _ _ W) as (Hc & _ & Hi & Hm). destruct D as [_ [Es Rs] Em [_ _] [Ea Ra] _ _ _ _ _]. pose proof Ht as (_ & Hmtu & _). split_and!.
  - change (payload_sz m) with (len (payload m)). unfold FD_TXN_MTU in Hmtu. rewrite u64_small by (unfold is_u64, ULONG_MAX; lia). rewrite <- (app_nil_r (bytes (payload m))), read_bytes by (unfold len in *; lia). rewrite Eo, Es in Em. unfold FD_TXN_SIGNATURE_SZ, len in *. rewrite Em in *. replace (Z.to_nat (1 + 64 * Z.of_nat (length (t_signatures t)))) with (1 + 64 * length (t_signatures t))%nat by lia. rewrite take_ge by (rewrite length_drop; lia). done.
  - by rewrite Eo in Rs.
  - pose proof (ok_ro_unsigned _ Hok) as Hu. assert (Hn : (length (t_signatures t) <= length (t_addrs t))%nat) by (unfold len in Hu; lia). pose proof (read_inside _ _ _ _ Ra) as (H1 & H2 & H3). rewrite Es, Ea in *. unfold FD_TXN_ACCT_ADDR_SZ, len in *. rewrite <- (app_nil_r (bytes (payload m))), read_bytes in Ra |- * by lia.
    injection Ra as Ra. rewrite <- (concat_take _ _ 32 (ok_addr _ Hok)), <- Ra, take_take by lia. do 2 f_equal. lia.
  - lia.
  - lia.
Qed.

Lemma txn_verify_ok tc h seed m t dedup : frag_ok m -> is_txn m t -> recent tc h ->
  let dup := dedup && (window_step (depth tc) h (tag_of seed m)).2 in
  exists r s tc', fd_txn_verify tc seed (payload m) (payload_sz m) (describe t) dedup = Ok (r, s, tc') /\ depth tc' = depth tc /\
    if dup then r = FD_TXN_VERIFY_DEDUP /\ tc' = tc
    else (signed m t /\ r = FD_TXN_VERIFY_SUCCESS /\ s = tag_of seed m /\ recent tc' (if dedup then tag_of seed m :: h else h)) \/ (~ signed m t /\ r = FD_TXN_VERIFY_FAILED /\ tc' = tc).
Proof using Type.
  intros [Hb Hs] Ht R. destruct (is_txn_wf m t Ht) as (_ & _ & _ & Eo & Hl). destruct (verify_inputs m t Ht) as (E1 & E2 & E3 & Hc). cbv zeta. unfold fd_txn_verify. rewrite Eo, (dedup_tag_ok seed m Hb Hl). cbn [mbind res_bind]. pose proof (recent_query tc h (tag_of seed m) R) as Eq.
  assert (Ed : (if dedup then query tc (tag_of seed m) else Ok false) = Ok (dedup && (window_step (depth tc) h (tag_of seed m)).2)) by (by destruct dedup). rewrite Ed. cbn [mbind res_bind]. destruct (dedup && (window_step (depth tc) h (tag_of seed m)).2) eqn:Edup; [by exists FD_TXN_VERIFY_DEDUP, 0, tc|].
  rewrite E1. cbn [mbind res_bind]. rewrite E2. cbn [mbind res_bind]. rewrite E3. cbn [mbind res_bind]. unfold fd_ed25519_verify_batch_single_msg. unfold FD_TXN_ACTUAL_SIG_MAX in *. rewrite (proj2 (Z.eqb_neq _ 0)), !(proj2 (Z.ltb_ge _ _)) by lia. cbn [orb mbind res_bind].
  destruct (Z.eqb_spec (ed25519_batch (drop (1 + 64 * length (t_signatures t)) (payload m)) (concat (t_signatures t)) (concat (take (length (t_signatures t)) (t_addrs t)))) FD_ED25519_SUCCESS) as [Es|Es]; cbn [negb].
  - destruct dedup; cbn [andb mbind res_bind] in *.
    + destruct (recent_insert tc h (tag_of seed m) R) as (tc' & -> & R' & Hd). rewrite Edup. cbn [mbind res_bind]. exists FD_TXN_VERIFY_SUCCESS, (tag_of seed m), tc'. split; [done|]. split; [done|]. left. split; [done|]. split; [done|]. split; [done|]. unfold window_step in R', Edup. destruct (bool_decide _); done.
    + exists FD_TXN_VERIFY_SUCCESS, (tag_of seed m), tc. split; [done|]. split; [done|]. by left.
  - exists FD_TXN_VERIFY_FAILED, 0, tc. split; [done|]. split; [done|]. by right.
Qed.

(** ** What the verify tile does with a message *)

(** The tags of the transactions that passed, the newest first, the current bundle
    and whether one of its transactions was dropped. *)
Record vstate := mk_vstate { v_hist : list Z; v_bundle : Z; v_failed : bool }.

Definition is_bundle (m : fd_txn_m_t) : bool := negb (block_engine_bundle_id m =? 0).

(** A transaction of another bundle starts a new one. *)
Definition enter (s : vstate) (m : fd_txn_m_t) : vstate :=
  if is_bundle m && negb (block_engine_bundle_id m =? v_bundle s) then mk_vstate (v_hist s) (block_engine_bundle_id m) false else s.

Definition dropped (s : vstate) (m : fd_txn_m_t) : vstate := mk_vstate (v_hist s) (v_bundle s) (is_bundle m || v_failed s).

(** The tag is null or one of the last [d]. *)
Definition repeated (d seed : Z) (h : list Z) (m : fd_txn_m_t) : Prop := tag_of seed m = 0 \/ tag_of seed m ∈ take (Z.to_nat d) h.

(** The result, by the index of its counter, and the message that is sent on. *)
Inductive verify_spec (d seed : Z) (s : vstate) (m : fd_txn_m_t) : vstate -> Z -> option fd_txn_m_t -> Prop :=
| vs_peer_failure : is_bundle m = true -> v_failed (enter s m) = true -> verify_spec d seed s m (enter s m) 1 None
| vs_parse_failure : is_bundle m && v_failed (enter s m) = false -> (forall t, ~ is_txn m t) -> verify_spec d seed s m (dropped (enter s m) m) 2 None
| vs_duplicate t : is_bundle m = false -> is_txn m t -> repeated d seed (v_hist s) m -> verify_spec d seed s m s 3 None
| vs_bad_signature t : is_bundle m && v_failed (enter s m) = false -> is_txn m t -> (is_bundle m = false -> ~ repeated d seed (v_hist s) m) -> ~ signed m t -> verify_spec d seed s m (dropped (enter s m) m) 4 None
| vs_bundle_pass t : is_bundle m = true -> v_failed (enter s m) = false -> is_txn m t -> signed m t -> verify_spec d seed s m (enter s m) 0 (Some (parsed_as m t))
| vs_pass t : is_bundle m = false -> is_txn m t -> ~ repeated d seed (v_hist s) m -> signed m t -> verify_spec d seed s m (mk_vstate (tag_of seed m :: v_hist s) (v_bundle s) (v_failed s)) 0 (Some (parsed_as m t)).

Record verify_inv (d seed : Z) (ctx : fd_verify_ctx_t) (s : vstate) : Prop := mk_verify_inv {
  vi_depth : depth (tcache ctx) = d;
  vi_recent : recent (tcache ctx) (v_hist s);
  vi_seed : hashmap_seed ctx = seed;
  vi_bundle : bundle_id ctx = v_bundle s /\ bundle_failed ctx = v_failed s;
  vi_result : length (verify_tile_result ctx) = 5%nat;
}.

Lemma bump_ok (r : list Z) i : 0 <= i < Z.of_nat (length r) -> exists n, r !! Z.to_nat i = Some n /\ bump r i = Ok (<[Z.to_nat i := u64 (n + 1)]> r).
Proof using Type. intros Hi. unfold bump. destruct (aget_ok r i Hi) as (n & -> & E). cbn [mbind res_bind]. exists n. split; [done|]. by apply aset_ok. Qed.

(** One more result of kind [i]. *)
Definition counted (i : Z) (r r' : list Z) : Prop := exists n, r !! Z.to_nat i = Some n /\ r' = <[Z.to_nat i := u64 (n + 1)]> r.

Lemma verify_count_ok d seed ctx s i : verify_inv d seed ctx s -> 0 <= i < 5 -> exists ctx', verify_count ctx i = Ok ctx' /\ verify_inv d seed ctx' s /\ counted i (verify_tile_result ctx) (verify_tile_result ctx').
Proof using Type.
  intros [I1 I2 I3 I4 I5] Hi. unfold verify_count. destruct (bump_ok (verify_tile_result ctx) i) as (n & E & ->); [rewrite I5; lia|]. cbn [mbind res_bind]. eexists. split; [done|]. split; [|by exists n]. split; try done. cbn [verify_tile_result]. by rewrite length_insert.
Qed.

Lemma repeated_window d seed h m : (window_step d h (tag_of seed m)).2 = true <-> repeated d seed h m.
Proof using Type. unfold window_step, repeated. destruct (bool_decide_reflect (tag_of seed m = 0 \/ tag_of seed m ∈ take (Z.to_nat d) h)); cbn; split; done. Qed.

Lemma verify_fail_ok d seed ctx s m : verify_inv d seed ctx s -> verify_inv d seed (verify_fail_bundle ctx (is_bundle m)) (dropped s m).
Proof using Type. intros [I1 I2 I3 [I4 I4'] I5]. unfold verify_fail_bundle, dropped. destruct (is_bundle m); cbn [orb]; split; try done. Qed.

Definition verify_enter (ctx : fd_verify_ctx_t) (m : fd_txn_m_t) : fd_verify_ctx_t :=
  if is_bundle m && negb (block_engine_bundle_id m =? bundle_id ctx) then verify_set_bundle ctx false (block_engine_bundle_id m) else ctx.

Lemma verify_enter_ok d seed ctx s m : verify_inv d seed ctx s -> verify_inv d seed (verify_enter ctx m) (enter s m) /\ verify_tile_result (verify_enter ctx m) = verify_tile_result ctx.
Proof using Type. intros [I1 I2 I3 [I4 I4'] I5]. unfold verify_enter, enter. rewrite I4. by destruct (is_bundle m && negb (block_engine_bundle_id m =? v_bundle s)). Qed.

(** A transaction outside of a bundle leaves the bundle alone. *)
Lemma enter_other s m : is_bundle m = false -> enter s m = s /\ dropped s m = s.
Proof using Type. intros E. unfold enter, dropped. rewrite E. by destruct s. Qed.

Lemma verify_step_ok d seed ctx s kind m : verify_inv d seed ctx s -> frag_ok m ->
  exists ctx' s' i out, verify_after_frag ctx kind m = Ok (ctx', out) /\ verify_spec d seed s m s' i out /\ verify_inv d seed ctx' s' /\ counted i (verify_tile_result ctx) (verify_tile_result ctx').
Proof using Type.
  intros I0 Hf. unfold verify_after_frag. assert (Ec : verify_tile_result (verify_count_gossip ctx kind) = verify_tile_result ctx) by (by destruct kind). assert (I1 : verify_inv d seed (verify_count_gossip ctx kind) s) by (destruct I0; by destruct kind). rewrite <- Ec. clear I0 Ec. generalize dependent (verify_count_gossip ctx kind). clear ctx kind. intros c1 I1.
  rewrite (proj2 (Z.ltb_ge _ _)) by apply Hf. destruct (verify_enter_ok d seed c1 s m I1) as [I2 Er]. rewrite <- Er. destruct (parse_frag m Hf) as [(t & o & Ht & -> & Es & Hfp)|((o & -> & Es) & Hno)]; cbn [mbind res_bind].
  - rewrite Es. cbn [parsed_as block_engine_bundle_id txn_t_sz txn_t payload]. fold (is_bundle m) (verify_enter c1 m). clear Er I1. generalize dependent (verify_enter c1 m). clear c1. intros c2 I2. pose proof I2 as [J1 J2 J3 [J4 J4'] J5]. rewrite J4'. destruct (is_bundle m && v_failed (enter s m)) eqn:Eb.
    + apply andb_true_iff in Eb as [Eb Ef]. destruct (verify_count_ok d seed c2 _ 1 I2 ltac:(lia)) as (c3 & -> & I3 & Hc). cbn [mbind res_bind]. exists c3, (enter s m), 1, None. split; [done|]. split; [by apply vs_peer_failure|done].
    + rewrite (proj2 (Z.eqb_neq _ 0)) by done. cbn [deref mbind res_bind]. change (payload_sz (parsed_as m t)) with (payload_sz m). rewrite J3. destruct (txn_verify_ok (tcache c2) (v_hist (enter s m)) seed m t (negb (is_bundle m)) Hf Ht J2) as (r & sg & tc' & -> & Hd & Hr). cbn [mbind res_bind]. rewrite J1 in Hr, Hd.
      assert (Eh : v_hist (enter s m) = v_hist s) by (unfold enter; by destruct (is_bundle m && negb (block_engine_bundle_id m =? v_bundle s))). rewrite Eh in *.
      destruct (negb (is_bundle m) && (window_step d (v_hist s) (tag_of seed m)).2) eqn:Ed.
      * destruct Hr as [-> ->]. apply andb_true_iff in Ed as [Enb Ed]. apply negb_true_iff in Enb. apply repeated_window in Ed. change (FD_TXN_VERIFY_DEDUP =? FD_TXN_VERIFY_SUCCESS) with false. change (FD_TXN_VERIFY_DEDUP =? FD_TXN_VERIFY_DEDUP) with true. cbn [negb]. rewrite Enb. cbn [verify_fail_bundle].
        assert (I3 : verify_inv d seed (verify_set_tcache c2 (tcache c2)) s) by (destruct (enter_other s m Enb) as [E' _]; rewrite E' in *; by split). destruct (verify_count_ok d seed _ _ 3 I3 ltac:(lia)) as (c4 & -> & I4 & Hc). cbn [mbind res_bind]. exists c4, s, 3, None. split; [done|]. split; [by apply (vs_duplicate d seed s m t)|done].
      * assert (Hnr : is_bundle m = false -> ~ repeated d seed (v_hist s) m) by (intros Enb Hrep; apply repeated_window in Hrep; rewrite Enb, Hrep in Ed; done). destruct Hr as [(Hsg & -> & _ & R')|(Hsg & -> & ->)].
        -- change (FD_TXN_VERIFY_SUCCESS =? FD_TXN_VERIFY_SUCCESS) with true. cbn [negb]. destruct (is_bundle m) eqn:Ebm; cbn [negb andb] in *.
           ++ assert (I3 : verify_inv d seed (verify_set_tcache c2 tc') (enter s m)) by (split; try done; by rewrite Eh). destruct (verify_count_ok d seed _ _ 0 I3 ltac:(lia)) as (c4 & -> & I4 & Hc). cbn [mbind res_bind]. eexists c4, (enter s m), 0, _. split; [done|]. split; [by apply (vs_bundle_pass d seed s m t)|done].
           ++ destruct (enter_other s m Ebm) as [E' _]. rewrite E' in *. assert (I3 : verify_inv d seed (verify_set_tcache c2 tc') (mk_vstate (tag_of seed m :: v_hist s) (v_bundle s) (v_failed s))) by (by split). destruct (verify_count_ok d seed _ _ 0 I3 ltac:(lia)) as (c4 & -> & I4 & Hc). cbn [mbind res_bind]. eexists c4, _, 0, _. split; [done|]. split; [apply (vs_pass d seed s m t); try done; by apply Hnr|done].
        -- change (FD_TXN_VERIFY_FAILED =? FD_TXN_VERIFY_SUCCESS) with false. change (FD_TXN_VERIFY_FAILED =? FD_TXN_VERIFY_DEDUP) with false. cbn [negb]. assert (I3 : verify_inv d seed (verify_set_tcache c2 (tcache c2)) (enter s m)) by (split; try done; by rewrite Eh). apply (verify_fail_ok d seed _ _ m) in I3. destruct (verify_count_ok d seed _ _ 4 I3 ltac:(lia)) as (c4 & -> & I4 & Hc). cbn [mbind res_bind]. exists c4, (dropped (enter s m) m), 4, None. split; [done|]. split; [by apply (vs_bad_signature d seed s m t)|]. split; [done|]. by destruct (is_bundle m).
  - change (block_engine_bundle_id (set_txn_t m o)) with (block_engine_bundle_id m). fold (is_bundle m) (verify_enter c1 m). clear Er I1. generalize dependent (verify_enter c1 m). clear c1. intros c2 I2. pose proof I2 as [J1 J2 J3 [J4 J4'] J5]. rewrite J4', Es. destruct (is_bundle m && v_failed (enter s m)) eqn:Eb.
    + apply andb_true_iff in Eb as [Eb Ef]. destruct (verify_count_ok d seed c2 _ 1 I2 ltac:(lia)) as (c3 & -> & I3 & Hc). cbn [mbind res_bind]. exists c3, (enter s m), 1, None. split; [done|]. split; [by apply vs_peer_failure|done].
    + cbn [Z.eqb]. pose proof (verify_fail_ok d seed _ _ m I2) as I3. destruct (verify_count_ok d seed _ _ 2 I3 ltac:(lia)) as (c4 & -> & I4 & Hc). cbn [mbind res_bind]. exists c4, (dropped (enter s m) m), 2, None. split; [done|]. split; [by apply vs_parse_failure|]. split; [done|]. by destruct (is_bundle m).
Qed.

(** ** Runs of the verify tile *)

Definition verify_init (idx cnt seed : Z) (t : fd_tcache_t) : fd_verify_ctx_t := mk_verify false 0 idx cnt t seed (replicate 5 0) 0.

Fixpoint verify_run (ctx : fd_verify_ctx_t) (frags : list (verify_in_kind * fd_txn_m_t)) : res (fd_verify_ctx_t * list (option fd_txn_m_t)) :=
  match frags with
  | [] => Ok (ctx, [])
  | (kind, m) :: frags => '(ctx, o) ← verify_after_frag ctx kind m; '(ctx, os) ← verify_run ctx frags; Ok (ctx, o :: os)
  end.

Inductive verify_trace (d seed : Z) : vstate -> list fd_txn_m_t -> vstate -> list Z -> list (option fd_txn_m_t) -> Prop :=
| vt_nil s : verify_trace d seed s [] s [] []
| vt_cons s m s1 i o ms s2 ks os : verify_spec d seed s m s1 i o -> verify_trace d seed s1 ms s2 ks os -> verify_trace d seed s (m :: ms) s2 (i :: ks) (o :: os).

(** How often the result [k] occurs. *)
Definition occurrences (k : Z) (ks : list Z) : Z := len (filter (fun i => i = k) ks).

Lemma counted_ok i r r' k n : 0 <= i -> 0 <= k -> counted i r r' -> r !! Z.to_nat k = Some n -> exists n', r' !! Z.to_nat k = Some n' /\ u64 n' = u64 (n + Z.b2z (i =? k)).
Proof using Type.
  intros Hi Hk (n0 & E0 & ->) E. apply lookup_lt_Some in E as Hlt. destruct (Z.eqb_spec i k) as [->|Hne]; cbn [Z.b2z].
  - rewrite list_lookup_insert_eq by done. eexists. split; [done|]. assert (n0 = n) as -> by congruence. unfold u64. by rewrite Z.mod_mod.
  - rewrite list_lookup_insert_ne by lia. exists n. split; [done|]. by rewrite Z.add_0_r.
Qed.

Lemma verify_spec_idx d seed s m s' i o : verify_spec d seed s m s' i o -> 0 <= i < 5.
Proof using Type. intros []; lia. Qed.

Lemma verify_run_ok d seed frags : forall ctx s, verify_inv d seed ctx s -> Forall (fun f => frag_ok f.2) frags ->
  exists ctx' s' ks outs, verify_run ctx frags = Ok (ctx', outs) /\ verify_trace d seed s (frags.*2) s' ks outs /\ verify_inv d seed ctx' s' /\
    forall k n, 0 <= k -> verify_tile_result ctx !! Z.to_nat k = Some n -> exists n', verify_tile_result ctx' !! Z.to_nat k = Some n' /\ u64 n' = u64 (n + occurrences k ks).
Proof using Type.
  induction frags as [|[kind m] frags IH]; intros ctx s I Hf; cbn [verify_run].
  - exists ctx, s, [], []. split; [done|]. split; [constructor|]. split; [done|]. intros k n _ E. exists n. split; [done|]. by rewrite Z.add_0_r.
  - apply Forall_cons in Hf as [Hm Hf]. cbn [snd] in Hm. destruct (verify_step_ok d seed ctx s kind m I Hm) as (c1 & s1 & i & o & -> & Hs & I1 & Hc1). cbn [mbind res_bind]. destruct (IH c1 s1 I1 Hf) as (c2 & s2 & ks & os & -> & Ht & I2 & Hc2). cbn [mbind res_bind]. exists c2, s2, (i :: ks), (o :: os). split; [done|]. split; [by econstructor|]. split; [done|].
    intros k n Hk E. pose proof (verify_spec_idx _ _ _ _ _ _ _ Hs) as Hi. destruct (counted_ok i _ _ k n ltac:(lia) Hk Hc1 E) as (n1 & E1 & U1). destruct (Hc2 k n1 Hk E1) as (n2 & E2 & U2). exists n2. split; [done|]. rewrite U2. unfold occurrences, len in *. rewrite filter_cons. unfold u64 in *. rewrite <- Zplus_mod_idemp_l, U1, Zplus_mod_idemp_l. f_equal. destruct (Z.eqb_spec i k) as [->|Hne]; [rewrite decide_True by done|rewrite decide_False by done]; cbn [Z.b2z length]; lia.
Qed.

Lemma tcache_new_inv shmem d mc t : is_u64 d -> is_u64 mc -> fd_tcache_new shmem d mc = Ok (Some t) -> recent t [] /\ depth t = d.
Proof using Type.
  intros Hd Hmc E. pose proof E as E0. unfold fd_tcache_new in E. cbv zeta in E. destruct (Z.eqb_spec shmem 0); [done|]. destruct (Z.eqb_spec (shmem mod FD_TCACHE_ALIGN) 0) as [Ha|]; [|done]. cbn [negb] in E. rewrite footprint_default in E. destruct (Z.eqb_spec (fd_tcache_footprint d mc) 0) as [|Hf]; [done|]. destruct (tcache_new_ok shmem d mc Hd Hmc ltac:(done) Ha Hf) as (t' & E' & C & Ed & _). assert (t' = t) as -> by congruence. split; [by apply recent_new|done].
Qed.

Lemma verify_init_ok d idx cnt seed t : recent t [] -> depth t = d -> verify_inv d seed (verify_init idx cnt seed t) (mk_vstate [] 0 false).
Proof using Type. intros R E. by split. Qed.

(** ** What the dedup tile does with a message *)

(** What arrives: a transaction (from gossip or a verify tile), or the notice that
    one was executed. *)
Inductive dedup_in := DTxn (kind : dedup_in_kind) (m : fd_txn_m_t) | DReplay (sig : Z) (e : fd_replay_txn_executed_t) | DExecuted (src : list Z).

Definition dedup_step (ctx : fd_dedup_ctx_t) (i : dedup_in) : res (fd_dedup_ctx_t * option (fd_txn_m_t * Z)) :=
  match i with
  | DTxn kind m => dedup_after_frag ctx kind m
  | DReplay sig e => ctx ← dedup_during_replay ctx sig e; Ok (ctx, None)
  | DExecuted src => ctx ← dedup_during_executed ctx src; Ok (ctx, None)
  end.

(** What the producers guarantee: payloads from the verify tiles are parsed, those
    from gossip can be. *)
Definition dedup_in_ok (i : dedup_in) : Prop :=
  match i with
  | DTxn kind m => frag_ok m /\ exists t, is_txn m t /\
      match kind with DEDUP_IN_GOSSIP => True | DEDUP_IN_VERIFY => txn_t m = Some (describe t) | _ => False end
  | DReplay _ e => Forall is_byte (ex_payload e) /\ 0 <= signature_off (ex_txn e) /\ signature_off (ex_txn e) + 64 <= len (ex_payload e)
  | DExecuted src => Forall is_byte src /\ len src = 64
  end.

(** The signature of an executed transaction. *)
Definition executed_sig (i : dedup_in) : option (list Z) :=
  match i with
  | DTxn _ _ => None
  | DReplay sig e => if (sig =? REPLAY_SIG_TXN_EXECUTED) && is_committable e then Some (take 64 (drop (Z.to_nat (signature_off (ex_txn e))) (ex_payload e))) else None
  | DExecuted src => Some src
  end.

(** As for the verify tile, with the signatures of the bundle so far. *)
Record dstate := mk_dstate { s_hist : list Z; s_bundle : Z; s_failed : bool; s_seen : list (list Z) }.

Definition d_enter (s : dstate) (m : fd_txn_m_t) : dstate :=
  if is_bundle m && negb (block_engine_bundle_id m =? s_bundle s) then mk_dstate (s_hist s) (block_engine_bundle_id m) false [] else s.

Definition with_hist (s : dstate) (h : list Z) : dstate := mk_dstate h (s_bundle s) (s_failed s) (s_seen s).
Definition with_sig (s : dstate) (failed : bool) (sig : list Z) : dstate := mk_dstate (s_hist s) (s_bundle s) failed (s_seen s ++ [sig]).

(** The message that is sent on. *)
Definition sent (kind : dedup_in_kind) (m : fd_txn_m_t) (t : transaction) : fd_txn_m_t := match kind with DEDUP_IN_GOSSIP => parsed_as m t | _ => m end.

Inductive dedup_spec (d seed : Z) (s : dstate) : dedup_in -> dstate -> option (fd_txn_m_t * Z) -> Prop :=
| ds_executed i sig : executed_sig i = Some sig -> dedup_spec d seed s i (with_hist s (window_step d (s_hist s) (sig_tag seed sig)).1) None
| ds_ignored sig e : executed_sig (DReplay sig e) = None -> dedup_spec d seed s (DReplay sig e) s None
| ds_peer_failure kind m : is_bundle m = true -> s_failed (d_enter s m) = true -> dedup_spec d seed s (DTxn kind m) (d_enter s m) None
| ds_duplicate kind m : is_bundle m = false -> repeated d seed (s_hist s) m -> dedup_spec d seed s (DTxn kind m) s None
| ds_pass kind m t : is_bundle m = false -> is_txn m t -> ~ repeated d seed (s_hist s) m -> dedup_spec d seed s (DTxn kind m) (with_hist s (tag_of seed m :: s_hist s)) (Some (sent kind m t, 0))
| ds_bundle_duplicate kind m : is_bundle m = true -> s_failed (d_enter s m) = false -> first_sig m ∈ s_seen (d_enter s m) -> dedup_spec d seed s (DTxn kind m) (with_sig (d_enter s m) true (first_sig m)) None
| ds_bundle_pass kind m t : is_bundle m = true -> s_failed (d_enter s m) = false -> is_txn m t -> first_sig m ∉ s_seen (d_enter s m) -> dedup_spec d seed s (DTxn kind m) (with_sig (d_enter s m) false (first_sig m)) (Some (sent kind m t, 1)).

Record dedup_inv (d seed : Z) (ctx : fd_dedup_ctx_t) (s : dstate) : Prop := mk_dedup_inv {
  di_depth : depth (d_tcache ctx) = d;
  di_recent : recent (d_tcache ctx) (s_hist s);
  di_seed : d_hashmap_seed ctx = seed;
  di_bundle : d_bundle_id ctx = s_bundle s /\ d_bundle_failed ctx = s_failed s;
  di_idx : d_bundle_idx ctx = len (s_seen s);
  di_sigs : length (d_bundle_signatures ctx) = 4%nat /\ forall i, (i < 4)%nat -> (i < length (s_seen s))%nat -> d_bundle_signatures ctx !! i = s_seen s !! i;
  di_result : length (d_tile_result ctx) = 3%nat;
}.

Lemma dedup_count_ok d seed ctx s i : dedup_inv d seed ctx s -> 0 <= i < 3 -> exists ctx', dedup_count ctx i = Ok ctx' /\ dedup_inv d seed ctx' s.
Proof using Type.
  intros [I1 I2 I3 I4 I5 I6 I7] Hi. unfold dedup_count. destruct (bump_ok (d_tile_result ctx) i) as (n & E & ->); [rewrite I7; lia|]. cbn [mbind res_bind]. eexists. split; [done|]. split; try done. cbn [d_tile_result]. by rewrite length_insert.
Qed.

Lemma bundle_dup_ok sigs sig seen : forall n k, (k + n = length seen)%nat -> (length seen <= 4)%nat -> length sigs = 4%nat -> (forall i, (i < 4)%nat -> (i < length seen)%nat -> sigs !! i = seen !! i) ->
  bundle_dup sigs sig (Z.of_nat k) n = Ok (bool_decide (sig ∈ drop k seen)).
Proof using Type.
  induction n as [|n IH]; intros k Hk Hl Hs Hi; cbn [bundle_dup].
  - rewrite drop_ge by lia. by rewrite bool_decide_eq_false_2 by apply not_elem_of_nil.
  - destruct (aget_ok sigs (Z.of_nat k) ltac:(lia)) as (x & -> & Ex). cbn [mbind res_bind]. rewrite Nat2Z.id, Hi in Ex by lia. rewrite (drop_S seen x k Ex). destruct (bool_decide_reflect (x = sig)) as [->|Hne]; [rewrite bool_decide_eq_true_2; [done|]; by left|].
    replace (Z.of_nat k + 1) with (Z.of_nat (S k)) by lia. rewrite IH by (done || lia). f_equal. apply bool_decide_ext. rewrite elem_of_cons. split; [by right|]. intros [?|?]; [congruence|done].
Qed.

Lemma dedup_insert_ok d seed ctx s p off : dedup_inv d seed ctx s -> Forall is_byte p -> 0 <= off -> off + 64 <= len p ->
  let w := window_step d (s_hist s) (sig_tag seed (take 64 (drop (Z.to_nat off) p))) in
  exists ctx', dedup_insert ctx p off = Ok (w.2, ctx') /\ dedup_inv d seed ctx' (with_hist s w.1).
Proof using Type.
  intros [I1 I2 I3 I4 I5 I6 I7] Hb Ho Hl. cbv zeta. unfold dedup_insert. rewrite I3, dedup_tag_sig by done. cbn [mbind res_bind]. destruct (recent_insert (d_tcache ctx) (s_hist s) (sig_tag seed (take 64 (drop (Z.to_nat off) p))) I2) as (t' & -> & R & Hd). cbn [mbind res_bind]. rewrite I1 in *. eexists. split; [done|]. split; done.
Qed.

Lemma with_hist_id s : with_hist s (s_hist s) = s.
Proof using Type. by destruct s. Qed.

Lemma d_enter_ok d seed ctx s m : dedup_inv d seed ctx s ->
  dedup_inv d seed (if negb (block_engine_bundle_id m =? 0) && negb (block_engine_bundle_id m =? d_bundle_id ctx) then dedup_set_bundle ctx false (block_engine_bundle_id m) 0 (d_bundle_signatures ctx) else ctx) (d_enter s m).
Proof using Type.
  intros [I1 I2 I3 [I4 I4'] I5 [I6 I6'] I7]. fold (is_bundle m). unfold d_enter. rewrite I4. destruct (is_bundle m && negb (block_engine_bundle_id m =? s_bundle s)); split; try done. cbn [d_bundle_signatures dedup_set_bundle s_seen length]. split; [done|]. intros. lia.
Qed.

(** The signature of a bundle's transaction is looked up and recorded. *)
Lemma bundle_check_ok d seed ctx s m : dedup_inv d seed ctx s -> (length (s_seen s) <= 4)%nat -> 65 <= len (payload m) ->
  exists sigs, (sig ← read (bytes (payload m)) 1 64; is_dup ← bundle_dup (d_bundle_signatures ctx) sig 0 (Z.to_nat (d_bundle_idx ctx)); sigs ← (if d_bundle_idx ctx =? 4 then Ok (d_bundle_signatures ctx) else aset (d_bundle_signatures ctx) (d_bundle_idx ctx) sig);
      Ok (is_dup, dedup_set_bundle ctx (d_bundle_failed ctx) (d_bundle_id ctx) (d_bundle_idx ctx + 1) sigs)) =
    Ok (bool_decide (first_sig m ∈ s_seen s), dedup_set_bundle ctx (d_bundle_failed ctx) (d_bundle_id ctx) (d_bundle_idx ctx + 1) sigs) /\
    forall failed, dedup_inv d seed (dedup_set_bundle ctx failed (d_bundle_id ctx) (d_bundle_idx ctx + 1) sigs) (with_sig s failed (first_sig m)).
Proof using Type.
  intros [I1 I2 I3 [I4 I4'] I5 [I6 I6'] I7] Hs Hl. rewrite <- (app_nil_r (bytes (payload m))), read_bytes by (unfold len in Hl; lia). cbn [mbind res_bind]. change (take (Z.to_nat 64) (drop (Z.to_nat 1) (payload m))) with (first_sig m). rewrite I5. replace (Z.to_nat (len (s_seen s))) with (length (s_seen s)) by (unfold len; lia). pose proof (bundle_dup_ok (d_bundle_signatures ctx) (first_sig m) (s_seen s) (length (s_seen s)) 0 ltac:(lia) Hs I6 I6') as Eb. change (Z.of_nat 0) with 0 in Eb. rewrite drop_0 in Eb. rewrite Eb. cbn [mbind res_bind].
  destruct (Z.eqb_spec (len (s_seen s)) 4) as [E4|Hne]; unfold len in *.
  - cbn [mbind res_bind]. eexists. split; [done|]. intros failed. split; try done; cbn [dedup_set_bundle d_bundle_idx d_bundle_signatures with_sig s_seen]; [unfold len; rewrite length_app; cbn; lia|]. split; [done|]. intros i Hi _. rewrite lookup_app_l by lia. apply I6'; lia.
  - rewrite aset_ok by lia. cbn [mbind res_bind]. eexists. split; [done|]. intros failed. split; try done; cbn [dedup_set_bundle d_bundle_idx d_bundle_signatures with_sig s_seen]; [unfold len; rewrite length_app; cbn; lia|]. rewrite length_insert, Nat2Z.id. split; [done|]. rewrite length_app. cbn [length]. intros i Hi Hi'. destruct (decide (i = length (s_seen s))) as [->|Hi2].
    + rewrite list_lookup_insert_eq by lia. rewrite lookup_app_r, Nat.sub_diag by lia. done.
    + rewrite list_lookup_insert_ne by lia. rewrite lookup_app_l by lia. apply I6'; lia.
Qed.

(** A payload is at most one transaction. *)
Lemma is_txn_unique m t t' : is_txn m t -> is_txn m t' -> t = t'.
Proof using Type.
  intros (Hok & Hm & rest & E & Hr) (Hok' & _ & rest' & E' & Hr'). rewrite (Hr eq_refl) in E. rewrite (Hr' eq_refl) in E'.
  assert (Hp : forall u, transaction_ok u -> payload m = encode_txn u ++ [] -> parse_body (bytes (payload m)) (len (payload m)) None false = Ok (inr (describe u, footprint u, len (encode_txn u)))).
  { intros u Hu Eu. apply (body_complete (payload m) Hm None ltac:(done) u [] false); try done. split; [pose proof (len_nonneg (payload m)); lia|]. by rewrite drop_0. }
  assert (Ed : describe t = describe t') by (pose proof (Hp t Hok E) as E1; rewrite (Hp t' Hok' E') in E1; congruence). apply (describes_unique (payload m) t t' (describe t)); try done; [by apply (describe_ok _ t [])|rewrite Ed; by apply (describe_ok _ t' [])].
Qed.

Lemma dedup_executed_ok d seed ctx s p off : dedup_inv d seed ctx s -> Forall is_byte p -> 0 <= off -> off + 64 <= len p ->
  exists ctx', ('(_, ctx) ← dedup_insert ctx p off; Ok ctx) = Ok ctx' /\ dedup_inv d seed ctx' (with_hist s (window_step d (s_hist s) (sig_tag seed (take 64 (drop (Z.to_nat off) p)))).1).
Proof using Type. intros I Hb Ho Hl. destruct (dedup_insert_ok d seed ctx s p off I Hb Ho Hl) as (ctx' & -> & I'). by exists ctx'. Qed.

(** The part of the handler behind the check for failed peers. *)
Lemma dedup_txn_ok d seed ctx s s0 kind m t : dedup_inv d seed ctx s -> s = d_enter s0 m -> frag_ok m -> is_txn m t -> (is_bundle m = true -> s_failed s = false /\ (length (s_seen s) <= 4)%nat) ->
  exists ctx' s' out, ('(is_dup, ctx) ←
        (if block_engine_bundle_id m =? 0 then dedup_insert ctx (payload m) (signature_off (describe t))
         else if 4 <? d_bundle_idx ctx then Crit
         else
           sig ← read (bytes (payload m)) (signature_off (describe t)) 64;
           is_dup ← bundle_dup (d_bundle_signatures ctx) sig 0 (Z.to_nat (d_bundle_idx ctx));
           sigs ← (if d_bundle_idx ctx =? 4 then Ok (d_bundle_signatures ctx) else aset (d_bundle_signatures ctx) (d_bundle_idx ctx) sig);
           Ok (is_dup, dedup_set_bundle ctx (d_bundle_failed ctx) (d_bundle_id ctx) (d_bundle_idx ctx + 1) sigs));
      if (is_dup : bool) then
        let ctx := if negb (block_engine_bundle_id m =? 0) then dedup_set_bundle ctx true (d_bundle_id ctx) (d_bundle_idx ctx) (d_bundle_signatures ctx) else ctx in
        ctx ← dedup_count ctx 2; Ok (ctx, None)
      else
        let out_sig := Z.b2z (negb (block_engine_bundle_id m =? 0)) in
        ctx ← dedup_count ctx 0; Ok (ctx, Some (sent kind m t, out_sig))) = Ok (ctx', out) /\ dedup_spec d seed s0 (DTxn kind m) s' out /\ dedup_inv d seed ctx' s'.
Proof using Type.
  intros I Es [Hb Hsz] Ht Hbl. destruct (is_txn_wf m t Ht) as (_ & _ & _ & Eo & Hl). rewrite Eo. change (negb (block_engine_bundle_id m =? 0)) with (is_bundle m). assert (Eb : (block_engine_bundle_id m =? 0) = negb (is_bundle m)) by (unfold is_bundle; by rewrite negb_involutive). rewrite Eb. destruct (is_bundle m) eqn:Ebm; cbn [negb].
  - destruct (Hbl eq_refl) as [Hf Hn]. pose proof (di_idx _ _ _ _ I) as Ei. rewrite (proj2 (Z.ltb_ge 4 _)) by (rewrite Ei; unfold len; lia). destruct (bundle_check_ok d seed ctx s m I Hn Hl) as (sigs & -> & I'). cbn [mbind res_bind]. destruct (bool_decide_reflect (first_sig m ∈ s_seen s)) as [Hin|Hno].
    + specialize (I' true). cbn [dedup_set_bundle d_tcache d_bundle_id d_bundle_idx d_bundle_signatures d_hashmap_seed d_tile_result] in *. destruct (dedup_count_ok d seed _ _ 2 I' ltac:(lia)) as (c2 & Ec & I2). unfold dedup_set_bundle in *. cbn [d_tcache d_bundle_id d_bundle_idx d_bundle_signatures d_hashmap_seed d_tile_result]. rewrite Ec. cbn [mbind res_bind]. exists c2, (with_sig s true (first_sig m)), None. split; [done|]. split; [|done]. subst s. by apply ds_bundle_duplicate.
    + specialize (I' false). pose proof (proj2 (di_bundle _ _ _ _ I)) as Ef. rewrite Ef, Hf in *. destruct (dedup_count_ok d seed _ _ 0 I' ltac:(lia)) as (c2 & -> & I2). cbn [mbind res_bind]. eexists c2, (with_sig s false (first_sig m)), _. split; [done|]. split; [|done]. subst s. cbn [Z.b2z]. by apply (ds_bundle_pass d seed s0 kind m t).
  - assert (E0 : d_enter s0 m = s0) by (unfold d_enter; by rewrite Ebm). rewrite E0 in Es. subst s. destruct (dedup_insert_ok d seed ctx s0 (payload m) 1 I Hb ltac:(lia) ltac:(lia)) as (c1 & -> & I1). cbn [mbind res_bind]. change (sig_tag seed (take 64 (drop (Z.to_nat 1) (payload m)))) with (tag_of seed m) in *. destruct ((window_step d (s_hist s0) (tag_of seed m)).2) eqn:Ew.
    + pose proof Ew as Hr. apply repeated_window in Hr. assert (E1 : (window_step d (s_hist s0) (tag_of seed m)).1 = s_hist s0) by (unfold window_step in *; by destruct (bool_decide _)). rewrite E1, with_hist_id in I1. cbv zeta. destruct (dedup_count_ok d seed _ _ 2 I1 ltac:(lia)) as (c2 & -> & I2). cbn [mbind res_bind]. exists c2, s0, None. split; [done|]. split; [by apply ds_duplicate|done].
    + assert (Hr : ~ repeated d seed (s_hist s0) m) by (intros Hr; apply repeated_window in Hr; congruence). assert (E1 : (window_step d (s_hist s0) (tag_of seed m)).1 = tag_of seed m :: s_hist s0) by (unfold window_step in *; by destruct (bool_decide _)). rewrite E1 in I1. cbv zeta. destruct (dedup_count_ok d seed _ _ 0 I1 ltac:(lia)) as (c2 & -> & I2). cbn [mbind res_bind]. eexists c2, _, _. split; [done|]. split; [|done]. by apply (ds_pass d seed s0 kind m t).
Qed.

Lemma dedup_step_ok d seed ctx s i : dedup_inv d seed ctx s -> dedup_in_ok i ->
  (forall kind m, i = DTxn kind m -> is_bundle m = true -> s_failed (d_enter s m) = false -> (length (s_seen (d_enter s m)) <= 4)%nat) ->
  exists ctx' s' out, dedup_step ctx i = Ok (ctx', out) /\ dedup_spec d seed s i s' out /\ dedup_inv d seed ctx' s'.
Proof using Type.
  intros I Hi Hbl. destruct i as [kind m|sig e|src]; cbn [dedup_step dedup_in_ok] in *.
  - destruct Hi as (Hf & t & Ht & Hk). unfold dedup_after_frag. destruct Hf as [Hb Hsz] eqn:Hfd. clear Hfd. rewrite (proj2 (Z.ltb_ge FD_TPU_MTU (payload_sz m))) by done. pose proof (d_enter_ok d seed ctx s m I) as I1. cbv zeta. set (c1 := if _ && _ then _ else ctx) in *. clearbody c1. change (negb (block_engine_bundle_id m =? 0)) with (is_bundle m). assert (Ef : is_bundle m && d_bundle_failed c1 = is_bundle m && s_failed (d_enter s m)) by (by rewrite (proj2 (di_bundle _ _ _ _ I1))). rewrite Ef.
    destruct (is_bundle m && s_failed (d_enter s m)) eqn:Efail.
    { apply andb_true_iff in Efail as [Ebm Efl]. destruct (dedup_count_ok d seed _ _ 1 I1 ltac:(lia)) as (c2 & -> & I2). destruct kind; try done; cbn [mbind res_bind]; exists c2, (d_enter s m), None; (split; [done|]); (split; [by apply ds_peer_failure|done]). }
    assert (Hbl' : is_bundle m = true -> s_failed (d_enter s m) = false /\ (length (s_seen (d_enter s m)) <= 4)%nat) by (intros Ebm; rewrite Ebm in Efail; cbn in Efail; split; [done|by apply (Hbl kind)]). pose proof (fun k => dedup_txn_ok d seed c1 _ s k m t I1 eq_refl (conj Hb Hsz) Ht Hbl') as Hfin.
    destruct kind; try done.
    + destruct (parse_frag m (conj Hb Hsz)) as [(t' & o & Ht' & -> & Es & Hfp)|(_ & Hno)]; [|by destruct (Hno t)]. cbn [mbind res_bind]. assert (t' = t) as -> by (by apply (is_txn_unique m)). rewrite Es. cbn [parsed_as txn_t_sz txn_t]. rewrite (proj2 (Z.eqb_neq (footprint t) 0)) by done. cbn [mbind res_bind deref]. exact (Hfin DEDUP_IN_GOSSIP).
    + cbn [mbind res_bind]. rewrite Hk. cbn [deref mbind res_bind]. exact (Hfin DEDUP_IN_VERIFY).
  - destruct Hi as (Hb & Ho & Hl). unfold dedup_during_replay. destruct (sig =? REPLAY_SIG_TXN_EXECUTED) eqn:Es; [|exists ctx, s, None; split; [done|]; split; [apply ds_ignored; cbn; by rewrite Es|done]]. destruct (is_committable e) eqn:Ec; cbn [negb]; [|exists ctx, s, None; split; [done|]; split; [apply ds_ignored; cbn; by rewrite Es, Ec|done]].
    destruct (dedup_executed_ok d seed ctx s (ex_payload e) (signature_off (ex_txn e)) I Hb Ho Hl) as (c1 & -> & I1). cbn [mbind res_bind]. eexists c1, _, None. split; [done|]. split; [|exact I1]. apply ds_executed. cbn. by rewrite Es, Ec.
  - destruct Hi as [Hb Hl]. unfold dedup_during_executed. rewrite (proj2 (Z.eqb_eq _ _)) by (unfold len in Hl; done). cbn [negb]. destruct (dedup_executed_ok d seed ctx s src 0 I Hb ltac:(lia) ltac:(lia)) as (c1 & -> & I1). cbn [mbind res_bind]. eexists c1, _, None. split; [done|]. split; [|exact I1]. apply ds_executed. cbn [executed_sig]. f_equal. rewrite drop_0, take_ge by (unfold len in Hl; lia). done.
Qed.

(** ** Runs of the dedup tile *)

Definition dedup_init (seed : Z) (t : fd_tcache_t) (sigs : list (list Z)) : fd_dedup_ctx_t := mk_dedup t false 0 0 sigs seed (replicate 3 0).

Fixpoint dedup_run (ctx : fd_dedup_ctx_t) (ins : list dedup_in) : res (fd_dedup_ctx_t * list (option (fd_txn_m_t * Z))) :=
  match ins with
  | [] => Ok (ctx, [])
  | i :: ins => '(ctx, o) ← dedup_step ctx i; '(ctx, os) ← dedup_run ctx ins; Ok (ctx, o :: os)
  end.

Inductive dedup_trace (d seed : Z) : dstate -> list dedup_in -> dstate -> list (option (fd_txn_m_t * Z)) -> Prop :=
| dt_nil s : dedup_trace d seed s [] s []
| dt_cons s i s1 o ins s2 os : dedup_spec d seed s i s1 o -> dedup_trace d seed s1 ins s2 os -> dedup_trace d seed s (i :: ins) s2 (o :: os).

(** A bundle has at most five transactions, as the bundle tile ensures: [cnt] are
    those of the current bundle [cur] so far. *)
Fixpoint bundles_ok (cur : Z) (cnt : nat) (ins : list dedup_in) : Prop :=
  match ins with
  | [] => True
  | DTxn _ m :: ins =>
      if is_bundle m then
        let cnt := if block_engine_bundle_id m =? cur then cnt else O in
        (cnt < 5)%nat /\ bundles_ok (block_engine_bundle_id m) (S cnt) ins
      else bundles_ok cur cnt ins
  | _ :: ins => bundles_ok cur cnt ins
  end.

(** How a step changes the bundle. *)
Lemma dedup_spec_bundle d seed s kind m s' o : dedup_spec d seed s (DTxn kind m) s' o ->
  s_bundle s' = s_bundle (d_enter s m) /\ (length (s_seen s') <= length (s_seen (d_enter s m)) + (if is_bundle m then 1 else 0))%nat.
Proof using Type.
  intros H. inversion H as [i sig E|sig e E|k m0 Eb Ef|k m0 Eb Hr|k m0 t Eb Ht Hr|k m0 Eb Ef Hin|k m0 t Eb Ef Ht Hin]; subst; try done; rewrite ?Eb; unfold with_hist, with_sig; cbn [s_bundle s_seen]; rewrite ?length_app; cbn [length]; unfold d_enter; rewrite ?Eb; cbn [andb]; split; try done; lia.
Qed.

Lemma dedup_spec_executed d seed s i s' o : dedup_spec d seed s i s' o -> (forall k m, i <> DTxn k m) -> s_bundle s' = s_bundle s /\ s_seen s' = s_seen s.
Proof using Type. intros H Hn. inversion H; subst; try done; by destruct (Hn kind m). Qed.

Lemma dedup_run_ok d seed ins : forall ctx s cnt, dedup_inv d seed ctx s -> Forall dedup_in_ok ins -> bundles_ok (s_bundle s) cnt ins -> (length (s_seen s) <= cnt)%nat ->
  exists ctx' s' outs, dedup_run ctx ins = Ok (ctx', outs) /\ dedup_trace d seed s ins s' outs /\ dedup_inv d seed ctx' s'.
Proof using Type.
  induction ins as [|i ins IH]; intros ctx s cnt I Hi Hb Hc; cbn [dedup_run]; [exists ctx, s, []; split; [done|]; split; [constructor|done]|]. apply Forall_cons in Hi as [Hi His].
  assert (Hlim : forall kind m, i = DTxn kind m -> is_bundle m = true -> s_failed (d_enter s m) = false -> (length (s_seen (d_enter s m)) <= 4)%nat).
  { intros kind m -> Ebm _. cbn [bundles_ok] in Hb. rewrite Ebm in Hb. unfold d_enter. rewrite Ebm. destruct (block_engine_bundle_id m =? s_bundle s); cbn [andb negb s_seen length] in *; lia. }
  destruct (dedup_step_ok d seed ctx s i I Hi Hlim) as (c1 & s1 & o & -> & Hs & I1). cbn [mbind res_bind].
  assert (Hnext : exists cnt', bundles_ok (s_bundle s1) cnt' ins /\ (length (s_seen s1) <= cnt')%nat).
  { destruct i as [kind m|sig e|src].
    - destruct (dedup_spec_bundle _ _ _ _ _ _ _ Hs) as [E1 E2]. rewrite E1. cbn [bundles_ok] in Hb. unfold d_enter in *. destruct (is_bundle m); cbn [andb] in *; [|exists cnt; split; [done|lia]]. destruct Hb as [Hlt Hb]. destruct (Z.eqb_spec (block_engine_bundle_id m) (s_bundle s)) as [Eid|Hne]; cbn [negb s_bundle s_seen length] in *.
      + exists (S cnt). split; [by rewrite <- Eid|lia].
      + exists 1%nat. split; [done|lia].
    - destruct (dedup_spec_executed _ _ _ _ _ _ Hs ltac:(done)) as [-> ->]. by exists cnt.
    - destruct (dedup_spec_executed _ _ _ _ _ _ Hs ltac:(done)) as [-> ->]. by exists cnt. }
  destruct Hnext as (cnt' & Hb' & Hc'). destruct (IH c1 s1 cnt' I1 His Hb' Hc') as (c2 & s2 & os & -> & Ht & I2). cbn [mbind res_bind]. exists c2, s2, (o :: os). split; [done|]. split; [by econstructor|done].
Qed.

(** ** No repetition within the window *)

(** Any [d] consecutive tags are distinct. *)
Definition distinct_windows (d : Z) (h : list Z) : Prop := forall k, NoDup (take (Z.to_nat d) (drop k h)).

Lemma distinct_cons d h x : distinct_windows d h -> x ∉ take (Z.to_nat d) h -> distinct_windows d (x :: h).
Proof using Type.
  unfold distinct_windows. generalize (Z.to_nat d). intros [|n] Hd Hx [|k]; try apply Hd; [constructor|]. rewrite drop_0. cbn [take]. specialize (Hd O). rewrite drop_0 in Hd. apply NoDup_cons. rewrite take_full in Hx, Hd. apply NoDup_app in Hd as (Hd & _). split; [|done]. intros Hin. apply Hx, elem_of_app. by left.
Qed.

(** The tags of the transactions that were sent on and belong to no bundle. *)
Definition sent_tags (seed : Z) (outs : list (option (fd_txn_m_t * Z))) : list Z := omap (fun o => match o with Some (m, 0) => Some (tag_of seed m) | _ => None end) outs.

Lemma sent_tag seed kind m t : tag_of seed (sent kind m t) = tag_of seed m.
Proof using Type. by destruct kind. Qed.

Lemma dedup_spec_hist d seed s i s' o : dedup_spec d seed s i s' o -> distinct_windows d (s_hist s) ->
  distinct_windows d (s_hist s') /\ exists pre, s_hist s' = pre ++ s_hist s /\ sublist (sent_tags seed [o]) pre.
Proof using Type.
  intros H Hd. assert (Eh : forall m, s_hist (d_enter s m) = s_hist s) by (intros m; unfold d_enter; by destruct (is_bundle m && negb (block_engine_bundle_id m =? s_bundle s))).
  inversion H as [j sig E|sig e E|k m Eb Ef|k m Eb Hr|k m t Eb Ht Hr|k m Eb Ef Hin|k m t Eb Ef Ht Hin]; subst; unfold with_hist, with_sig; cbn [s_hist]; rewrite ?Eh; try (by split; [|exists []]).
  - unfold window_step. destruct (bool_decide_reflect (sig_tag seed sig = 0 \/ sig_tag seed sig ∈ take (Z.to_nat d) (s_hist s))) as [_|Hno]; cbn [fst]; [by split; [|exists []]|]. split; [apply distinct_cons; [done|]; intros Hin; apply Hno; by right|]. exists [sig_tag seed sig]. split; [done|]. apply sublist_nil_l.
  - unfold repeated in Hr. split; [apply distinct_cons; [done|]; intros Hin; apply Hr; by right|]. exists [tag_of seed m]. split; [done|]. unfold sent_tags. cbn. by rewrite sent_tag.
Qed.

Lemma dedup_trace_hist d seed s ins s' outs : dedup_trace d seed s ins s' outs -> distinct_windows d (s_hist s) ->
  distinct_windows d (s_hist s') /\ exists pre, s_hist s' = pre ++ s_hist s /\ sublist (rev (sent_tags seed outs)) pre.
Proof using Type.
  induction 1 as [s|s i s1 o ins s2 os Hs Ht IH]; intros Hd; [by split; [|exists []]|]. destruct (dedup_spec_hist _ _ _ _ _ _ Hs Hd) as [Hd1 (p1 & E1 & S1)]. destruct (IH Hd1) as [Hd2 (p2 & E2 & S2)]. split; [done|]. exists (p2 ++ p1). rewrite E2, E1, app_assoc. split; [done|].
  change (o :: os) with ([o] ++ os). unfold sent_tags in *. rewrite omap_app, rev_app_distr. apply sublist_app; [done|]. destruct o as [[m [|q|q]]|]; done.
Qed.

(** Every message sent on was one of the messages that arrived. *)
Lemma dedup_trace_sent d seed s ins s' outs n m sg : dedup_trace d seed s ins s' outs -> outs !! n = Some (Some (m, sg)) -> exists kind m0 t, ins !! n = Some (DTxn kind m0) /\ is_txn m0 t /\ m = sent kind m0 t /\ sg = Z.b2z (is_bundle m0).
Proof using Type.
  intros H. revert n. induction H as [s|s i s1 o ins s2 os Hs Ht IH]; intros n E; [done|]. destruct n as [|n]; [|by apply IH]. cbn in E. injection E as ->. inversion Hs as [j sig E|sig e E|k m1 Eb Ef|k m1 Eb Hr|k m1 t Eb Ht1 Hr|k m1 Eb Ef Hin|k m1 t Eb Ef Ht1 Hin]; subst; exists k, m1, t; rewrite Eb; done.
Qed.

(** What a verify tile sends on is parsed and signed. *)
Lemma verify_trace_sent d seed s ms s' ks outs m : verify_trace d seed s ms s' ks outs -> Forall frag_ok ms -> Some m ∈ outs -> frag_ok m /\ exists t, is_txn m t /\ signed m t /\ txn_t m = Some (describe t).
Proof using Type.
  induction 1 as [s|s m1 s1 i o ms s2 ks os Hs Ht IH]; intros Hf Hin; [by apply not_elem_of_nil in Hin|]. apply Forall_cons in Hf as [Hm Hf]. apply elem_of_cons in Hin as [<-|Hin]; [|by apply IH]. inversion Hs; subst; (split; [done|]); by exists t.
Qed.

(** ** The same bundle again *)

Definition with_id (b : Z) (m : fd_txn_m_t) : fd_txn_m_t := mk_txn_m (payload m) b (txn_t_sz m) (txn_t m).
Definition as_bundle (b : Z) (ms : list fd_txn_m_t) : list dedup_in := (fun m => DTxn DEDUP_IN_VERIFY (with_id b m)) <$> ms.
Definition all_sent (b : Z) (ms : list fd_txn_m_t) : list (option (fd_txn_m_t * Z)) := (fun m => Some (with_id b m, 1)) <$> ms.

Lemma bundle_rest_passes d seed b ms : b <> 0 -> forall s s' outs ins, s_bundle s = b -> s_failed s = false -> NoDup (s_seen s ++ (first_sig <$> ms)) ->
  dedup_trace d seed s (as_bundle b ms ++ ins) s' outs -> exists outs', outs = all_sent b ms ++ outs' /\ exists s1, s_bundle s1 = b /\ dedup_trace d seed s1 ins s' outs'.
Proof using Type.
  intros Hb. induction ms as [|m ms IH]; intros s s' outs ins Eb Ef Hn Ht; [exists outs; split; [done|]; by exists s|]. cbn [as_bundle fmap list_fmap app] in Ht. inversion Ht as [|s0 i0 s1 o ins0 s2 os Hs Ht1]; subst.
  assert (Ebm : is_bundle (with_id (s_bundle s) m) = true) by (unfold is_bundle; cbn; by apply negb_true_iff, Z.eqb_neq). assert (Een : d_enter s (with_id (s_bundle s) m) = s) by (unfold d_enter; cbn [with_id block_engine_bundle_id]; by rewrite Z.eqb_refl, andb_false_r).
  cbn [fmap list_fmap] in Hn. assert (Hnot : first_sig m ∉ s_seen s) by (intros Hin; apply NoDup_app in Hn as (_ & Hn & _); apply (Hn _ Hin); by left).
  inversion Hs as [j sig E|sig e E|k m1 Eb1 Ef1|k m1 Eb1 Hr|k m1 t Eb1 Ht2 Hr|k m1 Eb1 Ef1 Hin|k m1 t Eb1 Ef1 Ht2 Hin]; subst; rewrite ?Een in *; try congruence; try done.
  destruct (IH (with_sig s false (first_sig m)) s' os ins eq_refl eq_refl) as (outs' & -> & Hrest); [cbn [with_sig s_seen]; by rewrite <- app_assoc|exact Ht1|]. by exists outs'.
Qed.

Lemma bundle_passes d seed b ms s s' outs ins : b <> 0 -> b <> s_bundle s -> NoDup (first_sig <$> ms) -> ms <> [] ->
  dedup_trace d seed s (as_bundle b ms ++ ins) s' outs -> exists outs', outs = all_sent b ms ++ outs' /\ exists s1, s_bundle s1 = b /\ dedup_trace d seed s1 ins s' outs'.
Proof using Type.
  intros Hb Hne Hn Hms Ht. destruct ms as [|m ms]; [done|]. apply (bundle_rest_passes d seed b (m :: ms) Hb (mk_dstate (s_hist s) b false []) s' outs ins); try done. cbn [as_bundle fmap list_fmap app] in *. inversion Ht as [|s0 i0 s1 o ins0 s2 os Hs Ht1]; subst. econstructor; [|exact Ht1]. clear Ht1 Ht.
  assert (Een : d_enter s (with_id b m) = d_enter (mk_dstate (s_hist s) b false []) (with_id b m)) by (unfold d_enter, is_bundle; cbn [with_id block_engine_bundle_id s_bundle s_hist]; by rewrite Z.eqb_refl, andb_false_r, (proj2 (Z.eqb_neq b 0)), (proj2 (Z.eqb_neq b (s_bundle s))) by done).
  assert (Ebm : is_bundle (with_id b m) = true) by (unfold is_bundle; cbn; by apply negb_true_iff, Z.eqb_neq).
  inversion Hs as [j sig E|sig e E|k m1 Eb1 Ef1|k m1 Eb1 Hr|k m1 t Eb1 Ht2 Hr|k m1 Eb1 Ef1 Hin|k m1 t Eb1 Ef1 Ht2 Hin]; subst; rewrite ?Een in *; try congruence; try done; [by apply ds_peer_failure|by apply ds_bundle_duplicate|by apply (ds_bundle_pass _ _ _ _ _ t)].
Qed.

Lemma as_bundle_rest b ms ins : b <> 0 -> forall cnt, (cnt + length ms <= 5)%nat -> bundles_ok b (cnt + length ms) ins -> bundles_ok b cnt (as_bundle b ms ++ ins).
Proof using Type.
  intros Hb. induction ms as [|m ms IH]; intros cnt Hl Hi; [cbn in *; by rewrite Nat.add_0_r in Hi|]. cbn [as_bundle fmap list_fmap app bundles_ok length] in *. unfold is_bundle. cbn [with_id block_engine_bundle_id]. rewrite (proj2 (Z.eqb_neq b 0)), Z.eqb_refl by done. cbn [negb]. split; [lia|]. apply IH; [lia|]. by replace (S cnt + length ms)%nat with (cnt + S (length ms))%nat by lia.
Qed.

Lemma as_bundle_new b cur cnt ms ins : b <> 0 -> b <> cur -> ms <> [] -> (length ms <= 5)%nat -> bundles_ok b (length ms) ins -> bundles_ok cur cnt (as_bundle b ms ++ ins).
Proof using Type.
  intros Hb Hne Hms Hl Hi. destruct ms as [|m ms]; [done|]. cbn [as_bundle fmap list_fmap app bundles_ok length] in *. unfold is_bundle. cbn [with_id block_engine_bundle_id]. rewrite (proj2 (Z.eqb_neq b 0)), (proj2 (Z.eqb_neq b cur)) by done. cbn [negb]. split; [lia|]. by apply as_bundle_rest.
Qed.

Lemma dedup_init_ok d seed t sigs : recent t [] -> depth t = d -> length sigs = 4%nat -> dedup_inv d seed (dedup_init seed t sigs) (mk_dstate [] 0 false []).
Proof using Type. intros R E Hs. split; try done. cbn. split; [done|]. intros. lia. Qed.

End tiles.

(** ** Properties *)


(** The message was sent on by a verify tile, whatever it had received. *)
Definition verify_output (ed25519_batch : list Z -> list Z -> list Z -> Z) (m : fd_txn_m_t) : Prop :=
  exists shmem d idx cnt seed t frags ctx' outs, is_u64 d /\ fd_tcache_new shmem d 0 = Ok (Some t) /\ Forall (fun f => frag_ok f.2) frags /\
    verify_run ed25519_batch (verify_init idx cnt seed t) frags = Ok (ctx', outs) /\ Some m ∈ outs.

Lemma verify_output_ok ed25519_batch m : verify_output ed25519_batch m -> frag_ok m /\ exists t, is_txn m t /\ signed ed25519_batch m t /\ txn_t m = Some (describe t).
Proof.
  intros (shmem & d & idx & cnt & seed & t & frags & ctx' & outs & Hd & Ht & Hf & Er & Hin). destruct (tcache_new_inv shmem d 0 t Hd ltac:(unfold is_u64, ULONG_MAX; lia) Ht) as [R E]. destruct (verify_run_ok ed25519_batch d seed frags _ _ (verify_init_ok d idx cnt seed t R E) Hf) as (c & s' & ks & outs' & Er' & Hs & _ & _). assert (outs' = outs) as -> by congruence.
  apply (verify_trace_sent ed25519_batch d seed _ _ _ _ _ m Hs); [|done]. apply Forall_fmap. exact Hf.
Qed.


(** A bundle whose transactions were all sent on is sent on again in full when it
    arrives a second time under another identifier: the dedup tile compares the
    transactions within a bundle, not bundles. *)
Theorem same_bundle_twice (shmem d seed : Z) (t : fd_tcache_t) (sigs : list (list Z)) (b1 b2 : Z) (ms : list fd_txn_m_t) :
  is_u64 d -> fd_tcache_new shmem d 0 = Ok (Some t) -> length sigs = 4%nat -> b1 <> 0 -> b2 <> 0 -> b1 <> b2 -> ms <> [] -> (length ms <= 5)%nat -> NoDup (first_sig <$> ms) ->
  Forall (fun m => dedup_in_ok (DTxn DEDUP_IN_VERIFY m)) ms ->
  exists ctx', dedup_run (dedup_init seed t sigs) (as_bundle b1 ms ++ as_bundle b2 ms) = Ok (ctx', all_sent b1 ms ++ all_sent b2 ms).
Proof.
  intros Hd Ht Hs H1 H2 H12 Hms Hl Hn Hok. destruct (tcache_new_inv shmem d 0 t Hd ltac:(unfold is_u64, ULONG_MAX; lia) Ht) as [R E].
  assert (Hb : forall b, Forall dedup_in_ok (as_bundle b ms)) by (intros b; apply Forall_fmap; eapply Forall_impl; [exact Hok|]; done).
  assert (Hbo : bundles_ok 0 0 (as_bundle b1 ms ++ as_bundle b2 ms)) by (apply as_bundle_new; try done; rewrite <- (app_nil_r (as_bundle b2 ms)); apply as_bundle_new; done).
  destruct (dedup_run_ok d seed (as_bundle b1 ms ++ as_bundle b2 ms) _ _ 0 (dedup_init_ok d seed t sigs R E Hs) ltac:(apply Forall_app; split; apply Hb) Hbo ltac:(cbn; lia)) as (ctx' & s' & outs & Er & Htr & _).
  destruct (bundle_passes d seed b1 ms (mk_dstate [] 0 false []) _ _ _ H1 H1 Hn Hms Htr) as (o2 & -> & s1 & E1 & Ht2). rewrite <- (app_nil_r (as_bundle b2 ms)) in Ht2. destruct (bundle_passes d seed b2 ms s1 _ _ _ H2 ltac:(congruence) Hn Hms Ht2) as (o3 & -> & s2 & _ & Ht3). inversion Ht3; subst. rewrite app_nil_r in Er. by exists ctx'.
Qed.

(** Of the verify tiles [0 .. cnt-1] exactly one handles a packet, a transaction of
    a bundle or a vote from gossip. *)
Theorem round_robin_unique (tile : Z -> fd_verify_ctx_t) (cnt : Z) (kind : verify_in_kind) (seq sig : Z) :
  0 < cnt -> (forall i, round_robin_idx (tile i) = i /\ round_robin_cnt (tile i) = cnt) -> kind = IN_KIND_QUIC \/ kind = IN_KIND_BUNDLE \/ kind = IN_KIND_GOSSIP /\ sig = FD_GOSSIP_UPDATE_TAG_VOTE ->
  exists! i, 0 <= i < cnt /\ verify_before_frag (tile i) kind seq sig = false.
Proof.
  intros Hc Ht Hk. pose proof (Z.mod_pos_bound seq cnt Hc) as Hm. assert (Hx : forall j, 0 <= j < cnt -> (forall i, verify_before_frag (tile i) kind seq sig = negb (j =? i)) -> exists! i, 0 <= i < cnt /\ verify_before_frag (tile i) kind seq sig = false).
  { intros j Hj Hb. exists j. split; [by rewrite Hb, Z.eqb_refl|]. intros i' [_ Hi]. rewrite Hb in Hi. apply negb_false_iff, Z.eqb_eq in Hi. done. }
  unfold verify_before_frag in *. destruct Hk as [->|[->|[-> ->]]]; cbn [orb] in *.
  - apply (Hx (seq mod cnt)); [done|]. intros i. by destruct (Ht i) as [-> ->].
  - destruct (sig =? 0); cbn [orb] in *; [apply (Hx (seq mod cnt)); [done|]|apply (Hx 0); [lia|]]; intros i; destruct (Ht i) as [-> E]; rewrite ?E; [done|]. by rewrite Z.eqb_sym.
  - apply (Hx (seq mod cnt)); [done|]. intros i. destruct (Ht i) as [-> ->]. by rewrite Z.eqb_refl, orb_false_r.
Qed.

(** ** Examples *)

(** The transaction of the parser's example, and a verifier that looks at the first
    byte of the signatures. *)
Definition ex_verifier (msg sigs keys : list Z) : Z := if match sigs with b :: _ => b =? 1 | [] => false end then FD_ED25519_SUCCESS else -3.
Definition ex_msg (b : Z) : fd_txn_m_t := mk_txn_m (encode_txn example_txn) b 0 None.
Definition ex_tcache : fd_tcache_t := match fd_tcache_new 4096 2 0 with Ok (Some t) => t | _ => mk_tcache 0 0 0 0 ∅ ∅ end.

Lemma ex_tcache_new : fd_tcache_new 4096 2 0 = Ok (Some ex_tcache).
Proof. vm_compute. reflexivity. Qed.

(** A transaction, the same again, a payload that is none, and a bundle of it. *)
Definition ex_junk : fd_txn_m_t := mk_txn_m [1; 2; 3] 0 0 None.
Definition ex_frags : list (verify_in_kind * fd_txn_m_t) := [(IN_KIND_QUIC, ex_msg 0); (IN_KIND_QUIC, ex_msg 0); (IN_KIND_GOSSIP, ex_junk); (IN_KIND_BUNDLE, ex_msg 5)].
Definition ex_parsed (b : Z) : fd_txn_m_t := mk_txn_m (encode_txn example_txn) b 38 (Some (describe example_txn)).

Lemma ex_frags_ok : Forall (fun f => frag_ok f.2) ex_frags.
Proof. repeat constructor; try exact example_txn_bytes; by vm_compute. Qed.

Lemma res_snd {A B} (r : res (A * B)) b : (os ← r; Ok os.2) = Ok b -> exists a, r = Ok (a, b).
Proof. destruct r as [[a b']| | |]; cbn; intros E; try done. injection E as ->. by exists a. Qed.

Lemma ex_run : exists ctx', verify_run ex_verifier (verify_init 0 1 7 ex_tcache) ex_frags = Ok (ctx', [Some (ex_parsed 0); None; None; Some (ex_parsed 5)]).
Proof. apply res_snd. vm_compute. reflexivity. Qed.


Lemma ex_output b : b = 0 \/ b = 5 -> verify_output ex_verifier (ex_parsed b).
Proof.
  intros Hb. destruct ex_run as (ctx' & E). eexists 4096, 2, 0, 1, 7, ex_tcache, ex_frags, ctx', _. split; [unfold is_u64, ULONG_MAX; lia|]. split; [exact ex_tcache_new|]. split; [exact ex_frags_ok|]. split; [exact E|]. destruct Hb as [->| ->]; rewrite !elem_of_cons; [by left|right; right; right; by left].
Qed.

(** The transaction comes twice, then its bundle, then it was executed. *)
Definition ex_ins : list dedup_in := [DTxn DEDUP_IN_VERIFY (ex_parsed 0); DTxn DEDUP_IN_VERIFY (ex_parsed 0); DTxn DEDUP_IN_VERIFY (ex_parsed 5); DExecuted (replicate 64 3)].
Definition ex_sigs : list (list Z) := replicate 4 (replicate 64 0).


(** The same bundle under two identifiers is sent on twice. *)
Example ex_bundle_twice : (os ← dedup_run (dedup_init 7 ex_tcache ex_sigs) [DTxn DEDUP_IN_VERIFY (ex_parsed 5); DTxn DEDUP_IN_VERIFY (ex_parsed 6)]; Ok os.2) = Ok [Some (ex_parsed 5, 1); Some (ex_parsed 6, 1)].
Proof. vm_compute. reflexivity. Qed.
